(* ===== verification/_CoqProject ===== *)
-Q . S2P
Prelude.v
Text.v
Fields.v
Core.v
SessionIdentity.v
Lifecycle.v
Digest.v
Binding.v
CryptoModel.v
Authority.v
Sqlite.v
Integrity.v
Validation.v
Store.v
OpenStore.v
Scenario.v
Run.v
Protocol.v
StoreInvariant.v
StoreWrites.v
StoreRefine.v
StoreSpec.v
StoreSafety.v
IntegrityComplete.v
StoreLiveness.v
OpenFacts.v
OpenLive.v
StoreReads.v
IntegritySound.v
TamperEvidence.v
Witnesses.v
Ordered.v
Capability.v
Graph.v
GraphFacts.v
Intent.v
Planner.v
PlannerFacts.v
Policy.v
RiskReview.v
RiskReviewFacts.v
ApprovalStore.v
ApprovalInvariant.v
ApprovalFacts.v
Preview.v
DurableDigest.v
Protective.v
DurableAuthority.v
DurableInvariant.v
DurableFacts.v
DurableOutcomes.v
PlanWitnesses.v
DurableWitnesses.v
Paths.v
Files.v
ControlFiles.v
FileFacts.v
ControlFacts.v
Update.v
UpdateCoordinator.v
UpdateSteps.v
UpdateSafety.v
UpdateEvidence.v
UpdateEvidenceFacts.v
UpdateWitnesses.v
MigrationLedger.v
MigrationRunner.v
MigrationSteps.v
MigrationRuns.v
MigrationSafety.v
MigrationBackupFacts.v
MigrationWitnesses.v
BootstrapState.v
BootstrapText.v
BootstrapStore.v
BootstrapBaseline.v
BootstrapFacts.v
BootstrapDisk.v
BootstrapRecovery.v
BootstrapWitnesses.v
