(* ===== verification/Prelude.v ===== *)
(** * Linura authority plane: verification library

    Linura is a control plane for a Linux desktop.  Clients state intents;
    the planner compiles them to desired state, compares that with observed
    state and proposes changes; risk classification, policy and approval turn
    a plan into an _authority binding_; and a durable transaction store
    records, under authenticated and hash-chained audit, how far each change
    has gone: prepared, handed off (indeterminate), verified, committed,
    aborted or recovery-blocked.  This library models both halves: the
    _planning plane_ (capabilities, observations, graph, intents, plans,
    policy, risk, approvals), which decides what may be done and has no
    authority to do it, and the _authority plane_, from the values it is
    built of to the SQL statements of its store; and beside them the engines
    that keep their progress in files and must survive a crash: updates,
    migrations and the bootstrap of a machine.

    ** The program's parts and where they are modelled

    - Prelude, Text: Rust's [Result] as a monad, 64-bit checked arithmetic,
      length-prefixed frames of bytes, text predicates ([trim], control
      characters, decimal numbers).
    - Core: [linura-core/src/lib.rs]: typed identifiers, operation classes,
      semantic reasons.
    - Fields: splitting, numbers and hexadecimal.
    - SessionIdentity: [linura-core/src/session_epoch.rs],
      [session_transition.rs] and [sleep_invocation.rs]: the identities of
      boots, login sessions, locks, transitions and sleep invocations, and
      their textual resource names.
    - Lifecycle: [linura-lifecycle/src/lib.rs]: the mutation stage machine
      ([MutationProgress::advance]) and workflow validation.
    - Digest, Binding: [linura-transaction/src/lib.rs], lines 1-432: content
      digests, transaction identifiers, the canonical encoding of
      [AuthorityBinding::try_new].
    - Authority: the rest of that file: keys, the signer and
      the verifier, the signed handoff, recovery and commit requests, the
      snapshot and error types of the [TransactionStore] trait.
    - CryptoModel: a concrete, computable instance of the cryptographic
      interface, so that scenarios evaluate.
    - Sqlite: [linura-persistence-sqlite/src/schema.rs]: the tables as finite
      maps with the CHECK, key, foreign-key and trigger rules of the two
      migrations; the statement monad [M].
    - Integrity: [integrity.rs] and the canonical record encodings of
      [validation_base.rs].
    - Validation: [validation_base.rs] and [validation.rs]:
      bounded loads, generation history, audit chain, capacity, reservation
      and schema checks.
    - Store: [store.rs]: the private helpers, and the operations
      [prepare], [handoff], [recover], [commit], [abort_prepared],
      [snapshot], [recovery_anchor], [verified_commit_material],
      [list_state] and [integrity_check].
    - OpenStore: the opening of a store ([store.rs], [open] and its variants)
      and [validation.rs]: connection configuration, identity of the file
      before it is configured, initialisation, migration of a schema-v1 file.
    - Ordered: [BTreeMap] and [BTreeSet] as finite maps with ordered
      iteration.
    - Capability: [linura-capability-sdk]: effect bindings,
      operation descriptors and registry, the catalog and [resolve].
    - Graph, GraphFacts: [linura-observation]: envelopes, freshness, evidence
      ids; [linura-graph]: the system graph.
    - Intent: [linura-intent/src/model.rs]: intents and setups.
    - Planner, PlannerFacts: [linura-planner]:
      [compile_intent], [plan_resource] and the plan store.
    - Policy: [linura-policy]: policy subjects, the trait
      [PolicyEngine] as a class, and its baseline, session-lock and
      protective-lock instances.
    - RiskReview, RiskReviewFacts: [linura-control]:
      [operation_registry.rs], [risk_classification.rs],
      [policy_review.rs].
    - ApprovalStore, ApprovalInvariant, ApprovalFacts: [linura-control]: [approval.rs] and
      [approval_review.rs], the approval lifecycle.
    - Preview: [linura-control/src/plan_preview.rs]: request
      normalisation and the bounded preview store.
    - DurableDigest: the canonical digests of
      [linura-control/src/durable_authority.rs].
    - Protective: [protective_lock_execution.rs] (context
      and consent) and the comparison of reviews in [managed_lifecycle.rs].
    - DurableAuthority: [durable_authority.rs]: the control
      that owns the approvals and the store, every operation of it.
    - Paths: the text functions of the standard library that the file formats
      use (UTF-8, [lines], [rfind], [trim]), and paths.
    - Files: a POSIX file system as the update engine uses it: names, inodes,
      open files, rename, fsync, locks, in a monad [IO] where calls fail,
      other processes interfere and the process may be killed.
    - ControlFiles: the routines for control files that [linura-update] and
      [linura-migrations] each have a copy of: lock file, atomic replacement,
      integrity tag.
    - Update, UpdateCoordinator, UpdateEvidence: [linura-update/src/lib.rs]:
      update states and journal, the coordinator, the signed receipts with
      their verifier and issuer.
    - MigrationLedger, MigrationRunner:
      [linura-migrations/src/lib.rs]: the ledger and the recovery record with
      their texts, backup evidence, the store and the runner.  An
      implementation of the trait [Migration] is a record of computations,
      of which the theorems ask only that it leaves the control directory
      alone ([well_behaved]).
    - BootstrapState, BootstrapText, BootstrapStore: [linura-bootstrap],
      [durable/]: the bootstrap state machine ([state.rs]), the texts of
      manifest, ledger and generation anchor ([codec.rs], [manifest.rs],
      [persistence.rs], [anchor.rs]), the store, the coordinator with its
      two-phase commit of ledger and anchor ([store.rs], [anchor.rs]), the
      receipts of owner and preparer ([owner_enrollment.rs]) and the evidence
      of effects ([verification.rs]).
    - BootstrapBaseline: the observations of [verification.rs]: firewall rules,
      SSH units and listeners, package sources, network interfaces.
    - BootstrapRecovery: [linura-bootstrap/src/lib.rs]: the ledger of stages,
      First Boot readiness, the recovery checkpoint.
    - Scenario: one concrete run of the store through its whole life, on
      which the instances of the theorems are evaluated (Witnesses);
      PlanWitnesses, DurableWitnesses, UpdateWitnesses, MigrationWitnesses
      and BootstrapWitnesses hold those of the planning plane, of the durable
      authority, of updates, of migrations and of the bootstrap.

    ** State, errors and the outside world

    A store operation is a function [Env -> Session -> Session * result].
    The session holds the database, whether a SQL transaction is open, and
    the number of statements issued.  [Env] answers for everything outside
    the modelled code: whether the [n]-th statement fails (disk full, busy,
    I/O), what the filesystem reserve functions return, the clock, what
    [PRAGMA integrity_check] reports.  The theorems quantify over [Env], so
    they hold for every pattern of failing statements.
    [immediate_transaction] restores the database when its body fails or the
    SQL commit fails.  Machine integers are [Z] with the range checks of
    [checked_add] and [i64::try_from] written out.

    SHA-256, HMAC and hex are the class [Crypto] (Digest), with the facts the
    code relies on in [CryptoLaws]: digest length, lower-case hex.  No
    collision resistance is assumed: TamperEvidence and DurableDigest conclude
    with two inputs that were hashed and collide instead.  The same class holds the [Debug] rendering
    of strings, which occurs in messages only.  The text of the migrations
    and what SQLite makes of them ([schema_batch]) are the class
    [Migrations] (Validation).

    The planning plane is pure: validation and planning are functions to
    [result]; a store is a record and an operation returns the store after
    the call with its result, also when it fails.  The approval lifecycle
    takes the answer of the system clock as an argument; its runs
    (ApprovalInvariant, [run]) carry the log of what was issued and revoked.

    The durable authority is a state and error monad [D] over the control
    (approvals, store, connection, signer, clock) and what lies outside it:
    [Env] and the readings of the system clock.  The planner it asks for
    fresh candidates is the class [PlanPreviews], with the one law
    [PlanPreviewsLaws] that a planned request identifier is a valid one.
    DurableFacts defines the worlds a control reaches together with the
    capabilities (candidates, prepared authorities) its caller holds, which
    in the code have private fields and come only from its operations.

    A file-system operation is a function [FsEnv -> World -> World * option
    (result E A)], where [None] means that the process was killed.  Every name
    has a latest value and the values a power loss may bring back (those
    written since the directory was last synced), every inode a flag that says
    whether its data is on disk; [power_loss] picks.  [FsEnv] answers for what
    fails, where the process dies, how far a failing write came, the clock and
    what other processes do between calls.  FileFacts states what the theorems
    ask of those others ([quiet]): they leave the control directory to the
    processes that hold its lock.  The directory itself is taken to be on
    disk: [create_dir_all] does not sync the parents of what it creates.

    A method of the bootstrap coordinator is an [Action]: [IO] that carries the
    coordinator.  The status of the process and the identity files of the
    machine are the class [Host]; what commands print and what the observed
    files and directories hold is the class [Observer], whose answers may
    differ from call to call.

    ** The theorems

    - Protocol is the abstract contract: a machine per transaction driven by
      the events of its audit trail.  StoreInvariant relates a database to
      it; StoreWrites, StoreRefine and StoreSpec carry the invariant and the
      refinement through each statement and operation.
    - StoreSafety: every request refines the machine and keeps the invariant
      whatever fails; requests are atomic; at most one handoff per
      generation; a commit follows a verification; terminal states and the
      audit trail are immutable.
    - Run, IntegrityComplete and StoreLiveness:
      without faults the operations do succeed: a prepared transaction can
      be aborted and a verified one committed however full the store is
      (the logical audit reserve pays for the last event), every reachable
      database passes the integrity check, and reads return the replayed
      state.
    - IntegritySound, TamperEvidence: what a successful integrity check says
      about an arbitrary database.
    - StoreReads: reads do not write, prepare is idempotent, material and
      anchors are read back as stored, handoffs are authorised.
    - Authority, Binding, TamperEvidence: the encodings that are signed or
      authenticated are injective, signed requests verify, and tags are
      compared exactly.
    - SessionIdentity: identities and resource names correspond one to one.
    - Lifecycle, Core: the stage machine and the validators.
    - OpenFacts, OpenLive: opening never touches the records, refuses
      foreign files unchanged, yields an installed database, and succeeds on
      new, schema-v1 and reachable files.
    - Capability, Graph, GraphFacts: resolution computes the
      closure of the request and all conflicts, terminates and ignores the
      order of the request; the graph has no dangling edges and its current
      state never regresses; evidence identifiers are injective.
    - PlannerFacts, Planner: compiled intents and plans are exact
      (union of contributions, difference of states), disagreements are
      errors, and the plan store refines a bounded queue.
    - Policy, RiskReviewFacts: the two lock policies let through exactly
      the cases they name, review fails closed, and a plan that changes
      anything is never allowed without approval.
    - ApprovalFacts: the approval store is bounded and its accounts exact;
      evidence is accepted exactly while it is issued for the reviewed
      evaluation, current and not revoked; requests are not replayed.
    - Preview, DurableDigest: the preview store is a bounded queue with
      exact accounts and replays exactly; a review digest determines the
      review.
    - DurableInvariant (triples, inversion), DurableFacts: in
      every reachable world authority is revalidated when it is used, and a
      handoff is of exactly the generation that was authorised.
    - DurableOutcomes: a restart retires what was prepared, recovery concludes
      what its observation shows and never replays when it only observes, a
      commit commits exactly the verified material.
    - FileFacts (triples over [IO]), ControlFacts: replacing a
      control file is atomic across failures, kills and power loss.
    - ControlFiles, Update, UpdateEvidenceFacts: journals and receipts
      are read back as written, and a receipt is believed only when it is
      authentic, bound and fresh.
    - UpdateSteps, UpdateSafety: on a machine with any number of
      coordinators, crashes and power losses, acknowledged progress survives,
      a package transaction is dispatched at most once, and an update moves
      past it only on a receipt for it.
    - MigrationSteps opens with the contract of a migration store: what can
      be read of ledger and marker, what a power loss may leave of them, and the
      history of what was asked of migrations.  MigrationSteps and
      MigrationRuns show that every operation takes its steps.
      MigrationSafety: no migration is applied again before its last
      application was rolled back, an interrupted one stops every later
      runner, the ledger holds what was acknowledged and only what was
      verified.  All three are about power losses that bring the changes of
      the store's directory to the disk in the order in which they were made
      ([ordered_loss], an assumption on the file system);
      MigrationWitnesses.unordered_loss_reapplies shows that without it a
      migration can be applied twice and an interrupted one be forgotten.
    - MigrationBackupFacts: a migration that asks for a snapshot starts only
      on a backup of its own target, which was the file that the target named
      when it was looked at last; the held files of target and backup have the
      same bytes as long as other processes leave these two files alone
      ([untouched]).
    - BootstrapText: states and anchors are read back as written, but for an
      operation named by a dash.  BootstrapFacts: in runs of the state machine
      stages complete in order and on evidence of started operations, and
      owner authority is minted once; a verified security baseline was
      observed by the calls of the run that verified it.  BootstrapDisk, with
      ledger and anchor in two directories: every operation of the coordinator
      makes durable exactly its own transition of the state machine, or leaves
      the ledger or puts its next state over it; an acknowledged commit
      survives a power loss; an opening accepts only a ledger that the anchor
      vouches for.  These hold whether or not the two files are settled on the
      disk.  That a power loss at any point of a commit or an opening leaves a
      ledger that its anchor vouches for is shown for files that were settled
      when it began; BootstrapWitnesses.anchor_outruns_ledger shows what can
      happen when they were not.  States are ones that can be read back: no
      identifier in them is a dash.
    - BootstrapBaseline: the firewall check is exact on rulesets made of
      chains.  BootstrapRecovery: readiness asks for exactly the completed
      stages, the policy and the binding; recovery evidence passes it.
    - Witnesses, PlanWitnesses, DurableWitnesses, UpdateWitnesses,
      MigrationWitnesses, BootstrapWitnesses: the theorems applied to concrete
      values.

    ** Bounds

    One function needs fuel: the worklist of [resolve] (Capability) gets the
    length of the request plus the number of declared relations, each of
    which is pushed at most once; Capability proves it enough for every
    catalog.  Loops over tables recurse on the rows read; the loop over
    generations runs [current_generation + 1] times, after the code has
    checked that number against [MAX_TRANSACTION_GENERATIONS] and the limits
    of the store.  The loop over the chains of a ruleset (BootstrapBaseline)
    gets as many rounds as there are words, of which each round uses one.  The
    loops that read a file to its end (MigrationRunner, BootstrapRecovery) make as many
    rounds as [FsEnv] grants ([patience]) and then count as killed:
    the theorems about them hold for every number of rounds.

    ** Not modelled

    The files of the filesystem reserve (its SQL functions are answers of
    [Env]); the request journal and the protective-lock repository; the
    observation providers behind the previews; the rest of the control
    service (managed lifecycle, session transitions, transient effects,
    agent interpretation); the library crate, a second SQLite store; the
    applications, among them the first boot one that drives the bootstrap
    coordinator; D-Bus and Linux adapters, which are I/O.  Of the bootstrap
    crate, what exists only in test and qualification builds.  The functions of
    [validation_base.rs] that [validation.rs] supersedes are not modelled
    twice. *)

From Stdlib Require Import ZArith Lia.
From stdpp Require Import base numbers gmap strings list fin_maps sorting.

Set Default Goal Selector "!".

(** Validity of derived digests and identifiers, extended where they are
    proved valid. *)
Create HintDb linura discriminated.

(** ** Results

    Rust's [Result<T, E>].  The error type comes first so that [result E] is
    a monad; the [?] operator is [mbind]. *)
Inductive result (E A : Type) : Type :=
| Ok (a : A)
| Err (e : E).
Arguments Ok {E A} a.
Arguments Err {E A} e.

#[export] Instance result_ret {E} : MRet (result E) := λ A a, Ok a.
#[export] Instance result_bind {E} : MBind (result E) := λ A B f m,
  match m with Ok a => f a | Err e => Err e end.
#[export] Instance result_fmap {E} : FMap (result E) := λ A B f m,
  match m with Ok a => Ok (f a) | Err e => Err e end.

#[export] Instance result_eq_dec {E A} `{EqDecision E, EqDecision A} :
  EqDecision (result E A).
Proof. solve_decision. Defined.

(** [if c { return Err(e) }] as a statement of the monad. *)
Definition reject_if {E} (c : bool) (e : E) : result E unit :=
  if c then Err e else Ok tt.

(** [result.map_err(f)]. *)
Definition map_err {E F A} (f : E → F) (m : result E A) : result F A :=
  match m with Ok a => Ok a | Err e => Err (f e) end.

(** [option.ok_or(e)]. *)
Definition ok_or {E A} (o : option A) (e : E) : result E A :=
  match o with Some a => Ok a | None => Err e end.

(** [result.is_ok()]. *)
Definition is_ok {E A} (m : result E A) : bool :=
  match m with Ok _ => true | Err _ => false end.

Section result_lemmas.
Context {E F A B : Type}.
Implicit Types (m : result E A) (e : E).

Lemma bind_Ok m (f : A → result E B) b :
  m ≫= f = Ok b ↔ ∃ a, m = Ok a ∧ f a = Ok b.
Proof. destruct m; cbn; naive_solver. Qed.

Lemma bind_Err m (f : A → result E B) e :
  m ≫= f = Err e ↔ m = Err e ∨ ∃ a, m = Ok a ∧ f a = Err e.
Proof. destruct m; cbn; naive_solver. Qed.

Lemma reject_if_Ok c e u : reject_if c e = Ok u ↔ c = false.
Proof. destruct c, u; cbn; naive_solver. Qed.

Lemma reject_if_Err c e e' : @reject_if E c e = Err e' ↔ c = true ∧ e = e'.
Proof. destruct c; cbn; naive_solver. Qed.

Lemma map_err_Ok (f : E → F) m a : map_err f m = Ok a ↔ m = Ok a.
Proof. destruct m; cbn; naive_solver. Qed.

Lemma ok_or_Ok (o : option A) e a : ok_or o e = Ok a ↔ o = Some a.
Proof. destruct o; cbn; naive_solver. Qed.
End result_lemmas.

(** [ok_inv] splits a successful run of a [result] computation into the
    success of each of its steps. *)
Ltac ok_inv_step :=
  match goal with
  | H : _ ≫= _ = Ok _ |- _ =>
      apply bind_Ok in H; destruct H as (? & ? & H)
  | H : reject_if _ _ = Ok _ |- _ => apply reject_if_Ok in H
  | H : map_err _ _ = Ok _ |- _ => apply map_err_Ok in H
  | H : ok_or _ _ = Ok _ |- _ => apply ok_or_Ok in H
  | H : Ok _ = Ok _ |- _ => injection H as H
  | H : Err _ = Ok _ |- _ => discriminate H
  | H : mret _ = Ok _ |- _ => cbv [mret result_ret] in H
  end.
Ltac ok_inv := repeat (ok_inv_step; simplify_eq).

(** ** Machine integers

    [u64] and [i64] values are integers of [Z]; the operations below carry
    the width explicitly. *)
Definition u64_max : Z := 2 ^ 64 - 1.
Definition i64_max : Z := 2 ^ 63 - 1.

Definition is_u64 (x : Z) : Prop := (0 ≤ x ≤ u64_max)%Z.

(** [u64::checked_add]. *)
Definition u64_checked_add (x y : Z) : option Z :=
  if (x + y <=? u64_max)%Z then Some (x + y)%Z else None.
(** [u64::checked_sub]. *)
Definition u64_checked_sub (x y : Z) : option Z :=
  if (y <=? x)%Z then Some (x - y)%Z else None.
(** [u64::checked_mul]. *)
Definition u64_checked_mul (x y : Z) : option Z :=
  if (x * y <=? u64_max)%Z then Some (x * y)%Z else None.
(** [u64::saturating_add]. *)
Definition u64_saturating_add (x y : Z) : Z := Z.min (x + y) u64_max.
Definition u64_saturating_sub (x y : Z) : Z := Z.max (x - y) 0.
(** [u64::try_from] on an [i64]. *)
Definition u64_try_from (x : Z) : option Z :=
  if (0 <=? x)%Z then Some x else None.

Lemma u64_checked_add_Some x y z :
  u64_checked_add x y = Some z ↔ z = (x + y)%Z ∧ (x + y ≤ u64_max)%Z.
Proof. unfold u64_checked_add. destruct (Z.leb_spec (x + y) u64_max); naive_solver lia. Qed.

Lemma u64_checked_sub_Some x y z :
  u64_checked_sub x y = Some z ↔ z = (x - y)%Z ∧ (y ≤ x)%Z.
Proof. unfold u64_checked_sub. destruct (Z.leb_spec y x); naive_solver lia. Qed.

Lemma u64_try_from_Some x y : u64_try_from x = Some y ↔ y = x ∧ (0 ≤ x)%Z.
Proof. unfold u64_try_from. destruct (Z.leb_spec 0 x); naive_solver lia. Qed.

(** ** Lists *)
Lemma cons_eq_iff {A} (x y : A) l k : x :: l = y :: k ↔ x = y ∧ l = k.
Proof. naive_solver. Qed.

Lemma list_filter_ext_in {A} (P Q : A → Prop) `{∀ x, Decision (P x), ∀ x, Decision (Q x)} (l : list A) :
  (∀ x, x ∈ l → P x ↔ Q x) → filter P l = filter Q l.
Proof.
  induction l as [|x l IH]; intros HPQ; [done|]. rewrite !filter_cons.
  rewrite IH by (intros; apply HPQ; by right). pose proof (HPQ x (list_elem_of_here _ _)).
  repeat case_decide; naive_solver.
Qed.
