(* ===== verification/Text.v ===== *)
(** * Text and bytes

    What the sources use of Rust's [str], [String], [char], integer printing
    and parsing, and big-endian integer bytes.  A Rust string is its UTF-8
    byte sequence, a Rocq [string]; [chars] decodes it to code points.  The
    length-prefixed field format shared by linura-transaction and
    linura-persistence-sqlite is [frame]; [frames_inj] is its injectivity. *)

From Stdlib Require Import ZArith Lia DecimalString DecimalN DecimalPos.
From Stdlib Require Import Strings.Byte.
From stdpp Require Import base numbers gmap strings list fin_maps sorting.
From S2P Require Import Prelude.

Set Default Goal Selector "!".

#[export] Instance byte_eq_dec : EqDecision Byte.byte := Byte.byte_eq_dec.

Definition bytes := list Byte.byte.

(** [str::as_bytes] and [str::len]. *)
Definition as_bytes (s : string) : bytes := String.list_byte_of_string s.
Definition str_len (s : string) : Z := Z.of_nat (String.length s).

Lemma as_bytes_inj s t : as_bytes s = as_bytes t → s = t.
Proof.
  intros H. rewrite <- (String.string_of_list_byte_of_string s).
  rewrite <- (String.string_of_list_byte_of_string t). unfold as_bytes in H. by rewrite H.
Qed.

Lemma length_as_bytes s : length (as_bytes s) = String.length s.
Proof.
  unfold as_bytes, String.list_byte_of_string. rewrite length_map.
  induction s as [|c s IH]; [done|]. cbn. by f_equal.
Qed.

(** ** Characters *)
Definition codes (s : string) : list N := map Ascii.N_of_ascii (String.list_ascii_of_string s).

Definition utf8_cont (b : N) : N := N.land b 63.

(** Code points of a well-formed UTF-8 sequence ([str::chars]). *)
Fixpoint utf8_decode (l : list N) : list N :=
  match l with
  | [] => []
  | b0 :: r =>
      if (b0 <? 128)%N then b0 :: utf8_decode r
      else if (b0 <? 224)%N then
        match r with
        | b1 :: r => N.lor (N.shiftl (N.land b0 31) 6) (utf8_cont b1) :: utf8_decode r
        | _ => []
        end
      else if (b0 <? 240)%N then
        match r with
        | b1 :: b2 :: r =>
            N.lor (N.shiftl (N.land b0 15) 12)
              (N.lor (N.shiftl (utf8_cont b1) 6) (utf8_cont b2)) :: utf8_decode r
        | _ => []
        end
      else
        match r with
        | b1 :: b2 :: b3 :: r =>
            N.lor (N.shiftl (N.land b0 7) 18)
              (N.lor (N.shiftl (utf8_cont b1) 12)
                 (N.lor (N.shiftl (utf8_cont b2) 6) (utf8_cont b3))) :: utf8_decode r
        | _ => []
        end
  end.

Definition chars (s : string) : list N := utf8_decode (codes s).

(** [char::is_control]: general category Cc. *)
Definition is_control (c : N) : bool :=
  (c <=? 31)%N || (127 <=? c)%N && (c <=? 159)%N.

(** [char::is_whitespace]: the property White_Space. *)
Definition is_whitespace (c : N) : bool :=
  (9 <=? c)%N && (c <=? 13)%N || (c =? 32)%N || (c =? 133)%N || (c =? 160)%N
  || (c =? 5760)%N || (8192 <=? c)%N && (c <=? 8202)%N || (c =? 8232)%N
  || (c =? 8233)%N || (c =? 8239)%N || (c =? 8287)%N || (c =? 12288)%N.

Fixpoint drop_while {A} (p : A → bool) (l : list A) : list A :=
  match l with
  | [] => []
  | x :: l' => if p x then drop_while p l' else l
  end.

(** [str::trim], on code points. *)
Definition trim (l : list N) : list N :=
  reverse (drop_while is_whitespace (reverse (drop_while is_whitespace l))).

(** [s.trim().is_empty()]. *)
Definition trim_is_empty (s : string) : bool :=
  match trim (chars s) with [] => true | _ => false end.

(** [s.chars().any(char::is_control)]. *)
Definition has_control (s : string) : bool := existsb is_control (chars s).

Lemma drop_while_nil {A} (p : A → bool) l : drop_while p l = [] ↔ forallb p l = true.
Proof. induction l as [|x l IH]; cbn; [done|]. destruct (p x); cbn; naive_solver. Qed.

Lemma forallb_reverse {A} (p : A → bool) l : forallb p (reverse l) = forallb p l.
Proof.
  induction l as [|x l IH]; [done|]. rewrite reverse_cons, forallb_app, IH. cbn.
  destruct (p x), (forallb p l); done.
Qed.

Lemma forallb_drop_while {A} (p : A → bool) l : forallb p (drop_while p l) = forallb p l.
Proof. induction l as [|x l IH]; cbn; [done|]. destruct (p x) eqn:E; cbn; rewrite ?E; done. Qed.

(** A trimmed string is empty exactly when every character is white space. *)
Lemma trim_is_empty_spec s : trim_is_empty s = forallb is_whitespace (chars s).
Proof.
  unfold trim_is_empty.
  assert (trim (chars s) = [] ↔ forallb is_whitespace (chars s) = true) as H.
  { unfold trim. rewrite <- (reverse_nil (A:=N)), (inj_iff reverse), drop_while_nil.
    by rewrite forallb_reverse, forallb_drop_while. }
  destruct (trim (chars s)); destruct (forallb is_whitespace (chars s)); naive_solver.
Qed.

(** A printable ASCII byte other than the space. *)
Definition graphic (c : N) : bool := (33 <=? c)%N && (c <=? 126)%N.
Definition all_graphic (s : string) : bool := forallb graphic (codes s).

Lemma utf8_decode_graphic l : forallb graphic l = true → utf8_decode l = l.
Proof.
  induction l as [|c l IH]; [done|]. cbn [forallb utf8_decode]. intros [Hc Hl]%andb_prop.
  unfold graphic in Hc. apply andb_prop in Hc as [_ H%N.leb_le].
  destruct (N.ltb_spec c 128); [|lia]. by rewrite IH.
Qed.

Lemma chars_graphic s : all_graphic s = true → chars s = codes s.
Proof. apply utf8_decode_graphic. Qed.

Lemma graphic_not_control c : graphic c = true → is_control c = false.
Proof.
  unfold graphic, is_control. intros [H1%N.leb_le H2%N.leb_le]%andb_prop.
  destruct (N.leb_spec c 31), (N.leb_spec 127 c); cbn; lia.
Qed.

Lemma graphic_not_whitespace c : graphic c = true → is_whitespace c = false.
Proof.
  unfold graphic. intros [H1%N.leb_le H2%N.leb_le]%andb_prop. unfold is_whitespace.
  repeat (apply orb_false_intro); try (apply N.eqb_neq; lia).
  - apply andb_false_intro2, N.leb_gt. lia.
  - apply andb_false_intro1, N.leb_gt. lia.
Qed.

Lemma graphic_has_control s : all_graphic s = true → has_control s = false.
Proof.
  intros H. unfold has_control. rewrite chars_graphic by done. unfold all_graphic in H.
  induction (codes s) as [|c l IH]; [done|]. cbn in *. apply andb_prop in H as [Hc Hl].
  by rewrite graphic_not_control, IH.
Qed.

Lemma codes_nil s : codes s = [] → s = "".
Proof. destruct s; done. Qed.

Lemma graphic_trim s : all_graphic s = true → s ≠ "" → trim_is_empty s = false.
Proof.
  intros H Hne. rewrite trim_is_empty_spec, chars_graphic by done. unfold all_graphic in H.
  destruct (codes s) as [|c l] eqn:E; [by apply codes_nil in E|]. cbn in *.
  apply andb_prop in H as [Hc _]. by rewrite graphic_not_whitespace.
Qed.

Lemma codes_app s t : codes (s +:+ t) = codes s ++ codes t.
Proof.
  unfold codes. induction s as [|c s IH]; [done|].
  change (String c s +:+ t) with (String c (s +:+ t)). cbn. by f_equal.
Qed.

Lemma all_graphic_app s t : all_graphic (s +:+ t) = all_graphic s && all_graphic t.
Proof. unfold all_graphic. by rewrite codes_app, forallb_app. Qed.

Lemma length_string_app s t : String.length (s +:+ t) = (String.length s + String.length t)%nat.
Proof.
  induction s as [|c s IH]; [done|].
  change (String c s +:+ t) with (String c (s +:+ t)). cbn. by f_equal.
Qed.

(** [str::strip_prefix]. *)
Fixpoint strip_prefix (p s : string) : option string :=
  match p, s with
  | EmptyString, _ => Some s
  | String a p', String b s' => if decide (a = b) then strip_prefix p' s' else None
  | _, _ => None
  end.

Lemma strip_prefix_app p s : strip_prefix p (p +:+ s) = Some s.
Proof.
  induction p as [|c p IH]; [done|].
  change (String c p +:+ s) with (String c (p +:+ s)). cbn. by rewrite decide_True.
Qed.

Lemma strip_prefix_Some p s t : strip_prefix p s = Some t → s = p +:+ t.
Proof.
  revert s. induction p as [|c p IH]; intros s; [by intros [= ->]|].
  destruct s as [|d s]; [done|]. cbn. case_decide; [|done]. intros Ht%IH. by subst.
Qed.

(** ** Decimal integers *)

(** [u64::to_string]. *)
Definition u64_to_string (x : Z) : string := NilZero.string_of_uint (N.to_uint (Z.to_N x)).

(** [i64::to_string]. *)
Definition i64_to_string (x : Z) : string :=
  if (x <? 0)%Z then "-" +:+ u64_to_string (- x) else u64_to_string x.

Lemma N_to_uint_nonnil n : N.to_uint n ≠ Decimal.Nil.
Proof. destruct n; [done|]. apply DecimalPos.Unsigned.to_uint_nonnil. Qed.

Lemma u64_to_string_inj x y :
  (0 ≤ x)%Z → (0 ≤ y)%Z → u64_to_string x = u64_to_string y → x = y.
Proof.
  unfold u64_to_string. intros Hx Hy H.
  apply (f_equal NilZero.uint_of_string) in H. rewrite !NilZero.usu in H.
  - injection H as H. apply DecimalN.Unsigned.to_uint_inj in H. lia.
  - apply N_to_uint_nonnil.
  - apply N_to_uint_nonnil.
Qed.

(** A decimal rendering has at most one digit more than the number has bits. *)
Lemma little_double_digits d :
  (Decimal.nb_digits (Decimal.Little.double d) ≤ S (Decimal.nb_digits d))%nat ∧
  (Decimal.nb_digits (Decimal.Little.succ_double d) ≤ S (Decimal.nb_digits d))%nat.
Proof. induction d; cbn in *; lia. Qed.

Lemma little_uint_digits p : (Decimal.nb_digits (Pos.to_little_uint p) ≤ Pos.size_nat p)%nat.
Proof.
  induction p as [p IH|p IH|]; cbn [Pos.to_little_uint Pos.size_nat]; [..|done].
  - destruct (little_double_digits (Pos.to_little_uint p)). lia.
  - destruct (little_double_digits (Pos.to_little_uint p)). lia.
Qed.

Lemma length_uint_string d : String.length (NilEmpty.string_of_uint d) = Decimal.nb_digits d.
Proof. induction d; cbn; congruence. Qed.

Lemma length_u64_to_string x :
  (0 ≤ x ≤ u64_max)%Z → (String.length (u64_to_string x) ≤ 64)%nat.
Proof.
  intros Hx. unfold u64_to_string.
  assert (Decimal.nb_digits (N.to_uint (Z.to_N x)) ≤ 64)%nat as Hd.
  { destruct x as [|p|p]; [cbn; lia| |lia]. cbn. unfold Pos.to_uint.
    rewrite DecimalFacts.nb_digits_rev. etrans; [apply little_uint_digits|].
    pose proof (Pos.size_nat_monotone p (Z.to_pos u64_max)) as Hm.
    destruct (decide (Z.pos p = u64_max)) as [E|E].
    - replace p with (Z.to_pos u64_max) by (rewrite <- E; done). by vm_compute.
    - etrans; [apply Hm; unfold u64_max in *; cbn in *; lia|]. vm_compute. lia. }
  destruct (N.to_uint (Z.to_N x)) eqn:E; [cbn; lia|..];
    cbn [NilZero.string_of_uint]; rewrite length_uint_string; exact Hd.
Qed.

Lemma string_app_inj_l (p s t : string) : p +:+ s = p +:+ t → s = t.
Proof. induction p as [|c p IH]; [done|]. intros [= Hp]. by apply IH. Qed.

(** ** Big-endian integers and framed fields *)
Definition byte_of_Z (z : Z) : Byte.byte :=
  match Byte.of_N (Z.to_N (z mod 256)) with Some b => b | None => Byte.x00 end.
Definition Z_of_byte (b : Byte.byte) : Z := Z.of_N (Byte.to_N b).

Lemma Z_of_byte_of_Z z : Z_of_byte (byte_of_Z z) = (z mod 256)%Z.
Proof.
  unfold Z_of_byte, byte_of_Z. assert (0 ≤ z mod 256 < 256)%Z by (apply Z.mod_pos_bound; lia).
  destruct (Byte.of_N (Z.to_N (z mod 256))) as [b|] eqn:E.
  - apply Byte.to_of_N in E. rewrite E. lia.
  - apply Byte.of_N_None_iff in E. lia.
Qed.

(** [to_be_bytes] of an [n]-byte integer. *)
Fixpoint be_bytes (n : nat) (z : Z) : bytes :=
  match n with
  | O => []
  | S m => byte_of_Z (z / 256 ^ Z.of_nat m) :: be_bytes m z
  end.
Definition u64_be (z : Z) : bytes := be_bytes 8 z.

Fixpoint be_value (l : bytes) : Z :=
  match l with
  | [] => 0
  | b :: l' => Z_of_byte b * 256 ^ Z.of_nat (length l') + be_value l'
  end.

Lemma length_be_bytes n z : length (be_bytes n z) = n.
Proof. induction n; cbn; congruence. Qed.

Lemma be_value_be_bytes n z : be_value (be_bytes n z) = (z mod 256 ^ Z.of_nat n)%Z.
Proof.
  induction n as [|n IH]; [by rewrite Z.mod_1_r|].
  cbn [be_bytes be_value]. rewrite length_be_bytes, IH, Z_of_byte_of_Z.
  rewrite Nat2Z.inj_succ, Z.pow_succ_r by lia.
  set (p := (256 ^ Z.of_nat n)%Z). assert (0 < p)%Z by (apply Z.pow_pos_nonneg; lia).
  rewrite (Z.mul_comm 256), Z.rem_mul_r by lia. lia.
Qed.

Lemma u64_be_inj x y : is_u64 x → is_u64 y → u64_be x = u64_be y → x = y.
Proof.
  unfold is_u64, u64_max. intros Hx Hy H. apply (f_equal be_value) in H. unfold u64_be in H.
  rewrite !be_value_be_bytes in H. change (256 ^ Z.of_nat 8)%Z with (2 ^ 64)%Z in H.
  rewrite !Z.mod_small in H by lia. done.
Qed.

(** One length-prefixed field: the [u64] big-endian length, then the bytes. *)
Definition frame (b : bytes) : bytes :=
  u64_be (Z.min (Z.of_nat (length b)) u64_max) ++ b.

Definition frames (l : list bytes) : bytes := concat (map frame l).

(** A byte vector whose length fits a [u64], as every Rust [Vec<u8>] does. *)
Definition short (b : bytes) : Prop := (Z.of_nat (length b) ≤ u64_max)%Z.

Lemma frame_app_inj b c r s :
  short b → short c → frame b ++ r = frame c ++ s → b = c ∧ r = s.
Proof.
  unfold short, frame. intros Hb Hc H. rewrite <- !app_assoc in H.
  apply app_inj_1 in H as [Hl H]; [|unfold u64_be; by rewrite !length_be_bytes].
  apply u64_be_inj in Hl; [|unfold is_u64; lia..].
  rewrite !Z.min_l in Hl by lia. apply app_inj_1 in H; [done|lia].
Qed.

Lemma frame_nonempty b r : frame b ++ r ≠ [].
Proof. unfold frame, u64_be. done. Qed.

(** The framed encoding of a list of fields determines the list. *)
Lemma frames_inj l1 l2 :
  Forall short l1 → Forall short l2 → frames l1 = frames l2 → l1 = l2.
Proof.
  intros H1. revert l2. induction H1 as [|b l1 Hb H1 IH]; intros [|c l2] H2 H; [done|..].
  - symmetry in H. by apply frame_nonempty in H.
  - by apply frame_nonempty in H.
  - inversion H2; subst. apply frame_app_inj in H as [-> H]; [|done..]. f_equal. by apply IH.
Qed.

Lemma frames_app l1 l2 : frames (l1 ++ l2) = frames l1 ++ frames l2.
Proof. unfold frames. by rewrite map_app, concat_app. Qed.

Lemma frames_cons b l : frames (b :: l) = frame b ++ frames l.
Proof. done. Qed.

Lemma frames_nil : frames [] = [].
Proof. done. Qed.

#[global] Arguments frames : simpl never.
#[global] Arguments frame : simpl never.
