(* ===== verification/Fields.v ===== *)
(** * Fields of text

    What the session identities use of Rust's [str]: [split], [split_once]
    and [rsplit_once] on an ASCII character, and the parsing of canonical
    decimal integers, with their inverses. *)

From Stdlib Require Import ZArith Lia Ascii DecimalString DecimalN DecimalPos DecimalFacts.
From stdpp Require Import base numbers gmap strings list fin_maps sorting.
From S2P Require Import Prelude Text.

Set Default Goal Selector "!".

(** [str::split_once] on one ASCII character. *)
Fixpoint split_once (c : Ascii.ascii) (s : string) : option (string * string) :=
  match s with
  | EmptyString => None
  | String a s' =>
      if decide (a = c) then Some ("", s')
      else match split_once c s' with
           | Some (l, r) => Some (String a l, r)
           | None => None
           end
  end.

(** [str::rsplit_once]. *)
Fixpoint rsplit_once (c : Ascii.ascii) (s : string) : option (string * string) :=
  match s with
  | EmptyString => None
  | String a s' =>
      match rsplit_once c s' with
      | Some (l, r) => Some (String a l, r)
      | None => if decide (a = c) then Some ("", s') else None
      end
  end.

(** [str::split]: the result is never empty. *)
Fixpoint split (c : Ascii.ascii) (s : string) : list string :=
  match s with
  | EmptyString => [""]
  | String a s' =>
      if decide (a = c) then "" :: split c s'
      else match split c s' with
           | p :: ps => String a p :: ps
           | [] => [String a ""]
           end
  end.

(** The character does not occur. *)
Definition free (c : Ascii.ascii) (s : string) : Prop := split_once c s = None.

Lemma string_app_cons a s t : String a s +:+ t = String a (s +:+ t).
Proof. done. Qed.

Lemma string_app_nil_l t : "" +:+ t = t.
Proof. done. Qed.

Lemma string_app_assoc s t u : (s +:+ t) +:+ u = s +:+ (t +:+ u).
Proof. induction s as [|a s IH]; [done|]. rewrite !string_app_cons. by rewrite IH. Qed.

Lemma free_cons c a s : free c (String a s) ↔ a ≠ c ∧ free c s.
Proof.
  unfold free. cbn. case_decide; [naive_solver|].
  destruct (split_once c s) as [[l r]|]; naive_solver.
Qed.

Lemma split_once_app c l r : free c l → split_once c (l +:+ String c r) = Some (l, r).
Proof.
  induction l as [|a l IH]; intros H.
  - rewrite string_app_nil_l. cbn. by rewrite decide_True.
  - apply free_cons in H as [Ha Hl]. rewrite string_app_cons. cbn. by rewrite decide_False, IH.
Qed.

Lemma split_once_Some c s l r :
  split_once c s = Some (l, r) → s = l +:+ String c r ∧ free c l.
Proof.
  revert l. induction s as [|a s IH]; intros l; [done|]. cbn.
  case_decide as Ha; [intros [= <- <-]; by subst|].
  destruct (split_once c s) as [[l' r']|] eqn:E; [|done].
  intros [= <- <-]. destruct (IH l' eq_refl) as [-> Hf]. split; [done|]. by apply free_cons.
Qed.

Lemma rsplit_once_free c s : rsplit_once c s = None ↔ free c s.
Proof.
  induction s as [|a s IH]; [done|]. rewrite free_cons, <- IH. cbn.
  destruct (rsplit_once c s) as [[l r]|]; [naive_solver|]. case_decide; naive_solver.
Qed.

Lemma rsplit_once_app c l r : free c r → rsplit_once c (l +:+ String c r) = Some (l, r).
Proof.
  intros Hr. induction l as [|a l IH].
  - rewrite string_app_nil_l. cbn. rewrite (proj2 (rsplit_once_free c r) Hr). by rewrite decide_True.
  - rewrite string_app_cons. cbn. by rewrite IH.
Qed.

Lemma rsplit_once_Some c s l r :
  rsplit_once c s = Some (l, r) → s = l +:+ String c r ∧ free c r.
Proof.
  revert l. induction s as [|a s IH]; intros l; [done|]. cbn.
  destruct (rsplit_once c s) as [[l' r']|] eqn:E.
  - intros [= <- <-]. destruct (IH l' eq_refl) as [-> Hf]. done.
  - case_decide as Ha; [|done]. intros [= <- <-]. subst. split; [done|].
    by apply rsplit_once_free.
Qed.

Lemma split_nonempty c s : split c s ≠ [].
Proof. destruct s; cbn; [done|]. case_decide; [done|]. by destruct (split c s). Qed.

Lemma split_app c l r : free c l → split c (l +:+ String c r) = l :: split c r.
Proof.
  induction l as [|a l IH]; intros H.
  - rewrite string_app_nil_l. cbn. by rewrite decide_True.
  - apply free_cons in H as [Ha Hl]. rewrite string_app_cons. cbn.
    by rewrite decide_False, IH.
Qed.

Lemma split_free c s : free c s → split c s = [s].
Proof.
  induction s as [|a s IH]; [done|]. intros [Ha Hs]%free_cons. cbn.
  by rewrite decide_False, IH.
Qed.

(** [split] is inverted by joining the fields with the separator. *)
Lemma split_join c s l : split c s = l → s = String.concat (String c "") l.
Proof.
  revert l. induction s as [|a s IH]; intros l; cbn; [by intros <-|].
  pose proof (split_nonempty c s) as Hne. pose proof (IH _ eq_refl) as Hs.
  case_decide as Ha.
  - intros <-. rewrite Hs at 1. subst a. destruct (split c s) as [|p ps]; [done|]. done.
  - destruct (split c s) as [|p [|q ps]]; [done|intros <-; cbn in *; by subst|].
    intros <-. rewrite Hs at 1. done.
Qed.

(** ** Canonical decimal integers *)

Definition is_ascii_digit (c : N) : bool := (48 <=? c)%N && (c <=? 57)%N.
Definition all_digits (s : string) : bool := forallb is_ascii_digit (codes s).

(** [str::parse::<u64>]: an optional sign, one digit or more, no overflow. *)
Definition u64_parse (s : string) : option Z :=
  let digits := match strip_prefix "+" s with Some t => t | None => s end in
  match NilZero.uint_of_string digits with
  | Some d =>
      let v := Z.of_N (N.of_uint d) in if (v <=? u64_max)%Z then Some v else None
  | None => None
  end.

(** [value.len() > 1 && value.starts_with('0')]. *)
Definition leading_zero (s : string) : bool :=
  (1 <? str_len s)%Z && match s with String a _ => bool_decide (a = "0"%char) | _ => false end.

(** The digits of a number without a leading zero. *)
Definition canonical_decimal (s : string) : bool :=
  negb (str_len s =? 0)%Z && negb (leading_zero s) && all_digits s.

Lemma all_digits_cons a s :
  all_digits (String a s) = is_ascii_digit (Ascii.N_of_ascii a) && all_digits s.
Proof. done. Qed.

Lemma uint_all_digits d : all_digits (NilEmpty.string_of_uint d) = true.
Proof. induction d as [|d IH|d IH|d IH|d IH|d IH|d IH|d IH|d IH|d IH|d IH]; done. Qed.

(** The number of digits bounds the value from below. *)
Lemma of_uint_acc_lower d acc :
  (Z.pos acc * 10 ^ Z.of_nat (Decimal.nb_digits d) ≤ Z.pos (Pos.of_uint_acc d acc))%Z.
Proof.
  revert acc. induction d as [|d IH|d IH|d IH|d IH|d IH|d IH|d IH|d IH|d IH|d IH]; intros acc;
    cbn [Decimal.nb_digits Pos.of_uint_acc]; [lia|..];
    rewrite Nat2Z.inj_succ, Z.pow_succ_r by lia;
    (etrans; [|apply IH]); assert (0 < 10 ^ Z.of_nat (Decimal.nb_digits d))%Z
      by (apply Z.pow_pos_nonneg; lia); nia.
Qed.

Lemma nb_digits_canonical (d : Decimal.uint) (v : Z) :
  Decimal.unorm d = d → Z.of_N (N.of_uint d) = v → is_u64 v → (Decimal.nb_digits d ≤ 20)%nat.
Proof.
  intros Hn Hv [_ Hmax]. destruct (decide (Decimal.nb_digits d ≤ 20)%nat) as [|Hlt]; [done|exfalso].
  assert (∀ e k, Z.of_N (N.of_uint d) = Z.pos (Pos.of_uint_acc e k) →
    Decimal.nb_digits d = S (Decimal.nb_digits e) → False) as Hbig.
  { intros e k He Hl. pose proof (of_uint_acc_lower e k) as Hlow.
    assert (10 ^ 20 ≤ 10 ^ Z.of_nat (Decimal.nb_digits e))%Z by (apply Z.pow_le_mono_r; lia).
    unfold u64_max in *. lia. }
  destruct d as [|e|e|e|e|e|e|e|e|e|e]; cbn in Hlt; [lia|..];
    try by (eapply Hbig; cbn; reflexivity).
  unfold Decimal.unorm in Hn. cbn in Hn.
  pose proof (DecimalFacts.nb_digits_nzhead e) as Hz.
  destruct (Decimal.nzhead e) eqn:E; try discriminate Hn.
  - injection Hn as <-. cbn in Hlt. lia.
  - by apply DecimalFacts.nzhead_nonzero in E.
Qed.

Lemma unorm_canonical d :
  d ≠ Decimal.Nil → leading_zero (NilZero.string_of_uint d) = false → Decimal.unorm d = d.
Proof.
  destruct d as [|d|d|d|d|d|d|d|d|d|d]; [done|..|done|done|done|done|done|done|done|done|done].
  intros _. destruct d; [done|..]; cbn; unfold leading_zero, str_len; cbn;
    rewrite andb_true_r; intros ?%Z.ltb_ge; cbn in *; lia.
Qed.

Lemma canonical_decimal_spec s :
  canonical_decimal s = true ↔ s ≠ "" ∧ leading_zero s = false ∧ all_digits s = true.
Proof.
  unfold canonical_decimal. rewrite !andb_true_iff, !negb_true_iff, Z.eqb_neq.
  destruct s; unfold str_len; cbn; naive_solver lia.
Qed.

Lemma digits_no_sign s : all_digits s = true → strip_prefix "+" s = None.
Proof.
  destruct s as [|a s]; [done|]. rewrite all_digits_cons. intros [Ha _]%andb_prop.
  cbn. case_decide; [by subst|done].
Qed.

(** Parsing a canonical decimal and printing it are inverse. *)
Lemma u64_parse_canonical s v :
  canonical_decimal s = true ∧ u64_parse s = Some v ↔ is_u64 v ∧ s = u64_to_string v.
Proof.
  rewrite canonical_decimal_spec. unfold u64_parse, u64_to_string. split.
  - intros [(Hne & Hz & Hd) Hp]. rewrite digits_no_sign in Hp by done.
    destruct (NilZero.uint_of_string s) as [d|] eqn:E; [|done].
    destruct (Z.leb_spec (Z.of_N (N.of_uint d)) u64_max); [|done]. injection Hp as <-.
    split; [unfold is_u64; lia|]. rewrite N2Z.id, DecimalN.Unsigned.to_of.
    apply NilZero.sus in E as Es. rewrite <- Es in Hz.
    assert (d ≠ Decimal.Nil) by (intros ->; destruct s as [|a s]; [done|]; cbn in E;
      destruct (NilEmpty.uint_of_string s); [|done];
      repeat (destruct a as [[] [] [] [] [] [] [] []]; try discriminate E)).
    by rewrite unorm_canonical, Es.
  - intros [Hv ->]. set (d := N.to_uint (Z.to_N v)).
    assert (d ≠ Decimal.Nil) as Hnil by apply N_to_uint_nonnil.
    assert (Decimal.unorm d = d) as Hn.
    { unfold d. rewrite <- DecimalN.Unsigned.to_of. by rewrite DecimalN.Unsigned.of_to. }
    assert (NilZero.string_of_uint d = NilEmpty.string_of_uint d) as Hs by by destruct d.
    assert (all_digits (NilZero.string_of_uint d) = true) as Hd by (rewrite Hs; apply uint_all_digits).
    split; [split_and!|].
    + rewrite Hs. by destruct d.
    + destruct d as [|e|e|e|e|e|e|e|e|e|e]; try (unfold leading_zero; cbn; apply andb_false_r); [done|].
      unfold Decimal.unorm in Hn. cbn in Hn. destruct (Decimal.nzhead e) eqn:E; try discriminate Hn.
      { by injection Hn as <-. }
      by apply DecimalFacts.nzhead_nonzero in E.
    + done.
    + rewrite digits_no_sign, NilZero.usu by done. unfold d. rewrite DecimalN.Unsigned.of_to.
      unfold is_u64 in Hv. rewrite Z2N.id by lia. destruct (Z.leb_spec v u64_max); [done|lia].
Qed.

Lemma length_u64_text v : is_u64 v → (String.length (u64_to_string v) ≤ 20)%nat.
Proof.
  intros Hv. unfold u64_to_string. set (d := N.to_uint (Z.to_N v)).
  assert (d ≠ Decimal.Nil) as Hnil by apply N_to_uint_nonnil.
  assert (NilZero.string_of_uint d = NilEmpty.string_of_uint d) as -> by by destruct d.
  rewrite length_uint_string. apply (nb_digits_canonical d v); [|unfold d|done].
  - unfold d. rewrite <- DecimalN.Unsigned.to_of. by rewrite DecimalN.Unsigned.of_to.
  - rewrite DecimalN.Unsigned.of_to. unfold is_u64 in Hv. lia.
Qed.

(** * Hexadecimal text

    [{:02x}] and [{:016x}] of Rust's formatter, [from_str_radix(_, 16)] of its
    integers, and the hexadecimal rendering of the bytes of a string, with the
    round trips between them. *)

From Stdlib Require Import ZArith Lia Ascii.

(** ** Printing *)
Definition hex_digit_lower (n : Z) : Ascii.ascii :=
  Ascii.ascii_of_N (Z.to_N (if (n <? 10)%Z then 48 + n else 87 + n)).

(** The last [n] hexadecimal digits of a number. *)
Fixpoint hex_digits (n : nat) (x : Z) : string :=
  match n with
  | O => ""
  | S m => String (hex_digit_lower ((x / 16 ^ Z.of_nat m) mod 16)) (hex_digits m x)
  end.

(** [{:016x}] of a [u64]. *)
Definition u64_hex16 (x : Z) : string := hex_digits 16 x.

(** [{:02x}] of every byte. *)
Fixpoint hex_bytes (s : string) : string :=
  match s with
  | EmptyString => ""
  | String a s' => hex_digits 2 (Z.of_N (Ascii.N_of_ascii a)) +:+ hex_bytes s'
  end.

(** [{:x}] of an unsigned integer: no leading zero. *)
Definition hex_trimmed (x : Z) : string :=
  hex_digits (Z.to_nat (Z.max 1 ((Z.log2 x / 4) + 1))) x.

(** ** Parsing *)

(** [char::to_digit(16)]. *)
Definition hex_value (a : Ascii.ascii) : option Z :=
  let c := Ascii.N_of_ascii a in
  if ((48 <=? c) && (c <=? 57))%N then Some (Z.of_N c - 48)%Z
  else if ((97 <=? c) && (c <=? 102))%N then Some (Z.of_N c - 87)%Z
  else if ((65 <=? c) && (c <=? 70))%N then Some (Z.of_N c - 55)%Z
  else None.

(** [u8::is_ascii_hexdigit]. *)
Definition is_ascii_hexdigit (a : Ascii.ascii) : bool := bool_decide (is_Some (hex_value a)).
Definition all_hexdigits (s : string) : bool :=
  forallb is_ascii_hexdigit (String.list_ascii_of_string s).

Fixpoint radix16 (acc : Z) (s : string) : option Z :=
  match s with
  | EmptyString => Some acc
  | String a s' => match hex_value a with Some d => radix16 (16 * acc + d) s' | None => None end
  end.

(** [from_str_radix(s, 16)] of an unsigned integer type with this maximum: an
    optional sign, one digit or more, no overflow. *)
Definition from_str_radix16 (max : Z) (s : string) : option Z :=
  let digits := match strip_prefix "+" s with Some t => t | None => s end in
  if bool_decide (digits = "") then None
  else match radix16 0 digits with
       | Some v => if (v <=? max)%Z then Some v else None
       | None => None
       end.

Definition u8_max : Z := 255.

(** The bytes that pairs of digits stand for; a last odd digit is dropped, as
    [as_chunks::<2>().0] does. *)
Fixpoint unhex_pairs (s : string) : option string :=
  match s with
  | String a (String b s') =>
      match from_str_radix16 u8_max (String a (String b "")) with
      | Some v =>
          match unhex_pairs s' with
          | Some r => Some (String (Ascii.ascii_of_N (Z.to_N v)) r)
          | None => None
          end
      | None => None
      end
  | _ => Some ""
  end.

(** ** Round trips *)
Lemma hex_value_digit n : (0 ≤ n < 16)%Z → hex_value (hex_digit_lower n) = Some n.
Proof.
  assert (Forall (λ n, hex_value (hex_digit_lower n) = Some n) (seqZ 0 16)) as F.
  { vm_compute. repeat constructor. }
  intros H. rewrite Forall_forall in F. apply F, elem_of_seqZ. lia.
Qed.

Lemma hex_digit_lower_inj a b :
  (0 ≤ a < 16)%Z → (0 ≤ b < 16)%Z → hex_digit_lower a = hex_digit_lower b → a = b.
Proof. intros Ha Hb H. apply (f_equal hex_value) in H. rewrite !hex_value_digit in H by done. by injection H. Qed.

Lemma mod_pow16_S n x :
  (x mod 16 ^ Z.of_nat (S n) =
   16 ^ Z.of_nat n * ((x / 16 ^ Z.of_nat n) mod 16) + x mod 16 ^ Z.of_nat n)%Z.
Proof.
  rewrite Nat2Z.inj_succ, Z.pow_succ_r by lia. set (p := (16 ^ Z.of_nat n)%Z).
  assert (0 < p)%Z by (apply Z.pow_pos_nonneg; lia).
  rewrite (Z.mul_comm 16), Z.rem_mul_r by lia. lia.
Qed.

Lemma hex_digits_inj n x y :
  hex_digits n x = hex_digits n y → (x mod 16 ^ Z.of_nat n = y mod 16 ^ Z.of_nat n)%Z.
Proof.
  induction n as [|n IH]; cbn [hex_digits]; [by rewrite !Z.mod_1_r|]. intros H.
  injection H as Hd Hr. apply IH in Hr.
  apply hex_digit_lower_inj in Hd; [|apply Z.mod_pos_bound; lia..].
  by rewrite !mod_pow16_S, Hd, Hr.
Qed.

Lemma u64_hex16_inj x y : is_u64 x → is_u64 y → u64_hex16 x = u64_hex16 y → x = y.
Proof.
  unfold is_u64, u64_max. intros Hx Hy H%hex_digits_inj.
  change (16 ^ Z.of_nat 16)%Z with (2 ^ 64)%Z in H. rewrite !Z.mod_small in H by lia. done.
Qed.

Lemma length_hex_digits n x : String.length (hex_digits n x) = n.
Proof. induction n; cbn; congruence. Qed.

Lemma list_ascii_app s t :
  String.list_ascii_of_string (s +:+ t) =
  String.list_ascii_of_string s ++ String.list_ascii_of_string t.
Proof. induction s as [|a s IH]; [done|]. rewrite string_app_cons. cbn. by rewrite IH. Qed.

(** Every character of a rendering is one of [0-9a-f]. *)
Definition lower_hex_text (s : string) : Prop :=
  Forall (λ a, ∃ n, (0 ≤ n < 16)%Z ∧ a = hex_digit_lower n) (String.list_ascii_of_string s).

Lemma lower_hex_digits n x : lower_hex_text (hex_digits n x).
Proof.
  induction n as [|n IH]; constructor; [|done]. eexists. split; [|done]. apply Z.mod_pos_bound. lia.
Qed.

Lemma lower_hex_app s t : lower_hex_text s → lower_hex_text t → lower_hex_text (s +:+ t).
Proof. unfold lower_hex_text. rewrite list_ascii_app. apply Forall_app_2. Qed.

Lemma lower_hex_bytes s : lower_hex_text (hex_bytes s).
Proof. induction s as [|a s IH]; [constructor|]. apply lower_hex_app; [apply lower_hex_digits|done]. Qed.

Lemma lower_all_hexdigits s : lower_hex_text s → all_hexdigits s = true.
Proof.
  intros H. unfold all_hexdigits. apply forallb_forall. intros a Ha.
  rewrite <- list_elem_of_In in Ha. unfold lower_hex_text in H. rewrite Forall_forall in H.
  destruct (H a Ha) as (n & Hn & ->). unfold is_ascii_hexdigit. apply bool_decide_eq_true.
  rewrite hex_value_digit by done. eauto.
Qed.

Lemma radix16_hex_digits n x acc :
  radix16 acc (hex_digits n x) = Some (16 ^ Z.of_nat n * acc + x mod 16 ^ Z.of_nat n)%Z.
Proof.
  revert acc. induction n as [|n IH]; intros acc; cbn [hex_digits radix16].
  - rewrite Z.mod_1_r. f_equal. lia.
  - rewrite hex_value_digit by (apply Z.mod_pos_bound; lia). rewrite IH, mod_pow16_S.
    f_equal. rewrite Nat2Z.inj_succ, Z.pow_succ_r by lia. lia.
Qed.

Lemma hex_digit_not_sign n : (0 ≤ n < 16)%Z → "+"%char ≠ hex_digit_lower n.
Proof. intros H E. apply (f_equal hex_value) in E. by rewrite hex_value_digit in E. Qed.

Lemma from_radix_hex_digits max n x :
  (0 < n)%nat → (0 ≤ x < 16 ^ Z.of_nat n)%Z → (x ≤ max)%Z →
  from_str_radix16 max (hex_digits n x) = Some x.
Proof.
  intros Hn Hx Hm. unfold from_str_radix16.
  assert (strip_prefix "+" (hex_digits n x) = None) as ->.
  { destruct n; [lia|]. cbn. case_decide as E; [|done].
    apply hex_digit_not_sign in E; [done|]. apply Z.mod_pos_bound. lia. }
  rewrite bool_decide_eq_false_2 by (destruct n; [lia|done]).
  rewrite radix16_hex_digits, Z.mod_small by done.
  replace (_ * 0 + x)%Z with x by lia. by rewrite (proj2 (Z.leb_le _ _)) by done.
Qed.

Lemma from_radix_hex16 x : is_u64 x → from_str_radix16 u64_max (u64_hex16 x) = Some x.
Proof.
  unfold is_u64, u64_max. intros H. apply from_radix_hex_digits; [lia| |lia].
  change (16 ^ Z.of_nat 16)%Z with (2 ^ 64)%Z. lia.
Qed.

Lemma length_hex_bytes s : String.length (hex_bytes s) = (2 * String.length s)%nat.
Proof.
  induction s as [|a s IH]; [done|]. cbn [hex_bytes String.length].
  rewrite length_string_app, length_hex_digits, IH. lia.
Qed.

Lemma unhex_hex_bytes s : unhex_pairs (hex_bytes s) = Some s.
Proof.
  induction s as [|a s IH]; [done|]. cbn [hex_bytes].
  pose proof (Ascii.N_ascii_bounded a) as Hb.
  pose proof (from_radix_hex_digits u8_max 2 (Z.of_N (Ascii.N_of_ascii a))) as Hr.
  cbn [hex_digits] in *. rewrite !string_app_cons, string_app_nil_l. cbn [unhex_pairs].
  rewrite Hr; [|lia|cbn in *; lia|unfold u8_max; lia].
  rewrite IH, N2Z.id, Ascii.ascii_N_embedding. done.
Qed.

Lemma hex_bytes_inj s t : hex_bytes s = hex_bytes t → s = t.
Proof. intros H%(f_equal unhex_pairs). rewrite !unhex_hex_bytes in H. by injection H. Qed.
