(* ===== verification/Core.v ===== *)
(** * linura-core: identifiers, operation classes, semantic reasons

    Models [crates/linura-core/src/lib.rs].  The identifier types generated by
    [typed_id!] are validated strings; each keeps its label. *)

From Stdlib Require Import ZArith Lia.
From stdpp Require Import base numbers gmap strings list fin_maps sorting.
From S2P Require Import Prelude Text.

Set Default Goal Selector "!".

Inductive ValidationError :=
| Empty (label : string)
| TooLong (label : string)
| ControlCharacter (label : string)
| MissingSemanticOrigin
| DuplicateSemanticOrigin (kind : string).

#[export] Instance ValidationError_eq_dec : EqDecision ValidationError.
Proof. solve_decision. Defined.

Definition ValidationError_display (e : ValidationError) : string :=
  match e with
  | Empty label => label +:+ " cannot be empty"
  | TooLong label => label +:+ " is too long"
  | ControlCharacter label => label +:+ " contains control characters"
  | MissingSemanticOrigin =>
      "managed state must retain an intent, requirement, or capability origin"
  | DuplicateSemanticOrigin kind =>
      "semantic reason contains duplicate " +:+ kind +:+ " origin"
  end.

Definition validate_token (label value : string) : result ValidationError unit :=
  reject_if (str_len value =? 0)%Z (Empty label);;
  reject_if (256 <? str_len value)%Z (TooLong label);;
  reject_if (has_control value) (ControlCharacter label);;
  Ok tt.

(** [$name::new] of the macro [typed_id!]. *)
Definition typed_id_new (label value : string) : result ValidationError string :=
  validate_token label value;; Ok value.

Abbreviation ActorId := string.
Abbreviation PrincipalId := string.
Abbreviation RequestId := string.
Abbreviation OperationId := string.
Abbreviation PlanId := string.
Abbreviation ApprovalRequestId := string.
Abbreviation ApprovalEvidenceId := string.
Abbreviation IntentId := string.
Abbreviation SetupId := string.
Abbreviation RequirementId := string.
Abbreviation ResourceId := string.
Abbreviation CapabilityId := string.
Abbreviation ProviderId := string.
Abbreviation PolicyId := string.
Abbreviation PolicyRevisionId := string.

Definition PrincipalId_new := typed_id_new "principal id".
Definition RequestId_new := typed_id_new "request id".

(** [has_duplicates]: [seen] is the [BTreeSet] filled by the iteration. *)
Fixpoint has_duplicates_from (seen : gset string) (values : list string) : bool :=
  match values with
  | [] => false
  | v :: vs =>
      if decide (v ∈ seen) then true else has_duplicates_from ({[v]} ∪ seen) vs
  end.
Definition has_duplicates (values : list string) : bool := has_duplicates_from ∅ values.

Inductive ActorKind := Human | Service | Agent | Remote.

Record Actor := {
  actor_id : ActorId;
  actor_kind : ActorKind;
  actor_interactive : bool;
}.

Inductive OperationClass :=
| ExperienceEphemeral
| AuthoritativeQuery
| LinuraOwnedState
| TransientExternalEffect
| ManagedExternalEffect.

Definition OperationClass_as_str (c : OperationClass) : string :=
  match c with
  | ExperienceEphemeral => "experience-ephemeral"
  | AuthoritativeQuery => "authoritative-query"
  | LinuraOwnedState => "linura-owned-state"
  | TransientExternalEffect => "transient-external-effect"
  | ManagedExternalEffect => "managed-external-effect"
  end.

Definition control_mediated (c : OperationClass) : bool :=
  match c with ExperienceEphemeral => false | _ => true end.

Definition permits_privileged_executor (c : OperationClass) : bool :=
  match c with ManagedExternalEffect => true | _ => false end.

Definition requires_plan_bound_external_authorization (c : OperationClass) : bool :=
  match c with TransientExternalEffect | ManagedExternalEffect => true | _ => false end.

Definition requires_canonical_managed_lifecycle (c : OperationClass) : bool :=
  match c with ManagedExternalEffect => true | _ => false end.

Inductive RiskClass :=
| ReadOnly
| UserState
| SystemMutation
| SecuritySensitive
| Destructive.

#[export] Instance ActorKind_eq_dec : EqDecision ActorKind.
Proof. solve_decision. Defined.
#[export] Instance Actor_eq_dec : EqDecision Actor.
Proof. solve_decision. Defined.
#[export] Instance OperationClass_eq_dec : EqDecision OperationClass.
Proof. solve_decision. Defined.
#[export] Instance RiskClass_eq_dec : EqDecision RiskClass.
Proof. solve_decision. Defined.

(** The derived order of [RiskClass]: declaration order. *)
Definition RiskClass_rank (r : RiskClass) : nat :=
  match r with
  | ReadOnly => 0 | UserState => 1 | SystemMutation => 2
  | SecuritySensitive => 3 | Destructive => 4
  end.

Record SemanticReason := {
  sr_summary : string;
  sr_intent_ids : list IntentId;
  sr_requirement_ids : list RequirementId;
  sr_capability_ids : list CapabilityId;
}.

#[export] Instance SemanticReason_eq_dec : EqDecision SemanticReason.
Proof. solve_decision. Defined.

Definition is_nil {A} (l : list A) : bool := match l with [] => true | _ => false end.

Definition SemanticReason_validate (r : SemanticReason) : result ValidationError unit :=
  reject_if (trim_is_empty (sr_summary r)) (Empty "semantic reason");;
  reject_if (is_nil (sr_intent_ids r) && is_nil (sr_requirement_ids r)
             && is_nil (sr_capability_ids r)) MissingSemanticOrigin;;
  reject_if (has_duplicates (sr_intent_ids r)) (DuplicateSemanticOrigin "intent");;
  reject_if (has_duplicates (sr_requirement_ids r)) (DuplicateSemanticOrigin "requirement");;
  reject_if (has_duplicates (sr_capability_ids r)) (DuplicateSemanticOrigin "capability");;
  Ok tt.

(** ** Lemmas *)

Lemma validate_token_Ok label value u :
  validate_token label value = Ok u ↔
  value ≠ "" ∧ (str_len value ≤ 256)%Z ∧ has_control value = false.
Proof.
  unfold validate_token, str_len. destruct u. split.
  - intros H. ok_inv. apply Z.eqb_neq in H0. apply Z.ltb_ge in H1.
    split_and!; [by intros ->|lia|done].
  - intros (Hne & Hl & Hc). destruct (Z.eqb_spec (Z.of_nat (String.length value)) 0).
    { destruct value; [done|]. cbn in *. lia. }
    destruct (Z.ltb_spec 256 (Z.of_nat (String.length value))); [lia|]. by rewrite Hc.
Qed.

Lemma typed_id_new_Ok label value v :
  typed_id_new label value = Ok v ↔
  v = value ∧ value ≠ "" ∧ (str_len value ≤ 256)%Z ∧ has_control value = false.
Proof.
  unfold typed_id_new. rewrite bind_Ok. setoid_rewrite validate_token_Ok. naive_solver.
Qed.

Lemma has_duplicates_from_spec seen l :
  has_duplicates_from seen l = false ↔ NoDup l ∧ ∀ x, x ∈ l → x ∉ seen.
Proof.
  revert seen. induction l as [|v vs IH]; intros seen; cbn.
  { split; [|done]. intros _. split; [constructor|]. intros x Hx. by apply not_elem_of_nil in Hx. }
  case_decide as Hv.
  { split; [done|]. intros [_ H]. exfalso. apply (H v); [left|done]. }
  rewrite IH, NoDup_cons. split.
  - intros [Hnd Hs]. split; [split; [|done]|].
    + intros Hin. specialize (Hs v Hin). set_solver.
    + intros x [->|Hx]%list_elem_of_In; [done|]. apply list_elem_of_In in Hx. specialize (Hs x Hx). set_solver.
  - intros [[Hn Hnd] Hs]. split; [done|]. intros x Hx.
    assert (x ≠ v) by congruence. specialize (Hs x). set_solver.
Qed.

(** The duplicate scan of the code decides absence of duplicates. *)
Lemma has_duplicates_spec l : has_duplicates l = false ↔ NoDup l.
Proof. unfold has_duplicates. rewrite has_duplicates_from_spec. set_solver. Qed.

(** A semantic reason is accepted exactly when its summary is not blank,
    it names at least one origin, and no origin list repeats an identifier. *)
Theorem semantic_reason_accepted_exactly (r : SemanticReason) (u : unit) :
  SemanticReason_validate r = Ok u ↔
  trim_is_empty (sr_summary r) = false ∧
  (sr_intent_ids r ≠ [] ∨ sr_requirement_ids r ≠ [] ∨ sr_capability_ids r ≠ []) ∧
  NoDup (sr_intent_ids r) ∧ NoDup (sr_requirement_ids r) ∧ NoDup (sr_capability_ids r).
Proof.
  rewrite <- !has_duplicates_spec. unfold SemanticReason_validate. destruct u.
  destruct (trim_is_empty (sr_summary r)), (has_duplicates (sr_intent_ids r)),
    (has_duplicates (sr_requirement_ids r)), (has_duplicates (sr_capability_ids r)),
    (sr_intent_ids r), (sr_requirement_ids r), (sr_capability_ids r); cbn; naive_solver.
Qed.
