(* ===== verification/SessionIdentity.v ===== *)
(** * Session identities

    [linura-core]: [session_epoch.rs], [session_transition.rs] and
    [sleep_invocation.rs].  A boot, a login session epoch, one native lock of
    it, a session transition and a pre-sleep invocation are values with one
    textual resource name each.  The operations are the constructors, the
    renderings and the parsers. *)

From Stdlib Require Import ZArith Lia Ascii.
From stdpp Require Import base numbers gmap strings list fin_maps sorting.
From S2P Require Import Prelude Text Fields Core.

Set Default Goal Selector "!".

Inductive SessionEpochError :=
| InvalidBootId
| InvalidSessionId
| InvalidCreationGeneration
| InvalidLockGeneration
| InvalidSecurityOwnerInvocation
| InvalidResource.

Definition ResourceId_new := typed_id_new "resource id".

Definition RESOURCE_PREFIX : string := "session:epoch:".
Definition MAX_SESSION_ID_BYTES : Z := 64.
Definition u32_max : Z := 2 ^ 32 - 1.

(** The closure of [canonical_nonzero_uuid], from byte [index] on. *)
Fixpoint uuid_bytes (index : nat) (l : list N) : bool :=
  match l with
  | [] => true
  | b :: l' =>
      (if bool_decide (index ∈ [8; 13; 18; 23]%nat) then (b =? 45)%N
       else (48 <=? b)%N && (b <=? 57)%N || (97 <=? b)%N && (b <=? 102)%N)
      && uuid_bytes (S index) l'
  end.

Definition canonical_nonzero_uuid (value : string) : bool :=
  (str_len value =? 36)%Z
  && negb (bool_decide (value = "00000000-0000-0000-0000-000000000000"))
  && uuid_bytes 0 (codes value).

Abbreviation BootId := string.
Definition BootId_new (value : string) : result SessionEpochError BootId :=
  reject_if (negb (canonical_nonzero_uuid value)) InvalidBootId;; Ok value.

Abbreviation SecurityOwnerInvocationId := string.
Definition SecurityOwnerInvocationId_new (value : string)
    : result SessionEpochError SecurityOwnerInvocationId :=
  reject_if (negb (canonical_nonzero_uuid value)) InvalidSecurityOwnerInvocation;; Ok value.

Record SessionEpoch := {
  se_boot : BootId;
  se_uid : Z;
  se_session_id : string;
  se_created_monotonic_us : Z;
}.

(** [byte.is_ascii_alphanumeric() || matches!(byte, b'_' | b'-')]. *)
Definition session_id_byte (b : N) : bool :=
  (48 <=? b)%N && (b <=? 57)%N || (65 <=? b)%N && (b <=? 90)%N
  || (97 <=? b)%N && (b <=? 122)%N || (b =? 95)%N || (b =? 45)%N.

Definition SessionEpoch_new (boot : BootId) (uid : Z) (session_id : string)
    (created_monotonic_us : Z) : result SessionEpochError SessionEpoch :=
  reject_if ((str_len session_id =? 0)%Z || (MAX_SESSION_ID_BYTES <? str_len session_id)%Z
             || bool_decide (session_id ∈ ["self"; "auto"; "current"])
             || negb (forallb session_id_byte (codes session_id))) InvalidSessionId;;
  reject_if (created_monotonic_us =? 0)%Z InvalidCreationGeneration;;
  Ok {| se_boot := boot; se_uid := uid; se_session_id := session_id;
        se_created_monotonic_us := created_monotonic_us |}.

Definition canonical_u64 (value : string) : result SessionEpochError Z :=
  reject_if (negb (canonical_decimal value)) InvalidResource;;
  ok_or (u64_parse value) InvalidResource.

(** [u32::try_from]. *)
Definition u32_try_from (v : Z) : option Z := if (v <=? u32_max)%Z then Some v else None.

Definition SessionEpoch_from_resource (resource : ResourceId)
    : result SessionEpochError SessionEpoch :=
  suffix ← ok_or (strip_prefix RESOURCE_PREFIX resource) InvalidResource;
  match split ":"%char suffix with
  | [boot; uid; session_id; created] =>
      uid ← canonical_u64 uid;
      uid ← ok_or (u32_try_from uid) InvalidResource;
      boot ← BootId_new boot;
      created ← canonical_u64 created;
      SessionEpoch_new boot uid session_id created
  | _ => Err InvalidResource
  end.

(** The text after the prefix. *)
Definition epoch_suffix (e : SessionEpoch) : string :=
  se_boot e +:+ String ":" (u64_to_string (se_uid e) +:+ String ":"
    (se_session_id e +:+ String ":" (u64_to_string (se_created_monotonic_us e)))).

Definition SessionEpoch_resource_id (e : SessionEpoch) : result SessionEpochError ResourceId :=
  map_err (λ _, InvalidResource) (ResourceId_new (RESOURCE_PREFIX +:+ epoch_suffix e)).

(** ** Locks *)

Record SessionLockId := {
  sl_epoch : SessionEpoch;
  sl_security_owner_invocation : SecurityOwnerInvocationId;
  sl_generation : Z;
}.

Definition SessionLockId_new (epoch : SessionEpoch) (invocation : SecurityOwnerInvocationId)
    (generation : Z) : result SessionEpochError SessionLockId :=
  reject_if (generation =? 0)%Z InvalidLockGeneration;;
  Ok {| sl_epoch := epoch; sl_security_owner_invocation := invocation;
        sl_generation := generation |}.

Definition LOCK_PREFIX : string := "session:lock:".

Definition SessionLockId_from_resource (resource : ResourceId)
    : result SessionEpochError SessionLockId :=
  suffix ← ok_or (strip_prefix LOCK_PREFIX resource) InvalidResource;
  sg ← ok_or (rsplit_once ":"%char suffix) InvalidResource;
  let '(scope, generation) := sg in
  ei ← ok_or (rsplit_once ":"%char scope) InvalidResource;
  let '(epoch, invocation) := ei in
  epoch ← map_err (λ _, InvalidResource) (ResourceId_new (RESOURCE_PREFIX +:+ epoch));
  epoch ← SessionEpoch_from_resource epoch;
  invocation ← SecurityOwnerInvocationId_new invocation;
  generation ← canonical_u64 generation;
  SessionLockId_new epoch invocation generation.

Definition SessionLockId_resource_id (l : SessionLockId) : result SessionEpochError ResourceId :=
  epoch ← SessionEpoch_resource_id (sl_epoch l);
  suffix ← ok_or (strip_prefix RESOURCE_PREFIX epoch) InvalidResource;
  map_err (λ _, InvalidResource)
    (ResourceId_new (LOCK_PREFIX +:+ (suffix +:+ String ":"
      (sl_security_owner_invocation l +:+ String ":" (u64_to_string (sl_generation l)))))).

(** ** Transitions *)

Inductive SessionTransitionError :=
| UnsupportedOwner
| ExhaustedSuspendGeneration
| InvalidTransitionResource.

Inductive SessionTransition :=
| Suspend (successful_cycles_before : Z)
| Logout
| Reboot
| PowerOff.

#[export] Instance SessionTransition_eq_dec : EqDecision SessionTransition.
Proof. solve_decision. Defined.

Definition SessionTransition_as_str (t : SessionTransition) : string :=
  match t with
  | Suspend _ => "suspend" | Logout => "logout" | Reboot => "reboot" | PowerOff => "power-off"
  end.

Definition successful_cycles_before (t : SessionTransition) : option Z :=
  match t with Suspend n => Some n | _ => None end.

Record SessionTransitionId := {
  st_lock : SessionLockId;
  st_transition : SessionTransition;
}.

Definition SessionTransitionId_new (lock : SessionLockId) (transition : SessionTransition)
    : result SessionTransitionError SessionTransitionId :=
  reject_if (se_uid (sl_epoch lock) =? 0)%Z UnsupportedOwner;;
  reject_if (bool_decide (successful_cycles_before transition = Some u64_max))
    ExhaustedSuspendGeneration;;
  Ok {| st_lock := lock; st_transition := transition |}.

Definition TRANSITION_PREFIX : string := "session:transition:".
Definition PERMISSION_PREFIX : string := "session:power-permission:".

(** The [match (action, baseline)] of [from_resource]. *)
Definition parse_transition (action : string) (baseline : Z)
    : result SessionTransitionError SessionTransition :=
  if bool_decide (action = "suspend") then Ok (Suspend baseline)
  else if bool_decide (action = "logout") && (baseline =? 0)%Z then Ok Logout
  else if bool_decide (action = "reboot") && (baseline =? 0)%Z then Ok Reboot
  else if bool_decide (action = "power-off") && (baseline =? 0)%Z then Ok PowerOff
  else Err InvalidTransitionResource.

Definition SessionTransitionId_from_resource (resource : ResourceId)
    : result SessionTransitionError SessionTransitionId :=
  reject_if (256 <? str_len resource)%Z InvalidTransitionResource;;
  suffix ← ok_or (strip_prefix TRANSITION_PREFIX resource) InvalidTransitionResource;
  ar ← ok_or (split_once ":"%char suffix) InvalidTransitionResource;
  let '(action, rest) := ar in
  bl ← ok_or (split_once ":"%char rest) InvalidTransitionResource;
  let '(baseline, lock_suffix) := bl in
  reject_if ((str_len baseline =? 0)%Z || (20 <? str_len baseline)%Z || leading_zero baseline
             || negb (all_digits baseline)) InvalidTransitionResource;;
  baseline ← ok_or (u64_parse baseline) InvalidTransitionResource;
  transition ← parse_transition action baseline;
  lock_resource ← map_err (λ _, InvalidTransitionResource)
                    (ResourceId_new (LOCK_PREFIX +:+ lock_suffix));
  lock ← map_err (λ _, InvalidTransitionResource) (SessionLockId_from_resource lock_resource);
  SessionTransitionId_new lock transition.

Definition SessionTransitionId_resource_id (t : SessionTransitionId)
    : result SessionTransitionError ResourceId :=
  lock ← map_err (λ _, InvalidTransitionResource) (SessionLockId_resource_id (st_lock t));
  suffix ← ok_or (strip_prefix LOCK_PREFIX lock) InvalidTransitionResource;
  let text := TRANSITION_PREFIX +:+ (SessionTransition_as_str (st_transition t) +:+ String ":"
    (u64_to_string (default 0%Z (successful_cycles_before (st_transition t))) +:+ String ":" suffix)) in
  reject_if (256 <? str_len text)%Z InvalidTransitionResource;;
  map_err (λ _, InvalidTransitionResource) (ResourceId_new text).

Definition permission_resource_id (t : SessionTransitionId)
    : result SessionTransitionError ResourceId :=
  transition ← SessionTransitionId_resource_id t;
  suffix ← ok_or (strip_prefix TRANSITION_PREFIX transition) InvalidTransitionResource;
  let text := PERMISSION_PREFIX +:+ suffix in
  reject_if ((256 <? str_len text)%Z || bool_decide (st_transition t = Logout))
    InvalidTransitionResource;;
  map_err (λ _, InvalidTransitionResource) (ResourceId_new text).

Definition from_permission_resource (resource : ResourceId)
    : result SessionTransitionError SessionTransitionId :=
  reject_if (256 <? str_len resource)%Z InvalidTransitionResource;;
  suffix ← ok_or (strip_prefix PERMISSION_PREFIX resource) InvalidTransitionResource;
  transition ← map_err (λ _, InvalidTransitionResource)
                 (ResourceId_new (TRANSITION_PREFIX +:+ suffix));
  target ← SessionTransitionId_from_resource transition;
  permission ← permission_resource_id target;
  reject_if (negb (bool_decide (permission = resource))) InvalidTransitionResource;;
  Ok target.

(** ** Pre-sleep invocations *)

Inductive SleepInvocationError := SleepInvocationErrorValue.

Record SleepInvocationId := {
  si_boot : BootId;
  si_invocation : string;
}.

Definition SleepInvocationId_new (boot : BootId) (invocation : string)
    : result SleepInvocationError SleepInvocationId :=
  reject_if (negb (canonical_nonzero_uuid invocation)) SleepInvocationErrorValue;;
  Ok {| si_boot := boot; si_invocation := invocation |}.

Definition SleepInvocationId_resource_id (i : SleepInvocationId)
    : result SleepInvocationError ResourceId :=
  map_err (λ _, SleepInvocationErrorValue)
    (ResourceId_new ("session:sleep-entry:" +:+ (si_boot i +:+ String ":" (si_invocation i)))).

Definition PROTECTIVE_PREFIX : string := "request:v010:protective-lock:".

Definition protective_request_id (i : SleepInvocationId) (epoch : SessionEpoch)
    : result SleepInvocationError RequestId :=
  reject_if (negb (bool_decide (si_boot i = se_boot epoch)) || (se_uid epoch =? 0)%Z)
    SleepInvocationErrorValue;;
  map_err (λ _, SleepInvocationErrorValue)
    (RequestId_new (PROTECTIVE_PREFIX +:+ (si_boot i +:+ String ":" (si_invocation i +:+ String ":"
      (u64_to_string (se_uid epoch) +:+ String ":" (se_session_id epoch +:+ String ":"
        (u64_to_string (se_created_monotonic_us epoch)))))))).

Definition from_protective_request_id (request : RequestId) (epoch : SessionEpoch)
    : result SleepInvocationError SleepInvocationId :=
  suffix ← ok_or (strip_prefix PROTECTIVE_PREFIX request) SleepInvocationErrorValue;
  match split ":"%char suffix with
  | [] => Err SleepInvocationErrorValue
  | boot :: rest =>
      boot ← map_err (λ _, SleepInvocationErrorValue) (BootId_new boot);
      invocation ← ok_or (hd_error rest) SleepInvocationErrorValue;
      event ← SleepInvocationId_new boot invocation;
      expected ← protective_request_id event epoch;
      reject_if (negb (bool_decide (expected = request))) SleepInvocationErrorValue;;
      Ok event
  end.

(** * Session identities and their resource names

    Each identity of [SessionIdentity] has exactly one resource name: rendering never
    fails on a constructed value, and parsing accepts exactly the renderings.
    So a resource name denotes one boot, session, lock and transition, and no
    alias of it is accepted. *)

(** ** The alphabet of the components *)

Definition word (s : string) : Prop := forallb session_id_byte (codes s) = true.

Lemma word_cons a s : word (String a s) ↔ session_id_byte (N_of_ascii a) = true ∧ word s.
Proof. unfold word. cbn. by rewrite andb_true_iff. Qed.

Lemma word_byte_graphic b : session_id_byte b = true → graphic b = true ∧ b ≠ 58%N.
Proof.
  unfold session_id_byte, graphic.
  rewrite !orb_true_iff, !andb_true_iff, !N.leb_le, !N.eqb_eq. lia.
Qed.

Lemma word_free s : word s → free ":" s.
Proof.
  induction s as [|a s IH]; [done|]. intros [Ha Hs]%word_cons. apply free_cons.
  split; [|by apply IH]. intros ->. by apply word_byte_graphic in Ha as [_ Ha].
Qed.

Lemma word_graphic s : word s → all_graphic s = true.
Proof.
  unfold word, all_graphic. induction (codes s) as [|b l IH]; [done|]. cbn.
  intros [Hb Hl]%andb_prop. apply word_byte_graphic in Hb as [-> _]. by apply IH.
Qed.

Lemma uuid_bytes_word n l : uuid_bytes n l = true → forallb session_id_byte l = true.
Proof.
  revert n. induction l as [|b l IH]; intros n; [done|]. cbn [uuid_bytes forallb].
  intros [Hb Hl]%andb_prop. rewrite (IH _ Hl), andb_true_r. unfold session_id_byte.
  rewrite !orb_true_iff, !andb_true_iff, !N.leb_le, !N.eqb_eq.
  case_bool_decide; [apply N.eqb_eq in Hb; lia|].
  rewrite orb_true_iff, !andb_true_iff, !N.leb_le in Hb. lia.
Qed.

Lemma uuid_word s : canonical_nonzero_uuid s = true → word s ∧ String.length s = 36%nat.
Proof.
  unfold canonical_nonzero_uuid, str_len. intros [[Hl%Z.eqb_eq _]%andb_prop Hb]%andb_prop.
  split; [by eapply uuid_bytes_word|lia].
Qed.

Lemma digits_word s : all_digits s = true → word s.
Proof.
  unfold all_digits, word. induction (codes s) as [|b l IH]; [done|]. cbn.
  intros [Hb Hl]%andb_prop. rewrite IH, andb_true_r by done.
  unfold is_ascii_digit in Hb. unfold session_id_byte. by rewrite Hb.
Qed.

Lemma u64_text_canonical v : is_u64 v → canonical_decimal (u64_to_string v) = true.
Proof. intros Hv. by apply (u64_parse_canonical (u64_to_string v) v). Qed.

Lemma u64_word v : is_u64 v → word (u64_to_string v).
Proof.
  intros Hv%u64_text_canonical%canonical_decimal_spec. apply digits_word. apply Hv.
Qed.

Lemma canonical_u64_Ok s v : canonical_u64 s = Ok v ↔ is_u64 v ∧ s = u64_to_string v.
Proof.
  rewrite <- u64_parse_canonical. unfold canonical_u64.
  destruct (canonical_decimal s); [|cbn; naive_solver].
  destruct (u64_parse s); cbn; naive_solver.
Qed.

(** A resource name made of graphic ASCII within the bound is accepted. *)
Lemma typed_id_graphic {E} label s (err : E) :
  all_graphic s = true → s ≠ "" → (String.length s ≤ 256)%nat →
  map_err (λ _, err) (typed_id_new label s) = Ok s.
Proof.
  intros Hg Hne Hl. assert (typed_id_new label s = Ok s) as ->; [|done].
  apply typed_id_new_Ok. split_and!; [done..| |by apply graphic_has_control].
  unfold str_len. lia.
Qed.

Lemma typed_id_exact {E} label s (err : E) r :
  map_err (λ _, err) (typed_id_new label s) = Ok r → r = s.
Proof. intros (Hr & _)%map_err_Ok%typed_id_new_Ok. done. Qed.

Lemma graphic_field s : all_graphic (String ":" s) = all_graphic s.
Proof. done. Qed.

Lemma length_field s : String.length (String ":" s) = S (String.length s).
Proof. done. Qed.

(** Resolves the validity of a rendered name: its alphabet and length. *)
Ltac name_valid :=
  apply typed_id_graphic;
  [ rewrite ?all_graphic_app, ?graphic_field, ?all_graphic_app, ?graphic_field;
    repeat (apply andb_true_intro; split); try by vm_compute
  | done
  | repeat (rewrite ?length_string_app, ?length_field); cbn [String.length]; try lia ].

(** ** Epochs *)

(** What the constructors establish. *)
Record epoch_ok (e : SessionEpoch) : Prop := {
  epo_boot : BootId_new (se_boot e) = Ok (se_boot e);
  epo_uid : (0 ≤ se_uid e ≤ u32_max)%Z;
  epo_created : is_u64 (se_created_monotonic_us e);
  epo_new : SessionEpoch_new (se_boot e) (se_uid e) (se_session_id e)
              (se_created_monotonic_us e) = Ok e;
}.

Lemma BootId_new_Ok s b : BootId_new s = Ok b ↔ b = s ∧ canonical_nonzero_uuid s = true.
Proof. unfold BootId_new. destruct (canonical_nonzero_uuid s); cbn; naive_solver. Qed.

Lemma invocation_new_Ok s b :
  SecurityOwnerInvocationId_new s = Ok b ↔ b = s ∧ canonical_nonzero_uuid s = true.
Proof. unfold SecurityOwnerInvocationId_new. destruct (canonical_nonzero_uuid s); cbn; naive_solver. Qed.

Lemma epoch_new_fields b u s c e :
  SessionEpoch_new b u s c = Ok e →
  e = {| se_boot := b; se_uid := u; se_session_id := s; se_created_monotonic_us := c |} ∧
  word s ∧ (String.length s ≤ 64)%nat.
Proof.
  unfold SessionEpoch_new. intros HH. ok_inv.
  rename select (_ || _ = false) into Hs. apply orb_false_elim in Hs as [Hs Hw].
  apply negb_false_iff in Hw. apply orb_false_elim in Hs as [Hs _].
  apply orb_false_elim in Hs as [_ Hl%Z.ltb_ge]. unfold MAX_SESSION_ID_BYTES, str_len in Hl.
  split_and!; [done..|lia].
Qed.

Lemma u32_try_from_Some v w : u32_try_from v = Some w ↔ w = v ∧ (v ≤ u32_max)%Z.
Proof. unfold u32_try_from. destruct (Z.leb_spec v u32_max); naive_solver lia. Qed.

(** The words of an epoch and their lengths. *)
Lemma epoch_words e :
  epoch_ok e →
  (word (se_boot e) ∧ String.length (se_boot e) = 36%nat) ∧
  (word (u64_to_string (se_uid e)) ∧ String.length (u64_to_string (se_uid e)) ≤ 20)%nat ∧
  (word (se_session_id e) ∧ String.length (se_session_id e) ≤ 64)%nat ∧
  (word (u64_to_string (se_created_monotonic_us e)) ∧
   String.length (u64_to_string (se_created_monotonic_us e)) ≤ 20)%nat.
Proof.
  intros [[_ Hb]%BootId_new_Ok Hu Hc (_ & Hw & Hl)%epoch_new_fields].
  assert (is_u64 (se_uid e)) by (unfold is_u64, u32_max, u64_max in *; lia).
  split_and!; first [apply uuid_word, Hb | by apply u64_word | by apply length_u64_text | done].
Qed.

Lemma epoch_suffix_valid e :
  epoch_ok e →
  all_graphic (epoch_suffix e) = true ∧ (String.length (epoch_suffix e) ≤ 143)%nat.
Proof.
  intros ([Wb Lb] & [Wu Lu] & [Ws Ls] & [Wc Lc])%epoch_words. unfold epoch_suffix. split.
  - rewrite !all_graphic_app, !graphic_field, !all_graphic_app, !graphic_field, !all_graphic_app,
      graphic_field. by rewrite !word_graphic.
  - repeat (rewrite ?length_string_app, ?length_field). lia.
Qed.

Lemma epoch_resource e :
  epoch_ok e → SessionEpoch_resource_id e = Ok (RESOURCE_PREFIX +:+ epoch_suffix e).
Proof.
  intros [Hg Hl]%epoch_suffix_valid. unfold SessionEpoch_resource_id, ResourceId_new.
  name_valid. cbn. lia.
Qed.

Lemma epoch_parse e :
  epoch_ok e → SessionEpoch_from_resource (RESOURCE_PREFIX +:+ epoch_suffix e) = Ok e.
Proof.
  intros He. pose proof (epoch_words e He) as ([Wb _] & [Wu _] & [Ws _] & [Wc _]).
  destruct He as [Hb Hu Hc Hn]. unfold SessionEpoch_from_resource.
  rewrite strip_prefix_app. cbn [ok_or]. cbn [mbind result_bind]. unfold epoch_suffix.
  rewrite !split_app, split_free by (by apply word_free).
  assert (is_u64 (se_uid e)) as Hu' by (unfold is_u64, u32_max, u64_max in *; lia).
  rewrite (proj2 (canonical_u64_Ok _ _) (conj Hu' eq_refl)).
  rewrite (proj2 (canonical_u64_Ok _ _) (conj Hc eq_refl)).
  cbn [mbind result_bind]. unfold u32_try_from.
  destruct (Z.leb_spec (se_uid e) u32_max); [|lia]. cbn [ok_or]. by rewrite Hb.
Qed.

Lemma epoch_parsed r e :
  SessionEpoch_from_resource r = Ok e → epoch_ok e ∧ r = RESOURCE_PREFIX +:+ epoch_suffix e.
Proof.
  unfold SessionEpoch_from_resource. intros HH. ok_inv.
  rename select (strip_prefix _ _ = _) into Hp. apply strip_prefix_Some in Hp as ->.
  destruct (split ":" x) as [|b [|u [|s [|c [|]]]]] eqn:Hs; try discriminate HH.
  apply split_join in Hs as ->. ok_inv.
  repeat match goal with
  | H : canonical_u64 _ = Ok _ |- _ => apply canonical_u64_Ok in H as [? ->]
  | H : BootId_new _ = Ok _ |- _ => apply BootId_new_Ok in H as [-> ?]
  end.
  rename select (u32_try_from _ = _) into Hu. apply u32_try_from_Some in Hu as [-> Hu].
  pose proof (epoch_new_fields _ _ _ _ _ HH) as (-> & _ & _). split; [|done].
  constructor; cbn; [by apply BootId_new_Ok|unfold is_u64 in *; lia|done|done].
Qed.

(** Session epochs and their resource names correspond one to one: every
    constructed epoch has a name, and parsing accepts exactly the names that
    epochs render to, giving back the epoch. *)
Theorem session_epoch_resource_exact :
  (∀ e, epoch_ok e → ∃ r, SessionEpoch_resource_id e = Ok r) ∧
  (∀ r e, SessionEpoch_from_resource r = Ok e ↔
     epoch_ok e ∧ SessionEpoch_resource_id e = Ok r).
Proof.
  split; [intros e He; eexists; by apply epoch_resource|].
  intros r e. split.
  - intros [He ->]%epoch_parsed. split; [done|]. by apply epoch_resource.
  - intros [He Hr]. rewrite epoch_resource in Hr by done. injection Hr as <-.
    by apply epoch_parse.
Qed.

(** ** Locks *)

Record lock_ok (l : SessionLockId) : Prop := {
  lko_epoch : epoch_ok (sl_epoch l);
  lko_invocation :
    SecurityOwnerInvocationId_new (sl_security_owner_invocation l)
    = Ok (sl_security_owner_invocation l);
  lko_generation : is_u64 (sl_generation l);
  lko_new : SessionLockId_new (sl_epoch l) (sl_security_owner_invocation l) (sl_generation l) = Ok l;
}.

Definition lock_suffix (l : SessionLockId) : string :=
  epoch_suffix (sl_epoch l) +:+ String ":"
    (sl_security_owner_invocation l +:+ String ":" (u64_to_string (sl_generation l))).

Lemma lock_new_fields e i g l :
  SessionLockId_new e i g = Ok l →
  l = {| sl_epoch := e; sl_security_owner_invocation := i; sl_generation := g |}.
Proof. unfold SessionLockId_new. intros HH. by ok_inv. Qed.

Lemma lock_words l :
  lock_ok l →
  (word (sl_security_owner_invocation l) ∧ String.length (sl_security_owner_invocation l) = 36%nat) ∧
  (word (u64_to_string (sl_generation l)) ∧ String.length (u64_to_string (sl_generation l)) ≤ 20)%nat.
Proof.
  intros [_ [_ Hi]%invocation_new_Ok Hg _].
  split_and!; first [apply uuid_word, Hi | by apply u64_word | by apply length_u64_text].
Qed.

Lemma lock_suffix_valid l :
  lock_ok l → all_graphic (lock_suffix l) = true ∧ (String.length (lock_suffix l) ≤ 201)%nat.
Proof.
  intros Hl. pose proof (lock_words l Hl) as [[Wi Li] [Wg Lg]].
  destruct (epoch_suffix_valid _ (lko_epoch l Hl)) as [He Le]. unfold lock_suffix. split.
  - rewrite all_graphic_app, graphic_field, all_graphic_app, graphic_field, He.
    by rewrite !word_graphic.
  - repeat (rewrite ?length_string_app, ?length_field). lia.
Qed.

Lemma lock_resource l :
  lock_ok l → SessionLockId_resource_id l = Ok (LOCK_PREFIX +:+ lock_suffix l).
Proof.
  intros Hl. destruct (lock_suffix_valid l Hl) as [Hg Hn]. unfold SessionLockId_resource_id.
  rewrite epoch_resource by apply Hl. cbn [mbind result_bind]. rewrite strip_prefix_app.
  cbn [ok_or mbind result_bind]. fold (lock_suffix l). unfold ResourceId_new. name_valid. cbn. lia.
Qed.

Lemma epoch_name_valid e :
  epoch_ok e →
  map_err (λ _, InvalidResource) (ResourceId_new (RESOURCE_PREFIX +:+ epoch_suffix e))
  = Ok (RESOURCE_PREFIX +:+ epoch_suffix e).
Proof. apply epoch_resource. Qed.

Lemma lock_parse l :
  lock_ok l → SessionLockId_from_resource (LOCK_PREFIX +:+ lock_suffix l) = Ok l.
Proof.
  intros Hl. pose proof (lock_words l Hl) as [[Wi _] [Wg _]]. destruct Hl as [He Hi Hg Hn].
  unfold SessionLockId_from_resource. rewrite strip_prefix_app. cbn [ok_or mbind result_bind].
  unfold lock_suffix. rewrite <- (string_app_cons ":"), <- string_app_assoc.
  rewrite rsplit_once_app by (by apply word_free). cbn [ok_or mbind result_bind].
  rewrite rsplit_once_app by (by apply word_free). cbn [ok_or mbind result_bind].
  rewrite epoch_name_valid by done. cbn [mbind result_bind].
  rewrite epoch_parse by done. cbn [mbind result_bind]. rewrite Hi. cbn [mbind result_bind].
  by rewrite (proj2 (canonical_u64_Ok _ _) (conj Hg eq_refl)).
Qed.

Lemma lock_parsed r l :
  SessionLockId_from_resource r = Ok l → lock_ok l ∧ r = LOCK_PREFIX +:+ lock_suffix l.
Proof.
  unfold SessionLockId_from_resource. intros HH. ok_inv.
  rename select (strip_prefix _ _ = _) into Hp. apply strip_prefix_Some in Hp as ->.
  rename select (prod string string) into sg. destruct sg as [scope g]. ok_inv.
  rename select (prod string string) into ei. destruct ei as [ep i]. ok_inv.
  repeat match goal with
  | H : rsplit_once _ _ = Some _ |- _ => apply rsplit_once_Some in H as [-> _]
  | H : ResourceId_new _ = Ok _ |- _ => apply typed_id_new_Ok in H as (-> & _)
  | H : canonical_u64 _ = Ok _ |- _ => apply canonical_u64_Ok in H as [? ->]
  | H : SecurityOwnerInvocationId_new _ = Ok _ |- _ => apply invocation_new_Ok in H as [-> ?]
  | H : SessionEpoch_from_resource _ = Ok _ |- _ => apply epoch_parsed in H as [? ?%string_app_inj_l]
  end.
  pose proof (lock_new_fields _ _ _ _ HH) as ->. subst. split; [constructor; cbn; [done|by apply invocation_new_Ok|done|done]|].
  unfold lock_suffix. cbn. by rewrite string_app_assoc.
Qed.

(** The same for native locks: each lock of a session epoch and security
    owner invocation has exactly one resource name. *)
Theorem session_lock_resource_exact :
  (∀ l, lock_ok l → ∃ r, SessionLockId_resource_id l = Ok r) ∧
  (∀ r l, SessionLockId_from_resource r = Ok l ↔
     lock_ok l ∧ SessionLockId_resource_id l = Ok r).
Proof.
  split; [intros l Hl; eexists; by apply lock_resource|].
  intros r l. split.
  - intros [Hl ->]%lock_parsed. split; [done|]. by apply lock_resource.
  - intros [Hl Hr]. rewrite lock_resource in Hr by done. injection Hr as <-. by apply lock_parse.
Qed.

(** ** Transitions *)

Record transition_ok (t : SessionTransitionId) : Prop := {
  tro_lock : lock_ok (st_lock t);
  tro_cycles : is_u64 (default 0%Z (successful_cycles_before (st_transition t)));
  tro_new : SessionTransitionId_new (st_lock t) (st_transition t) = Ok t;
}.

Definition transition_suffix (t : SessionTransitionId) : string :=
  SessionTransition_as_str (st_transition t) +:+ String ":"
    (u64_to_string (default 0%Z (successful_cycles_before (st_transition t)))
       +:+ String ":" (lock_suffix (st_lock t))).

Lemma parse_transition_Ok a n t :
  parse_transition a n = Ok t ↔
  a = SessionTransition_as_str t ∧ n = default 0%Z (successful_cycles_before t).
Proof.
  unfold parse_transition. split.
  - intros H. repeat case_bool_decide; subst; cbn in H;
      try (destruct (Z.eqb_spec n 0); cbn in H); simplify_eq; done.
  - intros [-> ->]. by destruct t.
Qed.

Lemma transition_words t :
  transition_ok t →
  (word (SessionTransition_as_str (st_transition t)) ∧
   word (u64_to_string (default 0%Z (successful_cycles_before (st_transition t))))) ∧
  (String.length (SessionTransition_as_str (st_transition t)) +
   String.length (u64_to_string (default 0%Z (successful_cycles_before (st_transition t)))) ≤ 27)%nat.
Proof.
  intros [_ Hc _]. split.
  - split; [by destruct (st_transition t)|by apply u64_word].
  - apply length_u64_text in Hc. destruct (st_transition t); cbn in *; lia.
Qed.

Lemma transition_suffix_valid t :
  transition_ok t →
  all_graphic (transition_suffix t) = true ∧ (String.length (transition_suffix t) ≤ 230)%nat.
Proof.
  intros Ht. destruct (transition_words t Ht) as [[Wa Wn] Ll].
  destruct (lock_suffix_valid _ (tro_lock t Ht)) as [Hg Hl]. unfold transition_suffix. split.
  - rewrite all_graphic_app, graphic_field, all_graphic_app, graphic_field, Hg.
    by rewrite !word_graphic.
  - repeat (rewrite ?length_string_app, ?length_field). lia.
Qed.

Lemma name_bounded p s :
  (String.length (p +:+ s) ≤ 256)%nat → (256 <? str_len (p +:+ s))%Z = false.
Proof. unfold str_len. intros. apply Z.ltb_ge. lia. Qed.

Lemma transition_resource t :
  transition_ok t →
  SessionTransitionId_resource_id t = Ok (TRANSITION_PREFIX +:+ transition_suffix t).
Proof.
  intros Ht. destruct (transition_suffix_valid t Ht) as [Hg Hl].
  unfold SessionTransitionId_resource_id. rewrite lock_resource by apply Ht.
  cbn [map_err mbind result_bind]. rewrite strip_prefix_app. cbn [ok_or mbind result_bind].
  fold (transition_suffix t). rewrite name_bounded by (rewrite length_string_app; cbn; lia).
  cbn [reject_if]. unfold ResourceId_new. cbn [mbind result_bind]. name_valid. cbn. lia.
Qed.

Lemma lock_name_valid {E} (err : E) l :
  lock_ok l →
  map_err (λ _, err) (ResourceId_new (LOCK_PREFIX +:+ lock_suffix l))
  = Ok (LOCK_PREFIX +:+ lock_suffix l).
Proof. intros [Hg Hl]%lock_suffix_valid. unfold ResourceId_new. name_valid. cbn. lia. Qed.

Lemma transition_parse t :
  transition_ok t →
  SessionTransitionId_from_resource (TRANSITION_PREFIX +:+ transition_suffix t) = Ok t.
Proof.
  intros Ht. destruct (transition_words t Ht) as [[Wa Wn] _].
  destruct (transition_suffix_valid t Ht) as [_ Hl]. destruct Ht as [Hk Hc Hn].
  unfold SessionTransitionId_from_resource.
  rewrite name_bounded by (rewrite length_string_app; cbn; lia). cbn [reject_if].
  rewrite strip_prefix_app. cbn [ok_or mbind result_bind]. unfold transition_suffix.
  rewrite split_once_app by (by apply word_free). cbn [ok_or mbind result_bind].
  rewrite split_once_app by (by apply word_free). cbn [ok_or mbind result_bind].
  destruct (proj2 (u64_parse_canonical _ _) (conj Hc eq_refl)) as [Hd Hp].
  rewrite Hp. apply canonical_decimal_spec in Hd as (Hne & -> & ->).
  pose proof (length_u64_text _ Hc) as H20.
  assert (∀ s, s ≠ "" → (String.length s ≤ 20)%nat →
    (str_len s =? 0)%Z || (20 <? str_len s)%Z = false) as Hlen.
  { intros s Hs Hs'. unfold str_len. apply orb_false_intro; [apply Z.eqb_neq|apply Z.ltb_ge; lia].
    destruct s; [done|cbn; lia]. }
  rewrite Hlen by done. cbn [negb orb reject_if ok_or mbind result_bind].
  rewrite (proj2 (parse_transition_Ok _ _ _) (conj eq_refl eq_refl)). cbn [mbind result_bind].
  rewrite lock_name_valid by done. cbn [mbind result_bind]. by rewrite lock_parse.
Qed.

Lemma transition_new_fields l x t :
  SessionTransitionId_new l x = Ok t → t = {| st_lock := l; st_transition := x |}.
Proof. unfold SessionTransitionId_new. intros HH. by ok_inv. Qed.

Lemma transition_parsed r t :
  SessionTransitionId_from_resource r = Ok t →
  transition_ok t ∧ r = TRANSITION_PREFIX +:+ transition_suffix t.
Proof.
  unfold SessionTransitionId_from_resource. intros HH. ok_inv.
  rename select (strip_prefix _ _ = _) into Hp. apply strip_prefix_Some in Hp as ->.
  rename select (prod string string) into ar. destruct ar as [a rest]. ok_inv.
  rename select (prod string string) into bl. destruct bl as [b ls]. ok_inv.
  rename select (_ || _ = false) into Hb.
  apply orb_false_elim in Hb as [[[Hne _]%orb_false_elim Hz]%orb_false_elim Hd%negb_false_iff].
  rename select (u64_parse _ = Some _) into Hpar.
  assert (canonical_decimal b = true) as Hcan by (unfold canonical_decimal; by rewrite Hne, Hz, Hd).
  destruct (proj1 (u64_parse_canonical _ _) (conj Hcan Hpar)) as [Hu ->].
  repeat match goal with
  | H : split_once _ _ = Some _ |- _ => apply split_once_Some in H as [-> _]
  | H : ResourceId_new _ = Ok _ |- _ => apply typed_id_new_Ok in H as (-> & _)
  | H : parse_transition _ _ = Ok _ |- _ => apply parse_transition_Ok in H as [-> ->]
  | H : SessionLockId_from_resource _ = Ok _ |- _ => apply lock_parsed in H as [? ->%string_app_inj_l]
  end.
  pose proof (transition_new_fields _ _ _ HH) as ->. by split; [constructor|].
Qed.

(** The same for session transitions: a resource name binds the action,
    the suspend baseline, the lock, the security owner and the session epoch,
    and nothing else is accepted. *)
Theorem session_transition_resource_exact :
  (∀ t, transition_ok t → ∃ r, SessionTransitionId_resource_id t = Ok r) ∧
  (∀ r t, SessionTransitionId_from_resource r = Ok t ↔
     transition_ok t ∧ SessionTransitionId_resource_id t = Ok r).
Proof.
  split; [intros t Ht; eexists; by apply transition_resource|].
  intros r t. split.
  - intros [Ht ->]%transition_parsed. split; [done|]. by apply transition_resource.
  - intros [Ht Hr]. rewrite transition_resource in Hr by done. injection Hr as <-.
    by apply transition_parse.
Qed.

(** ** Permissions *)

Lemma permission_resource t :
  transition_ok t → st_transition t ≠ Logout →
  permission_resource_id t = Ok (PERMISSION_PREFIX +:+ transition_suffix t).
Proof.
  intros Ht Hn. destruct (transition_suffix_valid t Ht) as [Hg Hl].
  unfold permission_resource_id. rewrite transition_resource by done.
  cbn [mbind result_bind]. rewrite strip_prefix_app. cbn [ok_or mbind result_bind].
  rewrite name_bounded by (rewrite length_string_app; cbn; lia).
  rewrite bool_decide_eq_false_2 by done. cbn [orb reject_if mbind result_bind].
  unfold ResourceId_new. name_valid. cbn. lia.
Qed.

Lemma permission_rendered t r :
  transition_ok t → permission_resource_id t = Ok r →
  st_transition t ≠ Logout ∧ r = PERMISSION_PREFIX +:+ transition_suffix t.
Proof.
  intros Ht Hr. destruct (decide (st_transition t = Logout)) as [Hl|Hl].
  - exfalso. unfold permission_resource_id in Hr. ok_inv.
    rename select (_ || _ = false) into Hb. by rewrite Hl, orb_true_r in Hb.
  - rewrite permission_resource in Hr by done. by injection Hr as <-.
Qed.

(** Permission facts have their own names, in one-to-one correspondence
    with the transitions other than logout: parsing a permission name gives
    the transition whose permission it names, logout has none, and no
    transition name is a permission name. *)
Theorem session_permission_resource_exact :
  (∀ t, transition_ok t →
     (∃ r, permission_resource_id t = Ok r) ↔ st_transition t ≠ Logout) ∧
  (∀ r t, from_permission_resource r = Ok t ↔
     transition_ok t ∧ permission_resource_id t = Ok r) ∧
  (∀ r t t', from_permission_resource r = Ok t → SessionTransitionId_from_resource r ≠ Ok t').
Proof.
  split_and!.
  - intros t Ht. split; [intros [r Hr]; by apply (permission_rendered t r)|].
    intros Hl. eexists. by apply permission_resource.
  - intros r t. split.
    + unfold from_permission_resource. intros HH. ok_inv.
      rename select (SessionTransitionId_from_resource _ = _) into Ht.
      apply transition_parsed in Ht as [Ht _]. split; [done|].
      rename select (negb _ = false) into Hb. apply negb_false_iff, bool_decide_eq_true in Hb.
      by subst.
    + intros [Ht Hr]. destruct (permission_rendered t r Ht Hr) as [Hl ->].
      destruct (transition_suffix_valid t Ht) as [Hg Hs]. unfold from_permission_resource.
      rewrite name_bounded by (rewrite length_string_app; cbn; lia).
      rewrite strip_prefix_app. cbn [reject_if ok_or mbind result_bind].
      assert (map_err (λ _, InvalidTransitionResource)
        (ResourceId_new (TRANSITION_PREFIX +:+ transition_suffix t))
        = Ok (TRANSITION_PREFIX +:+ transition_suffix t)) as -> by
        (unfold ResourceId_new; name_valid; cbn; lia).
      cbn [mbind result_bind]. rewrite transition_parse by done. cbn [mbind result_bind].
      rewrite Hr. cbn [mbind result_bind]. by rewrite bool_decide_eq_true_2.
  - intros r t t' Hp [_ ->]%transition_parsed. unfold from_permission_resource in Hp. by ok_inv.
Qed.

(** ** Pre-sleep invocations *)

Record sleep_ok (i : SleepInvocationId) : Prop := {
  slo_boot : BootId_new (si_boot i) = Ok (si_boot i);
  slo_new : SleepInvocationId_new (si_boot i) (si_invocation i) = Ok i;
}.

Lemma sleep_new_Ok b v i :
  SleepInvocationId_new b v = Ok i ↔
  i = {| si_boot := b; si_invocation := v |} ∧ canonical_nonzero_uuid v = true.
Proof. unfold SleepInvocationId_new. destruct (canonical_nonzero_uuid v); cbn; naive_solver. Qed.

Lemma sleep_words i :
  sleep_ok i →
  (word (si_boot i) ∧ String.length (si_boot i) = 36%nat) ∧
  (word (si_invocation i) ∧ String.length (si_invocation i) = 36%nat).
Proof.
  intros [[_ Hb]%BootId_new_Ok [_ Hi]%sleep_new_Ok]. split; by apply uuid_word.
Qed.

Definition protective_suffix (i : SleepInvocationId) (e : SessionEpoch) : string :=
  si_boot i +:+ String ":" (si_invocation i +:+ String ":"
    (u64_to_string (se_uid e) +:+ String ":" (se_session_id e +:+ String ":"
      (u64_to_string (se_created_monotonic_us e))))).

Lemma protective_request i e :
  sleep_ok i → epoch_ok e → si_boot i = se_boot e → se_uid e ≠ 0%Z →
  protective_request_id i e = Ok (PROTECTIVE_PREFIX +:+ protective_suffix i e).
Proof.
  intros ([Wb Lb] & [Wi Li])%sleep_words (_ & [Wu Lu] & [Ws Ls] & [Wc Lc])%epoch_words Heq Hu.
  unfold protective_request_id. rewrite bool_decide_eq_true_2 by done.
  destruct (Z.eqb_spec (se_uid e) 0); [done|]. cbn [negb orb reject_if mbind result_bind].
  fold (protective_suffix i e). unfold RequestId_new.
  assert (all_graphic (protective_suffix i e) = true) as Hg.
  { unfold protective_suffix.
    rewrite !all_graphic_app, !graphic_field, !all_graphic_app, !graphic_field, !all_graphic_app,
      !graphic_field, all_graphic_app, graphic_field. by rewrite !word_graphic. }
  assert (String.length (protective_suffix i e) ≤ 180)%nat as Hl.
  { unfold protective_suffix. repeat (rewrite ?length_string_app, ?length_field). lia. }
  name_valid. cbn. lia.
Qed.

(** One protective lock request per sleep invocation and session epoch:
    the request identifier exists exactly when the boots agree and the owner
    is not root, and it parses back, for that epoch, to that invocation and
    to nothing else. *)
Theorem protective_request_exact :
  (∀ i e, sleep_ok i → epoch_ok e →
     (∃ q, protective_request_id i e = Ok q) ↔ si_boot i = se_boot e ∧ se_uid e ≠ 0%Z) ∧
  (∀ q e i, from_protective_request_id q e = Ok i ↔
     sleep_ok i ∧ protective_request_id i e = Ok q).
Proof.
  split.
  - intros i e Hi He. split.
    + intros [q Hq]. unfold protective_request_id in Hq. ok_inv.
      rename select (_ || _ = false) into Hb. apply orb_false_elim in Hb as [Hb Hu].
      by apply negb_false_iff, bool_decide_eq_true in Hb; apply Z.eqb_neq in Hu.
    + intros [Hb Hu]. eexists. by apply protective_request.
  - intros q e i. split.
    + unfold from_protective_request_id. intros HH. ok_inv.
      destruct (split ":" _) as [|b rest]; [done|]. ok_inv.
      repeat match goal with
      | H : BootId_new _ = Ok _ |- _ => apply BootId_new_Ok in H as [-> ?]
      end.
      rename select (SleepInvocationId_new _ _ = Ok _) into Hi.
      apply sleep_new_Ok in Hi as [-> Hi].
      rename select (negb _ = false) into Hb. apply negb_false_iff, bool_decide_eq_true in Hb.
      subst. split; [|done]. constructor; cbn; [by apply BootId_new_Ok|by apply sleep_new_Ok].
    + intros [Hi Hq]. pose proof (sleep_words i Hi) as [[Wb _] [Wi _]].
      assert (q = PROTECTIVE_PREFIX +:+ protective_suffix i e) as Hqt.
      { unfold protective_request_id in Hq. ok_inv. by apply typed_id_new_Ok in Hq as (-> & _). }
      destruct Hi as [Hb Hn]. rewrite Hqt at 1. unfold from_protective_request_id.
      rewrite strip_prefix_app. cbn [ok_or mbind result_bind]. unfold protective_suffix.
      rewrite split_app by (by apply word_free). rewrite Hb. cbn [map_err mbind result_bind].
      rewrite split_app by (by apply word_free). cbn [hd_error ok_or mbind result_bind].
      rewrite Hn. cbn [mbind result_bind]. rewrite Hq. cbn [mbind result_bind].
      by rewrite bool_decide_eq_true_2.
Qed.

(** A suspend of one locked session, parsed and rendered. *)
Example demo_transition :
  let name := "session:transition:suspend:7:abcd1234-1234-4567-89ab-0123456789ab:1000:c2:42:98765432-1234-4567-89ab-0123456789ab:3" in
  (t ← SessionTransitionId_from_resource name; SessionTransitionId_resource_id t) = Ok name.
Proof. vm_compute. reflexivity. Qed.
