(* ===== verification/Lifecycle.v ===== *)
(** * linura-lifecycle: the canonical mutation lifecycle

    Models [crates/linura-lifecycle/src/lib.rs]: the eleven mutation stages,
    [MutationProgress] and the validation of lifecycle workflows. *)

From Stdlib Require Import ZArith Lia.
From stdpp Require Import base numbers gmap strings list fin_maps sorting.
From S2P Require Import Prelude Text.

Set Default Goal Selector "!".

Inductive MutationStage :=
| RequestIntent | Observe | Plan | Validate | Authorize | Prepare
| Execute | Verify | Commit | Audit | Reconcile.

#[export] Instance MutationStage_eq_dec : EqDecision MutationStage.
Proof. solve_decision. Defined.

Definition MUTATION_STAGES : list MutationStage :=
  [RequestIntent; Observe; Plan; Validate; Authorize; Prepare;
   Execute; Verify; Commit; Audit; Reconcile].

Definition MutationStage_as_str (s : MutationStage) : string :=
  match s with
  | RequestIntent => "request-intent"
  | Observe => "observe"
  | Plan => "plan"
  | Validate => "validate"
  | Authorize => "authorize"
  | Prepare => "prepare"
  | Execute => "execute"
  | Verify => "verify"
  | Commit => "commit"
  | Audit => "audit"
  | Reconcile => "reconcile"
  end.

Definition MutationStage_next (s : MutationStage) : option MutationStage :=
  match s with
  | RequestIntent => Some Observe
  | Observe => Some Plan
  | Plan => Some Validate
  | Validate => Some Authorize
  | Authorize => Some Prepare
  | Prepare => Some Execute
  | Execute => Some Verify
  | Verify => Some Commit
  | Commit => Some Audit
  | Audit => Some Reconcile
  | Reconcile => None
  end.

Record MutationProgress := { completed : list MutationStage }.

Definition MutationProgress_new : MutationProgress := {| completed := [RequestIntent] |}.

Definition current (p : MutationProgress) : MutationStage :=
  default RequestIntent (last (completed p)).

Definition is_complete (p : MutationProgress) : bool :=
  bool_decide (current p = Reconcile).

Record MutationTransitionError := {
  mte_current : MutationStage;
  mte_expected : option MutationStage;
  mte_attempted : MutationStage;
}.

(** [advance] mutates [self.completed] only when it returns [Ok]. *)
Definition advance (p : MutationProgress) (attempted : MutationStage)
    : MutationProgress * result MutationTransitionError unit :=
  let cur := current p in
  let expected := MutationStage_next cur in
  if bool_decide (expected = Some attempted) then
    ({| completed := completed p ++ [attempted] |}, Ok tt)
  else
    (p, Err {| mte_current := cur; mte_expected := expected; mte_attempted := attempted |}).

(** A run of attempts on one progress value, each attempt's error ignored. *)
Definition advance_all (p : MutationProgress) (l : list MutationStage) : MutationProgress :=
  foldl (λ q s, fst (advance q s)) p l.

Inductive LifecycleEvent :=
| BeforeBootstrap | AfterBootstrap | BeforeUpdate | AfterUpdate
| BeforeReconcile | AfterReconcile | BeforeRecovery | AfterRecovery.

Record LifecycleStep := {
  ls_capability : string;
  ls_operation : string;
  ls_required_permissions : list string;
}.

Record LifecycleWorkflow := {
  lw_id : string;
  lw_event : LifecycleEvent;
  lw_steps : list LifecycleStep;
}.

Definition LifecycleWorkflow_validate (w : LifecycleWorkflow) : result string unit :=
  reject_if (trim_is_empty (lw_id w)) "workflow id cannot be empty";;
  reject_if (match lw_steps w with [] => true | _ => false end)
    "lifecycle workflow must have at least one typed step";;
  reject_if
    (existsb (λ s, trim_is_empty (ls_capability s) || trim_is_empty (ls_operation s)) (lw_steps w))
    "lifecycle steps require capability and operation";;
  Ok tt.

(** ** Lemmas *)

(** A progress value reachable by the public API holds a non-empty prefix of
    the canonical stage list. *)
Definition progress_ok (p : MutationProgress) : Prop :=
  ∃ n, (n < 11)%nat ∧ completed p = take (S n) MUTATION_STAGES.

Lemma stages_next n s :
  MUTATION_STAGES !! n = Some s → MutationStage_next s = MUTATION_STAGES !! S n.
Proof. do 11 (destruct n as [|n]; [by intros [= <-]|]). done. Qed.

Lemma progress_ok_current p n :
  (n < 11)%nat → completed p = take (S n) MUTATION_STAGES →
  MUTATION_STAGES !! n = Some (current p).
Proof.
  intros Hn Hp. unfold current. rewrite Hp.
  do 11 (destruct n as [|n]; [done|]). lia.
Qed.

Lemma advance_preserves p s : progress_ok p → progress_ok (fst (advance p s)).
Proof.
  intros (n & Hn & Hp). unfold advance. case_bool_decide as Hs; [|by exists n].
  pose proof (progress_ok_current p n Hn Hp) as Hcur.
  rewrite (stages_next n) in Hs by done.
  exists (S n). split.
  - apply lookup_lt_Some in Hs. done.
  - change (completed p ++ [s] = take (S (S n)) MUTATION_STAGES). rewrite Hp, (take_S_r MUTATION_STAGES (S n) s) by done. done.
Qed.

Lemma advance_all_preserves p l : progress_ok p → progress_ok (advance_all p l).
Proof.
  revert p. induction l as [|s l IH]; intros p Hp; [done|]. cbn.
  apply IH. by apply advance_preserves.
Qed.

Lemma progress_ok_new : progress_ok MutationProgress_new.
Proof. exists 0%nat. split; [lia|done]. Qed.

(** Whatever stages a caller attempts and in whatever order, the completed
    stages are always a non-empty prefix of the canonical eleven-stage list:
    no stage can be skipped, reordered or repeated, and the progress is
    complete exactly when all eleven stages have been completed in order. *)
Theorem mutation_progress_is_canonical_prefix (l : list MutationStage) :
  let p := advance_all MutationProgress_new l in
  (∃ n, (n < 11)%nat ∧ completed p = take (S n) MUTATION_STAGES) ∧
  (is_complete p = true ↔ completed p = MUTATION_STAGES).
Proof.
  intros p. assert (progress_ok p) as Hok by apply advance_all_preserves, progress_ok_new.
  split; [done|]. destruct Hok as (n & Hn & Hp).
  pose proof (progress_ok_current p n Hn Hp) as Hcur. unfold is_complete.
  rewrite bool_decide_eq_true, Hp.
  do 10 (destruct n as [|n]; [injection Hcur as <-; done|]).
  destruct n as [|n]; [|lia]. injection Hcur as <-. done.
Qed.

(** An attempt is accepted exactly when it names the successor of the
    current stage; a rejected attempt leaves the progress unchanged and
    reports the current, expected and attempted stages. *)
Theorem advance_accepts_only_successor (p : MutationProgress) (s : MutationStage) :
  match advance p s with
  | (p', Ok _) => MutationStage_next (current p) = Some s ∧
      completed p' = completed p ++ [s] ∧ current p' = s
  | (p', Err e) => MutationStage_next (current p) ≠ Some s ∧ p' = p ∧
      e = {| mte_current := current p; mte_expected := MutationStage_next (current p);
             mte_attempted := s |}
  end.
Proof.
  unfold advance. case_bool_decide as H; [|done]. split_and!; [done..|].
  unfold current. cbn. by rewrite last_snoc.
Qed.
