(* ===== verification/Digest.v ===== *)
(** * Content digests and transaction identifiers

    Models the digest layer of [crates/linura-transaction/src/lib.rs]
    (lines 31-144) together with the token validation at its end.  The
    cryptographic crates are the parameters of the class [Crypto]; what the
    code relies on of them is the class [CryptoLaws]. *)

From Stdlib Require Import ZArith Lia.
From stdpp Require Import base numbers gmap strings list fin_maps sorting.
From S2P Require Import Prelude Text Core.

Set Default Goal Selector "!".

(** The external crates: [sha256] is [Sha256::digest] (streaming [update]
    calls hash the concatenation of their inputs), [hex_encode] is
    [hex::encode], [hmac_mac key msg] is the finalized [Hmac<Sha256>] tag,
    [None] when [new_from_slice] refuses the key.  [debug_str] is the [Debug]
    formatting of a [str] and [sqlite_error_text] the [Display] text of a
    rusqlite error; both only occur inside messages. *)
Inductive SqliteError :=
| SqliteDiskFull
| SqliteConstraint (message : string)
| SqliteOther (code : Z).

Class Crypto := {
  sha256 : bytes → bytes;
  hex_encode : bytes → string;
  hmac_mac : bytes → bytes → option bytes;
  debug_str : string → string;
  sqlite_error_text : SqliteError → string;
}.

(** The two given inputs differ and have the same digest text. *)
Definition collides `{Crypto} (x y : bytes) : Prop :=
  x ≠ y ∧ hex_encode (sha256 x) = hex_encode (sha256 y).

Definition is_lower_hex (c : N) : bool :=
  (48 <=? c)%N && (c <=? 57)%N || (97 <=? c)%N && (c <=? 102)%N.

(** Documented behaviour of the crates: SHA-256 and HMAC-SHA-256 produce 32
    bytes, [hex::encode] writes two lower-case digits per byte, and HMAC
    accepts keys of every length. *)
Class CryptoLaws `{Crypto} := {
  sha256_length : ∀ b, length (sha256 b) = 32%nat;
  hex_encode_length : ∀ b, String.length (hex_encode b) = (2 * length b)%nat;
  hex_encode_lower : ∀ b, forallb is_lower_hex (codes (hex_encode b)) = true;
  hmac_accepts : ∀ k m, ∃ t, hmac_mac k m = Some t ∧ length t = 32%nat;
}.

Inductive TransactionValidationError :=
| InvalidToken (label : string)
| TokenTooLong (label : string)
| InvalidDigest
| BindingTooLarge
| TooManyRiskRules
| DuplicateRiskRule
| InvalidAuthorization
| InvalidAuthorityKey
| InvalidAuthorityMutation
| InvalidState
| CoreError (reason : string).

#[export] Instance TransactionValidationError_eq_dec : EqDecision TransactionValidationError.
Proof. solve_decision. Defined.

Definition MAX_AUTHORITY_BINDING_BYTES : Z := 256 * 1024.
Definition MAX_RISK_RULES : Z := 128.
Definition MAX_RISK_RULE_ID_BYTES : Z := 512.
Definition MAX_REVISION_BYTES : Z := 1024.
Definition MAX_TRANSACTION_GENERATIONS : Z := 64.

Definition TransactionValidationError_display (e : TransactionValidationError) : string :=
  match e with
  | InvalidToken label => label +:+ " is empty or contains control characters"
  | TokenTooLong label => label +:+ " exceeds its UTF-8 byte bound"
  | InvalidDigest => "content digest must be sha256:<64 lowercase hex>"
  | BindingTooLarge =>
      "authority binding exceeds " +:+ u64_to_string MAX_AUTHORITY_BINDING_BYTES +:+ " bytes"
  | TooManyRiskRules =>
      "authority binding exceeds " +:+ u64_to_string MAX_RISK_RULES +:+ " risk rules"
  | DuplicateRiskRule => "authority binding contains duplicate risk rule"
  | InvalidAuthorization => "authority authorization basis is invalid"
  | InvalidAuthorityKey =>
      "durable transaction authority key must be a non-zero 256-bit secret"
  | InvalidAuthorityMutation =>
      "durable transaction authority mutation request is invalid"
  | InvalidState => "durable transaction state is invalid"
  | CoreError reason => "invalid core identity: " +:+ reason
  end.

(** [validate_token] of linura-transaction: unlike the one of linura-core it
    rejects blank text and takes its byte bound as an argument. *)
Definition validate_bounded_token (label value : string) (max_bytes : Z)
    : result TransactionValidationError unit :=
  reject_if (trim_is_empty value || has_control value) (InvalidToken label);;
  reject_if (max_bytes <? str_len value)%Z (TokenTooLong label);;
  Ok tt.

Abbreviation TransactionId := string.
Definition TransactionId_new (value : string) : result TransactionValidationError TransactionId :=
  validate_bounded_token "transaction id" value 256;; Ok value.

Abbreviation ContentDigest := string.
Definition DIGEST_PREFIX : string := "sha256:".
Definition ZERO_DIGEST_HEX : string :=
  "0000000000000000000000000000000000000000000000000000000000000000".

Definition ContentDigest_new (value : string) : result TransactionValidationError ContentDigest :=
  match strip_prefix DIGEST_PREFIX value with
  | None => Err InvalidDigest
  | Some hex =>
      reject_if (negb (str_len hex =? 64)%Z || negb (forallb is_lower_hex (codes hex)))
        InvalidDigest;;
      Ok value
  end.

Definition ContentDigest_zero : ContentDigest := DIGEST_PREFIX +:+ ZERO_DIGEST_HEX.

(** [ContentDigest::hex]: the text after the prefix. *)
Definition ContentDigest_hex (d : ContentDigest) : string :=
  String.substring 7 (String.length d - 7) d.

Section digests.
Context `{Crypto}.

(** The bytes fed to the hasher by [digest_parts]: every field framed. *)
Definition digest_input (domain : string) (parts : list bytes) : bytes :=
  frames (as_bytes domain :: parts).

Definition digest_parts (domain : string) (parts : list bytes) : ContentDigest :=
  DIGEST_PREFIX +:+ hex_encode (sha256 (digest_input domain parts)).

Definition digest_bytes (domain : string) (b : bytes) : ContentDigest :=
  digest_parts domain [b].

Definition TransactionId_for_namespace (principal : PrincipalId) (request_id : RequestId)
    : TransactionId :=
  let digest := digest_parts "linura.transaction.id.v1"
                  [as_bytes principal; as_bytes request_id] in
  "transaction:v1:" +:+ ContentDigest_hex digest.
End digests.

(** ** Lemmas *)

Lemma substring_all s : String.substring 0 (String.length s) s = s.
Proof. induction s as [|c s IH]; cbn; congruence. Qed.

Lemma ContentDigest_hex_prefix s : ContentDigest_hex (DIGEST_PREFIX +:+ s) = s.
Proof.
  unfold ContentDigest_hex. rewrite length_string_app.
  replace (String.length DIGEST_PREFIX + String.length s - 7)%nat with (String.length s) by (cbn; lia).
  apply substring_all.
Qed.

Lemma ContentDigest_new_Ok v d :
  ContentDigest_new v = Ok d ↔
  d = v ∧ ∃ hex, v = DIGEST_PREFIX +:+ hex ∧ String.length hex = 64%nat ∧
    forallb is_lower_hex (codes hex) = true.
Proof.
  unfold ContentDigest_new. split.
  - destruct (strip_prefix DIGEST_PREFIX v) as [hex|] eqn:E; [|done].
    intros HH. ok_inv. rename select (_ || _ = false) into Hor. apply orb_false_elim in Hor as [Hl Hh].
    apply negb_false_iff in Hl, Hh. apply Z.eqb_eq in Hl. unfold str_len in Hl.
    apply strip_prefix_Some in E. split; [done|]. exists hex. split_and!; [done|lia|done].
  - intros (-> & hex & -> & Hl & Hh). rewrite strip_prefix_app.
    unfold str_len. rewrite Hl, Hh. done.
Qed.

Lemma ContentDigest_length d : ContentDigest_new d = Ok d → String.length d = 71%nat.
Proof.
  intros (_ & hex & -> & Hl & _)%ContentDigest_new_Ok.
  rewrite length_string_app, Hl. done.
Qed.

Lemma ContentDigest_zero_valid : ContentDigest_new ContentDigest_zero = Ok ContentDigest_zero.
Proof. done. Qed.

Lemma lower_hex_graphic s :
  forallb is_lower_hex (codes s) = true → all_graphic s = true.
Proof.
  unfold all_graphic. induction (codes s) as [|c l IH]; [done|]. cbn.
  intros [Hc Hl]%andb_prop. rewrite IH by done. rewrite andb_true_r.
  unfold is_lower_hex in Hc. unfold graphic.
  apply orb_prop in Hc as [[H1%N.leb_le H2%N.leb_le]%andb_prop|[H1%N.leb_le H2%N.leb_le]%andb_prop];
    apply andb_true_intro; split; apply N.leb_le; lia.
Qed.

Lemma validate_bounded_token_Ok label v n u :
  validate_bounded_token label v n = Ok u ↔
  trim_is_empty v = false ∧ has_control v = false ∧ (str_len v ≤ n)%Z.
Proof.
  unfold validate_bounded_token. destruct u. split.
  - intros HH. ok_inv. rename select (_ || _ = false) into Hor.
    apply orb_false_elim in Hor as [? ?]. rename select ((_ <? _)%Z = false) into Hl.
    by apply Z.ltb_ge in Hl.
  - intros (-> & -> & Hl). destruct (Z.ltb_spec n (str_len v)); [lia|done].
Qed.

Section digest_lemmas.
Context `{CryptoLaws}.

Lemma digest_parts_valid domain parts :
  ContentDigest_new (digest_parts domain parts) = Ok (digest_parts domain parts).
Proof.
  apply ContentDigest_new_Ok. split; [done|]. eexists. split; [done|].
  rewrite hex_encode_length, sha256_length. split; [done|]. apply hex_encode_lower.
Qed.

Lemma length_digest_parts domain parts : String.length (digest_parts domain parts) = 71%nat.
Proof. apply ContentDigest_length, digest_parts_valid. Qed.

Lemma for_namespace_unfold p r :
  TransactionId_for_namespace p r = "transaction:v1:" +:+
    hex_encode (sha256 (digest_input "linura.transaction.id.v1" [as_bytes p; as_bytes r])).
Proof. unfold TransactionId_for_namespace, digest_parts. by rewrite ContentDigest_hex_prefix. Qed.

Lemma length_for_namespace p r :
  String.length (TransactionId_for_namespace p r) = 79%nat.
Proof.
  rewrite for_namespace_unfold, length_string_app, hex_encode_length, sha256_length. done.
Qed.

(** A derived transaction identifier is itself a valid identifier. *)
Lemma for_namespace_valid p r :
  TransactionId_new (TransactionId_for_namespace p r) = Ok (TransactionId_for_namespace p r).
Proof.
  unfold TransactionId_new. apply bind_Ok. exists tt. split; [|done].
  assert (all_graphic (TransactionId_for_namespace p r) = true) as Hg.
  { rewrite for_namespace_unfold, all_graphic_app. rewrite andb_true_iff. split; [done|].
    apply lower_hex_graphic, hex_encode_lower. }
  apply validate_bounded_token_Ok. split_and!.
  - apply graphic_trim; [done|]. intros E. pose proof (length_for_namespace p r) as L.
    by rewrite E in L.
  - by apply graphic_has_control.
  - unfold str_len. rewrite length_for_namespace. lia.
Qed.

(** The hasher input determines the domain and every part: the framing
    leaves no ambiguity for two different inputs to share a preimage. *)
Lemma digest_input_inj d1 p1 d2 p2 :
  Forall short (as_bytes d1 :: p1) → Forall short (as_bytes d2 :: p2) →
  digest_input d1 p1 = digest_input d2 p2 → d1 = d2 ∧ p1 = p2.
Proof.
  intros H1 H2 E. apply frames_inj in E; [|done..].
  injection E as E1 E2. apply as_bytes_inj in E1. done.
Qed.
End digest_lemmas.

#[export] Hint Resolve digest_parts_valid ContentDigest_zero_valid for_namespace_valid : linura.
