(* ===== verification/Binding.v ===== *)
(** * Authority bindings

    Models [ApprovalAuthority], [AuthorizationBasis] and [AuthorityBinding] of
    [crates/linura-transaction/src/lib.rs]: the canonical byte encoding that a
    durable transaction is bound to. *)

From Stdlib Require Import ZArith Lia.
From stdpp Require Import base numbers gmap strings list fin_maps sorting.
From S2P Require Import Prelude Text Core Digest.

Set Default Goal Selector "!".

Definition encode_field (buffer b : bytes) : result TransactionValidationError bytes :=
  let buffer := buffer ++ frame b in
  reject_if (MAX_AUTHORITY_BINDING_BYTES <? Z.of_nat (length buffer))%Z BindingTooLarge;;
  Ok buffer.

Definition encode_str (buffer : bytes) (value : string)
    : result TransactionValidationError bytes :=
  encode_field buffer (as_bytes value).

(** A sequence of [encode_str(&mut canonical, ..)?] statements. *)
Fixpoint encode_strs (buffer : bytes) (values : list string)
    : result TransactionValidationError bytes :=
  match values with
  | [] => Ok buffer
  | v :: vs => b ← encode_str buffer v; encode_strs b vs
  end.

Definition risk_name (risk : RiskClass) : string :=
  match risk with
  | ReadOnly => "read-only"
  | UserState => "user-state"
  | SystemMutation => "system-mutation"
  | SecuritySensitive => "security-sensitive"
  | Destructive => "destructive"
  end.

Record ApprovalAuthority := {
  aa_evidence_id : ApprovalEvidenceId;
  aa_request_id : ApprovalRequestId;
  aa_approver : PrincipalId;
  aa_approval_class : string;
  aa_issued_at_unix_seconds : Z;
  aa_expires_at_unix_seconds : Z;
}.

Definition ApprovalAuthority_try_new (evidence_id request_id approver approval_class : string)
    (issued_at expires_at : Z) : result TransactionValidationError ApprovalAuthority :=
  validate_bounded_token "approval class" approval_class 256;;
  reject_if ((issued_at =? 0) || (expires_at <=? issued_at))%Z InvalidAuthorization;;
  Ok {| aa_evidence_id := evidence_id; aa_request_id := request_id; aa_approver := approver;
        aa_approval_class := approval_class; aa_issued_at_unix_seconds := issued_at;
        aa_expires_at_unix_seconds := expires_at |}.

Inductive AuthorizationBasis :=
| PolicyAllow
| Approval (approval : ApprovalAuthority).

Record AuthorityBinding := {
  ab_principal : PrincipalId;
  ab_request_id : RequestId;
  ab_plan_id : PlanId;
  ab_request_digest : ContentDigest;
  ab_precondition_digest : ContentDigest;
  ab_observation_digest : ContentDigest;
  ab_provider : ProviderId;
  ab_resource : ResourceId;
  ab_capability : CapabilityId;
  ab_policy_id : PolicyId;
  ab_policy_revision_id : PolicyRevisionId;
  ab_trusted_risk : RiskClass;
  ab_risk_policy_revision : string;
  ab_risk_rule_ids : list string;
  ab_review_digest : ContentDigest;
  ab_authorization : AuthorizationBasis;
  ab_canonical : bytes;
  ab_digest : ContentDigest;
}.

#[export] Instance ApprovalAuthority_eq_dec : EqDecision ApprovalAuthority.
Proof. solve_decision. Defined.
#[export] Instance AuthorizationBasis_eq_dec : EqDecision AuthorizationBasis.
Proof. solve_decision. Defined.
#[export] Instance AuthorityBinding_eq_dec : EqDecision AuthorityBinding.
Proof. solve_decision. Defined.

(** [rules.windows(2).any(|pair| pair[0] == pair[1])]. *)
Fixpoint adjacent_equal (l : list string) : bool :=
  match l with
  | a :: ((b :: _) as l') => bool_decide (a = b) || adjacent_equal l'
  | _ => false
  end.

(** [for rule in &risk_rule_ids { validate_token(..)?; }] *)
Fixpoint validate_rules (rules : list string) : result TransactionValidationError unit :=
  match rules with
  | [] => Ok tt
  | r :: rs =>
      validate_bounded_token "risk rule id" r MAX_RISK_RULE_ID_BYTES;; validate_rules rs
  end.

(** The fields of the authorization basis, in encoding order. *)
Definition authorization_fields (a : AuthorizationBasis) : list string :=
  match a with
  | PolicyAllow => ["policy-allow"]
  | Approval ap =>
      ["approval"; aa_evidence_id ap; aa_request_id ap; aa_approver ap; aa_approval_class ap;
       u64_to_string (aa_issued_at_unix_seconds ap);
       u64_to_string (aa_expires_at_unix_seconds ap)]
  end.

Section binding.
Context `{Crypto}.

Definition AuthorityBinding_try_new
    (principal : PrincipalId) (request_id : RequestId) (plan_id : PlanId)
    (request_digest precondition_digest observation_digest : ContentDigest)
    (provider : ProviderId) (resource : ResourceId) (capability : CapabilityId)
    (policy_id : PolicyId) (policy_revision_id : PolicyRevisionId)
    (trusted_risk : RiskClass) (risk_policy_revision : string)
    (risk_rule_ids : list string) (review_digest : ContentDigest)
    (authorization : AuthorizationBasis)
    : result TransactionValidationError AuthorityBinding :=
  validate_bounded_token "risk-policy revision" risk_policy_revision MAX_REVISION_BYTES;;
  reject_if (MAX_RISK_RULES <? Z.of_nat (length risk_rule_ids))%Z TooManyRiskRules;;
  let rules := merge_sort String.le risk_rule_ids in
  reject_if (adjacent_equal rules) DuplicateRiskRule;;
  validate_rules rules;;
  canonical ← encode_strs []
    (["linura.authority-binding.v1"; principal; request_id; plan_id; request_digest;
      precondition_digest; observation_digest; provider; resource; capability;
      policy_id; policy_revision_id; risk_name trusted_risk; risk_policy_revision;
      u64_to_string (Z.of_nat (length rules))]
     ++ rules ++ [review_digest] ++ authorization_fields authorization);
  reject_if (MAX_AUTHORITY_BINDING_BYTES <? Z.of_nat (length canonical))%Z BindingTooLarge;;
  let digest := digest_bytes "linura.authority-binding.digest.v1" canonical in
  Ok {| ab_principal := principal; ab_request_id := request_id; ab_plan_id := plan_id;
        ab_request_digest := request_digest; ab_precondition_digest := precondition_digest;
        ab_observation_digest := observation_digest; ab_provider := provider;
        ab_resource := resource; ab_capability := capability; ab_policy_id := policy_id;
        ab_policy_revision_id := policy_revision_id; ab_trusted_risk := trusted_risk;
        ab_risk_policy_revision := risk_policy_revision; ab_risk_rule_ids := rules;
        ab_review_digest := review_digest; ab_authorization := authorization;
        ab_canonical := canonical; ab_digest := digest |}.

Definition AuthorityBinding_transaction_id (b : AuthorityBinding) : TransactionId :=
  TransactionId_for_namespace (ab_principal b) (ab_request_id b).
End binding.

(** ** The encoding *)

(** The fields of a binding in encoding order. *)
Definition binding_fields (b : AuthorityBinding) : list string :=
  ["linura.authority-binding.v1"; ab_principal b; ab_request_id b; ab_plan_id b;
   ab_request_digest b; ab_precondition_digest b; ab_observation_digest b; ab_provider b;
   ab_resource b; ab_capability b; ab_policy_id b; ab_policy_revision_id b;
   risk_name (ab_trusted_risk b); ab_risk_policy_revision b;
   u64_to_string (Z.of_nat (length (ab_risk_rule_ids b)))]
  ++ ab_risk_rule_ids b ++ [ab_review_digest b] ++ authorization_fields (ab_authorization b).

Lemma encode_strs_Ok buf vs b :
  (Z.of_nat (length buf) ≤ MAX_AUTHORITY_BINDING_BYTES)%Z →
  encode_strs buf vs = Ok b ↔
  b = buf ++ frames (map as_bytes vs) ∧ (Z.of_nat (length b) ≤ MAX_AUTHORITY_BINDING_BYTES)%Z.
Proof.
  revert buf. induction vs as [|v vs IH]; intros buf Hbuf; cbn [encode_strs map].
  { rewrite frames_nil, app_nil_r. split; [intros [= <-]; done|intros [-> _]; done]. }
  rewrite frames_cons, app_assoc. unfold encode_str, encode_field.
  destruct (Z.ltb_spec MAX_AUTHORITY_BINDING_BYTES (Z.of_nat (length (buf ++ frame (as_bytes v)))));
    cbn.
  - split; [done|]. intros [-> Hl]. rewrite length_app in Hl. lia.
  - by apply IH.
Qed.

Lemma adjacent_equal_NoDup l :
  StronglySorted String.le l → adjacent_equal l = false ↔ NoDup l.
Proof.
  induction 1 as [|a l Hs IH Ha]; [cbn; split; [constructor|done]|].
  destruct l as [|b l].
  { cbn. split; [intros _; apply NoDup_singleton|done]. }
  cbn [adjacent_equal]. rewrite orb_false_iff, bool_decide_eq_false, IH, (NoDup_cons a). split.
  - intros [Hab Hnd]. split; [|done]. intros Hin. apply Hab.
    apply list_elem_of_In in Hin as [->|Hin]; [done|]. apply list_elem_of_In in Hin.
    apply Forall_cons in Ha as [Hab' _]. inversion Hs as [|? ? ? Hb]; subst.
    rewrite Forall_forall in Hb. apply (anti_symm String.le); [done|]. by apply Hb.
  - intros [Hn Hnd]. split; [|done]. intros ->. apply Hn. left.
Qed.

Lemma merge_sort_le_sorted (l : list string) : StronglySorted String.le (merge_sort String.le l).
Proof. apply StronglySorted_merge_sort; apply _. Qed.

(** What [AuthorityBinding::try_new] establishes on the value it returns. *)
Record binding_ok `{Crypto} (b : AuthorityBinding) : Prop := {
  bo_canonical : ab_canonical b = frames (map as_bytes (binding_fields b));
  bo_bounded : (Z.of_nat (length (ab_canonical b)) ≤ MAX_AUTHORITY_BINDING_BYTES)%Z;
  bo_digest : ab_digest b = digest_bytes "linura.authority-binding.digest.v1" (ab_canonical b);
  bo_rules : NoDup (ab_risk_rule_ids b) ∧ StronglySorted String.le (ab_risk_rule_ids b);
  bo_rule_count : (length (ab_risk_rule_ids b) ≤ 128)%nat;
}.

Lemma try_new_ok `{Crypto} p r pl rd pd od pr re ca po pv tr rr rules rv au b :
  AuthorityBinding_try_new p r pl rd pd od pr re ca po pv tr rr rules rv au = Ok b →
  binding_ok b ∧ ab_principal b = p ∧ ab_request_id b = r ∧ ab_request_digest b = rd ∧
  ab_precondition_digest b = pd ∧ ab_observation_digest b = od ∧
  Permutation (ab_risk_rule_ids b) rules.
Proof.
  intros HH. unfold AuthorityBinding_try_new in HH. ok_inv.
  rename select (encode_strs _ _ = _) into Henc.
  apply encode_strs_Ok in Henc as [Hc Hl]; [|cbn; unfold MAX_AUTHORITY_BINDING_BYTES; lia].
  rename select (adjacent_equal _ = false) into Hadj.
  apply adjacent_equal_NoDup in Hadj; [|apply merge_sort_le_sorted].
  rename select ((MAX_RISK_RULES <? _)%Z = false) into Hn. apply Z.ltb_ge in Hn.
  split; [|split_and!; try done; apply merge_sort_Permutation].
  constructor; cbn; [done|done|done|split; [done|apply merge_sort_le_sorted]|].
  rewrite merge_sort_Permutation. unfold MAX_RISK_RULES in Hn. lia.
Qed.

(** A frame inside a bounded encoding has a length that fits 64 bits. *)
Lemma short_of_canonical (l : list bytes) b :
  b ∈ l → (Z.of_nat (length (frames l)) ≤ MAX_AUTHORITY_BINDING_BYTES)%Z → short b.
Proof.
  intros Hin Hl. unfold short. apply list_elem_of_split in Hin as (l1 & l2 & ->).
  rewrite frames_app, frames_cons in Hl. unfold frame in Hl.
  rewrite !length_app in Hl. unfold MAX_AUTHORITY_BINDING_BYTES, u64_max in *. lia.
Qed.

Lemma risk_name_inj r1 r2 : risk_name r1 = risk_name r2 → r1 = r2.
Proof. by destruct r1, r2. Qed.

Definition approval_times_ok (a : AuthorizationBasis) : Prop :=
  match a with
  | PolicyAllow => True
  | Approval ap => is_u64 (aa_issued_at_unix_seconds ap) ∧ is_u64 (aa_expires_at_unix_seconds ap)
  end.

Lemma authorization_fields_inj a1 a2 :
  approval_times_ok a1 → approval_times_ok a2 →
  authorization_fields a1 = authorization_fields a2 → a1 = a2.
Proof.
  unfold approval_times_ok, is_u64.
  destruct a1 as [|[]], a2 as [|[]]; cbn; try done. intros [? ?] [? ?] [= -> -> -> -> Hi He].
  apply u64_to_string_inj in Hi; [|lia..]. apply u64_to_string_inj in He; [|lia..]. by subst.
Qed.

Lemma binding_fields_inj b1 b2 :
  approval_times_ok (ab_authorization b1) → approval_times_ok (ab_authorization b2) →
  binding_fields b1 = binding_fields b2 →
  ab_canonical b1 = ab_canonical b2 → ab_digest b1 = ab_digest b2 → b1 = b2.
Proof.
  intros Ha1 Ha2 HF Hc Hd. unfold binding_fields in HF.
  injection HF as Hp Hr Hpl Hrd Hpd Hod Hpr Hre Hca Hpo Hpv Htr Hrr Hn HF.
  apply risk_name_inj in Htr. apply u64_to_string_inj in Hn; [|lia..].
  apply app_inj_1 in HF as [Hru HF]; [|lia]. injection HF as Hrv Hau.
  apply authorization_fields_inj in Hau; [|done..].
  destruct b1, b2; cbn in *. by subst.
Qed.

(** The canonical bytes of an authority binding determine the binding:
    two bindings accepted by [AuthorityBinding::try_new] with the same
    canonical bytes agree on principal, request, plan, all digests, provider,
    resource, capability, policy, risk class, risk rules and authorization
    basis.  No two different authorities share an encoding. *)
Theorem authority_binding_canonical_injective `{Crypto} (b1 b2 : AuthorityBinding)
    (Hb1 : binding_ok b1) (Hb2 : binding_ok b2)
    (Ht1 : approval_times_ok (ab_authorization b1))
    (Ht2 : approval_times_ok (ab_authorization b2))
    (Heq : ab_canonical b1 = ab_canonical b2) :
  b1 = b2.
Proof.
  apply binding_fields_inj; [done..| |done|].
  - pose proof Heq as HF. rewrite (bo_canonical _ Hb1), (bo_canonical _ Hb2) in HF.
    apply frames_inj in HF.
    + revert HF. apply list_fmap_eq_inj. intros s t. apply as_bytes_inj.
    + apply Forall_forall. intros x Hx. eapply short_of_canonical; [done|].
      rewrite <- (bo_canonical _ Hb1). apply bo_bounded, Hb1.
    + apply Forall_forall. intros x Hx. eapply short_of_canonical; [done|].
      rewrite <- (bo_canonical _ Hb2). apply bo_bounded, Hb2.
  - by rewrite (bo_digest _ Hb1), (bo_digest _ Hb2), Heq.
Qed.

(** Sorting forgets the order in which the rules were given. *)
Lemma sorted_rules_unique (l1 l2 : list string) :
  Permutation l1 l2 → merge_sort String.le l1 = merge_sort String.le l2.
Proof.
  intros HP. apply (StronglySorted_unique String.le); [apply merge_sort_le_sorted..|].
  by rewrite !merge_sort_Permutation.
Qed.

(** The order in which the risk rules are passed does not matter: any
    permutation of them gives the same binding, canonical bytes and digest, or
    the same error; and an accepted binding holds the rules sorted, without
    repetition, with canonical bytes and digest within their bounds. *)
Theorem risk_rule_order_is_irrelevant `{Crypto}
    (p r pl rd pd od pr re ca po pv : string) (tr : RiskClass) (rr : string)
    (rules rules' : list string) (rv : string) (au : AuthorizationBasis) :
  Permutation rules rules' →
  let make l := AuthorityBinding_try_new p r pl rd pd od pr re ca po pv tr rr l rv au in
  make rules = make rules' ∧
  ∀ b, make rules = Ok b →
    Permutation (ab_risk_rule_ids b) rules ∧ binding_ok b.
Proof.
  intros HP make. split.
  - unfold make, AuthorityBinding_try_new.
    by rewrite (sorted_rules_unique rules rules' HP), (Permutation_length HP).
  - intros b Hb.
    destruct (try_new_ok p r pl rd pd od pr re ca po pv tr rr rules rv au b Hb)
      as (Hok & _ & _ & _ & _ & _ & HP'). by split.
Qed.
