(* ===== verification/CryptoModel.v ===== *)
(** * A concrete instance of the cryptographic interface

    A polynomial checksum stands in for SHA-256 and a keyed checksum for HMAC,
    with the real hexadecimal text.  The instance shows that [CryptoLaws] can
    hold and lets the witnesses of the development evaluate whole operations;
    no theorem is stated about it. *)

From Stdlib Require Import ZArith Lia.
From Stdlib Require Import Strings.Byte.
From stdpp Require Import base numbers gmap strings list fin_maps sorting.
From S2P Require Import Prelude Text Core Digest.

Set Default Goal Selector "!".

Definition checksum (b : bytes) : bytes :=
  be_bytes 32 (foldl (λ acc x, Z.land (acc * 65599 + Z_of_byte x + 1) 0xffffffffffff) 7 b)%Z.

Definition hex_digit (n : N) : Ascii.ascii :=
  Ascii.ascii_of_N (if (n <? 10)%N then 48 + n else 87 + n)%N.

Definition hex_byte (b : Byte.byte) : list Ascii.ascii :=
  [hex_digit (Byte.to_N b / 16); hex_digit (Byte.to_N b mod 16)]%N.

Definition hex_text (b : bytes) : string :=
  String.string_of_list_ascii (concat (map hex_byte b)).

#[export] Instance checksum_crypto : Crypto := {|
  sha256 := checksum;
  hex_encode := hex_text;
  hmac_mac := λ k m, Some (checksum (k ++ m));
  debug_str := λ s, s;
  sqlite_error_text := λ e,
    match e with
    | SqliteDiskFull => "disk full"
    | SqliteConstraint m => m
    | SqliteOther _ => "sqlite error"
    end;
|}.

Lemma length_string_of_list_ascii l :
  String.length (String.string_of_list_ascii l) = length l.
Proof. induction l; cbn; congruence. Qed.

Lemma length_hex_text b : String.length (hex_text b) = (2 * length b)%nat.
Proof.
  unfold hex_text. rewrite length_string_of_list_ascii.
  induction b as [|x b IH]; [done|]. cbn in *. rewrite IH. lia.
Qed.

Lemma hex_byte_lower x :
  forallb is_lower_hex (map Ascii.N_of_ascii (hex_byte x)) = true.
Proof. by destruct x. Qed.

Lemma hex_text_lower b : forallb is_lower_hex (codes (hex_text b)) = true.
Proof.
  unfold codes, hex_text. rewrite String.list_ascii_of_string_of_list_ascii.
  induction b as [|x b IH]; [done|]. cbn [map concat].
  rewrite map_app, forallb_app, hex_byte_lower. done.
Qed.

#[export] Instance checksum_crypto_laws : CryptoLaws.
Proof.
  split.
  - intros b. apply length_be_bytes.
  - apply length_hex_text.
  - apply hex_text_lower.
  - intros k m. eexists. split; [done|]. apply length_be_bytes.
Qed.
