(* ===== verification/Authority.v ===== *)
(** * Durable transaction records and mutation authority

    Models the rest of [crates/linura-transaction/src/lib.rs]: transaction
    states and snapshots, the split authority key, the handoff, recovery and
    commit requests with their canonical bytes, and the signing and
    verification of those requests.  Also the retained-request constructor of
    [approved_request.rs]. *)

From Stdlib Require Import ZArith Lia.
From Stdlib Require Import Strings.Byte.
From stdpp Require Import base numbers gmap strings list fin_maps sorting.
From S2P Require Import Prelude Text Core Digest Binding.

Set Default Goal Selector "!".

Inductive TransactionState :=
| Prepared
| Indeterminate
| Verified
| Committed
| Aborted
| RecoveryBlocked.

#[export] Instance TransactionState_eq_dec : EqDecision TransactionState.
Proof. solve_decision. Defined.

Definition TransactionState_as_str (s : TransactionState) : string :=
  match s with
  | Prepared => "prepared"
  | Indeterminate => "indeterminate"
  | Verified => "verified"
  | Committed => "committed"
  | Aborted => "aborted"
  | RecoveryBlocked => "recovery-blocked"
  end.

Definition TransactionState_parse (value : string)
    : result TransactionValidationError TransactionState :=
  if bool_decide (value = "prepared") then Ok Prepared
  else if bool_decide (value = "indeterminate") then Ok Indeterminate
  else if bool_decide (value = "verified") then Ok Verified
  else if bool_decide (value = "committed") then Ok Committed
  else if bool_decide (value = "aborted") then Ok Aborted
  else if bool_decide (value = "recovery-blocked") then Ok RecoveryBlocked
  else Err InvalidState.

Record TransactionSnapshot := {
  ts_transaction_id : TransactionId;
  ts_principal : PrincipalId;
  ts_request_id : RequestId;
  ts_current_generation : Z;
  ts_state_version : Z;
  ts_state : TransactionState;
  ts_binding_digest : ContentDigest;
}.

Inductive PrepareOutcome :=
| Created (s : TransactionSnapshot)
| Existing (s : TransactionSnapshot).

Record RecoveryAnchor := {
  ra_snapshot : TransactionSnapshot;
  ra_request_digest : ContentDigest;
  ra_precondition_digest : ContentDigest;
}.

Record VerifiedCommitMaterial := {
  vcm_snapshot : TransactionSnapshot;
  vcm_desired_state_digest : ContentDigest;
  vcm_graph_digest : ContentDigest;
  vcm_provenance_digest : ContentDigest;
}.

Inductive TransactionStoreError :=
| IdempotencyConflict
| StateConflict
| NotFound
| CapacityExceeded
| AuthorityRejected
| Corruption (reason : string)
| UnsupportedSchema (reason : string)
| Storage (reason : string).

#[export] Instance TransactionSnapshot_eq_dec : EqDecision TransactionSnapshot.
Proof. solve_decision. Defined.
#[export] Instance TransactionStoreError_eq_dec : EqDecision TransactionStoreError.
Proof. solve_decision. Defined.

Definition TransactionStoreError_display (e : TransactionStoreError) : string :=
  match e with
  | IdempotencyConflict => "durable request idempotency conflict"
  | StateConflict => "durable transaction state/version conflict"
  | NotFound => "durable transaction not found"
  | CapacityExceeded => "durable transaction capacity exceeded"
  | AuthorityRejected => "durable transaction mutation authority rejected"
  | Corruption reason => "durable transaction corruption: " +:+ reason
  | UnsupportedSchema reason => "unsupported durable transaction schema: " +:+ reason
  | Storage reason => "durable transaction storage failure: " +:+ reason
  end.

(** ** Keys *)

Definition AUTHORITY_MUTATION_KEY_BYTES : nat := 32.
Definition AUTHORITY_MUTATION_TAG_BYTES : nat := 32.

Definition is_zero_byte (b : Byte.byte) : bool := bool_decide (b = Byte.x00).

(** [validate_authority_key_bytes] zeroes the caller's buffer before it
    rejects it; the first component is the buffer afterwards. *)
Definition validate_authority_key_bytes (key : bytes)
    : bytes * result TransactionValidationError unit :=
  if negb (bool_decide (length key = AUTHORITY_MUTATION_KEY_BYTES)) || forallb is_zero_byte key
  then (replicate (length key) Byte.x00, Err InvalidAuthorityKey)
  else (key, Ok tt).

Record TransactionAuthorityKey := { authority_key_bytes : bytes }.
Record TransactionAuthoritySigner := { signer_bytes : bytes }.
Record TransactionAuthorityVerifier := { verifier_bytes : bytes }.

Definition TransactionAuthorityKey_new (key : bytes)
    : result TransactionValidationError TransactionAuthorityKey :=
  let '(key, r) := validate_authority_key_bytes key in
  r;; Ok {| authority_key_bytes := key |}.

Definition TransactionAuthorityKey_split (k : TransactionAuthorityKey)
    : TransactionAuthoritySigner * TransactionAuthorityVerifier :=
  ({| signer_bytes := authority_key_bytes k |}, {| verifier_bytes := authority_key_bytes k |}).

(** ** Requests *)

Record HandoffRequest := {
  hr_transaction_id : TransactionId;
  hr_expected_generation : Z;
  hr_expected_state_version : Z;
  hr_expected_binding_digest : ContentDigest;
  hr_authority_use_digest : ContentDigest;
  hr_authorized_at_unix_ms : Z;
  hr_expires_at_unix_ms : Z;
  hr_authority_tag : bytes;
}.

Record HandoffCommit := {
  hc_transaction_id : TransactionId;
  hc_generation : Z;
  hc_state_version : Z;
  hc_binding_digest : ContentDigest;
  hc_authority_use_digest : ContentDigest;
}.

Inductive RecoveryResolution :=
| IntendedStateVerified
    (observation_digest desired_state_digest graph_digest provenance_digest : ContentDigest)
| IntendedEffectAbsent (observation_digest : ContentDigest) (next_binding : AuthorityBinding)
| ConflictingState (observation_digest : ContentDigest)
| Ambiguous (observation_digest : ContentDigest).

Record RecoveryRequest := {
  rr_transaction_id : TransactionId;
  rr_expected_generation : Z;
  rr_expected_state_version : Z;
  rr_expected_binding_digest : ContentDigest;
  rr_authorized_at_unix_ms : Z;
  rr_expires_at_unix_ms : Z;
  rr_resolution : RecoveryResolution;
  rr_authority_tag : bytes;
}.

Inductive RecoveryOutcome :=
| OutVerified (s : TransactionSnapshot)
| OutReprepared (s : TransactionSnapshot)
| OutBlocked (s : TransactionSnapshot)
| OutStillIndeterminate (s : TransactionSnapshot).

Record CommitRequest := {
  cr_transaction_id : TransactionId;
  cr_expected_generation : Z;
  cr_expected_state_version : Z;
  cr_expected_binding_digest : ContentDigest;
  cr_desired_state_digest : ContentDigest;
  cr_graph_digest : ContentDigest;
  cr_provenance_digest : ContentDigest;
  cr_authority_tag : bytes;
}.

Record AbortRequest := {
  ar_transaction_id : TransactionId;
  ar_expected_generation : Z;
  ar_expected_state_version : Z;
  ar_reason_digest : ContentDigest;
}.

(** [mutation_field]: one framed field appended to the buffer. *)
Definition mutation_field (buffer b : bytes) : bytes := buffer ++ frame b.
Definition mutation_fields (buffer : bytes) (l : list bytes) : bytes :=
  foldl mutation_field buffer l.

Definition HandoffRequest_fields (r : HandoffRequest) : list bytes :=
  [as_bytes (hr_transaction_id r); u64_be (hr_expected_generation r);
   u64_be (hr_expected_state_version r); as_bytes (hr_expected_binding_digest r);
   as_bytes (hr_authority_use_digest r); u64_be (hr_authorized_at_unix_ms r);
   u64_be (hr_expires_at_unix_ms r)].
Definition HandoffRequest_canonical_bytes (r : HandoffRequest) : bytes :=
  mutation_fields [] (HandoffRequest_fields r).

Definition RecoveryResolution_fields (r : RecoveryResolution) : list bytes :=
  match r with
  | IntendedStateVerified o d g p =>
      [as_bytes "intended-state-verified"; as_bytes o; as_bytes d; as_bytes g; as_bytes p]
  | IntendedEffectAbsent o nb =>
      [as_bytes "intended-effect-absent"; as_bytes o; as_bytes (ab_digest nb)]
  | ConflictingState o => [as_bytes "conflicting-state"; as_bytes o]
  | Ambiguous o => [as_bytes "ambiguous"; as_bytes o]
  end.
Definition RecoveryResolution_canonical_fields (r : RecoveryResolution) (canonical : bytes)
    : bytes :=
  mutation_fields canonical (RecoveryResolution_fields r).

Definition RecoveryRequest_fields (r : RecoveryRequest) : list bytes :=
  [as_bytes (rr_transaction_id r); u64_be (rr_expected_generation r);
   u64_be (rr_expected_state_version r); as_bytes (rr_expected_binding_digest r);
   u64_be (rr_authorized_at_unix_ms r); u64_be (rr_expires_at_unix_ms r)].
Definition RecoveryRequest_canonical_bytes (r : RecoveryRequest) : bytes :=
  RecoveryResolution_canonical_fields (rr_resolution r)
    (mutation_fields [] (RecoveryRequest_fields r)).

Definition CommitRequest_fields (r : CommitRequest) : list bytes :=
  [as_bytes (cr_transaction_id r); u64_be (cr_expected_generation r);
   u64_be (cr_expected_state_version r); as_bytes (cr_expected_binding_digest r);
   as_bytes (cr_desired_state_digest r); as_bytes (cr_graph_digest r);
   as_bytes (cr_provenance_digest r)].
Definition CommitRequest_canonical_bytes (r : CommitRequest) : bytes :=
  mutation_fields [] (CommitRequest_fields r).

Definition HANDOFF_DOMAIN : string := "linura.transaction-authority.handoff.v1".
Definition RECOVERY_DOMAIN : string := "linura.transaction-authority.recovery.v1".
Definition COMMIT_DOMAIN : string := "linura.transaction-authority.commit.v1".

(** The bytes [mutation_mac_input] feeds to the MAC. *)
Definition mutation_mac_input (domain : string) (canonical : bytes) : bytes :=
  frame (as_bytes domain) ++ frame canonical.

Section authority.
Context `{Crypto}.

Definition authority_tag (key : bytes) (domain : string) (canonical : bytes)
    : result TransactionValidationError bytes :=
  ok_or (hmac_mac key (mutation_mac_input domain canonical)) InvalidAuthorityKey.

Definition verify_authority_tag (key : bytes) (domain : string) (canonical tag : bytes) : bool :=
  match hmac_mac key (mutation_mac_input domain canonical) with
  | None => false
  | Some expected => bool_decide (tag = expected)
  end.

Definition fingerprint (v : TransactionAuthorityVerifier) : ContentDigest :=
  digest_bytes "linura.transaction-authority.verifier-fingerprint.v1" (verifier_bytes v).

Definition verify_handoff (v : TransactionAuthorityVerifier) (r : HandoffRequest) : bool :=
  verify_authority_tag (verifier_bytes v) HANDOFF_DOMAIN
    (HandoffRequest_canonical_bytes r) (hr_authority_tag r).
Definition verify_recovery (v : TransactionAuthorityVerifier) (r : RecoveryRequest) : bool :=
  verify_authority_tag (verifier_bytes v) RECOVERY_DOMAIN
    (RecoveryRequest_canonical_bytes r) (rr_authority_tag r).
Definition verify_commit (v : TransactionAuthorityVerifier) (r : CommitRequest) : bool :=
  verify_authority_tag (verifier_bytes v) COMMIT_DOMAIN
    (CommitRequest_canonical_bytes r) (cr_authority_tag r).

Definition authorize_handoff (s : TransactionAuthoritySigner) (snapshot : TransactionSnapshot)
    (authority_use_digest : ContentDigest) (authorized_at expires_at : Z)
    : result TransactionValidationError HandoffRequest :=
  reject_if (negb (bool_decide (ts_state snapshot = Prepared))
             || bool_decide (authority_use_digest = ContentDigest_zero)
             || (authorized_at =? 0)%Z || (expires_at <? authorized_at)%Z)
    InvalidAuthorityMutation;;
  let mk tag :=
    {| hr_transaction_id := ts_transaction_id snapshot;
       hr_expected_generation := ts_current_generation snapshot;
       hr_expected_state_version := ts_state_version snapshot;
       hr_expected_binding_digest := ts_binding_digest snapshot;
       hr_authority_use_digest := authority_use_digest;
       hr_authorized_at_unix_ms := authorized_at;
       hr_expires_at_unix_ms := expires_at;
       hr_authority_tag := tag |} in
  let request := mk (replicate AUTHORITY_MUTATION_TAG_BYTES Byte.x00) in
  tag ← authority_tag (signer_bytes s) HANDOFF_DOMAIN (HandoffRequest_canonical_bytes request);
  Ok (mk tag).

(** The checks [authorize_recovery] makes on the resolution itself. *)
Definition resolution_rejected (snapshot : TransactionSnapshot) (r : RecoveryResolution) : bool :=
  match r with
  | IntendedEffectAbsent _ nb =>
      negb (bool_decide (AuthorityBinding_transaction_id nb = ts_transaction_id snapshot))
  | IntendedStateVerified _ d g p =>
      bool_decide (d = ContentDigest_zero) || bool_decide (g = ContentDigest_zero)
      || bool_decide (p = ContentDigest_zero)
  | ConflictingState _ | Ambiguous _ => false
  end.

Definition authorize_recovery (s : TransactionAuthoritySigner) (snapshot : TransactionSnapshot)
    (resolution : RecoveryResolution) (authorized_at expires_at : Z)
    : result TransactionValidationError RecoveryRequest :=
  reject_if (negb (bool_decide (ts_state snapshot = Indeterminate))
             || (authorized_at =? 0)%Z || (expires_at <? authorized_at)%Z)
    InvalidAuthorityMutation;;
  reject_if (resolution_rejected snapshot resolution) InvalidAuthorityMutation;;
  let mk tag :=
    {| rr_transaction_id := ts_transaction_id snapshot;
       rr_expected_generation := ts_current_generation snapshot;
       rr_expected_state_version := ts_state_version snapshot;
       rr_expected_binding_digest := ts_binding_digest snapshot;
       rr_authorized_at_unix_ms := authorized_at;
       rr_expires_at_unix_ms := expires_at;
       rr_resolution := resolution;
       rr_authority_tag := tag |} in
  let request := mk (replicate AUTHORITY_MUTATION_TAG_BYTES Byte.x00) in
  tag ← authority_tag (signer_bytes s) RECOVERY_DOMAIN (RecoveryRequest_canonical_bytes request);
  Ok (mk tag).

Definition authorize_commit (s : TransactionAuthoritySigner) (snapshot : TransactionSnapshot)
    (desired_state_digest graph_digest provenance_digest : ContentDigest)
    : result TransactionValidationError CommitRequest :=
  reject_if (negb (bool_decide (ts_state snapshot = Verified))
             || bool_decide (desired_state_digest = ContentDigest_zero)
             || bool_decide (graph_digest = ContentDigest_zero)
             || bool_decide (provenance_digest = ContentDigest_zero))
    InvalidAuthorityMutation;;
  let mk tag :=
    {| cr_transaction_id := ts_transaction_id snapshot;
       cr_expected_generation := ts_current_generation snapshot;
       cr_expected_state_version := ts_state_version snapshot;
       cr_expected_binding_digest := ts_binding_digest snapshot;
       cr_desired_state_digest := desired_state_digest;
       cr_graph_digest := graph_digest;
       cr_provenance_digest := provenance_digest;
       cr_authority_tag := tag |} in
  let request := mk (replicate AUTHORITY_MUTATION_TAG_BYTES Byte.x00) in
  tag ← authority_tag (signer_bytes s) COMMIT_DOMAIN (CommitRequest_canonical_bytes request);
  Ok (mk tag).
End authority.

(** ** Retained requests ([approved_request.rs]) *)

Definition MAX_RETAINED_REQUEST_BYTES : Z := 256 * 1024.

Record RetainedRequest := {
  rq_principal : PrincipalId;
  rq_request_id : RequestId;
  rq_canonical : bytes;
  rq_digest : ContentDigest;
}.

Definition RetainedRequest_new `{Crypto} (principal : PrincipalId) (request_id : RequestId)
    (canonical : bytes) : result TransactionStoreError RetainedRequest :=
  reject_if (is_nil canonical || (MAX_RETAINED_REQUEST_BYTES <? Z.of_nat (length canonical))%Z)
    CapacityExceeded;;
  digest ← map_err (λ _, AuthorityRejected)
             (ContentDigest_new ("sha256:" +:+ hex_encode (sha256 canonical)));
  Ok {| rq_principal := principal; rq_request_id := request_id; rq_canonical := canonical;
        rq_digest := digest |}.

(** * Properties of mutation authority

    Signing and verification agree, a request is only signed in the state it
    is meant for, and the authenticated message of a request determines the
    kind of request and every field the store acts on. *)

From S2P Require Import CryptoModel.

Lemma TransactionState_parse_as_str s :
  TransactionState_parse (TransactionState_as_str s) = Ok s.
Proof. by destruct s. Qed.

Lemma TransactionState_parse_Ok v s :
  TransactionState_parse v = Ok s ↔ v = TransactionState_as_str s.
Proof.
  split; [|intros ->; apply TransactionState_parse_as_str].
  unfold TransactionState_parse. repeat case_bool_decide; intros [= <-]; done.
Qed.

Lemma mutation_fields_frames buf l : mutation_fields buf l = buf ++ frames l.
Proof.
  unfold mutation_fields. revert buf. induction l as [|b l IH]; intros buf; cbn [foldl].
  - by rewrite frames_nil, app_nil_r.
  - rewrite IH, frames_cons, app_assoc. done.
Qed.

(** ** Messages *)

Inductive MutationRequest :=
| MHandoff (r : HandoffRequest)
| MRecovery (r : RecoveryRequest)
| MCommit (r : CommitRequest).

(** The fields of the request, and the MAC input computed from them. *)
Definition mutation_fields_of (m : MutationRequest) : list bytes :=
  match m with
  | MHandoff r => HandoffRequest_fields r
  | MRecovery r => RecoveryRequest_fields r ++ RecoveryResolution_fields (rr_resolution r)
  | MCommit r => CommitRequest_fields r
  end.

Definition mutation_message (m : MutationRequest) : bytes :=
  match m with
  | MHandoff r => mutation_mac_input HANDOFF_DOMAIN (HandoffRequest_canonical_bytes r)
  | MRecovery r => mutation_mac_input RECOVERY_DOMAIN (RecoveryRequest_canonical_bytes r)
  | MCommit r => mutation_mac_input COMMIT_DOMAIN (CommitRequest_canonical_bytes r)
  end.

Definition mutation_domain (m : MutationRequest) : string :=
  match m with
  | MHandoff _ => HANDOFF_DOMAIN
  | MRecovery _ => RECOVERY_DOMAIN
  | MCommit _ => COMMIT_DOMAIN
  end.

(** Values of the Rust types: integers fit a [u64], buffers fit in memory. *)
Definition mutation_in_range (m : MutationRequest) : Prop :=
  Forall short (mutation_fields_of m) ∧ short (frames (mutation_fields_of m)) ∧
  match m with
  | MHandoff r => is_u64 (hr_expected_generation r) ∧ is_u64 (hr_expected_state_version r) ∧
      is_u64 (hr_authorized_at_unix_ms r) ∧ is_u64 (hr_expires_at_unix_ms r)
  | MRecovery r => is_u64 (rr_expected_generation r) ∧ is_u64 (rr_expected_state_version r) ∧
      is_u64 (rr_authorized_at_unix_ms r) ∧ is_u64 (rr_expires_at_unix_ms r)
  | MCommit r => is_u64 (cr_expected_generation r) ∧ is_u64 (cr_expected_state_version r)
  end.

(** Two requests that differ at most in their tags and, for a replacement
    binding, in nothing its digest covers. *)
Definition same_resolution (r1 r2 : RecoveryResolution) : Prop :=
  match r1, r2 with
  | IntendedEffectAbsent o1 b1, IntendedEffectAbsent o2 b2 =>
      o1 = o2 ∧ ab_digest b1 = ab_digest b2
  | _, _ => r1 = r2
  end.

Definition same_mutation (m1 m2 : MutationRequest) : Prop :=
  match m1, m2 with
  | MHandoff a, MHandoff b =>
      hr_transaction_id a = hr_transaction_id b ∧
      hr_expected_generation a = hr_expected_generation b ∧
      hr_expected_state_version a = hr_expected_state_version b ∧
      hr_expected_binding_digest a = hr_expected_binding_digest b ∧
      hr_authority_use_digest a = hr_authority_use_digest b ∧
      hr_authorized_at_unix_ms a = hr_authorized_at_unix_ms b ∧
      hr_expires_at_unix_ms a = hr_expires_at_unix_ms b
  | MRecovery a, MRecovery b =>
      rr_transaction_id a = rr_transaction_id b ∧
      rr_expected_generation a = rr_expected_generation b ∧
      rr_expected_state_version a = rr_expected_state_version b ∧
      rr_expected_binding_digest a = rr_expected_binding_digest b ∧
      rr_authorized_at_unix_ms a = rr_authorized_at_unix_ms b ∧
      rr_expires_at_unix_ms a = rr_expires_at_unix_ms b ∧
      same_resolution (rr_resolution a) (rr_resolution b)
  | MCommit a, MCommit b =>
      cr_transaction_id a = cr_transaction_id b ∧
      cr_expected_generation a = cr_expected_generation b ∧
      cr_expected_state_version a = cr_expected_state_version b ∧
      cr_expected_binding_digest a = cr_expected_binding_digest b ∧
      cr_desired_state_digest a = cr_desired_state_digest b ∧
      cr_graph_digest a = cr_graph_digest b ∧
      cr_provenance_digest a = cr_provenance_digest b
  | _, _ => False
  end.

Lemma mutation_message_frames m :
  mutation_message m = frame (as_bytes (mutation_domain m)) ++ frame (frames (mutation_fields_of m)).
Proof.
  destruct m; cbn [mutation_message mutation_domain mutation_fields_of]; unfold mutation_mac_input,
    HandoffRequest_canonical_bytes, RecoveryRequest_canonical_bytes, CommitRequest_canonical_bytes,
    RecoveryResolution_canonical_fields; rewrite ?mutation_fields_frames, ?frames_app; done.
Qed.

Lemma mutation_domain_short m : short (as_bytes (mutation_domain m)).
Proof. by destruct m. Qed.

Lemma resolution_fields_inj r1 r2 :
  RecoveryResolution_fields r1 = RecoveryResolution_fields r2 → same_resolution r1 r2.
Proof.
  destruct r1, r2; cbn; intros E; rewrite !cons_eq_iff in E; destruct_and?; try done;
    repeat match goal with H : as_bytes _ = as_bytes _ |- _ => apply as_bytes_inj in H end;
    by subst.
Qed.

Lemma same_mutation_of_fields m1 m2 :
  mutation_in_range m1 → mutation_in_range m2 →
  mutation_domain m1 = mutation_domain m2 →
  mutation_fields_of m1 = mutation_fields_of m2 → same_mutation m1 m2.
Proof.
  intros (_ & _ & H1) (_ & _ & H2) Hd Hf.
  destruct m1, m2; cbn [mutation_domain] in Hd; try discriminate Hd;
    unfold mutation_fields_of, HandoffRequest_fields, RecoveryRequest_fields, CommitRequest_fields
      in Hf; cbn [app] in Hf; rewrite !cons_eq_iff in Hf; unfold same_mutation; destruct_and!; split_and!;
    match goal with
    | |- same_resolution _ _ => by apply resolution_fields_inj
    | H : as_bytes ?x = as_bytes ?y |- ?x = ?y => by apply as_bytes_inj
    | H : u64_be ?x = u64_be ?y |- ?x = ?y => by apply u64_be_inj
    end.
Qed.

(** The message authenticated for a durable mutation determines the
    mutation.  Equal MAC inputs come from the same kind of request (handoff,
    recovery or commit) and agree on the transaction, the expected generation,
    version and binding, the validity window, and the resolution or commit
    digests: a tag issued for one mutation authenticates no other. *)
Theorem mutation_message_injective (m1 m2 : MutationRequest)
    (H1 : mutation_in_range m1) (H2 : mutation_in_range m2)
    (Heq : mutation_message m1 = mutation_message m2) :
  same_mutation m1 m2.
Proof.
  pose proof H1 as (Hf1 & Hs1 & _). pose proof H2 as (Hf2 & Hs2 & _).
  rewrite !mutation_message_frames in Heq.
  apply frame_app_inj in Heq as [Hd Heq]; [|apply mutation_domain_short..].
  apply as_bytes_inj in Hd.
  rewrite <- (app_nil_r (frame (frames (mutation_fields_of m1)))) in Heq.
  rewrite <- (app_nil_r (frame (frames (mutation_fields_of m2)))) in Heq.
  apply frame_app_inj in Heq as [Heq _]; [|done..].
  apply frames_inj in Heq; [|done..]. by apply same_mutation_of_fields.
Qed.

(** ** Signing and verification *)

Lemma tag_roundtrip `{Crypto} key domain canonical tag :
  authority_tag key domain canonical = Ok tag →
  verify_authority_tag key domain canonical tag = true.
Proof.
  unfold authority_tag, verify_authority_tag. intros Ht. ok_inv.
  rename select (hmac_mac _ _ = _) into Hh. rewrite Hh. by apply bool_decide_eq_true.
Qed.

(** Every request the control side can sign is accepted by the verifier
    split from the same key, and carries exactly the transaction, generation,
    version and binding of the snapshot it was signed for: handoff only from
    [Prepared] with a non-zero authority-use digest, recovery only from
    [Indeterminate], commit only from [Verified] with non-zero digests. *)
Theorem signed_requests_verify `{Crypto} (k : TransactionAuthorityKey) (snap : TransactionSnapshot) :
  let '(signer, verifier) := TransactionAuthorityKey_split k in
  (∀ use at_ms exp_ms r, authorize_handoff signer snap use at_ms exp_ms = Ok r →
     verify_handoff verifier r = true ∧ ts_state snap = Prepared ∧
     use ≠ ContentDigest_zero ∧ at_ms ≠ 0%Z ∧ (at_ms ≤ exp_ms)%Z ∧
     hr_transaction_id r = ts_transaction_id snap ∧
     hr_expected_generation r = ts_current_generation snap ∧
     hr_expected_state_version r = ts_state_version snap ∧
     hr_expected_binding_digest r = ts_binding_digest snap) ∧
  (∀ res at_ms exp_ms r, authorize_recovery signer snap res at_ms exp_ms = Ok r →
     verify_recovery verifier r = true ∧ ts_state snap = Indeterminate ∧
     resolution_rejected snap res = false ∧ rr_resolution r = res ∧
     rr_transaction_id r = ts_transaction_id snap ∧
     rr_expected_generation r = ts_current_generation snap ∧
     rr_expected_state_version r = ts_state_version snap ∧
     rr_expected_binding_digest r = ts_binding_digest snap) ∧
  (∀ d g p r, authorize_commit signer snap d g p = Ok r →
     verify_commit verifier r = true ∧ ts_state snap = Verified ∧
     d ≠ ContentDigest_zero ∧ g ≠ ContentDigest_zero ∧ p ≠ ContentDigest_zero ∧
     cr_transaction_id r = ts_transaction_id snap ∧
     cr_expected_generation r = ts_current_generation snap ∧
     cr_expected_state_version r = ts_state_version snap ∧
     cr_expected_binding_digest r = ts_binding_digest snap).
Proof.
  cbn [TransactionAuthorityKey_split]. split_and!; intros *;
    unfold authorize_handoff, authorize_recovery, authorize_commit; intros HH; ok_inv;
    rename select (authority_tag _ _ _ = _) into Ht; apply tag_roundtrip in Ht;
    repeat match goal with H : _ || _ = false |- _ => apply orb_false_elim in H as [? ?] end;
    repeat match goal with
    | H : negb _ = false |- _ => apply negb_false_iff in H
    | H : bool_decide _ = true |- _ => apply bool_decide_eq_true in H
    | H : bool_decide _ = false |- _ => apply bool_decide_eq_false in H
    | H : (_ =? _)%Z = false |- _ => apply Z.eqb_neq in H
    | H : (_ <? _)%Z = false |- _ => apply Z.ltb_ge in H
    end; split_and!; done.
Qed.

(** An authority key is accepted exactly when it is 32 bytes long and not
    all zero; rejected key material is overwritten with zeros before the error
    is returned. *)
Theorem authority_key_validation (key : bytes) :
  match validate_authority_key_bytes key with
  | (key', Ok _) => key' = key ∧ length key = 32%nat ∧ ∃ b, b ∈ key ∧ b ≠ Byte.x00
  | (key', Err e) => e = InvalidAuthorityKey ∧ length key' = length key ∧
      (∀ b, b ∈ key' → b = Byte.x00) ∧
      (length key ≠ 32%nat ∨ ∀ b, b ∈ key → b = Byte.x00)
  end.
Proof.
  unfold validate_authority_key_bytes, AUTHORITY_MUTATION_KEY_BYTES.
  destruct (forallb is_zero_byte key) eqn:Hz.
  - rewrite orb_true_r. split_and!; [done|apply length_replicate| |].
    + intros b [-> _]%elem_of_replicate. done.
    + right. rewrite forallb_forall in Hz. intros b Hb%list_elem_of_In.
      specialize (Hz b Hb). by apply bool_decide_eq_true in Hz.
  - rewrite orb_false_r. case_bool_decide as Hl; cbn.
    + split_and!; [done..|]. apply not_true_iff_false in Hz. rewrite forallb_forall in Hz.
      destruct (decide (Exists (λ b, b ≠ Byte.x00) key)) as [He|Hn].
      * by apply Exists_exists in He.
      * exfalso. apply Hz. intros b Hb. apply bool_decide_eq_true.
        destruct (decide (b = Byte.x00)) as [|Hne]; [done|]. exfalso. apply Hn.
        apply Exists_exists. exists b. by rewrite list_elem_of_In.
    + split_and!; [done|apply length_replicate| |by left].
      intros b [-> _]%elem_of_replicate. done.
Qed.
