(* ===== verification/Sqlite.v ===== *)
(** * The authority database

    The tables of [schema.rs] (with the CHECK constraints, keys and triggers
    of its migrations), the statements the store issues, and the monad they
    run in.  SQLite itself is outside the repository: the environment [Env]
    says which statements fail and what the registered filesystem-reserve
    functions answer.  A table is a finite map from its primary key to its
    row; [COUNT] is the size of the map and [ORDER BY] sorts on the key. *)

From Stdlib Require Import ZArith Lia.
From Stdlib Require Import Strings.Byte.
From stdpp Require Import base numbers gmap strings list fin_maps sorting.
From S2P Require Import Prelude Text Core Digest Binding Authority.

Set Default Goal Selector "!".

(** ** Rows *)

Record StoredTransaction := {
  st_transaction_id : string;
  st_principal : string;
  st_request_id : string;
  st_current_generation : Z;
  st_state_version : Z;
  st_integrity_tag : bytes;
}.

Record StoredGeneration := {
  sg_transaction_id : string;
  sg_generation : Z;
  sg_state : string;
  sg_binding_digest : string;
  sg_binding_canonical : bytes;
  sg_request_digest : string;
  sg_precondition_digest : string;
  sg_observation_digest : string;
  sg_desired_state_digest : option string;
  sg_graph_digest : option string;
  sg_provenance_digest : option string;
  sg_integrity_tag : bytes;
}.

Record StoredAuditEvent := {
  sa_transaction_id : string;
  sa_event_sequence : Z;
  sa_generation : Z;
  sa_state_version : Z;
  sa_event_kind : string;
  sa_payload_digest : string;
  sa_previous_digest : string;
  sa_event_digest : string;
  sa_integrity_tag : bytes;
}.

(** One row of [sqlite_schema]. *)
Record SchemaObject := {
  so_type : string;
  so_name : string;
  so_tbl_name : string;
  so_sql : string;
}.

(** The connection settings the store reads back. *)
Record Pragmas := {
  pr_journal_mode : string;
  pr_synchronous : Z;
  pr_foreign_keys : Z;
  pr_trusted_schema : Z;
  pr_recursive_triggers : Z;
  pr_no_ckpt_on_close : bool;
  pr_page_size : Z;
  pr_max_page_count : Z;
  pr_application_id : Z;
  pr_user_version : Z;
}.

Record Database := {
  transactions : gmap string StoredTransaction;
  generations : gmap (string * Z) StoredGeneration;
  audit_events : gmap (string * Z) StoredAuditEvent;
  audit_reservations : gmap (string * Z) Z;
  authority_store_identity : option (string * string);
  schema_migrations : gmap string string;
  schema_objects : list SchemaObject;
  pragmas : Pragmas;
}.

Definition with_transactions (db : Database) m : Database :=
  {| transactions := m; generations := generations db; audit_events := audit_events db;
     audit_reservations := audit_reservations db;
     authority_store_identity := authority_store_identity db;
     schema_migrations := schema_migrations db; schema_objects := schema_objects db;
     pragmas := pragmas db |}.
Definition with_generations (db : Database) m : Database :=
  {| transactions := transactions db; generations := m; audit_events := audit_events db;
     audit_reservations := audit_reservations db;
     authority_store_identity := authority_store_identity db;
     schema_migrations := schema_migrations db; schema_objects := schema_objects db;
     pragmas := pragmas db |}.
Definition with_audit_events (db : Database) m : Database :=
  {| transactions := transactions db; generations := generations db; audit_events := m;
     audit_reservations := audit_reservations db;
     authority_store_identity := authority_store_identity db;
     schema_migrations := schema_migrations db; schema_objects := schema_objects db;
     pragmas := pragmas db |}.
Definition with_audit_reservations (db : Database) m : Database :=
  {| transactions := transactions db; generations := generations db;
     audit_events := audit_events db; audit_reservations := m;
     authority_store_identity := authority_store_identity db;
     schema_migrations := schema_migrations db; schema_objects := schema_objects db;
     pragmas := pragmas db |}.

(** ** Queries *)

Definition key_le {V} (a b : Z * V) : Prop := (fst a ≤ fst b)%Z.
#[export] Instance key_le_dec {V} : RelDecision (@key_le V).
Proof. intros a b. unfold key_le. apply _. Defined.

(** [SELECT .. FROM t WHERE transaction_id = id ORDER BY key]: the rows of one
    transaction with the second component of their primary key. *)
Definition rows_of {V} (t : gmap (string * Z) V) (id : string) : list (Z * V) :=
  merge_sort key_le
    (omap (λ kv, if decide (fst (fst kv) = id) then Some (snd (fst kv), snd kv) else None)
       (map_to_list t)).

Definition table_count {K V} `{Countable K} (t : gmap K V) : Z := Z.of_nat (size t).

Definition nonterminal_text (s : string) : bool :=
  bool_decide (s = "prepared") || bool_decide (s = "indeterminate")
  || bool_decide (s = "verified").

(** The join [transactions t JOIN generations g ON g.transaction_id =
    t.transaction_id AND g.generation = t.current_generation WHERE g.state IN
    ('prepared','indeterminate','verified')]. *)
Definition is_nonterminal (db : Database) (t : StoredTransaction) : bool :=
  match generations db !! (st_transaction_id t, st_current_generation t) with
  | Some g => nonterminal_text (sg_state g)
  | None => false
  end.
Definition nonterminal_count (db : Database) : Z :=
  Z.of_nat (length (filter (λ kt, is_nonterminal db (snd kt) = true)
                      (map_to_list (transactions db)))).

(** ** Constraints of the schema *)

Definition len_between (s : string) (lo hi : Z) : bool :=
  (lo <=? str_len s)%Z && (str_len s <=? hi)%Z.
Definition digest_len (s : string) : bool := (str_len s =? 71)%Z.
Definition tag_len (b : bytes) : bool := (Z.of_nat (length b) =? 32)%Z.
Definition opt_digest_len (o : option string) : bool :=
  match o with None => true | Some s => digest_len s end.

Definition check_transactions_row (r : StoredTransaction) : bool :=
  len_between (st_transaction_id r) 1 256 && len_between (st_principal r) 1 1024
  && len_between (st_request_id r) 1 1024 && (0 <=? st_current_generation r)%Z
  && (1 <=? st_state_version r)%Z && tag_len (st_integrity_tag r).

Definition state_text (s : string) : bool :=
  is_ok (TransactionState_parse s).

Definition check_generations_row (r : StoredGeneration) : bool :=
  len_between (sg_transaction_id r) 1 256 && (0 <=? sg_generation r)%Z
  && state_text (sg_state r) && digest_len (sg_binding_digest r)
  && (Z.of_nat (length (sg_binding_canonical r)) <=? 262144)%Z
  && digest_len (sg_request_digest r) && digest_len (sg_precondition_digest r)
  && digest_len (sg_observation_digest r) && opt_digest_len (sg_desired_state_digest r)
  && opt_digest_len (sg_graph_digest r) && opt_digest_len (sg_provenance_digest r)
  && tag_len (sg_integrity_tag r).

Definition check_audit_events_row (r : StoredAuditEvent) : bool :=
  len_between (sa_transaction_id r) 1 256 && (0 <=? sa_event_sequence r)%Z
  && (0 <=? sa_generation r)%Z && (1 <=? sa_state_version r)%Z
  && len_between (sa_event_kind r) 1 64 && digest_len (sa_payload_digest r)
  && digest_len (sa_previous_digest r) && digest_len (sa_event_digest r)
  && tag_len (sa_integrity_tag r).

Definition check_audit_reservations_row (id : string) (slot len : Z) : bool :=
  len_between id 1 256 && (0 <=? slot)%Z && (8192 <=? len)%Z && (len <=? 131072)%Z.

(** ** Statements

    Each takes the database and returns it changed, or the constraint that
    refused the statement. *)

Definition sql_reject (c : bool) (what : string) : result SqliteError unit :=
  reject_if c (SqliteConstraint what).

Definition identity_conflict (r : StoredTransaction) (db : Database) : bool :=
  bool_decide (is_Some (transactions db !! st_transaction_id r))
  || existsb (λ kt, bool_decide (st_principal (snd kt) = st_principal r)
                    && bool_decide (st_request_id (snd kt) = st_request_id r))
       (map_to_list (transactions db)).

Definition insert_transactions (r : StoredTransaction) (db : Database)
    : result SqliteError Database :=
  sql_reject (identity_conflict r db) "immutable transaction identity conflict";;
  sql_reject (negb (check_transactions_row r)) "transactions check";;
  Ok (with_transactions db (<[st_transaction_id r := r]> (transactions db))).

Definition insert_generations (r : StoredGeneration) (db : Database)
    : result SqliteError Database :=
  let key := (sg_transaction_id r, sg_generation r) in
  sql_reject (bool_decide (is_Some (generations db !! key))) "immutable generation history conflict";;
  sql_reject (negb (check_generations_row r)) "generations check";;
  sql_reject (negb (bool_decide (is_Some (transactions db !! sg_transaction_id r))))
    "generations foreign key";;
  Ok (with_generations db (<[key := r]> (generations db))).

Definition insert_audit_events (r : StoredAuditEvent) (db : Database)
    : result SqliteError Database :=
  let key := (sa_transaction_id r, sa_event_sequence r) in
  sql_reject (bool_decide (is_Some (audit_events db !! key))) "append-only audit history conflict";;
  sql_reject (negb (check_audit_events_row r)) "audit_events check";;
  sql_reject (negb (bool_decide (is_Some (transactions db !! sa_transaction_id r))))
    "audit_events foreign key";;
  Ok (with_audit_events db (<[key := r]> (audit_events db))).

(** [reserve_answer] is what [linura_fs_reserve_slots] returned to the BEFORE
    INSERT trigger [audit_reservations_filesystem_reserve]. *)
Definition insert_audit_reservations (reserve_answer : Z) (id : string) (slot len : Z)
    (db : Database) : result SqliteError Database :=
  sql_reject (reserve_answer =? 0)%Z "filesystem recovery reserve capacity exceeded";;
  sql_reject (negb (reserve_answer =? 1)%Z) "filesystem recovery reserve failure";;
  sql_reject (negb (check_audit_reservations_row id slot len)) "audit_reservations check";;
  sql_reject (bool_decide (is_Some (audit_reservations db !! (id, slot))))
    "audit_reservations primary key";;
  sql_reject (negb (bool_decide (is_Some (transactions db !! id))))
    "audit_reservations foreign key";;
  Ok (with_audit_reservations db (<[(id, slot) := len]> (audit_reservations db))).

(** [DELETE FROM audit_reservations WHERE transaction_id = ? AND slot = ?];
    the count of deleted rows comes first.  The BEFORE DELETE trigger of
    migration V2 does nothing. *)
Definition delete_audit_reservations (id : string) (slot : Z) (db : Database) : Z * Database :=
  match audit_reservations db !! (id, slot) with
  | Some _ => (1%Z, with_audit_reservations db (delete (id, slot) (audit_reservations db)))
  | None => (0%Z, db)
  end.

(** [UPDATE transactions SET current_generation, state_version, integrity_tag
    WHERE transaction_id, current_generation, state_version, integrity_tag]. *)
Definition update_transactions (old next : StoredTransaction) (db : Database)
    : result SqliteError (Z * Database) :=
  match transactions db !! st_transaction_id old with
  | Some row =>
      if bool_decide (st_current_generation row = st_current_generation old)
         && bool_decide (st_state_version row = st_state_version old)
         && bool_decide (st_integrity_tag row = st_integrity_tag old)
      then
        let row' := {| st_transaction_id := st_transaction_id row;
                       st_principal := st_principal row; st_request_id := st_request_id row;
                       st_current_generation := st_current_generation next;
                       st_state_version := st_state_version next;
                       st_integrity_tag := st_integrity_tag next |} in
        sql_reject (negb (check_transactions_row row')) "transactions check";;
        Ok (1%Z, with_transactions db (<[st_transaction_id old := row']> (transactions db)))
      else Ok (0%Z, db)
  | None => Ok (0%Z, db)
  end.

(** [UPDATE generations SET state, integrity_tag (and, for the verified
    transition, the three commit digests) WHERE transaction_id, generation,
    state, integrity_tag].  [commit_digests] is [None] when the statement does
    not assign the commit columns, so that their guard trigger does not fire. *)
Definition update_generations (old : StoredGeneration) (state : string)
    (commit_digests : option (string * string * string)) (tag : bytes) (db : Database)
    : result SqliteError (Z * Database) :=
  let key := (sg_transaction_id old, sg_generation old) in
  match generations db !! key with
  | Some row =>
      if bool_decide (sg_state row = sg_state old)
         && bool_decide (sg_integrity_tag row = sg_integrity_tag old)
      then
        let row' :=
          {| sg_transaction_id := sg_transaction_id row; sg_generation := sg_generation row;
             sg_state := state; sg_binding_digest := sg_binding_digest row;
             sg_binding_canonical := sg_binding_canonical row;
             sg_request_digest := sg_request_digest row;
             sg_precondition_digest := sg_precondition_digest row;
             sg_observation_digest := sg_observation_digest row;
             sg_desired_state_digest :=
               match commit_digests with Some (d, _, _) => Some d | None => sg_desired_state_digest row end;
             sg_graph_digest :=
               match commit_digests with Some (_, g, _) => Some g | None => sg_graph_digest row end;
             sg_provenance_digest :=
               match commit_digests with Some (_, _, p) => Some p | None => sg_provenance_digest row end;
             sg_integrity_tag := tag |} in
        sql_reject
          (match commit_digests with
           | None => false
           | Some _ =>
               negb (bool_decide (sg_state row = "indeterminate") && bool_decide (state = "verified")
                     && bool_decide (sg_desired_state_digest row = None)
                     && bool_decide (sg_graph_digest row = None)
                     && bool_decide (sg_provenance_digest row = None))
           end) "immutable verified commit material";;
        sql_reject (negb (check_generations_row row')) "generations check";;
        Ok (1%Z, with_generations db (<[key := row']> (generations db)))
      else Ok (0%Z, db)
  | None => Ok (0%Z, db)
  end.

(** [PRAGMA foreign_key_check] reports a row. *)
Definition foreign_key_violation (db : Database) : bool :=
  negb (bool_decide (map_Forall (λ k _, is_Some (transactions db !! fst k)) (generations db))
        && bool_decide (map_Forall (λ k _, is_Some (transactions db !! fst k)) (audit_events db))
        && bool_decide (map_Forall (λ k _, is_Some (transactions db !! fst k)) (audit_reservations db))).

(** ** The statement monad *)

(** What the outside world answers; every component may depend on the number
    of statements already issued. *)
Record Env := {
  env_fault : nat → option SqliteError;
  env_fs_reserve_slots : nat → Z → Z;
  env_validate_filesystem_reserve : nat → Z → Z → bool → result TransactionStoreError unit;
  env_now_unix_ms : nat → option Z;
  env_pragma_integrity_check : nat → string;
  env_journal_mode_wal : nat → string;
  env_set_max_page_count : nat → Z → Z;
  env_register_reserve_functions : nat → Z → result TransactionStoreError unit;
  env_release_headroom : nat → result TransactionStoreError bool;
}.

Record Session := {
  sess_db : Database;
  sess_step : nat;
  sess_in_transaction : bool;
}.

Definition M (A : Type) := Env → Session → Session * result TransactionStoreError A.

#[export] Instance M_ret : MRet M := λ A a _ s, (s, Ok a).
#[export] Instance M_bind : MBind M := λ A B f m env s,
  match m env s with
  | (s', Ok a) => f a env s'
  | (s', Err e) => (s', Err e)
  end.

Definition fail {A} (e : TransactionStoreError) : M A := λ _ s, (s, Err e).
Definition lift {A} (r : result TransactionStoreError A) : M A := λ _ s, (s, r).
Definition reject (c : bool) (e : TransactionStoreError) : M unit :=
  lift (reject_if c e).

Section statements.
Context `{Crypto}.

(** [sqlite]: the mapping of rusqlite errors. *)
Definition sqlite (e : SqliteError) : TransactionStoreError :=
  match e with
  | SqliteDiskFull => CapacityExceeded
  | _ => Storage (sqlite_error_text e)
  end.

(** One statement: it fails when the environment says so, else it runs. *)
Definition statement {A} (f : Env → nat → Database → result SqliteError (A * Database)) : M A :=
  λ env s,
    let n := sess_step s in
    let s' db := {| sess_db := db; sess_step := S n;
                    sess_in_transaction := sess_in_transaction s |} in
    match env_fault env n with
    | Some e => (s' (sess_db s), Err (sqlite e))
    | None =>
        match f env n (sess_db s) with
        | Ok (a, db) => (s' db, Ok a)
        | Err e => (s' (sess_db s), Err (sqlite e))
        end
    end.

Definition query {A} (f : Database → A) : M A := statement (λ _ _ db, Ok (f db, db)).
Definition execute (f : Database → result SqliteError Database) : M unit :=
  statement (λ _ _ db, db' ← f db; Ok (tt, db')).
Definition execute_count (f : Database → result SqliteError (Z * Database)) : M Z :=
  statement (λ _ _ db, f db).

(** [connection.transaction_with_behavior(Immediate)] .. [commit()]: the
    body runs on the database; an error of the body, or of the commit, rolls
    everything back. *)
Definition immediate_transaction {A} (body : M A) : M A := λ env s,
  match env_fault env (sess_step s) with
  | Some e =>
      ({| sess_db := sess_db s; sess_step := S (sess_step s); sess_in_transaction := false |},
       Err (sqlite e))
  | None =>
      let s0 := {| sess_db := sess_db s; sess_step := S (sess_step s);
                   sess_in_transaction := true |} in
      let rolled_back s1 := {| sess_db := sess_db s; sess_step := S (sess_step s1);
                               sess_in_transaction := false |} in
      match body env s0 with
      | (s1, Ok a) =>
          match env_fault env (sess_step s1) with
          | Some e => (rolled_back s1, Err (sqlite e))
          | None => ({| sess_db := sess_db s1; sess_step := S (sess_step s1);
                        sess_in_transaction := false |}, Ok a)
          end
      | (s1, Err e) => (rolled_back s1, Err e)
      end
  end.
End statements.
