(* ===== verification/Integrity.v ===== *)
(** * Record integrity

    Models [crates/linura-persistence-sqlite/src/integrity.rs] (the keyed
    record authentication) and the record canonicalisation and tagging of
    [validation_base.rs]. *)

From Stdlib Require Import ZArith Lia.
From Stdlib Require Import Strings.Byte.
From stdpp Require Import base numbers gmap strings list fin_maps sorting.
From S2P Require Import Prelude Text Core Digest Binding Authority Sqlite.

Set Default Goal Selector "!".

Definition INTEGRITY_KEY_BYTES : nat := 32.
Definition INTEGRITY_TAG_BYTES : nat := 32.
Definition SHA256_BLOCK_BYTES : nat := 64.

Record SqliteIntegrityKey := { integrity_key_bytes : bytes }.

Definition byte_xor (a b : Byte.byte) : Byte.byte :=
  byte_of_Z (Z.lxor (Z_of_byte a) (Z_of_byte b)).
Definition byte_or (a b : Byte.byte) : Byte.byte :=
  byte_of_Z (Z.lor (Z_of_byte a) (Z_of_byte b)).

(** [scrub_secret]. *)
Definition scrub_secret (b : bytes) : bytes := replicate (length b) Byte.x00.

(** The first component is the caller's buffer afterwards. *)
Definition validate_integrity_key_bytes (b : bytes) : bytes * result TransactionStoreError unit :=
  if negb (bool_decide (length b = INTEGRITY_KEY_BYTES)) || forallb is_zero_byte b
  then (scrub_secret b, Err AuthorityRejected)
  else (b, Ok tt).

Definition SqliteIntegrityKey_new (b : bytes) : result TransactionStoreError SqliteIntegrityKey :=
  let '(b, r) := validate_integrity_key_bytes b in
  r;; Ok {| integrity_key_bytes := b |}.

(** [difference |= left ^ right] over the zipped bytes. *)
Definition constant_time_eq (expected actual : bytes) : bool :=
  bool_decide
    (foldl (λ difference lr, byte_or difference (byte_xor (fst lr) (snd lr)))
       Byte.x00 (zip expected actual) = Byte.x00).

Definition canonical_field (buffer b : bytes) : bytes := buffer ++ frame b.
Definition canonical_fields (buffer : bytes) (l : list bytes) : bytes :=
  foldl canonical_field buffer l.

(** [canonical_optional]: a presence byte, then the text. *)
Definition optional_fields (o : option string) : list bytes :=
  match o with
  | Some v => [[Byte.x01]; as_bytes v]
  | None => [[Byte.x00]]
  end.
Definition canonical_optional (buffer : bytes) (o : option string) : bytes :=
  canonical_fields buffer (optional_fields o).

Definition transaction_fields (r : StoredTransaction) : list bytes :=
  [as_bytes (st_transaction_id r); as_bytes (st_principal r); as_bytes (st_request_id r);
   u64_be (st_current_generation r); u64_be (st_state_version r)].
Definition transaction_canonical (r : StoredTransaction) : bytes :=
  canonical_fields [] (transaction_fields r).

Definition generation_fields (r : StoredGeneration) : list bytes :=
  [as_bytes (sg_transaction_id r); u64_be (sg_generation r); as_bytes (sg_state r);
   as_bytes (sg_binding_digest r); sg_binding_canonical r; as_bytes (sg_request_digest r);
   as_bytes (sg_precondition_digest r); as_bytes (sg_observation_digest r)].
Definition generation_canonical (r : StoredGeneration) : bytes :=
  canonical_optional
    (canonical_optional
       (canonical_optional (canonical_fields [] (generation_fields r)) (sg_desired_state_digest r))
       (sg_graph_digest r))
    (sg_provenance_digest r).

Definition audit_fields (r : StoredAuditEvent) : list bytes :=
  [as_bytes (sa_transaction_id r); u64_be (sa_event_sequence r); u64_be (sa_generation r);
   u64_be (sa_state_version r); as_bytes (sa_event_kind r); as_bytes (sa_payload_digest r);
   as_bytes (sa_previous_digest r); as_bytes (sa_event_digest r)].
Definition audit_canonical (r : StoredAuditEvent) : bytes := canonical_fields [] (audit_fields r).

Definition TRANSACTION_RECORD : string := "linura.sqlite.transaction-record.v1".
Definition GENERATION_RECORD : string := "linura.sqlite.generation-record.v1".
Definition AUDIT_RECORD : string := "linura.sqlite.audit-record.v1".

Section integrity.
Context `{Crypto}.

(** HMAC-SHA-256 as written in the source; the fields are framed. *)
Definition hmac_sha256 (key : bytes) (fields : list bytes) : bytes :=
  let key_block :=
    if (SHA256_BLOCK_BYTES <? length key)%nat
    then sha256 key ++ replicate (SHA256_BLOCK_BYTES - INTEGRITY_TAG_BYTES) Byte.x00
    else key ++ replicate (SHA256_BLOCK_BYTES - length key) Byte.x00 in
  let inner_pad := map (byte_xor (byte_of_Z 54)) key_block in
  let outer_pad := map (byte_xor (byte_of_Z 92)) key_block in
  let inner_digest := sha256 (inner_pad ++ frames fields) in
  sha256 (outer_pad ++ inner_digest).

Definition integrity_fingerprint (k : SqliteIntegrityKey) : ContentDigest :=
  digest_bytes "linura.sqlite.record-integrity-key-fingerprint.v1" (integrity_key_bytes k).

Definition integrity_tag (k : SqliteIntegrityKey) (record_domain : string) (canonical : bytes)
    : bytes :=
  hmac_sha256 (integrity_key_bytes k)
    [as_bytes "linura.sqlite.record-integrity.v1"; as_bytes record_domain; canonical].

Definition integrity_verify (k : SqliteIntegrityKey) (record_domain : string)
    (canonical tag : bytes) : bool :=
  if negb (bool_decide (length tag = INTEGRITY_TAG_BYTES)) then false
  else constant_time_eq (integrity_tag k record_domain canonical) tag.

Definition authenticate_transaction (k : SqliteIntegrityKey) (r : StoredTransaction)
    : result TransactionStoreError unit :=
  reject_if (negb (integrity_verify k TRANSACTION_RECORD (transaction_canonical r)
                     (st_integrity_tag r)))
    (Corruption "transaction record integrity tag mismatch").
Definition authenticate_generation (k : SqliteIntegrityKey) (r : StoredGeneration)
    : result TransactionStoreError unit :=
  reject_if (negb (integrity_verify k GENERATION_RECORD (generation_canonical r)
                     (sg_integrity_tag r)))
    (Corruption "generation record integrity tag mismatch").
Definition authenticate_audit (k : SqliteIntegrityKey) (r : StoredAuditEvent)
    : result TransactionStoreError unit :=
  reject_if (negb (integrity_verify k AUDIT_RECORD (audit_canonical r) (sa_integrity_tag r)))
    (Corruption "audit record integrity tag mismatch").

Definition transaction_tag (k : SqliteIntegrityKey) (r : StoredTransaction) : bytes :=
  integrity_tag k TRANSACTION_RECORD (transaction_canonical r).
Definition generation_tag (k : SqliteIntegrityKey) (r : StoredGeneration) : bytes :=
  integrity_tag k GENERATION_RECORD (generation_canonical r).
Definition audit_tag (k : SqliteIntegrityKey) (r : StoredAuditEvent) : bytes :=
  integrity_tag k AUDIT_RECORD (audit_canonical r).
End integrity.

(** ** Lemmas *)

Lemma Z_of_byte_inj a b : Z_of_byte a = Z_of_byte b → a = b.
Proof.
  unfold Z_of_byte. intros E. apply N2Z.inj in E.
  pose proof (Byte.of_to_N a). pose proof (Byte.of_to_N b). congruence.
Qed.

Lemma Z_of_byte_range a : (0 ≤ Z_of_byte a < 256)%Z.
Proof. unfold Z_of_byte. pose proof (Byte.to_N_bounded a). lia. Qed.

Lemma byte_log2 a : (Z.log2 (Z_of_byte a) < 8)%Z.
Proof.
  pose proof (Z_of_byte_range a). destruct (decide (Z_of_byte a = 0)%Z) as [->|]; [done|].
  apply Z.log2_lt_pow2; lia.
Qed.

Lemma byte_xor_zero a b : byte_xor a b = Byte.x00 ↔ a = b.
Proof.
  unfold byte_xor. split; [|intros ->; by rewrite Z.lxor_nilpotent].
  intros E. apply (f_equal Z_of_byte) in E. rewrite Z_of_byte_of_Z in E.
  change (Z_of_byte Byte.x00) with 0%Z in E.
  pose proof (Z_of_byte_range a). pose proof (Z_of_byte_range b).
  assert (0 ≤ Z.lxor (Z_of_byte a) (Z_of_byte b) < 2 ^ 8)%Z as Hr.
  { split; [apply Z.lxor_nonneg; lia|].
    destruct (decide (Z.lxor (Z_of_byte a) (Z_of_byte b) = 0)%Z) as [->|Hnz]; [lia|].
    apply Z.log2_lt_pow2; [pose proof (proj2 (Z.lxor_nonneg (Z_of_byte a) (Z_of_byte b))); lia|].
    eapply Z.le_lt_trans; [apply Z.log2_lxor; lia|].
    apply Z.max_lub_lt; apply byte_log2. }
  rewrite Z.mod_small in E by lia. apply Z.lxor_eq in E. by apply Z_of_byte_inj.
Qed.

Lemma byte_or_zero a b : byte_or a b = Byte.x00 ↔ a = Byte.x00 ∧ b = Byte.x00.
Proof.
  unfold byte_or. split; [|by intros [-> ->]].
  intros E. apply (f_equal Z_of_byte) in E. rewrite Z_of_byte_of_Z in E.
  change (Z_of_byte Byte.x00) with 0%Z in E.
  assert (∀ i, (0 ≤ i < 8)%Z → Z.testbit (Z.lor (Z_of_byte a) (Z_of_byte b)) i = false) as Hb.
  { intros i Hi. rewrite <- (Z.mod_pow2_bits_low _ 8) by lia.
    change (2 ^ 8)%Z with 256%Z. rewrite E. apply Z.bits_0. }
  assert (∀ x, (∀ i, (0 ≤ i < 8)%Z → Z.testbit (Z_of_byte x) i = false) → x = Byte.x00) as Hz.
  { intros x Hx. apply Z_of_byte_inj. change (Z_of_byte Byte.x00) with 0%Z.
    apply Z.bits_inj_0. intros i. destruct (decide (0 ≤ i < 8)%Z); [by apply Hx|].
    destruct (decide (i < 0)%Z); [by apply Z.testbit_neg_r|].
    pose proof (Z_of_byte_range x). pose proof (byte_log2 x). apply Z.bits_above_log2; lia. }
  split; apply Hz; intros i Hi; specialize (Hb i Hi); rewrite Z.lor_spec in Hb;
    by apply orb_false_elim in Hb as [? ?].
Qed.

Lemma constant_time_fold d l :
  foldl (λ difference lr, byte_or difference (byte_xor (fst lr) (snd lr))) d l = Byte.x00 ↔
  d = Byte.x00 ∧ Forall (λ lr, fst lr = snd lr) l.
Proof.
  revert d. induction l as [|[a b] l IH]; intros d; cbn [foldl].
  { split; [intros ->; done|intros [-> _]; done]. }
  rewrite IH, byte_or_zero, byte_xor_zero, Forall_cons. cbn. tauto.
Qed.

(** The accumulating comparison decides equality of equally long tags. *)
Lemma constant_time_eq_spec a b :
  length a = length b → constant_time_eq a b = bool_decide (a = b).
Proof.
  intros Hl. unfold constant_time_eq. apply bool_decide_ext. rewrite constant_time_fold.
  split; [intros [_ Hf]|intros ->; split; [done|]].
  - revert b Hl Hf. induction a as [|x a IH]; intros [|y b] Hl Hf; try done.
    cbn in Hf. apply Forall_cons in Hf as [Hx Hf]. cbn in Hx. subst. f_equal. apply IH; [|done].
    by injection Hl.
  - clear Hl. induction b as [|y b IH]; [constructor|]. cbn. by constructor.
Qed.

Lemma canonical_fields_frames buf l : canonical_fields buf l = buf ++ frames l.
Proof.
  unfold canonical_fields. revert buf. induction l as [|b l IH]; intros buf; cbn [foldl].
  - by rewrite frames_nil, app_nil_r.
  - rewrite IH, frames_cons, app_assoc. done.
Qed.

Section integrity_lemmas.
Context `{CryptoLaws}.

Lemma length_hmac_sha256 key fields : length (hmac_sha256 key fields) = 32%nat.
Proof. apply sha256_length. Qed.

Lemma length_integrity_tag k d c : length (integrity_tag k d c) = 32%nat.
Proof. apply length_hmac_sha256. Qed.

Lemma integrity_verify_spec k d c tag :
  integrity_verify k d c tag = bool_decide (tag = integrity_tag k d c).
Proof.
  unfold integrity_verify, INTEGRITY_TAG_BYTES. case_bool_decide as Hl; cbn.
  - rewrite constant_time_eq_spec by (by rewrite length_integrity_tag).
    apply bool_decide_ext. naive_solver.
  - symmetry. apply bool_decide_eq_false. intros ->. by rewrite length_integrity_tag in Hl.
Qed.

Lemma authenticate_transaction_Ok k r u :
  authenticate_transaction k r = Ok u ↔ st_integrity_tag r = transaction_tag k r.
Proof.
  unfold authenticate_transaction. rewrite reject_if_Ok, negb_false_iff, integrity_verify_spec.
  apply bool_decide_eq_true.
Qed.
Lemma authenticate_generation_Ok k r u :
  authenticate_generation k r = Ok u ↔ sg_integrity_tag r = generation_tag k r.
Proof.
  unfold authenticate_generation. rewrite reject_if_Ok, negb_false_iff, integrity_verify_spec.
  apply bool_decide_eq_true.
Qed.
Lemma authenticate_audit_Ok k r u :
  authenticate_audit k r = Ok u ↔ sa_integrity_tag r = audit_tag k r.
Proof.
  unfold authenticate_audit. rewrite reject_if_Ok, negb_false_iff, integrity_verify_spec.
  apply bool_decide_eq_true.
Qed.
End integrity_lemmas.
