(* ===== verification/Validation.v ===== *)
(** * Loading and validating durable records

    Models the record loading, history validation and capacity checks of
    [crates/linura-persistence-sqlite/src/validation_base.rs] and the
    reservation validation of [validation.rs]. *)

From Stdlib Require Import ZArith Lia.
From Stdlib Require Import Strings.Byte.
From stdpp Require Import base numbers gmap strings list fin_maps sorting.
From S2P Require Import Prelude Text Core Digest Binding Authority Sqlite Integrity.

Set Default Goal Selector "!".

Definition CONTENT_DIGEST_TEXT_BYTES : Z := 71.
Definition MAX_AUDIT_EVENT_KIND_BYTES : Z := 64.
Definition MAX_TRANSACTION_ID_BYTES : Z := 256.
Definition MAX_PERSISTED_PRINCIPAL_BYTES : Z := 1024.
Definition MAX_PERSISTED_REQUEST_ID_BYTES : Z := 1024.
Definition MAX_STATE_TEXT_BYTES : Z := 32.
Definition MIN_SQLITE_PAGE_SIZE : Z := 4096.
Definition MAX_SQLITE_PAGE_SIZE : Z := 65536.

Record StoreLimits := {
  max_transactions : Z;
  max_generations : Z;
  max_audit_events : Z;
  max_pages : Z;
}.

Definition StoreLimits_default : StoreLimits :=
  {| max_transactions := 4096; max_generations := 16384;
     max_audit_events := 131072; max_pages := 262144 |}.

Definition StoreLimits_validate (l : StoreLimits) : result TransactionStoreError StoreLimits :=
  reject_if ((max_transactions l =? 0) || (max_generations l =? 0)
             || (max_audit_events l =? 0) || (max_pages l =? 0))%Z CapacityExceeded;;
  Ok l.

Definition as_i64 (value : Z) : result TransactionStoreError Z :=
  if (value <=? i64_max)%Z then Ok value else Err CapacityExceeded.

(** [.map_err(|error| Corruption(error.to_string()))] on a domain error. *)
Definition corrupt_domain {A} (r : result TransactionValidationError A)
    : result TransactionStoreError A :=
  map_err (λ e, Corruption (TransactionValidationError_display e)) r.
Definition corrupt_core {A} (r : result ValidationError A) : result TransactionStoreError A :=
  map_err (λ e, Corruption (ValidationError_display e)) r.

(** [raw.n <= 0 || raw.n > max]. *)
Definition out_of_bounds (s : string) (max : Z) : bool :=
  (str_len s <=? 0)%Z || (max <? str_len s)%Z.
Definition bad_digest_length (s : string) : bool :=
  negb (str_len s =? CONTENT_DIGEST_TEXT_BYTES)%Z.
(** [!optional_digest_length_valid]. *)
Definition bad_optional_digest_length (o : option string) : bool :=
  match o with None => false | Some s => bad_digest_length s end.
Definition bad_tag_length (b : bytes) : bool :=
  negb (Z.of_nat (length b) =? Z.of_nat INTEGRITY_TAG_BYTES)%Z.

Section validation.
Context `{Crypto}.

(** ** Loading *)

Definition decode_transaction (k : SqliteIntegrityKey) (r : StoredTransaction)
    : result TransactionStoreError StoredTransaction :=
  reject_if (out_of_bounds (st_transaction_id r) MAX_TRANSACTION_ID_BYTES
             || out_of_bounds (st_principal r) MAX_PERSISTED_PRINCIPAL_BYTES
             || out_of_bounds (st_request_id r) MAX_PERSISTED_REQUEST_ID_BYTES
             || bad_tag_length (st_integrity_tag r))
    (Corruption "transaction record exceeds persisted byte bounds");;
  reject_if (st_current_generation r <? 0)%Z (Corruption "negative current generation");;
  reject_if (st_state_version r <? 0)%Z (Corruption "negative state version");;
  authenticate_transaction k r;;
  Ok r.

Definition load_transaction (k : SqliteIntegrityKey) (id : TransactionId) : M StoredTransaction :=
  row ← query (λ db, transactions db !! id);
  match row with
  | None => fail NotFound
  | Some r => lift (decode_transaction k r)
  end.

Definition decode_generation (k : SqliteIntegrityKey) (r : StoredGeneration)
    : result TransactionStoreError StoredGeneration :=
  reject_if (out_of_bounds (sg_transaction_id r) MAX_TRANSACTION_ID_BYTES
             || out_of_bounds (sg_state r) MAX_STATE_TEXT_BYTES
             || bad_digest_length (sg_binding_digest r)
             || (MAX_AUTHORITY_BINDING_BYTES <? Z.of_nat (length (sg_binding_canonical r)))%Z
             || bad_digest_length (sg_request_digest r)
             || bad_digest_length (sg_precondition_digest r)
             || bad_digest_length (sg_observation_digest r)
             || bad_optional_digest_length (sg_desired_state_digest r)
             || bad_optional_digest_length (sg_graph_digest r)
             || bad_optional_digest_length (sg_provenance_digest r)
             || bad_tag_length (sg_integrity_tag r))
    (Corruption "generation record exceeds persisted byte bounds");;
  reject_if (sg_generation r <? 0)%Z (Corruption "negative generation");;
  authenticate_generation k r;;
  Ok r.

Definition load_generation (k : SqliteIntegrityKey) (id : TransactionId) (generation : Z)
    : M StoredGeneration :=
  n ← lift (as_i64 generation);
  row ← query (λ db, generations db !! (id, n));
  match row with
  | None => fail NotFound
  | Some r => lift (decode_generation k r)
  end.

Definition decode_audit_event (k : SqliteIntegrityKey) (r : StoredAuditEvent)
    : result TransactionStoreError StoredAuditEvent :=
  reject_if (out_of_bounds (sa_transaction_id r) MAX_TRANSACTION_ID_BYTES
             || out_of_bounds (sa_event_kind r) MAX_AUDIT_EVENT_KIND_BYTES
             || bad_digest_length (sa_payload_digest r)
             || bad_digest_length (sa_previous_digest r)
             || bad_digest_length (sa_event_digest r)
             || bad_tag_length (sa_integrity_tag r))
    (Corruption "audit record exceeds persisted byte bounds");;
  reject_if (sa_event_sequence r <? 0)%Z (Corruption "negative audit event sequence");;
  reject_if (sa_generation r <? 0)%Z (Corruption "negative audit generation");;
  reject_if (sa_state_version r <? 0)%Z (Corruption "negative audit state version");;
  authenticate_audit k r;;
  Ok r.

Fixpoint decode_audit_events (k : SqliteIntegrityKey) (rows : list StoredAuditEvent)
    : result TransactionStoreError (list StoredAuditEvent) :=
  match rows with
  | [] => Ok []
  | r :: rs => e ← decode_audit_event k r; es ← decode_audit_events k rs; Ok (e :: es)
  end.

(** [bounded_audit_query] with [ORDER BY event_sequence DESC LIMIT 1]. *)
Definition load_last_audit_event (k : SqliteIntegrityKey) (id : TransactionId)
    : M (option StoredAuditEvent) :=
  row ← query (λ db, snd <$> last (rows_of (audit_events db) id));
  match row with
  | None => mret None
  | Some r => e ← lift (decode_audit_event k r); mret (Some e)
  end.

(** [bounded_audit_query] with [ORDER BY event_sequence]. *)
Definition load_all_audit_events (k : SqliteIntegrityKey) (id : TransactionId)
    : M (list StoredAuditEvent) :=
  rows ← query (λ db, snd <$> rows_of (audit_events db) id);
  lift (decode_audit_events k rows).

Definition snapshot_from_records (t : StoredTransaction) (g : StoredGeneration)
    : result TransactionStoreError TransactionSnapshot :=
  reject_if (negb (bool_decide (st_transaction_id t = sg_transaction_id g))
             || negb (st_current_generation t =? sg_generation g)%Z)
    (Corruption "transaction pointer does not identify the authenticated generation");;
  transaction_id ← corrupt_domain (TransactionId_new (st_transaction_id t));
  principal ← corrupt_core (PrincipalId_new (st_principal t));
  request_id ← corrupt_core (RequestId_new (st_request_id t));
  reject_if (negb (bool_decide (TransactionId_for_namespace principal request_id = transaction_id)))
    (Corruption "transaction identity does not match principal/request namespace");;
  state ← corrupt_domain (TransactionState_parse (sg_state g));
  binding_digest ← corrupt_domain (ContentDigest_new (sg_binding_digest g));
  Ok {| ts_transaction_id := transaction_id; ts_principal := principal;
        ts_request_id := request_id; ts_current_generation := st_current_generation t;
        ts_state_version := st_state_version t; ts_state := state;
        ts_binding_digest := binding_digest |}.

Definition state_for_event_kind (kind : string) : result TransactionStoreError TransactionState :=
  if bool_decide (kind = "prepared") || bool_decide (kind = "recovery-reprepared")
  then Ok Prepared
  else if bool_decide (kind = "handoff-indeterminate") || bool_decide (kind = "recovery-ambiguous")
  then Ok Indeterminate
  else if bool_decide (kind = "recovery-verified") then Ok Verified
  else if bool_decide (kind = "committed") then Ok Committed
  else if bool_decide (kind = "aborted-prepared")
          || bool_decide (kind = "recovery-retired-no-effect") then Ok Aborted
  else if bool_decide (kind = "recovery-blocked") then Ok RecoveryBlocked
  else Err (Corruption ("unknown audit event kind " +:+ debug_str kind)).

Definition load_current (k : SqliteIntegrityKey) (id : TransactionId)
    : M (StoredTransaction * StoredGeneration * TransactionSnapshot) :=
  t ← load_transaction k id;
  g ← load_generation k id (st_current_generation t);
  snapshot ← lift (snapshot_from_records t g);
  last_event ← load_last_audit_event k id;
  tail ← lift (ok_or last_event (Corruption "transaction has no authenticated audit history"));
  if negb (sa_generation tail =? ts_current_generation snapshot)%Z
     || negb (sa_state_version tail =? ts_state_version snapshot)%Z
  then fail (Corruption "authenticated audit tail disagrees with current transaction state")
  else
    state ← lift (state_for_event_kind (sa_event_kind tail));
    if negb (bool_decide (state = ts_state snapshot))
    then fail (Corruption "authenticated audit tail disagrees with current transaction state")
    else mret (t, g, snapshot).

(** ** History validation *)

(** [ContentDigest::new(..).map_err(Corruption)?] over the present values. *)
Fixpoint all_digests (l : list string) : result TransactionStoreError unit :=
  match l with
  | [] => Ok tt
  | d :: l' => corrupt_domain (ContentDigest_new d);; all_digests l'
  end.

Definition commit_material (g : StoredGeneration) : list (option string) :=
  [sg_desired_state_digest g; sg_graph_digest g; sg_provenance_digest g].

(** The body of the [while expected <= current_generation] loop. *)
Definition validate_generation_record (expected current_generation : Z) (g : StoredGeneration)
    : result TransactionStoreError unit :=
  state ← corrupt_domain (TransactionState_parse (sg_state g));
  binding_digest ← corrupt_domain (ContentDigest_new (sg_binding_digest g));
  all_digests [sg_request_digest g; sg_precondition_digest g; sg_observation_digest g];;
  reject_if (negb (bool_decide (digest_bytes "linura.authority-binding.digest.v1"
                                  (sg_binding_canonical g) = binding_digest)))
    (Corruption "stored authority binding digest mismatch");;
  (if bool_decide (state = Verified) || bool_decide (state = Committed) then
     reject_if (existsb (λ v, bool_decide (v = None)) (commit_material g))
       (Corruption "verified/committed generation is missing durable commit material");;
     all_digests (omap id (commit_material g))
   else
     reject_if (existsb (λ v, negb (bool_decide (v = None))) (commit_material g))
       (Corruption "non-verified generation contains durable commit material"));;
  reject_if ((expected <? current_generation)%Z && negb (bool_decide (state = Aborted)))
    (Corruption "historical generation is not safely retired");;
  Ok tt.

Definition not_contiguous {A} (e : TransactionStoreError) : M A :=
  match e with
  | NotFound => fail (Corruption "retained generation history is not contiguous")
  | e => fail e
  end.

(** [match m { Ok(v) => v, Err(error) => handler }]. *)
Definition catch {A} (m : M A) (handler : TransactionStoreError → M A) : M A := λ env s,
  match m env s with
  | (s', Ok a) => (s', Ok a)
  | (s', Err e) => handler e env s'
  end.

(** The loop over the [iterations] generations from [expected] on. *)
Fixpoint validate_generations_from (k : SqliteIntegrityKey) (id : TransactionId)
    (current_generation : Z) (iterations : nat) (expected : Z) : M unit :=
  match iterations with
  | O => mret tt
  | S n =>
      g ← catch (load_generation k id expected) not_contiguous;
      lift (validate_generation_record expected current_generation g);;
      next ← lift (ok_or (u64_checked_add expected 1) CapacityExceeded);
      validate_generations_from k id current_generation n next
  end.

Definition validate_generation_history (k : SqliteIntegrityKey) (id : TransactionId)
    (current_generation : Z) (limits : StoreLimits) : M unit :=
  reject (MAX_TRANSACTION_GENERATIONS <=? current_generation)%Z
    (Corruption "current generation exceeds domain bound");;
  expected_rows ← lift (ok_or (u64_checked_add current_generation 1) CapacityExceeded);
  reject (max_generations limits <? expected_rows)%Z CapacityExceeded;;
  persisted_rows ← query (λ db, Z.of_nat (length (rows_of (generations db) id)));
  reject (negb (persisted_rows =? expected_rows)%Z)
    (Corruption "retained generation row count disagrees with authenticated current pointer");;
  validate_generations_from k id current_generation (Z.to_nat expected_rows) 0.

Definition audit_digest (id : TransactionId) (sequence generation state_version : Z)
    (event_kind : string) (payload_digest previous_digest : ContentDigest) : ContentDigest :=
  digest_parts "linura.sqlite.audit-event.v1"
    [as_bytes id; as_bytes (u64_to_string sequence); as_bytes (u64_to_string generation);
     as_bytes (u64_to_string state_version); as_bytes event_kind;
     as_bytes payload_digest; as_bytes previous_digest].

(** The loop of [validate_audit_chain]: [expected] and [previous] are its
    mutable locals, [lst] its [last]. *)
Fixpoint audit_chain_from (id : TransactionId) (limits : StoreLimits) (expected : Z)
    (previous : ContentDigest) (lst : option (StoredAuditEvent * ContentDigest))
    (events : list StoredAuditEvent)
    : result TransactionStoreError (option (StoredAuditEvent * ContentDigest)) :=
  match events with
  | [] => Ok lst
  | e :: es =>
      reject_if (negb (sa_event_sequence e =? expected)%Z)
        (Corruption "audit sequence is not contiguous");;
      payload ← corrupt_domain (ContentDigest_new (sa_payload_digest e));
      stored_previous ← corrupt_domain (ContentDigest_new (sa_previous_digest e));
      stored_digest ← corrupt_domain (ContentDigest_new (sa_event_digest e));
      reject_if (negb (bool_decide (stored_previous = previous)))
        (Corruption "audit previous-digest chain is broken");;
      reject_if (negb (bool_decide
          (audit_digest id (sa_event_sequence e) (sa_generation e) (sa_state_version e)
             (sa_event_kind e) payload previous = stored_digest)))
        (Corruption "audit event digest mismatch");;
      next ← ok_or (u64_checked_add expected 1) CapacityExceeded;
      reject_if (max_audit_events limits <? next)%Z CapacityExceeded;;
      audit_chain_from id limits next stored_digest (Some (e, payload)) es
  end.

Definition required_digest (o : option string) (missing : string)
    : result TransactionStoreError ContentDigest :=
  d ← ok_or o (Corruption missing); corrupt_domain (ContentDigest_new d).

Definition commit_payload (desired graph provenance : ContentDigest) : ContentDigest :=
  digest_parts "linura.sqlite.commit-payload.v1"
    [as_bytes desired; as_bytes graph; as_bytes provenance].

Definition validate_audit_chain (k : SqliteIntegrityKey) (id : TransactionId)
    (current_generation state_version : Z) (limits : StoreLimits) : M unit :=
  events ← load_all_audit_events k id;
  lst ← lift (audit_chain_from id limits 0 ContentDigest_zero None events);
  tail ← lift (ok_or lst (Corruption "transaction has no audit history"));
  let '(last_event, last_payload) := tail in
  reject (negb (sa_generation last_event =? current_generation)%Z
          || negb (sa_state_version last_event =? state_version)%Z)
    (Corruption "transaction pointer/version disagrees with authenticated audit tail");;
  cur ← load_current k id;
  let '(_, generation, snapshot) := cur in
  state ← lift (state_for_event_kind (sa_event_kind last_event));
  reject (negb (bool_decide (state = ts_state snapshot)))
    (Corruption "current transaction state disagrees with authenticated audit tail");;
  if bool_decide (ts_state snapshot = Committed) then
    desired ← lift (required_digest (sg_desired_state_digest generation)
                      "committed desired-state digest missing");
    graph ← lift (required_digest (sg_graph_digest generation) "committed graph digest missing");
    provenance ← lift (required_digest (sg_provenance_digest generation)
                         "committed provenance digest missing");
    reject (negb (bool_decide (last_payload = commit_payload desired graph provenance)))
      (Corruption "committed provenance digests disagree with audit payload")
  else mret tt.

(** ** Identifiers, capacity and reservations *)

(** [SELECT transaction_id FROM transactions ORDER BY transaction_id]. *)
Definition transaction_keys (db : Database) : list string :=
  merge_sort String.le (fst <$> map_to_list (transactions db)).

Fixpoint decode_ids (ids : list string) : result TransactionStoreError (list TransactionId) :=
  match ids with
  | [] => Ok []
  | i :: rest =>
      reject_if (out_of_bounds i MAX_TRANSACTION_ID_BYTES)
        (Corruption "transaction id exceeds persisted byte bound");;
      i' ← corrupt_domain (TransactionId_new i);
      rest' ← decode_ids rest;
      Ok (i' :: rest')
  end.

Definition list_transaction_ids : M (list TransactionId) :=
  ids ← query transaction_keys; lift (decode_ids ids).

Definition page_size : M Z :=
  v ← query (λ db, pr_page_size (pragmas db));
  lift (ok_or (u64_try_from v) (UnsupportedSchema "negative page_size")).

Definition reservation_bytes : M Z :=
  p ← page_size; lift (ok_or (u64_checked_mul p 2) CapacityExceeded).

Definition count_of_table (table : string) (db : Database) : option Z :=
  if bool_decide (table = "transactions") then Some (table_count (transactions db))
  else if bool_decide (table = "generations") then Some (table_count (generations db))
  else if bool_decide (table = "audit_events") then Some (table_count (audit_events db))
  else None.

Definition known_table (table : string) : bool :=
  bool_decide (table = "transactions") || bool_decide (table = "generations")
  || bool_decide (table = "audit_events").

Definition check_count_capacity (table : string) (maximum additional : Z) : M unit :=
  reject (negb (known_table table)) (Corruption "unknown capacity table");;
  count ← query (λ db, default 0%Z (count_of_table table db));
  reject (maximum <? u64_saturating_add count additional)%Z CapacityExceeded.

Definition validate_aggregate_capacity (table : string) (maximum : Z) : M unit :=
  reject (negb (known_table table)) (Corruption "unknown capacity table");;
  count ← query (λ db, default 0%Z (count_of_table table db));
  reject (maximum <? count)%Z CapacityExceeded.

Definition check_logical_audit_reserve (limits : StoreLimits)
    (additional_events nonterminal_delta : Z) : M unit :=
  audit_count ← query (λ db, table_count (audit_events db));
  nonterminal ← query nonterminal_count;
  resulting ← lift
    (if (0 <=? nonterminal_delta)%Z
     then ok_or (u64_checked_add nonterminal nonterminal_delta) CapacityExceeded
     else ok_or (u64_checked_sub nonterminal (Z.abs nonterminal_delta))
            (Corruption "nonterminal reserve underflow"));
  required ← lift (ok_or (x ← u64_checked_add audit_count additional_events;
                          u64_checked_add x resulting) CapacityExceeded);
  reject (max_audit_events limits <? required)%Z CapacityExceeded.

Definition validate_logical_audit_reserve (limits : StoreLimits) : M unit :=
  audit_count ← query (λ db, table_count (audit_events db));
  nonterminal ← query nonterminal_count;
  required ← lift (ok_or (u64_checked_add audit_count nonterminal) CapacityExceeded);
  reject (max_audit_events limits <? required)%Z CapacityExceeded.

(** The row loop shared by [ensure_audit_reservations] and the reservation
    validation: slots are [0, 1, ..] and every blob has the expected length;
    the result is the number of rows. *)
Fixpoint count_reservations (expected_bytes count : Z) (rows : list (Z * Z))
    : result TransactionStoreError Z :=
  match rows with
  | [] => Ok count
  | (slot, length) :: rs =>
      reject_if (negb (bool_decide (u64_try_from slot = Some count))
                 || negb (bool_decide (u64_try_from length = Some expected_bytes)))
        (Corruption "physical audit reservation is malformed");;
      next ← ok_or (u64_checked_add count 1) CapacityExceeded;
      count_reservations expected_bytes next rs
  end.

Definition reserves_slot (s : TransactionState) : bool :=
  match s with Prepared | Indeterminate | Verified => true | _ => false end.

Fixpoint validate_reservations_of (k : SqliteIntegrityKey) (expected_bytes : Z)
    (ids : list TransactionId) (expected_total : Z) : M Z :=
  match ids with
  | [] => mret expected_total
  | i :: rest =>
      cur ← load_current k i;
      let expected := if reserves_slot (ts_state (snd cur)) then 1%Z else 0%Z in
      total ← lift (ok_or (u64_checked_add expected_total expected) CapacityExceeded);
      rows ← query (λ db, rows_of (audit_reservations db) i);
      count ← lift (count_reservations expected_bytes 0 rows);
      reject (negb (count =? expected)%Z)
        (Corruption "physical audit reservation count disagrees with current state");;
      validate_reservations_of k expected_bytes rest total
  end.

Definition is_autocommit : M bool := λ _ s, (s, Ok (negb (sess_in_transaction s))).

Definition validate_filesystem_reserve (page total : Z) (opener_released : bool) : M unit :=
  λ env s, (s, env_validate_filesystem_reserve env (sess_step s) page total opener_released).

Definition validate_physical_reservations_locked (k : SqliteIntegrityKey)
    (opener_released : bool) : M unit :=
  auto_commit ← is_autocommit;
  reject auto_commit StateConflict;;
  expected_bytes ← reservation_bytes;
  ids ← list_transaction_ids;
  expected_total ← validate_reservations_of k expected_bytes ids 0;
  actual_total ← query (λ db, table_count (audit_reservations db));
  reject (negb (actual_total =? expected_total)%Z)
    (Corruption "aggregate physical audit reservation count mismatch");;
  page ← page_size;
  validate_filesystem_reserve page actual_total opener_released.

(** [with_immediate_validation]: BEGIN IMMEDIATE, validate, COMMIT or
    ROLLBACK. *)
Definition with_immediate_validation {A} (validate : M A) : M A :=
  immediate_transaction validate.
End validation.

(** * Runtime settings and schema identity

    Models [validate_runtime_settings], [validate_schema_identity] and what
    they call in [crates/linura-persistence-sqlite/src/validation.rs]: the
    checks an opened authority database must pass before its rows are read. *)

Definition APPLICATION_ID : Z := 0x4c4e5254.
Definition SCHEMA_VERSION : Z := 2.
Definition MIGRATION_ID : string := "0001-v04-hardened-authority-transactions".
Definition MIGRATION_V2_ID : string := "0002-v04-terminal-recovery-opener-headroom".
Definition MAX_SCHEMA_TYPE_BYTES : Z := 32.
Definition MAX_SCHEMA_NAME_BYTES : Z := 256.
Definition MAX_SCHEMA_SQL_BYTES : Z := 64 * 1024.
Definition MAX_SCHEMA_OBJECTS : Z := 256.
Definition MAX_SCHEMA_FINGERPRINT_BYTES : Z := 4 * 1024 * 1024.

(** The migration texts of [schema.rs], and what SQLite's [execute_batch] of a
    schema text makes of the rows of [sqlite_schema].  The effect of the
    migrations on the tables and their triggers is in [Sqlite]. *)
Class Migrations := {
  MIGRATION_V1 : string;
  MIGRATION_V2 : string;
  schema_batch : string → list SchemaObject → result SqliteError (list SchemaObject);
}.

(** [str::to_ascii_lowercase] on a byte. *)
Definition ascii_lower (c : Ascii.ascii) : Ascii.ascii :=
  let n := Ascii.N_of_ascii c in
  if (65 <=? n)%N && (n <=? 90)%N then Ascii.ascii_of_N (n + 32) else c.
Definition to_ascii_lowercase (s : string) : string :=
  String.string_of_list_ascii (map ascii_lower (String.list_ascii_of_string s)).

(** [u64::is_power_of_two]. *)
Definition is_power_of_two (n : Z) : bool := (0 <? n)%Z && (2 ^ Z.log2 n =? n)%Z.

(** SQL [name LIKE 'sqlite_%']: case-insensitive, one character, then any. *)
Definition internal_name (s : string) : bool :=
  match strip_prefix "sqlite" (to_ascii_lowercase s) with
  | Some (String _ _) => true
  | _ => false
  end.

Definition object_le (a b : SchemaObject) : Prop :=
  if decide (so_type a = so_type b) then String.le (so_name a) (so_name b)
  else String.le (so_type a) (so_type b).
#[export] Instance object_le_dec : RelDecision object_le.
Proof. intros a b. unfold object_le. destruct (decide _); apply _. Defined.

(** The application's schema objects, [ORDER BY type, name]. *)
Definition select_objects (l : list SchemaObject) : list SchemaObject :=
  merge_sort object_le (filter (λ o, internal_name (so_name o) = false) l).
Definition application_objects (db : Database) : list SchemaObject :=
  select_objects (schema_objects db).

Definition object_bytes (o : SchemaObject) : Z :=
  32 + str_len (so_type o) + str_len (so_name o) + str_len (so_tbl_name o) + str_len (so_sql o).
Definition sum_object_bytes (l : list SchemaObject) : Z :=
  foldr (λ o acc, object_bytes o + acc)%Z 0%Z l.

Section schema.
Context `{Crypto} `{Migrations}.

Definition migration_v1_checksum : ContentDigest :=
  digest_bytes "linura.sqlite.migration.v1" (as_bytes MIGRATION_V1).
Definition migration_v2_checksum : ContentDigest :=
  digest_bytes "linura.sqlite.migration.v2" (as_bytes MIGRATION_V2).

Definition append_canonical_field (buffer b : bytes) : result TransactionStoreError bytes :=
  let next := (Z.of_nat (length buffer) + 8 + Z.of_nat (length b))%Z in
  reject_if (u64_max <? next)%Z CapacityExceeded;;
  reject_if (MAX_SCHEMA_FINGERPRINT_BYTES <? next)%Z
    (UnsupportedSchema "SQLite schema exceeds aggregate fingerprint validation bounds");;
  Ok (buffer ++ u64_be (Z.of_nat (length b)) ++ b).

(** The row loop of [schema_fingerprint]; [capacity] is the aggregate byte
    count of the first query. *)
Fixpoint fingerprint_rows (capacity seen : Z) (encoded : bytes) (rows : list SchemaObject)
    : result TransactionStoreError (Z * bytes) :=
  match rows with
  | [] => Ok (seen, encoded)
  | o :: os =>
      seen ← ok_or (u64_checked_add seen 1) CapacityExceeded;
      reject_if ((MAX_SCHEMA_OBJECTS <? seen) || (MAX_SCHEMA_TYPE_BYTES <? str_len (so_type o))
                 || (MAX_SCHEMA_NAME_BYTES <? str_len (so_name o))
                 || (MAX_SCHEMA_NAME_BYTES <? str_len (so_tbl_name o))
                 || (MAX_SCHEMA_SQL_BYTES <? str_len (so_sql o)))%Z
        (UnsupportedSchema "SQLite schema object exceeds validation byte bound");;
      e1 ← append_canonical_field encoded (as_bytes (so_type o));
      e2 ← append_canonical_field e1 (as_bytes (so_name o));
      e3 ← append_canonical_field e2 (as_bytes (so_tbl_name o));
      e4 ← append_canonical_field e3 (as_bytes (so_sql o));
      reject_if ((capacity <? Z.of_nat (length e4))
                 || (MAX_SCHEMA_FINGERPRINT_BYTES <? Z.of_nat (length e4)))%Z
        (UnsupportedSchema "SQLite schema changed during bounded fingerprint validation");;
      fingerprint_rows capacity seen e4 os
  end.

(** Both queries of [schema_fingerprint] see the objects [l]. *)
Definition fingerprint_objects (l : list SchemaObject)
    : result TransactionStoreError ContentDigest :=
  let object_count := Z.of_nat (length l) in
  let aggregate_bytes := sum_object_bytes l in
  reject_if ((MAX_SCHEMA_OBJECTS <? object_count)
             || (MAX_SCHEMA_FINGERPRINT_BYTES <? aggregate_bytes))%Z
    (UnsupportedSchema "SQLite schema exceeds aggregate fingerprint validation bounds");;
  se ← fingerprint_rows aggregate_bytes 0 [] l;
  reject_if (negb (fst se =? object_count) || negb (Z.of_nat (length (snd se)) =? aggregate_bytes))%Z
    (UnsupportedSchema "SQLite schema changed during fingerprint validation");;
  Ok (digest_bytes "linura.sqlite.schema-objects.v1" (snd se)).

Definition schema_fingerprint : M ContentDigest :=
  l ← query application_objects; lift (fingerprint_objects l).

(** The reference database is in memory and empty. *)
Definition expected_v1_schema_fingerprint : result TransactionStoreError ContentDigest :=
  v1 ← map_err sqlite (schema_batch MIGRATION_V1 []);
  fingerprint_objects (select_objects v1).

Definition expected_schema_fingerprint : result TransactionStoreError ContentDigest :=
  v1 ← map_err sqlite (schema_batch MIGRATION_V1 []);
  v2 ← map_err sqlite (schema_batch MIGRATION_V2 v1);
  fingerprint_objects (select_objects v2).

Definition validate_runtime_settings (limits : StoreLimits) : M unit :=
  mode ← query (λ db, to_ascii_lowercase (pr_journal_mode (pragmas db)));
  reject (negb (bool_decide (mode = "wal")))
    (UnsupportedSchema ("authority database journal mode must be WAL, found " +:+ mode));;
  synchronous ← query (λ db, pr_synchronous (pragmas db));
  reject (negb (synchronous =? 2)%Z)
    (UnsupportedSchema "authority database synchronous mode must be FULL");;
  foreign_keys ← query (λ db, pr_foreign_keys (pragmas db));
  reject (negb (foreign_keys =? 1)%Z)
    (UnsupportedSchema "authority database foreign keys must be enabled");;
  trusted_schema ← query (λ db, pr_trusted_schema (pragmas db));
  reject (negb (trusted_schema =? 0)%Z)
    (UnsupportedSchema "authority database trusted_schema must be disabled");;
  recursive_triggers ← query (λ db, pr_recursive_triggers (pragmas db));
  reject (negb (recursive_triggers =? 1)%Z)
    (UnsupportedSchema "authority database recursive triggers must be enabled");;
  no_ckpt ← query (λ db, pr_no_ckpt_on_close (pragmas db));
  reject (negb no_ckpt)
    (UnsupportedSchema "authority database must disable automatic WAL checkpoint-on-close");;
  page ← page_size;
  reject (negb ((MIN_SQLITE_PAGE_SIZE <=? page) && (page <=? MAX_SQLITE_PAGE_SIZE))%Z
          || negb (is_power_of_two page))
    (UnsupportedSchema ("unsupported SQLite page_size " +:+ u64_to_string page));;
  max_page_count ← query (λ db, pr_max_page_count (pragmas db));
  reject ((max_page_count <=? 0) || (max_pages limits <? max_page_count))%Z CapacityExceeded.

Definition validate_store_identity (authority_fingerprint integrity_fingerprint : ContentDigest)
    : M unit :=
  identity ← query authority_store_identity;
  stored ← lift (ok_or identity AuthorityRejected);
  let '(a, i) := stored in
  reject (bad_digest_length a || bad_digest_length i)
    (Corruption "authority-store identity fingerprint length is invalid");;
  stored_authority ← lift (map_err (λ _, AuthorityRejected) (ContentDigest_new a));
  stored_integrity ← lift (map_err (λ _, AuthorityRejected) (ContentDigest_new i));
  reject (negb (bool_decide (stored_authority = authority_fingerprint))
          || negb (bool_decide (stored_integrity = integrity_fingerprint))) AuthorityRejected.

Definition validate_migration_entry (migration_id : string) (expected_checksum : ContentDigest)
    : M unit :=
  checksum ← query (λ db, schema_migrations db !! migration_id);
  c ← lift (ok_or checksum
              (UnsupportedSchema ("migration ledger entry " +:+ migration_id +:+ " missing")));
  reject (bad_digest_length c || negb (bool_decide (c = expected_checksum)))
    (UnsupportedSchema ("migration checksum mismatch for " +:+ migration_id)).

(** [SELECT COUNT( * ), SUM(migration_id NOT IN (..)) FROM schema_migrations]. *)
Definition unexpected_migrations (db : Database) : Z :=
  Z.of_nat (length (filter (λ kv, fst kv ≠ MIGRATION_ID ∧ fst kv ≠ MIGRATION_V2_ID)
                      (map_to_list (schema_migrations db)))).

Definition validate_schema_identity (authority_fingerprint integrity_fingerprint : ContentDigest)
    : M unit :=
  application_id ← query (λ db, pr_application_id (pragmas db));
  reject (negb (application_id =? APPLICATION_ID)%Z)
    (UnsupportedSchema "authority database application_id mismatch");;
  user_version ← query (λ db, pr_user_version (pragmas db));
  reject (negb (user_version =? SCHEMA_VERSION)%Z)
    (UnsupportedSchema "authority database user_version mismatch");;
  validate_store_identity authority_fingerprint integrity_fingerprint;;
  counts ← query (λ db, (table_count (schema_migrations db), unexpected_migrations db));
  reject (negb (fst counts =? 2)%Z || negb (snd counts =? 0)%Z)
    (UnsupportedSchema
       "migration ledger contains entries not represented by the supported schema generation");;
  validate_migration_entry MIGRATION_ID migration_v1_checksum;;
  validate_migration_entry MIGRATION_V2_ID migration_v2_checksum;;
  actual ← schema_fingerprint;
  expected ← lift expected_schema_fingerprint;
  reject (negb (bool_decide (actual = expected)))
    (UnsupportedSchema "installed authority schema objects differ from the canonical migration").
End schema.
