(* ===== verification/Store.v ===== *)
(** * The SQLite transaction store

    Models [crates/linura-persistence-sqlite/src/store.rs]: the durable
    transaction operations behind the trait [TransactionStore]. *)

From Stdlib Require Import ZArith Lia.
From Stdlib Require Import Strings.Byte.
From stdpp Require Import base numbers gmap strings list fin_maps sorting.
From S2P Require Import Prelude Text Core Digest Binding Authority Sqlite Integrity.
From S2P Require Import Validation.

Set Default Goal Selector "!".

(** [SqliteTransactionStore] without its connection, which is the session of
    the monad [M]. *)
Record Store := {
  store_limits : StoreLimits;
  store_verifier : TransactionAuthorityVerifier;
  store_key : SqliteIntegrityKey;
  store_opener_released : bool;
}.

Section store.
Context `{Crypto} `{Migrations}.

Definition require_normal_open (st : Store) : M unit :=
  reject (store_opener_released st) StateConflict.

Definition reconcile_filesystem_reserve_after_commit (st : Store) : M unit :=
  with_immediate_validation (validate_physical_reservations_locked (store_key st) false).

Definition assert_expected (snapshot : TransactionSnapshot) (generation version : Z)
    (binding_digest : ContentDigest) (state : TransactionState)
    : result TransactionStoreError unit :=
  reject_if (negb (ts_current_generation snapshot =? generation)%Z
             || negb (ts_state_version snapshot =? version)%Z
             || negb (bool_decide (ts_binding_digest snapshot = binding_digest))
             || negb (bool_decide (ts_state snapshot = state))) StateConflict.

(** [for slot in existing..required { INSERT .. zeroblob(reserve_bytes) }] *)
Fixpoint insert_reservations (id : TransactionId) (reserve_bytes : Z) (n : nat) (slot : Z)
    : M unit :=
  match n with
  | O => mret tt
  | S n =>
      slot' ← lift (as_i64 slot);
      len ← lift (as_i64 reserve_bytes);
      statement (λ env step db,
        db' ← insert_audit_reservations
                (env_fs_reserve_slots env step (table_count (audit_reservations db) + 2))
                id slot' len db;
        Ok (tt, db'));;
      insert_reservations id reserve_bytes n (slot + 1)
  end.

Definition ensure_audit_reservations (id : TransactionId) (required : Z) : M unit :=
  reserve_bytes ← reservation_bytes;
  rows ← query (λ db, rows_of (audit_reservations db) id);
  existing ← lift (count_reservations reserve_bytes 0 rows);
  reject (required <? existing)%Z
    (Corruption "physical audit reservation count exceeds transition requirement");;
  insert_reservations id reserve_bytes (Z.to_nat (required - existing)) existing.

Definition consume_audit_reservation (id : TransactionId) : M unit :=
  reserve_bytes ← reservation_bytes;
  reservation ← query (λ db, last (rows_of (audit_reservations db) id));
  sl ← lift (ok_or reservation (Corruption "required physical audit reservation is missing"));
  reject (negb (bool_decide (u64_try_from (snd sl) = Some reserve_bytes)))
    (Corruption "physical audit reservation byte length is invalid");;
  deleted ← execute_count (λ db, Ok (delete_audit_reservations id (fst sl) db));
  reject (negb (deleted =? 1)%Z)
    (Corruption "physical audit reservation could not be consumed").

(** The sequence number and previous digest of the next event. *)
Definition next_audit_link (previous : option StoredAuditEvent)
    : result TransactionStoreError (Z * ContentDigest) :=
  match previous with
  | Some p =>
      digest ← corrupt_domain (ContentDigest_new (sa_event_digest p));
      sequence ← ok_or (u64_checked_add (sa_event_sequence p) 1) CapacityExceeded;
      Ok (sequence, digest)
  | None => Ok (0%Z, ContentDigest_zero)
  end.

Definition append_audit (limits : StoreLimits) (k : SqliteIntegrityKey) (id : TransactionId)
    (generation state_version : Z) (event_kind : string) (payload_digest : ContentDigest)
    (consume_reservation : bool) : M ContentDigest :=
  reject ((str_len event_kind =? 0) || (MAX_AUDIT_EVENT_KIND_BYTES <? str_len event_kind))%Z
    (Corruption "internal audit event kind exceeds persisted byte bound");;
  check_count_capacity "audit_events" (max_audit_events limits) 1;;
  previous ← load_last_audit_event k id;
  link ← lift (next_audit_link previous);
  let '(sequence, previous_digest) := link in
  (if consume_reservation then consume_audit_reservation id else mret tt);;
  let event_digest :=
    audit_digest id sequence generation state_version event_kind payload_digest previous_digest in
  let record tag :=
    {| sa_transaction_id := id; sa_event_sequence := sequence; sa_generation := generation;
       sa_state_version := state_version; sa_event_kind := event_kind;
       sa_payload_digest := payload_digest; sa_previous_digest := previous_digest;
       sa_event_digest := event_digest; sa_integrity_tag := tag |} in
  let tag := audit_tag k (record []) in
  lift (as_i64 sequence);; lift (as_i64 generation);; lift (as_i64 state_version);;
  execute (insert_audit_events (record tag));;
  mret event_digest.

Definition update_transaction_pointer (k : SqliteIntegrityKey) (record : StoredTransaction)
    (next_generation next_version : Z) : M StoredTransaction :=
  let mk tag :=
    {| st_transaction_id := st_transaction_id record; st_principal := st_principal record;
       st_request_id := st_request_id record; st_current_generation := next_generation;
       st_state_version := next_version; st_integrity_tag := tag |} in
  let next := mk (transaction_tag k (mk (st_integrity_tag record))) in
  lift (as_i64 (st_current_generation record));; lift (as_i64 (st_state_version record));;
  lift (as_i64 next_generation);; lift (as_i64 next_version);;
  updated ← execute_count (update_transactions record next);
  reject (negb (updated =? 1)%Z) StateConflict;;
  mret next.

Definition generation_with (g : StoredGeneration) (state : string)
    (desired graph provenance : option string) (tag : bytes) : StoredGeneration :=
  {| sg_transaction_id := sg_transaction_id g; sg_generation := sg_generation g;
     sg_state := state; sg_binding_digest := sg_binding_digest g;
     sg_binding_canonical := sg_binding_canonical g;
     sg_request_digest := sg_request_digest g;
     sg_precondition_digest := sg_precondition_digest g;
     sg_observation_digest := sg_observation_digest g;
     sg_desired_state_digest := desired; sg_graph_digest := graph;
     sg_provenance_digest := provenance; sg_integrity_tag := tag |}.

Definition update_generation_state (k : SqliteIntegrityKey) (record : StoredGeneration)
    (expected_state next_state : TransactionState) : M StoredGeneration :=
  reject (negb (bool_decide (sg_state record = TransactionState_as_str expected_state)))
    StateConflict;;
  let mk := generation_with record (TransactionState_as_str next_state)
              (sg_desired_state_digest record) (sg_graph_digest record)
              (sg_provenance_digest record) in
  let tag := generation_tag k (mk (sg_integrity_tag record)) in
  lift (as_i64 (sg_generation record));;
  updated ← execute_count
    (update_generations record (TransactionState_as_str next_state) None tag);
  reject (negb (updated =? 1)%Z) StateConflict;;
  mret (mk tag).

Definition update_generation_to_verified (k : SqliteIntegrityKey) (record : StoredGeneration)
    (desired graph provenance : ContentDigest) : M StoredGeneration :=
  reject (negb (bool_decide (sg_state record = TransactionState_as_str Indeterminate))
          || bool_decide (is_Some (sg_desired_state_digest record))
          || bool_decide (is_Some (sg_graph_digest record))
          || bool_decide (is_Some (sg_provenance_digest record))) StateConflict;;
  let mk := generation_with record (TransactionState_as_str Verified)
              (Some desired) (Some graph) (Some provenance) in
  let tag := generation_tag k (mk (sg_integrity_tag record)) in
  lift (as_i64 (sg_generation record));;
  updated ← execute_count
    (update_generations record "verified" (Some (desired, graph, provenance)) tag);
  reject (negb (updated =? 1)%Z) StateConflict;;
  mret (mk tag).

(** The row [insert_generation] builds. *)
Definition new_generation (k : SqliteIntegrityKey) (b : AuthorityBinding) (generation : Z)
    : StoredGeneration :=
  let mk tag :=
    {| sg_transaction_id := AuthorityBinding_transaction_id b; sg_generation := generation;
       sg_state := TransactionState_as_str Prepared; sg_binding_digest := ab_digest b;
       sg_binding_canonical := ab_canonical b; sg_request_digest := ab_request_digest b;
       sg_precondition_digest := ab_precondition_digest b;
       sg_observation_digest := ab_observation_digest b;
       sg_desired_state_digest := None; sg_graph_digest := None; sg_provenance_digest := None;
       sg_integrity_tag := tag |} in
  mk (generation_tag k (mk [])).

Definition insert_generation (k : SqliteIntegrityKey) (b : AuthorityBinding) (generation : Z)
    : M StoredGeneration :=
  lift (as_i64 generation);;
  execute (insert_generations (new_generation k b generation));;
  mret (new_generation k b generation).
End store.

(** * The operations of the transaction store

    Models [impl TransactionStore for SqliteTransactionStore] of
    [crates/linura-persistence-sqlite/src/store.rs]. *)

Section store_ops.
Context `{Crypto} `{Migrations}.

(** [enforce_authority_window]: the environment's clock is [None] before the
    epoch or past the range of a [u64]. *)
Definition enforce_authority_window (authorized_at expires_at : Z) : M unit := λ env s,
  (s, match env_now_unix_ms env (sess_step s) with
      | None => Err AuthorityRejected
      | Some now => reject_if ((now <? authorized_at) || (expires_at <? now))%Z AuthorityRejected
      end).

Definition next_version (snapshot : TransactionSnapshot) : result TransactionStoreError Z :=
  ok_or (u64_checked_add (ts_state_version snapshot) 1) CapacityExceeded.

(** [..snapshot] with the state and version replaced. *)
Definition snapshot_with (s : TransactionSnapshot) (state : TransactionState) (version : Z)
    : TransactionSnapshot :=
  {| ts_transaction_id := ts_transaction_id s; ts_principal := ts_principal s;
     ts_request_id := ts_request_id s; ts_current_generation := ts_current_generation s;
     ts_state_version := version; ts_state := state; ts_binding_digest := ts_binding_digest s |}.

(** *** prepare *)

Definition new_transaction (k : SqliteIntegrityKey) (b : AuthorityBinding) : StoredTransaction :=
  let mk tag :=
    {| st_transaction_id := AuthorityBinding_transaction_id b; st_principal := ab_principal b;
       st_request_id := ab_request_id b; st_current_generation := 0; st_state_version := 1;
       st_integrity_tag := tag |} in
  mk (transaction_tag k (mk [])).

Definition created_snapshot (b : AuthorityBinding) : TransactionSnapshot :=
  {| ts_transaction_id := AuthorityBinding_transaction_id b; ts_principal := ab_principal b;
     ts_request_id := ab_request_id b; ts_current_generation := 0; ts_state_version := 1;
     ts_state := Prepared; ts_binding_digest := ab_digest b |}.

Definition create_transaction (st : Store) (b : AuthorityBinding) : M PrepareOutcome :=
  let id := AuthorityBinding_transaction_id b in
  check_count_capacity "transactions" (max_transactions (store_limits st)) 1;;
  check_count_capacity "generations" (max_generations (store_limits st)) 1;;
  check_logical_audit_reserve (store_limits st) 1 1;;
  execute (insert_transactions (new_transaction (store_key st) b));;
  insert_generation (store_key st) b 0;;
  append_audit (store_limits st) (store_key st) id 0 1 "prepared" (ab_digest b) false;;
  ensure_audit_reservations id 1;;
  mret (Created (created_snapshot b)).

Definition prepare_body (st : Store) (b : AuthorityBinding) : M PrepareOutcome := λ env s,
  match load_current (store_key st) (AuthorityBinding_transaction_id b) env s with
  | (s, Ok (_, _, snapshot)) =>
      if bool_decide (ts_state snapshot = Prepared)
         && bool_decide (ts_binding_digest snapshot = ab_digest b)
         && bool_decide (ts_principal snapshot = ab_principal b)
         && bool_decide (ts_request_id snapshot = ab_request_id b)
      then (s, Ok (Existing snapshot))
      else (s, Err IdempotencyConflict)
  | (s, Err NotFound) => create_transaction st b env s
  | (s, Err error) => (s, Err error)
  end.

Definition prepare (st : Store) (b : AuthorityBinding) : M PrepareOutcome :=
  require_normal_open st;;
  immediate_transaction (prepare_body st b).

(** *** handoff *)

Definition handoff_body (st : Store) (r : HandoffRequest) : M HandoffCommit :=
  let limits := store_limits st in
  let k := store_key st in
  let id := hr_transaction_id r in
  enforce_authority_window (hr_authorized_at_unix_ms r) (hr_expires_at_unix_ms r);;
  cur ← load_current k id;
  let '(t, g, snapshot) := cur in
  lift (assert_expected snapshot (hr_expected_generation r) (hr_expected_state_version r)
          (hr_expected_binding_digest r) Prepared);;
  reject (bool_decide (hr_authority_use_digest r = ContentDigest_zero)) StateConflict;;
  check_logical_audit_reserve limits 1 0;;
  ensure_audit_reservations id 2;;
  version ← lift (next_version snapshot);
  update_generation_state k g Prepared Indeterminate;;
  update_transaction_pointer k t (ts_current_generation snapshot) version;;
  append_audit limits k id (ts_current_generation snapshot) version "handoff-indeterminate"
    (hr_authority_use_digest r) true;;
  mret {| hc_transaction_id := id; hc_generation := ts_current_generation snapshot;
          hc_state_version := version; hc_binding_digest := ts_binding_digest snapshot;
          hc_authority_use_digest := hr_authority_use_digest r |}.

Definition handoff (st : Store) (r : HandoffRequest) : M HandoffCommit :=
  require_normal_open st;;
  reject (negb (verify_handoff (store_verifier st) r)) AuthorityRejected;;
  commit ← immediate_transaction (handoff_body st r);
  reconcile_filesystem_reserve_after_commit st;;
  mret commit.

(** *** recover *)

(** The arms of the [match request.resolution()]. *)
Definition recover_arm (st : Store) (id : TransactionId) (t : StoredTransaction)
    (g : StoredGeneration) (snapshot : TransactionSnapshot) (version : Z)
    (resolution : RecoveryResolution) : M RecoveryOutcome :=
  let limits := store_limits st in
  let k := store_key st in
  let generation := ts_current_generation snapshot in
  match resolution with
  | IntendedStateVerified observation desired graph provenance =>
      check_logical_audit_reserve limits 1 0;;
      ensure_audit_reservations id 2;;
      update_generation_to_verified k g desired graph provenance;;
      update_transaction_pointer k t generation version;;
      append_audit limits k id generation version "recovery-verified" observation true;;
      mret (OutVerified (snapshot_with snapshot Verified version))
  | ConflictingState observation =>
      check_logical_audit_reserve limits 1 (-1);;
      ensure_audit_reservations id 1;;
      update_generation_state k g Indeterminate RecoveryBlocked;;
      update_transaction_pointer k t generation version;;
      append_audit limits k id generation version "recovery-blocked" observation true;;
      mret (OutBlocked (snapshot_with snapshot RecoveryBlocked version))
  | Ambiguous observation =>
      check_logical_audit_reserve limits 1 0;;
      ensure_audit_reservations id 2;;
      update_transaction_pointer k t generation version;;
      append_audit limits k id generation version "recovery-ambiguous" observation true;;
      mret (OutStillIndeterminate (snapshot_with snapshot (ts_state snapshot) version))
  | IntendedEffectAbsent observation next_binding =>
      reject (negb (bool_decide (AuthorityBinding_transaction_id next_binding = id)))
        IdempotencyConflict;;
      next_generation ← lift (ok_or (u64_checked_add generation 1) CapacityExceeded);
      reject (MAX_TRANSACTION_GENERATIONS <=? next_generation)%Z CapacityExceeded;;
      check_count_capacity "generations" (max_generations limits) 1;;
      check_logical_audit_reserve limits 2 0;;
      ensure_audit_reservations id 3;;
      update_generation_state k g Indeterminate Aborted;;
      insert_generation k next_binding next_generation;;
      update_transaction_pointer k t next_generation version;;
      append_audit limits k id generation version "recovery-retired-no-effect" observation true;;
      append_audit limits k id next_generation version "recovery-reprepared"
        (ab_digest next_binding) true;;
      mret (OutReprepared
              {| ts_transaction_id := id; ts_principal := ab_principal next_binding;
                 ts_request_id := ab_request_id next_binding;
                 ts_current_generation := next_generation; ts_state_version := version;
                 ts_state := Prepared; ts_binding_digest := ab_digest next_binding |})
  end.

Definition recover_body (st : Store) (r : RecoveryRequest) : M RecoveryOutcome :=
  enforce_authority_window (rr_authorized_at_unix_ms r) (rr_expires_at_unix_ms r);;
  cur ← load_current (store_key st) (rr_transaction_id r);
  let '(t, g, snapshot) := cur in
  lift (assert_expected snapshot (rr_expected_generation r) (rr_expected_state_version r)
          (rr_expected_binding_digest r) Indeterminate);;
  version ← lift (next_version snapshot);
  recover_arm st (rr_transaction_id r) t g snapshot version (rr_resolution r).

Definition recover (st : Store) (r : RecoveryRequest) : M RecoveryOutcome :=
  require_normal_open st;;
  reject (negb (verify_recovery (store_verifier st) r)) AuthorityRejected;;
  outcome ← immediate_transaction (recover_body st r);
  reconcile_filesystem_reserve_after_commit st;;
  mret outcome.

(** *** commit *)

Definition commit_body (st : Store) (r : CommitRequest) : M TransactionSnapshot :=
  let limits := store_limits st in
  let k := store_key st in
  let id := cr_transaction_id r in
  cur ← load_current k id;
  let '(t, g, snapshot) := cur in
  lift (assert_expected snapshot (cr_expected_generation r) (cr_expected_state_version r)
          (cr_expected_binding_digest r) Verified);;
  reject (negb (bool_decide (sg_desired_state_digest g = Some (cr_desired_state_digest r)))
          || negb (bool_decide (sg_graph_digest g = Some (cr_graph_digest r)))
          || negb (bool_decide (sg_provenance_digest g = Some (cr_provenance_digest r))))
    StateConflict;;
  check_logical_audit_reserve limits 1 (-1);;
  ensure_audit_reservations id 1;;
  version ← lift (next_version snapshot);
  update_generation_state k g Verified Committed;;
  update_transaction_pointer k t (ts_current_generation snapshot) version;;
  append_audit limits k id (ts_current_generation snapshot) version "committed"
    (commit_payload (cr_desired_state_digest r) (cr_graph_digest r) (cr_provenance_digest r)) true;;
  mret (snapshot_with snapshot Committed version).

Definition commit (st : Store) (r : CommitRequest) : M TransactionSnapshot :=
  require_normal_open st;;
  reject (negb (verify_commit (store_verifier st) r)) AuthorityRejected;;
  snapshot ← immediate_transaction (commit_body st r);
  reconcile_filesystem_reserve_after_commit st;;
  mret snapshot.

(** *** abort_prepared *)

Definition abort_body (st : Store) (r : AbortRequest) : M TransactionSnapshot :=
  let limits := store_limits st in
  let k := store_key st in
  let id := ar_transaction_id r in
  cur ← load_current k id;
  let '(t, g, snapshot) := cur in
  reject (negb (ts_current_generation snapshot =? ar_expected_generation r)%Z
          || negb (ts_state_version snapshot =? ar_expected_state_version r)%Z
          || negb (bool_decide (ts_state snapshot = Prepared))) StateConflict;;
  check_logical_audit_reserve limits 1 (-1);;
  ensure_audit_reservations id 1;;
  version ← lift (next_version snapshot);
  update_generation_state k g Prepared Aborted;;
  update_transaction_pointer k t (ts_current_generation snapshot) version;;
  append_audit limits k id (ts_current_generation snapshot) version "aborted-prepared"
    (ar_reason_digest r) true;;
  mret (snapshot_with snapshot Aborted version).

Definition store_after_abort (st : Store) : Store :=
  {| store_limits := store_limits st; store_verifier := store_verifier st;
     store_key := store_key st; store_opener_released := false |}.

(** Returns the store with [opener_released_for_terminal_recovery] cleared. *)
Definition abort_prepared (st : Store) (r : AbortRequest) : M (Store * TransactionSnapshot) :=
  snapshot ← immediate_transaction (abort_body st r);
  reconcile_filesystem_reserve_after_commit st;;
  mret (store_after_abort st, snapshot).

(** *** reads *)

Definition snapshot (st : Store) (id : TransactionId) : M TransactionSnapshot :=
  cur ← load_current (store_key st) id; mret (snd cur).

Definition recovery_anchor (st : Store) (id : TransactionId) : M RecoveryAnchor :=
  cur ← load_current (store_key st) id;
  let '(_, generation, snapshot) := cur in
  request_digest ← lift (corrupt_domain (ContentDigest_new (sg_request_digest generation)));
  precondition ← lift (corrupt_domain (ContentDigest_new (sg_precondition_digest generation)));
  mret {| ra_snapshot := snapshot; ra_request_digest := request_digest;
          ra_precondition_digest := precondition |}.

Definition verified_commit_material (st : Store) (id : TransactionId)
    : M VerifiedCommitMaterial :=
  cur ← load_current (store_key st) id;
  let '(_, generation, snapshot) := cur in
  reject (negb (bool_decide (ts_state snapshot = Verified))) StateConflict;;
  desired ← lift (required_digest (sg_desired_state_digest generation)
                    "verified desired-state digest missing");
  graph ← lift (required_digest (sg_graph_digest generation) "verified graph digest missing");
  provenance ← lift (required_digest (sg_provenance_digest generation)
                       "verified provenance digest missing");
  mret {| vcm_snapshot := snapshot; vcm_desired_state_digest := desired;
          vcm_graph_digest := graph; vcm_provenance_digest := provenance |}.

Fixpoint list_state_of (st : Store) (state : TransactionState) (ids : list TransactionId)
    : M (list TransactionSnapshot) :=
  match ids with
  | [] => mret []
  | i :: rest =>
      s ← snapshot st i;
      l ← list_state_of st state rest;
      mret (if bool_decide (ts_state s = state) then s :: l else l)
  end.

Definition list_state (st : Store) (state : TransactionState) : M (list TransactionSnapshot) :=
  ids ← list_transaction_ids; list_state_of st state ids.

(** *** integrity_check *)

Fixpoint validate_each (st : Store) (ids : list TransactionId) : M unit :=
  match ids with
  | [] => mret tt
  | i :: rest =>
      cur ← load_current (store_key st) i;
      let '(t, _, _) := cur in
      validate_generation_history (store_key st) i (st_current_generation t) (store_limits st);;
      validate_audit_chain (store_key st) i (st_current_generation t) (st_state_version t)
        (store_limits st);;
      validate_each st rest
  end.

Definition pragma_integrity_check : M string :=
  statement (λ env n db, Ok (env_pragma_integrity_check env n, db)).

Definition integrity_check (st : Store) : M unit :=
  with_immediate_validation (
    validate_runtime_settings (store_limits st);;
    validate_schema_identity (fingerprint (store_verifier st))
      (integrity_fingerprint (store_key st));;
    validate_aggregate_capacity "transactions" (max_transactions (store_limits st));;
    validate_aggregate_capacity "generations" (max_generations (store_limits st));;
    validate_aggregate_capacity "audit_events" (max_audit_events (store_limits st));;
    validate_logical_audit_reserve (store_limits st);;
    integrity ← pragma_integrity_check;
    reject (negb (bool_decide (integrity = "ok")))
      (Corruption ("SQLite integrity_check returned " +:+ debug_str integrity));;
    foreign ← query foreign_key_violation;
    reject foreign (Corruption "SQLite foreign_key_check reported violations");;
    ids ← list_transaction_ids;
    validate_each st ids;;
    validate_physical_reservations_locked (store_key st) (store_opener_released st)).
End store_ops.
