(* ===== verification/OpenStore.v ===== *)
(** * Opening a store

    Models the opening path of the store: [SqliteTransactionStore::open] and
    its variants in [store.rs], and [configure_connection],
    [validate_pre_configuration_identity], [initialize_or_validate_schema] and
    [validate_v1_schema_identity] of [validation.rs].  The session starts on
    the database file with the connection's default settings. *)

From Stdlib Require Import ZArith Lia.
From stdpp Require Import base numbers gmap strings list fin_maps sorting.
From S2P Require Import Prelude Text Core Digest Binding Authority Sqlite Integrity Validation.
From S2P Require Import Store.

Set Default Goal Selector "!".

(** ** Settings and schema tables *)

Definition with_pragmas (db : Database) (p : Pragmas) : Database :=
  {| transactions := transactions db; generations := generations db;
     audit_events := audit_events db; audit_reservations := audit_reservations db;
     authority_store_identity := authority_store_identity db;
     schema_migrations := schema_migrations db; schema_objects := schema_objects db;
     pragmas := p |}.

Definition with_store_identity (db : Database) (i : option (string * string)) : Database :=
  {| transactions := transactions db; generations := generations db;
     audit_events := audit_events db; audit_reservations := audit_reservations db;
     authority_store_identity := i; schema_migrations := schema_migrations db;
     schema_objects := schema_objects db; pragmas := pragmas db |}.

Definition with_schema_migrations (db : Database) (m : gmap string string) : Database :=
  {| transactions := transactions db; generations := generations db;
     audit_events := audit_events db; audit_reservations := audit_reservations db;
     authority_store_identity := authority_store_identity db; schema_migrations := m;
     schema_objects := schema_objects db; pragmas := pragmas db |}.

Definition with_schema_objects (db : Database) (l : list SchemaObject) : Database :=
  {| transactions := transactions db; generations := generations db;
     audit_events := audit_events db; audit_reservations := audit_reservations db;
     authority_store_identity := authority_store_identity db;
     schema_migrations := schema_migrations db; schema_objects := l; pragmas := pragmas db |}.

(** [PRAGMA name = value]. *)
Inductive Setting :=
| JournalMode (mode : string)
| Synchronous (v : Z)
| ForeignKeys (v : Z)
| TrustedSchema (v : Z)
| RecursiveTriggers (v : Z)
| NoCheckpointOnClose (v : bool)
| MaxPageCount (v : Z)
| ApplicationId (v : Z)
| UserVersion (v : Z).

Definition set_pragma (x : Setting) (p : Pragmas) : Pragmas :=
  {| pr_journal_mode := match x with JournalMode m => m | _ => pr_journal_mode p end;
     pr_synchronous := match x with Synchronous v => v | _ => pr_synchronous p end;
     pr_foreign_keys := match x with ForeignKeys v => v | _ => pr_foreign_keys p end;
     pr_trusted_schema := match x with TrustedSchema v => v | _ => pr_trusted_schema p end;
     pr_recursive_triggers :=
       match x with RecursiveTriggers v => v | _ => pr_recursive_triggers p end;
     pr_no_ckpt_on_close :=
       match x with NoCheckpointOnClose v => v | _ => pr_no_ckpt_on_close p end;
     pr_page_size := pr_page_size p;
     pr_max_page_count := match x with MaxPageCount v => v | _ => pr_max_page_count p end;
     pr_application_id := match x with ApplicationId v => v | _ => pr_application_id p end;
     pr_user_version := match x with UserVersion v => v | _ => pr_user_version p end |}.

Definition apply_setting (x : Setting) (db : Database) : Database :=
  with_pragmas db (set_pragma x (pragmas db)).

(** [INSERT INTO authority_store_identity]: its trigger and CHECKs. *)
Definition insert_store_identity (authority integrity : string) (db : Database)
    : result SqliteError Database :=
  sql_reject (bool_decide (is_Some (authority_store_identity db)))
    "immutable authority verifier identity conflict";;
  sql_reject (negb (digest_len authority && digest_len integrity)) "authority_store_identity check";;
  Ok (with_store_identity db (Some (authority, integrity))).

(** [INSERT INTO schema_migrations]: its trigger and CHECKs. *)
Definition insert_schema_migration (id checksum : string) (db : Database)
    : result SqliteError Database :=
  sql_reject (bool_decide (is_Some (schema_migrations db !! id)))
    "immutable migration ledger conflict";;
  sql_reject (negb (len_between id 1 128 && digest_len checksum)) "schema_migrations check";;
  Ok (with_schema_migrations db (<[id := checksum]> (schema_migrations db))).

Record SqliteSettings := {
  ss_journal_mode : string;
  ss_synchronous : Z;
  ss_foreign_keys : Z;
  ss_trusted_schema : Z;
  ss_application_id : Z;
  ss_user_version : Z;
  ss_max_page_count : Z;
}.

Section open.
Context `{Crypto} `{Migrations}.

Definition pragma_update (x : Setting) : M unit := execute (λ db, Ok (apply_setting x db)).

(** [execute_batch] of a migration text. *)
Definition execute_migration (text : string) : M unit :=
  execute (λ db, l ← schema_batch text (schema_objects db); Ok (with_schema_objects db l)).

(** [SELECT COUNT( * ) FROM sqlite_schema WHERE name NOT LIKE 'sqlite_%']. *)
Definition application_object_count (db : Database) : Z :=
  Z.of_nat (length (application_objects db)).

(** [Connection::open] and [busy_timeout]: they may fail and change nothing
    of the model. *)
Definition connection_open : M unit := execute (λ db, Ok db).
Definition busy_timeout : M unit := execute (λ db, Ok db).

Definition validate_pre_configuration_identity : M bool :=
  application_id ← query (λ db, pr_application_id (pragmas db));
  user_version ← query (λ db, pr_user_version (pragmas db));
  if (application_id =? 0)%Z && (user_version =? 0)%Z then
    object_count ← query application_object_count;
    if (object_count =? 0)%Z then mret true
    else fail (UnsupportedSchema
                 "unidentified authority database contains application schema objects")
  else
    reject (negb (application_id =? APPLICATION_ID)%Z)
      (UnsupportedSchema ("application_id " +:+ i64_to_string application_id
                          +:+ " is not Linura authority storage"));;
    reject (negb (user_version =? 1)%Z && negb (user_version =? SCHEMA_VERSION)%Z)
      (UnsupportedSchema ("database schema " +:+ i64_to_string user_version
                          +:+ " is not supported schema 1 or 2"));;
    mret false.

(** [register_filesystem_reserve_functions] of [filesystem_reserve.rs]. *)
Definition register_filesystem_reserve_functions (page : Z) : M unit :=
  λ env s, (s, env_register_reserve_functions env (sess_step s) page).

(** The journal mode in force after the configuration. *)
Definition configure_journal (observed_mode : string) (uninitialized : bool) : M string :=
  if uninitialized then
    if bool_decide (to_ascii_lowercase observed_mode = "wal") then mret observed_mode
    else statement (λ env n db,
           let mode := env_journal_mode_wal env n in
           Ok (mode, apply_setting (JournalMode mode) db))
  else
    reject (negb (bool_decide (to_ascii_lowercase observed_mode = "wal")))
      (UnsupportedSchema
         ("existing authority database journal mode must already be WAL, found "
          +:+ observed_mode));;
    mret observed_mode.

Definition configure_connection (limits : StoreLimits) : M unit :=
  observed_mode ← query (λ db, pr_journal_mode (pragmas db));
  uninitialized ← validate_pre_configuration_identity;
  busy_timeout;;
  pragma_update (NoCheckpointOnClose true);;
  pragma_update (ForeignKeys 1);;
  pragma_update (TrustedSchema 0);;
  pragma_update (RecursiveTriggers 1);;
  pragma_update (Synchronous 2);;
  mode ← configure_journal observed_mode uninitialized;
  reject (negb (bool_decide (to_ascii_lowercase mode = "wal")))
    (UnsupportedSchema ("SQLite WAL mode unavailable: " +:+ mode));;
  page ← page_size;
  register_filesystem_reserve_functions page;;
  pages ← lift (as_i64 (max_pages limits));
  statement (λ env n db, Ok (tt, apply_setting (MaxPageCount (env_set_max_page_count env n pages)) db));;
  validate_runtime_settings limits.

(** [SELECT COUNT( * ), SUM(migration_id <> ?1) FROM schema_migrations]. *)
Definition unexpected_v1_migrations (db : Database) : Z :=
  Z.of_nat (length (filter (λ kv, fst kv ≠ MIGRATION_ID) (map_to_list (schema_migrations db)))).

Definition validate_v1_schema_identity (authority_fingerprint integrity_fingerprint : ContentDigest)
    : M unit :=
  application_id ← query (λ db, pr_application_id (pragmas db));
  user_version ← (if negb (application_id =? APPLICATION_ID)%Z then mret 0%Z
                  else query (λ db, pr_user_version (pragmas db)));
  reject (negb (application_id =? APPLICATION_ID)%Z || negb (user_version =? 1)%Z)
    (UnsupportedSchema "authority database is not a supported schema-v1 migration source");;
  validate_store_identity authority_fingerprint integrity_fingerprint;;
  counts ← query (λ db, (table_count (schema_migrations db), unexpected_v1_migrations db));
  reject (negb (fst counts =? 1)%Z || negb (snd counts =? 0)%Z)
    (UnsupportedSchema "schema-v1 migration ledger is not canonical");;
  validate_migration_entry MIGRATION_ID migration_v1_checksum;;
  actual ← schema_fingerprint;
  expected ← lift expected_v1_schema_fingerprint;
  reject (negb (bool_decide (actual = expected)))
    (UnsupportedSchema "schema-v1 objects differ from the immutable canonical migration").

(** The migration of an empty database. *)
Definition initialize_body (authority_fingerprint integrity_fingerprint : ContentDigest) : M unit :=
  pragma_update (ApplicationId APPLICATION_ID);;
  execute_migration MIGRATION_V1;;
  execute (insert_store_identity authority_fingerprint integrity_fingerprint);;
  execute (insert_schema_migration MIGRATION_ID migration_v1_checksum);;
  execute_migration MIGRATION_V2;;
  execute (insert_schema_migration MIGRATION_V2_ID migration_v2_checksum);;
  pragma_update (UserVersion SCHEMA_VERSION).

(** The migration of a schema-v1 database. *)
Definition upgrade_body : M unit :=
  execute_migration MIGRATION_V2;;
  execute (insert_schema_migration MIGRATION_V2_ID migration_v2_checksum);;
  pragma_update (UserVersion SCHEMA_VERSION).

Definition initialize_or_validate_schema
    (authority_fingerprint integrity_fingerprint : ContentDigest) : M unit :=
  application_id ← query (λ db, pr_application_id (pragmas db));
  user_version ← query (λ db, pr_user_version (pragmas db));
  (if (application_id =? 0)%Z && (user_version =? 0)%Z then
     object_count ← query application_object_count;
     reject (negb (object_count =? 0)%Z)
       (UnsupportedSchema "unidentified authority database contains application schema objects");;
     immediate_transaction (initialize_body authority_fingerprint integrity_fingerprint)
   else
     reject (negb (application_id =? APPLICATION_ID)%Z)
       (UnsupportedSchema ("application_id " +:+ i64_to_string application_id
                           +:+ " is not Linura authority storage"));;
     if (user_version =? 1)%Z then
       validate_v1_schema_identity authority_fingerprint integrity_fingerprint;;
       immediate_transaction upgrade_body
     else if (user_version =? SCHEMA_VERSION)%Z then mret tt
     else fail (UnsupportedSchema ("database schema " +:+ i64_to_string user_version
                                   +:+ " is not supported schema 1 or 2")));;
  validate_schema_identity authority_fingerprint integrity_fingerprint.

(** [release_preopen_recovery_headroom] of [filesystem_reserve.rs]. *)
Definition release_preopen_recovery_headroom : M bool :=
  λ env s, (s, env_release_headroom env (sess_step s)).

Definition open_with_limits_mode (limits : StoreLimits) (verifier : TransactionAuthorityVerifier)
    (key : SqliteIntegrityKey) (terminal_recovery : bool) : M Store :=
  limits ← lift (StoreLimits_validate limits);
  released ← (if terminal_recovery then
                released ← release_preopen_recovery_headroom;
                reject (negb released) StateConflict;; mret true
              else mret false);
  connection_open;;
  configure_connection limits;;
  initialize_or_validate_schema (fingerprint verifier) (integrity_fingerprint key);;
  let store := {| store_limits := limits; store_verifier := verifier; store_key := key;
                  store_opener_released := released |} in
  integrity_check store;;
  mret store.

Definition open (verifier : TransactionAuthorityVerifier) (key : SqliteIntegrityKey) : M Store :=
  open_with_limits_mode StoreLimits_default verifier key false.
Definition open_with_limits (limits : StoreLimits) (verifier : TransactionAuthorityVerifier)
    (key : SqliteIntegrityKey) : M Store :=
  open_with_limits_mode limits verifier key false.
Definition open_for_terminal_recovery_with_limits (limits : StoreLimits)
    (verifier : TransactionAuthorityVerifier) (key : SqliteIntegrityKey) : M Store :=
  open_with_limits_mode limits verifier key true.
Definition open_for_terminal_recovery (verifier : TransactionAuthorityVerifier)
    (key : SqliteIntegrityKey) : M Store :=
  open_for_terminal_recovery_with_limits StoreLimits_default verifier key.

Definition settings : M SqliteSettings :=
  journal_mode ← query (λ db, pr_journal_mode (pragmas db));
  synchronous ← query (λ db, pr_synchronous (pragmas db));
  foreign_keys ← query (λ db, pr_foreign_keys (pragmas db));
  trusted_schema ← query (λ db, pr_trusted_schema (pragmas db));
  application_id ← query (λ db, pr_application_id (pragmas db));
  user_version ← query (λ db, pr_user_version (pragmas db));
  max_page_count ← query (λ db, pr_max_page_count (pragmas db));
  mret {| ss_journal_mode := journal_mode; ss_synchronous := synchronous;
          ss_foreign_keys := foreign_keys; ss_trusted_schema := trusted_schema;
          ss_application_id := application_id; ss_user_version := user_version;
          ss_max_page_count := max_page_count |}.
End open.
