(* ===== verification/Scenario.v ===== *)
(** * A concrete store

    A database freshly migrated, a store opened on it, a fault-free
    environment and the requests of one transaction, evaluated with the
    checksum instance of [CryptoModel].  The witnesses of the store theorems
    run on these values. *)

From Stdlib Require Import ZArith Lia.
From Stdlib Require Import Strings.Byte.
From stdpp Require Import base numbers gmap strings list fin_maps sorting.
From S2P Require Import Prelude Text Core Digest Binding Authority Sqlite Integrity.
From S2P Require Import Validation Store CryptoModel.

Set Default Goal Selector "!".

#[export] Instance demo_migrations : Migrations := {|
  MIGRATION_V1 := "CREATE TABLE transactions";
  MIGRATION_V2 := "DROP TRIGGER IF EXISTS audit_reservations_filesystem_release";
  schema_batch text l :=
    if bool_decide (text = "CREATE TABLE transactions")
    then Ok (l ++ [{| so_type := "table"; so_name := "transactions"; so_tbl_name := "transactions";
                      so_sql := "CREATE TABLE transactions" |}])
    else Ok l;
|}.

Definition demo_key : SqliteIntegrityKey := {| integrity_key_bytes := replicate 32 Byte.x07 |}.
Definition demo_authority : TransactionAuthorityKey :=
  {| authority_key_bytes := replicate 32 Byte.x09 |}.
Definition demo_signer : TransactionAuthoritySigner := fst (TransactionAuthorityKey_split demo_authority).
Definition demo_verifier : TransactionAuthorityVerifier := snd (TransactionAuthorityKey_split demo_authority).

Definition demo_limits : StoreLimits :=
  {| max_transactions := 4; max_generations := 8; max_audit_events := 32; max_pages := 4096 |}.

Definition demo_store : Store :=
  {| store_limits := demo_limits; store_verifier := demo_verifier; store_key := demo_key;
     store_opener_released := false |}.

Definition demo_pragmas : Pragmas :=
  {| pr_journal_mode := "wal"; pr_synchronous := 2; pr_foreign_keys := 1; pr_trusted_schema := 0;
     pr_recursive_triggers := 1; pr_no_ckpt_on_close := true; pr_page_size := 4096;
     pr_max_page_count := 4096; pr_application_id := APPLICATION_ID;
     pr_user_version := SCHEMA_VERSION |}.

Definition demo_db : Database :=
  {| transactions := ∅; generations := ∅; audit_events := ∅; audit_reservations := ∅;
     authority_store_identity :=
       Some (fingerprint demo_verifier, integrity_fingerprint demo_key);
     schema_migrations :=
       {[MIGRATION_ID := migration_v1_checksum; MIGRATION_V2_ID := migration_v2_checksum]};
     schema_objects :=
       [{| so_type := "table"; so_name := "transactions"; so_tbl_name := "transactions";
           so_sql := "CREATE TABLE transactions" |}];
     pragmas := demo_pragmas |}.

(** No statement fails, the clock reads 1000 ms. *)
Definition demo_env : Env :=
  {| env_fault := λ _, None;
     env_fs_reserve_slots := λ _ _, 1%Z;
     env_validate_filesystem_reserve := λ _ _ _ _, Ok tt;
     env_now_unix_ms := λ _, Some 1000%Z;
     env_pragma_integrity_check := λ _, "ok";
     env_journal_mode_wal := λ _, "wal";
     env_set_max_page_count := λ _ n, n;
     env_register_reserve_functions := λ _ _, Ok tt;
     env_release_headroom := λ _, Ok true |}.

Definition demo_session (db : Database) : Session :=
  {| sess_db := db; sess_step := 0; sess_in_transaction := false |}.

Definition demo_digest (name : string) : ContentDigest := digest_bytes "demo" (as_bytes name).

Definition demo_approval : ApprovalAuthority :=
  {| aa_evidence_id := "evidence:1"; aa_request_id := "approval:1"; aa_approver := "uid:1000";
     aa_approval_class := "interactive-user"; aa_issued_at_unix_seconds := 10;
     aa_expires_at_unix_seconds := 20 |}.

Definition demo_binding_result : result TransactionValidationError AuthorityBinding :=
  AuthorityBinding_try_new "uid:1000" "request:demo" "plan:demo" (demo_digest "request")
    (demo_digest "precondition") (demo_digest "observation") "systemd" "systemd:unit:sshd.service"
    "systemd.unit.manage" "policy:baseline" "policy:baseline:v1" SystemMutation "risk:v1"
    ["rule:b"; "rule:a"] (demo_digest "review") (Approval demo_approval).

Definition result_or {E A} (d : A) (r : result E A) : A :=
  match r with Ok a => a | Err _ => d end.

Definition demo_dummy_binding : AuthorityBinding :=
  {| ab_principal := ""; ab_request_id := ""; ab_plan_id := ""; ab_request_digest := "";
     ab_precondition_digest := ""; ab_observation_digest := ""; ab_provider := "";
     ab_resource := ""; ab_capability := ""; ab_policy_id := ""; ab_policy_revision_id := "";
     ab_trusted_risk := ReadOnly; ab_risk_policy_revision := ""; ab_risk_rule_ids := [];
     ab_review_digest := ""; ab_authorization := PolicyAllow; ab_canonical := [];
     ab_digest := "" |}.

Definition demo_binding : AuthorityBinding := result_or demo_dummy_binding demo_binding_result.

(** The database after running [m] on [db] without faults. *)
Definition run_db {A} (m : M A) (db : Database) : Database :=
  sess_db (fst (m demo_env (demo_session db))).
Definition run_result {A} (m : M A) (db : Database) : result TransactionStoreError A :=
  snd (m demo_env (demo_session db)).

Definition dummy_handoff : HandoffRequest :=
  {| hr_transaction_id := ""; hr_expected_generation := 0; hr_expected_state_version := 0;
     hr_expected_binding_digest := ""; hr_authority_use_digest := "";
     hr_authorized_at_unix_ms := 0; hr_expires_at_unix_ms := 0; hr_authority_tag := [] |}.
Definition dummy_commit : CommitRequest :=
  {| cr_transaction_id := ""; cr_expected_generation := 0; cr_expected_state_version := 0;
     cr_expected_binding_digest := ""; cr_desired_state_digest := ""; cr_graph_digest := "";
     cr_provenance_digest := ""; cr_authority_tag := [] |}.
Definition dummy_recovery : RecoveryRequest :=
  {| rr_transaction_id := ""; rr_expected_generation := 0; rr_expected_state_version := 0;
     rr_expected_binding_digest := ""; rr_authorized_at_unix_ms := 0; rr_expires_at_unix_ms := 0;
     rr_resolution := Ambiguous ""; rr_authority_tag := [] |}.

Definition demo_id : TransactionId := AuthorityBinding_transaction_id demo_binding.
(** The snapshots the control side holds as the transaction advances. *)
Definition snap_prepared : TransactionSnapshot := created_snapshot demo_binding.
Definition snap_indeterminate : TransactionSnapshot := snapshot_with snap_prepared Indeterminate 2.
Definition snap_verified : TransactionSnapshot := snapshot_with snap_prepared Verified 3.

(** The states of one transaction, from the fresh database on. *)
Definition db_prepared : Database := run_db (prepare demo_store demo_binding) demo_db.
Definition demo_handoff : HandoffRequest :=
  result_or dummy_handoff
    (authorize_handoff demo_signer snap_prepared (demo_digest "use") 900 1100).
Definition db_indeterminate : Database := run_db (handoff demo_store demo_handoff) db_prepared.
Definition demo_recovery (r : RecoveryResolution) : RecoveryRequest :=
  result_or dummy_recovery
    (authorize_recovery demo_signer snap_indeterminate r 900 1100).
Definition demo_verified : RecoveryRequest :=
  demo_recovery (IntendedStateVerified (demo_digest "post") (demo_digest "desired")
                   (demo_digest "graph") (demo_digest "provenance")).
Definition db_verified : Database := run_db (recover demo_store demo_verified) db_indeterminate.
Definition demo_commit : CommitRequest :=
  result_or dummy_commit
    (authorize_commit demo_signer snap_verified (demo_digest "desired")
       (demo_digest "graph") (demo_digest "provenance")).
Definition db_committed : Database := run_db (commit demo_store demo_commit) db_verified.
Definition demo_absent : RecoveryRequest :=
  demo_recovery (IntendedEffectAbsent (demo_digest "post") demo_binding).
Definition db_reprepared : Database := run_db (recover demo_store demo_absent) db_indeterminate.
Definition demo_abort : AbortRequest :=
  {| ar_transaction_id := demo_id; ar_expected_generation := 0; ar_expected_state_version := 1;
     ar_reason_digest := demo_digest "reason" |}.
