(* ===== verification/Run.v ===== *)
(** * Reasoning about runs of the statement monad

    Inversion lemmas for successful runs, the atomicity of
    [immediate_transaction], and the class of computations that do not change
    the database. *)

From Stdlib Require Import ZArith Lia.
From stdpp Require Import base numbers gmap strings list fin_maps sorting.
From S2P Require Import Prelude Text Core Digest Binding Authority Sqlite Validation.

Set Default Goal Selector "!".

(** [m] ran from [s] to [s'] and returned [a]. *)
Definition runs {A} (m : M A) (env : Env) (s : Session) (s' : Session) (a : A) : Prop :=
  m env s = (s', Ok a).

Section runs.
Context `{Crypto} {env : Env}.

Lemma runs_ret {A} (a b : A) s s' : runs (mret a) env s s' b ↔ s' = s ∧ b = a.
Proof. unfold runs, mret, M_ret. naive_solver. Qed.

Lemma runs_bind {A B} (m : M A) (f : A → M B) s s' b :
  runs (m ≫= f) env s s' b ↔ ∃ s1 a, runs m env s s1 a ∧ runs (f a) env s1 s' b.
Proof.
  unfold runs, mbind, M_bind. destruct (m env s) as [s1 [a|e]]; naive_solver.
Qed.

Lemma runs_lift {A} (r : result TransactionStoreError A) s s' a :
  runs (lift r) env s s' a ↔ s' = s ∧ r = Ok a.
Proof. unfold runs, lift. naive_solver. Qed.

Lemma runs_reject c e s s' u : runs (reject c e) env s s' u ↔ s' = s ∧ c = false.
Proof. unfold reject. rewrite runs_lift, reject_if_Ok. done. Qed.

Lemma runs_fail {A} e s s' (a : A) : ¬ runs (fail e) env s s' a.
Proof. unfold runs, fail. naive_solver. Qed.

Lemma runs_query {A} (f : Database → A) s s' a :
  runs (query f) env s s' a → a = f (sess_db s) ∧ sess_db s' = sess_db s.
Proof.
  unfold runs, query, statement. destruct (env_fault env (sess_step s)); [done|].
  intros [= <- <-]. done.
Qed.

Lemma runs_execute (f : Database → result SqliteError Database) s s' u :
  runs (execute f) env s s' u → f (sess_db s) = Ok (sess_db s').
Proof.
  unfold runs, execute, statement. destruct (env_fault env (sess_step s)); [done|].
  destruct (f (sess_db s)); cbn; [|done]. by intros [= <-].
Qed.

Lemma runs_execute_count (f : Database → result SqliteError (Z * Database)) s s' n :
  runs (execute_count f) env s s' n → f (sess_db s) = Ok (n, sess_db s').
Proof.
  unfold runs, execute_count, statement. destruct (env_fault env (sess_step s)); [done|].
  destruct (f (sess_db s)) as [[m db]|]; [|done]. by intros [= <- <-].
Qed.

Lemma runs_statement {A} (f : Env → nat → Database → result SqliteError (A * Database)) s s' a :
  runs (statement f) env s s' a → f env (sess_step s) (sess_db s) = Ok (a, sess_db s').
Proof.
  unfold runs, statement. destruct (env_fault env (sess_step s)); [done|].
  destruct (f env (sess_step s) (sess_db s)) as [[b db]|]; [|done]. by intros [= <- <-].
Qed.

(** A successful immediate transaction is a successful run of its body. *)
Lemma runs_immediate {A} (body : M A) s s' a :
  runs (immediate_transaction body) env s s' a →
  ∃ s0 s1, sess_db s0 = sess_db s ∧ runs body env s0 s1 a ∧ sess_db s' = sess_db s1.
Proof.
  unfold runs, immediate_transaction. destruct (env_fault env (sess_step s)); [done|].
  destruct (body _ _) as [s1 [b|e]] eqn:E; [|done].
  destruct (env_fault env (sess_step s1)); [done|]. intros [= <- <-].
  eexists _, s1. split; [|split; [exact E|done]]. done.
Qed.

(** Any failure, of the body or of the commit, rolls the database back. *)
Lemma immediate_transaction_atomic {A} (body : M A) s s' e :
  immediate_transaction body env s = (s', Err e) → sess_db s' = sess_db s.
Proof.
  unfold immediate_transaction. destruct (env_fault env (sess_step s)); [by intros [= <- <-]|].
  destruct (body _ _) as [s1 [b|e']]; [|by intros [= <- <-]].
  destruct (env_fault env (sess_step s1)); by intros [= <- <-].
Qed.
End runs.

(** ** Read-only computations *)

Class ReadOnlyM {A} (m : M A) : Prop :=
  readonly : ∀ env s, sess_db (fst (m env s)) = sess_db s.

Lemma runs_readonly {A} (m : M A) `{!ReadOnlyM m} env s s' a :
  runs m env s s' a → sess_db s' = sess_db s.
Proof. intros E. rewrite <- (readonly (m:=m) env s). unfold runs in E. by rewrite E. Qed.

Section readonly_instances.
Context `{Crypto}.

#[export] Instance ro_ret {A} (a : A) : ReadOnlyM (mret a).
Proof. done. Qed.
#[export] Instance ro_lift {A} (r : result _ A) : ReadOnlyM (lift r).
Proof. done. Qed.
#[export] Instance ro_fail {A} e : ReadOnlyM (A:=A) (fail e).
Proof. done. Qed.
#[export] Instance ro_reject c e : ReadOnlyM (reject c e).
Proof. done. Qed.
#[export] Instance ro_bind {A B} (m : M A) (f : A → M B) :
  ReadOnlyM m → (∀ a, ReadOnlyM (f a)) → ReadOnlyM (m ≫= f).
Proof.
  intros Hm Hf env s. cbn. unfold mbind, M_bind. specialize (Hm env s).
  destruct (m env s) as [s1 [a|e]]; cbn in *; [|done]. by rewrite (Hf a env s1).
Qed.
#[export] Instance ro_query {A} (f : Database → A) : ReadOnlyM (query f).
Proof. intros env s. unfold query, statement. by destruct (env_fault env (sess_step s)). Qed.
#[export] Instance ro_immediate {A} (m : M A) : ReadOnlyM m → ReadOnlyM (immediate_transaction m).
Proof.
  intros Hm env s. unfold immediate_transaction.
  destruct (env_fault env (sess_step s)); [done|].
  match goal with |- context [m env ?s0] => pose proof (Hm env s0) as Hs end.
  destruct (m _ _) as [s1 [a|e]]; cbn in *; [|done]. by destruct (env_fault env (sess_step s1)).
Qed.
#[export] Instance ro_catch {A} (m : M A) h :
  ReadOnlyM m → (∀ e, ReadOnlyM (h e)) → ReadOnlyM (catch m h).
Proof.
  intros Hm Hh env s. unfold catch. specialize (Hm env s).
  destruct (m env s) as [s1 [a|e]]; cbn in *; [done|]. by rewrite (Hh e env s1).
Qed.
End readonly_instances.

(** Solves [ReadOnlyM m] by the shape of [m]. *)
Ltac solve_readonly :=
  repeat first
    [ progress (intros; cbv beta zeta)
    | match goal with
      | |- ReadOnlyM (match ?x with _ => _ end) => destruct x
      end
    | apply _
    | apply ro_bind
    | apply ro_catch
    | apply ro_immediate ].

(** [run_inv] decomposes hypotheses [runs m env s s' a]. *)
Ltac run_inv_step :=
  match goal with
  | H : runs (_ ≫= _) _ _ _ _ |- _ =>
      apply runs_bind in H; destruct H as (? & ? & ? & H)
  | H : runs (mret _) _ _ _ _ |- _ => apply runs_ret in H; destruct H; subst
  | H : runs (lift _) _ _ _ _ |- _ => apply runs_lift in H; destruct H; subst
  | H : runs (reject _ _) _ _ _ _ |- _ => apply runs_reject in H; destruct H; subst
  | H : runs (fail _) _ _ _ _ |- _ => exfalso; revert H; apply runs_fail
  | H : runs (query _) _ _ _ _ |- _ => apply runs_query in H; destruct H; subst
  | H : runs (if ?b then _ else _) _ _ _ _ |- _ => destruct b eqn:?
  end.
Ltac run_inv := repeat run_inv_step.

(** * Contiguous child tables

    The generations, audit events and reservations of one transaction are
    numbered from 0 without gaps.  [contig t id l] says that the rows of
    transaction [id] in the table [t] are exactly [l], numbered by position;
    the lemmas relate it to the sorted query [rows_of] and to the updates the
    store makes. *)

Section contig.
Context {V : Type}.
Implicit Types (t : gmap (string * Z) V) (l : list V) (id : string) (v : V).

Definition contig t id l : Prop :=
  ∀ k v, t !! (id, k) = Some v ↔ (0 ≤ k)%Z ∧ l !! Z.to_nat k = Some v.

(** ** Updates *)

Lemma contig_lookup t id l n v :
  contig t id l → l !! n = Some v → t !! (id, Z.of_nat n) = Some v.
Proof. intros Hc Hl. apply Hc. rewrite Nat2Z.id. split; [lia|done]. Qed.

Lemma contig_lookup_None t id l k :
  contig t id l → (Z.of_nat (length l) ≤ k)%Z → t !! (id, k) = None.
Proof.
  intros Hc Hk. destruct (t !! (id, k)) eqn:E; [|done].
  apply Hc in E as [_ E]. apply lookup_lt_Some in E. lia.
Qed.

Lemma contig_snoc t id l v :
  contig t id l → contig (<[(id, Z.of_nat (length l)) := v]> t) id (l ++ [v]).
Proof.
  intros Hc k w. rewrite lookup_insert. case_decide as E.
  - injection E as <-. rewrite Nat2Z.id, lookup_app_r, Nat.sub_diag by lia. cbn.
    split; [naive_solver lia|naive_solver].
  - rewrite (Hc k w). split; intros [Hk Hl]; (split; [done|]).
    + by apply lookup_app_l_Some.
    + apply lookup_app_Some in Hl as [Hl|[Hlen Hl]]; [done|].
      apply list_lookup_singleton_Some in Hl as [Hz _]. exfalso. apply E. f_equal. lia.
Qed.

Lemma contig_update t id l n v :
  contig t id l → (n < length l)%nat →
  contig (<[(id, Z.of_nat n) := v]> t) id (<[n := v]> l).
Proof.
  intros Hc Hn k w. rewrite lookup_insert. case_decide as E.
  - injection E as <-. rewrite Nat2Z.id, list_lookup_insert_eq by done. naive_solver lia.
  - rewrite (Hc k w). split; intros [Hk Hl]; (split; [done|]).
    + rewrite list_lookup_insert_ne; [done|]. intros ->. apply E. f_equal. lia.
    + rewrite list_lookup_insert_ne in Hl; [done|]. intros ->. apply E. f_equal. lia.
Qed.

Lemma contig_delete_last t id l v :
  contig t id (l ++ [v]) → contig (delete (id, Z.of_nat (length l)) t) id l.
Proof.
  intros Hc k w. rewrite lookup_delete. case_decide as E.
  - injection E as <-. rewrite Nat2Z.id, lookup_ge_None_2 by lia. naive_solver.
  - rewrite (Hc k w). split; intros [Hk Hl]; (split; [done|]).
    + apply lookup_app_Some in Hl as [Hl|[Hlen Hl]]; [done|].
      apply list_lookup_singleton_Some in Hl as [Hz _]. exfalso. apply E. f_equal. lia.
    + by apply lookup_app_l_Some.
Qed.

(** Agreement of two tables on one transaction. *)
Definition same_at t t' id : Prop := ∀ k, t' !! (id, k) = t !! (id, k).

Lemma contig_same_at t t' id l : same_at t t' id → contig t id l → contig t' id l.
Proof. intros Hs Hc k v. rewrite (Hs k). apply Hc. Qed.

Lemma same_at_refl t id : same_at t t id.
Proof. done. Qed.
Lemma same_at_trans t1 t2 t3 id : same_at t1 t2 id → same_at t2 t3 id → same_at t1 t3 id.
Proof. intros H1 H2 k. by rewrite H2, H1. Qed.
Lemma same_at_insert t id id' k v : id ≠ id' → same_at t (<[(id', k) := v]> t) id.
Proof. intros Hne j. rewrite lookup_insert_ne; [done|]. naive_solver. Qed.
Lemma same_at_delete t id id' k : id ≠ id' → same_at t (delete (id', k) t) id.
Proof. intros Hne j. rewrite lookup_delete_ne; [done|]. naive_solver. Qed.

Lemma contig_unique t id l1 l2 : contig t id l1 → contig t id l2 → l1 = l2.
Proof.
  intros H1 H2. apply list_eq. intros n. apply option_eq. intros v.
  specialize (H1 (Z.of_nat n) v). specialize (H2 (Z.of_nat n) v). rewrite Nat2Z.id in *.
  rewrite H1 in H2. naive_solver lia.
Qed.

Lemma contig_nil t id : (∀ k, t !! (id, k) = None) → contig t id [].
Proof. intros Hn k v. rewrite Hn. naive_solver. Qed.

(** ** The query *)

Definition numbered l : list (Z * V) := imap (λ n v, (Z.of_nat n, v)) l.

Lemma rows_of_elem t id k v : (k, v) ∈ rows_of t id ↔ t !! (id, k) = Some v.
Proof.
  unfold rows_of. rewrite merge_sort_Permutation, list_elem_of_omap. split.
  - intros ([[i j] w] & Hin & Hd). cbn in Hd. case_decide; [|done]. simplify_eq/=.
    by apply elem_of_map_to_list.
  - intros Hl. exists ((id, k), v). split; [by apply elem_of_map_to_list|].
    cbn. by rewrite decide_True.
Qed.

Lemma omap_key_NoDup id (kvs : list ((string * Z) * V)) :
  NoDup (kvs.*1) →
  NoDup (omap (λ kv, if decide (fst (fst kv) = id) then Some (snd (fst kv), snd kv) else None) kvs).*1.
Proof.
  induction kvs as [|[[i j] w] kvs IH]; cbn; [constructor|].
  intros [Hn Hnd]%NoDup_cons. case_decide as Hi; cbn; [|by apply IH].
  apply NoDup_cons. split; [|by apply IH]. intros Hin. apply Hn.
  apply list_elem_of_fmap in Hin as ([j' w'] & -> & Hin).
  apply list_elem_of_omap in Hin as ([[i2 j2] w2] & Hin & Hd). cbn in Hd.
  case_decide; [|done]. simplify_eq/=. apply list_elem_of_fmap.
  eexists. split; [|exact Hin]. done.
Qed.

Lemma rows_of_keys_NoDup t id : NoDup (rows_of t id).*1.
Proof.
  unfold rows_of. rewrite merge_sort_Permutation. apply omap_key_NoDup, NoDup_fst_map_to_list.
Qed.

#[local] Instance key_le_trans : Transitive (@key_le V).
Proof. intros [a ?] [b ?] [c ?]. unfold key_le. cbn. lia. Qed.
#[local] Instance key_le_total : Total (@key_le V).
Proof. intros [a ?] [b ?]. unfold key_le. cbn. lia. Qed.

Lemma rows_of_sorted t id : StronglySorted key_le (rows_of t id).
Proof. apply StronglySorted_merge_sort; apply _. Qed.

Lemma sorted_keys_unique (l1 l2 : list (Z * V)) :
  StronglySorted key_le l1 → StronglySorted key_le l2 →
  NoDup l1.*1 → Permutation l1 l2 → l1 = l2.
Proof.
  intros Hs1 Hs2 Hnd Hp. revert l2 Hs2 Hp.
  induction Hs1 as [|[k v] l1 Hs1 IH Hall]; intros l2 Hs2 Hp.
  { symmetry in Hp. by apply Permutation_nil_r in Hp. }
  destruct Hs2 as [|[k2 v2] l2 Hs2 Hall2]; [by apply Permutation_nil_r in Hp|].
  cbn in Hnd. apply NoDup_cons in Hnd as [Hn Hnd].
  assert ((k, v) = (k2, v2)) as [= -> ->].
  { assert ((k2, v2) ∈ (k, v) :: l1) as H1 by (rewrite Hp; left).
    assert ((k, v) ∈ (k2, v2) :: l2) as H2 by (rewrite <- Hp; left).
    apply elem_of_cons in H1 as [->|H1]; [done|]. apply elem_of_cons in H2 as [->|H2]; [done|].
    rewrite Forall_forall in Hall, Hall2. specialize (Hall _ H1). specialize (Hall2 _ H2).
    unfold key_le in *. cbn in *. assert (k2 = k) as -> by lia.
    exfalso. apply Hn. apply list_elem_of_fmap. by exists (k, v2). }
  f_equal. apply IH; [done..|]. by apply Permutation_cons_inv in Hp.
Qed.

Lemma numbered_elem l k v :
  (k, v) ∈ numbered l ↔ (0 ≤ k)%Z ∧ l !! Z.to_nat k = Some v.
Proof.
  unfold numbered. rewrite elem_of_lookup_imap. split.
  - intros (n & w & [= -> ->] & Hl). rewrite Nat2Z.id. split; [lia|done].
  - intros [Hk Hl]. exists (Z.to_nat k), v. split; [f_equal; lia|done].
Qed.

Lemma numbered_snoc l v : numbered (l ++ [v]) = numbered l ++ [(Z.of_nat (length l), v)].
Proof. unfold numbered. rewrite imap_app. cbn. by rewrite Nat.add_0_r. Qed.

Lemma numbered_keys l : (numbered l).*1 = Z.of_nat <$> seq 0 (length l).
Proof.
  induction l as [|v l IH] using rev_ind; [done|].
  rewrite numbered_snoc, length_app, fmap_app, IH. cbn.
  rewrite Nat.add_1_r, seq_S, fmap_app. done.
Qed.

Lemma numbered_sorted l : StronglySorted key_le (numbered l).
Proof.
  induction l as [|v l IH] using rev_ind; [constructor|].
  rewrite numbered_snoc. apply StronglySorted_app_2; [|done|repeat constructor].
  intros [k w] [k' w'] H1 H2. apply list_elem_of_singleton in H2 as [= -> ->].
  apply numbered_elem in H1 as [Hk Hl]. apply lookup_lt_Some in Hl.
  unfold key_le. cbn. lia.
Qed.

(** The sorted query over a contiguous table is the numbered row list. *)
Lemma contig_rows t id l : contig t id l → rows_of t id = numbered l.
Proof.
  intros Hc. apply sorted_keys_unique.
  - apply rows_of_sorted.
  - apply numbered_sorted.
  - apply rows_of_keys_NoDup.
  - apply NoDup_Permutation.
    + eapply NoDup_fmap_1, rows_of_keys_NoDup.
    + eapply (NoDup_fmap_1 fst). rewrite numbered_keys. apply NoDup_fmap_2; [apply _|].
      apply NoDup_seq.
    + intros [k v]. rewrite rows_of_elem, numbered_elem. apply Hc.
Qed.

Lemma contig_rows_length t id l : contig t id l → length (rows_of t id) = length l.
Proof. intros Hc. rewrite (contig_rows _ _ _ Hc). apply length_imap. Qed.

Lemma contig_rows_last t id l v :
  contig t id (l ++ [v]) → last (rows_of t id) = Some (Z.of_nat (length l), v).
Proof. intros Hc. rewrite (contig_rows _ _ _ Hc), numbered_snoc. apply last_snoc. Qed.

Lemma contig_rows_snd t id l : contig t id l → (rows_of t id).*2 = l.
Proof.
  intros Hc. rewrite (contig_rows _ _ _ Hc). clear Hc.
  induction l as [|v l IH] using rev_ind; [done|].
  rewrite numbered_snoc, fmap_app, IH. done.
Qed.
End contig.

(** * Total correctness of fault-free runs

    [tw env b m db Q]: in an environment without faults, [m] started on the
    database [db] (inside an immediate transaction when [b]) returns
    successfully, with a database and a value that satisfy [Q].  The rules
    follow the statements of the monad. *)

(** No statement fails and the filesystem reserve answers yes. *)
Record fault_free (env : Env) : Prop := {
  ff_fault : ∀ n, env_fault env n = None;
  ff_slots : ∀ n c, env_fs_reserve_slots env n c = 1%Z;
  ff_reserve : ∀ n p c b, env_validate_filesystem_reserve env n p c b = Ok tt;
  ff_pragma : ∀ n, env_pragma_integrity_check env n = "ok";
}.

Definition tw {A} (env : Env) (b : bool) (m : M A) (db : Database) (Q : Database → A → Prop) : Prop :=
  ∀ s, sess_db s = db → sess_in_transaction s = b →
    ∃ s' a, runs m env s s' a ∧ sess_in_transaction s' = b ∧ Q (sess_db s') a.

Section tw.
Context `{Crypto} {env : Env} (Hff : fault_free env).
Implicit Types (b : bool) (db : Database).

Lemma tw_mono {A} b (m : M A) db (Q Q' : Database → A → Prop) :
  tw env b m db Q → (∀ db a, Q db a → Q' db a) → tw env b m db Q'.
Proof. intros Hm HQ s Hd Hb. destruct (Hm s Hd Hb) as (s' & a & ? & ? & ?). eauto 10. Qed.

Lemma tw_bind {A B} b (m : M A) (f : A → M B) db Q :
  tw env b m db (λ db1 a, tw env b (f a) db1 Q) → tw env b (m ≫= f) db Q.
Proof.
  intros Hm s Hd Hb. destruct (Hm s Hd Hb) as (s1 & a & Hr & Hb1 & Hf).
  destruct (Hf s1 eq_refl Hb1) as (s2 & x & Hr2 & Hb2 & HQ). exists s2, x.
  split; [|done]. apply runs_bind. eauto.
Qed.

Lemma tw_ret {A} b (a : A) db (Q : Database → A → Prop) : Q db a → tw env b (mret a) db Q.
Proof. intros HQ s <- <-. exists s, a. by rewrite runs_ret. Qed.

Lemma tw_lift {A} b (r : result _ A) a db (Q : Database → A → Prop) :
  r = Ok a → Q db a → tw env b (lift r) db Q.
Proof. intros -> HQ s <- <-. exists s, a. by rewrite runs_lift. Qed.

Lemma tw_reject b c e db (Q : Database → unit → Prop) :
  c = false → Q db tt → tw env b (reject c e) db Q.
Proof. intros -> HQ s <- <-. exists s, tt. by rewrite runs_reject. Qed.

Lemma tw_statement {A} b (f : Env → nat → Database → result SqliteError (A * Database)) db db' a
    (Q : Database → A → Prop) :
  (∀ n, f env n db = Ok (a, db')) → Q db' a → tw env b (statement f) db Q.
Proof.
  intros Hf HQ s <- <-. unfold runs, statement. rewrite (ff_fault _ Hff), Hf. by eexists _, _.
Qed.

Lemma tw_query {A} b (f : Database → A) db (Q : Database → A → Prop) :
  Q db (f db) → tw env b (query f) db Q.
Proof. intros HQ. by eapply tw_statement. Qed.

Lemma tw_execute b (f : Database → result SqliteError Database) db db' (Q : Database → unit → Prop) :
  f db = Ok db' → Q db' tt → tw env b (execute f) db Q.
Proof. intros Hf HQ. eapply tw_statement; [|done]. intros _. by rewrite Hf. Qed.

Lemma tw_execute_count b (f : Database → result SqliteError (Z * Database)) db db' n
    (Q : Database → Z → Prop) :
  f db = Ok (n, db') → Q db' n → tw env b (execute_count f) db Q.
Proof. intros Hf HQ. by eapply tw_statement. Qed.

Lemma tw_catch {A} b (m : M A) h db Q : tw env b m db Q → tw env b (catch m h) db Q.
Proof.
  intros Hm s Hd Hb. destruct (Hm s Hd Hb) as (s' & a & Hr & ?). exists s', a.
  split; [|done]. unfold runs, catch in *. by rewrite Hr.
Qed.

Lemma tw_immediate {A} (m : M A) db Q :
  tw env true m db Q → tw env false (immediate_transaction m) db Q.
Proof.
  intros Hm s <- Hb. unfold runs, immediate_transaction. rewrite (ff_fault _ Hff).
  match goal with |- context [m env ?s0] => destruct (Hm s0 eq_refl eq_refl) as (s1 & a & Hr & ? & ?) end.
  unfold runs in Hr. rewrite Hr, (ff_fault _ Hff). by eexists _, _.
Qed.
End tw.

(** One rule of [tw] by the shape of the computation; the premises the shape
    does not decide are left. *)
Ltac tw_step Hff :=
  cbv beta match;
  match goal with
  | |- tw _ _ (_ ≫= _) _ _ => apply tw_bind
  | |- tw _ _ (mret _) _ _ => apply tw_ret
  | |- tw _ _ (reject _ _) _ _ => apply tw_reject
  | |- tw _ _ (query _) _ _ => apply (tw_query Hff)
  | |- tw _ _ (with_immediate_validation _) _ _ => apply (tw_immediate Hff)
  | |- tw _ _ (immediate_transaction _) _ _ => apply (tw_immediate Hff)
  end.
