(* ===== verification/Protocol.v ===== *)
(** * The durable transaction protocol

    An abstract specification of what the store promises: each transaction is
    a state machine over generations, driven by the events its audit trail
    records.  [history l a] says that the event list [l] is a run of the
    machine that ends in [a].  The theorems are safety properties of every
    run; the store is related to the machine in [StoreInvariant] and
    [StoreSpec]. *)

From Stdlib Require Import ZArith Lia.
From stdpp Require Import base numbers gmap strings list fin_maps sorting.
From S2P Require Import Prelude Text Core Digest Binding Authority.

Set Default Goal Selector "!".

(** A generation is live in one of the states of [TransactionState], or has
    just been retired without effect and awaits its replacement. *)
Inductive Phase := Live (s : TransactionState) | Retired.

Record Machine := {
  m_generation : Z;
  m_version : Z;
  m_phase : Phase;
}.

Record Event := {
  ev_kind : string;
  ev_generation : Z;
  ev_version : Z;
}.

#[export] Instance Phase_eq_dec : EqDecision Phase.
Proof. solve_decision. Defined.
#[export] Instance Event_eq_dec : EqDecision Event.
Proof. solve_decision. Defined.

(** The state an event of this kind leads to from each phase. *)
Definition next_phase (p : Phase) (kind : string) : option Phase :=
  match p with
  | Live Prepared =>
      if bool_decide (kind = "handoff-indeterminate") then Some (Live Indeterminate)
      else if bool_decide (kind = "aborted-prepared") then Some (Live Aborted)
      else None
  | Live Indeterminate =>
      if bool_decide (kind = "recovery-verified") then Some (Live Verified)
      else if bool_decide (kind = "recovery-blocked") then Some (Live RecoveryBlocked)
      else if bool_decide (kind = "recovery-ambiguous") then Some (Live Indeterminate)
      else if bool_decide (kind = "recovery-retired-no-effect") then Some Retired
      else None
  | Live Verified =>
      if bool_decide (kind = "committed") then Some (Live Committed) else None
  | Retired =>
      if bool_decide (kind = "recovery-reprepared") then Some (Live Prepared) else None
  | Live Committed | Live Aborted | Live RecoveryBlocked => None
  end.

(** The replacement generation continues at the version of the retirement;
    every other event advances the version and keeps the generation. *)
Definition apply_event (a : Machine) (e : Event) : option Machine :=
  p ← next_phase (m_phase a) (ev_kind e);
  let g := match m_phase a with Retired => m_generation a + 1 | _ => m_generation a end%Z in
  let v := match m_phase a with Retired => m_version a | _ => m_version a + 1 end%Z in
  if bool_decide (ev_generation e = g) && bool_decide (ev_version e = v)
  then Some {| m_generation := g; m_version := v; m_phase := p |}
  else None.

Definition first_event : Event := {| ev_kind := "prepared"; ev_generation := 0; ev_version := 1 |}.
Definition first_machine : Machine :=
  {| m_generation := 0; m_version := 1; m_phase := Live Prepared |}.

Inductive history : list Event → Machine → Prop :=
| history_prepared : history [first_event] first_machine
| history_step l a e a' :
    history l a → apply_event a e = Some a' → history (l ++ [e]) a'.

(** Replaying an event list by computation. *)
Definition replay (l : list Event) : option Machine :=
  match l with
  | [] => None
  | e :: es =>
      if bool_decide (e = first_event)
      then foldl (λ o e, a ← o; apply_event a e) (Some first_machine) es
      else None
  end.

Lemma replay_snoc l e a :
  replay l = Some a → replay (l ++ [e]) = apply_event a e.
Proof.
  destruct l as [|x l]; [done|]. cbn. case_bool_decide; [|done]. intros Hl.
  by rewrite foldl_snoc, Hl.
Qed.

(** The relational and the executable reading of an audit trail agree. *)
Lemma replay_history l a : history l a ↔ replay l = Some a.
Proof.
  split.
  - induction 1 as [|l a e a' Hl IH He]; [done|]. by rewrite (replay_snoc _ _ a).
  - revert a. induction l as [|e l IH] using rev_ind; intros a Hr; [done|].
    destruct l as [|x l].
    + cbn in Hr. case_bool_decide; [|done]. injection Hr as <-. subst. constructor.
    + destruct (replay (x :: l)) as [b|] eqn:Hb.
      * rewrite (replay_snoc _ _ b) in Hr by done. econstructor; [by apply IH|done].
      * exfalso. cbn in Hr, Hb. case_bool_decide; [|done]. rewrite foldl_snoc, Hb in Hr. done.
Qed.

(** ** Counting handoffs *)

Definition is_handoff (g : Z) (e : Event) : bool :=
  bool_decide (ev_kind e = "handoff-indeterminate") && bool_decide (ev_generation e = g).
Definition handoffs (g : Z) (l : list Event) : nat := length (filter (λ e, is_handoff g e = true) l).

Lemma handoffs_snoc g l e :
  handoffs g (l ++ [e]) = (handoffs g l + if is_handoff g e then 1 else 0)%nat.
Proof.
  unfold handoffs. rewrite filter_app, length_app. f_equal. cbn.
  destruct (is_handoff g e) eqn:E; [by rewrite decide_True by done|by rewrite decide_False by congruence].
Qed.

Lemma apply_event_Some a e a' :
  apply_event a e = Some a' →
  next_phase (m_phase a) (ev_kind e) = Some (m_phase a') ∧
  ev_generation e = m_generation a' ∧ ev_version e = m_version a' ∧
  m_generation a' = (match m_phase a with Retired => m_generation a + 1 | _ => m_generation a end)%Z ∧
  m_version a' = (match m_phase a with Retired => m_version a | _ => m_version a + 1 end)%Z.
Proof.
  unfold apply_event. destruct (next_phase _ _) as [p|]; [|done]. cbn.
  case_bool_decide as Hg; [|done]. case_bool_decide as Hv; [|done]. cbn.
  intros [= <-]. done.
Qed.

Lemma apply_live g v s kind p :
  next_phase (Live s) kind = Some p →
  apply_event {| m_generation := g; m_version := v; m_phase := Live s |}
    {| ev_kind := kind; ev_generation := g; ev_version := v + 1 |}
  = Some {| m_generation := g; m_version := v + 1; m_phase := p |}.
Proof.
  intros Hn. unfold apply_event. cbn [m_phase ev_kind]. rewrite Hn. cbn.
  by rewrite !bool_decide_eq_true_2.
Qed.

Lemma apply_retired g v :
  apply_event {| m_generation := g; m_version := v; m_phase := Retired |}
    {| ev_kind := "recovery-reprepared"; ev_generation := g + 1; ev_version := v |}
  = Some {| m_generation := g + 1; m_version := v; m_phase := Live Prepared |}.
Proof. unfold apply_event. cbn. by rewrite !bool_decide_eq_true_2. Qed.

(** The transitions of [next_phase], as a relation. *)
Inductive transition : Phase → string → Phase → Prop :=
| tr_handoff : transition (Live Prepared) "handoff-indeterminate" (Live Indeterminate)
| tr_abort : transition (Live Prepared) "aborted-prepared" (Live Aborted)
| tr_verified : transition (Live Indeterminate) "recovery-verified" (Live Verified)
| tr_blocked : transition (Live Indeterminate) "recovery-blocked" (Live RecoveryBlocked)
| tr_ambiguous : transition (Live Indeterminate) "recovery-ambiguous" (Live Indeterminate)
| tr_retired : transition (Live Indeterminate) "recovery-retired-no-effect" Retired
| tr_committed : transition (Live Verified) "committed" (Live Committed)
| tr_reprepared : transition Retired "recovery-reprepared" (Live Prepared).

Lemma next_phase_transition p k p' : next_phase p k = Some p' ↔ transition p k p'.
Proof.
  split; [|by destruct 1].
  destruct p as [[]|]; cbn; repeat case_bool_decide; intros [= <-]; subst; constructor.
Qed.

Definition handoffs_expected (p : Phase) : nat :=
  match p with Live Prepared | Live Aborted => 0 | _ => 1 end.

(** Exactly one handoff in the current generation once it has left
    [Prepared] (none if it was aborted before), at most one in every earlier
    generation, none in later ones. *)
Lemma history_handoffs l a :
  history l a →
  handoffs (m_generation a) l = handoffs_expected (m_phase a) ∧
  (∀ g, (m_generation a < g)%Z → handoffs g l = 0%nat) ∧
  (∀ g, (handoffs g l ≤ 1)%nat).
Proof.
  induction 1 as [|l a e a' Hl (IHc & IHn & IHa) He].
  { split; [done|]. split; intros g; [done|].
    assert (handoffs g [first_event] = 0%nat) as -> by done. lia. }
  apply apply_event_Some in He as (Hp%next_phase_transition & Hg & _ & Hg' & _).
  assert (∀ g, handoffs g (l ++ [e]) = (handoffs g l +
      if bool_decide (ev_kind e = "handoff-indeterminate") then
        if bool_decide (m_generation a' = g) then 1 else 0 else 0)%nat) as Hh.
  { intros g. rewrite handoffs_snoc. unfold is_handoff. rewrite Hg. by repeat case_bool_decide. }
  inversion Hp as [Ha Hk Ha'|Ha Hk Ha'|Ha Hk Ha'|Ha Hk Ha'|Ha Hk Ha'|Ha Hk Ha'|Ha Hk Ha'|Ha Hk Ha'];
    rewrite <- Ha in Hg', IHc; rewrite <- Hk, Hg' in Hh; rewrite Hg'; cbn in IHc.
  1: { assert (∀ g, handoffs g (l ++ [e]) =
         (handoffs g l + if bool_decide (m_generation a = g) then 1 else 0)%nat) as Hh' by exact Hh.
       clear Hh. setoid_rewrite Hh'. rewrite IHc. split_and!.
       - by rewrite bool_decide_eq_true_2.
       - intros g Hlt. rewrite IHn by done. case_bool_decide; [lia|done].
       - intros g. case_bool_decide as Hgg; [subst; rewrite IHc; lia|]. pose proof (IHa g). lia. }
  all: assert (∀ g, handoffs g (l ++ [e]) = handoffs g l) as Hh'
    by (intros g; rewrite Hh; apply Nat.add_0_r); clear Hh; setoid_rewrite Hh'.
  7: { split_and!; [rewrite IHn by lia; done|intros g ?; apply IHn; lia|done]. }
  all: split_and!; [by rewrite IHc|done|done].
Qed.

Definition is_terminal (s : TransactionState) : bool :=
  match s with Committed | Aborted | RecoveryBlocked => true | _ => false end.

Lemma terminal_no_event a e s :
  m_phase a = Live s → is_terminal s = true → apply_event a e = None.
Proof. intros Hp Ht. unfold apply_event. rewrite Hp. by destruct s. Qed.

(** A committed run ends with the verification of the generation it commits. *)
Lemma history_committed l a :
  history l a → m_phase a = Live Committed →
  ∃ l', l = l' ++ [{| ev_kind := "recovery-verified"; ev_generation := m_generation a;
                      ev_version := m_version a - 1 |};
                   {| ev_kind := "committed"; ev_generation := m_generation a;
                      ev_version := m_version a |}].
Proof.
  destruct 1 as [|l a e a' Hl He]; [done|]. intros Hc.
  apply apply_event_Some in He as (Hp%next_phase_transition & Hg & Hv & Hg' & Hv').
  rewrite Hc in Hp. inversion Hp as [| | | | | |Ha Hk|]; subst. rewrite <- Ha in Hg', Hv'.
  destruct Hl as [|l b e2 a Hl He2]; [done|].
  apply apply_event_Some in He2 as (Hp2%next_phase_transition & Hg2 & Hv2 & Hg2' & Hv2').
  rewrite <- Ha in Hp2. inversion Hp2 as [| |Hb Hk2| | | | |]; subst. rewrite <- Hb in Hg2', Hv2'.
  exists l. rewrite <- app_assoc. cbn. do 3 f_equal.
  - destruct e2 as [k2 g2 v2]. cbn in *. subst. f_equal; lia.
  - destruct e as [k g v]. cbn in *. subst. done.
Qed.

Lemma history_version l a : history l a → (1 ≤ m_version a ≤ Z.of_nat (length l))%Z ∧ (0 ≤ m_generation a)%Z.
Proof.
  induction 1 as [|l a e a' Hl [IHv IHg] He]; [cbn; lia|].
  apply apply_event_Some in He as (_ & _ & _ & Hg' & Hv'). rewrite length_app. cbn.
  destruct (m_phase a); lia.
Qed.
