(* ===== verification/StoreInvariant.v ===== *)
(** * The invariant of the authority database

    [tx_ok] is the well-formedness of one transaction: its pointer row, its
    generations, its audit trail and its reservations.  The trail is a run of
    the protocol machine ending in the current state.  [db_inv] asks it of
    every transaction, with no orphan rows and the capacity bounds. *)

From Stdlib Require Import ZArith Lia.
From Stdlib Require Import Strings.Byte.
From stdpp Require Import base numbers gmap strings list fin_maps sorting.
From S2P Require Import Prelude Text Core Digest Binding Authority Sqlite Integrity.
From S2P Require Import Validation Store Run Protocol.

Set Default Goal Selector "!".

Definition event_of (e : StoredAuditEvent) : Event :=
  {| ev_kind := sa_event_kind e; ev_generation := sa_generation e;
     ev_version := sa_state_version e |}.

(** The digest the next event of a trail must link to. *)
Definition trail_digest (evs : list StoredAuditEvent) : ContentDigest :=
  match last evs with Some e => sa_event_digest e | None => ContentDigest_zero end.

Definition machine_of (t : StoredTransaction) (s : TransactionState) : Machine :=
  {| m_generation := st_current_generation t; m_version := st_state_version t;
     m_phase := Live s |}.

Definition valid_digest (d : string) : Prop := ContentDigest_new d = Ok d.
#[export] Hint Extern 1 (valid_digest _) =>
  first [apply digest_parts_valid | apply ContentDigest_zero_valid] : linura.

Section invariant.
Context `{Crypto}.
Implicit Types (k : SqliteIntegrityKey) (t : StoredTransaction) (g : StoredGeneration)
  (e : StoredAuditEvent) (db : Database) (id : TransactionId).

(** The commit material a generation in state [s] carries. *)
Definition material_ok (s : TransactionState) g : Prop :=
  match s with
  | Verified | Committed =>
      ∃ d gr p, sg_desired_state_digest g = Some d ∧ sg_graph_digest g = Some gr ∧
        sg_provenance_digest g = Some p ∧ valid_digest d ∧ valid_digest gr ∧ valid_digest p
  | _ => sg_desired_state_digest g = None ∧ sg_graph_digest g = None ∧
         sg_provenance_digest g = None
  end.

Record gen_ok k id (n : nat) (s : TransactionState) g : Prop := {
  go_id : sg_transaction_id g = id;
  go_number : sg_generation g = Z.of_nat n;
  go_state : sg_state g = TransactionState_as_str s;
  go_material : material_ok s g;
  go_digests : valid_digest (sg_binding_digest g) ∧ valid_digest (sg_request_digest g) ∧
    valid_digest (sg_precondition_digest g) ∧ valid_digest (sg_observation_digest g);
  go_binding : sg_binding_digest g
    = digest_bytes "linura.authority-binding.digest.v1" (sg_binding_canonical g);
  go_bounded : (Z.of_nat (length (sg_binding_canonical g)) ≤ MAX_AUTHORITY_BINDING_BYTES)%Z;
  go_tag : sg_integrity_tag g = generation_tag k g;
}.

Record event_ok k id (previous : list StoredAuditEvent) e : Prop := {
  eo_id : sa_transaction_id e = id;
  eo_sequence : sa_event_sequence e = Z.of_nat (length previous);
  eo_range : (0 ≤ sa_generation e)%Z ∧ (1 ≤ sa_state_version e)%Z;
  eo_kind : ∃ s, state_for_event_kind (sa_event_kind e) = Ok s;
  eo_payload : valid_digest (sa_payload_digest e);
  eo_previous : sa_previous_digest e = trail_digest previous;
  eo_digest : sa_event_digest e = audit_digest id (sa_event_sequence e) (sa_generation e)
    (sa_state_version e) (sa_event_kind e) (sa_payload_digest e) (sa_previous_digest e);
  eo_tag : sa_integrity_tag e = audit_tag k e;
}.

Inductive trail_ok k id : list StoredAuditEvent → Prop :=
| trail_nil : trail_ok k id []
| trail_snoc evs e : trail_ok k id evs → event_ok k id evs e → trail_ok k id (evs ++ [e]).

(** The payload of the last event of a committed transaction. *)
Definition commit_payload_ok (s : TransactionState) g e : Prop :=
  s = Committed → ∀ d gr p,
    sg_desired_state_digest g = Some d → sg_graph_digest g = Some gr →
    sg_provenance_digest g = Some p → sa_payload_digest e = commit_payload d gr p.

Definition reserved_slots (s : TransactionState) : nat := if reserves_slot s then 1 else 0.

(** [tx_ok k id t old g evs s]: the transaction row [t] points at the
    generation [g] in state [s], after the retired generations [old], with
    the audit trail [evs]. *)
Record tx_ok k id t (old : list StoredGeneration) g (evs : list StoredAuditEvent)
    (s : TransactionState) : Prop := {
  to_id : st_transaction_id t = id;
  to_namespace : id = TransactionId_for_namespace (st_principal t) (st_request_id t);
  to_principal : PrincipalId_new (st_principal t) = Ok (st_principal t);
  to_request : RequestId_new (st_request_id t) = Ok (st_request_id t);
  to_tag : st_integrity_tag t = transaction_tag k t;
  to_current : st_current_generation t = Z.of_nat (length old);
  to_bound : (st_current_generation t < MAX_TRANSACTION_GENERATIONS)%Z;
  to_old : ∀ n g', old !! n = Some g' → gen_ok k id n Aborted g';
  to_gen : gen_ok k id (length old) s g;
  to_trail : trail_ok k id evs;
  to_history : history (event_of <$> evs) (machine_of t s);
  to_payload : ∀ e, last evs = Some e → commit_payload_ok s g e;
}.

(** Where the rows of transaction [id] are in the database. *)
Record view db id t (gens : list StoredGeneration) (evs : list StoredAuditEvent) (slots : nat)
    : Prop := {
  vw_transaction : transactions db !! id = Some t;
  vw_generations : contig (generations db) id gens;
  vw_events : contig (audit_events db) id evs;
  vw_reservations :
    contig (audit_reservations db) id (replicate slots (2 * pr_page_size (pragmas db))%Z);
}.

Definition tx_view k db id t : Prop :=
  ∃ old g evs s, view db id t (old ++ [g]) evs (reserved_slots s) ∧ tx_ok k id t old g evs s.

Definition no_rows db id : Prop :=
  (∀ n, generations db !! (id, n) = None) ∧ (∀ n, audit_events db !! (id, n) = None) ∧
  (∀ n, audit_reservations db !! (id, n) = None).

(** The settings the operations depend on. *)
Definition page_ok db : Prop :=
  (MIN_SQLITE_PAGE_SIZE ≤ pr_page_size (pragmas db) ≤ MAX_SQLITE_PAGE_SIZE)%Z.

Record db_inv (st : Store) db : Prop := {
  di_page : page_ok db;
  di_tx : ∀ id t, transactions db !! id = Some t → tx_view (store_key st) db id t;
  di_orphan : ∀ id, transactions db !! id = None → no_rows db id;
  di_transactions : (table_count (transactions db) ≤ max_transactions (store_limits st))%Z;
  di_generations : (table_count (generations db) ≤ max_generations (store_limits st))%Z;
  di_audit : (table_count (audit_events db) + nonterminal_count db
              ≤ max_audit_events (store_limits st))%Z;
}.

(** ** Steps on one transaction

    [step_at db db' id dt dg de]: only rows of [id] differ, and the three
    counted tables grew by [dt], [dg] and [de] rows. *)
Record step_at db db' id (dt dg de : Z) : Prop := {
  sp_transactions : ∀ i, i ≠ id → transactions db' !! i = transactions db !! i;
  sp_generations : ∀ i, i ≠ id → same_at (generations db) (generations db') i;
  sp_events : ∀ i, i ≠ id → same_at (audit_events db) (audit_events db') i;
  sp_reservations : ∀ i, i ≠ id → same_at (audit_reservations db) (audit_reservations db') i;
  sp_pragmas : pragmas db' = pragmas db;
  sp_identity : authority_store_identity db' = authority_store_identity db;
  sp_migrations : schema_migrations db' = schema_migrations db;
  sp_objects : schema_objects db' = schema_objects db;
  sp_dt : table_count (transactions db') = (table_count (transactions db) + dt)%Z;
  sp_dg : table_count (generations db') = (table_count (generations db) + dg)%Z;
  sp_de : table_count (audit_events db') = (table_count (audit_events db) + de)%Z;
}.

Lemma step_at_refl db id : step_at db db id 0 0 0.
Proof. constructor; try done; lia. Qed.

Lemma step_at_trans db1 db2 db3 id a b c a' b' c' :
  step_at db1 db2 id a b c → step_at db2 db3 id a' b' c' →
  step_at db1 db3 id (a + a') (b + b') (c + c').
Proof.
  intros [] []. constructor; try congruence; try lia.
  - intros i Hi. rewrite sp_transactions1 by done. by apply sp_transactions0.
  - intros i Hi. eapply same_at_trans; [by apply sp_generations0|by apply sp_generations1].
  - intros i Hi. eapply same_at_trans; [by apply sp_events0|by apply sp_events1].
  - intros i Hi. eapply same_at_trans; [by apply sp_reservations0|by apply sp_reservations1].
Qed.

Lemma view_other db db' id id' t gens evs n a b c :
  step_at db db' id a b c → id' ≠ id → view db id' t gens evs n → view db' id' t gens evs n.
Proof.
  intros Hs Hne [Ht Hg He Hr]. constructor.
  - by rewrite (sp_transactions _ _ _ _ _ _ Hs).
  - eapply contig_same_at; [by apply (sp_generations _ _ _ _ _ _ Hs)|done].
  - eapply contig_same_at; [by apply (sp_events _ _ _ _ _ _ Hs)|done].
  - rewrite (sp_pragmas _ _ _ _ _ _ Hs).
    eapply contig_same_at; [by apply (sp_reservations _ _ _ _ _ _ Hs)|done].
Qed.

Lemma no_rows_other db db' id id' a b c :
  step_at db db' id a b c → id' ≠ id → no_rows db id' → no_rows db' id'.
Proof.
  intros Hs Hne (Hg & He & Hr). split_and!; intros n.
  - by rewrite (sp_generations _ _ _ _ _ _ Hs id' Hne n).
  - by rewrite (sp_events _ _ _ _ _ _ Hs id' Hne n).
  - by rewrite (sp_reservations _ _ _ _ _ _ Hs id' Hne n).
Qed.
End invariant.

(** * What each statement of a transition does

    For every helper of the store: a successful run changes exactly the rows
    of its transaction, in the stated way. *)

Lemma table_count_insert {K V} `{Countable K} (m : gmap K V) i v :
  m !! i = None → table_count (<[i := v]> m) = (table_count m + 1)%Z.
Proof. intros Hi. unfold table_count. rewrite map_size_insert_None by done. lia. Qed.

Lemma table_count_update {K V} `{Countable K} (m : gmap K V) i v w :
  m !! i = Some w → table_count (<[i := v]> m) = table_count m.
Proof. intros Hi. unfold table_count. rewrite map_size_insert, Hi. done. Qed.

Lemma count_reservations_length b c rows m :
  count_reservations b c rows = Ok m → m = (c + Z.of_nat (length rows))%Z.
Proof.
  revert c. induction rows as [|[slot len] rows IH]; intros c; cbn.
  - intros [= <-]. lia.
  - intros HH. ok_inv. rename select (u64_checked_add _ _ = _) into Hc.
    apply u64_checked_add_Some in Hc as [-> _]. rename select (count_reservations _ _ _ = _) into Hr.
    apply IH in Hr. lia.
Qed.

Lemma as_i64_Ok x y : as_i64 x = Ok y ↔ y = x ∧ (x ≤ i64_max)%Z.
Proof. unfold as_i64. destruct (x <=? i64_max)%Z eqn:E; naive_solver lia. Qed.

Section steps.
Context `{CryptoLaws}.
Context {Mg : Migrations} {env : Env}.
Implicit Types (k : SqliteIntegrityKey) (t : StoredTransaction) (g : StoredGeneration)
  (e : StoredAuditEvent) (db : Database) (id : string).

(** ** Reads *)

#[export] Instance ro_page_size : ReadOnlyM page_size.
Proof. unfold page_size. solve_readonly. Qed.
#[export] Instance ro_reservation_bytes : ReadOnlyM reservation_bytes.
Proof. unfold reservation_bytes. solve_readonly. Qed.
#[export] Instance ro_load_last k id : ReadOnlyM (load_last_audit_event k id).
Proof. unfold load_last_audit_event. solve_readonly. Qed.
#[export] Instance ro_load_all k id : ReadOnlyM (load_all_audit_events k id).
Proof. unfold load_all_audit_events. solve_readonly. Qed.
#[export] Instance ro_load_transaction k id : ReadOnlyM (load_transaction k id).
Proof. unfold load_transaction. solve_readonly. Qed.
#[export] Instance ro_load_generation k id n : ReadOnlyM (load_generation k id n).
Proof. unfold load_generation. solve_readonly. Qed.
#[export] Instance ro_load_current k id : ReadOnlyM (load_current k id).
Proof. unfold load_current. solve_readonly. Qed.
#[export] Instance ro_list_ids : ReadOnlyM list_transaction_ids.
Proof. unfold list_transaction_ids. solve_readonly. Qed.
#[export] Instance ro_check_count table mx add : ReadOnlyM (check_count_capacity table mx add).
Proof. unfold check_count_capacity. solve_readonly. Qed.
#[export] Instance ro_check_reserve l a d : ReadOnlyM (check_logical_audit_reserve l a d).
Proof. unfold check_logical_audit_reserve. solve_readonly. Qed.
#[export] Instance ro_window a x : ReadOnlyM (enforce_authority_window a x).
Proof. done. Qed.
#[export] Instance ro_reservations_of k b ids n : ReadOnlyM (validate_reservations_of k b ids n).
Proof.
  revert n. induction ids as [|i ids IH]; intros n; cbn [validate_reservations_of]; [apply _|].
  solve_readonly.
Qed.
#[export] Instance ro_autocommit : ReadOnlyM is_autocommit.
Proof. done. Qed.
#[export] Instance ro_fs_reserve p n b : ReadOnlyM (validate_filesystem_reserve p n b).
Proof. done. Qed.
#[export] Instance ro_physical k b : ReadOnlyM (validate_physical_reservations_locked k b).
Proof. unfold validate_physical_reservations_locked. solve_readonly. Qed.
#[export] Instance ro_reconcile st : ReadOnlyM (reconcile_filesystem_reserve_after_commit st).
Proof. unfold reconcile_filesystem_reserve_after_commit, with_immediate_validation. apply _. Qed.

#[export] Instance ro_list_state_of st q ids : ReadOnlyM (list_state_of st q ids).
Proof.
  induction ids as [|i ids IH]; cbn [list_state_of]; [apply _|]. unfold snapshot. solve_readonly.
Qed.
#[export] Instance ro_generations_from k id cur n (e : Z) :
  ReadOnlyM (validate_generations_from k id cur n e).
Proof.
  revert e. induction n as [|n IH]; intros e; cbn [validate_generations_from]; [apply _|].
  apply ro_bind; [|intros; solve_readonly]. apply ro_catch; [apply _|].
  intros []; unfold not_contiguous; apply _.
Qed.
#[export] Instance ro_generation_history k id cur l : ReadOnlyM (validate_generation_history k id cur l).
Proof. unfold validate_generation_history. solve_readonly. Qed.
#[export] Instance ro_audit_chain k id (g v : Z) l : ReadOnlyM (validate_audit_chain k id g v l).
Proof. unfold validate_audit_chain. solve_readonly. Qed.
#[export] Instance ro_validate_each st ids : ReadOnlyM (validate_each st ids).
Proof. induction ids as [|i ids IH]; cbn [validate_each]; [apply _|]. solve_readonly. Qed.
#[export] Instance ro_pragma : ReadOnlyM pragma_integrity_check.
Proof. intros v s. unfold pragma_integrity_check, statement. by destruct (env_fault _ _). Qed.
#[export] Instance ro_runtime_settings l : ReadOnlyM (validate_runtime_settings l).
Proof. unfold validate_runtime_settings. solve_readonly. Qed.
#[export] Instance ro_schema_identity a i : ReadOnlyM (validate_schema_identity a i).
Proof.
  unfold validate_schema_identity, validate_store_identity, validate_migration_entry,
    schema_fingerprint. solve_readonly.
Qed.
#[export] Instance ro_aggregate table mx : ReadOnlyM (validate_aggregate_capacity table mx).
Proof. unfold validate_aggregate_capacity. solve_readonly. Qed.
#[export] Instance ro_logical_reserve l : ReadOnlyM (validate_logical_audit_reserve l).
Proof. unfold validate_logical_audit_reserve. solve_readonly. Qed.

Lemma runs_reservation_bytes s s' b :
  runs reservation_bytes env s s' b →
  b = (2 * pr_page_size (pragmas (sess_db s)))%Z ∧ sess_db s' = sess_db s.
Proof.
  intros HH. pose proof (runs_readonly _ _ _ _ _ HH) as Hro. split; [|done].
  unfold reservation_bytes, page_size in HH. run_inv.
  repeat match goal with H : ok_or _ _ = Ok _ |- _ => apply ok_or_Ok in H end.
  rename select (u64_try_from _ = _) into Hp. apply u64_try_from_Some in Hp as [-> _].
  rename select (u64_checked_mul _ _ = _) into Hm. unfold u64_checked_mul in Hm.
  case_match; [|done]. injection Hm as <-. lia.
Qed.

Lemma decode_transaction_Ok k r t : decode_transaction k r = Ok t → t = r.
Proof. unfold decode_transaction. intros HH. by ok_inv. Qed.
Lemma decode_generation_Ok k r g : decode_generation k r = Ok g → g = r.
Proof. unfold decode_generation. intros HH. by ok_inv. Qed.
Lemma decode_audit_event_Ok k r e : decode_audit_event k r = Ok e → e = r.
Proof. unfold decode_audit_event. intros HH. by ok_inv. Qed.

Lemma runs_load_transaction k id s s' t :
  runs (load_transaction k id) env s s' t → transactions (sess_db s) !! id = Some t.
Proof.
  unfold load_transaction. intros HH. run_inv.
  destruct (transactions _ !! _) as [r|]; run_inv.
  by match goal with H : decode_transaction _ _ = _ |- _ => apply decode_transaction_Ok in H as -> end.
Qed.

Lemma runs_load_generation k id n s s' g :
  runs (load_generation k id n) env s s' g → generations (sess_db s) !! (id, n) = Some g.
Proof.
  unfold load_generation. intros HH. run_inv.
  match goal with H : as_i64 _ = _ |- _ => apply as_i64_Ok in H as [-> _] end.
  destruct (generations _ !! _) as [r|]; run_inv.
  by match goal with H : decode_generation _ _ = _ |- _ => apply decode_generation_Ok in H as -> end.
Qed.

Lemma runs_load_last k id s s' o :
  runs (load_last_audit_event k id) env s s' o →
  o = snd <$> last (rows_of (audit_events (sess_db s)) id) ∧ sess_db s' = sess_db s.
Proof.
  intros HH. pose proof (runs_readonly _ _ _ _ _ HH) as Hro. split; [|done].
  unfold load_last_audit_event in HH. run_inv.
  destruct (snd <$> last _) as [r|]; run_inv; [|done].
  by match goal with H : decode_audit_event _ _ = _ |- _ => apply decode_audit_event_Ok in H as -> end.
Qed.

Lemma runs_load_current k id s s' t g snap :
  runs (load_current k id) env s s' (t, g, snap) →
  sess_db s' = sess_db s ∧ transactions (sess_db s) !! id = Some t ∧
  generations (sess_db s) !! (id, st_current_generation t) = Some g ∧
  snapshot_from_records t g = Ok snap.
Proof.
  intros HH. pose proof (runs_readonly _ _ _ _ _ HH) as Hro. split; [done|].
  unfold load_current in HH. run_inv; try done. simplify_eq/=.
  rename select (runs (load_transaction _ _) _ _ _ _) into Ht.
  rename select (runs (load_generation _ _ _) _ _ _ _) into Hg.
  pose proof (runs_readonly _ _ _ _ _ Ht) as Hd.
  apply runs_load_transaction in Ht. apply runs_load_generation in Hg. rewrite Hd in Hg. done.
Qed.

(** ** Snapshots of well-formed transactions *)

Definition snapshot_for t (s : TransactionState) g : TransactionSnapshot :=
  {| ts_transaction_id := st_transaction_id t; ts_principal := st_principal t;
     ts_request_id := st_request_id t; ts_current_generation := st_current_generation t;
     ts_state_version := st_state_version t; ts_state := s;
     ts_binding_digest := sg_binding_digest g |}.

Lemma snapshot_tx_ok k id t old g evs s :
  tx_ok k id t old g evs s → snapshot_from_records t g = Ok (snapshot_for t s g).
Proof.
  intros [Hid Hns Hp Hr _ Hcur _ _ [Hgid Hgn Hgs _ (Hbd & _) _ _ _] _ _ _].
  unfold snapshot_from_records. rewrite Hid, Hgid, bool_decide_eq_true_2 by done.
  rewrite Hcur, Hgn, Z.eqb_refl. cbn. rewrite Hns, for_namespace_valid. cbn.
  rewrite Hp. cbn. rewrite Hr. cbn. rewrite bool_decide_eq_true_2 by done. cbn.
  rewrite Hgs, TransactionState_parse_as_str. cbn. rewrite Hbd. cbn.
  unfold snapshot_for. by rewrite Hid, <- Hns, <- Hcur.
Qed.

Lemma load_current_view k id t old g evs s n ss ss' x :
  view (sess_db ss) id t (old ++ [g]) evs n → tx_ok k id t old g evs s →
  runs (load_current k id) env ss ss' x →
  x = (t, g, snapshot_for t s g) ∧ sess_db ss' = sess_db ss.
Proof.
  intros [Ht Hg _ _] Hok HH. destruct x as [[t' g'] snap].
  apply runs_load_current in HH as (Hd & Ht' & Hg' & Hs). split; [|done].
  rewrite Ht in Ht'. injection Ht' as <-.
  rewrite (to_current _ _ _ _ _ _ _ Hok) in Hg'.
  rewrite (contig_lookup _ _ _ (length old) g Hg) in Hg'.
  - injection Hg' as <-. rewrite (snapshot_tx_ok _ _ _ _ _ _ _ Hok) in Hs.
    by injection Hs as <-.
  - rewrite lookup_app_r, Nat.sub_diag by lia. done.
Qed.

(** ** Reservations *)

Lemma runs_insert_reservations id b c slot s s' u t gens evs :
  view (sess_db s) id t gens evs slot →
  b = (2 * pr_page_size (pragmas (sess_db s)))%Z →
  runs (insert_reservations id b c (Z.of_nat slot)) env s s' u →
  view (sess_db s') id t gens evs (slot + c) ∧ step_at (sess_db s) (sess_db s') id 0 0 0.
Proof.
  revert s slot. induction c as [|c IH]; intros s slot Hv Hb HH; cbn [insert_reservations] in HH.
  { run_inv. rewrite Nat.add_0_r. split; [done|apply step_at_refl]. }
  run_inv. repeat match goal with H : as_i64 _ = Ok _ |- _ => apply as_i64_Ok in H as [-> _] end.
  rename select (runs (statement _) _ _ _ _) into Hst. apply runs_statement in Hst.
  unfold insert_audit_reservations, sql_reject in Hst. ok_inv.
  destruct Hv as [Ht Hg He Hr].
  match goal with H : with_audit_reservations _ _ = sess_db ?x |- _ =>
    rename x into s1; symmetry in H; rename H into Hdb end.
  assert (step_at (sess_db s) (sess_db s1) id 0 0 0) as Hstep.
  { rewrite Hdb. constructor; cbn; try done; try lia. intros i Hi. by apply same_at_insert. }
  assert (view (sess_db s1) id t gens evs (S slot)) as Hv1.
  { rewrite Hdb. constructor; cbn; [done..|].
    pose proof (contig_snoc _ _ _ (2 * pr_page_size (pragmas (sess_db s)))%Z Hr) as Hs.
    rewrite length_replicate in Hs. by rewrite <- replicate_S_end in Hs. }
  replace (Z.of_nat slot + 1)%Z with (Z.of_nat (S slot)) in HH by lia.
  apply (IH s1 (S slot)) in HH as [Hv2 Hs2]; [|done|by rewrite Hdb].
  split; [by replace (slot + S c)%nat with (S slot + c)%nat by lia|].
  by apply (step_at_trans _ _ _ _ _ _ _ _ _ _ Hstep Hs2).
Qed.

(** [ensure_audit_reservations] leaves exactly [required] slots. *)
Lemma runs_ensure id required s s' u t gens evs slots :
  view (sess_db s) id t gens evs slots → (0 ≤ required)%Z →
  runs (ensure_audit_reservations id required) env s s' u →
  view (sess_db s') id t gens evs (Z.to_nat required) ∧
  step_at (sess_db s) (sess_db s') id 0 0 0.
Proof.
  intros Hv Hreq HH. unfold ensure_audit_reservations in HH. run_inv.
  rename select (runs reservation_bytes _ _ _ _) into Hb.
  apply runs_reservation_bytes in Hb as [-> Hd1].
  rename select (count_reservations _ _ _ = _) into Hc. apply count_reservations_length in Hc.
  rewrite Hd1, (contig_rows_length _ _ _ (vw_reservations _ _ _ _ _ _ Hv)) in Hc.
  rewrite length_replicate in Hc. cbn in Hc. subst.
  rename select ((required <? _)%Z = false) into Hle. apply Z.ltb_ge in Hle.
  match goal with H : sess_db ?x = sess_db ?y, H' : sess_db ?y = sess_db s |- _ =>
    rename x into s2; assert (sess_db s2 = sess_db s) as Hd2 by congruence end.
  apply (runs_insert_reservations _ _ _ _ _ _ _ t gens evs) in HH as [Hv' Hs'].
  - rewrite Hd2 in Hs'. split; [|done].
    replace (Z.to_nat required) with (slots + Z.to_nat (required - Z.of_nat slots))%nat by lia.
    done.
  - by rewrite Hd2.
  - by rewrite Hd2.
Qed.

(** [consume_audit_reservation] deletes the last slot. *)
Lemma runs_consume id s s' u t gens evs slots :
  view (sess_db s) id t gens evs slots →
  runs (consume_audit_reservation id) env s s' u →
  ∃ m, slots = S m ∧ view (sess_db s') id t gens evs m ∧
    step_at (sess_db s) (sess_db s') id 0 0 0.
Proof.
  intros Hv HH. unfold consume_audit_reservation in HH. run_inv.
  rename select (runs reservation_bytes _ _ _ _) into Hb.
  apply runs_reservation_bytes in Hb as [-> Hd1].
  rename select (runs (execute_count _) _ _ _ _) into He. apply runs_execute_count in He.
  rename select (ok_or _ _ = Ok _) into Hl. apply ok_or_Ok in Hl.
  rename select (negb (_ =? 1)%Z = false) into Hn. apply negb_false_iff, Z.eqb_eq in Hn. subst.
  match goal with H : sess_db ?x = sess_db ?y, H' : sess_db ?y = sess_db s |- _ =>
    rename x into s2; assert (sess_db s2 = sess_db s) as Hd2 by congruence end.
  destruct Hv as [Ht Hg Hev Hr]. rewrite Hd1 in Hl.
  destruct slots as [|m].
  { rewrite (contig_rows _ _ _ Hr) in Hl. done. }
  exists m. split; [done|]. rewrite replicate_S_end in Hr.
  rewrite (contig_rows_last _ _ _ _ Hr), length_replicate in Hl. injection Hl as <-.
  cbn in He. rewrite Hd2 in He. unfold delete_audit_reservations in He.
  case_match; [|done]. injection He as He. rewrite <- He.
  apply contig_delete_last in Hr. rewrite length_replicate in Hr.
  split; constructor; cbn; try done; try lia. intros i Hi. by apply same_at_delete.
Qed.
End steps.
