(* ===== verification/StoreWrites.v ===== *)
(** * The row updates of a transition

    What [append_audit], the generation updates, the pointer update and the
    inserts write, as equations on the rows of the transaction. *)

From Stdlib Require Import ZArith Lia.
From Stdlib Require Import Strings.Byte.
From stdpp Require Import base numbers gmap strings list fin_maps sorting.
From S2P Require Import Prelude Text Core Digest Binding Authority Sqlite Integrity.
From S2P Require Import Validation Store Run Protocol StoreInvariant.

Set Default Goal Selector "!".

Section writes.
Context `{CryptoLaws}.
Context {Mg : Migrations} {env : Env}.
Implicit Types (k : SqliteIntegrityKey) (t : StoredTransaction) (g : StoredGeneration)
  (e : StoredAuditEvent) (db : Database) (id : string).

(** The row [append_audit] inserts after the trail [evs]. *)
Definition event_row k id (evs : list StoredAuditEvent) (generation version : Z)
    (kind : string) (payload : ContentDigest) : StoredAuditEvent :=
  let sequence := Z.of_nat (length evs) in
  let record tag :=
    {| sa_transaction_id := id; sa_event_sequence := sequence; sa_generation := generation;
       sa_state_version := version; sa_event_kind := kind; sa_payload_digest := payload;
       sa_previous_digest := trail_digest evs;
       sa_event_digest := audit_digest id sequence generation version kind payload (trail_digest evs);
       sa_integrity_tag := tag |} in
  record (audit_tag k (record [])).

(** The pointer row after [update_transaction_pointer]. *)
Definition pointer_row k t (generation version : Z) : StoredTransaction :=
  let mk tag :=
    {| st_transaction_id := st_transaction_id t; st_principal := st_principal t;
       st_request_id := st_request_id t; st_current_generation := generation;
       st_state_version := version; st_integrity_tag := tag |} in
  mk (transaction_tag k (mk (st_integrity_tag t))).

(** The generation row after [update_generation_state] and
    [update_generation_to_verified]. *)
Definition generation_row k g (state : TransactionState) (desired graph provenance : option string)
    : StoredGeneration :=
  let mk := generation_with g (TransactionState_as_str state) desired graph provenance in
  mk (generation_tag k (mk (sg_integrity_tag g))).

Lemma event_row_ok k id evs generation version kind payload s :
  (0 ≤ generation)%Z → (1 ≤ version)%Z → state_for_event_kind kind = Ok s →
  valid_digest payload → event_ok k id evs (event_row k id evs generation version kind payload).
Proof. intros. constructor; eauto. Qed.

Lemma trail_last k id evs :
  trail_ok k id evs →
  next_audit_link (last evs) = Ok (Z.of_nat (length evs), trail_digest evs) ∨
  next_audit_link (last evs) = Err CapacityExceeded.
Proof.
  destruct 1 as [|evs e Htr [_ Hs _ _ _ _ Hd _]]; [by left|].
  unfold trail_digest. rewrite last_snoc. cbn [next_audit_link]. rewrite Hd.
  unfold audit_digest. rewrite digest_parts_valid. cbn.
  unfold u64_checked_add. case_match; cbn; [left|by right].
  rewrite length_app. cbn. do 2 f_equal. lia.
Qed.

Lemma runs_consume_if id (consume : bool) s s' u t gens evs slots :
  view (sess_db s) id t gens evs slots →
  runs (if consume then consume_audit_reservation id else mret tt) env s s' u →
  ∃ rest, slots = ((if consume then 1 else 0) + rest)%nat ∧
    view (sess_db s') id t gens evs rest ∧ step_at (sess_db s) (sess_db s') id 0 0 0.
Proof.
  intros Hv HH. destruct consume.
  - destruct (runs_consume _ _ _ _ _ _ _ _ Hv HH) as (m & -> & Hv' & Hs). by exists m.
  - run_inv. exists slots. split_and!; [done..|apply step_at_refl].
Qed.

Lemma runs_append_audit limits k id generation version kind payload consume s s' d t gens evs slots :
  view (sess_db s) id t gens evs slots → trail_ok k id evs →
  runs (append_audit limits k id generation version kind payload consume) env s s' d →
  ∃ rest, slots = ((if consume then 1 else 0) + rest)%nat ∧
    view (sess_db s') id t gens
      (evs ++ [event_row k id evs generation version kind payload]) rest ∧
    step_at (sess_db s) (sess_db s') id 0 0 1.
Proof.
  intros Hv Htr HH. unfold append_audit in HH.
  pose proof (runs_consume_if id consume) as Hc.
  set (con := if consume then consume_audit_reservation id else mret tt) in *. clearbody con.
  run_inv.
  rename select (runs (check_count_capacity _ _ _) _ _ _ _) into Hcap.
  apply runs_readonly in Hcap; [|apply _].
  rename select (runs (load_last_audit_event _ _) _ _ _ _) into Hl.
  apply runs_load_last in Hl as [-> Hd1].
  match goal with x : (Z * ContentDigest)%type |- _ => destruct x as [sequence previous] end.
  run_inv. rename select (next_audit_link _ = _) into Hlink.
  rewrite Hcap, <- fmap_last, (contig_rows_snd _ _ _ (vw_events _ _ _ _ _ _ Hv)) in Hlink.
  destruct (trail_last _ _ _ Htr) as [Hl|Hl]; rewrite Hl in Hlink; [|done].
  injection Hlink as <- <-.
  rename select (runs con _ _ _ _) into Hcon.
  rename select (runs (execute _) _ _ _ _) into Hex.
  match type of Hcon with runs _ _ ?a ?b _ =>
    assert (sess_db a = sess_db s) as Ha by congruence; rewrite <- Ha in Hv |- *;
    destruct (Hc _ _ _ _ _ _ _ Hv Hcon) as (rest & Hslots & Hv' & Hs'); clear Ha Hcon Hv end.
  exists rest. split; [done|].
  apply runs_execute in Hex. unfold insert_audit_events, sql_reject in Hex. ok_inv.
  match goal with H : with_audit_events _ _ = _ |- _ => rewrite <- H end.
  destruct Hv' as [Ht Hg He Hr]. split.
  - constructor; cbn; [done..| |done]. by apply contig_snoc.
  - apply (step_at_trans _ (sess_db x) _ _ 0 0 0 0 0 1 Hs'). constructor; cbn; try done; try lia.
    + intros i Hi. by apply same_at_insert.
    + apply table_count_insert. eapply contig_lookup_None; [exact He|]. cbn. lia.
Qed.

Lemma update_generations_view id g state cd tag db db' t old evs slots :
  view db id t (old ++ [g]) evs slots → sg_transaction_id g = id →
  sg_generation g = Z.of_nat (length old) →
  update_generations g state cd tag db = Ok (1%Z, db') →
  view db' id t
    (old ++ [generation_with g state
               (match cd with Some (d, _, _) => Some d | None => sg_desired_state_digest g end)
               (match cd with Some (_, gr, _) => Some gr | None => sg_graph_digest g end)
               (match cd with Some (_, _, p) => Some p | None => sg_provenance_digest g end)
               tag]) evs slots ∧
  step_at db db' id 0 0 0.
Proof.
  intros [Ht Hg He Hr] Hid Hn. unfold update_generations. rewrite Hid, Hn.
  assert (generations db !! (id, Z.of_nat (length old)) = Some g) as Hlk.
  { eapply contig_lookup; [exact Hg|]. rewrite lookup_app_r, Nat.sub_diag by lia. done. }
  rewrite Hlk. rewrite !bool_decide_eq_true_2 by done. cbn [andb]. unfold sql_reject.
  intros HH. ok_inv. split.
  - constructor; cbn; [done| |done..].
    eapply (contig_update _ _ _ (length old)) in Hg; [|rewrite length_app; cbn; lia].
    rewrite insert_app_r_alt, Nat.sub_diag in Hg by lia. cbn in Hg.
    unfold generation_with. exact Hg.
  - constructor; cbn; try done; try lia.
    + intros i Hi. by apply same_at_insert.
    + rewrite (table_count_update _ _ _ g) by done. lia.
Qed.

Lemma runs_update_generation_state k id g s1 s2 s s' r t old evs slots n :
  view (sess_db s) id t (old ++ [g]) evs slots → gen_ok k id (length old) n g →
  runs (update_generation_state k g s1 s2) env s s' r →
  view (sess_db s') id t
    (old ++ [generation_row k g s2 (sg_desired_state_digest g) (sg_graph_digest g)
               (sg_provenance_digest g)]) evs slots ∧
  step_at (sess_db s) (sess_db s') id 0 0 0.
Proof.
  intros Hv [Hid Hn _ _ _ _ _ _] HH. unfold update_generation_state in HH. run_inv.
  rename select (runs (execute_count _) _ _ _ _) into He. apply runs_execute_count in He.
  rename select (negb (_ =? 1)%Z = false) into Hu. apply negb_false_iff, Z.eqb_eq in Hu. subst.
  eapply update_generations_view in He; [|exact Hv|done|done]. done.
Qed.
Lemma runs_update_generation_to_verified k id g d gr p s s' r t old evs slots n :
  view (sess_db s) id t (old ++ [g]) evs slots → gen_ok k id (length old) n g →
  runs (update_generation_to_verified k g d gr p) env s s' r →
  view (sess_db s') id t
    (old ++ [generation_row k g Verified (Some d) (Some gr) (Some p)]) evs slots ∧
  step_at (sess_db s) (sess_db s') id 0 0 0.
Proof.
  intros Hv [Hid Hn _ _ _ _ _ _] HH. unfold update_generation_to_verified in HH. run_inv.
  rename select (runs (execute_count _) _ _ _ _) into He. apply runs_execute_count in He.
  rename select (negb (_ =? 1)%Z = false) into Hu. apply negb_false_iff, Z.eqb_eq in Hu. subst.
  eapply update_generations_view in He; [|exact Hv|done|done]. done.
Qed.

Lemma runs_update_pointer k id t generation version s s' r gens evs slots :
  view (sess_db s) id t gens evs slots → st_transaction_id t = id →
  runs (update_transaction_pointer k t generation version) env s s' r →
  view (sess_db s') id (pointer_row k t generation version) gens evs slots ∧
  step_at (sess_db s) (sess_db s') id 0 0 0 ∧ (version ≤ i64_max)%Z.
Proof.
  intros [Ht Hg He Hr] Hid HH. unfold update_transaction_pointer in HH. run_inv.
  rename select (runs (execute_count _) _ _ _ _) into Hx. apply runs_execute_count in Hx.
  rename select (negb (_ =? 1)%Z = false) into Hu. apply negb_false_iff, Z.eqb_eq in Hu. subst.
  unfold update_transactions in Hx. rewrite Ht in Hx.
  rewrite !bool_decide_eq_true_2 in Hx by done. cbn [andb] in Hx. unfold sql_reject in Hx.
  ok_inv. match goal with H : with_transactions _ _ = _ |- _ => rewrite <- H end.
  repeat match goal with H : as_i64 _ = Ok _ |- _ => apply as_i64_Ok in H as [_ ?] end.
  split_and!; [| |done].
  - constructor; cbn; [|done..]. rewrite lookup_insert_eq. done.
  - constructor; cbn; try done; try lia.
    + intros i Hi. by rewrite lookup_insert_ne.
    + rewrite (table_count_update _ _ _ t) by done. lia.
Qed.

Lemma runs_insert_generation k id b generation s s' r t gens evs slots :
  view (sess_db s) id t gens evs slots → AuthorityBinding_transaction_id b = id →
  generation = Z.of_nat (length gens) →
  runs (insert_generation k b generation) env s s' r →
  view (sess_db s') id t (gens ++ [new_generation k b generation]) evs slots ∧
  step_at (sess_db s) (sess_db s') id 0 1 0.
Proof.
  intros [Ht Hg He Hr] Hid -> HH. unfold insert_generation in HH. run_inv.
  rename select (runs (execute _) _ _ _ _) into Hx. apply runs_execute in Hx.
  unfold insert_generations, sql_reject in Hx. ok_inv.
  match goal with H : with_generations _ _ = _ |- _ => rewrite <- H end. split.
  - constructor; cbn; [done| |done..]. by apply contig_snoc.
  - constructor; cbn; try done; try lia.
    + intros i Hi. by apply same_at_insert.
    + apply table_count_insert. eapply contig_lookup_None; [exact Hg|]. lia.
Qed.

Lemma runs_insert_fresh t s s' u :
  runs (execute (insert_transactions t)) env s s' u →
  transactions (sess_db s) !! st_transaction_id t = None.
Proof.
  intros Hx%runs_execute. unfold insert_transactions, sql_reject in Hx. ok_inv.
  rename select (identity_conflict _ _ = false) into Hc. unfold identity_conflict in Hc.
  apply orb_false_iff in Hc as [Hc _]. apply bool_decide_eq_false in Hc.
  by rewrite <- eq_None_not_Some in Hc.
Qed.

Lemma runs_insert_transaction t s s' u :
  no_rows (sess_db s) (st_transaction_id t) →
  runs (execute (insert_transactions t)) env s s' u →
  view (sess_db s') (st_transaction_id t) t [] [] 0 ∧
  step_at (sess_db s) (sess_db s') (st_transaction_id t) 1 0 0.
Proof.
  intros (Hg & He & Hr) Hx. pose proof (runs_insert_fresh _ _ _ _ Hx) as Hc.
  apply runs_execute in Hx. unfold insert_transactions, sql_reject in Hx. ok_inv.
  match goal with H : with_transactions _ _ = _ |- _ => rewrite <- H end. split.
  - constructor; cbn; [by rewrite lookup_insert_eq|by apply contig_nil..].
  - constructor; cbn; try done; try lia.
    + intros i Hi. by rewrite lookup_insert_ne.
    + by apply table_count_insert.
Qed.
End writes.

(** * Transitions of one transaction

    The pure part of every operation: the rows it writes form again a
    well-formed transaction, in the next state of the protocol; and the
    effect of a step on the aggregate counters. *)

(** What the types of the transaction crate guarantee of a binding. *)
Record admissible_binding `{Crypto} (b : AuthorityBinding) : Prop := {
  adm_binding : binding_ok b;
  adm_principal : PrincipalId_new (ab_principal b) = Ok (ab_principal b);
  adm_request : RequestId_new (ab_request_id b) = Ok (ab_request_id b);
  adm_digests : valid_digest (ab_request_digest b) ∧ valid_digest (ab_precondition_digest b) ∧
    valid_digest (ab_observation_digest b);
}.

Section tx.
Context `{CryptoLaws}.
Context {Mg : Migrations} {env : Env}.
Implicit Types (k : SqliteIntegrityKey) (t : StoredTransaction) (g : StoredGeneration)
  (e : StoredAuditEvent) (db : Database) (id : string) (b : AuthorityBinding).

Lemma next_phase_kind s kind s' :
  next_phase (Live s) kind = Some (Live s') → state_for_event_kind kind = Ok s'.
Proof. intros Ht%next_phase_transition. by inversion Ht; subst. Qed.

Lemma gen_ok_row k id n s s' g d gr p :
  gen_ok k id n s g → material_ok s' (generation_row k g s' d gr p) →
  gen_ok k id n s' (generation_row k g s' d gr p).
Proof. intros [] Hm. by constructor. Qed.

Lemma binding_digest_valid b : binding_ok b → valid_digest (ab_digest b).
Proof. intros Hb. rewrite (bo_digest _ Hb). auto with linura. Qed.

Lemma gen_ok_new k id b n :
  admissible_binding b → AuthorityBinding_transaction_id b = id →
  gen_ok k id n Prepared (new_generation k b (Z.of_nat n)).
Proof.
  intros [Hb _ _ (?&?&?)] Hid. constructor; try done.
  - split_and!; [by apply binding_digest_valid|done..].
  - apply (bo_digest _ Hb).
  - apply (bo_bounded _ Hb).
Qed.

(** ** Transitions *)

Lemma tx_ok_advance k id t old g g' evs s kind s' payload :
  tx_ok k id t old g evs s → next_phase (Live s) kind = Some (Live s') →
  valid_digest payload → gen_ok k id (length old) s' g' →
  let cur := st_current_generation t in
  let v := (st_state_version t + 1)%Z in
  let e := event_row k id evs cur v kind payload in
  commit_payload_ok s' g' e →
  tx_ok k id (pointer_row k t cur v) old g' (evs ++ [e]) s'.
Proof.
  intros Hok Hn Hp Hg cur v e Hc. pose proof (next_phase_kind _ _ _ Hn) as Hk.
  destruct Hok as [Hid Hns Hpr Hrq _ Hcur Hbd Hold _ Htr Hh _].
  destruct (history_version _ _ Hh) as [Hv Hgn]. cbn in Hv, Hgn.
  constructor; try done.
  - constructor; [done|]. eapply event_row_ok; [| |done|done]; unfold cur, v; lia.
  - rewrite fmap_app. econstructor; [exact Hh|]. by apply apply_live.
  - intros e'. rewrite last_snoc. by intros [= <-].
Qed.

Lemma tx_ok_reprepare k id t old g evs observation b :
  tx_ok k id t old g evs Indeterminate → valid_digest observation →
  admissible_binding b → AuthorityBinding_transaction_id b = id →
  let cur := st_current_generation t in
  let v := (st_state_version t + 1)%Z in
  (cur + 1 < MAX_TRANSACTION_GENERATIONS)%Z →
  let e1 := event_row k id evs cur v "recovery-retired-no-effect" observation in
  let e2 := event_row k id (evs ++ [e1]) (cur + 1) v "recovery-reprepared" (ab_digest b) in
  tx_ok k id (pointer_row k t (cur + 1) v)
    (old ++ [generation_row k g Aborted (sg_desired_state_digest g) (sg_graph_digest g)
               (sg_provenance_digest g)])
    (new_generation k b (cur + 1)) ((evs ++ [e1]) ++ [e2]) Prepared.
Proof.
  intros Hok Ho Hb Hbid cur v Hmax e1 e2.
  destruct Hok as [Hid Hns Hpr Hrq _ Hcur Hbd Hold Hg Htr Hh _].
  destruct (history_version _ _ Hh) as [Hv Hgn]. cbn in Hv, Hgn.
  assert (cur + 1 = Z.of_nat (length old + 1))%Z as Hc1 by (unfold cur; lia).
  constructor; try done.
  - rewrite length_app. cbn. done.
  - intros n g'. rewrite lookup_app_Some. intros [Hl|[Hl Hl']]; [by apply Hold|].
    apply list_lookup_singleton_Some in Hl' as [Hn <-].
    replace n with (length old) by lia. eapply gen_ok_row; [exact Hg|]. apply (go_material _ _ _ _ _ Hg).
  - rewrite length_app. cbn. rewrite Hc1. by apply gen_ok_new.
  - constructor; [constructor; [done|]|].
    + eapply event_row_ok; [| |done|done]; unfold cur, v; lia.
    + eapply event_row_ok; [| |done|apply binding_digest_valid, Hb]; unfold cur, v; lia.
  - rewrite !fmap_app. econstructor; [econstructor; [exact Hh|]|].
    + by apply apply_live.
    + apply apply_retired.
Qed.

Lemma tx_ok_new k b :
  admissible_binding b →
  let id := AuthorityBinding_transaction_id b in
  tx_ok k id (new_transaction k b) [] (new_generation k b 0)
    [event_row k id [] 0 1 "prepared" (ab_digest b)] Prepared.
Proof.
  intros Hb id. constructor; try done.
  - by destruct Hb.
  - by destruct Hb.
  - by apply (gen_ok_new k id b 0).
  - apply (trail_snoc _ _ []); [constructor|].
    eapply event_row_ok; [lia|lia|done|apply binding_digest_valid, Hb].
  - constructor.
Qed.

(** ** The nonterminal counter *)

(** The nonterminal transactions other than [id]. *)
Definition nonterminal_others db id : nat :=
  length (filter (λ kt, is_nonterminal db (snd kt) = true)
            (map_to_list (delete id (transactions db)))).

Lemma nonterminal_count_Some db id t :
  transactions db !! id = Some t →
  nonterminal_count db
  = (Z.of_nat (nonterminal_others db id) + if is_nonterminal db t then 1 else 0)%Z.
Proof.
  intros Ht. unfold nonterminal_count, nonterminal_others.
  rewrite <- (insert_delete_id _ _ _ Ht) at 1.
  rewrite map_to_list_insert by apply lookup_delete_eq. rewrite filter_cons. cbn [snd].
  destruct (is_nonterminal db t).
  - rewrite decide_True by done. cbn [length]. lia.
  - rewrite decide_False by done. lia.
Qed.

Lemma nonterminal_count_None db id :
  transactions db !! id = None → nonterminal_count db = Z.of_nat (nonterminal_others db id).
Proof. intros Ht. unfold nonterminal_count, nonterminal_others. by rewrite delete_id. Qed.

Lemma is_nonterminal_ok k db id t old g evs s n :
  view db id t (old ++ [g]) evs n → tx_ok k id t old g evs s →
  is_nonterminal db t = reserves_slot s.
Proof.
  intros Hv Hok. unfold is_nonterminal.
  rewrite (to_id _ _ _ _ _ _ _ Hok), (to_current _ _ _ _ _ _ _ Hok).
  rewrite (contig_lookup _ _ _ (length old) g (vw_generations _ _ _ _ _ _ Hv)).
  - rewrite (go_state _ _ _ _ _ (to_gen _ _ _ _ _ _ _ Hok)). by destruct s.
  - rewrite lookup_app_r, Nat.sub_diag by lia. done.
Qed.

Lemma nonterminal_others_step st db db' id dt dg de :
  db_inv st db → step_at db db' id dt dg de →
  nonterminal_others db' id = nonterminal_others db id.
Proof.
  intros Hinv Hs. unfold nonterminal_others.
  assert (delete id (transactions db') = delete id (transactions db)) as ->.
  { apply map_eq. intros i. destruct (decide (i = id)) as [->|Hi].
    - by rewrite !lookup_delete_eq.
    - rewrite !lookup_delete_ne by done. by apply (sp_transactions _ _ _ _ _ _ Hs). }
  f_equal. apply list_filter_ext_in. intros [i t] Hin%elem_of_map_to_list. cbn [snd].
  apply lookup_delete_Some in Hin as [Hi Ht].
  destruct (di_tx _ _ Hinv _ _ Ht) as (old & g & evs & s & Hv & Hok).
  unfold is_nonterminal. rewrite (to_id _ _ _ _ _ _ _ Hok).
  by rewrite (sp_generations _ _ _ _ _ _ Hs i).
Qed.

(** ** The invariant across a step *)

(** The state before a step of [id]: absent, or well-formed in state [s]. *)
Definition slots_before db id (o : nat) : Prop :=
  (transactions db !! id = None ∧ o = 0%nat) ∨
  (∃ k t old g evs s, view db id t (old ++ [g]) evs o ∧ tx_ok k id t old g evs s ∧
     o = reserved_slots s).

Lemma nonterminal_before db id o :
  slots_before db id o →
  nonterminal_count db = (Z.of_nat (nonterminal_others db id) + Z.of_nat o)%Z.
Proof.
  intros [[Ht ->]|(k & t & old & g & evs & s & Hv & Hok & ->)].
  - rewrite (nonterminal_count_None _ _ Ht). lia.
  - rewrite (nonterminal_count_Some _ _ _ (vw_transaction _ _ _ _ _ _ Hv)).
    rewrite (is_nonterminal_ok _ _ _ _ _ _ _ _ _ Hv Hok).
    unfold reserved_slots. destruct (reserves_slot s); lia.
Qed.

Lemma db_inv_step st db db' id dt dg de o t old g evs s :
  db_inv st db → step_at db db' id dt dg de → slots_before db id o →
  view db' id t (old ++ [g]) evs (reserved_slots s) → tx_ok (store_key st) id t old g evs s →
  (table_count (transactions db) + dt ≤ max_transactions (store_limits st))%Z →
  (table_count (generations db) + dg ≤ max_generations (store_limits st))%Z →
  (table_count (audit_events db) + de + (nonterminal_count db - Z.of_nat o
     + Z.of_nat (reserved_slots s)) ≤ max_audit_events (store_limits st))%Z →
  db_inv st db'.
Proof.
  intros Hinv Hs Ho Hv Hok Ht Hg He.
  assert (slots_before db' id (reserved_slots s)) as Ho'
    by (right; by eexists _, _, _, _, _, _).
  assert (transactions db' !! id = Some t) as Hid by apply (vw_transaction _ _ _ _ _ _ Hv).
  constructor.
  - unfold page_ok. rewrite (sp_pragmas _ _ _ _ _ _ Hs). apply (di_page _ _ Hinv).
  - intros i u Hu. destruct (decide (i = id)) as [->|Hi].
    { simplify_eq. by exists old, g, evs, s. }
    rewrite (sp_transactions _ _ _ _ _ _ Hs) in Hu by done.
    destruct (di_tx _ _ Hinv _ _ Hu) as (old1 & g1 & evs1 & s1 & Hv1 & Hok1).
    exists old1, g1, evs1, s1. split; [|done]. by eapply view_other.
  - intros i Hu. destruct (decide (i = id)) as [->|Hi]; [congruence|].
    rewrite (sp_transactions _ _ _ _ _ _ Hs) in Hu by done.
    eapply no_rows_other; [exact Hs|done|]. by apply (di_orphan _ _ Hinv).
  - by rewrite (sp_dt _ _ _ _ _ _ Hs).
  - by rewrite (sp_dg _ _ _ _ _ _ Hs).
  - rewrite (sp_de _ _ _ _ _ _ Hs), (nonterminal_before _ _ _ Ho').
    rewrite (nonterminal_others_step _ _ _ _ _ _ _ Hinv Hs).
    rewrite (nonterminal_before _ _ _ Ho) in He. lia.
Qed.

(** ** Capacity checks *)

Lemma runs_check_count table mx s s' u :
  is_Some (count_of_table table (sess_db s)) →
  (mx < u64_max)%Z →
  runs (check_count_capacity table mx 1) env s s' u →
  sess_db s' = sess_db s ∧
  (default 0 (count_of_table table (sess_db s)) + 1 ≤ mx)%Z.
Proof.
  intros [c Hc] Hmx HH. pose proof (runs_readonly _ _ _ _ _ HH) as Hro. split; [done|].
  unfold check_count_capacity in HH. run_inv.
  rename select ((_ <? _)%Z = false) into Hle. apply Z.ltb_ge in Hle.
  rewrite Hc in Hle |- *. cbn in *. unfold u64_saturating_add in *. lia.
Qed.

Lemma runs_check_reserve limits add delta s s' u :
  runs (check_logical_audit_reserve limits add delta) env s s' u →
  sess_db s' = sess_db s ∧
  (table_count (audit_events (sess_db s)) + add
     + (nonterminal_count (sess_db s) + delta) ≤ max_audit_events limits)%Z.
Proof.
  intros HH. pose proof (runs_readonly _ _ _ _ _ HH) as Hro. split; [done|].
  unfold check_logical_audit_reserve in HH. run_inv.
  rename select ((_ <? _)%Z = false) into Hle. apply Z.ltb_ge in Hle.
  rename select (ok_or (_ ≫= _) _ = Ok _) into Hr. apply ok_or_Ok in Hr.
  apply bind_Some in Hr as (y & Hy%u64_checked_add_Some & Hz%u64_checked_add_Some).
  match goal with H : (if (0 <=? delta)%Z then _ else _) = Ok _ |- _ => rename H into Hd end.
  match type of Hd with context [nonterminal_count (sess_db ?x)] =>
    assert (sess_db x = sess_db s) as Hq by congruence end.
  destruct (0 <=? delta)%Z eqn:E.
  - apply ok_or_Ok, u64_checked_add_Some in Hd as [-> _].
    destruct Hy as [-> _], Hz as [-> _].
    rewrite Hq in Hle. lia.
  - apply ok_or_Ok, u64_checked_sub_Some in Hd as [-> _].
    destruct Hy as [-> _], Hz as [-> _].
    rewrite Hq in Hle. lia.
Qed.
End tx.
