(* ===== verification/StoreRefine.v ===== *)
(** * Every operation is a step of the protocol

    For the body of each operation: a successful run takes the transaction
    from a well-formed state to the well-formed next state, changes no other
    transaction, and keeps the database invariant. *)

From Stdlib Require Import ZArith Lia.
From Stdlib Require Import Strings.Byte.
From stdpp Require Import base numbers gmap strings list fin_maps sorting.
From S2P Require Import Prelude Text Core Digest Binding Authority Sqlite Integrity.
From S2P Require Import Validation Store Run Protocol StoreInvariant.
From S2P Require Import StoreWrites.

Set Default Goal Selector "!".

Section refine.
Context `{CryptoLaws}.
Context {Mg : Migrations} {env : Env}.
Implicit Types (k : SqliteIntegrityKey) (t : StoredTransaction) (g : StoredGeneration)
  (e : StoredAuditEvent) (db : Database) (id : string).

(** Transaction [id] is well formed in state [q]. *)
Record at_state k db id t (old : list StoredGeneration) g evs (q : TransactionState) : Prop := {
  as_view : view db id t (old ++ [g]) evs (reserved_slots q);
  as_ok : tx_ok k id t old g evs q;
}.

Lemma at_state_slots k db id t old g evs q :
  at_state k db id t old g evs q → slots_before db id (reserved_slots q).
Proof. intros [Hv Hok]. right. by eexists _, _, _, _, _, _. Qed.

Lemma load_current_inv st id s s' x :
  db_inv st (sess_db s) → runs (load_current (store_key st) id) env s s' x →
  ∃ t old g evs q, x = (t, g, snapshot_for t q g) ∧
    at_state (store_key st) (sess_db s) id t old g evs q ∧ sess_db s' = sess_db s.
Proof.
  intros Hinv HH. destruct x as [[t g] snap].
  pose proof (runs_load_current _ _ _ _ _ _ _ HH) as (_ & Ht & _ & _).
  destruct (di_tx _ _ Hinv _ _ Ht) as (old & g' & evs & q & Hv & Hok).
  destruct (load_current_view _ _ _ _ _ _ _ _ _ _ _ Hv Hok HH) as [-> Hd].
  by exists t, old, g', evs, q.
Qed.
End refine.

Lemma view_eq db db' id t gens evs n : db' = db → view db id t gens evs n → view db' id t gens evs n.
Proof. by intros ->. Qed.
Lemma step_at_eq db0 db db' id a b c : db' = db → step_at db0 db id a b c → step_at db0 db' id a b c.
Proof. by intros ->. Qed.

(** [view_steps] pushes a pair [Hv : view (sess_db a) ..], [Hs : step_at db0
    (sess_db a) ..] through the statements of a transition, in their order. *)
Ltac view_compose Hs Hs' :=
  let H := fresh in
  pose proof (step_at_trans _ _ _ _ _ _ _ _ _ _ Hs Hs') as H; clear Hs Hs'; rename H into Hs.

Ltac view_step Hv Hs :=
  let Hv' := fresh in let Hs' := fresh in
  match type of Hv with view (sess_db ?a) _ _ _ _ _ =>
    match goal with
    | E : sess_db ?b = sess_db a |- _ => 
        apply (view_eq _ _ _ _ _ _ _ E) in Hv; apply (step_at_eq _ _ _ _ _ _ _ E) in Hs; clear E
    | R : runs (check_logical_audit_reserve _ _ _) _ a _ _ |- _ =>
        let Hc := fresh "Hcap" in
        apply runs_check_reserve in R as [R Hc]
    | R : runs (ensure_audit_reservations _ _) _ a _ _ |- _ =>
        eapply runs_ensure in R as [Hv' Hs']; [|exact Hv|lia]; clear Hv; rename Hv' into Hv; view_compose Hs Hs'
    | R : runs (update_generation_state _ _ _ _) _ a _ _, G : gen_ok _ _ _ _ _ |- _ =>
        destruct (runs_update_generation_state _ _ _ _ _ _ _ _ _ _ _ _ _ Hv G R) as [Hv' Hs'];
        clear R Hv; rename Hv' into Hv; view_compose Hs Hs'
    | R : runs (update_generation_to_verified _ _ _ _ _) _ a _ _, G : gen_ok _ _ _ _ _ |- _ =>
        destruct (runs_update_generation_to_verified _ _ _ _ _ _ _ _ _ _ _ _ _ _ Hv G R)
          as [Hv' Hs'];
        clear R Hv; rename Hv' into Hv; view_compose Hs Hs'
    | R : runs (update_transaction_pointer _ _ _ _) _ a _ _, I : st_transaction_id _ = _ |- _ =>
        destruct (runs_update_pointer _ _ _ _ _ _ _ _ _ _ _ Hv I R) as (Hv' & Hs' & ?);
        clear R Hv; rename Hv' into Hv; view_compose Hs Hs'
    | R : runs (append_audit _ _ _ _ _ _ _ true) _ a _ _, T : trail_ok _ _ _ |- _ =>
        let rest := fresh "rest" in let Hr := fresh in
        destruct (runs_append_audit _ _ _ _ _ _ _ _ _ _ _ _ _ _ _ Hv T R)
          as (rest & Hr & Hv' & Hs');
        injection Hr as <-; clear R Hv; rename Hv' into Hv; view_compose Hs Hs'
    end
  end.
Ltac view_steps Hv Hs := repeat view_step Hv Hs.

(** The facts [view_steps] needs, from [Hat : at_state ..]. *)
Ltac tx_facts Hat :=
  pose proof Hat as [Hvw Hok];
  match type of Hat with at_state _ ?db ?id _ _ _ _ _ =>
    pose proof (step_at_refl db id) as Hs end;
  pose proof (to_gen _ _ _ _ _ _ _ Hok) as Hg; pose proof (to_id _ _ _ _ _ _ _ Hok) as Hid;
  pose proof (to_trail _ _ _ _ _ _ _ Hok) as Htr.

(** The capacity a body established before its first write. *)
Ltac reserve_check :=
  match goal with
  | R : runs (check_logical_audit_reserve _ _ _) _ _ _ _ |- _ =>
      apply runs_check_reserve in R as [? Hcap]
  end.

Section bodies.
Context `{CryptoLaws}.
Context {Mg : Migrations} {env : Env}.
Implicit Types (k : SqliteIntegrityKey) (t : StoredTransaction) (g : StoredGeneration)
  (e : StoredAuditEvent) (db : Database) (id : string).

(** [advanced st db db' id kind payload q q' ..]: one event of [kind] took
    [id] from state [q] to state [q'], and nothing else changed. *)
Record advanced st db db' id (kind : string) (payload : ContentDigest)
    (q q' : TransactionState) t old g g' evs : Prop := {
  ad_before : at_state (store_key st) db id t old g evs q;
  ad_next : next_phase (Live q) kind = Some (Live q');
  ad_after :
    let cur := st_current_generation t in
    let v := (st_state_version t + 1)%Z in
    at_state (store_key st) db' id (pointer_row (store_key st) t cur v) old g'
      (evs ++ [event_row (store_key st) id evs cur v kind payload]) q';
  ad_step : step_at db db' id 0 0 1;
  ad_inv : db_inv st db';
}.

Lemma assert_expected_Ok snap n v d q u :
  assert_expected snap n v d q = Ok u ↔
  ts_current_generation snap = n ∧ ts_state_version snap = v ∧ ts_binding_digest snap = d ∧
  ts_state snap = q.
Proof.
  unfold assert_expected. rewrite reject_if_Ok, !orb_false_iff, !negb_false_iff.
  rewrite !Z.eqb_eq, !bool_decide_eq_true. tauto.
Qed.

Lemma next_version_Ok snap v :
  next_version snap = Ok v → v = (ts_state_version snap + 1)%Z.
Proof. unfold next_version. by intros [-> _]%ok_or_Ok%u64_checked_add_Some. Qed.

Lemma runs_window a b s s' u :
  runs (enforce_authority_window a b) env s s' u →
  s' = s ∧ ∃ now, env_now_unix_ms env (sess_step s) = Some now ∧ (a ≤ now ≤ b)%Z.
Proof.
  unfold runs, enforce_authority_window. destruct (env_now_unix_ms _ _) as [now|]; [|done].
  intros [= <- Hr]. split; [done|]. apply reject_if_Ok in Hr. exists now. split; [done|]. lia.
Qed.

Lemma advanced_intro st db db' id kind payload q q' t old g g' evs delta :
  db_inv st db → at_state (store_key st) db id t old g evs q →
  next_phase (Live q) kind = Some (Live q') → valid_digest payload →
  gen_ok (store_key st) id (length old) q' g' →
  let cur := st_current_generation t in
  let v := (st_state_version t + 1)%Z in
  let e := event_row (store_key st) id evs cur v kind payload in
  commit_payload_ok q' g' e →
  (table_count (audit_events db) + 1 + (nonterminal_count db + delta)
     ≤ max_audit_events (store_limits st))%Z →
  delta = (Z.of_nat (reserved_slots q') - Z.of_nat (reserved_slots q))%Z →
  view db' id (pointer_row (store_key st) t cur v) (old ++ [g']) (evs ++ [e]) (reserved_slots q') →
  step_at db db' id 0 0 1 →
  advanced st db db' id kind payload q q' t old g g' evs.
Proof.
  intros Hinv Hat Hn Hp Hg cur v e Hc Hcap -> Hv Hs.
  assert (tx_ok (store_key st) id (pointer_row (store_key st) t cur v) old g' (evs ++ [e]) q')
    as Hok' by (eapply tx_ok_advance; [apply Hat|done..]).
  constructor; [done|done|by constructor|done|].
  pose proof (di_transactions _ _ Hinv). pose proof (di_generations _ _ Hinv).
  eapply (db_inv_step _ _ _ _ _ _ _ _ _ _ _ _ q');
    [done|exact Hs|by eapply at_state_slots|exact Hv|exact Hok'|lia|lia|lia].
Qed.

Lemma handoff_body_spec st r s s' c :
  db_inv st (sess_db s) → valid_digest (hr_authority_use_digest r) →
  runs (handoff_body st r) env s s' c →
  ∃ t old g g' evs,
    advanced st (sess_db s) (sess_db s') (hr_transaction_id r) "handoff-indeterminate"
      (hr_authority_use_digest r) Prepared Indeterminate t old g g' evs ∧
    st_current_generation t = hr_expected_generation r ∧
    st_state_version t = hr_expected_state_version r ∧
    sg_binding_digest g = hr_expected_binding_digest r ∧
    hr_authority_use_digest r ≠ ContentDigest_zero ∧
    c = {| hc_transaction_id := hr_transaction_id r; hc_generation := st_current_generation t;
           hc_state_version := st_state_version t + 1; hc_binding_digest := sg_binding_digest g;
           hc_authority_use_digest := hr_authority_use_digest r |}.
Proof.
  intros Hinv Hd HH. unfold handoff_body in HH. run_inv.
  rename select (runs (enforce_authority_window _ _) _ _ _ _) into Hw.
  apply runs_window in Hw as [-> _].
  rename select (runs (load_current _ _) _ _ _ _) into Hl.
  apply (load_current_inv st) in Hl as (t & old & g & evs & q & -> & Hat & Hd1); [|done].
  run_inv. rename select (assert_expected _ _ _ _ _ = _) into Ha.
  apply assert_expected_Ok in Ha as (Hn & Hv & Hb & Hq). cbn in Hq. subst q.
  rename select (next_version _ = _) into Hnv. apply next_version_Ok in Hnv as ->.
  rename select (bool_decide _ = false) into Hz. apply bool_decide_eq_false in Hz.
  tx_facts Hat. reserve_check. rewrite Hd1 in Hcap. view_steps Hvw Hs.
  eexists t, old, g, _, evs. split; [|done].
  eapply (advanced_intro _ _ _ _ _ _ _ _ _ _ _ _ _ 0);
    [done|done|done|done| | |exact Hcap|done|exact Hvw|exact Hs].
  - eapply gen_ok_row; [exact Hg|]. apply (go_material _ _ _ _ _ Hg).
  - done.
Qed.

Lemma commit_body_spec st r s s' c :
  db_inv st (sess_db s) →
  runs (commit_body st r) env s s' c →
  ∃ t old g g' evs,
    advanced st (sess_db s) (sess_db s') (cr_transaction_id r) "committed"
      (commit_payload (cr_desired_state_digest r) (cr_graph_digest r) (cr_provenance_digest r))
      Verified Committed t old g g' evs ∧
    st_current_generation t = cr_expected_generation r ∧
    st_state_version t = cr_expected_state_version r ∧
    sg_binding_digest g = cr_expected_binding_digest r ∧
    commit_material g = [Some (cr_desired_state_digest r); Some (cr_graph_digest r);
                         Some (cr_provenance_digest r)] ∧
    g' = generation_row (store_key st) g Committed (sg_desired_state_digest g)
           (sg_graph_digest g) (sg_provenance_digest g) ∧
    c = snapshot_with (snapshot_for t Verified g) Committed (st_state_version t + 1).
Proof.
  intros Hinv HH. unfold commit_body in HH. run_inv.
  rename select (runs (load_current _ _) _ _ _ _) into Hl.
  apply (load_current_inv st) in Hl as (t & old & g & evs & q & -> & Hat & Hd1); [|done].
  run_inv. rename select (assert_expected _ _ _ _ _ = _) into Ha.
  apply assert_expected_Ok in Ha as (Hn & Hv & Hb & Hq). cbn in Hq. subst q.
  rename select (next_version _ = _) into Hnv. apply next_version_Ok in Hnv as ->.
  rename select (_ || _ = false) into Hm. rewrite !orb_false_iff, !negb_false_iff in Hm.
  rewrite !bool_decide_eq_true in Hm. destruct Hm as [[Hm1 Hm2] Hm3].
  tx_facts Hat. reserve_check. rewrite Hd1 in Hcap. view_steps Hvw Hs.
  exists t, old, g, (generation_row (store_key st) g Committed (sg_desired_state_digest g)
           (sg_graph_digest g) (sg_provenance_digest g)), evs.
  split; [|unfold commit_material; rewrite Hm1, Hm2, Hm3; done].
  eapply (advanced_intro _ _ _ _ _ _ _ _ _ _ _ _ _ (-1));
    [done|done|done|auto with linura| | |exact Hcap|done|exact Hvw|exact Hs].
  - eapply gen_ok_row; [exact Hg|]. apply (go_material _ _ _ _ _ Hg).
  - intros _ d gr p. cbn. rewrite Hm1, Hm2, Hm3. by intros [= <-] [= <-] [= <-].
Qed.

Lemma abort_body_spec st r s s' c :
  db_inv st (sess_db s) → valid_digest (ar_reason_digest r) →
  runs (abort_body st r) env s s' c →
  ∃ t old g g' evs,
    advanced st (sess_db s) (sess_db s') (ar_transaction_id r) "aborted-prepared"
      (ar_reason_digest r) Prepared Aborted t old g g' evs ∧
    st_current_generation t = ar_expected_generation r ∧
    st_state_version t = ar_expected_state_version r ∧
    c = snapshot_with (snapshot_for t Prepared g) Aborted (st_state_version t + 1).
Proof.
  intros Hinv Hd HH. unfold abort_body in HH. run_inv.
  rename select (runs (load_current _ _) _ _ _ _) into Hl.
  apply (load_current_inv st) in Hl as (t & old & g & evs & q & -> & Hat & Hd1); [|done].
  run_inv. rename select (next_version _ = _) into Hnv. apply next_version_Ok in Hnv as ->.
  rename select (_ || _ = false) into Hm. rewrite !orb_false_iff, !negb_false_iff in Hm.
  rewrite !Z.eqb_eq, bool_decide_eq_true in Hm. destruct Hm as [[Hm1 Hm2] Hq].
  cbn in Hq. subst q.
  tx_facts Hat. reserve_check. rewrite Hd1 in Hcap. view_steps Hvw Hs.
  eexists t, old, g, _, evs. split; [|done].
  eapply (advanced_intro _ _ _ _ _ _ _ _ _ _ _ _ _ (-1));
    [done|done|done|done| | |exact Hcap|done|exact Hvw|exact Hs].
  - eapply gen_ok_row; [exact Hg|]. apply (go_material _ _ _ _ _ Hg).
  - done.
Qed.

(** *** recover *)

Lemma recover_verified_spec st id t old g evs observation d gr p s s' out :
  db_inv st (sess_db s) → at_state (store_key st) (sess_db s) id t old g evs Indeterminate →
  valid_digest observation → valid_digest d → valid_digest gr → valid_digest p →
  let v := (st_state_version t + 1)%Z in
  runs (recover_arm st id t g (snapshot_for t Indeterminate g) v
          (IntendedStateVerified observation d gr p)) env s s' out →
  advanced st (sess_db s) (sess_db s') id "recovery-verified" observation Indeterminate Verified
    t old g (generation_row (store_key st) g Verified (Some d) (Some gr) (Some p)) evs ∧
  out = OutVerified (snapshot_with (snapshot_for t Indeterminate g) Verified v).
Proof.
  intros Hinv Hat Ho Hvd Hvg Hvp v HH. cbn [recover_arm] in HH. run_inv. split; [|done].
  tx_facts Hat. reserve_check. view_steps Hvw Hs.
  eapply (advanced_intro _ _ _ _ _ _ _ _ _ _ _ _ _ 0);
    [done|done|done|done| | |exact Hcap|done|exact Hvw|exact Hs].
  - eapply gen_ok_row; [exact Hg|]. by exists d, gr, p.
  - done.
Qed.

Lemma recover_blocked_spec st id t old g evs observation s s' out :
  db_inv st (sess_db s) → at_state (store_key st) (sess_db s) id t old g evs Indeterminate →
  valid_digest observation →
  let v := (st_state_version t + 1)%Z in
  runs (recover_arm st id t g (snapshot_for t Indeterminate g) v
          (ConflictingState observation)) env s s' out →
  advanced st (sess_db s) (sess_db s') id "recovery-blocked" observation
    Indeterminate RecoveryBlocked t old g
    (generation_row (store_key st) g RecoveryBlocked (sg_desired_state_digest g)
       (sg_graph_digest g) (sg_provenance_digest g)) evs ∧
  out = OutBlocked (snapshot_with (snapshot_for t Indeterminate g) RecoveryBlocked v).
Proof.
  intros Hinv Hat Ho v HH. cbn [recover_arm] in HH. run_inv. split; [|done].
  tx_facts Hat. reserve_check. view_steps Hvw Hs.
  eapply (advanced_intro _ _ _ _ _ _ _ _ _ _ _ _ _ (-1));
    [done|done|done|done| | |exact Hcap|done|exact Hvw|exact Hs].
  - eapply gen_ok_row; [exact Hg|]. apply (go_material _ _ _ _ _ Hg).
  - done.
Qed.

Lemma recover_ambiguous_spec st id t old g evs observation s s' out :
  db_inv st (sess_db s) → at_state (store_key st) (sess_db s) id t old g evs Indeterminate →
  valid_digest observation →
  let v := (st_state_version t + 1)%Z in
  runs (recover_arm st id t g (snapshot_for t Indeterminate g) v
          (Ambiguous observation)) env s s' out →
  advanced st (sess_db s) (sess_db s') id "recovery-ambiguous" observation
    Indeterminate Indeterminate t old g g evs ∧
  out = OutStillIndeterminate (snapshot_with (snapshot_for t Indeterminate g) Indeterminate v).
Proof.
  intros Hinv Hat Ho v HH. cbn [recover_arm] in HH. run_inv. split; [|done].
  tx_facts Hat. reserve_check. view_steps Hvw Hs.
  eapply (advanced_intro _ _ _ _ _ _ _ _ _ _ _ _ _ 0);
    [done|done|done|done|exact Hg|done|exact Hcap|done|exact Hvw|exact Hs].
Qed.

(** The limits leave room for the saturating counter of
    [check_count_capacity]. *)
Definition limits_ok (l : StoreLimits) : Prop :=
  (max_transactions l < u64_max)%Z ∧ (max_generations l < u64_max)%Z.

(** Generation [g] was retired without effect and generation [cur + 1] of
    the binding [b] prepared in its place, at one new version. *)
Record reprepared st db db' id (observation : ContentDigest) (b : AuthorityBinding)
    t old g evs : Prop := {
  rp_before : at_state (store_key st) db id t old g evs Indeterminate;
  rp_after :
    let k := store_key st in
    let cur := st_current_generation t in
    let v := (st_state_version t + 1)%Z in
    let e1 := event_row k id evs cur v "recovery-retired-no-effect" observation in
    let e2 := event_row k id (evs ++ [e1]) (cur + 1) v "recovery-reprepared" (ab_digest b) in
    at_state k db' id (pointer_row k t (cur + 1) v)
      (old ++ [generation_row k g Aborted (sg_desired_state_digest g) (sg_graph_digest g)
                 (sg_provenance_digest g)])
      (new_generation k b (cur + 1)) ((evs ++ [e1]) ++ [e2]) Prepared;
  rp_step : step_at db db' id 0 1 2;
  rp_inv : db_inv st db';
}.

Lemma runs_retire_tail st id t old g evs observation b s s1 s2 s3 s4 s5 r1 r2 r3 r4 r5 :
  let k := store_key st in
  let cur := st_current_generation t in
  let v := (st_state_version t + 1)%Z in
  view (sess_db s) id t (old ++ [g]) evs 3 → tx_ok k id t old g evs Indeterminate →
  valid_digest observation → AuthorityBinding_transaction_id b = id →
  runs (update_generation_state k g Indeterminate Aborted) env s s1 r1 →
  runs (insert_generation k b (cur + 1)) env s1 s2 r2 →
  runs (update_transaction_pointer k t (cur + 1) v) env s2 s3 r3 →
  runs (append_audit (store_limits st) k id cur v "recovery-retired-no-effect" observation true)
    env s3 s4 r4 →
  runs (append_audit (store_limits st) k id (cur + 1) v "recovery-reprepared" (ab_digest b) true)
    env s4 s5 r5 →
  let e1 := event_row k id evs cur v "recovery-retired-no-effect" observation in
  let e2 := event_row k id (evs ++ [e1]) (cur + 1) v "recovery-reprepared" (ab_digest b) in
  view (sess_db s5) id (pointer_row k t (cur + 1) v)
    ((old ++ [generation_row k g Aborted (sg_desired_state_digest g) (sg_graph_digest g)
                (sg_provenance_digest g)]) ++ [new_generation k b (cur + 1)])
    ((evs ++ [e1]) ++ [e2]) 1 ∧ step_at (sess_db s) (sess_db s5) id 0 1 2.
Proof.
  intros k cur v Hvw Hok Ho Hb R1 R2 R3 R4 R5 e1 e2.
  pose proof (step_at_refl (sess_db s) id) as Hs.
  pose proof (to_gen _ _ _ _ _ _ _ Hok) as Hg. pose proof (to_id _ _ _ _ _ _ _ Hok) as Hid.
  pose proof (to_trail _ _ _ _ _ _ _ Hok) as Htr.
  destruct (history_version _ _ (to_history _ _ _ _ _ _ _ Hok)) as [Hver Hgen]. cbn in Hver, Hgen.
  view_steps Hvw Hs.
  assert (cur + 1 = Z.of_nat (length (old ++ [generation_row k g Aborted
    (sg_desired_state_digest g) (sg_graph_digest g) (sg_provenance_digest g)])))%Z as Hn.
  { rewrite length_app. cbn. unfold cur. rewrite (to_current _ _ _ _ _ _ _ Hok). lia. }
  destruct (runs_insert_generation _ _ _ _ _ _ _ _ _ _ _ Hvw Hb Hn R2) as [Hvw' Hs'].
  clear Hvw R2. rename Hvw' into Hvw. view_compose Hs Hs'. view_steps Hvw Hs.
  assert (trail_ok k id (evs ++ [e1])) as Htr'.
  { constructor; [done|]. eapply event_row_ok; [| |done|done]; unfold cur, v; lia. }
  destruct (runs_append_audit _ _ _ _ _ _ _ _ _ _ _ _ _ _ _ Hvw Htr' R5)
    as (rest & Hr & Hv' & Hs'). injection Hr as <-. view_compose Hs Hs'.
  split; [exact Hv'|exact Hs].
Qed.

Lemma recover_reprepared_spec st id t old g evs observation b s s' out :
  limits_ok (store_limits st) → db_inv st (sess_db s) →
  at_state (store_key st) (sess_db s) id t old g evs Indeterminate →
  valid_digest observation → admissible_binding b →
  let v := (st_state_version t + 1)%Z in
  runs (recover_arm st id t g (snapshot_for t Indeterminate g) v
          (IntendedEffectAbsent observation b)) env s s' out →
  reprepared st (sess_db s) (sess_db s') id observation b t old g evs ∧
  AuthorityBinding_transaction_id b = id ∧
  out = OutReprepared
    {| ts_transaction_id := id; ts_principal := ab_principal b; ts_request_id := ab_request_id b;
       ts_current_generation := st_current_generation t + 1; ts_state_version := v;
       ts_state := Prepared; ts_binding_digest := ab_digest b |}.
Proof.
  intros [_ Hlim] Hinv Hat Ho Hb v HH. cbn [recover_arm] in HH. run_inv.
  rename select (negb (bool_decide _) = false) into Hbid.
  apply negb_false_iff, bool_decide_eq_true in Hbid.
  rename select (ok_or (u64_checked_add _ _) _ = _) into Hnext.
  apply ok_or_Ok, u64_checked_add_Some in Hnext as [-> _].
  rename select ((_ <=? _)%Z = false) into Hmax. apply Z.leb_gt in Hmax.
  rename select (runs (check_count_capacity _ _ _) _ _ _ _) into Hcg.
  apply runs_check_count in Hcg as [Hd1 Hcg]; [|by eexists|done].
  change (default 0%Z _) with (table_count (generations (sess_db s))) in Hcg.
  reserve_check. rewrite Hd1 in Hcap. split; [|done].
  pose proof Hat as [Hvw Hok]. pose proof (step_at_refl (sess_db s) id) as Hs.
  view_step Hvw Hs. view_step Hvw Hs. view_step Hvw Hs.
  edestruct runs_retire_tail as [Hv' Hs'];
    [exact Hvw|exact Hok|exact Ho|exact Hbid|eassumption..|].
  view_compose Hs Hs'.
  assert (tx_ok (store_key st) id _ _ _ _ Prepared) as Hok'
    by (eapply tx_ok_reprepare; [exact Hok|exact Ho|exact Hb|exact Hbid|exact Hmax]).
  constructor; [done|by constructor|exact Hs|].
  pose proof (di_transactions _ _ Hinv).
  eapply (db_inv_step _ _ _ _ 0 1 2 _ _ _ _ _ Prepared);
    [done|exact Hs|by eapply at_state_slots|exact Hv'|exact Hok'|lia|lia|].
  change (reserved_slots Prepared) with 1%nat. change (reserved_slots Indeterminate) with 1%nat.
  lia.
Qed.

(** *** prepare *)

Record created st db db' (b : AuthorityBinding) : Prop := {
  cd_before : transactions db !! AuthorityBinding_transaction_id b = None;
  cd_after :
    let k := store_key st in
    let id := AuthorityBinding_transaction_id b in
    at_state k db' id (new_transaction k b) [] (new_generation k b 0)
      [event_row k id [] 0 1 "prepared" (ab_digest b)] Prepared;
  cd_step : step_at db db' (AuthorityBinding_transaction_id b) 1 1 1;
  cd_inv : db_inv st db';
}.

Lemma create_transaction_spec st b s s' out :
  limits_ok (store_limits st) → db_inv st (sess_db s) → admissible_binding b →
  runs (create_transaction st b) env s s' out →
  created st (sess_db s) (sess_db s') b ∧ out = Created (created_snapshot b).
Proof.
  intros [Hl1 Hl2] Hinv Hb HH. unfold create_transaction in HH. run_inv. split; [|done].
  set (id := AuthorityBinding_transaction_id b) in *.
  rename select (runs (check_count_capacity "transactions" _ _) _ _ _ _) into Hct.
  apply runs_check_count in Hct as [Hd1 Hct]; [|by eexists|done].
  change (default 0%Z _) with (table_count (transactions (sess_db s))) in Hct.
  rename select (runs (check_count_capacity "generations" _ _) _ _ _ _) into Hcg.
  apply runs_check_count in Hcg as [Hd2 Hcg]; [|by eexists|done]. rewrite Hd1 in Hcg.
  change (default 0%Z _) with (table_count (generations (sess_db s))) in Hcg.
  reserve_check. rename select (runs (execute _) _ _ _ _) into Hx.
  match type of Hx with runs _ _ ?a _ _ =>
    assert (sess_db a = sess_db s) as Hd3 by congruence end.
  rewrite Hd2, Hd1 in Hcap.
  pose proof (runs_insert_fresh _ _ _ _ Hx) as Hfresh. rewrite Hd3 in Hfresh.
  apply runs_insert_transaction in Hx as [Hvw Hs]; [|rewrite Hd3; by apply (di_orphan _ _ Hinv)].
  rewrite Hd3 in Hs. rename select (runs (insert_generation _ _ _) _ _ _ _) into Hg.
  destruct (runs_insert_generation _ _ _ _ _ _ _ _ _ _ _ Hvw eq_refl eq_refl Hg) as [Hvw' Hs'].
  clear Hvw. rename Hvw' into Hvw. view_compose Hs Hs'.
  rename select (runs (append_audit _ _ _ _ _ _ _ _) _ _ _ _) into Ha.
  destruct (runs_append_audit _ _ _ _ _ _ _ _ _ _ _ _ _ _ _ Hvw (trail_nil _ _) Ha)
    as (rest & Hr & Hvw' & Hs'). cbn in Hr. subst rest.
  clear Hvw. rename Hvw' into Hvw. view_compose Hs Hs'. view_steps Hvw Hs.
  pose proof (tx_ok_new (store_key st) b Hb) as Hok.
  constructor; [done|by constructor|exact Hs|].
  eapply (db_inv_step _ _ _ _ 1 1 1 0 _ _ _ _ Prepared);
    [done|exact Hs|by left|exact Hvw|exact Hok|lia|lia|].
  change (reserved_slots Prepared) with 1%nat. lia.
Qed.

Lemma prepare_body_spec st b s s' out :
  limits_ok (store_limits st) → db_inv st (sess_db s) → admissible_binding b →
  runs (prepare_body st b) env s s' out →
  (created st (sess_db s) (sess_db s') b ∧ out = Created (created_snapshot b)) ∨
  (∃ t old g evs,
     at_state (store_key st) (sess_db s) (AuthorityBinding_transaction_id b) t old g evs Prepared ∧
     sg_binding_digest g = ab_digest b ∧ out = Existing (snapshot_for t Prepared g) ∧
     sess_db s' = sess_db s).
Proof.
  intros Hl Hinv Hb HH. unfold prepare_body, runs in HH.
  destruct (load_current _ _ env s) as [s1 [x|err]] eqn:El.
  - destruct (load_current_inv _ _ _ _ _ Hinv El) as (t & old & g & evs & q & -> & Hat & Hd).
    cbn -[bool_decide] in HH.
    destruct (bool_decide (q = Prepared)) eqn:E1; [|done]. apply bool_decide_eq_true in E1 as ->.
    destruct (bool_decide (sg_binding_digest g = ab_digest b)) eqn:E2; [|done].
    apply bool_decide_eq_true in E2. cbn [andb] in HH.
    destruct (_ && _); [|done]. injection HH as <- <-.
    right. by exists t, old, g, evs.
  - destruct err; try done. left.
    pose proof (readonly (m := load_current (store_key st) (AuthorityBinding_transaction_id b)) env s) as Hro.
    rewrite El in Hro. cbn in Hro. rewrite <- Hro in *.
    by apply (create_transaction_spec _ _ _ _ _ Hl Hinv Hb) in HH.
Qed.
End bodies.
