(* ===== verification/StoreSpec.v ===== *)
(** * The contract of the store

    The abstract view of the database: the machine state of every
    transaction, replayed from its audit trail.  [spec_step] is the
    contract of each operation on that view, with the caller's optimistic
    expectations; [op_run] dispatches to the modelled operations. *)

From Stdlib Require Import ZArith Lia.
From Stdlib Require Import Strings.Byte.
From stdpp Require Import base numbers gmap strings list fin_maps sorting.
From S2P Require Import Prelude Text Core Digest Binding Authority Sqlite Integrity.
From S2P Require Import Validation Store Run Protocol StoreInvariant.
From S2P Require Import StoreWrites StoreRefine.

Set Default Goal Selector "!".

(** The audit trail of a transaction and the machine it replays to. *)
Definition trail (db : Database) (id : TransactionId) : list StoredAuditEvent :=
  (rows_of (audit_events db) id).*2.
Definition machine_at (db : Database) (id : TransactionId) : option Machine :=
  replay (event_of <$> trail db id).

(** The requests of the trait [TransactionStore]. *)
Inductive Operation :=
| OpPrepare (b : AuthorityBinding)
| OpHandoff (r : HandoffRequest)
| OpRecover (r : RecoveryRequest)
| OpCommit (r : CommitRequest)
| OpAbort (r : AbortRequest).

Definition machine (g v : Z) (s : TransactionState) : option Machine :=
  Some {| m_generation := g; m_version := v; m_phase := Live s |}.

(** The state a resolution leads to, and whether it opens a new generation. *)
Definition resolution_state (r : RecoveryResolution) : TransactionState * Z :=
  match r with
  | IntendedStateVerified _ _ _ _ => (Verified, 0%Z)
  | ConflictingState _ => (RecoveryBlocked, 0%Z)
  | Ambiguous _ => (Indeterminate, 0%Z)
  | IntendedEffectAbsent _ _ => (Prepared, 1%Z)
  end.

Inductive spec_step : Operation → option Machine → option Machine → Prop :=
| spec_create b : spec_step (OpPrepare b) None (machine 0 1 Prepared)
| spec_existing b g v : spec_step (OpPrepare b) (machine g v Prepared) (machine g v Prepared)
| spec_handoff r (g := hr_expected_generation r) (v := hr_expected_state_version r) :
    spec_step (OpHandoff r) (machine g v Prepared) (machine g (v + 1) Indeterminate)
| spec_recover r (g := rr_expected_generation r) (v := rr_expected_state_version r) :
    spec_step (OpRecover r) (machine g v Indeterminate)
      (machine (g + snd (resolution_state (rr_resolution r))) (v + 1)
         (fst (resolution_state (rr_resolution r))))
| spec_commit r (g := cr_expected_generation r) (v := cr_expected_state_version r) :
    spec_step (OpCommit r) (machine g v Verified) (machine g (v + 1) Committed)
| spec_abort r (g := ar_expected_generation r) (v := ar_expected_state_version r) :
    spec_step (OpAbort r) (machine g v Prepared) (machine g (v + 1) Aborted).

Section spec.
Context `{CryptoLaws}.
Context {Mg : Migrations}.

Definition op_target (op : Operation) : TransactionId :=
  match op with
  | OpPrepare b => AuthorityBinding_transaction_id b
  | OpHandoff r => hr_transaction_id r
  | OpRecover r => rr_transaction_id r
  | OpCommit r => cr_transaction_id r
  | OpAbort r => ar_transaction_id r
  end.

Definition op_run (st : Store) (op : Operation) : M unit :=
  match op with
  | OpPrepare b => prepare st b;; mret tt
  | OpHandoff r => handoff st r;; mret tt
  | OpRecover r => recover st r;; mret tt
  | OpCommit r => commit st r;; mret tt
  | OpAbort r => abort_prepared st r;; mret tt
  end.

(** What the types of the requests guarantee: digests and bindings have been
    validated by their constructors. *)
Definition resolution_admissible (r : RecoveryResolution) : Prop :=
  match r with
  | IntendedStateVerified o d g p =>
      valid_digest o ∧ valid_digest d ∧ valid_digest g ∧ valid_digest p
  | ConflictingState o | Ambiguous o => valid_digest o
  | IntendedEffectAbsent o b => valid_digest o ∧ admissible_binding b
  end.
Definition op_admissible (op : Operation) : Prop :=
  match op with
  | OpPrepare b => admissible_binding b
  | OpHandoff r => valid_digest (hr_authority_use_digest r)
  | OpRecover r => resolution_admissible (rr_resolution r)
  | OpCommit _ => True
  | OpAbort r => valid_digest (ar_reason_digest r)
  end.

(** ** The abstract view of well-formed transactions *)

Lemma trail_view db id t gens evs n : view db id t gens evs n → trail db id = evs.
Proof. intros Hv. apply contig_rows_snd, (vw_events _ _ _ _ _ _ Hv). Qed.

Lemma machine_at_state k db id t old g evs q :
  at_state k db id t old g evs q →
  machine_at db id = machine (st_current_generation t) (st_state_version t) q.
Proof.
  intros [Hv Hok]. unfold machine_at. rewrite (trail_view _ _ _ _ _ _ Hv).
  apply replay_history, (to_history _ _ _ _ _ _ _ Hok).
Qed.

Lemma trail_absent db id : no_rows db id → trail db id = [].
Proof. intros (_ & He & _). apply contig_rows_snd, contig_nil, He. Qed.

Lemma trail_same db db' id :
  same_at (audit_events db) (audit_events db') id →
  (∃ evs, contig (audit_events db) id evs) → trail db' id = trail db id.
Proof.
  intros Hs (evs & Hc). unfold trail.
  by rewrite (contig_rows_snd _ _ _ Hc), (contig_rows_snd _ _ _ (contig_same_at _ _ _ _ Hs Hc)).
Qed.

Lemma inv_trail_contig st db id :
  db_inv st db → contig (audit_events db) id (trail db id).
Proof.
  intros Hinv. destruct (transactions db !! id) as [t|] eqn:Ht.
  - destruct (di_tx _ _ Hinv _ _ Ht) as (old & g & evs & q & Hv & _).
    rewrite (trail_view _ _ _ _ _ _ Hv). apply Hv.
  - pose proof (di_orphan _ _ Hinv _ Ht) as Hno. rewrite trail_absent by done.
    apply contig_nil, Hno.
Qed.

(** ** Operations run to completion or not at all *)

(** [outcome body s s' r]: the database after [s'] is the initial one and
    the result an error, or it is the one a successful body left. *)
Definition outcome {A B} (body : M A) env (s s' : Session)
    (r : result TransactionStoreError B) : Prop :=
  (sess_db s' = sess_db s ∧ is_ok r = false) ∨
  ∃ s0 s1 a, sess_db s0 = sess_db s ∧ runs body env s0 s1 a ∧ sess_db s' = sess_db s1.

Lemma outcome_check {A B} (pre : M unit) `{!ReadOnlyM pre} (k : M B) (body : M A) env s s' r :
  (∀ s, k env s = (s', r) → outcome body env s s' r) →
  (pre;; k) env s = (s', r) → outcome body env s s' r.
Proof.
  intros Hk. unfold mbind, M_bind. pose proof (readonly (m := pre) env s) as Hro.
  destruct (pre env s) as [s1 [u|e]]; cbn in Hro; [|by intros [= <- <-]; left].
  intros E. unfold outcome. rewrite <- Hro. by apply Hk.
Qed.

Lemma outcome_immediate {A} (body : M A) env s s' r :
  immediate_transaction body env s = (s', r) → outcome body env s s' r.
Proof.
  destruct r as [a|e]; intros E.
  - right. apply runs_immediate in E as (s0 & s1 & ?). by exists s0, s1, a.
  - left. split; [|done]. by eapply immediate_transaction_atomic.
Qed.

Lemma outcome_post {A B C} (m : M B) (post : B → M C) (body : M A) env s s' r :
  (∀ b, ReadOnlyM (post b)) →
  (∀ s' r, m env s = (s', r) → outcome body env s s' r) →
  (m ≫= post) env s = (s', r) → outcome body env s s' r.
Proof.
  intros Hpost Hm. unfold mbind, M_bind. destruct (m env s) as [s1 [b|e]] eqn:Em.
  - intros E. specialize (Hpost b env s1). rewrite E in Hpost. cbn in Hpost.
    destruct (Hm _ _ eq_refl) as [[_ ?]|(s0 & s2 & a & ? & ? & ?)]; [done|].
    right. exists s0, s2, a. split_and!; [done..|congruence].
  - intros [= <- <-]. destruct (Hm _ _ eq_refl) as [[? _]|Hr]; [by left|by right].
Qed.

(** The body of the immediate transaction of each operation. *)
Definition op_body (st : Store) (op : Operation) : M unit :=
  match op with
  | OpPrepare b => prepare_body st b;; mret tt
  | OpHandoff r => handoff_body st r;; mret tt
  | OpRecover r => recover_body st r;; mret tt
  | OpCommit r => commit_body st r;; mret tt
  | OpAbort r => abort_body st r;; mret tt
  end.

Lemma outcome_unit {A B} (body : M A) env s s' (r : result _ B) :
  outcome body env s s' r → outcome (body;; mret tt) env s s' r.
Proof.
  intros [?|(s0 & s1 & a & ? & ? & ?)]; [by left|]. right. exists s0, s1, tt.
  split_and!; [done| |done]. apply runs_bind. exists s1, a. by rewrite runs_ret.
Qed.

Lemma op_outcome st op env s s' r :
  op_run st op env s = (s', r) → outcome (op_body st op) env s s' r.
Proof.
  destruct op; cbn [op_run op_body]; intros HH; apply outcome_unit; revert HH;
    (apply outcome_post; [apply _|]); intros s1 r1;
    unfold prepare, handoff, recover, commit, abort_prepared;
    repeat (apply outcome_check; [unfold require_normal_open; apply _|]; intros ?);
    first [apply outcome_immediate | apply outcome_post; [solve_readonly|apply outcome_immediate]].
Qed.

(** ** The step of each body on the abstract view *)

(** The effect of a successful body. *)
Record op_effect (st : Store) (op : Operation) (db db' : Database) : Prop := {
  oe_inv : db_inv st db';
  oe_step : ∃ dt dg de, step_at db db' (op_target op) dt dg de;
  oe_spec : spec_step op (machine_at db (op_target op)) (machine_at db' (op_target op));
  oe_trail : trail db (op_target op) `prefix_of` trail db' (op_target op);
}.

Lemma advanced_effect st op db db' kind payload q q' t old g g' evs :
  advanced st db db' (op_target op) kind payload q q' t old g g' evs →
  spec_step op (machine (st_current_generation t) (st_state_version t) q)
    (machine (st_current_generation t) (st_state_version t + 1) q') →
  op_effect st op db db'.
Proof.
  intros [Hb _ Ha Hs Hi] Hsp. constructor; [done|by eexists _, _, _| |].
  - rewrite (machine_at_state _ _ _ _ _ _ _ _ Hb), (machine_at_state _ _ _ _ _ _ _ _ Ha). done.
  - rewrite (trail_view _ _ _ _ _ _ (as_view _ _ _ _ _ _ _ _ Hb)).
    rewrite (trail_view _ _ _ _ _ _ (as_view _ _ _ _ _ _ _ _ Ha)). by apply prefix_app_r.
Qed.

Lemma reprepared_effect st r db db' observation b t old g evs :
  reprepared st db db' (rr_transaction_id r) observation b t old g evs →
  rr_resolution r = IntendedEffectAbsent observation b →
  st_current_generation t = rr_expected_generation r →
  st_state_version t = rr_expected_state_version r →
  op_effect st (OpRecover r) db db'.
Proof.
  intros [Hb Ha Hs Hi] Hr Hg Hv. constructor; [done|by eexists _, _, _| |]; cbn [op_target].
  - rewrite (machine_at_state _ _ _ _ _ _ _ _ Hb), (machine_at_state _ _ _ _ _ _ _ _ Ha).
    pose proof (spec_recover r) as Hsp. rewrite Hr in Hsp. cbn. rewrite Hg, Hv. exact Hsp.
  - rewrite (trail_view _ _ _ _ _ _ (as_view _ _ _ _ _ _ _ _ Hb)).
    rewrite (trail_view _ _ _ _ _ _ (as_view _ _ _ _ _ _ _ _ Ha)).
    rewrite <- app_assoc. by apply prefix_app_r.
Qed.

Lemma created_effect st b db db' :
  db_inv st db → created st db db' b → op_effect st (OpPrepare b) db db'.
Proof.
  intros Hinv [Hb Ha Hs Hi]. pose proof (di_orphan _ _ Hinv _ Hb) as Hno.
  constructor; [done|by eexists _, _, _| |]; cbn [op_target].
  - rewrite (machine_at_state _ _ _ _ _ _ _ _ Ha). unfold machine_at.
    rewrite trail_absent by done. constructor.
  - rewrite trail_absent by done. apply prefix_nil.
Qed.

Lemma recover_body_spec st r env s s' out :
  limits_ok (store_limits st) → db_inv st (sess_db s) → resolution_admissible (rr_resolution r) →
  runs (recover_body st r) env s s' out →
  ∃ t old g evs s1, sess_db s1 = sess_db s ∧
    at_state (store_key st) (sess_db s1) (rr_transaction_id r) t old g evs Indeterminate ∧
    st_current_generation t = rr_expected_generation r ∧
    st_state_version t = rr_expected_state_version r ∧
    sg_binding_digest g = rr_expected_binding_digest r ∧
    runs (recover_arm st (rr_transaction_id r) t g (snapshot_for t Indeterminate g)
            (st_state_version t + 1) (rr_resolution r)) env s1 s' out.
Proof.
  intros Hlim Hinv Hadm HH. unfold recover_body in HH. run_inv.
  rename select (runs (enforce_authority_window _ _) _ _ _ _) into Hw.
  apply runs_window in Hw as [-> _].
  rename select (runs (load_current _ _) _ _ _ _) into Hl.
  apply (load_current_inv st) in Hl as (t & old & g & evs & q & -> & Hat & Hd1); [|done].
  run_inv. rename select (assert_expected _ _ _ _ _ = _) into Ha.
  apply assert_expected_Ok in Ha as (Hn & Hv & Hb & Hq). cbn in Hq. subst q.
  rename select (next_version _ = _) into Hnv. apply next_version_Ok in Hnv as ->.
  rewrite <- Hd1 in Hat. eexists t, old, g, evs, _. split_and!; try done.
Qed.

Lemma recover_effect st r env s s' out :
  limits_ok (store_limits st) → db_inv st (sess_db s) → resolution_admissible (rr_resolution r) →
  runs (recover_body st r) env s s' out → op_effect st (OpRecover r) (sess_db s) (sess_db s').
Proof.
  intros Hlim Hinv Hadm HH.
  destruct (recover_body_spec _ _ _ _ _ _ Hlim Hinv Hadm HH)
    as (t & old & g & evs & s1 & Hd & Hat & Hg & Hv & Hb & Hr). rewrite <- Hd in *.
  pose proof (spec_recover r) as Hsp. cbn zeta in Hsp. rewrite <- Hg, <- Hv in Hsp.
  destruct (rr_resolution r) as [o d gr p|o b|o|o] eqn:Er; cbn in Hadm, Hsp;
    rewrite ?Z.add_0_r in Hsp.
  - destruct Hadm as (?&?&?&?).
    eapply recover_verified_spec in Hr as [Hr _]; [|done..]. by eapply advanced_effect.
  - destruct Hadm as [? ?].
    eapply recover_reprepared_spec in Hr as (Hr & _ & _); [|done..]. by eapply reprepared_effect.
  - eapply recover_blocked_spec in Hr as [Hr _]; [|done..]. by eapply advanced_effect.
  - eapply recover_ambiguous_spec in Hr as [Hr _]; [|done..]. by eapply advanced_effect.
Qed.

Lemma op_body_effect st op env s s' u :
  limits_ok (store_limits st) → db_inv st (sess_db s) → op_admissible op →
  runs (op_body st op) env s s' u → op_effect st op (sess_db s) (sess_db s').
Proof.
  intros Hlim Hinv Hadm HH. destruct op as [b|r|r|r|r]; cbn [op_body] in HH; run_inv.
  - apply prepare_body_spec in H1 as [[Hc _]|(t & old & g & evs & Hat & _ & _ & Hd)]; [| |done..].
    + by apply created_effect.
    + rewrite Hd. constructor; [done|by eexists _, _, _; apply step_at_refl| |done].
      cbn [op_target]. rewrite (machine_at_state _ _ _ _ _ _ _ _ Hat). constructor.
  - apply handoff_body_spec in H1 as (t & old & g & g' & evs & Ha & Hg & Hv & _); [|done..].
    eapply advanced_effect; [exact Ha|]. rewrite Hg, Hv. apply spec_handoff.
  - by eapply recover_effect.
  - apply commit_body_spec in H1 as (t & old & g & g' & evs & Ha & Hg & Hv & _); [|done..].
    eapply advanced_effect; [exact Ha|]. rewrite Hg, Hv. apply spec_commit.
  - apply abort_body_spec in H1 as (t & old & g & g' & evs & Ha & Hg & Hv & _); [|done..].
    eapply advanced_effect; [exact Ha|]. rewrite Hg, Hv. apply spec_abort.
Qed.

(** The database after any run of an operation, whatever the environment
    did: unchanged, or changed as its body says. *)
Lemma op_run_effect st op env s s' r :
  limits_ok (store_limits st) → db_inv st (sess_db s) → op_admissible op →
  op_run st op env s = (s', r) →
  (sess_db s' = sess_db s ∧ is_ok r = false) ∨ op_effect st op (sess_db s) (sess_db s').
Proof.
  intros Hlim Hinv Hadm HH. apply op_outcome in HH as [?|(s0 & s1 & u & Hd & Hr & Hd')]; [by left|].
  right. rewrite Hd', <- Hd. eapply op_body_effect; [done|by rewrite Hd|done|exact Hr].
Qed.
End spec.

(** * Runs of the store

    Sequences of requests from an empty database, with any behaviour of the
    environment (failing statements, a refusing or failing filesystem reserve,
    any clock), and the lemmas by induction on them. *)

(** A migrated database without transactions. *)
Record empty_db (db : Database) : Prop := {
  ed_page : page_ok db;
  ed_transactions : transactions db = ∅;
  ed_generations : generations db = ∅;
  ed_events : audit_events db = ∅;
  ed_reservations : audit_reservations db = ∅;
}.

Definition limits_nonneg (l : StoreLimits) : Prop :=
  (0 ≤ max_transactions l)%Z ∧ (0 ≤ max_generations l)%Z ∧ (0 ≤ max_audit_events l)%Z.

(** The same store after a release or a reopening. *)
Definition with_released (st : Store) (released : bool) : Store :=
  {| store_limits := store_limits st; store_verifier := store_verifier st;
     store_key := store_key st; store_opener_released := released |}.

Section runs.
Context `{CryptoLaws}.
Context {Mg : Migrations}.
Implicit Types (st : Store) (db : Database) (id : TransactionId) (op : Operation).

(** One request, in any environment, ending in any result. *)
Inductive store_step st : Database → Database → Prop :=
| store_step_op op released env s s' r :
    op_admissible op → op_run (with_released st released) op env s = (s', r) →
    store_step st (sess_db s) (sess_db s').

Definition store_steps st : Database → Database → Prop := rtc (store_step st).
Definition reachable st db : Prop := ∃ db0, empty_db db0 ∧ store_steps st db0 db.

Lemma db_inv_released st released db : db_inv (with_released st released) db ↔ db_inv st db.
Proof. by split; intros []; constructor. Qed.

Lemma empty_db_inv st db : limits_nonneg (store_limits st) → empty_db db → db_inv st db.
Proof.
  intros (?&?&?) [Hp Ht Hg He Hr]. constructor; [done|..].
  - intros id t. by rewrite Ht.
  - intros id _. unfold no_rows. by rewrite Hg, He, Hr.
  - rewrite Ht. unfold table_count. by rewrite map_size_empty.
  - rewrite Hg. unfold table_count. by rewrite map_size_empty.
  - unfold nonterminal_count. rewrite He, Ht, map_to_list_empty.
    unfold table_count. by rewrite map_size_empty.
Qed.

(** One step of the store keeps the invariant, moves one transaction as the
    contract says and no other. *)
Lemma store_step_effect st db db' :
  limits_ok (store_limits st) → db_inv st db → store_step st db db' →
  db_inv st db' ∧
  ∀ id, machine_at db' id = machine_at db id ∧ trail db' id = trail db id ∨
    (∃ op, spec_step op (machine_at db id) (machine_at db' id) ∧
           trail db id `prefix_of` trail db' id).
Proof.
  intros Hlim Hinv HS. revert Hinv. destruct HS as [op released env s s' r Hadm HH]. intros Hinv.
  assert (db_inv (with_released st released) (sess_db s)) as Hinv' by by apply db_inv_released.
  destruct (op_run_effect (with_released st released) _ _ _ _ _ Hlim Hinv' Hadm HH) as [[Hd _]|[Hi Hs Hsp Htr]].
  - rewrite Hd. split; [done|]. intros id. by left.
  - rewrite db_inv_released in Hi. split; [done|]. intros id.
    destruct (decide (id = op_target op)) as [->|Hne]; [right; by exists op|left].
    destruct Hs as (dt & dg & de & Hs).
    assert (trail (sess_db s') id = trail (sess_db s) id) as Ht.
    { apply trail_same; [by apply (sp_events _ _ _ _ _ _ Hs)|].
      eexists. by eapply inv_trail_contig. }
    unfold machine_at. by rewrite Ht.
Qed.

Lemma store_steps_inv st db db' :
  limits_ok (store_limits st) → db_inv st db → store_steps st db db' → db_inv st db'.
Proof.
  intros Hlim Hinv Hs. induction Hs as [|db db1 db' Hs _ IH]; [done|].
  by apply IH, (store_step_effect st db db1).
Qed.

Lemma store_steps_prefix st db db' id :
  limits_ok (store_limits st) → db_inv st db → store_steps st db db' →
  trail db id `prefix_of` trail db' id.
Proof.
  intros Hlim Hinv Hs. induction Hs as [|db db1 db' Hs _ IH]; [done|].
  destruct (store_step_effect _ _ _ Hlim Hinv Hs) as [Hinv1 Heff].
  etrans; [|by apply IH]. destruct (Heff id) as [[_ ->]|(op & _ & ?)]; done.
Qed.

(** A terminal machine has no step of the contract. *)
Lemma spec_step_terminal op g v q o :
  is_terminal q = true → ¬ spec_step op (machine g v q) o.
Proof. intros Hq Hs. inversion Hs; subst; done. Qed.

Lemma store_steps_terminal st db db' id g v q :
  limits_ok (store_limits st) → db_inv st db → store_steps st db db' →
  machine_at db id = machine g v q → is_terminal q = true →
  machine_at db' id = machine g v q ∧ trail db' id = trail db id.
Proof.
  intros Hlim Hinv Hs Hm Hq. induction Hs as [|db db1 db' Hs _ IH]; [done|].
  destruct (store_step_effect _ _ _ Hlim Hinv Hs) as [Hinv1 Heff].
  destruct (Heff id) as [[Hm' Ht]|(op & Hsp & _)].
  - rewrite <- Ht. apply IH; [done|]. congruence.
  - rewrite Hm in Hsp. by apply spec_step_terminal in Hsp.
Qed.

(** Every trail of a database with the invariant replays to a live machine,
    the one of its pointer row. *)
Lemma inv_history st db id t :
  db_inv st db → transactions db !! id = Some t →
  ∃ q, history (event_of <$> trail db id)
         {| m_generation := st_current_generation t; m_version := st_state_version t;
            m_phase := Live q |}.
Proof.
  intros Hinv Ht. destruct (di_tx _ _ Hinv _ _ Ht) as (old & g & evs & q & Hv & Hok).
  exists q. rewrite (trail_view _ _ _ _ _ _ Hv). apply (to_history _ _ _ _ _ _ _ Hok).
Qed.

Lemma current_generation_row k db id t old g evs q n :
  view db id t (old ++ [g]) evs n → tx_ok k id t old g evs q →
  generations db !! (id, st_current_generation t) = Some g.
Proof.
  intros Hv Hok. rewrite (to_current _ _ _ _ _ _ _ Hok).
  eapply contig_lookup; [apply Hv|]. rewrite lookup_app_r, Nat.sub_diag by lia. done.
Qed.

Lemma committed_trail st db id t g :
  db_inv st db → transactions db !! id = Some t →
  generations db !! (id, st_current_generation t) = Some g → sg_state g = "committed" →
  ∃ l e1 e2 desired graph provenance,
    trail db id = l ++ [e1; e2] ∧
    event_of e1 = {| ev_kind := "recovery-verified"; ev_generation := st_current_generation t;
                     ev_version := st_state_version t - 1 |} ∧
    event_of e2 = {| ev_kind := "committed"; ev_generation := st_current_generation t;
                     ev_version := st_state_version t |} ∧
    commit_material g = [Some desired; Some graph; Some provenance] ∧
    sa_payload_digest e2 = commit_payload desired graph provenance.
Proof.
  intros Hinv Ht Hg Hq. destruct (di_tx _ _ Hinv _ _ Ht) as (old & g' & evs & q & Hv & Hok).
  rewrite (current_generation_row _ _ _ _ _ _ _ _ _ Hv Hok) in Hg. injection Hg as <-.
  pose proof (go_state _ _ _ _ _ (to_gen _ _ _ _ _ _ _ Hok)) as Hst. rewrite Hq in Hst.
  assert (q = Committed) as -> by (by destruct q).
  rewrite (trail_view _ _ _ _ _ _ Hv).
  destruct (history_committed _ _ (to_history _ _ _ _ _ _ _ Hok) eq_refl) as (l & Hl).
  apply fmap_app_inv in Hl as (l1 & l2 & _ & Hl2 & ->).
  destruct l2 as [|e1 [|e2 [|]]]; try done. cbn in Hl2.
  destruct (go_material _ _ _ _ _ (to_gen _ _ _ _ _ _ _ Hok)) as (d & gr & p & Hd & Hgr & Hp & _).
  rewrite !cons_eq_iff in Hl2. destruct Hl2 as (He1 & He2 & _).
  exists l1, e1, e2, d, gr, p. split_and!; [done|by rewrite <- He1|by rewrite <- He2|..].
  - unfold commit_material. by rewrite Hd, Hgr, Hp.
  - eapply (to_payload _ _ _ _ _ _ _ Hok); [|done..].
    by rewrite last_app.
Qed.
End runs.

(** * Facts about the concrete store

    The requests of [Scenario] are admissible, its databases are reachable
    and carry the invariant.  The witnesses of the store theorems use these. *)

From S2P Require Import CryptoModel Scenario.

Lemma demo_binding_ok : admissible_binding demo_binding.
Proof.
  assert (demo_binding_result = Ok demo_binding) as Hr by (vm_compute; reflexivity).
  apply try_new_ok in Hr as (Hb & _). constructor; [done|vm_compute; reflexivity..|].
  split_and!; vm_compute; reflexivity.
Qed.

Lemma demo_limits_ok : limits_ok (store_limits demo_store).
Proof. split; vm_compute; reflexivity. Qed.
Lemma demo_limits_nonneg : limits_nonneg (store_limits demo_store).
Proof. split_and!; vm_compute; discriminate. Qed.

Lemma demo_empty : empty_db demo_db.
Proof. constructor; try reflexivity. split; vm_compute; discriminate. Qed.

(** One request without faults is a step. *)
Lemma demo_step op db :
  op_admissible op → store_step demo_store db (run_db (op_run demo_store op) db).
Proof.
  intros Hadm. unfold run_db.
  destruct (op_run demo_store op demo_env (demo_session db)) as [s' r] eqn:E.
  by apply (store_step_op demo_store op false demo_env (demo_session db) s' r).
Qed.

Lemma run_db_unit {A} (m : M A) db : run_db (m;; mret tt) db = run_db m db.
Proof. unfold run_db, mbind, M_bind. by destruct (m _ _) as [s' [a|e]]. Qed.

(** The digests of the requests, as their constructors validated them. *)
Lemma demo_digest_ok name : valid_digest (demo_digest name).
Proof. unfold valid_digest, demo_digest, digest_bytes. apply digest_parts_valid. Qed.

Lemma demo_handoff_ok : op_admissible (OpHandoff demo_handoff).
Proof. vm_compute. reflexivity. Qed.
Lemma demo_verified_resolution :
  rr_resolution demo_verified
  = IntendedStateVerified (demo_digest "post") (demo_digest "desired") (demo_digest "graph")
      (demo_digest "provenance").
Proof. vm_compute. reflexivity. Qed.
Lemma demo_verified_ok : op_admissible (OpRecover demo_verified).
Proof. cbn. rewrite demo_verified_resolution. split_and!; apply demo_digest_ok. Qed.

#[global] Opaque demo_db demo_binding demo_handoff demo_verified demo_commit.

Lemma step_prepared : store_step demo_store demo_db db_prepared.
Proof.
  unfold db_prepared. rewrite <- run_db_unit. apply (demo_step (OpPrepare demo_binding)).
  apply demo_binding_ok.
Qed.
#[global] Opaque db_prepared.
Lemma step_indeterminate : store_step demo_store db_prepared db_indeterminate.
Proof.
  unfold db_indeterminate. rewrite <- run_db_unit. apply (demo_step (OpHandoff demo_handoff)).
  apply demo_handoff_ok.
Qed.
#[global] Opaque db_indeterminate.
Lemma step_verified : store_step demo_store db_indeterminate db_verified.
Proof.
  unfold db_verified. rewrite <- run_db_unit. apply (demo_step (OpRecover demo_verified)).
  apply demo_verified_ok.
Qed.
#[global] Opaque db_verified.
Lemma step_committed : store_step demo_store db_verified db_committed.
Proof.
  unfold db_committed. rewrite <- run_db_unit. apply (demo_step (OpCommit demo_commit)).
  exact I.
Qed.

#[global] Opaque db_committed.

(** The five databases of the run from [demo_db] to [db_committed]. *)
Inductive on_run : Database → Prop :=
| on_demo : on_run demo_db
| on_prepared : on_run db_prepared
| on_indeterminate : on_run db_indeterminate
| on_verified : on_run db_verified
| on_committed : on_run db_committed.

Lemma on_run_reachable db : on_run db → reachable demo_store db.
Proof.
  assert (∀ a b, reachable demo_store a → store_step demo_store a b → reachable demo_store b) as Hn.
  { intros a b (db0 & He & Hs) Hab. exists db0. split; [done|]. by eapply rtc_r. }
  assert (reachable demo_store demo_db) as H0.
  { exists demo_db. split; [apply demo_empty|apply rtc_refl]. }
  pose proof (Hn _ _ H0 step_prepared) as H1. pose proof (Hn _ _ H1 step_indeterminate) as H2.
  pose proof (Hn _ _ H2 step_verified) as H3. pose proof (Hn _ _ H3 step_committed) as H4.
  destruct 1; assumption.
Qed.

Lemma steps_to_committed : store_steps demo_store db_prepared db_committed.
Proof.
  eapply rtc_l; [apply step_indeterminate|]. eapply rtc_l; [apply step_verified|].
  eapply rtc_l; [apply step_committed|]. apply rtc_refl.
Qed.

Lemma demo_inv db :
  on_run db → db_inv demo_store db.
Proof.
  intros (db0 & He & Hs)%on_run_reachable. eapply store_steps_inv; [apply demo_limits_ok| |done].
  apply empty_db_inv; [apply demo_limits_nonneg|done].
Qed.

(** What the witnesses read off a database, evaluated once per database. *)
Record Observation := {
  ob_machine : option Machine;
  ob_events : nat;
  ob_handoffs : nat;
  ob_state : option string;
}.
Definition observe (db : Database) : Observation :=
  let l := event_of <$> trail db demo_id in
  {| ob_machine := replay l; ob_events := length l; ob_handoffs := handoffs 0 l;
     ob_state := t ← transactions db !! demo_id;
                 sg_state <$> (generations db !! (demo_id, st_current_generation t)) |}.

Lemma observe_committed :
  observe db_committed = {| ob_machine := machine 0 4 Committed; ob_events := 4; ob_handoffs := 1;
                            ob_state := Some "committed" |}.
Proof. vm_compute. reflexivity. Qed.

Lemma committed_machine : machine_at db_committed demo_id = machine 0 4 Committed.
Proof. exact (f_equal ob_machine observe_committed). Qed.
