(* ===== verification/StoreSafety.v ===== *)
(** * Safety of the store

    The theorems on every run of the store: the invariant, the refinement of
    the protocol, atomicity, and what follows for the audit trail. *)

From Stdlib Require Import ZArith Lia.
From Stdlib Require Import Strings.Byte.
From stdpp Require Import base numbers gmap strings list fin_maps sorting.
From S2P Require Import Prelude Text Core Digest Binding Authority Sqlite Integrity.
From S2P Require Import Validation Store Run Protocol StoreInvariant.
From S2P Require Import StoreWrites StoreRefine StoreSpec.
From S2P Require Import CryptoModel Scenario.

Set Default Goal Selector "!".

Section safety.
Context `{CryptoLaws}.
Context {Mg : Migrations}.
Implicit Types (st : Store) (db : Database) (id : TransactionId) (op : Operation).

(** C3: The database invariant (every transaction well formed and
    authenticated, its audit trail hash-chained and a run of the protocol
    machine that ends in the stored state, no orphan rows, one physical
    reservation per nonterminal transaction, the capacity bounds) is kept by
    every request, whatever the environment does and whatever the result. *)
Theorem operation_preserves_invariant st op env s s' r
    (Hlim : limits_ok (store_limits st)) (Hinv : db_inv st (sess_db s))
    (Hadm : op_admissible op) (Hrun : op_run st op env s = (s', r)) :
  db_inv st (sess_db s').
Proof.
  destruct (op_run_effect _ _ _ _ _ _ Hlim Hinv Hadm Hrun) as [[-> _]|[Hi _ _ _]]; done.
Qed.

(** C1: Refinement.  A request that reports success has taken the contract
    step of its operation on its own transaction; a request that reports an
    error has taken that step or changed nothing; in every case no other
    transaction moved. *)
Theorem operation_refines_protocol st op env s s' r
    (Hlim : limits_ok (store_limits st)) (Hinv : db_inv st (sess_db s))
    (Hadm : op_admissible op) (Hrun : op_run st op env s = (s', r)) :
  let before := machine_at (sess_db s) in
  let after := machine_at (sess_db s') in
  (∀ id, id ≠ op_target op → after id = before id) ∧
  (is_ok r = true → spec_step op (before (op_target op)) (after (op_target op))) ∧
  (is_ok r = false →
     sess_db s' = sess_db s ∨ spec_step op (before (op_target op)) (after (op_target op))).
Proof.
  destruct (op_run_effect _ _ _ _ _ _ Hlim Hinv Hadm Hrun) as [[-> Hr]|[_ Hs Hsp _]].
  - split_and!; [done|by rewrite Hr|by left].
  - split_and!; [|done|by right]. destruct Hs as (dt & dg & de & Hs). intros id Hne.
    unfold machine_at. rewrite (trail_same (sess_db s)); [done|by apply (sp_events _ _ _ _ _ _ Hs)|].
    eexists. by eapply inv_trail_contig.
Qed.

(** C4: Atomicity, on any database, even a corrupt one: after a request the
    database is the one before, with an error reported, or the one its
    complete transaction body left. *)
Theorem operation_is_atomic st op env s s' r (Hrun : op_run st op env s = (s', r)) :
  (sess_db s' = sess_db s ∧ is_ok r = false) ∨
  ∃ s0 s1, sess_db s0 = sess_db s ∧ runs (op_body st op) env s0 s1 tt ∧ sess_db s' = sess_db s1.
Proof.
  apply op_outcome in Hrun as [?|(s0 & s1 & [] & ?)]; [by left|right; by exists s0, s1].
Qed.

(** C5: In every reachable database the audit trail of a transaction holds
    at most one handoff per generation: authority over one generation is
    used at most once. *)
Theorem reachable_single_handoff st db id g
    (Hlim : limits_ok (store_limits st)) (Hnn : limits_nonneg (store_limits st))
    (Hreach : reachable st db) :
  (handoffs g (event_of <$> trail db id) ≤ 1)%nat.
Proof.
  destruct Hreach as (db0 & He & Hs). apply store_steps_inv in Hs; [|done|by apply empty_db_inv].
  destruct (transactions db !! id) as [t|] eqn:Ht.
  - destruct (inv_history _ _ _ _ Hs Ht) as (q & Hh). by apply history_handoffs in Hh as (_&_&?).
  - rewrite trail_absent by (by apply (di_orphan _ _ Hs)). cbn. lia.
Qed.

(** C28: In every reachable database, when the current generation of a
    transaction is stored as committed, its trail ends with the verification
    of that generation and the commit that follows it at the next version,
    and the commit event carries the digest of the stored commit material. *)
Theorem reachable_commit_is_verified st db id t g
    (Hlim : limits_ok (store_limits st)) (Hnn : limits_nonneg (store_limits st))
    (Hreach : reachable st db) (Ht : transactions db !! id = Some t)
    (Hg : generations db !! (id, st_current_generation t) = Some g)
    (Hq : sg_state g = "committed") :
  ∃ l e1 e2 desired graph provenance,
    trail db id = l ++ [e1; e2] ∧
    event_of e1 = {| ev_kind := "recovery-verified"; ev_generation := st_current_generation t;
                     ev_version := st_state_version t - 1 |} ∧
    event_of e2 = {| ev_kind := "committed"; ev_generation := st_current_generation t;
                     ev_version := st_state_version t |} ∧
    commit_material g = [Some desired; Some graph; Some provenance] ∧
    sa_payload_digest e2 = commit_payload desired graph provenance.
Proof.
  destruct Hreach as (db0 & He & Hs). apply store_steps_inv in Hs; [|done|by apply empty_db_inv].
  by apply (committed_trail st).
Qed.

(** Terminal states are final: once a transaction is committed, aborted
    or blocked, no sequence of requests changes its state or its trail. *)
Theorem terminal_state_is_final st db db' id g v q
    (Hlim : limits_ok (store_limits st)) (Hinv : db_inv st db)
    (Hm : machine_at db id = machine g v q) (Hq : is_terminal q = true)
    (Hs : store_steps st db db') :
  machine_at db' id = machine g v q ∧ trail db' id = trail db id.
Proof. by eapply store_steps_terminal. Qed.

(** The audit trail is append-only: across any sequence of requests the
    trail of every transaction keeps its events as a prefix. *)
Theorem audit_trail_append_only st db db' id
    (Hlim : limits_ok (store_limits st)) (Hinv : db_inv st db)
    (Hs : store_steps st db db') :
  trail db id `prefix_of` trail db' id.
Proof. by eapply store_steps_prefix. Qed.
End safety.

(** ** Witnesses *)

Lemma operation_preserves_invariant_witness :
  db_inv demo_store (run_db (op_run demo_store (OpHandoff demo_handoff)) db_prepared).
Proof.
  unfold run_db.
  destruct (op_run demo_store (OpHandoff demo_handoff) demo_env (demo_session db_prepared))
    as [s' r] eqn:E.
  exact (operation_preserves_invariant demo_store (OpHandoff demo_handoff) demo_env
    (demo_session db_prepared) s' r demo_limits_ok (demo_inv _ on_prepared) demo_handoff_ok E).
Defined.

Lemma operation_refines_protocol_witness :
  spec_step (OpHandoff demo_handoff) (machine_at db_prepared demo_id)
    (machine_at (run_db (op_run demo_store (OpHandoff demo_handoff)) db_prepared) demo_id).
Proof.
  assert (is_ok (run_result (op_run demo_store (OpHandoff demo_handoff)) db_prepared) = true) as Hok
    by (vm_compute; reflexivity).
  assert (op_target (OpHandoff demo_handoff) = demo_id) as Ht by (vm_compute; reflexivity).
  unfold run_db, run_result in *. rewrite <- Ht.
  destruct (op_run demo_store (OpHandoff demo_handoff) demo_env (demo_session db_prepared))
    as [s' r] eqn:E.
  exact (proj1 (proj2 (operation_refines_protocol demo_store (OpHandoff demo_handoff) demo_env
    (demo_session db_prepared) s' r demo_limits_ok (demo_inv _ on_prepared) demo_handoff_ok E)) Hok).
Defined.

Lemma operation_is_atomic_witness :
  let s := demo_session db_prepared in
  let after := op_run demo_store (OpHandoff demo_handoff) demo_env s in
  (sess_db (fst after) = sess_db s ∧ is_ok (snd after) = false) ∨
  ∃ s0 s1, sess_db s0 = sess_db s ∧
    runs (op_body demo_store (OpHandoff demo_handoff)) demo_env s0 s1 tt ∧
    sess_db (fst after) = sess_db s1.
Proof.
  intros s after. apply (operation_is_atomic demo_store (OpHandoff demo_handoff) demo_env s).
  unfold after. apply surjective_pairing.
Defined.

Lemma reachable_single_handoff_witness :
  (handoffs 0 (event_of <$> trail db_committed demo_id) ≤ 1)%nat ∧
  handoffs 0 (event_of <$> trail db_committed demo_id) = 1%nat.
Proof.
  split; [|exact (f_equal ob_handoffs observe_committed)].
  exact (reachable_single_handoff demo_store db_committed demo_id 0 demo_limits_ok
    demo_limits_nonneg (on_run_reachable _ on_committed)).
Defined.

Lemma reachable_commit_is_verified_witness :
  ∃ t g, transactions db_committed !! demo_id = Some t ∧
    generations db_committed !! (demo_id, st_current_generation t) = Some g ∧
    ∃ l e1 e2 d gr p, trail db_committed demo_id = l ++ [e1; e2] ∧
      event_of e1 = {| ev_kind := "recovery-verified"; ev_generation := st_current_generation t;
                       ev_version := st_state_version t - 1 |} ∧
      event_of e2 = {| ev_kind := "committed"; ev_generation := st_current_generation t;
                       ev_version := st_state_version t |} ∧
      commit_material g = [Some d; Some gr; Some p] ∧
      sa_payload_digest e2 = commit_payload d gr p.
Proof.
  pose proof (f_equal ob_state observe_committed) as Hrow. cbn [ob_state observe] in Hrow.
  destruct (transactions db_committed !! demo_id) as [t|] eqn:Et; [|discriminate Hrow].
  cbn [mbind option_bind] in Hrow.
  destruct (generations db_committed !! (demo_id, st_current_generation t)) as [g|] eqn:Eg;
    [|discriminate Hrow]. injection Hrow as Hq.
  exists t, g. split; [reflexivity|split; [exact Eg|]].
  exact (reachable_commit_is_verified demo_store db_committed demo_id t g demo_limits_ok
    demo_limits_nonneg (on_run_reachable _ on_committed) Et Eg Hq).
Defined.

Lemma terminal_state_is_final_witness :
  machine_at (run_db (op_run demo_store (OpHandoff demo_handoff)) db_committed) demo_id
  = machine 0 4 Committed.
Proof.
  exact (proj1 (terminal_state_is_final demo_store db_committed _ demo_id 0 4 Committed
    demo_limits_ok (demo_inv _ on_committed) committed_machine eq_refl
    (rtc_once _ _ (demo_step (OpHandoff demo_handoff) db_committed demo_handoff_ok)))).
Defined.

Lemma audit_trail_append_only_witness :
  trail db_prepared demo_id `prefix_of` trail db_committed demo_id ∧
  length (event_of <$> trail db_committed demo_id) = 4%nat.
Proof.
  split; [|exact (f_equal ob_events observe_committed)].
  exact (audit_trail_append_only demo_store db_prepared db_committed demo_id demo_limits_ok
    (demo_inv _ on_prepared) steps_to_committed).
Defined.
