(* ===== verification/IntegrityComplete.v ===== *)
(** * Loading well-formed transactions

    Every record of a database with the invariant decodes and authenticates,
    so that [load_current] and the reads built on it succeed and return the
    stored state. *)

From Stdlib Require Import ZArith Lia.
From Stdlib Require Import Strings.Byte.
From stdpp Require Import base numbers gmap strings list fin_maps sorting.
From S2P Require Import Prelude Text Core Digest Binding Authority Sqlite Integrity.
From S2P Require Import Validation Store Run Protocol StoreInvariant.
From S2P Require Import StoreWrites StoreRefine StoreSpec.

Set Default Goal Selector "!".

(** ** Length bounds *)

Lemma out_of_bounds_false s m : (1 ≤ str_len s ≤ m)%Z → out_of_bounds s m = false.
Proof. intros Hs. unfold out_of_bounds. lia. Qed.

Lemma digest_length_ok d : valid_digest d → bad_digest_length d = false.
Proof. intros Hd. unfold bad_digest_length, str_len. by rewrite (ContentDigest_length _ Hd). Qed.

Lemma tag_length_ok `{CryptoLaws} k domain c : bad_tag_length (integrity_tag k domain c) = false.
Proof. unfold bad_tag_length. by rewrite length_integrity_tag. Qed.

Lemma core_id_length label v : typed_id_new label v = Ok v → (1 ≤ str_len v ≤ 256)%Z.
Proof.
  intros (_ & Hne & Hl & _)%typed_id_new_Ok. split; [|done]. unfold str_len.
  destruct v; [done|]. cbn. lia.
Qed.

Lemma namespace_length `{CryptoLaws} p r : str_len (TransactionId_for_namespace p r) = 79%Z.
Proof. unfold str_len. by rewrite length_for_namespace. Qed.

Lemma event_kind_length `{Crypto} kind q :
  state_for_event_kind kind = Ok q → (1 ≤ str_len kind ≤ 64)%Z.
Proof.
  unfold state_for_event_kind.
  repeat (case_bool_decide; [subst; intros _; split; vm_compute; discriminate|]; cbn [orb]).
  done.
Qed.

Lemma state_text_length q : (1 ≤ str_len (TransactionState_as_str q) ≤ 32)%Z.
Proof. destruct q; split; vm_compute; discriminate. Qed.

Section load.
Context `{CryptoLaws}.
Context {Mg : Migrations}.
Implicit Types (k : SqliteIntegrityKey) (t : StoredTransaction) (g : StoredGeneration)
  (e : StoredAuditEvent) (db : Database) (id : string).

Lemma tx_id_length k id t old g evs q : tx_ok k id t old g evs q → str_len id = 79%Z.
Proof. intros Hok. rewrite (to_namespace _ _ _ _ _ _ _ Hok). apply namespace_length. Qed.

(** ** Records *)

Lemma decode_transaction_ok k id t old g evs q :
  tx_ok k id t old g evs q → decode_transaction k t = Ok t.
Proof.
  intros Hok. pose proof (tx_id_length _ _ _ _ _ _ _ Hok) as Hlen.
  destruct Hok as [Hid _ Hp Hr Htag Hcur _ _ _ _ Hh _].
  destruct (history_version _ _ Hh) as [Hv _]. cbn in Hv.
  apply core_id_length in Hp, Hr. unfold decode_transaction.
  rewrite Htag at 1. unfold transaction_tag. rewrite tag_length_ok.
  rewrite !out_of_bounds_false by
    (rewrite ?Hid, ?Hlen; unfold MAX_TRANSACTION_ID_BYTES, MAX_PERSISTED_PRINCIPAL_BYTES,
       MAX_PERSISTED_REQUEST_ID_BYTES; lia).
  rewrite (proj2 (Z.ltb_ge (st_current_generation t) 0)) by lia.
  rewrite (proj2 (Z.ltb_ge (st_state_version t) 0)) by lia.
  cbn. by rewrite (proj2 (authenticate_transaction_Ok k t tt) Htag).
Qed.

Lemma material_lengths s g o :
  material_ok s g → In o (commit_material g) → bad_optional_digest_length o = false.
Proof.
  intros Hm Hin. unfold commit_material in Hin.
  assert ((∃ d gr p, sg_desired_state_digest g = Some d ∧ sg_graph_digest g = Some gr ∧
            sg_provenance_digest g = Some p ∧ valid_digest d ∧ valid_digest gr ∧ valid_digest p) ∨
          (sg_desired_state_digest g = None ∧ sg_graph_digest g = None ∧
           sg_provenance_digest g = None)) as Hc by (destruct s; cbn in Hm; auto).
  destruct Hc as [(d & gr & p & -> & -> & -> & ? & ? & ?)|(-> & -> & ->)] in Hin;
    destruct Hin as [<-|[<-|[<-|[]]]]; cbn; auto using digest_length_ok.
Qed.

Lemma decode_generation_ok k id n q g :
  gen_ok k id n q g → str_len id = 79%Z → decode_generation k g = Ok g.
Proof.
  intros [Hid Hn Hst Hm (H1 & H2 & H3 & H4) _ Hb Htag] Hlen. unfold decode_generation.
  rewrite Htag at 1. unfold generation_tag. rewrite tag_length_ok.
  pose proof (state_text_length q) as Hq.
  rewrite !out_of_bounds_false by
    (rewrite ?Hid, ?Hlen, ?Hst; unfold MAX_TRANSACTION_ID_BYTES, MAX_STATE_TEXT_BYTES; lia).
  rewrite !digest_length_ok by done.
  rewrite !(material_lengths q g) by (first [done | unfold commit_material; cbn; tauto]).
  rewrite (proj2 (Z.ltb_ge MAX_AUTHORITY_BINDING_BYTES _)) by lia.
  rewrite (proj2 (Z.ltb_ge (sg_generation g) 0)) by lia.
  cbn. by rewrite (proj2 (authenticate_generation_Ok k g tt) Htag).
Qed.

Lemma trail_digest_valid k id evs : trail_ok k id evs → valid_digest (trail_digest evs).
Proof.
  destruct 1 as [|evs e _ He]; [auto with linura|].
  unfold trail_digest. rewrite last_snoc, (eo_digest _ _ _ _ He). auto with linura.
Qed.

Lemma decode_event_ok k id evs e :
  trail_ok k id evs → event_ok k id evs e → str_len id = 79%Z → decode_audit_event k e = Ok e.
Proof.
  intros Htr He Hlen. pose proof (trail_digest_valid _ _ _ Htr) as Hpv.
  destruct He as [Hid Hs [Hg Hv] [q Hk] Hp Hprev Hd Htag].
  apply event_kind_length in Hk. rewrite <- Hprev in Hpv. unfold decode_audit_event.
  rewrite Htag at 1. unfold audit_tag. rewrite tag_length_ok.
  rewrite !out_of_bounds_false by
    (rewrite ?Hid, ?Hlen; unfold MAX_TRANSACTION_ID_BYTES, MAX_AUDIT_EVENT_KIND_BYTES; lia).
  rewrite !digest_length_ok by (done || rewrite Hd; auto with linura).
  rewrite (proj2 (Z.ltb_ge (sa_event_sequence e) 0)) by lia.
  rewrite (proj2 (Z.ltb_ge (sa_generation e) 0)) by lia.
  rewrite (proj2 (Z.ltb_ge (sa_state_version e) 0)) by lia.
  cbn. by rewrite (proj2 (authenticate_audit_Ok k e tt) Htag).
Qed.

Lemma decode_trail_ok k id evs :
  trail_ok k id evs → str_len id = 79%Z → decode_audit_events k evs = Ok evs.
Proof.
  intros Htr Hlen.
  assert (∀ l1 l2, decode_audit_events k l1 = Ok l1 → decode_audit_events k l2 = Ok l2 →
            decode_audit_events k (l1 ++ l2) = Ok (l1 ++ l2)) as Happ.
  { intros l1 l2 H1 H2. revert H1. induction l1 as [|e l1 IH]; [done|]. cbn. intros HH. ok_inv.
    rename select (decode_audit_event _ _ = _) into He. rewrite He. cbn. by rewrite IH. }
  induction Htr as [|evs e Htr IH He]; [done|]. apply Happ; [done|]. cbn.
  by rewrite (decode_event_ok _ _ _ _ Htr He).
Qed.

(** ** Total reads *)

Context {env : Env} (Hff : fault_free env).

Lemma tw_load_transaction b k db id t old g evs q (Q : Database → StoredTransaction → Prop) :
  at_state k db id t old g evs q → Q db t → tw env b (load_transaction k id) db Q.
Proof.
  intros [Hv Hok] HQ. unfold load_transaction. do 2 tw_step Hff.
  rewrite (vw_transaction _ _ _ _ _ _ Hv).
  eapply tw_lift; [by eapply decode_transaction_ok|done].
Qed.

(** A stored generation, current or retired, loads. *)
Lemma tw_load_generation b k db id t old g evs q n g' (Q : Database → StoredGeneration → Prop) :
  at_state k db id t old g evs q → (old ++ [g]) !! n = Some g' →
  Q db g' → tw env b (load_generation k id (Z.of_nat n)) db Q.
Proof.
  intros [Hv Hok] Hl HQ. unfold load_generation. pose proof (lookup_lt_Some _ _ _ Hl) as Hlt.
  rewrite length_app in Hlt. cbn in Hlt.
  pose proof (to_current _ _ _ _ _ _ _ Hok) as Hcur. pose proof (to_bound _ _ _ _ _ _ _ Hok) as Hbd.
  tw_step Hff. eapply tw_lift.
  { apply as_i64_Ok. split; [done|]. unfold MAX_TRANSACTION_GENERATIONS, i64_max in *. lia. }
  do 2 tw_step Hff. rewrite (contig_lookup _ _ _ _ _ (vw_generations _ _ _ _ _ _ Hv) Hl).
  eapply tw_lift; [|done]. pose proof (tx_id_length _ _ _ _ _ _ _ Hok) as Hlen.
  apply lookup_app_Some in Hl as [Hl|[_ Hl]].
  - eapply decode_generation_ok; [by apply (to_old _ _ _ _ _ _ _ Hok)|done].
  - apply list_lookup_singleton_Some in Hl as [_ <-].
    eapply decode_generation_ok; [apply (to_gen _ _ _ _ _ _ _ Hok)|done].
Qed.

Lemma tw_load_last b k db id t gens evs n (Q : Database → option StoredAuditEvent → Prop) :
  view db id t gens evs n → trail_ok k id evs → str_len id = 79%Z →
  Q db (last evs) → tw env b (load_last_audit_event k id) db Q.
Proof.
  intros Hv Htr Hlen HQ. unfold load_last_audit_event. do 2 tw_step Hff.
  rewrite <- fmap_last, (contig_rows_snd _ _ _ (vw_events _ _ _ _ _ _ Hv)).
  destruct Htr as [|evs e Htr He]; [by cbn [last]; tw_step Hff|]. rewrite last_snoc in *.
  tw_step Hff. eapply tw_lift; [by eapply decode_event_ok|]. by tw_step Hff.
Qed.

(** The tail of a trail agrees with the state it led to. *)
Lemma history_tail l a q :
  history l a → m_phase a = Live q →
  ∃ e : Event, last l = Some e ∧ ev_generation e = m_generation a ∧ ev_version e = m_version a ∧
    state_for_event_kind (ev_kind e) = Ok q.
Proof.
  destruct 1 as [|l a e a' Hl He].
  { intros [= <-]. by exists first_event. }
  intros Hq. exists e. rewrite last_snoc. split; [done|].
  apply apply_event_Some in He as (Hp%next_phase_transition & Hg & Hv & _). split_and!; [done..|].
  rewrite Hq in Hp. by inversion Hp.
Qed.

Lemma tx_tail k id t old g evs q :
  tx_ok k id t old g evs q →
  ∃ e, last evs = Some e ∧ sa_generation e = st_current_generation t ∧
    sa_state_version e = st_state_version t ∧ state_for_event_kind (sa_event_kind e) = Ok q.
Proof.
  intros Hok. destruct (history_tail _ _ q (to_history _ _ _ _ _ _ _ Hok) eq_refl)
    as (ev & Hl & Hg & Hv & Hk).
  rewrite fmap_last in Hl. destruct (last evs) as [e|]; [|done]. injection Hl as <-. by exists e.
Qed.

Lemma tw_load_current b k db id t old g evs q
    (Q : Database → StoredTransaction * StoredGeneration * TransactionSnapshot → Prop) :
  at_state k db id t old g evs q → Q db (t, g, snapshot_for t q g) →
  tw env b (load_current k id) db Q.
Proof.
  intros Hat HQ. pose proof Hat as [Hv Hok]. unfold load_current.
  tw_step Hff. eapply tw_load_transaction; [done|].
  tw_step Hff. rewrite (to_current _ _ _ _ _ _ _ Hok).
  eapply (tw_load_generation _ _ _ _ _ _ _ _ _ (length old)); [done| |].
  { rewrite lookup_app_r, Nat.sub_diag by lia. done. }
  tw_step Hff. eapply tw_lift; [by eapply snapshot_tx_ok|].
  tw_step Hff. eapply tw_load_last; [done|apply Hok|by eapply tx_id_length|].
  destruct (tx_tail _ _ _ _ _ _ _ Hok) as (e & -> & Hg & Hver & Hk).
  tw_step Hff. eapply tw_lift; [done|]. cbn [ts_current_generation ts_state_version snapshot_for].
  rewrite Hg, Hver, !Z.eqb_refl. cbn [negb orb].
  tw_step Hff. eapply tw_lift; [done|]. rewrite bool_decide_eq_true_2 by done. cbn [negb]. by tw_step Hff.
Qed.
End load.

(** * The integrity check accepts every well-formed database

    Without faults, on an installed schema, [integrity_check] (and the
    reservation validation every mutation ends with) succeeds on any database
    with the invariant. *)

(** The limits fit the signed integers SQLite stores. *)
Definition limits_i64 (l : StoreLimits) : Prop :=
  (max_transactions l ≤ i64_max)%Z ∧ (max_generations l ≤ i64_max)%Z ∧
  (max_audit_events l ≤ i64_max)%Z.

Lemma limits_i64_ok l : limits_i64 l → limits_ok l.
Proof. intros (? & ? & _). unfold limits_ok, i64_max, u64_max in *. lia. Qed.

(** ** Rows of one transaction and of all *)

Section row_counts.
Context {V : Type}.
Implicit Types (m : gmap (string * Z) V) (id : string).

Definition row_filter id (l : list ((string * Z) * V)) : list (Z * V) :=
  omap (λ kv, if decide (fst (fst kv) = id) then Some (snd (fst kv), snd kv) else None) l.

Lemma row_filter_cons id i j v l :
  row_filter id (((i, j), v) :: l)
  = if decide (i = id) then (j, v) :: row_filter id l else row_filter id l.
Proof. unfold row_filter. cbn. by case_decide. Qed.

Lemma rows_of_length m id : length (rows_of m id) = length (row_filter id (map_to_list m)).
Proof. unfold rows_of. by rewrite merge_sort_Permutation. Qed.

Lemma rows_of_le_size m id : (length (rows_of m id) ≤ size m)%nat.
Proof.
  rewrite rows_of_length, <- length_map_to_list. generalize (map_to_list m).
  intros l. induction l as [|[[i j] v] l IH]; [done|]. rewrite row_filter_cons.
  case_decide; cbn [length]; lia.
Qed.

(** Rows whose identifiers lie in a duplicate-free list are counted once. *)
Lemma rows_partition (ids : list string) m :
  NoDup ids → (∀ i j, is_Some (m !! (i, j)) → i ∈ ids) →
  sum_list_with (λ id, length (rows_of m id)) ids = size m.
Proof.
  intros Hnd Hcov. rewrite <- length_map_to_list.
  assert (∀ kv, kv ∈ map_to_list m → fst (fst kv) ∈ ids) as Hin.
  { intros [[i j] v] Hl%elem_of_map_to_list. by apply (Hcov i j). }
  transitivity (sum_list_with (λ id, length (row_filter id (map_to_list m))) ids).
  { clear. induction ids as [|i ids IH]; [done|]. cbn. by rewrite rows_of_length, IH. }
  clear Hcov. revert Hin. generalize (map_to_list m). intros l.
  induction l as [|[[i j] v] l IH]; intros Hin.
  { clear. induction ids; [done|]. cbn. done. }
  cbn [length]. rewrite <- IH by (intros; apply Hin; by right).
  assert (i ∈ ids) as Hi by apply (Hin ((i, j), v) (list_elem_of_here _ _)). clear Hin IH.
  induction Hnd as [|x ids Hx Hnd IHd]; [by apply elem_of_nil in Hi|].
  cbn [sum_list_with].
  apply elem_of_cons in Hi as [->|Hi].
  - rewrite row_filter_cons, decide_True by done. cbn [length].
    rewrite Nat.add_succ_l. f_equal. f_equal. clear IHd Hnd.
    induction ids as [|y ids IHi]; [done|]. apply not_elem_of_cons in Hx as [Hne Hx].
    cbn [sum_list_with].       rewrite row_filter_cons, decide_False by done. f_equal. by apply IHi.
  - rewrite row_filter_cons, decide_False by (intros ->; done). rewrite IHd by done. lia.
Qed.
End row_counts.

Lemma count_reservations_ok b n c :
  (0 ≤ c)%Z → (c + Z.of_nat n ≤ u64_max)%Z → (0 ≤ b)%Z →
  count_reservations b c (imap (λ i v, (c + Z.of_nat i, v)%Z) (replicate n b))
  = Ok (c + Z.of_nat n)%Z.
Proof.
  revert c. induction n as [|n IH]; intros c Hc Hn Hb; [cbn; f_equal; lia|].
  cbn [replicate imap count_reservations]. unfold u64_try_from.
  rewrite !(proj2 (Z.leb_le _ _)) by lia.
  rewrite !bool_decide_eq_true_2 by (f_equal; lia). cbn [negb orb reject_if].
  unfold u64_checked_add. rewrite (proj2 (Z.leb_le _ _)) by lia. cbn [ok_or].
  replace (c + Z.of_nat (S n))%Z with ((c + 1) + Z.of_nat n)%Z by lia.
  rewrite <- IH by lia. cbn. f_equal. apply imap_ext. intros i x _. cbn. f_equal. lia.
Qed.

(** ** Chains and histories *)

Section chains.
Context `{CryptoLaws}.
Context {Mg : Migrations}.
Implicit Types (k : SqliteIntegrityKey) (t : StoredTransaction) (g : StoredGeneration)
  (e : StoredAuditEvent) (db : Database) (id : string).

Lemma trail_ok_event k id pre e post :
  trail_ok k id (pre ++ e :: post) → event_ok k id pre e ∧ trail_ok k id pre.
Proof.
  induction post as [|e' post IH] using rev_ind; intros Htr.
  - inversion Htr as [Heq|evs e' Htr' He Heq]; [by destruct pre|].
    apply app_inj_tail in Heq as [-> ->]. done.
  - apply IH. rewrite app_comm_cons, app_assoc in Htr.
    inversion Htr as [Heq|evs e'' Htr' He Heq]; [by destruct pre|].
    by apply app_inj_tail in Heq as [-> _].
Qed.

Lemma audit_chain_ok k id limits pre post lst :
  trail_ok k id (pre ++ post) →
  (Z.of_nat (length (pre ++ post)) ≤ max_audit_events limits)%Z →
  (max_audit_events limits ≤ u64_max)%Z →
  audit_chain_from id limits (Z.of_nat (length pre)) (trail_digest pre) lst post
  = Ok (match last post with Some e => Some (e, sa_payload_digest e) | None => lst end).
Proof.
  revert pre lst. induction post as [|e post IH]; intros pre lst Htr Hlen Hmax; [done|].
  destruct (trail_ok_event _ _ _ _ _ Htr) as [He Hpre].
  pose proof (trail_digest_valid _ _ _ Hpre) as Hpv.
  pose proof He as [Hid Hs _ _ Hp Hprev Hd _]. cbn [audit_chain_from].
  rewrite Hs, Z.eqb_refl. cbn [negb reject_if]. unfold corrupt_domain.
  rewrite Hp, Hprev, Hpv. cbn [map_err]. cbn -[audit_chain_from bool_decide u64_checked_add].
  assert (ContentDigest_new (sa_event_digest e) = Ok (sa_event_digest e)) as ->
    by (rewrite Hd; apply digest_parts_valid).
  cbn -[audit_chain_from bool_decide u64_checked_add Z.of_nat].
  rewrite !bool_decide_eq_true_2 by (rewrite ?Hd, ?Hs, ?Hprev; done).
  cbn -[audit_chain_from u64_checked_add Z.of_nat].
  rewrite length_app in Hlen. cbn [length] in Hlen. unfold u64_checked_add.
  rewrite (proj2 (Z.leb_le _ _)) by lia. cbn -[audit_chain_from Z.of_nat].
  rewrite (proj2 (Z.ltb_ge (max_audit_events limits) _)) by lia. cbn -[audit_chain_from Z.of_nat].
  replace (Z.of_nat (length pre) + 1)%Z with (Z.of_nat (length (pre ++ [e])))
    by (rewrite length_app; cbn; lia).
  replace (sa_event_digest e) with (trail_digest (pre ++ [e]))
    by (unfold trail_digest; by rewrite last_snoc).
  rewrite IH; [|by rewrite <- app_assoc|rewrite !length_app; cbn; lia|done].
  destruct post as [|e' post]; [done|]. rewrite last_cons_cons.
  destruct (last (e' :: post)) eqn:El; [done|]. by apply last_None in El.
Qed.

Lemma validate_record_ok k id n q g (expected current : Z) :
  gen_ok k id n q g → (expected < current → q = Aborted)%Z →
  validate_generation_record expected current g = Ok tt.
Proof.
  intros [_ _ Hst Hm (H1 & H2 & H3 & H4) Hb _ _] Hq. unfold validate_generation_record.
  rewrite Hst, TransactionState_parse_as_str. cbn [corrupt_domain map_err].
  cbn -[all_digests bool_decide commit_material]. rewrite H1. cbn -[bool_decide commit_material].
  unfold corrupt_domain. rewrite H2. cbn -[bool_decide commit_material]. rewrite H3.
  cbn -[bool_decide commit_material]. rewrite H4. cbn -[bool_decide commit_material].
  rewrite <- Hb. rewrite (bool_decide_eq_true_2 (sg_binding_digest g = sg_binding_digest g)) by done. cbn -[bool_decide commit_material].
  assert ((expected <? current)%Z && negb (bool_decide (q = Aborted)) = false) as Hlast.
  { destruct (Z.ltb_spec expected current); [|done]. by rewrite bool_decide_eq_true_2 by auto. }
  unfold commit_material.
  destruct q; cbn in Hm; first
    [ destruct Hm as (d & gr & p & -> & -> & -> & V1 & V2 & V3); cbn; unfold corrupt_domain;
      rewrite V1; cbn; rewrite V2; cbn; rewrite V3; cbn
    | destruct Hm as (-> & -> & ->); cbn ]; cbn in Hlast; by rewrite Hlast.
Qed.
End chains.

(** ** The validators *)

Section validators.
Context `{CryptoLaws}.
Context {Mg : Migrations} {env : Env} (Hff : fault_free env).
Implicit Types (k : SqliteIntegrityKey) (t : StoredTransaction) (g : StoredGeneration)
  (db : Database) (id : string).

Lemma tw_generations b k db id t old g evs q n m (Q : Database → unit → Prop) :
  at_state k db id t old g evs q → (n + m = length (old ++ [g]))%nat → Q db tt →
  tw env b (validate_generations_from k id (st_current_generation t) m (Z.of_nat n)) db Q.
Proof.
  intros Hat. pose proof Hat as [_ Hok].
  revert n. induction m as [|m IH]; intros n Hn HQ; cbn [validate_generations_from].
  { by tw_step Hff. }
  destruct (lookup_lt_is_Some_2 (old ++ [g]) n) as [g' Hg']; [lia|].
  tw_step Hff. apply tw_catch. eapply tw_load_generation; [done|done|exact Hg'|].
  pose proof (to_current _ _ _ _ _ _ _ Hok) as Hcur.
  tw_step Hff. eapply tw_lift.
  { apply lookup_app_Some in Hg' as [Hg'|[Hlen Hg']].
    - eapply validate_record_ok; [by apply (to_old _ _ _ _ _ _ _ Hok)|done].
    - apply list_lookup_singleton_Some in Hg' as [Hz <-].
      eapply validate_record_ok; [apply (to_gen _ _ _ _ _ _ _ Hok)|]. lia. }
  rewrite length_app in Hn. cbn in Hn.
  pose proof (to_bound _ _ _ _ _ _ _ Hok) as Hbd. unfold MAX_TRANSACTION_GENERATIONS in Hbd.
  tw_step Hff. eapply tw_lift.
  { apply ok_or_Ok, u64_checked_add_Some. split; [done|]. unfold u64_max. lia. }
  replace (Z.of_nat n + 1)%Z with (Z.of_nat (S n)) by lia. apply IH; [|done].
  rewrite length_app. cbn. lia.
Qed.

Lemma tw_generation_history b st db id t old g evs q (Q : Database → unit → Prop) :
  db_inv st db → at_state (store_key st) db id t old g evs q → Q db tt →
  tw env b (validate_generation_history (store_key st) id (st_current_generation t)
              (store_limits st)) db Q.
Proof.
  intros Hinv Hat HQ. pose proof Hat as [Hv Hok]. unfold validate_generation_history.
  pose proof (to_current _ _ _ _ _ _ _ Hok) as Hcur. pose proof (to_bound _ _ _ _ _ _ _ Hok) as Hbd.
  pose proof (contig_rows_length _ _ _ (vw_generations _ _ _ _ _ _ Hv)) as Hlen.
  pose proof (rows_of_le_size (generations db) id) as Hle. pose proof (di_generations _ _ Hinv) as Hmax.
  unfold table_count in Hmax. rewrite length_app in Hlen. cbn in Hlen.
  tw_step Hff. tw_step Hff; [lia|]. tw_step Hff. eapply tw_lift.
  { apply ok_or_Ok, u64_checked_add_Some. split; [done|].
    unfold MAX_TRANSACTION_GENERATIONS, u64_max in *. lia. }
  tw_step Hff. tw_step Hff; [lia|]. do 2 tw_step Hff. rewrite Hlen.
  tw_step Hff. tw_step Hff; [apply negb_false_iff, Z.eqb_eq; lia|].
  eapply (tw_generations _ _ _ _ _ _ _ _ _ 0); [done| |done]. rewrite length_app. cbn. lia.
Qed.

Lemma tw_audit_chain b st db id t old g evs q (Q : Database → unit → Prop) :
  limits_i64 (store_limits st) → db_inv st db →
  at_state (store_key st) db id t old g evs q → Q db tt →
  tw env b (validate_audit_chain (store_key st) id (st_current_generation t)
              (st_state_version t) (store_limits st)) db Q.
Proof.
  intros (_ & _ & Hlim) Hinv Hat HQ. pose proof Hat as [Hv Hok]. unfold validate_audit_chain.
  pose proof (rows_of_le_size (audit_events db) id) as Hle.
  rewrite (contig_rows_length _ _ _ (vw_events _ _ _ _ _ _ Hv)) in Hle.
  pose proof (di_audit _ _ Hinv) as Hmax. unfold table_count, nonterminal_count in Hmax.
  destruct (tx_tail _ _ _ _ _ _ _ Hok) as (e & Hl & Hg & Hver & Hk).
  tw_step Hff. unfold load_all_audit_events. do 2 tw_step Hff.
  rewrite (contig_rows_snd _ _ _ (vw_events _ _ _ _ _ _ Hv)).
  eapply tw_lift; [eapply decode_trail_ok; [apply Hok|by eapply tx_id_length]|].
  tw_step Hff. eapply tw_lift.
  { apply (audit_chain_ok (store_key st) id (store_limits st) [] evs None); [apply Hok|cbn; lia|].
    unfold i64_max, u64_max in *. lia. }
  rewrite Hl. tw_step Hff. eapply tw_lift; [done|].
  tw_step Hff. tw_step Hff; [by rewrite Hg, Hver, !Z.eqb_refl|].
  tw_step Hff. eapply tw_load_current; [done|done|].
  tw_step Hff. eapply tw_lift; [done|]. cbn [ts_state snapshot_for].
  tw_step Hff. tw_step Hff; [by rewrite bool_decide_eq_true_2|].
  case_bool_decide as Hq; [|by tw_step Hff].
  pose proof (go_material _ _ _ _ _ (to_gen _ _ _ _ _ _ _ Hok)) as Hm. rewrite Hq in Hm.
  destruct Hm as (d & gr & p & Hd & Hgr & Hp & V1 & V2 & V3).
  pose proof (to_payload _ _ _ _ _ _ _ Hok e Hl Hq d gr p Hd Hgr Hp) as Hpay.
  unfold required_digest. rewrite Hd, Hgr, Hp. cbn [ok_or].
  tw_step Hff. eapply tw_lift; [cbn; unfold corrupt_domain; by rewrite V1|].
  tw_step Hff. eapply tw_lift; [cbn; unfold corrupt_domain; by rewrite V2|].
  tw_step Hff. eapply tw_lift; [cbn; unfold corrupt_domain; by rewrite V3|].
  tw_step Hff; [|done]. by rewrite bool_decide_eq_true_2.
Qed.

Lemma tw_validate_each st db ids (Q : Database → unit → Prop) :
  limits_i64 (store_limits st) → db_inv st db →
  (∀ i, i ∈ ids → is_Some (transactions db !! i)) → Q db tt →
  tw env true (validate_each st ids) db Q.
Proof.
  intros Hlim Hinv Hids HQ. induction ids as [|i ids IH]; cbn [validate_each]; [by tw_step Hff|].
  destruct (Hids i (list_elem_of_here _ _)) as [t Ht].
  destruct (di_tx _ _ Hinv _ _ Ht) as (old & g & evs & q & Hv & Hok).
  assert (at_state (store_key st) db i t old g evs q) as Hat by by constructor.
  tw_step Hff. eapply tw_load_current; [done|done|].
  tw_step Hff. eapply tw_generation_history; [done|done|].
  tw_step Hff. eapply tw_audit_chain; [done..|]. apply IH. intros j Hj. apply Hids. by right.
Qed.

(** ** Identifiers and reservations *)

Lemma transaction_keys_elem db i :
  i ∈ transaction_keys db ↔ is_Some (transactions db !! i).
Proof.
  unfold transaction_keys. rewrite merge_sort_Permutation, list_elem_of_fmap. split.
  - intros ([j t] & -> & Hin%elem_of_map_to_list). by exists t.
  - intros [t Ht]. exists (i, t). by rewrite elem_of_map_to_list.
Qed.

Lemma transaction_keys_NoDup db : NoDup (transaction_keys db).
Proof. unfold transaction_keys. rewrite merge_sort_Permutation. apply NoDup_fst_map_to_list. Qed.

Lemma transaction_keys_length db : Z.of_nat (length (transaction_keys db)) = table_count (transactions db).
Proof.
  unfold transaction_keys, table_count.
  by rewrite merge_sort_Permutation, length_fmap, length_map_to_list.
Qed.

Lemma decode_ids_ok st db ids :
  db_inv st db → (∀ i, i ∈ ids → is_Some (transactions db !! i)) → decode_ids ids = Ok ids.
Proof.
  intros Hinv. induction ids as [|i ids IH]; intros Hids; [done|]. cbn [decode_ids].
  destruct (Hids i (list_elem_of_here _ _)) as [t Ht].
  destruct (di_tx _ _ Hinv _ _ Ht) as (old & g & evs & q & Hv & Hok).
  rewrite out_of_bounds_false
    by (rewrite (tx_id_length _ _ _ _ _ _ _ Hok); unfold MAX_TRANSACTION_ID_BYTES; lia).
  cbn [reject_if]. rewrite (to_namespace _ _ _ _ _ _ _ Hok). unfold corrupt_domain.
  rewrite for_namespace_valid, IH; [done|]. intros j Hj. apply Hids. by right.
Qed.

Lemma tw_list_ids b st db (Q : Database → list TransactionId → Prop) :
  db_inv st db → Q db (transaction_keys db) → tw env b list_transaction_ids db Q.
Proof.
  intros Hinv HQ. unfold list_transaction_ids. do 2 tw_step Hff.
  eapply tw_lift; [eapply decode_ids_ok; [done|]|done].
  intros i. apply transaction_keys_elem.
Qed.

Lemma tw_page_size b db (Q : Database → Z → Prop) :
  page_ok db → Q db (pr_page_size (pragmas db)) → tw env b page_size db Q.
Proof.
  intros Hp HQ. unfold page_ok, MIN_SQLITE_PAGE_SIZE in Hp. unfold page_size. do 2 tw_step Hff.
  eapply tw_lift; [|done]. apply ok_or_Ok, u64_try_from_Some. split; [done|lia].
Qed.

Lemma tw_reservation_bytes b db (Q : Database → Z → Prop) :
  page_ok db → Q db (2 * pr_page_size (pragmas db))%Z → tw env b reservation_bytes db Q.
Proof.
  intros Hp HQ. unfold reservation_bytes. tw_step Hff. apply tw_page_size; [done|].
  unfold page_ok, MAX_SQLITE_PAGE_SIZE in Hp. unfold u64_checked_mul, u64_max.
  rewrite (proj2 (Z.leb_le _ _)) by lia. eapply tw_lift; [done|]. by rewrite Z.mul_comm.
Qed.

(** The reservation rows of a transaction pass the shared row loop. *)
Lemma count_view db id t gens evs n :
  page_ok db → (Z.of_nat n ≤ u64_max)%Z → view db id t gens evs n →
  count_reservations (2 * pr_page_size (pragmas db)) 0 (rows_of (audit_reservations db) id)
  = Ok (Z.of_nat n).
Proof.
  intros Hp Hn Hv. rewrite (contig_rows _ _ _ (vw_reservations _ _ _ _ _ _ Hv)).
  unfold page_ok, MIN_SQLITE_PAGE_SIZE in Hp.
  rewrite <- (Z.add_0_l (Z.of_nat n)), <- (count_reservations_ok (2 * pr_page_size (pragmas db))) by lia.
  reflexivity.
Qed.

(** The slots the transactions [ids] hold. *)
Definition slots_of db (ids : list TransactionId) : nat :=
  sum_list_with (λ i, length (rows_of (audit_reservations db) i)) ids.

Lemma tw_reservations_of b st db ids (c : Z) (Q : Database → Z → Prop) :
  db_inv st db → (∀ i, i ∈ ids → is_Some (transactions db !! i)) → (0 ≤ c)%Z →
  (c + Z.of_nat (length ids) ≤ u64_max)%Z → Q db (c + Z.of_nat (slots_of db ids))%Z →
  tw env b (validate_reservations_of (store_key st) (2 * pr_page_size (pragmas db)) ids c) db Q.
Proof.
  intros Hinv. revert c. induction ids as [|i ids IH]; intros c Hids Hc Hle HQ;
    cbn [validate_reservations_of].
  { tw_step Hff. by rewrite Z.add_0_r in HQ. }
  destruct (Hids i (list_elem_of_here _ _)) as [t Ht].
  destruct (di_tx _ _ Hinv _ _ Ht) as (old & g & evs & q & Hv & Hok).
  assert (at_state (store_key st) db i t old g evs q) as Hat by by constructor.
  assert ((if reserves_slot q then 1 else 0)%Z = Z.of_nat (reserved_slots q)) as Hslots
    by (unfold reserved_slots; by destruct (reserves_slot q)).
  assert (reserved_slots q ≤ 1)%nat as Hone by (unfold reserved_slots; destruct (reserves_slot q); lia).
  cbn [length] in Hle.
  tw_step Hff. eapply tw_load_current; [done|done|]. cbn [snd ts_state snapshot_for].
  rewrite Hslots. tw_step Hff. eapply tw_lift.
  { apply ok_or_Ok, u64_checked_add_Some. split; [done|]. lia. }
  do 2 tw_step Hff. tw_step Hff. eapply tw_lift.
  { eapply count_view; [apply (di_page _ _ Hinv)| |exact Hv]. unfold u64_max. lia. }
  tw_step Hff. tw_step Hff; [by rewrite Z.eqb_refl|].
  apply IH; [intros; apply Hids; by right|lia|lia|].
  unfold slots_of in *. cbn [sum_list_with] in HQ.
  rewrite (contig_rows_length _ _ _ (vw_reservations _ _ _ _ _ _ Hv)), length_replicate in HQ.
  by replace (c + Z.of_nat (reserved_slots q) + _)%Z with
    (c + Z.of_nat (reserved_slots q + sum_list_with (λ i, length (rows_of (audit_reservations db) i)) ids))%Z
    by lia.
Qed.

Lemma slots_of_all st db :
  db_inv st db → Z.of_nat (slots_of db (transaction_keys db)) = table_count (audit_reservations db).
Proof.
  intros Hinv. unfold slots_of, table_count. f_equal. apply rows_partition.
  - apply transaction_keys_NoDup.
  - intros i j [v Hl]. apply transaction_keys_elem.
    destruct (transactions db !! i) eqn:Ht; [done|].
    destruct (di_orphan _ _ Hinv _ Ht) as (_ & _ & Hno). by rewrite Hno in Hl.
Qed.

Lemma tw_physical st released db (Q : Database → unit → Prop) :
  limits_i64 (store_limits st) → db_inv st db → Q db tt →
  tw env true (validate_physical_reservations_locked (store_key st) released) db Q.
Proof.
  intros (Hlim & _ & _) Hinv HQ. unfold validate_physical_reservations_locked.
  tw_step Hff. assert (tw env true is_autocommit db (λ db' a, db' = db ∧ a = false)) as Ha.
  { intros s Hd Hb. exists s, false. unfold runs, is_autocommit. by rewrite Hb. }
  eapply tw_mono; [exact Ha|]. intros db' a [-> ->]. tw_step Hff. tw_step Hff; [done|].
  tw_step Hff. apply tw_reservation_bytes; [apply (di_page _ _ Hinv)|].
  tw_step Hff. eapply tw_list_ids; [done|]. tw_step Hff.
  pose proof (transaction_keys_length db) as Hlen. pose proof (di_transactions _ _ Hinv) as Hmax.
  eapply tw_reservations_of; [done|intros i; apply transaction_keys_elem|done| |].
  { unfold i64_max, u64_max in *. lia. }
  do 2 tw_step Hff. rewrite (slots_of_all st) by done. tw_step Hff.
  tw_step Hff; [by rewrite Z.add_0_l, Z.eqb_refl|].
  tw_step Hff. apply tw_page_size; [apply (di_page _ _ Hinv)|].
  intros s Hd Hb. exists s, tt. unfold runs, validate_filesystem_reserve.
  rewrite (ff_reserve _ Hff), Hd. done.
Qed.
End validators.
