(* ===== verification/StoreLiveness.v ===== *)
(** * Terminal transitions never lack room

    The forward reading of the statements: on a database with the invariant,
    without faults, the statements that end a transaction (abort, commit,
    block) all succeed.  The audit slot and the reservation row they use were
    set aside when the transaction was prepared. *)

From Stdlib Require Import ZArith Lia.
From Stdlib Require Import Strings.Byte.
From stdpp Require Import base numbers gmap strings list fin_maps sorting.
From S2P Require Import Prelude Text Core Digest Binding Authority Sqlite Integrity.
From S2P Require Import Validation Store Run Protocol StoreInvariant.
From S2P Require Import StoreWrites StoreRefine StoreSpec IntegrityComplete.

Set Default Goal Selector "!".

(** A total run combined with what every run is known to do. *)
Lemma tw_conj {A} env b (m : M A) db (P Q : Database → A → Prop) :
  tw env b m db (λ _ _, True) →
  (∀ s s' a, sess_db s = db → runs m env s s' a → P (sess_db s') a) →
  (∀ db' a, P db' a → Q db' a) → tw env b m db Q.
Proof.
  intros Hm HP HQ s Hd Hb. destruct (Hm s Hd Hb) as (s' & a & Hr & Hb' & _).
  exists s', a. eauto.
Qed.

Section checks.
Context `{CryptoLaws}.
Implicit Types (k : SqliteIntegrityKey) (t : StoredTransaction) (g : StoredGeneration)
  (e : StoredAuditEvent) (db : Database) (id : string).

Lemma len_between_true s lo hi : (lo ≤ str_len s ≤ hi)%Z → len_between s lo hi = true.
Proof. intros Hs. unfold len_between. lia. Qed.

Lemma digest_len_true d : valid_digest d → digest_len d = true.
Proof. intros Hd. unfold digest_len, str_len. by rewrite (ContentDigest_length _ Hd). Qed.

Lemma tag_len_true k domain c : tag_len (integrity_tag k domain c) = true.
Proof. unfold tag_len. by rewrite length_integrity_tag. Qed.

Lemma check_pointer_ok k id t old g evs q generation version :
  tx_ok k id t old g evs q → (0 ≤ generation)%Z → (1 ≤ version)%Z →
  check_transactions_row (pointer_row k t generation version) = true.
Proof.
  intros Hok Hg Hv. pose proof (tx_id_length _ _ _ _ _ _ _ Hok) as Hlen.
  destruct Hok as [Hid _ Hp Hr _ _ _ _ _ _ _ _].
  apply core_id_length in Hp, Hr. unfold check_transactions_row, pointer_row.
  cbn [st_current_generation st_state_version st_integrity_tag st_transaction_id st_principal
       st_request_id].
  rewrite !len_between_true by (rewrite ?Hid, ?Hlen; lia).
  unfold transaction_tag. rewrite tag_len_true. lia.
Qed.

Lemma opt_digest_len_true s g o :
  material_ok s g → In o (commit_material g) → opt_digest_len o = true.
Proof.
  intros Hm Hin. pose proof (material_lengths _ _ _ Hm Hin) as Hl. destruct o; [|done].
  unfold bad_optional_digest_length, bad_digest_length in Hl. cbn.
  by apply negb_false_iff in Hl.
Qed.

Lemma check_generations_ok k id n q g :
  gen_ok k id n q g → str_len id = 79%Z → check_generations_row g = true.
Proof.
  intros [Hid Hn Hst Hm (H1 & H2 & H3 & H4) _ Hb Htag] Hlen. unfold check_generations_row.
  rewrite len_between_true by (rewrite Hid, Hlen; lia).
  rewrite !digest_len_true by done.
  rewrite !(opt_digest_len_true q g) by (first [done | unfold commit_material; cbn; tauto]).
  unfold state_text. rewrite Hst, TransactionState_parse_as_str.
  rewrite Htag at 1. unfold generation_tag. rewrite tag_len_true.
  unfold MAX_AUTHORITY_BINDING_BYTES in Hb. cbn [is_ok]. lia.
Qed.

Lemma check_audit_ok k id evs e :
  trail_ok k id evs → event_ok k id evs e → str_len id = 79%Z → check_audit_events_row e = true.
Proof.
  intros Htr He Hlen. pose proof (trail_digest_valid _ _ _ Htr) as Hpv.
  destruct He as [Hid Hs [Hg Hv] [q Hk] Hp Hprev Hd Htag].
  apply event_kind_length in Hk. rewrite <- Hprev in Hpv. unfold check_audit_events_row.
  rewrite !len_between_true by (rewrite ?Hid, ?Hlen; lia).
  rewrite !digest_len_true by (done || rewrite Hd; auto with linura).
  rewrite Htag at 1. unfold audit_tag. rewrite tag_len_true. lia.
Qed.
End checks.

Section forward.
Context `{CryptoLaws}.
Context {Mg : Migrations} {env : Env} (Hff : fault_free env).
Implicit Types (k : SqliteIntegrityKey) (t : StoredTransaction) (g : StoredGeneration)
  (e : StoredAuditEvent) (db : Database) (id : string).

Lemma tw_check_count b table mx db (Q : Database → unit → Prop) c :
  known_table table = true → count_of_table table db = Some c → (c + 1 ≤ mx)%Z → Q db tt →
  tw env b (check_count_capacity table mx 1) db Q.
Proof.
  intros Hk Hc Hle HQ. unfold check_count_capacity. tw_step Hff. tw_step Hff; [by rewrite Hk|].
  do 2 tw_step Hff. rewrite Hc. cbn [from_option]. tw_step Hff; [|done].
  unfold u64_saturating_add, Datatypes.id. lia.
Qed.

(** The reserve check of an ending transition. *)
Lemma tw_check_reserve_end b limits db (Q : Database → unit → Prop) :
  (1 ≤ nonterminal_count db)%Z →
  (table_count (audit_events db) + nonterminal_count db ≤ max_audit_events limits)%Z →
  (max_audit_events limits ≤ u64_max)%Z → Q db tt →
  tw env b (check_logical_audit_reserve limits 1 (-1)) db Q.
Proof.
  intros Hn Hle Hmax HQ. assert (0 ≤ table_count (audit_events db))%Z by (unfold table_count; lia).
  unfold check_logical_audit_reserve. do 4 tw_step Hff. tw_step Hff.
  eapply tw_lift; [cbn; apply ok_or_Ok, u64_checked_sub_Some; split; [done|lia]|].
  tw_step Hff. eapply tw_lift.
  { unfold u64_checked_add. rewrite (proj2 (Z.leb_le _ _)) by lia. cbn.
    rewrite (proj2 (Z.leb_le _ _)) by lia. done. }
  tw_step Hff; [|done]. lia.
Qed.

(** Enough slots are already there. *)
Lemma tw_ensure_held b db id t gens evs n (Q : Database → unit → Prop) :
  page_ok db → (n ≤ 1)%nat → view db id t gens evs n → Q db tt →
  tw env b (ensure_audit_reservations id (Z.of_nat n)) db Q.
Proof.
  intros Hp Hn Hv HQ. unfold ensure_audit_reservations. tw_step Hff.
  apply tw_reservation_bytes; [done|done|]. do 2 tw_step Hff. tw_step Hff.
  eapply tw_lift; [eapply count_view; [done| |exact Hv]; unfold u64_max; lia|].
  tw_step Hff. tw_step Hff; [apply Z.ltb_irrefl|]. rewrite Z.sub_diag. change (Z.to_nat 0) with 0%nat.
  cbn [insert_reservations]. by tw_step Hff.
Qed.

Lemma update_generations_ok id g state tag db t old evs slots :
  view db id t (old ++ [g]) evs slots → sg_transaction_id g = id →
  sg_generation g = Z.of_nat (length old) →
  check_generations_row (generation_with g state (sg_desired_state_digest g) (sg_graph_digest g)
    (sg_provenance_digest g) tag) = true →
  ∃ db', update_generations g state None tag db = Ok (1%Z, db').
Proof.
  intros Hv Hid Hn Hck. unfold update_generations. rewrite Hid, Hn.
  rewrite (contig_lookup _ _ _ (length old) g (vw_generations _ _ _ _ _ _ Hv))
    by (rewrite lookup_app_r, Nat.sub_diag by lia; done).
  rewrite !bool_decide_eq_true_2 by done. cbn [andb]. unfold sql_reject.
  unfold generation_with in Hck. rewrite Hck. by eexists.
Qed.

Lemma tw_update_generation_ex b k db id t old g evs slots q q' :
  view db id t (old ++ [g]) evs slots → gen_ok k id (length old) q g → str_len id = 79%Z →
  (length old < 64)%nat →
  gen_ok k id (length old) q' (generation_row k g q' (sg_desired_state_digest g)
    (sg_graph_digest g) (sg_provenance_digest g)) →
  tw env b (update_generation_state k g q q') db (λ _ _, True).
Proof.
  intros Hv Hg Hlen Hold Hg'. unfold update_generation_state. tw_step Hff.
  tw_step Hff; [by rewrite (go_state _ _ _ _ _ Hg), bool_decide_eq_true_2|].
  tw_step Hff. eapply tw_lift; [apply as_i64_Ok; split; [done|]|].
  { rewrite (go_number _ _ _ _ _ Hg). unfold i64_max. lia. }
  destruct (update_generations_ok id g (TransactionState_as_str q')
    (sg_integrity_tag (generation_row k g q' (sg_desired_state_digest g) (sg_graph_digest g)
       (sg_provenance_digest g))) db t old evs slots Hv) as [db' Hu];
    [apply Hg|apply Hg|apply (check_generations_ok _ _ _ _ _ Hg' Hlen)|].
  tw_step Hff. eapply (tw_execute_count Hff); [exact Hu|].
  tw_step Hff. tw_step Hff; [done|]. by tw_step Hff.
Qed.

Lemma tw_update_pointer_ex b k db id t gens evs slots generation version :
  view db id t gens evs slots → st_transaction_id t = id →
  check_transactions_row (pointer_row k t generation version) = true →
  (st_current_generation t ≤ i64_max)%Z → (st_state_version t ≤ i64_max)%Z →
  (generation ≤ i64_max)%Z → (version ≤ i64_max)%Z →
  tw env b (update_transaction_pointer k t generation version) db (λ _ _, True).
Proof.
  intros Hv Hid Hck H1 H2 H3 H4. unfold update_transaction_pointer.
  do 4 (tw_step Hff; eapply tw_lift; [by apply as_i64_Ok|]).
  tw_step Hff. eapply (tw_execute_count Hff).
  { unfold update_transactions. rewrite Hid, (vw_transaction _ _ _ _ _ _ Hv).
    rewrite !bool_decide_eq_true_2 by done. cbn [andb].
    unfold pointer_row in Hck. unfold sql_reject. cbn [st_current_generation st_state_version
      st_integrity_tag st_transaction_id st_principal st_request_id].
    rewrite <- Hid in *. rewrite Hck. reflexivity. }
  tw_step Hff. tw_step Hff; [done|]. by tw_step Hff.
Qed.

Lemma tw_consume_ex b db id t gens evs n :
  page_ok db → view db id t gens evs (S n) →
  tw env b (consume_audit_reservation id) db (λ _ _, True).
Proof.
  intros Hp [_ _ _ Hr]. unfold consume_audit_reservation. tw_step Hff.
  apply tw_reservation_bytes; [done|done|]. do 2 tw_step Hff.
  rewrite replicate_S_end in Hr. rewrite (contig_rows_last _ _ _ _ Hr), length_replicate.
  tw_step Hff. eapply tw_lift; [done|]. cbn [fst snd].
  tw_step Hff. tw_step Hff.
  { apply negb_false_iff, bool_decide_eq_true, u64_try_from_Some. split; [done|].
    unfold page_ok, MIN_SQLITE_PAGE_SIZE in Hp. lia. }
  tw_step Hff. eapply (tw_execute_count Hff).
  { unfold delete_audit_reservations.
    rewrite (contig_lookup _ _ _ n (2 * pr_page_size (pragmas db))%Z Hr); [reflexivity|].
    rewrite lookup_app_r, length_replicate, Nat.sub_diag by (rewrite length_replicate; lia). done. }
  by tw_step Hff.
Qed.

Lemma tw_append_ex b limits k db id t gens evs n generation version kind payload q :
  page_ok db → view db id t gens evs (S n) → trail_ok k id evs → str_len id = 79%Z →
  state_for_event_kind kind = Ok q → valid_digest payload →
  (0 ≤ generation ≤ i64_max)%Z → (1 ≤ version ≤ i64_max)%Z →
  (table_count (audit_events db) + 1 ≤ max_audit_events limits)%Z →
  (max_audit_events limits ≤ i64_max)%Z →
  tw env b (append_audit limits k id generation version kind payload true) db (λ _ _, True).
Proof.
  intros Hp Hv Htr Hlen Hk Hpay Hg Hver Hcap Hmax. unfold append_audit.
  pose proof (event_kind_length _ _ Hk) as Hkl.
  pose proof (rows_of_le_size (audit_events db) id) as Hle. unfold table_count in Hcap.
  rewrite (contig_rows_length _ _ _ (vw_events _ _ _ _ _ _ Hv)) in Hle.
  tw_step Hff. tw_step Hff; [unfold MAX_AUDIT_EVENT_KIND_BYTES; lia|].
  tw_step Hff. eapply (tw_check_count _ "audit_events"); [done|done|exact Hcap|].
  tw_step Hff. eapply (tw_load_last Hff); [done|done|done|].
  assert (Z.of_nat (length evs) ≤ i64_max)%Z as Hseq by lia.
  destruct (trail_last _ _ _ Htr) as [Hl|Hl].
  2:{ exfalso. destruct Htr as [|evs e Htr He]; [done|]. rewrite last_snoc in Hl.
      cbn [next_audit_link] in Hl. rewrite (eo_digest _ _ _ _ He) in Hl.
      unfold audit_digest in Hl. unfold corrupt_domain in Hl.
      rewrite digest_parts_valid in Hl. cbn in Hl.
      unfold u64_checked_add in Hl. rewrite (eo_sequence _ _ _ _ He) in Hl.
      rewrite length_app in Hseq. cbn in Hseq.
      rewrite (proj2 (Z.leb_le _ _)) in Hl by (unfold i64_max, u64_max in *; lia). done. }
  tw_step Hff. eapply tw_lift; [exact Hl|]. tw_step Hff.
  apply (tw_conj _ _ _ _ (λ db' _, view db' id t gens evs n)); [by eapply tw_consume_ex| |].
  { intros s s' [] Hd Hr. rewrite <- Hd in Hv.
    destruct (runs_consume _ _ _ _ _ _ _ _ Hv Hr) as (m & [= <-] & Hv' & _). exact Hv'. }
  intros db' [] Hv'.
  do 3 (tw_step Hff; eapply tw_lift; [apply as_i64_Ok; split; [done|lia]|]).
  tw_step Hff.
  assert (event_ok k id evs (event_row k id evs generation version kind payload)) as Hev
    by (by eapply event_row_ok; [lia|lia|..]).
  pose proof (check_audit_ok _ _ _ _ Htr Hev Hlen) as Hck.
  eapply (tw_execute Hff).
  { unfold insert_audit_events, sql_reject. unfold event_row in Hck.
    cbn [sa_transaction_id sa_event_sequence].
    rewrite (contig_lookup_None _ _ _ _ (vw_events _ _ _ _ _ _ Hv')) by lia.
    rewrite (vw_transaction _ _ _ _ _ _ Hv'). rewrite Hck. reflexivity. }
  by tw_step Hff.
Qed.

(** The tail shared by the transitions that end a transaction: whatever the
    audit log holds, it succeeds. *)
Lemma tw_end_transaction {A} st db id t old g evs q kind q' payload (x : A)
    (Q : Database → A → Prop) :
  let k := store_key st in
  let cur := st_current_generation t in
  let v := (st_state_version t + 1)%Z in
  let g' := generation_row k g q' (sg_desired_state_digest g) (sg_graph_digest g)
              (sg_provenance_digest g) in
  limits_i64 (store_limits st) → db_inv st db → at_state k db id t old g evs q →
  reserves_slot q = true → next_phase (Live q) kind = Some (Live q') →
  valid_digest payload → material_ok q' g' →
  (∀ db', Q db' x) →
  tw env true
    (update_generation_state k g q q';; update_transaction_pointer k t cur v;;
     append_audit (store_limits st) k id cur v kind payload true;; mret x) db Q.
Proof.
  intros k cur v g' (_ & _ & Hlim) Hinv Hat Hq Hn Hp Hm HQ. pose proof Hat as [Hv Hok].
  assert (reserved_slots q = 1%nat) as Hsl by (unfold reserved_slots; by rewrite Hq).
  rewrite Hsl in Hv.
  pose proof (tx_id_length _ _ _ _ _ _ _ Hok) as Hlen. pose proof (to_gen _ _ _ _ _ _ _ Hok) as Hg.
  pose proof (gen_ok_row _ _ _ _ q' _ _ _ _ Hg Hm) as Hg'.
  pose proof (to_current _ _ _ _ _ _ _ Hok) as Hcur. pose proof (to_bound _ _ _ _ _ _ _ Hok) as Hbd.
  pose proof (nonterminal_before _ _ _ (at_state_slots _ _ _ _ _ _ _ _ Hat)) as Hnt.
  rewrite Hsl in Hnt. pose proof (di_audit _ _ Hinv) as Hcap.
  destruct (history_version _ _ (to_history _ _ _ _ _ _ _ Hok)) as [Hver Hgen]. cbn in Hver, Hgen.
  rewrite length_fmap in Hver.
  pose proof (rows_of_le_size (audit_events db) id) as Hle.
  rewrite (contig_rows_length _ _ _ (vw_events _ _ _ _ _ _ Hv)) in Hle.
  assert (v ≤ i64_max)%Z as Hvi by (unfold v, table_count in *; lia).
  assert (cur ≤ i64_max)%Z as Hci
    by (unfold cur, MAX_TRANSACTION_GENERATIONS, i64_max in *; lia).
  tw_step Hff. apply (tw_conj _ _ _ _ (λ db1 _, view db1 id t (old ++ [g']) evs 1 ∧
    step_at db db1 id 0 0 0)).
  { eapply tw_update_generation_ex; [exact Hv|exact Hg|exact Hlen| |exact Hg'].
    unfold MAX_TRANSACTION_GENERATIONS in Hbd. lia. }
  { intros s s' r <- Hr. by eapply runs_update_generation_state. }
  intros db1 _ [Hv1 Hs1]. tw_step Hff.
  apply (tw_conj _ _ _ _ (λ db2 _, view db2 id (pointer_row k t cur v) (old ++ [g']) evs 1 ∧
    step_at db1 db2 id 0 0 0)).
  { eapply tw_update_pointer_ex; [exact Hv1|apply Hok| | | |exact Hci|exact Hvi].
    - eapply check_pointer_ok; [exact Hok|unfold cur; lia|unfold v; lia].
    - exact Hci.
    - unfold v in Hvi. lia. }
  { intros s s' r <- Hr. by eapply runs_update_pointer in Hr as (? & ? & _); [|done|apply Hok]. }
  intros db2 _ [Hv2 Hs2]. tw_step Hff.
  pose proof (step_at_trans _ _ _ _ _ _ _ _ _ _ Hs1 Hs2) as Hs.
  eapply (tw_mono _ _ _ (λ _ _, True)).
  - eapply tw_append_ex; [|exact Hv2|apply Hok|exact Hlen|by eapply next_phase_kind|exact Hp| | | |done].
    + unfold page_ok. rewrite (sp_pragmas _ _ _ _ _ _ Hs). apply (di_page _ _ Hinv).
    + unfold cur in *. lia.
    + unfold v in *. lia.
    + rewrite (sp_de _ _ _ _ _ _ Hs). lia.
  - intros db3 d _. tw_step Hff. apply HQ.
Qed.
End forward.

(** * Liveness of the store

    Without faults of SQLite and of the filesystem reserve: a transaction can
    always be brought to an end (abort, commit, block) however full the audit
    log is, reads return the stored state, preparing twice is idempotent, and
    every reachable database passes the integrity check. *)

From S2P Require Import CryptoModel Scenario.

Section live_lemmas.
Context `{CryptoLaws}.
Context {Mg : Migrations} {env : Env} (Hff : fault_free env).
Implicit Types (st : Store) (db : Database) (id : TransactionId).

(** A machine state of the abstract view is a well-formed stored state. *)
Lemma machine_at_inv st db id g v q :
  db_inv st db → machine_at db id = machine g v q →
  ∃ t old gr evs, at_state (store_key st) db id t old gr evs q ∧
    st_current_generation t = g ∧ st_state_version t = v.
Proof.
  intros Hinv Hm. destruct (transactions db !! id) as [t|] eqn:Ht.
  - destruct (di_tx _ _ Hinv _ _ Ht) as (old & gr & evs & q' & Hv & Hok).
    assert (at_state (store_key st) db id t old gr evs q') as Hat by by constructor.
    rewrite (machine_at_state _ _ _ _ _ _ _ _ Hat) in Hm. injection Hm as <- <- <-.
    by exists t, old, gr, evs.
  - unfold machine_at in Hm. by rewrite trail_absent in Hm by by apply (di_orphan _ _ Hinv).
Qed.

(** A transaction that holds a slot can be counted against the reserve. *)
Lemma nonterminal_positive k db id t old g evs q :
  at_state k db id t old g evs q → reserves_slot q = true → (1 ≤ nonterminal_count db)%Z.
Proof.
  intros Hat Hq. rewrite (nonterminal_before _ _ _ (at_state_slots _ _ _ _ _ _ _ _ Hat)).
  unfold reserved_slots. rewrite Hq. lia.
Qed.

Lemma tw_reserve_end b st db id t old g evs q (Q : Database → unit → Prop) :
  limits_i64 (store_limits st) → db_inv st db →
  at_state (store_key st) db id t old g evs q → reserves_slot q = true → Q db tt →
  tw env b (check_logical_audit_reserve (store_limits st) 1 (-1)) db Q.
Proof.
  intros (_ & _ & Hlim) Hinv Hat Hq HQ.
  apply tw_check_reserve_end; [done|by eapply nonterminal_positive|apply (di_audit _ _ Hinv)| |done].
  unfold i64_max, u64_max in *. lia.
Qed.

Lemma tw_next_version b st db id t old g evs q (Q : Database → Z → Prop) :
  limits_i64 (store_limits st) → db_inv st db →
  at_state (store_key st) db id t old g evs q → Q db (st_state_version t + 1)%Z →
  tw env b (lift (next_version (snapshot_for t q g))) db Q.
Proof.
  intros (_ & _ & Hlim) Hinv Hat HQ. pose proof Hat as [Hv Hok]. eapply tw_lift; [|done].
  apply ok_or_Ok, u64_checked_add_Some. split; [done|]. cbn [ts_state_version snapshot_for].
  destruct (history_version _ _ (to_history _ _ _ _ _ _ _ Hok)) as [Hver _]. cbn in Hver.
  rewrite length_fmap in Hver. pose proof (rows_of_le_size (audit_events db) id) as Hle.
  rewrite (contig_rows_length _ _ _ (vw_events _ _ _ _ _ _ Hv)) in Hle.
  pose proof (di_audit _ _ Hinv). unfold table_count, nonterminal_count, i64_max, u64_max in *. lia.
Qed.

(** [abort_body] and [commit_body] on a matching request. *)
Lemma tw_abort_body st r db t old g evs :
  limits_i64 (store_limits st) → db_inv st db →
  at_state (store_key st) db (ar_transaction_id r) t old g evs Prepared →
  st_current_generation t = ar_expected_generation r →
  st_state_version t = ar_expected_state_version r → valid_digest (ar_reason_digest r) →
  tw env true (abort_body st r) db (λ _ _, True).
Proof.
  intros Hlim Hinv Hat Hg Hv Hr. pose proof Hat as [Hvw Hok]. unfold abort_body.
  tw_step Hff. eapply (tw_load_current Hff); [exact Hat|]. tw_step Hff. tw_step Hff.
  { cbn [ts_current_generation ts_state_version ts_state snapshot_for].
    by rewrite Hg, Hv, !Z.eqb_refl, bool_decide_eq_true_2. }
  tw_step Hff. eapply tw_reserve_end; [done|done|exact Hat|done|].
  tw_step Hff. eapply (tw_ensure_held Hff _ _ _ _ _ _ 1); [apply (di_page _ _ Hinv)|done|exact Hvw|].
  tw_step Hff. eapply tw_next_version; [done|done|exact Hat|].
  eapply (tw_end_transaction Hff _ _ _ _ _ _ _ _ "aborted-prepared" Aborted);
    [done|done|exact Hat|done|done|done| |done].
  apply (go_material _ _ _ _ _ (to_gen _ _ _ _ _ _ _ Hok)).
Qed.

Lemma tw_commit_body st r db t old g evs :
  limits_i64 (store_limits st) → db_inv st db →
  at_state (store_key st) db (cr_transaction_id r) t old g evs Verified →
  st_current_generation t = cr_expected_generation r →
  st_state_version t = cr_expected_state_version r →
  sg_binding_digest g = cr_expected_binding_digest r →
  commit_material g = [Some (cr_desired_state_digest r); Some (cr_graph_digest r);
                       Some (cr_provenance_digest r)] →
  tw env true (commit_body st r) db (λ _ _, True).
Proof.
  intros Hlim Hinv Hat Hg Hv Hb Hm. pose proof Hat as [Hvw Hok]. unfold commit_body.
  injection Hm as Hm1 Hm2 Hm3.
  tw_step Hff. eapply (tw_load_current Hff); [exact Hat|]. tw_step Hff.
  eapply (tw_lift _ _ tt); [by apply assert_expected_Ok|]. tw_step Hff. tw_step Hff.
  { by rewrite Hm1, Hm2, Hm3, !bool_decide_eq_true_2. }
  tw_step Hff. eapply tw_reserve_end; [done|done|exact Hat|done|].
  tw_step Hff. eapply (tw_ensure_held Hff _ _ _ _ _ _ 1); [apply (di_page _ _ Hinv)|done|exact Hvw|].
  tw_step Hff. eapply tw_next_version; [done|done|exact Hat|].
  eapply (tw_end_transaction Hff _ _ _ _ _ _ _ _ "committed" Committed);
    [done|done|exact Hat|done|done|auto with linura| |done].
  apply (go_material _ _ _ _ _ (to_gen _ _ _ _ _ _ _ Hok)).
Qed.

(** A total body, the invariant it keeps and the validation that follows it
    make the whole mutation total. *)
Lemma tw_mutation {A} st (body : M A) db (P : Database → A → Prop) :
  limits_i64 (store_limits st) →
  tw env true body db (λ _ _, True) →
  (∀ s s' a, sess_db s = db → runs body env s s' a → P (sess_db s') a ∧ db_inv st (sess_db s')) →
  ∀ (B : Type) (f : A → B) (Q : Database → B → Prop), (∀ db' a, P db' a → Q db' (f a)) →
  tw env false (x ← immediate_transaction body;
                reconcile_filesystem_reserve_after_commit st;; mret (f x)) db Q.
Proof.
  intros Hlim Hb HP B f Q HQ. tw_step Hff. tw_step Hff.
  apply (tw_conj _ _ _ _ (λ db' a, P db' a ∧ db_inv st db')); [done|exact HP|].
  intros db' a [HPa Hinv']. tw_step Hff. unfold reconcile_filesystem_reserve_after_commit.
  tw_step Hff. eapply (tw_physical Hff); [done|done|]. tw_step Hff. by apply HQ.
Qed.

(** ** The installed schema *)

(** The settings and the schema identity of an opened authority database. *)
Record installed st db : Prop := {
  in_journal : to_ascii_lowercase (pr_journal_mode (pragmas db)) = "wal";
  in_synchronous : pr_synchronous (pragmas db) = 2%Z;
  in_foreign_keys : pr_foreign_keys (pragmas db) = 1%Z;
  in_trusted : pr_trusted_schema (pragmas db) = 0%Z;
  in_recursive : pr_recursive_triggers (pragmas db) = 1%Z;
  in_checkpoint : pr_no_ckpt_on_close (pragmas db) = true;
  in_page : is_power_of_two (pr_page_size (pragmas db)) = true;
  in_max_pages : (0 < pr_max_page_count (pragmas db) ≤ max_pages (store_limits st))%Z;
  in_application : pr_application_id (pragmas db) = APPLICATION_ID;
  in_version : pr_user_version (pragmas db) = SCHEMA_VERSION;
  in_identity : authority_store_identity db
    = Some (fingerprint (store_verifier st), integrity_fingerprint (store_key st));
  in_migrations : schema_migrations db
    = {[MIGRATION_ID := migration_v1_checksum; MIGRATION_V2_ID := migration_v2_checksum]};
  in_objects : ∃ d, fingerprint_objects (application_objects db) = Ok d ∧
                    expected_schema_fingerprint = Ok d;
}.

Lemma tw_runtime_settings b st db (Q : Database → unit → Prop) :
  page_ok db → installed st db → Q db tt →
  tw env b (validate_runtime_settings (store_limits st)) db Q.
Proof.
  intros Hp [H1 H2 H3 H4 H5 H6 H7 H8 _ _ _ _ _] HQ. unfold validate_runtime_settings.
  do 3 tw_step Hff. tw_step Hff; [by rewrite H1|]. do 3 tw_step Hff. tw_step Hff; [by rewrite H2|].
  do 3 tw_step Hff. tw_step Hff; [by rewrite H3|]. do 3 tw_step Hff. tw_step Hff; [by rewrite H4|].
  do 3 tw_step Hff. tw_step Hff; [by rewrite H5|]. do 3 tw_step Hff. tw_step Hff; [by rewrite H6|].
  tw_step Hff. apply (tw_page_size Hff); [done|]. unfold page_ok in Hp.
  tw_step Hff. tw_step Hff.
  { rewrite H7, !(proj2 (Z.leb_le _ _)) by lia. done. }
  do 2 tw_step Hff. tw_step Hff; [lia|done].
Qed.

Lemma tw_migration_entry b db name checksum (Q : Database → unit → Prop) :
  schema_migrations db !! name = Some checksum → valid_digest checksum → Q db tt →
  tw env b (validate_migration_entry name checksum) db Q.
Proof.
  intros Hm Hv HQ. unfold validate_migration_entry. do 2 tw_step Hff. rewrite Hm.
  tw_step Hff. eapply tw_lift; [done|]. tw_step Hff; [|done].
  by rewrite digest_length_ok, bool_decide_eq_true_2.
Qed.

Lemma migration_ledger db (a c : string) :
  schema_migrations db = {[MIGRATION_ID := a; MIGRATION_V2_ID := c]} →
  table_count (schema_migrations db) = 2%Z ∧ unexpected_migrations db = 0%Z ∧
  schema_migrations db !! MIGRATION_ID = Some a ∧ schema_migrations db !! MIGRATION_V2_ID = Some c.
Proof. intros E. unfold unexpected_migrations. rewrite E. split_and!; vm_compute; reflexivity. Qed.

Lemma tw_schema_identity b st db (Q : Database → unit → Prop) :
  installed st db → Q db tt →
  tw env b (validate_schema_identity (fingerprint (store_verifier st))
              (integrity_fingerprint (store_key st))) db Q.
Proof.
  intros [_ _ _ _ _ _ _ _ H9 H10 H11 H12 (d & Hd & He)] HQ.
  assert (valid_digest (fingerprint (store_verifier st))) as V1 by auto with linura.
  assert (valid_digest (integrity_fingerprint (store_key st))) as V2 by auto with linura.
  unfold validate_schema_identity.
  do 3 tw_step Hff. tw_step Hff; [by rewrite H9|]. do 3 tw_step Hff. tw_step Hff; [by rewrite H10|].
  tw_step Hff. unfold validate_store_identity. do 2 tw_step Hff. rewrite H11.
  tw_step Hff. eapply tw_lift; [done|]. tw_step Hff.
  tw_step Hff; [by rewrite !digest_length_ok|].
  tw_step Hff. eapply tw_lift; [by rewrite V1|]. tw_step Hff. eapply tw_lift; [by rewrite V2|].
  tw_step Hff; [by rewrite !bool_decide_eq_true_2|].
  destruct (migration_ledger _ _ _ H12) as (L1 & L2 & L3 & L4).
  do 3 tw_step Hff. tw_step Hff; [cbn [fst snd]; by rewrite L1, L2|].
  tw_step Hff. apply tw_migration_entry; [exact L3|auto with linura|].
  tw_step Hff. apply tw_migration_entry; [exact L4|auto with linura|].
  tw_step Hff. unfold schema_fingerprint. do 2 tw_step Hff. eapply tw_lift; [exact Hd|].
  tw_step Hff. eapply tw_lift; [exact He|]. tw_step Hff; [|done]. by rewrite bool_decide_eq_true_2.
Qed.

Lemma inv_no_violation st db : db_inv st db → foreign_key_violation db = false.
Proof.
  intros Hinv. unfold foreign_key_violation. apply negb_false_iff.
  rewrite !bool_decide_eq_true_2; [done|..]; intros [i j] v Hl; cbn;
    (destruct (transactions db !! i) eqn:Ht; [done|]);
    destruct (di_orphan _ _ Hinv _ Ht) as (Hg & He & Hr); congruence.
Qed.

Lemma tw_integrity_check st db (Q : Database → unit → Prop) :
  limits_i64 (store_limits st) → db_inv st db → installed st db → Q db tt →
  tw env false (integrity_check st) db Q.
Proof.
  intros Hlim Hinv Hin HQ. unfold integrity_check. tw_step Hff.
  tw_step Hff. eapply tw_runtime_settings; [apply (di_page _ _ Hinv)|done|].
  tw_step Hff. eapply tw_schema_identity; [done|].
  assert (∀ table c mx (P : Database → unit → Prop), known_table table = true →
    count_of_table table db = Some c → (c ≤ mx)%Z → P db tt →
    tw env true (validate_aggregate_capacity table mx) db P) as Hagg.
  { intros table c mx P Hk Hc Hle HP. unfold validate_aggregate_capacity.
    tw_step Hff. tw_step Hff; [by rewrite Hk|]. do 2 tw_step Hff. rewrite Hc.
    tw_step Hff; [|done]. cbn [from_option Datatypes.id]. unfold Datatypes.id. lia. }
  pose proof (di_audit _ _ Hinv) as Hau. destruct Hlim as (Hl1 & Hl2 & Hl3).
  assert (0 ≤ nonterminal_count db)%Z by (unfold nonterminal_count; lia).
  tw_step Hff. eapply Hagg; [done|done|apply (di_transactions _ _ Hinv)|].
  tw_step Hff. eapply Hagg; [done|done|apply (di_generations _ _ Hinv)|].
  tw_step Hff. eapply Hagg; [done|done|lia|].
  tw_step Hff. unfold validate_logical_audit_reserve. do 4 tw_step Hff. tw_step Hff.
  eapply tw_lift.
  { apply ok_or_Ok, u64_checked_add_Some. split; [done|]. unfold i64_max, u64_max in *. lia. }
  tw_step Hff; [lia|]. tw_step Hff. unfold pragma_integrity_check.
  eapply (tw_statement Hff); [intros n; by rewrite (ff_pragma _ Hff)|].
  tw_step Hff. tw_step Hff; [done|]. do 2 tw_step Hff. rewrite (inv_no_violation st) by done.
  tw_step Hff. tw_step Hff; [done|]. tw_step Hff. eapply (tw_list_ids Hff); [done|].
  tw_step Hff. eapply (tw_validate_each Hff); [done|done|intros i; apply transaction_keys_elem|].
  eapply (tw_physical Hff); [done|done|exact HQ].
Qed.
End live_lemmas.

Section liveness.
Context `{CryptoLaws}.
Context {Mg : Migrations}.
Implicit Types (st : Store) (db : Database) (id : TransactionId).

Lemma installed_step st db db' :
  limits_ok (store_limits st) → db_inv st db → installed st db → store_step st db db' →
  installed st db'.
Proof.
  intros Hlim Hinv Hin HS. revert Hinv Hin.
  destruct HS as [op released env s s' r Hadm HH]. intros Hinv Hin.
  assert (db_inv (with_released st released) (sess_db s)) as Hinv' by by apply db_inv_released.
  destruct (op_run_effect (with_released st released) _ _ _ _ _ Hlim Hinv' Hadm HH)
    as [[-> _]|[_ (dt & dg & de & Hs) _ _]]; [done|].
  destruct Hin as [H1 H2 H3 H4 H5 H6 H7 H8 H9 H10 H11 H12 H13].
  pose proof (sp_pragmas _ _ _ _ _ _ Hs) as Hp.
  constructor; rewrite ?Hp, ?(sp_identity _ _ _ _ _ _ Hs), ?(sp_migrations _ _ _ _ _ _ Hs); auto.
  unfold application_objects. by rewrite (sp_objects _ _ _ _ _ _ Hs).
Qed.

Lemma installed_steps st db db' :
  limits_ok (store_limits st) → db_inv st db → installed st db → store_steps st db db' →
  db_inv st db' ∧ installed st db'.
Proof.
  intros Hlim Hinv Hin Hs. induction Hs as [|db db1 db' Hs _ IH]; [done|].
  apply IH; [by apply (store_step_effect st db db1)|by eapply installed_step].
Qed.

Lemma inv_absent st db id :
  db_inv st db → machine_at db id = None → transactions db !! id = None.
Proof.
  intros Hinv Hm. destruct (transactions db !! id) as [t|] eqn:Ht; [|done].
  destruct (di_tx _ _ Hinv _ _ Ht) as (old & g & evs & q & Hv & Hok).
  rewrite (machine_at_state (store_key st) db id t old g evs q) in Hm by by constructor. done.
Qed.

(** C34: A prepared transaction can always be aborted: without faults, an
    abort request that names the stored generation and version succeeds
    however many audit events the store holds, and leaves the transaction
    aborted at the next version. *)
Theorem prepared_can_always_abort st r env s
    (Hff : fault_free env) (Hlim : limits_i64 (store_limits st))
    (Hinv : db_inv st (sess_db s)) (Hauto : sess_in_transaction s = false)
    (Hm : machine_at (sess_db s) (ar_transaction_id r)
          = machine (ar_expected_generation r) (ar_expected_state_version r) Prepared)
    (Hr : valid_digest (ar_reason_digest r)) :
  ∃ s' snap, abort_prepared st r env s = (s', Ok (store_after_abort st, snap)) ∧
    ts_state snap = Aborted ∧
    machine_at (sess_db s') (ar_transaction_id r)
    = machine (ar_expected_generation r) (ar_expected_state_version r + 1) Aborted.
Proof.
  destruct (machine_at_inv _ _ _ _ _ _ Hinv Hm) as (t & old & g & evs & Hat & Hg & Hv).
  assert (tw env false (abort_prepared st r) (sess_db s)
    (λ db' x, x.1 = store_after_abort st ∧ ts_state x.2 = Aborted ∧
       machine_at db' (ar_transaction_id r)
       = machine (ar_expected_generation r) (ar_expected_state_version r + 1) Aborted)) as Htw.
  { eapply (tw_mutation Hff st (abort_body st r) (sess_db s) (λ db' snap, ts_state snap = Aborted ∧
      machine_at db' (ar_transaction_id r)
      = machine (ar_expected_generation r) (ar_expected_state_version r + 1) Aborted));
      [done|by eapply tw_abort_body| |done].
    intros s0 s1 a Hd Hb. rewrite <- Hd in Hinv.
    destruct (abort_body_spec _ _ _ _ _ Hinv Hr Hb)
      as (t1 & old1 & g1 & g1' & evs1 & Ha & Hg1 & Hv1 & ->).
    split; [|apply Ha]. split; [done|].
    rewrite (machine_at_state _ _ _ _ _ _ _ _ (ad_after _ _ _ _ _ _ _ _ _ _ _ _ _ Ha)).
    cbn. by rewrite Hg1, Hv1. }
  destruct (Htw s eq_refl Hauto) as (s' & [st' snap] & Hrun & _ & Hst & Hs & Hm').
  cbn in Hst. subst st'. by exists s', snap.
Qed.

(** A verified transaction can always be committed: without faults, a
    commit request that carries a valid authority tag, names the stored
    generation, version and binding, and repeats the verified material
    succeeds however many audit events the store holds. *)
Theorem verified_can_always_commit st r env s g
    (Hff : fault_free env) (Hlim : limits_i64 (store_limits st))
    (Hinv : db_inv st (sess_db s)) (Hauto : sess_in_transaction s = false)
    (Hopen : store_opener_released st = false)
    (Htag : verify_commit (store_verifier st) r = true)
    (Hm : machine_at (sess_db s) (cr_transaction_id r)
          = machine (cr_expected_generation r) (cr_expected_state_version r) Verified)
    (Hg : generations (sess_db s) !! (cr_transaction_id r, cr_expected_generation r) = Some g)
    (Hb : sg_binding_digest g = cr_expected_binding_digest r)
    (Hmat : commit_material g = [Some (cr_desired_state_digest r); Some (cr_graph_digest r);
                                 Some (cr_provenance_digest r)]) :
  ∃ s' snap, commit st r env s = (s', Ok snap) ∧ ts_state snap = Committed ∧
    machine_at (sess_db s') (cr_transaction_id r)
    = machine (cr_expected_generation r) (cr_expected_state_version r + 1) Committed.
Proof.
  destruct (machine_at_inv _ _ _ _ _ _ Hinv Hm) as (t & old & g' & evs & Hat & Hcg & Hcv).
  pose proof (current_generation_row _ _ _ _ _ _ _ _ _ (as_view _ _ _ _ _ _ _ _ Hat)
    (as_ok _ _ _ _ _ _ _ _ Hat)) as Hrow. rewrite Hcg, Hg in Hrow. injection Hrow as <-.
  assert (tw env false (commit st r) (sess_db s)
    (λ db' snap, ts_state snap = Committed ∧ machine_at db' (cr_transaction_id r)
       = machine (cr_expected_generation r) (cr_expected_state_version r + 1) Committed)) as Htw.
  { unfold commit, require_normal_open. rewrite Hopen, Htag. do 2 (tw_step Hff; tw_step Hff; [done|]).
    eapply (tw_mutation Hff st (commit_body st r) (sess_db s) (λ db' snap, ts_state snap = Committed ∧
      machine_at db' (cr_transaction_id r)
      = machine (cr_expected_generation r) (cr_expected_state_version r + 1) Committed));
      [done|by eapply tw_commit_body| |done].
    intros s0 s1 a Hd Hbody. rewrite <- Hd in Hinv.
    destruct (commit_body_spec _ _ _ _ _ Hinv Hbody)
      as (t1 & old1 & g1 & g1' & evs1 & Ha & Hg1 & Hv1 & _ & _ & _ & ->).
    split; [|apply Ha]. split; [done|].
    rewrite (machine_at_state _ _ _ _ _ _ _ _ (ad_after _ _ _ _ _ _ _ _ _ _ _ _ _ Ha)).
    cbn. by rewrite Hg1, Hv1. }
  destruct (Htw s eq_refl Hauto) as (s' & snap & Hrun & _ & Hs & Hm'). by exists s', snap.
Qed.

(** C29: Every database reachable from an installed empty one passes the
    integrity check when it runs without faults: no sequence of requests,
    failed statements included, leaves a state the check rejects. *)
Theorem reachable_passes_integrity_check st env s db0
    (Hff : fault_free env) (Hlim : limits_i64 (store_limits st))
    (Hnn : limits_nonneg (store_limits st)) (Hempty : empty_db db0) (Hin : installed st db0)
    (Hsteps : store_steps st db0 (sess_db s)) (Hauto : sess_in_transaction s = false) :
  ∃ s', integrity_check st env s = (s', Ok tt) ∧ sess_db s' = sess_db s.
Proof.
  destruct (installed_steps st db0 (sess_db s)) as [Hinv Hin'];
    [by apply limits_i64_ok|by apply empty_db_inv|done|done|].
  destruct (tw_integrity_check Hff st (sess_db s) (λ db _, db = sess_db s) Hlim Hinv Hin' eq_refl
    s eq_refl Hauto) as (s' & [] & Hr & _ & Hd). by exists s'.
Qed.

(** Reads agree with the audit trail: without faults [snapshot] returns
    the state, generation and version the trail replays to, and reports
    [NotFound] exactly for the identifiers without a trail. *)
Theorem snapshot_reads_replayed_state st id env s
    (Hff : fault_free env) (Hinv : db_inv st (sess_db s)) :
  match machine_at (sess_db s) id with
  | Some a => ∃ s' snap q, snapshot st id env s = (s', Ok snap) ∧ sess_db s' = sess_db s ∧
      m_phase a = Live q ∧ ts_state snap = q ∧ ts_transaction_id snap = id ∧
      ts_current_generation snap = m_generation a ∧ ts_state_version snap = m_version a
  | None => ∃ s', snapshot st id env s = (s', Err NotFound) ∧ sess_db s' = sess_db s
  end.
Proof.
  destruct (machine_at (sess_db s) id) as [a|] eqn:Hm.
  - destruct (transactions (sess_db s) !! id) as [t|] eqn:Ht.
    2:{ unfold machine_at in Hm. by rewrite trail_absent in Hm by by apply (di_orphan _ _ Hinv). }
    destruct (di_tx _ _ Hinv _ _ Ht) as (old & g & evs & q & Hv & Hok).
    assert (at_state (store_key st) (sess_db s) id t old g evs q) as Hat by by constructor.
    rewrite (machine_at_state _ _ _ _ _ _ _ _ Hat) in Hm. injection Hm as <-.
    destruct (tw_load_current Hff (sess_in_transaction s) _ _ _ _ _ _ _ _
      (λ db x, db = sess_db s ∧ x = (t, g, snapshot_for t q g)) Hat (conj eq_refl eq_refl)
      s eq_refl eq_refl) as (s' & x & Hr & _ & Hd & ->).
    exists s', (snapshot_for t q g), q. split_and!; try done; [|apply (to_id _ _ _ _ _ _ _ Hok)].
    unfold snapshot, mbind, M_bind. unfold runs in Hr. by rewrite Hr.
  - pose proof (inv_absent _ _ _ Hinv Hm) as Ht.
    unfold snapshot, load_current, load_transaction, query, statement, mbind, M_bind.
    rewrite (ff_fault _ Hff), Ht. by eexists.
Qed.
End liveness.
