(* ===== verification/OpenFacts.v ===== *)
(** * What opening a store guarantees

    Opening never touches the authority records; it leaves databases of other
    applications alone; when it succeeds the database is installed for the
    given keys and passed the integrity check; and, without faults, it does
    succeed on an empty file, on a schema-v1 database and on every database
    the store has left behind. *)

From Stdlib Require Import ZArith Lia.
From stdpp Require Import base numbers gmap strings list fin_maps sorting.
From S2P Require Import Prelude Text Core Digest Binding Authority Sqlite Integrity Validation.
From S2P Require Import Store OpenStore Run Protocol StoreInvariant.
From S2P Require Import StoreWrites StoreRefine StoreSpec IntegrityComplete.
From S2P Require Import StoreLiveness.

Set Default Goal Selector "!".

(** ** The records of the store *)

Definition tables (db : Database) :=
  (transactions db, generations db, audit_events db, audit_reservations db).

(** Computations that keep them, whatever their result. *)
Class KeepsTables {A} (m : M A) : Prop :=
  keeps_tables : ∀ env s, tables (sess_db (fst (m env s))) = tables (sess_db s).

Section keeps.
Context `{Crypto}.

#[export] Instance keeps_readonly {A} (m : M A) : ReadOnlyM m → KeepsTables m.
Proof. intros Hm env s. by rewrite (Hm env s). Qed.

#[export] Instance keeps_bind {A B} (m : M A) (f : A → M B) :
  KeepsTables m → (∀ a, KeepsTables (f a)) → KeepsTables (m ≫= f).
Proof.
  intros Hm Hf env s. unfold mbind, M_bind. specialize (Hm env s).
  destruct (m env s) as [s1 [a|e]]; cbn in *; [|done]. by rewrite (Hf a env s1).
Qed.

#[export] Instance keeps_immediate {A} (m : M A) :
  KeepsTables m → KeepsTables (immediate_transaction m).
Proof.
  intros Hm env s. unfold immediate_transaction.
  destruct (env_fault env (sess_step s)); [done|].
  match goal with |- context [m env ?s0] => pose proof (Hm env s0) as Hs end.
  destruct (m _ _) as [s1 [a|e]]; cbn in *; [|done]. by destruct (env_fault env (sess_step s1)).
Qed.

Lemma keeps_statement {A} (f : Env → nat → Database → result SqliteError (A * Database)) :
  (∀ env n db a db', f env n db = Ok (a, db') → tables db' = tables db) →
  KeepsTables (statement f).
Proof.
  intros Hf env s. unfold statement. destruct (env_fault env (sess_step s)); [done|].
  destruct (f _ _ _) as [[a db']|e] eqn:E; [|done]. by apply Hf in E.
Qed.

Lemma keeps_execute (f : Database → result SqliteError Database) :
  (∀ db db', f db = Ok db' → tables db' = tables db) → KeepsTables (execute f).
Proof.
  intros Hf. apply keeps_statement. intros env n db a db' HH. ok_inv. by apply Hf.
Qed.
End keeps.

Section open_safety.
Context `{Crypto} {Mg : Migrations}.

#[export] Instance keeps_pragma x : KeepsTables (pragma_update x).
Proof. apply keeps_execute. intros db db' [= <-]. done. Qed.
#[export] Instance keeps_migration text : KeepsTables (execute_migration text).
Proof. apply keeps_execute. intros db db' HH. by ok_inv. Qed.
#[export] Instance keeps_identity a i : KeepsTables (execute (insert_store_identity a i)).
Proof. apply keeps_execute. unfold insert_store_identity, sql_reject. intros db db' HH. by ok_inv. Qed.
#[export] Instance keeps_ledger i c : KeepsTables (execute (insert_schema_migration i c)).
Proof. apply keeps_execute. unfold insert_schema_migration, sql_reject. intros db db' HH. by ok_inv. Qed.
#[export] Instance keeps_initialize a i : KeepsTables (initialize_body a i).
Proof. unfold initialize_body. apply _. Qed.
#[export] Instance keeps_upgrade : KeepsTables upgrade_body.
Proof. unfold upgrade_body. apply _. Qed.

#[export] Instance ro_connection_open : ReadOnlyM connection_open.
Proof. intros env s. unfold connection_open, execute, statement. by destruct (env_fault _ _). Qed.
#[export] Instance ro_busy_timeout : ReadOnlyM busy_timeout.
Proof. intros env s. unfold busy_timeout, execute, statement. by destruct (env_fault _ _). Qed.
#[export] Instance ro_pre_identity : ReadOnlyM validate_pre_configuration_identity.
Proof. unfold validate_pre_configuration_identity. solve_readonly. Qed.
#[export] Instance ro_register p : ReadOnlyM (register_filesystem_reserve_functions p).
Proof. done. Qed.
#[export] Instance ro_headroom : ReadOnlyM release_preopen_recovery_headroom.
Proof. done. Qed.
#[export] Instance ro_v1_identity a i : ReadOnlyM (validate_v1_schema_identity a i).
Proof.
  unfold validate_v1_schema_identity, validate_store_identity, validate_migration_entry,
    schema_fingerprint. solve_readonly.
Qed.

#[export] Instance keeps_journal m u : KeepsTables (configure_journal m u).
Proof.
  unfold configure_journal. destruct u; [case_bool_decide; [apply _|]|apply _].
  apply keeps_statement. by intros env n db a db' [= _ <-].
Qed.

#[export] Instance keeps_configure l : KeepsTables (configure_connection l).
Proof.
  unfold configure_connection. repeat (apply keeps_bind; [apply _|intros ?]).
  apply keeps_bind; [|apply _]. apply keeps_statement. intros ? ? ? ? ? HH. by simplify_eq.
Qed.

#[export] Instance keeps_schema a i : KeepsTables (initialize_or_validate_schema a i).
Proof.
  unfold initialize_or_validate_schema. do 2 (apply keeps_bind; [apply _|intros ?]).
  apply keeps_bind; [|apply _]. destruct (_ && _); [apply _|].
  apply keeps_bind; [apply _|intros _]. destruct (_ =? 1)%Z; [apply _|].
  destruct (_ =? _)%Z; apply _.
Qed.

(** Opening never touches the authority records: whatever the file, the
    keys, the failures and the result, an attempt to open it leaves its
    transactions, generations, audit events and reservations as they were. *)
Theorem open_keeps_records limits verifier key terminal env s :
  tables (sess_db (fst (open_with_limits_mode limits verifier key terminal env s)))
  = tables (sess_db s).
Proof.
  enough (KeepsTables (open_with_limits_mode limits verifier key terminal)) as Hk by apply Hk.
  unfold open_with_limits_mode. apply keeps_bind; [apply _|intros l].
  apply keeps_bind; [destruct terminal; apply _|intros r]. apply _.
Qed.

(** ** Databases of other applications *)

(** [m] fails on [db] and leaves it. *)
Definition stops {A} (m : M A) (env : Env) (db : Database) : Prop :=
  ∀ s, sess_db s = db → ∃ s' e, m env s = (s', Err e) ∧ sess_db s' = db.

Lemma stops_bind {A B} (m : M A) (f : A → M B) env db : stops m env db → stops (m ≫= f) env db.
Proof.
  intros Hm s Hs. destruct (Hm s Hs) as (s' & e & E & Hd). exists s', e.
  unfold mbind, M_bind. by rewrite E.
Qed.

Lemma stops_fail {A} e env db : stops (A:=A) (fail e) env db.
Proof. intros s Hs. by exists s, e. Qed.

Lemma stops_reject e env db : stops (reject true e) env db.
Proof. intros s Hs. by exists s, e. Qed.

(** A reading step either fails itself or hands over to what follows. *)
Lemma stops_after {A B} (m : M A) `{!ReadOnlyM m} (f : A → M B) env db :
  (∀ s s' a, sess_db s = db → runs m env s s' a → stops (f a) env db) → stops (m ≫= f) env db.
Proof.
  intros Hf s Hs. unfold mbind, M_bind. pose proof (readonly (m:=m) env s) as Hr.
  destruct (m env s) as [s1 [a|e]] eqn:E; cbn in Hr.
  - destruct (Hf s s1 a Hs E s1) as (s' & e & E' & Hd); [congruence|]. by exists s', e.
  - exists s1, e. by rewrite Hr.
Qed.

(** A database that is neither empty nor an authority database of a supported
    schema generation. *)
Definition foreign (db : Database) : Prop :=
  let application_id := pr_application_id (pragmas db) in
  let user_version := pr_user_version (pragmas db) in
  if bool_decide (application_id = 0%Z ∧ user_version = 0%Z)
  then application_objects db ≠ []
  else application_id ≠ APPLICATION_ID ∨ (user_version ≠ 1%Z ∧ user_version ≠ SCHEMA_VERSION).

Lemma foreign_stops env db : foreign db → stops validate_pre_configuration_identity env db.
Proof.
  unfold foreign, validate_pre_configuration_identity. intros Hf.
  apply stops_after; [apply _|]. intros s1 s1' app Hs1 [-> _]%runs_query.
  apply stops_after; [apply _|]. intros s2 s2' ver Hs2 [-> _]%runs_query. rewrite Hs1, Hs2.
  destruct (Z.eqb_spec (pr_application_id (pragmas db)) 0) as [Ea|Ea],
    (Z.eqb_spec (pr_user_version (pragmas db)) 0) as [Ev|Ev]; cbn [andb];
    [rewrite bool_decide_eq_true_2 in Hf by done|rewrite bool_decide_eq_false_2 in Hf by tauto..].
  { apply stops_after; [apply _|]. intros s3 s3' n Hs3 [-> _]%runs_query. rewrite Hs3.
    unfold application_object_count. destruct (application_objects db); [done|]. apply stops_fail. }
  all: destruct (Z.eqb_spec (pr_application_id (pragmas db)) APPLICATION_ID) as [Eb|Eb];
    [|by apply stops_bind, stops_reject].
  all: apply stops_after; [apply _|]; intros s3 s3' u Hs3 _; apply stops_bind.
  all: destruct Hf as [Hf|[Hf1 Hf2]]; [done|].
  all: rewrite (proj2 (Z.eqb_neq _ _) Hf1), (proj2 (Z.eqb_neq _ _) Hf2); apply stops_reject.
Qed.

(** Databases of other applications are left alone: a file with the
    identity of another application, an unsupported schema generation, or
    schema objects but no identity is refused and not changed in any way,
    persistent settings included. *)
Theorem open_leaves_foreign_databases limits verifier key terminal env s
    (Hf : foreign (sess_db s)) :
  ∃ s' e, open_with_limits_mode limits verifier key terminal env s = (s', Err e) ∧
    sess_db s' = sess_db s.
Proof.
  enough (stops (open_with_limits_mode limits verifier key terminal) env (sess_db s)) as Hs
    by by apply Hs.
  unfold open_with_limits_mode. apply stops_after; [apply _|]. intros s1 s1' l Hs1 _.
  apply stops_after; [destruct terminal; apply _|]. intros s2 s2' r Hs2 _.
  apply stops_after; [apply _|]. intros s3 s3' u Hs3 _. apply stops_bind.
  unfold configure_connection. apply stops_after; [apply _|]. intros s4 s4' m Hs4 _.
  by apply stops_bind, foreign_stops.
Qed.
End open_safety.

(** ** A successful open *)

Section open_sound.
Context `{Crypto} {Mg : Migrations} {env : Env}.
Implicit Types (st : Store) (db : Database).

(** [query_inv H] consumes one read of a successful run [H]. *)
Ltac query_inv H x Hx s' Hs :=
  apply runs_bind in H as (s' & x & Hx & H); apply runs_query in Hx as [Hx Hs].
Ltac reject_inv H Hc :=
  let u := fresh in
  apply runs_bind in H as (? & u & Hc & H); apply runs_reject in Hc as [-> Hc]; clear u.

Lemma runs_runtime_settings l s s' u :
  runs (validate_runtime_settings l) env s s' u →
  let p := pragmas (sess_db s) in
  (to_ascii_lowercase (pr_journal_mode p) = "wal" ∧ pr_synchronous p = 2 ∧
   pr_foreign_keys p = 1 ∧ pr_trusted_schema p = 0 ∧ pr_recursive_triggers p = 1)%Z ∧
  pr_no_ckpt_on_close p = true ∧ is_power_of_two (pr_page_size p) = true ∧ page_ok (sess_db s) ∧
  (0 < pr_max_page_count p ≤ max_pages l)%Z.
Proof.
  intros HH p. unfold validate_runtime_settings in HH. subst p.
  query_inv HH m Hm s1 D1. reject_inv HH C1. query_inv HH v2 H2 s2 D2. reject_inv HH C2.
  query_inv HH v3 H3 s3 D3. reject_inv HH C3. query_inv HH v4 H4 s4 D4. reject_inv HH C4.
  query_inv HH v5 H5 s5 D5. reject_inv HH C5. query_inv HH v6 H6 s6 D6. reject_inv HH C6.
  apply runs_bind in HH as (s7 & page & Hp & HH). pose proof (runs_readonly _ _ _ _ _ Hp) as D7.
  unfold page_size in Hp. query_inv Hp v7 H7 s7' D7'.
  apply runs_lift in Hp as [-> Hp%ok_or_Ok%u64_try_from_Some]. destruct Hp as [-> Hp].
  reject_inv HH C7. query_inv HH v8 H8 s8 D8. apply runs_reject in HH as [_ C8].
  rewrite D1 in *. rewrite D2 in *. rewrite D3 in *. rewrite D4 in *. rewrite D5 in *.
  rewrite D6 in *. rewrite D7 in *. subst.
  apply negb_false_iff in C1, C2, C3, C4, C5, C6.
  apply bool_decide_eq_true in C1. apply Z.eqb_eq in C2, C3, C4, C5.
  apply orb_false_elim in C7 as [C7%negb_false_iff C7'%negb_false_iff].
  apply andb_prop in C7 as [?%Z.leb_le ?%Z.leb_le].
  apply orb_false_elim in C8 as [?%Z.leb_gt ?%Z.ltb_ge].
  unfold page_ok. split_and!; done.
Qed.

Lemma runs_store_identity a i s s' u :
  runs (validate_store_identity a i) env s s' u → authority_store_identity (sess_db s) = Some (a, i).
Proof.
  unfold validate_store_identity. intros HH. query_inv HH x Hx s1 D1.
  apply runs_bind in HH as (s2 & [a' i'] & Hl & HH). apply runs_lift in Hl as [-> Hl%ok_or_Ok].
  reject_inv HH C1.
  apply runs_bind in HH as (s3 & da & Ha & HH). apply runs_lift in Ha as [-> Ha%map_err_Ok].
  apply runs_bind in HH as (s4 & di & Hi & HH). apply runs_lift in Hi as [-> Hi%map_err_Ok].
  apply runs_reject in HH as [_ C2]. apply ContentDigest_new_Ok in Ha as [-> _].
  apply ContentDigest_new_Ok in Hi as [-> _].
  apply orb_false_elim in C2 as [C2 C3]. apply negb_false_iff, bool_decide_eq_true in C2, C3.
  congruence.
Qed.

Lemma runs_migration_entry name checksum s s' u :
  runs (validate_migration_entry name checksum) env s s' u →
  schema_migrations (sess_db s) !! name = Some checksum.
Proof.
  unfold validate_migration_entry. intros HH. query_inv HH x Hx s1 D1.
  apply runs_bind in HH as (s2 & c & Hl & HH). apply runs_lift in Hl as [-> Hl%ok_or_Ok].
  apply runs_reject in HH as [_ [_ C]%orb_false_elim].
  apply negb_false_iff, bool_decide_eq_true in C. congruence.
Qed.

Lemma ledger_exact db a c :
  unexpected_migrations db = 0%Z →
  schema_migrations db !! MIGRATION_ID = Some a → schema_migrations db !! MIGRATION_V2_ID = Some c →
  schema_migrations db = {[MIGRATION_ID := a; MIGRATION_V2_ID := c]}.
Proof.
  intros Hu H1 H2. apply map_eq. intros k.
  destruct (decide (k = MIGRATION_ID)) as [->|N1]; [by rewrite lookup_insert_eq|].
  rewrite lookup_insert_ne by done.
  destruct (decide (k = MIGRATION_V2_ID)) as [->|N2]; [by rewrite lookup_singleton_eq|].
  rewrite lookup_singleton_ne by done.
  destruct (schema_migrations db !! k) as [x|] eqn:E; [|done]. exfalso.
  assert ((k, x) ∈ filter (λ kv, fst kv ≠ MIGRATION_ID ∧ fst kv ≠ MIGRATION_V2_ID)
    (map_to_list (schema_migrations db))) as Hin.
  { apply list_elem_of_filter. split; [done|]. by apply elem_of_map_to_list. }
  unfold unexpected_migrations in Hu. destruct (filter _ _); [by apply not_elem_of_nil in Hin|].
  cbn in Hu. lia.
Qed.

Lemma runs_schema_identity a i s s' u :
  runs (validate_schema_identity a i) env s s' u →
  let db := sess_db s in
  pr_application_id (pragmas db) = APPLICATION_ID ∧ pr_user_version (pragmas db) = SCHEMA_VERSION ∧
  authority_store_identity db = Some (a, i) ∧
  schema_migrations db
  = {[MIGRATION_ID := migration_v1_checksum; MIGRATION_V2_ID := migration_v2_checksum]} ∧
  ∃ d, fingerprint_objects (application_objects db) = Ok d ∧ expected_schema_fingerprint = Ok d.
Proof.
  intros HH db. unfold validate_schema_identity in HH. subst db.
  query_inv HH v1 H1 s1 D1. reject_inv HH C1. query_inv HH v2 H2 s2 D2. reject_inv HH C2.
  apply runs_bind in HH as (s3 & [] & H3 & HH).
  assert (sess_db s3 = sess_db s2) as D3.
  { apply runs_readonly in H3; [done|]. unfold validate_store_identity. solve_readonly. }
  query_inv HH cs H4 s4 D4. reject_inv HH C4.
  apply runs_bind in HH as (s5 & [] & H5 & HH).
  assert (sess_db s5 = sess_db s4) as D5.
  { apply runs_readonly in H5; [done|]. unfold validate_migration_entry. solve_readonly. }
  apply runs_bind in HH as (s6 & [] & H6 & HH).
  assert (sess_db s6 = sess_db s5) as D6.
  { apply runs_readonly in H6; [done|]. unfold validate_migration_entry. solve_readonly. }
  apply runs_bind in HH as (s7 & d & H7 & HH). unfold schema_fingerprint in H7.
  query_inv H7 l H8 s8 D8. apply runs_lift in H7 as [-> H7].
  apply runs_bind in HH as (s9 & d' & H9 & HH). apply runs_lift in H9 as [-> H9].
  apply runs_reject in HH as [_ C9%negb_false_iff%bool_decide_eq_true]. subst d'.
  apply runs_store_identity in H3. apply runs_migration_entry in H5, H6.
  assert (sess_db s2 = sess_db s) as E2 by congruence.
  assert (sess_db s3 = sess_db s) as E3 by congruence.
  assert (sess_db s4 = sess_db s) as E4 by congruence.
  assert (sess_db s5 = sess_db s) as E5 by congruence.
  assert (sess_db s6 = sess_db s) as E6 by congruence. rewrite D1 in *.
  rewrite E2 in H3. rewrite E4 in H5. rewrite E5 in H6. subst. rewrite E3 in C4. rewrite E6 in H7.
  apply negb_false_iff, Z.eqb_eq in C1, C2.
  apply orb_false_elim in C4 as [_ C4%negb_false_iff%Z.eqb_eq].
  split_and!; [done..|by apply ledger_exact|by exists d].
Qed.

Lemma runs_integrity_check_installed st s s' :
  runs (integrity_check st) env s s' tt → installed st (sess_db s) ∧ sess_db s' = sess_db s.
Proof.
  intros HH. pose proof HH as Hdb. apply runs_readonly in Hdb.
  2:{ unfold integrity_check, with_immediate_validation. solve_readonly. }
  split; [|done]. unfold integrity_check, with_immediate_validation in HH.
  apply runs_immediate in HH as (s0 & s1 & Hd & HH & _). rewrite <- Hd.
  apply runs_bind in HH as (s2 & [] & H1 & HH). pose proof (runs_readonly _ _ _ _ _ H1) as D1.
  apply runs_bind in HH as (s3 & [] & H2 & _). apply runs_runtime_settings in H1.
  apply runs_schema_identity in H2. rewrite D1 in H2. constructor; naive_solver.
Qed.
End open_sound.

Section open_theorem.
Context `{Crypto} {Mg : Migrations}.

(** A successful open is a validated one: the store it returns holds
    the given limits, verifier and key; the database carries the identity of
    exactly these two keys, the complete migration ledger, the canonical
    schema and the required settings; and it has passed the integrity check
    in the state it is returned in. *)
Theorem open_success_is_installed limits verifier key terminal env s s' st
    (Hrun : open_with_limits_mode limits verifier key terminal env s = (s', Ok st)) :
  st = {| store_limits := limits; store_verifier := verifier; store_key := key;
          store_opener_released := terminal |} ∧
  StoreLimits_validate limits = Ok limits ∧ installed st (sess_db s') ∧
  ∃ s0, integrity_check st env s0 = (s', Ok tt) ∧ sess_db s0 = sess_db s'.
Proof.
  unfold open_with_limits_mode in Hrun. apply runs_bind in Hrun as (s1 & l & Hl & HH).
  apply runs_lift in Hl as [-> Hl].
  assert (l = limits) as -> by (unfold StoreLimits_validate in Hl; by ok_inv).
  apply runs_bind in HH as (s2 & r & Hr & HH).
  assert (r = terminal) as ->.
  { destruct terminal; [|by apply runs_ret in Hr as [_ ->]].
    apply runs_bind in Hr as (? & b & _ & Hr). apply runs_bind in Hr as (? & ? & _ & Hr).
    by apply runs_ret in Hr as [_ ->]. }
  apply runs_bind in HH as (s3 & [] & _ & HH). apply runs_bind in HH as (s4 & [] & _ & HH).
  apply runs_bind in HH as (s5 & [] & _ & HH). apply runs_bind in HH as (s6 & [] & Hc & HH).
  apply runs_ret in HH as [-> ->].
  destruct (runs_integrity_check_installed _ _ _ Hc) as [Hin Hd].
  split; [done|]. split; [done|]. split; [by rewrite Hd|]. by exists s5.
Qed.
End open_theorem.
