(* ===== verification/OpenLive.v ===== *)
(** * Opening succeeds

    Without faults, the opening path of [OpenStore] installs an empty
    database, upgrades a schema-v1 database and reopens every database a store
    has left behind.  The files between which the cases differ are described
    by their durable content; the settings of the connection are arbitrary. *)

From Stdlib Require Import ZArith Lia.
From stdpp Require Import base numbers gmap strings list fin_maps sorting.
From S2P Require Import Prelude Text Core Digest Binding Authority Sqlite Integrity Validation.
From S2P Require Import Store OpenStore Run Protocol StoreInvariant.
From S2P Require Import StoreWrites StoreRefine StoreSpec IntegrityComplete.
From S2P Require Import StoreLiveness OpenFacts.

Set Default Goal Selector "!".

(** The outside world lets the file be configured: WAL is available, the page
    limit is honoured, the reserve functions register, headroom is released. *)
Record open_ready (env : Env) (limits : StoreLimits) : Prop := {
  or_journal : ∀ n, to_ascii_lowercase (env_journal_mode_wal env n) = "wal";
  or_pages : ∀ n, (0 < env_set_max_page_count env n (max_pages limits) ≤ max_pages limits)%Z;
  or_register : ∀ n p, env_register_reserve_functions env n p = Ok tt;
  or_headroom : ∀ n, env_release_headroom env n = Ok true;
}.

(** Limits that pass [StoreLimits::validate] and fit a signed word. *)
Record limits_open (l : StoreLimits) : Prop := {
  lo_valid : StoreLimits_validate l = Ok l;
  lo_i64 : limits_i64 l;
  lo_pages : (0 ≤ max_pages l ≤ i64_max)%Z;
}.

(** The settings after [configure_connection]. *)
Record configured (limits : StoreLimits) (p p' : Pragmas) : Prop := {
  cf_journal : to_ascii_lowercase (pr_journal_mode p') = "wal";
  cf_synchronous : pr_synchronous p' = 2%Z;
  cf_foreign_keys : pr_foreign_keys p' = 1%Z;
  cf_trusted : pr_trusted_schema p' = 0%Z;
  cf_recursive : pr_recursive_triggers p' = 1%Z;
  cf_checkpoint : pr_no_ckpt_on_close p' = true;
  cf_pages : (0 < pr_max_page_count p' ≤ max_pages limits)%Z;
  cf_page_size : pr_page_size p' = pr_page_size p;
  cf_application : pr_application_id p' = pr_application_id p;
  cf_version : pr_user_version p' = pr_user_version p;
}.

(** What decides whether the file may be configured. *)
Definition blank (db : Database) : Prop :=
  pr_application_id (pragmas db) = 0%Z ∧ pr_user_version (pragmas db) = 0%Z ∧
  application_objects db = [].
Definition ours (db : Database) : Prop :=
  pr_application_id (pragmas db) = APPLICATION_ID ∧
  (pr_user_version (pragmas db) = 1%Z ∨ pr_user_version (pragmas db) = SCHEMA_VERSION) ∧
  to_ascii_lowercase (pr_journal_mode (pragmas db)) = "wal".
Definition pages_ok (db : Database) : Prop :=
  page_ok db ∧ is_power_of_two (pr_page_size (pragmas db)) = true.

Section open_live.
Context `{CryptoLaws} {Mg : Migrations} {env : Env} (Hff : fault_free env).
Implicit Types (db : Database).

Lemma tw_pragma_update b x db (Q : Database → unit → Prop) :
  Q (apply_setting x db) tt → tw env b (pragma_update x) db Q.
Proof. intros HQ. by eapply (tw_execute Hff). Qed.

Lemma tw_nop b (m : M unit) db (Q : Database → unit → Prop) :
  m = execute (λ db, Ok db) → Q db tt → tw env b m db Q.
Proof. intros -> HQ. by eapply (tw_execute Hff). Qed.

Lemma tw_pre_identity b db (u : bool) (Q : Database → bool → Prop) :
  (if u then blank db else ours db) → Q db u →
  tw env b validate_pre_configuration_identity db Q.
Proof.
  intros Hu HQ. unfold validate_pre_configuration_identity. do 4 tw_step Hff. destruct u.
  - destruct Hu as (-> & -> & Ho). cbn [Z.eqb andb]. do 2 tw_step Hff.
    unfold application_object_count. rewrite Ho. change (Z.of_nat (length []) =? 0)%Z with true. cbv match. by apply tw_ret.
  - destruct Hu as (-> & Hv & _). cbn [Z.eqb APPLICATION_ID andb].
    tw_step Hff. tw_step Hff; [done|]. tw_step Hff. tw_step Hff; [|by tw_step Hff].
    destruct Hv as [-> | ->]; done.
Qed.

Lemma tw_configure limits db (u : bool) (Q : Database → unit → Prop) :
  open_ready env limits → limits_open limits → pages_ok db →
  (if u then blank db else ours db) →
  (∀ p', configured limits (pragmas db) p' → Q (with_pragmas db p') tt) →
  tw env false (configure_connection limits) db Q.
Proof.
  intros Hor [_ _ Hmp] [Hp Hpow] Hu HQ. unfold configure_connection. do 2 tw_step Hff.
  tw_step Hff. apply (tw_pre_identity _ _ u); [done|].
  tw_step Hff. apply tw_nop; [done|]. do 5 (tw_step Hff; apply tw_pragma_update). tw_step Hff.
  match goal with |- tw _ _ _ ?d _ => set (db1 := d) end.
  assert (tw env false (configure_journal (pr_journal_mode (pragmas db)) u) db1
    (λ db2 mode, to_ascii_lowercase mode = "wal" ∧ db2 = apply_setting (JournalMode mode) db1)) as Hj.
  { unfold configure_journal. destruct u.
    - case_bool_decide as Hw; [by tw_step Hff|].
      intros s Hd Hb. exists {| sess_db := apply_setting (JournalMode
        (env_journal_mode_wal env (sess_step s))) db1; sess_step := S (sess_step s);
        sess_in_transaction := sess_in_transaction s |}, (env_journal_mode_wal env (sess_step s)).
      unfold runs, statement. rewrite (ff_fault _ Hff), Hd.
      split; [done|]. split; [done|]. split; [apply (or_journal _ _ Hor)|done].
    - destruct Hu as (_ & _ & Hw). tw_step Hff. rewrite bool_decide_eq_true_2 by done.
      tw_step Hff; [done|]. by tw_step Hff. }
  eapply tw_mono; [exact Hj|]. cbv beta. intros db2 mode [Hw ->]. clear Hj.
  tw_step Hff. tw_step Hff; [by rewrite bool_decide_eq_true_2|].
  tw_step Hff. apply (tw_page_size Hff); [done|].
  tw_step Hff. intros s Hd Hb. exists s, tt. split; [|split; [done|]].
  { unfold runs, register_filesystem_reserve_functions. by rewrite (or_register _ _ Hor). }
  rewrite Hd. clear s Hd Hb. tw_step Hff.
  eapply tw_lift.
  { unfold as_i64. destruct (Z.leb_spec (max_pages limits) i64_max); [done|lia]. }
  tw_step Hff. intros s Hd Hb.
  eexists _, tt. unfold runs, statement. rewrite (ff_fault _ Hff).
  split; [reflexivity|]. split; [done|]. rewrite Hd. cbn [sess_db].
  match goal with |- tw _ _ _ ?d _ => set (db3 := d) end.
  assert (∃ p', db3 = with_pragmas db p' ∧ configured limits (pragmas db) p') as (p' & Hdb3 & Hc).
  { eexists. split; [reflexivity|]. constructor; cbn; try done. apply (or_pages _ _ Hor). }
  rewrite Hdb3. clearbody db3. clear db3 Hdb3. destruct Hc as [C1 C2 C3 C4 C5 C6 C7 C8 C9 C10].
  assert (page_ok (with_pragmas db p')) as Hp' by (unfold page_ok; cbn; by rewrite C8).
  unfold validate_runtime_settings. unfold page_ok in Hp'. cbn in Hp'.
  do 3 tw_step Hff. tw_step Hff; [cbn; by rewrite C1|].
  do 3 tw_step Hff. tw_step Hff; [cbn; by rewrite C2|].
  do 3 tw_step Hff. tw_step Hff; [cbn; by rewrite C3|].
  do 3 tw_step Hff. tw_step Hff; [cbn; by rewrite C4|].
  do 3 tw_step Hff. tw_step Hff; [cbn; by rewrite C5|].
  do 3 tw_step Hff. tw_step Hff; [cbn; by rewrite C6|].
  tw_step Hff. apply (tw_page_size Hff); [done|]. tw_step Hff. tw_step Hff.
  { cbn. rewrite C8, Hpow. rewrite <- C8, !(proj2 (Z.leb_le _ _)) by lia. done. }
  do 2 tw_step Hff. tw_step Hff; [cbn; lia|]. by apply HQ.
Qed.

(** ** The three kinds of file *)

(** The settings of the connection together with the durable identity. *)
Lemma installed_intro st db p' :
  pages_ok db → configured (store_limits st) (pragmas db) p' →
  pr_application_id p' = APPLICATION_ID → pr_user_version p' = SCHEMA_VERSION →
  authority_store_identity db
  = Some (fingerprint (store_verifier st), integrity_fingerprint (store_key st)) →
  schema_migrations db
  = {[MIGRATION_ID := migration_v1_checksum; MIGRATION_V2_ID := migration_v2_checksum]} →
  (∃ d, fingerprint_objects (application_objects db) = Ok d ∧ expected_schema_fingerprint = Ok d) →
  installed st (with_pragmas db p').
Proof.
  intros [_ Hpow] [C1 C2 C3 C4 C5 C6 C7 C8 C9 C10] Ha Hv Hi Hm Ho.
  constructor; cbn; try done. by rewrite C8.
Qed.

(** The invariant depends on the records and on the page size only. *)
Lemma db_inv_tables st db db' :
  tables db' = tables db → pr_page_size (pragmas db') = pr_page_size (pragmas db) →
  db_inv st db → db_inv st db'.
Proof.
  unfold tables. intros [= E1 E2 E3 E4] Hp [D1 D2 D3 D4 D5 D6].
  constructor; rewrite ?E1, ?E2, ?E3; [..|done|done|].
  - unfold page_ok in *. by rewrite Hp.
  - intros id x (old & g & evs & q & [V1 V2 V3 V4] & Hok)%D2. exists old, g, evs, q.
    split; [|done]. constructor; rewrite ?E1, ?E2, ?E3, ?E4, ?Hp; done.
  - intros id Hid%D3. unfold no_rows in *. by rewrite E2, E3, E4.
  - unfold nonterminal_count, is_nonterminal in *. by rewrite E1, E2.
Qed.

(** The empty file, and the migrations it takes. *)
Record blank_file (db : Database) : Prop := {
  bf_application : pr_application_id (pragmas db) = 0%Z;
  bf_version : pr_user_version (pragmas db) = 0%Z;
  bf_objects : schema_objects db = [];
  bf_tables : transactions db = ∅ ∧ generations db = ∅ ∧ audit_events db = ∅ ∧
              audit_reservations db = ∅;
  bf_identity : authority_store_identity db = None;
  bf_migrations : schema_migrations db = ∅;
}.

Definition migrations_apply : Prop :=
  ∃ v1 v2 d, schema_batch MIGRATION_V1 [] = Ok v1 ∧ schema_batch MIGRATION_V2 v1 = Ok v2 ∧
    fingerprint_objects (select_objects v2) = Ok d.

Lemma tw_insert_migration b db name checksum (Q : Database → unit → Prop) :
  schema_migrations db !! name = None → len_between name 1 128 = true → valid_digest checksum →
  Q (with_schema_migrations db (<[name := checksum]> (schema_migrations db))) tt →
  tw env b (execute (insert_schema_migration name checksum)) db Q.
Proof.
  intros Hn Hl Hv HQ. eapply (tw_execute Hff); [|exact HQ]. unfold insert_schema_migration.
  rewrite Hn, Hl, digest_len_true by done. done.
Qed.

Lemma tw_execute_migration b text db l (Q : Database → unit → Prop) :
  schema_batch text (schema_objects db) = Ok l → Q (with_schema_objects db l) tt →
  tw env b (execute_migration text) db Q.
Proof. intros Hl HQ. eapply (tw_execute Hff); [|exact HQ]. by rewrite Hl. Qed.

Lemma tw_initialize_blank st db p' (Q : Database → unit → Prop) :
  blank_file db → migrations_apply → pages_ok db → configured (store_limits st) (pragmas db) p' →
  (∀ db', installed st db' → empty_db db' → Q db' tt) →
  tw env false (initialize_or_validate_schema (fingerprint (store_verifier st))
                  (integrity_fingerprint (store_key st))) (with_pragmas db p') Q.
Proof.
  intros [Ba Bv Bo (T1 & T2 & T3 & T4) Bi Bm] (v1 & v2 & d & M1 & M2 & M3) Hp Hc HQ.
  assert (valid_digest (fingerprint (store_verifier st))) as V1 by auto with linura.
  assert (valid_digest (integrity_fingerprint (store_key st))) as V2 by auto with linura.
  unfold initialize_or_validate_schema. do 4 tw_step Hff.
  cbn [pragmas with_pragmas]. rewrite (cf_application _ _ _ Hc), (cf_version _ _ _ Hc), Ba, Bv.
  cbn [Z.eqb andb]. do 4 tw_step Hff. unfold application_object_count, application_objects at 1.
  cbn [schema_objects with_pragmas]. rewrite Bo. tw_step Hff; [done|]. tw_step Hff.
  unfold initialize_body. tw_step Hff. apply tw_pragma_update.
  tw_step Hff. eapply tw_execute_migration; [cbn; rewrite Bo; exact M1|].
  tw_step Hff. eapply (tw_execute Hff).
  { unfold insert_store_identity. cbn. rewrite Bi, !digest_len_true by done. done. }
  tw_step Hff. apply tw_insert_migration; [cbn; by rewrite Bm|done|auto with linura|].
  tw_step Hff. eapply tw_execute_migration; [exact M2|].
  tw_step Hff. apply tw_insert_migration; [cbn; by rewrite Bm|done|auto with linura|].
  apply tw_pragma_update.
  match goal with |- tw _ _ _ ?x _ => set (db' := x) end.
  assert (installed st db') as Hin.
  { destruct Hc as [C1 C2 C3 C4 C5 C6 C7 C8 C9 C10]. destruct Hp as [_ Hpow].
    constructor; cbn; try done.
    - by rewrite C8.
    - rewrite Bm. by apply insert_insert_ne.
    - exists d. split; [exact M3|]. unfold expected_schema_fingerprint. by rewrite M1; cbn; rewrite M2. }
  apply (tw_schema_identity Hff); [done|]. apply HQ; [done|].
  constructor; [|done..]. destruct Hp as [Hp _]. unfold page_ok in *. cbn.
  by rewrite (cf_page_size _ _ _ Hc).
Qed.

(** A schema-v1 database of the same keys.  [v1_upgrade]: SQLite executes the
    second migration on it as on the reference database. *)
Record v1_file (st : Store) (db : Database) : Prop := {
  v1_application : pr_application_id (pragmas db) = APPLICATION_ID;
  v1_version : pr_user_version (pragmas db) = 1%Z;
  v1_journal : to_ascii_lowercase (pr_journal_mode (pragmas db)) = "wal";
  v1_identity : authority_store_identity db
    = Some (fingerprint (store_verifier st), integrity_fingerprint (store_key st));
  v1_migrations : schema_migrations db = {[MIGRATION_ID := migration_v1_checksum]};
  v1_objects : ∃ d, fingerprint_objects (application_objects db) = Ok d ∧
                    expected_v1_schema_fingerprint = Ok d;
  v1_upgrade : ∃ l d, schema_batch MIGRATION_V2 (schema_objects db) = Ok l ∧
    fingerprint_objects (select_objects l) = Ok d ∧ expected_schema_fingerprint = Ok d;
}.

Lemma tw_v1_identity st db p' (Q : Database → unit → Prop) :
  v1_file st db → configured (store_limits st) (pragmas db) p' →
  Q (with_pragmas db p') tt →
  tw env false (validate_v1_schema_identity (fingerprint (store_verifier st))
                  (integrity_fingerprint (store_key st))) (with_pragmas db p') Q.
Proof.
  intros [F1 F2 _ F4 F5 (d & F6 & F7) _] Hc HQ.
  assert (valid_digest (fingerprint (store_verifier st))) as V1 by auto with linura.
  assert (valid_digest (integrity_fingerprint (store_key st))) as V2 by auto with linura.
  unfold validate_v1_schema_identity. do 2 tw_step Hff. cbn [pragmas with_pragmas].
  rewrite (cf_application _ _ _ Hc), F1. tw_step Hff.
  change (negb (APPLICATION_ID =? APPLICATION_ID)%Z) with false. cbv match. tw_step Hff.
  tw_step Hff. tw_step Hff.
  { cbn [pragmas with_pragmas]. by rewrite (cf_version _ _ _ Hc), F2. }
  tw_step Hff. unfold validate_store_identity. do 2 tw_step Hff. cbn [authority_store_identity with_pragmas].
  rewrite F4. tw_step Hff. eapply tw_lift; [done|]. tw_step Hff.
  tw_step Hff; [by rewrite !digest_length_ok|].
  tw_step Hff. eapply tw_lift; [by rewrite V1|]. tw_step Hff. eapply tw_lift; [by rewrite V2|].
  tw_step Hff; [by rewrite !bool_decide_eq_true_2|].
  do 3 tw_step Hff. tw_step Hff.
  { unfold unexpected_v1_migrations. cbn [schema_migrations with_pragmas]. by rewrite F5. }
  tw_step Hff. apply (tw_migration_entry Hff); [cbn; by rewrite F5|auto with linura|].
  tw_step Hff. unfold schema_fingerprint. do 2 tw_step Hff. eapply tw_lift; [exact F6|].
  tw_step Hff. eapply tw_lift; [exact F7|]. tw_step Hff; [|done]. by rewrite bool_decide_eq_true_2.
Qed.

Lemma tw_initialize_v1 st db p' (Q : Database → unit → Prop) :
  v1_file st db → pages_ok db → configured (store_limits st) (pragmas db) p' →
  (∀ db', installed st db' → tables db' = tables db →
     pr_page_size (pragmas db') = pr_page_size (pragmas db) → Q db' tt) →
  tw env false (initialize_or_validate_schema (fingerprint (store_verifier st))
                  (integrity_fingerprint (store_key st))) (with_pragmas db p') Q.
Proof.
  intros Hf Hp Hc HQ. pose proof Hf as [F1 F2 _ F4 F5 _ (l & d & F6 & F7 & F8)].
  unfold initialize_or_validate_schema. do 4 tw_step Hff. cbn [pragmas with_pragmas].
  rewrite (cf_application _ _ _ Hc), (cf_version _ _ _ Hc), F1, F2.
  change ((APPLICATION_ID =? 0)%Z && (1 =? 0)%Z) with false. cbv match.
  do 2 tw_step Hff. tw_step Hff; [done|]. change (1 =? 1)%Z with true. cbv match.
  tw_step Hff. apply tw_v1_identity; [done|done|].
  tw_step Hff. unfold upgrade_body. tw_step Hff. eapply tw_execute_migration; [exact F6|].
  tw_step Hff. apply tw_insert_migration; [cbn; by rewrite F5|done|auto with linura|].
  apply tw_pragma_update. match goal with |- tw _ _ _ ?x _ => set (db' := x) end.
  assert (installed st db') as Hin.
  { destruct Hc as [C1 C2 C3 C4 C5 C6 C7 C8 C9 C10]. destruct Hp as [_ Hpow].
    constructor; cbn; try done.
    - by rewrite C8.
    - by rewrite C9.
    - rewrite F5. by apply insert_insert_ne.
    - by exists d. }
  apply (tw_schema_identity Hff); [done|]. apply HQ; [done|done|]. apply (cf_page_size _ _ _ Hc).
Qed.

(** An installed database, whatever the settings of its new connection. *)
Lemma tw_initialize_v2 st db p' (Q : Database → unit → Prop) :
  installed st db → configured (store_limits st) (pragmas db) p' → pages_ok db →
  (installed st (with_pragmas db p') → Q (with_pragmas db p') tt) →
  tw env false (initialize_or_validate_schema (fingerprint (store_verifier st))
                  (integrity_fingerprint (store_key st))) (with_pragmas db p') Q.
Proof.
  intros Hi Hc Hp HQ. pose proof Hi as [_ _ _ _ _ _ _ _ F1 F2 F3 F4 F5].
  unfold initialize_or_validate_schema. do 4 tw_step Hff. cbn [pragmas with_pragmas].
  rewrite (cf_application _ _ _ Hc), (cf_version _ _ _ Hc), F1, F2.
  change ((APPLICATION_ID =? 0)%Z && (SCHEMA_VERSION =? 0)%Z) with false. cbv match.
  do 2 tw_step Hff. tw_step Hff; [done|]. change (SCHEMA_VERSION =? 1)%Z with false.
  change (SCHEMA_VERSION =? SCHEMA_VERSION)%Z with true. cbv match. tw_step Hff.
  assert (installed st (with_pragmas db p')) as Hin.
  { apply installed_intro; try done.
    - by rewrite (cf_application _ _ _ Hc).
    - by rewrite (cf_version _ _ _ Hc). }
  apply (tw_schema_identity Hff); [done|]. by apply HQ.
Qed.

(** ** The whole path *)

Definition opened_store (limits : StoreLimits) (verifier : TransactionAuthorityVerifier)
    (key : SqliteIntegrityKey) (terminal : bool) : Store :=
  {| store_limits := limits; store_verifier := verifier; store_key := key;
     store_opener_released := terminal |}.

Lemma tw_open limits verifier key terminal db (u : bool) (P : Database → Prop) :
  let st := opened_store limits verifier key terminal in
  open_ready env limits → limits_open limits → pages_ok db →
  (if u then blank db else ours db) →
  (∀ p', configured limits (pragmas db) p' →
     tw env false (initialize_or_validate_schema (fingerprint verifier) (integrity_fingerprint key))
       (with_pragmas db p') (λ db' _, installed st db' ∧ db_inv st db' ∧ P db')) →
  tw env false (open_with_limits_mode limits verifier key terminal) db
    (λ db' st', st' = st ∧ installed st db' ∧ db_inv st db' ∧ P db').
Proof.
  intros st Hor Hlo Hp Hu Hinit. unfold open_with_limits_mode.
  tw_step Hff. eapply tw_lift; [apply Hlo|]. tw_step Hff.
  assert (tw env false (if terminal then
      released ← release_preopen_recovery_headroom; reject (negb released) StateConflict;; mret true
      else mret false) db (λ db' r, db' = db ∧ r = terminal)) as Hr.
  { destruct terminal; [|by tw_step Hff]. tw_step Hff. intros s Hd Hb. exists s, true.
    split; [|split; [done|]].
    - unfold runs, release_preopen_recovery_headroom. by rewrite (or_headroom _ _ Hor).
    - rewrite Hd. tw_step Hff. tw_step Hff; [done|]. by tw_step Hff. }
  eapply tw_mono; [exact Hr|]. cbv beta. intros ? ? [-> ->].
  tw_step Hff. apply tw_nop; [done|]. tw_step Hff. apply (tw_configure _ _ u); [done..|].
  intros p' Hc. tw_step Hff. eapply tw_mono; [by apply Hinit|]. cbv beta.
  intros db' _ (Hin & Hinv & HP). tw_step Hff.
  apply (tw_integrity_check Hff); [apply Hlo|done|done|]. by tw_step Hff.
Qed.
End open_live.

Section open_theorems.
Context `{CryptoLaws} {Mg : Migrations}.

(** The connection settings a new connection may have on the file of [db]. *)
Record same_file (p p' : Pragmas) : Prop := {
  sf_journal : pr_journal_mode p' = pr_journal_mode p;
  sf_page_size : pr_page_size p' = pr_page_size p;
  sf_application : pr_application_id p' = pr_application_id p;
  sf_version : pr_user_version p' = pr_user_version p;
}.

(** Opening an empty file installs it: without faults, the open succeeds
    in either mode, and the database it leaves carries the identity of the
    two keys, the complete migration ledger and schema, and no records. *)
Theorem open_installs_empty_file limits verifier key terminal env s
    (Hff : fault_free env) (Hor : open_ready env limits) (Hlo : limits_open limits)
    (Hnonneg : limits_nonneg limits) (Hauto : sess_in_transaction s = false)
    (Hp : pages_ok (sess_db s)) (Hblank : blank_file (sess_db s)) (Hmig : migrations_apply) :
  ∃ s', open_with_limits_mode limits verifier key terminal env s
        = (s', Ok (opened_store limits verifier key terminal)) ∧
    installed (opened_store limits verifier key terminal) (sess_db s') ∧ empty_db (sess_db s').
Proof.
  set (st := opened_store limits verifier key terminal).
  assert (blank (sess_db s)) as Hb.
  { destruct Hblank as [? ? Ho]. split_and!; [done..|]. unfold application_objects. by rewrite Ho. }
  destruct (tw_open Hff limits verifier key terminal (sess_db s) true empty_db Hor Hlo Hp Hb)
    with (s := s) as (s' & st' & Hrun & _ & -> & Hin & _ & He); [|done..|by exists s'].
  intros p' Hc. apply (tw_initialize_blank Hff st); [done..|].
  intros db' Hin He. split_and!; [done| |done]. by apply empty_db_inv.
Qed.

(** Every database the store leaves behind can be opened again: after
    any sequence of requests, failed ones included, on an installed empty
    database, a new connection with the same keys and limits opens the file
    without faults, finds it installed, and every record is as it was. *)
Theorem open_reopens_reachable limits verifier key terminal env s db0 db
    (Hff : fault_free env) (Hor : open_ready env limits) (Hlo : limits_open limits)
    (Hnonneg : limits_nonneg limits) (Hauto : sess_in_transaction s = false)
    (Hempty : empty_db db0) (Hin0 : installed (opened_store limits verifier key terminal) db0)
    (Hsteps : store_steps (opened_store limits verifier key terminal) db0 db)
    (Hfile : ∃ p, sess_db s = with_pragmas db p ∧ same_file (pragmas db) p) :
  ∃ s', open_with_limits_mode limits verifier key terminal env s
        = (s', Ok (opened_store limits verifier key terminal)) ∧
    installed (opened_store limits verifier key terminal) (sess_db s') ∧
    tables (sess_db s') = tables db.
Proof.
  set (st := opened_store limits verifier key terminal) in *.
  destruct (installed_steps st db0 db) as [Hinv Hin];
    [apply limits_i64_ok, Hlo|by apply empty_db_inv|done|done|].
  destruct Hfile as (p & Hs & [S1 S2 S3 S4]). pose proof Hin as [I1 _ _ _ _ _ I7 _ I9 I10 I11 I12 I13].
  assert (pages_ok (with_pragmas db p)) as Hp.
  { split; [|cbn; by rewrite S2]. pose proof (di_page _ _ Hinv) as Hp. unfold page_ok in *. cbn.
    by rewrite S2. }
  assert (ours (with_pragmas db p)) as Hours.
  { split_and!; cbn; [by rewrite S3|right; by rewrite S4|by rewrite S1]. }
  destruct (tw_open Hff limits verifier key terminal (with_pragmas db p) false
    (λ db', tables db' = tables db) Hor Hlo Hp Hours)
    with (s := s) as (s' & st' & Hrun & _ & -> & Hi & _ & Ht); [|done..|by exists s'].
  intros p' Hc. assert (configured limits (pragmas db) p') as Hc'.
  { destruct Hc as [C1 C2 C3 C4 C5 C6 C7 C8 C9 C10]. constructor; cbn in *; congruence. }
  assert (pages_ok db) as Hpdb by (split; [apply (di_page _ _ Hinv)|done]).
  apply (tw_initialize_v2 Hff st db p'); [done..|]. intros Hi. split_and!; [done| |done].
  eapply db_inv_tables; [| |exact Hinv]; [done|]. apply (cf_page_size _ _ _ Hc').
Qed.

(** A schema-v1 database is upgraded in place: without faults, opening
    one that carries the identity of the two keys and satisfies the record
    invariant succeeds, leaves it installed at the current schema generation,
    and keeps every record. *)
Theorem open_upgrades_v1 limits verifier key terminal env s
    (Hff : fault_free env) (Hor : open_ready env limits) (Hlo : limits_open limits)
    (Hauto : sess_in_transaction s = false) (Hp : pages_ok (sess_db s))
    (Hv1 : v1_file (opened_store limits verifier key terminal) (sess_db s))
    (Hinv : db_inv (opened_store limits verifier key terminal) (sess_db s)) :
  ∃ s', open_with_limits_mode limits verifier key terminal env s
        = (s', Ok (opened_store limits verifier key terminal)) ∧
    installed (opened_store limits verifier key terminal) (sess_db s') ∧
    tables (sess_db s') = tables (sess_db s).
Proof.
  set (st := opened_store limits verifier key terminal) in *.
  assert (ours (sess_db s)) as Hours by (destruct Hv1; split_and!; [done|by left|done]).
  destruct (tw_open Hff limits verifier key terminal (sess_db s) false
    (λ db', tables db' = tables (sess_db s)) Hor Hlo Hp Hours)
    with (s := s) as (s' & st' & Hrun & _ & -> & Hi & _ & Ht); [|done..|by exists s'].
  intros p' Hc. apply (tw_initialize_v1 Hff st); [done..|].
  intros db' Hi Ht Hps. split_and!; [done| |done]. by eapply db_inv_tables.
Qed.
End open_theorems.
