(* ===== verification/StoreReads.v ===== *)
(** * What the store gives back

    Round trips through the durable records: what [prepare], [handoff] and
    [recover] stored is what later reads return, and the reads change
    nothing. *)

From Stdlib Require Import ZArith Lia.
From Stdlib Require Import Strings.Byte.
From stdpp Require Import base numbers gmap strings list fin_maps sorting.
From S2P Require Import Prelude Text Core Digest Binding Authority Sqlite Integrity.
From S2P Require Import Validation Store Run Protocol StoreInvariant.
From S2P Require Import StoreWrites StoreRefine StoreSpec IntegrityComplete.
From S2P Require Import StoreLiveness CryptoModel Scenario.

Set Default Goal Selector "!".

Section reads.
Context `{CryptoLaws}.
Context {Mg : Migrations}.
Implicit Types (st : Store) (db : Database) (id : TransactionId).

(** A successful operation is a successful run of its body. *)
Lemma runs_prepare st b env s s' out :
  runs (prepare st b) env s s' out →
  ∃ s0 s1, sess_db s0 = sess_db s ∧ runs (prepare_body st b) env s0 s1 out ∧ sess_db s' = sess_db s1.
Proof.
  unfold prepare, require_normal_open. intros HH. run_inv.
  by apply runs_immediate in HH.
Qed.

Lemma runs_recover st r env s s' out :
  runs (recover st r) env s s' out →
  verify_recovery (store_verifier st) r = true ∧
  ∃ s0 s1, sess_db s0 = sess_db s ∧ runs (recover_body st r) env s0 s1 out ∧ sess_db s' = sess_db s1.
Proof.
  unfold recover, require_normal_open. intros HH. run_inv.
  rename select (negb _ = false) into Hn. apply negb_false_iff in Hn. split; [done|].
  rename select (runs (immediate_transaction _) _ _ _ _) into Hi.
  rename select (runs (reconcile_filesystem_reserve_after_commit _) _ _ _ _) into Hr.
  apply runs_immediate in Hi as (s0 & s1 & ? & ? & Hd). apply runs_readonly in Hr; [|apply _].
  exists s0, s1. split_and!; [done..|congruence].
Qed.

Lemma runs_handoff st r env s s' out :
  runs (handoff st r) env s s' out →
  verify_handoff (store_verifier st) r = true ∧
  ∃ s0 s1, sess_db s0 = sess_db s ∧ runs (handoff_body st r) env s0 s1 out ∧ sess_db s' = sess_db s1.
Proof.
  unfold handoff, require_normal_open. intros HH. run_inv.
  rename select (negb _ = false) into Hn. apply negb_false_iff in Hn. split; [done|].
  rename select (runs (immediate_transaction _) _ _ _ _) into Hi.
  rename select (runs (reconcile_filesystem_reserve_after_commit _) _ _ _ _) into Hr.
  apply runs_immediate in Hi as (s0 & s1 & ? & ? & Hd). apply runs_readonly in Hr; [|apply _].
  exists s0, s1. split_and!; [done..|congruence].
Qed.

(** The reads of the store, as one sum of requests. *)
Inductive ReadRequest :=
| ReadSnapshot (id : TransactionId)
| ReadAnchor (id : TransactionId)
| ReadMaterial (id : TransactionId)
| ReadState (q : TransactionState)
| ReadIntegrity.
Definition read_run st (r : ReadRequest) : M unit :=
  match r with
  | ReadSnapshot id => snapshot st id;; mret tt
  | ReadAnchor id => recovery_anchor st id;; mret tt
  | ReadMaterial id => verified_commit_material st id;; mret tt
  | ReadState q => list_state st q;; mret tt
  | ReadIntegrity => integrity_check st
  end.

(** Reads never write: whatever the database, the environment and the
    result, a snapshot, a recovery anchor, the commit material, a state
    listing and an integrity check leave the database as it was. *)
Theorem reads_do_not_write st r env s :
  sess_db (fst (read_run st r env s)) = sess_db s.
Proof.
  enough (ReadOnlyM (read_run st r)) as Hro by apply Hro.
  destruct r; cbn [read_run];
    unfold snapshot, recovery_anchor, verified_commit_material, list_state, integrity_check,
      with_immediate_validation; solve_readonly.
Qed.

(** Preparing the same binding again is idempotent: after a successful
    [prepare] that created a transaction, a second [prepare] without faults
    answers [Existing] with the same snapshot and leaves the database. *)
Theorem prepare_is_idempotent st b env s s1 snap env' s2
    (Hlim : limits_ok (store_limits st)) (Hinv : db_inv st (sess_db s))
    (Hb : admissible_binding b) (Hopen : store_opener_released st = false)
    (Hfirst : prepare st b env s = (s1, Ok (Created snap)))
    (Hff : fault_free env') (Hdb : sess_db s2 = sess_db s1)
    (Hauto : sess_in_transaction s2 = false) :
  ∃ s3, prepare st b env' s2 = (s3, Ok (Existing snap)) ∧ sess_db s3 = sess_db s2.
Proof.
  apply runs_prepare in Hfirst as (sa & sb & Hd & Hr & Hd').
  rewrite <- Hd in Hinv. apply prepare_body_spec in Hr as [[Hc [= ->]]|(?&?&?&?&?&?&[=]&?)]; [|done..].
  destruct Hc as [_ Hat _ _]. rewrite <- Hd', <- Hdb in Hat. cbn zeta in Hat.
  assert (tw env' false (prepare st b) (sess_db s2)
    (λ db out, db = sess_db s2 ∧ out = Existing (created_snapshot b))) as Htw.
  { unfold prepare, require_normal_open. rewrite Hopen. tw_step Hff. tw_step Hff; [done|].
    tw_step Hff. intros s0 Hd0 Hb0. unfold prepare_body, runs.
    destruct (tw_load_current Hff true _ _ _ _ _ _ _ _
      (λ db x, db = sess_db s2 ∧ x = (_, _, snapshot_for _ Prepared _)) Hat (conj eq_refl eq_refl)
      s0 Hd0 Hb0) as (s' & x & Hrun & Hb' & Hdb' & ->).
    unfold runs in Hrun. rewrite Hrun. cbn -[bool_decide].
    rewrite !bool_decide_eq_true_2 by done. cbn. by eexists _, _. }
  destruct (Htw s2 eq_refl Hauto) as (s3 & out & Hrun & _ & Hd3 & ->). by exists s3.
Qed.

(** The material a verifying recovery stored is what is read back for
    the commit: digests in, the same digests out. *)
Theorem verified_material_roundtrip st r env s s1 snap observation desired graph provenance env' s2
    (Hlim : limits_ok (store_limits st)) (Hinv : db_inv st (sess_db s))
    (Hres : rr_resolution r = IntendedStateVerified observation desired graph provenance)
    (Hadm : op_admissible (OpRecover r))
    (Hfirst : recover st r env s = (s1, Ok (OutVerified snap)))
    (Hff : fault_free env') (Hdb : sess_db s2 = sess_db s1) :
  ∃ s3, verified_commit_material st (rr_transaction_id r) env' s2
    = (s3, Ok {| vcm_snapshot := snap; vcm_desired_state_digest := desired;
                 vcm_graph_digest := graph; vcm_provenance_digest := provenance |}).
Proof.
  apply runs_recover in Hfirst as (_ & sa & sb & Hd & Hr & Hd'). rewrite <- Hd in Hinv.
  destruct (recover_body_spec _ _ _ _ _ _ Hlim Hinv Hadm Hr)
    as (t & old & g & evs & sc & Hdc & Hat & _ & _ & _ & Hbody).
  cbn in Hadm. rewrite Hres in Hadm, Hbody. destruct Hadm as (V1 & V2 & V3 & V4).
  rewrite <- Hdc in Hinv. apply recover_verified_spec with (old := old) (evs := evs) in Hbody
    as [Ha [= ->]]; [|done..].
  pose proof (ad_after _ _ _ _ _ _ _ _ _ _ _ _ _ Ha) as Hat'. cbn zeta in Hat'.
  rewrite <- Hd', <- Hdb in Hat'.
  assert (tw env' (sess_in_transaction s2) (verified_commit_material st (rr_transaction_id r))
    (sess_db s2) (λ _ x, x =
      {| vcm_snapshot := snapshot_with (snapshot_for t Indeterminate g) Verified
           (st_state_version t + 1);
         vcm_desired_state_digest := desired; vcm_graph_digest := graph;
         vcm_provenance_digest := provenance |})) as Htw.
  { unfold verified_commit_material. tw_step Hff. eapply (tw_load_current Hff); [exact Hat'|].
    tw_step Hff. tw_step Hff; [done|]. unfold required_digest. cbn [generation_row generation_with
      sg_desired_state_digest sg_graph_digest sg_provenance_digest ok_or].
    tw_step Hff. eapply tw_lift; [cbn; unfold corrupt_domain; by rewrite V2|].
    tw_step Hff. eapply tw_lift; [cbn; unfold corrupt_domain; by rewrite V3|].
    tw_step Hff. eapply tw_lift; [cbn; unfold corrupt_domain; by rewrite V4|].
    by tw_step Hff. }
  destruct (Htw s2 eq_refl eq_refl) as (s3 & x & Hrun & _ & ->). by exists s3.
Qed.

(** The recovery anchor of a freshly prepared transaction carries the
    request and precondition digests of its binding. *)
Theorem recovery_anchor_roundtrip st b env s s1 snap env' s2
    (Hlim : limits_ok (store_limits st)) (Hinv : db_inv st (sess_db s))
    (Hb : admissible_binding b)
    (Hfirst : prepare st b env s = (s1, Ok (Created snap)))
    (Hff : fault_free env') (Hdb : sess_db s2 = sess_db s1) :
  ∃ s3, recovery_anchor st (AuthorityBinding_transaction_id b) env' s2
    = (s3, Ok {| ra_snapshot := snap; ra_request_digest := ab_request_digest b;
                 ra_precondition_digest := ab_precondition_digest b |}).
Proof.
  apply runs_prepare in Hfirst as (sa & sb & Hd & Hr & Hd').
  rewrite <- Hd in Hinv. apply prepare_body_spec in Hr as [[Hc [= ->]]|(?&?&?&?&?&?&[=]&?)]; [|done..].
  destruct Hc as [_ Hat _ _]. rewrite <- Hd', <- Hdb in Hat. cbn zeta in Hat.
  destruct (adm_digests _ Hb) as (V1 & V2 & _).
  assert (tw env' (sess_in_transaction s2) (recovery_anchor st (AuthorityBinding_transaction_id b))
    (sess_db s2) (λ _ x, x = {| ra_snapshot := created_snapshot b;
      ra_request_digest := ab_request_digest b;
      ra_precondition_digest := ab_precondition_digest b |})) as Htw.
  { unfold recovery_anchor. tw_step Hff. eapply (tw_load_current Hff); [exact Hat|].
    tw_step Hff. eapply tw_lift; [cbn; unfold corrupt_domain; by rewrite V1|].
    tw_step Hff. eapply tw_lift; [cbn; unfold corrupt_domain; by rewrite V2|].
    by tw_step Hff. }
  destruct (Htw s2 eq_refl eq_refl) as (s3 & x & Hrun & _ & ->). by exists s3.
Qed.

(** Authority is checked before it is used: a handoff that succeeds
    carried a valid tag of the store's verifier over the generation, version
    and binding that were stored, a nonzero use digest, and was executed
    inside its authorisation window. *)
Theorem handoff_checks_authority st r env s s' c
    (Hinv : db_inv st (sess_db s)) (Hadm : op_admissible (OpHandoff r))
    (Hrun : handoff st r env s = (s', Ok c)) :
  verify_handoff (store_verifier st) r = true ∧
  (∃ n now, env_now_unix_ms env n = Some now ∧
     (hr_authorized_at_unix_ms r ≤ now ≤ hr_expires_at_unix_ms r)%Z) ∧
  machine_at (sess_db s) (hr_transaction_id r)
    = machine (hr_expected_generation r) (hr_expected_state_version r) Prepared ∧
  (∃ g, generations (sess_db s) !! (hr_transaction_id r, hr_expected_generation r) = Some g ∧
     sg_binding_digest g = hr_expected_binding_digest r ∧
     hc_binding_digest c = sg_binding_digest g) ∧
  hr_authority_use_digest r ≠ ContentDigest_zero ∧
  hc_authority_use_digest c = hr_authority_use_digest r.
Proof.
  apply runs_handoff in Hrun as (Hv & s0 & s1 & Hd & Hr & Hd'). split; [done|].
  split.
  { unfold handoff_body in Hr. run_inv.
    rename select (runs (enforce_authority_window _ _) _ _ _ _) into Hw.
    apply runs_window in Hw as [_ (now & ? & ?)]. by exists (sess_step s0), now. }
  rewrite <- Hd in Hinv |- *.
  destruct (handoff_body_spec _ _ _ _ _ Hinv Hadm Hr)
    as (t & old & g & g' & evs & Ha & Hg & Hver & Hb & Hz & ->).
  pose proof (ad_before _ _ _ _ _ _ _ _ _ _ _ _ _ Ha) as Hat.
  rewrite (machine_at_state _ _ _ _ _ _ _ _ Hat), Hg, Hver.
  split_and!; try done. exists g. rewrite <- Hg.
  by rewrite (current_generation_row _ _ _ _ _ _ _ _ _ (as_view _ _ _ _ _ _ _ _ Hat)
    (as_ok _ _ _ _ _ _ _ _ Hat)).
Qed.
End reads.
