(* ===== verification/IntegritySound.v ===== *)
(** * What an accepted database guarantees

    The converse of [IntegrityComplete]: when [integrity_check] succeeds, on
    whatever database, every transaction is authenticated, its generations
    are complete and safely retired, its audit trail is a hash chain that
    ends in the stored state and its reservations are in place.  The hash
    chain is tamper evident. *)

From Stdlib Require Import ZArith Lia.
From Stdlib Require Import Strings.Byte.
From stdpp Require Import base numbers gmap strings list fin_maps sorting.
From S2P Require Import Prelude Text Core Digest Binding Authority Sqlite Integrity.
From S2P Require Import Validation Store Run Protocol StoreInvariant.
From S2P Require Import StoreWrites StoreRefine StoreSpec IntegrityComplete.
From S2P Require Import CryptoModel Scenario.

Set Default Goal Selector "!".

Section sound.
Context `{CryptoLaws}.
Context {Mg : Migrations}.
Implicit Types (k : SqliteIntegrityKey) (t : StoredTransaction) (g : StoredGeneration)
  (e : StoredAuditEvent) (db : Database) (id : string).

(** ** Hash chains *)

Record linked id (previous : list StoredAuditEvent) e : Prop := {
  ln_sequence : sa_event_sequence e = Z.of_nat (length previous);
  ln_payload : valid_digest (sa_payload_digest e);
  ln_previous : sa_previous_digest e = trail_digest previous;
  ln_digest : sa_event_digest e = audit_digest id (sa_event_sequence e) (sa_generation e)
    (sa_state_version e) (sa_event_kind e) (sa_payload_digest e) (sa_previous_digest e);
}.

Inductive chained id : list StoredAuditEvent → Prop :=
| chained_nil : chained id []
| chained_snoc evs e : chained id evs → linked id evs e → chained id (evs ++ [e]).

Lemma audit_chain_sound id limits pre post lst r :
  chained id pre →
  audit_chain_from id limits (Z.of_nat (length pre)) (trail_digest pre) lst post = Ok r →
  chained id (pre ++ post) ∧
  r = match last post with Some e => Some (e, sa_payload_digest e) | None => lst end.
Proof.
  revert pre lst. induction post as [|e post IH]; intros pre lst Hpre HH.
  { rewrite app_nil_r. by injection HH as <-. }
  cbn [audit_chain_from] in HH. unfold corrupt_domain in HH. ok_inv.
  repeat match goal with H : ContentDigest_new _ = Ok _ |- _ =>
    pose proof H as ?; apply ContentDigest_new_Ok in H as [-> _] end.
  rename select (negb (sa_event_sequence e =? _)%Z = false) into Hs.
  apply negb_false_iff, Z.eqb_eq in Hs.
  repeat match goal with H : negb (bool_decide _) = false |- _ =>
    apply negb_false_iff, bool_decide_eq_true in H end.
  rename select (u64_checked_add _ _ = _) into Hn. apply u64_checked_add_Some in Hn as [-> _].
  assert (linked id pre e) as Hl by (constructor; congruence || done).
  pose proof (chained_snoc id pre e Hpre Hl) as Hpre'.
  rewrite cons_middle, app_assoc.
  edestruct (IH (pre ++ [e])) as [Hc Hr]; [exact Hpre'| |].
  - rewrite length_app, Nat2Z.inj_add. unfold trail_digest at 1. rewrite last_snoc. exact HH.
  - split; [done|]. rewrite Hr. destruct post as [|e' post]; [done|]. rewrite last_cons_cons.
    destruct (last (e' :: post)) eqn:El; [done|]. by apply last_None in El.
Qed.

Lemma decode_events_sound k rows evs :
  decode_audit_events k rows = Ok evs →
  evs = rows ∧ Forall (λ e, decode_audit_event k e = Ok e) rows.
Proof.
  revert evs. induction rows as [|r rows IH]; intros evs HH; cbn [decode_audit_events] in HH.
  { by injection HH as <-. }
  ok_inv. rename select (decode_audit_events _ _ = _) into Hr. apply IH in Hr as [-> Hall].
  rename select (decode_audit_event _ _ = _) into Hd. pose proof (decode_audit_event_Ok _ _ _ Hd) as ->.
  split; [done|]. by constructor.
Qed.

(** What decoding an event established. *)
Record event_decoded k e : Prop := {
  ed_kind : (str_len (sa_event_kind e) ≤ 64)%Z;
  ed_range : (0 ≤ sa_event_sequence e)%Z ∧ (0 ≤ sa_generation e)%Z ∧ (0 ≤ sa_state_version e)%Z;
  ed_tag : sa_integrity_tag e = audit_tag k e;
}.
Lemma decode_event_sound k e : decode_audit_event k e = Ok e → event_decoded k e.
Proof.
  unfold decode_audit_event. intros HH. ok_inv.
  rename select (authenticate_audit _ _ = _) into Ha. apply authenticate_audit_Ok in Ha.
  rename select (_ || _ = false) into Hor. unfold out_of_bounds, MAX_AUDIT_EVENT_KIND_BYTES in Hor.
  constructor; [lia|lia|done].
Qed.

Lemma runs_load_all k id env s s' evs :
  runs (load_all_audit_events k id) env s s' evs →
  sess_db s' = sess_db s ∧ evs = trail (sess_db s) id ∧ Forall (event_decoded k) evs.
Proof.
  intros HH. pose proof (runs_readonly _ _ _ _ _ HH) as Hro. split; [done|].
  unfold load_all_audit_events in HH. run_inv.
  rename select (decode_audit_events _ _ = _) into Hd. apply decode_events_sound in Hd as [-> Hall].
  split; [done|]. eapply Forall_impl; [exact Hall|]. apply decode_event_sound.
Qed.

(** What a successful [validate_audit_chain] established. *)
Record chain_accepted k db id (generation version : Z) : Prop := {
  ca_chain : chained id (trail db id);
  ca_decoded : Forall (event_decoded k) (trail db id);
  ca_tail : ∃ e t g snap, last (trail db id) = Some e ∧ sa_generation e = generation ∧
    sa_state_version e = version ∧ transactions db !! id = Some t ∧
    generations db !! (id, st_current_generation t) = Some g ∧
    snapshot_from_records t g = Ok snap ∧
    state_for_event_kind (sa_event_kind e) = Ok (ts_state snap) ∧
    (ts_state snap = Committed → ∃ d gr p,
       commit_material g = [Some d; Some gr; Some p] ∧ sa_payload_digest e = commit_payload d gr p);
}.

Lemma required_digest_Ok o m d : required_digest o m = Ok d → o = Some d.
Proof.
  unfold required_digest, corrupt_domain. intros HH. ok_inv.
  rename select (ContentDigest_new _ = _) into Hd. by apply ContentDigest_new_Ok in Hd as [-> _].
Qed.

Lemma audit_chain_accepted k id generation version limits env s s' u :
  runs (validate_audit_chain k id generation version limits) env s s' u →
  chain_accepted k (sess_db s) id generation version.
Proof.
  intros HH. unfold validate_audit_chain in HH.
  apply runs_bind in HH as (s1 & evs & Hl & HH). apply runs_load_all in Hl as (Hd1 & -> & Hall).
  apply runs_bind in HH as (s2 & lst & Hc & HH). apply runs_lift in Hc as [-> Hc].
  apply (audit_chain_sound id limits []) in Hc as [Hc ->]; [|constructor].
  apply runs_bind in HH as (s3 & [e pay] & Ht & HH). apply runs_lift in Ht as [-> Ht].
  apply ok_or_Ok in Ht. destruct (last (trail (sess_db s) id)) as [e'|] eqn:El; [|done].
  injection Ht as <- <-. run_inv.
  all: rename select (runs (load_current _ _) _ _ _ _) into Hcur;
    match goal with x : (StoredTransaction * StoredGeneration * TransactionSnapshot)%type |- _ =>
      destruct x as [[t g] snap] end;
    apply runs_load_current in Hcur as (Hd2 & Ht & Hg & Hs); rewrite Hd1 in Ht, Hg; run_inv.
  all: rename select (_ || _ = false) into Hor; rewrite orb_false_iff, !negb_false_iff, !Z.eqb_eq in Hor;
    destruct Hor as [Hgen Hver];
    rename select (state_for_event_kind _ = _) into Hk;
    rename select (negb (bool_decide (_ = ts_state snap)) = false) into Hst;
    apply negb_false_iff, bool_decide_eq_true in Hst; subst.
  all: constructor; [done|done|exists e', t, g, snap; split_and!; try done].
  - intros _. repeat match goal with H : required_digest _ _ = Ok _ |- _ =>
      apply required_digest_Ok in H end.
    rename select (negb (bool_decide (_ = commit_payload _ _ _)) = false) into Hpay.
    apply negb_false_iff, bool_decide_eq_true in Hpay.
    eexists _, _, _. split; [|exact Hpay]. unfold commit_material. congruence.
  - intros Hq. rename select (bool_decide _ = false) into Hb. by apply bool_decide_eq_false in Hb.
Qed.

(** ** Generations *)

Record generation_accepted k (number current : Z) g (q : TransactionState) : Prop := {
  ga_tag : sg_integrity_tag g = generation_tag k g;
  ga_state : sg_state g = TransactionState_as_str q;
  ga_digests : valid_digest (sg_binding_digest g) ∧ valid_digest (sg_request_digest g) ∧
    valid_digest (sg_precondition_digest g) ∧ valid_digest (sg_observation_digest g);
  ga_binding : sg_binding_digest g
    = digest_bytes "linura.authority-binding.digest.v1" (sg_binding_canonical g);
  ga_material : material_ok q g;
  ga_retired : (number < current)%Z → q = Aborted;
}.

Lemma all_digests_Ok l u : all_digests l = Ok u → Forall valid_digest l.
Proof.
  induction l as [|d l IH]; [by constructor|]. cbn. unfold corrupt_domain. intros HH. ok_inv.
  rename select (ContentDigest_new _ = _) into Hd. pose proof Hd as Hd'.
  apply ContentDigest_new_Ok in Hd' as [-> _]. constructor; [done|]. by apply IH.
Qed.

Lemma generation_record_sound k number current g u :
  decode_generation k g = Ok g → validate_generation_record number current g = Ok u →
  ∃ q, generation_accepted k number current g q.
Proof.
  intros Hd HH. assert (sg_integrity_tag g = generation_tag k g) as Htag.
  { unfold decode_generation in Hd. ok_inv.
    rename select (authenticate_generation _ _ = _) into Ha. by apply authenticate_generation_Ok in Ha. }
  unfold validate_generation_record in HH.
  apply bind_Ok in HH as (q & Hq & HH). unfold corrupt_domain in Hq. apply map_err_Ok in Hq.
  apply TransactionState_parse_Ok in Hq.
  apply bind_Ok in HH as (b & Hb & HH). unfold corrupt_domain in Hb. apply map_err_Ok in Hb.
  pose proof Hb as Hb'. apply ContentDigest_new_Ok in Hb' as [-> _].
  apply bind_Ok in HH as ([] & Hds & HH). apply all_digests_Ok in Hds.
  rewrite !Forall_cons in Hds. destruct Hds as (D1 & D2 & D3 & _).
  apply bind_Ok in HH as ([] & Hbd & HH).
  apply reject_if_Ok, negb_false_iff, bool_decide_eq_true in Hbd.
  apply bind_Ok in HH as ([] & Hm & HH). apply bind_Ok in HH as ([] & Hr & _).
  apply reject_if_Ok in Hr. exists q. constructor; try done.
  - unfold commit_material in Hm. clear Hr.
    destruct (sg_desired_state_digest g) as [d|] eqn:E1, (sg_graph_digest g) as [gr|] eqn:E2,
      (sg_provenance_digest g) as [p|] eqn:E3, q; cbn -[all_digests] in Hm; try done;
      try (apply all_digests_Ok in Hm; rewrite !Forall_cons in Hm; destruct Hm as (?&?&?&_);
           exists d, gr, p; done); cbn; rewrite ?E1, ?E2, ?E3; done.
  - intros Hlt. destruct (Z.ltb_spec number current); [|lia]. cbn in Hr.
    by apply negb_false_iff, bool_decide_eq_true in Hr.
Qed.

Lemma runs_load_generation_decoded k id n env s s' g :
  runs (load_generation k id n) env s s' g →
  generations (sess_db s) !! (id, n) = Some g ∧ decode_generation k g = Ok g ∧
  sess_db s' = sess_db s.
Proof.
  intros HH. pose proof (runs_readonly _ _ _ _ _ HH) as Hro. unfold load_generation in HH. run_inv.
  match goal with H : as_i64 _ = _ |- _ => apply as_i64_Ok in H as [-> _] end.
  destruct (generations _ !! _) as [r|]; run_inv.
  rename select (decode_generation _ _ = _) into Hd.
  by pose proof (decode_generation_Ok _ _ _ Hd) as ->.
Qed.

Lemma runs_catch_not_contiguous {A} (m : M A) env s s' a :
  runs (catch m not_contiguous) env s s' a → runs m env s s' a.
Proof.
  unfold runs, catch. destruct (m env s) as [s1 [x|e]]; [done|]. by destruct e.
Qed.

Lemma generations_sound k id current m n env s s' u :
  runs (validate_generations_from k id current m n) env s s' u →
  sess_db s' = sess_db s ∧
  ∀ i, (n ≤ i < n + Z.of_nat m)%Z → ∃ g q, generations (sess_db s) !! (id, i) = Some g ∧
    generation_accepted k i current g q.
Proof.
  revert n s. induction m as [|m IH]; intros n s HH; cbn [validate_generations_from] in HH.
  { run_inv. split; [done|]. intros i Hi. lia. }
  apply runs_bind in HH as (s1 & g & Hg & HH).
  apply runs_catch_not_contiguous, runs_load_generation_decoded in Hg as (Hg & Hdec & Hd1).
  run_inv. rename select (ok_or _ _ = _) into Hn. apply ok_or_Ok, u64_checked_add_Some in Hn as [-> _].
  rename select (validate_generation_record _ _ _ = _) into Hv.
  destruct (generation_record_sound _ _ _ _ _ Hdec Hv) as (q & Hq).
  apply IH in HH as [Hd Hrest]. split; [congruence|]. intros i Hi.
  destruct (decide (i = n)) as [->|Hne]; [by exists g, q|]. rewrite <- Hd1. apply Hrest. lia.
Qed.

(** ** The whole check *)

Record tx_accepted k db id t : Prop := {
  xa_generations : ∀ i, (0 ≤ i ≤ st_current_generation t)%Z → ∃ g q,
    generations db !! (id, i) = Some g ∧ generation_accepted k i (st_current_generation t) g q;
  xa_count : Z.of_nat (length (rows_of (generations db) id)) = (st_current_generation t + 1)%Z;
  xa_bound : (st_current_generation t < MAX_TRANSACTION_GENERATIONS)%Z;
  xa_chain : chain_accepted k db id (st_current_generation t) (st_state_version t);
}.

Lemma history_sound k id current limits env s s' u :
  runs (validate_generation_history k id current limits) env s s' u →
  sess_db s' = sess_db s ∧ (current < MAX_TRANSACTION_GENERATIONS)%Z ∧
  Z.of_nat (length (rows_of (generations (sess_db s)) id)) = (current + 1)%Z ∧
  (∀ i, (0 ≤ i ≤ current)%Z → ∃ g q, generations (sess_db s) !! (id, i) = Some g ∧
     generation_accepted k i current g q).
Proof.
  intros HH. unfold validate_generation_history in HH. run_inv.
  rename select (ok_or _ _ = _) into Hn. apply ok_or_Ok, u64_checked_add_Some in Hn as [-> _].
  rename select (negb (_ =? _)%Z = false) into Hc. apply negb_false_iff, Z.eqb_eq in Hc.
  rename select ((_ <=? current)%Z = false) into Hb. apply Z.leb_gt in Hb.
  apply generations_sound in HH as [Hd Hall].
  match goal with H : sess_db _ = sess_db s |- _ => rewrite H in Hall, Hd end.
  split_and!; [done|done|done|]. intros i Hi. apply Hall. lia.
Qed.

Lemma validate_each_sound st ids env s s' u :
  runs (validate_each st ids) env s s' u →
  sess_db s' = sess_db s ∧
  ∀ id, id ∈ ids → ∃ t, transactions (sess_db s) !! id = Some t ∧
    tx_accepted (store_key st) (sess_db s) id t.
Proof.
  revert s. induction ids as [|i ids IH]; intros s HH; cbn [validate_each] in HH.
  { run_inv. split; [done|]. intros id Hin. by apply elem_of_nil in Hin. }
  apply runs_bind in HH as (s1 & [[t g] snap] & Hl & HH).
  apply runs_load_current in Hl as (Hd1 & Ht & _ & _).
  apply runs_bind in HH as (s2 & [] & Hg & HH). apply history_sound in Hg as (Hd2 & Hb & Hc & Hg).
  apply runs_bind in HH as (s3 & [] & Ha & HH).
  assert (sess_db s3 = sess_db s2) as Hd3.
  { apply runs_readonly in Ha; [done|apply _]. }
  apply audit_chain_accepted in Ha. rewrite Hd2, Hd1 in Ha. rewrite Hd1 in Hc, Hg.
  apply IH in HH as [Hd Hrest]. assert (sess_db s3 = sess_db s) as E by congruence.
  rewrite E in Hrest, Hd. split; [done|]. intros id [->|Hin]%elem_of_cons; [|by apply Hrest].
  exists t. split; [done|]. by constructor.
Qed.

Lemma decode_ids_Ok l l' : decode_ids l = Ok l' → l' = l.
Proof.
  revert l'. induction l as [|i l IH]; intros l' HH; cbn [decode_ids] in HH; [by injection HH as <-|].
  unfold corrupt_domain in HH. ok_inv. rename select (decode_ids _ = _) into Hr. apply IH in Hr as ->.
  rename select (TransactionId_new _ = _) into Ht. unfold TransactionId_new in Ht. by ok_inv.
Qed.

Lemma runs_list_ids env s s' ids :
  runs list_transaction_ids env s s' ids →
  ids = transaction_keys (sess_db s) ∧ sess_db s' = sess_db s.
Proof.
  intros HH. pose proof (runs_readonly _ _ _ _ _ HH) as Hro. unfold list_transaction_ids in HH.
  run_inv. rename select (decode_ids _ = _) into Hd. by apply decode_ids_Ok in Hd as ->.
Qed.

Lemma runs_aggregate table mx c env s s' u :
  count_of_table table (sess_db s) = Some c →
  runs (validate_aggregate_capacity table mx) env s s' u → (c ≤ mx)%Z.
Proof.
  intros Hc HH. unfold validate_aggregate_capacity in HH. run_inv.
  rename select ((_ <? _)%Z = false) into Hle. apply Z.ltb_ge in Hle.
  by rewrite Hc in Hle.
Qed.

Lemma runs_logical_reserve l env s s' u :
  runs (validate_logical_audit_reserve l) env s s' u →
  (table_count (audit_events (sess_db s)) + nonterminal_count (sess_db s) ≤ max_audit_events l)%Z.
Proof.
  intros HH. unfold validate_logical_audit_reserve in HH. run_inv.
  rename select ((_ <? _)%Z = false) into Hle. apply Z.ltb_ge in Hle.
  rename select (ok_or _ _ = _) into Hn. apply ok_or_Ok, u64_checked_add_Some in Hn as [-> _].
  match goal with H : sess_db _ = sess_db s |- _ => by rewrite H in Hle end.
Qed.

Lemma reservations_sound k b ids env s s' c n :
  runs (validate_reservations_of k b ids c) env s s' n →
  sess_db s' = sess_db s ∧
  n = (c + Z.of_nat (slots_of (sess_db s) ids))%Z ∧
  ∀ id, id ∈ ids → ∃ t g snap, transactions (sess_db s) !! id = Some t ∧
    generations (sess_db s) !! (id, st_current_generation t) = Some g ∧
    snapshot_from_records t g = Ok snap ∧
    length (rows_of (audit_reservations (sess_db s)) id) = reserved_slots (ts_state snap).
Proof.
  revert s c. induction ids as [|i ids IH]; intros s c HH; cbn [validate_reservations_of] in HH.
  { run_inv. split; [done|]. split; [cbn; lia|]. intros id Hin. by apply elem_of_nil in Hin. }
  apply runs_bind in HH as (s1 & [[t g] snap] & Hl & HH). cbn [snd] in HH.
  apply runs_load_current in Hl as (Hd1 & Ht & Hg & Hs). run_inv.
  rename select (ok_or _ _ = _) into Hn. apply ok_or_Ok, u64_checked_add_Some in Hn as [-> _].
  rename select (count_reservations _ _ _ = _) into Hc. apply count_reservations_length in Hc.
  rename select (negb (_ =? _)%Z = false) into He. apply negb_false_iff, Z.eqb_eq in He. subst.
  apply IH in HH as (Hd & -> & Hrest). rewrite Hd1 in He.
  match goal with H : sess_db _ = sess_db s1 |- _ => rewrite H, Hd1 in Hd, Hrest |- * end.
  assert (length (rows_of (audit_reservations (sess_db s)) i) = reserved_slots (ts_state snap)) as Hi
    by (unfold reserved_slots; destruct (reserves_slot _); lia).
  split_and!; [done| |].
  - unfold slots_of. cbn [sum_list_with]. rewrite Hi. unfold reserved_slots.
    destruct (reserves_slot _); lia.
  - intros id [->|Hin]%elem_of_cons; [by exists t, g, snap|by apply Hrest].
Qed.

Lemma physical_sound k released env s s' u :
  runs (validate_physical_reservations_locked k released) env s s' u →
  ∀ id, id ∈ transaction_keys (sess_db s) → ∃ t g snap, transactions (sess_db s) !! id = Some t ∧
    generations (sess_db s) !! (id, st_current_generation t) = Some g ∧
    snapshot_from_records t g = Ok snap ∧
    length (rows_of (audit_reservations (sess_db s)) id) = reserved_slots (ts_state snap).
Proof.
  unfold validate_physical_reservations_locked. intros HH.
  apply runs_bind in HH as (s1 & b & Ha & HH). apply runs_readonly in Ha; [|apply _].
  apply runs_bind in HH as (s2 & [] & Hb & HH). apply runs_readonly in Hb; [|apply _].
  apply runs_bind in HH as (s3 & bytes & Hc & HH). apply runs_readonly in Hc; [|apply _].
  apply runs_bind in HH as (s4 & ids & Hi & HH). apply runs_list_ids in Hi as [-> Hd].
  apply runs_bind in HH as (s5 & n & Hr & _). apply reservations_sound in Hr as (_ & _ & Hr).
  assert (sess_db s3 = sess_db s) as E by congruence. by rewrite Hd, E in Hr.
Qed.

(** C30: Soundness of the integrity check, on any database: when it
    succeeds, the capacity bounds hold, and every stored transaction has a
    complete, authenticated, safely retired generation history whose binding
    digests match, an authenticated hash-chained audit trail ending in the
    stored state with the committed material, and exactly the physical
    reservations of its state. *)
Theorem integrity_check_sound st env s s' (Hrun : integrity_check st env s = (s', Ok tt)) :
  let db := sess_db s in
  (table_count (transactions db) ≤ max_transactions (store_limits st))%Z ∧
  (table_count (generations db) ≤ max_generations (store_limits st))%Z ∧
  (table_count (audit_events db) + nonterminal_count db ≤ max_audit_events (store_limits st))%Z ∧
  foreign_key_violation db = false ∧
  ∀ id t, transactions db !! id = Some t →
    tx_accepted (store_key st) db id t ∧
    ∃ g snap, generations db !! (id, st_current_generation t) = Some g ∧
      snapshot_from_records t g = Ok snap ∧
      length (rows_of (audit_reservations db) id) = reserved_slots (ts_state snap).
Proof.
  intros db. unfold integrity_check, with_immediate_validation in Hrun.
  apply runs_immediate in Hrun as (s0 & s1 & Hd & HH & _). unfold db. clear db. rewrite <- Hd.
  apply runs_bind in HH as (s2 & [] & H1 & HH). apply runs_readonly in H1; [|apply _].
  apply runs_bind in HH as (s3 & [] & H2 & HH). apply runs_readonly in H2; [|apply _].
  apply runs_bind in HH as (s4 & [] & C1 & HH). pose proof (runs_readonly _ _ _ _ _ C1) as H3.
  apply runs_bind in HH as (s5 & [] & C2 & HH). pose proof (runs_readonly _ _ _ _ _ C2) as H4.
  apply runs_bind in HH as (s6 & [] & C3 & HH). pose proof (runs_readonly _ _ _ _ _ C3) as H5.
  apply runs_bind in HH as (s7 & [] & C4 & HH). pose proof (runs_readonly _ _ _ _ _ C4) as H6.
  eapply runs_aggregate in C1; [|reflexivity]. eapply runs_aggregate in C2; [|reflexivity].
  apply runs_logical_reserve in C4.
  assert (sess_db s3 = sess_db s0) as E3 by congruence.
  assert (sess_db s4 = sess_db s0) as E4 by congruence.
  assert (sess_db s6 = sess_db s0) as E6 by congruence.
  assert (sess_db s7 = sess_db s0) as E7 by congruence.
  rewrite E3 in C1. rewrite E4 in C2. rewrite E6 in C4.
  split; [exact C1|]. split; [exact C2|]. split; [exact C4|].
  apply runs_bind in HH as (s8 & txt & P & HH). apply runs_readonly in P; [|apply _].
  apply runs_bind in HH as (s9 & [] & Rj & HH). apply runs_reject in Rj as [-> _].
  apply runs_bind in HH as (s10 & f & Q & HH). apply runs_query in Q as [-> Hq].
  apply runs_bind in HH as (s11 & [] & Rf & HH). apply runs_reject in Rf as [-> Hf].
  apply runs_bind in HH as (s12 & ids & Hi & HH). apply runs_list_ids in Hi as [-> Hd2].
  apply runs_bind in HH as (s13 & [] & He & HH). apply validate_each_sound in He as [Hd3 He].
  pose proof (physical_sound _ _ _ _ _ _ HH) as HP. clear HH. rename HP into HH.
  assert (sess_db s8 = sess_db s0) as E8 by congruence.
  assert (sess_db s10 = sess_db s0) as E10 by congruence.
  assert (sess_db s12 = sess_db s0) as E12 by congruence.
  assert (sess_db s13 = sess_db s0) as E13 by congruence.
  rewrite E8 in Hf. rewrite E10, E12 in He. rewrite E13 in HH. split; [done|].
  intros id t Ht. assert (id ∈ transaction_keys (sess_db s0)) as Hin
    by (apply transaction_keys_elem; by exists t).
  destruct (He id Hin) as (t1 & Ht1 & Hacc). destruct (HH id Hin) as (t2 & g & snap & Ht2 & Hrest).
  simplify_eq. split; [done|]. by exists g, snap.
Qed.
End sound.
