(* ===== verification/TamperEvidence.v ===== *)
(** * Tamper evidence of the audit trail

    Two trails that [validate_audit_chain] accepts and that end in the same
    event digest are equal, or an event of the one and an event of the other, which can be
    found by comparing the trails, are a SHA-256 collision. *)

From Stdlib Require Import ZArith Lia.
From Stdlib Require Import Strings.Byte.
From stdpp Require Import base numbers gmap strings list fin_maps sorting.
From S2P Require Import Prelude Text Core Digest Binding Authority Sqlite Integrity.
From S2P Require Import Validation Store Run Protocol StoreInvariant.
From S2P Require Import StoreWrites StoreRefine StoreSpec IntegrityComplete.
From S2P Require Import IntegritySound CryptoModel Scenario.

Set Default Goal Selector "!".

Section tamper.
Context `{CryptoLaws}.
Context {Mg : Migrations}.
Implicit Types (k : SqliteIntegrityKey) (e : StoredAuditEvent) (db : Database) (id : string).

Lemma digest_parts_binding domain p1 p2 :
  Forall short (as_bytes domain :: p1) → Forall short (as_bytes domain :: p2) →
  digest_parts domain p1 = digest_parts domain p2 →
  p1 = p2 ∨ collides (digest_input domain p1) (digest_input domain p2).
Proof.
  intros H1 H2 E. unfold digest_parts in E. apply string_app_inj_l in E.
  destruct (decide (digest_input domain p1 = digest_input domain p2)) as [Hi|Hi].
  - left. by apply digest_input_inj in Hi as [_ ?].
  - by right.
Qed.

Lemma short_text s (n : Z) : (str_len s ≤ n)%Z → (n ≤ u64_max)%Z → short (as_bytes s).
Proof. intros Hs Hn. unfold short. rewrite length_as_bytes. unfold str_len in Hs. lia. Qed.

(** The table files rows under their own columns, and its integer columns
    hold 64-bit signed values. *)
Definition events_filed db : Prop :=
  ∀ i n e, audit_events db !! (i, n) = Some e →
    sa_transaction_id e = i ∧ (sa_event_sequence e ≤ i64_max)%Z ∧
    (sa_generation e ≤ i64_max)%Z ∧ (sa_state_version e ≤ i64_max)%Z.

Lemma trail_filed db id e :
  events_filed db → e ∈ trail db id →
  sa_transaction_id e = id ∧ (sa_event_sequence e ≤ i64_max)%Z ∧
  (sa_generation e ≤ i64_max)%Z ∧ (sa_state_version e ≤ i64_max)%Z.
Proof.
  intros Hf ([n e'] & -> & Hin)%list_elem_of_fmap. apply rows_of_elem in Hin.
  by apply (Hf id n).
Qed.

(** An event as it can occur in a trail of [id]. *)
Definition plausible k id e : Prop :=
  event_decoded k e ∧ sa_transaction_id e = id ∧ (sa_event_sequence e ≤ i64_max)%Z ∧
  (sa_generation e ≤ i64_max)%Z ∧ (sa_state_version e ≤ i64_max)%Z.

Lemma trail_digest_valid_chained id evs : chained id evs → valid_digest (trail_digest evs).
Proof.
  destruct 1 as [|evs e _ He]; [auto with linura|].
  unfold trail_digest. rewrite last_snoc, (ln_digest _ _ _ He). auto with linura.
Qed.

Definition event_parts id e : list bytes :=
  [as_bytes id; as_bytes (u64_to_string (sa_event_sequence e));
   as_bytes (u64_to_string (sa_generation e)); as_bytes (u64_to_string (sa_state_version e));
   as_bytes (sa_event_kind e); as_bytes (sa_payload_digest e); as_bytes (sa_previous_digest e)].

Lemma short_number x : (0 ≤ x ≤ i64_max)%Z → short (as_bytes (u64_to_string x)).
Proof.
  intros Hx. apply (short_text _ 64); [|by vm_compute]. unfold str_len.
  pose proof (length_u64_to_string x ltac:(unfold i64_max, u64_max in *; lia)). lia.
Qed.

Lemma short_digest d : valid_digest d → short (as_bytes d).
Proof.
  intros Hd. apply (short_text _ 71); [|by vm_compute]. unfold str_len.
  by rewrite (ContentDigest_length _ Hd).
Qed.

Lemma event_parts_short k id evs e :
  (str_len id ≤ 256)%Z → chained id evs → linked id evs e → plausible k id e →
  Forall short (as_bytes "linura.sqlite.audit-event.v1" :: event_parts id e).
Proof.
  intros Hid Hc Hl ([Hk (H1 & H2 & H3) _] & _ & H4 & H5 & H6).
  pose proof (trail_digest_valid_chained _ _ Hc) as Hp. rewrite <- (ln_previous _ _ _ Hl) in Hp.
  unfold event_parts.
  repeat constructor; try (by apply short_number); try (apply short_digest; first [done|apply Hl]).
  - by vm_compute.
  - by apply (short_text _ 256).
  - by apply (short_text _ 64).
Qed.

(** The bytes that [audit_digest] hashes for a stored event. *)
Definition event_input id e : bytes :=
  digest_input "linura.sqlite.audit-event.v1" (event_parts id e).

Lemma audit_digest_input id e :
  audit_digest id (sa_event_sequence e) (sa_generation e) (sa_state_version e) (sa_event_kind e)
    (sa_payload_digest e) (sa_previous_digest e) = DIGEST_PREFIX +:+ hex_encode (sha256 (event_input id e)).
Proof. done. Qed.

(** Some event of the one trail and some event of the other were hashed
    from different bytes to the same digest. *)
Definition trails_collide id (evs1 evs2 : list StoredAuditEvent) : Prop :=
  ∃ e1 e2, e1 ∈ evs1 ∧ e2 ∈ evs2 ∧ collides (event_input id e1) (event_input id e2).

Lemma trails_collide_app id evs1 evs2 t1 t2 :
  trails_collide id evs1 evs2 → trails_collide id (evs1 ++ t1) (evs2 ++ t2).
Proof. intros (e1 & e2 & H1 & H2 & Hc). exists e1, e2. rewrite !elem_of_app. auto. Qed.

Lemma trails_collide_last id evs1 evs2 e1 e2 :
  collides (event_input id e1) (event_input id e2) →
  trails_collide id (evs1 ++ [e1]) (evs2 ++ [e2]).
Proof. intros Hc. exists e1, e2. rewrite !elem_of_app, !list_elem_of_singleton. auto. Qed.

(** Equal digests: the same event, or the two events collide. *)
Lemma linked_binding k id evs1 evs2 e1 e2 :
  (str_len id ≤ 256)%Z → chained id evs1 → chained id evs2 → linked id evs1 e1 →
  linked id evs2 e2 → plausible k id e1 → plausible k id e2 →
  sa_event_digest e1 = sa_event_digest e2 →
  e1 = e2 ∨ collides (event_input id e1) (event_input id e2).
Proof.
  intros Hid Hc1 Hc2 Hl1 Hl2 Hp1 Hp2 Heq.
  pose proof (event_parts_short _ _ _ _ Hid Hc1 Hl1 Hp1) as Hs1.
  pose proof (event_parts_short _ _ _ _ Hid Hc2 Hl2 Hp2) as Hs2.
  pose proof Heq as Hd. rewrite (ln_digest _ _ _ Hl1), (ln_digest _ _ _ Hl2) in Hd.
  destruct (digest_parts_binding _ _ _ Hs1 Hs2 Hd) as [Hparts|]; [left|by right].
  destruct Hp1 as ([_ (N1 & N2 & N3) T1] & I1 & _), Hp2 as ([_ (N4 & N5 & N6) T2] & I2 & _).
  unfold event_parts in Hparts. rewrite !cons_eq_iff in Hparts.
  destruct Hparts as (_ & Es & Eg & Ev & Ek & Ep & Epr & _).
  apply as_bytes_inj in Es, Eg, Ev, Ek, Ep, Epr.
  apply u64_to_string_inj in Es, Eg, Ev; [|done..].
  assert (sa_integrity_tag e1 = sa_integrity_tag e2) as Et.
  { rewrite T1, T2. unfold audit_tag, audit_canonical, audit_fields.
    by rewrite I1, I2, Es, Eg, Ev, Ek, Ep, Epr, Heq. }
  destruct e1, e2. cbn in *. congruence.
Qed.

Lemma chain_binding k id evs1 : ∀ evs2,
  (str_len id ≤ 256)%Z → chained id evs1 → chained id evs2 →
  Forall (plausible k id) evs1 → Forall (plausible k id) evs2 →
  length evs1 = length evs2 → trail_digest evs1 = trail_digest evs2 →
  evs1 = evs2 ∨ trails_collide id evs1 evs2.
Proof.
  induction evs1 as [|e1 evs1 IH] using rev_ind; intros evs2 Hid Hc1 Hc2 Hp1 Hp2 Hlen Hd.
  { left. by destruct evs2. }
  destruct evs2 as [|e2 evs2 _] using rev_ind; [rewrite length_app in Hlen; cbn in Hlen; lia|].
  rewrite !length_app in Hlen. cbn in Hlen.
  apply Forall_app in Hp1 as [Hp1 [He1 _]%Forall_cons], Hp2 as [Hp2 [He2 _]%Forall_cons].
  inversion Hc1 as [E1|l1 x1 Hc1' Hl1 E1]; [by destruct evs1|].
  inversion Hc2 as [E2|l2 x2 Hc2' Hl2 E2]; [by destruct evs2|].
  apply app_inj_tail in E1 as [-> ->], E2 as [-> ->].
  unfold trail_digest in Hd. rewrite !last_snoc in Hd.
  destruct (linked_binding _ _ _ _ _ _ Hid Hc1' Hc2' Hl1 Hl2 He1 He2 Hd) as [->|];
    [|by right; apply trails_collide_last].
  destruct (IH evs2) as [->|]; [done..|lia| |by left|by right; apply trails_collide_app].
  by rewrite <- (ln_previous _ _ _ Hl1), <- (ln_previous _ _ _ Hl2).
Qed.

Lemma chain_lengths k id evs1 evs2 e1 e2 :
  (str_len id ≤ 256)%Z → chained id evs1 → chained id evs2 →
  Forall (plausible k id) evs1 → Forall (plausible k id) evs2 →
  last evs1 = Some e1 → last evs2 = Some e2 → sa_event_digest e1 = sa_event_digest e2 →
  length evs1 = length evs2 ∨ trails_collide id evs1 evs2.
Proof.
  intros Hid Hc1 Hc2 Hp1 Hp2 E1 E2 Hd.
  destruct Hc1 as [|l1 x1 Hc1 Hl1]; [done|]. destruct Hc2 as [|l2 x2 Hc2 Hl2]; [done|].
  rewrite last_snoc in E1, E2. injection E1 as ->. injection E2 as ->.
  apply Forall_app in Hp1 as [_ [He1 _]%Forall_cons], Hp2 as [_ [He2 _]%Forall_cons].
  destruct (linked_binding _ _ _ _ _ _ Hid Hc1 Hc2 Hl1 Hl2 He1 He2 Hd) as [->|];
    [left|by right; apply trails_collide_last].
  pose proof (ln_sequence _ _ _ Hl1). pose proof (ln_sequence _ _ _ Hl2).
  rewrite !length_app. cbn. lia.
Qed.

Lemma plausible_trail k db id (g v : Z) :
  events_filed db → chain_accepted k db id g v → Forall (plausible k id) (trail db id).
Proof.
  intros Hf [_ Hd _]. rewrite Forall_forall in Hd |- *. intros e He. split; [by apply Hd|].
  by apply (trail_filed db).
Qed.

(** C31: The audit trail is tamper evident: if [validate_audit_chain]
    accepts the trail of a transaction in two databases (at whatever current
    generation and version) and the two trails end in the same event digest,
    the trails are the same event for event, unless an event of the one trail
    and an event of the other were hashed from different bytes to the same
    digest: the colliding inputs are among the finitely many that the
    validator itself hashed for these two trails. *)
Theorem audit_trail_tamper_evident k id (g1 v1 g2 v2 : Z) (l1 l2 : StoreLimits)
    env1 env2 s1 s1' s2 s2' e1 e2
    (Hid : (str_len id ≤ 256)%Z)
    (H1 : validate_audit_chain k id g1 v1 l1 env1 s1 = (s1', Ok tt))
    (H2 : validate_audit_chain k id g2 v2 l2 env2 s2 = (s2', Ok tt))
    (Hf1 : events_filed (sess_db s1)) (Hf2 : events_filed (sess_db s2))
    (He1 : last (trail (sess_db s1) id) = Some e1) (He2 : last (trail (sess_db s2) id) = Some e2)
    (Heq : sa_event_digest e1 = sa_event_digest e2) :
  trail (sess_db s1) id = trail (sess_db s2) id ∨
  trails_collide id (trail (sess_db s1) id) (trail (sess_db s2) id).
Proof.
  apply audit_chain_accepted in H1, H2.
  pose proof (plausible_trail _ _ _ _ _ Hf1 H1) as P1.
  pose proof (plausible_trail _ _ _ _ _ Hf2 H2) as P2.
  destruct H1 as [Hc1 _ _], H2 as [Hc2 _ _].
  destruct (chain_lengths k id _ _ e1 e2 Hid Hc1 Hc2 P1 P2 He1 He2 Heq) as [Hlen|]; [|by right].
  apply (chain_binding k id); try done. unfold trail_digest. by rewrite He1, He2.
Qed.
End tamper.

(** * Authenticated records

    The integrity tag of a stored record covers every column: the canonical
    encodings of transaction, generation and audit rows are injective, and
    verification accepts exactly the computed tag. *)

(** The rows of the three tables. *)
Inductive StoredRecord :=
| TransactionRow (r : StoredTransaction)
| GenerationRow (r : StoredGeneration)
| AuditRow (r : StoredAuditEvent).

Definition record_canonical (r : StoredRecord) : bytes :=
  match r with
  | TransactionRow r => transaction_canonical r
  | GenerationRow r => generation_canonical r
  | AuditRow r => audit_canonical r
  end.

Definition record_domain (r : StoredRecord) : string :=
  match r with
  | TransactionRow _ => TRANSACTION_RECORD
  | GenerationRow _ => GENERATION_RECORD
  | AuditRow _ => AUDIT_RECORD
  end.

(** The fields in encoding order. *)
Definition record_fields (r : StoredRecord) : list bytes :=
  match r with
  | TransactionRow r => transaction_fields r
  | GenerationRow r =>
      generation_fields r ++ optional_fields (sg_desired_state_digest r)
      ++ optional_fields (sg_graph_digest r) ++ optional_fields (sg_provenance_digest r)
  | AuditRow r => audit_fields r
  end.

(** The record without its tag. *)
Definition untagged (r : StoredRecord) : StoredRecord :=
  match r with
  | TransactionRow r => TransactionRow
      {| st_transaction_id := st_transaction_id r; st_principal := st_principal r;
         st_request_id := st_request_id r; st_current_generation := st_current_generation r;
         st_state_version := st_state_version r; st_integrity_tag := [] |}
  | GenerationRow r => GenerationRow
      {| sg_transaction_id := sg_transaction_id r; sg_generation := sg_generation r;
         sg_state := sg_state r; sg_binding_digest := sg_binding_digest r;
         sg_binding_canonical := sg_binding_canonical r; sg_request_digest := sg_request_digest r;
         sg_precondition_digest := sg_precondition_digest r;
         sg_observation_digest := sg_observation_digest r;
         sg_desired_state_digest := sg_desired_state_digest r; sg_graph_digest := sg_graph_digest r;
         sg_provenance_digest := sg_provenance_digest r; sg_integrity_tag := [] |}
  | AuditRow r => AuditRow
      {| sa_transaction_id := sa_transaction_id r; sa_event_sequence := sa_event_sequence r;
         sa_generation := sa_generation r; sa_state_version := sa_state_version r;
         sa_event_kind := sa_event_kind r; sa_payload_digest := sa_payload_digest r;
         sa_previous_digest := sa_previous_digest r; sa_event_digest := sa_event_digest r;
         sa_integrity_tag := [] |}
  end.

(** The integers are [u64] values and every field has a 64-bit length. *)
Definition record_in_range (r : StoredRecord) : Prop :=
  Forall short (record_fields r) ∧
  match r with
  | TransactionRow r => is_u64 (st_current_generation r) ∧ is_u64 (st_state_version r)
  | GenerationRow r => is_u64 (sg_generation r)
  | AuditRow r =>
      is_u64 (sa_event_sequence r) ∧ is_u64 (sa_generation r) ∧ is_u64 (sa_state_version r)
  end.

Lemma record_canonical_frames r : record_canonical r = frames (record_fields r).
Proof.
  destruct r; cbn [record_canonical record_fields].
  - unfold transaction_canonical. by rewrite canonical_fields_frames.
  - unfold generation_canonical, canonical_optional. rewrite !canonical_fields_frames.
    by rewrite !frames_app, !app_assoc.
  - unfold audit_canonical. by rewrite canonical_fields_frames.
Qed.

Lemma optional_fields_inj o1 o2 l1 l2 :
  optional_fields o1 ++ l1 = optional_fields o2 ++ l2 → o1 = o2 ∧ l1 = l2.
Proof.
  destruct o1, o2; cbn; intros E; try done.
  - injection E as E1 E2. apply as_bytes_inj in E1. by subst.
  - by injection E as E.
Qed.

Ltac field_injections :=
  repeat match goal with
  | H : as_bytes _ = as_bytes _ |- _ => apply as_bytes_inj in H
  | H : u64_be _ = u64_be _ |- _ => apply u64_be_inj in H; [|done..]
  end.

(** Canonical encodings of rows of one table determine the row. *)
Lemma record_fields_inj r1 r2 :
  record_domain r1 = record_domain r2 → record_in_range r1 → record_in_range r2 →
  record_fields r1 = record_fields r2 → untagged r1 = untagged r2.
Proof.
  intros Hd [_ H1] [_ H2] HF.
  destruct r1 as [r1|r1|r1], r2 as [r2|r2|r2]; try (by vm_compute in Hd);
    cbn [record_fields untagged] in *.
  - unfold transaction_fields in HF. rewrite !cons_eq_iff in HF. destruct H1, H2.
    destruct_and! HF. field_injections. congruence.
  - apply app_inj_1 in HF as [HF Ho]; [|done].
    apply optional_fields_inj in Ho as [E1 Ho]. apply optional_fields_inj in Ho as [E2 Ho].
    rewrite <- (app_nil_r (optional_fields (sg_provenance_digest r1))) in Ho.
    rewrite <- (app_nil_r (optional_fields (sg_provenance_digest r2))) in Ho.
    apply optional_fields_inj in Ho as [E3 _].
    unfold generation_fields in HF. rewrite !cons_eq_iff in HF. destruct_and! HF.
    field_injections. congruence.
  - unfold audit_fields in HF. rewrite !cons_eq_iff in HF. destruct H1 as (?&?&?), H2 as (?&?&?).
    destruct_and! HF. field_injections. congruence.
Qed.

(** The authenticated encoding of a stored row covers every column: two
    rows of one table with the same canonical bytes agree on everything but
    the tag itself. *)
Theorem record_canonical_injective (r1 r2 : StoredRecord)
    (Hd : record_domain r1 = record_domain r2)
    (H1 : record_in_range r1) (H2 : record_in_range r2)
    (Heq : record_canonical r1 = record_canonical r2) :
  untagged r1 = untagged r2.
Proof.
  apply record_fields_inj; [done..|]. rewrite !record_canonical_frames in Heq.
  apply frames_inj in Heq; [done|apply H1|apply H2].
Qed.

(** Tag verification accepts exactly the tag computed for the record:
    the constant-time comparison of [SqliteIntegrityKey::verify] decides
    equality, for tags of every length. *)
Theorem integrity_verify_exact `{CryptoLaws} (k : SqliteIntegrityKey) (domain : string)
    (canonical tag : bytes) :
  integrity_verify k domain canonical tag = true ↔ tag = integrity_tag k domain canonical.
Proof. rewrite integrity_verify_spec. apply bool_decide_eq_true. Qed.
