(* ===== verification/Witnesses.v ===== *)
(** * Concrete instances

    Each theorem with hypotheses applied to the scenario of [Scenario]: the
    hypotheses hold of real runs of the store. *)

From Stdlib Require Import ZArith Lia.
From Stdlib Require Import Strings.Byte.
From stdpp Require Import base numbers gmap strings list fin_maps sorting.
From S2P Require Import Prelude Text Core Digest Binding Authority Sqlite Integrity.
From S2P Require Import Validation Store Run Protocol StoreInvariant.
From S2P Require Import StoreWrites StoreRefine StoreSpec IntegrityComplete.
From S2P Require Import StoreLiveness StoreReads IntegritySound.
From S2P Require Import TamperEvidence CryptoModel Scenario.

Set Default Goal Selector "!".

Lemma demo_fault_free : fault_free demo_env.
Proof. by constructor. Qed.
Lemma demo_limits_i64 : limits_i64 (store_limits demo_store).
Proof. split_and!; vm_compute; discriminate. Qed.

Lemma demo_installed : installed demo_store demo_db.
Proof.
  constructor; try (vm_compute; reflexivity).
  - split; vm_compute; [reflexivity|discriminate].
  - eexists. split; vm_compute; reflexivity.
Qed.

Lemma demo_abort_digest : valid_digest (ar_reason_digest demo_abort).
Proof. apply (demo_digest_ok "reason"). Qed.

Lemma prepared_can_always_abort_witness :
  ∃ s' snap, abort_prepared demo_store demo_abort demo_env (demo_session db_prepared)
    = (s', Ok (store_after_abort demo_store, snap)) ∧ ts_state snap = Aborted ∧
    machine_at (sess_db s') (ar_transaction_id demo_abort) = machine 0 2 Aborted.
Proof.
  refine (prepared_can_always_abort demo_store demo_abort demo_env (demo_session db_prepared)
    demo_fault_free demo_limits_i64 (demo_inv _ on_prepared) eq_refl _ demo_abort_digest).
  vm_compute. reflexivity.
Defined.

Lemma verified_can_always_commit_witness :
  ∃ s' snap, commit demo_store demo_commit demo_env (demo_session db_verified) = (s', Ok snap) ∧
    ts_state snap = Committed ∧
    machine_at (sess_db s') (cr_transaction_id demo_commit)
    = machine (cr_expected_generation demo_commit) (cr_expected_state_version demo_commit + 1)
        Committed.
Proof.
  assert (match generations db_verified
                  !! (cr_transaction_id demo_commit, cr_expected_generation demo_commit) with
          | Some g => bool_decide (sg_binding_digest g = cr_expected_binding_digest demo_commit) &&
              bool_decide (commit_material g = [Some (cr_desired_state_digest demo_commit);
                Some (cr_graph_digest demo_commit); Some (cr_provenance_digest demo_commit)])
          | None => false end = true) as Hrow by (vm_compute; reflexivity).
  destruct (generations db_verified
    !! (cr_transaction_id demo_commit, cr_expected_generation demo_commit)) as [g|] eqn:Eg;
    [|discriminate Hrow].
  apply andb_prop in Hrow as [Hb Hm]. apply bool_decide_eq_true in Hb, Hm.
  refine (verified_can_always_commit demo_store demo_commit demo_env (demo_session db_verified) g
    demo_fault_free demo_limits_i64 (demo_inv _ on_verified) eq_refl eq_refl _ _ Eg Hb Hm);
    vm_compute; reflexivity.
Defined.

Lemma reachable_passes_integrity_check_witness :
  ∃ s', integrity_check demo_store demo_env (demo_session db_committed) = (s', Ok tt) ∧
    sess_db s' = db_committed.
Proof.
  refine (reachable_passes_integrity_check demo_store demo_env (demo_session db_committed) demo_db
    demo_fault_free demo_limits_i64 demo_limits_nonneg demo_empty demo_installed _ eq_refl).
  exact (rtc_l _ _ _ _ step_prepared steps_to_committed).
Defined.

Lemma snapshot_reads_replayed_state_witness :
  match machine_at db_committed demo_id with
  | Some a => ∃ s' snap q, snapshot demo_store demo_id demo_env (demo_session db_committed)
      = (s', Ok snap) ∧ sess_db s' = db_committed ∧ m_phase a = Live q ∧ ts_state snap = q ∧
      ts_transaction_id snap = demo_id ∧ ts_current_generation snap = m_generation a ∧
      ts_state_version snap = m_version a
  | None => ∃ s', snapshot demo_store demo_id demo_env (demo_session db_committed)
      = (s', Err NotFound) ∧ sess_db s' = db_committed
  end.
Proof.
  exact (snapshot_reads_replayed_state demo_store demo_id demo_env (demo_session db_committed)
    demo_fault_free (demo_inv _ on_committed)).
Defined.

Lemma prepare_is_idempotent_witness :
  ∃ snap s3, prepare demo_store demo_binding demo_env (demo_session db_prepared)
    = (s3, Ok (Existing snap)).
Proof.
  destruct (prepare demo_store demo_binding demo_env (demo_session demo_db)) as [s1 out] eqn:E.
  assert (out = Ok (Created (created_snapshot demo_binding))) as ->.
  { apply (f_equal snd) in E. cbn in E. rewrite <- E. vm_compute. reflexivity. }
  assert (db_prepared = sess_db s1) as Hdb by exact (f_equal (λ x, sess_db (fst x)) E).
  destruct (prepare_is_idempotent demo_store demo_binding demo_env (demo_session demo_db) s1
    (created_snapshot demo_binding) demo_env (demo_session db_prepared) demo_limits_ok
    (demo_inv _ on_demo) demo_binding_ok eq_refl E demo_fault_free Hdb eq_refl) as (s3 & Hs3 & _).
  exists (created_snapshot demo_binding), s3. exact Hs3.
Defined.

Lemma verified_material_roundtrip_witness :
  ∃ snap s3, verified_commit_material demo_store (rr_transaction_id demo_verified) demo_env
    (demo_session db_verified)
    = (s3, Ok {| vcm_snapshot := snap; vcm_desired_state_digest := demo_digest "desired";
                 vcm_graph_digest := demo_digest "graph";
                 vcm_provenance_digest := demo_digest "provenance" |}).
Proof.
  destruct (recover demo_store demo_verified demo_env (demo_session db_indeterminate))
    as [s1 out] eqn:E.
  assert (∃ snap, out = Ok (OutVerified snap)) as [snap ->].
  { apply (f_equal snd) in E. cbn in E. rewrite <- E. eexists. vm_compute. reflexivity. }
  assert (db_verified = sess_db s1) as Hdb by exact (f_equal (λ x, sess_db (fst x)) E).
  exists snap.
  exact (verified_material_roundtrip demo_store demo_verified demo_env
    (demo_session db_indeterminate) s1 snap _ _ _ _ demo_env (demo_session db_verified)
    demo_limits_ok (demo_inv _ on_indeterminate) demo_verified_resolution demo_verified_ok E
    demo_fault_free Hdb).
Defined.

Lemma recovery_anchor_roundtrip_witness :
  ∃ snap s3, recovery_anchor demo_store (AuthorityBinding_transaction_id demo_binding) demo_env
    (demo_session db_prepared)
    = (s3, Ok {| ra_snapshot := snap; ra_request_digest := ab_request_digest demo_binding;
                 ra_precondition_digest := ab_precondition_digest demo_binding |}).
Proof.
  destruct (prepare demo_store demo_binding demo_env (demo_session demo_db)) as [s1 out] eqn:E.
  assert (out = Ok (Created (created_snapshot demo_binding))) as ->.
  { apply (f_equal snd) in E. cbn in E. rewrite <- E. vm_compute. reflexivity. }
  assert (db_prepared = sess_db s1) as Hdb by exact (f_equal (λ x, sess_db (fst x)) E).
  exists (created_snapshot demo_binding).
  exact (recovery_anchor_roundtrip demo_store demo_binding demo_env (demo_session demo_db) s1 _
    demo_env (demo_session db_prepared) demo_limits_ok (demo_inv _ on_demo) demo_binding_ok E
    demo_fault_free Hdb).
Defined.

Lemma handoff_checks_authority_witness :
  verify_handoff (store_verifier demo_store) demo_handoff = true ∧
  machine_at db_prepared (hr_transaction_id demo_handoff)
  = machine (hr_expected_generation demo_handoff) (hr_expected_state_version demo_handoff) Prepared.
Proof.
  destruct (handoff demo_store demo_handoff demo_env (demo_session db_prepared)) as [s' out] eqn:E.
  assert (∃ c, out = Ok c) as [c ->].
  { apply (f_equal snd) in E. cbn in E. rewrite <- E. eexists. vm_compute. reflexivity. }
  destruct (handoff_checks_authority demo_store demo_handoff demo_env (demo_session db_prepared) s' c
    (demo_inv _ on_prepared) demo_handoff_ok E) as (Hv & _ & Hm & _).
  exact (conj Hv Hm).
Defined.

Lemma integrity_check_sound_witness :
  ∃ t, transactions db_committed !! demo_id = Some t ∧
    tx_accepted (store_key demo_store) db_committed demo_id t.
Proof.
  destruct (installed_steps demo_store demo_db db_committed demo_limits_ok (demo_inv _ on_demo)
    demo_installed (rtc_l _ _ _ _ step_prepared steps_to_committed)) as [Hinv Hin].
  destruct (tw_integrity_check demo_fault_free demo_store db_committed (λ _ _, True)
    demo_limits_i64 Hinv Hin I (demo_session db_committed) eq_refl eq_refl) as (s' & [] & E & _).
  pose proof (f_equal ob_state observe_committed) as Hrow. cbn [ob_state observe] in Hrow.
  destruct (transactions db_committed !! demo_id) as [t|] eqn:Ht; [|discriminate Hrow].
  destruct (integrity_check_sound demo_store demo_env (demo_session db_committed) s' E)
    as (_ & _ & _ & _ & Hall).
  exists t. exact (conj eq_refl (proj1 (Hall demo_id t Ht))).
Defined.

Lemma demo_events_filed : events_filed db_prepared.
Proof.
  assert (bool_decide (map_Forall (λ k e, sa_transaction_id e = k.1 ∧
    (sa_event_sequence e ≤ i64_max)%Z ∧ (sa_generation e ≤ i64_max)%Z ∧
    (sa_state_version e ≤ i64_max)%Z) (audit_events db_prepared)) = true) as Hb
    by (vm_compute; reflexivity).
  apply bool_decide_eq_true in Hb. intros i n e He. exact (Hb (i, n) e He).
Qed.

Lemma audit_trail_tamper_evident_witness :
  trail db_prepared demo_id = trail db_prepared demo_id ∨
  trails_collide demo_id (trail db_prepared demo_id) (trail db_prepared demo_id).
Proof.
  assert (match last (trail db_prepared demo_id) with Some _ => true | None => false end = true)
    as Hl by (vm_compute; reflexivity).
  destruct (last (trail db_prepared demo_id)) as [e|] eqn:El; [|discriminate Hl].
  destruct (validate_audit_chain demo_key demo_id 0 1 demo_limits demo_env (demo_session db_prepared))
    as [s' out] eqn:E.
  assert (out = Ok tt) as ->.
  { apply (f_equal snd) in E. cbn in E. rewrite <- E. vm_compute. reflexivity. }
  refine (audit_trail_tamper_evident demo_key demo_id 0 1 0 1 demo_limits demo_limits demo_env
    demo_env (demo_session db_prepared) s' (demo_session db_prepared) s' e e _ E E
    demo_events_filed demo_events_filed El El eq_refl).
  vm_compute. discriminate.
Defined.

Definition demo_row : StoredRecord := TransactionRow (new_transaction demo_key demo_binding).
Definition demo_row_retagged : StoredRecord :=
  TransactionRow
    {| st_transaction_id := AuthorityBinding_transaction_id demo_binding;
       st_principal := ab_principal demo_binding; st_request_id := ab_request_id demo_binding;
       st_current_generation := 0; st_state_version := 1; st_integrity_tag := [Byte.x01] |}.

Lemma demo_row_in_range : record_in_range demo_row ∧ record_in_range demo_row_retagged.
Proof. split; (split; [repeat constructor|split]); by vm_compute. Qed.

Lemma record_canonical_injective_witness : untagged demo_row = untagged demo_row_retagged.
Proof.
  refine (record_canonical_injective demo_row demo_row_retagged eq_refl
    (proj1 demo_row_in_range) (proj2 demo_row_in_range) _).
  vm_compute. reflexivity.
Defined.

Lemma authority_binding_canonical_injective_witness : demo_binding = demo_binding.
Proof.
  refine (authority_binding_canonical_injective demo_binding demo_binding
    (adm_binding _ demo_binding_ok) (adm_binding _ demo_binding_ok) _ _ eq_refl);
    vm_compute; split; split; discriminate.
Defined.

Lemma demo_mutation_in_range :
  mutation_in_range (MHandoff demo_handoff) ∧ mutation_in_range (MCommit demo_commit).
Proof.
  split; (split; [repeat constructor; by vm_compute|split; [by vm_compute|]]);
    repeat split; by vm_compute.
Qed.

Lemma mutation_message_injective_witness : same_mutation (MHandoff demo_handoff) (MHandoff demo_handoff).
Proof.
  exact (mutation_message_injective (MHandoff demo_handoff) (MHandoff demo_handoff)
    (proj1 demo_mutation_in_range) (proj1 demo_mutation_in_range) eq_refl).
Defined.

Lemma signed_requests_verify_witness : verify_handoff demo_verifier demo_handoff = true.
Proof.
  assert (authorize_handoff demo_signer snap_prepared (demo_digest "use") 900 1100
          = Ok demo_handoff) as E by (vm_compute; reflexivity).
  exact (proj1 (proj1 (signed_requests_verify demo_authority snap_prepared)
    (demo_digest "use") 900%Z 1100%Z demo_handoff E)).
Defined.

(** The binding of the scenario with its risk rules [rules]. *)
Definition demo_make (rules : list string) : result TransactionValidationError AuthorityBinding :=
  AuthorityBinding_try_new "uid:1000" "request:demo" "plan:demo" (demo_digest "request")
    (demo_digest "pre") (demo_digest "obs") "provider" "resource" "capability" "policy" "rev"
    SystemMutation "r1" rules (demo_digest "review") PolicyAllow.

Lemma risk_rule_order_is_irrelevant_witness :
  demo_make ["b"; "a"] = demo_make ["a"; "b"] ∧ is_ok (demo_make ["b"; "a"]) = true.
Proof.
  split; [|vm_compute; reflexivity].
  exact (proj1 (risk_rule_order_is_irrelevant "uid:1000" "request:demo" "plan:demo"
    (demo_digest "request") (demo_digest "pre") (demo_digest "obs") "provider" "resource"
    "capability" "policy" "rev" SystemMutation "r1" ["b"; "a"] ["a"; "b"] (demo_digest "review")
    PolicyAllow (Permutation_swap "a" "b" []))).
Defined.

Lemma integrity_verify_exact_witness :
  integrity_verify demo_key TRANSACTION_RECORD [Byte.x01] (integrity_tag demo_key TRANSACTION_RECORD [Byte.x01]) = true.
Proof.
  exact (proj2 (integrity_verify_exact demo_key TRANSACTION_RECORD [Byte.x01]
    (integrity_tag demo_key TRANSACTION_RECORD [Byte.x01])) eq_refl).
Defined.

(** * Concrete openings

    The theorems of [OpenFacts] and [OpenLive] applied to an empty file, a
    schema-v1 file, a file of another application and the file the scenario
    leaves behind. *)

From S2P Require Import OpenStore.
From S2P Require Import OpenFacts OpenLive.

(** The settings of a new connection on a file. *)
Definition file_pragmas (journal : string) (application version : Z) : Pragmas :=
  {| pr_journal_mode := journal; pr_synchronous := 1; pr_foreign_keys := 0; pr_trusted_schema := 1;
     pr_recursive_triggers := 0; pr_no_ckpt_on_close := false; pr_page_size := 4096;
     pr_max_page_count := 1073741823; pr_application_id := application; pr_user_version := version |}.

Definition demo_blank : Database :=
  {| transactions := ∅; generations := ∅; audit_events := ∅; audit_reservations := ∅;
     authority_store_identity := None; schema_migrations := ∅; schema_objects := [];
     pragmas := file_pragmas "delete" 0 0 |}.
Definition demo_foreign : Database := with_pragmas demo_blank (file_pragmas "delete" 7 0).
Definition demo_v1 : Database :=
  with_pragmas
    (with_schema_migrations demo_db {[MIGRATION_ID := migration_v1_checksum]})
    (file_pragmas "wal" APPLICATION_ID 1).

Lemma demo_open_ready : open_ready demo_env demo_limits.
Proof. by constructor. Qed.

Lemma demo_limits_open : limits_open demo_limits.
Proof.
  constructor; [done|apply demo_limits_i64|]. unfold i64_max. cbn. lia.
Qed.

Lemma demo_pages_ok db : pr_page_size (pragmas db) = 4096%Z → pages_ok db.
Proof.
  intros E. unfold pages_ok, page_ok. rewrite E.
  split; [unfold MIN_SQLITE_PAGE_SIZE, MAX_SQLITE_PAGE_SIZE; lia|done].
Qed.

Lemma demo_blank_file : blank_file demo_blank.
Proof. by constructor. Qed.

Lemma demo_migrations_apply : migrations_apply.
Proof.
  do 3 eexists. split; [reflexivity|]. split; [reflexivity|]. vm_compute. reflexivity.
Qed.

Lemma open_installs_empty_file_witness :
  ∃ s', open_with_limits_mode demo_limits demo_verifier demo_key false demo_env
          (demo_session demo_blank) = (s', Ok demo_store) ∧
    installed demo_store (sess_db s') ∧ empty_db (sess_db s').
Proof.
  exact (open_installs_empty_file demo_limits demo_verifier demo_key false demo_env
    (demo_session demo_blank) demo_fault_free demo_open_ready demo_limits_open demo_limits_nonneg
    eq_refl (demo_pages_ok demo_blank eq_refl) demo_blank_file demo_migrations_apply).
Defined.

Lemma open_success_is_installed_witness :
  installed demo_store (sess_db (fst (open_with_limits_mode demo_limits demo_verifier demo_key false
    demo_env (demo_session demo_blank)))).
Proof.
  destruct (open_with_limits_mode demo_limits demo_verifier demo_key false demo_env
    (demo_session demo_blank)) as [s' [st|e]] eqn:E.
  - pose proof (open_success_is_installed demo_limits demo_verifier demo_key false demo_env
      (demo_session demo_blank) s' st E) as (-> & _ & Hin & _). exact Hin.
  - exfalso. apply (f_equal snd) in E. vm_compute in E. discriminate E.
Defined.

Lemma open_leaves_foreign_databases_witness :
  ∃ s' e, open_with_limits_mode demo_limits demo_verifier demo_key false demo_env
    (demo_session demo_foreign) = (s', Err e) ∧ sess_db s' = demo_foreign.
Proof.
  refine (open_leaves_foreign_databases demo_limits demo_verifier demo_key false demo_env
    (demo_session demo_foreign) _).
  vm_compute. left. discriminate.
Defined.

Lemma open_reopens_reachable_witness :
  ∃ s', open_with_limits_mode demo_limits demo_verifier demo_key false demo_env
          (demo_session (with_pragmas db_committed (file_pragmas "wal" APPLICATION_ID SCHEMA_VERSION)))
        = (s', Ok demo_store) ∧
    installed demo_store (sess_db s') ∧ tables (sess_db s') = tables db_committed.
Proof.
  refine (open_reopens_reachable demo_limits demo_verifier demo_key false demo_env
    (demo_session (with_pragmas db_committed (file_pragmas "wal" APPLICATION_ID SCHEMA_VERSION))) demo_db
    db_committed demo_fault_free demo_open_ready demo_limits_open demo_limits_nonneg eq_refl
    demo_empty demo_installed (rtc_l _ _ _ _ step_prepared steps_to_committed) _).
  eexists. split; [reflexivity|]. constructor; vm_compute; reflexivity.
Defined.

Lemma demo_v1_file : v1_file demo_store demo_v1.
Proof.
  constructor; [vm_compute; reflexivity..| |].
  - eexists. split; vm_compute; reflexivity.
  - do 2 eexists. split; [vm_compute; reflexivity|]. split; vm_compute; reflexivity.
Qed.

Lemma open_upgrades_v1_witness :
  ∃ s', open_with_limits_mode demo_limits demo_verifier demo_key false demo_env
          (demo_session demo_v1) = (s', Ok demo_store) ∧
    installed demo_store (sess_db s') ∧ tables (sess_db s') = tables demo_v1.
Proof.
  refine (open_upgrades_v1 demo_limits demo_verifier demo_key false demo_env (demo_session demo_v1)
    demo_fault_free demo_open_ready demo_limits_open eq_refl (demo_pages_ok demo_v1 eq_refl)
    demo_v1_file _).
  apply empty_db_inv; [apply demo_limits_nonneg|]. constructor; [|done..].
  apply (demo_pages_ok demo_v1 eq_refl).
Defined.
