(* ===== verification/Ordered.v ===== *)
(** * Ordered maps and sets

    Rust's [BTreeMap] and [BTreeSet] with string keys are finite maps and
    sets whose iteration is in the byte order of the keys, [String.le].  This
    file holds that iteration and its lemmas, the insertion of absent values
    at the end of a [Vec], and the order on pairs of identifiers. *)

From Stdlib Require Import ZArith Lia.
From stdpp Require Import base numbers gmap strings list fin_maps fin_map_dom sorting.
From S2P Require Import Prelude Text.

Set Default Goal Selector "!".

#[global] Arguments has_control : simpl never.
#[global] Arguments trim_is_empty : simpl never.
#[global] Arguments str_len : simpl never.

(** [for x in &set] of a [BTreeSet<String>]. *)
Definition btree_elements (s : gset string) : list string :=
  merge_sort String.le (elements s).

Lemma elem_of_btree_elements s x : x ∈ btree_elements s ↔ x ∈ s.
Proof. unfold btree_elements. by rewrite merge_sort_Permutation, elem_of_elements. Qed.

Lemma btree_elements_NoDup s : NoDup (btree_elements s).
Proof. unfold btree_elements. rewrite merge_sort_Permutation. apply NoDup_elements. Qed.

Lemma btree_elements_sorted s : StronglySorted String.le (btree_elements s).
Proof. apply StronglySorted_merge_sort; apply _. Qed.

(** Entries in key order. *)
Definition entry_le {V} (a b : string * V) : Prop := String.le (fst a) (fst b).
#[export] Instance entry_le_dec {V} : RelDecision (@entry_le V).
Proof. intros a b. unfold entry_le. apply _. Defined.
#[export] Instance entry_le_trans {V} : Transitive (@entry_le V).
Proof. intros a b c. unfold entry_le. apply transitivity. Qed.
#[export] Instance entry_le_total {V} : Total (@entry_le V).
Proof. intros a b. unfold entry_le. apply total, _. Qed.

(** [for (k, v) in &map] of a [BTreeMap<String, V>]. *)
Definition btree_entries {V} (m : gmap string V) : list (string * V) :=
  merge_sort entry_le (map_to_list m).

Lemma elem_of_btree_entries {V} (m : gmap string V) k v :
  (k, v) ∈ btree_entries m ↔ m !! k = Some v.
Proof. unfold btree_entries. by rewrite merge_sort_Permutation, elem_of_map_to_list. Qed.

Lemma btree_entries_NoDup {V} (m : gmap string V) : NoDup (btree_entries m).*1.
Proof.
  unfold btree_entries. rewrite merge_sort_Permutation. apply NoDup_fst_map_to_list.
Qed.

Lemma btree_entries_sorted {V} (m : gmap string V) : StronglySorted entry_le (btree_entries m).
Proof. apply StronglySorted_merge_sort; apply _. Qed.

Lemma length_btree_entries {V} (m : gmap string V) : length (btree_entries m) = size m.
Proof. unfold btree_entries. by rewrite merge_sort_Permutation, length_map_to_list. Qed.

(** [map.values()]. *)
Definition btree_values {V} (m : gmap string V) : list V := (btree_entries m).*2.

Lemma elem_of_btree_values {V} (m : gmap string V) v :
  v ∈ btree_values m ↔ ∃ k, m !! k = Some v.
Proof.
  unfold btree_values. rewrite list_elem_of_fmap. split.
  - intros ([k w] & -> & Hin). exists k. by apply elem_of_btree_entries.
  - intros [k Hk]. exists (k, v). split; [done|]. by apply elem_of_btree_entries.
Qed.

(** [if !vec.contains(&x) { vec.push(x) }]. *)
Definition push_absent {A} `{EqDecision A} (l : list A) (x : A) : list A :=
  if decide (x ∈ l) then l else l ++ [x].

Section push_absent.
Context {A : Type} `{EqDecision A}.
Implicit Types (l k : list A).

Lemma elem_of_push_absent l x y : y ∈ push_absent l x ↔ y ∈ l ∨ y = x.
Proof. unfold push_absent. case_decide; set_solver. Qed.

Lemma push_absent_NoDup l x : NoDup l → NoDup (push_absent l x).
Proof.
  unfold push_absent. case_decide; [done|]. intros Hl. rewrite NoDup_app. split_and!; [done|set_solver|].
  apply NoDup_singleton.
Qed.

Lemma elem_of_foldl_push_absent l k y : y ∈ foldl push_absent l k ↔ y ∈ l ∨ y ∈ k.
Proof.
  revert l. induction k as [|x k IH]; intros l; cbn; [set_solver|].
  rewrite IH, elem_of_push_absent. set_solver.
Qed.

Lemma foldl_push_absent_NoDup l k : NoDup l → NoDup (foldl push_absent l k).
Proof. revert l. induction k as [|x k IH]; intros l Hl; cbn; [done|]. by apply IH, push_absent_NoDup. Qed.
End push_absent.

(** The comparison of pairs by first, then by second component. *)
Definition pair_le (a b : string * string) : Prop :=
  if decide (fst a = fst b) then String.le (snd a) (snd b) else String.le (fst a) (fst b).
#[export] Instance pair_le_dec : RelDecision pair_le.
Proof. intros a b. unfold pair_le. destruct (decide _); apply _. Defined.

#[export] Instance pair_le_trans : Transitive pair_le.
Proof.
  intros [a1 a2] [b1 b2] [c1 c2]. unfold pair_le. cbn.
  destruct (decide (a1 = b1)) as [->|Hab], (decide (b1 = c1)) as [->|Hbc]; cbn.
  - apply transitivity.
  - done.
  - by rewrite decide_False.
  - intros H1 H2. destruct (decide (a1 = c1)) as [->|].
    + destruct Hab. by apply (anti_symm String.le).
    + by trans b1.
Qed.

#[export] Instance pair_le_total : Total pair_le.
Proof.
  intros [a1 a2] [b1 b2]. unfold pair_le. cbn. destruct (decide (a1 = b1)) as [->|Hab].
  - rewrite decide_True by done. apply total, _.
  - rewrite decide_False by done. apply total, _.
Qed.

#[export] Instance pair_le_anti_symm : AntiSymm (=) pair_le.
Proof.
  intros [a1 a2] [b1 b2]. unfold pair_le. cbn. destruct (decide (a1 = b1)) as [->|Hab].
  - rewrite decide_True by done. intros H1 H2. f_equal. by apply (anti_symm String.le).
  - rewrite decide_False by done. intros H1 H2. destruct Hab. by apply (anti_symm String.le).
Qed.

(** Two sorted vectors without repetition and with the same members are equal. *)
Lemma sorted_set_unique {A} (R : relation A) `{!AntiSymm (=) R} (l k : list A) :
  StronglySorted R l → StronglySorted R k → NoDup l → NoDup k →
  (∀ x, x ∈ l ↔ x ∈ k) → l = k.
Proof.
  intros Hl Hk Nl Nk Hx. apply (StronglySorted_unique R); [done..|].
  by apply NoDup_Permutation.
Qed.

(** ** Sums over maps *)

Section total.
Context {K V : Type} `{Countable K}.
Implicit Types (f : V → Z) (m : gmap K V).

Definition total f m : Z := map_fold (λ _ x acc, (f x + acc)%Z) 0%Z m.

Lemma total_empty f : total f ∅ = 0%Z.
Proof. apply map_fold_empty. Qed.

Lemma total_insert f m k x :
  m !! k = None → total f (<[k:=x]> m) = (f x + total f m)%Z.
Proof. intros Hk. unfold total. rewrite map_fold_insert_L; [done| |done]. intros. lia. Qed.

Lemma total_delete f m k x :
  m !! k = Some x → total f m = (f x + total f (delete k m))%Z.
Proof. intros Hk. unfold total. rewrite (map_fold_delete_L _ _ k x); [done| |done]. intros. lia. Qed.

Lemma total_nonneg f m : (∀ k x, m !! k = Some x → 0 ≤ f x)%Z → (0 ≤ total f m)%Z.
Proof.
  induction m as [|k x m Hk IH] using map_ind; intros Hf; [by rewrite total_empty|].
  rewrite total_insert by done.
  assert (0 ≤ f x)%Z by (apply (Hf k); by rewrite lookup_insert_eq).
  assert (0 ≤ total f m)%Z; [|lia]. apply IH. intros k' x' Hk'. apply (Hf k').
  rewrite lookup_insert_ne by congruence. done.
Qed.
End total.
