(* ===== verification/Capability.v ===== *)
(** * linura-capability-sdk: operations and capabilities

    Models [crates/linura-capability-sdk/src/lib.rs]: the effect binding and
    descriptor of an operation with their construction rules, the operation
    registry, and the capability catalogue with its resolution of requested
    capabilities.  [resolve_exact] says what a resolution contains: the
    closure of the request under [Requires], the selected identifiers the
    catalogue does not know, and the conflicts among the selected ones. *)

From Stdlib Require Import ZArith Lia.
From stdpp Require Import base numbers gmap strings list fin_maps sorting relations.
From S2P Require Import Prelude Text Core Ordered.

Set Default Goal Selector "!".

(** ** Effect bindings *)

Inductive OperationEffectBindingError :=
| EmptyResourcePrefix
| ResourcePrefixTooLong
| ResourcePrefixControlCharacter
| EmptyResourceSuffix
| ResourceSuffixTooLong
| ResourceSuffixControlCharacter
| EmptyChangeKeys
| InvalidChangeKey
| DuplicateChangeKey.

Record OperationEffectBinding := {
  eb_provider : ProviderId;
  eb_observation_capability : CapabilityId;
  eb_resource_prefix : string;
  eb_resource_suffix : option string;
  eb_change_keys : gset string;
}.

(** The loop that fills [canonical_change_keys]. *)
Fixpoint insert_change_keys (acc : gset string) (keys : list string)
    : result OperationEffectBindingError (gset string) :=
  match keys with
  | [] => Ok acc
  | key :: keys =>
      reject_if (trim_is_empty key || (256 <? str_len key)%Z || has_control key) InvalidChangeKey;;
      reject_if (bool_decide (key ∈ acc)) DuplicateChangeKey;;
      insert_change_keys ({[key]} ∪ acc) keys
  end.

Definition OperationEffectBinding_try_new (provider : ProviderId)
    (observation_capability : CapabilityId) (resource_prefix : string)
    (change_keys : list string) : result OperationEffectBindingError OperationEffectBinding :=
  reject_if (trim_is_empty resource_prefix) EmptyResourcePrefix;;
  reject_if (256 <? str_len resource_prefix)%Z ResourcePrefixTooLong;;
  reject_if (has_control resource_prefix) ResourcePrefixControlCharacter;;
  reject_if (is_nil change_keys) EmptyChangeKeys;;
  keys ← insert_change_keys ∅ change_keys;
  Ok {| eb_provider := provider; eb_observation_capability := observation_capability;
        eb_resource_prefix := resource_prefix; eb_resource_suffix := None;
        eb_change_keys := keys |}.

Definition with_resource_suffix (b : OperationEffectBinding) (resource_suffix : string)
    : result OperationEffectBindingError OperationEffectBinding :=
  reject_if (str_len resource_suffix =? 0)%Z EmptyResourceSuffix;;
  reject_if (256 <? str_len resource_suffix)%Z ResourceSuffixTooLong;;
  reject_if (has_control resource_suffix) ResourceSuffixControlCharacter;;
  Ok {| eb_provider := eb_provider b; eb_observation_capability := eb_observation_capability b;
        eb_resource_prefix := eb_resource_prefix b; eb_resource_suffix := Some resource_suffix;
        eb_change_keys := eb_change_keys b |}.

(** [str::starts_with] and [str::ends_with]. *)
Definition starts_with (s p : string) : bool := bool_decide (is_Some (strip_prefix p s)).
Definition string_rev (s : string) : string :=
  String.string_of_list_ascii (reverse (String.list_ascii_of_string s)).
Definition ends_with (s p : string) : bool := starts_with (string_rev s) (string_rev p).

Definition matches_resource (b : OperationEffectBinding) (resource : string) : bool :=
  starts_with resource (eb_resource_prefix b)
  && match eb_resource_suffix b with
     | None => true
     | Some suffix => ends_with resource suffix
     end.

(** ** Operation descriptors *)

Inductive OperationDescriptorError :=
| MissingRiskFloor
| UnexpectedRiskFloor
| InvalidRiskFloor
| MissingEffectBinding
| UnexpectedEffectBinding.

Record OperationDescriptor := {
  od_id : OperationId;
  od_class : OperationClass;
  od_risk_floor : option RiskClass;
  od_effect_binding : option OperationEffectBinding;
}.

(** The [match risk_floor] shared by the two state-changing classes. *)
Definition mutation_risk_floor (risk_floor : option RiskClass)
    : result OperationDescriptorError unit :=
  match risk_floor with
  | Some (UserState | SystemMutation | SecuritySensitive | Destructive) => Ok tt
  | Some ReadOnly => Err InvalidRiskFloor
  | None => Err MissingRiskFloor
  end.

Definition OperationDescriptor_try_new (id : OperationId) (class : OperationClass)
    (risk_floor : option RiskClass) (effect_binding : option OperationEffectBinding)
    : result OperationDescriptorError OperationDescriptor :=
  match class with
  | ExperienceEphemeral =>
      reject_if (bool_decide (is_Some risk_floor)) UnexpectedRiskFloor;;
      reject_if (bool_decide (is_Some effect_binding)) UnexpectedEffectBinding
  | AuthoritativeQuery =>
      reject_if (negb (bool_decide (risk_floor = Some ReadOnly))) InvalidRiskFloor;;
      reject_if (bool_decide (is_Some effect_binding)) UnexpectedEffectBinding
  | LinuraOwnedState =>
      mutation_risk_floor risk_floor;;
      reject_if (bool_decide (is_Some effect_binding)) UnexpectedEffectBinding
  | ManagedExternalEffect =>
      mutation_risk_floor risk_floor;;
      reject_if (bool_decide (effect_binding = None)) MissingEffectBinding
  | TransientExternalEffect =>
      reject_if (negb (bool_decide (risk_floor = Some UserState))) InvalidRiskFloor;;
      reject_if (bool_decide (effect_binding = None)) MissingEffectBinding
  end;;
  Ok {| od_id := id; od_class := class; od_risk_floor := risk_floor;
        od_effect_binding := effect_binding |}.

Inductive OperationRegistryError := DuplicateOperation (id : OperationId).

Record OperationRegistry := { or_descriptors : gmap OperationId OperationDescriptor }.

Definition OperationRegistry_default : OperationRegistry := {| or_descriptors := ∅ |}.

(** [&mut self]: the registry after the call, and the result. *)
Definition OperationRegistry_register (r : OperationRegistry) (descriptor : OperationDescriptor)
    : OperationRegistry * result OperationRegistryError unit :=
  match or_descriptors r !! od_id descriptor with
  | Some _ => (r, Err (DuplicateOperation (od_id descriptor)))
  | None =>
      ({| or_descriptors := <[od_id descriptor := descriptor]> (or_descriptors r) |}, Ok tt)
  end.

Definition OperationRegistry_descriptor (r : OperationRegistry) (id : OperationId)
    : option OperationDescriptor := or_descriptors r !! id.
Definition OperationRegistry_iter (r : OperationRegistry) : list OperationDescriptor :=
  btree_values (or_descriptors r).
Definition OperationRegistry_len (r : OperationRegistry) : nat := size (or_descriptors r).
Definition OperationRegistry_is_empty (r : OperationRegistry) : bool :=
  bool_decide (or_descriptors r = ∅).

(** ** The capability catalogue *)

Inductive CapabilityRelationKind :=
| Requires | Provides | Conflicts | Replaces | Recommends | Optional.

#[export] Instance CapabilityRelationKind_eq_dec : EqDecision CapabilityRelationKind.
Proof. solve_decision. Defined.

Record CapabilityRelation := {
  cr_kind : CapabilityRelationKind;
  cr_capability : CapabilityId;
}.

#[export] Instance CapabilityRelation_eq_dec : EqDecision CapabilityRelation.
Proof. solve_decision. Defined.

Record DesiredResourceBlueprint := {
  drb_provider : ProviderId;
  drb_resource : ResourceId;
  drb_observation_capability : CapabilityId;
  drb_state : gmap string string;
}.

#[export] Instance DesiredResourceBlueprint_eq_dec : EqDecision DesiredResourceBlueprint.
Proof. solve_decision. Defined.

Record CapabilityBlueprint := {
  cb_id : CapabilityId;
  cb_title : string;
  cb_relations : list CapabilityRelation;
  cb_desired_resources : list DesiredResourceBlueprint;
}.

Record CapabilityCatalog := { blueprints : gmap CapabilityId CapabilityBlueprint }.

Definition CapabilityCatalog_default : CapabilityCatalog := {| blueprints := ∅ |}.

Record Resolution := {
  res_selected : gset CapabilityId;
  res_conflicts : list (CapabilityId * CapabilityId);
  res_missing : gset CapabilityId;
}.

Definition Resolution_default : Resolution :=
  {| res_selected := ∅; res_conflicts := []; res_missing := ∅ |}.

Definition canonical_conflict_pair (left right : CapabilityId) : CapabilityId * CapabilityId :=
  if decide (String.le left right) then (left, right) else (right, left).

Definition CapabilityCatalog_register (c : CapabilityCatalog) (blueprint : CapabilityBlueprint)
    : CapabilityCatalog :=
  {| blueprints := <[cb_id blueprint := blueprint]> (blueprints c) |}.

Definition CapabilityCatalog_blueprint (c : CapabilityCatalog) (id : CapabilityId)
    : option CapabilityBlueprint := blueprints c !! id.

Definition add_conflict (r : Resolution) (pair : CapabilityId * CapabilityId) : Resolution :=
  {| res_selected := res_selected r; res_conflicts := push_absent (res_conflicts r) pair;
     res_missing := res_missing r |}.
Definition select (r : Resolution) (id : CapabilityId) : Resolution :=
  {| res_selected := {[id]} ∪ res_selected r; res_conflicts := res_conflicts r;
     res_missing := res_missing r |}.
Definition add_missing (r : Resolution) (id : CapabilityId) : Resolution :=
  {| res_selected := res_selected r; res_conflicts := res_conflicts r;
     res_missing := {[id]} ∪ res_missing r |}.

(** [for relation in &blueprint.relations] of the worklist loop.  The [Vec]
    [pending] is a stack: the head of the list is its last element, the one
    [pop] takes. *)
Fixpoint visit_relations (id : CapabilityId) (relations : list CapabilityRelation)
    (pending : list CapabilityId) (r : Resolution) : list CapabilityId * Resolution :=
  match relations with
  | [] => (pending, r)
  | relation :: relations =>
      match cr_kind relation with
      | Requires => visit_relations id relations (cr_capability relation :: pending) r
      | Conflicts =>
          visit_relations id relations pending
            (if decide (cr_capability relation ∈ res_selected r)
             then add_conflict r (canonical_conflict_pair id (cr_capability relation)) else r)
      | _ => visit_relations id relations pending r
      end
  end.

(** [while let Some(id) = pending.pop()]; [None] when the fuel runs out. *)
Fixpoint resolve_loop (fuel : nat) (c : CapabilityCatalog) (pending : list CapabilityId)
    (r : Resolution) : option Resolution :=
  match pending with
  | [] => Some r
  | id :: pending =>
      match fuel with
      | O => None
      | S fuel =>
          if decide (id ∈ res_selected r) then resolve_loop fuel c pending r
          else
            let r := select r id in
            match blueprints c !! id with
            | None => resolve_loop fuel c pending (add_missing r id)
            | Some blueprint =>
                let '(pending, r) := visit_relations id (cb_relations blueprint) pending r in
                resolve_loop fuel c pending r
            end
      end
  end.

(** The pairs the sweep over one selected capability adds. *)
Definition sweep_relation (selected : CapabilityId) (r : Resolution)
    (relation : CapabilityRelation) : Resolution :=
  if bool_decide (cr_kind relation = Conflicts)
     && bool_decide (cr_capability relation ∈ res_selected r)
  then add_conflict r (canonical_conflict_pair selected (cr_capability relation))
  else r.

Definition sweep_selected (c : CapabilityCatalog) (r : Resolution) (selected : CapabilityId)
    : Resolution :=
  match blueprints c !! selected with
  | None => r
  | Some blueprint => foldl (sweep_relation selected) r (cb_relations blueprint)
  end.

Definition sort_conflicts (r : Resolution) : Resolution :=
  {| res_selected := res_selected r; res_conflicts := merge_sort pair_le (res_conflicts r);
     res_missing := res_missing r |}.

(** Every identifier is expanded once, so the loop pops at most the requested
    identifiers and one per relation of the catalogue. *)
Definition total_relations (c : CapabilityCatalog) : nat :=
  sum_list_with (λ kv, length (cb_relations (snd kv))) (map_to_list (blueprints c)).

Definition resolve_fuel (c : CapabilityCatalog) (requested : list CapabilityId) : nat :=
  length requested + total_relations c.

(** [resolve_terminates] shows that the [None] branch is not taken. *)
Definition resolve (c : CapabilityCatalog) (requested : list CapabilityId) : Resolution :=
  match resolve_loop (resolve_fuel c requested) c (reverse requested) Resolution_default with
  | Some r => sort_conflicts (foldl (sweep_selected c) r (btree_elements (res_selected r)))
  | None => Resolution_default
  end.

(** * Capability resolution, proved exact

    The worklist of [CapabilityCatalog::resolve] terminates and computes the
    closure of the request; the result does not depend on the order or the
    repetition of the request. *)

(** [x] declares a relation of a kind to [y]. *)
Definition declares (c : CapabilityCatalog) (kind : CapabilityRelationKind)
    (x y : CapabilityId) : Prop :=
  ∃ b, blueprints c !! x = Some b ∧ {| cr_kind := kind; cr_capability := y |} ∈ cb_relations b.

(** The capabilities a request needs. *)
Definition needed (c : CapabilityCatalog) (requested : list CapabilityId) (x : CapabilityId) : Prop :=
  ∃ y, y ∈ requested ∧ rtc (declares c Requires) y x.

(** A conflict between two members of a set, in canonical order. *)
Definition conflict_in (c : CapabilityCatalog) (s : gset CapabilityId)
    (p : CapabilityId * CapabilityId) : Prop :=
  ∃ x y, x ∈ s ∧ y ∈ s ∧ declares c Conflicts x y ∧ p = canonical_conflict_pair x y.

(** ** The relations of one blueprint *)

Lemma visit_relations_spec id rels pending r p' r' :
  visit_relations id rels pending r = (p', r') →
  res_selected r' = res_selected r ∧ res_missing r' = res_missing r ∧
  (length p' ≤ length pending + length rels)%nat ∧
  (∀ x, x ∈ p' ↔ x ∈ pending ∨ {| cr_kind := Requires; cr_capability := x |} ∈ rels) ∧
  (NoDup (res_conflicts r) → NoDup (res_conflicts r')) ∧
  (∀ p, p ∈ res_conflicts r' → p ∈ res_conflicts r ∨
     ∃ y, {| cr_kind := Conflicts; cr_capability := y |} ∈ rels ∧ y ∈ res_selected r ∧
          p = canonical_conflict_pair id y).
Proof.
  revert pending r. induction rels as [|[k y] rels IH]; intros pending r; cbn [visit_relations].
  { intros [= <- <-]. split_and!; try done; [cbn; lia|set_solver|auto]. }
  cbn [cr_kind cr_capability length].
  destruct k; intros H; apply IH in H as (Hs & Hm & Hl & Hp & Hn & Hc);
    try (split_and!; [done|done|cbn in *; lia| | done | ];
         [intros x; rewrite Hp; set_solver | set_solver]).
  case_decide as Hy; cbn in *;
    (split_and!; [done|done|lia|intros x; rewrite Hp; set_solver| |]).
  - intros Hnd. by apply Hn, push_absent_NoDup.
  - intros p [Hin|(z & ? & ? & ->)]%Hc; [|set_solver].
    apply elem_of_push_absent in Hin as [?| ->]; set_solver.
  - done.
  - set_solver.
Qed.

(** ** Termination *)

Definition weight (sel : gset CapabilityId) (kv : CapabilityId * CapabilityBlueprint) : nat :=
  if decide (fst kv ∈ sel) then 0 else length (cb_relations (snd kv)).

(** Relations of blueprints that are not selected yet. *)
Definition remaining (c : CapabilityCatalog) (sel : gset CapabilityId) : nat :=
  sum_list_with (weight sel) (map_to_list (blueprints c)).

Lemma sum_list_with_le {A} (f g : A → nat) l :
  (∀ x, x ∈ l → (f x ≤ g x)%nat) → (sum_list_with f l ≤ sum_list_with g l)%nat.
Proof.
  induction l as [|x l IH]; intros Hfg; cbn; [lia|].
  pose proof (Hfg x (list_elem_of_here _ _)). assert (sum_list_with f l ≤ sum_list_with g l)%nat.
  { apply IH. intros y Hy. apply Hfg. by right. }
  lia.
Qed.

Lemma weight_mono sel id kv : (weight ({[id]} ∪ sel) kv ≤ weight sel kv)%nat.
Proof. unfold weight. repeat case_decide; set_solver by lia. Qed.

Lemma remaining_mono c sel id : (remaining c ({[id]} ∪ sel) ≤ remaining c sel)%nat.
Proof. apply sum_list_with_le. intros kv _. apply weight_mono. Qed.

Lemma remaining_select c sel id b :
  blueprints c !! id = Some b → id ∉ sel →
  (remaining c ({[id]} ∪ sel) + length (cb_relations b) ≤ remaining c sel)%nat.
Proof.
  intros Hb Hid. unfold remaining.
  rewrite <- (map_to_list_delete _ _ _ Hb). cbn [sum_list_with].
  assert (weight ({[id]} ∪ sel) (id, b) = 0)%nat as -> by (unfold weight; rewrite decide_True; [done|set_solver]).
  assert (weight sel (id, b) = length (cb_relations b)) as -> by (unfold weight; by rewrite decide_False).
  pose proof (sum_list_with_le (weight ({[id]} ∪ sel)) (weight sel)
                (map_to_list (delete id (blueprints c)))) as Hle.
  assert (∀ kv, kv ∈ map_to_list (delete id (blueprints c)) →
          (weight ({[id]} ∪ sel) kv ≤ weight sel kv)%nat) as Hw by (intros; apply weight_mono).
  specialize (Hle Hw). lia.
Qed.

Lemma remaining_empty c : remaining c ∅ = total_relations c.
Proof.
  unfold remaining, total_relations. induction (map_to_list (blueprints c)) as [|kv l IH]; [done|].
  cbn. rewrite IH. unfold weight. by rewrite decide_False by set_solver.
Qed.

(** ** The invariant of the worklist *)

Record loop_inv (c : CapabilityCatalog) (requested pending : list CapabilityId) (r : Resolution)
    : Prop := {
  inv_pending : ∀ x, x ∈ pending → needed c requested x;
  inv_selected : ∀ x, x ∈ res_selected r → needed c requested x;
  inv_requested : ∀ x, x ∈ requested → x ∈ pending ∨ x ∈ res_selected r;
  inv_closed : ∀ x y, x ∈ res_selected r → declares c Requires x y →
                 y ∈ pending ∨ y ∈ res_selected r;
  inv_missing : ∀ x, x ∈ res_missing r ↔ x ∈ res_selected r ∧ blueprints c !! x = None;
  inv_conflicts : ∀ p, p ∈ res_conflicts r → conflict_in c (res_selected r) p;
  inv_nodup : NoDup (res_conflicts r);
}.

Lemma needed_step c requested x y :
  needed c requested x → declares c Requires x y → needed c requested y.
Proof. intros (z & Hz & Hr) Hd. exists z. split; [done|]. by eapply rtc_r. Qed.

Lemma conflict_in_mono c s t p : s ⊆ t → conflict_in c s p → conflict_in c t p.
Proof. intros Hst (x & y & Hx & Hy & Hd & ->). exists x, y. set_solver. Qed.

Lemma loop_inv_skip c requested pending r id :
  loop_inv c requested (id :: pending) r → id ∈ res_selected r → loop_inv c requested pending r.
Proof.
  intros [Hp Hs Hr Hc Hm Hf Hn] Hid. constructor; [set_solver|done| | |done..].
  - intros x Hx. destruct (Hr x Hx) as [[->|?]%elem_of_cons|?]; auto.
  - intros x y Hx Hd. destruct (Hc x y Hx Hd) as [[->|?]%elem_of_cons|?]; auto.
Qed.

Lemma loop_inv_missing c requested pending r id :
  loop_inv c requested (id :: pending) r → blueprints c !! id = None →
  loop_inv c requested pending (add_missing (select r id) id).
Proof.
  intros [Hp Hs Hr Hc Hm Hf Hn] Hid. constructor; cbn.
  - set_solver.
  - intros x [->%elem_of_singleton|?]%elem_of_union; [apply Hp; left|auto].
  - intros x Hx. destruct (Hr x Hx) as [[->|?]%elem_of_cons|?]; set_solver.
  - intros x y [->%elem_of_singleton|Hx]%elem_of_union Hd; [by destruct Hd as (? & ? & _); congruence|].
    destruct (Hc x y Hx Hd) as [[->|?]%elem_of_cons|?]; set_solver.
  - intros x. rewrite !elem_of_union, elem_of_singleton, Hm. naive_solver.
  - intros p Hin%Hf. eapply conflict_in_mono; [|done]. set_solver.
  - done.
Qed.

Lemma loop_inv_visit c requested pending r id b p' r' :
  loop_inv c requested (id :: pending) r → blueprints c !! id = Some b →
  visit_relations id (cb_relations b) pending (select r id) = (p', r') →
  loop_inv c requested p' r'.
Proof.
  intros [Hp Hs Hr Hc Hm Hf Hn] Hid (HS & HM & _ & HP & HN & HC)%visit_relations_spec.
  cbn in *. constructor; rewrite ?HS, ?HM.
  - intros x [?|Hx]%HP; [apply Hp; by right|].
    eapply needed_step; [apply Hp; left|]. by exists b.
  - intros x [->%elem_of_singleton|?]%elem_of_union; [apply Hp; left|auto].
  - intros x Hx. rewrite HP. destruct (Hr x Hx) as [[->|?]%elem_of_cons|?]; set_solver.
  - intros x y [->%elem_of_singleton|Hx]%elem_of_union Hd; rewrite HP.
    + destruct Hd as (b' & Hb' & Hin). simplify_eq. auto.
    + destruct (Hc x y Hx Hd) as [[->|?]%elem_of_cons|?]; set_solver.
  - intros x. rewrite elem_of_union, elem_of_singleton, Hm. naive_solver.
  - intros p [Hin|(y & Hy & Hsel & ->)]%HC.
    + eapply conflict_in_mono; [|by apply Hf]. set_solver.
    + exists id, y. split_and!; [set_solver|done| |done]. by exists b.
  - auto.
Qed.

(** Enough fuel reaches the end of the worklist, with the invariant. *)
Lemma resolve_loop_spec fuel c requested pending r :
  loop_inv c requested pending r →
  (length pending + remaining c (res_selected r) ≤ fuel)%nat →
  ∃ r', resolve_loop fuel c pending r = Some r' ∧ loop_inv c requested [] r'.
Proof.
  revert pending r. induction fuel as [|fuel IH]; intros [|id pending] r Hinv Hf;
    cbn [resolve_loop]; try (by exists r); cbn [length] in Hf; [lia|].
  case_decide as Hid.
  { apply IH; [by eapply loop_inv_skip|lia]. }
  destruct (blueprints c !! id) as [b|] eqn:Hb.
  - destruct (visit_relations _ _ _ _) as [p' r'] eqn:Hv.
    apply IH; [by eapply loop_inv_visit|].
    apply visit_relations_spec in Hv as (HS & _ & HL & _). cbn in HS. rewrite HS.
    pose proof (remaining_select c (res_selected r) id b Hb Hid). lia.
  - apply IH; [by eapply loop_inv_missing|]. cbn.
    pose proof (remaining_mono c (res_selected r) id). lia.
Qed.

Lemma loop_inv_init c requested : loop_inv c requested (reverse requested) Resolution_default.
Proof.
  constructor; cbn.
  - intros x Hx. rewrite reverse_Permutation in Hx. exists x. split; [done|]. apply rtc_refl.
  - set_solver.
  - intros x Hx. left. by rewrite reverse_Permutation.
  - set_solver.
  - set_solver.
  - intros p Hp. set_solver.
  - constructor.
Qed.

(** An exhausted worklist has selected exactly the closure. *)
Lemma loop_inv_done c requested r x :
  loop_inv c requested [] r → x ∈ res_selected r ↔ needed c requested x.
Proof.
  intros [_ Hs Hr Hc _ _ _]. split; [apply Hs|]. intros (y & Hy & Hrtc).
  assert (y ∈ res_selected r) as Hysel by (destruct (Hr y Hy); set_solver).
  clear Hy. induction Hrtc as [|y z w Hyz _ IH]; [done|]. apply IH.
  destruct (Hc y z Hysel Hyz); set_solver.
Qed.

(** ** The sweep over the selected capabilities *)

Lemma sweep_relations_spec x rels r :
  let r' := foldl (sweep_relation x) r rels in
  res_selected r' = res_selected r ∧ res_missing r' = res_missing r ∧
  (NoDup (res_conflicts r) → NoDup (res_conflicts r')) ∧
  (∀ p, p ∈ res_conflicts r' ↔ p ∈ res_conflicts r ∨
     ∃ y, {| cr_kind := Conflicts; cr_capability := y |} ∈ rels ∧ y ∈ res_selected r ∧
          p = canonical_conflict_pair x y).
Proof.
  revert r. induction rels as [|[k y] rels IH]; intros r; cbn [foldl]; cbv zeta.
  { split_and!; [done..|]. set_solver. }
  destruct (IH (sweep_relation x r {| cr_kind := k; cr_capability := y |})) as (Hs & Hm & Hn & Hc).
  unfold sweep_relation in *. cbn in *.
  destruct (decide (k = Conflicts)) as [->|Hk];
    [rewrite bool_decide_eq_true_2 in * by done|rewrite bool_decide_eq_false_2 in * by done]; cbn in *.
  - destruct (bool_decide_reflect (y ∈ res_selected r)) as [Hy|Hy]; cbn in *.
    + split_and!; [done|done| |].
      * intros Hnd. by apply Hn, push_absent_NoDup.
      * intros p. rewrite Hc, elem_of_push_absent. split; [set_solver|].
        intros [?|(z & [?|?]%elem_of_cons & ? & ->)]; naive_solver.
    + split_and!; [done..|]. intros p. rewrite Hc. split; [set_solver|].
      intros [?|(z & [?|?]%elem_of_cons & ? & ->)]; naive_solver.
  - split_and!; [done..|]. intros p. rewrite Hc. split; [set_solver|].
    intros [?|(z & [?|?]%elem_of_cons & ? & ->)]; naive_solver.
Qed.

Lemma sweep_spec c l r :
  let r' := foldl (sweep_selected c) r l in
  res_selected r' = res_selected r ∧ res_missing r' = res_missing r ∧
  (NoDup (res_conflicts r) → NoDup (res_conflicts r')) ∧
  (∀ p, p ∈ res_conflicts r' ↔ p ∈ res_conflicts r ∨
     ∃ x y, x ∈ l ∧ declares c Conflicts x y ∧ y ∈ res_selected r ∧
            p = canonical_conflict_pair x y).
Proof.
  revert r. induction l as [|x l IH]; intros r; cbn [foldl]; cbv zeta.
  { split_and!; [done..|]. set_solver. }
  destruct (IH (sweep_selected c r x)) as (Hs & Hm & Hn & Hc). clear IH.
  assert (sweep_selected c r x = foldl (sweep_relation x) r
            (default [] (cb_relations <$> blueprints c !! x))) as Hsw.
  { unfold sweep_selected. by destruct (blueprints c !! x). }
  pose proof (sweep_relations_spec x (default [] (cb_relations <$> blueprints c !! x)) r) as Hx.
  cbv zeta in Hx. rewrite <- Hsw in Hx. destruct Hx as (Hs' & Hm' & Hn' & Hc').
  rewrite Hs, Hm, Hs', Hm'. split_and!; [done|done|auto|].
  intros p. rewrite Hc, Hc', Hs'.
  assert (∀ y, {| cr_kind := Conflicts; cr_capability := y |}
               ∈ default [] (cb_relations <$> blueprints c !! x) ↔ declares c Conflicts x y) as Hd.
  { intros y. unfold declares. destruct (blueprints c !! x); cbn; [naive_solver|set_solver]. }
  setoid_rewrite Hd. setoid_rewrite elem_of_cons. naive_solver.
Qed.

(** ** The resolution *)

(** What a resolution must contain. *)
Record resolution_of (c : CapabilityCatalog) (requested : list CapabilityId) (r : Resolution)
    : Prop := {
  of_selected : ∀ x, x ∈ res_selected r ↔ needed c requested x;
  of_missing : ∀ x, x ∈ res_missing r ↔ needed c requested x ∧ blueprints c !! x = None;
  of_conflicts : ∀ p, p ∈ res_conflicts r ↔ conflict_in c (res_selected r) p;
  of_sorted : StronglySorted pair_le (res_conflicts r);
  of_nodup : NoDup (res_conflicts r);
}.

Lemma resolve_computes c requested : resolution_of c requested (resolve c requested).
Proof.
  unfold resolve.
  destruct (resolve_loop_spec (resolve_fuel c requested) c requested (reverse requested)
              Resolution_default) as (r & Hr & Hinv).
  { apply loop_inv_init. }
  { rewrite length_reverse. cbn [res_selected Resolution_default]. by rewrite remaining_empty. }
  rewrite Hr.
  pose proof (sweep_spec c (btree_elements (res_selected r)) r) as (Hs & Hm & Hn & Hc).
  pose proof (loop_inv_done c requested r) as Hdone.
  constructor; cbn.
  - intros x. rewrite Hs. by apply Hdone.
  - intros x. rewrite Hm, (inv_missing _ _ _ _ Hinv), Hdone by done. done.
  - intros p. rewrite merge_sort_Permutation, Hc, Hs. setoid_rewrite elem_of_btree_elements.
    split; [intros [Hp%(inv_conflicts _ _ _ _ Hinv)|(x & y & ? & ? & ? & ->)]; [done|by exists x, y]|].
    intros (x & y & ? & ? & ? & ->). right. by exists x, y.
  - apply StronglySorted_merge_sort; apply _.
  - rewrite merge_sort_Permutation. by apply Hn, (inv_nodup _ _ _ _ Hinv).
Qed.

Lemma resolve_loop_more fuel fuel' c pending r r' :
  resolve_loop fuel c pending r = Some r' → (fuel ≤ fuel')%nat →
  resolve_loop fuel' c pending r = Some r'.
Proof.
  revert fuel' pending r. induction fuel as [|fuel IH]; intros fuel' [|id pending] r H Hle;
    cbn [resolve_loop] in *; destruct fuel' as [|fuel']; try done; cbn [resolve_loop]; [lia|].
  case_decide; [apply IH; [done|lia]|].
  destruct (blueprints c !! id); [|apply IH; [done|lia]].
  destruct (visit_relations _ _ _ _). apply IH; [done|lia].
Qed.

(** C37: The worklist of [resolve] terminates: one iteration per requested
    identifier and per relation of the catalogue is enough, however the
    relations form cycles, and more iterations give the same result. *)
Theorem resolve_terminates c requested :
  ∃ r, ∀ fuel, (length requested + total_relations c ≤ fuel)%nat →
    resolve_loop fuel c (reverse requested) Resolution_default = Some r.
Proof.
  destruct (resolve_loop_spec (length requested + total_relations c) c requested (reverse requested)
              Resolution_default) as (r & Hr & _).
  { apply loop_inv_init. }
  { rewrite length_reverse. cbn [res_selected Resolution_default]. by rewrite remaining_empty. }
  exists r. intros fuel Hf. by eapply resolve_loop_more.
Qed.

Lemma resolution_of_unique c l1 l2 r1 r2 :
  (∀ x, x ∈ l1 ↔ x ∈ l2) → resolution_of c l1 r1 → resolution_of c l2 r2 → r1 = r2.
Proof.
  intros Hl [S1 M1 C1 O1 N1] [S2 M2 C2 O2 N2].
  assert (∀ x, needed c l1 x ↔ needed c l2 x) as Hneed.
  { intros x. unfold needed. by setoid_rewrite Hl. }
  destruct r1 as [s1 c1 m1], r2 as [s2 c2 m2]; cbn in *.
  assert (s1 = s2) as -> by (apply set_eq; intros x; by rewrite S1, S2).
  assert (m1 = m2) as -> by (apply set_eq; intros x; by rewrite M1, M2, Hneed).
  assert (c1 = c2) as -> by (apply (sorted_set_unique pair_le); try done; intros p; by rewrite C1, C2).
  done.
Qed.

(** C36: [CapabilityCatalog::resolve] is exact: it selects the capabilities
    reachable from the request through [Requires] relations, reports as
    missing the selected ones without a blueprint, and lists, each once and
    in order, the canonical pairs of selected capabilities of which one
    declares a conflict with the other. *)
Theorem resolve_exact c requested :
  let r := resolve c requested in
  (∀ x, x ∈ res_selected r ↔ ∃ y, y ∈ requested ∧ rtc (declares c Requires) y x) ∧
  (∀ x, x ∈ res_missing r ↔ x ∈ res_selected r ∧ blueprints c !! x = None) ∧
  (∀ p, p ∈ res_conflicts r ↔
     ∃ x y, x ∈ res_selected r ∧ y ∈ res_selected r ∧ declares c Conflicts x y ∧
            p = canonical_conflict_pair x y) ∧
  StronglySorted pair_le (res_conflicts r) ∧ NoDup (res_conflicts r).
Proof.
  destruct (resolve_computes c requested) as [HS HM HC HO HN]. cbv zeta.
  split_and!; [done| |done..]. intros x. by rewrite HM, HS.
Qed.

(** A resolution depends only on the set of requested capabilities: the
    order of the request and repeated identifiers make no difference. *)
Theorem resolve_order_irrelevant c l1 l2 (Hl : ∀ x, x ∈ l1 ↔ x ∈ l2) :
  resolve c l1 = resolve c l2.
Proof. by eapply resolution_of_unique; [|apply resolve_computes..]. Qed.

(** ** Operation descriptors *)

(** The authority shape of a descriptor, from the predicates on its class:
    effects bound to a plan carry an effect binding, only an ephemeral
    operation has no risk floor, only a query is read-only, and a transient
    effect changes user state at most. *)
Record descriptor_ok (d : OperationDescriptor) : Prop := {
  ok_binding : is_Some (od_effect_binding d)
                 ↔ requires_plan_bound_external_authorization (od_class d) = true;
  ok_floor : is_Some (od_risk_floor d) ↔ control_mediated (od_class d) = true;
  ok_read_only : od_risk_floor d = Some ReadOnly ↔ od_class d = AuthoritativeQuery;
  ok_transient : od_class d = TransientExternalEffect → od_risk_floor d = Some UserState;
}.

(** C38: [OperationDescriptor::try_new] accepts exactly the descriptors whose
    risk floor and effect binding agree with the authority shape of their
    operation class, and returns its arguments. *)
Theorem operation_descriptor_shape id class risk_floor effect_binding d :
  OperationDescriptor_try_new id class risk_floor effect_binding = Ok d ↔
  d = {| od_id := id; od_class := class; od_risk_floor := risk_floor;
         od_effect_binding := effect_binding |} ∧ descriptor_ok d.
Proof.
  unfold OperationDescriptor_try_new. split.
  - intros H. apply bind_Ok in H as ([] & Hc & [= <-]). split; [done|].
    destruct class, risk_floor as [[]|], effect_binding; cbn in Hc; try discriminate Hc;
      constructor; cbn; try split; intros;
      first [done | by eexists | by repeat match goal with H : is_Some None |- _ => destruct H end].
  - intros (-> & [Hb Hf Hr Ht]). cbn in *.
    rewrite !is_Some_alt in *. destruct class, risk_floor as [[]|], effect_binding; naive_solver.
Qed.

Lemma insert_change_keys_Ok acc keys s :
  insert_change_keys acc keys = Ok s ↔
  s = list_to_set keys ∪ acc ∧ NoDup keys ∧ (∀ k, k ∈ keys → k ∉ acc) ∧
  Forall (λ k, trim_is_empty k = false ∧ (str_len k ≤ 256)%Z ∧ has_control k = false) keys.
Proof.
  revert acc. induction keys as [|k keys IH]; intros acc; cbn [insert_change_keys].
  { split; [intros [= <-]; split_and!; [set_solver|constructor|set_solver|constructor]|].
    intros (-> & _). f_equal. set_solver. }
  rewrite NoDup_cons, Forall_cons. split.
  - intros H. apply bind_Ok in H as ([] & [[Ht Hl]%orb_false_iff Hc]%reject_if_Ok%orb_false_iff & H).
    apply bind_Ok in H as ([] & Hk%reject_if_Ok%bool_decide_eq_false & H).
    apply IH in H as (-> & Hnd & Hfresh & Hall). apply Z.ltb_ge in Hl.
    split_and!; try done; [set_solver| |set_solver].
    intros Hin. specialize (Hfresh k Hin). set_solver.
  - intros (-> & (Hk & Hnd) & Hfresh & (Ht & Hl & Hc) & Hall).
    rewrite Ht, Hc, (proj2 (Z.ltb_ge _ _) Hl). cbn. rewrite bool_decide_eq_false_2 by set_solver. cbn.
    apply IH. split_and!; [set_solver|done| |done]. intros x Hx. specialize (Hfresh x). set_solver.
Qed.

(** A binding is accepted exactly when its prefix is a bounded visible token
    and its change keys are a nonempty list of such tokens without
    repetition; it holds them as a set. *)
Lemma effect_binding_accepted_exactly provider capability prefix keys b :
  OperationEffectBinding_try_new provider capability prefix keys = Ok b ↔
  b = {| eb_provider := provider; eb_observation_capability := capability;
         eb_resource_prefix := prefix; eb_resource_suffix := None;
         eb_change_keys := list_to_set keys |} ∧
  keys ≠ [] ∧ NoDup keys ∧
  Forall (λ k, trim_is_empty k = false ∧ (str_len k ≤ 256)%Z ∧ has_control k = false) (prefix :: keys).
Proof.
  unfold OperationEffectBinding_try_new. rewrite Forall_cons.
  split.
  - intros H. ok_inv. apply insert_change_keys_Ok in H4 as (-> & ? & _ & ?).
    rewrite Z.ltb_ge in *. split_and!; try done; [by rewrite (right_id_L ∅ (∪))|by destruct keys].
  - intros (-> & Hne & Hnd & (Ht & Hl & Hc) & Hall).
    rewrite Ht, Hc, (proj2 (Z.ltb_ge _ _) Hl). destruct keys as [|k keys]; [done|]. cbn -[insert_change_keys].
    replace (insert_change_keys ∅ (k :: keys)) with
      (Ok (list_to_set (k :: keys)) : result OperationEffectBindingError (gset string)); [done|].
    symmetry. apply insert_change_keys_Ok. split_and!; [|done|set_solver|done].
    by rewrite (right_id_L ∅ (∪)).
Qed.

(** Registration keeps every descriptor under its own identifier and never
    replaces one. *)
Lemma registry_register_spec r d r' res :
  OperationRegistry_register r d = (r', res) →
  (∀ id d0, OperationRegistry_descriptor r id = Some d0 →
     OperationRegistry_descriptor r' id = Some d0) ∧
  (res = Ok tt ↔ OperationRegistry_descriptor r (od_id d) = None) ∧
  (res = Ok tt → OperationRegistry_descriptor r' (od_id d) = Some d).
Proof.
  unfold OperationRegistry_register, OperationRegistry_descriptor.
  destruct (or_descriptors r !! od_id d) eqn:E; intros [= <- <-]; cbn.
  - split_and!; [done|naive_solver|done].
  - split_and!; [|naive_solver|by rewrite lookup_insert_eq].
    intros id d0 Hd0. rewrite lookup_insert_ne; congruence.
Qed.
