(* ===== verification/Graph.v ===== *)
(** * linura-observation: observation envelopes

    Models [crates/linura-observation/src/lib.rs]: the values an observer
    reports, the validation and freshness of an envelope, and its evidence
    identifier.  [freshness_window] bounds the window in which evidence is
    current, saturation included; [evidence_id_inj] shows that the textual
    identifier determines what it identifies. *)

From Stdlib Require Import ZArith Lia Ascii DecimalString.
From stdpp Require Import base numbers gmap strings list fin_maps sorting.
From S2P Require Import Prelude Text Fields Core Ordered.

Set Default Goal Selector "!".

Inductive ObservationAuthority := NativeApi | Kernel | Filesystem | SyntheticTest.

Definition ObservationAuthority_as_str (a : ObservationAuthority) : string :=
  match a with
  | NativeApi => "native-api"
  | Kernel => "kernel"
  | Filesystem => "filesystem"
  | SyntheticTest => "synthetic-test"
  end.

Inductive ObservedValue :=
| Text (value : string)
| Bool (value : bool)
| U64 (value : Z)
| I64 (value : Z).

Definition ObservedValue_to_string (v : ObservedValue) : string :=
  match v with
  | Text value => value
  | Bool value => if value then "true" else "false"
  | U64 value => u64_to_string value
  | I64 value => i64_to_string value
  end.

Inductive ProviderAvailability := Available | Degraded | Unavailable.

Definition ProviderAvailability_as_str (a : ProviderAvailability) : string :=
  match a with
  | Available => "available"
  | Degraded => "degraded"
  | Unavailable => "unavailable"
  end.

Record ProviderHealth := {
  ph_provider : ProviderId;
  ph_availability : ProviderAvailability;
  ph_reason : option string;
}.

Inductive FreshnessState := Current | Stale | Future.

Definition FreshnessState_as_str (f : FreshnessState) : string :=
  match f with Current => "current" | Stale => "stale" | Future => "future" end.

#[export] Instance ObservationAuthority_eq_dec : EqDecision ObservationAuthority.
Proof. solve_decision. Defined.
#[export] Instance ObservedValue_eq_dec : EqDecision ObservedValue.
Proof. solve_decision. Defined.
#[export] Instance FreshnessState_eq_dec : EqDecision FreshnessState.
Proof. solve_decision. Defined.

Record ObservationEnvelope := {
  oe_provider : ProviderId;
  oe_resource : ResourceId;
  oe_capability : CapabilityId;
  oe_authority : ObservationAuthority;
  oe_observed_at_unix_ms : Z;
  oe_valid_for_ms : Z;
  oe_sequence : Z;
  oe_attributes : gmap string ObservedValue;
}.

Inductive ObservationValidationError :=
| ProviderMismatch
| ResourceMismatch
| CapabilityMismatch
| MissingTimestamp
| InvalidValidityWindow
| EmptyEvidence
| InvalidAttributeKey
| StaleEvidence
| FutureEvidence.

Definition ObservationValidationError_display (e : ObservationValidationError) : string :=
  match e with
  | ProviderMismatch => "observation provider identity mismatch"
  | ResourceMismatch => "observation resource identity mismatch"
  | CapabilityMismatch => "observation capability identity mismatch"
  | MissingTimestamp => "observation timestamp is missing"
  | InvalidValidityWindow => "observation validity window must be greater than zero"
  | EmptyEvidence => "observation evidence cannot be empty"
  | InvalidAttributeKey => "observation attribute key is invalid"
  | StaleEvidence => "observation evidence is stale"
  | FutureEvidence => "observation timestamp is in the future"
  end.

(** [for key in self.attributes.keys()]. *)
Fixpoint validate_attribute_keys (entries : list (string * ObservedValue))
    : result ObservationValidationError unit :=
  match entries with
  | [] => Ok tt
  | (key, _) :: entries =>
      reject_if (trim_is_empty key || has_control key) InvalidAttributeKey;;
      validate_attribute_keys entries
  end.

Definition ObservationEnvelope_validate (o : ObservationEnvelope) (expected_provider : ProviderId)
    (expected_resource : ResourceId) (expected_capability : CapabilityId)
    : result ObservationValidationError unit :=
  reject_if (negb (bool_decide (oe_provider o = expected_provider))) ProviderMismatch;;
  reject_if (negb (bool_decide (oe_resource o = expected_resource))) ResourceMismatch;;
  reject_if (negb (bool_decide (oe_capability o = expected_capability))) CapabilityMismatch;;
  reject_if (oe_observed_at_unix_ms o =? 0)%Z MissingTimestamp;;
  reject_if (oe_valid_for_ms o =? 0)%Z InvalidValidityWindow;;
  reject_if (bool_decide (oe_attributes o = ∅)) EmptyEvidence;;
  validate_attribute_keys (btree_entries (oe_attributes o)).

Definition freshness_at (o : ObservationEnvelope) (now_unix_ms : Z) : FreshnessState :=
  if (now_unix_ms <? oe_observed_at_unix_ms o)%Z then Future
  else
    let expires_at := u64_saturating_add (oe_observed_at_unix_ms o) (oe_valid_for_ms o) in
    if (now_unix_ms <=? expires_at)%Z then Current else Stale.

Definition require_current (o : ObservationEnvelope) (now_unix_ms : Z)
    : result ObservationValidationError unit :=
  match freshness_at o now_unix_ms with
  | Current => Ok tt
  | Stale => Err StaleEvidence
  | Future => Err FutureEvidence
  end.

(** [{}:{value}:] of the format string: a length-prefixed component. *)
Definition sized (value : string) : string :=
  u64_to_string (str_len value) +:+ ":" +:+ value +:+ ":".

Definition evidence_id (o : ObservationEnvelope) : string :=
  "observation:v1:" +:+ sized (oe_provider o) +:+ sized (oe_resource o)
  +:+ sized (oe_capability o) +:+ u64_to_string (oe_observed_at_unix_ms o) +:+ ":"
  +:+ u64_to_string (oe_sequence o).

(** ** Freshness *)

(** An observation is current at exactly the instants from its timestamp
    to the end of its validity window, the sum saturating at the last
    representable instant; before it is future evidence, after it stale. *)
Theorem freshness_window o now :
  is_u64 now → is_u64 (oe_observed_at_unix_ms o) → is_u64 (oe_valid_for_ms o) →
  let start := oe_observed_at_unix_ms o in
  let stop := (start + oe_valid_for_ms o)%Z in
  (require_current o now = Ok tt ↔ (start ≤ now ≤ stop)%Z) ∧
  (require_current o now = Err FutureEvidence ↔ (now < start)%Z) ∧
  (require_current o now = Err StaleEvidence ↔ (stop < now)%Z) ∧
  (u64_max < stop → start ≤ now → require_current o now = Ok tt)%Z.
Proof.
  unfold is_u64, require_current, freshness_at, u64_saturating_add. intros Hn Ho Hv. cbv zeta.
  destruct (Z.ltb_spec now (oe_observed_at_unix_ms o)); cbn; [split_and!; naive_solver lia|].
  destruct (Z.leb_spec now (Z.min (oe_observed_at_unix_ms o + oe_valid_for_ms o) u64_max));
    split_and!; naive_solver lia.
Qed.

(** ** Evidence identifiers *)

Lemma all_digits_free s : all_digits s = true → free ":"%char s.
Proof.
  induction s as [|a s IH]; [done|]. rewrite all_digits_cons. intros [Ha Hs]%andb_prop.
  apply free_cons. split; [|auto]. intros ->. vm_compute in Ha. done.
Qed.

Lemma u64_to_string_free x : free ":"%char (u64_to_string x).
Proof.
  apply all_digits_free. unfold u64_to_string. pose proof (N_to_uint_nonnil (Z.to_N x)).
  destruct (N.to_uint (Z.to_N x)) as [|d|d|d|d|d|d|d|d|d|d]; [done|..];
    cbn [NilZero.string_of_uint]; apply uint_all_digits.
Qed.

Lemma colon_field_inj a b r s :
  free ":"%char a → free ":"%char b → a +:+ ":" +:+ r = b +:+ ":" +:+ s → a = b ∧ r = s.
Proof.
  intros Ha Hb H. change (":" +:+ r) with (String ":"%char r) in H. change (":" +:+ s) with (String ":"%char s) in H.
  apply (f_equal (split_once ":"%char)) in H. rewrite !split_once_app in H by done. naive_solver.
Qed.

Lemma string_app_length_inj (a b r s : string) :
  String.length a = String.length b → a +:+ r = b +:+ s → a = b ∧ r = s.
Proof.
  revert b. induction a as [|x a IH]; intros [|y b] Hl H; try done.
  rewrite !string_app_cons in H. injection Hl as Hl. injection H as -> H.
  destruct (IH b Hl H) as [-> ->]. done.
Qed.

Lemma sized_inj a b r s : sized a +:+ r = sized b +:+ s → a = b ∧ r = s.
Proof.
  unfold sized. rewrite !string_app_assoc. intros H.
  apply colon_field_inj in H as [Hn H]; [|apply u64_to_string_free..].
  apply u64_to_string_inj in Hn; [|unfold str_len; lia..]. unfold str_len in Hn.
  apply string_app_length_inj in H as [-> H]; [|lia]. split; [done|].
  by apply string_app_inj_l in H.
Qed.

(** The evidence identifier of an observation determines its provider,
    resource, capability, timestamp and sequence number, whatever punctuation
    the identifiers contain. *)
Theorem evidence_id_inj o1 o2
    (Ht1 : is_u64 (oe_observed_at_unix_ms o1)) (Ht2 : is_u64 (oe_observed_at_unix_ms o2))
    (Hs1 : is_u64 (oe_sequence o1)) (Hs2 : is_u64 (oe_sequence o2))
    (He : evidence_id o1 = evidence_id o2) :
  oe_provider o1 = oe_provider o2 ∧ oe_resource o1 = oe_resource o2 ∧
  oe_capability o1 = oe_capability o2 ∧
  oe_observed_at_unix_ms o1 = oe_observed_at_unix_ms o2 ∧ oe_sequence o1 = oe_sequence o2.
Proof.
  unfold evidence_id in He. apply string_app_inj_l in He.
  apply sized_inj in He as [? He]. apply sized_inj in He as [? He]. apply sized_inj in He as [? He].
  apply colon_field_inj in He as [Ht Hs]; [|apply u64_to_string_free..].
  apply u64_to_string_inj in Ht; [|unfold is_u64 in *; lia..].
  apply u64_to_string_inj in Hs; [|unfold is_u64 in *; lia..]. done.
Qed.

Lemma validate_attribute_keys_Ok l :
  validate_attribute_keys l = Ok tt ↔
  Forall (λ kv, trim_is_empty (fst kv) = false ∧ has_control (fst kv) = false) l.
Proof.
  induction l as [|[k v] l IH]; cbn; [done|]. rewrite Forall_cons, <- IH. cbn.
  destruct (trim_is_empty k), (has_control k); cbn; (split; [intros|intros [[? ?] ?]]; done).
Qed.

(** An accepted envelope is about what was asked for and carries a timestamp,
    a window and visible attribute names. *)
Lemma observation_validate_Ok o p r c :
  ObservationEnvelope_validate o p r c = Ok tt ↔
  oe_provider o = p ∧ oe_resource o = r ∧ oe_capability o = c ∧
  oe_observed_at_unix_ms o ≠ 0%Z ∧ oe_valid_for_ms o ≠ 0%Z ∧ oe_attributes o ≠ ∅ ∧
  ∀ k, is_Some (oe_attributes o !! k) → trim_is_empty k = false ∧ has_control k = false.
Proof.
  unfold ObservationEnvelope_validate.
  destruct (decide (oe_provider o = p)) as [Hp|Hp]; [rewrite (bool_decide_eq_true_2 _ Hp)|
    rewrite (bool_decide_eq_false_2 _ Hp); naive_solver].
  destruct (decide (oe_resource o = r)) as [Hr|Hr]; [rewrite (bool_decide_eq_true_2 _ Hr)|
    rewrite (bool_decide_eq_false_2 _ Hr); naive_solver].
  destruct (decide (oe_capability o = c)) as [Hc|Hc]; [rewrite (bool_decide_eq_true_2 _ Hc)|
    rewrite (bool_decide_eq_false_2 _ Hc); naive_solver].
  destruct (Z.eqb_spec (oe_observed_at_unix_ms o) 0); [naive_solver|].
  destruct (Z.eqb_spec (oe_valid_for_ms o) 0); [naive_solver|]. cbn.
  case_bool_decide as Hne; [naive_solver|]. cbn. rewrite validate_attribute_keys_Ok, Forall_forall. split.
  - intros H. split_and!; try done. intros k [v Hv]. apply (H (k, v)). by apply elem_of_btree_entries.
  - intros (_ & _ & _ & _ & _ & _ & H) [k v] Hkv%elem_of_btree_entries. apply H. by eexists.
Qed.

(** * linura-graph: the causal system graph

    Models [crates/linura-graph/src/lib.rs]: nodes and typed edges, the
    recording of observations as evidence and as current state, and the
    impact of retiring an origin. *)

From Stdlib Require Import ZArith Lia.

Inductive NodeId :=
| NIntent (id : IntentId)
| NSetup (id : SetupId)
| NRequirement (id : RequirementId)
| NCapability (id : CapabilityId)
| NProvider (id : ProviderId)
| NResource (id : ResourceId)
| NEvidence (id : string)
| NWorkflow (id : string).

#[export] Instance NodeId_eq_dec : EqDecision NodeId.
Proof. solve_decision. Defined.

(** The variant index and the payload, which the derived order compares. *)
Definition NodeId_key (n : NodeId) : nat * string :=
  match n with
  | NIntent s => (0, s) | NSetup s => (1, s) | NRequirement s => (2, s) | NCapability s => (3, s)
  | NProvider s => (4, s) | NResource s => (5, s) | NEvidence s => (6, s) | NWorkflow s => (7, s)
  end%nat.

Definition NodeId_of_key (k : nat * string) : option NodeId :=
  match k with
  | (0, s) => Some (NIntent s) | (1, s) => Some (NSetup s) | (2, s) => Some (NRequirement s)
  | (3, s) => Some (NCapability s) | (4, s) => Some (NProvider s) | (5, s) => Some (NResource s)
  | (6, s) => Some (NEvidence s) | (7, s) => Some (NWorkflow s) | _ => None
  end%nat.

#[export] Instance NodeId_countable : Countable NodeId.
Proof. refine (inj_countable NodeId_key NodeId_of_key _). by intros []. Defined.

Record Node := {
  node_id : NodeId;
  node_attributes : gmap string string;
}.

Inductive EdgeKind :=
| EdgeRequires | EdgeProvides | EdgeConflicts | EdgeReplaces | EdgeRecommends | EdgeOptional
| EdgeOwns | EdgeSharedBy | EdgeDerivedFrom | EdgeRealizes | EdgeObservedBy | EdgeEvidenceFor.

#[export] Instance EdgeKind_eq_dec : EqDecision EdgeKind.
Proof. solve_decision. Defined.

Record Edge := {
  edge_from : NodeId;
  edge_to : NodeId;
  edge_kind : EdgeKind;
  edge_reason : string;
}.

#[export] Instance Edge_eq_dec : EqDecision Edge.
Proof. solve_decision. Defined.

Inductive ObservationRecordOutcome := CurrentStateUpdated | HistoricalEvidenceRetained.

Record SystemGraph := {
  graph_nodes : gmap NodeId Node;
  graph_edges : list Edge;
}.

Definition SystemGraph_default : SystemGraph := {| graph_nodes := ∅; graph_edges := [] |}.

Record RemovalImpact := {
  ri_removable : gset NodeId;
  ri_retained_shared : gset NodeId;
  ri_conflicts : list Edge;
}.

Definition RemovalImpact_default : RemovalImpact :=
  {| ri_removable := ∅; ri_retained_shared := ∅; ri_conflicts := [] |}.

Definition upsert_node (g : SystemGraph) (node : Node) : SystemGraph :=
  {| graph_nodes := <[node_id node := node]> (graph_nodes g); graph_edges := graph_edges g |}.

Definition remove_node (g : SystemGraph) (id : NodeId) : SystemGraph * option Node :=
  let removed := graph_nodes g !! id in
  ({| graph_nodes := delete id (graph_nodes g);
      graph_edges :=
        match removed with
        | Some _ => filter (λ edge, edge_from edge ≠ id ∧ edge_to edge ≠ id) (graph_edges g)
        | None => graph_edges g
        end |}, removed).

Definition graph_node (g : SystemGraph) (id : NodeId) : option Node := graph_nodes g !! id.

Definition add_edge (g : SystemGraph) (edge : Edge) : SystemGraph :=
  {| graph_nodes := graph_nodes g; graph_edges := push_absent (graph_edges g) edge |}.

Definition observation_is_newer (current : Node) (incoming : ObservationEnvelope) : bool :=
  let current_time := node_attributes current !! "observed_at_unix_ms" ≫= u64_parse in
  let current_sequence := node_attributes current !! "sequence" ≫= u64_parse in
  let current_provider := node_attributes current !! "provider" in
  match current_sequence with
  | Some sequence =>
      if bool_decide (current_provider = Some (oe_provider incoming))
      then (sequence <? oe_sequence incoming)%Z
      else
        match current_time with
        | Some time =>
            (time <? oe_observed_at_unix_ms incoming)%Z
            || (time =? oe_observed_at_unix_ms incoming)%Z && (sequence <? oe_sequence incoming)%Z
        | None => true
        end
  | None => true
  end.

Definition provider_node (o : ObservationEnvelope) : Node :=
  {| node_id := NProvider (oe_provider o);
     node_attributes := list_to_map [("kind", "provider")] |}.

Definition capability_node (o : ObservationEnvelope) : Node :=
  {| node_id := NCapability (oe_capability o);
     node_attributes := list_to_map [("kind", "capability")] |}.

Definition evidence_node (o : ObservationEnvelope) (freshness : FreshnessState) : Node :=
  {| node_id := NEvidence (evidence_id o);
     node_attributes := list_to_map
       [("kind", "observation-evidence"); ("provider", oe_provider o);
        ("resource", oe_resource o); ("capability", oe_capability o);
        ("authority", ObservationAuthority_as_str (oe_authority o));
        ("observed_at_unix_ms", u64_to_string (oe_observed_at_unix_ms o));
        ("sequence", u64_to_string (oe_sequence o));
        ("freshness", FreshnessState_as_str freshness)] |}.

(** [resource_attributes] before the observed attributes are added. *)
Definition resource_base (o : ObservationEnvelope) (freshness : FreshnessState)
    : gmap string string :=
  list_to_map
    [("kind", "resource"); ("provider", oe_provider o); ("capability", oe_capability o);
     ("observed_at_unix_ms", u64_to_string (oe_observed_at_unix_ms o));
     ("sequence", u64_to_string (oe_sequence o));
     ("freshness", FreshnessState_as_str freshness);
     ("authority", ObservationAuthority_as_str (oe_authority o));
     ("evidence_id", evidence_id o)].

Definition insert_observed (m : gmap string string) (kv : string * ObservedValue)
    : gmap string string :=
  <["observed." +:+ fst kv := ObservedValue_to_string (snd kv)]> m.

Definition resource_node (o : ObservationEnvelope) (freshness : FreshnessState) : Node :=
  {| node_id := NResource (oe_resource o);
     node_attributes :=
       foldl insert_observed (resource_base o freshness) (btree_entries (oe_attributes o)) |}.

Definition unobserved_resource_node (o : ObservationEnvelope) : Node :=
  {| node_id := NResource (oe_resource o);
     node_attributes := list_to_map [("kind", "resource")] |}.

Definition observation_edges (o : ObservationEnvelope) : list Edge :=
  let provider := NProvider (oe_provider o) in
  let resource := NResource (oe_resource o) in
  let capability := NCapability (oe_capability o) in
  let evidence := NEvidence (evidence_id o) in
  [{| edge_from := provider; edge_to := capability; edge_kind := EdgeProvides;
      edge_reason := "provider declares observation capability" |};
   {| edge_from := resource; edge_to := provider; edge_kind := EdgeObservedBy;
      edge_reason := "resource has evidence from this authoritative provider" |};
   {| edge_from := capability; edge_to := resource; edge_kind := EdgeRealizes;
      edge_reason := "observation capability realizes this resource view" |};
   {| edge_from := evidence; edge_to := resource; edge_kind := EdgeEvidenceFor;
      edge_reason := "observation envelope is evidence for the resource state" |}].

(** The nodes and edges recorded for every observation. *)
Definition record_evidence (g : SystemGraph) (o : ObservationEnvelope)
    (freshness : FreshnessState) : SystemGraph :=
  let g := upsert_node g (provider_node o) in
  let g := upsert_node g (capability_node o) in
  let g := upsert_node g (evidence_node o freshness) in
  foldl add_edge g (observation_edges o).

Definition should_update (g : SystemGraph) (o : ObservationEnvelope)
    (freshness : FreshnessState) : bool :=
  bool_decide (freshness = Current)
  && match graph_nodes g !! NResource (oe_resource o) with
     | None => true
     | Some current => observation_is_newer current o
     end.

Definition record_observation (g : SystemGraph) (o : ObservationEnvelope)
    (freshness : FreshnessState) : SystemGraph * ObservationRecordOutcome :=
  let g := record_evidence g o freshness in
  if should_update g o freshness then
    (upsert_node g (resource_node o freshness), CurrentStateUpdated)
  else
    (match graph_nodes g !! NResource (oe_resource o) with
     | Some _ => g
     | None => upsert_node g (unobserved_resource_node o)
     end, HistoricalEvidenceRetained).

Definition conflicts_for (g : SystemGraph) (node : NodeId) : list Edge :=
  filter (λ edge, edge_kind edge = EdgeConflicts ∧ (edge_from edge = node ∨ edge_to edge = node))
    (graph_edges g).

Definition causal_reason (k : EdgeKind) : bool :=
  match k with
  | EdgeDerivedFrom | EdgeRealizes | EdgeRequires | EdgeOwns | EdgeEvidenceFor => true
  | _ => false
  end.

Definition reasons_for (g : SystemGraph) (node : NodeId) : list Edge :=
  filter (λ edge, edge_to edge = node ∧ causal_reason (edge_kind edge) = true) (graph_edges g).

Definition ownership (k : EdgeKind) : bool :=
  match k with EdgeDerivedFrom | EdgeOwns | EdgeRequires | EdgeRealizes => true | _ => false end.

(** [origins_by_target.entry(edge.to).or_default().insert(edge.from)]. *)
Definition insert_origin (m : gmap NodeId (gset NodeId)) (edge : Edge) : gmap NodeId (gset NodeId) :=
  if ownership (edge_kind edge)
  then <[edge_to edge := {[edge_from edge]} ∪ default ∅ (m !! edge_to edge)]> m
  else m.

Definition origins_by_target (g : SystemGraph) : gmap NodeId (gset NodeId) :=
  foldl insert_origin ∅ (graph_edges g).

Definition classify_target (retired_origin : NodeId) (impact : RemovalImpact)
    (entry : NodeId * gset NodeId) : RemovalImpact :=
  let '(target, origins) := entry in
  if decide (retired_origin ∈ origins) then
    if (size origins =? 1)%nat
    then {| ri_removable := {[target]} ∪ ri_removable impact;
            ri_retained_shared := ri_retained_shared impact;
            ri_conflicts := ri_conflicts impact |}
    else {| ri_removable := ri_removable impact;
            ri_retained_shared := {[target]} ∪ ri_retained_shared impact;
            ri_conflicts := ri_conflicts impact |}
  else impact.

(** The two sets do not depend on the order in which targets are visited. *)
Definition removal_impact (g : SystemGraph) (retired_origin : NodeId) : RemovalImpact :=
  let impact := foldl (classify_target retired_origin) RemovalImpact_default
                  (map_to_list (origins_by_target g)) in
  {| ri_removable := ri_removable impact; ri_retained_shared := ri_retained_shared impact;
     ri_conflicts := conflicts_for g retired_origin |}.
