(* ===== verification/GraphFacts.v ===== *)
(** * Properties of the system graph

    The graph keeps no dangling or repeated edge; with one authoritative
    provider per resource the current state is the newest current
    observation, whatever arrives late, stale or twice; the removal impact is
    exact. *)

From Stdlib Require Import ZArith Lia.
From stdpp Require Import base numbers gmap strings list fin_maps fin_map_dom sorting.
From S2P Require Import Prelude Text Fields Core Ordered Graph.

Set Default Goal Selector "!".

#[local] Arguments record_evidence : simpl never.
#[local] Arguments record_observation : simpl never.
#[local] Arguments should_update : simpl never.
#[local] Arguments resource_node : simpl never.

(** ** Well-formed graphs *)

Record graph_ok (g : SystemGraph) : Prop := {
  ok_endpoints : ∀ e, e ∈ graph_edges g →
    is_Some (graph_nodes g !! edge_from e) ∧ is_Some (graph_nodes g !! edge_to e);
  ok_edges_nodup : NoDup (graph_edges g);
  ok_ids : ∀ id n, graph_nodes g !! id = Some n → node_id n = id;
}.

Lemma graph_ok_default : graph_ok SystemGraph_default.
Proof. constructor; cbn; [set_solver|constructor|]. intros id n. by rewrite lookup_empty. Qed.

Lemma upsert_node_ok g n : graph_ok g → graph_ok (upsert_node g n).
Proof.
  intros [He Hn Hi]. constructor; cbn; [|done|].
  - intros e Hin. rewrite !lookup_insert_is_Some'. naive_solver.
  - intros id m. rewrite lookup_insert_Some. naive_solver.
Qed.

Lemma add_edge_ok g e :
  is_Some (graph_nodes g !! edge_from e) → is_Some (graph_nodes g !! edge_to e) →
  graph_ok g → graph_ok (add_edge g e).
Proof.
  intros Hf Ht [He Hn Hi]. constructor; cbn; [|by apply push_absent_NoDup|done].
  intros e' [?| ->]%elem_of_push_absent; auto.
Qed.

Lemma remove_node_ok g id : graph_ok g → graph_ok (fst (remove_node g id)).
Proof.
  intros [He Hn Hi]. unfold remove_node. constructor; cbn.
  - intros e Hin. destruct (graph_nodes g !! id) as [n|] eqn:Hid.
    + apply list_elem_of_filter in Hin as [[Hf Ht] Hin]. rewrite !lookup_delete_ne by congruence. auto.
    + assert (edge_from e ≠ id ∧ edge_to e ≠ id) as [? ?].
      { destruct (He e Hin) as [[? ?] [? ?]]. split; congruence. }
      rewrite !lookup_delete_ne by congruence. auto.
  - destruct (graph_nodes g !! id); [by apply NoDup_filter|done].
  - intros i n [_ H]%lookup_delete_Some. auto.
Qed.

Lemma foldl_add_edge_nodes g l : graph_nodes (foldl add_edge g l) = graph_nodes g.
Proof. revert g. induction l as [|e l IH]; intros g; cbn; [done|]. by rewrite IH. Qed.

Lemma record_evidence_nodes g o f :
  graph_nodes (record_evidence g o f) =
  <[NEvidence (evidence_id o) := evidence_node o f]>
    (<[NCapability (oe_capability o) := capability_node o]>
       (<[NProvider (oe_provider o) := provider_node o]> (graph_nodes g))).
Proof. unfold record_evidence. by rewrite foldl_add_edge_nodes. Qed.

Lemma record_observation_edges g o f :
  graph_edges (fst (record_observation g o f)) = graph_edges (record_evidence g o f).
Proof.
  unfold record_observation. destruct (should_update _ _ _); [done|].
  by destruct (graph_nodes _ !! NResource _).
Qed.

(** The node of the observed resource after a recording. *)
Lemma record_observation_resource g o f :
  graph_nodes (fst (record_observation g o f)) !! NResource (oe_resource o) =
  Some (if should_update g o f then resource_node o f
        else default (unobserved_resource_node o) (graph_nodes g !! NResource (oe_resource o))).
Proof.
  assert (should_update (record_evidence g o f) o f = should_update g o f) as Hs.
  { unfold should_update. by rewrite record_evidence_nodes, !lookup_insert_ne by done. }
  unfold record_observation. rewrite Hs. destruct (should_update g o f); cbn.
  { by rewrite lookup_insert_eq. }
  destruct (graph_nodes (record_evidence g o f) !! NResource (oe_resource o)) as [n|] eqn:E; cbn;
    rewrite ?lookup_insert_eq; rewrite record_evidence_nodes, !lookup_insert_ne in E by done;
    rewrite E; [|done].
  rewrite record_evidence_nodes, !lookup_insert_ne by done. done.
Qed.

(** Recording touches no other resource, intent, setup, requirement or
    workflow, and keeps every evidence node. *)
Lemma record_observation_other g o f id :
  id ≠ NResource (oe_resource o) → id ≠ NProvider (oe_provider o) →
  id ≠ NCapability (oe_capability o) → id ≠ NEvidence (evidence_id o) →
  graph_nodes (fst (record_observation g o f)) !! id = graph_nodes g !! id.
Proof.
  intros Hr Hp Hc He. unfold record_observation.
  destruct (should_update _ _ _); [|destruct (graph_nodes _ !! NResource _)]; cbn;
    rewrite ?lookup_insert_ne by done; rewrite record_evidence_nodes, !lookup_insert_ne by done; done.
Qed.

Lemma record_observation_is_Some g o f id :
  is_Some (graph_nodes g !! id) ∨ id = NResource (oe_resource o) ∨ id = NProvider (oe_provider o)
    ∨ id = NCapability (oe_capability o) ∨ id = NEvidence (evidence_id o) →
  is_Some (graph_nodes (fst (record_observation g o f)) !! id).
Proof.
  intros H. destruct (decide (id = NResource (oe_resource o))) as [->|Hr].
  { rewrite record_observation_resource. by eexists. }
  assert (is_Some (graph_nodes (record_evidence g o f) !! id)) as Hs.
  { rewrite record_evidence_nodes, !lookup_insert_is_Some'. naive_solver. }
  unfold record_observation.
  destruct (should_update _ _ _); [|destruct (graph_nodes _ !! NResource _)]; cbn;
    rewrite ?lookup_insert_ne by done; done.
Qed.

Lemma elem_of_foldl_add_edge g l e :
  e ∈ graph_edges (foldl add_edge g l) ↔ e ∈ graph_edges g ∨ e ∈ l.
Proof.
  revert g. induction l as [|x l IH]; intros g; cbn; [set_solver|].
  rewrite IH. cbn. rewrite elem_of_push_absent. set_solver.
Qed.

Lemma foldl_add_edge_NoDup g l :
  NoDup (graph_edges g) → NoDup (graph_edges (foldl add_edge g l)).
Proof.
  revert g. induction l as [|x l IH]; intros g Hg; cbn; [done|].
  apply IH. by apply push_absent_NoDup.
Qed.

Lemma record_observation_ok g o f : graph_ok g → graph_ok (fst (record_observation g o f)).
Proof.
  intros [He Hn Hi]. constructor.
  - intros e. rewrite record_observation_edges. unfold record_evidence.
    rewrite elem_of_foldl_add_edge. cbn [upsert_node graph_edges]. intros [Hin|Hin].
    + destruct (He e Hin). split; apply record_observation_is_Some; auto.
    + unfold observation_edges in Hin.
      repeat (apply elem_of_cons in Hin as [->|Hin]; [split; apply record_observation_is_Some; auto|]).
      by apply not_elem_of_nil in Hin.
  - rewrite record_observation_edges. by apply foldl_add_edge_NoDup.
  - enough (∀ id n, graph_nodes (record_evidence g o f) !! id = Some n → node_id n = id) as Hev.
    { intros id n. unfold record_observation.
      destruct (should_update _ _ _); [|destruct (graph_nodes _ !! NResource _)]; cbn; [|auto|];
        rewrite lookup_insert_Some; naive_solver. }
    intros id n. rewrite record_evidence_nodes, !lookup_insert_Some. naive_solver.
Qed.

(** The mutations of a graph; an edge is added between existing nodes. *)
Inductive graph_step : SystemGraph → SystemGraph → Prop :=
| step_upsert g n : graph_step g (upsert_node g n)
| step_remove g id : graph_step g (fst (remove_node g id))
| step_add_edge g e :
    is_Some (graph_node g (edge_from e)) → is_Some (graph_node g (edge_to e)) →
    graph_step g (add_edge g e)
| step_record g o f : graph_step g (fst (record_observation g o f)).

Lemma graph_steps_ok g g' : rtc graph_step g g' → graph_ok g → graph_ok g'.
Proof.
  induction 1 as [|g1 g2 g3 Hs _ IH]; [done|]. intros Hok. apply IH. clear IH.
  destruct Hs; [by apply upsert_node_ok|by apply remove_node_ok|by apply add_edge_ok|
                by apply record_observation_ok].
Qed.

(** However the graph is built from node upserts and removals, recorded
    observations and edges between existing nodes, every edge joins nodes of
    the graph, no edge is stored twice, and every node is stored under its
    own identifier; eviction leaves no dangling causal edge. *)
Theorem graph_has_no_dangling_edges g (Hg : rtc graph_step SystemGraph_default g) :
  (∀ e, e ∈ graph_edges g →
     is_Some (graph_node g (edge_from e)) ∧ is_Some (graph_node g (edge_to e))) ∧
  NoDup (graph_edges g) ∧
  (∀ id n, graph_node g id = Some n → node_id n = id) ∧
  (∀ id e, e ∈ graph_edges (fst (remove_node g id)) → edge_from e ≠ id ∧ edge_to e ≠ id).
Proof.
  assert (graph_ok g) as [He Hn Hi] by (by eapply graph_steps_ok, graph_ok_default).
  split_and!; [done..|]. intros id e. unfold remove_node. cbn.
  destruct (graph_nodes g !! id) as [n|] eqn:Hid.
  - by intros [? _]%list_elem_of_filter.
  - intros Hin%He. destruct Hin as [[? ?] [? ?]]. split; congruence.
Qed.

(** ** Current state *)

Lemma foldl_insert_observed_other m l k :
  strip_prefix "observed." k = None → foldl insert_observed m l !! k = m !! k.
Proof.
  intros Hk. revert m. induction l as [|[a v] l IH]; intros m; [done|]. cbn [foldl]. rewrite IH.
  unfold insert_observed. rewrite lookup_insert_ne; [done|]. cbn [fst]. intros <-.
  by rewrite strip_prefix_app in Hk.
Qed.

Lemma foldl_insert_observed_keys m l k v :
  NoDup l.*1 → (k, v) ∈ l →
  foldl insert_observed m l !! ("observed." +:+ k) = Some (ObservedValue_to_string v).
Proof.
  revert m. induction l as [|[a w] l IH]; intros m; [set_solver|].
  cbn [foldl fmap list_fmap fst]. intros [Hn Hnd]%NoDup_cons [[= -> ->]|Hin]%elem_of_cons; [|by apply IH].
  assert (∀ l m', a ∉ l.*1 → foldl insert_observed m' l !! ("observed." +:+ a)
                             = m' !! ("observed." +:+ a)) as Hskip.
  { clear. induction l as [|[b v] l IH]; intros m' Ha; [done|]. cbn [foldl]. rewrite IH by set_solver.
    unfold insert_observed. rewrite lookup_insert_ne; [done|]. cbn [fst].
    intros ->%string_app_inj_l. set_solver. }
  rewrite Hskip by done. unfold insert_observed. cbn [fst snd]. by rewrite lookup_insert_eq.
Qed.

Lemma foldl_insert_observed_absent m l k :
  k ∉ l.*1 → m !! ("observed." +:+ k) = None →
  foldl insert_observed m l !! ("observed." +:+ k) = None.
Proof.
  revert m. induction l as [|[b v] l IH]; intros m Ha Hm; [done|]. cbn [foldl]. apply IH; [set_solver|].
  unfold insert_observed. rewrite lookup_insert_ne; [done|]. cbn [fst].
  intros ->%string_app_inj_l. set_solver.
Qed.

(** The current-state node carries the observed attributes, and only these,
    under the prefix [observed.]. *)
Lemma resource_node_observed o f k :
  node_attributes (resource_node o f) !! ("observed." +:+ k)
  = ObservedValue_to_string <$> oe_attributes o !! k.
Proof.
  unfold resource_node. cbn [node_attributes].
  destruct (oe_attributes o !! k) as [v|] eqn:E; cbn [fmap option_fmap option_map].
  - apply foldl_insert_observed_keys; [apply btree_entries_NoDup|]. by apply elem_of_btree_entries.
  - apply foldl_insert_observed_absent.
    + intros ([k' v] & -> & Hin)%list_elem_of_fmap. apply elem_of_btree_entries in Hin. naive_solver.
    + unfold resource_base. cbn [list_to_map foldr curry fst snd]. by rewrite !lookup_insert_ne by done.
Qed.

Lemma resource_node_base o f k :
  strip_prefix "observed." k = None →
  node_attributes (resource_node o f) !! k = resource_base o f !! k.
Proof. intros Hk. unfold resource_node. cbn [node_attributes]. by apply foldl_insert_observed_other. Qed.

Lemma u64_parse_to_string x : is_u64 x → u64_parse (u64_to_string x) = Some x.
Proof. intros Hx. by apply (proj2 (u64_parse_canonical (u64_to_string x) x)). Qed.

(** Against the current state of the same provider the sequence decides. *)
Lemma newer_same_provider c o f :
  is_u64 (oe_sequence c) → oe_provider c = oe_provider o →
  observation_is_newer (resource_node c f) o = (oe_sequence c <? oe_sequence o)%Z.
Proof.
  intros Hc Hp. unfold observation_is_newer. rewrite !resource_node_base by done.
  change (resource_base c f !! "sequence") with (Some (u64_to_string (oe_sequence c))).
  change (resource_base c f !! "provider") with (Some (oe_provider c)).
  cbn [mbind option_bind]. rewrite u64_parse_to_string by done.
  by rewrite bool_decide_eq_true_2 by congruence.
Qed.

Lemma newer_unobserved c o : observation_is_newer (unobserved_resource_node c) o = true.
Proof. done. Qed.

(** Recording a sequence of observations. *)
Definition record_all (g : SystemGraph) (l : list (ObservationEnvelope * FreshnessState))
    : SystemGraph :=
  foldl (λ g ob, fst (record_observation g (fst ob) (snd ob))) g l.

(** [c] is the newest current observation of [r] in [l]. *)
Definition newest (r : ResourceId) (l : list (ObservationEnvelope * FreshnessState))
    (c : ObservationEnvelope) : Prop :=
  (c, Current) ∈ l ∧ oe_resource c = r ∧
  ∀ o, (o, Current) ∈ l → oe_resource o = r → (oe_sequence o ≤ oe_sequence c)%Z.

(** What the node of [r] is after [l] has been recorded. *)
Definition resource_state (g : SystemGraph) (r : ResourceId)
    (l : list (ObservationEnvelope * FreshnessState)) : Prop :=
  (∃ c, newest r l c ∧ graph_nodes g !! NResource r = Some (resource_node c Current)) ∨
  (∀ o, (o, Current) ∈ l → oe_resource o ≠ r) ∧
  ∀ n, graph_nodes g !! NResource r = Some n →
       ∃ c, n = unobserved_resource_node c.

Lemma resource_state_other g r l o f :
  oe_resource o ≠ r → resource_state g r l →
  resource_state (fst (record_observation g o f)) r (l ++ [(o, f)]).
Proof.
  intros Hr. unfold resource_state, newest. rewrite record_observation_other by naive_solver.
  setoid_rewrite elem_of_app. setoid_rewrite list_elem_of_singleton.
  intros [(c & (Hin & Hc & Hmax) & Hn)|[Hnone Hn]]; [left|right].
  - exists c. split_and!; [auto|done| |done]. intros o' [Ho'|[= -> _]] Hro'; [auto|done].
  - split; [|done]. intros o' [Ho'|[= -> _]]; auto.
Qed.

Lemma resource_state_same g r l p o f :
  oe_resource o = r → oe_provider o = p → is_u64 (oe_sequence o) →
  (∀ c, (c, Current) ∈ l → oe_resource c = r → is_u64 (oe_sequence c) ∧ oe_provider c = p) →
  resource_state g r l →
  resource_state (fst (record_observation g o f)) r (l ++ [(o, f)]).
Proof.
  intros Hr Hp Ho Hl. unfold resource_state, newest.
  pose proof (record_observation_resource g o f) as Hres. unfold should_update in Hres.
  rewrite Hr in Hres. rewrite Hres. clear Hres.
  setoid_rewrite elem_of_app. setoid_rewrite list_elem_of_singleton.
  intros [(c & (Hin & Hc & Hmax) & Hn)|[Hnone Hn]].
  - left. rewrite Hn. destruct (Hl c Hin Hc) as [Hcs Hcp]. rewrite newer_same_provider by congruence.
    destruct (decide (f = Current)) as [->|Hf];
      [rewrite bool_decide_eq_true_2 by done|rewrite bool_decide_eq_false_2 by done]; cbn.
    + destruct (Z.ltb_spec (oe_sequence c) (oe_sequence o)).
      * exists o. split_and!; [auto|done| |done]. intros o' [Ho'|[= ->]] Hro'; [|lia].
        specialize (Hmax o' Ho' Hro'). lia.
      * exists c. split_and!; [auto|done| |done]. intros o' [Ho'|[= ->]] Hro'; [auto|lia].
    + exists c. split_and!; [auto|done| |done]. intros o' [Ho'|[= -> Hx]] Hro'; [auto|by subst].
  - assert (match graph_nodes g !! NResource r with
            | None => true | Some current => observation_is_newer current o end = true) as ->.
    { destruct (graph_nodes g !! NResource r) as [n|] eqn:E; [|done].
      destruct (Hn n eq_refl) as [c' ->]. apply newer_unobserved. }
    destruct (decide (f = Current)) as [->|Hf];
      [rewrite bool_decide_eq_true_2 by done|rewrite bool_decide_eq_false_2 by done]; cbn.
    + left. exists o. split_and!; [auto|done| |done]. intros o' [Ho'|[= ->]] Hro'; [|lia].
      by destruct (Hnone o' Ho').
    + right. split; [intros o' [Ho'|[= -> Hx]]; [auto|by subst]|]. intros n [= <-].
      destruct (graph_nodes g !! NResource r) as [n|] eqn:E; [by apply Hn|by exists o].
Qed.

Lemma record_all_state g r p l :
  graph_nodes g !! NResource r = None →
  (∀ o f, (o, f) ∈ l → oe_resource o = r → is_u64 (oe_sequence o) ∧ oe_provider o = p) →
  resource_state (record_all g l) r l.
Proof.
  intros Hg. induction l as [|[o f] l IH] using rev_ind; intros Hl.
  { right. split; [set_solver|]. cbn. intros n. by rewrite Hg. }
  unfold record_all. rewrite foldl_app. cbn [foldl fst snd].
  assert (resource_state (record_all g l) r l) as Hst.
  { apply IH. intros o' f' Ho'. apply (Hl o' f'), elem_of_app. by left. }
  destruct (decide (oe_resource o = r)) as [Hr|Hr]; [|by apply resource_state_other].
  destruct (Hl o f) as [Hu Hp]; [apply elem_of_app; right; by apply list_elem_of_singleton|done|].
  apply (resource_state_same _ r l p); try done.
  intros c Hc. apply (Hl c Current), elem_of_app. by left.
Qed.

(** With one authoritative provider for a resource, recording any
    sequence of observations, reordered, repeated, stale or mixed with those
    of other resources, leaves as the current state of the resource the
    current observation with the highest sequence number: late evidence never
    makes the state regress. *)
Theorem newest_observation_is_current g r p l
    (Hnew : graph_node g (NResource r) = None)
    (Hone : ∀ o f, (o, f) ∈ l → oe_resource o = r → is_u64 (oe_sequence o) ∧ oe_provider o = p)
    (Hseen : ∃ o, (o, Current) ∈ l ∧ oe_resource o = r) :
  ∃ o n, (o, Current) ∈ l ∧ oe_resource o = r ∧
    (∀ o', (o', Current) ∈ l → oe_resource o' = r → (oe_sequence o' ≤ oe_sequence o)%Z) ∧
    graph_node (record_all g l) (NResource r) = Some n ∧
    node_attributes n !! "evidence_id" = Some (evidence_id o) ∧
    ∀ k, node_attributes n !! ("observed." +:+ k) = ObservedValue_to_string <$> oe_attributes o !! k.
Proof.
  destruct (record_all_state g r p l Hnew Hone) as [(c & (Hin & Hc & Hmax) & Hn)|[Hnone _]].
  - exists c, (resource_node c Current). split_and!; [done..| |apply resource_node_observed].
    by rewrite resource_node_base.
  - destruct Hseen as (o & Hin & Ho). by destruct (Hnone o Hin).
Qed.

(** ** Removal impact *)

(** [x] is an origin of [t]. *)
Definition origin_of (g : SystemGraph) (x t : NodeId) : Prop :=
  ∃ e, e ∈ graph_edges g ∧ ownership (edge_kind e) = true ∧ edge_from e = x ∧ edge_to e = t.

Lemma foldl_insert_origin l m t x :
  x ∈ default ∅ (foldl insert_origin m l !! t) ↔
  x ∈ default ∅ (m !! t) ∨
  ∃ e, e ∈ l ∧ ownership (edge_kind e) = true ∧ edge_from e = x ∧ edge_to e = t.
Proof.
  revert m. induction l as [|e l IH]; intros m; cbn [foldl]; [set_solver|].
  rewrite IH. unfold insert_origin.
  assert ((∃ e0, e0 ∈ e :: l ∧ ownership (edge_kind e0) = true ∧ edge_from e0 = x ∧ edge_to e0 = t)
          ↔ (ownership (edge_kind e) = true ∧ edge_from e = x ∧ edge_to e = t) ∨
            ∃ e0, e0 ∈ l ∧ ownership (edge_kind e0) = true ∧ edge_from e0 = x ∧ edge_to e0 = t) as ->.
  { split.
    - intros (e0 & [->|Hin]%elem_of_cons & He0); [by left|right; by exists e0].
    - intros [He|(e0 & Hin & He0)]; [exists e|exists e0]; (split; [set_solver|done]). }
  destruct (ownership (edge_kind e)); [|naive_solver].
  destruct (decide (edge_to e = t)) as [<-|Ht].
  - rewrite lookup_insert_eq. cbn. rewrite elem_of_union, elem_of_singleton. naive_solver.
  - rewrite lookup_insert_ne by done. naive_solver.
Qed.

Lemma origins_by_target_spec g t s x :
  origins_by_target g !! t = Some s → x ∈ s ↔ origin_of g x t.
Proof.
  intros Ht. pose proof (foldl_insert_origin (graph_edges g) ∅ t x) as H.
  unfold origins_by_target in Ht. rewrite Ht, lookup_empty in H. cbn in H. rewrite H. set_solver.
Qed.

Lemma origins_by_target_is_Some g x t : origin_of g x t → is_Some (origins_by_target g !! t).
Proof.
  intros Hx. pose proof (foldl_insert_origin (graph_edges g) ∅ t x) as H. unfold origins_by_target.
  destruct (foldl insert_origin ∅ (graph_edges g) !! t); [by eexists|]. cbn in H.
  rewrite lookup_empty in H. cbn in H. exfalso. set_solver.
Qed.

Lemma classify_targets o l imp :
  let imp' := foldl (classify_target o) imp l in
  (∀ t, t ∈ ri_removable imp' ↔ t ∈ ri_removable imp ∨ ∃ s, (t, s) ∈ l ∧ o ∈ s ∧ size s = 1%nat) ∧
  (∀ t, t ∈ ri_retained_shared imp' ↔
        t ∈ ri_retained_shared imp ∨ ∃ s, (t, s) ∈ l ∧ o ∈ s ∧ size s ≠ 1%nat).
Proof.
  revert imp. induction l as [|[t0 s0] l IH]; intros imp; cbn [foldl]; cbv zeta; [set_solver|].
  destruct (IH (classify_target o imp (t0, s0))) as [H1 H2]. cbv zeta in H1, H2.
  split; intros t; [rewrite H1|rewrite H2]; clear H1 H2; unfold classify_target;
    setoid_rewrite elem_of_cons; case_decide; [destruct (Nat.eqb_spec (size s0) 1)|
    |destruct (Nat.eqb_spec (size s0) 1)|]; cbn; set_solver.
Qed.

Lemma size_one_iff (s : gset NodeId) o : o ∈ s → size s = 1%nat ↔ ∀ x, x ∈ s → x = o.
Proof.
  intros Ho. split.
  - intros Hs x Hx. by eapply (size_singleton_inv s).
  - intros H. assert (s = {[o]}) as -> by set_solver. apply size_singleton.
Qed.

(** The impact of retiring an origin is exact: the removable targets are
    those with that origin and no other, the retained ones those with another
    origin as well, and the reported conflicts are the conflict edges at the
    origin. *)
Theorem removal_impact_exact g o :
  (∀ t, t ∈ ri_removable (removal_impact g o) ↔
        origin_of g o t ∧ ∀ x, origin_of g x t → x = o) ∧
  (∀ t, t ∈ ri_retained_shared (removal_impact g o) ↔
        origin_of g o t ∧ ∃ x, x ≠ o ∧ origin_of g x t) ∧
  (∀ e, e ∈ ri_conflicts (removal_impact g o) ↔
        e ∈ graph_edges g ∧ edge_kind e = EdgeConflicts ∧ (edge_from e = o ∨ edge_to e = o)).
Proof.
  destruct (classify_targets o (map_to_list (origins_by_target g)) RemovalImpact_default) as [H1 H2].
  cbn in H1, H2. unfold removal_impact. cbn. split_and!.
  - intros t. rewrite H1. setoid_rewrite elem_of_map_to_list. split.
    + intros [?|(s & Hs & Ho & Hsz)]; [set_solver|]. rewrite size_one_iff in Hsz by done.
      setoid_rewrite <- (origins_by_target_spec g t s _ Hs). done.
    + intros [Ho Hx]. destruct (origins_by_target_is_Some g o t Ho) as [s Hs]. right.
      setoid_rewrite <- (origins_by_target_spec g t s _ Hs) in Hx.
      apply (origins_by_target_spec g t s _ Hs) in Ho. exists s. split_and!; try done.
      exact (proj2 (size_one_iff s o Ho) Hx).
  - intros t. rewrite H2. setoid_rewrite elem_of_map_to_list. split.
    + intros [?|(s & Hs & Ho & Hsz)]; [set_solver|]. rewrite size_one_iff in Hsz by done.
      setoid_rewrite <- (origins_by_target_spec g t s _ Hs). split; [done|].
      destruct (decide (Exists (λ x, x ≠ o) (elements s))) as [[x [Hx ?]]%Exists_exists|Hn];
        [exists x; set_solver|].
      destruct Hsz. intros x Hx. destruct (decide (x = o)); [done|]. destruct Hn.
      apply Exists_exists. exists x. set_solver.
    + intros (Ho & x & Hx & Hox). destruct (origins_by_target_is_Some g o t Ho) as [s Hs]. right.
      apply (origins_by_target_spec g t s _ Hs) in Ho, Hox. exists s. split_and!; try done.
      intros Hsz. by apply Hx, (proj1 (size_one_iff s o Ho) Hsz).
  - intros e. unfold conflicts_for. rewrite list_elem_of_filter. naive_solver.
Qed.
