(* ===== verification/Intent.v ===== *)
(** * linura-intent: intents, setups and machine profiles

    Models [crates/linura-intent/src/model.rs]. *)

From Stdlib Require Import ZArith Lia Ascii.
From stdpp Require Import base numbers gmap strings list fin_maps sorting.
From S2P Require Import Prelude Text Fields Core Ordered.

Set Default Goal Selector "!".

Inductive IntentStatus := Proposed | Active | Suspended | Superseded | Retired.

Inductive RequirementKind := RGoal | RConstraint | RPreference | RProhibition.

Record Requirement := {
  req_id : RequirementId;
  req_kind : RequirementKind;
  req_statement : string;
}.

Record Intent := {
  intent_id : IntentId;
  intent_actor : Actor;
  intent_statement : string;
  intent_status : IntentStatus;
  intent_requirements : list Requirement;
  intent_supersedes : list IntentId;
}.

Record Setup := {
  setup_id : SetupId;
  setup_name : string;
  setup_description : string;
  setup_revision : Z;
  setup_intent_ids : list IntentId;
  setup_included_setup_ids : list SetupId;
  setup_portable_constraints : list string;
  setup_required_secret_refs : list string;
  setup_hardware_hints : list string;
}.

Inductive SetupValidationError :=
| EmptyName | ZeroRevision | EmptyComposition | SelfReference
| EmptySecretReference | InvalidSecretReference.

Definition MAX_SECRET_REFERENCE_BYTES : Z := 256.

Inductive SecretReferenceValidationError :=
| SecretEmpty | SecretTooLong | SecretInvalidForm | SecretUnsupportedCharacter.

#[export] Instance IntentStatus_eq_dec : EqDecision IntentStatus.
Proof. solve_decision. Defined.
#[export] Instance RequirementKind_eq_dec : EqDecision RequirementKind.
Proof. solve_decision. Defined.
#[export] Instance Requirement_eq_dec : EqDecision Requirement.
Proof. solve_decision. Defined.
#[export] Instance Intent_eq_dec : EqDecision Intent.
Proof. solve_decision. Defined.

(** [byte.is_ascii_alphanumeric() || matches!(byte, b'-' | b'_' | b'.' | b':')]. *)
Definition secret_byte (c : N) : bool :=
  is_ascii_digit c || (65 <=? c)%N && (c <=? 90)%N || (97 <=? c)%N && (c <=? 122)%N
  || (c =? 45)%N || (c =? 95)%N || (c =? 46)%N || (c =? 58)%N.

Definition validate_secret_reference (value : string)
    : result SecretReferenceValidationError unit :=
  reject_if (trim_is_empty value) SecretEmpty;;
  reject_if (MAX_SECRET_REFERENCE_BYTES <? str_len value)%Z SecretTooLong;;
  match split_once ":"%char value with
  | None => Err SecretInvalidForm
  | Some (namespace, name) =>
      reject_if ((str_len namespace =? 0)%Z || (str_len name =? 0)%Z
                 || bool_decide (is_Some (split_once ":"%char name))) SecretInvalidForm;;
      reject_if (negb (forallb secret_byte (codes value))) SecretUnsupportedCharacter
  end.

(** [for reference in &self.required_secret_refs]. *)
Fixpoint validate_secret_refs (refs : list string) : result SetupValidationError unit :=
  match refs with
  | [] => Ok tt
  | reference :: refs =>
      match validate_secret_reference reference with
      | Ok _ => validate_secret_refs refs
      | Err SecretEmpty => Err EmptySecretReference
      | Err _ => Err InvalidSecretReference
      end
  end.

Definition Setup_validate (s : Setup) : result SetupValidationError unit :=
  reject_if (trim_is_empty (setup_name s)) EmptyName;;
  reject_if (setup_revision s =? 0)%Z ZeroRevision;;
  reject_if (is_nil (setup_intent_ids s) && is_nil (setup_included_setup_ids s)) EmptyComposition;;
  reject_if (existsb (λ id, bool_decide (id = setup_id s)) (setup_included_setup_ids s))
    SelfReference;;
  validate_secret_refs (setup_required_secret_refs s).

Inductive MachineClass := Workstation | Server | EdgeMachine.

Definition MachineClass_as_str (c : MachineClass) : string :=
  match c with Workstation => "workstation" | Server => "server" | EdgeMachine => "edge" end.

Record MachineProfile := {
  mp_id : string;
  mp_name : string;
  mp_machine_class : MachineClass;
  mp_setup_ids : list SetupId;
  mp_intent_ids : list IntentId;
  mp_portable_constraints : list string;
  mp_hardware_hints : list string;
}.

Definition is_managed (i : Intent) : bool :=
  match intent_status i with Active => true | _ => false end.

Definition is_retained (i : Intent) : bool :=
  match intent_status i with Active | Suspended => true | _ => false end.

(** ** Secret references *)

Lemma trim_secret s : s ≠ "" → forallb secret_byte (codes s) = true → trim_is_empty s = false.
Proof.
  intros Hne Hs. apply graphic_trim; [|done]. unfold all_graphic.
  induction (codes s) as [|c l IH]; [done|]. cbn in *. apply andb_prop in Hs as [Hc Hl].
  rewrite IH by done. rewrite andb_true_r. unfold secret_byte, is_ascii_digit, graphic in *.
  repeat (apply orb_prop in Hc as [Hc|Hc]);
    rewrite ?andb_true_iff, ?N.leb_le, ?N.eqb_eq in Hc; apply andb_true_iff; rewrite !N.leb_le; lia.
Qed.

Lemma secret_reference_Ok value :
  validate_secret_reference value = Ok tt ↔
  ∃ namespace name, value = namespace +:+ ":" +:+ name ∧ namespace ≠ "" ∧ name ≠ "" ∧
    free ":"%char namespace ∧ free ":"%char name ∧
    forallb secret_byte (codes value) = true ∧ (str_len value ≤ MAX_SECRET_REFERENCE_BYTES)%Z.
Proof.
  assert (∀ s, (str_len s =? 0)%Z = false ↔ s ≠ "") as Hlen.
  { intros s. rewrite Z.eqb_neq. unfold str_len. destruct s; cbn; [|split; intros; [done|lia]]. naive_solver. }
  unfold validate_secret_reference. split.
  - intros H. ok_inv. destruct (split_once ":"%char value) as [[ns name]|] eqn:E; [|done].
    apply bind_Ok in H as ([] & Hform%reject_if_Ok & Hb%reject_if_Ok%negb_false_iff).
    apply orb_false_iff in Hform as [[H2%Hlen H3%Hlen]%orb_false_iff H4%bool_decide_eq_false].
    apply split_once_Some in E as [-> Hf]. exists ns, name. apply Z.ltb_ge in H1.
    split_and!; try done.
    unfold free. destruct (split_once ":"%char name); [|done]. destruct H4. by eexists.
  - intros (ns & name & -> & Hns & Hn & Hfns & Hfn & Hb & Hl).
    rewrite trim_secret; [|by destruct ns|done]. cbn [reject_if mbind result_bind].
    rewrite (proj2 (Z.ltb_ge _ _) Hl). cbn [reject_if mbind result_bind].
    change (":" +:+ name) with (String ":"%char name) in *. rewrite split_once_app by done.
    unfold free in Hfn. rewrite Hb, Hfn, (proj2 (Hlen ns) Hns), (proj2 (Hlen name) Hn). done.
Qed.

(** A setup is accepted exactly when it is named, revised, composes
    something other than itself, and each secret is a canonical
    [namespace:name] reference. *)
Lemma setup_validate_Ok s :
  Setup_validate s = Ok tt ↔
  trim_is_empty (setup_name s) = false ∧ setup_revision s ≠ 0%Z ∧
  (setup_intent_ids s ≠ [] ∨ setup_included_setup_ids s ≠ []) ∧
  (setup_id s ∉ setup_included_setup_ids s) ∧
  Forall (λ v, validate_secret_reference v = Ok tt) (setup_required_secret_refs s).
Proof.
  assert (∀ l, validate_secret_refs l = Ok tt ↔ Forall (λ v, validate_secret_reference v = Ok tt) l) as Hr.
  { induction l as [|v l IH]; cbn; [done|]. rewrite Forall_cons, <- IH.
    destruct (validate_secret_reference v) as [[]|[]]; naive_solver. }
  assert (∀ l, existsb (λ id, bool_decide (id = setup_id s)) l = false ↔ setup_id s ∉ l) as Hx.
  { induction l as [|v l IH]; cbn; [set_solver|].
    rewrite orb_false_iff, bool_decide_eq_false, IH. set_solver. }
  unfold Setup_validate. rewrite <- Hr, <- Hx.
  destruct (trim_is_empty _); [naive_solver|]. destruct (Z.eqb_spec (setup_revision s) 0); [naive_solver|].
  destruct (setup_intent_ids s), (setup_included_setup_ids s), (existsb _ _); cbn; naive_solver.
Qed.
