(* ===== verification/Planner.v ===== *)
(** * linura-planner: desired state, compilation, planning and the plan store

    Models [crates/linura-planner/src/lib.rs]: the validation of desired
    state, the compilation of an intent over the capability catalogue, the
    comparison of one desired resource with an observation, and the bounded
    in-memory plan store.  The [Debug] rendering of a string inside messages
    is the parameter [debug_str] of [Crypto]. *)

From Stdlib Require Import ZArith Lia.
From stdpp Require Import base numbers gmap strings list fin_maps sorting.
From S2P Require Import Prelude Text Core Digest Ordered Capability Intent.

Set Default Goal Selector "!".

Definition DEFAULT_PLAN_STORE_CAPACITY : Z := 256.

Abbreviation DesiredResourceKey := (string * string * string)%type.

Record DesiredResourceContribution := {
  drc_state : gmap string string;
  drc_capabilities : gset CapabilityId;
}.

Abbreviation DesiredResourceContributions := (gmap DesiredResourceKey DesiredResourceContribution).

Record DesiredResource := {
  dr_provider : ProviderId;
  dr_resource : ResourceId;
  dr_observation_capability : CapabilityId;
  dr_state : gmap string string;
  dr_reason : SemanticReason;
}.

Record DesiredState := { ds_resources : list DesiredResource }.

Inductive DesiredStateValidationError :=
| EmptyDesiredState
| DuplicateResource (resource : ResourceId)
| EmptyResourceState (resource : ResourceId)
| InvalidDesiredKey (resource : ResourceId) (key : string)
| InvalidDesiredValue (resource : ResourceId) (key : string)
| InvalidSemanticReason (resource : ResourceId) (reason : string).

Inductive PlanningFreshness := PlanningCurrent | PlanningStale | PlanningFuture.

#[export] Instance PlanningFreshness_eq_dec : EqDecision PlanningFreshness.
Proof. solve_decision. Defined.

Definition PlanningFreshness_as_str (f : PlanningFreshness) : string :=
  match f with
  | PlanningCurrent => "current" | PlanningStale => "stale" | PlanningFuture => "future"
  end.

Record IntentPlan := {
  ip_intent_id : IntentId;
  ip_capability_resolution : Resolution;
  ip_desired_state : DesiredState;
  ip_warnings : list string;
}.

Record PlanningObservation := {
  po_provider : ProviderId;
  po_resource : ResourceId;
  po_observation_capability : CapabilityId;
  po_authority : string;
  po_evidence_id : string;
  po_freshness : PlanningFreshness;
  po_attributes : gmap string string;
}.

Inductive PlanStatus := NoChange | ChangeProposed | Blocked.

Definition PlanStatus_as_str (s : PlanStatus) : string :=
  match s with
  | NoChange => "no-change" | ChangeProposed => "change-proposed" | Blocked => "blocked"
  end.

Inductive PlanFindingLevel := Pass | Warning | Blocker.

Definition PlanFindingLevel_as_str (l : PlanFindingLevel) : string :=
  match l with Pass => "pass" | Warning => "warning" | Blocker => "blocker" end.

#[export] Instance PlanStatus_eq_dec : EqDecision PlanStatus.
Proof. solve_decision. Defined.
#[export] Instance PlanFindingLevel_eq_dec : EqDecision PlanFindingLevel.
Proof. solve_decision. Defined.

Record PlanFinding := {
  pf_code : string;
  pf_level : PlanFindingLevel;
  pf_message : string;
}.

Record StateChange := {
  sc_key : string;
  sc_current : option string;
  sc_desired : string;
}.

(** The private one-constructor type of the source. *)
Inductive ExecutionAuthority := Disabled.

Record ReconciliationPlan := {
  rp_id : PlanId;
  rp_request_id : RequestId;
  rp_actor : Actor;
  rp_provider : ProviderId;
  rp_resource : ResourceId;
  rp_observation_capability : CapabilityId;
  rp_reason : SemanticReason;
  rp_observed_evidence_id : string;
  rp_prospective_risk : RiskClass;
  rp_status : PlanStatus;
  rp_execution_authority : ExecutionAuthority;
  rp_changes : list StateChange;
  rp_findings : list PlanFinding;
}.

#[export] Instance PlanFinding_eq_dec : EqDecision PlanFinding.
Proof. solve_decision. Defined.
#[export] Instance StateChange_eq_dec : EqDecision StateChange.
Proof. solve_decision. Defined.
#[export] Instance ExecutionAuthority_eq_dec : EqDecision ExecutionAuthority.
Proof. solve_decision. Defined.
#[export] Instance ReconciliationPlan_eq_dec : EqDecision ReconciliationPlan.
Proof. solve_decision. Defined.

Definition any_blocker (l : list PlanFinding) : bool :=
  existsb (λ f, bool_decide (pf_level f = Blocker)) l.
Definition has_blockers (p : ReconciliationPlan) : bool := any_blocker (rp_findings p).
Definition execution_authorized (p : ReconciliationPlan) : bool :=
  match rp_execution_authority p with Disabled => false end.

Inductive PlanningError :=
| RetiredIntent
| MissingCapability (capability : CapabilityId)
| CapabilityConflict (left right : CapabilityId)
| EmptyIntentStatement
| DesiredStateConflict (resource : ResourceId) (key first second : string)
| InvalidDesiredState (reason : string)
| InvalidObservation (reason : string)
| ObservationIdentityMismatch (reason : string)
| ObservationNotCurrent (freshness : PlanningFreshness)
| InvalidPlanId (reason : string).

Definition PlanId_new := typed_id_new "plan id".

(** The order of the [BTreeMap] with [DesiredResourceKey] keys. *)
Definition key3_le {V} (a b : DesiredResourceKey * V) : Prop :=
  let '(p1, r1, c1) := fst a in
  let '(p2, r2, c2) := fst b in
  if decide (p1 = p2) then
    if decide (r1 = r2) then String.le c1 c2 else String.le r1 r2
  else String.le p1 p2.
#[export] Instance key3_le_dec {V} : RelDecision (@key3_le V).
Proof.
  intros [[[p1 r1] c1] v1] [[[p2 r2] c2] v2]. unfold key3_le. cbn.
  destruct (decide (p1 = p2)); [destruct (decide (r1 = r2))|]; apply _.
Defined.

Section planner.
Context `{Crypto}.

Definition DesiredStateValidationError_display (e : DesiredStateValidationError) : string :=
  match e with
  | EmptyDesiredState => "desired state must contain at least one resource"
  | DuplicateResource resource => "desired state contains duplicate resource " +:+ resource
  | EmptyResourceState resource =>
      "desired resource " +:+ resource +:+ " must contain at least one state attribute"
  | InvalidDesiredKey resource key =>
      "desired resource " +:+ resource +:+ " contains invalid attribute key " +:+ debug_str key
  | InvalidDesiredValue resource key =>
      "desired resource " +:+ resource +:+ " contains an invalid value for attribute "
      +:+ debug_str key
  | InvalidSemanticReason resource reason =>
      "desired resource " +:+ resource +:+ " has invalid semantic provenance: " +:+ reason
  end.

Definition PlanningError_display (e : PlanningError) : string :=
  match e with
  | RetiredIntent => "intent is not in a managed state"
  | MissingCapability capability => "missing capability " +:+ capability
  | CapabilityConflict l r => "capability conflict between " +:+ l +:+ " and " +:+ r
  | EmptyIntentStatement => "intent statement cannot be empty"
  | DesiredStateConflict resource key first second =>
      "desired-state conflict for " +:+ resource +:+ " attribute " +:+ debug_str key +:+ ": "
      +:+ debug_str first +:+ " != " +:+ debug_str second
  | InvalidDesiredState reason => "invalid desired state: " +:+ reason
  | InvalidObservation reason => "invalid planning observation: " +:+ reason
  | ObservationIdentityMismatch reason =>
      "authoritative observation identity mismatch: " +:+ reason
  | ObservationNotCurrent freshness =>
      "planning requires current authoritative observation, got "
      +:+ PlanningFreshness_as_str freshness
  | InvalidPlanId reason => "invalid deterministic plan id: " +:+ reason
  end.

(** [for (key, value) in &desired.state]. *)
Fixpoint validate_desired_entries (resource : ResourceId) (entries : list (string * string))
    : result DesiredStateValidationError unit :=
  match entries with
  | [] => Ok tt
  | (key, value) :: entries =>
      reject_if (trim_is_empty key || (256 <? str_len key)%Z || has_control key)
        (InvalidDesiredKey resource key);;
      reject_if ((4096 <? str_len value)%Z || has_control value) (InvalidDesiredValue resource key);;
      validate_desired_entries resource entries
  end.

Definition validate_desired_resource (desired : DesiredResource)
    : result DesiredStateValidationError unit :=
  reject_if (bool_decide (dr_state desired = ∅)) (EmptyResourceState (dr_resource desired));;
  validate_desired_entries (dr_resource desired) (btree_entries (dr_state desired));;
  map_err (λ error, InvalidSemanticReason (dr_resource desired) (ValidationError_display error))
    (SemanticReason_validate (dr_reason desired)).

Fixpoint validate_resources (seen : gset ResourceId) (l : list DesiredResource)
    : result DesiredStateValidationError unit :=
  match l with
  | [] => Ok tt
  | desired :: l =>
      reject_if (bool_decide (dr_resource desired ∈ seen)) (DuplicateResource (dr_resource desired));;
      validate_desired_resource desired;;
      validate_resources ({[dr_resource desired]} ∪ seen) l
  end.

Definition DesiredState_validate (d : DesiredState) : result DesiredStateValidationError unit :=
  reject_if (is_nil (ds_resources d)) EmptyDesiredState;;
  validate_resources ∅ (ds_resources d).

Definition resolve_capabilities (intent : Intent) (catalog : CapabilityCatalog)
    (requested : list CapabilityId) : result PlanningError Resolution :=
  reject_if (negb (is_managed intent)) RetiredIntent;;
  let resolution := resolve catalog requested in
  match btree_elements (res_missing resolution) with
  | missing :: _ => Err (MissingCapability missing)
  | [] =>
      match res_conflicts resolution with
      | (l, r) :: _ => Err (CapabilityConflict l r)
      | [] => Ok resolution
      end
  end.

(** [for (attribute, value) in &template.state]. *)
Fixpoint merge_state (resource : ResourceId) (state : gmap string string)
    (entries : list (string * string)) : result PlanningError (gmap string string) :=
  match entries with
  | [] => Ok state
  | (attribute, value) :: entries =>
      match state !! attribute with
      | Some existing =>
          if decide (existing = value) then merge_state resource (<[attribute := value]> state) entries
          else Err (DesiredStateConflict resource attribute existing value)
      | None => merge_state resource (<[attribute := value]> state) entries
      end
  end.

Definition template_key (t : DesiredResourceBlueprint) : DesiredResourceKey :=
  (drb_provider t, drb_resource t, drb_observation_capability t).

Definition empty_contribution : DesiredResourceContribution :=
  {| drc_state := ∅; drc_capabilities := ∅ |}.

Definition add_template (capability : CapabilityId) (m : DesiredResourceContributions)
    (t : DesiredResourceBlueprint) : result PlanningError DesiredResourceContributions :=
  let entry := default empty_contribution (m !! template_key t) in
  state ← merge_state (drb_resource t) (drc_state entry) (btree_entries (drb_state t));
  Ok (<[template_key t := {| drc_state := state;
                             drc_capabilities := {[capability]} ∪ drc_capabilities entry |}]> m).

Fixpoint add_templates (capability : CapabilityId) (m : DesiredResourceContributions)
    (l : list DesiredResourceBlueprint) : result PlanningError DesiredResourceContributions :=
  match l with
  | [] => Ok m
  | t :: l => m ← add_template capability m t; add_templates capability m l
  end.

(** [for capability in &resolution.selected]. *)
Fixpoint add_capabilities (catalog : CapabilityCatalog) (m : DesiredResourceContributions)
    (warnings : list string) (l : list CapabilityId)
    : result PlanningError (DesiredResourceContributions * list string) :=
  match l with
  | [] => Ok (m, warnings)
  | capability :: l =>
      match CapabilityCatalog_blueprint catalog capability with
      | None => Err (MissingCapability capability)
      | Some blueprint =>
          let warnings :=
            if is_nil (cb_desired_resources blueprint)
            then warnings ++ ["capability " +:+ capability +:+ " contributes no desired resources"]
            else warnings in
          m ← add_templates capability m (cb_desired_resources blueprint);
          add_capabilities catalog m warnings l
      end
  end.

Definition desired_of (intent : Intent) (entry : DesiredResourceKey * DesiredResourceContribution)
    : DesiredResource :=
  let '((provider, resource, observation_capability), contribution) := entry in
  {| dr_provider := provider; dr_resource := resource;
     dr_observation_capability := observation_capability;
     dr_state := drc_state contribution;
     dr_reason := {| sr_summary := intent_statement intent;
                     sr_intent_ids := [intent_id intent];
                     sr_requirement_ids := [];
                     sr_capability_ids := btree_elements (drc_capabilities contribution) |} |}.

Definition compile_intent (intent : Intent) (catalog : CapabilityCatalog)
    (requested : list CapabilityId) : result PlanningError IntentPlan :=
  reject_if (trim_is_empty (intent_statement intent)) EmptyIntentStatement;;
  resolution ← resolve_capabilities intent catalog requested;
  out ← add_capabilities catalog ∅ [] (btree_elements (res_selected resolution));
  let '(contributions, warnings) := out in
  let desired_state :=
    {| ds_resources := desired_of intent <$> merge_sort key3_le (map_to_list contributions) |} in
  map_err (λ error, InvalidDesiredState (DesiredStateValidationError_display error))
    (DesiredState_validate desired_state);;
  Ok {| ip_intent_id := intent_id intent; ip_capability_resolution := resolution;
        ip_desired_state := desired_state; ip_warnings := merge_sort String.le warnings |}.

Definition validate_planning_observation (o : PlanningObservation) : result PlanningError unit :=
  reject_if (trim_is_empty (po_authority o)) (InvalidObservation "authority cannot be empty");;
  reject_if (trim_is_empty (po_evidence_id o)) (InvalidObservation "evidence id cannot be empty");;
  reject_if (bool_decide (po_attributes o = ∅))
    (InvalidObservation "authoritative attributes cannot be empty");;
  Ok tt.

Definition initial_findings (o : PlanningObservation) : list PlanFinding :=
  [{| pf_code := "semantic-origin"; pf_level := Pass;
      pf_message := "desired state retains semantic provenance" |};
   {| pf_code := "authoritative-observation"; pf_level := Pass;
      pf_message := "planning is bound to current " +:+ po_authority o +:+ " evidence "
                    +:+ po_evidence_id o |};
   {| pf_code := "execution-disabled"; pf_level := Pass;
      pf_message :=
        "v0.2 planning produces no executable effects and grants no mutation authority" |}].

Definition unobserved_finding (key : string) : PlanFinding :=
  {| pf_code := "attribute-not-observed"; pf_level := Blocker;
     pf_message := "authoritative observation does not expose desired attribute "
                   +:+ debug_str key +:+ "; planning fails closed" |}.

(** [for (key, desired_value) in &desired.state]. *)
Fixpoint diff_state (o : PlanningObservation) (entries : list (string * string))
    (changes : list StateChange) (findings : list PlanFinding)
    : list StateChange * list PlanFinding :=
  match entries with
  | [] => (changes, findings)
  | (key, desired_value) :: entries =>
      match po_attributes o !! key with
      | Some current =>
          if decide (current = desired_value) then diff_state o entries changes findings
          else diff_state o entries
                 (changes ++ [{| sc_key := key; sc_current := Some current;
                                 sc_desired := desired_value |}]) findings
      | None =>
          diff_state o entries
            (changes ++ [{| sc_key := key; sc_current := None; sc_desired := desired_value |}])
            (findings ++ [unobserved_finding key])
      end
  end.

Definition plan_resource (request_id : RequestId) (actor : Actor) (desired : DesiredResource)
    (observation : PlanningObservation) : result PlanningError ReconciliationPlan :=
  map_err (λ error, InvalidDesiredState (DesiredStateValidationError_display error))
    (validate_desired_resource desired);;
  validate_planning_observation observation;;
  reject_if (negb (bool_decide (po_freshness observation = PlanningCurrent)))
    (ObservationNotCurrent (po_freshness observation));;
  reject_if (negb (bool_decide (po_provider observation = dr_provider desired)))
    (ObservationIdentityMismatch "provider differs from desired-state observation route");;
  reject_if (negb (bool_decide (po_resource observation = dr_resource desired)))
    (ObservationIdentityMismatch "resource differs from desired-state resource");;
  reject_if (negb (bool_decide (po_observation_capability observation
                                = dr_observation_capability desired)))
    (ObservationIdentityMismatch "capability differs from desired-state observation route");;
  let '(changes, findings) :=
    diff_state observation (btree_entries (dr_state desired)) [] (initial_findings observation) in
  let status :=
    if any_blocker findings then Blocked
    else if is_nil changes then NoChange
    else ChangeProposed in
  let prospective_risk := if is_nil changes then ReadOnly else SystemMutation in
  id ← map_err (λ error, InvalidPlanId (ValidationError_display error)) (PlanId_new request_id);
  Ok {| rp_id := id; rp_request_id := request_id; rp_actor := actor;
        rp_provider := dr_provider desired; rp_resource := dr_resource desired;
        rp_observation_capability := dr_observation_capability desired;
        rp_reason := dr_reason desired; rp_observed_evidence_id := po_evidence_id observation;
        rp_prospective_risk := prospective_risk; rp_status := status;
        rp_execution_authority := Disabled; rp_changes := changes; rp_findings := findings |}.
End planner.

(** ** The plan store *)

Inductive PlanStoreError :=
| InvalidCapacity
| IdempotencyConflict (plan_id : PlanId).

Definition PlanStoreError_display (e : PlanStoreError) : string :=
  match e with
  | InvalidCapacity => "plan store capacity must be greater than zero"
  | IdempotencyConflict plan_id =>
      "request/plan id " +:+ plan_id +:+ " already identifies a different plan"
  end.

Record PlanStore := {
  ps_capacity : Z;
  ps_plans : gmap PlanId ReconciliationPlan;
  ps_order : list PlanId;
}.

Definition PlanStore_default : PlanStore :=
  {| ps_capacity := DEFAULT_PLAN_STORE_CAPACITY; ps_plans := ∅; ps_order := [] |}.

Definition PlanStore_with_capacity (capacity : Z) : result PlanStoreError PlanStore :=
  reject_if (capacity =? 0)%Z InvalidCapacity;;
  Ok {| ps_capacity := capacity; ps_plans := ∅; ps_order := [] |}.

Definition PlanStore_len (s : PlanStore) : Z := Z.of_nat (size (ps_plans s)).

(** [while self.plans.len() >= self.capacity]: every iteration pops the queue
    and the empty queue breaks, so the loop recurses on [order]. *)
Fixpoint evict (capacity : Z) (plans : gmap PlanId ReconciliationPlan) (order : list PlanId)
    : gmap PlanId ReconciliationPlan * list PlanId :=
  if (capacity <=? Z.of_nat (size plans))%Z then
    match order with
    | [] => (plans, [])
    | oldest :: order => evict capacity (delete oldest plans) order
    end
  else (plans, order).

(** [&mut self]: the store after the call, and the result. *)
Definition PlanStore_insert (s : PlanStore) (plan : ReconciliationPlan)
    : PlanStore * result PlanStoreError unit :=
  match ps_plans s !! rp_id plan with
  | Some existing =>
      if decide (existing = plan) then (s, Ok tt) else (s, Err (IdempotencyConflict (rp_id plan)))
  | None =>
      let '(plans, order) := evict (ps_capacity s) (ps_plans s) (ps_order s) in
      ({| ps_capacity := ps_capacity s; ps_plans := <[rp_id plan := plan]> plans;
          ps_order := order ++ [rp_id plan] |}, Ok tt)
  end.

Definition PlanStore_get (s : PlanStore) (plan_id : PlanId) : option ReconciliationPlan :=
  ps_plans s !! plan_id.
Definition PlanStore_is_empty (s : PlanStore) : bool := bool_decide (ps_plans s = ∅).

(** * The plan store is a bounded queue

    Refinement of the map and queue of [PlanStore] by the list of stored
    plans, oldest first. *)

From stdpp Require Import base numbers gmap strings list fin_maps fin_map_dom sorting.

(** The stored plans, oldest first. *)
Definition queue (s : PlanStore) : list ReconciliationPlan :=
  omap (λ id, ps_plans s !! id) (ps_order s).

Record store_ok (s : PlanStore) : Prop := {
  so_capacity : (0 < ps_capacity s)%Z;
  so_order : NoDup (ps_order s);
  so_keys : ∀ id, id ∈ ps_order s ↔ is_Some (ps_plans s !! id);
  so_ids : ∀ id p, ps_plans s !! id = Some p → rp_id p = id;
  so_bound : (PlanStore_len s ≤ ps_capacity s)%Z;
}.

Lemma order_size (plans : gmap PlanId ReconciliationPlan) order :
  NoDup order → (∀ id, id ∈ order ↔ is_Some (plans !! id)) → size plans = length order.
Proof.
  intros Hn Hk. rewrite <- size_dom. assert (dom plans = list_to_set order) as ->.
  { apply set_eq. intros id. rewrite elem_of_dom, elem_of_list_to_set. by rewrite Hk. }
  by apply size_list_to_set.
Qed.

(** A full store evicts exactly its oldest plan. *)
Lemma evict_spec capacity (plans : gmap PlanId ReconciliationPlan) order :
  (0 < capacity)%Z → NoDup order → (∀ id, id ∈ order ↔ is_Some (plans !! id)) →
  (Z.of_nat (size plans) ≤ capacity)%Z →
  evict capacity plans order =
  if (Z.of_nat (size plans) =? capacity)%Z
  then match order with [] => (plans, []) | oldest :: order => (delete oldest plans, order) end
  else (plans, order).
Proof.
  intros Hc Hn Hk Hb. pose proof (order_size plans order Hn Hk) as Hsz.
  destruct order as [|oldest order]; cbn [evict].
  { cbn in Hsz. rewrite Hsz in *. destruct (Z.leb_spec capacity (Z.of_nat 0)); [lia|].
    destruct (Z.eqb_spec (Z.of_nat 0) capacity); [lia|done]. }
  destruct (Z.leb_spec capacity (Z.of_nat (size plans))), (Z.eqb_spec (Z.of_nat (size plans)) capacity);
    [|lia|lia|done].
  assert (is_Some (plans !! oldest)) as [p Hp] by (apply Hk; left).
  assert (size plans = S (size (delete oldest plans))) as Hs.
  { rewrite map_size_delete, Hp. cbn in *. lia. }
  destruct order as [|x order]; cbn [evict];
    (destruct (Z.leb_spec capacity (Z.of_nat (size (delete oldest plans)))); [lia|done]).
Qed.

Lemma omap_plans (plans : gmap PlanId ReconciliationPlan) (l : list PlanId) :
  (∀ id, id ∈ l → is_Some (plans !! id)) → (∀ id p, plans !! id = Some p → rp_id p = id) →
  rp_id <$> omap (λ id, plans !! id) l = l.
Proof.
  intros Hall Hi. induction l as [|id l IH]; [done|]. cbn.
  destruct (Hall id) as [p Hp]; [left|]. rewrite Hp. cbn. rewrite (Hi _ _ Hp). f_equal.
  apply IH. intros id' Hin. apply Hall. by right.
Qed.

Lemma queue_ids s : store_ok s → rp_id <$> queue s = ps_order s.
Proof. intros [_ _ Hk Hi _]. apply omap_plans; [|done]. intros id. apply Hk. Qed.

Lemma elem_of_queue s p : store_ok s → p ∈ queue s ↔ PlanStore_get s (rp_id p) = Some p.
Proof.
  intros [_ _ Hk Hi _]. unfold queue, PlanStore_get. rewrite list_elem_of_omap. split.
  - intros (id & _ & Hp). by rewrite (Hi _ _ Hp).
  - intros Hp. exists (rp_id p). split; [|done]. apply Hk. by eexists.
Qed.

Lemma length_queue s : store_ok s → length (queue s) = size (ps_plans s).
Proof.
  intros Hs. rewrite (order_size (ps_plans s) (ps_order s)); [|apply Hs..].
  by rewrite <- queue_ids, length_fmap by done.
Qed.

Lemma omap_insert_ne (plans : gmap PlanId ReconciliationPlan) id p (l : list PlanId) :
  id ∉ l → omap (λ i, <[id:=p]> plans !! i) l = omap (λ i, plans !! i) l.
Proof.
  intros Hid. induction l as [|x l IH]; [done|]. cbn. rewrite lookup_insert_ne by set_solver.
  rewrite IH by set_solver. done.
Qed.

Lemma omap_delete_ne (plans : gmap PlanId ReconciliationPlan) id (l : list PlanId) :
  id ∉ l → omap (λ i, delete id plans !! i) l = omap (λ i, plans !! i) l.
Proof.
  intros Hid. induction l as [|x l IH]; [done|]. cbn. rewrite lookup_delete_ne by set_solver.
  rewrite IH by set_solver. done.
Qed.

(** The store after inserting a plan with a new identifier. *)
Lemma insert_new s plan :
  store_ok s → ps_plans s !! rp_id plan = None →
  ∃ s', PlanStore_insert s plan = (s', Ok tt) ∧ store_ok s' ∧ ps_capacity s' = ps_capacity s ∧
    queue s' = drop (S (length (queue s)) - Z.to_nat (ps_capacity s)) (queue s ++ [plan]).
Proof.
  intros Hs Hnew. pose proof (length_queue s Hs) as Hlq. unfold PlanStore_insert. rewrite Hnew.
  destruct Hs as [Hc Hn Hk Hi Hb]. unfold PlanStore_len in Hb. rewrite evict_spec by done.
  assert (rp_id plan ∉ ps_order s) as Hnin by (rewrite Hk, Hnew; by intros [? ?]).
  pose proof (order_size _ _ Hn Hk) as Hsz.
  destruct (Z.eqb_spec (Z.of_nat (size (ps_plans s))) (ps_capacity s)) as [Hfull|Hroom].
  - destruct (ps_order s) as [|oldest order] eqn:Ho; [cbn in Hsz; lia|].
    apply NoDup_cons in Hn as [Hold Hn]. apply not_elem_of_cons in Hnin as [Hne Hnin].
    assert (is_Some (ps_plans s !! oldest)) as [p Hp] by (apply Hk; left).
    eexists. split; [done|]. split_and!; [constructor; cbn| done |].
    + done.
    + apply NoDup_app. split_and!; [done| |apply NoDup_singleton]. set_solver.
    + intros id. rewrite lookup_insert_is_Some', elem_of_app, list_elem_of_singleton, lookup_delete_is_Some.
      rewrite <- Hk, elem_of_cons. naive_solver.
    + intros id q. rewrite lookup_insert_Some, lookup_delete_Some. naive_solver.
    + unfold PlanStore_len. cbn. rewrite map_size_insert_None by (by rewrite lookup_delete_ne).
      rewrite map_size_delete, Hp. cbn in Hsz. lia.
    + unfold queue in *. cbn [ps_order ps_plans] in *. rewrite omap_app. cbn [omap list_omap].
      rewrite lookup_insert_eq, omap_insert_ne, omap_delete_ne by done.
      rewrite Ho in *. cbn [omap list_omap] in *. rewrite Hp in *. cbn [length] in *.
      replace (S (S (length (omap (λ id, ps_plans s !! id) order))) - Z.to_nat (ps_capacity s))%nat
        with 1%nat by lia. done.
  - eexists. split; [done|]. split_and!; [constructor; cbn| done |].
    + done.
    + apply NoDup_app. split_and!; [done| |apply NoDup_singleton]. set_solver.
    + intros id. rewrite lookup_insert_is_Some', elem_of_app, list_elem_of_singleton, Hk. naive_solver.
    + intros id q. rewrite lookup_insert_Some. naive_solver.
    + unfold PlanStore_len. cbn. rewrite map_size_insert_None by done. lia.
    + unfold queue in *. cbn [ps_order ps_plans] in *. rewrite omap_app. cbn [omap list_omap].
      rewrite lookup_insert_eq, omap_insert_ne by done.
      replace (S (length (omap (λ id, ps_plans s !! id) (ps_order s))) - Z.to_nat (ps_capacity s))%nat
        with 0%nat by lia. done.
Qed.

Lemma insert_ok s plan : store_ok s → store_ok (fst (PlanStore_insert s plan)).
Proof.
  intros Hs. destruct (ps_plans s !! rp_id plan) as [q|] eqn:E.
  - unfold PlanStore_insert. rewrite E. by case_decide.
  - by destruct (insert_new s plan Hs E) as (s' & -> & Hs' & _).
Qed.

Lemma with_capacity_ok capacity s :
  (0 ≤ capacity)%Z → PlanStore_with_capacity capacity = Ok s → store_ok s ∧ ps_capacity s = capacity.
Proof.
  unfold PlanStore_with_capacity. destruct (Z.eqb_spec capacity 0); [done|]. intros Hc [= <-].
  split; [|done]. constructor; cbn; [lia|constructor|..].
  - intros id. rewrite lookup_empty. split; [set_solver|by intros []].
  - intros id p. by rewrite lookup_empty.
  - unfold PlanStore_len. cbn. rewrite map_size_empty. lia.
Qed.

(** Insertion of a sequence of plans. *)
Definition insert_all (s : PlanStore) (l : list ReconciliationPlan) : PlanStore :=
  foldl (λ s p, fst (PlanStore_insert s p)) s l.

Lemma insert_all_ok s l : store_ok s → store_ok (insert_all s l) ∧ ps_capacity (insert_all s l) = ps_capacity s.
Proof.
  revert s. induction l as [|p l IH]; intros s Hs; [done|].
  change (insert_all s (p :: l)) with (insert_all (fst (PlanStore_insert s p)) l).
  destruct (IH _ (insert_ok s p Hs)) as [? ->]. split; [done|].
  destruct (ps_plans s !! rp_id p) as [q|] eqn:E.
  - unfold PlanStore_insert. rewrite E. by case_decide.
  - by destruct (insert_new s p Hs E) as (s' & -> & _ & Hc & _).
Qed.

(** The plan store is a bounded queue.  Whatever plans were inserted
    into a store of some capacity, it holds at most that many, and one more
    insertion acts on the queue of stored plans: an identifier already stored
    leaves the store as it is and succeeds exactly for the same plan; a new
    one is appended and only what exceeds the capacity is dropped from the
    oldest end.  Lookups answer from the queue. *)
Theorem plan_store_refines_queue capacity s0 l plan
    (Hc : (0 ≤ capacity)%Z) (H0 : PlanStore_with_capacity capacity = Ok s0) :
  let s := insert_all s0 l in
  let s' := fst (PlanStore_insert s plan) in
  let r := snd (PlanStore_insert s plan) in
  (PlanStore_len s ≤ capacity)%Z ∧ PlanStore_len s = Z.of_nat (length (queue s)) ∧
  NoDup (rp_id <$> queue s) ∧
  (∀ p id, PlanStore_get s id = Some p ↔ p ∈ queue s ∧ rp_id p = id) ∧
  (∀ p, p ∈ queue s → rp_id p = rp_id plan →
     s' = s ∧ r = if decide (p = plan) then Ok tt else Err (IdempotencyConflict (rp_id plan))) ∧
  ((∀ p, p ∈ queue s → rp_id p ≠ rp_id plan) →
     r = Ok tt ∧
     queue s' = drop (S (length (queue s)) - Z.to_nat capacity) (queue s ++ [plan])).
Proof.
  destruct (with_capacity_ok _ _ Hc H0) as [Hs0 Hcap].
  destruct (insert_all_ok s0 l Hs0) as [Hs Hcap']. rewrite Hcap in Hcap'. cbv zeta.
  set (s := insert_all s0 l) in *. pose proof Hs as [_ Hn Hk Hi Hb]. split_and!.
  - by rewrite <- Hcap'.
  - unfold PlanStore_len. by rewrite length_queue.
  - by rewrite queue_ids.
  - intros p id. rewrite elem_of_queue by done. split; [|by intros [? <-]].
    intros Hp. by rewrite (Hi _ _ Hp).
  - intros p Hp Hid. apply elem_of_queue in Hp; [|done]. unfold PlanStore_get in Hp.
    unfold PlanStore_insert. rewrite <- Hid, Hp. by case_decide.
  - intros Hnew. assert (ps_plans s !! rp_id plan = None) as Hnone.
    { destruct (ps_plans s !! rp_id plan) as [q|] eqn:E; [|done].
      destruct (Hnew q); [|by apply Hi in E]. apply elem_of_queue; [done|].
      unfold PlanStore_get. by rewrite (Hi _ _ E). }
    destruct (insert_new s plan Hs Hnone) as (s' & Heq & _ & _ & Hq).
    rewrite Heq. cbn [fst snd]. by rewrite Hq, Hcap'.
Qed.
