(* ===== verification/PlannerFacts.v ===== *)
(** * Properties of the planner

    A plan is the exact difference between desired and observed state; a
    compiled intent is the exact union of what its capabilities contribute. *)

From Stdlib Require Import ZArith Lia.
From stdpp Require Import base numbers gmap strings list fin_maps fin_map_dom sorting relations.
From S2P Require Import Prelude Text Core Digest Ordered Capability Intent Planner.

Set Default Goal Selector "!".

(** ** Plans *)

Section plans.
Context `{Crypto}.

(** The change a desired entry asks for. *)
Definition change_of (o : PlanningObservation) (kv : string * string) : option StateChange :=
  if decide (po_attributes o !! kv.1 = Some kv.2) then None
  else Some {| sc_key := kv.1; sc_current := po_attributes o !! kv.1; sc_desired := kv.2 |}.

Definition finding_of (o : PlanningObservation) (kv : string * string) : option PlanFinding :=
  match po_attributes o !! kv.1 with None => Some (unobserved_finding kv.1) | Some _ => None end.

Lemma diff_state_spec o entries changes findings :
  diff_state o entries changes findings
  = (changes ++ omap (change_of o) entries, findings ++ omap (finding_of o) entries).
Proof.
  revert changes findings. induction entries as [|[k v] entries IH]; intros changes findings; cbn.
  { by rewrite !app_nil_r. }
  unfold change_of, finding_of. cbn. destruct (po_attributes o !! k) as [c|] eqn:E.
  - case_decide as Hc.
    + subst. rewrite IH. by rewrite decide_True.
    + rewrite IH, decide_False by congruence. by rewrite <- app_assoc.
  - rewrite IH, decide_False by done. by rewrite <- !app_assoc.
Qed.

Lemma any_blocker_app l k : any_blocker (l ++ k) = any_blocker l || any_blocker k.
Proof. apply existsb_app. Qed.

Lemma any_blocker_findings o entries :
  any_blocker (omap (finding_of o) entries) = true ↔
  ∃ k v, (k, v) ∈ entries ∧ po_attributes o !! k = None.
Proof.
  induction entries as [|[k v] entries IH]; [cbn; set_solver|].
  cbn. unfold finding_of at 1. cbn. destruct (po_attributes o !! k) as [c|] eqn:E.
  - rewrite IH. split; [set_solver|]. intros (k' & v' & [[= -> ->]|?]%elem_of_cons & ?); [congruence|eauto].
  - cbn. split; [|done]. intros _. exists k, v. set_solver.
Qed.

(** Applying the changes of a plan to an attribute map. *)
Definition apply_change (m : gmap string string) (c : StateChange) : gmap string string :=
  <[sc_key c := sc_desired c]> m.

Lemma apply_changes_spec o entries m :
  NoDup entries.*1 →
  (∀ k v, (k, v) ∈ entries → m !! k = po_attributes o !! k) →
  foldl apply_change m (omap (change_of o) entries) = list_to_map entries ∪ m.
Proof.
  revert m. induction entries as [|[k v] entries IH]; intros m; cbn.
  { intros _ _. by rewrite (left_id_L ∅ (∪)). }
  intros [Hk Hnd]%NoDup_cons Hm. unfold change_of. cbn.
  assert (list_to_map entries !! k = @None string) as Hnone by (by apply not_elem_of_list_to_map).
  case_decide as Hd; cbn.
  - rewrite IH; [|done|intros; eapply Hm; by right]. apply map_eq. intros k'.
    rewrite !lookup_union. destruct (decide (k' = k)) as [->|].
    + rewrite lookup_insert_eq, Hnone, (Hm k v), Hd by left. done.
    + by rewrite lookup_insert_ne.
  - rewrite IH; [|done|].
    + unfold apply_change. cbn. by rewrite <- insert_union_r, insert_union_l.
    + intros k' v' Hin. unfold apply_change. cbn. rewrite lookup_insert_ne; [eapply Hm; by right|].
      intros <-. apply Hk. by apply (list_elem_of_fmap_2 fst) in Hin.
Qed.

Lemma btree_entries_map (m : gmap string string) : list_to_map (btree_entries m) = m.
Proof.
  apply map_eq. intros k. apply option_eq. intros v.
  rewrite <- elem_of_list_to_map by apply btree_entries_NoDup. apply elem_of_btree_entries.
Qed.

(** What planning requires of its inputs. *)
Record plannable (request_id : RequestId) (d : DesiredResource) (o : PlanningObservation) : Prop := {
  pl_desired : validate_desired_resource d = Ok tt;
  pl_observation : validate_planning_observation o = Ok tt;
  pl_current : po_freshness o = PlanningCurrent;
  pl_provider : po_provider o = dr_provider d;
  pl_resource : po_resource o = dr_resource d;
  pl_capability : po_observation_capability o = dr_observation_capability d;
  pl_request : validate_token "plan id" request_id = Ok tt;
}.

Lemma plan_resource_Ok request_id actor d o p :
  plan_resource request_id actor d o = Ok p →
  plannable request_id d o ∧
  rp_changes p = omap (change_of o) (btree_entries (dr_state d)) ∧
  rp_findings p = initial_findings o ++ omap (finding_of o) (btree_entries (dr_state d)) ∧
  rp_status p = (if any_blocker (rp_findings p) then Blocked
                 else if is_nil (rp_changes p) then NoChange else ChangeProposed) ∧
  rp_prospective_risk p = (if is_nil (rp_changes p) then ReadOnly else SystemMutation) ∧
  rp_id p = request_id ∧ rp_request_id p = request_id ∧ rp_actor p = actor ∧
  rp_provider p = dr_provider d ∧ rp_resource p = dr_resource d ∧
  rp_observation_capability p = dr_observation_capability d ∧
  rp_reason p = dr_reason d ∧ rp_observed_evidence_id p = po_evidence_id o.
Proof.
  unfold plan_resource. intros H0. rewrite diff_state_spec in H0.
  apply bind_Ok in H0 as ([] & Hd%map_err_Ok & H0). apply bind_Ok in H0 as ([] & Hv & H0).
  apply bind_Ok in H0 as ([] & Hf%reject_if_Ok%negb_false_iff%bool_decide_eq_true & H0).
  apply bind_Ok in H0 as ([] & Hp%reject_if_Ok%negb_false_iff%bool_decide_eq_true & H0).
  apply bind_Ok in H0 as ([] & Hr%reject_if_Ok%negb_false_iff%bool_decide_eq_true & H0).
  apply bind_Ok in H0 as ([] & Hc%reject_if_Ok%negb_false_iff%bool_decide_eq_true & H0).
  apply bind_Ok in H0 as (id & Hid%map_err_Ok & [= <-]).
  unfold PlanId_new, typed_id_new in Hid. apply bind_Ok in Hid as ([] & Htok & [= <-]).
  cbn. split_and!; try done.
Qed.

Lemma plan_resource_total request_id actor d o :
  plannable request_id d o → ∃ p, plan_resource request_id actor d o = Ok p.
Proof.
  intros [Hd Hv Hf Hp Hr Hc Ht]. unfold plan_resource, PlanId_new, typed_id_new.
  rewrite Hd, Hv, Ht, !bool_decide_eq_true_2 by done. cbn [map_err mbind result_bind negb reject_if].
  destruct (diff_state _ _ _ _). by eexists.
Qed.

(** Planning succeeds exactly for a valid desired resource, a usable
    current observation of the same provider, resource and capability, and a
    request identifier that can name a plan; every other input is an error. *)
Theorem planning_succeeds_exactly request_id actor d o :
  is_ok (plan_resource request_id actor d o) = true ↔ plannable request_id d o.
Proof.
  split.
  - destruct (plan_resource request_id actor d o) as [p|] eqn:E; [|done].
    by apply plan_resource_Ok in E as [? _].
  - intros Hp. by destruct (plan_resource_total request_id actor d o Hp) as [p ->].
Qed.

Lemma omap_nil_iff {A B} (f : A → option B) l : omap f l = [] ↔ ∀ x, x ∈ l → f x = None.
Proof.
  induction l as [|x l IH]; cbn; [set_solver|]. destruct (f x) eqn:E.
  - split; [done|]. intros Hx. rewrite Hx in E; [done|left].
  - rewrite IH. set_solver.
Qed.

Lemma is_nil_spec {A} (l : list A) : is_nil l = true ↔ l = [].
Proof. by destruct l. Qed.

Lemma change_of_None o k v : change_of o (k, v) = None ↔ po_attributes o !! k = Some v.
Proof. unfold change_of. cbn. case_decide; naive_solver. Qed.

Lemma change_keys_sublist o l : sc_key <$> omap (change_of o) l `sublist_of` l.*1.
Proof.
  induction l as [|[k v] l IH]; cbn; [done|]. unfold change_of at 1. cbn.
  case_decide; cbn; [by apply sublist_cons|by apply sublist_skip].
Qed.

(** What a plan's blockers and changes say of the two states. *)
Lemma plan_resource_reads request_id actor d o p :
  plan_resource request_id actor d o = Ok p →
  (any_blocker (rp_findings p) = true ↔
     ∃ k, is_Some (dr_state d !! k) ∧ po_attributes o !! k = None) ∧
  (is_nil (rp_changes p) = true ↔ dr_state d ⊆ po_attributes o) ∧
  (dr_state d ⊆ po_attributes o → any_blocker (rp_findings p) = false).
Proof.
  intros (_ & Hc & Hf & Hs & Hr & _)%plan_resource_Ok.
  assert (any_blocker (rp_findings p) = true ↔
          ∃ k, is_Some (dr_state d !! k) ∧ po_attributes o !! k = None) as Hb.
  { rewrite Hf, any_blocker_app. change (any_blocker (initial_findings o)) with false. cbn [orb].
    rewrite any_blocker_findings. setoid_rewrite elem_of_btree_entries. unfold is_Some. naive_solver. }
  split_and!; [done| |].
  - rewrite is_nil_spec, Hc, omap_nil_iff, map_subseteq_spec. split.
    + intros Hx k v Hk. apply change_of_None, Hx. by apply elem_of_btree_entries.
    + intros Hx [k v] Hk%elem_of_btree_entries. by apply change_of_None, Hx.
  - intros Hsub. apply not_true_is_false. rewrite Hb. intros (k & [v Hv] & Hk).
    rewrite map_subseteq_spec in Hsub. rewrite (Hsub k v Hv) in Hk. done.
Qed.

Lemma plan_no_change_iff request_id actor d o p :
  plan_resource request_id actor d o = Ok p →
  rp_status p = NoChange ↔ dr_state d ⊆ po_attributes o.
Proof.
  intros Hp. destruct (plan_resource_reads _ _ _ _ _ Hp) as (_ & Hn & Hsub).
  apply plan_resource_Ok in Hp as (_ & _ & _ & Hs & _). rewrite Hs, <- Hn.
  destruct (is_nil (rp_changes p)) eqn:E.
  - rewrite Hsub by (by apply Hn). done.
  - by destruct (any_blocker _).
Qed.

(** C32: A plan is the exact difference between the desired state and the
    observation.  Its changes list, once each, the desired attributes whose
    observed value differs or is absent; applying them to the observation
    gives the desired state over the rest of the observation.  It is blocked
    when a desired attribute is not observed at all, proposes no change (and
    is read-only) when every desired attribute is observed as desired, and it
    never carries execution authority. *)
Theorem plan_is_exact_difference request_id actor d o p
    (Hp : plan_resource request_id actor d o = Ok p) :
  (∀ c, c ∈ rp_changes p ↔
     dr_state d !! sc_key c = Some (sc_desired c) ∧
     sc_current c = po_attributes o !! sc_key c ∧ sc_current c ≠ Some (sc_desired c)) ∧
  NoDup (sc_key <$> rp_changes p) ∧
  foldl apply_change (po_attributes o) (rp_changes p) = dr_state d ∪ po_attributes o ∧
  (rp_status p = Blocked ↔ ∃ k, is_Some (dr_state d !! k) ∧ po_attributes o !! k = None) ∧
  (rp_status p = NoChange ↔ dr_state d ⊆ po_attributes o) ∧
  (rp_prospective_risk p = ReadOnly ↔ rp_status p = NoChange) ∧
  (has_blockers p = true ↔ rp_status p = Blocked) ∧
  execution_authorized p = false.
Proof.
  destruct (plan_resource_reads _ _ _ _ _ Hp) as (Hb & Hn & Hsub).
  pose proof (plan_no_change_iff _ _ _ _ _ Hp) as Hnc.
  apply plan_resource_Ok in Hp as (_ & Hc & Hf & Hs & Hr & _).
  rewrite Hs in Hnc. rewrite Hr, Hs. split_and!.
  - intros c. rewrite Hc, list_elem_of_omap. split.
    + intros ([k v] & Hkv%elem_of_btree_entries & Hch). unfold change_of in Hch. cbn in Hch.
      case_decide; [done|]. injection Hch as <-. cbn. done.
    + intros (Hk & Hcur & Hne). exists (sc_key c, sc_desired c). rewrite elem_of_btree_entries.
      split; [done|]. unfold change_of. cbn. rewrite decide_False by congruence. f_equal.
      rewrite <- Hcur. by destruct c.
  - rewrite Hc. eapply sublist_NoDup; [apply (btree_entries_NoDup (dr_state d))|apply change_keys_sublist].
  - rewrite Hc, apply_changes_spec; [by rewrite btree_entries_map|apply btree_entries_NoDup|done].
  - rewrite <- Hb. destruct (any_blocker _); [done|]. by destruct (is_nil _).
  - exact Hnc.
  - destruct (is_nil (rp_changes p)) eqn:E; [rewrite Hsub by (by apply Hn); done|].
    by destruct (any_blocker _).
  - unfold has_blockers. destruct (any_blocker _); [done|]. by destruct (is_nil _).
  - unfold execution_authorized. by destruct (rp_execution_authority p).
Qed.
End plans.

(** ** Compilation of an intent *)

Section compile.
Context `{Crypto}.

Lemma merge_state_Ok resource state entries state' :
  NoDup entries.*1 →
  merge_state resource state entries = Ok state' ↔
  (∀ k v w, (k, v) ∈ entries → state !! k = Some w → w = v) ∧ state' = list_to_map entries ∪ state.
Proof.
  revert state. induction entries as [|[k v] entries IH]; intros state; cbn.
  { intros _. rewrite (left_id_L ∅ (∪)). split; [intros [= ->]; set_solver|naive_solver]. }
  intros [Hk Hnd]%NoDup_cons.
  assert (list_to_map entries !! k = @None string) as Hnone by (by apply not_elem_of_list_to_map).
  assert (merge_state resource (<[k:=v]> state) entries = Ok state' ↔
          (∀ k' v' w, (k', v') ∈ entries → state !! k' = Some w → w = v') ∧
          state' = <[k:=v]> (list_to_map entries) ∪ state) as Hins.
  { rewrite IH by done. rewrite <- insert_union_r, insert_union_l by done.
    enough ((∀ k' v' w, (k', v') ∈ entries → <[k:=v]> state !! k' = Some w → w = v') ↔
            (∀ k' v' w, (k', v') ∈ entries → state !! k' = Some w → w = v')) as -> by done.
    split; intros Hx k' v' w Hin; specialize (Hx k' v' w Hin);
      (rewrite lookup_insert_ne in * by (intros <-; apply Hk; by apply (list_elem_of_fmap_2 fst) in Hin));
      done. }
  destruct (state !! k) as [w|] eqn:E.
  - destruct (decide (w = v)) as [->|Hne].
    + rewrite Hins. split; intros [Hx ->]; (split; [|done]).
      * intros k' v' w [[= -> ->]|Hin]%elem_of_cons; [congruence|eauto].
      * intros k' v' w Hin. apply Hx. by right.
    + split; [done|]. intros [Hx _]. destruct Hne. eapply (Hx k v w); [left|done].
  - rewrite Hins. split; intros [Hx ->]; (split; [|done]).
    + intros k' v' w [[= -> ->]|Hin]%elem_of_cons; [congruence|eauto].
    + intros k' v' w Hin. apply Hx. by right.
Qed.

(** The templates of the capabilities of a list, in order. *)
Definition contributions_of (catalog : CapabilityCatalog) (capability : CapabilityId)
    : list (CapabilityId * DesiredResourceBlueprint) :=
  match blueprints catalog !! capability with
  | Some b => pair capability <$> cb_desired_resources b
  | None => []
  end.

Definition entry_at (m : DesiredResourceContributions) (key : DesiredResourceKey)
    : DesiredResourceContribution := default empty_contribution (m !! key).

(** [m] is the union of the contributions [l]. *)
Record merged (m : DesiredResourceContributions)
    (l : list (CapabilityId * DesiredResourceBlueprint)) : Prop := {
  merged_keys : ∀ key, is_Some (m !! key) ↔ ∃ c t, (c, t) ∈ l ∧ template_key t = key;
  merged_state : ∀ key k v, drc_state (entry_at m key) !! k = Some v ↔
    ∃ c t, (c, t) ∈ l ∧ template_key t = key ∧ drb_state t !! k = Some v;
  merged_caps : ∀ key c, c ∈ drc_capabilities (entry_at m key) ↔
    ∃ t, (c, t) ∈ l ∧ template_key t = key;
}.

(** No two contributions to one resource disagree on an attribute. *)
Definition consistent (l : list (CapabilityId * DesiredResourceBlueprint)) : Prop :=
  ∀ c1 t1 c2 t2 k v1 v2, (c1, t1) ∈ l → (c2, t2) ∈ l → template_key t1 = template_key t2 →
    drb_state t1 !! k = Some v1 → drb_state t2 !! k = Some v2 → v1 = v2.

Lemma merged_nil : merged ∅ [].
Proof.
  constructor; unfold entry_at.
  - intros key. rewrite lookup_empty. split; [by intros []|]. intros (c & t & Hin & _). set_solver.
  - intros key k v. rewrite lookup_empty. cbn. rewrite lookup_empty. set_solver.
  - intros key c. rewrite lookup_empty. cbn. set_solver.
Qed.

Lemma add_template_Ok c m t m' :
  add_template c m t = Ok m' ↔
  let e := entry_at m (template_key t) in
  (∀ k v w, drb_state t !! k = Some v → drc_state e !! k = Some w → w = v) ∧
  m' = <[template_key t := {| drc_state := drb_state t ∪ drc_state e;
                              drc_capabilities := {[c]} ∪ drc_capabilities e |}]> m.
Proof.
  unfold add_template, entry_at. rewrite bind_Ok. cbv zeta.
  setoid_rewrite merge_state_Ok; [|apply btree_entries_NoDup].
  setoid_rewrite elem_of_btree_entries. rewrite btree_entries_map. split.
  - intros (st & (Hx & ->) & [= <-]). done.
  - intros (Hx & ->). by eexists.
Qed.

Lemma entry_at_insert m key e : entry_at (<[key:=e]> m) key = e.
Proof. unfold entry_at. by rewrite lookup_insert_eq. Qed.

Lemma entry_at_insert_ne m key key' e : key ≠ key' → entry_at (<[key:=e]> m) key' = entry_at m key'.
Proof. intros Hne. unfold entry_at. by rewrite lookup_insert_ne. Qed.

Lemma merged_snoc c m t m' l :
  merged m l → add_template c m t = Ok m' → merged m' (l ++ [(c, t)]).
Proof.
  intros [Hdom Hst Hcp] (Hagree & ->)%add_template_Ok.
  assert (∀ P : CapabilityId → DesiredResourceBlueprint → Prop,
    (∃ c' t', (c', t') ∈ l ++ [(c, t)] ∧ P c' t') ↔ (∃ c' t', (c', t') ∈ l ∧ P c' t') ∨ P c t) as Hex.
  { intros P. setoid_rewrite elem_of_app. setoid_rewrite list_elem_of_singleton. split.
    - intros (c' & t' & [Hin|[= -> ->]] & HP); [left; eauto|by right].
    - intros [(c' & t' & Hin & HP)|HP]; [exists c', t'|exists c, t]; auto. }
  constructor; intros key.
  - rewrite Hex, lookup_insert_is_Some', Hdom. clear. naive_solver.
  - intros k v. rewrite Hex. destruct (decide (template_key t = key)) as [<-|Hne].
    + rewrite entry_at_insert. cbn [drc_state]. rewrite lookup_union_Some_raw, Hst.
      split; [intros [Hx|[_ Hx]]; auto|]. intros [Hl|[_ Ht]]; [|by left].
      destruct (drb_state t !! k) as [w|] eqn:E; [left|by right]. f_equal.
      symmetry. by apply (Hagree k w v E), Hst.
    + rewrite entry_at_insert_ne by done. rewrite Hst. clear -Hne. naive_solver.
  - intros c'. setoid_rewrite elem_of_app. setoid_rewrite list_elem_of_singleton.
    destruct (decide (template_key t = key)) as [<-|Hne].
    + rewrite entry_at_insert. cbn [drc_capabilities].
      rewrite elem_of_union, elem_of_singleton, Hcp. split.
      * intros [->|(t' & Hin & Hk)]; [exists t|exists t']; auto.
      * intros (t' & [Hin|[= -> ->]] & Hk); [right; by exists t'|by left].
    + rewrite entry_at_insert_ne by done. rewrite Hcp. split.
      * intros (t' & Hin & Hk). exists t'. auto.
      * intros (t' & [Hin|[= -> ->]] & Hk); [by exists t'|done].
Qed.

Lemma add_template_consistent c m t l :
  merged m l → consistent l → (∃ m', add_template c m t = Ok m') ↔ consistent (l ++ [(c, t)]).
Proof.
  intros [_ Hst _] Hl. setoid_rewrite add_template_Ok. cbv zeta. split.
  - intros (m' & Hagree & _) c1 t1 c2 t2 k v1 v2.
    rewrite !elem_of_app, !list_elem_of_singleton.
    intros [H1|[= -> ->]] [H2|[= -> ->]] Hk Hv1 Hv2; [by eapply (Hl c1 t1 c2 t2)| | |congruence].
    + apply (Hagree k v2 v1 Hv2), Hst. eauto.
    + symmetry. apply (Hagree k v1 v2 Hv1), Hst. eauto.
  - intros Hc. eexists. split; [|done]. intros k v w Hv (c' & t' & Hin & Hk & Hw)%Hst.
    apply (Hc c' t' c t k); [apply elem_of_app; by left|apply elem_of_app; right; by apply list_elem_of_singleton|done..].
Qed.

Lemma consistent_app_l l k : consistent (l ++ k) → consistent l.
Proof. intros Hc c1 t1 c2 t2 x v1 v2 H1 H2. apply (Hc c1 t1 c2 t2); set_solver. Qed.

Lemma add_templates_spec c m ts l :
  merged m l → consistent l →
  (∀ m', add_templates c m ts = Ok m' → merged m' (l ++ (pair c <$> ts)) ∧
                                        consistent (l ++ (pair c <$> ts))) ∧
  (consistent (l ++ (pair c <$> ts)) → ∃ m', add_templates c m ts = Ok m').
Proof.
  revert m l. induction ts as [|t ts IH]; intros m l Hm Hl; cbn.
  { rewrite app_nil_r. split; [by intros ? [= <-]|eauto]. }
  rewrite !(cons_middle (c, t) l), !(assoc_L (++) l).
  pose proof (add_template_consistent c m t l Hm Hl) as Hst. split.
  - intros m' (m1 & H1 & H2)%bind_Ok.
    apply (proj1 (IH m1 (l ++ [(c, t)]) (merged_snoc _ _ _ _ _ Hm H1) (proj1 Hst (ex_intro _ m1 H1)))).
    done.
  - intros Hc. pose proof (consistent_app_l _ _ Hc) as Hc1. destruct (proj2 Hst Hc1) as [m1 H1].
    rewrite H1. cbn. by apply (IH m1 (l ++ [(c, t)])); [eapply merged_snoc|..].
Qed.

Lemma add_capabilities_spec catalog m warnings caps l :
  merged m l → consistent l →
  let l' := l ++ (caps ≫= contributions_of catalog) in
  (∀ m' w', add_capabilities catalog m warnings caps = Ok (m', w') → merged m' l' ∧ consistent l') ∧
  (consistent l' → Forall (λ c, is_Some (blueprints catalog !! c)) caps →
   ∃ m' w', add_capabilities catalog m warnings caps = Ok (m', w')).
Proof.
  revert m warnings l. induction caps as [|c caps IH]; intros m warnings l Hm Hl; cbv zeta.
  { cbn. rewrite app_nil_r. split; [by intros ? ? [= <- <-]|eauto]. }
  cbn [add_capabilities]. rewrite bind_cons. unfold CapabilityCatalog_blueprint.
  destruct (blueprints catalog !! c) as [b|] eqn:Hb.
  2: { split; [done|]. intros _ [[? ?] _]%Forall_cons. congruence. }
  assert (contributions_of catalog c = pair c <$> cb_desired_resources b) as ->.
  { unfold contributions_of. by rewrite Hb. }
  set (w := if is_nil (cb_desired_resources b) then _ else warnings).
  rewrite (assoc_L (++)).
  destruct (add_templates_spec c m (cb_desired_resources b) l Hm Hl) as [Hts Hex]. split.
  - intros m' w' (m1 & H1 & H2)%bind_Ok. destruct (Hts m1 H1) as [Hm1 Hl1].
    by apply (proj1 (IH m1 w _ Hm1 Hl1)) in H2.
  - intros Hc [_ Hall]%Forall_cons. destruct (Hex (consistent_app_l _ _ Hc)) as [m1 H1].
    rewrite H1. cbn. destruct (Hts m1 H1) as [Hm1 Hl1]. by apply (proj2 (IH m1 w _ Hm1 Hl1)).
Qed.
(** ** What a compiled intent contains *)

(** [t] is a template of the selected capability [c]. *)
Definition contributes (catalog : CapabilityCatalog) (selected : gset CapabilityId)
    (c : CapabilityId) (t : DesiredResourceBlueprint) : Prop :=
  c ∈ selected ∧ ∃ b, blueprints catalog !! c = Some b ∧ t ∈ cb_desired_resources b.

Definition desired_key (d : DesiredResource) : DesiredResourceKey :=
  (dr_provider d, dr_resource d, dr_observation_capability d).

Lemma elem_of_contributions catalog selected c t :
  (c, t) ∈ btree_elements selected ≫= contributions_of catalog ↔ contributes catalog selected c t.
Proof.
  rewrite list_elem_of_bind. setoid_rewrite elem_of_btree_elements. unfold contributes, contributions_of.
  split.
  - intros (c' & Hin & Hc). destruct (blueprints catalog !! c') as [b|] eqn:Hb; [|set_solver].
    apply list_elem_of_fmap in Hin as (t' & [= -> ->] & Hin). eauto.
  - intros (Hc & b & Hb & Ht). exists c. rewrite Hb. split; [|done]. by apply list_elem_of_fmap_2.
Qed.

Lemma resolve_capabilities_Ok intent catalog requested r :
  resolve_capabilities intent catalog requested = Ok r ↔
  is_managed intent = true ∧ r = resolve catalog requested ∧
  res_missing r = ∅ ∧ res_conflicts r = [].
Proof.
  unfold resolve_capabilities. destruct (is_managed intent); cbn; [|naive_solver].
  destruct (btree_elements (res_missing (resolve catalog requested))) as [|x l] eqn:E.
  - assert (res_missing (resolve catalog requested) = ∅) as Hm.
    { apply set_eq. intros x. rewrite <- elem_of_btree_elements, E. set_solver. }
    destruct (res_conflicts (resolve catalog requested)) as [|[a b] l] eqn:E2.
    + split; [by intros [= <-]|by intros (_ & -> & _)].
    + split; [done|]. intros (_ & -> & _ & Hc). congruence.
  - split; [done|]. intros (_ & -> & Hm & _).
    assert (x ∈ btree_elements (res_missing (resolve catalog requested))) as Hx by (rewrite E; left).
    rewrite elem_of_btree_elements, Hm in Hx. set_solver.
Qed.

Lemma validate_resources_Ok seen l :
  validate_resources seen l = Ok tt ↔
  NoDup (dr_resource <$> l) ∧ (∀ d, d ∈ l → dr_resource d ∉ seen) ∧
  Forall (λ d, validate_desired_resource d = Ok tt) l.
Proof.
  revert seen. induction l as [|d l IH]; intros seen; cbn.
  { split; [|done]. intros _. split_and!; [constructor|set_solver|constructor]. }
  rewrite NoDup_cons, Forall_cons. split.
  - intros H0. apply bind_Ok in H0 as ([] & Hs%reject_if_Ok%bool_decide_eq_false & H0).
    apply bind_Ok in H0 as ([] & Hd & (Hn & Hf & Hall)%IH). split_and!; try done.
    + intros (d' & He & Hin)%list_elem_of_fmap. specialize (Hf d' Hin). set_solver.
    + intros d' [->|Hin]%elem_of_cons; [done|]. specialize (Hf d' Hin). set_solver.
  - intros ((Hn & Hnd) & Hf & Hd & Hall). rewrite bool_decide_eq_false_2 by (apply Hf; left). cbn.
    rewrite Hd. cbn. apply IH. split_and!; try done. intros d' Hin.
    apply not_elem_of_union. split; [|apply Hf; by right]. rewrite elem_of_singleton. intros He.
    apply Hn. rewrite <- He. by apply list_elem_of_fmap_2.
Qed.

Lemma compile_intent_Ok intent catalog requested plan :
  compile_intent intent catalog requested = Ok plan →
  ∃ m w, let r := resolve catalog requested in
    trim_is_empty (intent_statement intent) = false ∧ is_managed intent = true ∧
    res_missing r = ∅ ∧ res_conflicts r = [] ∧
    add_capabilities catalog ∅ [] (btree_elements (res_selected r)) = Ok (m, w) ∧
    DesiredState_validate (ip_desired_state plan) = Ok tt ∧
    plan = {| ip_intent_id := intent_id intent; ip_capability_resolution := r;
              ip_desired_state :=
                {| ds_resources := desired_of intent <$> merge_sort key3_le (map_to_list m) |};
              ip_warnings := merge_sort String.le w |}.
Proof.
  unfold compile_intent. intros H0.
  apply bind_Ok in H0 as ([] & Ht%reject_if_Ok & H0).
  apply bind_Ok in H0 as (r & (Hm & -> & Hmis & Hcf)%resolve_capabilities_Ok & H0).
  apply bind_Ok in H0 as ([m w] & Hadd & H0). apply bind_Ok in H0 as ([] & Hv%map_err_Ok & [= <-]).
  by exists m, w.
Qed.

(** C33: A compiled intent is exactly what its capabilities contribute.  The
    intent is active, the selection is the closure of the request, complete
    and free of declared conflicts; there is one desired resource per
    provider, resource and observation route named by a template of a
    selected capability; its state is the union of those templates; the
    recorded reason names the intent and exactly the contributing
    capabilities; and resources are valid and not repeated. *)
Theorem compiled_intent_is_exact_union intent catalog requested plan
    (Hok : compile_intent intent catalog requested = Ok plan) :
  let selected := res_selected (ip_capability_resolution plan) in
  let resources := ds_resources (ip_desired_state plan) in
  is_managed intent = true ∧
  (∀ c, c ∈ selected ↔ ∃ y, y ∈ requested ∧ rtc (declares catalog Requires) y c) ∧
  (∀ c, c ∈ selected → is_Some (blueprints catalog !! c)) ∧
  (∀ c1 c2, c1 ∈ selected → c2 ∈ selected → ¬ declares catalog Conflicts c1 c2) ∧
  (∀ key, (∃ d, d ∈ resources ∧ desired_key d = key) ↔
          ∃ c t, contributes catalog selected c t ∧ template_key t = key) ∧
  (∀ d k v, d ∈ resources → dr_state d !! k = Some v ↔
     ∃ c t, contributes catalog selected c t ∧ template_key t = desired_key d ∧
            drb_state t !! k = Some v) ∧
  (∀ d, d ∈ resources → sr_intent_ids (dr_reason d) = [intent_id intent] ∧
     ∀ c, c ∈ sr_capability_ids (dr_reason d) ↔
          ∃ t, contributes catalog selected c t ∧ template_key t = desired_key d) ∧
  NoDup (dr_resource <$> resources) ∧
  Forall (λ d, validate_desired_resource d = Ok tt) resources.
Proof.
  destruct (compile_intent_Ok _ _ _ _ Hok) as (m & w & _ & Hman & Hmis & Hcf & Hadd & Hval & ->).
  cbv zeta. cbn in Hval. cbn. set (r := resolve catalog requested) in *.
  pose proof (resolve_computes catalog requested) as [HS HM HC _ _]. fold r in HS, HM, HC.
  set (L := btree_elements (res_selected r) ≫= contributions_of catalog).
  destruct (add_capabilities_spec catalog ∅ [] (btree_elements (res_selected r)) [] merged_nil)
    as [Hspec _]; [by intros ? ? ? ? ? ? ? Hin%not_elem_of_nil|].
  destruct (Hspec m w Hadd) as [[Hkeys Hst Hcp] _]. cbn [app] in Hkeys, Hst, Hcp. fold L in Hkeys, Hst, Hcp.
  assert (∀ c t, (c, t) ∈ L ↔ contributes catalog (res_selected r) c t) as HL
    by (intros; apply elem_of_contributions).
  setoid_rewrite HL in Hkeys. setoid_rewrite HL in Hst. setoid_rewrite HL in Hcp.
  assert (∀ d, d ∈ desired_of intent <$> merge_sort key3_le (map_to_list m) ↔
    ∃ key e, m !! key = Some e ∧ d = desired_of intent (key, e)) as Hd.
  { intros d. rewrite list_elem_of_fmap. setoid_rewrite merge_sort_Permutation. split.
    - intros ([key e] & -> & Hin%elem_of_map_to_list). eauto.
    - intros (key & e & Hin & ->). exists (key, e). by rewrite elem_of_map_to_list. }
  assert (∀ key e, m !! key = Some e → entry_at m key = e) as He
    by (intros key e Hke; unfold entry_at; by rewrite Hke).
  apply bind_Ok in Hval as ([] & _ & (Hnd & _ & Hall)%validate_resources_Ok).
  split_and!; [done|done| | | | | |done|done].
  - intros c Hc. destruct (blueprints catalog !! c) eqn:E; [by eexists|].
    assert (c ∈ res_missing r) as Hx by (apply HM; split; [by apply HS|done]). set_solver.
  - intros c1 c2 H1 H2 Hdec. assert (canonical_conflict_pair c1 c2 ∈ res_conflicts r) as Hx.
    { apply HC. by exists c1, c2. }
    rewrite Hcf in Hx. by apply not_elem_of_nil in Hx.
  - intros key. rewrite <- Hkeys. setoid_rewrite Hd. split.
    + intros (d & ([[p0 r0] c0] & e & Hke & ->) & <-). cbn. by eexists.
    + intros [e Hke]. eexists. split; [by eauto|]. by destruct key as [[? ?] ?].
  - intros d k v (key & e & Hke & ->)%Hd. rewrite <- (He _ _ Hke) at 1.
    destruct key as [[p0 r0] c0]. cbn. rewrite Hst. done.
  - intros d (key & e & Hke & ->)%Hd. destruct key as [[p0 r0] c0]. cbn. split; [done|].
    intros c. rewrite elem_of_btree_elements, <- (He _ _ Hke), Hcp. done.
Qed.
Lemma merge_state_Err resource state entries e :
  merge_state resource state entries = Err e →
  ∃ k a b, e = DesiredStateConflict resource k a b ∧ a ≠ b.
Proof.
  revert state. induction entries as [|[k v] entries IH]; intros state; cbn; [done|].
  destruct (state !! k) as [w|]; [case_decide|]; [apply IH| |apply IH]. intros [= <-]. by eexists _, _, _.
Qed.

Lemma add_templates_Err c m ts e :
  add_templates c m ts = Err e → ∃ r k a b, e = DesiredStateConflict r k a b ∧ a ≠ b.
Proof.
  revert m. induction ts as [|t ts IH]; intros m; cbn; [done|].
  intros [H1|(m' & _ & H2)]%bind_Err; [|by eapply IH].
  unfold add_template in H1. apply bind_Err in H1 as [H1|(st & _ & ?)]; [|done].
  apply merge_state_Err in H1 as (k & a & b & ? & ?). by exists (drb_resource t), k, a, b.
Qed.

Lemma add_capabilities_Err catalog m warnings caps e :
  Forall (λ c, is_Some (blueprints catalog !! c)) caps →
  add_capabilities catalog m warnings caps = Err e →
  ∃ r k a b, e = DesiredStateConflict r k a b ∧ a ≠ b.
Proof.
  intros Hall. revert m warnings. induction Hall as [|c caps [b Hb] _ IH]; intros m warnings; cbn; [done|].
  unfold CapabilityCatalog_blueprint. rewrite Hb.
  intros [H1|(m' & _ & H2)]%bind_Err; [by eapply add_templates_Err|by eapply IH].
Qed.

(** Compilation of an active, stated intent over a complete and
    conflict-free selection gives a desired state when the templates agree
    and the merged state is valid, and otherwise an error that names the
    disagreement: two templates for one resource that want different values
    of one attribute are never merged silently. *)
Theorem compile_detects_disagreement intent catalog requested
    (Hstated : trim_is_empty (intent_statement intent) = false)
    (Hactive : is_managed intent = true)
    (Hknown : ∀ c, c ∈ res_selected (resolve catalog requested) → is_Some (blueprints catalog !! c))
    (Hfree : ∀ c1 c2, c1 ∈ res_selected (resolve catalog requested) →
       c2 ∈ res_selected (resolve catalog requested) → ¬ declares catalog Conflicts c1 c2) :
  let agree := ∀ c1 t1 c2 t2 k v1 v2,
    contributes catalog (res_selected (resolve catalog requested)) c1 t1 →
    contributes catalog (res_selected (resolve catalog requested)) c2 t2 →
    template_key t1 = template_key t2 →
    drb_state t1 !! k = Some v1 → drb_state t2 !! k = Some v2 → v1 = v2 in
  (agree → (∃ plan, compile_intent intent catalog requested = Ok plan) ∨
           (∃ reason, compile_intent intent catalog requested = Err (InvalidDesiredState reason))) ∧
  (¬ agree → ∃ r k a b, a ≠ b ∧
     compile_intent intent catalog requested = Err (DesiredStateConflict r k a b)).
Proof.
  pose proof (resolve_computes catalog requested) as [HS HM HC _ _].
  set (r := resolve catalog requested) in *. set (L := btree_elements (res_selected r) ≫= contributions_of catalog).
  assert (resolve_capabilities intent catalog requested = Ok r) as Hres.
  { apply resolve_capabilities_Ok. fold r. split_and!; [done..| |].
    - apply set_eq. intros c. split; [|set_solver]. intros [Hc Hn]%HM. apply HS in Hc.
      destruct (Hknown c Hc). congruence.
    - destruct (res_conflicts r) as [|p l] eqn:E; [done|].
      destruct (proj1 (HC p)) as (x & y & Hx & Hy & Hd & _); [left|]. by destruct (Hfree x y). }
  assert (Forall (λ c, is_Some (blueprints catalog !! c)) (btree_elements (res_selected r))) as Hall.
  { apply Forall_forall. intros c Hc%elem_of_btree_elements. auto. }
  destruct (add_capabilities_spec catalog ∅ [] (btree_elements (res_selected r)) [] merged_nil)
    as [Hspec Hsucc]; [by intros ? ? ? ? ? ? ? Hin%not_elem_of_nil|]. cbn [app] in Hspec, Hsucc. fold L in Hspec, Hsucc.
  assert (∀ c t, (c, t) ∈ L ↔ contributes catalog (res_selected r) c t) as HL
    by (intros; apply elem_of_contributions).
  unfold compile_intent. rewrite Hstated, Hres. cbn [reject_if mbind result_bind]. cbv zeta.
  unfold consistent in Hspec, Hsucc. setoid_rewrite HL in Hspec. setoid_rewrite HL in Hsucc. split.
  - intros Hagree. destruct (Hsucc Hagree Hall) as (m & w & ->). cbn.
    destruct (DesiredState_validate _) as [[]|e]; cbn; eauto.
  - intros Hdis. destruct (add_capabilities _ _ _ _) as [[m w]|e] eqn:E; cbn.
    + destruct Hdis. by apply (Hspec m w).
    + apply add_capabilities_Err in E as (r0 & k & a & b & -> & Hne); [|done]. eauto 10.
Qed.
End compile.
