(* ===== verification/Policy.v ===== *)
(** * linura-policy: review subjects and policy engines

    Models [crates/linura-policy/src/lib.rs], [session_lock.rs] and
    [protective_lock.rs].  The trait [PolicyEngine] is a class; its provided
    method [evaluate] is defined once over it; the three policies are its
    instances. *)

From Stdlib Require Import ZArith Lia.
From stdpp Require Import base numbers gmap strings list fin_maps sorting.
From S2P Require Import Prelude Text Fields Core SessionIdentity Digest Ordered.

Set Default Goal Selector "!".

Definition MAX_EVIDENCE_ID_BYTES : Z := 1024.
Definition MAX_REVIEW_CHANGES : Z := 256.
Definition MAX_REVIEW_FINDINGS : Z := 256.

Inductive ApprovalClass :=
| InteractiveUser
| SessionOwnerAuthentication
| Administrator
| DestructiveAction.

Inductive ReviewPlanStatus := ReviewNoChange | ReviewChangeProposed | ReviewBlocked.

Inductive ReviewFindingLevel := ReviewPass | ReviewWarning | ReviewBlocker.

#[export] Instance ApprovalClass_eq_dec : EqDecision ApprovalClass.
Proof. solve_decision. Defined.
#[export] Instance ReviewPlanStatus_eq_dec : EqDecision ReviewPlanStatus.
Proof. solve_decision. Defined.
#[export] Instance ReviewFindingLevel_eq_dec : EqDecision ReviewFindingLevel.
Proof. solve_decision. Defined.

Record ReviewedChange := {
  rc_key : string;
  rc_current : option string;
  rc_desired : string;
}.

Record ReviewedFinding := {
  rf_code : string;
  rf_level : ReviewFindingLevel;
  rf_message : string;
}.

#[export] Instance ReviewedChange_eq_dec : EqDecision ReviewedChange.
Proof. solve_decision. Defined.
#[export] Instance ReviewedFinding_eq_dec : EqDecision ReviewedFinding.
Proof. solve_decision. Defined.

Record PolicySnapshot := {
  snap_policy_id : PolicyId;
  snap_revision_id : PolicyRevisionId;
}.

Inductive PolicySubjectValidationError :=
| SubjectInvalidSemanticReason (reason : string)
| EmptyEvidenceId
| EvidenceIdTooLong
| TooManyChanges
| TooManyFindings
| EmptyChangeKey
| SubjectDuplicateChangeKey (key : string)
| EmptyFindingCode
| EmptyFindingMessage
| NoChangeContainsChanges
| NoChangeHasNonReadOnlyRisk
| ChangeProposedWithoutChanges
| ChangeProposedIsReadOnly
| NonBlockedSubjectHasBlocker
| BlockedSubjectHasNoBlocker.

Definition PolicySubjectValidationError_display `{Crypto} (e : PolicySubjectValidationError)
    : string :=
  match e with
  | SubjectInvalidSemanticReason reason => "invalid semantic reason: " +:+ reason
  | EmptyEvidenceId => "policy subject evidence id cannot be empty"
  | EvidenceIdTooLong =>
      "policy subject evidence id exceeds " +:+ u64_to_string MAX_EVIDENCE_ID_BYTES +:+ " UTF-8 bytes"
  | TooManyChanges =>
      "policy subject exceeds the " +:+ u64_to_string MAX_REVIEW_CHANGES +:+ "-change review bound"
  | TooManyFindings =>
      "policy subject exceeds the " +:+ u64_to_string MAX_REVIEW_FINDINGS +:+ "-finding review bound"
  | EmptyChangeKey => "policy subject change key cannot be empty"
  | SubjectDuplicateChangeKey key =>
      "policy subject contains duplicate change key " +:+ debug_str key
  | EmptyFindingCode => "policy subject finding code cannot be empty"
  | EmptyFindingMessage => "policy subject finding message cannot be empty"
  | NoChangeContainsChanges => "no-change policy subject cannot contain planned changes"
  | NoChangeHasNonReadOnlyRisk =>
      "no-change policy subject must carry read-only prospective risk"
  | ChangeProposedWithoutChanges => "change-proposed policy subject must contain a planned change"
  | ChangeProposedIsReadOnly => "change-proposed policy subject cannot carry read-only risk"
  | NonBlockedSubjectHasBlocker =>
      "non-blocked policy subject cannot contain blocker findings"
  | BlockedSubjectHasNoBlocker =>
      "blocked policy subject must contain at least one blocker finding"
  end.

Record PolicySubject := {
  ps_principal : PrincipalId;
  ps_plan_id : PlanId;
  ps_request_id : RequestId;
  ps_actor : Actor;
  ps_provider : ProviderId;
  ps_resource : ResourceId;
  ps_capability : CapabilityId;
  ps_reason : SemanticReason;
  ps_observed_evidence_id : string;
  ps_prospective_risk : RiskClass;
  ps_status : ReviewPlanStatus;
  ps_changes : list ReviewedChange;
  ps_findings : list ReviewedFinding;
}.

#[export] Instance PolicySubject_eq_dec : EqDecision PolicySubject.
Proof. solve_decision. Defined.

Definition any_review_blocker (l : list ReviewedFinding) : bool :=
  existsb (λ f, bool_decide (rf_level f = ReviewBlocker)) l.

Fixpoint validate_change_keys (seen : gset string) (l : list ReviewedChange)
    : result PolicySubjectValidationError unit :=
  match l with
  | [] => Ok tt
  | change :: l =>
      reject_if (trim_is_empty (rc_key change)) EmptyChangeKey;;
      reject_if (bool_decide (rc_key change ∈ seen)) (SubjectDuplicateChangeKey (rc_key change));;
      validate_change_keys ({[rc_key change]} ∪ seen) l
  end.

Fixpoint validate_findings (l : list ReviewedFinding) : result PolicySubjectValidationError unit :=
  match l with
  | [] => Ok tt
  | finding :: l =>
      reject_if (trim_is_empty (rf_code finding)) EmptyFindingCode;;
      reject_if (trim_is_empty (rf_message finding)) EmptyFindingMessage;;
      validate_findings l
  end.

(** [match status] of [PolicySubject::try_new]. *)
Definition validate_status (status : ReviewPlanStatus) (risk : RiskClass) (no_changes has_blocker : bool)
    : result PolicySubjectValidationError unit :=
  match status with
  | ReviewNoChange =>
      reject_if (negb no_changes) NoChangeContainsChanges;;
      reject_if (negb (bool_decide (risk = ReadOnly))) NoChangeHasNonReadOnlyRisk;;
      reject_if has_blocker NonBlockedSubjectHasBlocker
  | ReviewChangeProposed =>
      reject_if no_changes ChangeProposedWithoutChanges;;
      reject_if (bool_decide (risk = ReadOnly)) ChangeProposedIsReadOnly;;
      reject_if has_blocker NonBlockedSubjectHasBlocker
  | ReviewBlocked => reject_if (negb has_blocker) BlockedSubjectHasNoBlocker
  end.

(** The arguments of [PolicySubject::try_new] are the fields of [s]. *)
Definition PolicySubject_try_new (s : PolicySubject) : result PolicySubjectValidationError PolicySubject :=
  map_err (λ error, SubjectInvalidSemanticReason (ValidationError_display error))
    (SemanticReason_validate (ps_reason s));;
  reject_if (trim_is_empty (ps_observed_evidence_id s)) EmptyEvidenceId;;
  reject_if (MAX_EVIDENCE_ID_BYTES <? str_len (ps_observed_evidence_id s))%Z EvidenceIdTooLong;;
  reject_if (MAX_REVIEW_CHANGES <? Z.of_nat (length (ps_changes s)))%Z TooManyChanges;;
  reject_if (MAX_REVIEW_FINDINGS <? Z.of_nat (length (ps_findings s)))%Z TooManyFindings;;
  validate_change_keys ∅ (ps_changes s);;
  validate_findings (ps_findings s);;
  validate_status (ps_status s) (ps_prospective_risk s) (is_nil (ps_changes s))
    (any_review_blocker (ps_findings s));;
  Ok s.

Definition PolicySubject_has_blockers (s : PolicySubject) : bool :=
  any_review_blocker (ps_findings s).

Record ReviewBinding := {
  rb_principal : PrincipalId;
  rb_plan_id : PlanId;
  rb_request_id : RequestId;
  rb_observed_evidence_id : string;
  rb_provider : ProviderId;
  rb_resource : ResourceId;
  rb_capability : CapabilityId;
  rb_policy_id : PolicyId;
  rb_policy_revision_id : PolicyRevisionId;
}.

Inductive PolicyDecision :=
| Allow
| Deny (reason : string)
| RequireApproval (class : ApprovalClass) (reason : string)
| DecisionBlocked (reason : string).

#[export] Instance ReviewBinding_eq_dec : EqDecision ReviewBinding.
Proof. solve_decision. Defined.
#[export] Instance PolicyDecision_eq_dec : EqDecision PolicyDecision.
Proof. solve_decision. Defined.

Record PolicyEvaluation := {
  pe_subject : PolicySubject;
  pe_binding : ReviewBinding;
  pe_decision : PolicyDecision;
}.

#[export] Instance PolicyEvaluation_eq_dec : EqDecision PolicyEvaluation.
Proof. solve_decision. Defined.

(** ** The trait [PolicyEngine] *)

Class PolicyEngine (P : Type) := {
  policy_snapshot : P → PolicySnapshot;
  evaluate_decision : P → PolicySubject → PolicyDecision;
}.

(** The provided method of the trait. *)
Definition evaluate `{PolicyEngine P} (policy : P) (subject : PolicySubject) : PolicyEvaluation :=
  let snapshot := policy_snapshot policy in
  {| pe_subject := subject;
     pe_binding :=
       {| rb_principal := ps_principal subject; rb_plan_id := ps_plan_id subject;
          rb_request_id := ps_request_id subject;
          rb_observed_evidence_id := ps_observed_evidence_id subject;
          rb_provider := ps_provider subject; rb_resource := ps_resource subject;
          rb_capability := ps_capability subject; rb_policy_id := snap_policy_id snapshot;
          rb_policy_revision_id := snap_revision_id snapshot |};
     pe_decision := evaluate_decision policy subject |}.

(** ** The baseline policy *)

Record BaselinePolicy := { bp_snapshot : PolicySnapshot }.

Definition BaselinePolicy_default : BaselinePolicy :=
  {| bp_snapshot := {| snap_policy_id := "policy:baseline";
                       snap_revision_id := "policy:baseline:v1" |} |}.

Definition baseline_decision (subject : PolicySubject) : PolicyDecision :=
  if bool_decide (ps_status subject = ReviewBlocked) || PolicySubject_has_blockers subject then
    DecisionBlocked "plan contains blockers and cannot enter approval review"
  else if bool_decide (actor_kind (ps_actor subject) = Remote) then
    Deny "remote actors are disabled in the initial profile"
  else
    let agent_proposal := bool_decide (actor_kind (ps_actor subject) = Agent) in
    match ps_prospective_risk subject with
    | ReadOnly | UserState => Allow
    | SystemMutation =>
        RequireApproval InteractiveUser
          (if agent_proposal then "agent-proposed system mutation requires interactive approval"
           else "system mutation requires interactive approval")
    | SecuritySensitive =>
        RequireApproval Administrator
          (if agent_proposal
           then "agent-proposed security-sensitive mutation requires administrator approval"
           else "security-sensitive mutation requires administrator approval")
    | Destructive =>
        RequireApproval DestructiveAction
          (if agent_proposal
           then "agent-proposed destructive mutation requires dedicated destructive approval"
           else "destructive mutation requires dedicated approval")
    end.

#[export] Instance BaselinePolicy_engine : PolicyEngine BaselinePolicy := {|
  policy_snapshot := bp_snapshot;
  evaluate_decision := λ _, baseline_decision;
|}.

(** ** The session-lock policy *)

(** [format!("unix:uid:{}", uid)]. *)
Definition uid_principal (uid : Z) : string := "unix:uid:" +:+ u64_to_string uid.

Record SessionLockPolicy := { slp_snapshot : PolicySnapshot }.

Definition SessionLockPolicy_default : SessionLockPolicy :=
  {| slp_snapshot := {| snap_policy_id := "policy:session-lock";
                        snap_revision_id := "policy:session-lock:v1" |} |}.

Definition session_lock_decision (subject : PolicySubject) : PolicyDecision :=
  if bool_decide (ps_status subject = ReviewBlocked) || PolicySubject_has_blockers subject then
    DecisionBlocked "session-lock plan contains blockers"
  else
    let deny := Deny "session-lock policy requires an exact owner-bound native lock plan" in
    match SessionLockId_from_resource (ps_resource subject) with
    | Err _ => deny
    | Ok lock =>
        if (se_uid (sl_epoch lock) =? 0)%Z
           || negb (bool_decide (ps_provider subject = "session-locker"))
           || negb (bool_decide (ps_capability subject = "session.secure-lock.observe"))
           || negb (bool_decide (ps_principal subject = uid_principal (se_uid (sl_epoch lock))))
           || negb (bool_decide (actor_kind (ps_actor subject) = Human))
           || negb (actor_interactive (ps_actor subject))
        then deny
        else if bool_decide (ps_status subject = ReviewNoChange)
                && bool_decide (ps_prospective_risk subject = ReadOnly)
                && is_nil (ps_changes subject)
        then Allow
        else if negb (bool_decide (ps_status subject = ReviewChangeProposed))
                || negb (bool_decide (ps_prospective_risk subject = SecuritySensitive))
        then deny
        else
          match ps_changes subject with
          | [change] =>
              if negb (bool_decide (rc_key change = "secure")) then deny
              else if bool_decide (rc_current change = Some "false" ∧ rc_desired change = "true") then
                RequireApproval InteractiveUser
                  "explicit owner request to secure this native lock generation"
              else if bool_decide (rc_current change = Some "true" ∧ rc_desired change = "false") then
                RequireApproval SessionOwnerAuthentication
                  "native session-owner authentication for this exact unlock only"
              else deny
          | _ => deny
          end
    end.

#[export] Instance SessionLockPolicy_engine : PolicyEngine SessionLockPolicy := {|
  policy_snapshot := slp_snapshot;
  evaluate_decision := λ _, session_lock_decision;
|}.

(** ** The protective-lock policy *)

Definition PROTECTIVE_SLEEP_PRINCIPAL : string := "service:system-sleep-protection".
Definition PROTECTIVE_SLEEP_ACTOR : string := "actor:system-sleep-protection".

Record ProtectiveLockSetting := {
  pls_owner : PrincipalId;
  pls_epoch : SessionEpoch;
  pls_intent : IntentId;
  pls_revision : PolicyRevisionId;
  pls_enabled : bool;
}.

Definition PROTECTIVE_REVISION_PREFIX : string := "policy:protective-lock:v1:".

Definition ProtectiveLockSetting_new (owner : PrincipalId) (epoch : SessionEpoch) (intent : IntentId)
    (revision : PolicyRevisionId) (enabled : bool) : result string ProtectiveLockSetting :=
  match strip_prefix PROTECTIVE_REVISION_PREFIX revision with
  | None => Err "protective-lock revision is not a canonical record digest"
  | Some digest =>
      reject_if (negb (str_len digest =? 64)%Z || negb (forallb is_lower_hex (codes digest)))
        "protective-lock revision is not a canonical record digest";;
      reject_if ((se_uid epoch =? 0)%Z || negb (bool_decide (owner = uid_principal (se_uid epoch))))
        "protective-lock setting must belong to the exact non-root session owner";;
      Ok {| pls_owner := owner; pls_epoch := epoch; pls_intent := intent;
            pls_revision := revision; pls_enabled := enabled |}
  end.

Record ProtectiveLockPolicy := {
  plp_snapshot : PolicySnapshot;
  plp_setting : ProtectiveLockSetting;
  plp_event : SleepInvocationId;
  plp_lock : SessionLockId;
}.

Definition ProtectiveLockPolicy_new (setting : ProtectiveLockSetting) (event : SleepInvocationId)
    (lock : SessionLockId) : ProtectiveLockPolicy :=
  {| plp_snapshot := {| snap_policy_id := "policy:protective-lock";
                        snap_revision_id := pls_revision setting |};
     plp_setting := setting; plp_event := event; plp_lock := lock |}.

#[export] Instance SessionEpoch_eq_dec : EqDecision SessionEpoch.
Proof. solve_decision. Defined.

Definition protective_lock_decision (p : ProtectiveLockPolicy) (subject : PolicySubject)
    : PolicyDecision :=
  if bool_decide (ps_status subject = ReviewBlocked) || PolicySubject_has_blockers subject then
    DecisionBlocked "protective-lock plan contains blockers"
  else
    let deny :=
      Deny "protective-lock policy does not cover this exact event and canonical lock plan" in
    match protective_request_id (plp_event p) (pls_epoch (plp_setting p)) with
    | Err _ => deny
    | Ok request =>
        match SessionLockId_resource_id (plp_lock p) with
        | Err _ => deny
        | Ok resource =>
            if negb (pls_enabled (plp_setting p))
               || negb (bool_decide (sl_epoch (plp_lock p) = pls_epoch (plp_setting p)))
               || negb (bool_decide (ps_principal subject = PROTECTIVE_SLEEP_PRINCIPAL))
               || negb (bool_decide (actor_kind (ps_actor subject) = Service))
               || actor_interactive (ps_actor subject)
               || negb (bool_decide (actor_id (ps_actor subject) = PROTECTIVE_SLEEP_ACTOR))
               || negb (bool_decide (ps_provider subject = "session-locker"))
               || negb (bool_decide (ps_capability subject = "session.secure-lock.observe"))
               || negb (bool_decide (ps_resource subject = resource))
               || negb (bool_decide (ps_request_id subject = request))
               || negb (bool_decide (ps_plan_id subject = request))
               || negb (bool_decide (sr_intent_ids (ps_reason subject) = [pls_intent (plp_setting p)]))
            then deny
            else if bool_decide (ps_status subject = ReviewNoChange)
                    && bool_decide (ps_prospective_risk subject = ReadOnly)
                    && is_nil (ps_changes subject)
            then Allow
            else if negb (bool_decide (ps_status subject = ReviewChangeProposed))
                    || negb (bool_decide (ps_prospective_risk subject = SecuritySensitive))
            then deny
            else
              match ps_changes subject with
              | [change] =>
                  if bool_decide (rc_key change = "secure")
                     && bool_decide (rc_current change = Some "false")
                     && bool_decide (rc_desired change = "true")
                  then Allow else deny
              | _ => deny
              end
        end
    end.

#[export] Instance ProtectiveLockPolicy_engine : PolicyEngine ProtectiveLockPolicy := {|
  policy_snapshot := plp_snapshot;
  evaluate_decision := protective_lock_decision;
|}.

(** * The purpose-scoped lock policies, characterised

    What the session-lock and the protective-lock policies accept, and that
    the protective one can only secure. *)

(** Conditions written as disjunctions of failed tests. *)
Lemma orb_negb_decide b (P : Prop) `{Decision P} : b || negb (bool_decide P) = false ↔ b = false ∧ P.
Proof. rewrite orb_false_iff, negb_false_iff, bool_decide_eq_true. done. Qed.

Lemma orb_negb_false b c : b || negb c = false ↔ b = false ∧ c = true.
Proof. by rewrite orb_false_iff, negb_false_iff. Qed.

(** The single change of a lock plan. *)
Definition lock_change (current desired : string) : ReviewedChange :=
  {| rc_key := "secure"; rc_current := Some current; rc_desired := desired |}.

(** A subject of the session locker made by the interactive human owner of
    the lock it names. *)
Record owner_subject (s : PolicySubject) (lock : SessionLockId) : Prop := {
  os_lock : SessionLockId_from_resource (ps_resource s) = Ok lock;
  os_not_root : se_uid (sl_epoch lock) ≠ 0%Z;
  os_provider : ps_provider s = "session-locker";
  os_capability : ps_capability s = "session.secure-lock.observe";
  os_principal : ps_principal s = uid_principal (se_uid (sl_epoch lock));
  os_human : actor_kind (ps_actor s) = Human;
  os_interactive : actor_interactive (ps_actor s) = true;
}.

Definition unblocked (s : PolicySubject) : Prop :=
  ps_status s ≠ ReviewBlocked ∧ PolicySubject_has_blockers s = false.

Lemma unblocked_spec s :
  bool_decide (ps_status s = ReviewBlocked) || PolicySubject_has_blockers s = false ↔ unblocked s.
Proof. unfold unblocked. by rewrite orb_false_iff, bool_decide_eq_false. Qed.

(** The part of the decision that follows the owner checks. *)
Definition lock_shape (s : PolicySubject) : PolicyDecision → Prop := λ dec,
  match dec with
  | Allow => ps_status s = ReviewNoChange ∧ ps_prospective_risk s = ReadOnly ∧ ps_changes s = []
  | RequireApproval InteractiveUser _ =>
      ps_status s = ReviewChangeProposed ∧ ps_prospective_risk s = SecuritySensitive ∧
      ps_changes s = [lock_change "false" "true"]
  | RequireApproval SessionOwnerAuthentication _ =>
      ps_status s = ReviewChangeProposed ∧ ps_prospective_risk s = SecuritySensitive ∧
      ps_changes s = [lock_change "true" "false"]
  | _ => False
  end.

Lemma single_change_eta c current desired :
  rc_key c = "secure" → rc_current c = Some current → rc_desired c = desired →
  c = lock_change current desired.
Proof. destruct c; cbn. by intros -> -> ->. Qed.

Lemma session_lock_cases s dec :
  session_lock_decision s = dec →
  match dec with
  | Deny _ | DecisionBlocked _ => True
  | _ => unblocked s ∧ (∃ lock, owner_subject s lock) ∧ lock_shape s dec
  end.
Proof.
  unfold session_lock_decision.
  destruct (_ || PolicySubject_has_blockers s) eqn:Hb; [by intros <-|]. apply unblocked_spec in Hb.
  destruct (SessionLockId_from_resource (ps_resource s)) as [lock|] eqn:Hl; [|by intros <-].
  destruct (_ || _) eqn:Ho; [by intros <-|].
  rewrite orb_negb_false, !orb_negb_decide in Ho.
  destruct Ho as [[[[[Hu%Z.eqb_neq Hp] Hc] Hpr] Hk] Hi].
  assert (∃ lock, owner_subject s lock) as Hown by (exists lock; by constructor).
  destruct (_ && _) eqn:Hn.
  { intros <-. cbn. rewrite !andb_true_iff, !bool_decide_eq_true in Hn.
    destruct Hn as [[? ?] ?]. split_and!; try done. by destruct (ps_changes s). }
  destruct (negb _ || _) eqn:Hst; [by intros <-|].
  rewrite orb_negb_decide, negb_false_iff, bool_decide_eq_true in Hst. destruct Hst as [Hst Hr].
  destruct (ps_changes s) as [|c [|? ?]] eqn:Hch; [by intros <-| |by intros <-].
  destruct (bool_decide_reflect (rc_key c = "secure")) as [Hkey|]; cbn [negb]; [|by intros <-].
  destruct (bool_decide_reflect (rc_current c = Some "false" ∧ rc_desired c = "true")) as [[Hcur Hd]|].
  { intros <-. cbn. rewrite Hch, (single_change_eta c "false" "true") by done. done. }
  destruct (bool_decide_reflect (rc_current c = Some "true" ∧ rc_desired c = "false")) as [[Hcur Hd]|].
  { intros <-. cbn. rewrite Hch, (single_change_eta c "true" "false") by done. done. }
  by intros <-.
Qed.

(** The decision on an unblocked plan of the owner. *)
Lemma session_lock_owner s lock :
  unblocked s → owner_subject s lock →
  (lock_shape s Allow → session_lock_decision s = Allow) ∧
  (ps_status s = ReviewChangeProposed → ps_prospective_risk s = SecuritySensitive →
   (ps_changes s = [lock_change "false" "true"] →
      ∃ reason, session_lock_decision s = RequireApproval InteractiveUser reason) ∧
   (ps_changes s = [lock_change "true" "false"] →
      ∃ reason, session_lock_decision s = RequireApproval SessionOwnerAuthentication reason)).
Proof.
  intros Hu%unblocked_spec [Hl Hr Hp Hc Hpr Hk Hi]. unfold session_lock_decision.
  rewrite Hu, Hl, Hp, Hc, Hpr, Hk, Hi, (proj2 (Z.eqb_neq _ _) Hr).
  rewrite (bool_decide_eq_true_2 (uid_principal _ = _)) by done. cbn [negb orb]. split.
  - intros (Hs & Hrisk & Hch). by rewrite Hs, Hrisk, Hch.
  - intros Hs Hrisk. rewrite Hs, Hrisk. split; intros Hch; rewrite Hch; by eexists.
Qed.

(** The session-lock policy lets through exactly the owner's own lock
    plans: it allows or asks for approval only when the resource names a lock
    whose non-root owner is the principal, acting as an interactive human;
    it allows exactly a plan without changes, asks for interactive approval
    exactly to secure the lock, and for the owner's authentication exactly to
    release it; it never asks for administrator or destructive approval. *)
Theorem session_lock_policy_exact s :
  let owned := unblocked s ∧ ∃ lock, owner_subject s lock in
  let proposes c := ps_status s = ReviewChangeProposed ∧ ps_prospective_risk s = SecuritySensitive ∧
                    ps_changes s = [c] in
  (session_lock_decision s = Allow ↔
     owned ∧ ps_status s = ReviewNoChange ∧ ps_prospective_risk s = ReadOnly ∧ ps_changes s = []) ∧
  ((∃ reason, session_lock_decision s = RequireApproval InteractiveUser reason) ↔
     owned ∧ proposes (lock_change "false" "true")) ∧
  ((∃ reason, session_lock_decision s = RequireApproval SessionOwnerAuthentication reason) ↔
     owned ∧ proposes (lock_change "true" "false")) ∧
  (∀ class reason, session_lock_decision s = RequireApproval class reason →
     class = InteractiveUser ∨ class = SessionOwnerAuthentication).
Proof.
  cbv zeta. split_and!.
  - split; [intros (? & ? & ?)%session_lock_cases; done|].
    intros ((Hu & lock & Ho) & Hshape). by apply (session_lock_owner s lock Hu Ho).
  - split; [intros (reason & (? & ? & ?)%session_lock_cases); done|].
    intros ((Hu & lock & Ho) & Hs & Hr & Hc). by apply (session_lock_owner s lock Hu Ho).
  - split; [intros (reason & (? & ? & ?)%session_lock_cases); done|].
    intros ((Hu & lock & Ho) & Hs & Hr & Hc). by apply (session_lock_owner s lock Hu Ho).
  - intros class reason (_ & _ & Hshape)%session_lock_cases. destruct class; auto; done.
Qed.

(** ** The protective-lock policy *)

(** The facts a protective plan must match. *)
Record protective_subject (p : ProtectiveLockPolicy) (s : PolicySubject) : Prop := {
  pr_enabled : pls_enabled (plp_setting p) = true;
  pr_epoch : sl_epoch (plp_lock p) = pls_epoch (plp_setting p);
  pr_principal : ps_principal s = PROTECTIVE_SLEEP_PRINCIPAL;
  pr_actor : ps_actor s = {| actor_id := PROTECTIVE_SLEEP_ACTOR; actor_kind := Service;
                             actor_interactive := false |};
  pr_provider : ps_provider s = "session-locker";
  pr_capability : ps_capability s = "session.secure-lock.observe";
  pr_resource : SessionLockId_resource_id (plp_lock p) = Ok (ps_resource s);
  pr_request : protective_request_id (plp_event p) (pls_epoch (plp_setting p)) = Ok (ps_request_id s);
  pr_plan : ps_plan_id s = ps_request_id s;
  pr_intent : sr_intent_ids (ps_reason s) = [pls_intent (plp_setting p)];
}.

(** The protective-lock policy never asks for approval, and allows
    exactly an unblocked plan of the sleep-protection service, under an
    enabled setting, for the lock of the setting's session epoch and the
    request of this sleep invocation, whose only possible change is to secure
    the lock: it cannot be used to release one. *)
Theorem protective_lock_policy_exact p s :
  (protective_lock_decision p s = Allow ↔
   unblocked s ∧ protective_subject p s ∧
   (ps_status s = ReviewNoChange ∧ ps_prospective_risk s = ReadOnly ∧ ps_changes s = [] ∨
    ps_status s = ReviewChangeProposed ∧ ps_prospective_risk s = SecuritySensitive ∧
    ps_changes s = [lock_change "false" "true"])) ∧
  ∀ class reason, protective_lock_decision p s ≠ RequireApproval class reason.
Proof.
  unfold protective_lock_decision.
  destruct (_ || PolicySubject_has_blockers s) eqn:Hb.
  { split; [|done]. split; [done|]. intros (Hu%unblocked_spec & _). congruence. }
  apply unblocked_spec in Hb.
  destruct (protective_request_id _ _) as [request|e] eqn:Hreq.
  2: { split; [|done]. split; [done|]. intros (_ & Hs & _). destruct Hs. congruence. }
  destruct (SessionLockId_resource_id _) as [resource|e] eqn:Hres.
  2: { split; [|done]. split; [done|]. intros (_ & Hs & _). destruct Hs. congruence. }
  destruct (_ || negb (bool_decide (sr_intent_ids _ = _))) eqn:Ho.
  { split; [|done]. split; [done|]. intros (_ & [H1 H2 H3 H4 H5 H6 H7 H8 H9 H10] & _).
    rewrite H1, H4 in Ho. cbn in Ho.
    rewrite !bool_decide_eq_true_2 in Ho by (done || congruence). done. }
  rewrite !orb_negb_decide, orb_false_iff, !orb_negb_decide, negb_false_iff in Ho.
  destruct Ho as [[[[[[[[[[[H1 H2] H3] H4] H5] H6] H7] H8] H9] H10] H11] H12].
  assert (protective_subject p s) as Hsub.
  { constructor; try done; [|congruence|congruence|congruence]. destruct (ps_actor s); cbn in *. by subst. }
  destruct (_ && is_nil (ps_changes s)) eqn:Hn.
  { rewrite !andb_true_iff, !bool_decide_eq_true in Hn. destruct Hn as [[? ?] Hnil].
    split; [|done]. split; [|done]. intros _. split_and!; [done..|]. left. by destruct (ps_changes s). }
  destruct (negb _ || _) eqn:Hst.
  { split; [|done]. split; [done|]. intros (_ & _ & [(Hx & Hy & Hz)|(Hx & Hy & _)]).
    - rewrite Hx, Hy, Hz in Hn. done.
    - rewrite Hx, Hy in Hst. done. }
  rewrite orb_negb_decide, negb_false_iff, bool_decide_eq_true in Hst. destruct Hst as [Hst Hr].
  destruct (ps_changes s) as [|c [|c2 l]] eqn:Hch.
  - split; [|done]. split; [done|]. intros (_ & _ & [(Hx & _)|(_ & _ & [=])]). congruence.
  - destruct (bool_decide (rc_key c = "secure") && _ && _) eqn:Hc.
    + split; [|done]. split; [|done]. intros _. split_and!; [done..|]. right. split_and!; [done..|].
      rewrite !andb_true_iff, !bool_decide_eq_true in Hc. destruct Hc as [[? ?] ?]. f_equal.
      by apply single_change_eta.
    + split; [|done]. split; [done|]. intros (_ & _ & [(Hx & _)|(_ & _ & [= ->])]); [congruence|].
      by rewrite !bool_decide_eq_true_2 in Hc by done.
  - split; [|done]. split; [done|]. intros (_ & _ & [(Hx & _)|(_ & _ & [=])]). congruence.
Qed.

(** A setting is accepted exactly for the non-root owner of its epoch and
    under a canonical record digest. *)
Lemma protective_setting_accepted owner epoch intent revision enabled x :
  ProtectiveLockSetting_new owner epoch intent revision enabled = Ok x ↔
  x = {| pls_owner := owner; pls_epoch := epoch; pls_intent := intent; pls_revision := revision;
         pls_enabled := enabled |} ∧
  se_uid epoch ≠ 0%Z ∧ owner = uid_principal (se_uid epoch) ∧
  ∃ digest, revision = PROTECTIVE_REVISION_PREFIX +:+ digest ∧ str_len digest = 64%Z ∧
            forallb is_lower_hex (codes digest) = true.
Proof.
  unfold ProtectiveLockSetting_new. split.
  - destruct (strip_prefix _ revision) as [digest|] eqn:E; [|done]. apply strip_prefix_Some in E as ->.
    intros HH. ok_inv. rename select (_ || negb (forallb _ _) = false) into Hd.
    rename select (_ || negb (bool_decide _) = false) into Ho.
    rewrite orb_negb_false, negb_false_iff, Z.eqb_eq in Hd. rewrite orb_negb_decide, Z.eqb_neq in Ho.
    destruct Hd, Ho. split_and!; try done. by exists digest.
  - intros (-> & Hu & -> & digest & -> & Hl & Hh). rewrite strip_prefix_app.
    rewrite Hl, Hh. cbn. rewrite bool_decide_eq_true_2 by done.
    by rewrite (proj2 (Z.eqb_neq _ _) Hu).
Qed.
