(* ===== verification/RiskReview.v ===== *)
(** * linura-control: the trusted built-in operations

    Models [crates/linura-control/src/operation_registry.rs]: the registry of
    the operations that Control accepts, with their effect bindings and risk
    floors. *)

From Stdlib Require Import ZArith Lia.
From stdpp Require Import base numbers gmap strings list fin_maps sorting.
From S2P Require Import Prelude Text Core Ordered Capability.

Set Default Goal Selector "!".

Definition MANAGED_SYSTEMD_REGISTERED_OPERATION_ID : string :=
  "operation:systemd.unit.set-active-state".
Definition MANAGED_SYSTEMD_PROVIDER : string := "systemd".
Definition MANAGED_SYSTEMD_CAPABILITY : string := "systemd.unit.observe".
Definition MANAGED_SYSTEMD_UNIT_PREFIX : string := "linura-managed-".
Definition MANAGED_SYSTEMD_RESOURCE_PREFIX : string := "systemd:unit:linura-managed-".
Definition MANAGED_SYSTEMD_RESOURCE_SUFFIX : string := ".service".
Definition MANAGED_SYSTEMD_CHANGE_KEY : string := "active_state".
Definition MANAGED_SYSTEMD_RISK_FLOOR_RULE_ID : string :=
  "operation-registry.managed-systemd-active-state.risk-floor".
Definition TRANSIENT_AUDIO_VOLUME_OPERATION_ID : string :=
  "operation:audio.output.set-session-volume".
Definition MANAGED_SESSION_LOCK_OPERATION_ID : string := "operation:session.lock.set-secure".
Definition MANAGED_SESSION_LOCK_PROVIDER : string := "session-locker".
Definition MANAGED_SESSION_LOCK_CAPABILITY : string := "session.secure-lock.observe".
Definition MANAGED_SESSION_TRANSITION_PROVIDER : string := "logind".
Definition MANAGED_SESSION_TRANSITION_CAPABILITY : string := "session.transition.observe".

(** One route of [SESSION_TRANSITION_ROUTES]. *)
Record TransitionRoute := {
  tr_name : string;
  tr_operation : string;
  tr_resource_prefix : string;
  tr_rule_id : string;
  tr_risk : RiskClass;
}.

Definition SESSION_TRANSITION_ROUTES : list TransitionRoute :=
  [{| tr_name := "suspend"; tr_operation := "operation:session.suspend";
      tr_resource_prefix := "session:transition:suspend:";
      tr_rule_id := "operation-registry.managed-session-suspend.risk-floor";
      tr_risk := SecuritySensitive |};
   {| tr_name := "logout"; tr_operation := "operation:session.logout";
      tr_resource_prefix := "session:transition:logout:";
      tr_rule_id := "operation-registry.managed-session-logout.risk-floor";
      tr_risk := Destructive |};
   {| tr_name := "reboot"; tr_operation := "operation:session.reboot";
      tr_resource_prefix := "session:transition:reboot:";
      tr_rule_id := "operation-registry.managed-session-reboot.risk-floor";
      tr_risk := Destructive |};
   {| tr_name := "power-off"; tr_operation := "operation:session.power-off";
      tr_resource_prefix := "session:transition:power-off:";
      tr_rule_id := "operation-registry.managed-session-power-off.risk-floor";
      tr_risk := Destructive |}].

Definition MANAGED_SESSION_LOCK_RISK_FLOOR_RULE_ID : string :=
  "operation-registry.managed-session-lock.risk-floor".
Definition TRANSIENT_AUDIO_PROVIDER : string := "pipewire".
Definition TRANSIENT_AUDIO_CAPABILITY : string := "audio.session.observe".
Definition TRANSIENT_AUDIO_RESOURCE_PREFIX : string := "audio:session:output:".
Definition TRANSIENT_AUDIO_VOLUME_CHANGE_KEY : string := "volume_percent".

Inductive TrustedOperationRegistryError :=
| RegistryIdentifier (detail : string)
| RegistryEffectBinding (error : OperationEffectBindingError)
| RegistryDescriptor (error : OperationDescriptorError)
| RegistryRegistry (error : OperationRegistryError).

Definition OperationId_new := typed_id_new "operation id".
Definition ProviderId_new := typed_id_new "provider id".
Definition CapabilityId_new := typed_id_new "capability id".

(** The [From] conversions applied by [?]. *)
Definition of_identifier {A} (m : result ValidationError A) : result TrustedOperationRegistryError A :=
  map_err (λ e, RegistryIdentifier (ValidationError_display e)) m.
Definition of_binding {A} (m : result OperationEffectBindingError A)
    : result TrustedOperationRegistryError A := map_err RegistryEffectBinding m.
Definition of_descriptor {A} (m : result OperationDescriptorError A)
    : result TrustedOperationRegistryError A := map_err RegistryDescriptor m.

Definition managed_session_lock_descriptor : result TrustedOperationRegistryError OperationDescriptor :=
  provider ← of_identifier (ProviderId_new MANAGED_SESSION_LOCK_PROVIDER);
  capability ← of_identifier (CapabilityId_new MANAGED_SESSION_LOCK_CAPABILITY);
  binding ← of_binding
    (OperationEffectBinding_try_new provider capability "session:lock:" ["secure"]);
  id ← of_identifier (OperationId_new MANAGED_SESSION_LOCK_OPERATION_ID);
  of_descriptor
    (OperationDescriptor_try_new id ManagedExternalEffect (Some SecuritySensitive) (Some binding)).

Definition managed_systemd_active_state_descriptor
    : result TrustedOperationRegistryError OperationDescriptor :=
  provider ← of_identifier (ProviderId_new MANAGED_SYSTEMD_PROVIDER);
  capability ← of_identifier (CapabilityId_new MANAGED_SYSTEMD_CAPABILITY);
  binding ← of_binding
    (OperationEffectBinding_try_new provider capability MANAGED_SYSTEMD_RESOURCE_PREFIX
       [MANAGED_SYSTEMD_CHANGE_KEY]);
  binding ← of_binding (with_resource_suffix binding MANAGED_SYSTEMD_RESOURCE_SUFFIX);
  id ← of_identifier (OperationId_new MANAGED_SYSTEMD_REGISTERED_OPERATION_ID);
  of_descriptor
    (OperationDescriptor_try_new id ManagedExternalEffect (Some SecuritySensitive) (Some binding)).

Definition transient_audio_volume_descriptor
    : result TrustedOperationRegistryError OperationDescriptor :=
  provider ← of_identifier (ProviderId_new TRANSIENT_AUDIO_PROVIDER);
  capability ← of_identifier (CapabilityId_new TRANSIENT_AUDIO_CAPABILITY);
  binding ← of_binding
    (OperationEffectBinding_try_new provider capability TRANSIENT_AUDIO_RESOURCE_PREFIX
       [TRANSIENT_AUDIO_VOLUME_CHANGE_KEY]);
  id ← of_identifier (OperationId_new TRANSIENT_AUDIO_VOLUME_OPERATION_ID);
  of_descriptor
    (OperationDescriptor_try_new id TransientExternalEffect (Some UserState) (Some binding)).

(** [registry.register(descriptor)?]. *)
Definition register_descriptor (registry : OperationRegistry) (descriptor : OperationDescriptor)
    : result TrustedOperationRegistryError OperationRegistry :=
  match OperationRegistry_register registry descriptor with
  | (registry, Ok _) => Ok registry
  | (_, Err e) => Err (RegistryRegistry e)
  end.

Fixpoint register_transitions (registry : OperationRegistry) (routes : list TransitionRoute)
    : result TrustedOperationRegistryError OperationRegistry :=
  match routes with
  | [] => Ok registry
  | route :: routes =>
      id ← of_identifier (OperationId_new (tr_operation route));
      provider ← of_identifier (ProviderId_new MANAGED_SESSION_TRANSITION_PROVIDER);
      capability ← of_identifier (CapabilityId_new MANAGED_SESSION_TRANSITION_CAPABILITY);
      binding ← of_binding
        (OperationEffectBinding_try_new provider capability (tr_resource_prefix route) ["completed"]);
      descriptor ← of_descriptor
        (OperationDescriptor_try_new id ManagedExternalEffect (Some (tr_risk route)) (Some binding));
      registry ← register_descriptor registry descriptor;
      register_transitions registry routes
  end.

Definition trusted_builtin_operation_registry
    : result TrustedOperationRegistryError OperationRegistry :=
  descriptor ← managed_systemd_active_state_descriptor;
  registry ← register_descriptor OperationRegistry_default descriptor;
  descriptor ← transient_audio_volume_descriptor;
  registry ← register_descriptor registry descriptor;
  descriptor ← managed_session_lock_descriptor;
  registry ← register_descriptor registry descriptor;
  register_transitions registry SESSION_TRANSITION_ROUTES.

(** * linura-control: risk classification and policy review

    Models [crates/linura-control/src/risk_classification.rs] and
    [policy_review.rs]: the trusted risk rules, the classification of a plan
    with and without a registered floor, and the projection of a plan into a
    policy subject that a policy evaluates. *)

From S2P Require Import Digest SessionIdentity Planner.
From S2P Require Import Policy.

Definition BASELINE_RISK_POLICY_REVISION : string := "risk-policy:v0.3:1".
Definition SESSION_LOCK_RISK_POLICY_REVISION : string := "risk-policy:v0.10:session-lock:1".
Definition REGISTERED_OPERATION_RISK_POLICY_REVISION : string :=
  "risk-policy:v0.10:registered-operation-floor".
Definition REGISTERED_TRANSIENT_RISK_POLICY_REVISION : string :=
  "risk-policy:v0.10:registered-transient-refinement".

Record RiskRule := {
  rr_id : string;
  rr_provider : string;
  rr_capability : string;
  rr_resource_prefix : string;
  rr_change_keys : list string;
  rr_risk : RiskClass;
}.

Definition matches_material_keys (r : RiskRule) (plan : ReconciliationPlan)
    (material_keys : list string) : bool :=
  bool_decide (rp_provider plan = rr_provider r)
  && bool_decide (rp_observation_capability plan = rr_capability r)
  && starts_with (rp_resource plan) (rr_resource_prefix r)
  && negb (is_nil material_keys)
  && forallb (λ key, bool_decide (key ∈ rr_change_keys r)) material_keys.

Definition plan_keys (plan : ReconciliationPlan) : list string := sc_key <$> rp_changes plan.

Definition RiskRule_matches (r : RiskRule) (plan : ReconciliationPlan) : bool :=
  matches_material_keys r plan (plan_keys plan).

Inductive RiskClassification :=
| NotApplicable (risk : RiskClass)
| Classified (risk : RiskClass) (revision : string) (rule_ids : list string)
| Unclassified (revision reason : string)
| DowngradeRejected (revision : string) (floor classified : RiskClass) (rule_ids : list string).

Record RiskPolicy := {
  rk_revision : string;
  rk_rules : list RiskRule;
}.

Definition RiskPolicy_baseline : RiskPolicy :=
  {| rk_revision := BASELINE_RISK_POLICY_REVISION;
     rk_rules :=
       [{| rr_id := "systemd.unit.active-state.security-sensitive"; rr_provider := "systemd";
           rr_capability := "systemd.unit.observe"; rr_resource_prefix := "systemd:unit:";
           rr_change_keys := ["active_state"]; rr_risk := SecuritySensitive |};
        {| rr_id := "audio.session.output-state.user-state"; rr_provider := "pipewire";
           rr_capability := "audio.session.observe"; rr_resource_prefix := "audio:session:";
           rr_change_keys := ["muted"; "volume_percent"]; rr_risk := UserState |}] |}.

(** The derived order of [RiskClass]. *)
Definition risk_ltb (a b : RiskClass) : bool := (RiskClass_rank a <? RiskClass_rank b)%nat.
Definition risk_max (a b : RiskClass) : RiskClass := if risk_ltb a b then b else a.

(** [matched.sort_by_key(|rule| rule.id)]. *)
Definition rule_le (a b : RiskRule) : Prop := String.le (rr_id a) (rr_id b).
#[export] Instance rule_le_dec : RelDecision rule_le.
Proof. intros a b. unfold rule_le. apply _. Defined.

(** [.map(|rule| rule.risk).max()]. *)
Fixpoint max_risk (l : list RiskRule) : option RiskClass :=
  match l with
  | [] => None
  | r :: l => match max_risk l with None => Some (rr_risk r) | Some x => Some (risk_max (rr_risk r) x) end
  end.

Abbreviation AuthenticatedPrincipal := string.

Section review.
Context `{Crypto}.

(** [{:?}] of a [Vec<&str>]. *)
Definition debug_list (l : list string) : string :=
  "[" +:+ String.concat ", " (debug_str <$> l) +:+ "]".

Definition classify_with_registered_transient_refinement (p : RiskPolicy) (plan : ReconciliationPlan)
    (allow_registered_transient_refinement : bool) (requested_state : option (gmap string string))
    : RiskClassification :=
  if negb (bool_decide (rp_status plan = ChangeProposed)) || is_nil (rp_changes plan) then
    NotApplicable (rp_prospective_risk plan)
  else
    let material_keys :=
      match requested_state with
      | None => plan_keys plan
      | Some state => (btree_entries state).*1
      end in
    if is_nil material_keys then
      Unclassified (rk_revision p) "registered transient requested state is empty"
    else
      let matched :=
        merge_sort rule_le
          (filter (λ rule, (if allow_registered_transient_refinement
                            then matches_material_keys rule plan material_keys
                            else RiskRule_matches rule plan) = true) (rk_rules p)) in
      if is_nil matched then
        Unclassified (rk_revision p)
          ("no trusted risk rule covers provider=" +:+ rp_provider plan +:+ " resource="
           +:+ rp_resource plan +:+ " capability=" +:+ rp_observation_capability plan
           +:+ " material_keys=" +:+ debug_list material_keys)
      else
        let classified := default (rp_prospective_risk plan) (max_risk matched) in
        let rule_ids := rr_id <$> matched in
        if risk_ltb classified (rp_prospective_risk plan)
           && negb allow_registered_transient_refinement then
          DowngradeRejected (rk_revision p) (rp_prospective_risk plan) classified rule_ids
        else
          Classified classified
            (if risk_ltb classified (rp_prospective_risk plan)
             then REGISTERED_TRANSIENT_RISK_POLICY_REVISION else rk_revision p) rule_ids.

Definition RiskPolicy_classify (p : RiskPolicy) (plan : ReconciliationPlan) : RiskClassification :=
  classify_with_registered_transient_refinement p plan false None.

Definition classify_registered_transient (p : RiskPolicy) (plan : ReconciliationPlan)
    (requested_state : gmap string string) : RiskClassification :=
  classify_with_registered_transient_refinement p plan true (Some requested_state).

Definition transition_rule (route : TransitionRoute) : RiskRule :=
  {| rr_id := tr_rule_id route; rr_provider := "logind";
     rr_capability := "session.transition.observe"; rr_resource_prefix := tr_resource_prefix route;
     rr_change_keys := ["completed"]; rr_risk := tr_risk route |}.

Definition session_lock_rule : RiskRule :=
  {| rr_id := "session.native-lock.security-sensitive"; rr_provider := "session-locker";
     rr_capability := "session.secure-lock.observe"; rr_resource_prefix := "session:lock:";
     rr_change_keys := ["secure"]; rr_risk := SecuritySensitive |}.

(** The risk policy that [classify_plan_risk] selects. *)
Definition plan_risk_policy (plan : ReconciliationPlan) : RiskPolicy :=
  if bool_decide (rp_provider plan = MANAGED_SESSION_TRANSITION_PROVIDER)
     && bool_decide (rp_observation_capability plan = MANAGED_SESSION_TRANSITION_CAPABILITY) then
    {| rk_revision := "risk-policy:v0.10:session-transition:1";
       rk_rules := transition_rule <$> SESSION_TRANSITION_ROUTES |}
  else if bool_decide (rp_provider plan = "session-locker") then
    {| rk_revision := SESSION_LOCK_RISK_POLICY_REVISION; rk_rules := [session_lock_rule] |}
  else RiskPolicy_baseline.

Definition classify_plan_risk (plan : ReconciliationPlan) : RiskClassification :=
  RiskPolicy_classify (plan_risk_policy plan) plan.

Definition classify_exact_registered_transient_risk (plan : ReconciliationPlan)
    (requested_state : gmap string string) : RiskClassification :=
  classify_registered_transient RiskPolicy_baseline plan requested_state.

(** [dedup]: consecutive repetitions are removed. *)
Fixpoint dedup (l : list string) : list string :=
  match l with
  | [] => []
  | x :: l' => match dedup l' with
               | y :: _ as d => if decide (x = y) then d else x :: d
               | [] => [x]
               end
  end.

Definition classify_plan_risk_with_floor (plan : ReconciliationPlan) (floor : RiskClass)
    (floor_rule_id : string) : RiskClassification :=
  match classify_plan_risk plan with
  | Classified risk _ rule_ids =>
      Classified (risk_max risk floor) REGISTERED_OPERATION_RISK_POLICY_REVISION
        (dedup (merge_sort String.le (rule_ids ++ [floor_rule_id])))
  | NotApplicable risk => NotApplicable (risk_max risk floor)
  | other => other
  end.

(** ** Review *)

Inductive PolicySubjectError :=
| InvalidPrincipal (reason : string)
| InvalidSubject (reason : string).

Record TrustedPolicyReview := { tpr_evaluation : PolicyEvaluation }.

Definition map_status (status : PlanStatus) : ReviewPlanStatus :=
  match status with
  | NoChange => ReviewNoChange
  | ChangeProposed => ReviewChangeProposed
  | Blocked => ReviewBlocked
  end.

Definition map_finding_level (level : PlanFindingLevel) : ReviewFindingLevel :=
  match level with
  | Pass => ReviewPass
  | Warning => ReviewWarning
  | Blocker => ReviewBlocker
  end.

Definition review_risk_name (risk : RiskClass) : string :=
  match risk with
  | ReadOnly => "read-only"
  | UserState => "user-state"
  | SystemMutation => "system-mutation"
  | SecuritySensitive => "security-sensitive"
  | Destructive => "destructive"
  end.

Definition reviewed_finding (f : PlanFinding) : ReviewedFinding :=
  {| rf_code := pf_code f; rf_level := map_finding_level (pf_level f); rf_message := pf_message f |}.

Definition reviewed_change (c : StateChange) : ReviewedChange :=
  {| rc_key := sc_key c; rc_current := sc_current c; rc_desired := sc_desired c |}.

(** Status, risk and the finding that a classification gives a subject. *)
Definition apply_classification (plan : ReconciliationPlan) (c : RiskClassification)
    : ReviewPlanStatus * RiskClass * list ReviewedFinding :=
  match c with
  | NotApplicable classified_risk => (map_status (rp_status plan), classified_risk, [])
  | Classified classified_risk revision rule_ids =>
      (map_status (rp_status plan), classified_risk,
       [{| rf_code := "authority-risk-classified"; rf_level := ReviewPass;
           rf_message := "trusted risk policy " +:+ revision +:+ " classified the canonical plan as "
             +:+ review_risk_name classified_risk +:+ " using rules "
             +:+ String.concat "," rule_ids |}])
  | Unclassified revision reason =>
      (ReviewBlocked, rp_prospective_risk plan,
       [{| rf_code := "authority-risk-unclassified"; rf_level := ReviewBlocker;
           rf_message := "trusted risk policy " +:+ revision
             +:+ " cannot classify this mutation safely: " +:+ reason |}])
  | DowngradeRejected revision floor classified rule_ids =>
      (ReviewBlocked, rp_prospective_risk plan,
       [{| rf_code := "authority-risk-downgrade-rejected"; rf_level := ReviewBlocker;
           rf_message := "trusted risk policy " +:+ revision
             +:+ " attempted to classify below the planner floor: floor="
             +:+ review_risk_name floor +:+ " classified=" +:+ review_risk_name classified
             +:+ " rules=" +:+ String.concat "," rule_ids |}])
  end.

Definition policy_subject_from_plan_with_classification (principal : AuthenticatedPrincipal)
    (plan : ReconciliationPlan) (classification : RiskClassification)
    : result PolicySubjectError PolicySubject :=
  principal ← map_err (λ e, InvalidPrincipal (ValidationError_display e)) (PrincipalId_new principal);
  let '(status, risk, extra) := apply_classification plan classification in
  map_err (λ e, InvalidSubject (PolicySubjectValidationError_display e))
    (PolicySubject_try_new
       {| ps_principal := principal; ps_plan_id := rp_id plan; ps_request_id := rp_request_id plan;
          ps_actor := rp_actor plan; ps_provider := rp_provider plan;
          ps_resource := rp_resource plan; ps_capability := rp_observation_capability plan;
          ps_reason := rp_reason plan; ps_observed_evidence_id := rp_observed_evidence_id plan;
          ps_prospective_risk := risk; ps_status := status;
          ps_changes := reviewed_change <$> rp_changes plan;
          ps_findings := (reviewed_finding <$> rp_findings plan) ++ extra |}).

Definition policy_subject_from_plan (principal : AuthenticatedPrincipal) (plan : ReconciliationPlan)
    : result PolicySubjectError PolicySubject :=
  policy_subject_from_plan_with_classification principal plan (classify_plan_risk plan).

Definition review_subject_for_control (subject : PolicySubject) : TrustedPolicyReview :=
  {| tpr_evaluation :=
       if bool_decide (ps_provider subject = "session-locker")
       then evaluate SessionLockPolicy_default subject
       else evaluate BaselinePolicy_default subject |}.

Definition review_plan (principal : AuthenticatedPrincipal) (plan : ReconciliationPlan)
    : result PolicySubjectError TrustedPolicyReview :=
  subject ← policy_subject_from_plan principal plan;
  Ok (review_subject_for_control subject).

Definition review_plan_with_classification (principal : AuthenticatedPrincipal)
    (plan : ReconciliationPlan) (classification : RiskClassification)
    : result PolicySubjectError TrustedPolicyReview :=
  subject ← policy_subject_from_plan_with_classification principal plan classification;
  Ok (review_subject_for_control subject).

(** [ProtectiveLockContext] of [protective_lock_execution.rs]: the facts the
    protective lifecycle has validated. *)
Definition review_protective_plan (principal : AuthenticatedPrincipal) (plan : ReconciliationPlan)
    (classification : RiskClassification) (setting : ProtectiveLockSetting)
    (event : SleepInvocationId) (lock : SessionLockId)
    : result PolicySubjectError TrustedPolicyReview :=
  subject ← policy_subject_from_plan_with_classification principal plan classification;
  Ok {| tpr_evaluation := evaluate (ProtectiveLockPolicy_new setting event lock) subject |}.
End review.
