(* ===== verification/RiskReviewFacts.v ===== *)
(** * Review is fail-closed

    No classification lies below the planner's floor, no unclassified or
    downgraded plan gets past a policy, and no plan with changes is allowed
    without approval. *)

From Stdlib Require Import ZArith Lia.
From stdpp Require Import base numbers gmap strings list fin_maps fin_map_dom sorting relations.
From S2P Require Import Prelude Text Core Digest SessionIdentity Ordered Capability Planner.
From S2P Require Import PlannerFacts Policy RiskReview.

Set Default Goal Selector "!".

Abbreviation risk_le a b := (RiskClass_rank a ≤ RiskClass_rank b)%nat.

Lemma risk_ltb_spec a b : risk_ltb a b = true ↔ ¬ risk_le b a.
Proof. unfold risk_ltb. rewrite Nat.ltb_lt. lia. Qed.

Lemma risk_max_l a b : risk_le a (risk_max a b).
Proof. unfold risk_max, risk_ltb. destruct (Nat.ltb_spec (RiskClass_rank a) (RiskClass_rank b)); lia. Qed.

Lemma risk_max_r a b : risk_le b (risk_max a b).
Proof. unfold risk_max, risk_ltb. destruct (Nat.ltb_spec (RiskClass_rank a) (RiskClass_rank b)); lia. Qed.

Section facts.
Context `{Crypto}.

(** ** Classification *)

(** A plan that proposes changes is classified only by a rule that covers
    every one of them, and never below the planner's floor. *)
Lemma classify_Classified p plan risk revision ids :
  RiskPolicy_classify p plan = Classified risk revision ids →
  rp_status plan = ChangeProposed ∧ rp_changes plan ≠ [] ∧
  risk_le (rp_prospective_risk plan) risk ∧
  ∃ rule, rule ∈ rk_rules p ∧ RiskRule_matches rule plan = true ∧ rr_id rule ∈ ids.
Proof.
  unfold RiskPolicy_classify, classify_with_registered_transient_refinement.
  destruct (bool_decide_reflect (rp_status plan = ChangeProposed)) as [Hst|]; [|done].
  destruct (rp_changes plan) as [|c l] eqn:Hc; [done|]. cbn [negb orb is_nil].
  destruct (is_nil (plan_keys plan)); [done|].
  set (matched := merge_sort rule_le _). destruct (is_nil matched) eqn:Hn; [done|].
  destruct (risk_ltb _ _) eqn:Hlt; [done|]. intros [= <- <- <-]. split_and!; [done|done| |].
  - destruct (decide (risk_le (rp_prospective_risk plan)
                (default (rp_prospective_risk plan) (max_risk matched)))) as [|Hnle]; [done|].
    apply risk_ltb_spec in Hnle. congruence.
  - destruct matched as [|rule l'] eqn:Hm; [done|]. exists rule.
    assert (rule ∈ matched) as Hin by (rewrite Hm; left). subst matched.
    rewrite merge_sort_Permutation, list_elem_of_filter in Hin. destruct Hin as [Hmatch Hin].
    split_and!; [done|done|]. cbn. left.
Qed.

Lemma classify_NotApplicable p plan risk :
  RiskPolicy_classify p plan = NotApplicable risk ↔
  risk = rp_prospective_risk plan ∧ (rp_status plan ≠ ChangeProposed ∨ rp_changes plan = []).
Proof.
  unfold RiskPolicy_classify, classify_with_registered_transient_refinement.
  destruct (bool_decide_reflect (rp_status plan = ChangeProposed)) as [Hst|Hst]; cbn [negb orb].
  2: { split; [intros [= <-]; auto|intros [-> _]; done]. }
  destruct (is_nil (rp_changes plan)) eqn:Hc.
  { apply is_nil_spec in Hc. split; [intros [= <-]; auto|intros [-> _]; done]. }
  assert (rp_changes plan ≠ []) as Hne by (intros Hx; by rewrite Hx in Hc).
  split; [|naive_solver]. destruct (is_nil (plan_keys plan)); [done|].
  set (matched := merge_sort rule_le _). destruct (is_nil matched); [done|]. by destruct (risk_ltb _ _).
Qed.

(** Every classification that lets a plan through is at or above the
    planner's floor and the registered floor. *)
Lemma floor_respected plan floor id risk :
  (∃ revision ids, classify_plan_risk_with_floor plan floor id = Classified risk revision ids) ∨
  classify_plan_risk_with_floor plan floor id = NotApplicable risk →
  risk_le (rp_prospective_risk plan) risk ∧ risk_le floor risk.
Proof.
  unfold classify_plan_risk_with_floor. destruct (classify_plan_risk plan) as [r|r rev ids|rev re|rev f c ids] eqn:E.
  - intros [(? & ? & [=])|[= <-]]. apply classify_NotApplicable in E as [-> _].
    auto using risk_max_l, risk_max_r.
  - intros [(? & ? & [= <- _ _])|[=]]. apply classify_Classified in E as (_ & _ & Hle & _).
    pose proof (risk_max_l r floor). pose proof (risk_max_r r floor). split; lia.
  - intros [(? & ? & [=])|[=]].
  - intros [(? & ? & [=])|[=]].
Qed.

(** ** Subjects *)

Lemma subject_Ok principal plan c s :
  policy_subject_from_plan_with_classification principal plan c = Ok s →
  ∃ extra, apply_classification plan c = (ps_status s, ps_prospective_risk s, extra) ∧
    ps_principal s = principal ∧ ps_plan_id s = rp_id plan ∧ ps_request_id s = rp_request_id plan ∧
    ps_actor s = rp_actor plan ∧ ps_provider s = rp_provider plan ∧
    ps_resource s = rp_resource plan ∧ ps_capability s = rp_observation_capability plan ∧
    ps_reason s = rp_reason plan ∧ ps_observed_evidence_id s = rp_observed_evidence_id plan ∧
    ps_changes s = reviewed_change <$> rp_changes plan ∧
    ps_findings s = (reviewed_finding <$> rp_findings plan) ++ extra ∧
    PolicySubject_try_new s = Ok s.
Proof.
  unfold policy_subject_from_plan_with_classification. intros HH.
  apply bind_Ok in HH as (pr & Hpr%map_err_Ok & HH).
  apply typed_id_new_Ok in Hpr as [-> _].
  destruct (apply_classification plan c) as [[st ri] extra] eqn:E.
  apply map_err_Ok in HH. assert (∀ x y, PolicySubject_try_new x = Ok y → y = x) as Hid.
  { intros x y. unfold PolicySubject_try_new. intros Hx. by ok_inv. }
  pose proof (Hid _ _ HH) as ->. exists extra. cbn. by split_and!.
Qed.

Lemma try_new_status s :
  PolicySubject_try_new s = Ok s →
  (ps_status s = ReviewBlocked ↔ PolicySubject_has_blockers s = true) ∧
  (ps_status s = ReviewNoChange → ps_changes s = [] ∧ ps_prospective_risk s = ReadOnly) ∧
  (ps_status s = ReviewChangeProposed → ps_changes s ≠ [] ∧ ps_prospective_risk s ≠ ReadOnly).
Proof.
  unfold PolicySubject_try_new, PolicySubject_has_blockers. intros HH.
  repeat (apply bind_Ok in HH as (? & ? & HH)). rename select (validate_status _ _ _ _ = _) into Hs.
  unfold validate_status in Hs. destruct (ps_status s), (ps_changes s), (any_review_blocker _);
    cbn in Hs; repeat case_bool_decide; cbn in Hs; naive_solver.
Qed.

(** An evaluation binds exactly the subject it was made for. *)
Lemma evaluate_binds {P} `{PolicyEngine P} (p : P) s :
  let e := evaluate p s in
  pe_subject e = s ∧ rb_principal (pe_binding e) = ps_principal s ∧
  rb_plan_id (pe_binding e) = ps_plan_id s ∧ rb_request_id (pe_binding e) = ps_request_id s ∧
  pe_decision e = evaluate_decision p s.
Proof. done. Qed.

(** Blocked subjects are blocked by both policies of the review. *)
Lemma review_blocked s :
  PolicySubject_has_blockers s = true →
  ∃ reason, pe_decision (tpr_evaluation (review_subject_for_control s)) = DecisionBlocked reason.
Proof.
  intros Hb. unfold review_subject_for_control. cbn. case_bool_decide; cbn;
    unfold session_lock_decision, baseline_decision; rewrite Hb, orb_true_r; by eexists.
Qed.

Lemma any_review_blocker_app l k :
  any_review_blocker (l ++ k) = any_review_blocker l || any_review_blocker k.
Proof. apply existsb_app. Qed.

(** Review is fail-closed.  A plan whose risk cannot be classified, or
    is classified below the planner's floor, is blocked whatever its actor,
    and so is a plan with a blocker finding; with or without the floor of a
    registered operation, and by the protective-lock policy as well. *)
Theorem review_fails_closed principal plan c rev
    (Hrev : review_plan_with_classification principal plan c = Ok rev)
    (Hbad : (∃ r1 r2, c = Unclassified r1 r2) ∨ (∃ r f k ids, c = DowngradeRejected r f k ids) ∨
            has_blockers plan = true) :
  (∃ reason, pe_decision (tpr_evaluation rev) = DecisionBlocked reason) ∧
  ∀ setting event lock, ∃ rev' reason,
    review_protective_plan principal plan c setting event lock = Ok rev' ∧
    pe_decision (tpr_evaluation rev') = DecisionBlocked reason.
Proof.
  unfold review_plan_with_classification in Hrev. apply bind_Ok in Hrev as (s & Hs & [= <-]).
  assert (PolicySubject_has_blockers s = true) as Hb.
  { apply subject_Ok in Hs as (extra & Hc & _ & _ & _ & _ & _ & _ & _ & _ & _ & _ & Hf & _).
    unfold PolicySubject_has_blockers. rewrite Hf, any_review_blocker_app. apply orb_true_iff.
    destruct Hbad as [(? & ? & ->)|[(? & ? & ? & ? & ->)|Hbl]].
    - right. cbn in Hc. by injection Hc as _ _ <-.
    - right. cbn in Hc. by injection Hc as _ _ <-.
    - left. unfold has_blockers, any_blocker in Hbl. apply existsb_exists in Hbl as (f & Hin & Hf').
      apply existsb_exists. exists (reviewed_finding f). split; [by apply in_map|].
      apply bool_decide_eq_true in Hf'. cbn. by rewrite Hf'. }
  split; [by apply review_blocked|]. intros setting event lock.
  unfold review_protective_plan. rewrite Hs. cbn. eexists _, _. split; [done|]. cbn.
  unfold protective_lock_decision. by rewrite Hb, orb_true_r.
Qed.
(** ** Plans of the planner *)

(** The approval a risk class calls for. *)
Definition approval_for (risk : RiskClass) : option ApprovalClass :=
  match risk with
  | ReadOnly | UserState => None
  | SystemMutation => Some InteractiveUser
  | SecuritySensitive => Some Administrator
  | Destructive => Some DestructiveAction
  end.

Lemma baseline_decision_spec s :
  match baseline_decision s with
  | DecisionBlocked _ => ps_status s = ReviewBlocked ∨ PolicySubject_has_blockers s = true
  | Deny _ => actor_kind (ps_actor s) = Remote
  | Allow => approval_for (ps_prospective_risk s) = None ∧ actor_kind (ps_actor s) ≠ Remote
  | RequireApproval class _ => approval_for (ps_prospective_risk s) = Some class
  end.
Proof.
  unfold baseline_decision.
  destruct (bool_decide_reflect (ps_status s = ReviewBlocked)); cbn; [by left|].
  destruct (PolicySubject_has_blockers s); [by right|].
  destruct (bool_decide_reflect (actor_kind (ps_actor s) = Remote)); [done|].
  by destruct (ps_prospective_risk s).
Qed.

(** The session-lock policy allows only a plan without changes. *)
Lemma session_lock_allows_no_change s :
  session_lock_decision s = Allow → ps_status s = ReviewNoChange ∧ ps_changes s = [].
Proof.
  unfold session_lock_decision. destruct (_ || _); [done|].
  destruct (SessionLockId_from_resource _); [|done]. destruct (_ || _); [done|].
  destruct (bool_decide_reflect (ps_status s = ReviewNoChange)); cbn.
  - destruct (bool_decide _); cbn.
    + destruct (ps_changes s) as [|c l]; cbn; [done|].
      destruct (_ || _); [done|]. destruct l; [|done]. destruct (negb _); [done|].
      repeat case_bool_decide; done.
    + destruct (_ || _); [done|]. destruct (ps_changes s) as [|c [|? ?]]; try done.
      destruct (negb _); [done|]. repeat case_bool_decide; done.
  - destruct (_ || _); [done|]. destruct (ps_changes s) as [|c [|? ?]]; try done.
    destruct (negb _); [done|]. repeat case_bool_decide; done.
Qed.

Lemma review_decision_cases s :
  pe_decision (tpr_evaluation (review_subject_for_control s))
  = if bool_decide (ps_provider s = "session-locker") then session_lock_decision s else baseline_decision s.
Proof. unfold review_subject_for_control. cbn. by case_bool_decide. Qed.

(** What the subject of a plan made by the planner carries. *)
Lemma planned_subject request_id actor d o plan principal s :
  plan_resource request_id actor d o = Ok plan →
  policy_subject_from_plan principal plan = Ok s →
  (ps_status s = ReviewNoChange ↔ rp_status plan = NoChange) ∧
  (ps_status s = ReviewChangeProposed → rp_changes plan ≠ [] ∧
     risk_le SystemMutation (ps_prospective_risk s) ∧
     ∃ rule, rule ∈ rk_rules (plan_risk_policy plan) ∧ RiskRule_matches rule plan = true).
Proof.
  intros Hp Hs. pose proof (plan_resource_Ok _ _ _ _ _ Hp) as (_ & _ & _ & Hst & Hrisk & _).
  apply subject_Ok in Hs as (extra & Hc & _). unfold policy_subject_from_plan in *.
  destruct (classify_plan_risk plan) as [r|r rev ids|rev re|rev f c ids] eqn:E; cbn in Hc;
    injection Hc as Hc1 Hc2 Hc3.
  - apply classify_NotApplicable in E as [Hr Hn]. rewrite <- Hc1. destruct (rp_status plan) eqn:Ep; cbn;
      (split; [done|]); try done. intros _. exfalso. destruct Hn as [?|Hn]; [done|].
    rewrite Hn in Hst. destruct (any_blocker _); done.
  - apply classify_Classified in E as (Ep & Hne & Hle & rule & Hin & Hm & _).
    rewrite <- Hc1, Ep. cbn. split; [done|]. intros _. split_and!; [done| |by exists rule].
    rewrite <- Hc2. destruct (rp_changes plan); [done|]. cbn in Hrisk. rewrite Hrisk in Hle. done.
  - rewrite <- Hc1. split; [|done]. split; [done|]. intros Hn. exfalso.
    unfold classify_plan_risk in E. assert (RiskPolicy_classify (plan_risk_policy plan) plan
      = NotApplicable (rp_prospective_risk plan)) as Hx by (apply classify_NotApplicable; rewrite Hn; auto).
    congruence.
  - rewrite <- Hc1. split; [|done]. split; [done|]. intros Hn. exfalso.
    unfold classify_plan_risk in E. assert (RiskPolicy_classify (plan_risk_policy plan) plan
      = NotApplicable (rp_prospective_risk plan)) as Hx by (apply classify_NotApplicable; rewrite Hn; auto).
    congruence.
Qed.

(** C6: Nothing changes without approval.  When the review of a plan made by
    the planner allows it outright, the plan has no change: every desired
    attribute was observed as desired.  When it asks for approval, a trusted
    rule covers the provider, resource, capability and every changed
    attribute, and outside the session locker the approval class is the one
    of a risk at least that of a system mutation. *)
Theorem planned_change_needs_approval request_id actor d o plan principal rev
    (Hp : plan_resource request_id actor d o = Ok plan)
    (Hrev : review_plan principal plan = Ok rev) :
  (pe_decision (tpr_evaluation rev) = Allow →
     rp_changes plan = [] ∧ dr_state d ⊆ po_attributes o) ∧
  (∀ class reason, pe_decision (tpr_evaluation rev) = RequireApproval class reason →
     (∃ rule, rule ∈ rk_rules (plan_risk_policy plan) ∧ RiskRule_matches rule plan = true) ∧
     (rp_provider plan ≠ "session-locker" →
      ∃ risk, risk_le SystemMutation risk ∧ approval_for risk = Some class)).
Proof.
  unfold review_plan in Hrev. apply bind_Ok in Hrev as (s & Hs & [= <-]).
  destruct (planned_subject _ _ _ _ _ _ _ Hp Hs) as [Hno Hch].
  pose proof (plan_no_change_iff _ _ _ _ _ Hp) as Hsub.
  pose proof (plan_resource_Ok _ _ _ _ _ Hp) as (_ & _ & _ & Hst & _).
  assert (rp_status plan = NoChange → rp_changes plan = []) as Hnil.
  { intros Hn. rewrite Hst in Hn. destruct (any_blocker _); [done|]. by destruct (rp_changes plan). }
  apply subject_Ok in Hs as (extra & _ & _ & _ & _ & _ & Hprov & _ & _ & _ & _ & _ & _ & Hnew).
  apply try_new_status in Hnew as (Hbl & Hnc & Hcp).
  rewrite review_decision_cases, Hprov. split.
  - intros Hallow. assert (ps_status s = ReviewNoChange) as Hn.
    { case_bool_decide as Hb; [by apply session_lock_allows_no_change in Hallow as [? _]|].
      pose proof (baseline_decision_spec s) as Hspec. rewrite Hallow in Hspec. destruct Hspec as [Hr _].
      destruct (ps_status s); [done| |].
      - destruct (Hch eq_refl) as (_ & Hle & _). by destruct (ps_prospective_risk s); cbn in *; try lia.
      - unfold baseline_decision in Hallow. rewrite (proj1 Hbl eq_refl), orb_true_r in Hallow. done. }
    apply Hno in Hn. split; [by apply Hnil|by apply Hsub].
  - intros class reason Hreq. assert (ps_status s = ReviewChangeProposed) as Hn.
    { case_bool_decide as Hb.
      - unfold session_lock_decision in Hreq. destruct (_ || _); [done|].
        destruct (SessionLockId_from_resource _); [|done]. destruct (_ || _); [done|].
        destruct (_ && _); [done|]. destruct (bool_decide_reflect (ps_status s = ReviewChangeProposed)); done.
      - pose proof (baseline_decision_spec s) as Hspec. rewrite Hreq in Hspec.
        destruct (ps_status s); [|done|].
        + destruct (Hnc eq_refl) as [_ Hr]. rewrite Hr in Hspec. done.
        + unfold baseline_decision in Hreq. by rewrite (proj1 Hbl eq_refl), orb_true_r in Hreq. }
    destruct (Hch Hn) as (_ & Hle & Hrule). split; [done|]. intros Hne.
    rewrite bool_decide_eq_false_2 in Hreq by done. pose proof (baseline_decision_spec s) as Hspec.
    rewrite Hreq in Hspec. by exists (ps_prospective_risk s).
Qed.
End facts.
