(* ===== verification/ApprovalStore.v ===== *)
(** * linura-control: approval evidence

    Models [crates/linura-control/src/approval.rs]: approval requirements
    bound to reviewed material, the evidence an authenticated approver
    issues, and its validation. *)

From Stdlib Require Import ZArith Lia.
From stdpp Require Import base numbers gmap strings list fin_maps sorting.
From S2P Require Import Prelude Text Core.

Set Default Goal Selector "!".

Definition MAX_APPROVAL_TTL_SECONDS : Z := 86400.

Record ApprovalRequirement (B C : Type) := {
  ar_class : C;
  ar_binding : B;
}.
Arguments ar_class {B C}.
Arguments ar_binding {B C}.

Record AuthenticatedApprover (C : Type) `{Countable C} := {
  aa_principal : PrincipalId;
  aa_kind : ActorKind;
  aa_approval_classes : gset C;
}.
Arguments aa_principal {C _ _}.
Arguments aa_kind {C _ _}.
Arguments aa_approval_classes {C _ _}.

Record ApprovalEvidence (B C : Type) := {
  ae_id : ApprovalEvidenceId;
  ae_request_id : ApprovalRequestId;
  ae_requirement : ApprovalRequirement B C;
  ae_approver : PrincipalId;
  ae_issued_at_unix_seconds : Z;
  ae_expires_at_unix_seconds : Z;
}.
Arguments ae_id {B C}.
Arguments ae_request_id {B C}.
Arguments ae_requirement {B C}.
Arguments ae_approver {B C}.
Arguments ae_issued_at_unix_seconds {B C}.
Arguments ae_expires_at_unix_seconds {B C}.

Record ApprovalRevocation := {
  av_revoked_by : PrincipalId;
  av_revoked_at_unix_seconds : Z;
}.

Inductive ApprovalIssueError (C : Type) :=
| NonHumanApprover
| MissingApprovalClass (class : C)
| IssueInvalidValidityWindow
| ValidityWindowTooLong.
Arguments NonHumanApprover {C}.
Arguments MissingApprovalClass {C}.
Arguments IssueInvalidValidityWindow {C}.
Arguments ValidityWindowTooLong {C}.

Inductive ApprovalValidation := Satisfied | BindingMismatch | NotYetValid | Expired | Revoked.

#[export] Instance ApprovalValidation_eq_dec : EqDecision ApprovalValidation.
Proof. solve_decision. Defined.

Section approval.
Context {B C : Type} `{EqDecision B} `{Countable C}.

Definition can_satisfy (a : AuthenticatedApprover C) (class : C) : bool :=
  bool_decide (aa_kind a = Human) && bool_decide (class ∈ aa_approval_classes a).

Definition try_issue (id : ApprovalEvidenceId) (request_id : ApprovalRequestId)
    (requirement : ApprovalRequirement B C) (approver : AuthenticatedApprover C)
    (issued_at_unix_seconds expires_at_unix_seconds : Z)
    : result (ApprovalIssueError C) (ApprovalEvidence B C) :=
  reject_if (negb (bool_decide (aa_kind approver = Human))) NonHumanApprover;;
  reject_if (negb (can_satisfy approver (ar_class requirement)))
    (MissingApprovalClass (ar_class requirement));;
  reject_if (expires_at_unix_seconds <=? issued_at_unix_seconds)%Z IssueInvalidValidityWindow;;
  reject_if (MAX_APPROVAL_TTL_SECONDS <? expires_at_unix_seconds - issued_at_unix_seconds)%Z
    ValidityWindowTooLong;;
  Ok {| ae_id := id; ae_request_id := request_id; ae_requirement := requirement;
        ae_approver := aa_principal approver;
        ae_issued_at_unix_seconds := issued_at_unix_seconds;
        ae_expires_at_unix_seconds := expires_at_unix_seconds |}.

Definition validate_approval (evidence : ApprovalEvidence B C) (current_binding : B)
    (current_class : C) (now_unix_seconds : Z) (revocation : option ApprovalRevocation)
    : ApprovalValidation :=
  if negb (bool_decide (ar_binding (ae_requirement evidence) = current_binding))
     || negb (bool_decide (ar_class (ae_requirement evidence) = current_class))
  then BindingMismatch
  else if (now_unix_seconds <? ae_issued_at_unix_seconds evidence)%Z then NotYetValid
  else if (ae_expires_at_unix_seconds evidence <=? now_unix_seconds)%Z then Expired
  else match revocation with Some _ => Revoked | None => Satisfied end.

Lemma try_issue_Ok id request requirement approver issued expires e :
  try_issue id request requirement approver issued expires = Ok e ↔
  aa_kind approver = Human ∧ ar_class requirement ∈ aa_approval_classes approver ∧
  (issued < expires ≤ issued + MAX_APPROVAL_TTL_SECONDS)%Z ∧
  e = {| ae_id := id; ae_request_id := request; ae_requirement := requirement;
         ae_approver := aa_principal approver; ae_issued_at_unix_seconds := issued;
         ae_expires_at_unix_seconds := expires |}.
Proof.
  unfold try_issue, can_satisfy.
  destruct (bool_decide_reflect (aa_kind approver = Human)); cbn; [|naive_solver].
  destruct (bool_decide_reflect (ar_class requirement ∈ aa_approval_classes approver)); cbn; [|naive_solver].
  destruct (Z.leb_spec expires issued); cbn; [naive_solver lia|].
  destruct (Z.ltb_spec MAX_APPROVAL_TTL_SECONDS (expires - issued)); cbn; [naive_solver lia|].
  split; [intros [= <-]; split_and!; (done || lia)|naive_solver].
Qed.

Lemma validate_approval_Satisfied e b c now rev :
  validate_approval e b c now rev = Satisfied ↔
  ar_binding (ae_requirement e) = b ∧ ar_class (ae_requirement e) = c ∧
  (ae_issued_at_unix_seconds e ≤ now < ae_expires_at_unix_seconds e)%Z ∧ rev = None.
Proof.
  unfold validate_approval.
  destruct (bool_decide_reflect (ar_binding (ae_requirement e) = b)); cbn; [|naive_solver].
  destruct (bool_decide_reflect (ar_class (ae_requirement e) = c)); cbn; [|naive_solver].
  destruct (Z.ltb_spec now (ae_issued_at_unix_seconds e)); [naive_solver lia|].
  destruct (Z.leb_spec (ae_expires_at_unix_seconds e) now); [naive_solver lia|].
  destruct rev; naive_solver lia.
Qed.
End approval.

(** * linura-control: the approval lifecycle

    Models [crates/linura-control/src/approval_review.rs]: the bounded store
    of approval evidence with its replay tombstones, byte accounting and
    authority clock.  An operation takes what the clock answered as an
    argument and returns the control after the call with the result, also
    when it fails. *)

From S2P Require Import Fields Digest Ordered Policy RiskReview.

Definition MAX_APPROVAL_ENTRIES : Z := 256.
Definition MAX_APPROVAL_ENTRY_BYTES : Z := 256 * 1024.
Definition MAX_APPROVAL_TOTAL_BYTES : Z := 4 * 1024 * 1024.
Definition MAX_APPROVAL_TOMBSTONES : Z := 4096.
Definition MAX_APPROVAL_TOMBSTONE_BYTES : Z := 2 * 1024 * 1024.
Definition APPROVAL_TOMBSTONE_RETENTION_SECONDS : Z := MAX_APPROVAL_TTL_SECONDS.
Definition APPROVAL_RECORD_OVERHEAD_BYTES : Z := 256.
Definition APPROVAL_TOMBSTONE_OVERHEAD_BYTES : Z := 64.

#[export] Instance ApprovalClass_countable : Countable ApprovalClass.
Proof.
  refine (inj_countable
    (λ c, match c with InteractiveUser => 0 | SessionOwnerAuthentication => 1
                     | Administrator => 2 | DestructiveAction => 3 end)%nat
    (λ n, match n with 0 => Some InteractiveUser | 1 => Some SessionOwnerAuthentication
                     | 2 => Some Administrator | 3 => Some DestructiveAction | _ => None end)%nat _).
  by intros [].
Defined.

Abbreviation PolicyApprovalRequirement := (ApprovalRequirement PolicyEvaluation ApprovalClass).
Abbreviation PolicyApprovalEvidence := (ApprovalEvidence PolicyEvaluation ApprovalClass).
Abbreviation PolicyAuthenticatedApprover := (AuthenticatedApprover ApprovalClass).

Inductive ApprovalRequirementError := NotRequired | NotApprovable.

Definition required_approval_class (review : TrustedPolicyReview)
    : result ApprovalRequirementError ApprovalClass :=
  match pe_decision (tpr_evaluation review) with
  | RequireApproval class _ => Ok class
  | Allow => Err NotRequired
  | Deny _ | DecisionBlocked _ => Err NotApprovable
  end.

Definition approval_requirement_from_review (review : TrustedPolicyReview) (class : ApprovalClass)
    : PolicyApprovalRequirement :=
  {| ar_class := class; ar_binding := tpr_evaluation review |}.

Inductive PolicyApprovalIssueError :=
| IssueRequirement (error : ApprovalRequirementError)
| IssueEvidence (error : ApprovalIssueError ApprovalClass).

Definition validate_policy_approval (evidence : PolicyApprovalEvidence) (review : TrustedPolicyReview)
    (now_unix_seconds : Z) (revocation : option ApprovalRevocation) : ApprovalValidation :=
  match required_approval_class review with
  | Err _ => BindingMismatch
  | Ok class => validate_approval evidence (tpr_evaluation review) class now_unix_seconds revocation
  end.

(** [add_len] folded over the texts in the order of the source. *)
Definition add_len (total : Z) (value : string) : Z := u64_saturating_add total (str_len value).

Definition reason_texts (r : SemanticReason) : list string :=
  [sr_summary r] ++ sr_intent_ids r ++ sr_requirement_ids r ++ sr_capability_ids r.
Definition change_texts (c : ReviewedChange) : list string :=
  [rc_key c] ++ option_list (rc_current c) ++ [rc_desired c].
Definition finding_texts (f : ReviewedFinding) : list string := [rf_code f; rf_message f].
Definition decision_texts (d : PolicyDecision) : list string :=
  match d with
  | Allow => []
  | Deny reason | RequireApproval _ reason | DecisionBlocked reason => [reason]
  end.

Definition evaluation_texts (evaluation : PolicyEvaluation) : list string :=
  let subject := pe_subject evaluation in
  let binding := pe_binding evaluation in
  [ps_principal subject; ps_plan_id subject; ps_request_id subject; actor_id (ps_actor subject);
   ps_provider subject; ps_resource subject; ps_capability subject;
   ps_observed_evidence_id subject]
  ++ reason_texts (ps_reason subject)
  ++ (ps_changes subject ≫= change_texts)
  ++ (ps_findings subject ≫= finding_texts)
  ++ [rb_principal binding; rb_plan_id binding; rb_request_id binding;
      rb_observed_evidence_id binding; rb_provider binding; rb_resource binding;
      rb_capability binding; rb_policy_id binding; rb_policy_revision_id binding]
  ++ decision_texts (pe_decision evaluation).

Definition approval_binding_bytes (evaluation : PolicyEvaluation) : Z :=
  foldl add_len 0%Z (evaluation_texts evaluation).

Definition approval_tombstone_bytes (request_id : ApprovalRequestId) : Z :=
  u64_saturating_add (str_len request_id) APPROVAL_TOMBSTONE_OVERHEAD_BYTES.

Record ApprovalRecord := {
  rec_evidence : PolicyApprovalEvidence;
  rec_revocation : option ApprovalRevocation;
  rec_accounted_bytes : Z;
}.

Record ApprovalTombstone := {
  tomb_retired_at_unix_seconds : Z;
  tomb_accounted_bytes : Z;
}.

Inductive ApprovalControlError :=
| IssueError (error : PolicyApprovalIssueError)
| InvalidEvidenceId (error : ValidationError)
| ApprovalIdempotencyConflict
| CapacityExceeded
| EntryTooLarge
| TotalCapacityExceeded
| TombstoneCapacityExceeded
| TombstoneTotalCapacityExceeded
| SequenceExhausted
| EvidenceNotFound
| RevokerNotAuthorized
| ClockUnavailable
| ClockRollback.

Record ApprovalReviewControl := {
  arc_last_authority_unix_seconds : Z;
  arc_records : gmap ApprovalEvidenceId ApprovalRecord;
  arc_requests : gmap ApprovalRequestId ApprovalEvidenceId;
  arc_tombstones : gmap ApprovalRequestId ApprovalTombstone;
  arc_next_evidence_sequence : Z;
  arc_total_accounted_bytes : Z;
  arc_tombstone_accounted_bytes : Z;
}.

Definition ApprovalReviewControl_with_clock : ApprovalReviewControl :=
  {| arc_last_authority_unix_seconds := 0; arc_records := ∅; arc_requests := ∅;
     arc_tombstones := ∅; arc_next_evidence_sequence := 0; arc_total_accounted_bytes := 0;
     arc_tombstone_accounted_bytes := 0 |}.

Definition set_last (s : ApprovalReviewControl) (x : Z) : ApprovalReviewControl :=
  {| arc_last_authority_unix_seconds := x; arc_records := arc_records s;
     arc_requests := arc_requests s; arc_tombstones := arc_tombstones s;
     arc_next_evidence_sequence := arc_next_evidence_sequence s;
     arc_total_accounted_bytes := arc_total_accounted_bytes s;
     arc_tombstone_accounted_bytes := arc_tombstone_accounted_bytes s |}.

(** [authority_now_unix_seconds]; [sample] is what the clock answers. *)
Definition authority_now_unix_seconds (s : ApprovalReviewControl)
    (sample : result ApprovalControlError Z)
    : ApprovalReviewControl * result ApprovalControlError Z :=
  match sample with
  | Err e => (s, Err e)
  | Ok sampled =>
      let previous := arc_last_authority_unix_seconds s in
      (set_last s (Z.max previous sampled),
       if (sampled <? previous)%Z then Err ClockRollback else Ok sampled)
  end.

Definition remove_tombstone (s : ApprovalReviewControl) (request_id : ApprovalRequestId)
    : ApprovalReviewControl :=
  match arc_tombstones s !! request_id with
  | None => s
  | Some tombstone =>
      {| arc_last_authority_unix_seconds := arc_last_authority_unix_seconds s;
         arc_records := arc_records s; arc_requests := arc_requests s;
         arc_tombstones := delete request_id (arc_tombstones s);
         arc_next_evidence_sequence := arc_next_evidence_sequence s;
         arc_total_accounted_bytes := arc_total_accounted_bytes s;
         arc_tombstone_accounted_bytes :=
           u64_saturating_sub (arc_tombstone_accounted_bytes s) (tomb_accounted_bytes tombstone) |}
  end.

Definition tombstone_expired (now_unix_seconds : Z) (t : ApprovalTombstone) : bool :=
  (u64_saturating_add (tomb_retired_at_unix_seconds t) APPROVAL_TOMBSTONE_RETENTION_SECONDS
   <=? now_unix_seconds)%Z.

Definition prune_tombstones (s : ApprovalReviewControl) (now_unix_seconds : Z)
    : ApprovalReviewControl :=
  let expired :=
    fst <$> filter (λ e, tombstone_expired now_unix_seconds (snd e) = true)
              (btree_entries (arc_tombstones s)) in
  foldl remove_tombstone s expired.

Definition record_inactive (now_unix_seconds : Z) (r : ApprovalRecord) : bool :=
  bool_decide (is_Some (rec_revocation r))
  || (ae_expires_at_unix_seconds (rec_evidence r) <=? now_unix_seconds)%Z.

(** Candidates: evidence, request and the bytes of the tombstone. *)
Definition inactive_candidates (s : ApprovalReviewControl) (now_unix_seconds : Z)
    : list (ApprovalEvidenceId * ApprovalRequestId * Z) :=
  (λ e, (fst e, ae_request_id (rec_evidence (snd e)),
         approval_tombstone_bytes (ae_request_id (rec_evidence (snd e)))))
  <$> filter (λ e, record_inactive now_unix_seconds (snd e) = true) (btree_entries (arc_records s)).

(** [candidates.iter().try_fold(0usize, checked_add)]. *)
Fixpoint sum_candidate_bytes (total : Z) (l : list (ApprovalEvidenceId * ApprovalRequestId * Z))
    : option Z :=
  match l with
  | [] => Some total
  | (_, _, bytes) :: l => total ← u64_checked_add total bytes; sum_candidate_bytes total l
  end.

Definition retire (now_unix_seconds : Z) (s : ApprovalReviewControl)
    (candidate : ApprovalEvidenceId * ApprovalRequestId * Z) : ApprovalReviewControl :=
  let '(evidence_id, request_id, accounted_bytes) := candidate in
  match arc_records s !! evidence_id with
  | None => s
  | Some record =>
      {| arc_last_authority_unix_seconds := arc_last_authority_unix_seconds s;
         arc_records := delete evidence_id (arc_records s);
         arc_requests := delete request_id (arc_requests s);
         arc_tombstones :=
           <[request_id := {| tomb_retired_at_unix_seconds := now_unix_seconds;
                              tomb_accounted_bytes := accounted_bytes |}]> (arc_tombstones s);
         arc_next_evidence_sequence := arc_next_evidence_sequence s;
         arc_total_accounted_bytes :=
           u64_saturating_sub (arc_total_accounted_bytes s) (rec_accounted_bytes record);
         arc_tombstone_accounted_bytes :=
           u64_saturating_add (arc_tombstone_accounted_bytes s) accounted_bytes |}
  end.

(** The capacity checks of [reclaim_inactive]. *)
Definition reclaim_checks (s : ApprovalReviewControl)
    (candidates : list (ApprovalEvidenceId * ApprovalRequestId * Z))
    : result ApprovalControlError unit :=
  new_tombstone_count ← ok_or (u64_checked_add (Z.of_nat (size (arc_tombstones s)))
                                 (Z.of_nat (length candidates))) TombstoneCapacityExceeded;
  reject_if (MAX_APPROVAL_TOMBSTONES <? new_tombstone_count)%Z TombstoneCapacityExceeded;;
  candidate_bytes ← ok_or (sum_candidate_bytes 0 candidates) TombstoneTotalCapacityExceeded;
  new_tombstone_bytes ← ok_or (u64_checked_add (arc_tombstone_accounted_bytes s) candidate_bytes)
                          TombstoneTotalCapacityExceeded;
  reject_if (MAX_APPROVAL_TOMBSTONE_BYTES <? new_tombstone_bytes)%Z TombstoneTotalCapacityExceeded.

Definition reclaim_inactive (s : ApprovalReviewControl) (now_unix_seconds : Z)
    : ApprovalReviewControl * result ApprovalControlError unit :=
  let s := prune_tombstones s now_unix_seconds in
  let candidates := inactive_candidates s now_unix_seconds in
  if is_nil candidates then (s, Ok tt)
  else
    match reclaim_checks s candidates with
    | Err e => (s, Err e)
    | Ok _ => (foldl (retire now_unix_seconds) s candidates, Ok tt)
    end.

Definition ApprovalEvidenceId_new := typed_id_new "approval evidence id".

Definition EVIDENCE_PREFIX : string := "approval:evidence:".

Definition accounted_bytes_of (request_id : ApprovalRequestId) (review : TrustedPolicyReview)
    (approver : PolicyAuthenticatedApprover) : Z :=
  u64_saturating_add
    (u64_saturating_add
       (u64_saturating_add (approval_binding_bytes (tpr_evaluation review)) (str_len request_id))
       (str_len (aa_principal approver)))
    APPROVAL_RECORD_OVERHEAD_BYTES.

Definition set_sequence (s : ApprovalReviewControl) (x : Z) : ApprovalReviewControl :=
  {| arc_last_authority_unix_seconds := arc_last_authority_unix_seconds s;
     arc_records := arc_records s; arc_requests := arc_requests s;
     arc_tombstones := arc_tombstones s; arc_next_evidence_sequence := x;
     arc_total_accounted_bytes := arc_total_accounted_bytes s;
     arc_tombstone_accounted_bytes := arc_tombstone_accounted_bytes s |}.

(** The two final inserts of [issue_at]. *)
Definition retain (s : ApprovalReviewControl) (evidence : PolicyApprovalEvidence)
    (accounted_bytes new_total : Z) : ApprovalReviewControl :=
  {| arc_last_authority_unix_seconds := arc_last_authority_unix_seconds s;
     arc_records := <[ae_id evidence := {| rec_evidence := evidence; rec_revocation := None;
                                           rec_accounted_bytes := accounted_bytes |}]> (arc_records s);
     arc_requests := <[ae_request_id evidence := ae_id evidence]> (arc_requests s);
     arc_tombstones := arc_tombstones s;
     arc_next_evidence_sequence := arc_next_evidence_sequence s;
     arc_total_accounted_bytes := new_total;
     arc_tombstone_accounted_bytes := arc_tombstone_accounted_bytes s |}.

(** [issue_at] for a request identifier that is not retained. *)
Definition issue_fresh (s : ApprovalReviewControl) (request_id : ApprovalRequestId)
    (review : TrustedPolicyReview) (approver : PolicyAuthenticatedApprover) (class : ApprovalClass)
    (issued_at_unix_seconds expires_at_unix_seconds : Z)
    : ApprovalReviewControl * result ApprovalControlError PolicyApprovalEvidence :=
  let accounted_bytes := accounted_bytes_of request_id review approver in
  if (MAX_APPROVAL_ENTRY_BYTES <? accounted_bytes)%Z then (s, Err EntryTooLarge)
  else if (MAX_APPROVAL_ENTRIES <=? Z.of_nat (size (arc_records s)))%Z then (s, Err CapacityExceeded)
  else
    match u64_checked_add (arc_total_accounted_bytes s) accounted_bytes with
    | None => (s, Err TotalCapacityExceeded)
    | Some new_total =>
        if (MAX_APPROVAL_TOTAL_BYTES <? new_total)%Z then (s, Err TotalCapacityExceeded)
        else
          match ApprovalEvidenceId_new (EVIDENCE_PREFIX +:+ u64_hex16 (arc_next_evidence_sequence s)) with
          | Err e => (s, Err (InvalidEvidenceId e))
          | Ok evidence_id =>
              match u64_checked_add (arc_next_evidence_sequence s) 1 with
              | None => (s, Err SequenceExhausted)
              | Some next =>
                  let s := set_sequence s next in
                  let requirement := approval_requirement_from_review review class in
                  match try_issue evidence_id request_id requirement approver
                          issued_at_unix_seconds expires_at_unix_seconds with
                  | Err e => (s, Err (IssueError (IssueEvidence e)))
                  | Ok evidence => (retain s evidence accounted_bytes new_total, Ok evidence)
                  end
              end
          end
    end.

(** An exact retry of a retained request. *)
Definition same_request (existing : PolicyApprovalEvidence) (review : TrustedPolicyReview)
    (class : ApprovalClass) (approver : PolicyAuthenticatedApprover) (expires_at_unix_seconds : Z)
    : bool :=
  bool_decide (ar_binding (ae_requirement existing) = tpr_evaluation review)
  && bool_decide (ar_class (ae_requirement existing) = class)
  && bool_decide (ae_approver existing = aa_principal approver)
  && (ae_expires_at_unix_seconds existing =? expires_at_unix_seconds)%Z.

Definition issue_at (s : ApprovalReviewControl) (request_id : ApprovalRequestId)
    (review : TrustedPolicyReview) (approver : PolicyAuthenticatedApprover)
    (issued_at_unix_seconds expires_at_unix_seconds : Z)
    : ApprovalReviewControl * result ApprovalControlError PolicyApprovalEvidence :=
  match reclaim_inactive s issued_at_unix_seconds with
  | (s, Err e) => (s, Err e)
  | (s, Ok _) =>
      match arc_tombstones s !! request_id with
      | Some _ => (s, Err ApprovalIdempotencyConflict)
      | None =>
          match required_approval_class review with
          | Err e => (s, Err (IssueError (IssueRequirement e)))
          | Ok class =>
              match arc_requests s !! request_id with
              | Some existing_id =>
                  match arc_records s !! existing_id with
                  | None => (s, Err ApprovalIdempotencyConflict)
                  | Some existing =>
                      if same_request (rec_evidence existing) review class approver
                           expires_at_unix_seconds
                      then (s, Ok (rec_evidence existing))
                      else (s, Err ApprovalIdempotencyConflict)
                  end
              | None =>
                  issue_fresh s request_id review approver class issued_at_unix_seconds
                    expires_at_unix_seconds
              end
          end
      end
  end.

Definition issue (s : ApprovalReviewControl) (sample : result ApprovalControlError Z)
    (request_id : ApprovalRequestId) (review : TrustedPolicyReview)
    (approver : PolicyAuthenticatedApprover) (expires_at_unix_seconds : Z)
    : ApprovalReviewControl * result ApprovalControlError PolicyApprovalEvidence :=
  match authority_now_unix_seconds s sample with
  | (s, Err e) => (s, Err e)
  | (s, Ok now) => issue_at s request_id review approver now expires_at_unix_seconds
  end.

Definition validate_at (s : ApprovalReviewControl) (evidence_id : ApprovalEvidenceId)
    (review : TrustedPolicyReview) (now_unix_seconds : Z) : ApprovalValidation :=
  match arc_records s !! evidence_id with
  | None => BindingMismatch
  | Some record =>
      validate_policy_approval (rec_evidence record) review now_unix_seconds (rec_revocation record)
  end.

(** [&self]: only the clock state changes. *)
Definition validate (s : ApprovalReviewControl) (sample : result ApprovalControlError Z)
    (evidence_id : ApprovalEvidenceId) (review : TrustedPolicyReview)
    : ApprovalReviewControl * result ApprovalControlError ApprovalValidation :=
  match authority_now_unix_seconds s sample with
  | (s, Err e) => (s, Err e)
  | (s, Ok now) => (s, Ok (validate_at s evidence_id review now))
  end.

Definition set_record (s : ApprovalReviewControl) (id : ApprovalEvidenceId) (r : ApprovalRecord)
    : ApprovalReviewControl :=
  {| arc_last_authority_unix_seconds := arc_last_authority_unix_seconds s;
     arc_records := <[id := r]> (arc_records s); arc_requests := arc_requests s;
     arc_tombstones := arc_tombstones s;
     arc_next_evidence_sequence := arc_next_evidence_sequence s;
     arc_total_accounted_bytes := arc_total_accounted_bytes s;
     arc_tombstone_accounted_bytes := arc_tombstone_accounted_bytes s |}.

Definition revoke_at (s : ApprovalReviewControl) (evidence_id : ApprovalEvidenceId)
    (revoker : PolicyAuthenticatedApprover) (revoked_at_unix_seconds : Z)
    : ApprovalReviewControl * result ApprovalControlError unit :=
  match arc_records s !! evidence_id with
  | None => (s, Err EvidenceNotFound)
  | Some record =>
      if negb (can_satisfy revoker (ar_class (ae_requirement (rec_evidence record))))
      then (s, Err RevokerNotAuthorized)
      else
        match rec_revocation record with
        | Some _ => (s, Ok tt)
        | None =>
            (set_record s evidence_id
               {| rec_evidence := rec_evidence record;
                  rec_revocation := Some {| av_revoked_by := aa_principal revoker;
                                            av_revoked_at_unix_seconds := revoked_at_unix_seconds |};
                  rec_accounted_bytes := rec_accounted_bytes record |}, Ok tt)
        end
  end.

Definition revoke (s : ApprovalReviewControl) (sample : result ApprovalControlError Z)
    (evidence_id : ApprovalEvidenceId) (revoker : PolicyAuthenticatedApprover)
    : ApprovalReviewControl * result ApprovalControlError unit :=
  match authority_now_unix_seconds s sample with
  | (s, Err e) => (s, Err e)
  | (s, Ok now) => revoke_at s evidence_id revoker now
  end.

Definition ApprovalReviewControl_get (s : ApprovalReviewControl) (evidence_id : ApprovalEvidenceId)
    : option PolicyApprovalEvidence := rec_evidence <$> arc_records s !! evidence_id.
