(* ===== verification/ApprovalInvariant.v ===== *)
(** * The invariant of the approval store

    A run of the approval lifecycle with the log of what it issued and
    revoked, the invariant that relates the store to that log, and its
    preservation by pruning, reclamation, issuing, validation and
    revocation. *)

From Stdlib Require Import ZArith Lia Ascii.
From stdpp Require Import base numbers gmap strings list fin_maps fin_map_dom sorting.
From S2P Require Import Prelude Text Fields Core Digest Ordered Policy RiskReview ApprovalStore.

Set Default Goal Selector "!".

(** ** Evidence identifiers *)

Definition evidence_name (n : Z) : ApprovalEvidenceId := EVIDENCE_PREFIX +:+ u64_hex16 n.

Lemma evidence_name_inj x y : is_u64 x → is_u64 y → evidence_name x = evidence_name y → x = y.
Proof. intros Hx Hy H%string_app_inj_l. by apply u64_hex16_inj. Qed.

(** ** Runs *)

Inductive event :=
| EIssued (e : PolicyApprovalEvidence) (a : PolicyAuthenticatedApprover)
| ERevoked (id : ApprovalEvidenceId).

(** A successful [issue] issues new evidence unless it answers a retry. *)
Definition issue_events (s : ApprovalReviewControl) (approver : PolicyAuthenticatedApprover)
    (r : result ApprovalControlError PolicyApprovalEvidence) : list event :=
  match r with
  | Ok e => match arc_records s !! ae_id e with Some _ => [] | None => [EIssued e approver] end
  | Err _ => []
  end.

Definition revoke_events (id : ApprovalEvidenceId) (r : result ApprovalControlError unit)
    : list event := match r with Ok _ => [ERevoked id] | Err _ => [] end.

(** What the clock can answer. *)
Definition sample_ok (sample : result ApprovalControlError Z) : Prop :=
  ∀ t, sample = Ok t → is_u64 t.

(** The states of an approval control with the log of its run. *)
Inductive run : ApprovalReviewControl → list event → Prop :=
| run_new : run ApprovalReviewControl_with_clock []
| run_issue s log sample request review approver expires s' r :
    run s log → sample_ok sample → is_u64 expires →
    issue s sample request review approver expires = (s', r) →
    run s' (log ++ issue_events s approver r)
| run_validate s log sample id review s' r :
    run s log → sample_ok sample → validate s sample id review = (s', r) → run s' log
| run_revoke s log sample id revoker s' r :
    run s log → sample_ok sample → revoke s sample id revoker = (s', r) →
    run s' (log ++ revoke_events id r).

(** ** The invariant *)

(** What was checked of evidence when it was issued. *)
Record issued_ok (last next : Z) (e : PolicyApprovalEvidence) (a : PolicyAuthenticatedApprover)
    : Prop := {
  is_human : aa_kind a = Human;
  is_class : ar_class (ae_requirement e) ∈ aa_approval_classes a;
  is_approver : ae_approver e = aa_principal a;
  is_decision : ∃ reason, pe_decision (ar_binding (ae_requirement e))
                          = RequireApproval (ar_class (ae_requirement e)) reason;
  is_window : (ae_issued_at_unix_seconds e < ae_expires_at_unix_seconds e
               ≤ ae_issued_at_unix_seconds e + MAX_APPROVAL_TTL_SECONDS)%Z;
  is_time : (ae_issued_at_unix_seconds e ≤ last)%Z ∧ is_u64 (ae_expires_at_unix_seconds e);
  is_name : ∃ n, (0 ≤ n < next)%Z ∧ ae_id e = evidence_name n;
}.

(** Evidence that is not retained any more was revoked or has expired, and
    its request is kept by a tombstone until it has expired. *)
Definition retired (s : ApprovalReviewControl) (log : list event) (e : PolicyApprovalEvidence) : Prop :=
  (ERevoked (ae_id e) ∈ log ∨ (ae_expires_at_unix_seconds e ≤ arc_last_authority_unix_seconds s)%Z) ∧
  ((∃ t, arc_tombstones s !! ae_request_id e = Some t ∧
         (ae_issued_at_unix_seconds e ≤ tomb_retired_at_unix_seconds t)%Z) ∨
   (ae_expires_at_unix_seconds e ≤ arc_last_authority_unix_seconds s)%Z).

Definition live (s : ApprovalReviewControl) (e : PolicyApprovalEvidence) : Prop :=
  ∃ r, arc_records s !! ae_id e = Some r ∧ rec_evidence r = e.

(** Evidence for one request never overlaps in time. *)
Definition follows (x y : event) : Prop :=
  match x, y with
  | EIssued e1 _, EIssued e2 _ =>
      ae_request_id e1 = ae_request_id e2 →
      (ae_expires_at_unix_seconds e1 ≤ ae_issued_at_unix_seconds e2)%Z
  | _, _ => True
  end.

(** The state alone. *)
Record store_inv (s : ApprovalReviewControl) : Prop := {
  si_last : is_u64 (arc_last_authority_unix_seconds s);
  si_next : is_u64 (arc_next_evidence_sequence s);
  si_records : ∀ id r, arc_records s !! id = Some r →
    ae_id (rec_evidence r) = id ∧ arc_requests s !! ae_request_id (rec_evidence r) = Some id ∧
    (0 ≤ rec_accounted_bytes r)%Z;
  si_requests : ∀ q id, arc_requests s !! q = Some id →
    ∃ r, arc_records s !! id = Some r ∧ ae_request_id (rec_evidence r) = q;
  si_disjoint : ∀ q, is_Some (arc_requests s !! q) → arc_tombstones s !! q = None;
  si_tombs : ∀ q t, arc_tombstones s !! q = Some t → (0 ≤ tomb_accounted_bytes t)%Z;
  si_total : arc_total_accounted_bytes s = total rec_accounted_bytes (arc_records s);
  si_tomb_total : arc_tombstone_accounted_bytes s = total tomb_accounted_bytes (arc_tombstones s);
  si_entries : (Z.of_nat (size (arc_records s)) ≤ MAX_APPROVAL_ENTRIES)%Z;
  si_bytes : (arc_total_accounted_bytes s ≤ MAX_APPROVAL_TOTAL_BYTES)%Z;
  si_tomb_entries : (Z.of_nat (size (arc_tombstones s)) ≤ MAX_APPROVAL_TOMBSTONES)%Z;
  si_tomb_bytes : (arc_tombstone_accounted_bytes s ≤ MAX_APPROVAL_TOMBSTONE_BYTES)%Z;
}.

(** The state and the log. *)
Record log_inv (s : ApprovalReviewControl) (log : list event) : Prop := {
  li_records : ∀ id r, arc_records s !! id = Some r → ∃ a, EIssued (rec_evidence r) a ∈ log;
  li_revoked : ∀ id r, arc_records s !! id = Some r →
    is_Some (rec_revocation r) ↔ ERevoked id ∈ log;
  li_issued : ∀ e a, EIssued e a ∈ log →
    issued_ok (arc_last_authority_unix_seconds s) (arc_next_evidence_sequence s) e a;
  li_status : ∀ e a, EIssued e a ∈ log → live s e ∨ retired s log e;
  li_unique : ∀ e1 a1 e2 a2, EIssued e1 a1 ∈ log → EIssued e2 a2 ∈ log →
    ae_id e1 = ae_id e2 → e1 = e2;
  li_revocations : ∀ id, ERevoked id ∈ log → ∃ e a, EIssued e a ∈ log ∧ ae_id e = id;
  li_order : StronglySorted follows log;
}.

Lemma store_inv_init : store_inv ApprovalReviewControl_with_clock.
Proof.
  constructor; cbn; try done; try (intros *; by rewrite lookup_empty).
Qed.

Lemma log_inv_init : log_inv ApprovalReviewControl_with_clock [].
Proof. constructor; cbn; try (intros *; rewrite ?lookup_empty; set_solver). constructor. Qed.

(** ** The clock *)

Lemma store_inv_set_last s t :
  store_inv s → is_u64 t → store_inv (set_last s t).
Proof. intros []. by constructor. Qed.

Lemma issued_ok_mono last last' next next' e a :
  issued_ok last next e a → (last ≤ last')%Z → (next ≤ next')%Z → issued_ok last' next' e a.
Proof.
  intros [Hh Hc Ha Hd Hw [Ht Hu] (n & Hn & Hid)] Hl Hn'. constructor; try done.
  - split; [lia|done].
  - exists n. split; [lia|done].
Qed.

Lemma log_inv_set_last s log t :
  log_inv s log → (arc_last_authority_unix_seconds s ≤ t)%Z → log_inv (set_last s t) log.
Proof.
  intros [Hr Hv Hi Hs Hu Hx Ho] Ht. constructor; try done.
  - intros e a He. eapply issued_ok_mono; [by apply Hi|done|done].
  - intros e a He. destruct (Hs e a He) as [?|[H1 H2]]; [by left|right]. cbn. split.
    + destruct H1; [by left|right; cbn; lia].
    + destruct H2 as [?|?]; [by left|right; cbn; lia].
Qed.

Lemma authority_now_spec s sample s1 r :
  sample_ok sample → authority_now_unix_seconds s sample = (s1, r) →
  (s1 = s ∨ ∃ t, is_u64 t ∧ (arc_last_authority_unix_seconds s ≤ t)%Z ∧ s1 = set_last s t) ∧
  ∀ now, r = Ok now → is_u64 now ∧ arc_last_authority_unix_seconds s1 = now ∧
    (arc_last_authority_unix_seconds s ≤ now)%Z ∧ s1 = set_last s now.
Proof.
  intros Hs. unfold authority_now_unix_seconds. destruct sample as [t|e].
  2: { intros [= <- <-]. split; [by left|done]. }
  specialize (Hs t eq_refl). intros [= <- <-]. split.
  - destruct (Z.max_spec (arc_last_authority_unix_seconds s) t) as [[? ->]|[? ->]]; [right; exists t; auto with lia|].
    left. by destruct s.
  - intros now. destruct (Z.ltb_spec t (arc_last_authority_unix_seconds s)); [done|]. intros [= <-].
    rewrite Z.max_r by lia. done.
Qed.

Lemma inv_clock s log sample s1 r :
  store_inv s → log_inv s log → sample_ok sample →
  authority_now_unix_seconds s sample = (s1, r) → store_inv s1 ∧ log_inv s1 log.
Proof.
  intros Hs Hl Hok H. destruct (authority_now_spec _ _ _ _ Hok H) as [[->|(t & Ht & Hle & ->)] _]; [done|].
  split; [by apply store_inv_set_last|by apply log_inv_set_last].
Qed.

(** * Preservation of the approval store's invariant

    Pruning, reclamation, issuing and revocation keep [store_inv] and
    [log_inv]. *)

Definition inv (s : ApprovalReviewControl) (log : list event) : Prop := store_inv s ∧ log_inv s log.

(** ** Pruning *)

Lemma expired_tombstone_covers last next e a t :
  issued_ok last next e a → (ae_issued_at_unix_seconds e ≤ tomb_retired_at_unix_seconds t)%Z →
  tombstone_expired last t = true → (ae_expires_at_unix_seconds e ≤ last)%Z.
Proof.
  intros [_ _ _ _ Hw [_ Hu] _] Hi Ht%Z.leb_le.
  unfold u64_saturating_add, APPROVAL_TOMBSTONE_RETENTION_SECONDS in Ht.
  destruct Hu as [_ Hu]. destruct (Z.min_spec (tomb_retired_at_unix_seconds t + MAX_APPROVAL_TTL_SECONDS) u64_max) as [[? E]|[? E]];
    rewrite E in Ht; lia.
Qed.

Lemma remove_tombstone_store s q : store_inv s → store_inv (remove_tombstone s q).
Proof.
  intros Hs. unfold remove_tombstone. destruct (arc_tombstones s !! q) as [t|] eqn:Hq; [|done].
  destruct Hs as [Hl Hn Hr Hx Hd Ht Htot Htt He Hb Hte Htb].
  assert (Hsum := total_delete tomb_accounted_bytes _ _ _ Hq).
  assert (Hdel : (0 ≤ total tomb_accounted_bytes (delete q (arc_tombstones s)))%Z).
  { apply total_nonneg. intros k x [_ Hk]%lookup_delete_Some. by eapply Ht. }
  assert (Hpos := Ht _ _ Hq).
  constructor; cbn; unfold u64_saturating_sub; try done.
  - intros q' Hq'. rewrite lookup_delete_None. right. by apply Hd.
  - intros q' t' [_ Hk]%lookup_delete_Some. by eapply Ht.
  - lia.
  - rewrite map_size_delete, Hq. cbn. lia.
  - lia.
Qed.

Lemma remove_tombstone_log s log q :
  log_inv s log →
  (∀ t, arc_tombstones s !! q = Some t →
     tombstone_expired (arc_last_authority_unix_seconds s) t = true) →
  log_inv (remove_tombstone s q) log.
Proof.
  intros Hl Hexp. unfold remove_tombstone. destruct (arc_tombstones s !! q) as [t|] eqn:Hq; [|done].
  destruct Hl as [Hr Hv Hi Hs Hu Hx Ho]. constructor; try done.
  intros e a He. destruct (Hs e a He) as [?|[H1 H2]]; [by left|right]. split; [done|].
  destruct H2 as [(t' & Ht' & Hle)|?]; [|by right]. cbn.
  destruct (decide (ae_request_id e = q)) as [<-|Hne].
  - right. assert (t' = t) as -> by congruence.
    eapply expired_tombstone_covers; [by eapply Hi|done|by apply Hexp].
  - left. exists t'. by rewrite lookup_delete_ne by done.
Qed.

Lemma remove_tombstone_frame s q :
  arc_last_authority_unix_seconds (remove_tombstone s q) = arc_last_authority_unix_seconds s ∧
  arc_tombstones (remove_tombstone s q) ⊆ arc_tombstones s ∧
  arc_records (remove_tombstone s q) = arc_records s.
Proof.
  unfold remove_tombstone. destruct (arc_tombstones s !! q); cbn; [|done].
  split_and!; [done|apply delete_subseteq|done].
Qed.

Lemma prune_fold_inv log l s :
  inv s log →
  (∀ q t, q ∈ l → arc_tombstones s !! q = Some t →
     tombstone_expired (arc_last_authority_unix_seconds s) t = true) →
  inv (foldl remove_tombstone s l) log ∧
  arc_last_authority_unix_seconds (foldl remove_tombstone s l) = arc_last_authority_unix_seconds s ∧
  arc_records (foldl remove_tombstone s l) = arc_records s.
Proof.
  revert s. induction l as [|q l IH]; intros s [Hs Hl] Hexp; [done|]. cbn [foldl].
  destruct (remove_tombstone_frame s q) as (Hlast & Hsub & Hrec).
  destruct (IH (remove_tombstone s q)) as (H1 & H2 & H3).
  - split; [by apply remove_tombstone_store|apply remove_tombstone_log; [done|]].
    intros t Ht. eapply Hexp; [by left|done].
  - intros q' t Hq Ht. rewrite Hlast. eapply Hexp; [by right|]. by eapply lookup_weaken.
  - split_and!; congruence || done.
Qed.

Lemma prune_inv s log :
  inv s log →
  let s' := prune_tombstones s (arc_last_authority_unix_seconds s) in
  inv s' log ∧ arc_last_authority_unix_seconds s' = arc_last_authority_unix_seconds s ∧
  arc_records s' = arc_records s.
Proof.
  intros Hi. apply prune_fold_inv; [done|]. intros q t Hq Ht.
  apply list_elem_of_fmap in Hq as ([k x] & -> & Hin).
  apply list_elem_of_filter in Hin as [Hx Hin%elem_of_btree_entries]. cbn in *. congruence.
Qed.

(** ** Reclamation *)

(** What a candidate is when it is listed. *)
Definition candidate_ok (s : ApprovalReviewControl)
    (c : ApprovalEvidenceId * ApprovalRequestId * Z) : Prop :=
  let '(id, q, b) := c in
  (0 ≤ b)%Z ∧
  ∀ r, arc_records s !! id = Some r →
    record_inactive (arc_last_authority_unix_seconds s) r = true ∧ q = ae_request_id (rec_evidence r).

Lemma retire_store s id q b :
  store_inv s → candidate_ok s (id, q, b) →
  (Z.of_nat (size (arc_tombstones s)) + 1 ≤ MAX_APPROVAL_TOMBSTONES)%Z →
  (arc_tombstone_accounted_bytes s + b ≤ MAX_APPROVAL_TOMBSTONE_BYTES)%Z →
  store_inv (retire (arc_last_authority_unix_seconds s) s (id, q, b)).
Proof.
  intros Hs [Hb0 Hc] Hcount Hbytes. cbn [retire].
  destruct (arc_records s !! id) as [r|] eqn:Hid; [|done].
  destruct (Hc _ eq_refl) as [_ ->]. destruct Hs as [Hl Hn Hr Hx Hd Ht Htot Htt He Hb Hte Htb].
  destruct (Hr _ _ Hid) as (Heid & Hreq & Hpos).
  assert (Htomb := Hd _ (mk_is_Some _ _ Hreq)).
  assert (Hsum := total_delete rec_accounted_bytes _ _ _ Hid).
  assert (Hdel : (0 ≤ total rec_accounted_bytes (delete id (arc_records s)))%Z).
  { apply total_nonneg. intros k x [_ Hk]%lookup_delete_Some. by eapply Hr. }
  constructor; cbn; unfold u64_saturating_sub, u64_saturating_add; try done.
  - intros id' r' [Hne Hr']%lookup_delete_Some. destruct (Hr _ _ Hr') as (? & Hq & ?).
    split_and!; [done| |done]. rewrite lookup_delete_ne; [done|]. intros E. rewrite <- E in Hq. congruence.
  - intros q' id' [Hne Hq]%lookup_delete_Some. destruct (Hx _ _ Hq) as (r' & Hr' & Hq').
    exists r'. rewrite lookup_delete_ne; [done|]. intros <-. congruence.
  - intros q' [id' [Hne Hq]%lookup_delete_Some]. rewrite lookup_insert_ne by done. by eapply Hd.
  - intros q' t'. rewrite lookup_insert_Some. intros [[_ <-]|[_ ?]]; [done|by eapply Ht].
  - lia.
  - rewrite total_insert by done. cbn. rewrite <- Htt.
    unfold u64_max, MAX_APPROVAL_TOMBSTONE_BYTES in *. lia.
  - rewrite map_size_delete, Hid. cbn. lia.
  - lia.
  - rewrite map_size_insert_None by done. lia.
  - lia.
Qed.

Lemma retire_log s log id q b :
  store_inv s → log_inv s log → candidate_ok s (id, q, b) →
  log_inv (retire (arc_last_authority_unix_seconds s) s (id, q, b)) log.
Proof.
  intros Hs Hl [_ Hc]. cbn [retire]. destruct (arc_records s !! id) as [r|] eqn:Hid; [|done].
  destruct (Hc _ eq_refl) as [Hin ->]. destruct (si_records _ Hs _ _ Hid) as (Heid & Hreq & _).
  assert (Htomb := si_disjoint _ Hs _ (mk_is_Some _ _ Hreq)).
  destruct Hl as [Hr Hv Hi Hst Hu Hx Ho]. constructor; try done; cbn.
  - intros id' r' [_ Hr']%lookup_delete_Some. by eapply Hr.
  - intros id' r' [_ Hr']%lookup_delete_Some. by apply Hv.
  - intros e a He. destruct (Hi _ _ He) as [_ _ _ _ _ [Hti _] _].
    destruct (Hst e a He) as [(r' & Hr' & Hre)|[H1 H2]].
    + destruct (decide (ae_id e = id)) as [E|Hne].
      2: { left. exists r'. cbn. by rewrite lookup_delete_ne by done. }
      right. assert (r' = r) as -> by congruence. rewrite Hre in *. split; cbn.
      * apply orb_true_iff in Hin as [Hrev|Hexp%Z.leb_le]; [left|by right; rewrite <- Hre].
        rewrite E. apply (Hv _ _ Hid). by apply bool_decide_eq_true in Hrev.
      * left. eexists. rewrite lookup_insert_eq. split; [done|done].
    + right. split; [done|]. cbn. destruct H2 as [(t & Ht & Hle)|?]; [|by right]. left.
      exists t. rewrite lookup_insert_ne; [done|]. congruence.
Qed.

Lemma retire_frame now s c :
  arc_last_authority_unix_seconds (retire now s c) = arc_last_authority_unix_seconds s ∧
  arc_records (retire now s c) ⊆ arc_records s ∧
  (size (arc_tombstones (retire now s c)) ≤ S (size (arc_tombstones s))) ∧
  (arc_tombstone_accounted_bytes (retire now s c)
   ≤ arc_tombstone_accounted_bytes s + Z.max 0 (snd c))%Z.
Proof.
  destruct c as [[id q] b]. cbn. destruct (arc_records s !! id); cbn.
  - split_and!; [done|apply delete_subseteq| |].
    + rewrite map_size_insert. destruct (_ !! _); cbn; lia.
    + unfold u64_saturating_add. lia.
  - split_and!; [done|done|lia|lia].
Qed.

Fixpoint candidate_total (l : list (ApprovalEvidenceId * ApprovalRequestId * Z)) : Z :=
  match l with [] => 0%Z | c :: l => (snd c + candidate_total l)%Z end.

Lemma sum_candidate_bytes_Some l t x :
  sum_candidate_bytes t l = Some x → x = (t + candidate_total l)%Z.
Proof.
  revert t. induction l as [|[[id q] b] l IH]; intros t; cbn; [intros [= ->]; lia|].
  rewrite bind_Some. intros (y & [-> _]%u64_checked_add_Some & H). rewrite (IH _ H). lia.
Qed.

Lemma candidate_total_nonneg s l : Forall (candidate_ok s) l → (0 ≤ candidate_total l)%Z.
Proof. induction 1 as [|[[? ?] ?] l [? _] _ IH]; cbn; lia. Qed.

Lemma retire_fold_inv log l s :
  inv s log → Forall (candidate_ok s) l →
  (Z.of_nat (size (arc_tombstones s)) + Z.of_nat (length l) ≤ MAX_APPROVAL_TOMBSTONES)%Z →
  (arc_tombstone_accounted_bytes s + candidate_total l ≤ MAX_APPROVAL_TOMBSTONE_BYTES)%Z →
  inv (foldl (retire (arc_last_authority_unix_seconds s)) s l) log ∧
  arc_last_authority_unix_seconds (foldl (retire (arc_last_authority_unix_seconds s)) s l)
    = arc_last_authority_unix_seconds s ∧
  arc_records (foldl (retire (arc_last_authority_unix_seconds s)) s l) ⊆ arc_records s.
Proof.
  revert s. induction l as [|[[id q] b] l IH]; intros s [Hs Hl] Hok Hcount Hbytes; [done|].
  apply Forall_cons in Hok as [Hc Hok]. cbn [foldl]. cbn [length candidate_total snd] in *.
  assert (Hnn := candidate_total_nonneg _ _ Hok).
  assert (Hb := proj1 Hc).
  destruct (retire_frame (arc_last_authority_unix_seconds s) s (id, q, b)) as (Hlast & Hsub & Hsz & Hby).
  cbn [snd] in Hby.
  set (s' := retire (arc_last_authority_unix_seconds s) s (id, q, b)) in *.
  destruct (IH s') as (H1 & H2 & H3).
  - split; [apply retire_store; (done || lia)|by apply retire_log].
  - eapply Forall_impl; [exact Hok|]. intros [[id' q'] b'] [? Hc']. split; [done|].
    intros r Hr. rewrite Hlast. apply Hc'. by eapply lookup_weaken.
  - lia.
  - lia.
  - rewrite Hlast in *. split_and!; [done|done|by etrans].
Qed.

Lemma inactive_candidates_ok s :
  Forall (candidate_ok s) (inactive_candidates s (arc_last_authority_unix_seconds s)).
Proof.
  unfold inactive_candidates. apply Forall_fmap, Forall_forall. intros [id r].
  rewrite list_elem_of_filter, elem_of_btree_entries. cbn. intros [Hin Hr]. split.
  - unfold approval_tombstone_bytes, u64_saturating_add, APPROVAL_TOMBSTONE_OVERHEAD_BYTES, str_len, u64_max. lia.
  - intros r' Hr'. assert (r' = r) as -> by congruence. done.
Qed.

Lemma reclaim_checks_Ok s l :
  reclaim_checks s l = Ok tt →
  (Z.of_nat (size (arc_tombstones s)) + Z.of_nat (length l) ≤ MAX_APPROVAL_TOMBSTONES)%Z ∧
  (arc_tombstone_accounted_bytes s + candidate_total l ≤ MAX_APPROVAL_TOMBSTONE_BYTES)%Z.
Proof.
  unfold reclaim_checks. destruct (u64_checked_add _ _) as [n|] eqn:Hn; cbn; [|done].
  apply u64_checked_add_Some in Hn as [-> _].
  destruct (Z.ltb_spec MAX_APPROVAL_TOMBSTONES (Z.of_nat (size (arc_tombstones s)) + Z.of_nat (length l))); cbn; [done|].
  destruct (sum_candidate_bytes 0 l) as [c|] eqn:Hc; cbn; [|done]. apply sum_candidate_bytes_Some in Hc as ->.
  destruct (u64_checked_add _ _) as [n|] eqn:Hn; cbn; [|done]. apply u64_checked_add_Some in Hn as [-> _].
  unfold reject_if. case_match eqn:E; [done|]. apply Z.ltb_ge in E. intros _. split; lia.
Qed.

Lemma reclaim_inv s log s' r :
  inv s log → reclaim_inactive s (arc_last_authority_unix_seconds s) = (s', r) →
  inv s' log ∧ arc_last_authority_unix_seconds s' = arc_last_authority_unix_seconds s ∧
  arc_records s' ⊆ arc_records s.
Proof.
  intros Hi. unfold reclaim_inactive. destruct (prune_inv _ _ Hi) as (Hp & Hlast & Hrec).
  set (p := prune_tombstones s _) in *. rewrite <- Hlast.
  set (l := inactive_candidates p _). assert (Hok : Forall (candidate_ok p) l) by apply inactive_candidates_ok.
  destruct (is_nil l); [intros [= <- <-]; by rewrite Hrec|].
  destruct (reclaim_checks p l) as [[]|] eqn:Hck; intros [= <- <-]; [|by rewrite Hrec].
  apply reclaim_checks_Ok in Hck as [Hc Hb].
  destruct (retire_fold_inv log l p Hp Hok Hc Hb) as (H1 & H2 & H3). by rewrite <- Hrec.
Qed.
