(* ===== verification/ApprovalFacts.v ===== *)
(** * The approval lifecycle is correct

    Issuing and revoking keep the invariant, so every run does; from it
    follow the bounds of the store, the exact condition under which
    evidence is accepted, and that an approval request cannot be replayed
    while earlier evidence for it could still be valid. *)

From Stdlib Require Import ZArith Lia Ascii.
From stdpp Require Import base numbers gmap strings list fin_maps fin_map_dom sorting.
From S2P Require Import Prelude Text Core Digest Ordered Policy RiskReview ApprovalStore.
From S2P Require Import ApprovalInvariant.

Set Default Goal Selector "!".

Lemma Ok_eq_iff {E A} (x y : A) : @Ok E A x = Ok y ↔ x = y.
Proof. naive_solver. Qed.

(** ** Issuing *)

Lemma inv_set_sequence s log n :
  inv s log → (arc_next_evidence_sequence s ≤ n)%Z → is_u64 n → inv (set_sequence s n) log.
Proof.
  intros [Hs Hl] Hle Hn. split.
  - destruct Hs. by constructor.
  - destruct Hl as [Hr Hv Hi Hst Hu Hx Ho]. constructor; try done.
    intros e a He. eapply issued_ok_mono; [by apply Hi|done|done].
Qed.

Lemma fresh_name s log e a :
  inv s log → EIssued e a ∈ log → ae_id e ≠ evidence_name (arc_next_evidence_sequence s).
Proof.
  intros [Hs Hl] He Heq. destruct (li_issued _ _ Hl _ _ He) as [_ _ _ _ _ _ (n & Hn & Hid)].
  assert (Hu := si_next _ Hs). rewrite Hid in Heq. apply evidence_name_inj in Heq; unfold is_u64 in *; lia.
Qed.

Lemma add_len_nonneg l t : (0 ≤ t)%Z → (0 ≤ foldl add_len t l)%Z.
Proof.
  revert t. induction l as [|x l IH]; intros t Ht; cbn; [done|]. apply IH.
  unfold add_len, u64_saturating_add, str_len, u64_max. lia.
Qed.

Lemma accounted_bytes_nonneg q review a : (0 ≤ accounted_bytes_of q review a)%Z.
Proof.
  unfold accounted_bytes_of, approval_binding_bytes, u64_saturating_add, str_len,
    APPROVAL_RECORD_OVERHEAD_BYTES, u64_max.
  assert (H := add_len_nonneg (evaluation_texts (tpr_evaluation review)) 0). lia.
Qed.

Section retain.
Context (s : ApprovalReviewControl) (log : list event) (e : PolicyApprovalEvidence)
  (a : PolicyAuthenticatedApprover) (bytes : Z).
Hypotheses
  (Hinv : inv s log)
  (Hnext : (arc_next_evidence_sequence s + 1 ≤ u64_max)%Z)
  (Hname : ae_id e = evidence_name (arc_next_evidence_sequence s))
  (Hrequest : arc_requests s !! ae_request_id e = None)
  (Htomb : arc_tombstones s !! ae_request_id e = None)
  (Hissued : ae_issued_at_unix_seconds e = arc_last_authority_unix_seconds s)
  (Hok : issued_ok (arc_last_authority_unix_seconds s) (arc_next_evidence_sequence s + 1) e a)
  (Hbytes : (0 ≤ bytes)%Z)
  (Hcount : (Z.of_nat (size (arc_records s)) < MAX_APPROVAL_ENTRIES)%Z)
  (Htotal : (arc_total_accounted_bytes s + bytes ≤ MAX_APPROVAL_TOTAL_BYTES)%Z).

Abbreviation s' := (retain (set_sequence s (arc_next_evidence_sequence s + 1)) e bytes
                      (arc_total_accounted_bytes s + bytes)).

Lemma retain_fresh id r : arc_records s !! id = Some r → id ≠ ae_id e.
Proof.
  intros Hr ->. destruct Hinv as [Hs Hl]. destruct (li_records _ _ Hl _ _ Hr) as [a' Ha'].
  apply (fresh_name s log _ _ Hinv Ha'). rewrite <- Hname.
  by destruct (si_records _ Hs _ _ Hr).
Qed.

Lemma retain_store : store_inv s'.
Proof.
  destruct Hinv as [[Hl Hn Hr Hx Hd Ht Htot Htt He Hb Hte Htb] Hlog].
  assert (Hnone : arc_records s !! ae_id e = None).
  { apply eq_None_not_Some. intros [r E]. by apply (retain_fresh _ _ E). }
  unfold is_u64 in *. constructor; cbn; try done.
  - unfold is_u64. lia.
  - intros id r. rewrite lookup_insert_Some. intros [[<- <-]|[Hne Hid]]; cbn.
    + by rewrite lookup_insert_eq.
    + destruct (Hr _ _ Hid) as (? & ? & ?). split_and!; [done| |done].
      rewrite lookup_insert_ne; [done|]. congruence.
  - intros q id. rewrite lookup_insert_Some. intros [[<- <-]|[Hne Hq]].
    + rewrite lookup_insert_eq. by eexists.
    + destruct (Hx _ _ Hq) as (r & Hid & Hrq). exists r. rewrite lookup_insert_ne; [done|].
      intros E. by apply (retain_fresh _ _ Hid).
  - intros q. rewrite lookup_insert_is_Some. intros [<-|[_ Hq]]; [done|by apply Hd].
  - rewrite total_insert by done. cbn. lia.
  - rewrite map_size_insert_None by done. lia.
Qed.

Lemma retain_log : log_inv s' (log ++ [EIssued e a]).
Proof.
  destruct Hinv as [Hs [Hr Hv Hi Hst Hu Hx Ho]].
  assert (Hrev : ERevoked (ae_id e) ∉ log).
  { intros (e' & a' & He' & Hid)%Hx. rewrite Hname in Hid. by apply (fresh_name s log _ _ Hinv He'). }
  constructor; cbn.
  - intros id r. rewrite lookup_insert_Some. intros [[<- <-]|[Hne Hid]]; cbn.
    + exists a. set_solver.
    + destruct (Hr _ _ Hid) as [a' ?]. exists a'. set_solver.
  - intros id r. rewrite lookup_insert_Some. intros [[<- <-]|[Hne Hid]]; cbn.
    + split; [by intros []|]. set_solver.
    + rewrite (Hv _ _ Hid). set_solver.
  - intros e' a' [He'|He'%list_elem_of_singleton]%elem_of_app; [|by injection He' as -> ->].
    eapply issued_ok_mono; [by apply Hi|lia|lia].
  - intros e' a' [He'|He'%list_elem_of_singleton]%elem_of_app.
    + destruct (Hst _ _ He') as [(r & Hid & Hre)|[H1 H2]].
      * left. exists r. cbn. rewrite lookup_insert_ne; [done|]. intros E. by apply (retain_fresh _ _ Hid).
      * right. split; cbn; [|done]. set_solver.
    + injection He' as -> ->. left. eexists. cbn. by rewrite lookup_insert_eq.
  - intros e1 a1 e2 a2 [H1|H1%list_elem_of_singleton]%elem_of_app
      [H2|H2%list_elem_of_singleton]%elem_of_app Heq; [by eapply Hu| | |congruence].
    + injection H2 as -> ->. destruct (fresh_name s log _ _ Hinv H1). congruence.
    + injection H1 as -> ->. destruct (fresh_name s log _ _ Hinv H2). congruence.
  - intros id [H1|H1%list_elem_of_singleton]%elem_of_app; [|done].
    destruct (Hx _ H1) as (e' & a' & ? & ?). exists e', a'. set_solver.
  - apply StronglySorted_app_2; [|done|repeat constructor].
    intros [e' a'|] x Hin ->%list_elem_of_singleton; [|done]. cbn. intros Hq. rewrite Hissued.
    destruct (Hst _ _ Hin) as [(r & Hid & Hre)|[_ [(t & Ht & _)|?]]]; [| |done].
    + destruct (si_records _ Hs _ _ Hid) as (_ & Hreq & _). congruence.
    + congruence.
Qed.
End retain.

Lemma required_approval_class_Ok review class :
  required_approval_class review = Ok class ↔
  ∃ reason, pe_decision (tpr_evaluation review) = RequireApproval class reason.
Proof. unfold required_approval_class. destruct (pe_decision _); naive_solver. Qed.

Lemma issue_fresh_inv s log q review a class expires s' r :
  inv s log → is_u64 expires →
  required_approval_class review = Ok class →
  arc_requests s !! q = None → arc_tombstones s !! q = None →
  issue_fresh s q review a class (arc_last_authority_unix_seconds s) expires = (s', r) →
  match r with
  | Ok e => ae_id e = evidence_name (arc_next_evidence_sequence s) ∧ inv s' (log ++ [EIssued e a])
  | Err _ => inv s' log
  end.
Proof.
  intros Hinv Hex Hclass Hq Ht. unfold issue_fresh.
  destruct (Z.ltb_spec MAX_APPROVAL_ENTRY_BYTES (accounted_bytes_of q review a)); [by intros [= <- <-]|].
  destruct (Z.leb_spec MAX_APPROVAL_ENTRIES (Z.of_nat (size (arc_records s)))); [by intros [= <- <-]|].
  destruct (u64_checked_add _ _) as [total|] eqn:Htot; [|by intros [= <- <-]].
  apply u64_checked_add_Some in Htot as [-> _].
  destruct (Z.ltb_spec MAX_APPROVAL_TOTAL_BYTES
    (arc_total_accounted_bytes s + accounted_bytes_of q review a)); [by intros [= <- <-]|].
  destruct (ApprovalEvidenceId_new _) as [id|] eqn:Hid; [|by intros [= <- <-]].
  assert (id = evidence_name (arc_next_evidence_sequence s)) as ->.
  { by apply typed_id_new_Ok in Hid as [-> _]. }
  destruct (u64_checked_add _ 1) as [next|] eqn:Hnext; [|by intros [= <- <-]].
  apply u64_checked_add_Some in Hnext as [-> Hnext].
  assert (Hn := si_next _ (proj1 Hinv)). unfold is_u64 in Hn.
  destruct (try_issue _ _ _ _ _ _) as [e|] eqn:He; intros [= <- <-].
  2: { apply inv_set_sequence; [done|lia|unfold is_u64; lia]. }
  apply try_issue_Ok in He as (Hhuman & Hcl & Hwin & ->). split; [done|].
  assert (Hbytes := accounted_bytes_nonneg q review a).
  assert (Hdec := proj1 (required_approval_class_Ok _ _) Hclass).
  split; [apply (retain_store _ log)|apply retain_log]; try done; try lia.
  all: constructor; cbn; try done; try lia.
  all: eexists; split; [|done]; lia.
Qed.

Lemma issue_at_inv s log q review a expires s' r :
  inv s log → is_u64 expires →
  issue_at s q review a (arc_last_authority_unix_seconds s) expires = (s', r) →
  inv s' (log ++ issue_events s a r).
Proof.
  intros Hinv Hex. unfold issue_at.
  destruct (reclaim_inactive s _) as [p [[]|err]] eqn:Hrec;
    destruct (reclaim_inv _ _ _ _ Hinv Hrec) as (Hp & Hlast & Hsub).
  2: { intros [= <- <-]. cbn. by rewrite app_nil_r. }
  destruct (arc_tombstones p !! q) eqn:Ht; [intros [= <- <-]; cbn; by rewrite app_nil_r|].
  destruct (required_approval_class review) as [class|] eqn:Hclass;
    [|intros [= <- <-]; cbn; by rewrite app_nil_r].
  destruct (arc_requests p !! q) as [id|] eqn:Hq.
  - destruct (arc_records p !! id) as [rc|] eqn:Hid; [|intros [= <- <-]; cbn; by rewrite app_nil_r].
    destruct (same_request _ _ _ _ _); intros [= <- <-]; cbn; [|by rewrite app_nil_r].
    destruct (si_records _ (proj1 Hp) _ _ Hid) as (-> & _).
    rewrite (lookup_weaken _ _ _ _ Hid Hsub). by rewrite app_nil_r.
  - rewrite <- Hlast. intros Hf. apply (issue_fresh_inv _ log) in Hf; [|done..].
    destruct r as [e|]; cbn; [|by rewrite app_nil_r]. destruct Hf as [Hid Hf].
    destruct (arc_records s !! ae_id e) as [rc|] eqn:Hre; [|done].
    destruct (li_records _ _ (proj2 Hinv) _ _ Hre) as [a' Ha'].
    destruct (si_records _ (proj1 Hinv) _ _ Hre) as (E & _).
    destruct (fresh_name p log _ _ Hp Ha'). congruence.
Qed.

(** ** Revoking *)

Lemma set_record_inv s log id r rev :
  inv s log → arc_records s !! id = Some r →
  inv (set_record s id {| rec_evidence := rec_evidence r; rec_revocation := Some rev;
                          rec_accounted_bytes := rec_accounted_bytes r |}) (log ++ [ERevoked id]).
Proof.
  intros [Hs Hl] Hid. split.
  - destruct Hs as [H1 H2 Hr Hx Hd Ht Htot Htt He Hb Hte Htb]. constructor; cbn; try done.
    + intros id' r'. rewrite lookup_insert_Some. intros [[<- <-]|[Hne Hid']]; cbn; [by apply Hr|by apply Hr].
    + intros q id' Hq. destruct (Hx _ _ Hq) as (r' & Hr' & Hrq).
      destruct (decide (id = id')) as [<-|Hne].
      * eexists. rewrite lookup_insert_eq. split; [done|]. cbn. congruence.
      * exists r'. by rewrite lookup_insert_ne by done.
    + rewrite Htot, <- insert_delete_eq, total_insert by apply lookup_delete_eq. cbn.
      by apply total_delete.
    + rewrite map_size_insert_Some by done. done.
  - destruct Hl as [Hr Hv Hi Hst Hu Hx Ho]. destruct (Hr _ _ Hid) as [a Ha].
    destruct (si_records _ Hs _ _ Hid) as (Heid & _). constructor; cbn.
    + intros id' r'. rewrite lookup_insert_Some.
      intros [[<- <-]|[Hne Hid']]; cbn; [exists a; set_solver|].
      destruct (Hr _ _ Hid') as [a' ?]. exists a'. set_solver.
    + intros id' r'. rewrite lookup_insert_Some. intros [[<- <-]|[Hne Hid']]; cbn.
      * split; [set_solver|done].
      * rewrite (Hv _ _ Hid'), elem_of_app, list_elem_of_singleton. naive_solver.
    + intros e' a' [He'|He'%list_elem_of_singleton]%elem_of_app; [by apply Hi|done].
    + intros e' a' [He'|He'%list_elem_of_singleton]%elem_of_app; [|done].
      destruct (Hst _ _ He') as [(r' & Hr' & Hre)|[H1 H2]].
      * left. unfold live. cbn. destruct (decide (id = ae_id e')) as [->|Hne].
        -- eexists. rewrite lookup_insert_eq. split; [done|]. cbn. congruence.
        -- exists r'. by rewrite lookup_insert_ne by done.
      * right. split; cbn; [|done]. set_solver.
    + intros e1 a1 e2 a2 H1 H2. apply (Hu e1 a1 e2 a2); set_solver.
    + intros id' [H1|H1%list_elem_of_singleton]%elem_of_app.
      * destruct (Hx _ H1) as (e' & a' & ? & ?). exists e', a'. set_solver.
      * injection H1 as ->. exists (rec_evidence r), a. set_solver.
    + apply StronglySorted_app_2; [|done|repeat constructor].
      intros [] x _ ->%list_elem_of_singleton; done.
Qed.

Lemma revoke_at_inv s log id revoker now s' r :
  inv s log → revoke_at s id revoker now = (s', r) → inv s' (log ++ revoke_events id r).
Proof.
  intros Hinv. unfold revoke_at.
  destruct (arc_records s !! id) as [rc|] eqn:Hid; [|intros [= <- <-]; cbn; by rewrite app_nil_r].
  destruct (negb _); [intros [= <- <-]; cbn; by rewrite app_nil_r|].
  destruct (rec_revocation rc) as [rev|] eqn:Hrev; intros [= <- <-]; cbn.
  - assert (H := set_record_inv _ _ _ _ rev Hinv Hid). destruct rc as [e v b]. cbn in Hrev. subst v.
    cbn in H. unfold set_record in H. rewrite (insert_id _ _ _ Hid) in H. by destruct s.
  - by apply set_record_inv.
Qed.

(** ** Every run *)

Lemma run_inv s log : run s log → inv s log.
Proof.
  induction 1 as [|s log sample q review a ex s' r Hrun IH Hok Hex Hstep
                  |s log sample id review s' r Hrun IH Hok Hstep
                  |s log sample id a s' r Hrun IH Hok Hstep].
  - split; [apply store_inv_init|apply log_inv_init].
  - unfold issue in Hstep. destruct (authority_now_unix_seconds s sample) as [s1 [now|err]] eqn:Hnow;
      assert (Hi := inv_clock _ _ _ _ _ (proj1 IH) (proj2 IH) Hok Hnow).
    + destruct (proj2 (authority_now_spec _ _ _ _ Hok Hnow) now eq_refl) as (Hu & Hl & Hle & Hs1).
      rewrite <- Hl in Hstep. apply (issue_at_inv _ log) in Hstep; [|done..].
      unfold issue_events in *. by rewrite Hs1 in Hstep.
    + injection Hstep as <- <-. cbn. by rewrite app_nil_r.
  - unfold validate in Hstep. destruct (authority_now_unix_seconds s sample) as [s1 [now|err]] eqn:Hnow;
      assert (Hi := inv_clock _ _ _ _ _ (proj1 IH) (proj2 IH) Hok Hnow); by injection Hstep as <- <-.
  - unfold revoke in Hstep. destruct (authority_now_unix_seconds s sample) as [s1 [now|err]] eqn:Hnow;
      assert (Hi := inv_clock _ _ _ _ _ (proj1 IH) (proj2 IH) Hok Hnow).
    + by apply (revoke_at_inv _ log) in Hstep.
    + injection Hstep as <- <-. cbn. by rewrite app_nil_r.
Qed.

(** On every run of the approval lifecycle the store stays within its
    bounds and its accounting is exact: at most 256 records and 4 MiB, whose
    account is the sum of the retained records' accounts; at most 4096
    tombstones and 2 MiB, likewise; the request index and the records agree,
    and no request is at once retained and entombed. *)
Theorem approval_store_bounded s log :
  run s log →
  (Z.of_nat (size (arc_records s)) ≤ 256)%Z ∧
  arc_total_accounted_bytes s = total rec_accounted_bytes (arc_records s) ∧
  (0 ≤ arc_total_accounted_bytes s ≤ 4 * 1024 * 1024)%Z ∧
  (Z.of_nat (size (arc_tombstones s)) ≤ 4096)%Z ∧
  arc_tombstone_accounted_bytes s = total tomb_accounted_bytes (arc_tombstones s) ∧
  (0 ≤ arc_tombstone_accounted_bytes s ≤ 2 * 1024 * 1024)%Z ∧
  (∀ q id, arc_requests s !! q = Some id ↔
     ∃ r, arc_records s !! id = Some r ∧ ae_request_id (rec_evidence r) = q) ∧
  (∀ q, is_Some (arc_requests s !! q) → arc_tombstones s !! q = None).
Proof.
  intros [Hs _]%run_inv. destruct Hs as [H1 H2 Hr Hx Hd Ht Htot Htt He Hb Hte Htb].
  assert (0 ≤ total rec_accounted_bytes (arc_records s))%Z
    by (apply total_nonneg; intros ? ? ?%Hr; naive_solver).
  assert (0 ≤ total tomb_accounted_bytes (arc_tombstones s))%Z
    by (apply total_nonneg; intros ? ? ?%Ht; done).
  unfold MAX_APPROVAL_TOTAL_BYTES, MAX_APPROVAL_TOMBSTONE_BYTES in *.
  split_and!; try done; try lia. intros q id. split; [by apply Hx|].
  intros (r & Hid & <-). by destruct (Hr _ _ Hid) as (_ & ? & _).
Qed.

(** Satisfied evidence is retained, and was issued in this run to a human of
    the class the review requires, for this very evaluation, in its window,
    and is not revoked. *)
Lemma validated_record s log id review now :
  inv s log → validate_at s id review now = Satisfied →
  ∃ rc a reason, arc_records s !! id = Some rc ∧ EIssued (rec_evidence rc) a ∈ log ∧
    ae_id (rec_evidence rc) = id ∧
    ar_binding (ae_requirement (rec_evidence rc)) = tpr_evaluation review ∧
    pe_decision (tpr_evaluation review)
      = RequireApproval (ar_class (ae_requirement (rec_evidence rc))) reason ∧
    aa_kind a = Human ∧ ar_class (ae_requirement (rec_evidence rc)) ∈ aa_approval_classes a ∧
    ae_approver (rec_evidence rc) = aa_principal a ∧
    (ae_issued_at_unix_seconds (rec_evidence rc) ≤ now
       < ae_expires_at_unix_seconds (rec_evidence rc))%Z ∧
    (ae_expires_at_unix_seconds (rec_evidence rc)
       ≤ ae_issued_at_unix_seconds (rec_evidence rc) + 86400)%Z ∧
    ERevoked id ∉ log.
Proof.
  intros [Hs [Hr Hv Hi Hst Hu Hx Ho]]. unfold validate_at, validate_policy_approval.
  destruct (arc_records s !! id) as [rc|] eqn:Hid; [|done].
  destruct (required_approval_class review) as [class|] eqn:Hclass; [|done].
  rewrite validate_approval_Satisfied. intros (Hb & <- & Hw & Hrev).
  apply required_approval_class_Ok in Hclass as [reason Hdec].
  destruct (Hr _ _ Hid) as [a Ha]. destruct (Hi _ _ Ha) as [Hh Hc Hap _ Hwin _ _].
  destruct (si_records _ Hs _ _ Hid) as (Heid & _). unfold MAX_APPROVAL_TTL_SECONDS in Hwin.
  exists rc, a, reason. split_and!; try done; try lia.
  intros Hin%(Hv _ _ Hid). rewrite Hrev in Hin. by destruct Hin.
Qed.

(** C7: the exact condition under which evidence is accepted.  When the
    clock has not run backwards, validation answers that the approval is
    satisfied exactly when evidence under that identifier was issued in this
    run for this very evaluation, by a human who holds the approval class
    that the evaluation requires, the time is in its window, the window is
    at most a day, and the evidence was not revoked. *)
Theorem approval_accepted_exactly s log id review now :
  run s log → (arc_last_authority_unix_seconds s ≤ now)%Z →
  snd (validate s (Ok now) id review) = Ok Satisfied ↔
  ∃ e a reason, EIssued e a ∈ log ∧ ae_id e = id ∧
    ar_binding (ae_requirement e) = tpr_evaluation review ∧
    pe_decision (tpr_evaluation review) = RequireApproval (ar_class (ae_requirement e)) reason ∧
    aa_kind a = Human ∧ ar_class (ae_requirement e) ∈ aa_approval_classes a ∧
    ae_approver e = aa_principal a ∧
    (ae_issued_at_unix_seconds e ≤ now < ae_expires_at_unix_seconds e)%Z ∧
    (ae_expires_at_unix_seconds e ≤ ae_issued_at_unix_seconds e + 86400)%Z ∧
    ERevoked id ∉ log.
Proof.
  intros Hinv%run_inv Hle. unfold validate, authority_now_unix_seconds. cbn.
  destruct (Z.ltb_spec now (arc_last_authority_unix_seconds s)); [lia|]. cbn. rewrite Ok_eq_iff.
  change (validate_at (set_last s _) id review now) with (validate_at s id review now). split.
  - intros (rc & a & reason & _ & He & Hrest)%(validated_record _ log); [|done].
    by exists (rec_evidence rc), a, reason.
  - intros (e & a & reason & He & <- & Hb & Hdec & _ & _ & _ & Hw & _ & Hrev).
    destruct Hinv as [Hs [Hr Hv Hi Hst Hu Hx Ho]].
    destruct (Hst _ _ He) as [(r & Hid & Hre)|[[?|?] _]]; [|done|lia].
    unfold validate_at, validate_policy_approval. rewrite Hid, (proj2 (required_approval_class_Ok _ _) (ex_intro _ _ Hdec)).
    apply validate_approval_Satisfied. rewrite Hre. split_and!; try done; try lia.
    apply eq_None_not_Some. by rewrite (Hv _ _ Hid).
Qed.

(** C27: approvals are not replayed.  Of two pieces of evidence a run issued,
    the identifiers differ, and when they answer the same approval request
    the earlier one has expired before the later one is issued. *)
Theorem approval_request_not_replayed s log l1 e1 a1 l2 e2 a2 l3 :
  run s log → log = l1 ++ EIssued e1 a1 :: l2 ++ EIssued e2 a2 :: l3 →
  ae_id e1 ≠ ae_id e2 ∧
  (ae_request_id e1 = ae_request_id e2 →
   (ae_expires_at_unix_seconds e1 ≤ ae_issued_at_unix_seconds e2)%Z).
Proof.
  intros [_ [Hr Hv Hi Hst Hu Hx Ho]]%run_inv ->.
  assert (Hf : follows (EIssued e1 a1) (EIssued e2 a2)).
  { apply StronglySorted_app_1_r in Ho. apply StronglySorted_inv in Ho as [_ Ho].
    rewrite Forall_forall in Ho. apply Ho. set_solver. }
  split; [|exact Hf]. intros Heq.
  assert (e1 = e2) as <- by (apply (Hu e1 a1 e2 a2); set_solver).
  specialize (Hf eq_refl). destruct (Hi e1 a1) as [_ _ _ _ Hw _ _]; [set_solver|]. lia.
Qed.
