(* ===== verification/Preview.v ===== *)
(** * linura-control: plan previews

    Models [crates/linura-control/src/plan_preview.rs]: authenticated
    principals, normalisation of desired-state requests, and the bounded
    store that retains previews per principal. *)

From Stdlib Require Import ZArith Lia.
From stdpp Require Import base numbers gmap strings list fin_maps sorting.
From S2P Require Import Prelude Text Core Digest Ordered SessionIdentity Graph Planner Policy.

Set Default Goal Selector "!".

Definition MAX_SUMMARY_BYTES : Z := 4 * 1024.
Definition MAX_ORIGINS_PER_KIND : Z := 64.
Definition MAX_TOTAL_ORIGINS : Z := 128.
Definition MAX_DESIRED_ATTRIBUTES : Z := 128.
Definition MAX_REQUEST_BYTES : Z := 64 * 1024.
Definition MAX_PREVIEW_ENTRIES : Z := 256.
Definition MAX_PREVIEW_ENTRY_BYTES : Z := 128 * 1024.
Definition MAX_PREVIEW_TOTAL_BYTES : Z := 8 * 1024 * 1024.
Definition MAX_PRINCIPAL_BYTES : Z := 256.

Inductive PlanPreviewControlError :=
| PreviewInvalidPrincipal (reason : string)
| InvalidRequest (reason : string)
| PreviewIdempotencyConflict (plan_id : PlanId)
| PreviewObservation (reason : string)
| Planning (reason : string)
| PreviewReview (reason : string)
| Retention (reason : string)
| NotRetained (plan_id : PlanId).

Definition PlanPreviewControlError_display (e : PlanPreviewControlError) : string :=
  match e with
  | PreviewInvalidPrincipal reason => "invalid authenticated principal: " +:+ reason
  | InvalidRequest reason => "invalid plan preview request: " +:+ reason
  | PreviewIdempotencyConflict plan_id =>
      "request/plan id " +:+ plan_id
      +:+ " already identifies a different normalized request for the authenticated principal"
  | PreviewObservation reason => "authoritative observation failed: " +:+ reason
  | Planning reason => "deterministic planning failed: " +:+ reason
  | PreviewReview reason => "trusted plan review failed: " +:+ reason
  | Retention reason => "plan preview retention failed: " +:+ reason
  | NotRetained plan_id =>
      "plan preview " +:+ plan_id +:+ " is not retained for this authenticated principal"
  end.

Definition AuthenticatedPrincipal_new (value : string)
    : result PlanPreviewControlError string :=
  reject_if (trim_is_empty value)
    (PreviewInvalidPrincipal "authenticated principal cannot be empty");;
  reject_if (MAX_PRINCIPAL_BYTES <? str_len value)%Z
    (PreviewInvalidPrincipal ("authenticated principal exceeds "
       +:+ u64_to_string MAX_PRINCIPAL_BYTES +:+ " UTF-8 bytes"));;
  reject_if (has_control value)
    (PreviewInvalidPrincipal "authenticated principal contains control characters");;
  Ok value.

(** [linura-protocol]. *)
Record PlanDesiredStateRequest := {
  pq_request_id : RequestId;
  pq_provider : ProviderId;
  pq_resource : ResourceId;
  pq_observation_capability : CapabilityId;
  pq_reason : SemanticReason;
  pq_desired_state : gmap string string;
}.
#[export] Instance PlanDesiredStateRequest_eq_dec : EqDecision PlanDesiredStateRequest.
Proof. solve_decision. Defined.

Record NormalizedPlanInput := {
  ni_principal : string;
  ni_request : PlanDesiredStateRequest;
}.
#[export] Instance NormalizedPlanInput_eq_dec : EqDecision NormalizedPlanInput.
Proof. solve_decision. Defined.

(** [usize::saturating_add] folded over a list, and over text lengths. *)
Definition saturating_sum (start : Z) (l : list Z) : Z := foldl u64_saturating_add start l.
Definition text_lengths (l : list string) : list Z := str_len <$> l.

Definition desired_resource (input : NormalizedPlanInput) : DesiredResource :=
  {| dr_provider := pq_provider (ni_request input);
     dr_resource := pq_resource (ni_request input);
     dr_observation_capability := pq_observation_capability (ni_request input);
     dr_state := pq_desired_state (ni_request input);
     dr_reason := pq_reason (ni_request input) |}.

(** The number of bytes [validate_request] counts. *)
Definition request_bytes (request : PlanDesiredStateRequest) : Z :=
  saturating_sum 0
    (text_lengths
       ([pq_request_id request; pq_provider request; pq_resource request;
         pq_observation_capability request; sr_summary (pq_reason request)]
        ++ sr_intent_ids (pq_reason request) ++ sr_requirement_ids (pq_reason request)
        ++ sr_capability_ids (pq_reason request)
        ++ (btree_entries (pq_desired_state request) ≫= λ kv, [fst kv; snd kv]))).

(** The principal and the plan. *)
Abbreviation PreviewKey := (string * PlanId)%type.

Section preview.
Context `{Crypto}.

Definition validate_request (request : PlanDesiredStateRequest)
    : result PlanPreviewControlError unit :=
  let reason := pq_reason request in
  let over l := (MAX_ORIGINS_PER_KIND <? Z.of_nat (length l))%Z in
  reject_if (MAX_SUMMARY_BYTES <? str_len (sr_summary reason))%Z
    (InvalidRequest ("semantic summary exceeds " +:+ u64_to_string MAX_SUMMARY_BYTES
                     +:+ " UTF-8 bytes"));;
  reject_if (has_control (sr_summary reason))
    (InvalidRequest "semantic summary contains control characters");;
  reject_if (over (sr_intent_ids reason) || over (sr_requirement_ids reason)
             || over (sr_capability_ids reason))
    (InvalidRequest ("semantic origin kind exceeds " +:+ u64_to_string MAX_ORIGINS_PER_KIND
                     +:+ " entries"));;
  reject_if (MAX_TOTAL_ORIGINS <?
             saturating_sum (Z.of_nat (length (sr_intent_ids reason)))
               [Z.of_nat (length (sr_requirement_ids reason));
                Z.of_nat (length (sr_capability_ids reason))])%Z
    (InvalidRequest ("semantic origins exceed " +:+ u64_to_string MAX_TOTAL_ORIGINS
                     +:+ " total entries"));;
  reject_if (bool_decide (pq_desired_state request = ∅)
             || (MAX_DESIRED_ATTRIBUTES <? Z.of_nat (size (pq_desired_state request)))%Z)
    (InvalidRequest ("desired state must contain between 1 and "
                     +:+ u64_to_string MAX_DESIRED_ATTRIBUTES +:+ " attributes"));;
  reject_if (MAX_REQUEST_BYTES <? request_bytes request)%Z
    (InvalidRequest ("normalized planning request exceeds " +:+ u64_to_string MAX_REQUEST_BYTES
                     +:+ " UTF-8 bytes"));;
  map_err (λ e, InvalidRequest (ValidationError_display e)) (SemanticReason_validate reason);;
  map_err (λ e, InvalidRequest (DesiredStateValidationError_display e))
    (DesiredState_validate
       {| ds_resources := [desired_resource {| ni_principal := ""; ni_request := request |}] |}).

Definition NormalizedPlanInput_new (principal : string) (request : PlanDesiredStateRequest)
    : result PlanPreviewControlError NormalizedPlanInput :=
  validate_request request;; Ok {| ni_principal := principal; ni_request := request |}.

Definition input_plan_id (input : NormalizedPlanInput) : result PlanPreviewControlError PlanId :=
  map_err (λ e, InvalidRequest (ValidationError_display e))
    (PlanId_new (pq_request_id (ni_request input))).

(** ** Retention *)

Definition PreviewKey_from_input (input : NormalizedPlanInput)
    : result PlanPreviewControlError PreviewKey :=
  plan_id ← input_plan_id input; Ok (ni_principal input, plan_id).

Record StoredPreview := {
  spv_input : NormalizedPlanInput;
  spv_plan : ReconciliationPlan;
  spv_retained_bytes : Z;
}.

Record PreviewStore := {
  pvs_capacity : Z;
  pvs_max_entry_bytes : Z;
  pvs_max_total_bytes : Z;
  pvs_retained_bytes : Z;
  pvs_entries : gmap PreviewKey StoredPreview;
  pvs_order : list PreviewKey;
}.

Definition PreviewStore_default : PreviewStore :=
  {| pvs_capacity := MAX_PREVIEW_ENTRIES; pvs_max_entry_bytes := MAX_PREVIEW_ENTRY_BYTES;
     pvs_max_total_bytes := MAX_PREVIEW_TOTAL_BYTES; pvs_retained_bytes := 0;
     pvs_entries := ∅; pvs_order := [] |}.

Definition replay_preview (s : PreviewStore) (input : NormalizedPlanInput)
    : result PlanPreviewControlError (option ReconciliationPlan) :=
  key ← PreviewKey_from_input input;
  match pvs_entries s !! key with
  | None => Ok None
  | Some stored =>
      if decide (spv_input stored = input) then Ok (Some (spv_plan stored))
      else Err (PreviewIdempotencyConflict (snd key))
  end.

Definition semantic_reason_bytes (reason : SemanticReason) : Z :=
  saturating_sum (str_len (sr_summary reason))
    [saturating_sum 0 (text_lengths (sr_intent_ids reason));
     saturating_sum 0 (text_lengths (sr_requirement_ids reason));
     saturating_sum 0 (text_lengths (sr_capability_ids reason))].

Definition estimate_key_bytes (key : PreviewKey) : Z :=
  u64_saturating_add (str_len (fst key)) (str_len (snd key)).

Definition estimate_input_bytes (input : NormalizedPlanInput) : Z :=
  let request := ni_request input in
  saturating_sum (str_len (ni_principal input))
    [str_len (pq_request_id request); str_len (pq_provider request);
     str_len (pq_resource request); str_len (pq_observation_capability request);
     semantic_reason_bytes (pq_reason request);
     saturating_sum 0
       ((λ kv, u64_saturating_add (str_len (fst kv)) (str_len (snd kv)))
        <$> btree_entries (pq_desired_state request))].

Definition estimate_change_bytes (c : StateChange) : Z :=
  saturating_sum (str_len (sc_key c))
    [match sc_current c with Some current => str_len current | None => 0%Z end;
     str_len (sc_desired c)].

Definition estimate_plan_bytes (plan : ReconciliationPlan) : Z :=
  saturating_sum (str_len (rp_id plan))
    [str_len (rp_request_id plan); str_len (actor_id (rp_actor plan)); str_len (rp_provider plan);
     str_len (rp_resource plan); str_len (rp_observation_capability plan);
     semantic_reason_bytes (rp_reason plan); str_len (rp_observed_evidence_id plan);
     saturating_sum 0 (estimate_change_bytes <$> rp_changes plan);
     saturating_sum 0
       ((λ f, u64_saturating_add (str_len (pf_code f)) (str_len (pf_message f)))
        <$> rp_findings plan)].

(** The eviction loop of [insert]: [while full { pop the oldest }]; [false]
    when nothing is left to evict. *)
Fixpoint make_room (capacity max_total needed : Z) (entries : gmap PreviewKey StoredPreview)
    (retained : Z) (order : list PreviewKey)
    : gmap PreviewKey StoredPreview * Z * list PreviewKey * bool :=
  if (capacity <=? Z.of_nat (size entries))%Z
     || (max_total <? u64_saturating_add retained needed)%Z then
    match order with
    | [] => (entries, retained, [], false)
    | oldest :: order =>
        match entries !! oldest with
        | Some removed =>
            make_room capacity max_total needed (delete oldest entries)
              (u64_saturating_sub retained (spv_retained_bytes removed)) order
        | None => make_room capacity max_total needed entries retained order
        end
    end
  else (entries, retained, order, true).

Definition set_retained (s : PreviewStore) (entries : gmap PreviewKey StoredPreview)
    (retained : Z) (order : list PreviewKey) : PreviewStore :=
  {| pvs_capacity := pvs_capacity s; pvs_max_entry_bytes := pvs_max_entry_bytes s;
     pvs_max_total_bytes := pvs_max_total_bytes s; pvs_retained_bytes := retained;
     pvs_entries := entries; pvs_order := order |}.

Definition preview_bytes (key : PreviewKey) (input : NormalizedPlanInput) (plan : ReconciliationPlan) : Z :=
  saturating_sum (estimate_key_bytes key) [estimate_input_bytes input; estimate_plan_bytes plan].

(** The checks of [insert] on the identity of the preview. *)
Definition check_preview (key : PreviewKey) (input : NormalizedPlanInput) (plan : ReconciliationPlan)
    : result PlanPreviewControlError unit :=
  let request := ni_request input in
  reject_if (negb (bool_decide (rp_id plan = snd key))
             || negb (bool_decide (rp_request_id plan = pq_request_id request)))
    (Retention "retained preview identity does not match normalized request");;
  reject_if (negb (bool_decide (rp_provider plan = pq_provider request))
             || negb (bool_decide (rp_resource plan = pq_resource request))
             || negb (bool_decide (rp_observation_capability plan = pq_observation_capability request))
             || negb (bool_decide (rp_reason plan = pq_reason request)))
    (Retention "retained preview route or semantic reason does not match request").

(** [insert] for a key that is not retained. *)
Definition insert_new_preview (s : PreviewStore) (key : PreviewKey) (input : NormalizedPlanInput)
    (plan : ReconciliationPlan) : PreviewStore * result PlanPreviewControlError unit :=
  let retained_bytes := preview_bytes key input plan in
  if (pvs_max_entry_bytes s <? retained_bytes)%Z || (pvs_max_total_bytes s <? retained_bytes)%Z then
    (s, Err (Retention ("preview requires " +:+ u64_to_string retained_bytes
                        +:+ " retained bytes, exceeding per-entry limit "
                        +:+ u64_to_string (pvs_max_entry_bytes s))))
  else
    let '(entries, retained, order, room) :=
      make_room (pvs_capacity s) (pvs_max_total_bytes s) retained_bytes (pvs_entries s)
        (pvs_retained_bytes s) (pvs_order s) in
    if room then
      (set_retained s
         (<[key := {| spv_input := input; spv_plan := plan;
                      spv_retained_bytes := retained_bytes |}]> entries)
         (u64_saturating_add retained retained_bytes) (order ++ [key]), Ok tt)
    else (set_retained s entries retained order,
          Err (Retention "preview retention accounting is inconsistent")).

(** [&mut self]: the store after the call, and the result. *)
Definition insert_preview (s : PreviewStore) (input : NormalizedPlanInput) (plan : ReconciliationPlan)
    : PreviewStore * result PlanPreviewControlError unit :=
  match PreviewKey_from_input input with
  | Err e => (s, Err e)
  | Ok key =>
      match check_preview key input plan with
      | Err e => (s, Err e)
      | Ok _ =>
          match pvs_entries s !! key with
          | Some existing =>
              if bool_decide (spv_input existing = input) && bool_decide (spv_plan existing = plan)
              then (s, Ok tt)
              else (s, Err (PreviewIdempotencyConflict (snd key)))
          | None => insert_new_preview s key input plan
          end
      end
  end.

Definition get_preview (s : PreviewStore) (principal : string) (plan_id : PlanId)
    : option ReconciliationPlan := spv_plan <$> pvs_entries s !! (principal, plan_id).
End preview.

(** ** Session validity *)

Definition last_valid (o : ObservationEnvelope) : result PlanPreviewControlError Z :=
  reject_if (oe_valid_for_ms o =? 0)%Z (Planning "native session validity is empty");;
  ok_or (first_invalid ← u64_checked_add (oe_observed_at_unix_ms o) (oe_valid_for_ms o);
         u64_checked_sub first_invalid 1)
    (Planning "native session validity overflow").

Definition with_validity (o : ObservationEnvelope) (window : Z) : ObservationEnvelope :=
  {| oe_provider := oe_provider o; oe_resource := oe_resource o; oe_capability := oe_capability o;
     oe_authority := oe_authority o; oe_observed_at_unix_ms := oe_observed_at_unix_ms o;
     oe_valid_for_ms := window; oe_sequence := oe_sequence o; oe_attributes := oe_attributes o |}.

(** Returns the narrowed locker observation. *)
Definition restrict_session_validity (locker session : ObservationEnvelope) (now_unix_ms : Z)
    : result PlanPreviewControlError ObservationEnvelope :=
  locker_last ← last_valid locker;
  session_last ← last_valid session;
  let deadline := Z.min locker_last session_last in
  window ← ok_or (w ← u64_checked_sub deadline (oe_observed_at_unix_ms locker);
                  if (0 <? w)%Z then Some w else None)
             (Planning "native session prerequisite validity is exhausted");
  reject_if (now_unix_ms <? oe_observed_at_unix_ms session)%Z
    (Planning "native session prerequisite is in the future");;
  let narrowed := with_validity locker window in
  map_err (λ e, Planning (ObservationValidationError_display e)) (require_current narrowed now_unix_ms);;
  Ok narrowed.

(** ** The planner's view of an observation *)

Definition planning_freshness (f : FreshnessState) : PlanningFreshness :=
  match f with Current => PlanningCurrent | Stale => PlanningStale | Future => PlanningFuture end.

Definition planning_observation (o : ObservationEnvelope) (freshness : FreshnessState)
    : PlanningObservation :=
  {| po_provider := oe_provider o; po_resource := oe_resource o;
     po_observation_capability := oe_capability o;
     po_authority := ObservationAuthority_as_str (oe_authority o);
     po_evidence_id := evidence_id o; po_freshness := planning_freshness freshness;
     po_attributes := ObservedValue_to_string <$> oe_attributes o |}.

(** * The preview store

    Whatever is inserted, the store of plan previews keeps its two bounds
    with an exact byte account; it evicts no more than it must and oldest
    first; and a retained preview is replayed for exactly the request it was
    made for. *)


(** ** The invariant *)

Record preview_ok (s : PreviewStore) : Prop := {
  pv_capacity : (0 < pvs_capacity s)%Z;
  pv_total_limit : (pvs_max_total_bytes s < u64_max)%Z;
  pv_order : NoDup (pvs_order s);
  pv_keys : ∀ k, k ∈ pvs_order s ↔ is_Some (pvs_entries s !! k);
  pv_bytes : ∀ k p, pvs_entries s !! k = Some p → (0 ≤ spv_retained_bytes p)%Z;
  pv_account : pvs_retained_bytes s = total spv_retained_bytes (pvs_entries s);
  pv_entries : (Z.of_nat (size (pvs_entries s)) ≤ pvs_capacity s)%Z;
  pv_total : (pvs_retained_bytes s ≤ pvs_max_total_bytes s)%Z;
}.

Lemma preview_ok_default : preview_ok PreviewStore_default.
Proof.
  constructor; cbn; try done; [constructor|].
  intros k. rewrite lookup_empty. split; [by intros ?%not_elem_of_nil|by intros []].
Qed.

(** ** Eviction *)

(** The entries whose keys are in a list. *)
Definition kept (entries : gmap PreviewKey StoredPreview) (order : list PreviewKey)
    : gmap PreviewKey StoredPreview := filter (λ kv, fst kv ∈ order) entries.

(** A store that holds these entries has no room for [needed] more bytes. *)
Definition full (capacity max_total needed : Z) (entries : gmap PreviewKey StoredPreview) : Prop :=
  (capacity ≤ Z.of_nat (size entries) ∨
   max_total < total spv_retained_bytes entries + needed)%Z.

Lemma kept_all entries order :
  (∀ k, is_Some (entries !! k) → k ∈ order) → kept entries order = entries.
Proof. intros Hk. apply map_filter_id. intros k x Hx. apply Hk. by eexists. Qed.

Lemma kept_tail entries k order p :
  k ∉ order → entries !! k = Some p → kept entries order = kept (delete k entries) order.
Proof.
  intros Hk Hp. unfold kept. apply map_eq. intros j. apply option_eq. intros x.
  rewrite !map_lookup_filter_Some, lookup_delete_Some. cbn. split; [|naive_solver].
  intros [? ?]. split; [|done]. split; [by intros ->|done].
Qed.

Section make_room.
Context (capacity max_total needed : Z).
Hypotheses (Hcap : (0 < capacity)%Z) (Hneed : (0 ≤ needed ≤ max_total)%Z)
  (Hlimit : (max_total < u64_max)%Z).

Lemma full_spec entries retained :
  retained = total spv_retained_bytes entries → (0 ≤ retained)%Z →
  (capacity <=? Z.of_nat (size entries))%Z || (max_total <? u64_saturating_add retained needed)%Z
  = true ↔ full capacity max_total needed entries.
Proof.
  intros -> Hr. unfold full, u64_saturating_add. rewrite orb_true_iff, Z.leb_le, Z.ltb_lt. lia.
Qed.

Lemma make_room_spec order entries retained :
  NoDup order → (∀ k, k ∈ order ↔ is_Some (entries !! k)) →
  (∀ k p, entries !! k = Some p → (0 ≤ spv_retained_bytes p)%Z) →
  retained = total spv_retained_bytes entries →
  ∃ n,
    make_room capacity max_total needed entries retained order
    = (kept entries (drop n order), total spv_retained_bytes (kept entries (drop n order)),
       drop n order, true) ∧
    ¬ full capacity max_total needed (kept entries (drop n order)) ∧
    ∀ m, m < n → full capacity max_total needed (kept entries (drop m order)).
Proof.
  intros Hnd. revert entries retained. induction Hnd as [|k order Hk Hnd IH];
    intros entries retained Hkeys Hpos Hret; cbn [make_room];
    assert (0 ≤ retained)%Z by (subst; by apply total_nonneg).
  - assert (entries = ∅) as ->.
    { apply map_eq. intros k. rewrite lookup_empty. apply eq_None_not_Some.
      by intros ?%Hkeys%not_elem_of_nil. }
    rewrite total_empty in Hret. subst retained. exists 0.
    assert (¬ full capacity max_total needed ∅) as Hnf.
    { unfold full. rewrite total_empty, map_size_empty. lia. }
    destruct (_ || _) eqn:E; [by apply full_spec in E; [|rewrite ?total_empty..]|].
    unfold kept. cbn [drop]. rewrite map_filter_empty, total_empty. split_and!; [done|done|lia].
  - destruct (_ || _) eqn:E.
    + apply full_spec in E; [|done..].
      destruct (proj1 (Hkeys k) ltac:(by left)) as [p Hp]. rewrite Hp.
      assert (Hsum := total_delete spv_retained_bytes _ _ _ Hp).
      assert (Hdel : (0 ≤ total spv_retained_bytes (delete k entries))%Z).
      { apply total_nonneg. intros j x [_ Hj]%lookup_delete_Some. by eapply Hpos. }
      assert (Hpk := Hpos _ _ Hp).
      destruct (IH (delete k entries) (u64_saturating_sub retained (spv_retained_bytes p)))
        as (n & Hroom & Hnf & Hmin).
      * intros j. rewrite lookup_delete_is_Some, <- Hkeys. split.
        -- intros Hj. split; [by intros ->|by right].
        -- by intros [Hne [->|?]%elem_of_cons].
      * intros j x [_ Hj]%lookup_delete_Some. by eapply Hpos.
      * unfold u64_saturating_sub. lia.
      * assert (∀ m, kept entries (drop m order) = kept (delete k entries) (drop m order)) as Hkept.
        { intros m. apply (kept_tail _ _ _ p); [|done].
          intros Hin. apply Hk. rewrite <- (take_drop m order). apply elem_of_app. by right. }
        exists (S n). cbn [drop]. rewrite Hkept. split_and!; [done|done|].
        intros [|m] Hm; cbn [drop].
        -- rewrite kept_all; [done|]. intros j Hj. by apply Hkeys.
        -- rewrite Hkept. apply Hmin. lia.
    + exists 0. cbn [drop]. rewrite kept_all; [|intros j Hj; by apply Hkeys].
      split_and!; [by subst|by rewrite <- full_spec, E|lia].
Qed.
End make_room.

(** ** Insertion *)

Lemma saturating_sum_nonneg l start :
  (0 ≤ start)%Z → Forall (λ x, 0 ≤ x)%Z l → (0 ≤ saturating_sum start l)%Z.
Proof.
  intros Hs Hl. revert start Hs. induction Hl as [|x l Hx _ IH]; intros start Hs; [done|].
  apply IH. unfold u64_saturating_add, u64_max. lia.
Qed.

Lemma text_lengths_nonneg l : Forall (λ x, 0 ≤ x)%Z (text_lengths l).
Proof. apply Forall_fmap, Forall_forall. intros x _. cbn. unfold str_len. lia. Qed.

Lemma str_len_nonneg x : (0 ≤ str_len x)%Z.
Proof. unfold str_len. lia. Qed.

Lemma saturating_add_nonneg x y : (0 ≤ x → 0 ≤ y → 0 ≤ u64_saturating_add x y)%Z.
Proof. unfold u64_saturating_add, u64_max. lia. Qed.

(** Byte estimates are not negative. *)
Ltac nonneg :=
  repeat first
    [ apply saturating_sum_nonneg | apply saturating_add_nonneg | apply text_lengths_nonneg
    | apply str_len_nonneg | apply Forall_nil | apply Forall_cons; split
    | apply Forall_fmap, Forall_forall; intros ? _; cbn [compose] | lia ].

Lemma preview_bytes_nonneg key input plan : (0 ≤ preview_bytes key input plan)%Z.
Proof.
  unfold preview_bytes, estimate_key_bytes, estimate_input_bytes, estimate_plan_bytes,
    semantic_reason_bytes, estimate_change_bytes. nonneg.
  destruct (sc_current _); nonneg.
Qed.

Lemma kept_subset entries l k p : kept entries l !! k = Some p ↔ entries !! k = Some p ∧ k ∈ l.
Proof. unfold kept. rewrite map_lookup_filter_Some. done. Qed.

Section insert.
Context `{Crypto}.
Implicit Types (s : PreviewStore) (input : NormalizedPlanInput) (plan : ReconciliationPlan).

(** A new key: the oldest entries make room, as few as possible. *)
Lemma insert_new_spec s key input plan :
  preview_ok s → pvs_entries s !! key = None →
  let b := preview_bytes key input plan in
  let r := insert_new_preview s key input plan in
  (snd r = Ok tt ↔ (b ≤ pvs_max_entry_bytes s ∧ b ≤ pvs_max_total_bytes s)%Z) ∧
  (snd r ≠ Ok tt → fst r = s) ∧
  (snd r = Ok tt → ∃ n,
     pvs_order (fst r) = drop n (pvs_order s) ++ [key] ∧
     pvs_entries (fst r)
     = <[key := {| spv_input := input; spv_plan := plan; spv_retained_bytes := b |}]>
         (kept (pvs_entries s) (drop n (pvs_order s))) ∧
     (∀ m, m < n → full (pvs_capacity s) (pvs_max_total_bytes s) b
                     (kept (pvs_entries s) (drop m (pvs_order s))))) ∧
  preview_ok (fst r).
Proof.
  intros Hok Hkey b r. destruct Hok as [Hc Hlim Hnd Hk Hpos Hacc Hsz Htot].
  assert (0 ≤ b)%Z as Hb by apply preview_bytes_nonneg.
  unfold r, insert_new_preview. cbv zeta. fold b. clearbody b. clear r.
  destruct (Z.ltb_spec (pvs_max_entry_bytes s) b) as [?|H1]; cbn [orb].
  { cbn. split_and!; [split; [done|intros; lia]|done|done|by constructor]. }
  destruct (Z.ltb_spec (pvs_max_total_bytes s) b) as [?|H2].
  { cbn. split_and!; [split; [done|intros; lia]|done|done|by constructor]. }
  destruct (make_room_spec (pvs_capacity s) (pvs_max_total_bytes s) b Hc (conj Hb H2) Hlim
    (pvs_order s) (pvs_entries s) (pvs_retained_bytes s)) as (n & -> & Hnf & Hmin); [done..|].
  set (e := kept (pvs_entries s) (drop n (pvs_order s))) in *. cbn.
  assert (e !! key = None) as Hek.
  { apply eq_None_not_Some. intros [p [Hp _]%kept_subset]. congruence. }
  assert (0 ≤ total spv_retained_bytes e)%Z as Hte.
  { apply total_nonneg. intros k p [Hp _]%kept_subset. by eapply Hpos. }
  unfold full in Hnf.
  assert (u64_saturating_add (total spv_retained_bytes e) b = total spv_retained_bytes e + b)%Z as Hsat
    by (unfold u64_saturating_add; lia).
  split_and!; [done|done|by exists n|]. constructor; cbn; try done.
  - apply NoDup_app. split_and!; [by eapply sublist_NoDup, sublist_drop| |apply NoDup_singleton].
    intros k Hin ->%list_elem_of_singleton. assert (key ∈ pvs_order s) as Hin'.
    { rewrite <- (take_drop n (pvs_order s)). apply elem_of_app. by right. }
    apply Hk in Hin' as [? ?]. congruence.
  - intros k. rewrite elem_of_app, list_elem_of_singleton, lookup_insert_is_Some'. split.
    + intros [Hin| ->]; [|by left]. right. assert (k ∈ pvs_order s) as [p Hp]%Hk.
      { rewrite <- (take_drop n (pvs_order s)). apply elem_of_app. by right. }
      exists p. by apply kept_subset.
    + intros [-> |[p [_ Hin]%kept_subset]]; [by right|by left].
  - intros k p. rewrite lookup_insert_Some. intros [[_ <-]|[_ [Hp _]%kept_subset]]; [done|by eapply Hpos].
  - rewrite total_insert by done. cbn. lia.
  - rewrite map_size_insert_None by done. lia.
  - lia.
Qed.

Lemma insert_preview_ok s input plan :
  preview_ok s → preview_ok (fst (insert_preview s input plan)).
Proof.
  intros Hok. unfold insert_preview. destruct (PreviewKey_from_input input) as [key|]; [|done].
  destruct (check_preview key input plan); [|done].
  destruct (pvs_entries s !! key) as [existing|] eqn:E; [by destruct (_ && _)|].
  by apply insert_new_spec.
Qed.

(** What the map files under a key: a preview of that key, checked, with its
    estimated bytes, no more than the per-entry limit. *)
Definition preview_filed s : Prop :=
  ∀ k p, pvs_entries s !! k = Some p →
    PreviewKey_from_input (spv_input p) = Ok k ∧
    check_preview k (spv_input p) (spv_plan p) = Ok tt ∧
    spv_retained_bytes p = preview_bytes k (spv_input p) (spv_plan p) ∧
    (spv_retained_bytes p ≤ pvs_max_entry_bytes s)%Z.

Lemma preview_filed_default : preview_filed PreviewStore_default.
Proof. intros k p Hp. cbn in Hp. by rewrite lookup_empty in Hp. Qed.

Lemma insert_preview_limits s input plan :
  let s' := fst (insert_preview s input plan) in
  pvs_capacity s' = pvs_capacity s ∧ pvs_max_total_bytes s' = pvs_max_total_bytes s ∧
  pvs_max_entry_bytes s' = pvs_max_entry_bytes s.
Proof.
  unfold insert_preview. destruct (PreviewKey_from_input input) as [key|]; [|done].
  destruct (check_preview key input plan); [|done].
  destruct (pvs_entries s !! key) as [existing|]; [by destruct (_ && _)|].
  unfold insert_new_preview. destruct (_ || _); [done|].
  destruct (make_room _ _ _ _ _ _) as [[[e b] o] room]. by destruct room.
Qed.

Lemma insert_preview_filed s input plan :
  preview_ok s → preview_filed s → preview_filed (fst (insert_preview s input plan)).
Proof.
  intros Hok Hf. destruct (insert_preview_limits s input plan) as (_ & _ & Hl). revert Hl.
  unfold insert_preview. destruct (PreviewKey_from_input input) as [key|] eqn:Hkey; [|done].
  destruct (check_preview key input plan) as [[]|] eqn:Hck; [|done].
  destruct (pvs_entries s !! key) as [existing|] eqn:E; [by destruct (_ && _)|]. intros Hl.
  destruct (insert_new_spec s key input plan Hok E) as (Hiff & Herr & Hnew & _).
  destruct (snd (insert_new_preview s key input plan)) as [[]|e] eqn:Hr; [|by rewrite Herr].
  destruct (Hnew eq_refl) as (n & _ & He & _). assert (Hb := proj1 (proj1 Hiff eq_refl)).
  intros k p. rewrite He, Hl, lookup_insert_Some. intros [[<- <-]|[_ [Hp _]%kept_subset]]; [done|].
  by apply Hf.
Qed.

Definition insert_previews s (l : list (NormalizedPlanInput * ReconciliationPlan)) : PreviewStore :=
  foldl (λ s x, fst (insert_preview s (fst x) (snd x))) s l.

Lemma insert_previews_ok s l :
  preview_ok s → preview_filed s → preview_ok (insert_previews s l) ∧
  preview_filed (insert_previews s l) ∧
  pvs_capacity (insert_previews s l) = pvs_capacity s ∧
  pvs_max_total_bytes (insert_previews s l) = pvs_max_total_bytes s ∧
  pvs_max_entry_bytes (insert_previews s l) = pvs_max_entry_bytes s.
Proof.
  revert s. induction l as [|x l IH]; intros s Hok Hf; [done|].
  destruct (insert_preview_limits s (fst x) (snd x)) as (<- & <- & <-).
  apply IH; [by apply insert_preview_ok|by apply insert_preview_filed].
Qed.

Lemma insert_previews_default l :
  let s := insert_previews PreviewStore_default l in
  preview_ok s ∧ preview_filed s ∧ pvs_capacity s = 256%Z ∧
  pvs_max_total_bytes s = (8 * 1024 * 1024)%Z ∧ pvs_max_entry_bytes s = (128 * 1024)%Z.
Proof. apply insert_previews_ok; [apply preview_ok_default|apply preview_filed_default]. Qed.

(** What [insert] does with a preview whose identity checks have passed. *)
Inductive insertion (s : PreviewStore) (key : PreviewKey) input plan
    : PreviewStore → result PlanPreviewControlError unit → Prop :=
| preview_repeated p :
    pvs_entries s !! key = Some p → spv_input p = input → spv_plan p = plan →
    insertion s key input plan s (Ok tt)
| preview_conflict p :
    pvs_entries s !! key = Some p → (spv_input p ≠ input ∨ spv_plan p ≠ plan) →
    insertion s key input plan s (Err (PreviewIdempotencyConflict (snd key)))
| preview_too_large :
    pvs_entries s !! key = None → (128 * 1024 < preview_bytes key input plan)%Z →
    insertion s key input plan s
      (Err (Retention ("preview requires " +:+ u64_to_string (preview_bytes key input plan)
                       +:+ " retained bytes, exceeding per-entry limit 131072")))
| preview_retained s' n :
    pvs_entries s !! key = None → (preview_bytes key input plan ≤ 128 * 1024)%Z →
    pvs_order s' = drop n (pvs_order s) ++ [key] →
    pvs_entries s'
    = <[key := {| spv_input := input; spv_plan := plan;
                  spv_retained_bytes := preview_bytes key input plan |}]>
        (kept (pvs_entries s) (drop n (pvs_order s))) →
    (∀ m, m < n → full 256 (8 * 1024 * 1024) (preview_bytes key input plan)
                    (kept (pvs_entries s) (drop m (pvs_order s)))) →
    insertion s key input plan s' (Ok tt).

Lemma insert_preview_insertion s key input plan :
  preview_ok s → pvs_capacity s = 256%Z → pvs_max_total_bytes s = (8 * 1024 * 1024)%Z →
  pvs_max_entry_bytes s = (128 * 1024)%Z →
  PreviewKey_from_input input = Ok key → check_preview key input plan = Ok tt →
  insertion s key input plan (fst (insert_preview s input plan)) (snd (insert_preview s input plan)).
Proof.
  intros Hok Hc Ht He Hkey Hck. unfold insert_preview. rewrite Hkey, Hck.
  destruct (pvs_entries s !! key) as [p|] eqn:E.
  - destruct (_ && _) eqn:Hb; cbn.
    + apply andb_true_iff in Hb as [H1%bool_decide_eq_true H2%bool_decide_eq_true].
      by apply preview_repeated with p.
    + apply andb_false_iff in Hb as [Hb%bool_decide_eq_false|Hb%bool_decide_eq_false];
        apply preview_conflict with p; auto.
  - destruct (insert_new_spec s key input plan Hok E) as (Hiff & _ & Hnew & _).
    rewrite Hc, Ht, He in *.
    destruct (Z.le_gt_cases (preview_bytes key input plan) (128 * 1024)) as [Hle|Hgt].
    + assert (Hr := proj2 Hiff ltac:(lia)). destruct (Hnew Hr) as (n & Ho & Hen & Hmin).
      rewrite Hr. by apply preview_retained with n.
    + unfold insert_new_preview. cbv zeta. rewrite (proj2 (Z.ltb_lt _ _)) by lia. cbn [orb fst snd].
      rewrite He. by apply preview_too_large.
Qed.

(** C35: the preview store stays bounded and evicts no more than it must.
    Whatever previews were inserted, at most 256 are retained, each filed
    under its own key with its checks passed and its estimated bytes, at most
    128 KiB, exactly accounted for, and at most 8 MiB together.  Inserting
    one more whose key is new and whose bytes fit retains exactly this input
    and plan under the key; the remaining entries are the newest ones,
    unchanged, and one eviction fewer would have exceeded a bound.  A larger
    one is refused with its error, a key that is retained is confirmed for
    the same input and plan and a conflict otherwise, and all three change
    nothing. *)
Theorem preview_store_bounded_fifo l input plan key
    (Hkey : PreviewKey_from_input input = Ok key) (Hcheck : check_preview key input plan = Ok tt) :
  let s := insert_previews PreviewStore_default l in
  (Z.of_nat (size (pvs_entries s)) ≤ 256)%Z ∧
  pvs_retained_bytes s = total spv_retained_bytes (pvs_entries s) ∧
  (pvs_retained_bytes s ≤ 8 * 1024 * 1024)%Z ∧
  (∀ k p, pvs_entries s !! k = Some p →
     PreviewKey_from_input (spv_input p) = Ok k ∧
     check_preview k (spv_input p) (spv_plan p) = Ok tt ∧
     spv_retained_bytes p = preview_bytes k (spv_input p) (spv_plan p) ∧
     (spv_retained_bytes p ≤ 128 * 1024)%Z) ∧
  insertion s key input plan (fst (insert_preview s input plan)) (snd (insert_preview s input plan)).
Proof.
  cbv zeta. destruct (insert_previews_default l) as (Hok & Hf & Hc & Ht & He).
  set (s := insert_previews PreviewStore_default l) in *.
  assert (Hb := pv_entries _ Hok). assert (Hbt := pv_total _ Hok). rewrite Hc in Hb. rewrite Ht in Hbt.
  split_and!; [done|apply (pv_account _ Hok)|done| |by apply insert_preview_insertion].
  intros k p Hp. rewrite <- He. by apply Hf.
Qed.

Lemma insert_preview_stored s input plan :
  preview_ok s → snd (insert_preview s input plan) = Ok tt →
  ∃ key p, PreviewKey_from_input input = Ok key ∧ check_preview key input plan = Ok tt ∧
    pvs_entries (fst (insert_preview s input plan)) !! key = Some p ∧
    spv_input p = input ∧ spv_plan p = plan.
Proof.
  intros Hs. unfold insert_preview. destruct (PreviewKey_from_input input) as [key|e]; [|done].
  destruct (check_preview key input plan) as [[]|e] eqn:Hck; [|done]. intros Hok.
  destruct (pvs_entries s !! key) as [x|] eqn:E.
  - destruct (_ && _) eqn:Hb; [|done]. apply andb_true_iff in Hb as [H1 H2].
    apply bool_decide_eq_true in H1, H2. by exists key, x.
  - destruct (insert_new_spec s key input plan Hs E) as (_ & _ & Hnew & _).
    destruct (Hnew Hok) as (n & _ & -> & _). eexists key, _. by rewrite lookup_insert_eq.
Qed.

(** Replay is exact.  A preview that was inserted is answered for the
    request it was made for and for that request only: the same principal
    reusing the plan identifier for another request is refused, and a second
    insertion of the same preview changes nothing. *)
Theorem preview_replay_exact l input plan
    (Hok : snd (insert_preview (insert_previews PreviewStore_default l) input plan) = Ok tt) :
  let s' := fst (insert_preview (insert_previews PreviewStore_default l) input plan) in
  replay_preview s' input = Ok (Some plan) ∧
  get_preview s' (ni_principal input) (rp_id plan) = Some plan ∧
  insert_preview s' input plan = (s', Ok tt) ∧
  ∀ other, PreviewKey_from_input other = PreviewKey_from_input input → other ≠ input →
    replay_preview s' other = Err (PreviewIdempotencyConflict (rp_id plan)).
Proof.
  destruct (insert_previews_default l) as (Hs & _).
  set (s := insert_previews PreviewStore_default l) in *. cbv zeta.
  destruct (insert_preview_stored s input plan Hs Hok) as (key & p & Hkey & Hck & Hp & Hi & Hpl).
  set (s' := fst (insert_preview s input plan)) in *. clearbody s'.
  assert (rp_id plan = snd key ∧ ni_principal input = fst key) as [Hid Hpr].
  { unfold check_preview in Hck. apply bind_Ok in Hck as ([] & Hck%reject_if_Ok & _).
    apply orb_false_iff in Hck as [Hck%negb_false_iff%bool_decide_eq_true _].
    unfold PreviewKey_from_input in Hkey. apply bind_Ok in Hkey as (i & _ & [= <-]). done. }
  split_and!.
  - unfold replay_preview. rewrite Hkey. cbn. rewrite Hp, Hi. rewrite decide_True by done. by rewrite Hpl.
  - unfold get_preview. rewrite Hid, Hpr. destruct key. cbn in *. by rewrite Hp, <- Hpl.
  - unfold insert_preview. rewrite Hkey, Hck, Hp, Hi, Hpl, !bool_decide_eq_true_2 by done. done.
  - intros other Ho Hne. unfold replay_preview. rewrite Ho, Hkey. cbn. rewrite Hp, Hi, Hid.
    rewrite decide_False by congruence. done.
Qed.
End insert.
