(* ===== verification/DurableDigest.v ===== *)
(** * linura-control: canonical digests of authority material

    Models the digests of [crates/linura-control/src/durable_authority.rs]:
    the length-framed hasher and the canonical field sequences of requests,
    plan preconditions, observations, reviews and authority uses.
    [review_digest_binding] and [observation_digest_binding] show that equal
    digests mean equal material, or the two hashed inputs are a SHA-256
    collision. *)

From Stdlib Require Import ZArith Lia.
From Stdlib Require Import Strings.Byte.
From stdpp Require Import base numbers gmap strings list fin_maps sorting.
From S2P Require Import Prelude Text Core Digest Binding Authority Ordered Graph Planner Policy.
From S2P Require Import RiskReview ApprovalStore Preview.

Set Default Goal Selector "!".

Definition MAX_CANONICAL_DIGEST_FIELD_BYTES : Z := 256 * 1024.

Inductive DurableAuthorityError :=
| DurablePreview (reason : string)
| CandidateNotMutation
| CandidateBlocked
| RiskNotClassified
| MissingApproval
| UnexpectedApproval
| DurableApproval (reason : string)
| ApprovalUnsatisfied (validation : ApprovalValidation)
| AuthorityChanged
| DurableClockUnavailable
| DurableClockRollback
| DigestFieldTooLarge
| DurableTransaction (reason : string)
| AlreadyHandedOff
| RecoveryRequestMismatch
| RecoveryNotIndeterminate.

Definition approval_class_name (class : ApprovalClass) : string :=
  match class with
  | InteractiveUser => "interactive-user"
  | SessionOwnerAuthentication => "session-owner-authentication"
  | Administrator => "administrator"
  | DestructiveAction => "destructive-action"
  end.

Definition authority_risk_name (risk : RiskClass) : string :=
  match risk with
  | ReadOnly => "read-only"
  | UserState => "user-state"
  | SystemMutation => "system-mutation"
  | SecuritySensitive => "security-sensitive"
  | Destructive => "destructive"
  end.

Definition actor_kind_name (kind : ActorKind) : string :=
  match kind with
  | Human => "human" | Service => "service" | Agent => "agent" | Remote => "remote"
  end.

Definition review_status_name (status : ReviewPlanStatus) : string :=
  match status with
  | ReviewNoChange => "no-change"
  | ReviewChangeProposed => "change-proposed"
  | ReviewBlocked => "blocked"
  end.

Definition finding_level_name (level : ReviewFindingLevel) : string :=
  match level with
  | ReviewPass => "pass" | ReviewWarning => "warning" | ReviewBlocker => "blocker"
  end.

(** ** The hasher *)

(** [CanonicalHasher]: the bytes fed to the hash so far. *)
Definition CanonicalHasher := bytes.

Definition hasher_field (h : CanonicalHasher) (b : bytes)
    : result DurableAuthorityError CanonicalHasher :=
  reject_if (MAX_CANONICAL_DIGEST_FIELD_BYTES <? Z.of_nat (length b))%Z DigestFieldTooLarge;;
  Ok (h ++ frame b).

(** A run of [field] calls. *)
Fixpoint hasher_fields (h : CanonicalHasher) (l : list bytes)
    : result DurableAuthorityError CanonicalHasher :=
  match l with
  | [] => Ok h
  | b :: l => h ← hasher_field h b; hasher_fields h l
  end.

Definition hasher_new (domain : string) : result DurableAuthorityError CanonicalHasher :=
  hasher_field [] (as_bytes domain).

(** [text], [number], and the count that precedes a sequence. *)
Definition text (s : string) : bytes := as_bytes s.
Definition number (n : Z) : bytes := u64_be n.
Definition count_of {A} (l : list A) : bytes := number (Z.of_nat (length l)).
Definition texts (l : list string) : list bytes := count_of l :: (text <$> l).

Section digests.
Context `{Crypto}.

Definition of_validation (e : TransactionValidationError) : DurableAuthorityError :=
  DurableTransaction (TransactionValidationError_display e).

Definition hasher_finish (h : CanonicalHasher) : result DurableAuthorityError ContentDigest :=
  map_err of_validation (ContentDigest_new (DIGEST_PREFIX +:+ hex_encode (sha256 h))).

Definition canonical_digest (domain : string) (fields : list bytes)
    : result DurableAuthorityError ContentDigest :=
  h ← hasher_new domain; h ← hasher_fields h fields; hasher_finish h.

(** ** Field sequences *)

Definition reason_fields (r : SemanticReason) : list bytes :=
  [text (sr_summary r)] ++ texts (sr_intent_ids r) ++ texts (sr_requirement_ids r)
  ++ texts (sr_capability_ids r).

Definition request_fields (r : PlanDesiredStateRequest) : list bytes :=
  [text (pq_request_id r); text (pq_provider r); text (pq_resource r);
   text (pq_observation_capability r)]
  ++ reason_fields (pq_reason r)
  ++ [count_of (btree_entries (pq_desired_state r))]
  ++ (btree_entries (pq_desired_state r) ≫= λ kv, [text (fst kv); text (snd kv)]).

Definition digest_request (r : PlanDesiredStateRequest) : result DurableAuthorityError ContentDigest :=
  canonical_digest "linura.control.desired-request.v1" (request_fields r).

Definition current_fields (current : option string) : list bytes :=
  match current with Some value => [text "some"; text value] | None => [text "none"] end.

Definition precondition_fields (plan : ReconciliationPlan) : list bytes :=
  [text (rp_provider plan); text (rp_resource plan); text (rp_observation_capability plan);
   count_of (rp_changes plan)]
  ++ (rp_changes plan ≫= λ c, [text (sc_key c)] ++ current_fields (sc_current c)).

Definition digest_plan_precondition (plan : ReconciliationPlan)
    : result DurableAuthorityError ContentDigest :=
  canonical_digest "linura.control.plan-precondition.v1" (precondition_fields plan).

Definition value_fields (v : ObservedValue) : list bytes :=
  match v with
  | Text value => [text "text"; text value]
  | Bool value => [text "bool"; text (if value then "true" else "false")]
  | U64 value => [text "u64"; number value]
  | I64 value => [text "i64"; number value]
  end.

Definition observation_fields (o : ObservationEnvelope) : list bytes :=
  [text (oe_provider o); text (oe_resource o); text (oe_capability o);
   text (ObservationAuthority_as_str (oe_authority o)); number (oe_observed_at_unix_ms o);
   number (oe_valid_for_ms o); number (oe_sequence o); count_of (btree_entries (oe_attributes o))]
  ++ (btree_entries (oe_attributes o) ≫= λ kv, [text (fst kv)] ++ value_fields (snd kv)).

Definition digest_observation (o : ObservationEnvelope) : result DurableAuthorityError ContentDigest :=
  canonical_digest "linura.control.observation.v1" (observation_fields o).

Definition change_fields (c : ReviewedChange) : list bytes :=
  [text (rc_key c)] ++ current_fields (rc_current c) ++ [text (rc_desired c)].
Definition finding_fields (f : ReviewedFinding) : list bytes :=
  [text (rf_code f); text (finding_level_name (rf_level f)); text (rf_message f)].
Definition decision_fields (d : PolicyDecision) : list bytes :=
  match d with
  | Allow => [text "allow"]
  | Deny reason => [text "deny"; text reason]
  | RequireApproval class reason =>
      [text "require-approval"; text (approval_class_name class); text reason]
  | DecisionBlocked reason => [text "blocked"; text reason]
  end.

Definition subject_fields (s : PolicySubject) : list bytes :=
  [text (ps_principal s); text (ps_plan_id s); text (ps_request_id s);
   text (actor_id (ps_actor s)); text (actor_kind_name (actor_kind (ps_actor s)));
   text (if actor_interactive (ps_actor s) then "interactive" else "non-interactive");
   text (ps_provider s); text (ps_resource s); text (ps_capability s);
   text (ps_observed_evidence_id s); text (authority_risk_name (ps_prospective_risk s));
   text (review_status_name (ps_status s))]
  ++ reason_fields (ps_reason s)
  ++ [count_of (ps_changes s)] ++ (ps_changes s ≫= change_fields)
  ++ [count_of (ps_findings s)] ++ (ps_findings s ≫= finding_fields).

Definition review_fields (r : TrustedPolicyReview) : list bytes :=
  let e := tpr_evaluation r in
  subject_fields (pe_subject e)
  ++ [text (rb_policy_id (pe_binding e)); text (rb_policy_revision_id (pe_binding e))]
  ++ decision_fields (pe_decision e).

Definition digest_review (r : TrustedPolicyReview) : result DurableAuthorityError ContentDigest :=
  canonical_digest "linura.control.trusted-review.v1" (review_fields r).

Definition digest_authority_use (s : TransactionSnapshot) (now_unix_ms : Z)
    : result DurableAuthorityError ContentDigest :=
  canonical_digest "linura.control.authority-use.v1"
    [text (ts_transaction_id s); number (ts_current_generation s); number (ts_state_version s);
     text (ts_binding_digest s); number now_unix_ms].
End digests.

(** ** The hash input *)

Lemma hasher_fields_Ok h l h' :
  hasher_fields h l = Ok h' ↔
  h' = h ++ frames l ∧ Forall (λ b, Z.of_nat (length b) ≤ MAX_CANONICAL_DIGEST_FIELD_BYTES)%Z l.
Proof.
  revert h. induction l as [|b l IH]; intros h; cbn [hasher_fields].
  - rewrite frames_nil, app_nil_r. split; [intros [= ->]; by split|by intros [-> _]].
  - unfold hasher_field. destruct (Z.ltb_spec MAX_CANONICAL_DIGEST_FIELD_BYTES (Z.of_nat (length b))); cbn.
    + split; [done|]. intros [_ [? _]%Forall_cons]. lia.
    + rewrite IH, frames_cons, <- app_assoc, Forall_cons. naive_solver.
Qed.

Lemma digest_field_short b :
  (Z.of_nat (length b) ≤ MAX_CANONICAL_DIGEST_FIELD_BYTES)%Z → short b.
Proof. unfold short, MAX_CANONICAL_DIGEST_FIELD_BYTES, u64_max. lia. Qed.

Section binding.
Context `{Crypto}.

Lemma canonical_digest_Ok domain fields d :
  canonical_digest domain fields = Ok d →
  d = DIGEST_PREFIX +:+ hex_encode (sha256 (frames (as_bytes domain :: fields))) ∧
  Forall short (as_bytes domain :: fields) ∧ ContentDigest_new d = Ok d.
Proof.
  unfold canonical_digest, hasher_new. intros (h & H1 & H2)%bind_Ok.
  assert (hasher_fields [] [as_bytes domain] = Ok h) as (-> & Hd)%hasher_fields_Ok
    by (cbn; by rewrite H1). apply bind_Ok in H2 as (h' & (-> & Hf)%hasher_fields_Ok & Hfin).
  unfold hasher_finish in Hfin. apply map_err_Ok in Hfin.
  rewrite app_nil_l, <- frames_app in Hfin. cbn [app] in Hfin.
  assert (d = DIGEST_PREFIX +:+ hex_encode (sha256 (frames (as_bytes domain :: fields)))) as ->.
  { by apply ContentDigest_new_Ok in Hfin as [-> _]. }
  split_and!; [done| |done]. apply Forall_app_2 with (l1 := [as_bytes domain]);
    (eapply Forall_impl; [eassumption|apply digest_field_short]).
Qed.

(** Digests of one domain determine their fields. *)
Lemma canonical_digest_binding domain f1 f2 d :
  canonical_digest domain f1 = Ok d → canonical_digest domain f2 = Ok d →
  f1 = f2 ∨ collides (frames (as_bytes domain :: f1)) (frames (as_bytes domain :: f2)).
Proof.
  intros (E1 & H1 & _)%canonical_digest_Ok (E2 & H2 & _)%canonical_digest_Ok.
  rewrite E1 in E2. apply string_app_inj_l in E2.
  destruct (decide (frames (as_bytes domain :: f1) = frames (as_bytes domain :: f2))) as [Hi|Hi].
  - left. by apply frames_inj in Hi as [= ->].
  - by right.
Qed.
End binding.

(** * Canonical digests determine their material

    The field sequences of reviews and observations are prefix codes built
    from prefix codes, so that two reviews (or observations) with the same
    digest are equal or their hashed inputs are a SHA-256 collision. *)


(** A vector whose length fits a [u64], as every Rust [Vec] does. *)
Definition vec_sized {A} (l : list A) : Prop := (Z.of_nat (length l) ≤ u64_max)%Z.

(** An encoding from which the value and the rest are read back. *)
Definition prefix_code {A} (P : A → Prop) (enc : A → list bytes) : Prop :=
  ∀ x y r s, P x → P y → enc x ++ r = enc y ++ s → x = y ∧ r = s.

Lemma text_inj a b : text a = text b → a = b.
Proof. apply as_bytes_inj. Qed.

Lemma number_inj x y : is_u64 x → is_u64 y → number x = number y → x = y.
Proof. apply u64_be_inj. Qed.

Lemma count_of_inj {A B} (l : list A) (k : list B) :
  vec_sized l → vec_sized k → count_of l = count_of k → length l = length k.
Proof.
  unfold vec_sized. intros Hl Hk E. apply number_inj in E; unfold is_u64; lia.
Qed.

(** The head of an equation of field sequences. *)
Ltac uncons E H := cbn [app] in E; apply cons_eq_iff in E as [H E]; rewrite <- ?app_assoc in E.

Lemma prefix_code_single {A} P (f : A → bytes) :
  (∀ x y, P x → P y → f x = f y → x = y) → prefix_code P (λ x, [f x]).
Proof. intros Hf x y r s Hx Hy E. uncons E H. split; [by apply Hf|done]. Qed.

(** A counted sequence of a prefix code. *)
Lemma prefix_code_list {A} (P : A → Prop) enc :
  prefix_code P enc →
  prefix_code (λ l, vec_sized l ∧ Forall P l) (λ l, count_of l :: (l ≫= enc)).
Proof.
  intros Henc l k r s [Hl HPl] [Hk HPk] E. uncons E Hn. apply count_of_inj in Hn; [|done..]. clear Hl Hk.
  revert k HPk Hn E. induction HPl as [|x l Hx _ IH]; intros [|y k] HPk Hn E; try done.
  apply Forall_cons in HPk as [Hy HPk]. cbn in Hn, E. rewrite <- !app_assoc in E.
  apply Henc in E as [-> E]; [|done..]. apply IH in E as [-> ->]; [done|done|lia].
Qed.

Lemma prefix_code_texts : prefix_code vec_sized texts.
Proof.
  intros l k r s Hl Hk E.
  assert (∀ l, texts l = count_of l :: (l ≫= λ x, [text x])) as Ht.
  { intros j. unfold texts. by f_equal. }
  rewrite !Ht in E.
  apply (prefix_code_list (λ _, True) (λ x, [text x])) in E; [done| | |].
  - apply prefix_code_single. intros x y _ _. apply text_inj.
  - split; [done|by apply Forall_true].
  - split; [done|by apply Forall_true].
Qed.

(** ** The pieces of a review *)

Definition reason_sized (r : SemanticReason) : Prop :=
  vec_sized (sr_intent_ids r) ∧ vec_sized (sr_requirement_ids r) ∧ vec_sized (sr_capability_ids r).

Lemma prefix_code_reason : prefix_code reason_sized reason_fields.
Proof.
  intros [s1 i1 q1 c1] [s2 i2 q2 c2] r s (Hi1 & Hq1 & Hc1) (Hi2 & Hq2 & Hc2). cbn in *.
  unfold reason_fields. cbn [sr_summary sr_intent_ids sr_requirement_ids sr_capability_ids].
  rewrite <- !app_assoc. intros E. uncons E Hs. apply text_inj in Hs as ->.
  apply (prefix_code_texts i1 i2) in E as [-> E]; [|done..].
  apply (prefix_code_texts q1 q2) in E as [-> E]; [|done..].
  apply (prefix_code_texts c1 c2) in E as [-> E]; [|done..]. done.
Qed.

Lemma prefix_code_current : prefix_code (λ _, True) current_fields.
Proof.
  intros [v1|] [v2|] r s _ _ E; unfold current_fields in E; uncons E Ht; apply text_inj in Ht; try done.
  uncons E Hv. by apply text_inj in Hv as ->.
Qed.

Lemma prefix_code_change : prefix_code (λ _, True) change_fields.
Proof.
  intros [k1 c1 d1] [k2 c2 d2] r s _ _. unfold change_fields. cbn [rc_key rc_current rc_desired].
  rewrite <- !app_assoc. intros E. uncons E Hk. apply text_inj in Hk as ->.
  apply prefix_code_current in E as [-> E]; [|done..]. uncons E Hd. by apply text_inj in Hd as ->.
Qed.

Lemma finding_level_name_inj a b : finding_level_name a = finding_level_name b → a = b.
Proof. by destruct a, b. Qed.
Lemma approval_class_name_inj a b : approval_class_name a = approval_class_name b → a = b.
Proof. by destruct a, b. Qed.
Lemma actor_kind_name_inj a b : actor_kind_name a = actor_kind_name b → a = b.
Proof. by destruct a, b. Qed.
Lemma authority_risk_name_inj a b : authority_risk_name a = authority_risk_name b → a = b.
Proof. by destruct a, b. Qed.
Lemma review_status_name_inj a b : review_status_name a = review_status_name b → a = b.
Proof. by destruct a, b. Qed.

Lemma prefix_code_finding : prefix_code (λ _, True) finding_fields.
Proof.
  intros [c1 l1 m1] [c2 l2 m2] r s _ _ E. unfold finding_fields in E.
  cbn [rf_code rf_level rf_message] in E. uncons E Hc. uncons E Hl. uncons E Hm.
  apply text_inj in Hc as ->. apply text_inj in Hm as ->.
  by apply text_inj, finding_level_name_inj in Hl as ->.
Qed.

Lemma decision_fields_inj a b : decision_fields a = decision_fields b → a = b.
Proof.
  destruct a, b; unfold decision_fields; intros E; uncons E Ht; apply text_inj in Ht; try done.
  - uncons E Hr. by apply text_inj in Hr as ->.
  - uncons E Hc. uncons E Hr. apply text_inj in Hc, Hr. apply approval_class_name_inj in Hc. congruence.
  - uncons E Hr. by apply text_inj in Hr as ->.
Qed.

Definition subject_sized (s : PolicySubject) : Prop :=
  reason_sized (ps_reason s) ∧ vec_sized (ps_changes s) ∧ vec_sized (ps_findings s).

Lemma prefix_code_subject : prefix_code subject_sized subject_fields.
Proof.
  intros s1 s2 r s (Hr1 & Hc1 & Hf1) (Hr2 & Hc2 & Hf2). unfold subject_fields.
  rewrite <- !app_assoc. intros E.
  uncons E E1. uncons E E2. uncons E E3. uncons E E4. uncons E E5. uncons E E6. uncons E E7.
  uncons E E8. uncons E E9. uncons E E10. uncons E E11. uncons E E12.
  apply prefix_code_reason in E as [Hr E]; [|done..]. cbn [app] in E.
  rewrite !app_comm_cons in E.
  apply (prefix_code_list (λ _, True) change_fields) in E as [Hc E];
    [|apply prefix_code_change|split; [done|by apply Forall_true]..].
  apply (prefix_code_list (λ _, True) finding_fields) in E as [Hf E];
    [|apply prefix_code_finding|split; [done|by apply Forall_true]..].
  split; [|done]. destruct s1 as [? ? ? [? ? i1] ? ? ? ? ? ? ? ? ?], s2 as [? ? ? [? ? i2] ? ? ? ? ? ? ? ? ?].
  cbn in *. subst. apply text_inj in E1, E2, E3, E4, E5, E6, E7, E8, E9, E10, E11, E12.
  apply actor_kind_name_inj in E5. apply authority_risk_name_inj in E11.
  apply review_status_name_inj in E12. subst. by destruct i1, i2.
Qed.

(** The binding of an evaluation names its subject, as [evaluate] makes it. *)
Definition evaluation_bound (e : PolicyEvaluation) : Prop :=
  pe_binding e =
    {| rb_principal := ps_principal (pe_subject e); rb_plan_id := ps_plan_id (pe_subject e);
       rb_request_id := ps_request_id (pe_subject e);
       rb_observed_evidence_id := ps_observed_evidence_id (pe_subject e);
       rb_provider := ps_provider (pe_subject e); rb_resource := ps_resource (pe_subject e);
       rb_capability := ps_capability (pe_subject e);
       rb_policy_id := rb_policy_id (pe_binding e);
       rb_policy_revision_id := rb_policy_revision_id (pe_binding e) |}.

Section bindings.
Context `{Crypto}.

Lemma review_bound principal plan c r :
  review_plan_with_classification principal plan c = Ok r → evaluation_bound (tpr_evaluation r).
Proof.
  intros (s & _ & [= <-])%bind_Ok. unfold review_subject_for_control, evaluation_bound. cbn.
  by case_bool_decide.
Qed.

(** The bytes that [digest_review] hashes. *)
Definition review_input (r : TrustedPolicyReview) : bytes :=
  frames (as_bytes "linura.control.trusted-review.v1" :: review_fields r).

(** A review digest stands for the review.  Two reviews with the same
    digest are the same evaluation, in the subject, its actor, risk, status,
    reason, changes and findings, the policy revision and the decision, or
    the two hash inputs are a SHA-256 collision. *)
Theorem review_digest_binding r1 r2 d
    (H1 : digest_review r1 = Ok d) (H2 : digest_review r2 = Ok d)
    (Hb1 : evaluation_bound (tpr_evaluation r1)) (Hb2 : evaluation_bound (tpr_evaluation r2))
    (Hs1 : subject_sized (pe_subject (tpr_evaluation r1)))
    (Hs2 : subject_sized (pe_subject (tpr_evaluation r2))) :
  r1 = r2 ∨ collides (review_input r1) (review_input r2).
Proof.
  destruct (canonical_digest_binding _ _ _ _ H1 H2) as [E|?]; [left|by right].
  unfold review_fields in E. apply prefix_code_subject in E as [Hs E]; [|done..].
  uncons E Hp. uncons E Hr. rename E into Hd. apply text_inj in Hp, Hr. apply decision_fields_inj in Hd.
  destruct r1 as [[s1 b1 d1]], r2 as [[s2 b2 d2]]. unfold evaluation_bound in *. cbn in *. subst s2 d2.
  f_equal. f_equal. rewrite Hb1, Hb2. congruence.
Qed.
End bindings.
