(* ===== verification/Protective.v ===== *)
(** * linura-control: the protective lock context

    Models [crates/linura-control/src/protective_lock_execution.rs]: the
    context of a protective lock, the exact request it makes, the checks of
    its initiator and of its consent, and the recognition of a retained
    protective request.  The settings repository is the class
    [ProtectiveSettings]. *)

From Stdlib Require Import ZArith Lia.
From stdpp Require Import base numbers gmap strings list fin_maps sorting.
From S2P Require Import Prelude Text Core Digest Ordered SessionIdentity Graph Planner Policy.
From S2P Require Import RiskReview Preview.

Set Default Goal Selector "!".

(** [ProtectiveLockSettingsControl::current]. *)
Class ProtectiveSettings (T : Type) := {
  settings_current : T → PrincipalId → SessionEpoch → result string (option ProtectiveLockSetting);
}.

Definition SessionEpochError_display (e : SessionEpochError) : string :=
  match e with
  | InvalidBootId => "boot identity must be a nonzero canonical lowercase UUID"
  | InvalidSessionId =>
      "session identity must be 1..64 ASCII letters, digits, '_' or '-', excluding ambient logind aliases"
  | InvalidCreationGeneration => "session creation generation must be nonzero"
  | InvalidLockGeneration => "native lock generation must be nonzero"
  | InvalidSecurityOwnerInvocation =>
      "security-owner invocation must be a nonzero canonical lowercase UUID"
  | InvalidResource => "session epoch resource is not canonical"
  end.

Definition SleepInvocationError_display (e : SleepInvocationError) : string :=
  "native sleep invocation or session scope is not canonical".

Record ProtectiveLockContext := {
  pc_setting : ProtectiveLockSetting;
  pc_event : SleepInvocationId;
  pc_lock : SessionLockId;
}.

#[export] Instance ProtectiveLockSetting_eq_dec : EqDecision ProtectiveLockSetting.
Proof. solve_decision. Defined.

Definition ActorId_new := typed_id_new "actor id".

Definition protective_actor : result string Actor :=
  id ← map_err ValidationError_display (ActorId_new PROTECTIVE_SLEEP_ACTOR);
  Ok {| actor_id := id; actor_kind := Service; actor_interactive := false |}.

Definition protective_context_from_current `{ProtectiveSettings T} (settings : T)
    (event : SleepInvocationId) (lock : SessionLockId) : result string ProtectiveLockContext :=
  owner ← map_err ValidationError_display
            (PrincipalId_new ("unix:uid:" +:+ u64_to_string (se_uid (sl_epoch lock))));
  current ← settings_current settings owner (sl_epoch lock);
  setting ← ok_or (s ← current; if pls_enabled s then Some s else None)
              "owner protective-lock consent is absent or revoked";
  let context := {| pc_setting := setting; pc_event := event; pc_lock := lock |} in
  map_err SleepInvocationError_display (protective_request_id event (sl_epoch lock));;
  Ok context.

Definition context_request (c : ProtectiveLockContext) : result string PlanDesiredStateRequest :=
  request_id ← map_err SleepInvocationError_display
                 (protective_request_id (pc_event c) (sl_epoch (pc_lock c)));
  provider ← map_err ValidationError_display (ProviderId_new "session-locker");
  resource ← map_err SessionEpochError_display (SessionLockId_resource_id (pc_lock c));
  capability ← map_err ValidationError_display (CapabilityId_new "session.secure-lock.observe");
  Ok {| pq_request_id := request_id; pq_provider := provider; pq_resource := resource;
        pq_observation_capability := capability;
        pq_reason :=
          {| sr_summary := "Protect the current owner session before this authenticated native suspend invocation";
             sr_intent_ids := [pls_intent (pc_setting c)]; sr_requirement_ids := [];
             sr_capability_ids := [] |};
        pq_desired_state := {["secure" := "true"]} |}.

Definition require_request (c : ProtectiveLockContext) (principal : string) (actor : Actor)
    (request : PlanDesiredStateRequest) : result string unit :=
  let changed : string := "protective-lock initiator or exact approved request changed" in
  reject_if (negb (bool_decide (principal = PROTECTIVE_SLEEP_PRINCIPAL))) changed;;
  expected_actor ← protective_actor;
  reject_if (negb (bool_decide (actor = expected_actor))) changed;;
  expected ← context_request c;
  reject_if (negb (bool_decide (request = expected))) changed.

Definition context_require_current `{ProtectiveSettings T} (c : ProtectiveLockContext) (settings : T)
    : result string unit :=
  current ← settings_current settings (pls_owner (pc_setting c)) (pls_epoch (pc_setting c));
  reject_if (negb (bool_decide (current = Some (pc_setting c))) || negb (pls_enabled (pc_setting c)))
    "protective-lock consent was revoked or superseded".

Definition retained_protective_request (principal : string) (request : PlanDesiredStateRequest) : bool :=
  if negb (bool_decide (principal = PROTECTIVE_SLEEP_PRINCIPAL))
     || negb (bool_decide (pq_provider request = "session-locker"))
     || negb (bool_decide (pq_observation_capability request = "session.secure-lock.observe"))
     || negb (bool_decide (pq_desired_state request = {["secure" := "true"]}))
     || negb (length (sr_intent_ids (pq_reason request)) =? 1)
     || negb (is_nil (sr_requirement_ids (pq_reason request)))
     || negb (is_nil (sr_capability_ids (pq_reason request))) then false
  else
    match SessionLockId_from_resource (pq_resource request) with
    | Err _ => false
    | Ok lock => is_ok (from_protective_request_id (pq_request_id request) (sl_epoch lock))
    end.

(** * linura-control: unchanged review semantics

    Models the comparison of two trusted reviews in
    [crates/linura-control/src/managed_lifecycle.rs]: everything an approver
    decided on, and the findings up to the identifier of the observation that
    the fresh review was made from. *)


(** ** [str::replace] *)

(** A byte that continues a UTF-8 character. *)
Definition utf8_continuation (a : Ascii.ascii) : bool :=
  let n := Ascii.N_of_ascii a in ((128 <=? n) && (n <? 192))%N.

(** The empty pattern matches at every character boundary. *)
Fixpoint replace_boundaries (s to : string) : string :=
  match s with
  | EmptyString => to
  | String a s' =>
      (if utf8_continuation a then EmptyString else to) +:+ String a (replace_boundaries s' to)
  end.

(** The bytes of the last match still to drop are [skip]. *)
Fixpoint replace_matches (skip : nat) (s from to : string) : string :=
  match s with
  | EmptyString => EmptyString
  | String a s' =>
      match skip with
      | S k => replace_matches k s' from to
      | O =>
          match strip_prefix from s with
          | Some _ => to +:+ replace_matches (String.length from - 1) s' from to
          | None => String a (replace_matches 0 s' from to)
          end
      end
  end.

Definition str_replace (s from to : string) : string :=
  match from with
  | EmptyString => replace_boundaries s to
  | _ => replace_matches 0 s from to
  end.

Example str_replace_ok : str_replace "seen ab, abab" "ab" "<e>" = "seen <e>, <e><e>".
Proof. reflexivity. Qed.

(** ** Reviews *)

Definition finding_unchanged (left right : PolicySubject) (l r : ReviewedFinding) : bool :=
  if negb (bool_decide (rf_code l = rf_code r)) || negb (bool_decide (rf_level l = rf_level r))
  then false
  else if bool_decide (rf_code l = "authoritative-observation") then
    bool_decide
      (str_replace (rf_message l) (ps_observed_evidence_id left) "<observation-evidence>" =
       str_replace (rf_message r) (ps_observed_evidence_id right) "<observation-evidence>")
  else bool_decide (rf_message l = rf_message r).

Definition review_findings_unchanged (left right : PolicySubject) : bool :=
  bool_decide (length (ps_findings left) = length (ps_findings right))
  && forallb (λ '(l, r), finding_unchanged left right l r)
       (zip (ps_findings left) (ps_findings right)).

Definition review_semantics_unchanged (left right : TrustedPolicyReview) : bool :=
  let ls := pe_subject (tpr_evaluation left) in
  let rs := pe_subject (tpr_evaluation right) in
  let lb := pe_binding (tpr_evaluation left) in
  let rb := pe_binding (tpr_evaluation right) in
  bool_decide (ps_principal ls = ps_principal rs)
  && bool_decide (ps_plan_id ls = ps_plan_id rs)
  && bool_decide (ps_request_id ls = ps_request_id rs)
  && bool_decide (ps_actor ls = ps_actor rs)
  && bool_decide (ps_provider ls = ps_provider rs)
  && bool_decide (ps_resource ls = ps_resource rs)
  && bool_decide (ps_capability ls = ps_capability rs)
  && bool_decide (ps_reason ls = ps_reason rs)
  && bool_decide (ps_prospective_risk ls = ps_prospective_risk rs)
  && bool_decide (ps_status ls = ps_status rs)
  && bool_decide (ps_changes ls = ps_changes rs)
  && review_findings_unchanged ls rs
  && bool_decide (rb_principal lb = rb_principal rb)
  && bool_decide (rb_plan_id lb = rb_plan_id rb)
  && bool_decide (rb_request_id lb = rb_request_id rb)
  && bool_decide (rb_provider lb = rb_provider rb)
  && bool_decide (rb_resource lb = rb_resource rb)
  && bool_decide (rb_capability lb = rb_capability rb)
  && bool_decide (rb_policy_id lb = rb_policy_id rb)
  && bool_decide (rb_policy_revision_id lb = rb_policy_revision_id rb)
  && bool_decide (pe_decision (tpr_evaluation left) = pe_decision (tpr_evaluation right)).
