(* ===== verification/DurableAuthority.v ===== *)
(** * linura-control: durable authority

    Models [crates/linura-control/src/durable_authority.rs]: the control that
    owns the approvals and the transaction store, and through which every
    candidate, approval, preparation, handoff, recovery and commit passes.

    An operation is a function of what lies outside (the failures and clock
    of the store's environment, the system clock, reading by reading) and of
    the world it changes: the control with its approvals, store and
    connection, and the previews it plans with.  The previews are the class
    [PlanPreviews]: freshly planned candidates from authoritative
    observations. *)

From Stdlib Require Import ZArith Lia.
From Stdlib Require Import Strings.Byte.
From stdpp Require Import base numbers gmap strings list fin_maps sorting.
From S2P Require Import Prelude Text Core Digest Binding Authority Sqlite Integrity.
From S2P Require Import Validation Store.
From S2P Require Import Ordered SessionIdentity Graph Planner Policy RiskReview ApprovalStore.
From S2P Require Import Preview Protective DurableDigest.

Set Default Goal Selector "!".

(** What the durable authority asks of [PlanPreviewControl]. *)
Class PlanPreviews (V : Type) := {
  authority_candidate : V → AuthenticatedPrincipal → Actor → PlanDesiredStateRequest →
    V * result PlanPreviewControlError (ReconciliationPlan * ObservationEnvelope);
  protective_authority_candidate : V → AuthenticatedPrincipal → Actor → PlanDesiredStateRequest →
    ProtectiveLockContext →
    V * result PlanPreviewControlError (ReconciliationPlan * ObservationEnvelope);
  protective_recovery_candidate : V → AuthenticatedPrincipal → Actor → PlanDesiredStateRequest →
    V * result PlanPreviewControlError (ReconciliationPlan * ObservationEnvelope);
}.

(** ** Data *)

Record DispatchPermit := {
  dp_transaction_id : TransactionId;
  dp_generation : Z;
  dp_state_version : Z;
  dp_binding_digest : ContentDigest;
  dp_authority_use_digest : ContentDigest;
}.

Definition from_commit (c : HandoffCommit) : DispatchPermit :=
  {| dp_transaction_id := hc_transaction_id c; dp_generation := hc_generation c;
     dp_state_version := hc_state_version c; dp_binding_digest := hc_binding_digest c;
     dp_authority_use_digest := hc_authority_use_digest c |}.

Record VerifiedDurableAuthority := {
  vd_snapshot : TransactionSnapshot;
  vd_principal : PrincipalId;
  vd_desired_state_digest : ContentDigest;
  vd_graph_digest : ContentDigest;
  vd_provenance_digest : ContentDigest;
}.

Record FreshRecoveryApproval := {
  fra_request_id : ApprovalRequestId;
  fra_approver : PolicyAuthenticatedApprover;
  fra_expires_at_unix_seconds : Z;
}.

Inductive RecoveryApproval :=
| ExistingApproval (evidence : option ApprovalEvidenceId)
| OnDemand (approval : FreshRecoveryApproval)
| ObserveOnly.

Record RiskProvenance := {
  rpv_risk : RiskClass;
  rpv_revision : string;
  rpv_rule_ids : list string;
}.
#[export] Instance RiskProvenance_eq_dec : EqDecision RiskProvenance.
Proof. solve_decision. Defined.

Record TrustedRiskFloor := {
  rfl_risk : RiskClass;
  rfl_rule_id : string;
}.

Record DurableAuthorityCandidate := {
  dc_principal : AuthenticatedPrincipal;
  dc_plan : ReconciliationPlan;
  dc_observation : ObservationEnvelope;
  dc_review : TrustedPolicyReview;
  dc_risk : RiskProvenance;
  dc_risk_floor : option TrustedRiskFloor;
  dc_request_digest : ContentDigest;
  dc_precondition_digest : ContentDigest;
  dc_observation_digest : ContentDigest;
  dc_review_digest : ContentDigest;
  dc_protective : option ProtectiveLockContext;
}.

Record PreparedDurableAuthority := {
  pd_candidate : DurableAuthorityCandidate;
  pd_binding : AuthorityBinding;
  pd_snapshot : TransactionSnapshot;
  pd_approval_evidence_id : option ApprovalEvidenceId;
  pd_handed_off : bool;
}.

Inductive DurableRecoveryOutcome :=
| DurableVerified (v : VerifiedDurableAuthority)
| DurableReprepared (p : PreparedDurableAuthority)
| DurableBlocked (s : TransactionSnapshot)
| DurableStillIndeterminate (s : TransactionSnapshot).

#[export] Instance TrustedPolicyReview_eq_dec : EqDecision TrustedPolicyReview.
Proof. solve_decision. Defined.

(** [transactions] with its connection. *)
Record DurableAuthorityControl := {
  dac_approvals : ApprovalReviewControl;
  dac_transactions : Store;
  dac_connection : Session;
  dac_authority_signer : TransactionAuthoritySigner;
  dac_last_authority_unix_ms : Z;
}.

Record World (V : Type) := {
  w_control : DurableAuthorityControl;
  w_previews : V;
  w_clock_reads : nat;
}.
Arguments w_control {V}.
Arguments w_previews {V}.
Arguments w_clock_reads {V}.

(** The system clock answers reading [n] with the milliseconds since the
    epoch, [None] before it. *)
Record Outside := {
  out_env : Env;
  out_clock : nat → option Z;
}.

(** ** The monad *)

Definition D (V A : Type) := Outside → World V → World V * result DurableAuthorityError A.

#[export] Instance D_ret V : MRet (D V) := λ A a _ w, (w, Ok a).
#[export] Instance D_bind V : MBind (D V) := λ A B f m out w,
  match m out w with
  | (w', Ok a) => f a out w'
  | (w', Err e) => (w', Err e)
  end.

Section operations.
Context {V : Type}.

Definition dfail {A} (e : DurableAuthorityError) : D V A := λ _ w, (w, Err e).
Definition dlift {A} (r : result DurableAuthorityError A) : D V A := λ _ w, (w, r).
Definition dreject (c : bool) (e : DurableAuthorityError) : D V unit := dlift (reject_if c e).
Definition dcontrol : D V DurableAuthorityControl := λ _ w, (w, Ok (w_control w)).

Definition with_control (w : World V) (c : DurableAuthorityControl) : World V :=
  {| w_control := c; w_previews := w_previews w; w_clock_reads := w_clock_reads w |}.
Definition with_store (c : DurableAuthorityControl) (st : Store) (s : Session) : DurableAuthorityControl :=
  {| dac_approvals := dac_approvals c; dac_transactions := st; dac_connection := s;
     dac_authority_signer := dac_authority_signer c;
     dac_last_authority_unix_ms := dac_last_authority_unix_ms c |}.
Definition with_approvals (c : DurableAuthorityControl) (a : ApprovalReviewControl)
    : DurableAuthorityControl :=
  {| dac_approvals := a; dac_transactions := dac_transactions c;
     dac_connection := dac_connection c; dac_authority_signer := dac_authority_signer c;
     dac_last_authority_unix_ms := dac_last_authority_unix_ms c |}.
Definition with_last_ms (c : DurableAuthorityControl) (ms : Z) : DurableAuthorityControl :=
  {| dac_approvals := dac_approvals c; dac_transactions := dac_transactions c;
     dac_connection := dac_connection c; dac_authority_signer := dac_authority_signer c;
     dac_last_authority_unix_ms := ms |}.

(** One reading of the system clock. *)
Definition read_clock : D V (option Z) := λ out w,
  ({| w_control := w_control w; w_previews := w_previews w; w_clock_reads := S (w_clock_reads w) |},
   Ok (out_clock out (w_clock_reads w))).

Definition update_control (f : DurableAuthorityControl → DurableAuthorityControl) : D V unit := λ _ w,
  (with_control w (f (w_control w)), Ok tt).

Definition authority_now_unix_ms : D V Z :=
  ms ← read_clock;
  sampled ← dlift (ok_or (ms ← ms; if (ms <=? u64_max)%Z then Some ms else None)
                     DurableClockUnavailable);
  c ← dcontrol;
  dreject (sampled <? dac_last_authority_unix_ms c)%Z DurableClockRollback;;
  update_control (λ c, with_last_ms c sampled);;
  mret sampled.

(** [SystemApprovalClock::now_unix_seconds]. *)
Definition approval_sample (ms : option Z) : result ApprovalControlError Z :=
  match ms with Some ms => Ok (ms / 1000)%Z | None => Err ClockUnavailable end.

Section crypto.
Context `{Crypto} `{Migrations}.

(** A call of the transaction store. *)
Definition transactions {A} (m : Store → M A) : D V A := λ out w,
  let c := w_control w in
  match m (dac_transactions c) (out_env out) (dac_connection c) with
  | (s, r) =>
      (with_control w (with_store c (dac_transactions c) s),
       map_err (λ e, DurableTransaction (TransactionStoreError_display e)) r)
  end.

(** [abort_prepared] takes the store by [&mut]. *)
Definition transactions_abort (r : AbortRequest) : D V TransactionSnapshot := λ out w,
  let c := w_control w in
  match abort_prepared (dac_transactions c) r (out_env out) (dac_connection c) with
  | (s, Ok (st, snapshot)) => (with_control w (with_store c st s), Ok snapshot)
  | (s, Err e) =>
      (with_control w (with_store c (dac_transactions c) s),
       Err (DurableTransaction (TransactionStoreError_display e)))
  end.

(** *** Derived [Debug] text of errors *)

Definition ValidationError_debug (e : ValidationError) : string :=
  match e with
  | Empty label => "Empty(" +:+ debug_str label +:+ ")"
  | TooLong label => "TooLong(" +:+ debug_str label +:+ ")"
  | ControlCharacter label => "ControlCharacter(" +:+ debug_str label +:+ ")"
  | MissingSemanticOrigin => "MissingSemanticOrigin"
  | DuplicateSemanticOrigin kind => "DuplicateSemanticOrigin(" +:+ debug_str kind +:+ ")"
  end.

Definition ApprovalClass_debug (c : ApprovalClass) : string :=
  match c with
  | InteractiveUser => "InteractiveUser"
  | SessionOwnerAuthentication => "SessionOwnerAuthentication"
  | Administrator => "Administrator"
  | DestructiveAction => "DestructiveAction"
  end.

Definition PolicyApprovalIssueError_debug (e : PolicyApprovalIssueError) : string :=
  match e with
  | IssueRequirement NotRequired => "Requirement(NotRequired)"
  | IssueRequirement NotApprovable => "Requirement(NotApprovable)"
  | IssueEvidence NonHumanApprover => "Evidence(NonHumanApprover)"
  | IssueEvidence (MissingApprovalClass class) =>
      "Evidence(MissingApprovalClass(" +:+ ApprovalClass_debug class +:+ "))"
  | IssueEvidence IssueInvalidValidityWindow => "Evidence(InvalidValidityWindow)"
  | IssueEvidence ValidityWindowTooLong => "Evidence(ValidityWindowTooLong)"
  end.

Definition ApprovalControlError_debug (e : ApprovalControlError) : string :=
  match e with
  | IssueError e => "Issue(" +:+ PolicyApprovalIssueError_debug e +:+ ")"
  | InvalidEvidenceId e => "InvalidEvidenceId(" +:+ ValidationError_debug e +:+ ")"
  | ApprovalIdempotencyConflict => "IdempotencyConflict"
  | ApprovalStore.CapacityExceeded => "CapacityExceeded"
  | EntryTooLarge => "EntryTooLarge"
  | TotalCapacityExceeded => "TotalCapacityExceeded"
  | TombstoneCapacityExceeded => "TombstoneCapacityExceeded"
  | TombstoneTotalCapacityExceeded => "TombstoneTotalCapacityExceeded"
  | SequenceExhausted => "SequenceExhausted"
  | EvidenceNotFound => "EvidenceNotFound"
  | RevokerNotAuthorized => "RevokerNotAuthorized"
  | ClockUnavailable => "ClockUnavailable"
  | ClockRollback => "ClockRollback"
  end.

Definition PolicySubjectError_debug (e : PolicySubjectError) : string :=
  match e with
  | InvalidPrincipal reason => "InvalidPrincipal(" +:+ debug_str reason +:+ ")"
  | InvalidSubject reason => "InvalidSubject(" +:+ debug_str reason +:+ ")"
  end.

Definition map_approval_error (e : ApprovalControlError) : DurableAuthorityError :=
  DurableApproval (ApprovalControlError_debug e).
Definition of_preview (e : PlanPreviewControlError) : DurableAuthorityError :=
  DurablePreview (PlanPreviewControlError_display e).
Definition of_observation (e : ObservationValidationError) : DurableAuthorityError :=
  DurablePreview (ObservationValidationError_display e).
Definition of_subject (e : PolicySubjectError) : DurableAuthorityError :=
  DurablePreview (PolicySubjectError_debug e).

(** A call of the approvals with a reading of their clock. *)
Definition approvals {A}
    (f : ApprovalReviewControl → result ApprovalControlError Z →
         ApprovalReviewControl * result ApprovalControlError A) : D V A :=
  ms ← read_clock;
  c ← dcontrol;
  let '(a, r) := f (dac_approvals c) (approval_sample ms) in
  update_control (λ c, with_approvals c a);;
  dlift (map_err map_approval_error r).

(** A call of the previews. *)
Definition previews {A} (f : V → V * result PlanPreviewControlError A) : D V A := λ _ w,
  match f (w_previews w) with
  | (v, r) =>
      ({| w_control := w_control w; w_previews := v; w_clock_reads := w_clock_reads w |},
       map_err of_preview r)
  end.

(** *** Risk and expiry *)

Definition classify_candidate_risk (plan : ReconciliationPlan) (risk_floor : option TrustedRiskFloor)
    : RiskClassification :=
  match risk_floor with
  | None => classify_plan_risk plan
  | Some floor => classify_plan_risk_with_floor plan (rfl_risk floor) (rfl_rule_id floor)
  end.

Definition risk_provenance (c : RiskClassification) : result DurableAuthorityError RiskProvenance :=
  match c with
  | Classified risk revision rule_ids =>
      Ok {| rpv_risk := risk; rpv_revision := revision; rpv_rule_ids := rule_ids |}
  | NotApplicable _ | Unclassified _ _ | DowngradeRejected _ _ _ _ => Err RiskNotClassified
  end.

Definition observation_expires_at_unix_ms (o : ObservationEnvelope) : result DurableAuthorityError Z :=
  ok_or (u64_checked_add (oe_observed_at_unix_ms o) (oe_valid_for_ms o)) DurableClockUnavailable.

(** [u64::checked_mul]. *)
Definition u64_checked_mul (x y : Z) : option Z :=
  if (x * y <=? u64_max)%Z then Some (x * y)%Z else None.

Definition exclusive_seconds_to_last_valid_unix_ms (seconds : Z) : result DurableAuthorityError Z :=
  ok_or (ms ← u64_checked_mul seconds 1000; u64_checked_sub ms 1) DurableClockUnavailable.

Definition authority_expires_at_unix_ms (o : ObservationEnvelope) (b : AuthorityBinding)
    : result DurableAuthorityError Z :=
  observation_expiry ← observation_expires_at_unix_ms o;
  match ab_authorization b with
  | PolicyAllow => Ok observation_expiry
  | Binding.Approval approval =>
      approval_expiry ←
        exclusive_seconds_to_last_valid_unix_ms (aa_expires_at_unix_seconds approval);
      Ok (Z.min observation_expiry approval_expiry)
  end.

Definition verified_commit_digests (anchor : RecoveryAnchor) (plan : ReconciliationPlan)
    (observation_digest : ContentDigest) : ContentDigest * ContentDigest * ContentDigest :=
  (ra_request_digest anchor,
   digest_parts "linura.control.verified-graph.v1"
     [as_bytes (rp_id plan); as_bytes (rp_provider plan); as_bytes (rp_resource plan);
      as_bytes (ra_precondition_digest anchor); as_bytes observation_digest],
   digest_parts "linura.control.verified-provenance.v1"
     [as_bytes (ts_transaction_id (ra_snapshot anchor));
      as_bytes (ts_binding_digest (ra_snapshot anchor)); as_bytes (ra_request_digest anchor);
      as_bytes (ra_precondition_digest anchor); as_bytes observation_digest]).

(** *** Review of a candidate *)

Definition review_candidate (principal : AuthenticatedPrincipal) (plan : ReconciliationPlan)
    (classification : RiskClassification) (protective : option ProtectiveLockContext)
    : result DurableAuthorityError TrustedPolicyReview :=
  map_err of_subject
    match protective with
    | Some c =>
        review_protective_plan principal plan classification (pc_setting c) (pc_event c) (pc_lock c)
    | None => review_plan_with_classification principal plan classification
    end.

(** [matches!(decision, Deny | Blocked) || status != ChangeProposed || has_blockers]. *)
Definition review_refused (r : TrustedPolicyReview) : bool :=
  let subject := pe_subject (tpr_evaluation r) in
  match pe_decision (tpr_evaluation r) with
  | Deny _ | DecisionBlocked _ => true
  | Allow | RequireApproval _ _ => false
  end
  || negb (bool_decide (ps_status subject = ReviewChangeProposed))
  || PolicySubject_has_blockers subject.

Definition review_risk (r : TrustedPolicyReview) : RiskClass :=
  ps_prospective_risk (pe_subject (tpr_evaluation r)).

(** [observation.require_current(now)?] with its error as a planning error. *)
Definition observation_current (o : ObservationEnvelope) (now_unix_ms : Z) : D V unit :=
  dlift (map_err of_observation (require_current o now_unix_ms)).
Definition observation_valid (o : ObservationEnvelope) (plan : ReconciliationPlan) : D V unit :=
  dlift (map_err of_observation
           (ObservationEnvelope_validate o (rp_provider plan) (rp_resource plan)
              (rp_observation_capability plan))).

(** *** Approvals *)

Definition issue_approval (request_id : ApprovalRequestId) (candidate : DurableAuthorityCandidate)
    (approver : PolicyAuthenticatedApprover) (expires_at_unix_seconds : Z)
    : D V PolicyApprovalEvidence :=
  approvals (λ a sample,
    issue a sample request_id (dc_review candidate) approver expires_at_unix_seconds).

Definition revoke_approval (evidence_id : ApprovalEvidenceId) (revoker : PolicyAuthenticatedApprover)
    : D V unit :=
  approvals (λ a sample, revoke a sample evidence_id revoker).

(** *** Revalidation *)

(** The basis a review's decision gives, with the approval validated now. *)
Definition authorization_basis (review : TrustedPolicyReview)
    (approval_evidence_id : option ApprovalEvidenceId) : D V AuthorizationBasis :=
  match pe_decision (tpr_evaluation review) with
  | Allow =>
      dreject (bool_decide (is_Some approval_evidence_id)) UnexpectedApproval;;
      mret PolicyAllow
  | RequireApproval class _ =>
      evidence_id ← dlift (ok_or approval_evidence_id MissingApproval);
      validation ← approvals (λ a sample, validate a sample evidence_id review);
      dreject (negb (bool_decide (validation = Satisfied))) (ApprovalUnsatisfied validation);;
      c ← dcontrol;
      evidence ← dlift (ok_or (ApprovalReviewControl_get (dac_approvals c) evidence_id)
                          MissingApproval);
      authority ← dlift (map_err of_validation
        (ApprovalAuthority_try_new (ae_id evidence) (ae_request_id evidence) (ae_approver evidence)
           (approval_class_name class) (ae_issued_at_unix_seconds evidence)
           (ae_expires_at_unix_seconds evidence)));
      mret (Binding.Approval authority)
  | Deny _ | DecisionBlocked _ => dfail CandidateBlocked
  end.

Section settings.
Context `{ProtectiveSettings T}.

Definition revalidate_and_bind (candidate : DurableAuthorityCandidate)
    (approval_evidence_id : option ApprovalEvidenceId) (now_unix_ms : Z) (settings : option T)
    : D V AuthorityBinding :=
  match dc_protective candidate, settings with
  | Some context, Some settings => dlift (map_err DurablePreview (context_require_current context settings))
  | None, None => mret tt
  | _, _ => dfail AuthorityChanged
  end;;
  observation_current (dc_observation candidate) now_unix_ms;;
  observation_valid (dc_observation candidate) (dc_plan candidate);;
  observation_digest ← dlift (digest_observation (dc_observation candidate));
  dreject (negb (bool_decide (observation_digest = dc_observation_digest candidate))) AuthorityChanged;;
  let classification := classify_candidate_risk (dc_plan candidate) (dc_risk_floor candidate) in
  risk ← dlift (risk_provenance classification);
  dreject (negb (bool_decide (risk = dc_risk candidate))) AuthorityChanged;;
  review ← dlift (review_candidate (dc_principal candidate) (dc_plan candidate) classification
                    (dc_protective candidate));
  dreject (negb (bool_decide (review_risk review = rpv_risk risk))) AuthorityChanged;;
  review_digest ← dlift (digest_review review);
  dreject (negb (bool_decide (review_digest = dc_review_digest candidate))) AuthorityChanged;;
  dreject (negb (bool_decide (review = dc_review candidate))) AuthorityChanged;;
  authorization ← authorization_basis review approval_evidence_id;
  let subject := pe_subject (tpr_evaluation review) in
  let binding := pe_binding (tpr_evaluation review) in
  principal ← dlift (map_err (λ e, DurablePreview (ValidationError_display e))
                       (PrincipalId_new (dc_principal candidate)));
  dlift (map_err of_validation
    (AuthorityBinding_try_new principal (ps_request_id subject) (ps_plan_id subject)
       (dc_request_digest candidate) (dc_precondition_digest candidate)
       (dc_observation_digest candidate) (ps_provider subject) (ps_resource subject)
       (ps_capability subject) (rb_policy_id binding) (rb_policy_revision_id binding)
       (rpv_risk (dc_risk candidate)) (rpv_revision (dc_risk candidate))
       (rpv_rule_ids (dc_risk candidate)) (dc_review_digest candidate) authorization)).

(** *** Preparation *)

Definition prepare_inner (candidate : DurableAuthorityCandidate)
    (approval_evidence_id : option ApprovalEvidenceId) (settings : option T)
    : D V PreparedDurableAuthority :=
  now_unix_ms ← authority_now_unix_ms;
  binding ← revalidate_and_bind candidate approval_evidence_id now_unix_ms settings;
  outcome ← transactions (λ st, prepare st binding);
  let snapshot := match outcome with Created s | Existing s => s end in
  dreject (negb (bool_decide (ts_binding_digest snapshot = ab_digest binding))
           || negb (bool_decide (ts_principal snapshot = ab_principal binding))
           || negb (bool_decide (ts_request_id snapshot = ab_request_id binding)))
    AuthorityChanged;;
  mret {| pd_candidate := candidate; pd_binding := binding; pd_snapshot := snapshot;
          pd_approval_evidence_id := approval_evidence_id; pd_handed_off := false |}.

(** *** Handoff *)

(** With the prepared authority it marks; an error leaves it as it was. *)
Definition handoff_inner (principal : AuthenticatedPrincipal) (prepared : PreparedDurableAuthority)
    (settings : option T) : D V (DispatchPermit * PreparedDurableAuthority) :=
  dreject (pd_handed_off prepared) AlreadyHandedOff;;
  dreject (negb (bool_decide (principal = dc_principal (pd_candidate prepared)))
           || negb (bool_decide (principal = ab_principal (pd_binding prepared)))
           || negb (bool_decide (principal = ts_principal (pd_snapshot prepared))))
    AuthorityChanged;;
  now_unix_ms ← authority_now_unix_ms;
  current ← revalidate_and_bind (pd_candidate prepared) (pd_approval_evidence_id prepared)
              now_unix_ms settings;
  dreject (negb (bool_decide (ab_digest current = ab_digest (pd_binding prepared)))) AuthorityChanged;;
  durable ← transactions (λ st, snapshot st (ts_transaction_id (pd_snapshot prepared)));
  dreject (negb (bool_decide (durable = pd_snapshot prepared))) AuthorityChanged;;
  authority_use_digest ← dlift (digest_authority_use durable now_unix_ms);
  expires_at_unix_ms ←
    dlift (authority_expires_at_unix_ms (dc_observation (pd_candidate prepared)) current);
  c ← dcontrol;
  request ← dlift (map_err of_validation
    (authorize_handoff (dac_authority_signer c) durable authority_use_digest now_unix_ms
       expires_at_unix_ms));
  commit ← transactions (λ st, handoff st request);
  mret (from_commit commit,
        {| pd_candidate := pd_candidate prepared; pd_binding := pd_binding prepared;
           pd_snapshot := pd_snapshot prepared;
           pd_approval_evidence_id := pd_approval_evidence_id prepared; pd_handed_off := true |}).

(** *** Candidates *)

Context `{PlanPreviews V}.

Definition candidate_inner (principal : AuthenticatedPrincipal) (actor : Actor)
    (request : PlanDesiredStateRequest) (risk_floor : option TrustedRiskFloor)
    (protective : option ProtectiveLockContext) : D V DurableAuthorityCandidate :=
  request_digest ← dlift (digest_request request);
  planned ← previews (λ v,
    match protective with
    | Some context => protective_authority_candidate v principal actor request context
    | None => authority_candidate v principal actor request
    end);
  let '(plan, observation) := planned in
  dreject (negb (bool_decide (rp_status plan = ChangeProposed)) || is_nil (rp_changes plan)
           || execution_authorized plan) CandidateNotMutation;;
  let classification := classify_candidate_risk plan risk_floor in
  risk ← dlift (risk_provenance classification);
  review ← dlift (review_candidate principal plan classification protective);
  dreject (negb (bool_decide (review_risk review = rpv_risk risk))) AuthorityChanged;;
  dreject (review_refused review) CandidateBlocked;;
  precondition_digest ← dlift (digest_plan_precondition plan);
  observation_digest ← dlift (digest_observation observation);
  review_digest ← dlift (digest_review review);
  mret {| dc_principal := principal; dc_plan := plan; dc_observation := observation;
          dc_review := review; dc_risk := risk; dc_risk_floor := risk_floor;
          dc_request_digest := request_digest; dc_precondition_digest := precondition_digest;
          dc_observation_digest := observation_digest; dc_review_digest := review_digest;
          dc_protective := protective |}.

Definition candidate (principal : AuthenticatedPrincipal) (actor : Actor)
    (request : PlanDesiredStateRequest) : D V DurableAuthorityCandidate :=
  candidate_inner principal actor request None None.
Definition candidate_with_risk_floor (principal : AuthenticatedPrincipal) (actor : Actor)
    (request : PlanDesiredStateRequest) (risk_floor : TrustedRiskFloor)
    : D V DurableAuthorityCandidate :=
  candidate_inner principal actor request (Some risk_floor) None.
Definition protective_candidate (principal : AuthenticatedPrincipal) (actor : Actor)
    (context : ProtectiveLockContext) (risk_floor : TrustedRiskFloor)
    : D V DurableAuthorityCandidate :=
  request ← dlift (map_err DurablePreview (context_request context));
  candidate_inner principal actor request (Some risk_floor) (Some context).

Definition validate_protective_now (candidate : DurableAuthorityCandidate) (settings : T) : D V unit :=
  context ← dlift (ok_or (dc_protective candidate) AuthorityChanged);
  dlift (map_err DurablePreview (context_require_current context settings));;
  risk_floor ← dlift (ok_or (dc_risk_floor candidate) AuthorityChanged);
  fresh ← protective_candidate (dc_principal candidate) (rp_actor (dc_plan candidate)) context
            risk_floor;
  dreject (negb (review_semantics_unchanged (dc_review candidate) (dc_review fresh))
           || negb (bool_decide (dc_risk fresh = dc_risk candidate))) AuthorityChanged.

Definition prepare_authority (candidate : DurableAuthorityCandidate)
    (approval_evidence_id : option ApprovalEvidenceId) : D V PreparedDurableAuthority :=
  prepare_inner candidate approval_evidence_id None.
Definition prepare_protective (candidate : DurableAuthorityCandidate) (settings : T)
    : D V PreparedDurableAuthority :=
  validate_protective_now candidate settings;;
  prepare_inner candidate None (Some settings).

Definition handoff_authority (principal : AuthenticatedPrincipal) (prepared : PreparedDurableAuthority)
    : D V (DispatchPermit * PreparedDurableAuthority) :=
  handoff_inner principal prepared None.
Definition handoff_protective (principal : AuthenticatedPrincipal)
    (prepared : PreparedDurableAuthority) (settings : T)
    : D V (DispatchPermit * PreparedDurableAuthority) :=
  validate_protective_now (pd_candidate prepared) settings;;
  handoff_inner principal prepared (Some settings).
End settings.
End crypto.
End operations.

(** * linura-control: durable recovery and commit

    Models the rest of [crates/linura-control/src/durable_authority.rs]: the
    retirement of prepared generations at a restart, the classification of an
    indeterminate generation from a fresh observation, and the commit of
    verified material. *)

Section recovery.
Context {V : Type} `{Crypto} `{Migrations}.

(** ** Restart *)

Definition restart_reason : ContentDigest :=
  digest_parts "linura.control.restart-prepared-abort.v1"
    [as_bytes "process-local mutable authority state was lost at restart"].

Fixpoint abort_each (reason : ContentDigest) (l : list TransactionSnapshot)
    : D V (list TransactionSnapshot) :=
  match l with
  | [] => mret []
  | s :: rest =>
      aborted ← transactions_abort
        {| ar_transaction_id := ts_transaction_id s;
           ar_expected_generation := ts_current_generation s;
           ar_expected_state_version := ts_state_version s; ar_reason_digest := reason |};
      retired ← abort_each reason rest;
      mret (aborted :: retired)
  end.

Definition abort_prepared_after_restart : D V (list TransactionSnapshot) :=
  prepared ← transactions (λ st, list_state st Prepared);
  abort_each restart_reason prepared.

(** [new]: the world holds the new control, on the store's connection. *)
Definition DurableAuthorityControl_new (store : Store) (connection : Session)
    (authority_signer : TransactionAuthoritySigner) : D V unit :=
  update_control (λ _,
    {| dac_approvals := ApprovalReviewControl_with_clock; dac_transactions := store;
       dac_connection := connection; dac_authority_signer := authority_signer;
       dac_last_authority_unix_ms := 0 |});;
  abort_prepared_after_restart;;
  mret tt.

(** ** Recovery *)

Definition as_principal (principal : AuthenticatedPrincipal) : D V PrincipalId :=
  dlift (map_err (λ e, DurablePreview (ValidationError_display e)) (PrincipalId_new principal)).

(** [authorize_recovery] and [recover]. *)
Definition recover_with (anchor : RecoveryAnchor) (resolution : RecoveryResolution)
    (authorized_at_unix_ms : Z) (expires_at_unix_ms : result DurableAuthorityError Z)
    : D V RecoveryOutcome :=
  expires_at_unix_ms ← dlift expires_at_unix_ms;
  c ← dcontrol;
  recovery ← dlift (map_err of_validation
    (authorize_recovery (dac_authority_signer c) (ra_snapshot anchor) resolution
       authorized_at_unix_ms expires_at_unix_ms));
  transactions (λ st, recover st recovery).

(** The resolution [Ambiguous] from a current observation. *)
Definition recover_ambiguous (anchor : RecoveryAnchor) (observation : ObservationEnvelope)
    (observation_digest : ContentDigest) : D V DurableRecoveryOutcome :=
  authorized_at_unix_ms ← authority_now_unix_ms;
  observation_current observation authorized_at_unix_ms;;
  outcome ← recover_with anchor (Ambiguous observation_digest) authorized_at_unix_ms
              (observation_expires_at_unix_ms observation);
  match outcome with
  | OutStillIndeterminate snapshot => mret (DurableStillIndeterminate snapshot)
  | _ => dfail AuthorityChanged
  end.

(** A current observation, sampled twice, and the second sample. *)
Definition twice_current (observation : ObservationEnvelope) : D V Z :=
  first ← authority_now_unix_ms;
  observation_current observation first;;
  authorized_at_unix_ms ← authority_now_unix_ms;
  observation_current observation authorized_at_unix_ms;;
  mret authorized_at_unix_ms.

Definition recover_verified (anchor : RecoveryAnchor) (plan : ReconciliationPlan)
    (observation : ObservationEnvelope) (observation_digest : ContentDigest)
    : D V DurableRecoveryOutcome :=
  authorized_at_unix_ms ← twice_current observation;
  let '(desired_state_digest, graph_digest, provenance_digest) :=
    verified_commit_digests anchor plan observation_digest in
  outcome ← recover_with anchor
    (IntendedStateVerified observation_digest desired_state_digest graph_digest provenance_digest)
    authorized_at_unix_ms (observation_expires_at_unix_ms observation);
  match outcome with
  | OutVerified snapshot =>
      material ← transactions (λ st, verified_commit_material st (ts_transaction_id snapshot));
      dreject (negb (bool_decide (vcm_snapshot material = snapshot))
               || negb (bool_decide (vcm_desired_state_digest material = desired_state_digest))
               || negb (bool_decide (vcm_graph_digest material = graph_digest))
               || negb (bool_decide (vcm_provenance_digest material = provenance_digest)))
        AuthorityChanged;;
      mret (DurableVerified
        {| vd_snapshot := vcm_snapshot material; vd_principal := ts_principal (vcm_snapshot material);
           vd_desired_state_digest := vcm_desired_state_digest material;
           vd_graph_digest := vcm_graph_digest material;
           vd_provenance_digest := vcm_provenance_digest material |})
  | _ => dfail AuthorityChanged
  end.

Definition recover_conflicting (anchor : RecoveryAnchor) (observation : ObservationEnvelope)
    (observation_digest : ContentDigest) : D V DurableRecoveryOutcome :=
  authorized_at_unix_ms ← twice_current observation;
  outcome ← recover_with anchor (ConflictingState observation_digest) authorized_at_unix_ms
              (observation_expires_at_unix_ms observation);
  match outcome with
  | OutBlocked snapshot => mret (DurableBlocked snapshot)
  | _ => dfail AuthorityChanged
  end.

(** The evidence a recovery is authorized with. *)
Definition recovery_evidence (approval : RecoveryApproval) (candidate : DurableAuthorityCandidate)
    : D V (option ApprovalEvidenceId) :=
  match approval with
  | ObserveOnly => dfail AuthorityChanged
  | ExistingApproval existing => mret existing
  | OnDemand approval =>
      match pe_decision (tpr_evaluation (dc_review candidate)) with
      | Allow => mret None
      | RequireApproval _ _ =>
          evidence ← issue_approval (fra_request_id approval) candidate (fra_approver approval)
                       (fra_expires_at_unix_seconds approval);
          mret (Some (ae_id evidence))
      | Deny _ | DecisionBlocked _ => dfail CandidateBlocked
      end
  end.

(** A recovery candidate is not protective, and no settings are passed. *)
Definition recover_absent `{ProtectiveSettings T} (anchor : RecoveryAnchor)
    (candidate : DurableAuthorityCandidate) (approval : RecoveryApproval) : D V DurableRecoveryOutcome :=
  approval_evidence_id ← recovery_evidence approval candidate;
  now_unix_ms ← authority_now_unix_ms;
  next_binding ← revalidate_and_bind candidate approval_evidence_id now_unix_ms (@None T);
  authorized_at_unix_ms ← authority_now_unix_ms;
  observation_current (dc_observation candidate) authorized_at_unix_ms;;
  outcome ← recover_with anchor (IntendedEffectAbsent (dc_observation_digest candidate) next_binding)
              authorized_at_unix_ms
              (authority_expires_at_unix_ms (dc_observation candidate) next_binding);
  match outcome with
  | OutReprepared snapshot =>
      mret (DurableReprepared
        {| pd_candidate := candidate; pd_binding := next_binding; pd_snapshot := snapshot;
           pd_approval_evidence_id := approval_evidence_id; pd_handed_off := false |})
  | _ => dfail AuthorityChanged
  end.

Definition recover_change_proposed `{ProtectiveSettings T} (anchor : RecoveryAnchor)
    (principal : AuthenticatedPrincipal) (plan : ReconciliationPlan)
    (observation : ObservationEnvelope) (observation_digest : ContentDigest)
    (approval : RecoveryApproval) (risk_floor : option TrustedRiskFloor)
    : D V DurableRecoveryOutcome :=
  precondition_digest ← dlift (digest_plan_precondition plan);
  if negb (bool_decide (precondition_digest = ra_precondition_digest anchor))
  then recover_conflicting anchor observation observation_digest
  else
    match approval with
    | ObserveOnly => recover_ambiguous anchor observation observation_digest
    | _ =>
        let classification := classify_candidate_risk plan risk_floor in
        risk ← dlift (risk_provenance classification);
        review ← dlift (map_err of_subject
                          (review_plan_with_classification principal plan classification));
        dreject (negb (bool_decide (review_risk review = rpv_risk risk))) AuthorityChanged;;
        if review_refused review then recover_ambiguous anchor observation observation_digest
        else
          review_digest ← dlift (digest_review review);
          recover_absent (T := T) anchor
            {| dc_principal := principal; dc_plan := plan; dc_observation := observation;
               dc_review := review; dc_risk := risk; dc_risk_floor := risk_floor;
               dc_request_digest := ra_request_digest anchor;
               dc_precondition_digest := precondition_digest;
               dc_observation_digest := observation_digest; dc_review_digest := review_digest;
               dc_protective := None |} approval
    end.

(** The anchor of the request's namespace with the request's own material. *)
Definition matching_anchor (principal_id : PrincipalId) (request : PlanDesiredStateRequest)
    (anchor : RecoveryAnchor) : D V unit :=
  dreject (negb (bool_decide (ts_principal (ra_snapshot anchor) = principal_id))
           || negb (bool_decide (ts_request_id (ra_snapshot anchor) = pq_request_id request)))
    RecoveryRequestMismatch;;
  request_digest ← dlift (digest_request request);
  dreject (negb (bool_decide (ra_request_digest anchor = request_digest))) RecoveryRequestMismatch.

Definition request_anchor (principal_id : PrincipalId) (request : PlanDesiredStateRequest)
    : D V RecoveryAnchor :=
  transactions (λ st, recovery_anchor st
    (TransactionId_for_namespace principal_id (pq_request_id request))).

Definition recover_indeterminate_inner `{ProtectiveSettings T} `{PlanPreviews V}
    (principal : AuthenticatedPrincipal) (actor : Actor) (request : PlanDesiredStateRequest)
    (approval : RecoveryApproval) (risk_floor : option TrustedRiskFloor)
    : D V DurableRecoveryOutcome :=
  principal_id ← as_principal principal;
  anchor ← request_anchor principal_id request;
  dreject (negb (bool_decide (ts_state (ra_snapshot anchor) = Indeterminate)))
    RecoveryNotIndeterminate;;
  matching_anchor principal_id request anchor;;
  let protective_recovery := retained_protective_request principal request in
  dreject (protective_recovery
           && match approval with ObserveOnly => false | _ => true end) AuthorityChanged;;
  planned ← previews (λ v,
    if protective_recovery then protective_recovery_candidate v principal actor request
    else authority_candidate v principal actor request);
  let '(plan, observation) := planned in
  observation_valid observation plan;;
  observation_digest ← dlift (digest_observation observation);
  match rp_status plan with
  | NoChange => recover_verified anchor plan observation observation_digest
  | ChangeProposed =>
      recover_change_proposed (T := T) anchor principal plan observation observation_digest approval
        risk_floor
  | Blocked => recover_ambiguous anchor observation observation_digest
  end.

Definition recover_indeterminate `{ProtectiveSettings T} `{PlanPreviews V}
    (principal : AuthenticatedPrincipal) (actor : Actor) (request : PlanDesiredStateRequest)
    (approval_evidence_id : option ApprovalEvidenceId) : D V DurableRecoveryOutcome :=
  recover_indeterminate_inner (T := T) principal actor request
    (ExistingApproval approval_evidence_id) None.
Definition recover_indeterminate_with_risk_floor `{ProtectiveSettings T} `{PlanPreviews V}
    (principal : AuthenticatedPrincipal) (actor : Actor) (request : PlanDesiredStateRequest)
    (approval_evidence_id : option ApprovalEvidenceId) (risk_floor : TrustedRiskFloor)
    : D V DurableRecoveryOutcome :=
  recover_indeterminate_inner (T := T) principal actor request
    (ExistingApproval approval_evidence_id) (Some risk_floor).
Definition recover_indeterminate_without_replay `{ProtectiveSettings T} `{PlanPreviews V}
    (principal : AuthenticatedPrincipal) (actor : Actor) (request : PlanDesiredStateRequest)
    (risk_floor : TrustedRiskFloor) : D V DurableRecoveryOutcome :=
  recover_indeterminate_inner (T := T) principal actor request ObserveOnly (Some risk_floor).
Definition recover_indeterminate_with_approver `{ProtectiveSettings T} `{PlanPreviews V}
    (principal : AuthenticatedPrincipal) (actor : Actor) (request : PlanDesiredStateRequest)
    (approval : FreshRecoveryApproval) : D V DurableRecoveryOutcome :=
  recover_indeterminate_inner (T := T) principal actor request (OnDemand approval) None.
Definition recover_indeterminate_with_approver_and_risk_floor `{ProtectiveSettings T}
    `{PlanPreviews V} (principal : AuthenticatedPrincipal) (actor : Actor)
    (request : PlanDesiredStateRequest) (approval : FreshRecoveryApproval)
    (risk_floor : TrustedRiskFloor) : D V DurableRecoveryOutcome :=
  recover_indeterminate_inner (T := T) principal actor request (OnDemand approval) (Some risk_floor).

(** ** Reads and commit *)

Definition durable_snapshot (id : TransactionId) : D V TransactionSnapshot :=
  transactions (λ st, snapshot st id).

Definition assert_request_matches (principal : AuthenticatedPrincipal)
    (request : PlanDesiredStateRequest) : D V unit :=
  principal_id ← as_principal principal;
  anchor ← request_anchor principal_id request;
  matching_anchor principal_id request anchor.

Definition durable_integrity_check : D V unit := transactions integrity_check.

Definition resume_verified (principal : AuthenticatedPrincipal) (id : TransactionId)
    : D V VerifiedDurableAuthority :=
  material ← transactions (λ st, verified_commit_material st id);
  dreject (negb (bool_decide (ts_state (vcm_snapshot material) = Verified))
           || negb (bool_decide (principal = ts_principal (vcm_snapshot material))))
    AuthorityChanged;;
  mret {| vd_snapshot := vcm_snapshot material;
          vd_principal := ts_principal (vcm_snapshot material);
          vd_desired_state_digest := vcm_desired_state_digest material;
          vd_graph_digest := vcm_graph_digest material;
          vd_provenance_digest := vcm_provenance_digest material |}.

Definition commit_verified (principal : AuthenticatedPrincipal) (verified : VerifiedDurableAuthority)
    : D V TransactionSnapshot :=
  dreject (negb (bool_decide (principal = vd_principal verified))
           || negb (bool_decide (principal = ts_principal (vd_snapshot verified)))
           || negb (bool_decide (ts_state (vd_snapshot verified) = Verified))) AuthorityChanged;;
  durable ← durable_snapshot (ts_transaction_id (vd_snapshot verified));
  dreject (negb (bool_decide (durable = vd_snapshot verified))) AuthorityChanged;;
  c ← dcontrol;
  request ← dlift (map_err of_validation
    (authorize_commit (dac_authority_signer c) durable (vd_desired_state_digest verified)
       (vd_graph_digest verified) (vd_provenance_digest verified)));
  transactions (λ st, commit st request).
End recovery.
