(* ===== verification/DurableInvariant.v ===== *)
(** * Every operation of the durable authority keeps its state well formed

    Triples for the monad of [DurableAuthority] with one fixed invariant,
    and that each operation of the control keeps it: the approvals are those
    of a run of the approval lifecycle, the store's database satisfies the
    store invariant. *)

From Stdlib Require Import ZArith Lia.
From Stdlib Require Import Strings.Byte.
From stdpp Require Import base numbers gmap strings list fin_maps sorting.
From S2P Require Import Prelude Text Core Digest Binding Authority Sqlite Integrity.
From S2P Require Import CryptoModel Validation Store Run Protocol.
From S2P Require Import StoreInvariant StoreWrites StoreRefine StoreSpec StoreReads.
From S2P Require Import Ordered SessionIdentity Graph Planner Policy RiskReview ApprovalStore.
From S2P Require Import RiskReviewFacts ApprovalInvariant ApprovalFacts.
From S2P Require Import Preview Protective DurableDigest.
From S2P Require Import DurableAuthority.

Set Default Goal Selector "!".

(** ** Triples *)

(** From a world that satisfies [I], [m] ends in one that does, and a value it
    returns satisfies [Q]. *)
Definition triple {V A} (out : Outside) (I : World V → Prop) (m : D V A) (Q : A → Prop) : Prop :=
  ∀ w, I w → I (fst (m out w)) ∧ ∀ a, snd (m out w) = Ok a → Q a.

Section triples.
Context {V : Type} {out : Outside} {I : World V → Prop}.

Lemma triple_ret {A} (a : A) (Q : A → Prop) : Q a → triple out I (mret a) Q.
Proof. intros Ha w Hw. split; [done|]. by intros ? [= <-]. Qed.

Lemma triple_bind {A B} (m : D V A) (f : A → D V B) (Q : A → Prop) (R : B → Prop) :
  triple out I m Q → (∀ a, Q a → triple out I (f a) R) → triple out I (m ≫= f) R.
Proof.
  intros Hm Hf w Hw. unfold mbind, D_bind. destruct (Hm w Hw) as [Hi Hq].
  destruct (m out w) as [w' [a|e]]; cbn in *; [|done]. by apply Hf; [apply Hq|].
Qed.

Lemma triple_weaken {A} (m : D V A) (Q R : A → Prop) :
  triple out I m Q → (∀ a, Q a → R a) → triple out I m R.
Proof. intros Hm HQR w Hw. destruct (Hm w Hw). naive_solver. Qed.

Lemma triple_dlift {A} (r : result DurableAuthorityError A) (Q : A → Prop) :
  (∀ a, r = Ok a → Q a) → triple out I (dlift r) Q.
Proof. by intros HQ w Hw. Qed.
Lemma triple_dfail {A} e (Q : A → Prop) : triple out I (dfail e) Q.
Proof. by intros w Hw. Qed.
Lemma triple_dreject c e : triple out I (dreject c e) (λ _, c = false).
Proof. apply triple_dlift. by intros a ?%reject_if_Ok. Qed.
Lemma triple_dcontrol : triple out I dcontrol (λ _, True).
Proof. by intros w Hw. Qed.
End triples.

(** Takes a computation apart at its binds, keeping nothing of the results
    but what a rejected condition says. *)
Ltac triple_step :=
  lazymatch goal with
  | |- triple _ _ (_ ≫= _) _ => eapply triple_bind; [|let a := fresh "a" in let Ha := fresh "Ha" in intros a Ha]
  | |- triple _ _ (mret _) _ => apply triple_ret
  | |- triple _ _ (dreject _ _) _ => apply triple_dreject
  | |- triple _ _ (dfail _) _ => apply triple_dfail
  | |- triple _ _ dcontrol _ => apply triple_dcontrol
  | |- triple _ _ (match ?x with _ => _ end) _ => destruct x eqn:?
  end.

(** One bind whose first computation is pure. *)
Ltac triple_next :=
  triple_step; [first [triple_step|by apply triple_dlift with (Q := λ _, True)]|].

(** ** The invariant *)

(** The clock's milliseconds are those of a duration whose seconds are a
    [u64]. *)
Definition out_ok (out : Outside) : Prop :=
  ∀ n ms, out_clock out n = Some ms → (0 ≤ ms < 1000 * 2 ^ 64)%Z.

Section durable.
Context `{CryptoLaws}.
Context {Mg : Migrations} {V : Type}.

Record durable_ok (w : World V) : Prop := {
  do_approvals : ∃ log, run (dac_approvals (w_control w)) log;
  do_limits : limits_ok (store_limits (dac_transactions (w_control w)));
  do_store : db_inv (dac_transactions (w_control w)) (sess_db (dac_connection (w_control w)));
}.

(** With a property of the store's database. *)
Definition durable_in (P : Database → Prop) (w : World V) : Prop :=
  durable_ok w ∧ P (sess_db (dac_connection (w_control w))).

(** A request of the store keeps the property. *)
Definition op_allowed (P : Database → Prop) (op : Operation) : Prop :=
  ∀ st db db', db_inv st db → op_effect st op db db' → P db → P db'.

(** What the constructors of identifiers and digests established. *)
Record candidate_ok (c : DurableAuthorityCandidate) : Prop := {
  co_request : RequestId_new (ps_request_id (pe_subject (tpr_evaluation (dc_review c))))
               = Ok (ps_request_id (pe_subject (tpr_evaluation (dc_review c))));
  co_digests : valid_digest (dc_request_digest c) ∧ valid_digest (dc_precondition_digest c) ∧
               valid_digest (dc_observation_digest c);
}.

(** A prepared authority is for the generation of its own binding. *)
Record prepared_ok (p : PreparedDurableAuthority) : Prop := {
  po_candidate : candidate_ok (pd_candidate p);
  po_binding : ts_binding_digest (pd_snapshot p) = ab_digest (pd_binding p);
}.

Definition recovered_ok (o : DurableRecoveryOutcome) : Prop :=
  match o with DurableReprepared p => prepared_ok p | _ => True end.

Definition not_reprepared (o : DurableRecoveryOutcome) : Prop :=
  match o with DurableReprepared _ => False | _ => True end.
Lemma not_reprepared_ok o : not_reprepared o → recovered_ok o.
Proof. by destruct o. Qed.

(** ** Steps *)

Context {out : Outside} (Hout : out_ok out) {P : Database → Prop}.

Lemma sample_ok_system n : sample_ok (approval_sample (out_clock out n)).
Proof.
  intros t. unfold approval_sample. destruct (out_clock out n) as [ms|] eqn:E; [|done].
  intros [= <-]. apply Hout in E. unfold is_u64, u64_max.
  pose proof (Z.div_lt_upper_bound ms 1000 (2 ^ 64)). pose proof (Z.div_pos ms 1000). lia.
Qed.

Lemma triple_read_clock : triple out (durable_in P) read_clock (λ ms, ∃ n, ms = out_clock out n).
Proof.
  intros w [[Ha Hl Hs] HP]. split; [by split; [constructor|]|]. cbn. intros a [= <-]. by eexists.
Qed.

Lemma triple_update (f : DurableAuthorityControl → DurableAuthorityControl) :
  (∀ c, dac_approvals (f c) = dac_approvals c ∧ dac_transactions (f c) = dac_transactions c ∧
        dac_connection (f c) = dac_connection c) →
  triple out (durable_in P) (update_control f) (λ _, True).
Proof.
  intros Hf w [[Ha Hl Hs] HP]. split; [|done]. cbn. destruct (Hf (w_control w)) as (E1 & E2 & E3).
  split; [constructor|]; cbn; by rewrite ?E1, ?E2, ?E3.
Qed.

Lemma triple_authority_now : triple out (durable_in P) authority_now_unix_ms (λ _, True).
Proof.
  unfold authority_now_unix_ms. triple_step; [apply triple_read_clock|].
  triple_step; [by apply triple_dlift with (Q := λ _, True)|]. repeat triple_step; [|done].
  by apply triple_update.
Qed.

Lemma triple_approvals {A}
    (f : ApprovalReviewControl → result ApprovalControlError Z →
         ApprovalReviewControl * result ApprovalControlError A) :
  (∀ a log sample, run a log → sample_ok sample → ∃ log', run (fst (f a sample)) log') →
  triple out (durable_in P) (approvals f) (λ _, True).
Proof.
  intros Hf. unfold approvals. triple_step; [apply triple_read_clock|].
  destruct Ha as [n ->]. intros w [[[log Ha] Hl Hs] HP].
  destruct (Hf _ _ _ Ha (sample_ok_system n)) as [log' Hr].
  unfold mbind, D_bind, dcontrol. cbn. destruct (f _ _) as [a' r]. cbn in *.
  split; [|done]. split; [|done]. constructor; cbn; [by exists log'|done..].
Qed.

Lemma triple_previews {A} (f : V → V * result PlanPreviewControlError A) (Q : A → Prop) :
  (∀ v a, snd (f v) = Ok a → Q a) → triple out (durable_in P) (previews f) Q.
Proof.
  intros HQ w [[Ha Hl Hs] HP]. unfold previews. specialize (HQ (w_previews w)).
  destruct (f (w_previews w)) as [v' r]. cbn in *. split; [by split; [constructor|]|].
  intros a Hr. apply HQ. by apply map_err_Ok in Hr.
Qed.

(** A read: the database stays, and what it returns of a well-formed one. *)
Lemma triple_read {A} (m : Store → M A) (Q : A → Prop) `{!∀ st, ReadOnlyM (m st)} :
  (∀ st env s s' a, db_inv st (sess_db s) → runs (m st) env s s' a → Q a) →
  triple out (durable_in P) (transactions m) Q.
Proof.
  intros HQ w [[Ha Hl Hs] HP]. unfold transactions.
  pose proof (readonly (m := m (dac_transactions (w_control w))) (out_env out)
    (dac_connection (w_control w))) as Hro.
  destruct (m _ _ _) as [s' r] eqn:E. cbn in *. split.
  - split; [constructor|]; cbn; [done|done|by rewrite Hro..].
  - intros a Hr%map_err_Ok. subst r. by eapply HQ.
Qed.

Lemma op_run_of {A} (m : M A) env s :
  (m;; mret tt) env s = (fst (m env s), match snd (m env s) with Ok _ => Ok tt | Err e => Err e end).
Proof. unfold mbind, M_bind. by destruct (m env s) as [? [?|?]]. Qed.

Lemma op_keeps st op env s :
  limits_ok (store_limits st) → db_inv st (sess_db s) → op_admissible op → op_allowed P op →
  P (sess_db s) →
  db_inv st (sess_db (fst (op_run st op env s))) ∧ P (sess_db (fst (op_run st op env s))).
Proof.
  intros Hl Hi Ha Hop HP. destruct (op_run st op env s) as [s' r] eqn:E.
  destruct (op_run_effect _ _ _ _ _ _ Hl Hi Ha E) as [[Hd _]|He]; cbn; [by rewrite Hd|].
  split; [apply (oe_inv _ _ _ _ He)|by eapply Hop].
Qed.

(** A write of the store. *)
Lemma triple_write {A} (m : Store → M A) op (Q : A → Prop) :
  (∀ st, op_run st op = (m st;; mret tt)) → op_admissible op → op_allowed P op →
  (∀ st env s s' a, limits_ok (store_limits st) → db_inv st (sess_db s) →
     runs (m st) env s s' a → Q a) →
  triple out (durable_in P) (transactions m) Q.
Proof.
  intros Hop Hadm Hall HQ w [[Ha Hl Hs] HP]. unfold transactions.
  pose proof (op_keeps _ op (out_env out) _ Hl Hs Hadm Hall HP) as Hk. rewrite Hop, op_run_of in Hk.
  destruct (m _ _ _) as [s' r] eqn:E. cbn in *. split; [split; [constructor|]; by try apply Hk|].
  intros a Hr%map_err_Ok. subst r. exact (HQ _ _ _ _ _ Hl Hs E).
Qed.
Lemma triple_op {A} (m : Store → M A) op :
  (∀ st, op_run st op = (m st;; mret tt)) → op_admissible op → op_allowed P op →
  triple out (durable_in P) (transactions m) (λ _, True).
Proof. intros Hop Hadm Hall. apply (triple_write _ op); by intros. Qed.

Lemma db_inv_after_abort st db : db_inv (store_after_abort st) db ↔ db_inv st db.
Proof. split; intros []; by constructor. Qed.

Lemma triple_abort r :
  valid_digest (ar_reason_digest r) → op_allowed P (OpAbort r) →
  triple out (durable_in P) (transactions_abort r) (λ _, True).
Proof.
  intros Hr Hall w [[Ha Hl Hs] HP]. unfold transactions_abort.
  pose proof (op_keeps _ (OpAbort r) (out_env out) _ Hl Hs Hr Hall HP) as Hk. cbn [op_run] in Hk.
  rewrite op_run_of in Hk.
  assert (∀ s' st' snap, abort_prepared (dac_transactions (w_control w)) r (out_env out)
    (dac_connection (w_control w)) = (s', Ok (st', snap)) →
    st' = store_after_abort (dac_transactions (w_control w))) as Hst.
  { intros s' st' snap HH. change (runs (abort_prepared (dac_transactions (w_control w)) r)
      (out_env out) (dac_connection (w_control w)) s' (st', snap)) in HH.
    unfold abort_prepared in HH. run_inv. congruence. }
  destruct (abort_prepared _ _ _ _) as [s' [[st' snap]|e]] eqn:E; cbn in *; split; try done.
  - rewrite (Hst _ _ _ eq_refl). split; [|apply Hk].
    constructor; cbn; [done|done|by apply db_inv_after_abort, Hk].
  - split; [constructor|]; by try apply Hk.
Qed.

(** ** Operations *)

(** Requests that keep the property: recovery that opens no new generation,
    and every request. *)
Hypothesis Hobserve : ∀ r, snd (resolution_state (rr_resolution r)) = 0%Z → op_allowed P (OpRecover r).
Hypothesis Hall : ∀ op, op_allowed P op.

Lemma triple_snapshot id : triple out (durable_in P) (transactions (λ st, snapshot st id)) (λ _, True).
Proof. apply triple_read; [|done]. intros st. unfold snapshot. solve_readonly. Qed.

Lemma triple_any {A} (r : result DurableAuthorityError A) : triple out (durable_in P) (dlift r) (λ _, True).
Proof. by apply triple_dlift. Qed.

Lemma triple_issue q c a expires :
  is_u64 expires → triple out (durable_in P) (issue_approval q c a expires) (λ _, True).
Proof.
  intros Hex. apply triple_approvals. intros s log sample Hr Hs.
  destruct (issue s sample q (dc_review c) a expires) as [s' r] eqn:E. eexists. by eapply run_issue.
Qed.

Lemma triple_revoke id a : triple out (durable_in P) (revoke_approval id a) (λ _, True).
Proof.
  apply triple_approvals. intros s log sample Hr Hs.
  destruct (revoke s sample id a) as [s' r] eqn:E. eexists. by eapply run_revoke.
Qed.

Lemma triple_authorization review id :
  triple out (durable_in P) (authorization_basis review id) (λ _, True).
Proof.
  unfold authorization_basis. triple_step; repeat triple_step; try done; try apply triple_any.
  apply triple_approvals. intros s log sample Hr Hs.
  destruct (validate _ _ _ _) as [s' r] eqn:E. eexists. by eapply run_validate.
Qed.

Context `{ProtectiveSettings T}.

Lemma triple_revalidate c id now (settings : option T) :
  candidate_ok c →
  triple out (durable_in P) (revalidate_and_bind c id now settings) admissible_binding.
Proof.
  intros [Hq (Hd1 & Hd2 & Hd3)]. unfold revalidate_and_bind, observation_current, observation_valid.
  triple_step; [repeat triple_step; done || apply triple_any|].
  do 4 triple_next. cbv zeta. do 6 triple_next.
  triple_step; [triple_step|]. cbv beta in *. rename select (negb (bool_decide (_ = dc_review c)) = false) into Hrev.
  apply negb_false_iff, bool_decide_eq_true in Hrev as ->.
  triple_step; [apply triple_authorization|].
  triple_step; [apply triple_dlift with (Q := λ p, PrincipalId_new p = Ok p)|].
  { intros p Hp%map_err_Ok. by apply typed_id_new_Ok in Hp as [-> ?]; apply typed_id_new_Ok. }
  apply triple_dlift. intros b Hb%map_err_Ok.
  apply try_new_ok in Hb as (Hok & E1 & E2 & E3 & E4 & E5 & _).
  constructor; [done|..]; rewrite ?E1, ?E2, ?E3, ?E4, ?E5; done.
Qed.

Lemma triple_prepare c id (settings : option T) :
  candidate_ok c →
  triple out (durable_in P) (prepare_inner c id settings) prepared_ok.
Proof.
  intros Hc. unfold prepare_inner. triple_step; [apply triple_authority_now|].
  triple_step; [by apply triple_revalidate|].
  triple_step; [by apply (triple_op _ (OpPrepare a0))|]. cbv zeta.
  triple_next. triple_step. constructor; [done|]. cbv beta in *. cbn [pd_snapshot pd_binding].
  rename select (_ || _ = false) into Hb. rewrite !orb_false_iff, !negb_false_iff, !bool_decide_eq_true in Hb. tauto.
Qed.

Lemma digest_valid domain fields d : canonical_digest domain fields = Ok d → valid_digest d.
Proof. by intros (_ & _ & ?)%canonical_digest_Ok. Qed.

Lemma authorize_handoff_use signer snap d a b r :
  authorize_handoff signer snap d a b = Ok r → hr_authority_use_digest r = d.
Proof. unfold authorize_handoff. intros HH. by ok_inv. Qed.

Lemma triple_handoff p prepared (settings : option T) :
  candidate_ok (pd_candidate prepared) →
  triple out (durable_in P) (handoff_inner p prepared settings) (λ _, True).
Proof.
  intros Hc. unfold handoff_inner. do 2 triple_next. triple_step; [apply triple_authority_now|].
  triple_step; [by apply triple_revalidate|]. triple_next.
  triple_step; [apply triple_snapshot|]. triple_next.
  triple_step; [apply triple_dlift; intros d; apply digest_valid|].
  do 2 triple_next. triple_step.
  { apply triple_dlift with (Q := λ r, op_admissible (OpHandoff r)).
    intros r Hr%map_err_Ok%authorize_handoff_use. cbn. by rewrite Hr. }
  cbv beta in *. triple_step; [by apply (triple_op _ (OpHandoff a9))|]. by triple_step.
Qed.

Lemma triple_commit p verified : triple out (durable_in P) (commit_verified p verified) (λ _, True).
Proof.
  unfold commit_verified, durable_snapshot. triple_next. triple_step; [apply triple_snapshot|].
  do 3 triple_next. by apply (triple_op _ (OpCommit a3)).
Qed.

(** *** Recovery *)

Lemma authorize_recovery_resolution signer snap res a b r :
  authorize_recovery signer snap res a b = Ok r → rr_resolution r = res.
Proof. unfold authorize_recovery. intros HH. by ok_inv. Qed.

(** Only the resolution that the effect is absent prepares again, the
    binding it carries. *)
Definition outcome_ok (res : RecoveryResolution) (o : RecoveryOutcome) : Prop :=
  match o with
  | OutReprepared snap => ∃ d b, res = IntendedEffectAbsent d b ∧ ts_binding_digest snap = ab_digest b
  | _ => True
  end.

Lemma recover_outcome_ok st r env s s' o :
  limits_ok (store_limits st) → db_inv st (sess_db s) → resolution_admissible (rr_resolution r) →
  runs (recover st r) env s s' o → outcome_ok (rr_resolution r) o.
Proof.
  intros Hl Hi Hadm (_ & s0 & s1 & Hd & Hr & _)%runs_recover. rewrite <- Hd in Hi.
  destruct (recover_body_spec _ _ _ _ _ _ Hl Hi Hadm Hr) as (t & old & g & evs & s2 & Hd2 & Hat & _ & _ & _ & Hb).
  rewrite <- Hd2 in Hi. destruct (rr_resolution r) as [x1 x2 x3 x4|x b|x|x]; cbn in Hadm.
  - destruct Hadm as (?&?&?&?). by apply (recover_verified_spec _ _ _ old _ evs) in Hb as [_ ->].
  - destruct Hadm. apply (recover_reprepared_spec _ _ _ old _ evs) in Hb as (_ & _ & ->); [|done..].
    by eexists _, _.
  - by apply (recover_blocked_spec _ _ _ old _ evs) in Hb as [_ ->].
  - by apply (recover_ambiguous_spec _ _ _ old _ evs) in Hb as [_ ->].
Qed.

Lemma triple_recover_with anchor res a e :
  (∀ r, rr_resolution r = res → op_allowed P (OpRecover r)) → resolution_admissible res → triple out (durable_in P) (recover_with anchor res a e) (outcome_ok res).
Proof.
  intros Hop Hres. unfold recover_with. do 2 triple_next. triple_step.
  { apply triple_dlift with (Q := λ r, rr_resolution r = res).
    intros r. by intros ?%map_err_Ok%authorize_recovery_resolution. }
  cbv beta in *. subst res. apply (triple_write _ (OpRecover a2)); [done|done|by apply Hop|].
  intros st env s s' o Hl Hi Hr. by eapply recover_outcome_ok.
Qed.

Lemma triple_recover_ambiguous anchor o d :
  valid_digest d → triple out (durable_in P) (recover_ambiguous anchor o d) not_reprepared.
Proof.
  intros Hd. unfold recover_ambiguous, observation_current. triple_step; [apply triple_authority_now|].
  triple_next. triple_step; [apply triple_recover_with; [intros r Hr; apply Hobserve; by rewrite Hr|done]|].
  by repeat triple_step.
Qed.

Lemma triple_twice_current o : triple out (durable_in P) (twice_current o) (λ _, True).
Proof.
  unfold twice_current, observation_current. triple_step; [apply triple_authority_now|].
  triple_next. triple_step; [apply triple_authority_now|]. triple_next. by triple_step.
Qed.

Lemma triple_recover_conflicting anchor o d :
  valid_digest d → triple out (durable_in P) (recover_conflicting anchor o d) not_reprepared.
Proof.
  intros Hd. unfold recover_conflicting. triple_step; [apply triple_twice_current|].
  triple_step; [apply triple_recover_with; [intros r Hr; apply Hobserve; by rewrite Hr|done]|].
  by repeat triple_step.
Qed.

Lemma triple_material id :
  triple out (durable_in P) (transactions (λ st, verified_commit_material st id)) (λ _, True).
Proof. apply triple_read; [|done]. intros st. unfold verified_commit_material. solve_readonly. Qed.

Lemma triple_recover_verified anchor plan o d :
  valid_digest d → valid_digest (ra_request_digest anchor) →
  triple out (durable_in P) (recover_verified anchor plan o d) not_reprepared.
Proof.
  intros Hd Hr. unfold recover_verified, verified_commit_digests.
  triple_step; [apply triple_twice_current|]. cbv zeta.
  triple_step;
    [apply triple_recover_with; [intros r E; apply Hobserve; by rewrite E|split_and!; auto with linura]|].
  triple_step; try apply triple_dfail. triple_step; [apply triple_material|]. by repeat triple_step.
Qed.

Lemma triple_evidence approval c :
  match approval with OnDemand f => is_u64 (fra_expires_at_unix_seconds f) | _ => True end →
  triple out (durable_in P) (recovery_evidence approval c) (λ _, True).
Proof.
  intros Ha. unfold recovery_evidence. triple_step; [by triple_step| |by triple_step].
  triple_step; try (by triple_step). triple_step; [by apply triple_issue|]. by triple_step.
Qed.

Lemma triple_recover_absent anchor c approval :
  candidate_ok c →
  match approval with OnDemand f => is_u64 (fra_expires_at_unix_seconds f) | _ => True end →
  triple out (durable_in P) (recover_absent (T := T) anchor c approval) recovered_ok.
Proof.
  intros Hc Ha. unfold recover_absent, observation_current.
  triple_step; [by apply triple_evidence|]. triple_step; [apply triple_authority_now|].
  triple_step; [by apply triple_revalidate|]. triple_step; [apply triple_authority_now|].
  triple_next. triple_step; [apply triple_recover_with; [by intros|split; [apply Hc|done]]|].
  triple_step; try apply triple_dfail. triple_step. constructor; [done|]. cbn.
  rename select (outcome_ok _ _) into Ho. by destruct Ho as (? & ? & [= _ <-] & ?).
Qed.

Lemma review_candidate_request p plan cl protective review :
  review_candidate p plan cl protective = Ok review →
  ps_request_id (pe_subject (tpr_evaluation review)) = rp_request_id plan.
Proof.
  unfold review_candidate. intros HH%map_err_Ok.
  destruct protective; [unfold review_protective_plan in HH|unfold review_plan_with_classification in HH];
    apply bind_Ok in HH as (s & (extra & _ & _ & _ & Hq & _)%subject_Ok & [= <-]); [done|].
  unfold review_subject_for_control. cbn. by case_bool_decide.
Qed.

Definition plan_ok (planned : ReconciliationPlan * ObservationEnvelope) : Prop :=
  RequestId_new (rp_request_id (fst planned)) = Ok (rp_request_id (fst planned)).

Definition approval_ok (a : RecoveryApproval) : Prop :=
  match a with OnDemand f => is_u64 (fra_expires_at_unix_seconds f) | _ => True end.

(** A recovery that only observes. *)
Lemma triple_observe_change_proposed anchor p plan o d floor :
  valid_digest d →
  triple out (durable_in P) (recover_change_proposed (T := T) anchor p plan o d ObserveOnly floor)
    not_reprepared.
Proof.
  intros Hd. unfold recover_change_proposed. triple_next.
  triple_step; [by apply triple_recover_conflicting|by apply triple_recover_ambiguous].
Qed.

Lemma triple_recover_change_proposed anchor p plan o d approval floor :
  valid_digest d → valid_digest (ra_request_digest anchor) → plan_ok (plan, o) → approval_ok approval →
  triple out (durable_in P) (recover_change_proposed (T := T) anchor p plan o d approval floor) recovered_ok.
Proof.
  intros Hd Hr Hp Ha. unfold recover_change_proposed.
  triple_step; [apply triple_dlift; intros x; apply digest_valid|]. cbv beta in *.
  triple_step; [eapply triple_weaken; [by apply triple_recover_conflicting|apply not_reprepared_ok]|].
  triple_step; cbv zeta;
    [| |eapply triple_weaken; [by apply triple_recover_ambiguous|apply not_reprepared_ok]].
  all: triple_next; triple_step;
    [apply triple_dlift with (Q := λ rv, ps_request_id (pe_subject (tpr_evaluation rv)) = rp_request_id plan);
     intros rv; apply (review_candidate_request _ _ _ None)|].
  all: triple_next; triple_step;
    [eapply triple_weaken; [by apply triple_recover_ambiguous|apply not_reprepared_ok]|]; triple_next.
  all: apply triple_recover_absent; [|done]; constructor; cbn; cbv beta in *; [unfold plan_ok in Hp; cbn in Hp; congruence|done].
Qed.
End durable.

(** Planned candidates carry a request identifier, which its constructor
    validated. *)
Class PlanPreviewsLaws V `{PlanPreviews V} : Prop := {
  authority_candidate_request v p a r x : snd (authority_candidate v p a r) = Ok x → plan_ok x;
  protective_authority_candidate_request v p a r c x :
    snd (protective_authority_candidate v p a r c) = Ok x → plan_ok x;
  protective_recovery_candidate_request v p a r x :
    snd (protective_recovery_candidate v p a r) = Ok x → plan_ok x;
}.

Section operations.
Context `{CryptoLaws} `{PlanPreviewsLaws V} `{ProtectiveSettings T}.
Context {Mg : Migrations} {out : Outside} (Hout : out_ok out) {P : Database → Prop}.
Hypothesis Hobserve : ∀ r, snd (resolution_state (rr_resolution r)) = 0%Z → op_allowed P (OpRecover r).
Hypothesis Hall : ∀ op, op_allowed P op.

Lemma triple_anchor p request :
  triple out (durable_in (V := V) P) (request_anchor p request) (λ a, valid_digest (ra_request_digest a)).
Proof.
  apply triple_read.
  - intros st. unfold recovery_anchor. solve_readonly.
  - intros st env s s' a _ HH. unfold recovery_anchor in HH. run_inv.
    destruct x0 as [[t g] snap]. run_inv. cbn. unfold corrupt_domain, valid_digest in *.
    rename select (map_err _ (ContentDigest_new (sg_request_digest _)) = _) into Hr.
    apply map_err_Ok in Hr. by apply ContentDigest_new_Ok in Hr as [-> ?]; apply ContentDigest_new_Ok.
Qed.

Lemma triple_matching p r anchor :
  triple out (durable_in (V := V) P) (matching_anchor p r anchor) (λ _, True).
Proof. unfold matching_anchor. do 2 triple_next. by apply triple_dlift. Qed.

Lemma triple_candidate p a r floor protective :
  triple out (durable_in (V := V) P) (candidate_inner p a r floor protective) candidate_ok.
Proof.
  unfold candidate_inner. triple_step; [apply triple_dlift; intros d; apply digest_valid|].
  triple_step; [apply triple_previews with (Q := plan_ok)|].
  { intros v x. destruct protective;
      [apply protective_authority_candidate_request|apply authority_candidate_request]. }
  destruct a1 as [plan o]. triple_next. cbv zeta. triple_next.
  triple_step; [apply triple_dlift; intros rv; apply review_candidate_request|].
  do 2 triple_next. do 2 (triple_step; [apply triple_dlift; intros d; apply digest_valid|]). triple_next.
  triple_step. cbv beta in *. constructor; cbn; [|done]. unfold plan_ok in *. cbn in *. congruence.
Qed.

Lemma triple_protective_candidate p a c floor :
  triple out (durable_in (V := V) P) (protective_candidate p a c floor) candidate_ok.
Proof. unfold protective_candidate. triple_next. apply triple_candidate. Qed.

Lemma triple_validate_protective c (settings : T) :
  triple out (durable_in (V := V) P) (validate_protective_now c settings) (λ _, True).
Proof.
  unfold validate_protective_now. do 3 triple_next. triple_step; [apply triple_protective_candidate|].
  by apply triple_dlift.
Qed.

(** What every recovery does before it classifies, with what follows. *)
Lemma triple_recover_then p a r approval floor (Q : DurableRecoveryOutcome → Prop) :
  (∀ o, not_reprepared o → Q o) →
  (∀ anchor plan o d, valid_digest d → valid_digest (ra_request_digest anchor) → plan_ok (plan, o) →
     retained_protective_request p r && match approval with ObserveOnly => false | _ => true end = false →
     triple out (durable_in (V := V) P)
       (recover_change_proposed (T := T) anchor p plan o d approval floor) Q) →
  triple out (durable_in (V := V) P) (recover_indeterminate_inner (T := T) p a r approval floor) Q.
Proof.
  intros HQ Hchange. unfold recover_indeterminate_inner, as_principal, observation_valid.
  triple_next. triple_step; [apply triple_anchor|]. triple_next.
  triple_step; [apply triple_matching|]. cbv zeta. triple_next.
  triple_step; [apply triple_previews with (Q := plan_ok)|].
  { intros v x. destruct (retained_protective_request _ _);
      [apply protective_recovery_candidate_request|apply authority_candidate_request]. }
  destruct a5 as [plan o]. triple_next.
  triple_step; [apply triple_dlift; intros d; apply digest_valid|]. cbv beta in *.
  triple_step; [eapply triple_weaken; [by apply triple_recover_verified|done]|by apply Hchange|
    eapply triple_weaken; [by apply triple_recover_ambiguous|done]].
Qed.

Lemma triple_recover p a r approval floor :
  approval_ok approval →
  triple out (durable_in (V := V) P)
    (recover_indeterminate_inner (T := T) p a r approval floor) recovered_ok.
Proof.
  intros Ha. apply triple_recover_then; [apply not_reprepared_ok|]. intros.
  by apply triple_recover_change_proposed.
Qed.

Lemma triple_recover_observe p a r approval floor :
  approval = ObserveOnly ∨ retained_protective_request p r = true →
  triple out (durable_in (V := V) P)
    (recover_indeterminate_inner (T := T) p a r approval floor) not_reprepared.
Proof.
  intros Ha. apply triple_recover_then; [done|]. intros anchor plan o d Hd Hr Hp Hn.
  assert (approval = ObserveOnly) as ->
    by (destruct Ha as [?|Ha]; [done|]; rewrite Ha in Hn; by destruct approval).
  by apply triple_observe_change_proposed.
Qed.

Lemma triple_restart : triple out (durable_in (V := V) P) abort_prepared_after_restart (λ _, True).
Proof.
  unfold abort_prepared_after_restart. triple_step.
  { apply triple_read with (Q := λ _, True); [|done]. intros st. unfold list_state. solve_readonly. }
  clear Ha. induction a as [|s l IH]; cbn [abort_each]; [by triple_step|].
  triple_step; [apply triple_abort; cbn; unfold restart_reason; auto with linura|].
  triple_step; [apply IH|]. by triple_step.
Qed.
End operations.

(** * Successful runs of the durable authority's operations

    Inversion of the monad of [DurableAuthority], and what a successful
    revalidation of authority has established. *)

Definition druns {V A} (m : D V A) (out : Outside) (w w' : World V) (a : A) : Prop :=
  m out w = (w', Ok a).

(** The store, its database and the signer are those of [w], and the clock of
    the approvals is all that changed of them. *)
Record quiet {V} (w w' : World V) : Prop := {
  qt_store : dac_transactions (w_control w') = dac_transactions (w_control w);
  qt_db : sess_db (dac_connection (w_control w')) = sess_db (dac_connection (w_control w));
  qt_signer : dac_authority_signer (w_control w') = dac_authority_signer (w_control w);
  qt_approvals : ∀ log, run (dac_approvals (w_control w)) log → run (dac_approvals (w_control w')) log;
}.

#[export] Instance quiet_refl {V} : Reflexive (@quiet V).
Proof. by intros w. Qed.
#[export] Instance quiet_trans {V} : Transitive (@quiet V).
Proof. intros w1 w2 w3 [? ? ? ?] [? ? ? ?]. constructor; [congruence..|]. auto. Qed.

Section druns.
Context {V : Type} {out : Outside}.

Lemma druns_ret {A} (a b : A) (w w' : World V) : druns (mret a) out w w' b ↔ w' = w ∧ b = a.
Proof. unfold druns, mret, D_ret. naive_solver. Qed.
Lemma druns_bind {A B} (m : D V A) (f : A → D V B) (w w' : World V) b :
  druns (m ≫= f) out w w' b ↔ ∃ w1 a, druns m out w w1 a ∧ druns (f a) out w1 w' b.
Proof. unfold druns, mbind, D_bind. destruct (m out w) as [w1 [a|e]]; naive_solver. Qed.
Lemma druns_dlift {A} (r : result DurableAuthorityError A) (w w' : World V) a :
  druns (dlift r) out w w' a ↔ w' = w ∧ r = Ok a.
Proof. unfold druns, dlift. naive_solver. Qed.
Lemma druns_dreject c e (w w' : World V) u : druns (dreject c e) out w w' u ↔ w' = w ∧ c = false.
Proof. unfold dreject. rewrite druns_dlift, reject_if_Ok. done. Qed.
Lemma druns_dfail {A} e (w w' : World V) (a : A) : ¬ druns (dfail e) out w w' a.
Proof. unfold druns, dfail. naive_solver. Qed.
Lemma druns_dcontrol (w w' : World V) c : druns dcontrol out w w' c ↔ w' = w ∧ c = w_control w.
Proof. unfold druns, dcontrol. naive_solver. Qed.
Lemma druns_update f (w w' : World V) u :
  druns (update_control f) out w w' u ↔ w' = with_control w (f (w_control w)).
Proof. unfold druns, update_control. destruct u. naive_solver. Qed.
Lemma druns_read_clock (w w' : World V) ms :
  druns read_clock out w w' ms →
  ms = out_clock out (w_clock_reads w) ∧ w_control w' = w_control w ∧
  w_clock_reads w' = S (w_clock_reads w).
Proof. by intros [= <- <-]. Qed.

Context `{Crypto} {Mg : Migrations}.

Lemma druns_transactions {A} (m : Store → M A) (w w' : World V) a :
  druns (transactions m) out w w' a ↔
  ∃ s', runs (m (dac_transactions (w_control w))) (out_env out) (dac_connection (w_control w)) s' a ∧
        w' = with_control w (with_store (w_control w) (dac_transactions (w_control w)) s').
Proof.
  unfold druns, transactions, runs. destruct (m _ _ _) as [s' [x|e]]; cbn; naive_solver.
Qed.

Lemma druns_read {A} (m : Store → M A) `{!∀ st, ReadOnlyM (m st)} (w w' : World V) a :
  druns (transactions m) out w w' a → quiet w w'.
Proof.
  intros (s' & Hr & ->)%druns_transactions. apply runs_readonly in Hr; [|apply _]. by constructor.
Qed.

#[export] Instance ro_snapshot st id : ReadOnlyM (snapshot st id).
Proof. unfold snapshot. solve_readonly. Qed.
End druns.

Ltac drun_inv_step :=
  match goal with
  | H : druns (_ ≫= _) _ _ _ _ |- _ => apply druns_bind in H; destruct H as (? & ? & ? & H)
  | H : druns (mret _) _ _ _ _ |- _ => apply druns_ret in H; destruct H; subst
  | H : druns (dlift _) _ _ _ _ |- _ => apply druns_dlift in H; destruct H; subst
  | H : druns (dreject _ _) _ _ _ _ |- _ => apply druns_dreject in H; destruct H; subst
  | H : druns (dfail _) _ _ _ _ |- _ => exfalso; revert H; apply druns_dfail
  | H : druns dcontrol _ _ _ _ |- _ => apply druns_dcontrol in H; destruct H; subst
  end.
Ltac drun_inv := repeat drun_inv_step.

Section facts.
Context `{CryptoLaws}.
Context {Mg : Migrations} {V : Type} {out : Outside} (Hout : out_ok out).
Implicit Types w : World V.

(** The clock reading an operation takes from [w]. *)
Definition reading (w : World V) : option Z := out_clock out (w_clock_reads w).

Lemma druns_now w w' now :
  druns authority_now_unix_ms out w w' now →
  reading w = Some now ∧ (dac_last_authority_unix_ms (w_control w) ≤ now ≤ u64_max)%Z ∧ quiet w w' ∧
  w_clock_reads w' = S (w_clock_reads w).
Proof.
  unfold authority_now_unix_ms. intros HH. drun_inv.
  rename select (druns read_clock _ _ _ _) into Hc.
  apply druns_read_clock in Hc as (-> & Hc & Hn).
  rename select (druns (update_control _) _ _ _ _) into Hu. apply druns_update in Hu as ->.
  rename select (ok_or _ _ = _) into Ho. apply ok_or_Ok in Ho.
  rename select (_ = false) into Hl. apply Z.ltb_ge in Hl. rewrite Hc in Hl. unfold reading.
  destruct (out_clock out (w_clock_reads w)) as [ms|]; [|done]. cbn in Ho.
  destruct (Z.leb_spec ms u64_max); [|done]. injection Ho as <-.
  split_and!; [done|lia|done| |done]. constructor; cbn; by rewrite Hc.
Qed.

(** The approval that authorizes a review, as of the log of the approvals. *)
Definition authorized (log : list event) (sample : option Z) (review : TrustedPolicyReview)
    (evidence : option ApprovalEvidenceId) (basis : AuthorizationBasis) : Prop :=
  (pe_decision (tpr_evaluation review) = Allow ∧ evidence = None ∧ basis = PolicyAllow) ∨
  ∃ e a reason ms,
    evidence = Some (ae_id e) ∧ EIssued e a ∈ log ∧ (ERevoked (ae_id e) ∉ log) ∧
    pe_decision (tpr_evaluation review) = RequireApproval (ar_class (ae_requirement e)) reason ∧
    ar_binding (ae_requirement e) = tpr_evaluation review ∧
    aa_kind a = Human ∧ ar_class (ae_requirement e) ∈ aa_approval_classes a ∧
    sample = Some ms ∧
    (ae_issued_at_unix_seconds e ≤ ms / 1000 < ae_expires_at_unix_seconds e)%Z ∧
    basis = Binding.Approval
      {| aa_evidence_id := ae_id e; aa_request_id := ae_request_id e; aa_approver := aa_principal a;
         aa_approval_class := approval_class_name (ar_class (ae_requirement e));
         aa_issued_at_unix_seconds := ae_issued_at_unix_seconds e;
         aa_expires_at_unix_seconds := ae_expires_at_unix_seconds e |}.

Lemma druns_validate w w' id review v log :
  run (dac_approvals (w_control w)) log →
  druns (approvals (λ a sample, validate a sample id review)) out w w' v →
  quiet w w' ∧
  ∃ ms, reading w = Some ms ∧ validate_at (dac_approvals (w_control w')) id review (ms / 1000) = v.
Proof.
  intros Hrun HH. unfold approvals in HH. drun_inv.
  rename select (druns read_clock _ _ _ _) into Hc. apply druns_read_clock in Hc as (-> & Hc & _).
  rewrite Hc in HH. pose proof (sample_ok_system Hout (w_clock_reads w)) as Hok.
  destruct (validate _ _ _ _) as [a' r] eqn:E. drun_inv.
  rename select (map_err _ _ = _) into Hr. apply map_err_Ok in Hr. subst r.
  rename select (druns (update_control _) _ _ _ _) into Hu. apply druns_update in Hu as ->.
  split.
  - constructor; cbn; rewrite ?Hc; [done..|]. intros log' Hl. by eapply run_validate.
  - cbn. unfold reading. destruct (out_clock out (w_clock_reads w)) as [ms|]; [|done].
    exists ms. split; [done|]. unfold validate, approval_sample in E.
    destruct (authority_now_unix_seconds _ _) as [s1 [t|]] eqn:En; [|done]. injection E as <- <-.
    unfold authority_now_unix_seconds in En. injection En as _ En. by destruct (_ <? _)%Z; [|injection En as <-].
Qed.

Lemma druns_authorization w w' review id basis log :
  run (dac_approvals (w_control w)) log →
  druns (authorization_basis review id) out w w' basis →
  quiet w w' ∧ authorized log (reading w) review id basis.
Proof.
  intros Hrun HH. unfold authorization_basis in HH.
  destruct (pe_decision (tpr_evaluation review)) as [|r|class reason|r] eqn:Hdec; drun_inv.
  - split; [done|]. left. rename select (bool_decide _ = false) into Hn.
    apply bool_decide_eq_false, eq_None_not_Some in Hn. done.
  - rename select (druns (approvals _) _ _ _ _) into Hv.
    apply (druns_validate _ _ _ _ _ log) in Hv as (Hq & ms & Hms & Hv); [|done].
    rename select (negb _ = false) into Hs. apply negb_false_iff, bool_decide_eq_true in Hs. rewrite Hs in Hv.
    pose proof (qt_approvals _ _ Hq _ Hrun) as Hrun'.
    apply (validated_record _ log) in Hv as (rc & a & reason' & Hrc & Hi & Hid & Hb & Hd & Hk & Hc & Ha & Hw & _ & Hr);
      [|by apply run_inv].
    rename select (ok_or (ApprovalReviewControl_get _ _) _ = _) into Hget. apply ok_or_Ok in Hget.
    unfold ApprovalReviewControl_get in Hget. rewrite Hrc in Hget. injection Hget as <-.
    rename select (map_err _ (ApprovalAuthority_try_new _ _ _ _ _ _) = _) into Ht.
    apply map_err_Ok in Ht. unfold ApprovalAuthority_try_new in Ht. ok_inv.
    split; [done|]. right.
    assert (class = ar_class (ae_requirement (rec_evidence rc))) as -> by congruence.
    exists (rec_evidence rc), a, reason', ms. rewrite <- Ha. split_and!; try done; apply Hw.
Qed.

(** ** Revalidation *)

Lemma try_new_material p r pl rd pd od pr re ca po pv tr rr rules rv au b :
  AuthorityBinding_try_new p r pl rd pd od pr re ca po pv tr rr rules rv au = Ok b →
  ab_authorization b = au ∧ ab_review_digest b = rv ∧ ab_plan_id b = pl ∧ ab_resource b = re ∧
  ab_trusted_risk b = tr.
Proof. intros HH. unfold AuthorityBinding_try_new in HH. by ok_inv. Qed.

(** What revalidation established of candidate [c] at [now], and put into the
    binding [b]. *)
Record revalidated `{ProtectiveSettings T} (log : list event) (sample : option Z)
    (c : DurableAuthorityCandidate) (evidence : option ApprovalEvidenceId) (now : Z)
    (settings : option T) (b : AuthorityBinding) : Prop := {
  rv_consent :
    (dc_protective c = None ∧ settings = None) ∨
    ∃ context st, dc_protective c = Some context ∧ settings = Some st ∧
      settings_current st (pls_owner (pc_setting context)) (pls_epoch (pc_setting context))
        = Ok (Some (pc_setting context)) ∧ pls_enabled (pc_setting context) = true;
  rv_current : require_current (dc_observation c) now = Ok tt;
  rv_observed : ObservationEnvelope_validate (dc_observation c) (rp_provider (dc_plan c))
                  (rp_resource (dc_plan c)) (rp_observation_capability (dc_plan c)) = Ok tt;
  rv_observation : digest_observation (dc_observation c) = Ok (ab_observation_digest b);
  rv_risk : risk_provenance (classify_candidate_risk (dc_plan c) (dc_risk_floor c)) = Ok (dc_risk c);
  rv_review :
    review_candidate (dc_principal c) (dc_plan c)
      (classify_candidate_risk (dc_plan c) (dc_risk_floor c)) (dc_protective c) = Ok (dc_review c);
  rv_digest : digest_review (dc_review c) = Ok (ab_review_digest b);
  rv_authorized : authorized log sample (dc_review c) evidence (ab_authorization b);
  rv_request : ab_request_digest b = dc_request_digest c ∧
    ab_request_id b = ps_request_id (pe_subject (tpr_evaluation (dc_review c))) ∧
    ab_plan_id b = ps_plan_id (pe_subject (tpr_evaluation (dc_review c))) ∧
    ab_principal b = dc_principal c;
}.

Lemma context_require_current_Ok `{ProtectiveSettings T} context (st : T) u :
  context_require_current context st = Ok u →
  settings_current st (pls_owner (pc_setting context)) (pls_epoch (pc_setting context))
    = Ok (Some (pc_setting context)) ∧ pls_enabled (pc_setting context) = true.
Proof.
  unfold context_require_current. intros (cur & Hc & Hr)%bind_Ok. apply reject_if_Ok in Hr.
  rewrite orb_false_iff, !negb_false_iff, bool_decide_eq_true in Hr. destruct Hr as [-> ?]. done.
Qed.

Lemma druns_revalidate `{ProtectiveSettings T} w w' c evidence now (settings : option T) b log :
  run (dac_approvals (w_control w)) log →
  druns (revalidate_and_bind c evidence now settings) out w w' b →
  quiet w w' ∧ revalidated log (reading w) c evidence now settings b.
Proof.
  intros Hrun HH. unfold revalidate_and_bind, observation_current, observation_valid in HH.
  apply druns_bind in HH as (w0 & u & Hcons & HH).
  assert (w0 = w ∧ ((dc_protective c = None ∧ settings = None) ∨
    ∃ context st, dc_protective c = Some context ∧ settings = Some st ∧
      settings_current st (pls_owner (pc_setting context)) (pls_epoch (pc_setting context))
        = Ok (Some (pc_setting context)) ∧ pls_enabled (pc_setting context) = true)) as [-> Hconsent].
  { destruct (dc_protective c) as [context|], settings as [st|]; drun_inv; split; try done; [|by left].
    right. exists context, st. by destruct (context_require_current_Ok context st u);
      [eapply map_err_Ok|]. }
  clear Hcons. drun_inv.
  repeat match goal with
    | Hn : negb _ = false |- _ => apply negb_false_iff, bool_decide_eq_true in Hn
    | Hm : map_err _ _ = Ok _ |- _ => apply map_err_Ok in Hm
    end. subst.
  rename select (druns (authorization_basis _ _) _ _ _ _) into Ha.
  apply (druns_authorization _ _ _ _ _ log) in Ha as [Hq Ha]; [|done].
  rename select (AuthorityBinding_try_new _ _ _ _ _ _ _ _ _ _ _ _ _ _ _ _ = _) into Hb.
  destruct (try_new_material _ _ _ _ _ _ _ _ _ _ _ _ _ _ _ _ _ Hb) as (Hau & Hrv & Hpl & _).
  apply try_new_ok in Hb as (_ & Hp & Hrq & Hrd & _ & Hod & _).
  rename select (PrincipalId_new _ = _) into Hpr. apply typed_id_new_Ok in Hpr as [-> _].
  repeat match goal with u : () |- _ => destruct u end.
  split; [done|]. constructor; rewrite ?Hau, ?Hrv, ?Hod; try done; congruence.
Qed.
End facts.
