(* ===== verification/DurableFacts.v ===== *)
(** * The durable authority is used only as it was granted

    The worlds a control reaches with the authority its caller holds, their
    invariant, and what a successful handoff, a restart, a recovery and a
    commit establish. *)

From Stdlib Require Import ZArith Lia.
From Stdlib Require Import Strings.Byte.
From stdpp Require Import base numbers gmap strings list fin_maps sorting.
From S2P Require Import Prelude Text Core Digest Binding Authority Sqlite Integrity.
From S2P Require Import CryptoModel Validation Store Run Protocol.
From S2P Require Import StoreInvariant StoreWrites StoreRefine StoreSpec StoreReads.
From S2P Require Import Ordered SessionIdentity Graph Planner Policy RiskReview ApprovalStore.
From S2P Require Import RiskReviewFacts ApprovalInvariant ApprovalFacts.
From S2P Require Import Preview Protective DurableDigest.
From S2P Require Import DurableAuthority DurableInvariant.

Set Default Goal Selector "!".

(** ** Reachable worlds *)

(** The capabilities the caller holds.  Their fields are private: each was
    returned by an operation of the control. *)
Record Held := {
  held_candidates : list DurableAuthorityCandidate;
  held_prepared : list PreparedDurableAuthority;
}.

Definition hold_candidate (h : Held) (r : result DurableAuthorityError DurableAuthorityCandidate) : Held :=
  match r with
  | Ok c => {| held_candidates := c :: held_candidates h; held_prepared := held_prepared h |}
  | Err _ => h
  end.
Definition hold_prepared (h : Held) (r : result DurableAuthorityError PreparedDurableAuthority) : Held :=
  match r with
  | Ok p => {| held_candidates := held_candidates h; held_prepared := p :: held_prepared h |}
  | Err _ => h
  end.
Definition hold_recovered (h : Held) (r : result DurableAuthorityError DurableRecoveryOutcome) : Held :=
  match r with Ok (DurableReprepared p) => hold_prepared h (Ok p) | _ => h end.

Section facts.
Context `{CryptoLaws} `{PlanPreviewsLaws V} `{ProtectiveSettings T}.
Context {Mg : Migrations}.

Inductive durable_reachable : World V → Held → Prop :=
| reach_new out store connection signer w w' :
    out_ok out → limits_ok (store_limits store) → db_inv store (sess_db connection) →
    DurableAuthorityControl_new store connection signer out w = (w', Ok tt) →
    durable_reachable w' {| held_candidates := []; held_prepared := [] |}
| reach_candidate out w h p a request floor w' r :
    durable_reachable w h → out_ok out → candidate_inner p a request floor None out w = (w', r) →
    durable_reachable w' (hold_candidate h r)
| reach_protective_candidate out w h p a context floor w' r :
    durable_reachable w h → out_ok out → protective_candidate p a context floor out w = (w', r) →
    durable_reachable w' (hold_candidate h r)
| reach_issue out w h q c approver expires w' r :
    durable_reachable w h → out_ok out → is_u64 expires →
    issue_approval q c approver expires out w = (w', r) → durable_reachable w' h
| reach_revoke out w h id revoker w' r :
    durable_reachable w h → out_ok out → revoke_approval id revoker out w = (w', r) →
    durable_reachable w' h
| reach_prepare out w h c id w' r :
    durable_reachable w h → out_ok out → c ∈ held_candidates h →
    prepare_authority (T := T) c id out w = (w', r) → durable_reachable w' (hold_prepared h r)
| reach_prepare_protective out w h c (settings : T) w' r :
    durable_reachable w h → out_ok out → c ∈ held_candidates h →
    prepare_protective c settings out w = (w', r) → durable_reachable w' (hold_prepared h r)
| reach_handoff out w h principal p w' r :
    durable_reachable w h → out_ok out → p ∈ held_prepared h →
    handoff_authority (T := T) principal p out w = (w', r) → durable_reachable w' h
| reach_handoff_protective out w h principal p (settings : T) w' r :
    durable_reachable w h → out_ok out → p ∈ held_prepared h →
    handoff_protective principal p settings out w = (w', r) → durable_reachable w' h
| reach_recover out w h p a request approval floor w' r :
    durable_reachable w h → out_ok out → approval_ok approval →
    recover_indeterminate_inner (T := T) p a request approval floor out w = (w', r) →
    durable_reachable w' (hold_recovered h r)
| reach_commit out w h principal verified w' r :
    durable_reachable w h → out_ok out → commit_verified principal verified out w = (w', r) →
    durable_reachable w' h
| reach_restart out w h w' r :
    durable_reachable w h → out_ok out → abort_prepared_after_restart out w = (w', r) →
    durable_reachable w' h.

Record held_ok (h : Held) : Prop := {
  ho_candidates : ∀ c, c ∈ held_candidates h → candidate_ok c;
  ho_prepared : ∀ p, p ∈ held_prepared h → prepared_ok p;
}.

(** A step with a triple keeps the invariant and gives its result. *)
Lemma triple_step_ok {A} out (m : D V A) (Q : A → Prop) w w' r :
  triple out (durable_in (λ _, True)) m Q → durable_ok w → m out w = (w', r) →
  durable_ok w' ∧ ∀ a, r = Ok a → Q a.
Proof.
  intros Hm Hw Hr. destruct (Hm w (conj Hw I)) as [[? _] ?]. by rewrite Hr in *.
Qed.

Lemma allowed_any op : op_allowed (λ _, True) op.
Proof. by intros st db db'. Qed.

Lemma hold_candidate_ok h r : held_ok h → (∀ c, r = Ok c → candidate_ok c) → held_ok (hold_candidate h r).
Proof.
  intros [Hc Hp] Hr. destruct r as [c|]; [|done]. constructor; cbn; [|done].
  intros c' [->|?]%elem_of_cons; auto.
Qed.
Lemma hold_prepared_ok h r : held_ok h → (∀ p, r = Ok p → prepared_ok p) → held_ok (hold_prepared h r).
Proof.
  intros [Hc Hp] Hr. destruct r as [p|]; [|done]. constructor; cbn; [done|].
  intros p' [->|?]%elem_of_cons; auto.
Qed.

Lemma reachable_ok w h : durable_reachable w h → durable_ok w ∧ held_ok h.
Proof.
  induction 1 as [out store connection signer w w' Ho Hl Hi Hr|out w h p a q fl w' r _ [Hw Hh] Ho Hr
    |out w h p a c fl w' r _ [Hw Hh] Ho Hr|out w h q c ap ex w' r _ [Hw Hh] Ho He Hr
    |out w h id rv w' r _ [Hw Hh] Ho Hr|out w h c id w' r _ [Hw Hh] Ho Hc Hr
    |out w h c st w' r _ [Hw Hh] Ho Hc Hr|out w h pr p w' r _ [Hw Hh] Ho Hp Hr
    |out w h pr p st w' r _ [Hw Hh] Ho Hp Hr|out w h p a q ap fl w' r _ [Hw Hh] Ho Ha Hr
    |out w h p v w' r _ [Hw Hh] Ho Hr|out w h w' r _ [Hw Hh] Ho Hr].
  - split; [|by constructor; intros ? ?%elem_of_nil].
    unfold DurableAuthorityControl_new in Hr.
    apply druns_bind in Hr as (w1 & u & Hu & Hr). apply druns_update in Hu as ->.
    apply druns_bind in Hr as (w2 & l & Hr & [-> _]%druns_ret).
    eapply (triple_step_ok out) in Hr; [apply Hr|by apply triple_restart, allowed_any|].
    constructor; cbn; [|done..]. exists []. constructor.
  - eapply triple_step_ok in Hr as [? ?]; [|by apply triple_candidate|done]. split; [done|by apply hold_candidate_ok].
  - eapply triple_step_ok in Hr as [? ?]; [|by apply triple_protective_candidate|done].
    split; [done|by apply hold_candidate_ok].
  - eapply triple_step_ok in Hr as [? _]; [done|by apply triple_issue|done].
  - eapply triple_step_ok in Hr as [? _]; [done|by apply triple_revoke|done].
  - eapply triple_step_ok in Hr as [? ?]; [|apply triple_prepare; [done|apply allowed_any|by apply Hh]|done].
    split; [done|by apply hold_prepared_ok].
  - eapply triple_step_ok in Hr as [? ?];
      [|eapply triple_bind; [by apply triple_validate_protective|];
        intros ? ?; apply triple_prepare; [done|apply allowed_any|by apply Hh]|done].
    split; [done|by apply hold_prepared_ok].
  - eapply triple_step_ok in Hr as [? _]; [done|apply triple_handoff; [done|apply allowed_any|by apply po_candidate, Hh]|done].
  - eapply triple_step_ok in Hr as [? _]; [done| |done]. eapply triple_bind; [by apply triple_validate_protective|].
    intros ? ?. apply triple_handoff; [done|apply allowed_any|by apply po_candidate, Hh].
  - eapply triple_step_ok in Hr as [? Hq]; [|apply triple_recover; by auto using allowed_any|done]. split; [done|].
    destruct r as [[]|]; cbn [hold_recovered]; try done. apply hold_prepared_ok; [done|]. intros p' [= <-]. by apply (Hq _ eq_refl).
  - eapply triple_step_ok in Hr as [? _]; [done|by apply triple_commit, allowed_any|done].
  - eapply triple_step_ok in Hr as [? _]; [done|by apply triple_restart, allowed_any|done].
Qed.

(** ** Handoff *)

Lemma authorize_handoff_Ok signer snap d a b r :
  authorize_handoff signer snap d a b = Ok r →
  ts_state snap = Prepared ∧ hr_transaction_id r = ts_transaction_id snap ∧
  hr_expected_generation r = ts_current_generation snap ∧
  hr_expected_state_version r = ts_state_version snap ∧
  hr_expected_binding_digest r = ts_binding_digest snap ∧ hr_authority_use_digest r = d ∧
  hr_authorized_at_unix_ms r = a ∧ hr_expires_at_unix_ms r = b.
Proof.
  unfold authorize_handoff. intros HH. ok_inv. cbn. split_and!; try done.
  rename select (_ || _ = false) into Hr. rewrite !orb_false_iff, negb_false_iff, bool_decide_eq_true in Hr.
  tauto.
Qed.

Lemma handoff_window st r env s s' c :
  runs (handoff st r) env s s' c →
  ∃ n now, env_now_unix_ms env n = Some now ∧
    (hr_authorized_at_unix_ms r ≤ now ≤ hr_expires_at_unix_ms r)%Z.
Proof.
  intros (_ & s0 & s1 & _ & Hr & _)%runs_handoff. unfold handoff_body in Hr. run_inv.
  rename select (runs (enforce_authority_window _ _) _ _ _ _) into Hw.
  apply runs_window in Hw as [_ (now & ? & ?)]. by exists (sess_step s0), now.
Qed.

Lemma authority_expires_Ok o b e :
  authority_expires_at_unix_ms o b = Ok e →
  (e ≤ oe_observed_at_unix_ms o + oe_valid_for_ms o)%Z ∧
  ∀ a, ab_authorization b = Binding.Approval a → (e < aa_expires_at_unix_seconds a * 1000)%Z.
Proof.
  unfold authority_expires_at_unix_ms, observation_expires_at_unix_ms.
  intros (x & [-> _]%ok_or_Ok%u64_checked_add_Some & He)%bind_Ok.
  destruct (ab_authorization b) as [|a]; [injection He as <-; split; [lia|done]|].
  apply bind_Ok in He as (y & Hy & [= <-]). unfold exclusive_seconds_to_last_valid_unix_ms in Hy.
  apply ok_or_Ok in Hy. unfold u64_checked_mul in Hy.
  destruct (_ <=? _)%Z; [|done]. cbn in Hy. unfold u64_checked_sub in Hy.
  destruct (_ <=? _)%Z; [|done]. injection Hy as <-. split; [lia|]. intros a' [= <-]. lia.
Qed.

Lemma trails_elsewhere st db db' id dt dg de :
  db_inv st db → step_at db db' id dt dg de → ∀ i, i ≠ id → trail db' i = trail db i.
Proof.
  intros Hi Hs i Hne. apply trail_same; [by apply (sp_events _ _ _ _ _ _ Hs)|].
  eexists. by eapply inv_trail_contig.
Qed.

(** The audit trail after the handoff that gave [permit]. *)
Definition handed_off (db db' : Database) (p : PreparedDurableAuthority) (permit : DispatchPermit) : Prop :=
  let id := ts_transaction_id (pd_snapshot p) in
  let g := ts_current_generation (pd_snapshot p) in
  let v := ts_state_version (pd_snapshot p) in
  machine_at db id = machine g v Prepared ∧
  permit = {| dp_transaction_id := id; dp_generation := g; dp_state_version := v + 1;
              dp_binding_digest := ts_binding_digest (pd_snapshot p);
              dp_authority_use_digest := dp_authority_use_digest permit |} ∧
  (∃ e, trail db' id = trail db id ++ [e] ∧
     event_of e = {| ev_kind := "handoff-indeterminate"; ev_generation := g; ev_version := v + 1 |} ∧
     sa_payload_digest e = dp_authority_use_digest permit) ∧
  ∀ i, i ≠ id → trail db' i = trail db i.

Lemma store_handoff_effect st r env s s' c p :
  db_inv st (sess_db s) → runs (handoff st r) env s s' c → valid_digest (hr_authority_use_digest r) →
  hr_transaction_id r = ts_transaction_id (pd_snapshot p) →
  hr_expected_generation r = ts_current_generation (pd_snapshot p) →
  hr_expected_state_version r = ts_state_version (pd_snapshot p) →
  hr_expected_binding_digest r = ts_binding_digest (pd_snapshot p) →
  handed_off (sess_db s) (sess_db s') p (from_commit c) ∧
  dp_authority_use_digest (from_commit c) = hr_authority_use_digest r.
Proof.
  intros Hi (_ & s0 & s1 & Hd & Hr & Hd')%runs_handoff Hv E1 E2 E3 E4. rewrite <- Hd in *.
  destruct (handoff_body_spec _ _ _ _ _ Hi Hv Hr)
    as (t & old & g & g' & evs & Ha & Hg & Hver & Hb & Hz & ->).
  pose proof (ad_before _ _ _ _ _ _ _ _ _ _ _ _ _ Ha) as Hat.
  pose proof (ad_after _ _ _ _ _ _ _ _ _ _ _ _ _ Ha) as Hat'. cbn zeta in Hat'.
  pose proof (trail_view _ _ _ _ _ _ (as_view _ _ _ _ _ _ _ _ Hat)) as Ht.
  pose proof (trail_view _ _ _ _ _ _ (as_view _ _ _ _ _ _ _ _ Hat')) as Ht'.
  split; [|done]. unfold handed_off. cbn zeta. rewrite Hd', <- E1, <- E2, <- E3, <- E4, <- Hg, <- Hver, <- Hb.
  split_and!.
  - by apply (machine_at_state _ _ _ _ _ _ _ _ Hat).
  - done.
  - eexists. rewrite Ht, Ht'. by split_and!.
  - by apply (trails_elsewhere st _ _ _ 0 0 1 Hi), Ha.
Qed.

(** C2: authority is revalidated at the moment it is used.  In every world a
    control reaches, a prepared authority that the caller holds is handed off
    only if, at a clock reading taken then, its observation was current and
    intact, its risk classification and review came out as they were when it
    was prepared, and the review was an allowance of policy or an approval
    issued in this run of the approvals to a human of the required class, for
    this very evaluation, in its window and not revoked; a protective
    authority also needs the owner's consent unchanged.  The generation
    handed off is the one bound to that authority, the store's own clock was
    within the observation's and the approval's validity, and the handoff is
    the one event that the audit trails gained. *)
Theorem durable_handoff_authorized out w h principal p (settings : option T) w' permit p'
    (Hreach : durable_reachable w h) (Hheld : p ∈ held_prepared h) (Hout : out_ok out)
    (Hrun : handoff_inner principal p settings out w = (w', Ok (permit, p'))) :
  ∃ log now b,
    run (dac_approvals (w_control w)) log ∧ out_clock out (w_clock_reads w) = Some now ∧
    revalidated log (out_clock out (S (w_clock_reads w))) (pd_candidate p)
      (pd_approval_evidence_id p) now settings b ∧
    ab_digest b = ts_binding_digest (pd_snapshot p) ∧ principal = dc_principal (pd_candidate p) ∧
    (∃ n t, env_now_unix_ms (out_env out) n = Some t ∧
       (now ≤ t ≤ oe_observed_at_unix_ms (dc_observation (pd_candidate p))
                  + oe_valid_for_ms (dc_observation (pd_candidate p)))%Z ∧
       ∀ a, ab_authorization b = Binding.Approval a → (t < aa_expires_at_unix_seconds a * 1000)%Z) ∧
    digest_authority_use (pd_snapshot p) now = Ok (dp_authority_use_digest permit) ∧
    handed_off (sess_db (dac_connection (w_control w))) (sess_db (dac_connection (w_control w'))) p permit ∧
    pd_handed_off p = false ∧ pd_handed_off p' = true.
Proof.
  apply reachable_ok in Hreach as [[[log Hlog] Hlim Hinv] Hh]. destruct (ho_prepared _ Hh _ Hheld) as [_ Hbind].
  change (druns (handoff_inner principal p settings) out w w' (permit, p')) in Hrun.
  unfold handoff_inner in Hrun. drun_inv.
  repeat match goal with
    | Hn : negb _ = false |- _ => apply negb_false_iff, bool_decide_eq_true in Hn
    | Hm : map_err _ _ = Ok _ |- _ => apply map_err_Ok in Hm
    end.
  rename select (druns authority_now_unix_ms _ _ _ _) into Hn.
  apply druns_now in Hn as (Hn & _ & Hq1 & Hreads).
  rename select (druns (revalidate_and_bind _ _ _ _) _ _ _ _) into Hv.
  eapply druns_revalidate in Hv as [Hq2 Hv]; [|done|by apply Hq1].
  rename select (druns (transactions (λ st, snapshot st _)) _ _ _ _) into Hsnap.
  apply druns_read in Hsnap; [|apply _].
  rename select (druns (transactions (λ st, handoff st _)) _ _ _ _) into Hh'.
  apply druns_transactions in Hh' as (s' & Hh' & ->).
  assert (quiet w _) as [Qs Qd _ _] by (etrans; [exact Hq1|etrans; [exact Hq2|exact Hsnap]]).
  rewrite Qs in Hh'. rename select (authority_expires_at_unix_ms _ _ = _) into He.
  apply authority_expires_Ok in He as [He1 He2].
  rename select (authorize_handoff _ _ _ _ _ = _) into Hreq.
  apply authorize_handoff_Ok in Hreq as (_ & E1 & E2 & E3 & E4 & E5 & E6 & E7).
  rename select (digest_authority_use _ _ = _) into Huse.
  rename select (_ = pd_snapshot p) into Hsn. subst.
  destruct (handoff_window _ _ _ _ _ _ Hh') as (n & t & Ht & Hwin).
  eapply (store_handoff_effect _ _ _ _ _ _ p) in Hh' as [Hh' Hd]; [|by rewrite Qd| |done..].
  2: { by apply digest_valid in Huse. }
  rename select ((_, _) = _) into Hres. injection Hres as -> ->.
  unfold reading in Hn, Hv. rewrite Hreads in Hv. rewrite Qd in Hh'.
  rename select (_ || _ = false) into Hp. rewrite !orb_false_iff, !negb_false_iff, !bool_decide_eq_true in Hp.
  eexists log, _, _. split_and!; try done; try congruence; [tauto|].
  exists n, t. split_and!; [done|lia|lia|]. intros a Ha%He2. lia.
Qed.
End facts.
