(* ===== verification/DurableOutcomes.v ===== *)
(** * Restart, recovery and commit of the durable authority

    What a new control does to the transactions it finds, what a recovery
    concludes from its observation, and what a commit commits. *)

From Stdlib Require Import ZArith Lia.
From Stdlib Require Import Strings.Byte.
From stdpp Require Import base numbers gmap strings list fin_maps sorting.
From S2P Require Import Prelude Text Core Digest Binding Authority Sqlite Integrity.
From S2P Require Import CryptoModel Validation Store Run Protocol.
From S2P Require Import StoreInvariant StoreWrites StoreRefine StoreSpec StoreReads.
From S2P Require Import IntegrityComplete IntegritySound StoreLiveness.
From S2P Require Import Ordered SessionIdentity Graph Planner Policy RiskReview ApprovalStore.
From S2P Require Import RiskReviewFacts ApprovalInvariant ApprovalFacts.
From S2P Require Import Preview Protective DurableDigest.
From S2P Require Import DurableAuthority DurableInvariant DurableFacts.

Set Default Goal Selector "!".

Definition db_of {V} (w : World V) : Database := sess_db (dac_connection (w_control w)).

Section outcomes.
Context `{CryptoLaws}.
Context {Mg : Migrations} {V : Type}.
Implicit Types w : World V.

(** ** Effects on the abstract machines *)

Lemma effect_elsewhere st op db db' i :
  db_inv st db → op_effect st op db db' → i ≠ op_target op →
  machine_at db' i = machine_at db i ∧ trail db' i = trail db i.
Proof.
  intros Hi He Hne. destruct (oe_step _ _ _ _ He) as (dt & dg & de & Hs).
  pose proof (trails_elsewhere _ _ _ _ _ _ _ Hi Hs i Hne) as Ht. unfold machine_at. by rewrite Ht.
Qed.

Lemma spec_abort_inv r a b :
  spec_step (OpAbort r) a b →
  ∃ g v, a = machine g v Prepared ∧ b = machine g (v + 1) Aborted.
Proof. inversion 1. by eexists _, _. Qed.

(** ** Restart *)

Lemma runs_list_state_of st q env ids s s' l :
  db_inv st (sess_db s) → runs (list_state_of st q ids) env s s' l →
  (∀ id, id ∈ ids → ∀ g v, machine_at (sess_db s) id = machine g v q → id ∈ ts_transaction_id <$> l) ∧
  ∀ snap, snap ∈ l → ∃ g v, machine_at (sess_db s) (ts_transaction_id snap) = machine g v q.
Proof.
  revert s l. induction ids as [|i ids IH]; intros s l Hi HH; cbn [list_state_of] in HH; run_inv.
  { split; [by intros ? ?%elem_of_nil|by intros ? ?%elem_of_nil]. }
  rename select (runs (snapshot _ _) _ _ _ _) into Hs. unfold snapshot in Hs. run_inv.
  rename select (runs (load_current _ _) _ _ _ _) into Hl.
  apply (load_current_inv st) in Hl as (t & old & g & evs & q' & -> & Hat & Hd); [|done]. cbn [snd].
  rename select (runs (list_state_of _ _ _) _ _ _ _) into Hr. rewrite <- Hd in Hi, Hat |- *.
  apply IH in Hr as [IH1 IH2]; [|done]. pose proof (to_id _ _ _ _ _ _ _ (as_ok _ _ _ _ _ _ _ _ Hat)) as Hid.
  pose proof (machine_at_state _ _ _ _ _ _ _ _ Hat) as Hm. split.
  - intros id [->|Hin]%elem_of_cons n v E.
    + rewrite Hm in E. injection E as _ _ ->. rewrite bool_decide_eq_true_2 by done. cbn.
      rewrite Hid. by left.
    + specialize (IH1 _ Hin _ _ E). case_bool_decide; [|done]. by right.
  - intros snap. case_bool_decide as Hq; [|by apply IH2]. intros [->|Hin]%elem_of_cons; [|by apply IH2].
    cbn. rewrite Hid, Hm. cbn in Hq. subst. by eexists _, _.
Qed.

Lemma runs_list_state st q env s s' l :
  db_inv st (sess_db s) → runs (list_state st q) env s s' l →
  ∀ id g v, machine_at (sess_db s) id = machine g v q → id ∈ ts_transaction_id <$> l.
Proof.
  intros Hi HH id g v Hm. unfold list_state in HH. run_inv.
  rename select (runs list_transaction_ids _ _ _ _) into Hl. apply runs_list_ids in Hl as [-> Hd].
  rewrite <- Hd in Hi. apply runs_list_state_of in HH as [HH _]; [|done]. rewrite Hd in HH.
  eapply HH; [|done]. apply transaction_keys_elem.
  rewrite Hd in Hi. destruct (machine_at_inv _ _ _ _ _ _ Hi Hm) as (t & old & gr & evs & Hat & _).
  eexists. apply (vw_transaction _ _ _ _ _ _ (as_view _ _ _ _ _ _ _ _ Hat)).
Qed.

Context {out : Outside}.

(** A successful abort is the abort of the store's contract. *)
Lemma druns_abort w w' r snap :
  durable_ok w → valid_digest (ar_reason_digest r) → druns (transactions_abort r) out w w' snap →
  durable_ok w' ∧ op_effect (dac_transactions (w_control w)) (OpAbort r) (db_of w) (db_of w').
Proof.
  intros Hw Hr HH. pose proof Hw as [Ha Hl Hs].
  split.
  { eapply triple_step_ok in HH as [? _]; [done|by apply triple_abort, allowed_any|done]. }
  unfold druns, transactions_abort in HH. unfold db_of.
  destruct (abort_prepared _ _ _ _) as [s' [[st' x]|e]] eqn:E; [|done]. injection HH as <- <-. cbn.
  assert (op_run (dac_transactions (w_control w)) (OpAbort r) (out_env out)
    (dac_connection (w_control w)) = (s', Ok tt)) as Hop by (cbn [op_run]; rewrite op_run_of, E; done).
  by destruct (op_run_effect _ (OpAbort r) _ _ _ _ Hl Hs Hr Hop) as [[_ ?]|?].
Qed.

(** [id] was prepared and is aborted, or is as it was. *)
Definition retired_at (db db' : Database) (id : TransactionId) : Prop :=
  (∃ g v, machine_at db id = machine g v Prepared ∧ machine_at db' id = machine g (v + 1) Aborted) ∨
  (machine_at db' id = machine_at db id ∧ trail db' id = trail db id).

Lemma druns_abort_each reason l w w' retired :
  durable_ok w → valid_digest reason → druns (abort_each reason l) out w w' retired →
  durable_ok w' ∧ ∀ id, retired_at (db_of w) (db_of w') id ∧
    (id ∈ ts_transaction_id <$> l → ∀ g v, machine_at (db_of w') id ≠ machine g v Prepared).
Proof.
  intros Hw Hr. revert w retired Hw. induction l as [|s l IH]; intros w retired Hw HH; cbn [abort_each] in HH.
  { apply druns_ret in HH as [-> _]. split; [done|]. intros id. split; [by right|by intros ?%elem_of_nil]. }
  apply druns_bind in HH as (w1 & snap & Ha & HH). apply druns_bind in HH as (w2 & rest & Hrest & HH).
  apply druns_ret in HH as [<- _]. apply druns_abort in Ha as [Hw1 He]; [|done..].
  apply IH in Hrest as [Hw2 Hrest]; [|done].
  split; [done|]. intros id. destruct (Hrest id) as [H1 H2].
  assert (retired_at (db_of w) (db_of w') id ∧
    (id = ts_transaction_id s → ∀ g v, machine_at (db_of w') id ≠ machine g v Prepared)) as [H3 H4].
  { destruct (decide (id = ts_transaction_id s)) as [->|Hne].
    - destruct (spec_abort_inv _ _ _ (oe_spec _ _ _ _ He)) as (n & v & E2 & E3). cbn [op_target ar_transaction_id] in E2, E3.
      destruct H1 as [(g' & v' & E1 & _)|[E1 _]]; [rewrite E1 in E3; by injection E3|].
      rewrite E3 in E1. split; [left; by eexists _, _|]. intros _ g' v' E4. rewrite E1 in E4. by injection E4.
    - destruct (effect_elsewhere _ _ (db_of w) (db_of w1) id (do_store _ Hw) He Hne) as [E1 E2].
      split; [|done]. unfold retired_at in *. by rewrite <- E1, <- E2. }
  split; [done|]. cbn. intros [E|Hin]%elem_of_cons; [by apply H4|by apply H2].
Qed.

(** C8: a restart fails closed.  A new control leaves no transaction
    prepared: each one it finds prepared is aborted, at the same generation
    and one version later, and every other transaction is left as it was,
    with its audit trail. *)
Theorem restart_retires_prepared w store connection signer w'
    (Hlim : limits_ok (store_limits store)) (Hinv : db_inv store (sess_db connection))
    (Hnew : DurableAuthorityControl_new store connection signer out w = (w', Ok tt)) id :
  (∀ g v, machine_at (sess_db connection) id = machine g v Prepared →
     machine_at (db_of w') id = machine g (v + 1) Aborted) ∧
  ((¬ ∃ g v, machine_at (sess_db connection) id = machine g v Prepared) →
     machine_at (db_of w') id = machine_at (sess_db connection) id ∧
     trail (db_of w') id = trail (sess_db connection) id).
Proof.
  change (druns (DurableAuthorityControl_new store connection signer) out w w' tt) in Hnew.
  unfold DurableAuthorityControl_new, abort_prepared_after_restart in Hnew. drun_inv.
  rename select (druns (update_control _) _ _ _ _) into Hu. apply druns_update in Hu as ->.
  rename select (druns (transactions _) _ _ _ _) into Hl. apply druns_transactions in Hl as (s' & Hl & ->).
  cbn in Hl. pose proof (runs_readonly _ _ _ _ _ Hl) as Hro.
  rename select (druns (abort_each _ _) _ _ _ _) into Ha. apply druns_abort_each in Ha as [_ Ha];
    [|by constructor; cbn; rewrite ?Hro; [exists []; constructor|..]|unfold restart_reason; auto with linura].
  destruct (Ha id) as [H1 H2]. unfold db_of at 1 in H1. cbn in H1. rewrite Hro in H1.
  pose proof (runs_list_state _ _ _ _ _ _ Hinv Hl id) as Hin. split.
  - intros g v Hm. specialize (H2 (Hin _ _ Hm)).
    destruct H1 as [(g' & v' & E1 & E2)|[E1 _]]; rewrite Hm in E1; [by injection E1 as -> ->|].
    by apply H2 in E1.
  - intros Hn. destruct H1 as [(g' & v' & E1 & E2)|?]; [|done]. destruct Hn. by eexists _, _.
Qed.

(** ** Recovery *)

Context `{!PlanPreviews V} `{!PlanPreviewsLaws V} `{ProtectiveSettings T}.

(** Transactions of [db] are those of [db0], or were indeterminate there and
    are, in the same generation, further along without being prepared. *)
Definition observed_from (db0 db : Database) : Prop :=
  ∀ i, machine_at db i = machine_at db0 i ∨
    ∃ g v v' q, machine_at db0 i = machine g v Indeterminate ∧ machine_at db i = machine g v' q ∧
      (v < v')%Z ∧ q ∈ [Indeterminate; Verified; RecoveryBlocked].

Lemma spec_recover_inv r a b :
  spec_step (OpRecover r) a b →
  ∃ g v, a = machine g v Indeterminate ∧
    b = machine (g + snd (resolution_state (rr_resolution r))) (v + 1)
          (fst (resolution_state (rr_resolution r))).
Proof. inversion 1. by eexists _, _. Qed.

Lemma observing_allowed db0 r :
  snd (resolution_state (rr_resolution r)) = 0%Z → op_allowed (observed_from db0) (OpRecover r).
Proof.
  intros Hr st db db' Hi He Ho i. destruct (decide (i = op_target (OpRecover r))) as [->|Hne].
  2: { destruct (effect_elsewhere _ _ _ _ _ Hi He Hne) as [-> _]. apply Ho. }
  destruct (spec_recover_inv _ _ _ (oe_spec _ _ _ _ He)) as (g & v & E1 & E2).
  rewrite Hr, Z.add_0_r in E2. right.
  assert (fst (resolution_state (rr_resolution r)) ∈ [Indeterminate; Verified; RecoveryBlocked]) as Hq
    by (destruct (rr_resolution r); cbn in *; set_solver).
  destruct (Ho (op_target (OpRecover r))) as [E|(g0 & v0 & v' & q & E3 & E4 & Hlt & _)].
  - rewrite E1 in E. eexists g, v, _, _. split_and!; [done|exact E2|lia|done].
  - rewrite E1 in E4. injection E4 as <- <- <-. eexists g, v0, _, _. split_and!; [done|exact E2|lia|done].
Qed.

(** C9: a recovery that only observes cannot reconstruct dispatch, nor can
    any recovery of a retained protective request.  Whatever it returns and
    whatever fails, it gives no prepared authority, and each transaction is
    as it was or was indeterminate and stays in its generation: still
    indeterminate, verified, or blocked, never prepared again. *)
Theorem observing_recovery_never_reprepares w h p a request approval floor w' r
    (Hreach : durable_reachable (T := T) w h)
    (Honly : approval = ObserveOnly ∨ retained_protective_request p request = true)
    (Hrun : recover_indeterminate_inner (T := T) p a request approval floor out w = (w', r)) :
  (∀ prepared, r ≠ Ok (DurableReprepared prepared)) ∧ observed_from (db_of w) (db_of w').
Proof.
  apply reachable_ok in Hreach as [Hw _].
  destruct (triple_recover_observe (out := out) (T := T) (observing_allowed (db_of w)) p a request approval
    floor Honly w) as [[_ Hp] Hq]; [split; [done|]; intros i; by left|].
  rewrite Hrun in Hp, Hq. split; [|done]. intros prepared ->. exact (Hq _ eq_refl).
Qed.

(** ** Commit *)

Lemma runs_commit st r env s s' c :
  runs (commit st r) env s s' c →
  ∃ s0 s1, sess_db s0 = sess_db s ∧ runs (commit_body st r) env s0 s1 c ∧ sess_db s' = sess_db s1.
Proof.
  unfold commit, require_normal_open. intros HH. run_inv.
  rename select (runs (immediate_transaction _) _ _ _ _) into Hi.
  rename select (runs (reconcile_filesystem_reserve_after_commit _) _ _ _ _) into Hr.
  apply runs_immediate in Hi as (s0 & s1 & ? & ? & Hd). apply runs_readonly in Hr; [|apply _].
  exists s0, s1. split_and!; [done..|congruence].
Qed.

Lemma authorize_commit_Ok signer snap d g p r :
  authorize_commit signer snap d g p = Ok r →
  cr_transaction_id r = ts_transaction_id snap ∧ cr_expected_generation r = ts_current_generation snap ∧
  cr_expected_state_version r = ts_state_version snap ∧
  cr_expected_binding_digest r = ts_binding_digest snap ∧ cr_desired_state_digest r = d ∧
  cr_graph_digest r = g ∧ cr_provenance_digest r = p.
Proof. unfold authorize_commit. intros HH. by ok_inv. Qed.

(** C10: a commit commits exactly the verified material.  When a control
    commits the verified authority it is given, the transaction was verified
    at the very generation and version of that authority, the generation's
    row holds the binding and the three digests of the authority, and the one
    event added to the trail is the commit of those digests. *)
Theorem commit_is_of_verified_material w h principal verified w' snap
    (Hreach : durable_reachable (T := T) w h)
    (Hrun : commit_verified principal verified out w = (w', Ok snap)) :
  let s := vd_snapshot verified in
  let id := ts_transaction_id s in
  principal = ts_principal s ∧ principal = vd_principal verified ∧
  machine_at (db_of w) id = machine (ts_current_generation s) (ts_state_version s) Verified ∧
  machine_at (db_of w') id = machine (ts_current_generation s) (ts_state_version s + 1) Committed ∧
  (∃ row, generations (db_of w) !! (id, ts_current_generation s) = Some row ∧
     sg_binding_digest row = ts_binding_digest s ∧
     commit_material row = [Some (vd_desired_state_digest verified); Some (vd_graph_digest verified);
                            Some (vd_provenance_digest verified)]) ∧
  ∃ e, trail (db_of w') id = trail (db_of w) id ++ [e] ∧
    event_of e = {| ev_kind := "committed"; ev_generation := ts_current_generation s;
                    ev_version := ts_state_version s + 1 |} ∧
    sa_payload_digest e = commit_payload (vd_desired_state_digest verified)
                            (vd_graph_digest verified) (vd_provenance_digest verified).
Proof.
  apply reachable_ok in Hreach as [[_ Hlim Hinv] _]. cbn zeta.
  change (druns (commit_verified principal verified) out w w' snap) in Hrun.
  unfold commit_verified, durable_snapshot in Hrun. drun_inv.
  repeat match goal with
    | Hn : negb _ = false |- _ => apply negb_false_iff, bool_decide_eq_true in Hn
    | Hm : map_err _ _ = Ok _ |- _ => apply map_err_Ok in Hm
    end. subst.
  rename select (druns (transactions (λ st, snapshot st _)) _ _ _ _) into Hsnap.
  apply druns_read in Hsnap as [Qs Qd _ _]; [|apply _].
  apply druns_transactions in Hrun as (s' & Hrun & ->). rewrite Qs in Hrun.
  apply runs_commit in Hrun as (s0 & s1 & Hd & Hr & Hd').
  rename select (authorize_commit _ _ _ _ _ = _) into Hreq.
  apply authorize_commit_Ok in Hreq as (E1 & E2 & E3 & E4 & E5 & E6 & E7).
  assert (sess_db s0 = db_of w) as Hdb by (unfold db_of; congruence). rewrite <- Hdb.
  apply (commit_body_spec (dac_transactions (w_control w))) in Hr
    as (t & old & g & g' & evs & Ha & Hg & Hv & Hb & Hm & _ & _); [|by rewrite Hdb].
  pose proof (ad_before _ _ _ _ _ _ _ _ _ _ _ _ _ Ha) as Hat.
  pose proof (ad_after _ _ _ _ _ _ _ _ _ _ _ _ _ Ha) as Hat'. cbn zeta in Hat'.
  unfold db_of. cbn [w_control with_control with_store dac_connection]. rewrite Hd'.
  rewrite <- E1, <- E2, <- E3, <- E4, <- E5, <- E6, <- E7, <- Hg, <- Hv, <- Hb.
  rewrite (machine_at_state _ _ _ _ _ _ _ _ Hat), (machine_at_state _ _ _ _ _ _ _ _ Hat').
  rewrite (trail_view _ _ _ _ _ _ (as_view _ _ _ _ _ _ _ _ Hat)).
  rewrite (trail_view _ _ _ _ _ _ (as_view _ _ _ _ _ _ _ _ Hat')).
  rename select (_ || _ = false) into Hp. rewrite !orb_false_iff, !negb_false_iff, !bool_decide_eq_true in Hp.
  split_and!; try tauto; [|by eexists]. exists g.
  by rewrite (current_generation_row _ _ _ _ _ _ _ _ _ (as_view _ _ _ _ _ _ _ _ Hat)
    (as_ok _ _ _ _ _ _ _ _ Hat)).
Qed.

(** ** Classification *)

(** The observation was current at some reading of the clock. *)
Definition seen_current (o : ObservationEnvelope) : Prop :=
  ∃ n now, out_clock out n = Some now ∧ require_current o now = Ok tt.

Lemma druns_current w w' o now :
  druns (observation_current o now) out w w' tt → w' = w ∧ require_current o now = Ok tt.
Proof. unfold observation_current. by intros [-> ?%map_err_Ok]%druns_dlift. Qed.

Lemma druns_now_current w w1 w2 o now u :
  druns authority_now_unix_ms out w w1 now → druns (observation_current o now) out w1 w2 u →
  seen_current o.
Proof.
  intros (Hn & _)%druns_now Hc. destruct u. apply druns_current in Hc as [_ Hc].
  by exists (w_clock_reads w), now.
Qed.

Lemma druns_ambiguous anchor o d w w' outcome :
  druns (recover_ambiguous anchor o d) out w w' outcome →
  seen_current o ∧ ∃ snap, outcome = DurableStillIndeterminate snap.
Proof.
  unfold recover_ambiguous. intros HH.
  apply druns_bind in HH as (w1 & now & Hn & HH). apply druns_bind in HH as (w2 & u & Hc & HH).
  split; [by eapply druns_now_current|]. drun_inv. destruct x0; drun_inv. by eexists.
Qed.

Lemma druns_twice_current o w w' now :
  druns (twice_current o) out w w' now → seen_current o.
Proof.
  unfold twice_current. intros HH.
  apply druns_bind in HH as (w1 & n & Hn & HH). apply druns_bind in HH as (w2 & u & Hc & HH).
  by eapply druns_now_current.
Qed.

Lemma druns_conflicting anchor o d w w' outcome :
  druns (recover_conflicting anchor o d) out w w' outcome →
  seen_current o ∧ ∃ snap, outcome = DurableBlocked snap.
Proof.
  unfold recover_conflicting. intros HH. apply druns_bind in HH as (w1 & now & Hn & HH).
  split; [by eapply druns_twice_current|]. drun_inv. destruct x0; drun_inv. by eexists.
Qed.

Lemma druns_recover_verified anchor plan o d w w' outcome :
  druns (recover_verified anchor plan o d) out w w' outcome →
  seen_current o ∧ ∃ v, outcome = DurableVerified v ∧
    (vd_desired_state_digest v, vd_graph_digest v, vd_provenance_digest v)
      = verified_commit_digests anchor plan d.
Proof.
  unfold recover_verified. intros HH. apply druns_bind in HH as (w1 & now & Hn & HH).
  split; [by eapply druns_twice_current|]. destruct (verified_commit_digests _ _ _) as [[d1 d2] d3].
  drun_inv. destruct x0; drun_inv. eexists. split; [done|]. cbn.
  rename select (_ || _ = false) into Hm. rewrite !orb_false_iff, !negb_false_iff, !bool_decide_eq_true in Hm.
  destruct Hm as [[[_ ->] ->] ->]. done.
Qed.

(** The candidate a recovery prepares again. *)
Definition reprepares (anchor : RecoveryAnchor) (plan : ReconciliationPlan) (o : ObservationEnvelope)
    (approval : RecoveryApproval) (p : PreparedDurableAuthority) : Prop :=
  digest_plan_precondition plan = Ok (ra_precondition_digest anchor) ∧ approval ≠ ObserveOnly ∧
  dc_plan (pd_candidate p) = plan ∧ dc_observation (pd_candidate p) = o ∧
  dc_request_digest (pd_candidate p) = ra_request_digest anchor ∧
  review_refused (dc_review (pd_candidate p)) = false ∧ pd_handed_off p = false.

Lemma druns_absent anchor c approval w w' outcome :
  druns (recover_absent (T := T) anchor c approval) out w w' outcome →
  seen_current (dc_observation c) ∧
  ∃ p, outcome = DurableReprepared p ∧ pd_candidate p = c ∧ pd_handed_off p = false.
Proof.
  unfold recover_absent. intros HH. apply druns_bind in HH as (w1 & ev & _ & HH).
  apply druns_bind in HH as (w2 & n1 & _ & HH). apply druns_bind in HH as (w3 & b & _ & HH).
  apply druns_bind in HH as (w4 & n2 & Hn & HH). apply druns_bind in HH as (w5 & u & Hc & HH).
  split; [by eapply druns_now_current|]. drun_inv. destruct x0; drun_inv. by eexists.
Qed.

Lemma druns_change_proposed anchor p plan o d approval floor w w' outcome :
  druns (recover_change_proposed (T := T) anchor p plan o d approval floor) out w w' outcome →
  seen_current o ∧
  match outcome with
  | DurableVerified _ => False
  | DurableBlocked _ => ∃ x, digest_plan_precondition plan = Ok x ∧ x ≠ ra_precondition_digest anchor
  | DurableReprepared q => reprepares anchor plan o approval q
  | DurableStillIndeterminate _ =>
      digest_plan_precondition plan = Ok (ra_precondition_digest anchor) ∧
      (approval = ObserveOnly ∨
       ∃ review, review_candidate p plan (classify_candidate_risk plan floor) None = Ok review ∧
                 review_refused review = true)
  end.
Proof.
  unfold recover_change_proposed. intros HH. apply druns_bind in HH as (w1 & pd & [-> Hpd]%druns_dlift & HH).
  case_bool_decide as Hd; cbn [negb] in HH.
  2: { apply druns_conflicting in HH as [? [snap ->]]. split; [done|]. by exists pd. }
  subst pd.
  assert (approval = ObserveOnly ∨ approval ≠ ObserveOnly) as [-> |Hne] by (destruct approval; auto).
  { apply druns_ambiguous in HH as [? [snap ->]]. split; [done|]. split; [done|by left]. }
  assert (∀ (x y : D V DurableRecoveryOutcome), match approval with ObserveOnly => x | _ => y end = y) as Hm
    by by destruct approval.
  rewrite Hm in HH. clear Hm. drun_inv.
  match goal with Hr : map_err of_subject _ = Ok ?rv |- _ => rename Hr into Hrev, rv into review end.
  destruct (review_refused review) eqn:Hre; drun_inv.
  - apply druns_ambiguous in HH as [? [snap ->]]. split; [done|]. split; [done|]. right. by exists review.
  - apply druns_absent in HH as [? (q & -> & Hq & Hh)]. split; [done|]. unfold reprepares. rewrite Hq.
    by split_and!.
Qed.

(** A recovery concludes what its observation shows.  A recovery that
    succeeds started from an indeterminate transaction whose durable request
    digest is that of the request it was given, planned afresh, and saw a
    valid and current observation; it reports the state verified exactly when
    the plan has nothing to change, with the commit digests of that
    observation; blocked only when the precondition is no longer the one
    that was authorized; prepared again only when that precondition still
    holds, the review allows it and the caller did not ask only to observe;
    and otherwise the transaction stays indeterminate. *)
Theorem recovery_follows_observation w w' p a request approval floor outcome
    (Hrun : recover_indeterminate_inner (T := T) p a request approval floor out w = (w', Ok outcome)) :
  ∃ anchor plan o d,
    ts_state (ra_snapshot anchor) = Indeterminate ∧ ts_principal (ra_snapshot anchor) = p ∧
    ts_request_id (ra_snapshot anchor) = pq_request_id request ∧
    digest_request request = Ok (ra_request_digest anchor) ∧
    snd (if retained_protective_request p request
         then protective_recovery_candidate (w_previews w) p a request
         else authority_candidate (w_previews w) p a request) = Ok (plan, o) ∧
    ObservationEnvelope_validate o (rp_provider plan) (rp_resource plan)
      (rp_observation_capability plan) = Ok tt ∧
    digest_observation o = Ok d ∧ seen_current o ∧
    match outcome with
    | DurableVerified v =>
        rp_status plan = NoChange ∧
        (vd_desired_state_digest v, vd_graph_digest v, vd_provenance_digest v)
          = verified_commit_digests anchor plan d
    | DurableBlocked _ =>
        rp_status plan = ChangeProposed ∧
        ∃ x, digest_plan_precondition plan = Ok x ∧ x ≠ ra_precondition_digest anchor
    | DurableReprepared q => rp_status plan = ChangeProposed ∧ reprepares anchor plan o approval q
    | DurableStillIndeterminate _ =>
        rp_status plan = Blocked ∨
        rp_status plan = ChangeProposed ∧
        digest_plan_precondition plan = Ok (ra_precondition_digest anchor) ∧
        (approval = ObserveOnly ∨
         ∃ review, review_candidate p plan (classify_candidate_risk plan floor) None = Ok review ∧
                   review_refused review = true)
    end.
Proof.
  change (druns (recover_indeterminate_inner (T := T) p a request approval floor) out w w' outcome) in Hrun.
  unfold recover_indeterminate_inner, as_principal, matching_anchor, observation_valid in Hrun.
  apply druns_bind in Hrun as (w1 & pid & [-> Hpid]%druns_dlift & Hrun).
  apply map_err_Ok, typed_id_new_Ok in Hpid as [-> _].
  apply druns_bind in Hrun as (w1 & anchor & Hanchor & Hrun).
  assert (w_previews w1 = w_previews w) as Hpv.
  { unfold request_anchor in Hanchor. by apply druns_transactions in Hanchor as (? & _ & ->). }
  cbv zeta in Hrun. drun_inv. 
  match goal with Hp : druns (previews _) _ _ _ ?x |- _ => rename Hp into Hpl; destruct x as [plan o] end.
  unfold druns, previews in Hpl. rewrite Hpv in Hpl. drun_inv.
  repeat match goal with
    | Hn : negb _ = false |- _ => apply negb_false_iff, bool_decide_eq_true in Hn
    | Hm : map_err _ _ = Ok _ |- _ => apply map_err_Ok in Hm
    | u : () |- _ => destruct u
    end. subst.
  rename select (_ || _ = false) into Hb. rewrite orb_false_iff, !negb_false_iff, !bool_decide_eq_true in Hb.
  destruct Hb as [Hb1 Hb2].
  assert (snd (if retained_protective_request p request
         then protective_recovery_candidate (w_previews w) p a request
         else authority_candidate (w_previews w) p a request) = Ok (plan, o)) as Hsnd.
  { destruct (if retained_protective_request p request then _ else _) as [v r].
    injection Hpl as _ Hpl. by apply map_err_Ok in Hpl. }
  eexists anchor, plan, o, _. do 7 (split; [done|]).
  destruct (rp_status plan) eqn:Hst.
  - apply druns_recover_verified in Hrun as [? (v & -> & ?)]. done.
  - apply druns_change_proposed in Hrun as [Hs Ho]. split; [done|]. destruct outcome; [done|done|done|by right].
  - apply druns_ambiguous in Hrun as [? [snap ->]]. split; [done|by left].
Qed.
End outcomes.
