(* ===== verification/PlanWitnesses.v ===== *)
(** * Concrete plans, reviews and approvals

    A catalog, an intent, observations, a plan and its review, and a run of
    the approval lifecycle, on which the theorems of the planning and
    approval components are applied. *)

From Stdlib Require Import ZArith Lia.
From stdpp Require Import base numbers gmap strings list fin_maps sorting.
From S2P Require Import Prelude Text Core Digest CryptoModel Ordered Capability.
From S2P Require Import Graph GraphFacts Intent Planner PlannerFacts.
From S2P Require Import Policy RiskReview RiskReviewFacts ApprovalStore ApprovalInvariant.
From S2P Require Import ApprovalFacts.

Set Default Goal Selector "!".

Definition result_or {E A} (d : A) (r : result E A) : A := match r with Ok x => x | Err _ => d end.

(** ** Capabilities *)

Definition demo_blueprint (id : CapabilityId) (relations : list CapabilityRelation)
    (resources : list DesiredResourceBlueprint) : CapabilityBlueprint :=
  {| cb_id := id; cb_title := id; cb_relations := relations; cb_desired_resources := resources |}.

Definition demo_unit : ResourceId := "systemd:unit:linura-managed-web.service".
Definition demo_template (state : gmap string string) : DesiredResourceBlueprint :=
  {| drb_provider := "systemd"; drb_resource := demo_unit;
     drb_observation_capability := "systemd.unit.observe"; drb_state := state |}.

Definition demo_catalog : CapabilityCatalog :=
  {| blueprints :=
       {["cap:web" := demo_blueprint "cap:web"
           [{| cr_kind := Requires; cr_capability := "cap:service" |}] [];
         "cap:service" := demo_blueprint "cap:service" [] [demo_template {["active_state" := "active"]}]]} |}.

Lemma resolve_order_irrelevant_witness :
  resolve demo_catalog ["cap:web"; "cap:service"; "cap:web"]
  = resolve demo_catalog ["cap:service"; "cap:web"].
Proof. apply resolve_order_irrelevant. set_solver. Defined.

(** ** Observations *)

Definition demo_observation (time sequence : Z) (state : string) : ObservationEnvelope :=
  {| oe_provider := "systemd"; oe_resource := demo_unit; oe_capability := "systemd.unit.observe";
     oe_authority := NativeApi; oe_observed_at_unix_ms := time; oe_valid_for_ms := 500;
     oe_sequence := sequence; oe_attributes := {["active_state" := Text state]} |}.

Lemma freshness_window_witness :
  require_current (demo_observation 1000 1 "active") 1500 = Ok tt ∧
  require_current (demo_observation 1000 1 "active") 1501 = Err StaleEvidence ∧
  require_current (demo_observation 1000 1 "active") 999 = Err FutureEvidence.
Proof.
  assert (is_u64 1000 ∧ is_u64 500 ∧ is_u64 1500 ∧ is_u64 1501 ∧ is_u64 999) as (H1 & H2 & H3 & H4 & H5)
    by (unfold is_u64, u64_max; lia).
  split_and!.
  - refine (proj2 (proj1 (freshness_window (demo_observation 1000 1 "active") 1500 H3 H1 H2)) _). cbn. lia.
  - refine (proj2 (proj1 (proj2 (proj2 (freshness_window (demo_observation 1000 1 "active") 1501 H4 H1 H2)))) _).
    cbn. lia.
  - refine (proj2 (proj1 (proj2 (freshness_window (demo_observation 1000 1 "active") 999 H5 H1 H2))) _).
    cbn. lia.
Defined.

Lemma evidence_id_inj_witness :
  evidence_id (demo_observation 1000 7 "active") = evidence_id (demo_observation 1000 7 "failed") ∧
  oe_sequence (demo_observation 1000 7 "active") = oe_sequence (demo_observation 1000 7 "failed").
Proof.
  split; [reflexivity|].
  apply (evidence_id_inj (demo_observation 1000 7 "active") (demo_observation 1000 7 "failed"));
    cbn; unfold is_u64, u64_max; try lia. reflexivity.
Defined.

(** ** The graph *)

Definition demo_graph : SystemGraph :=
  fst (record_observation SystemGraph_default (demo_observation 1000 1 "active") Current).

Lemma graph_has_no_dangling_edges_witness :
  length (graph_edges demo_graph) = 4 ∧
  ∀ e, e ∈ graph_edges demo_graph →
    is_Some (graph_node demo_graph (edge_from e)) ∧ is_Some (graph_node demo_graph (edge_to e)).
Proof.
  split; [vm_compute; reflexivity|].
  exact (proj1 (graph_has_no_dangling_edges demo_graph (rtc_once _ _
    (step_record SystemGraph_default (demo_observation 1000 1 "active") Current)))).
Defined.

Lemma two_observed {A B} (x : A) (f : B) a b fa fb : (x, f) ∈ [(a, fa); (b, fb)] → x = a ∨ x = b.
Proof.
  intros [H|H%list_elem_of_singleton]%elem_of_cons; injection H as <- <-; [by left|by right].
Qed.

(** Evidence arrives out of order and the clock steps back. *)
Lemma newest_observation_is_current_witness :
  ∃ o n, oe_sequence o = 3%Z ∧
    graph_node (record_all SystemGraph_default
      [(demo_observation 2000 3 "active", Current); (demo_observation 2100 2 "failed", Current)])
      (NResource demo_unit) = Some n ∧
    node_attributes n !! ("observed." +:+ "active_state")
      = ObservedValue_to_string <$> oe_attributes o !! "active_state".
Proof.
  destruct (newest_observation_is_current SystemGraph_default demo_unit "systemd"
    [(demo_observation 2000 3 "active", Current); (demo_observation 2100 2 "failed", Current)])
    as (o & n & Ho & _ & Hmax & Hn & _ & Hk).
  - reflexivity.
  - intros o f [-> | ->]%two_observed _; (split; [cbn; unfold is_u64, u64_max; lia|reflexivity]).
  - exists (demo_observation 2000 3 "active"). split; [by left|reflexivity].
  - exists o, n. split; [|split; [exact Hn|apply Hk]].
    assert (Hle := Hmax (demo_observation 2000 3 "active") ltac:(by left) eq_refl).
    apply two_observed in Ho as [-> | ->]; [reflexivity|]. cbn in Hle. lia.
Defined.

(** ** Compiling an intent *)

Definition demo_actor : Actor := {| actor_id := "actor:anna"; actor_kind := Human; actor_interactive := true |}.
Definition demo_intent : Intent :=
  {| intent_id := "intent:web"; intent_actor := demo_actor; intent_statement := "serve the web";
     intent_status := Active; intent_requirements := []; intent_supersedes := [] |}.

Definition demo_intent_plan : IntentPlan :=
  result_or {| ip_intent_id := ""; ip_capability_resolution := Resolution_default;
               ip_desired_state := {| ds_resources := [] |}; ip_warnings := [] |}
    (compile_intent demo_intent demo_catalog ["cap:web"]).

Lemma demo_compiles : compile_intent demo_intent demo_catalog ["cap:web"] = Ok demo_intent_plan.
Proof. vm_compute. reflexivity. Qed.

Lemma compiled_intent_is_exact_union_witness :
  length (ds_resources (ip_desired_state demo_intent_plan)) = 1 ∧
  ∀ d, d ∈ ds_resources (ip_desired_state demo_intent_plan) →
    sr_intent_ids (dr_reason d) = ["intent:web"].
Proof.
  split; [vm_compute; reflexivity|]. intros d Hd.
  apply (compiled_intent_is_exact_union demo_intent demo_catalog ["cap:web"] demo_intent_plan
    demo_compiles) in Hd as [Hd _]. exact Hd.
Defined.

(** Two capabilities that want different values of one attribute. *)
Definition demo_disagreeing : CapabilityCatalog :=
  {| blueprints :=
       {["cap:off" := demo_blueprint "cap:off" [] [demo_template {["active_state" := "inactive"]}];
         "cap:on" := demo_blueprint "cap:on" [] [demo_template {["active_state" := "active"]}]]} |}.

Lemma demo_disagreeing_selected :
  res_selected (resolve demo_disagreeing ["cap:on"; "cap:off"]) = {["cap:on"; "cap:off"]}.
Proof. vm_compute. reflexivity. Qed.

Lemma compile_detects_disagreement_witness :
  ∃ r k a b, a ≠ b ∧
    compile_intent demo_intent demo_disagreeing ["cap:on"; "cap:off"] = Err (DesiredStateConflict r k a b).
Proof.
  apply (compile_detects_disagreement demo_intent demo_disagreeing ["cap:on"; "cap:off"]).
  - reflexivity.
  - reflexivity.
  - rewrite demo_disagreeing_selected. intros c [->%elem_of_singleton| ->%elem_of_singleton]%elem_of_union;
      eexists; reflexivity.
  - rewrite demo_disagreeing_selected. intros c1 c2 [->%elem_of_singleton| ->%elem_of_singleton]%elem_of_union _
      (b & Hb & Hr); vm_compute in Hb; injection Hb as <-; by apply not_elem_of_nil in Hr.
  - rewrite demo_disagreeing_selected. intros Hagree.
    assert ("active" = "inactive"); [|done].
    apply (Hagree "cap:on" (demo_template {["active_state" := "active"]})
                  "cap:off" (demo_template {["active_state" := "inactive"]}) "active_state").
    + split; [set_solver|]. eexists. split; [vm_compute; reflexivity|]. by left.
    + split; [set_solver|]. eexists. split; [vm_compute; reflexivity|]. by left.
    + reflexivity.
    + reflexivity.
    + reflexivity.
Defined.

(** ** Planning and review *)

Definition demo_reason : SemanticReason :=
  {| sr_summary := "serve the web"; sr_intent_ids := ["intent:web"]; sr_requirement_ids := [];
     sr_capability_ids := ["cap:service"] |}.
Definition demo_desired : DesiredResource :=
  {| dr_provider := "systemd"; dr_resource := demo_unit;
     dr_observation_capability := "systemd.unit.observe";
     dr_state := {["active_state" := "active"]}; dr_reason := demo_reason |}.
Definition demo_planning_observation (state : gmap string string) : PlanningObservation :=
  {| po_provider := "systemd"; po_resource := demo_unit;
     po_observation_capability := "systemd.unit.observe"; po_authority := "native-api";
     po_evidence_id := "observation:v1:demo"; po_freshness := PlanningCurrent; po_attributes := state |}.

Definition empty_plan : ReconciliationPlan :=
  {| rp_id := ""; rp_request_id := ""; rp_actor := demo_actor; rp_provider := ""; rp_resource := "";
     rp_observation_capability := ""; rp_reason := demo_reason; rp_observed_evidence_id := "";
     rp_prospective_risk := ReadOnly; rp_status := NoChange; rp_execution_authority := Disabled;
     rp_changes := []; rp_findings := [] |}.

(** The unit is observed as failed: a change is proposed. *)
Definition demo_failed : PlanningObservation := demo_planning_observation {["active_state" := "failed"]}.
Definition demo_plan : ReconciliationPlan :=
  result_or empty_plan (plan_resource "request:1" demo_actor demo_desired demo_failed).
Lemma demo_planned : plan_resource "request:1" demo_actor demo_desired demo_failed = Ok demo_plan.
Proof. vm_compute. reflexivity. Qed.

(** The attribute is not observed: the plan is blocked. *)
Definition demo_unseen : PlanningObservation := demo_planning_observation {["load_state" := "loaded"]}.
Definition demo_blocked_plan : ReconciliationPlan :=
  result_or empty_plan (plan_resource "request:2" demo_actor demo_desired demo_unseen).
Lemma demo_blocked_planned : plan_resource "request:2" demo_actor demo_desired demo_unseen = Ok demo_blocked_plan.
Proof. vm_compute. reflexivity. Qed.

Lemma plan_is_exact_difference_witness :
  rp_status demo_plan = ChangeProposed ∧
  foldl apply_change (po_attributes demo_failed) (rp_changes demo_plan)
  = dr_state demo_desired ∪ po_attributes demo_failed.
Proof.
  split; [vm_compute; reflexivity|].
  exact (proj1 (proj2 (proj2 (plan_is_exact_difference _ _ _ _ _ demo_planned)))).
Defined.

Definition demo_plan_store : PlanStore := result_or PlanStore_default (PlanStore_with_capacity 1).

(** A store of one plan: the second plan evicts the first. *)
Lemma plan_store_refines_queue_witness :
  queue (fst (PlanStore_insert (insert_all demo_plan_store [demo_plan]) demo_blocked_plan))
  = [demo_blocked_plan].
Proof.
  destruct (plan_store_refines_queue 1 demo_plan_store [demo_plan] demo_blocked_plan)
    as (_ & _ & _ & _ & _ & Hnew); [lia|reflexivity|].
  assert (queue (insert_all demo_plan_store [demo_plan]) = [demo_plan]) as Hq
    by (vm_compute; reflexivity).
  rewrite Hq in Hnew. destruct Hnew as [_ Hnew].
  - intros p ->%list_elem_of_singleton. vm_compute. discriminate.
  - exact Hnew.
Defined.

Definition empty_review : TrustedPolicyReview :=
  {| tpr_evaluation := {|
       pe_subject := {| ps_principal := ""; ps_plan_id := ""; ps_request_id := "";
         ps_actor := demo_actor; ps_provider := ""; ps_resource := ""; ps_capability := "";
         ps_reason := demo_reason; ps_observed_evidence_id := ""; ps_prospective_risk := ReadOnly;
         ps_status := ReviewNoChange; ps_changes := []; ps_findings := [] |};
       pe_binding := {| rb_principal := ""; rb_plan_id := ""; rb_request_id := "";
         rb_observed_evidence_id := ""; rb_provider := ""; rb_resource := ""; rb_capability := "";
         rb_policy_id := ""; rb_policy_revision_id := "" |};
       pe_decision := Allow |} |}.

Definition demo_review : TrustedPolicyReview :=
  result_or empty_review (review_plan "uid:1000" demo_plan).
Lemma demo_reviewed : review_plan "uid:1000" demo_plan = Ok demo_review.
Proof. vm_compute. reflexivity. Qed.

Lemma planned_change_needs_approval_witness :
  pe_decision (tpr_evaluation demo_review) ≠ Allow ∧
  ∃ rule, rule ∈ rk_rules (plan_risk_policy demo_plan) ∧ RiskRule_matches rule demo_plan = true.
Proof.
  destruct (planned_change_needs_approval _ _ _ _ _ _ _ demo_planned demo_reviewed) as [_ H].
  split; [vm_compute; discriminate|].
  refine (proj1 (H Administrator _ _)). vm_compute. reflexivity.
Defined.

Definition demo_blocked_review : TrustedPolicyReview :=
  result_or empty_review
    (review_plan_with_classification "uid:1000" demo_blocked_plan (classify_plan_risk demo_blocked_plan)).

Lemma review_fails_closed_witness :
  ∃ reason, pe_decision (tpr_evaluation demo_blocked_review) = DecisionBlocked reason.
Proof.
  apply (review_fails_closed "uid:1000" demo_blocked_plan (classify_plan_risk demo_blocked_plan)
    demo_blocked_review); [vm_compute; reflexivity|].
  right; right. vm_compute. reflexivity.
Defined.

(** ** A run of the approval lifecycle *)

Definition demo_admin : PolicyAuthenticatedApprover :=
  {| aa_principal := "uid:1000"; aa_kind := Human; aa_approval_classes := {[Administrator]} |}.

Definition empty_evidence : PolicyApprovalEvidence :=
  {| ae_id := ""; ae_request_id := ""; ae_requirement := {| ar_class := Administrator;
       ar_binding := tpr_evaluation empty_review |}; ae_approver := "";
     ae_issued_at_unix_seconds := 0; ae_expires_at_unix_seconds := 0 |}.

Definition demo_issue (s : ApprovalReviewControl) (now expires : Z) :=
  issue s (Ok now) "approval:1" demo_review demo_admin expires.

(** Issued at 1000 until 2000; refused at 3000, when the expired evidence is
    retired; issued again once the tombstone has lapsed. *)
Definition demo_control1 : ApprovalReviewControl :=
  fst (demo_issue ApprovalReviewControl_with_clock 1000 2000).
Definition demo_control2 : ApprovalReviewControl := fst (demo_issue demo_control1 3000 4000).
Definition demo_control3 : ApprovalReviewControl := fst (demo_issue demo_control2 89400 90000).

Definition demo_evidence1 : PolicyApprovalEvidence :=
  result_or empty_evidence (snd (demo_issue ApprovalReviewControl_with_clock 1000 2000)).
Definition demo_evidence2 : PolicyApprovalEvidence :=
  result_or empty_evidence (snd (demo_issue demo_control2 89400 90000)).

Lemma demo_issue_run s log now expires e :
  run s log → is_u64 now → is_u64 expires →
  issue_events s demo_admin (snd (demo_issue s now expires)) = e →
  run (fst (demo_issue s now expires)) (log ++ e).
Proof.
  intros Hrun Hn He <-. eapply run_issue; [exact Hrun| |exact He|apply surjective_pairing].
  intros t [= <-]. exact Hn.
Qed.

Lemma demo_run1 : run demo_control1 [EIssued demo_evidence1 demo_admin].
Proof.
  apply (demo_issue_run _ [] 1000 2000); [constructor|unfold is_u64, u64_max; lia..|].
  vm_compute. reflexivity.
Qed.

Lemma demo_run2 : run demo_control2 [EIssued demo_evidence1 demo_admin].
Proof.
  apply (demo_issue_run _ [EIssued demo_evidence1 demo_admin] 3000 4000 []);
    [exact demo_run1|unfold is_u64, u64_max; lia..|]. vm_compute. reflexivity.
Qed.

Lemma demo_run3 :
  run demo_control3 [EIssued demo_evidence1 demo_admin; EIssued demo_evidence2 demo_admin].
Proof.
  apply (demo_issue_run _ [EIssued demo_evidence1 demo_admin] 89400 90000 [EIssued demo_evidence2 demo_admin]);
    [exact demo_run2|unfold is_u64, u64_max; lia..|]. vm_compute. reflexivity.
Qed.

Lemma approval_store_bounded_witness :
  arc_tombstone_accounted_bytes demo_control2 = 74%Z ∧
  arc_tombstone_accounted_bytes demo_control2 = total tomb_accounted_bytes (arc_tombstones demo_control2).
Proof.
  split; [vm_compute; reflexivity|].
  exact (proj1 (proj2 (proj2 (proj2 (proj2 (approval_store_bounded _ _ demo_run2)))))).
Defined.

Lemma approval_accepted_exactly_witness :
  ∃ e a, EIssued e a ∈ [EIssued demo_evidence1 demo_admin] ∧
    ar_binding (ae_requirement e) = tpr_evaluation demo_review ∧
    (ae_issued_at_unix_seconds e ≤ 1999 < ae_expires_at_unix_seconds e)%Z.
Proof.
  destruct (proj1 (approval_accepted_exactly demo_control1 _ (evidence_name 0) demo_review 1999 demo_run1
    ltac:(vm_compute; discriminate)) ltac:(vm_compute; reflexivity))
    as (e & a & reason & He & _ & Hb & _ & _ & _ & _ & Hw & _).
  exists e, a. split; [exact He|split; [exact Hb|exact Hw]].
Defined.

Lemma approval_request_not_replayed_witness :
  ae_request_id demo_evidence1 = ae_request_id demo_evidence2 ∧
  (ae_expires_at_unix_seconds demo_evidence1 ≤ ae_issued_at_unix_seconds demo_evidence2)%Z.
Proof.
  split; [vm_compute; reflexivity|].
  refine (proj2 (approval_request_not_replayed demo_control3 _ [] demo_evidence1 demo_admin []
    demo_evidence2 demo_admin [] demo_run3 eq_refl) _). vm_compute. reflexivity.
Defined.
