(* ===== verification/DurableWitnesses.v ===== *)
(** * A run of the durable authority

    A control on a fresh store that plans a candidate, has it approved,
    prepares and hands it off, observes the interrupted effect, verifies it
    and commits it; the theorems on previews, digests and durable authority
    are applied on it. *)

From Stdlib Require Import ZArith Lia.
From Stdlib Require Import Strings.Byte.
From stdpp Require Import base numbers gmap strings list fin_maps sorting.
From S2P Require Import Prelude Text Core Digest Binding CryptoModel Authority Sqlite Integrity.
From S2P Require Import Validation Store Scenario Run Protocol StoreInvariant.
From S2P Require Import StoreRefine StoreSpec.
From S2P Require Import Ordered Graph Planner Policy RiskReview ApprovalStore.
From S2P Require Import ApprovalInvariant PlanWitnesses Preview Protective DurableDigest.
From S2P Require Import DurableAuthority DurableInvariant.
From S2P Require Import DurableFacts DurableOutcomes.

Set Default Goal Selector "!".

(** ** The planner behind the control *)

(** Each planning is answered by the next of these: the unit has failed and
    is to be started, or is as desired. *)
Inductive Answer := UnitFailed | UnitActive.

Definition demo_settled_plan : ReconciliationPlan :=
  PlanWitnesses.result_or empty_plan
    (plan_resource "request:1" demo_actor demo_desired
       (demo_planning_observation {["active_state" := "active"]})).

Definition answer (a : Answer) : ReconciliationPlan * ObservationEnvelope :=
  match a with
  | UnitFailed => (demo_plan, demo_observation 1000 1 "failed")
  | UnitActive => (demo_settled_plan, demo_observation 1000 2 "active")
  end.

Definition next_answer (v : list Answer)
    : list Answer * result PlanPreviewControlError (ReconciliationPlan * ObservationEnvelope) :=
  match v with
  | [] => ([], Err (PreviewObservation "no observation"))
  | a :: v => (v, Ok (answer a))
  end.

#[export] Instance demo_previews : PlanPreviews (list Answer) := {|
  authority_candidate v _ _ _ := next_answer v;
  protective_authority_candidate v _ _ _ _ := next_answer v;
  protective_recovery_candidate v _ _ _ := next_answer v;
|}.

Lemma next_answer_ok v x : snd (next_answer v) = Ok x → plan_ok x.
Proof.
  destruct v as [|a v]; cbn [next_answer snd]; [discriminate|]. intros E.
  assert (answer a = x) as <- by congruence. destruct a; vm_compute; reflexivity.
Qed.

#[export] Instance demo_previews_laws : PlanPreviewsLaws (list Answer).
Proof. constructor; intros v; intros; by apply (next_answer_ok v). Qed.

#[export] Instance demo_settings : ProtectiveSettings unit := {| settings_current _ _ _ := Ok None |}.

(** ** The run *)

Definition demo_out : Outside := {| out_env := demo_env; out_clock := λ _, Some 1000%Z |}.
Lemma demo_out_ok : out_ok demo_out.
Proof. intros n ms [= <-]. lia. Qed.

Definition demo_request : PlanDesiredStateRequest :=
  {| pq_request_id := "request:1"; pq_provider := "systemd"; pq_resource := demo_unit;
     pq_observation_capability := "systemd.unit.observe"; pq_reason := demo_reason;
     pq_desired_state := {["active_state" := "active"]} |}.

Definition empty_control : DurableAuthorityControl :=
  {| dac_approvals := ApprovalReviewControl_with_clock; dac_transactions := demo_store;
     dac_connection := demo_session demo_db; dac_authority_signer := demo_signer;
     dac_last_authority_unix_ms := 0 |}.
Definition initial_world : World (list Answer) :=
  {| w_control := empty_control; w_previews := [UnitFailed; UnitFailed; UnitActive];
     w_clock_reads := 0 |}.

Abbreviation new_run :=
  (DurableAuthorityControl_new (V := list Answer) demo_store (demo_session demo_db) demo_signer demo_out
    initial_world).
Definition world0 : World (list Answer) := fst new_run.

Abbreviation candidate_run :=
  (candidate_inner "uid:1000" demo_actor demo_request None None demo_out world0).
Definition world1 : World (list Answer) := fst candidate_run.
Definition empty_observation : ObservationEnvelope := demo_observation 0 0 "".
Definition empty_candidate : DurableAuthorityCandidate :=
  {| dc_principal := ""; dc_plan := empty_plan; dc_observation := empty_observation;
     dc_review := empty_review;
     dc_risk := {| rpv_risk := ReadOnly; rpv_revision := ""; rpv_rule_ids := [] |};
     dc_risk_floor := None; dc_request_digest := ""; dc_precondition_digest := "";
     dc_observation_digest := ""; dc_review_digest := ""; dc_protective := None |}.
Definition demo_candidate : DurableAuthorityCandidate :=
  PlanWitnesses.result_or empty_candidate (snd candidate_run).

Abbreviation issue_run :=
  (issue_approval (V := list Answer) "approval:1" demo_candidate demo_admin 2 demo_out world1).
Definition world2 : World (list Answer) := fst issue_run.
Definition demo_evidence_id : ApprovalEvidenceId :=
  ae_id (PlanWitnesses.result_or empty_evidence (snd issue_run)).

Abbreviation prepare_run :=
  (prepare_authority (T := unit) demo_candidate (Some demo_evidence_id) demo_out world2).
Definition world3 : World (list Answer) := fst prepare_run.
Definition empty_prepared : PreparedDurableAuthority :=
  {| pd_candidate := empty_candidate; pd_binding := demo_binding; pd_snapshot := snap_prepared;
     pd_approval_evidence_id := None; pd_handed_off := false |}.
Definition demo_prepared : PreparedDurableAuthority :=
  PlanWitnesses.result_or empty_prepared (snd prepare_run).

Abbreviation handoff_run :=
  (handoff_authority (T := unit) "uid:1000" demo_prepared demo_out world3).
Definition world4 : World (list Answer) := fst handoff_run.
Definition empty_permit : DispatchPermit :=
  {| dp_transaction_id := ""; dp_generation := 0; dp_state_version := 0; dp_binding_digest := "";
     dp_authority_use_digest := "" |}.
Definition demo_permit : DispatchPermit :=
  fst (PlanWitnesses.result_or (empty_permit, empty_prepared) (snd handoff_run)).
Definition demo_handed_off : PreparedDurableAuthority :=
  snd (PlanWitnesses.result_or (empty_permit, empty_prepared) (snd handoff_run)).

Abbreviation observe_run :=
  (recover_indeterminate_inner (T := unit) "uid:1000" demo_actor demo_request ObserveOnly None demo_out
    world4).
Definition world5 : World (list Answer) := fst observe_run.

Abbreviation verify_run :=
  (recover_indeterminate_inner (T := unit) "uid:1000" demo_actor demo_request ObserveOnly None demo_out
    world5).
Definition world6 : World (list Answer) := fst verify_run.
Definition empty_verified : VerifiedDurableAuthority :=
  {| vd_snapshot := snap_verified; vd_principal := ""; vd_desired_state_digest := "";
     vd_graph_digest := ""; vd_provenance_digest := "" |}.
Definition verified_of {E} (r : result E DurableRecoveryOutcome) : VerifiedDurableAuthority :=
  match r with Ok (DurableVerified v) => v | _ => empty_verified end.
Definition demo_verified_authority : VerifiedDurableAuthority := verified_of (snd verify_run).

Abbreviation commit_run :=
  (commit_verified "uid:1000" demo_verified_authority demo_out world6).
Definition world7 : World (list Answer) := fst commit_run.


(** ** The run succeeds *)

Lemma ran {W E A} (d : A) (x : W * result E A) :
  is_ok (snd x) = true → x = (fst x, Ok (PlanWitnesses.result_or d (snd x))).
Proof. by destruct x as [w [a|e]]. Qed.

Definition empty_handoff : DispatchPermit * PreparedDurableAuthority := (empty_permit, empty_prepared).

Lemma new_ran : new_run = (world0, Ok tt).
Proof.
  rewrite (ran tt new_run) by (vm_compute; reflexivity).
  by destruct (PlanWitnesses.result_or tt (snd new_run)).
Qed.
Lemma candidate_ran : candidate_run = (world1, Ok demo_candidate).
Proof. refine (ran empty_candidate candidate_run _). vm_compute. reflexivity. Qed.
Lemma prepare_ran : prepare_run = (world3, Ok demo_prepared).
Proof. refine (ran empty_prepared prepare_run _). vm_compute. reflexivity. Qed.
Lemma handoff_ran : handoff_run = (world4, Ok (demo_permit, demo_handed_off)).
Proof.
  unfold demo_permit, demo_handed_off. rewrite <- surjective_pairing.
  refine (ran empty_handoff handoff_run _). vm_compute. reflexivity.
Qed.
Lemma commit_ran : commit_run = (world7, Ok (PlanWitnesses.result_or snap_verified (snd commit_run))).
Proof. refine (ran snap_verified commit_run _). vm_compute. reflexivity. Qed.

Lemma demo_db_inv : db_inv demo_store (sess_db (demo_session demo_db)).
Proof. apply empty_db_inv; [apply demo_limits_nonneg|apply demo_empty]. Qed.

Definition held_candidate : Held := {| held_candidates := [demo_candidate]; held_prepared := [] |}.
Definition held_authority : Held :=
  {| held_candidates := [demo_candidate]; held_prepared := [demo_prepared] |}.

Abbreviation reaches := (durable_reachable (T := unit)).

Lemma reach0 : reaches world0 {| held_candidates := []; held_prepared := [] |}.
Proof. exact (reach_new _ _ _ _ _ _ demo_out_ok demo_limits_ok demo_db_inv new_ran). Qed.
Lemma reach1 : reaches world1 held_candidate.
Proof. exact (reach_candidate _ _ _ _ _ _ _ _ _ reach0 demo_out_ok candidate_ran). Qed.
Lemma reach2 : reaches world2 held_candidate.
Proof.
  refine (reach_issue _ _ _ _ _ _ _ _ _ reach1 demo_out_ok _ (surjective_pairing issue_run)).
  unfold is_u64, u64_max. lia.
Qed.
Lemma reach3 : reaches world3 held_authority.
Proof.
  refine (reach_prepare _ _ _ _ _ _ _ reach2 demo_out_ok _ prepare_ran). by left.
Qed.
Lemma demo_held : demo_prepared ∈ held_prepared held_authority.
Proof. by left. Qed.
Lemma reach4 : reaches world4 held_authority.
Proof. exact (reach_handoff _ _ _ _ _ _ _ reach3 demo_out_ok demo_held handoff_ran). Qed.
Lemma reach5 : reaches world5 (hold_recovered held_authority (snd observe_run)).
Proof. exact (reach_recover _ _ _ _ _ _ ObserveOnly _ _ _ reach4 demo_out_ok I (surjective_pairing observe_run)). Qed.
Lemma reach6 : ∃ h, reaches world6 h.
Proof.
  eexists. exact (reach_recover _ _ _ _ _ _ ObserveOnly _ _ _ reach5 demo_out_ok I (surjective_pairing verify_run)).
Qed.

(** ** Witnesses *)

Lemma durable_handoff_authorized_witness :
  handed_off (db_of world3) (db_of world4) demo_prepared demo_permit.
Proof.
  destruct (durable_handoff_authorized (T := unit) demo_out world3 held_authority "uid:1000" demo_prepared
    None world4 demo_permit demo_handed_off reach3 demo_held demo_out_ok handoff_ran)
    as (log & now & b & _ & _ & _ & _ & _ & _ & _ & Hh & _). exact Hh.
Defined.

(** The restart of a control on the store that holds a prepared
    transaction. *)
Abbreviation restart_run :=
  (DurableAuthorityControl_new (V := list Answer) demo_store (demo_session db_prepared) demo_signer demo_out
    initial_world).
Lemma restart_ran : restart_run = (fst restart_run, Ok tt).
Proof.
  rewrite (ran tt restart_run) at 1 by (vm_compute; reflexivity).
  by destruct (PlanWitnesses.result_or tt (snd restart_run)).
Qed.

Lemma restart_retires_prepared_witness :
  machine_at (db_of (fst restart_run)) demo_id = machine 0 2 Aborted.
Proof.
  refine (proj1 (restart_retires_prepared initial_world demo_store (demo_session db_prepared) demo_signer
    (fst restart_run) demo_limits_ok _ restart_ran demo_id) 0%Z 1%Z _).
  - exact (demo_inv _ on_prepared).
  - vm_compute. reflexivity.
Defined.

Lemma observing_recovery_never_reprepares_witness :
  observed_from (db_of world4) (db_of world5).
Proof.
  exact (proj2 (observing_recovery_never_reprepares (T := unit) (out := demo_out) world4 held_authority
    "uid:1000" demo_actor demo_request ObserveOnly None world5 (snd observe_run) reach4
    (or_introl eq_refl) (surjective_pairing observe_run))).
Defined.

Lemma commit_is_of_verified_material_witness :
  "uid:1000" = vd_principal demo_verified_authority.
Proof.
  destruct reach6 as [h Hreach].
  exact (proj1 (proj2 (commit_is_of_verified_material (T := unit) (out := demo_out) world6 h "uid:1000"
    demo_verified_authority world7 _ Hreach commit_ran))).
Defined.

Lemma verified_ran {W E} (x : W * result E DurableRecoveryOutcome) :
  match snd x with Ok (DurableVerified _) => true | _ => false end = true →
  x = (fst x, Ok (DurableVerified (verified_of (snd x)))).
Proof. by destruct x as [w [[]|]]. Qed.

Lemma recovery_follows_observation_witness :
  ∃ anchor plan o d, seen_current (out := demo_out) o ∧ rp_status plan = NoChange ∧
    (vd_desired_state_digest demo_verified_authority, vd_graph_digest demo_verified_authority,
     vd_provenance_digest demo_verified_authority) = verified_commit_digests anchor plan d.
Proof.
  destruct (recovery_follows_observation (T := unit) (out := demo_out) world5 world6 "uid:1000" demo_actor
    demo_request ObserveOnly None (DurableVerified demo_verified_authority))
    as (anchor & plan & o & d & _ & _ & _ & _ & _ & _ & _ & Hc & Hst & Hd).
  - refine (verified_ran verify_run _). vm_compute. reflexivity.
  - exists anchor, plan, o, d. exact (conj Hc (conj Hst Hd)).
Defined.

(** ** Previews and digests *)

Definition demo_input : NormalizedPlanInput := {| ni_principal := "uid:1000"; ni_request := demo_request |}.
Definition other_input : NormalizedPlanInput := {| ni_principal := "uid:1001"; ni_request := demo_request |}.

Lemma preview_store_bounded_fifo_witness :
  let s := insert_previews PreviewStore_default [(other_input, demo_plan)] in
  (Z.of_nat (size (pvs_entries s)) ≤ 256)%Z ∧
  insertion s ("uid:1000", "request:1") demo_input demo_plan
    (fst (insert_preview s demo_input demo_plan)) (snd (insert_preview s demo_input demo_plan)).
Proof.
  refine (let w := preview_store_bounded_fifo [(other_input, demo_plan)] demo_input demo_plan
    ("uid:1000", "request:1") _ _ in conj (proj1 w) (proj2 (proj2 (proj2 (proj2 w)))));
    vm_compute; reflexivity.
Defined.

Lemma preview_replay_exact_witness :
  replay_preview
    (fst (insert_preview (insert_previews PreviewStore_default [(other_input, demo_plan)]) demo_input demo_plan))
    demo_input = Ok (Some demo_plan).
Proof.
  refine (proj1 (preview_replay_exact [(other_input, demo_plan)] demo_input demo_plan _)).
  vm_compute. reflexivity.
Defined.

Lemma demo_review_bound : evaluation_bound (tpr_evaluation demo_review).
Proof.
  refine (review_bound "uid:1000" demo_plan (classify_plan_risk demo_plan) demo_review _).
  vm_compute. reflexivity.
Qed.
Lemma demo_review_sized : subject_sized (pe_subject (tpr_evaluation demo_review)).
Proof. vm_compute. repeat split; discriminate. Qed.

Lemma review_digest_binding_witness :
  demo_review = {| tpr_evaluation := tpr_evaluation demo_review |} ∨
  collides (review_input demo_review)
    (review_input {| tpr_evaluation := tpr_evaluation demo_review |}).
Proof.
  refine (review_digest_binding demo_review {| tpr_evaluation := tpr_evaluation demo_review |}
    (PlanWitnesses.result_or "" (digest_review demo_review)) _ _ demo_review_bound demo_review_bound
    demo_review_sized demo_review_sized); vm_compute; reflexivity.
Defined.
