(* ===== verification/Paths.v ===== *)
(** * Records of lines

    The text formats of the update journal, the update evidence, the migration
    ledger and the migration recovery marker are lines [name=value] after a
    magic line, closed by a tag line.  This file holds what their readers and
    writers use of Rust's [str]: UTF-8 validity, [trim], [contains], [rfind],
    [strip_suffix], [lines], with the lemmas by which a record is read back. *)

From Stdlib Require Import ZArith Lia Ascii.
From stdpp Require Import base numbers gmap strings list fin_maps sorting.
From S2P Require Import Prelude Text Fields.

Set Default Goal Selector "!".

(** ** UTF-8 *)

Definition utf8_tail (b : N) : bool := ((128 <=? b) && (b <? 192))%N.

(** [str::from_utf8]: no overlong form, no surrogate, nothing past U+10FFFF. *)
Fixpoint utf8_valid_codes (l : list N) : bool :=
  match l with
  | [] => true
  | b0 :: r =>
      if (b0 <? 128)%N then utf8_valid_codes r
      else if ((194 <=? b0) && (b0 <? 224))%N then
        match r with
        | b1 :: r => utf8_tail b1 && utf8_valid_codes r
        | _ => false
        end
      else if ((224 <=? b0) && (b0 <? 240))%N then
        match r with
        | b1 :: b2 :: r =>
            utf8_tail b1 && utf8_tail b2
            && negb ((b0 =? 224) && (b1 <? 160))%N && negb ((b0 =? 237) && (160 <=? b1))%N
            && utf8_valid_codes r
        | _ => false
        end
      else if ((240 <=? b0) && (b0 <? 245))%N then
        match r with
        | b1 :: b2 :: b3 :: r =>
            utf8_tail b1 && utf8_tail b2 && utf8_tail b3
            && negb ((b0 =? 240) && (b1 <? 144))%N && negb ((b0 =? 244) && (144 <=? b1))%N
            && utf8_valid_codes r
        | _ => false
        end
      else false
  end.
Definition utf8_valid (s : string) : bool := utf8_valid_codes (codes s).

Definition is_ascii_code (c : N) : bool := (c <? 128)%N.

Lemma utf8_valid_ascii s : forallb is_ascii_code (codes s) = true → utf8_valid s = true.
Proof.
  unfold utf8_valid. induction (codes s) as [|c l IH]; [done|]. cbn.
  unfold is_ascii_code at 1. destruct (c <? 128)%N; [exact IH|done].
Qed.

(** ** [str::trim]

    A string as the list of its characters, each with its bytes. *)
Fixpoint utf8_units (l : list Ascii.ascii) : list (N * list Ascii.ascii) :=
  match l with
  | [] => []
  | a0 :: r =>
      let b0 := Ascii.N_of_ascii a0 in
      let c a := utf8_cont (Ascii.N_of_ascii a) in
      if (b0 <? 128)%N then (b0, [a0]) :: utf8_units r
      else if (b0 <? 224)%N then
        match r with
        | a1 :: r => (N.lor (N.shiftl (N.land b0 31) 6) (c a1), [a0; a1]) :: utf8_units r
        | _ => [(b0, [a0])]
        end
      else if (b0 <? 240)%N then
        match r with
        | a1 :: a2 :: r =>
            (N.lor (N.shiftl (N.land b0 15) 12) (N.lor (N.shiftl (c a1) 6) (c a2)), [a0; a1; a2])
              :: utf8_units r
        | _ => [(b0, a0 :: r)]
        end
      else
        match r with
        | a1 :: a2 :: a3 :: r =>
            (N.lor (N.shiftl (N.land b0 7) 18)
               (N.lor (N.shiftl (c a1) 12) (N.lor (N.shiftl (c a2) 6) (c a3))),
             [a0; a1; a2; a3]) :: utf8_units r
        | _ => [(b0, a0 :: r)]
        end
  end.

Definition unit_whitespace (u : N * list Ascii.ascii) : bool := is_whitespace (u.1).

Definition trim_units (l : list (N * list Ascii.ascii)) : list (N * list Ascii.ascii) :=
  reverse (drop_while unit_whitespace (reverse (drop_while unit_whitespace l))).

Definition str_trim (s : string) : string :=
  String.string_of_list_ascii
    (concat (snd <$> trim_units (utf8_units (String.list_ascii_of_string s)))).

Example str_trim_ok : str_trim "  a b	 " = "a b".
Proof. reflexivity. Qed.

Lemma utf8_units_graphic l :
  forallb graphic (Ascii.N_of_ascii <$> l) = true →
  utf8_units l = (λ a, (Ascii.N_of_ascii a, [a])) <$> l.
Proof.
  induction l as [|a l IH]; [done|]. cbn [fmap list_fmap forallb utf8_units].
  intros [Ha Hl]%andb_prop. unfold graphic in Ha. apply andb_prop in Ha as [_ H%N.leb_le].
  destruct (N.ltb_spec (Ascii.N_of_ascii a) 128); [|lia]. by rewrite IH.
Qed.

Lemma drop_while_head {A} (p : A → bool) l :
  match l with x :: _ => p x = false | [] => True end → drop_while p l = l.
Proof. destruct l as [|x l]; cbn; [done|]. by intros ->. Qed.

Lemma drop_while_none {A} (p : A → bool) l : Forall (λ x, p x = false) l → drop_while p l = l.
Proof. intros H. apply drop_while_head. by destruct H. Qed.

Lemma concat_singletons {A} (l : list A) : concat ((λ a, [a]) <$> l) = l.
Proof. induction l; cbn in *; congruence. Qed.

(** A string of printable characters other than the space is left as it is. *)
Lemma str_trim_graphic s : all_graphic s = true → str_trim s = s.
Proof.
  unfold all_graphic, codes, str_trim. intros H.
  rewrite utf8_units_graphic by exact H. unfold trim_units.
  assert (Forall (λ u, unit_whitespace u = false)
    ((λ a, (Ascii.N_of_ascii a, [a])) <$> String.list_ascii_of_string s)) as F.
  { rewrite Forall_fmap. apply Forall_forall. intros a Ha. unfold unit_whitespace. cbn.
    apply graphic_not_whitespace. rewrite forallb_forall in H. apply H, list_elem_of_In.
    exact (list_elem_of_fmap_2 _ _ _ Ha). }
  rewrite (drop_while_none _ _ F), drop_while_none by (by apply Forall_reverse).
  rewrite reverse_involutive, <- list_fmap_compose.
  etrans; [|apply String.string_of_list_ascii_of_string]. f_equal. apply concat_singletons.
Qed.

(** ** Searching *)

Definition starts_with (p s : string) : bool :=
  match strip_prefix p s with Some _ => true | None => false end.

(** [str::contains]. *)
Fixpoint str_contains (p s : string) : bool :=
  starts_with p s || match s with EmptyString => false | String _ s' => str_contains p s' end.

(** [str::rfind]: the start of the last match. *)
Fixpoint rfind (p s : string) : option nat :=
  match s with
  | EmptyString => if starts_with p s then Some O else None
  | String _ s' =>
      match rfind p s' with
      | Some n => Some (S n)
      | None => if starts_with p s then Some O else None
      end
  end.

(** [str::split_at]. *)
Fixpoint split_at (n : nat) (s : string) : string * string :=
  match n, s with
  | S m, String a s' => let '(l, r) := split_at m s' in (String a l, r)
  | _, _ => ("", s)
  end.

(** [str::strip_suffix] of one character. *)
Fixpoint strip_suffix (c : Ascii.ascii) (s : string) : option string :=
  match s with
  | EmptyString => None
  | String a EmptyString => if decide (a = c) then Some "" else None
  | String a s' => match strip_suffix c s' with Some r => Some (String a r) | None => None end
  end.

(** A character of the pattern does not occur. *)
Definition avoids (p s : string) : Prop :=
  ∃ c, c ∈ String.list_ascii_of_string p ∧ c ∉ String.list_ascii_of_string s.

Lemma starts_with_avoids p s : avoids p s → starts_with p s = false.
Proof.
  unfold starts_with. intros (c & Hp & Hs). destruct (strip_prefix p s) as [t|] eqn:E; [|done].
  apply strip_prefix_Some in E as ->. rewrite list_ascii_app in Hs. set_solver.
Qed.

Lemma rfind_avoids p s : avoids p s → rfind p s = None.
Proof.
  induction s as [|b s IH]; intros H; cbn [rfind].
  - by rewrite starts_with_avoids.
  - rewrite IH by (destruct H as (c & Hp & Hs); exists c; cbn in *; set_solver).
    by rewrite starts_with_avoids.
Qed.

Lemma rfind_app p l r n : rfind p r = Some n → rfind p (l +:+ r) = Some (String.length l + n)%nat.
Proof.
  intros H. induction l as [|a l IH]; [done|]. rewrite string_app_cons. cbn [rfind].
  by rewrite IH.
Qed.

Lemma split_at_app l r : split_at (String.length l) (l +:+ r) = (l, r).
Proof.
  induction l as [|a l IH]; [by destruct r|]. rewrite string_app_cons. cbn. by rewrite IH.
Qed.

Lemma split_at_eq n s l r : split_at n s = (l, r) → s = l +:+ r.
Proof.
  revert s l. induction n as [|n IH]; intros s l; [by intros [= <- <-]|].
  destruct s as [|a s]; cbn; [by intros [= <- <-]|].
  destruct (split_at n s) as [l' r'] eqn:E. intros [= <- <-]. by rewrite string_app_cons, (IH s l').
Qed.

Lemma strip_suffix_app c s : strip_suffix c (s +:+ String c "") = Some s.
Proof.
  induction s as [|a s IH]; [rewrite string_app_nil_l; cbn [strip_suffix]; by rewrite decide_True|].
  rewrite string_app_cons.
  cbn [strip_suffix]. rewrite IH. by destruct s.
Qed.

Lemma strip_suffix_cons c a b s :
  strip_suffix c (String a (String b s)) =
  match strip_suffix c (String b s) with Some r => Some (String a r) | None => None end.
Proof. done. Qed.

Lemma strip_suffix_Some c s r : strip_suffix c s = Some r → s = r +:+ String c "".
Proof.
  revert r. induction s as [|a s IH]; intros r; [done|].
  destruct s as [|b s].
  - cbn [strip_suffix]. case_decide; [|done]. intros [= <-]. by subst.
  - rewrite strip_suffix_cons. destruct (strip_suffix c (String b s)) as [r'|] eqn:E; [|done].
    intros [= <-]. rewrite string_app_cons. f_equal. by apply IH.
Qed.

(** ** Lines *)
Definition LF : Ascii.ascii := "010"%char.
Definition CR : Ascii.ascii := "013"%char.

Definition chomp_cr (s : string) : string :=
  match strip_suffix CR s with Some r => r | None => s end.

(** [str::lines]: the last piece is a line only when it is not empty. *)
Fixpoint lines_of (l : list string) : list string :=
  match l with
  | [] => []
  | [s] => if bool_decide (s = "") then [] else [s]
  | s :: l' => chomp_cr s :: lines_of l'
  end.
Definition lines (s : string) : list string := lines_of (split LF s).

(** A text of complete lines. *)
Definition unlines (l : list string) : string :=
  foldr (λ s t, s +:+ String LF "" +:+ t) "" l.

(** A line that [lines] returns as it is. *)
Definition plain_line (s : string) : Prop := free LF s ∧ free CR s.

Lemma strip_suffix_free c s : free c s → strip_suffix c s = None.
Proof.
  intros H. destruct (strip_suffix c s) as [r|] eqn:E; [|done].
  apply strip_suffix_Some in E. subst. exfalso. revert H.
  induction r as [|a r IH]; [rewrite string_app_nil_l, free_cons; naive_solver|].
  rewrite string_app_cons, free_cons. naive_solver.
Qed.

Lemma lines_unlines l : Forall plain_line l → lines (unlines l) = l.
Proof.
  unfold lines. induction 1 as [|s l [Hn Hc] H IH]; [done|]. cbn [unlines foldr].
  change (String LF "" +:+ foldr _ "" l) with (String LF (unlines l)).
  rewrite split_app by done. cbn [lines_of].
  pose proof (split_nonempty LF (unlines l)).
  destruct (split LF (unlines l)) as [|p ps] eqn:E; [done|].
  rewrite IH. unfold chomp_cr. by rewrite strip_suffix_free.
Qed.

Lemma free_app c s t : free c (s +:+ t) ↔ free c s ∧ free c t.
Proof.
  induction s as [|a s IH]; [rewrite string_app_nil_l; naive_solver|].
  rewrite string_app_cons, !free_cons, IH. naive_solver.
Qed.

Lemma plain_line_app s t : plain_line s → plain_line t → plain_line (s +:+ t).
Proof. unfold plain_line. rewrite !free_app. naive_solver. Qed.

Lemma free_elem c s : free c s ↔ c ∉ String.list_ascii_of_string s.
Proof.
  induction s as [|a s IH]; [set_solver|]. rewrite free_cons, IH. cbn.
  rewrite not_elem_of_cons. naive_solver.
Qed.

(** The codes of a text decide what it is free of. *)
Lemma forallb_codes_free (f : N → bool) c s :
  forallb f (codes s) = true → f (Ascii.N_of_ascii c) = false → free c s.
Proof.
  rewrite free_elem. intros H Hc Hin. rewrite forallb_forall in H.
  rewrite (H (Ascii.N_of_ascii c)) in Hc; [done|]. unfold codes. by apply in_map, list_elem_of_In.
Qed.

Lemma graphic_plain_line s : all_graphic s = true → plain_line s.
Proof. intros H. split; by apply (forallb_codes_free graphic). Qed.

(** ** Trimming keeps UTF-8 *)

(** The bytes of one character. *)
Definition unit_ok (u : N * list Ascii.ascii) : Prop :=
  ∀ r, utf8_valid_codes ((Ascii.N_of_ascii <$> u.2) ++ r) = utf8_valid_codes r.

Lemma utf8_units_ok l :
  utf8_valid_codes (Ascii.N_of_ascii <$> l) = true → Forall unit_ok (utf8_units l).
Proof.
  remember (length l) as n eqn:Hn. revert l Hn.
  induction n as [n IH] using lt_wf_ind. intros [|a0 l] Hn; [constructor|].
  assert (∀ k, (length k ≤ length l)%nat → utf8_valid_codes (Ascii.N_of_ascii <$> k) = true →
    Forall unit_ok (utf8_units k)) as IHk.
  { intros k Hk. apply (IH (length k)); [cbn in Hn; lia|done]. }
  clear IH Hn. cbn [fmap list_fmap utf8_valid_codes utf8_units].
  set (b0 := Ascii.N_of_ascii a0).
  destruct (b0 <? 128)%N eqn:H1.
  { intros Hv. constructor; [|by apply IHk]. intros r. cbn. fold b0. by rewrite H1. }
  destruct ((194 <=? b0)%N && (b0 <? 224)%N) eqn:H2.
  { apply andb_prop in H2 as [H2a H2]. rewrite H2.
    destruct l as [|a1 l]; [done|]. cbn [fmap list_fmap]. intros [Ht Hv]%andb_prop.
    constructor; [|apply IHk; [cbn; lia|done]]. intros r. cbn. fold b0. by rewrite H1, H2a, H2, Ht. }
  destruct ((224 <=? b0)%N && (b0 <? 240)%N) eqn:H3.
  { apply andb_prop in H3 as [H3a H3]. pose proof H3a as H3b. apply N.leb_le in H3b.
    rewrite (proj2 (N.ltb_ge b0 224)), H3 by lia.
    destruct l as [|a1 [|a2 l]]; [done..|]. cbn [fmap list_fmap]. intros [Ht Hv]%andb_prop.
    constructor; [|apply IHk; [cbn; lia|done]]. intros r. cbn. fold b0.
    rewrite H1, H2, H3a, H3. cbn. by rewrite Ht. }
  destruct ((240 <=? b0)%N && (b0 <? 245)%N) eqn:H4; [|done].
  apply andb_prop in H4 as [H4a H4]. pose proof H4a as H4b. apply N.leb_le in H4b.
  rewrite (proj2 (N.ltb_ge b0 224)), (proj2 (N.ltb_ge b0 240)) by lia.
  destruct l as [|a1 [|a2 [|a3 l]]]; [done..|]. cbn [fmap list_fmap]. intros [Ht Hv]%andb_prop.
  constructor; [|apply IHk; [cbn; lia|done]]. intros r. cbn. fold b0.
  rewrite H1, H2, H3, H4a, H4. cbn. by rewrite Ht.
Qed.

Lemma utf8_valid_units us :
  Forall unit_ok us → utf8_valid_codes (Ascii.N_of_ascii <$> concat (snd <$> us)) = true.
Proof.
  induction 1 as [|u us Hu H IH]; [done|]. cbn [fmap list_fmap concat].
  rewrite fmap_app. by rewrite Hu.
Qed.

Lemma drop_while_Forall {A} (P : A → Prop) p l : Forall P l → Forall P (drop_while p l).
Proof. induction 1 as [|x l Hx H IH]; cbn; [constructor|]. destruct (p x); [done|by constructor]. Qed.

Lemma utf8_valid_trim s : utf8_valid s = true → utf8_valid (str_trim s) = true.
Proof.
  intros H. unfold utf8_valid, codes, str_trim.
  rewrite String.list_ascii_of_string_of_list_ascii. apply utf8_valid_units.
  unfold trim_units. apply Forall_reverse, drop_while_Forall, Forall_reverse, drop_while_Forall.
  by apply utf8_units_ok.
Qed.

(** * Paths

    [std::path::Path] on Unix: a path is its bytes; [components] splits it as
    the iterator of the same name does, and two paths are equal when their
    components are.  The root is the component ["/"], the current directory
    ["."] (only in front of a relative path), the parent [".."]. *)

Definition Path := string.
Definition SLASH : Ascii.ascii := "/"%char.

(** [Path::is_absolute] (and [has_root]). *)
Definition is_absolute (p : Path) : bool := starts_with "/" p.

(** A piece between two separators that is a component. *)
Definition proper_piece (c : string) : Prop := c ≠ "" ∧ c ≠ ".".
#[export] Instance proper_piece_dec c : Decision (proper_piece c).
Proof. unfold proper_piece. apply _. Defined.

(** The component in front: the root or the current directory. *)
Definition front (p : Path) : list string :=
  if is_absolute p then ["/"]
  else match split SLASH p with
       | c :: _ => if decide (c = ".") then ["."] else []
       | [] => []
       end.

Definition components (p : Path) : list string :=
  front p ++ filter proper_piece (split SLASH p).

(** [p == q]. *)
Definition path_eqb (p q : Path) : bool := bool_decide (components p = components q).

(** [Path::join] of a path. *)
Definition join (p q : Path) : Path :=
  if is_absolute q then q
  else if bool_decide (p = "") then q
  else match strip_suffix SLASH p with
       | Some _ => p +:+ q
       | None => p +:+ "/" +:+ q
       end.

(** The path with these components. *)
Definition path_of (l : list string) : Path := foldl join "" l.

(** [Path::parent], up to equality of paths. *)
Definition parent (p : Path) : option Path :=
  match last (components p) with
  | None => None
  | Some c =>
      if decide (c = "/") then None
      else Some (path_of (take (length (components p) - 1) (components p)))
  end.

(** [Path::file_name]. *)
Definition file_name (p : Path) : option string :=
  match last (components p) with
  | None => None
  | Some c => if decide (c = "/" ∨ c = "." ∨ c = "..") then None else Some c
  end.

Example components_ok : components "/var//lib/./x/" = ["/"; "var"; "lib"; "x"].
Proof. reflexivity. Qed.
Example parent_ok : parent "/var/lib/x" = Some "/var/lib" ∧ parent "/" = None ∧ parent "x" = Some "".
Proof. split_and!; reflexivity. Qed.
Example file_name_ok : file_name "/var/lib/x" = Some "x" ∧ file_name "/var/.." = None.
Proof. split; reflexivity. Qed.

(** ** Joining *)

(** The name of an entry of a directory. *)
Definition entry_name (n : string) : Prop := free SLASH n ∧ proper_piece n.

Lemma split_app_all c l r : split c (l +:+ String c r) = split c l ++ split c r.
Proof.
  induction l as [|a l IH].
  - rewrite string_app_nil_l. cbn [split]. by rewrite decide_True.
  - rewrite string_app_cons. cbn [split]. case_decide; [by rewrite IH|].
    rewrite IH. pose proof (split_nonempty c l). destruct (split c l) as [|x xs] eqn:E; [done|]. done.
Qed.

Lemma is_absolute_app p q : p ≠ "" → is_absolute (p +:+ q) = is_absolute p.
Proof.
  unfold is_absolute, starts_with. destruct p as [|a p]; [done|]. intros _.
  rewrite string_app_cons. cbn. by case_decide.
Qed.

Lemma front_app p q : p ≠ "" → front (p +:+ String SLASH q) = front p.
Proof.
  intros H. unfold front. rewrite is_absolute_app by done. rewrite split_app_all.
  pose proof (split_nonempty SLASH p). by destruct (split SLASH p).
Qed.

Lemma entry_name_relative n : entry_name n → is_absolute n = false.
Proof.
  intros [Hf _]. unfold is_absolute, starts_with. destruct n as [|a n]; [done|]. cbn.
  apply free_cons in Hf as [Ha _]. by rewrite decide_False.
Qed.

Lemma components_name n : entry_name n → components n = [n].
Proof.
  intros Hn. pose proof (entry_name_relative n Hn) as Ha. destruct Hn as [Hf Hp].
  unfold components, front. rewrite Ha, split_free by done.
  rewrite decide_False by (by destruct Hp). by rewrite filter_cons_True, filter_nil by done.
Qed.

Lemma components_slash p n :
  p ≠ "" → entry_name n → components (p +:+ String SLASH n) = components p ++ [n].
Proof.
  intros Hp [Hf Hn]. unfold components. rewrite front_app, split_app_all, (split_free _ n) by done.
  by rewrite filter_app, filter_cons_True, filter_nil, app_assoc.
Qed.

(** A trailing separator adds no component. *)
Lemma components_trailing p : p ≠ "" → components (p +:+ String SLASH "") = components p.
Proof.
  intros Hp. unfold components. rewrite front_app, split_app_all by done.
  change (split SLASH "") with [""]. rewrite filter_app, (filter_cons_False _ "") by (by intros []).
  by rewrite filter_nil, app_nil_r.
Qed.

Lemma components_join p n : entry_name n → components (join p n) = components p ++ [n].
Proof.
  intros Hn. unfold join. rewrite entry_name_relative by done.
  case_bool_decide as Hp; [subst; by rewrite components_name|].
  destruct (strip_suffix SLASH p) as [q|] eqn:E.
  - apply strip_suffix_Some in E as ->. destruct (decide (q = "")) as [->|Hq].
    { destruct Hn as [Hf Hn]. rewrite string_app_nil_l. change (String SLASH "" +:+ n) with (String SLASH n).
      unfold components, front. cbn [is_absolute starts_with strip_prefix].
      change (is_absolute (String SLASH n)) with true. cbn [split].
      rewrite decide_True, split_free by done.
      rewrite filter_cons_False by (by intros []). by rewrite filter_cons_True. }
    rewrite string_app_assoc. change (String SLASH "" +:+ n) with (String SLASH n).
    by rewrite components_slash, components_trailing.
  - by apply components_slash.
Qed.

(** ** Parents *)

(** What follows the front of a path are names (or [".."]). *)
Definition names (l : list string) : Prop := Forall entry_name l.

Lemma split_pieces_free c s : Forall (free c) (split c s).
Proof.
  induction s as [|a s IH]; [by repeat constructor|]. cbn [split]. case_decide as Ha; [by constructor|].
  pose proof (split_nonempty c s). destruct (split c s) as [|p ps]; [done|].
  inversion IH; subst. constructor; [|done]. by apply free_cons.
Qed.

Lemma components_names p : ∃ l, names l ∧ components p = front p ++ l.
Proof.
  eexists. split; [|done]. unfold names. apply Forall_forall. intros c [Hc Hin]%list_elem_of_filter.
  split; [|done]. pose proof (split_pieces_free SLASH p) as H. rewrite Forall_forall in H. by apply H.
Qed.

Lemma front_cases p : front p = [] ∨ front p = ["/"] ∨ front p = ["."].
Proof.
  unfold front. destruct (is_absolute p); [by eauto|].
  destruct (split SLASH p); [by eauto|]. case_decide; eauto.
Qed.

Lemma path_of_snoc l n : path_of (l ++ [n]) = join (path_of l) n.
Proof. unfold path_of. by rewrite foldl_app. Qed.

Lemma components_path_of f l :
  (f = [] ∨ f = ["/"] ∨ f = ["."]) → names l → components (path_of (f ++ l)) = f ++ l.
Proof.
  intros Hf. induction l as [|n l IH] using rev_ind; intros Hl.
  - rewrite app_nil_r. by destruct Hf as [-> |[-> | ->]].
  - apply Forall_app in Hl as [Hl Hn]. inversion Hn; subst.
    rewrite app_assoc, path_of_snoc, components_join, IH by done. done.
Qed.

Lemma take_snoc {A} (l : list A) x : take (length (l ++ [x]) - 1) (l ++ [x]) = l.
Proof. rewrite length_app. cbn. rewrite Nat.add_sub. apply take_app_length. Qed.

Lemma parent_components p d c :
  parent p = Some d → last (components p) = Some c → components p = components d ++ [c].
Proof.
  unfold parent. intros H Hc. rewrite Hc in H. case_decide as Hr; [done|]. injection H as <-.
  destruct (components_names p) as (l & Hl & E). pose proof (front_cases p) as Hf.
  apply last_Some in Hc as [k Hk]. rewrite Hk, take_snoc.
  destruct l as [|n l _] using rev_ind.
  - rewrite app_nil_r, Hk in E. destruct Hf as [F|[F|F]]; rewrite F in E;
      destruct k as [|y [|z k]]; by simplify_eq/=.
  - rewrite Hk, app_assoc in E. apply app_inj_tail in E as [-> ->].
    apply Forall_app in Hl as [Hl Hn]. f_equal. symmetry. by apply components_path_of.
Qed.

Lemma file_name_last p n : file_name p = Some n → last (components p) = Some n ∧ n ≠ "/" ∧ n ≠ "." ∧ n ≠ "..".
Proof.
  unfold file_name. destruct (last (components p)) as [c|]; [|done]. case_decide; [done|].
  intros [= ->]. naive_solver.
Qed.

(** The parent and the name determine the path. *)
Lemma parent_file_name p d n :
  parent p = Some d → file_name p = Some n → components p = components d ++ [n].
Proof. intros Hd [Hn _]%file_name_last. by apply parent_components. Qed.

Lemma file_name_parent p n : file_name p = Some n → ∃ d, parent p = Some d.
Proof. intros (Hn & Hr & _)%file_name_last. unfold parent. rewrite Hn, decide_False by done. eauto. Qed.

Lemma file_name_free p n : file_name p = Some n → free SLASH n.
Proof.
  intros (Hn & Hr & Hd & _)%file_name_last. destruct (components_names p) as (l & Hl & E).
  rewrite E in Hn. destruct l as [|c l _] using rev_ind.
  - rewrite app_nil_r in Hn. destruct (front_cases p) as [F|[F|F]]; rewrite F in Hn; simplify_eq/=.
  - apply Forall_app in Hl as [_ Hc]. inversion Hc as [|? ? [Hf _] _]; subst.
    rewrite app_assoc, last_snoc in Hn. by injection Hn as <-.
Qed.
