(* ===== verification/Files.v ===== *)
(** * Files

    What the sources use of [std::fs], on a file system with symbolic links,
    hard links and a disk that can lag behind what programs see.  A directory
    entry has a latest value and the earlier values that a power loss may
    bring back; a synced file keeps its contents, an unsynced one may come back
    with any.  Every call first lets the other processes of the machine act
    ([interfere]), may find the process killed, and may fail. *)

From Stdlib Require Import ZArith Lia Ascii.
From stdpp Require Import base numbers gmap strings list fin_maps sorting.
From S2P Require Import Prelude Text Fields Paths.

Set Default Goal Selector "!".

(** ** The file system *)

Inductive FileKind := RegularFile | Directory | Symlink | OtherKind.
#[export] Instance FileKind_eq_dec : EqDecision FileKind.
Proof. solve_decision. Defined.

(** [i_data] holds the bytes of a file or the target of a link; [i_synced]
    says that the disk has them. *)
Record Inode := {
  i_kind : FileKind;
  i_mode : Z;
  i_uid : Z;
  i_nlink : Z;
  i_dev : Z;
  i_ino : Z;
  i_mtime : Z * Z;
  i_ctime : Z * Z;
  i_data : string;
  i_synced : bool;
}.

(** The names from the root to a file; the identity of an inode, which unlike
    its number is never used again. *)
Definition Key := list string.
Definition InodeId := nat.

Record Entry := { e_latest : option InodeId; e_pending : list (option InodeId) }.
Definition no_entry : Entry := {| e_latest := None; e_pending := [] |}.
Definition possible (e : Entry) : list (option InodeId) := e_latest e :: e_pending e.

Record FS := {
  fs_entries : gmap Key Entry;
  fs_inodes : gmap InodeId Inode;
  fs_next : InodeId;
}.

Definition entry_at (fs : FS) (k : Key) : Entry := default no_entry (fs_entries fs !! k).
Definition inode_at (fs : FS) (k : Key) : option (InodeId * Inode) :=
  match e_latest (entry_at fs k) with
  | Some id => match fs_inodes fs !! id with Some i => Some (id, i) | None => None end
  | None => None
  end.

Definition kind_at (fs : FS) (k : Key) : option FileKind :=
  match inode_at fs k with Some (_, i) => Some (i_kind i) | None => None end.

Definition set_entry (fs : FS) (k : Key) (v : option InodeId) : FS :=
  {| fs_entries := <[k := {| e_latest := v; e_pending := possible (entry_at fs k) |}]> (fs_entries fs);
     fs_inodes := fs_inodes fs;
     fs_next := fs_next fs |}.

Definition set_inode (fs : FS) (id : InodeId) (i : Inode) : FS :=
  {| fs_entries := fs_entries fs; fs_inodes := <[id := i]> (fs_inodes fs); fs_next := fs_next fs |}.

Definition add_inode (fs : FS) (i : Inode) : FS :=
  {| fs_entries := fs_entries fs;
     fs_inodes := <[fs_next fs := i]> (fs_inodes fs);
     fs_next := S (fs_next fs) |}.

(** The entries of a directory reach the disk. *)
Definition settle (k : Key) (d : Key) (e : Entry) : Entry :=
  if decide (removelast k = d ∧ k ≠ []) then {| e_latest := e_latest e; e_pending := [] |} else e.
Definition settle_dir (fs : FS) (d : Key) : FS :=
  {| fs_entries := map_imap (λ k e, Some (settle k d e)) (fs_entries fs);
     fs_inodes := fs_inodes fs;
     fs_next := fs_next fs |}.

(** ** Errors of the operating system *)
Inductive IoErrorKind := NotFound | AlreadyExists | OtherError.
Record IoError := { io_kind : IoErrorKind; io_text : string }.

Definition enoent := {| io_kind := NotFound; io_text := "No such file or directory (os error 2)" |}.
Definition eexist := {| io_kind := AlreadyExists; io_text := "File exists (os error 17)" |}.
Definition enotdir := {| io_kind := OtherError; io_text := "Not a directory (os error 20)" |}.
Definition eisdir := {| io_kind := OtherError; io_text := "Is a directory (os error 21)" |}.
Definition eloop :=
  {| io_kind := OtherError; io_text := "Too many levels of symbolic links (os error 40)" |}.
Definition eio := {| io_kind := OtherError; io_text := "Input/output error (os error 5)" |}.

(** ** Path resolution *)

Definition is_nil_list {A} (l : list A) : bool := match l with [] => true | _ => false end.

(** The key a path names: links on the way are followed, the last one only
    when asked; the last name need not exist. *)
Fixpoint namei (fs : FS) (follow : bool) (links : nat) (cur : Key) (comps : list string)
    {struct links} : result IoError Key :=
  let fix walk (cur : Key) (comps : list string) {struct comps} : result IoError Key :=
    match comps with
    | [] => Ok cur
    | c :: rest =>
        if decide (c = "/") then walk [] rest
        else if decide (c = ".") then walk cur rest
        else if decide (c = "..") then walk (removelast cur) rest
        else
          match inode_at fs (cur ++ [c]) with
          | None => if is_nil_list rest then Ok (cur ++ [c]) else Err enoent
          | Some (_, i) =>
              match i_kind i with
              | Symlink =>
                  if follow || negb (is_nil_list rest) then
                    match links with
                    | O => Err eloop
                    | S l => namei fs follow l cur (components (i_data i) ++ rest)
                    end
                  else Ok (cur ++ [c])
              | Directory => walk (cur ++ [c]) rest
              | _ => if is_nil_list rest then Ok (cur ++ [c]) else Err enotdir
              end
          end
    end in
  walk cur comps.

Definition MAXSYMLINKS : nat := 40.

(** ** Calls *)

(** What lies outside the process: the other processes, failing calls, the
    moment it is killed, the clock, the identity given to a new file, the
    bytes a failing write leaves behind, how many a read delivers beyond the
    first, how often a loop of reads goes round before the process is stopped,
    the random device, and constants of the process. *)
Record FsEnv := {
  interfere : nat → FS → FS;
  fault : nat → option string;
  killed : nat → bool;
  clock : nat → Z * Z;
  identity : nat → Z * Z;
  written : nat → nat;
  delivered : nat → nat;
  patience : nat;
  random : nat → string;
  process_id : Z;
  user_id : Z;
  umask : Z;
  working_directory : Key;
}.

Record World := { w_fs : FS; w_calls : nat }.

(** [None] is the answer of a process that was killed. *)
Definition IO (E A : Type) : Type := FsEnv → World → World * option (result E A).

#[export] Instance io_ret {E} : MRet (IO E) := λ A a env w, (w, Some (Ok a)).
#[export] Instance io_bind {E} : MBind (IO E) := λ A B f m env w,
  match m env w with
  | (w', Some (Ok a)) => f a env w'
  | (w', Some (Err e)) => (w', Some (Err e))
  | (w', None) => (w', None)
  end.

Definition io_lift {E A} (r : result E A) : IO E A := λ env w, (w, Some r).
Definition io_fail {E A} (e : E) : IO E A := io_lift (Err e).
Definition io_map_err {E F A} (f : E → F) (m : IO E A) : IO F A := λ env w,
  let '(w', r) := m env w in (w', (λ r, map_err f r) <$> r).
(** The result of a computation as a value: [match m { Ok … Err … }]. *)
Definition attempt {E F A} (m : IO E A) : IO F (result E A) := λ env w,
  let '(w', r) := m env w in (w', Ok <$> r).
Definition io_env {E A} (f : FsEnv → A) : IO E A := λ env w, (w, Some (Ok (f env))).

(** A call that does [op], or [broken] when it fails. *)
Definition call_with {A} (broken : nat → FsEnv → FS → FS)
    (op : nat → FsEnv → FS → FS * result IoError A) : IO IoError A := λ env w,
  let n := w_calls w in
  let fs := interfere env n (w_fs w) in
  if killed env n then ({| w_fs := fs; w_calls := S n |}, None)
  else match fault env n with
       | Some text =>
           ({| w_fs := broken n env fs; w_calls := S n |},
            Some (Err {| io_kind := OtherError; io_text := text |}))
       | None =>
           let '(fs', r) := op n env fs in ({| w_fs := fs'; w_calls := S n |}, Some r)
       end.
Definition call {A} := @call_with A (λ _ _ fs, fs).

Definition resolve (follow : bool) (env : FsEnv) (fs : FS) (p : Path) : result IoError Key :=
  match components p with
  | [] => Err enoent
  | comps => namei fs follow MAXSYMLINKS (working_directory env) comps
  end.

(** [std::fs::Metadata]. *)
Record Metadata := {
  m_kind : FileKind;
  m_mode : Z;
  m_uid : Z;
  m_nlink : Z;
  m_dev : Z;
  m_ino : Z;
  m_mtime : Z * Z;
  m_ctime : Z * Z;
  m_len : Z;
}.

Definition metadata_of (i : Inode) : Metadata :=
  {| m_kind := i_kind i; m_mode := i_mode i; m_uid := i_uid i; m_nlink := i_nlink i;
     m_dev := i_dev i; m_ino := i_ino i; m_mtime := i_mtime i; m_ctime := i_ctime i;
     m_len := str_len (i_data i) |}.

Definition is_symlink (m : Metadata) : bool := bool_decide (m_kind m = Symlink).
Definition is_file (m : Metadata) : bool := bool_decide (m_kind m = RegularFile).
Definition is_dir (m : Metadata) : bool := bool_decide (m_kind m = Directory).
(** [permissions().mode() & mask != 0]. *)
Definition mode_has (mask : Z) (m : Metadata) : bool := negb (Z.land (m_mode m) mask =? 0)%Z.

(** An open file; [h_key] is the place it was opened at. *)
Record File := { h_inode : InodeId; h_key : Key }.

Definition stat (follow : bool) (p : Path) : IO IoError Metadata :=
  call (λ _ env fs,
    (fs, k ← resolve follow env fs p;
         match inode_at fs k with Some (_, i) => Ok (metadata_of i) | None => Err enoent end)).
(** [fs::symlink_metadata] and [fs::metadata]. *)
Definition symlink_metadata := stat false.
Definition metadata := stat true.

(** [File::metadata]. *)
Definition file_metadata (f : File) : IO IoError Metadata :=
  call (λ _ _ fs,
    (fs, match fs_inodes fs !! h_inode f with Some i => Ok (metadata_of i) | None => Err eio end)).

Record OpenOptions := {
  o_write : bool;
  o_create : bool;
  o_create_new : bool;
  o_mode : Z;
  o_nofollow : bool;
}.

Definition new_inode (n : nat) (env : FsEnv) (kind : FileKind) (mode : Z) : Inode :=
  {| i_kind := kind; i_mode := Z.land mode (Z.lnot (umask env)); i_uid := user_id env; i_nlink := 1;
     i_dev := (identity env n).1; i_ino := (identity env n).2;
     i_mtime := clock env n; i_ctime := clock env n; i_data := ""; i_synced := false |}.

Definition create_at (n : nat) (env : FsEnv) (fs : FS) (k : Key) (kind : FileKind) (mode : Z) : FS :=
  set_entry (add_inode fs (new_inode n env kind mode)) k (Some (fs_next fs)).

(** [OpenOptions::open]. *)
Definition open_at (o : OpenOptions) (p : Path) (n : nat) (env : FsEnv) (fs : FS) :
    FS * result IoError File :=
  match resolve (negb (o_nofollow o || o_create_new o)) env fs p with
  | Err e => (fs, Err e)
  | Ok k =>
      match inode_at fs k with
      | Some (id, i) =>
          if o_create_new o then (fs, Err eexist)
          else match i_kind i with
               | Symlink => (fs, Err eloop)
               | Directory =>
                   if o_write o then (fs, Err eisdir) else (fs, Ok {| h_inode := id; h_key := k |})
               | _ => (fs, Ok {| h_inode := id; h_key := k |})
               end
      | None =>
          if o_create o || o_create_new o then
            (create_at n env fs k RegularFile (o_mode o),
             Ok {| h_inode := fs_next fs; h_key := k |})
          else (fs, Err enoent)
      end
  end.
Definition open_file (o : OpenOptions) (p : Path) : IO IoError File := call (open_at o p).

(** [File::open] and [OpenOptions::new().read(true).custom_flags(O_NOFOLLOW)]. *)
Definition read_only (nofollow : bool) : OpenOptions :=
  {| o_write := false; o_create := false; o_create_new := false; o_mode := 0;
     o_nofollow := nofollow |}.

(** [File::read_to_end] from the start. *)
Definition read_to_end (f : File) : IO IoError string :=
  call (λ _ _ fs,
    (fs, match fs_inodes fs !! h_inode f with
         | Some i => match i_kind i with Directory => Err eisdir | _ => Ok (i_data i) end
         | None => Err eio
         end)).

(** [fs::read]. *)
Definition read_file (p : Path) : IO IoError string :=
  f ← open_file (read_only false) p; read_to_end f.

Fixpoint str_take (n : nat) (s : string) : string :=
  match n, s with
  | S m, String a s' => String a (str_take m s')
  | _, _ => ""
  end.
Fixpoint str_drop (n : nat) (s : string) : string :=
  match n, s with
  | S m, String _ s' => str_drop m s'
  | _, _ => s
  end.

(** [File::read] at an offset: a part of what is there, none only at the end. *)
Definition read_at (f : File) (offset size : nat) : IO IoError string :=
  call (λ n env fs,
    (fs, match fs_inodes fs !! h_inode f with
         | Some i =>
             match i_kind i with
             | Directory => Err eisdir
             | _ => Ok (str_take (Nat.min size (S (delivered env n))) (str_drop offset (i_data i)))
             end
         | None => Err eio
         end)).

(** [File::try_clone] and [File::seek] to the start. *)
Definition rewind (f : File) : IO IoError unit := call (λ _ _ fs, (fs, Ok tt)).

(** A process that does not come back. *)
Definition io_stop {E A} : IO E A := λ env w, (w, None).

(** Bytes written from the start of a file. *)
Definition overwrite (s old : string) : string := s +:+ str_drop (String.length s) old.

Definition write_inode (n : nat) (env : FsEnv) (s : string) (fs : FS) (id : InodeId) : FS :=
  match fs_inodes fs !! id with
  | Some i =>
      set_inode fs id
        {| i_kind := i_kind i; i_mode := i_mode i; i_uid := i_uid i; i_nlink := i_nlink i;
           i_dev := i_dev i; i_ino := i_ino i; i_mtime := clock env n; i_ctime := clock env n;
           i_data := overwrite s (i_data i); i_synced := false |}
  | None => fs
  end.

(** [File::write_all] at the start of the file; a failing one leaves a part. *)
Definition write_all (f : File) (s : string) : IO IoError unit :=
  call_with (λ n env fs, write_inode n env (str_take (written env n) s) fs (h_inode f))
    (λ n env fs, (write_inode n env s fs (h_inode f), Ok tt)).

Definition sync_inode (fs : FS) (id : InodeId) : FS :=
  match fs_inodes fs !! id with
  | Some i =>
      set_inode fs id
        {| i_kind := i_kind i; i_mode := i_mode i; i_uid := i_uid i; i_nlink := i_nlink i;
           i_dev := i_dev i; i_ino := i_ino i; i_mtime := i_mtime i; i_ctime := i_ctime i;
           i_data := i_data i; i_synced := true |}
  | None => fs
  end.

(** [File::sync_all]: of a file its contents, of a directory its entries. *)
Definition sync_all (f : File) : IO IoError unit :=
  call (λ _ _ fs,
    match fs_inodes fs !! h_inode f with
    | Some i =>
        match i_kind i with
        | Directory => (settle_dir (sync_inode fs (h_inode f)) (h_key f), Ok tt)
        | _ => (sync_inode fs (h_inode f), Ok tt)
        end
    | None => (fs, Err eio)
    end).

(** One name less for an inode. *)
Definition unlink_inode (n : nat) (env : FsEnv) (fs : FS) (id : InodeId) : FS :=
  match fs_inodes fs !! id with
  | Some i =>
      set_inode fs id
        {| i_kind := i_kind i; i_mode := i_mode i; i_uid := i_uid i; i_nlink := i_nlink i - 1;
           i_dev := i_dev i; i_ino := i_ino i; i_mtime := i_mtime i; i_ctime := clock env n;
           i_data := i_data i; i_synced := i_synced i |}
  | None => fs
  end.

Definition touch_inode (n : nat) (env : FsEnv) (fs : FS) (id : InodeId) : FS :=
  match fs_inodes fs !! id with
  | Some i =>
      set_inode fs id
        {| i_kind := i_kind i; i_mode := i_mode i; i_uid := i_uid i; i_nlink := i_nlink i;
           i_dev := i_dev i; i_ino := i_ino i; i_mtime := i_mtime i; i_ctime := clock env n;
           i_data := i_data i; i_synced := i_synced i |}
  | None => fs
  end.

(** [fs::rename] of a file. *)
Definition rename_at (from to : Path) (n : nat) (env : FsEnv) (fs : FS) : FS * result IoError unit :=
  match resolve false env fs from, resolve false env fs to with
  | Err e, _ | _, Err e => (fs, Err e)
  | Ok kf, Ok kt =>
      match inode_at fs kf with
      | None => (fs, Err enoent)
      | Some (id, i) =>
          if decide (i_kind i = Directory) then (fs, Err enotdir)
          else match inode_at fs kt with
               | Some (old, j) =>
                   if decide (i_kind j = Directory) then (fs, Err eisdir)
                   else if decide (old = id) then (fs, Ok tt)
                   else (touch_inode n env
                           (unlink_inode n env (set_entry (set_entry fs kt (Some id)) kf None) old) id,
                         Ok tt)
               | None =>
                   (touch_inode n env (set_entry (set_entry fs kt (Some id)) kf None) id, Ok tt)
               end
      end
  end.
Definition rename (from to : Path) : IO IoError unit := call (rename_at from to).

(** [fs::remove_file]. *)
Definition remove_at (p : Path) (n : nat) (env : FsEnv) (fs : FS) : FS * result IoError unit :=
  match resolve false env fs p with
  | Err e => (fs, Err e)
  | Ok k =>
      match inode_at fs k with
      | None => (fs, Err enoent)
      | Some (id, i) =>
          if decide (i_kind i = Directory) then (fs, Err eisdir)
          else (unlink_inode n env (set_entry fs k None) id, Ok tt)
      end
  end.
Definition remove_file (p : Path) : IO IoError unit := call (remove_at p).

(** [mkdir]. *)
Definition mkdir_at (p : Path) (n : nat) (env : FsEnv) (fs : FS) : FS * result IoError unit :=
  match resolve false env fs p with
  | Err e => (fs, Err e)
  | Ok k =>
      match kind_at fs k with
      | Some _ => (fs, Err eexist)
      | None => (create_at n env fs k Directory 511 (* 0o777 *), Ok tt)
      end
  end.
Definition mkdir (p : Path) : IO IoError unit := call (mkdir_at p).

(** [Path::is_dir]. *)
Definition path_is_dir (p : Path) : IO IoError bool :=
  m ← attempt (metadata p);
  mret (match m with Ok m => is_dir m | Err _ => false end).

(** [mkdir], or find the directory there. *)
Definition mkdir_or_present (p : Path) : IO IoError (result IoError unit) :=
  r ← attempt (mkdir p);
  match r with
  | Ok _ => mret (Ok tt)
  | Err e =>
      match io_kind e with
      | NotFound => mret (Err e)
      | _ => d ← path_is_dir p; mret (if d : bool then Ok tt else Err e)
      end
  end.

(** [fs::create_dir_all]; a path has more components than its parent. *)
Fixpoint create_dirs (depth : nat) (p : Path) : IO IoError unit :=
  if bool_decide (p = "") then mret tt
  else
    r ← mkdir_or_present p;
    match r with
    | Ok _ => mret tt
    | Err e =>
        match io_kind e, depth, parent p with
        | NotFound, S d, Some q =>
            _ ← create_dirs d q;
            r ← mkdir_or_present p;
            io_lift r
        | _, _, _ => io_fail e
        end
    end.
Definition create_dir_all (p : Path) : IO IoError unit := create_dirs (length (components p)) p.

(** [File::lock], which waits until the lock is free. *)
Definition lock_file (f : File) : IO IoError unit := call (λ _ _ fs, (fs, Ok tt)).

(** [Path::canonicalize]. *)
Definition canonicalize (p : Path) : IO IoError Path :=
  call (λ _ env fs,
    (fs, k ← resolve true env fs p;
         match kind_at fs k with
         | Some _ => Ok (path_of ("/" :: k))
         | None => Err enoent
         end)).

(** [Path::exists]. *)
Definition path_exists (p : Path) : IO IoError bool :=
  m ← attempt (metadata p);
  mret (match m with Ok _ => true | Err _ => false end).

(** [fs::set_permissions]. *)
Definition chmod_inode (n : nat) (env : FsEnv) (mode : Z) (fs : FS) (id : InodeId) : FS :=
  match fs_inodes fs !! id with
  | Some i =>
      set_inode fs id
        {| i_kind := i_kind i; i_mode := mode; i_uid := i_uid i; i_nlink := i_nlink i;
           i_dev := i_dev i; i_ino := i_ino i; i_mtime := i_mtime i; i_ctime := clock env n;
           i_data := i_data i; i_synced := false |}
  | None => fs
  end.
Definition set_permissions (p : Path) (mode : Z) : IO IoError unit :=
  call (λ n env fs,
    match resolve true env fs p with
    | Err e => (fs, Err e)
    | Ok k =>
        match inode_at fs k with
        | Some (id, _) => (chmod_inode n env mode fs id, Ok tt)
        | None => (fs, Err enoent)
        end
    end).

(** Bytes of [/dev/urandom]: opening it, then reading as many as asked for. *)
Definition urandom (n : nat) : IO IoError string :=
  _ ← call (λ _ _ fs, (fs, Ok tt));
  call (λ k env fs, (fs, Ok (str_take n (random env k)))).

(** [SystemTime::now]: seconds and nanoseconds since the epoch. *)
Definition time_now {E} : IO E (Z * Z) := λ env w,
  ({| w_fs := w_fs w; w_calls := S (w_calls w) |}, Some (Ok (clock env (w_calls w)))).

(** Open a directory and sync it, as [File::open(d).and_then(|d| d.sync_all())]. *)
Definition sync_dir (d : Path) : IO IoError unit :=
  f ← open_file (read_only false) d; sync_all f.

(** ** Power loss

    Every entry comes back with one of its possible values; synced inodes are
    as they were, but for the number of their links and the time of its last
    change, which depend on the entries that come back. *)
Definition with_links (links : Z) (ctime : Z * Z) (i : Inode) : Inode :=
  {| i_kind := i_kind i; i_mode := i_mode i; i_uid := i_uid i; i_nlink := links;
     i_dev := i_dev i; i_ino := i_ino i; i_mtime := i_mtime i; i_ctime := ctime;
     i_data := i_data i; i_synced := i_synced i |}.
Record power_loss (fs fs' : FS) : Prop := {
  loss_entries k : e_latest (entry_at fs' k) ∈ possible (entry_at fs k) ∧ e_pending (entry_at fs' k) = [];
  loss_inodes id i : fs_inodes fs !! id = Some i → i_synced i = true →
    ∃ links ctime, fs_inodes fs' !! id = Some (with_links links ctime i);
  loss_next : fs_next fs' = fs_next fs;
  loss_dom id : is_Some (fs_inodes fs' !! id) ↔ is_Some (fs_inodes fs !! id);
}.
