(* ===== verification/ControlFiles.v ===== *)
(** * Control files

    linura-update and linura-migrations keep their durable state the same way:
    one small text file replaced atomically ([atomic_write]) under an exclusive
    lock on a sidecar file ([acquire_exclusive]).  The two crates have their own
    copies of these routines, which differ in error type and messages; here
    they are written once over the class [ControlErrors]. *)

From Stdlib Require Import ZArith Lia Ascii.
From stdpp Require Import base numbers gmap strings list fin_maps sorting.
From S2P Require Import Prelude Text Fields Paths Files.

Set Default Goal Selector "!".

(** The errors of a crate that the shared routines raise. *)
Class ControlErrors (E : Type) := {
  ce_io : string → E;
  ce_uncertain : string → E;
  ce_untrusted_lock : E;
}.

(** The texts in which the copies of a routine differ. *)
Record WriteTexts := {
  wt_no_parent : string;
  wt_bad_name : string;
  wt_unsynced : string;
}.

(** ** Time *)
Definition epoch_error : string := "second time provided was later than self".

(** [time.duration_since(UNIX_EPOCH)]. *)
Definition since_epoch {E} `{ControlErrors E} (t : Z * Z) : result E (Z * Z) :=
  if (t.1 <? 0)%Z then Err (ce_io epoch_error) else Ok t.
Definition as_nanos (t : Z * Z) : Z := t.1 * 1000000000 + t.2.
Definition as_millis (t : Z * Z) : Z := t.1 * 1000 + t.2 / 1000000.

Definition system_time_to_unix_ms {E} `{ControlErrors E} (t : Z * Z) : result E Z :=
  d ← since_epoch t;
  if (as_millis d <=? u64_max)%Z then Ok (as_millis d)
  else Err (ce_io "timestamp exceeds u64 range").

Definition unix_now_ms {E} `{ControlErrors E} : IO E Z :=
  t ← time_now; io_lift (system_time_to_unix_ms t).

(** ** FNV-1a *)
Definition FNV_OFFSET : Z := 14695981039346656037.
Definition FNV_PRIME : Z := 1099511628211.

(** [wrapping_mul] of a [u64]. *)
Definition u64_wrapping_mul (x y : Z) : Z := (x * y) mod 2 ^ 64.

Fixpoint fnv1a_update (state : Z) (s : string) : Z :=
  match s with
  | EmptyString => state
  | String a s' =>
      fnv1a_update (u64_wrapping_mul (Z.lxor state (Z.of_N (Ascii.N_of_ascii a))) FNV_PRIME) s'
  end.
Definition integrity_tag (s : string) : Z := fnv1a_update FNV_OFFSET s.

Example fnv1a_ok : integrity_tag "a" = 12638187200555641996%Z.
Proof. reflexivity. Qed.

(** The payload of a record closed by an [integrity=] line, once its tag is
    checked. *)
Definition integrity_payload {E} (corrupt : string → E) (not_utf8 bytes : string) : result E string :=
  _ ← reject_if (negb (utf8_valid bytes)) (corrupt not_utf8);
  integrity_start ← ok_or (rfind "integrity=" bytes) (corrupt "integrity record is missing");
  let '(payload, integrity_line) := split_at integrity_start bytes in
  expected ← ok_or (match strip_prefix "integrity=" integrity_line with
                    | Some value => strip_suffix LF value
                    | None => None
                    end) (corrupt "invalid integrity record");
  _ ← reject_if (negb (String.length expected =? 16)%nat || negb (all_hexdigits expected))
        (corrupt "invalid integrity tag");
  expected ← ok_or (from_str_radix16 u64_max expected) (corrupt "invalid integrity tag");
  _ ← reject_if (negb (integrity_tag payload =? expected)%Z) (corrupt "integrity tag mismatch");
  Ok payload.

Section control_files.
Context {E : Type} `{ControlErrors E}.

Definition io_error (e : IoError) : E := ce_io (io_text e).
Definition sys {A} (m : IO IoError A) : IO E A := io_map_err io_error m.

Definition group_or_other_write : Z := 18 (* 0o022 *).

(** A path that is not a private regular file. *)
Definition untrusted_file (m : Metadata) : bool :=
  is_symlink m || negb (is_file m) || mode_has group_or_other_write m.

(** [path.file_name().and_then(|name| name.to_str())]. *)
Definition utf8_file_name (p : Path) : option string :=
  match file_name p with
  | Some n => if utf8_valid n then Some n else None
  | None => None
  end.

Definition sidecar_path (texts : WriteTexts) (path : Path) (suffix : string) : result E Path :=
  parent ← ok_or (parent path) (ce_io (wt_no_parent texts));
  file_name ← ok_or (utf8_file_name path) (ce_io (wt_bad_name texts));
  Ok (join parent ("." +:+ file_name +:+ "." +:+ suffix)).

Definition reject_untrusted_existing_lock (path : Path) : IO E unit :=
  r ← attempt (symlink_metadata path);
  match r with
  | Ok metadata => if untrusted_file metadata then io_fail ce_untrusted_lock else mret tt
  | Err error =>
      match io_kind error with NotFound => mret tt | _ => io_fail (io_error error) end
  end.

Definition validate_control_file_identity (path : Path) (file : File) (error : E) : IO E unit :=
  path_metadata ← sys (symlink_metadata path);
  opened_metadata ← sys (file_metadata file);
  if untrusted_file path_metadata
     || negb (m_dev opened_metadata =? m_dev path_metadata)%Z
     || negb (m_ino opened_metadata =? m_ino path_metadata)%Z
  then io_fail error else mret tt.

Definition private_mode : Z := 384 (* 0o600 *).

Definition lock_options : OpenOptions :=
  {| o_write := true; o_create := true; o_create_new := false; o_mode := private_mode;
     o_nofollow := true |}.

Definition acquire_exclusive (texts : WriteTexts) (lock_no_parent : string) (path : Path) : IO E File :=
  lock_path ← io_lift (sidecar_path texts path "lock");
  parent ← io_lift (ok_or (parent lock_path) (ce_io lock_no_parent));
  _ ← sys (create_dir_all parent);
  _ ← reject_untrusted_existing_lock lock_path;
  file ← sys (open_file lock_options lock_path);
  _ ← validate_control_file_identity lock_path file ce_untrusted_lock;
  _ ← sys (lock_file file);
  _ ← validate_control_file_identity lock_path file ce_untrusted_lock;
  mret file.

Definition temporary_options : OpenOptions :=
  {| o_write := true; o_create := false; o_create_new := true; o_mode := private_mode;
     o_nofollow := false |}.

Definition temporary_name (file_name : string) (pid nonce : Z) : string :=
  "." +:+ file_name +:+ ".tmp-" +:+ u64_to_string pid +:+ "-" +:+ u64_to_string nonce.

(** Up to and including the rename. *)
Definition write_temporary (temporary path : Path) (bytes : string) : IO E unit :=
  file ← sys (open_file temporary_options temporary);
  _ ← sys (write_all file bytes);
  _ ← sys (sync_all file);
  sys (rename temporary path).

Definition atomic_write (texts : WriteTexts) (path : Path) (bytes : string) : IO E unit :=
  parent ← io_lift (ok_or (parent path) (ce_io (wt_no_parent texts)));
  _ ← sys (create_dir_all parent);
  t ← time_now;
  since ← io_lift (since_epoch t);
  file_name ← io_lift (ok_or (utf8_file_name path) (ce_io (wt_bad_name texts)));
  pid ← io_env process_id;
  let temporary := join parent (temporary_name file_name pid (as_nanos since)) in
  r ← attempt (write_temporary temporary path bytes);
  match r with
  | Ok _ =>
      io_map_err (λ e, ce_uncertain (wt_unsynced texts +:+ io_text e)) (sync_dir parent)
  | Err error =>
      _ ← @attempt _ E _ (remove_file temporary);
      io_fail error
  end.
End control_files.

(** * Reading records back

    A record is its lines followed by an [integrity=] line; [integrity_payload]
    returns exactly the lines that were written, and a record it accepts
    carries the tag of its payload. *)

Definition ascii_text (s : string) : bool := forallb is_ascii_code (codes s).

Lemma ascii_text_app s t : ascii_text (s +:+ t) = ascii_text s && ascii_text t.
Proof. unfold ascii_text. by rewrite codes_app, forallb_app. Qed.

Lemma hex_digit_graphic n : (0 ≤ n < 16)%Z → graphic (Ascii.N_of_ascii (hex_digit_lower n)) = true.
Proof.
  assert (Forall (λ n, graphic (Ascii.N_of_ascii (hex_digit_lower n)) = true) (seqZ 0 16)) as F.
  { vm_compute. repeat constructor. }
  intros H. rewrite Forall_forall in F. apply F, elem_of_seqZ. lia.
Qed.

Lemma lower_hex_text_graphic s : lower_hex_text s → all_graphic s = true.
Proof.
  unfold lower_hex_text, all_graphic, codes. induction 1 as [|a l (n & Hn & ->) H IH]; [done|].
  cbn [map forallb]. rewrite hex_digit_graphic by done. exact IH.
Qed.

Lemma u64_text_graphic v : all_graphic (u64_to_string v) = true.
Proof.
  assert (all_digits (u64_to_string v) = true) as Hd.
  { unfold u64_to_string. destruct (N.to_uint (Z.to_N v)) eqn:E; [done|..]; apply uint_all_digits. }
  unfold all_digits in Hd. unfold all_graphic.
  induction (codes (u64_to_string v)) as [|c l IH]; [done|]. cbn in *.
  apply andb_prop in Hd as [Hc Hd]. rewrite IH, andb_true_r by done.
  unfold is_ascii_digit in Hc. apply andb_prop in Hc as [Ha%N.leb_le Hb%N.leb_le].
  unfold graphic. apply andb_true_iff. rewrite !N.leb_le. lia.
Qed.

Lemma graphic_ascii s : all_graphic s = true → ascii_text s = true.
Proof.
  unfold all_graphic, ascii_text. induction (codes s) as [|c l IH]; [done|]. cbn.
  intros [Hc Hl]%andb_prop. rewrite IH by done. unfold graphic in Hc.
  apply andb_prop in Hc as [_ H%N.leb_le]. unfold is_ascii_code.
  by rewrite (proj2 (N.ltb_lt _ _)) by lia.
Qed.

Lemma ascii_unlines l : Forall (λ s, ascii_text s = true) l → ascii_text (unlines l) = true.
Proof.
  induction 1 as [|s l Hs H IH]; [done|]. unfold unlines in *. cbn [foldr].
  rewrite !ascii_text_app, Hs, IH. done.
Qed.

(** No hexadecimal digit is the sign before a value. *)
Lemma hex_digit_not_equals n : (0 ≤ n < 16)%Z → "="%char ≠ hex_digit_lower n.
Proof. intros H E. apply (f_equal hex_value) in E. by rewrite hex_value_digit in E. Qed.

Lemma rfind_cons_None p a s : rfind p s = None → starts_with p (String a s) = false → rfind p (String a s) = None.
Proof. intros Hs Ha. cbn [rfind]. by rewrite Hs, Ha. Qed.

(** The last match of a pattern in a text that ends with one. *)
Lemma rfind_closing p a t :
  rfind (String a p) (p +:+ t) = None → rfind (String a p) (String a p +:+ t) = Some O.
Proof.
  intros H. rewrite string_app_cons. cbn [rfind]. rewrite H. unfold starts_with.
  change (String a (p +:+ t)) with (String a p +:+ t). by rewrite strip_prefix_app.
Qed.

Lemma rfind_integrity t :
  avoids "integrity=" t → rfind "integrity=" ("integrity=" +:+ t) = Some O.
Proof.
  intros H. apply rfind_closing. cbn [String.append].
  repeat (apply rfind_cons_None; [|done]). by apply rfind_avoids.
Qed.

Lemma rfind_authentication t :
  avoids "authentication=" t → rfind "authentication=" ("authentication=" +:+ t) = Some O.
Proof.
  intros H. apply rfind_closing. cbn [String.append].
  repeat (apply rfind_cons_None; [|done]). by apply rfind_avoids.
Qed.

Lemma fnv1a_range x s : is_u64 x → is_u64 (fnv1a_update x s).
Proof.
  revert x. induction s as [|a s IH]; intros x Hx; [done|]. cbn [fnv1a_update]. apply IH.
  unfold is_u64, u64_wrapping_mul, u64_max.
  pose proof (Z.mod_pos_bound (Z.lxor x (Z.of_N (Ascii.N_of_ascii a)) * FNV_PRIME) (2 ^ 64)). lia.
Qed.

Lemma integrity_tag_u64 s : is_u64 (integrity_tag s).
Proof. apply fnv1a_range. by vm_compute. Qed.

Section integrity.
Context {E : Type} (corrupt : string → E) (not_utf8 : string).

Definition closed_record (payload : string) : string :=
  payload +:+ "integrity=" +:+ u64_hex16 (integrity_tag payload) +:+ String LF "".

Lemma closing_avoids x : avoids "integrity=" (u64_hex16 x +:+ String LF "").
Proof.
  exists "="%char. split; [cbn; set_solver|]. rewrite list_ascii_app.
  pose proof (lower_hex_digits 16 x) as H.
  unfold lower_hex_text in H. rewrite Forall_forall in H.
  intros [Hin|Hin]%elem_of_app; [|cbn in Hin; set_solver].
  destruct (H _ Hin) as (n & Hn & E'). by apply hex_digit_not_equals in E'.
Qed.

Lemma integrity_payload_ok payload :
  ascii_text payload = true →
  integrity_payload corrupt not_utf8 (closed_record payload) = Ok payload.
Proof.
  intros Ha. unfold integrity_payload, closed_record.
  set (tag := u64_hex16 (integrity_tag payload)).
  assert (lower_hex_text tag) as Hl by apply lower_hex_digits.
  rewrite utf8_valid_ascii; cycle 1.
  { change (ascii_text (payload +:+ "integrity=" +:+ tag +:+ String LF "") = true).
    rewrite !ascii_text_app, Ha, (graphic_ascii tag) by (by apply lower_hex_text_graphic). done. }
  cbn [negb reject_if]. cbv [mbind result_bind].
  rewrite (rfind_app _ _ _ 0) by (apply rfind_integrity, closing_avoids). cbn [ok_or].
  rewrite Nat.add_0_r, split_at_app, strip_prefix_app, strip_suffix_app. cbn [ok_or].
  rewrite (lower_all_hexdigits tag) by done.
  unfold tag at 1. unfold u64_hex16 at 1. rewrite length_hex_digits. cbn [Nat.eqb negb orb reject_if].
  unfold tag. rewrite from_radix_hex16 by apply integrity_tag_u64. cbn [ok_or].
  by rewrite Z.eqb_refl.
Qed.

(** What is accepted ends with the tag of the payload. *)
Lemma integrity_payload_Ok bytes payload :
  integrity_payload corrupt not_utf8 bytes = Ok payload →
  ∃ tag, bytes = payload +:+ "integrity=" +:+ tag +:+ String LF "" ∧ String.length tag = 16%nat ∧
    from_str_radix16 u64_max tag = Some (integrity_tag payload).
Proof.
  unfold integrity_payload. intros H. apply bind_Ok in H as (? & _ & H).
  apply bind_Ok in H as (start & _ & H).
  destruct (split_at start bytes) as [pl line] eqn:Es. apply split_at_eq in Es as ->.
  apply bind_Ok in H as (tag & Ht & H). apply ok_or_Ok in Ht.
  destruct (strip_prefix "integrity=" line) as [v|] eqn:Ep; [|done].
  apply strip_prefix_Some in Ep as ->. apply strip_suffix_Some in Ht as ->.
  apply bind_Ok in H as (? & Hr & H). apply reject_if_Ok, orb_false_iff in Hr as [Hlen _].
  apply negb_false_iff, Nat.eqb_eq in Hlen.
  apply bind_Ok in H as (expected & He & H). apply ok_or_Ok in He.
  apply bind_Ok in H as (? & Hr & [= <-]). apply reject_if_Ok, negb_false_iff, Z.eqb_eq in Hr.
  exists tag. by rewrite Hr.
Qed.
End integrity.
