(* ===== verification/FileFacts.v ===== *)
(** * Facts about files

    What calls do to a control directory that no other process touches.  A
    place of the directory is seen through its [views]: what a reader finds
    there now, then what a power loss could bring back. *)

From Stdlib Require Import ZArith Lia Ascii.
From stdpp Require Import base numbers gmap strings list fin_maps sorting.
From S2P Require Import Prelude Text Fields Paths Files ControlFiles.

Set Default Goal Selector "!".

(** ** Views *)
Record View := { v_kind : FileKind; v_mode : Z; v_data : string; v_synced : bool }.

Definition view_of (i : Inode) : View :=
  {| v_kind := i_kind i; v_mode := i_mode i; v_data := i_data i; v_synced := i_synced i |}.
Definition view_id (fs : FS) (o : option InodeId) : option View :=
  match o with Some id => view_of <$> fs_inodes fs !! id | None => None end.
Definition views (fs : FS) (k : Key) : list (option View) :=
  view_id fs <$> possible (entry_at fs k).

(** Every name refers to an inode and inodes are numbered below [fs_next]. *)
Record fs_wf (fs : FS) : Prop := {
  wf_entry k id : Some id ∈ possible (entry_at fs k) → is_Some (fs_inodes fs !! id);
  wf_next id : is_Some (fs_inodes fs !! id) → (id < fs_next fs)%nat;
}.

(** A directory that a power loss leaves in place. *)
Definition settled_dir (fs : FS) (k : Key) : Prop :=
  ∃ id i, entry_at fs k = {| e_latest := Some id; e_pending := [] |} ∧
    fs_inodes fs !! id = Some i ∧ i_kind i = Directory ∧ i_synced i = true.

(** The directory [d] and all above it. *)
Definition dir_path (fs : FS) (d : Key) : Prop := ∀ k, k `prefix_of` d → settled_dir fs k.

Definition base (d : Key) (fs : FS) : Prop := fs_wf fs ∧ dir_path fs d.

(** ** What other processes leave alone *)

(** The directory, those above it, and what is in it. *)
Definition ours (d k : Key) : Prop := k `prefix_of` d ∨ ∃ n, k = d ++ [n].

Record rely (d : Key) (fs fs' : FS) : Prop := {
  rely_wf : fs_wf fs → fs_wf fs';
  rely_entry k : ours d k → entry_at fs' k = entry_at fs k;
  rely_view k id : ours d k → Some id ∈ possible (entry_at fs k) →
    view_of <$> fs_inodes fs' !! id = view_of <$> fs_inodes fs !! id;
}.

Lemma ours_child d n : ours d (d ++ [n]).
Proof. right. eauto. Qed.
Lemma ours_dir d : ours d d.
Proof. left. by exists []; rewrite app_nil_r. Qed.
#[export] Hint Resolve ours_child ours_dir : core.

Lemma rely_base d fs fs' : rely d fs fs' → base d fs → base d fs'.
Proof.
  intros Hr [Hw Hd]. split; [by apply (rely_wf d fs)|]. intros k Hp.
  destruct (Hd k Hp) as (id & i & He & Hi & Hk & Hs). exists id.
  pose proof (rely_view d fs fs' Hr k id (or_introl Hp)) as Hv.
  rewrite He, Hi in Hv. destruct (fs_inodes fs' !! id) as [j|] eqn:Ej.
  - exists j. rewrite (rely_entry d fs fs' Hr) by (by left). split_and!; [done..| |].
    all: specialize (Hv ltac:(left)); injection Hv as Hk' _ _ Hs'; congruence.
  - specialize (Hv ltac:(left)). done.
Qed.

Definition quiet (d : Key) (env : FsEnv) : Prop := ∀ n fs, rely d fs (interfere env n fs).

(** ** Triples *)
Section triples.
Context (d : Key) (env : FsEnv).

Definition spec {E A} (P : FS → Prop) (m : IO E A) (Q : FS → option (result E A) → Prop) : Prop :=
  ∀ w, P (w_fs w) → Q (w_fs (m env w).1) (m env w).2.

Definition stable (P : FS → Prop) : Prop := ∀ fs fs', rely d fs fs' → P fs → P fs'.

Lemma spec_ret {E A} (a : A) P (Q : _ → option (result E A) → Prop) :
  (∀ fs, P fs → Q fs (Some (Ok a))) → spec P (mret a) Q.
Proof. intros H w Hw. by apply H. Qed.

Lemma spec_lift {E A} (r : result E A) P (Q : _ → option (result E A) → Prop) :
  (∀ fs, P fs → Q fs (Some r)) → spec P (io_lift r) Q.
Proof. intros H w Hw. by apply H. Qed.

Lemma spec_weaken {E A} (m : IO E A) (P P' : FS → Prop) (Q Q' : _ → _ → Prop) :
  spec P' m Q' → (∀ fs, P fs → P' fs) → (∀ fs r, Q' fs r → Q fs r) → spec P m Q.
Proof. intros Hm HP HQ w Hw. by apply HQ, Hm, HP. Qed.

Lemma spec_pre {E A} (m : IO E A) (P P' : FS → Prop) (Q : _ → _ → Prop) :
  (∀ fs, P fs → P' fs) → spec P' m Q → spec P m Q.
Proof. intros HP Hm w Hw. by apply Hm, HP. Qed.

Lemma spec_pure {E A} (φ : Prop) (m : IO E A) P Q :
  (φ → spec P m Q) → spec (λ fs, P fs ∧ φ) m Q.
Proof. intros Hm w [Hw Hφ]. by apply Hm. Qed.

Lemma spec_bind {E A B} (m : IO E A) (f : A → IO E B) P R (Q : _ → option (result E B) → Prop) :
  spec P m R →
  (∀ a, spec (λ fs, R fs (Some (Ok a))) (f a) Q) →
  (∀ fs e, R fs (Some (Err e)) → Q fs (Some (Err e))) →
  (∀ fs, R fs None → Q fs None) →
  spec P (m ≫= f) Q.
Proof.
  intros Hm Hf He Hk w Hw. specialize (Hm w Hw). cbv [mbind io_bind].
  destruct (m env w) as [w' [[a|e]|]]; cbn in *; [|by apply He|by apply Hk].
  by apply (Hf a w').
Qed.

Lemma spec_map_err {E F A} (f : E → F) (m : IO E A) P (Q : _ → option (result F A) → Prop) :
  spec P m (λ fs r, Q fs (map_err f <$> r)) → spec P (io_map_err f m) Q.
Proof.
  intros Hm w Hw. specialize (Hm w Hw). unfold io_map_err. by destruct (m env w) as [w' r].
Qed.

Lemma spec_attempt {E F A} (m : IO E A) P (Q : _ → option (result F (result E A)) → Prop) :
  spec P m (λ fs r, Q fs (Ok <$> r)) → spec P (attempt m) Q.
Proof.
  intros Hm w Hw. specialize (Hm w Hw). unfold attempt. by destruct (m env w) as [w' r].
Qed.

(** Computations that keep an assertion whatever their outcome. *)
Lemma spec_keep_bind {E A B} (m : IO E A) (f : A → IO E B) P (Q : _ → option (result E B) → Prop) :
  spec P m (λ fs _, P fs) → (∀ a, spec P (f a) Q) →
  (∀ fs e, P fs → Q fs (Some (Err e))) → (∀ fs, P fs → Q fs None) → spec P (m ≫= f) Q.
Proof. intros Hm Hf He Hk. by eapply (spec_bind _ _ _ (λ fs _, P fs)). Qed.

Lemma spec_keep_attempt {E F A} (m : IO E A) P :
  spec P m (λ fs _, P fs) → spec P (@attempt E F A m) (λ fs _, P fs).
Proof. intros Hm. by apply spec_attempt. Qed.

Lemma spec_keep_map_err {E F A} (f : E → F) (m : IO E A) P :
  spec P m (λ fs _, P fs) → spec P (io_map_err f m) (λ fs _, P fs).
Proof. intros Hm. by apply spec_map_err. Qed.

Lemma spec_env {E A} (f : FsEnv → A) P (Q : _ → option (result E A) → Prop) :
  (∀ fs, P fs → Q fs (Some (Ok (f env)))) → spec P (io_env f) Q.
Proof. intros H w Hw. by apply H. Qed.

Lemma spec_time {E} P (Q : _ → option (result E (Z * Z)) → Prop) :
  (∀ fs t, P fs → Q fs (Some (Ok t))) → spec P time_now Q.
Proof. intros H w Hw. by apply H. Qed.

(** Steps that do not call the system. *)
Lemma spec_ok_bind {E A B} (a : A) (f : A → IO E B) P Q :
  spec P (f a) Q → spec P (io_lift (Ok a) ≫= f) Q.
Proof. intros Hf w Hw. by apply Hf. Qed.

Lemma spec_err_bind {E A B} (e : E) (f : A → IO E B) P (Q : _ → option (result E B) → Prop) :
  (∀ fs, P fs → Q fs (Some (Err e))) → spec P (io_lift (Err e) ≫= f) Q.
Proof. intros He w Hw. by apply He. Qed.

Lemma spec_attempt_bind {E F A B} (m : IO E A) (f : result E A → IO F B) P
    (R : FS → result E A → Prop) (Q : _ → option (result F B) → Prop) :
  spec P m (λ fs r, match r with Some r => R fs r | None => Q fs None end) →
  (∀ r, spec (λ fs, R fs r) (f r) Q) → spec P (attempt m ≫= f) Q.
Proof.
  intros Hm Hf w Hw. specialize (Hm w Hw). cbv [mbind io_bind attempt].
  destruct (m env w) as [w' [r|]]; cbn in *; [by apply (Hf r w')|done].
Qed.

Lemma spec_time_bind {E B} (f : Z * Z → IO E B) P Q :
  (∀ t, spec P (f t) Q) → spec P (time_now ≫= f) Q.
Proof. intros Hf w Hw. cbv [mbind io_bind time_now]. by apply Hf. Qed.

Lemma spec_env_bind {E A B} (g : FsEnv → A) (f : A → IO E B) P Q :
  spec P (f (g env)) Q → spec P (io_env g ≫= f) Q.
Proof. intros Hf w Hw. by apply Hf. Qed.

Context (Hquiet : quiet d env).

Lemma spec_call_with {A} broken (op : nat → FsEnv → FS → FS * result IoError A) P
    (Q : _ → option (result IoError A) → Prop) :
  stable P →
  (∀ n fs, P fs → Q (op n env fs).1 (Some (op n env fs).2)) →
  (∀ n fs t, P fs → Q (broken n env fs) (Some (Err {| io_kind := OtherError; io_text := t |}))) →
  (∀ fs, P fs → Q fs None) →
  spec P (call_with broken op) Q.
Proof.
  intros Hs Hop Hb Hk w Hw. unfold call_with.
  apply (Hs _ _ (Hquiet (w_calls w) (w_fs w))) in Hw.
  destruct (killed env (w_calls w)); [by apply Hk|].
  destruct (fault env (w_calls w)); [by apply Hb|].
  specialize (Hop (w_calls w) _ Hw). by destruct (op _ _ _).
Qed.

Lemma spec_call {A} (op : nat → FsEnv → FS → FS * result IoError A) P
    (Q : _ → option (result IoError A) → Prop) :
  stable P →
  (∀ n fs, P fs → Q (op n env fs).1 (Some (op n env fs).2)) →
  (∀ fs t, P fs → Q fs (Some (Err {| io_kind := OtherError; io_text := t |}))) →
  (∀ fs, P fs → Q fs None) →
  spec P (call op) Q.
Proof. intros Hs Hop Hf Hk. apply spec_call_with; auto. Qed.
End triples.

(** ** Entries and inodes *)
Lemma entry_set_eq fs k v :
  entry_at (set_entry fs k v) k = {| e_latest := v; e_pending := possible (entry_at fs k) |}.
Proof. unfold entry_at. cbn. by rewrite lookup_insert_eq. Qed.

Lemma entry_set_ne fs k k' v : k ≠ k' → entry_at (set_entry fs k v) k' = entry_at fs k'.
Proof. intros. unfold entry_at. cbn. by rewrite lookup_insert_ne. Qed.

Lemma entry_set_inode fs id i k : entry_at (set_inode fs id i) k = entry_at fs k.
Proof. done. Qed.

Lemma entry_settle fs d k : entry_at (settle_dir fs d) k = settle k d (entry_at fs k).
Proof.
  unfold entry_at. cbn. rewrite map_lookup_imap. destruct (fs_entries fs !! k) as [e|]; [done|].
  cbn. unfold settle. by case_decide.
Qed.

Lemma settle_child d n e : settle (d ++ [n]) d e = {| e_latest := e_latest e; e_pending := [] |}.
Proof.
  unfold settle. rewrite decide_True; [done|]. split; [apply removelast_last|]. by destruct d.
Qed.

Lemma inode_at_latest fs k id i :
  inode_at fs k = Some (id, i) ↔ e_latest (entry_at fs k) = Some id ∧ fs_inodes fs !! id = Some i.
Proof.
  unfold inode_at. destruct (e_latest (entry_at fs k)) as [id'|]; [|naive_solver].
  destruct (fs_inodes fs !! id') eqn:E; naive_solver congruence.
Qed.

Lemma inode_at_None fs k : fs_wf fs → inode_at fs k = None ↔ e_latest (entry_at fs k) = None.
Proof.
  intros Hwf. unfold inode_at. destruct (e_latest (entry_at fs k)) as [id|] eqn:E; [|done].
  destruct (wf_entry fs Hwf k id) as [i Hi]; [|by rewrite Hi].
  unfold possible. rewrite E. left.
Qed.

(** A view is of the latest inode. *)
Lemma views_latest fs k v vs :
  views fs k = v :: vs → fs_wf fs → v = (λ x, view_of x.2) <$> inode_at fs k.
Proof.
  intros [= <- <-] Hwf. unfold inode_at. destruct (e_latest (entry_at fs k)) as [id|]; [|done]. cbn.
  by destruct (fs_inodes fs !! id).
Qed.

(** ** Resolution *)

(** An ordinary name. *)
Definition plain_name (n : string) : Prop := n ≠ "/" ∧ n ≠ "." ∧ n ≠ "..".

(** An absolute path, given by its directory and its name. *)
Definition located (p : Path) (d : Key) (n : string) : Prop :=
  components p = "/" :: d ++ [n] ∧ Forall plain_name (d ++ [n]).

Lemma namei_cons fs follow links cur c rest :
  namei fs follow links cur (c :: rest) =
  if decide (c = "/") then namei fs follow links [] rest
  else if decide (c = ".") then namei fs follow links cur rest
  else if decide (c = "..") then namei fs follow links (removelast cur) rest
  else match inode_at fs (cur ++ [c]) with
       | None => if is_nil_list rest then Ok (cur ++ [c]) else Err enoent
       | Some (_, i) =>
           match i_kind i with
           | Symlink =>
               if follow || negb (is_nil_list rest) then
                 match links with
                 | O => Err eloop
                 | S l => namei fs follow l cur (components (i_data i) ++ rest)
                 end
               else Ok (cur ++ [c])
           | Directory => namei fs follow links (cur ++ [c]) rest
           | _ => if is_nil_list rest then Ok (cur ++ [c]) else Err enotdir
           end
       end.
Proof. by destruct links. Qed.

Lemma namei_nil fs follow links cur : namei fs follow links cur [] = Ok cur.
Proof. by destruct links. Qed.

Lemma settled_dir_inode fs k :
  settled_dir fs k → ∃ id i, inode_at fs k = Some (id, i) ∧ i_kind i = Directory.
Proof.
  intros (id & i & He & Hi & Hk & _). exists id, i. split; [|done].
  apply inode_at_latest. by rewrite He.
Qed.

(** A walk down a settled directory path. *)
Lemma namei_dirs fs follow links cur d rest :
  dir_path fs (cur ++ d) → Forall plain_name d →
  namei fs follow links cur (d ++ rest) = namei fs follow links (cur ++ d) rest.
Proof.
  revert cur. induction d as [|c d IH]; intros cur Hd Hn; [by rewrite app_nil_r|].
  inversion Hn as [|? ? (H1 & H2 & H3) Hn']; subst. cbn [app]. rewrite namei_cons.
  rewrite !decide_False by done.
  destruct (settled_dir_inode fs (cur ++ [c])) as (id & i & -> & ->).
  { apply Hd. exists d. by rewrite <- app_assoc. }
  rewrite IH; [by rewrite <- app_assoc|by rewrite <- app_assoc|done].
Qed.

Definition no_link (fs : FS) (k : Key) : Prop :=
  match inode_at fs k with Some (_, i) => i_kind i ≠ Symlink | None => True end.

Lemma resolve_located follow env fs p d n :
  located p d n → dir_path fs d → (follow = true → no_link fs (d ++ [n])) →
  resolve follow env fs p = Ok (d ++ [n]).
Proof.
  intros [Hc Hn] Hd Hl. unfold resolve. rewrite Hc, namei_cons, decide_True by done.
  apply Forall_app in Hn as [Hnd Hnn]. inversion Hnn as [|? ? (H1 & H2 & H3) _]; subst.
  rewrite namei_dirs by done. cbn [app]. rewrite namei_cons, !decide_False by done.
  unfold no_link in Hl. destruct (inode_at fs (d ++ [n])) as [[id i]|]; [|done]. cbn.
  rewrite orb_false_r. destruct (i_kind i); cbn; rewrite ?namei_nil; try done.
  destruct follow; [|done]. by specialize (Hl eq_refl).
Qed.

Lemma resolve_dir follow env fs p d :
  components p = "/" :: d → Forall plain_name d → dir_path fs d → resolve follow env fs p = Ok d.
Proof.
  intros Hc Hn Hd. unfold resolve. rewrite Hc, namei_cons, decide_True by done.
  rewrite <- (app_nil_r d), namei_dirs by (rewrite ?app_nil_l; done). by rewrite namei_nil, app_nil_r.
Qed.

Lemma located_parent p d n q :
  located p d n → parent p = Some q → components q = "/" :: d.
Proof.
  intros [Hc _] Hq. pose proof (parent_components p q n Hq) as H. rewrite Hc in H.
  change ("/" :: d ++ [n]) with (("/" :: d) ++ [n]) in H. rewrite last_snoc in H.
  specialize (H eq_refl). by apply app_inj_tail in H as [<- _].
Qed.

Lemma located_name p d n m : located p d n → file_name p = Some m → m = n.
Proof.
  intros [Hc _] [Hl _]%file_name_last. rewrite Hc in Hl.
  change ("/" :: d ++ [n]) with (("/" :: d) ++ [n]) in Hl. rewrite last_snoc in Hl. by injection Hl.
Qed.

Lemma located_join q d n m p :
  located p d n → components q = "/" :: d → entry_name m → plain_name m → located (join q m) d m.
Proof.
  intros [_ Hn] Hq Hm Hp. split; [by rewrite components_join, Hq|].
  apply Forall_app in Hn as [Hd _]. apply Forall_app_2; [done|]. by constructor.
Qed.

(** ** Inverting a successful run *)
Lemma io_bind_Ok {E A B} (m : IO E A) (f : A → IO E B) env w w' b :
  (m ≫= f) env w = (w', Some (Ok b)) →
  ∃ w1 a, m env w = (w1, Some (Ok a)) ∧ f a env w1 = (w', Some (Ok b)).
Proof.
  cbv [mbind io_bind]. destruct (m env w) as [w1 [[a|e]|]]; [|done|done]. eauto.
Qed.

Lemma io_lift_Ok {E A} (r : result E A) env w w' a :
  io_lift r env w = (w', Some (Ok a)) → w' = w ∧ r = Ok a.
Proof. unfold io_lift. by intros [= -> ->]. Qed.

Lemma io_map_err_Ok {E F A} (f : E → F) (m : IO E A) env w w' a :
  io_map_err f m env w = (w', Some (Ok a)) → m env w = (w', Some (Ok a)).
Proof.
  unfold io_map_err. destruct (m env w) as [w1 [[b|e]|]]; cbn; [|done|done]. by intros [= -> ->].
Qed.

Ltac io_inv :=
  repeat match goal with
  | H : (_ ≫= _) _ _ = (_, Some (Ok _)) |- _ =>
      apply io_bind_Ok in H as (? & ? & ? & H)
  | H : io_lift _ _ _ = (_, Some (Ok _)) |- _ => apply io_lift_Ok in H as [? H]; subst
  | H : sys _ _ _ = (_, Some (Ok _)) |- _ => apply io_map_err_Ok in H
  | H : reject_if _ _ = Ok _ |- _ => apply reject_if_Ok in H
  | H : ok_or _ _ = Ok _ |- _ => apply ok_or_Ok in H
  end.
