(* ===== verification/ControlFacts.v ===== *)
(** * Atomic replacement of a control file

    The contract of [atomic_write] on a place of a quiet control directory:
    whatever call fails and wherever the process is killed, the place holds the
    old contents or the new ones, whole; an ordinary error left the old ones; a
    success put the new ones on the disk; and in between the directory still
    remembers what a power loss could bring back. *)

From Stdlib Require Import ZArith Lia Ascii.
From stdpp Require Import base numbers gmap strings list fin_maps sorting.
From S2P Require Import Prelude Text Fields Paths Files ControlFiles FileFacts.

Set Default Goal Selector "!".

Lemma overwrite_empty s : overwrite s "" = s.
Proof.
  unfold overwrite. destruct (String.length s); cbn; induction s as [|a s IH]; try done;
    rewrite string_app_cons; by rewrite IH.
Qed.

(** ** Updates that keep the directory well formed *)

Lemma child_not_prefix (d : Key) n : ¬ (d ++ [n]) `prefix_of` d.
Proof. intros H%prefix_length. rewrite length_app in H. cbn in H. lia. Qed.

Lemma wf_set_inode fs id i i0 : fs_wf fs → fs_inodes fs !! id = Some i0 → fs_wf (set_inode fs id i).
Proof.
  intros [He Hn] Hi. split.
  - intros k id' H%He. cbn. destruct (decide (id' = id)) as [->|]; [rewrite lookup_insert_eq; eauto|].
    by rewrite lookup_insert_ne.
  - intros id'. cbn. destruct (decide (id' = id)) as [->|]; [|rewrite lookup_insert_ne by done; apply Hn].
    intros _. apply Hn. eauto.
Qed.

Lemma wf_set_entry fs k v :
  fs_wf fs → match v with Some id => is_Some (fs_inodes fs !! id) | None => True end →
  fs_wf (set_entry fs k v).
Proof.
  intros [He Hn] Hv. split; [|exact Hn]. intros k' id. cbn [set_entry fs_inodes].
  destruct (decide (k = k')) as [<-|]; [|rewrite entry_set_ne by done; apply He].
  rewrite entry_set_eq. unfold possible at 1. cbn [e_latest e_pending]. rewrite elem_of_cons.
  intros [<-|H]; [done|by eapply He].
Qed.

Lemma wf_add_inode fs i : fs_wf fs → fs_wf (add_inode fs i).
Proof.
  intros [He Hn]. split.
  - intros k id H%He. cbn. destruct (decide (id = fs_next fs)) as [->|]; [rewrite lookup_insert_eq; eauto|].
    by rewrite lookup_insert_ne.
  - intros id. cbn. destruct (decide (id = fs_next fs)) as [->|]; [lia|].
    rewrite lookup_insert_ne by done. intros H%Hn. lia.
Qed.

Lemma dir_path_set_inode fs d id i i0 :
  dir_path fs d → fs_inodes fs !! id = Some i0 → i_kind i0 ≠ Directory →
  dir_path (set_inode fs id i) d.
Proof.
  intros Hd Hi Hk k Hp. destruct (Hd k Hp) as (id' & i' & He & Hi' & Hk' & Hs).
  exists id', i'. split_and!; [done| |done..]. cbn. rewrite lookup_insert_ne; [done|]. congruence.
Qed.

Lemma dir_path_set_entry fs d n v : dir_path fs d → dir_path (set_entry fs (d ++ [n]) v) d.
Proof.
  intros Hd k Hp. destruct (Hd k Hp) as (id & i & He & H). exists id, i.
  rewrite entry_set_ne; [done|]. intros E. subst k. by apply child_not_prefix in Hp.
Qed.

Lemma dir_path_add_inode fs d i : fs_wf fs → dir_path fs d → dir_path (add_inode fs i) d.
Proof.
  intros Hwf Hd k Hp. destruct (Hd k Hp) as (id & j & He & Hj & Hk).
  exists id, j. split; [exact He|]. split; [|done]. cbn. rewrite lookup_insert_ne; [done|].
  intros E. assert (id < fs_next fs)%nat by (apply (wf_next fs Hwf); eauto). lia.
Qed.

Lemma settle_possible k d e x : x ∈ possible (settle k d e) → x ∈ possible e.
Proof.
  unfold settle. case_decide; [|done]. unfold possible. cbn.
  rewrite !elem_of_cons, elem_of_nil. naive_solver.
Qed.

Lemma base_settle_dir fs d : base d fs → base d (settle_dir fs d).
Proof.
  intros [[He Hn] Hd]. split; [split; [|exact Hn]|].
  - intros k id. rewrite entry_settle. intros H%settle_possible. by eapply He.
  - intros k Hp. destruct (Hd k Hp) as (id & i & E & H). exists id, i. split; [|done].
    rewrite entry_settle, E. unfold settle. by case_decide.
Qed.

Lemma base_set_inode fs d id i i0 :
  base d fs → fs_inodes fs !! id = Some i0 → i_kind i0 ≠ Directory → base d (set_inode fs id i).
Proof. intros [Hw Hd] Hi Hk. split; [by eapply wf_set_inode|by eapply dir_path_set_inode]. Qed.

Lemma base_set_entry fs d n v :
  base d fs → match v with Some id => is_Some (fs_inodes fs !! id) | None => True end →
  base d (set_entry fs (d ++ [n]) v).
Proof. intros [Hw Hd] Hv. split; [by apply wf_set_entry|by apply dir_path_set_entry]. Qed.

Lemma base_add_inode fs d i : base d fs → base d (add_inode fs i).
Proof. intros [Hw Hd]. split; [by apply wf_add_inode|by apply dir_path_add_inode]. Qed.

(** ** Views after an update *)
Lemma view_id_set_inode fs id i o :
  o ≠ Some id → view_id (set_inode fs id i) o = view_id fs o.
Proof. destruct o as [id'|]; [|done]. intros H. cbn. rewrite lookup_insert_ne; [done|]. congruence. Qed.

(** An inode replaced by one that looks the same changes no view. *)
Lemma view_id_same fs id i i0 o :
  fs_inodes fs !! id = Some i0 → view_of i = view_of i0 →
  view_id (set_inode fs id i) o = view_id fs o.
Proof.
  intros Hi Hv. destruct o as [id'|]; [|done]. cbn.
  destruct (decide (id' = id)) as [->|]; [by rewrite lookup_insert_eq, Hi; cbn; rewrite Hv|].
  by rewrite lookup_insert_ne.
Qed.

Lemma views_ext fs fs' k :
  entry_at fs' k = entry_at fs k →
  (∀ o, o ∈ possible (entry_at fs k) → view_id fs' o = view_id fs o) → views fs' k = views fs k.
Proof.
  intros He Hv. unfold views. rewrite He. apply list_fmap_ext. intros i o Ho.
  apply Hv. by apply list_elem_of_lookup_2 in Ho.
Qed.

Lemma app_inv_head_ne (d : Key) (m n : string) : m ≠ n → d ++ [m] ≠ d ++ [n].
Proof. intros Hne H%app_inv_head. by injection H. Qed.

(** ** Assertions *)
Definition place (d : Key) (n : string) (vs : list (option View)) (fs : FS) : Prop :=
  base d fs ∧ views fs (d ++ [n]) = vs.

(** The temporary file [m] of the place [n], and what it holds. *)
Record temporary (d : Key) (n m : string) (vs : list (option View)) (id : InodeId) (v : View)
    (fs : FS) : Prop := {
  tmp_place : place d n vs fs;
  tmp_other : m ≠ n;
  tmp_latest : e_latest (entry_at fs (d ++ [m])) = Some id;
  tmp_private : Some id ∉ possible (entry_at fs (d ++ [n]));
  tmp_view : view_id fs (Some id) = Some v;
}.

Lemma stable_place d n vs : stable d (place d n vs).
Proof.
  intros fs fs' Hr [Hb Hv]. split; [by apply (rely_base d fs)|]. rewrite <- Hv.
  apply views_ext; [by apply (rely_entry d fs fs' Hr)|]. intros [id|] Ho; [|done].
  by apply (rely_view d fs fs' Hr (d ++ [n])).
Qed.

Lemma stable_temporary d n m vs id v : stable d (temporary d n m vs id v).
Proof.
  intros fs fs' Hr [Hp Ho Hl Hn Hv]. split; [by eapply stable_place|done|..].
  - by rewrite (rely_entry d fs fs' Hr) by done.
  - by rewrite (rely_entry d fs fs' Hr) by done.
  - cbn in *. rewrite <- Hv. apply (rely_view d fs fs' Hr (d ++ [m])); [done|].
    unfold possible. rewrite Hl. left.
Qed.

#[export] Hint Resolve stable_place stable_temporary : core.

(** ** The calls of [write_temporary] *)
Section calls.
Context (d : Key) (env : FsEnv) (Hquiet : quiet d env) (n m : string) (vs : list (option View)).
Context (Hne : m ≠ n).

Definition empty_view : View :=
  {| v_kind := RegularFile; v_mode := Z.land private_mode (Z.lnot (umask env)); v_data := "";
     v_synced := false |}.
Definition filled (s : string) (synced : bool) : View :=
  {| v_kind := RegularFile; v_mode := Z.land private_mode (Z.lnot (umask env)); v_data := s;
     v_synced := synced |}.

Definition keep {A} (fs : FS) (r : option (result IoError A)) : Prop := place d n vs fs.

Lemma tmp_keys_differ : d ++ [m] ≠ d ++ [n].
Proof. by apply app_inv_head_ne. Qed.

Lemma create_temporary fs k :
  place d n vs fs → e_latest (entry_at fs (d ++ [m])) = None →
  temporary d n m vs (fs_next fs) empty_view
    (create_at k env fs (d ++ [m]) RegularFile private_mode).
Proof.
  intros [Hb Hv] Hm. unfold create_at. pose proof tmp_keys_differ as Hk.
  assert (Some (fs_next fs) ∉ possible (entry_at fs (d ++ [n]))) as Hfresh.
  { intros H. destruct Hb as [[He Hn] _]. apply He, Hn in H. lia. }
  split; [split|done|..].
  - apply base_set_entry; [by apply base_add_inode|]. cbn. rewrite lookup_insert_eq. eauto.
  - rewrite <- Hv. apply views_ext; [by rewrite entry_set_ne by done|]. intros [id|] Ho; [|done].
    cbn. rewrite lookup_insert_ne; [done|]. intros E. by rewrite E in Hfresh.
  - by rewrite entry_set_eq.
  - by rewrite entry_set_ne by done.
  - cbn. by rewrite lookup_insert_eq.
Qed.

Lemma spec_open_temporary p :
  located p d m →
  spec env (place d n vs) (open_file temporary_options p)
    (λ fs r, match r with
             | Some (Ok f) => temporary d n m vs (h_inode f) empty_view fs
             | _ => place d n vs fs
             end).
Proof.
  intros Hp. apply (spec_call d); [done|auto|..]; [|done..].
  intros k fs Hfs. unfold open_at.
  rewrite (resolve_located _ env fs p d m) by (try apply Hfs; done).
  destruct (inode_at fs (d ++ [m])) as [[id i]|] eqn:E; [done|].
  apply inode_at_None in E; [|apply Hfs]. cbn [o_create o_create_new temporary_options orb].
  by apply create_temporary.
Qed.

Lemma temporary_inode id v fs :
  temporary d n m vs id v fs → ∃ i, fs_inodes fs !! id = Some i ∧ view_of i = v.
Proof.
  intros [_ _ _ _ Hv]. cbn in Hv. destruct (fs_inodes fs !! id) as [i|]; [|done].
  injection Hv as Hv. eauto.
Qed.

(** Writing to the temporary inode. *)
Lemma temporary_set_inode id v v' i fs :
  temporary d n m vs id v fs → v_kind v = RegularFile → view_of i = v' →
  temporary d n m vs id v' (set_inode fs id i).
Proof.
  intros Ht Hk Hv'. destruct (temporary_inode _ _ _ Ht) as (i0 & Hi0 & Hv0).
  destruct Ht as [[Hb Hv] Ho Hl Hp _].
  assert (i_kind i0 ≠ Directory) by (rewrite <- Hv0 in Hk; cbn in Hk; congruence).
  split; [split|done..|].
  - by eapply base_set_inode.
  - rewrite <- Hv. apply views_ext; [done|]. intros o Hin. apply view_id_set_inode. by intros ->.
  - cbn. by rewrite lookup_insert_eq, <- Hv'.
Qed.

Lemma spec_write_temporary f s v :
  v_kind v = RegularFile → v_data v = "" → v_mode v = v_mode empty_view →
  spec env (temporary d n m vs (h_inode f) v) (write_all f s)
    (λ fs r, match r with
             | Some (Ok _) => temporary d n m vs (h_inode f) (filled s false) fs
             | _ => place d n vs fs
             end).
Proof.
  intros Hk Hs Hm. apply (spec_call_with d); [done|auto|..].
  - intros k fs Hfs. cbn. destruct (temporary_inode _ _ _ Hfs) as (i & Hi & Hv).
    unfold write_inode. rewrite Hi. eapply temporary_set_inode; [done..|].
    rewrite <- Hv in Hk, Hs, Hm. cbn in *. unfold view_of. cbn. rewrite Hk, Hm, Hs.
    unfold filled. by rewrite overwrite_empty.
  - intros k fs t Hfs. destruct (temporary_inode _ _ _ Hfs) as (i & Hi & Hv).
    unfold write_inode. rewrite Hi. eapply tmp_place, temporary_set_inode; done.
  - intros fs Hfs. apply Hfs.
Qed.

Lemma spec_sync_temporary f s :
  spec env (temporary d n m vs (h_inode f) (filled s false)) (sync_all f)
    (λ fs r, match r with
             | Some (Ok _) => temporary d n m vs (h_inode f) (filled s true) fs
             | _ => place d n vs fs
             end).
Proof.
  apply (spec_call d); [done|auto|..].
  - intros k fs Hfs. destruct (temporary_inode _ _ _ Hfs) as (i & Hi & Hv).
    rewrite Hi. unfold view_of, filled in Hv. injection Hv as Hk Hm Hd Hs. rewrite Hk. cbn.
    unfold sync_inode. rewrite Hi. eapply temporary_set_inode; [done..|].
    unfold view_of, filled. cbn. congruence.
  - intros fs t Hfs. apply Hfs.
  - intros fs Hfs. apply Hfs.
Qed.

(** The place after a rename onto it: the old candidates are remembered. *)
Lemma rename_entries fs id v :
  temporary d n m vs id v fs →
  place d n (Some v :: vs) (set_entry (set_entry fs (d ++ [n]) (Some id)) (d ++ [m]) None).
Proof.
  intros Ht. destruct (temporary_inode _ _ _ Ht) as (i & Hi & _). pose proof tmp_keys_differ as Hk.
  destruct Ht as [[Hb Hv] Ho Hl Hp Hid]. split.
  - apply base_set_entry; [|done]. apply base_set_entry; [done|]. eauto.
  - unfold views. rewrite entry_set_ne, entry_set_eq by done.
    unfold possible at 1. cbn [e_latest e_pending]. rewrite fmap_cons. f_equal; [exact Hid|exact Hv].
Qed.

(** Inodes that look the same leave the place as it is. *)
Lemma place_same ws fs id i i0 :
  place d n ws fs → fs_inodes fs !! id = Some i0 → i_kind i0 ≠ Directory →
  view_of i = view_of i0 → place d n ws (set_inode fs id i).
Proof.
  intros [Hb Hv] Hi Hk Hi0. split; [by eapply base_set_inode|]. rewrite <- Hv.
  apply views_ext; [done|]. intros o _. by eapply view_id_same.
Qed.

Lemma place_unlink ws fs id i k :
  place d n ws fs → fs_inodes fs !! id = Some i → i_kind i ≠ Directory →
  place d n ws (unlink_inode k env fs id).
Proof. intros Hp Hi Hk. unfold unlink_inode. rewrite Hi. by eapply place_same. Qed.

Lemma place_touch ws fs id i k :
  place d n ws fs → fs_inodes fs !! id = Some i → i_kind i ≠ Directory →
  place d n ws (touch_inode k env fs id).
Proof. intros Hp Hi Hk. unfold touch_inode. rewrite Hi. by eapply place_same. Qed.

Lemma unlink_lookup_ne fs id id' k :
  id ≠ id' → fs_inodes (unlink_inode k env fs id) !! id' = fs_inodes fs !! id'.
Proof.
  intros H. unfold unlink_inode. destruct (fs_inodes fs !! id); [|done]. cbn.
  by rewrite lookup_insert_ne.
Qed.

Lemma spec_rename_temporary p q v :
  located p d m → located q d n → v_kind v = RegularFile →
  spec env (λ fs, ∃ id, temporary d n m vs id v fs) (rename p q)
    (λ fs r, match r with
             | Some (Ok _) => place d n (Some v :: vs) fs
             | _ => place d n vs fs
             end).
Proof.
  intros Hp Hq Hreg. apply (spec_call d); [done|..].
  - intros fs fs' Hr (id & H). exists id. by eapply stable_temporary.
  - intros k fs (id & Ht). unfold rename_at. pose proof (tmp_place _ _ _ _ _ _ _ Ht) as Hpl.
    rewrite (resolve_located _ env fs p d m), (resolve_located _ env fs q d n)
      by (try apply Hpl; done).
    destruct (temporary_inode _ _ _ Ht) as (i & Hi & Hv).
    rewrite (proj2 (inode_at_latest fs (d ++ [m]) id i)) by (split; [apply Ht|done]).
    assert (i_kind i ≠ Directory) as Hid by (rewrite <- Hv in Hreg; cbn in Hreg; congruence).
    rewrite decide_False by done. pose proof (rename_entries _ _ _ Ht) as Hnew.
    destruct (inode_at fs (d ++ [n])) as [[old j]|] eqn:Ej; [|by eapply place_touch].
    apply inode_at_latest in Ej as [Hold Hj].
    case_decide as Hjk; [exact Hpl|]. case_decide as Heq.
    + subst old. exfalso. apply (tmp_private _ _ _ _ _ _ _ Ht). unfold possible. rewrite Hold. left.
    + eapply place_touch; [by eapply place_unlink|by rewrite unlink_lookup_ne|done].
  - intros fs t (id & Ht). apply Ht.
  - intros fs (id & Ht). apply Ht.
Qed.

(** Removing another name leaves the place as it is. *)
Lemma spec_remove_other p ws :
  located p d m →
  spec env (place d n ws) (remove_file p) (λ fs _, place d n ws fs).
Proof.
  intros Hp. apply (spec_call d); [done|auto|..]; [|done..].
  intros k fs Hpl. unfold remove_at. rewrite (resolve_located _ env fs p d m) by (try apply Hpl; done).
  destruct (inode_at fs (d ++ [m])) as [[id i]|] eqn:E; [|exact Hpl].
  apply inode_at_latest in E as [_ Hi]. case_decide as Hk; [exact Hpl|]. cbn.
  eapply place_unlink; [|done..]. destruct Hpl as [Hb Hv]. split; [by apply base_set_entry|].
  rewrite <- Hv. apply views_ext; [|done]. rewrite entry_set_ne; [done|]. apply tmp_keys_differ.
Qed.

(** A rename to another name leaves the place as it is. *)
Lemma spec_rename_elsewhere p q m' v :
  located p d m → located q d m' → m' ≠ n → v_kind v = RegularFile →
  spec env (λ fs, ∃ id, temporary d n m vs id v fs) (rename p q) (λ fs _, place d n vs fs).
Proof.
  intros Hp Hq Hne' Hreg. apply (spec_call d); [done|..].
  - intros fs fs' Hr (id & H). exists id. by eapply stable_temporary.
  - intros k fs (id & Ht). unfold rename_at. pose proof (tmp_place _ _ _ _ _ _ _ Ht) as Hpl.
    rewrite (resolve_located _ env fs p d m), (resolve_located _ env fs q d m')
      by (try apply Hpl; done).
    destruct (temporary_inode _ _ _ Ht) as (i & Hi & Hv).
    rewrite (proj2 (inode_at_latest fs (d ++ [m]) id i)) by (split; [apply Ht|done]).
    assert (i_kind i ≠ Directory) as Hid by (rewrite <- Hv in Hreg; cbn in Hreg; congruence).
    rewrite decide_False by done.
    assert (place d n vs (set_entry (set_entry fs (d ++ [m']) (Some id)) (d ++ [m]) None)) as Hnew.
    { destruct Hpl as [Hb Hvs]. split.
      - apply base_set_entry; [|done]. apply base_set_entry; [done|]. eauto.
      - rewrite <- Hvs. apply views_ext; [|done].
        rewrite !entry_set_ne; [done|by apply app_inv_head_ne|apply tmp_keys_differ]. }
    destruct (inode_at fs (d ++ [m'])) as [[old j]|] eqn:Ej; [|by eapply place_touch].
    apply inode_at_latest in Ej as [Hold Hj].
    case_decide as Hjk; [exact Hpl|]. case_decide as Heq; [exact Hpl|].
    eapply place_touch; [by eapply place_unlink|by rewrite unlink_lookup_ne|done].
  - intros fs t (id & Ht). apply Ht.
  - intros fs (id & Ht). apply Ht.
Qed.
End calls.

(** ** Directories *)
Section dirs.
Context (d : Key) (env : FsEnv) (Hquiet : quiet d env) (n : string) (vs : list (option View)).
Context (q : Path) (Hq : components q = "/" :: d) (Hd : Forall plain_name d).

Lemma spec_mkdir_present :
  spec env (place d n vs) (mkdir q)
    (λ fs r, place d n vs fs ∧
       match r with Some (Err e) => io_kind e ≠ NotFound | Some (Ok _) => False | None => True end).
Proof.
  apply (spec_call d); [done|auto|..]; [|done..].
  intros k fs Hpl. unfold mkdir_at. rewrite (resolve_dir false env fs q d) by (try apply Hpl; done).
  destruct (settled_dir_inode fs d) as (id & i & Hi & Hk); [by apply Hpl|].
  unfold kind_at. rewrite Hi. done.
Qed.

Lemma spec_stat_keep follow p :
  spec env (place d n vs) (stat follow p) (λ fs _, place d n vs fs).
Proof. by apply (spec_call d); [|auto|..]. Qed.

Lemma spec_path_is_dir p : spec env (place d n vs) (path_is_dir p) (λ fs _, place d n vs fs).
Proof.
  unfold path_is_dir. apply spec_keep_bind; [apply spec_keep_attempt, spec_stat_keep|..]; [|done..].
  intros m. by apply spec_ret.
Qed.

(** The outcome of making a directory that is there. *)
Definition made (fs : FS) (r : option (result IoError (result IoError unit))) : Prop :=
  place d n vs fs ∧ match r with Some (Ok (Err e)) => io_kind e ≠ NotFound | _ => True end.

Lemma spec_mkdir_or_present : spec env (place d n vs) (mkdir_or_present q) made.
Proof.
  unfold mkdir_or_present. eapply spec_bind with (R := λ fs r, place d n vs fs ∧
    match r with Some (Ok (Err e)) => io_kind e ≠ NotFound | _ => True end).
  - apply spec_attempt. eapply spec_weaken; [apply spec_mkdir_present|done|].
    intros fs [[u|e]|]; cbn; tauto.
  - intros [u|e]; [by apply spec_ret; intros ? []|].
    assert (∀ fs, (place d n vs fs ∧ io_kind e ≠ NotFound) →
      place d n vs fs) as Hw by naive_solver.
    destruct (io_kind e) eqn:Ek; [apply spec_ret; naive_solver|..].
    all: eapply spec_weaken; [|exact Hw|intros ?? H; exact H].
    all: apply spec_keep_bind; [apply spec_path_is_dir| |by intros; split|by intros; split].
    all: intros b; apply spec_ret; intros fs Hp; split; [exact Hp|]; by destruct b; cbn; rewrite ?Ek.
  - intros fs e [H _]. by split.
  - intros fs [H _]. by split.
Qed.

Lemma spec_create_dir_all : spec env (place d n vs) (create_dir_all q) (λ fs r, place d n vs fs).
Proof.
  unfold create_dir_all. destruct (length (components q)) as [|depth]; cbn [create_dirs].
  all: destruct (bool_decide (q = "")); [by apply spec_ret|].
  all: eapply spec_bind; [apply spec_mkdir_or_present| |by intros ?? []|by intros ? []].
  all: intros [u|e]; [apply spec_ret; by intros ? []|].
  all: intros w [Hw He]; destruct (io_kind e); done.
Qed.

Lemma sync_synced fs id i :
  fs_inodes fs !! id = Some i → i_synced i = true → sync_inode fs id = fs.
Proof.
  intros Hi Hs. unfold sync_inode. rewrite Hi. destruct fs as [es ins nx], i. cbn in *. subst.
  unfold set_inode. cbn. by rewrite insert_id.
Qed.

(** Syncing the directory settles the place. *)
Lemma spec_sync_dir v :
  spec env (place d n (v :: vs)) (sync_dir q)
    (λ fs r, match r with
             | Some (Ok _) => place d n [v] fs
             | _ => place d n (v :: vs) fs
             end).
Proof.
  unfold sync_dir. pose (opened f fs := place d n (v :: vs) fs ∧ h_key f = d ∧
    e_latest (entry_at fs d) = Some (h_inode f)).
  eapply spec_bind with (R := λ fs r, match r with
    | Some (Ok f) => opened f fs | _ => place d n (v :: vs) fs end); [| |done..].
  - apply (spec_call d); [done|auto|..]; [|done..]. intros k fs Hp. unfold open_at.
    rewrite (resolve_dir _ env fs q d) by (try apply Hp; done).
    destruct (settled_dir_inode fs d) as (id & i & Hi & Hk); [by apply Hp|]. rewrite Hi, Hk. cbn.
    apply inode_at_latest in Hi as [Hl _]. by split.
  - intros f. apply (spec_call d); [done|..].
    + intros fs fs' Hr (Hp & Hf & Hl). split_and!; [by eapply stable_place|done|].
      by rewrite (rely_entry d fs fs' Hr) by done.
    + intros k fs (Hp & Hf & Hl). destruct Hp as [Hb Hv].
      destruct (proj2 Hb d) as (id & i & He & Hi & Hk & Hs); [done|].
      rewrite He in Hl. cbn in Hl. injection Hl as ->. rewrite Hi, Hk, Hf. cbn.
      rewrite (sync_synced fs _ i) by done. split; [by apply base_settle_dir|].
      unfold views. rewrite entry_settle, settle_child. cbn. f_equal.
      unfold views in Hv. by injection Hv.
    + intros fs t [Hp _]. exact Hp.
    + intros fs [Hp _]. exact Hp.
Qed.
End dirs.

(** ** The temporary name *)
Lemma located_file_name p d n : located p d n → file_name p = Some n.
Proof.
  intros [Hc Hn]. unfold file_name. rewrite Hc.
  change ("/" :: d ++ [n]) with (("/" :: d) ++ [n]). rewrite last_snoc.
  apply Forall_app in Hn as [_ Hn]. inversion Hn as [|? ? (H1 & H2 & H3) _]; subst.
  rewrite decide_False; [done|]. tauto.
Qed.

Lemma free_digits x : free SLASH (u64_to_string x).
Proof.
  apply (forallb_codes_free is_ascii_digit); [|done]. unfold u64_to_string.
  destruct (N.to_uint (Z.to_N x)) eqn:E; [done|..]; apply uint_all_digits.
Qed.

Lemma dotted_name fn s :
  free SLASH fn → free SLASH s → (1 < String.length s)%nat →
  entry_name ("." +:+ fn +:+ s) ∧ plain_name ("." +:+ fn +:+ s) ∧ "." +:+ fn +:+ s ≠ fn.
Proof.
  intros Hf Hs Hl.
  assert (String.length ("." +:+ fn +:+ s) = S (String.length fn + String.length s)) as Hlen.
  { rewrite !length_string_app. cbn. lia. }
  assert (∀ t, (String.length t ≤ 2)%nat → "." +:+ fn +:+ s ≠ t) as Hne.
  { intros t Ht E. rewrite E in Hlen. lia. }
  split_and!.
  - split; [rewrite !free_app; by split_and!|]. split; apply Hne; cbn; lia.
  - split_and!; apply Hne; cbn; lia.
  - intros E. rewrite E in Hlen. lia.
Qed.

Lemma temporary_name_ok fn pid nonce :
  free SLASH fn →
  let m := temporary_name fn pid nonce in entry_name m ∧ plain_name m ∧ m ≠ fn.
Proof.
  intros Hf. unfold temporary_name. apply dotted_name; [done| |].
  - rewrite !free_app. split_and!; try done; apply free_digits.
  - rewrite length_string_app. cbn. lia.
Qed.

(** ** The contract *)
Section contract.
Context {E : Type} `{ControlErrors E} (d : Key) (env : FsEnv) (Hquiet : quiet d env).
Context (n : string) (path : Path) (Hpath : located path d n).

(** The file that [atomic_write] leaves. *)
Definition written_view (s : string) : View := filled env s true.

Definition replaced (vs : list (option View)) (s : string) (fs : FS) (r : option (result E unit)) : Prop :=
  match r with
  | None => place d n vs fs ∨ place d n (Some (written_view s) :: vs) fs
  | Some (Ok _) => place d n [Some (written_view s)] fs
  | Some (Err e) =>
      (∃ t, e = ce_io t) ∧ place d n vs fs ∨
      (∃ t, e = ce_uncertain t) ∧ place d n (Some (written_view s) :: vs) fs
  end.

(** [sys]: an error of the operating system. *)
Lemma spec_sys {A} (m : IO IoError A) P (Q : FS → option (result E A) → Prop) (good : A → FS → Prop)
    (bad : FS → Prop) :
  spec env P m (λ fs r, match r with Some (Ok a) => good a fs | _ => bad fs end) →
  (∀ fs a, good a fs → Q fs (Some (Ok a))) →
  (∀ fs t, bad fs → Q fs (Some (Err (ce_io t)))) →
  (∀ fs, bad fs → Q fs None) →
  spec env P (sys m) Q.
Proof.
  intros Hm Hg Hb Hk. apply spec_map_err. eapply spec_weaken; [exact Hm|done|].
  intros fs [[a|e]|] Hr; cbn in *; auto. by apply Hb.
Qed.

Lemma spec_write_temporary_file vs m tmp s :
  located tmp d m → m ≠ n →
  spec env (place d n vs) (write_temporary tmp path s)
    (λ fs r, match r with
             | Some (Ok _) => place d n (Some (written_view s) :: vs) fs
             | Some (Err e) => (∃ t, e = ce_io t) ∧ place d n vs fs
             | None => place d n vs fs
             end).
Proof.
  intros Htmp Hne. unfold write_temporary.
  eapply spec_bind with (R := λ fs r, match r with
    | Some (Ok f) => temporary d n m vs (h_inode f) (empty_view env) fs
    | Some (Err e) => (∃ t, e = ce_io t) ∧ place d n vs fs
    | None => place d n vs fs end); [| |done..].
  { eapply spec_sys; [by apply spec_open_temporary|naive_solver..]. }
  intros f. eapply spec_bind with (R := λ fs r, match r with
    | Some (Ok _) => temporary d n m vs (h_inode f) (filled env s false) fs
    | Some (Err e) => (∃ t, e = ce_io t) ∧ place d n vs fs
    | None => place d n vs fs end); [| |done..].
  { eapply spec_sys with (good := λ _, _); [by apply spec_write_temporary|naive_solver..]. }
  intros []. eapply spec_bind with (R := λ fs r, match r with
    | Some (Ok _) => temporary d n m vs (h_inode f) (filled env s true) fs
    | Some (Err e) => (∃ t, e = ce_io t) ∧ place d n vs fs
    | None => place d n vs fs end); [| |done..].
  { eapply spec_sys with (good := λ _, _); [by apply spec_sync_temporary|naive_solver..]. }
  intros []. eapply spec_sys with (good := λ _, place d n (Some (written_view s) :: vs))
    (bad := place d n vs); [|naive_solver..].
  eapply spec_weaken; [apply (spec_rename_temporary d env Hquiet n m vs Hne tmp path (written_view s) Htmp Hpath eq_refl)| |done].
  intros fs Hfs. by exists (h_inode f).
Qed.

Theorem atomic_write_replaces texts vs s :
  spec env (place d n vs) (atomic_write texts path s) (replaced vs s).
Proof.
  unfold atomic_write. pose proof (located_file_name _ _ _ Hpath) as Hfn.
  destruct (file_name_parent _ _ Hfn) as [q Hq]. rewrite Hq. cbn [ok_or].
  pose proof (located_parent _ _ _ _ Hpath Hq) as Hcq.
  assert (Forall plain_name d) as Hd by (destruct Hpath as [_ [? _]%Forall_app]; done).
  assert (∀ fs t, place d n vs fs → replaced vs s fs (Some (Err (ce_io t)))) as Herr
    by (intros; left; eauto).
  assert (∀ fs, place d n vs fs → replaced vs s fs None) as Hkill by (intros; by left).
  apply spec_ok_bind.
  eapply spec_bind with (R := λ fs r, match r with Some (Err e) => ∃ t, e = ce_io t | _ => True end ∧
    place d n vs fs); [|intros []|by intros fs e [[t ->] Hp]; apply Herr|by intros fs [_ Hp]; apply Hkill].
  { eapply spec_sys with (good := λ _, place d n vs) (bad := place d n vs); [|naive_solver..].
    eapply spec_weaken; [apply (spec_create_dir_all d env Hquiet n vs q Hcq Hd)|done|].
    by intros fs [[[]|]|]. }
  eapply spec_weaken with (P' := place d n vs); [|by intros fs [_ ?]|done].
  apply spec_time_bind. intros t. unfold since_epoch.
  destruct (t.1 <? 0)%Z; [apply spec_err_bind; auto|apply spec_ok_bind].
  unfold utf8_file_name. rewrite Hfn.
  destruct (utf8_valid n); [apply spec_ok_bind|apply spec_err_bind; auto]. apply spec_env_bind.
  set (m := temporary_name n (process_id env) (as_nanos t)).
  destruct (temporary_name_ok n (process_id env) (as_nanos t)) as (Hm1 & Hm2 & Hm3);
    [by apply (file_name_free path)|].
  assert (located (join q m) d m) as Htmp by (by eapply located_join).
  eapply spec_attempt_bind with (R := λ fs r, match r with
    | Ok _ => place d n (Some (written_view s) :: vs) fs
    | Err e => (∃ t, e = ce_io t) ∧ place d n vs fs end).
  { eapply spec_weaken; [by apply (spec_write_temporary_file vs m)|done|]. intros fs [[|]|]; auto. }
  intros [u|e].
  - apply spec_map_err. eapply spec_weaken; [by apply (spec_sync_dir d env Hquiet n vs q)|done|].
    intros fs [[|]|] Hr; cbn in *; [exact Hr|right; eauto|by right].
  - eapply spec_attempt_bind with (R := λ fs _, (∃ t, e = ce_io t) ∧ place d n vs fs).
    + intros w [He Hw]. pose proof (spec_remove_other d env Hquiet n m Hm3 _ vs Htmp w Hw) as Hr.
      cbn in Hr. destruct (remove_file (join q m) env w) as [w' [r|]]; cbn in *; auto.
    + intros r. apply spec_lift. intros fs [[t' ->] Hp]. by apply Herr.
Qed.
End contract.

(** * Facts about control files

    Reading a place, taking the lock and losing power, on top of the contract of
    [atomic_write]. *)

(** ** Reading a place *)
Section reading.
Context (d : Key) (env : FsEnv) (Hquiet : quiet d env) (n : string) (path : Path).
Context (Hpath : located path d n) (v : option View) (vs : list (option View)).

Lemma spec_stat_place :
  spec env (place d n (v :: vs)) (symlink_metadata path)
    (λ fs r, place d n (v :: vs) fs ∧
       match r with
       | Some (Ok m) => ∃ vw, v = Some vw ∧ m_kind m = v_kind vw ∧ m_mode m = v_mode vw ∧
                              m_len m = str_len (v_data vw)
       | Some (Err e) => io_kind e = NotFound → v = None
       | None => True
       end).
Proof.
  apply (spec_call d); [done|auto|..]; [|done..]. intros k fs Hp.
  rewrite (resolve_located _ env fs path d n) by (try apply Hp; done). cbn. split; [exact Hp|].
  pose proof (views_latest fs (d ++ [n]) v vs) as Hv. rewrite Hv by apply Hp.
  destruct (inode_at fs (d ++ [n])) as [[id i]|]; [|done]. cbn. eauto.
Qed.

Definition regular (o : option View) : Prop :=
  match o with Some vw => v_kind vw = RegularFile | None => True end.

(** A handle on the file of the place. *)
Definition opened_place (f : File) (fs : FS) : Prop :=
  place d n (v :: vs) fs ∧ e_latest (entry_at fs (d ++ [n])) = Some (h_inode f).

Lemma stable_opened f : stable d (opened_place f).
Proof.
  intros fs fs' Hr [Hp Hl]. split; [by eapply stable_place|]. by rewrite (rely_entry d fs fs' Hr) by done.
Qed.

Lemma spec_open_place b :
  regular v →
  spec env (place d n (v :: vs)) (open_file (read_only b) path)
    (λ fs r, match r with Some (Ok f) => opened_place f fs | _ => place d n (v :: vs) fs end).
Proof.
  intros Hreg. apply (spec_call d); [done|auto|..]; [|done..]. intros k fs Hp. unfold open_at.
  assert (no_link fs (d ++ [n])) as Hl.
  { unfold no_link. pose proof (views_latest fs (d ++ [n]) v vs) as Hv.
    destruct (inode_at fs (d ++ [n])) as [[id i]|]; [|done]. rewrite Hv in Hreg by apply Hp.
    cbn in Hreg. by rewrite Hreg. }
  rewrite (resolve_located _ env fs path d n) by (try apply Hp; done).
  destruct (inode_at fs (d ++ [n])) as [[id i]|] eqn:E; [|done].
  apply inode_at_latest in E as [E _]. cbn. by destruct (i_kind i).
Qed.

Lemma spec_read_opened f :
  spec env (opened_place f) (read_to_end f)
    (λ fs r, place d n (v :: vs) fs ∧
       match r with Some (Ok s) => v_data <$> v = Some s | _ => True end).
Proof.
  apply (spec_call d); [done|apply stable_opened|..].
  - intros k fs [Hp Hl]. cbn. split; [exact Hp|].
    pose proof (views_latest fs (d ++ [n]) v vs) as Hv. unfold inode_at in Hv. rewrite Hl in Hv.
    destruct (fs_inodes fs !! h_inode f) as [i|]; [|done]. rewrite Hv by apply Hp.
    by destruct (i_kind i).
  - intros fs t [Hp _]. done.
  - intros fs [Hp _]. done.
Qed.

Lemma spec_read_place :
  regular v →
  spec env (place d n (v :: vs)) (read_file path)
    (λ fs r, place d n (v :: vs) fs ∧
       match r with Some (Ok s) => v_data <$> v = Some s | _ => True end).
Proof.
  intros Hreg. unfold read_file. eapply spec_bind; [by apply spec_open_place|..]; [|done..].
  intros f. apply spec_read_opened.
Qed.
End reading.

(** ** The lock *)
Section lock.
Context {E : Type} `{ControlErrors E} (d : Key) (env : FsEnv) (Hquiet : quiet d env) (n : string).
Context (vs : list (option View)).

(** Creating another name leaves the place as it is. *)
Lemma place_create fs k m mode :
  place d n vs fs → m ≠ n → e_latest (entry_at fs (d ++ [m])) = None →
  place d n vs (create_at k env fs (d ++ [m]) RegularFile mode).
Proof.
  intros [Hb Hv] Hne Hm. unfold create_at. pose proof (tmp_keys_differ d n m Hne) as Hk.
  split.
  - apply base_set_entry; [by apply base_add_inode|]. cbn. rewrite lookup_insert_eq. eauto.
  - rewrite <- Hv. apply views_ext; [by rewrite entry_set_ne by done|]. intros [id|] Ho; [|done].
    cbn. rewrite lookup_insert_ne; [done|]. intros E'. destruct Hb as [[He Hn] _].
    apply He, Hn in Ho. lia.
Qed.

Lemma spec_open_lock p m :
  located p d m → m ≠ n →
  spec env (place d n vs) (open_file lock_options p) (λ fs _, place d n vs fs).
Proof.
  intros Hp Hne. apply (spec_call d); [done|auto|..]; [|done..]. intros k fs Hfs. unfold open_at.
  rewrite (resolve_located _ env fs p d m) by (try apply Hfs; done).
  destruct (inode_at fs (d ++ [m])) as [[id i]|] eqn:E'; [by destruct (i_kind i)|].
  apply inode_at_None in E'; [|apply Hfs]. by apply place_create.
Qed.

Lemma spec_keep_call {A} (op : nat → FsEnv → FS → FS * result IoError A) :
  (∀ k fs, (op k env fs).1 = fs) → spec env (place d n vs) (call op) (λ fs _, place d n vs fs).
Proof. intros Hop. apply (spec_call d); [done|auto|..]; [|done..]. intros k fs Hp. by rewrite Hop. Qed.

Lemma spec_keep_stat follow p : spec env (place d n vs) (stat follow p) (λ fs _, place d n vs fs).
Proof. by apply spec_keep_call. Qed.

Lemma spec_keep_file_metadata f : spec env (place d n vs) (file_metadata f) (λ fs _, place d n vs fs).
Proof. by apply spec_keep_call. Qed.

Lemma spec_validate_identity p f e :
  spec env (place d n vs) (validate_control_file_identity p f e) (λ fs _, place d n vs fs).
Proof.
  unfold validate_control_file_identity.
  apply spec_keep_bind; [apply spec_keep_map_err, spec_keep_stat| |done..]. intros pm.
  apply spec_keep_bind; [apply spec_keep_map_err, spec_keep_file_metadata| |done..]. intros om.
  destruct (_ || _); [by apply spec_lift|by apply spec_ret].
Qed.

Lemma spec_reject_lock p :
  spec env (place d n vs) (reject_untrusted_existing_lock p) (λ fs _, place d n vs fs).
Proof.
  unfold reject_untrusted_existing_lock.
  apply spec_keep_bind; [apply spec_keep_attempt, spec_keep_stat| |done..]. intros [m|e].
  - destruct (untrusted_file m); [by apply spec_lift|by apply spec_ret].
  - destruct (io_kind e); [by apply spec_ret|by apply spec_lift..].
Qed.

Lemma sidecar_located texts path suffix p :
  located path d n → free SLASH suffix → (0 < String.length suffix)%nat →
  sidecar_path texts path suffix = Ok p →
  located p d ("." +:+ n +:+ "." +:+ suffix) ∧ "." +:+ n +:+ "." +:+ suffix ≠ n.
Proof.
  intros Hp Hs Hl Hside. unfold sidecar_path in Hside.
  pose proof (located_file_name _ _ _ Hp) as Hfn.
  apply bind_Ok in Hside as (q & Hq%ok_or_Ok & Hside). apply bind_Ok in Hside as (fn & Hn%ok_or_Ok & [= <-]).
  unfold utf8_file_name in Hn. rewrite Hfn in Hn. destruct (utf8_valid n); [|done]. injection Hn as <-.
  pose proof (file_name_free _ _ Hfn) as Hf.
  destruct (dotted_name n ("." +:+ suffix)) as (H1 & H2 & H3).
  - done.
  - rewrite free_app. by split.
  - rewrite length_string_app. cbn. lia.
  - split; [|done]. eapply located_join; [done|by eapply located_parent|done..].
Qed.

End lock.

(** Taking the lock of the file [n] keeps every other place than the lock. *)
Lemma spec_acquire_keep {E} `{ControlErrors E} d env (Hquiet : quiet d env) n r vs texts no_parent path :
  located path d n → "." +:+ n +:+ ".lock" ≠ r →
  spec env (place d r vs) (acquire_exclusive texts no_parent path) (λ fs _, place d r vs fs).
Proof.
  intros Hp Hr. unfold acquire_exclusive.
  destruct (sidecar_path texts path "lock") as [p|e] eqn:Hs; [|by apply spec_err_bind].
  apply spec_ok_bind. apply (sidecar_located d n) in Hs as [Hl _]; [|done|done|cbn; lia].
  pose proof (located_file_name _ _ _ Hl) as Hfn.
  destruct (file_name_parent _ _ Hfn) as [q Hq]. rewrite Hq. cbn [ok_or]. apply spec_ok_bind.
  pose proof (located_parent _ _ _ _ Hl Hq) as Hcq.
  assert (Forall plain_name d) as Hd by (destruct Hp as [_ [? _]%Forall_app]; done).
  apply spec_keep_bind; [by apply spec_keep_map_err, (spec_create_dir_all d env Hquiet r vs q Hcq Hd)| |done..].
  intros []. apply spec_keep_bind; [by apply (spec_reject_lock d)| |done..].
  intros []. apply spec_keep_bind; [by eapply spec_keep_map_err, (spec_open_lock d)| |done..].
  intros f. apply spec_keep_bind; [by apply (spec_validate_identity d)| |done..].
  intros []. apply spec_keep_bind; [by apply spec_keep_map_err, (spec_keep_call d)| |done..].
  intros []. apply spec_keep_bind; [by apply (spec_validate_identity d)| |done..].
  intros []. by apply spec_ret.
Qed.

Lemma spec_acquire_exclusive {E} `{ControlErrors E} d env (Hquiet : quiet d env) n vs texts no_parent path :
  located path d n →
  spec env (place d n vs) (acquire_exclusive texts no_parent path) (λ fs _, place d n vs fs).
Proof.
  intros Hp. apply (spec_acquire_keep d env Hquiet n n); [done..|]. pose proof (located_file_name _ _ _ Hp) as Hfn.
  destruct (dotted_name n ".lock") as (_ & _ & ?); [by apply (file_name_free path)|done|cbn; lia|done].
Qed.

(** ** Power loss *)
Definition synced_view (o : option View) : Prop :=
  match o with Some vw => v_synced vw = true | None => True end.

Lemma base_power_loss d fs fs' : power_loss fs fs' → base d fs → base d fs'.
Proof.
  intros [He Hi Hn Hd] [[Hw1 Hw2] Hdir]. split; [split|].
  - intros k id. destruct (He k) as [Hl Hp]. unfold possible at 1. rewrite Hp, elem_of_cons, elem_of_nil.
    intros [E|[]]. apply Hd. rewrite <- E in Hl. by eapply Hw1.
  - intros id H. rewrite Hn. by apply Hw2, Hd.
  - intros k Hk. destruct (Hdir k Hk) as (id & i & E & Hid & Hkind & Hs).
    destruct (Hi id i Hid Hs) as (links & t & Hid'). exists id, (with_links links t i).
    destruct (He k) as [Hl Hp]. rewrite E in Hl. unfold possible in Hl. cbn in Hl.
    rewrite elem_of_cons, elem_of_nil in Hl. destruct Hl as [Hl|[]].
    split_and!; [|done..]. destruct (entry_at fs' k). cbn in *. congruence.
Qed.

(** A place whose candidates are all synced comes back as one of them. *)
Lemma place_power_loss d n vs fs fs' :
  power_loss fs fs' → place d n vs fs → Forall synced_view vs →
  ∃ v, v ∈ vs ∧ place d n [v] fs'.
Proof.
  intros Hpl [Hb Hv] Hs. pose proof (base_power_loss _ _ _ Hpl Hb) as Hb'.
  destruct Hpl as [He Hi Hn Hd]. destruct (He (d ++ [n])) as [Hl Hp].
  exists (view_id fs (e_latest (entry_at fs' (d ++ [n])))).
  assert (view_id fs (e_latest (entry_at fs' (d ++ [n]))) ∈ vs) as Hin.
  { rewrite <- Hv. unfold views. by apply list_elem_of_fmap_2. }
  split; [done|]. split; [done|]. unfold views, possible. rewrite Hp. cbn. f_equal.
  rewrite Forall_forall in Hs. specialize (Hs _ Hin).
  destruct (e_latest (entry_at fs' (d ++ [n]))) as [id|]; [|done]. cbn in *.
  destruct (fs_inodes fs !! id) as [i|] eqn:E; cbn in *; [by destruct (Hi id i E Hs) as (links & t & ->)|].
  destruct (fs_inodes fs' !! id) eqn:E'; [|done]. exfalso.
  assert (is_Some (fs_inodes fs !! id)) as [? ?] by (apply Hd; eauto). congruence.
Qed.

Lemma place_rely d n vs fs fs' : rely d fs fs' → place d n vs fs → place d n vs fs'.
Proof. apply stable_place. Qed.

(** C25: replacing a control file is crash safe: whatever fails and wherever
    the process is killed, a power loss afterwards leaves the old file or the
    new one, whole; it leaves the new one when the write was acknowledged and
    the old one when it failed with an ordinary error. *)
Theorem atomic_write_crash_safe {E} `{ControlErrors E} d env n path texts old new w w' r fs :
  quiet d env → located path d n → place d n [old] (w_fs w) → synced_view old →
  atomic_write texts path new env w = (w', r) → power_loss (w_fs w') fs →
  ∃ v, place d n [v] fs ∧
    match r with
    | Some (Ok _) => v = Some (written_view env new)
    | Some (Err e) =>
        (∃ t, e = ce_io t) ∧ v = old ∨
        (∃ t, e = ce_uncertain t) ∧ (v = old ∨ v = Some (written_view env new))
    | None => v = old ∨ v = Some (written_view env new)
    end.
Proof.
  intros Hq Hpath Hp Hs Hr Hl.
  pose proof (atomic_write_replaces d env Hq n path Hpath texts [old] new w Hp) as Hw.
  rewrite Hr in Hw. cbn in Hw.
  assert (∀ vs, place d n vs (w_fs w') → (∀ v, v ∈ vs → v = old ∨ v = Some (written_view env new)) →
    ∃ v, v ∈ vs ∧ place d n [v] fs) as Hlost.
  { intros vs Hvs Hin. apply (place_power_loss d n vs (w_fs w')); [done..|].
    apply Forall_forall. intros v [-> | ->]%Hin; done. }
  destruct r as [[[]|e]|].
  - destruct (Hlost _ Hw) as (v & ->%list_elem_of_singleton & Hv); [set_solver|]. eauto.
  - destruct Hw as [[He Hw]|[He Hw]].
    + destruct (Hlost _ Hw) as (v & ->%list_elem_of_singleton & Hv); [set_solver|]. eauto.
    + destruct (Hlost _ Hw) as (v & Hin & Hv); [set_solver|]. exists v. split; [done|].
      right. split; [done|]. set_solver.
  - destruct Hw as [Hw|Hw]; destruct (Hlost _ Hw) as (v & Hin & Hv); [set_solver| |set_solver|];
      exists v; (split; [done|]); set_solver.
Qed.

(** ** Two files of one directory

    Replacing the file [n] keeps the place of another file [r]; a success
    syncs the directory and so settles that place too. *)
Section elsewhere.
Context {E : Type} `{ControlErrors E} (d : Key) (env : FsEnv) (Hquiet : quiet d env).
Context (n : string) (path : Path) (Hpath : located path d n) (r : string) (Hr : n ≠ r).
Context (v : option View) (vs : list (option View)).

Lemma spec_write_temporary_elsewhere m tmp s :
  located tmp d m → m ≠ r →
  spec env (place d r (v :: vs)) (write_temporary tmp path s) (λ fs _, place d r (v :: vs) fs).
Proof.
  intros Htmp Hne. unfold write_temporary.
  pose (state w f fs := temporary d r m (v :: vs) (h_inode f) w fs).
  assert (∀ {A} (m : IO IoError A) P (good : A → FS → Prop) (f : A → IO E unit),
    spec env P m (λ fs x, match x with Some (Ok a) => good a fs | _ => place d r (v :: vs) fs end) →
    (∀ a, spec env (good a) (f a) (λ fs _, place d r (v :: vs) fs)) →
    spec env P (sys m ≫= f) (λ fs _, place d r (v :: vs) fs)) as Hstep.
  { intros A m0 P good f Hm Hf.
    eapply spec_bind with (R := λ fs x, match x with Some (Ok a) => good a fs | _ => place d r (v :: vs) fs end);
      [|exact Hf|done..].
    apply spec_map_err. eapply spec_weaken; [exact Hm|done|]. by intros fs [[|]|]. }
  eapply (Hstep _ _ _ (λ f, state (empty_view env) f)); [by apply spec_open_temporary|]. intros f.
  eapply (Hstep _ _ _ (λ _, state (filled env s false) f)); [by apply spec_write_temporary|]. intros [].
  eapply (Hstep _ _ _ (λ _, state (filled env s true) f)); [by apply spec_sync_temporary|]. intros [].
  apply spec_map_err. eapply spec_weaken;
    [apply (spec_rename_elsewhere d env Hquiet r m (v :: vs) Hne tmp path n (filled env s true) Htmp Hpath Hr eq_refl)| |done].
  intros fs Hfs. by exists (h_inode f).
Qed.

Lemma atomic_write_elsewhere texts s :
  (∀ pid nonce, temporary_name n pid nonce ≠ r) →
  spec env (place d r (v :: vs)) (atomic_write texts path s)
    (λ fs x, match x with
             | Some (Ok _) => place d r [v] fs
             | _ => place d r (v :: vs) fs
             end).
Proof.
  intros Hnames. unfold atomic_write. pose proof (located_file_name _ _ _ Hpath) as Hfn.
  destruct (file_name_parent _ _ Hfn) as [q Hq]. rewrite Hq. cbn [ok_or].
  pose proof (located_parent _ _ _ _ Hpath Hq) as Hcq.
  assert (Forall plain_name d) as Hd by (destruct Hpath as [_ [? _]%Forall_app]; done).
  apply spec_ok_bind.
  apply spec_keep_bind; [by apply spec_keep_map_err, (spec_create_dir_all d env Hquiet r _ q Hcq Hd)| |done..].
  intros []. apply spec_time_bind. intros t. unfold since_epoch.
  destruct (t.1 <? 0)%Z; [by apply spec_err_bind|apply spec_ok_bind].
  unfold utf8_file_name. rewrite Hfn.
  destruct (utf8_valid n); [apply spec_ok_bind|by apply spec_err_bind]. apply spec_env_bind.
  specialize (Hnames (process_id env) (as_nanos t)).
  set (m := temporary_name n (process_id env) (as_nanos t)) in *.
  destruct (temporary_name_ok n (process_id env) (as_nanos t)) as (Hm1 & Hm2 & Hm3);
    [by apply (file_name_free path)|].
  assert (located (join q m) d m) as Htmp by (by eapply located_join).
  eapply spec_attempt_bind with (R := λ fs _, place d r (v :: vs) fs).
  { eapply spec_weaken; [by apply (spec_write_temporary_elsewhere m)|done|]. by intros fs [[|]|]. }
  intros [u|e].
  - apply spec_map_err. eapply spec_weaken; [by apply (spec_sync_dir d env Hquiet r vs q)|done|].
    by intros fs [[|]|].
  - eapply spec_attempt_bind with (R := λ fs _, place d r (v :: vs) fs).
    + eapply spec_weaken; [by apply (spec_remove_other d env Hquiet r m Hnames _ (v :: vs) Htmp)|done|].
      by intros fs [[|]|].
    + intros x. by apply spec_lift.
Qed.
End elsewhere.

(** Removing the file of a place: what was there may come back. *)
Lemma spec_remove_place d env (Hquiet : quiet d env) n path v vs :
  located path d n →
  spec env (place d n (v :: vs)) (remove_file path)
    (λ fs x, match x with
             | Some (Ok _) => place d n (None :: v :: vs) fs
             | _ => place d n (v :: vs) fs
             end).
Proof.
  intros Hp. apply (spec_call d); [done|auto|..]; [|done..].
  intros k fs Hpl. unfold remove_at. rewrite (resolve_located _ env fs path d n) by (try apply Hpl; done).
  destruct (inode_at fs (d ++ [n])) as [[id i]|] eqn:E'; [|exact Hpl].
  apply inode_at_latest in E' as [_ Hi]. case_decide as Hk; [exact Hpl|]. cbn.
  eapply place_unlink; [|done..]. destruct Hpl as [Hb Hv]. split; [by apply base_set_entry|].
  unfold views. rewrite entry_set_eq. unfold possible at 1. cbn [e_latest e_pending].
  rewrite fmap_cons. by f_equal.
Qed.

(** ** Files that hold a value

    A place seen as a list of values: the one a reader finds, then those a
    power loss could bring back ([None]: no file). *)
Section records.
Context {S : Type} (text : S → string) (ok : S → Prop).

Definition keeps (v : option View) (o : option S) : Prop :=
  match v, o with
  | None, None => True
  | Some vw, Some s => v_kind vw = RegularFile ∧ v_synced vw = true ∧ v_data vw = text s ∧ ok s
  | _, _ => False
  end.

Definition recorded (d : Key) (n : string) (ss : list (option S)) (fs : FS) : Prop :=
  ∃ vs, place d n vs fs ∧ Forall2 keeps vs ss.

Lemma stable_recorded d n ss : stable d (recorded d n ss).
Proof. intros fs fs' Hr (vs & Hp & Hh). exists vs. split; [by eapply stable_place|done]. Qed.

Lemma keeps_synced v o : keeps v o → synced_view v.
Proof. destruct v as [vw|], o as [s|]; cbn; naive_solver. Qed.

Lemma Forall2_elem {A B} (R : A → B → Prop) l k x : Forall2 R l k → x ∈ l → ∃ y, y ∈ k ∧ R x y.
Proof.
  induction 1 as [|a b l k Hab H IH]; [set_solver|]. rewrite elem_of_cons. intros [->|Hx].
  - exists b. split; [left|done].
  - destruct (IH Hx) as (y & Hy & HR). exists y. split; [by right|done].
Qed.

Lemma recorded_power_loss d n ss fs fs' :
  power_loss fs fs' → recorded d n ss fs → ∃ o, o ∈ ss ∧ recorded d n [o] fs'.
Proof.
  intros Hpl (vs & Hp & Hh). destruct (place_power_loss d n vs fs fs') as (v & Hv & Hp'); [done..| |].
  - clear -Hh. induction Hh; constructor; [by eapply keeps_synced|done].
  - destruct (Forall2_elem _ _ _ _ Hh Hv) as (o & Ho & Hvo). exists o. split; [done|].
    exists [v]. split; [done|]. by repeat constructor.
Qed.

Lemma recorded_ok d n ss fs s : recorded d n ss fs → Some s ∈ ss → ok s.
Proof.
  intros (vs & _ & Hh) Hs. apply Forall2_flip in Hh. destruct (Forall2_elem _ _ _ _ Hh Hs) as (v & _ & Hv).
  destruct v; [apply Hv|done].
Qed.

Context (d : Key) (env : FsEnv) (Hquiet : quiet d env) (n : string) (path : Path).
Context (Hpath : located path d n).
Implicit Types (o : option S) (ss : list (option S)).

Lemma spec_recorded {E A} (m : IO E A) ss (Q : FS → option (result E A) → Prop) :
  (∀ vs, Forall2 keeps vs ss → spec env (place d n vs) m Q) → spec env (recorded d n ss) m Q.
Proof. intros H w (vs & Hp & Hh). by apply (H vs). Qed.

(** A computation that keeps every place keeps the values. *)
Lemma recorded_keep {E A} (m : IO E A) ss :
  (∀ vs, spec env (place d n vs) m (λ fs _, place d n vs fs)) →
  spec env (recorded d n ss) m (λ fs _, recorded d n ss fs).
Proof. intros H. apply spec_recorded. intros vs Hh w Hw. exists vs. split; [by apply H|done]. Qed.

Lemma recorded_written s ss fs vs :
  ok s → place d n (Some (written_view env (text s)) :: vs) fs →
  Forall2 keeps vs ss → recorded d n (Some s :: ss) fs.
Proof. intros Hs Hp Hh. eexists. split; [exact Hp|]. by constructor. Qed.

Lemma spec_stat_recorded o ss :
  spec env (recorded d n (o :: ss)) (symlink_metadata path)
    (λ fs r, recorded d n (o :: ss) fs ∧
       match r with
       | Some (Ok m) => o ≠ None
       | Some (Err e) => io_kind e = NotFound → o = None
       | None => True
       end).
Proof.
  apply spec_recorded. intros vs Hh. inversion Hh as [|v ? vs' ? Hv Hvs]; subst.
  eapply spec_weaken; [by apply (spec_stat_place d env Hquiet n path Hpath)|done|].
  intros fs r [Hp Hr]. split; [by exists (v :: vs')|]. destruct r as [[m|e]|]; [| |done].
  - destruct Hr as (vw & -> & _). by destruct o.
  - intros He%Hr. subst v. by destruct o.
Qed.

Lemma spec_read_recorded s ss :
  spec env (recorded d n (Some s :: ss)) (read_file path)
    (λ fs r, recorded d n (Some s :: ss) fs ∧ match r with Some (Ok b) => b = text s | _ => True end).
Proof.
  apply spec_recorded. intros vs Hh. inversion Hh as [|v ? vs' ? Hv Hvs]; subst.
  destruct v as [vw|]; [|done].
  eapply spec_weaken; [apply (spec_read_place d env Hquiet n path Hpath (Some vw)); apply Hv|done|].
  intros fs r [Hp Hr]. split; [by exists (Some vw :: vs')|]. destruct r as [[b|]|]; [|done..].
  destruct Hv as (_ & _ & <- & _). by injection Hr.
Qed.

(** The values after an attempt to write [s]. *)
Definition persisted {E} `{ControlErrors E} s ss (fs : FS) (r : option (result E unit)) : Prop :=
  match r with
  | None => recorded d n ss fs ∨ recorded d n (Some s :: ss) fs
  | Some (Ok _) => recorded d n [Some s] fs
  | Some (Err e) =>
      (∃ t, e = ce_io t) ∧ recorded d n ss fs ∨
      (∃ t, e = ce_uncertain t) ∧ recorded d n (Some s :: ss) fs
  end.

Lemma spec_write_recorded {E} `{ControlErrors E} texts s ss :
  ok s → spec env (recorded d n ss) (atomic_write texts path (text s)) (persisted s ss).
Proof.
  intros Hs. apply spec_recorded. intros vs Hh.
  eapply spec_weaken; [by apply (atomic_write_replaces d env Hquiet n path Hpath)|done|].
  intros fs [[u|e]|]; cbn.
  - intros Hp. eapply recorded_written; [done|exact Hp|constructor].
  - intros [[He Hp]|[He Hp]]; [left|right]; (split; [exact He|]).
    + by exists vs.
    + by eapply recorded_written.
  - intros [Hp|Hp]; [left; by exists vs|right; by eapply recorded_written].
Qed.
End records.
