(* ===== verification/Update.v ===== *)
(** * The update engine: states and journal

    linura-update/src/lib.rs: the stages of a system update, the durable
    [UpdateState] with its consistency rules, and the text of the journal that
    holds it. *)

From Stdlib Require Import ZArith Lia Ascii.
From stdpp Require Import base numbers gmap strings list fin_maps sorting.
From S2P Require Import Prelude Text Fields Paths Files ControlFiles.

Set Default Goal Selector "!".

(** ** Stages *)
Inductive UpdateStage :=
| AcquireLock | Preflight | DiskSpace | SnapshotStage | PackageTransaction | Migrations
| Reconcile | RestartAssessment | VerifyStage | Complete | RecoveryRequiredStage.
#[export] Instance UpdateStage_eq_dec : EqDecision UpdateStage.
Proof. solve_decision. Defined.

Inductive ExternalEffectState := NoEffect | PreparedEffect | DispatchStarted | VerifiedEffect.
#[export] Instance ExternalEffectState_eq_dec : EqDecision ExternalEffectState.
Proof. solve_decision. Defined.

Inductive UpdateError :=
| InvalidTransition (from to : UpdateStage)
| InvalidOperation (message : string)
| InvalidField (label : string)
| SnapshotRequired
| ExternalEffectNotVerified
| EvidenceBindingMismatch (message : string)
| JournalBindingMismatch
| UntrustedJournalPath
| UntrustedLockPath
| UntrustedEvidenceRoot
| UntrustedEvidencePath
| StaleCoordinator
| UnsupportedJournalVersion
| UnsupportedEvidenceVersion
| CorruptJournal (reason : string)
| CorruptEvidence (reason : string)
| DurabilityUncertain (reason : string)
| RecoveryRequired (reason : string)
| IoFailure (message : string).
#[export] Instance UpdateError_eq_dec : EqDecision UpdateError.
Proof. solve_decision. Defined.

#[export] Instance update_control_errors : ControlErrors UpdateError := {|
  ce_io := IoFailure; ce_uncertain := DurabilityUncertain; ce_untrusted_lock := UntrustedLockPath |}.

Definition UpdateStage_as_str (s : UpdateStage) : string :=
  match s with
  | AcquireLock => "acquire-lock"
  | Preflight => "preflight"
  | DiskSpace => "disk-space"
  | SnapshotStage => "snapshot"
  | PackageTransaction => "package-transaction"
  | Migrations => "migrations"
  | Reconcile => "reconcile"
  | RestartAssessment => "restart-assessment"
  | VerifyStage => "verify"
  | Complete => "complete"
  | RecoveryRequiredStage => "recovery-required"
  end.

Definition UpdateStage_parse (value : string) : result UpdateError UpdateStage :=
  match value with
  | "acquire-lock" => Ok AcquireLock
  | "preflight" => Ok Preflight
  | "disk-space" => Ok DiskSpace
  | "snapshot" => Ok SnapshotStage
  | "package-transaction" => Ok PackageTransaction
  | "migrations" => Ok Migrations
  | "reconcile" => Ok Reconcile
  | "restart-assessment" => Ok RestartAssessment
  | "verify" => Ok VerifyStage
  | "complete" => Ok Complete
  | "recovery-required" => Ok RecoveryRequiredStage
  | _ => Err (CorruptJournal "unknown update stage")
  end%string.

(** [{:?}] of a stage. *)
Definition UpdateStage_debug (s : UpdateStage) : string :=
  match s with
  | AcquireLock => "AcquireLock"
  | Preflight => "Preflight"
  | DiskSpace => "DiskSpace"
  | SnapshotStage => "Snapshot"
  | PackageTransaction => "PackageTransaction"
  | Migrations => "Migrations"
  | Reconcile => "Reconcile"
  | RestartAssessment => "RestartAssessment"
  | VerifyStage => "Verify"
  | Complete => "Complete"
  | RecoveryRequiredStage => "RecoveryRequired"
  end.

Definition ExternalEffectState_as_str (s : ExternalEffectState) : string :=
  match s with
  | NoEffect => "none"
  | PreparedEffect => "prepared"
  | DispatchStarted => "dispatch-started"
  | VerifiedEffect => "verified"
  end.

Definition ExternalEffectState_parse (value : string) : result UpdateError ExternalEffectState :=
  match value with
  | "none" => Ok NoEffect
  | "prepared" => Ok PreparedEffect
  | "dispatch-started" => Ok DispatchStarted
  | "verified" => Ok VerifiedEffect
  | _ => Err (CorruptJournal "unknown external-effect state")
  end%string.

Definition V09_UPDATE_EVIDENCE_ROOT : Path := "/var/lib/linura-update/v0.9".

(** [Display for UpdateError]. *)
Definition UpdateError_display (e : UpdateError) : string :=
  match e with
  | InvalidTransition from to =>
      "invalid update transition " +:+ UpdateStage_debug from +:+ " -> " +:+ UpdateStage_debug to
  | InvalidOperation message => message
  | InvalidField label => "invalid " +:+ label
  | SnapshotRequired =>
      "the current update policy requires trusted snapshot evidence before package dispatch"
  | ExternalEffectNotVerified =>
      "package transaction cannot advance until authoritative exact-bound verification evidence succeeds"
  | EvidenceBindingMismatch message => message
  | JournalBindingMismatch =>
      "update journal is bound to another update attempt or target and cannot be reused"
  | UntrustedJournalPath =>
      "update journal must be a regular non-symlink file without group/other write access"
  | UntrustedLockPath =>
      "update lock must be a stable regular non-symlink file without group/other write access"
  | UntrustedEvidenceRoot =>
      "update evidence root must be the fixed root-owned trusted producer path "
        +:+ V09_UPDATE_EVIDENCE_ROOT +:+ " without group/other write access"
  | UntrustedEvidencePath =>
      "update evidence receipt must be a single-link regular non-symlink file owned by the trusted evidence producer without group/other write access"
  | StaleCoordinator =>
      "update coordinator observed stale durable state/generation and must be reopened/reconciled"
  | UnsupportedJournalVersion => "unsupported update journal version"
  | UnsupportedEvidenceVersion => "unsupported update evidence version"
  | CorruptJournal reason => "corrupt update journal: " +:+ reason
  | CorruptEvidence reason => "corrupt update evidence: " +:+ reason
  | DurabilityUncertain reason =>
      "update journal rename may have committed but durable directory sync/generation is uncertain: "
        +:+ reason
  | RecoveryRequired reason =>
      "update coordinator is poisoned by uncertain durable state and must be reopened/reconciled before continuing: "
        +:+ reason
  | IoFailure message => "update persistence/evidence I/O failed: " +:+ message
  end.

(** ** Policy and state *)
Record UpdatePolicy := {
  minimum_free_bytes : Z;
  require_snapshot_when_available : bool;
  inhibit_suspend : bool;
  verify_after_restart : bool;
}.

Definition UpdatePolicy_default : UpdatePolicy :=
  {| minimum_free_bytes := 10 * 1024 * 1024 * 1024; require_snapshot_when_available := true;
     inhibit_suspend := true; verify_after_restart := true |}.

Record UpdateState := {
  us_update_id : option string;
  us_target_id : option string;
  us_stage : UpdateStage;
  us_snapshot_id : option string;
  us_snapshot_receipt_id : option string;
  us_transaction_id : option string;
  us_verification_receipt_id : option string;
  us_recovery_reason : option string;
  us_external_effect : ExternalEffectState;
}.
#[export] Instance UpdateState_eq_dec : EqDecision UpdateState.
Proof. solve_decision. Defined.

Definition UpdateState_default : UpdateState :=
  {| us_update_id := None; us_target_id := None; us_stage := AcquireLock; us_snapshot_id := None;
     us_snapshot_receipt_id := None; us_transaction_id := None; us_verification_receipt_id := None;
     us_recovery_reason := None; us_external_effect := NoEffect |}.

Definition with_binding (update_id target_id : string) (s : UpdateState) : UpdateState :=
  {| us_update_id := Some update_id; us_target_id := Some target_id; us_stage := us_stage s;
     us_snapshot_id := us_snapshot_id s; us_snapshot_receipt_id := us_snapshot_receipt_id s;
     us_transaction_id := us_transaction_id s;
     us_verification_receipt_id := us_verification_receipt_id s;
     us_recovery_reason := us_recovery_reason s; us_external_effect := us_external_effect s |}.

Definition with_stage (stage : UpdateStage) (effect : ExternalEffectState) (s : UpdateState) :
    UpdateState :=
  {| us_update_id := us_update_id s; us_target_id := us_target_id s; us_stage := stage;
     us_snapshot_id := us_snapshot_id s; us_snapshot_receipt_id := us_snapshot_receipt_id s;
     us_transaction_id := us_transaction_id s;
     us_verification_receipt_id := us_verification_receipt_id s;
     us_recovery_reason := us_recovery_reason s; us_external_effect := effect |}.

Definition with_snapshot (snapshot_id receipt_id : string) (s : UpdateState) : UpdateState :=
  {| us_update_id := us_update_id s; us_target_id := us_target_id s; us_stage := us_stage s;
     us_snapshot_id := Some snapshot_id; us_snapshot_receipt_id := Some receipt_id;
     us_transaction_id := us_transaction_id s;
     us_verification_receipt_id := us_verification_receipt_id s;
     us_recovery_reason := us_recovery_reason s; us_external_effect := us_external_effect s |}.

Definition with_package (transaction_id receipt_id : option string) (s : UpdateState) : UpdateState :=
  {| us_update_id := us_update_id s; us_target_id := us_target_id s; us_stage := us_stage s;
     us_snapshot_id := us_snapshot_id s; us_snapshot_receipt_id := us_snapshot_receipt_id s;
     us_transaction_id := transaction_id; us_verification_receipt_id := receipt_id;
     us_recovery_reason := us_recovery_reason s; us_external_effect := us_external_effect s |}.

Definition with_reason (reason : string) (s : UpdateState) : UpdateState :=
  {| us_update_id := us_update_id s; us_target_id := us_target_id s; us_stage := us_stage s;
     us_snapshot_id := us_snapshot_id s; us_snapshot_receipt_id := us_snapshot_receipt_id s;
     us_transaction_id := us_transaction_id s;
     us_verification_receipt_id := us_verification_receipt_id s;
     us_recovery_reason := Some reason; us_external_effect := us_external_effect s |}.

(** ** Identifiers and texts *)
Definition identifier_byte (c : N) : bool :=
  ((48 <=? c) && (c <=? 57) || (65 <=? c) && (c <=? 90) || (97 <=? c) && (c <=? 122)
   || (c =? 45) || (c =? 95) || (c =? 46) || (c =? 58))%N.

Definition normalize_identifier (label value : string) : result UpdateError string :=
  let value := str_trim value in
  if bool_decide (value = "") || (256 <? str_len value)%Z || str_contains ".." value
     || negb (forallb identifier_byte (codes value))
  then Err (InvalidField label)
  else Ok value.

Definition normalize_text (label value : string) (max_len : Z) : result UpdateError string :=
  let value := str_trim value in
  if bool_decide (value = "") || (max_len <? str_len value)%Z || has_control value
  then Err (InvalidField label)
  else Ok value.

Definition none {A} (o : option A) : bool := match o with None => true | Some _ => false end.
Definition some {A} (o : option A) : bool := negb (none o).

(** ** Transitions *)
Definition valid_transition (from to : UpdateStage) : bool :=
  match from, to with
  | AcquireLock, Preflight
  | Preflight, DiskSpace
  | DiskSpace, SnapshotStage
  | SnapshotStage, PackageTransaction
  | PackageTransaction, Migrations
  | Migrations, Reconcile
  | Reconcile, RestartAssessment
  | RestartAssessment, VerifyStage
  | VerifyStage, Complete => true
  | _, _ => false
  end.

Definition UpdateState_transition (next : UpdateStage) (s : UpdateState) : result UpdateError UpdateState :=
  if bool_decide (next = RecoveryRequiredStage) then
    Err (InvalidOperation
      "use require_recovery to enter recovery-required state with an explicit reason")
  else if negb (valid_transition (us_stage s) next) then
    Err (InvalidTransition (us_stage s) next)
  else if bool_decide (us_stage s = PackageTransaction) && bool_decide (next = Migrations)
          && (negb (bool_decide (us_external_effect s = VerifiedEffect))
              || none (us_verification_receipt_id s)) then
    Err ExternalEffectNotVerified
  else
    Ok (with_stage next
          (if bool_decide (next = Migrations) then NoEffect else us_external_effect s) s).

Definition UpdateState_require_recovery (reason : string) (s : UpdateState) :
    result UpdateError UpdateState :=
  reason ← normalize_text "recovery reason" reason 4096;
  Ok (with_stage RecoveryRequiredStage NoEffect (with_reason reason s)).

(** ** Consistency *)
Definition check_identifier (label : string) (value : option string) : result UpdateError unit :=
  match value with
  | Some value => _ ← normalize_identifier label value; Ok tt
  | None => Ok tt
  end.

Definition stage_before_package (s : UpdateStage) : bool :=
  match s with AcquireLock | Preflight | DiskSpace | SnapshotStage => true | _ => false end.
Definition stage_after_package (s : UpdateStage) : bool :=
  match s with
  | Migrations | Reconcile | RestartAssessment | VerifyStage | Complete => true
  | _ => false
  end.

Definition validate_package_stage (s : UpdateState) : result UpdateError unit :=
  if bool_decide (us_stage s = PackageTransaction) then
    _ ← reject_if (bool_decide (us_external_effect s = NoEffect) || none (us_transaction_id s))
          (CorruptJournal "package stage lacks exact prepared transaction identity/state");
    match us_external_effect s with
    | VerifiedEffect =>
        reject_if (none (us_verification_receipt_id s))
          (CorruptJournal "verified package state lacks authoritative verification receipt identity")
    | PreparedEffect | DispatchStarted =>
        reject_if (some (us_verification_receipt_id s))
          (CorruptJournal "unverified package state retained a verification receipt")
    | NoEffect => Ok tt
    end
  else
    reject_if (negb (bool_decide (us_external_effect s = NoEffect)))
      (CorruptJournal
         "transient package external-effect state is only valid at package-transaction stage").

Definition validate_persisted_state (s : UpdateState) : result UpdateError unit :=
  update_id ← ok_or (us_update_id s) (CorruptJournal "journal lacks update binding");
  target_id ← ok_or (us_target_id s) (CorruptJournal "journal lacks target binding");
  _ ← normalize_identifier "update id" update_id;
  _ ← normalize_identifier "update target id" target_id;
  _ ← check_identifier "snapshot id" (us_snapshot_id s);
  _ ← check_identifier "snapshot receipt id" (us_snapshot_receipt_id s);
  _ ← reject_if (xorb (some (us_snapshot_id s)) (some (us_snapshot_receipt_id s)))
        (CorruptJournal "snapshot identity and trusted receipt identity must be retained together");
  _ ← check_identifier "transaction id" (us_transaction_id s);
  _ ← check_identifier "verification receipt id" (us_verification_receipt_id s);
  _ ← match us_recovery_reason s with
      | Some value => _ ← normalize_text "recovery reason" value 4096; Ok tt
      | None => Ok tt
      end;
  _ ← validate_package_stage s;
  _ ← reject_if (stage_before_package (us_stage s)
                 && (some (us_transaction_id s) || some (us_verification_receipt_id s)))
        (CorruptJournal "pre-package stage retained package transaction/verification identity");
  _ ← reject_if (stage_after_package (us_stage s)
                 && (none (us_transaction_id s) || none (us_verification_receipt_id s)))
        (CorruptJournal
           "post-package stage lacks retained package transaction or authoritative verification receipt identity");
  if bool_decide (us_stage s = RecoveryRequiredStage) then
    reject_if (none (us_recovery_reason s))
      (CorruptJournal "recovery-required state lacks a reason")
  else
    reject_if (some (us_recovery_reason s))
      (CorruptJournal "non-recovery stage retained a recovery reason").

(** ** The journal *)
Definition JOURNAL_MAGIC : string := "linura-update-journal-v2".
Definition MAX_JOURNAL_BYTES : Z := 256 * 1024.

Definition hex_encode (value : option string) : string :=
  match value with None => "-" | Some value => hex_bytes value end.

Definition hex_decode (value : string) : result UpdateError (option string) :=
  if bool_decide (value = "-") then Ok None
  else
    _ ← reject_if (negb (Nat.even (String.length value)) || negb (all_hexdigits value))
          (CorruptJournal "invalid hex-encoded field");
    bytes ← ok_or (unhex_pairs value) (CorruptJournal "invalid field encoding");
    if utf8_valid bytes then Ok (Some bytes) else Err (CorruptJournal "field is not UTF-8").

Definition required_hex (value label : string) : result UpdateError string :=
  v ← hex_decode value;
  ok_or v (CorruptEvidence ("missing " +:+ label)).

Definition optional_u64 (value label : string) : result UpdateError (option Z) :=
  if bool_decide (value = "-") then Ok None
  else match u64_parse value with
       | Some v => Ok (Some v)
       | None => Err (CorruptEvidence ("invalid " +:+ label))
       end.

(** [parse_field(lines.next(), name)]: the value and the lines that remain. *)
Definition parse_field (lines : list string) (name : string) : result UpdateError (string * list string) :=
  match lines with
  | [] => Err (CorruptJournal ("missing " +:+ name +:+ " field"))
  | line :: rest =>
      match strip_prefix (name +:+ "=") line with
      | Some value => Ok (value, rest)
      | None => Err (CorruptJournal ("invalid " +:+ name +:+ " field"))
      end
  end.

Definition journal_lines (s : UpdateState) : list string :=
  [JOURNAL_MAGIC;
   "update=" +:+ hex_encode (us_update_id s);
   "target=" +:+ hex_encode (us_target_id s);
   "stage=" +:+ UpdateStage_as_str (us_stage s);
   "snapshot=" +:+ hex_encode (us_snapshot_id s);
   "snapshot_receipt=" +:+ hex_encode (us_snapshot_receipt_id s);
   "transaction=" +:+ hex_encode (us_transaction_id s);
   "verification_receipt=" +:+ hex_encode (us_verification_receipt_id s);
   "effect=" +:+ ExternalEffectState_as_str (us_external_effect s);
   "recovery=" +:+ hex_encode (us_recovery_reason s)].

Definition serialize_journal (s : UpdateState) : string :=
  let payload := unlines (journal_lines s) in
  payload +:+ "integrity=" +:+ u64_hex16 (integrity_tag payload) +:+ String LF "".

Definition parse_journal (bytes : string) : result UpdateError UpdateState :=
  payload ← integrity_payload CorruptJournal "journal is not UTF-8" bytes;
  match lines payload with
  | [] => Err UnsupportedJournalVersion
  | magic :: l =>
      _ ← reject_if (negb (bool_decide (magic = JOURNAL_MAGIC))) UnsupportedJournalVersion;
      '(update, l) ← parse_field l "update";
      '(target, l) ← parse_field l "target";
      '(stage, l) ← parse_field l "stage";
      '(snapshot, l) ← parse_field l "snapshot";
      '(snapshot_receipt, l) ← parse_field l "snapshot_receipt";
      '(transaction, l) ← parse_field l "transaction";
      '(verification_receipt, l) ← parse_field l "verification_receipt";
      '(effect, l) ← parse_field l "effect";
      '(recovery, l) ← parse_field l "recovery";
      _ ← reject_if (negb (is_nil_list l)) (CorruptJournal "unexpected journal field");
      update_id ← hex_decode update;
      target_id ← hex_decode target;
      stage ← UpdateStage_parse stage;
      snapshot_id ← hex_decode snapshot;
      snapshot_receipt_id ← hex_decode snapshot_receipt;
      transaction_id ← hex_decode transaction;
      verification_receipt_id ← hex_decode verification_receipt;
      recovery_reason ← hex_decode recovery;
      external_effect ← ExternalEffectState_parse effect;
      let state :=
        {| us_update_id := update_id; us_target_id := target_id; us_stage := stage;
           us_snapshot_id := snapshot_id; us_snapshot_receipt_id := snapshot_receipt_id;
           us_transaction_id := transaction_id; us_verification_receipt_id := verification_receipt_id;
           us_recovery_reason := recovery_reason; us_external_effect := external_effect |} in
      _ ← validate_persisted_state state;
      Ok state
  end.

(** * The journal is read back

    What [serialize_journal] writes, [parse_journal] returns; what
    [parse_journal] accepts is a consistent state. *)

(** ** Fields *)
Definition utf8_option (o : option string) : Prop :=
  match o with Some s => utf8_valid s = true | None => True end.

Lemma hex_decode_encode o : utf8_option o → hex_decode (hex_encode o) = Ok o.
Proof.
  destruct o as [s|]; [|done]. cbn. intros Hs. unfold hex_decode.
  pose proof (length_hex_bytes s) as Hlen.
  rewrite bool_decide_eq_false_2 by (intros E; rewrite E in Hlen; cbn in Hlen; lia).
  rewrite Hlen, (lower_all_hexdigits (hex_bytes s)) by apply lower_hex_bytes.
  rewrite Nat.even_mul. cbn. by rewrite unhex_hex_bytes; cbn; rewrite Hs.
Qed.

Lemma hex_decode_utf8 v o : hex_decode v = Ok o → utf8_option o.
Proof.
  unfold hex_decode. case_bool_decide; [by intros [= <-]|].
  intros (? & _ & (bytes & _ & Hb)%bind_Ok)%bind_Ok.
  destruct (utf8_valid bytes) eqn:E; [|done]. by injection Hb as <-.
Qed.

Lemma hex_encode_graphic o : all_graphic (hex_encode o) = true.
Proof. destruct o as [s|]; [|done]. apply lower_hex_text_graphic, lower_hex_bytes. Qed.

Lemma parse_field_ok name prefix value rest :
  prefix = name +:+ "=" → parse_field ((prefix +:+ value) :: rest) name = Ok (value, rest).
Proof. intros ->. unfold parse_field. by rewrite strip_prefix_app. Qed.

Lemma stage_parse_as_str s : UpdateStage_parse (UpdateStage_as_str s) = Ok s.
Proof. by destruct s. Qed.

Lemma effect_parse_as_str s : ExternalEffectState_parse (ExternalEffectState_as_str s) = Ok s.
Proof. by destruct s. Qed.

(** ** The journal *)

(** The fields of a state are strings of Rust. *)
Record utf8_fields (s : UpdateState) : Prop := {
  utf8_update : utf8_option (us_update_id s);
  utf8_target : utf8_option (us_target_id s);
  utf8_snapshot : utf8_option (us_snapshot_id s);
  utf8_snapshot_receipt : utf8_option (us_snapshot_receipt_id s);
  utf8_transaction : utf8_option (us_transaction_id s);
  utf8_verification : utf8_option (us_verification_receipt_id s);
  utf8_reason : utf8_option (us_recovery_reason s);
}.

Lemma journal_lines_graphic s : Forall (λ l, all_graphic l = true) (journal_lines s).
Proof.
  unfold journal_lines. repeat constructor; rewrite ?all_graphic_app, ?hex_encode_graphic; try done.
  - by destruct (us_stage s).
  - by destruct (us_external_effect s).
Qed.

Lemma serialize_journal_closed s : serialize_journal s = closed_record (unlines (journal_lines s)).
Proof. done. Qed.

Lemma journal_payload s :
  integrity_payload CorruptJournal "journal is not UTF-8" (serialize_journal s) =
    Ok (unlines (journal_lines s)) ∧
  lines (unlines (journal_lines s)) = journal_lines s.
Proof.
  pose proof (journal_lines_graphic s) as H. split.
  - rewrite serialize_journal_closed. apply integrity_payload_ok, ascii_unlines.
    eapply Forall_impl; [exact H|]. intros l. apply graphic_ascii.
  - apply lines_unlines. eapply Forall_impl; [exact H|]. intros l. apply graphic_plain_line.
Qed.

Lemma parse_serialize_journal s :
  utf8_fields s → parse_journal (serialize_journal s) = (_ ← validate_persisted_state s; Ok s).
Proof.
  intros H. destruct (journal_payload s) as [Hp Hl]. unfold parse_journal. rewrite Hp.
  cbv [mbind result_bind]. rewrite Hl. unfold journal_lines.
  rewrite bool_decide_eq_true_2 by done. cbn [negb reject_if].
  do 9 (rewrite parse_field_ok by done).
  cbn [is_nil_list negb reject_if].
  rewrite !hex_decode_encode, stage_parse_as_str, effect_parse_as_str by apply H.
  by destruct s.
Qed.

Lemma parse_journal_valid bytes s :
  parse_journal bytes = Ok s → validate_persisted_state s = Ok tt ∧ utf8_fields s.
Proof.
  unfold parse_journal. intros (payload & _ & H)%bind_Ok.
  destruct (lines payload) as [|magic l]; [done|].
  apply bind_Ok in H as (? & _ & H).
  do 9 (apply bind_Ok in H as ([? ?] & _ & H)). apply bind_Ok in H as (? & _ & H).
  apply bind_Ok in H as (u & Hu & H). apply bind_Ok in H as (t & Ht & H).
  apply bind_Ok in H as (st & _ & H). apply bind_Ok in H as (sn & Hsn & H).
  apply bind_Ok in H as (sr & Hsr & H). apply bind_Ok in H as (tr & Htr & H).
  apply bind_Ok in H as (vr & Hvr & H). apply bind_Ok in H as (rr & Hrr & H).
  apply bind_Ok in H as (ef & _ & H). apply bind_Ok in H as ([] & Hv & [= <-]).
  split; [exact Hv|]. split; cbn; by eapply hex_decode_utf8.
Qed.

(** A consistent update state is written to the journal and read back
    unchanged, and every journal that is accepted, whoever wrote it, holds a
    consistent state and writes back to a journal with the same state. *)
Theorem journal_roundtrip :
  (∀ s, validate_persisted_state s = Ok tt → utf8_fields s →
     parse_journal (serialize_journal s) = Ok s) ∧
  (∀ bytes s, parse_journal bytes = Ok s →
     validate_persisted_state s = Ok tt ∧ parse_journal (serialize_journal s) = Ok s).
Proof.
  split.
  - intros s Hv Hu. by rewrite parse_serialize_journal, Hv.
  - intros bytes s [Hv Hu]%parse_journal_valid. split; [done|]. by rewrite parse_serialize_journal, Hv.
Qed.

(** A tag that is not the one of the payload is noticed. *)
Lemma parse_journal_tag bytes s :
  parse_journal bytes = Ok s →
  ∃ payload tag, bytes = payload +:+ "integrity=" +:+ tag +:+ String LF "" ∧
    from_str_radix16 u64_max tag = Some (integrity_tag payload).
Proof.
  unfold parse_journal. intros (payload & Hp & _)%bind_Ok.
  apply integrity_payload_Ok in Hp as (tag & -> & _ & Ht). eauto.
Qed.
