(* ===== verification/UpdateCoordinator.v ===== *)
(** * The update engine: store and coordinator

    linura-update/src/lib.rs: [UpdateJournalStore] and every operation of
    [UpdateCoordinator].  An operation takes the coordinator and returns it with
    its result, also when it fails, since a failed commit may poison it; a
    process killed on the way returns nothing. *)

From Stdlib Require Import ZArith Lia Ascii.
From stdpp Require Import base numbers gmap strings list fin_maps sorting.
From S2P Require Import Prelude Text Fields Paths Files ControlFiles Update.

Set Default Goal Selector "!".

(** ** Receipts *)
Record SnapshotReceipt := {
  sr_receipt_id : string;
  sr_update_id : string;
  sr_target_id : string;
  sr_snapshot_id : string;
  sr_proof_id : string;
  sr_attempt_generation : string;
  sr_issued_unix_ms : Z;
}.

Record PackageVerificationReceipt := {
  pr_receipt_id : string;
  pr_update_id : string;
  pr_target_id : string;
  pr_transaction_id : string;
  pr_observation_id : string;
  pr_dispatch_generation : string;
  pr_issued_unix_ms : Z;
}.

Definition SNAPSHOT_EVIDENCE_MAX_AGE_MS : Z := 15 * 60 * 1000.
Definition SNAPSHOT_EVIDENCE_FUTURE_SKEW_MS : Z := 30 * 1000.
Definition PACKAGE_VERIFICATION_MAX_AGE_MS : Z := 15 * 60 * 1000.
Definition PACKAGE_VERIFICATION_FUTURE_SKEW_MS : Z := 30 * 1000.

(** Issued before the attempt, in the future, or too long ago. *)
Definition stale_evidence (skew max_age now issued started : Z) : bool :=
  (issued <? started)%Z || (u64_saturating_add now skew <? issued)%Z
  || (max_age <? u64_saturating_sub now issued)%Z.

Definition validate_snapshot_evidence_freshness (issued_unix_ms snapshot_started_unix_ms : Z) :
    IO UpdateError unit :=
  now ← unix_now_ms;
  io_lift (reject_if (stale_evidence SNAPSHOT_EVIDENCE_FUTURE_SKEW_MS SNAPSHOT_EVIDENCE_MAX_AGE_MS
                        now issued_unix_ms snapshot_started_unix_ms)
    (EvidenceBindingMismatch
       "snapshot receipt is stale, predates this snapshot attempt, or is implausibly future-dated")).

Definition validate_package_evidence_freshness (issued_unix_ms dispatch_started_unix_ms : Z) :
    IO UpdateError unit :=
  now ← unix_now_ms;
  io_lift (reject_if (stale_evidence PACKAGE_VERIFICATION_FUTURE_SKEW_MS
                        PACKAGE_VERIFICATION_MAX_AGE_MS now issued_unix_ms dispatch_started_unix_ms)
    (EvidenceBindingMismatch
       "package verification receipt is stale, predates this dispatch, or is implausibly future-dated")).

(** ** The journal store *)
Definition UpdateJournalStore := Path.

Definition journal_texts : WriteTexts :=
  {| wt_no_parent := "update journal path has no parent";
     wt_bad_name := "invalid update journal file name";
     wt_unsynced := "journal rename completed but parent-directory fsync failed: " |}.

Definition validate_journal_metadata (m : Metadata) : result UpdateError unit :=
  reject_if (untrusted_file m) UntrustedJournalPath.

Definition UpdateJournalStore_load (path : UpdateJournalStore) : IO UpdateError UpdateState :=
  r ← attempt (symlink_metadata path);
  match r with
  | Err error =>
      match io_kind error with
      | NotFound => mret UpdateState_default
      | _ => io_fail (io_error error)
      end
  | Ok metadata =>
      _ ← io_lift (validate_journal_metadata metadata);
      _ ← io_lift (reject_if (MAX_JOURNAL_BYTES <? m_len metadata)%Z
            (CorruptJournal "update journal exceeds supported size bound"));
      bytes ← sys (read_file path);
      io_lift (parse_journal bytes)
  end.

Record JournalGeneration := { jg_token : string; jg_committed_unix_ms : Z }.
#[export] Instance JournalGeneration_eq_dec : EqDecision JournalGeneration.
Proof. solve_decision. Defined.

(** [{:x}] of a [u64] or an [i64]. *)
Definition hex_x (z : Z) : string := hex_trimmed (z mod 2 ^ 64).

Definition generation_token (m : Metadata) : string :=
  hex_x (m_dev m) +:+ ":" +:+ hex_x (m_ino m) +:+ ":" +:+ hex_x (m_ctime m).1 +:+ ":"
    +:+ hex_x (m_ctime m).2 +:+ ":" +:+ hex_x (m_mtime m).1 +:+ ":" +:+ hex_x (m_mtime m).2
    +:+ ":" +:+ hex_x (m_len m).

Definition UpdateJournalStore_generation (path : UpdateJournalStore) :
    IO UpdateError JournalGeneration :=
  metadata ← sys (symlink_metadata path);
  _ ← io_lift (validate_journal_metadata metadata);
  committed_unix_ms ← io_lift (system_time_to_unix_ms (m_mtime metadata));
  token ← io_lift (normalize_identifier "dispatch generation" (generation_token metadata));
  mret {| jg_token := token; jg_committed_unix_ms := committed_unix_ms |}.

Definition UpdateJournalStore_persist (path : UpdateJournalStore) (state : UpdateState) :
    IO UpdateError unit :=
  atomic_write journal_texts path (serialize_journal state).

Definition UpdateJournalStore_acquire_exclusive (path : UpdateJournalStore) : IO UpdateError File :=
  acquire_exclusive journal_texts "update lock path has no parent" path.

(** ** The coordinator *)
Record UpdateCoordinator := {
  uc_state : UpdateState;
  uc_policy : UpdatePolicy;
  uc_store : UpdateJournalStore;
  uc_update_id : string;
  uc_target_id : string;
  uc_journal_generation : JournalGeneration;
  uc_durability_uncertain : option string;
}.

Definition UpdateCoordinator_open (store : UpdateJournalStore) (policy : UpdatePolicy)
    (update_id target_id : string) : IO UpdateError UpdateCoordinator :=
  update_id ← io_lift (normalize_identifier "update id" update_id);
  target_id ← io_lift (normalize_identifier "update target id" target_id);
  _ ← UpdateJournalStore_acquire_exclusive store;
  state ← UpdateJournalStore_load store;
  state ←
    (if none (us_update_id state) && none (us_target_id state) then
       _ ← io_lift (reject_if (negb (bool_decide (state = UpdateState_default)))
             (CorruptJournal "unbound journal contains non-default state"));
       let state := with_binding update_id target_id state in
       _ ← io_lift (validate_persisted_state state);
       _ ← UpdateJournalStore_persist store state;
       mret state
     else if negb (bool_decide (us_update_id state = Some update_id))
             || negb (bool_decide (us_target_id state = Some target_id))
     then io_fail JournalBindingMismatch
     else mret state);
  _ ← io_lift (validate_persisted_state state);
  journal_generation ← UpdateJournalStore_generation store;
  mret {| uc_state := state; uc_policy := policy; uc_store := store; uc_update_id := update_id;
          uc_target_id := target_id; uc_journal_generation := journal_generation;
          uc_durability_uncertain := None |}.

Definition requires_recovery (c : UpdateCoordinator) : bool :=
  some (uc_durability_uncertain c) || bool_decide (us_stage (uc_state c) = RecoveryRequiredStage).

Definition at_snapshot (c : UpdateCoordinator) : bool :=
  bool_decide (us_stage (uc_state c) = SnapshotStage).
Definition at_dispatch (c : UpdateCoordinator) : bool :=
  bool_decide (us_stage (uc_state c) = PackageTransaction)
  && bool_decide (us_external_effect (uc_state c) = DispatchStarted).

Definition snapshot_generation (c : UpdateCoordinator) : option string :=
  if at_snapshot c then Some (jg_token (uc_journal_generation c)) else None.
Definition snapshot_started_unix_ms (c : UpdateCoordinator) : option Z :=
  if at_snapshot c then Some (jg_committed_unix_ms (uc_journal_generation c)) else None.
Definition dispatch_generation (c : UpdateCoordinator) : option string :=
  if at_dispatch c then Some (jg_token (uc_journal_generation c)) else None.
Definition dispatch_started_unix_ms (c : UpdateCoordinator) : option Z :=
  if at_dispatch c then Some (jg_committed_unix_ms (uc_journal_generation c)) else None.

(** A method of a coordinator: [&mut self] and [Result]. *)
Definition Method (A : Type) : Type :=
  UpdateCoordinator → FsEnv → World → World * option (UpdateCoordinator * result UpdateError A).

#[export] Instance method_ret : MRet Method := λ A a c env w, (w, Some (c, Ok a)).
#[export] Instance method_bind : MBind Method := λ A B f m c env w,
  match m c env w with
  | (w', Some (c', Ok a)) => f a c' env w'
  | (w', Some (c', Err e)) => (w', Some (c', Err e))
  | (w', None) => (w', None)
  end.
Definition this : Method UpdateCoordinator := λ c env w, (w, Some (c, Ok c)).
Definition assign (c : UpdateCoordinator) : Method unit := λ _ env w, (w, Some (c, Ok tt)).
Definition io {A} (m : IO UpdateError A) : Method A := λ c env w,
  let '(w', r) := m env w in (w', (λ r, (c, r)) <$> r).
Definition io_result {A} (m : IO UpdateError A) : Method (result UpdateError A) := λ c env w,
  let '(w', r) := m env w in (w', (λ r, (c, Ok r)) <$> r).
Definition check {A} (r : result UpdateError A) : Method A := io (io_lift r).
Definition throw {A} (e : UpdateError) : Method A := check (Err e).

Definition poison (reason : string) (c : UpdateCoordinator) : UpdateCoordinator :=
  {| uc_state := uc_state c; uc_policy := uc_policy c; uc_store := uc_store c;
     uc_update_id := uc_update_id c; uc_target_id := uc_target_id c;
     uc_journal_generation := uc_journal_generation c; uc_durability_uncertain := Some reason |}.
Definition advance_to (state : UpdateState) (generation : JournalGeneration) (c : UpdateCoordinator) :
    UpdateCoordinator :=
  {| uc_state := state; uc_policy := uc_policy c; uc_store := uc_store c;
     uc_update_id := uc_update_id c; uc_target_id := uc_target_id c;
     uc_journal_generation := generation; uc_durability_uncertain := uc_durability_uncertain c |}.

Definition ensure_usable : Method unit :=
  c ← this;
  match uc_durability_uncertain c with
  | Some reason => throw (RecoveryRequired reason)
  | None => mret tt
  end.

Definition snapshot_policy_satisfied (c : UpdateCoordinator) : bool :=
  negb (require_snapshot_when_available (uc_policy c))
  || some (us_snapshot_id (uc_state c)) && some (us_snapshot_receipt_id (uc_state c)).

Definition ensure_snapshot_policy_satisfied : Method unit :=
  c ← this;
  check (reject_if (negb (snapshot_policy_satisfied c)) SnapshotRequired).

Definition handle_persist_failure {A} (error : UpdateError) : Method A :=
  match error with
  | DurabilityUncertain reason =>
      c ← this;
      _ ← assign (poison reason c);
      throw (DurabilityUncertain reason)
  | other => throw other
  end.

Definition changed_text : string :=
  "durable update state/generation changed through another coordinator; reopen and reconcile before continuing".
Definition unobserved_text : string :=
  "journal commit succeeded but the new durable generation could not be re-observed: ".

Definition commit_with_validation (candidate : UpdateState)
    (package_verification_issued_unix_ms : option Z) : Method unit :=
  _ ← ensure_usable;
  _ ← check (validate_persisted_state candidate);
  c ← this;
  _ ← io (UpdateJournalStore_acquire_exclusive (uc_store c));
  durable ← io (UpdateJournalStore_load (uc_store c));
  durable_generation ← io (UpdateJournalStore_generation (uc_store c));
  if negb (bool_decide (durable = uc_state c))
     || negb (bool_decide (durable_generation = uc_journal_generation c)) then
    _ ← assign (poison changed_text c);
    throw StaleCoordinator
  else
    _ ← match package_verification_issued_unix_ms with
        | Some issued =>
            io (validate_package_evidence_freshness issued (jg_committed_unix_ms durable_generation))
        | None => mret tt
        end;
    r ← io_result (UpdateJournalStore_persist (uc_store c) candidate);
    match r with
    | Ok _ =>
        g ← io_result (UpdateJournalStore_generation (uc_store c));
        match g with
        | Ok generation => assign (advance_to candidate generation c)
        | Err error =>
            handle_persist_failure (DurabilityUncertain (unobserved_text +:+ UpdateError_display error))
        end
    | Err error => handle_persist_failure error
    end.

Definition commit (candidate : UpdateState) : Method unit := commit_with_validation candidate None.
Definition commit_with_package_freshness (candidate : UpdateState) (issued_unix_ms : Z) : Method unit :=
  commit_with_validation candidate (Some issued_unix_ms).

Definition UpdateCoordinator_transition (next : UpdateStage) : Method unit :=
  _ ← ensure_usable;
  c ← this;
  candidate ← check (UpdateState_transition next (uc_state c));
  commit candidate.

Definition record_snapshot (receipt : SnapshotReceipt) : Method unit :=
  _ ← ensure_usable;
  c ← this;
  _ ← check (reject_if (negb (bool_decide (us_stage (uc_state c) = SnapshotStage)))
        (InvalidOperation "snapshot evidence can only be recorded at Snapshot stage"));
  _ ← check (reject_if
        (negb (bool_decide (sr_update_id receipt = uc_update_id c))
         || negb (bool_decide (sr_target_id receipt = uc_target_id c))
         || negb (bool_decide (sr_attempt_generation receipt = jg_token (uc_journal_generation c))))
        (EvidenceBindingMismatch
           "snapshot receipt belongs to another update, target or snapshot attempt"));
  _ ← io (validate_snapshot_evidence_freshness (sr_issued_unix_ms receipt)
            (jg_committed_unix_ms (uc_journal_generation c)));
  commit (with_snapshot (sr_snapshot_id receipt) (sr_receipt_id receipt) (uc_state c)).

Definition prepare_package_transaction (transaction_id : string) : Method unit :=
  _ ← ensure_usable;
  c ← this;
  _ ← check (reject_if (negb (bool_decide (us_stage (uc_state c) = SnapshotStage)))
        (InvalidOperation "package transaction may only be prepared after Snapshot stage"));
  _ ← ensure_snapshot_policy_satisfied;
  transaction_id ← check (normalize_identifier "transaction id" transaction_id);
  commit (with_package (Some transaction_id) None
            (with_stage PackageTransaction PreparedEffect (uc_state c))).

Definition mark_dispatch_started : Method unit :=
  _ ← ensure_usable;
  c ← this;
  _ ← check (reject_if
        (negb (bool_decide (us_stage (uc_state c) = PackageTransaction))
         || negb (bool_decide (us_external_effect (uc_state c) = PreparedEffect))
         || none (us_transaction_id (uc_state c))
         || some (us_verification_receipt_id (uc_state c)))
        (InvalidOperation "dispatch start requires an exact durably prepared package transaction"));
  _ ← ensure_snapshot_policy_satisfied;
  commit (with_stage (us_stage (uc_state c)) DispatchStarted (uc_state c)).

Definition mark_package_verified (receipt : PackageVerificationReceipt) : Method unit :=
  _ ← ensure_usable;
  c ← this;
  _ ← check (reject_if (negb (at_dispatch c))
        (InvalidOperation "package verification requires a previously dispatched transaction"));
  transaction_id ← check (ok_or (us_transaction_id (uc_state c))
        (CorruptJournal "dispatched package transaction lost its transaction identity"));
  _ ← check (reject_if
        (negb (bool_decide (pr_update_id receipt = uc_update_id c))
         || negb (bool_decide (pr_target_id receipt = uc_target_id c))
         || negb (bool_decide (pr_transaction_id receipt = transaction_id))
         || negb (bool_decide (pr_dispatch_generation receipt = jg_token (uc_journal_generation c))))
        (EvidenceBindingMismatch
           "package verification receipt belongs to another update, target, transaction or dispatch instance"));
  _ ← io (validate_package_evidence_freshness (pr_issued_unix_ms receipt)
            (jg_committed_unix_ms (uc_journal_generation c)));
  commit_with_package_freshness
    (with_package (us_transaction_id (uc_state c)) (Some (pr_receipt_id receipt))
       (with_stage (us_stage (uc_state c)) VerifiedEffect (uc_state c)))
    (pr_issued_unix_ms receipt).

Definition UpdateCoordinator_require_recovery (reason : string) : Method unit :=
  _ ← ensure_usable;
  c ← this;
  candidate ← check (UpdateState_require_recovery reason (uc_state c));
  commit candidate.

Inductive UpdateResumeDecision :=
| Continue (stage : UpdateStage)
| SafeToDispatchPrepared
| ReobserveBeforeContinuing
| SafeToAdvanceAfterVerification
| ManualRecoveryRequired
| ResumeComplete.

Definition resume_decision (c : UpdateCoordinator) : UpdateResumeDecision :=
  if some (uc_durability_uncertain c) then ManualRecoveryRequired
  else match us_stage (uc_state c), us_external_effect (uc_state c) with
       | Complete, _ => ResumeComplete
       | RecoveryRequiredStage, _ => ManualRecoveryRequired
       | PackageTransaction, PreparedEffect =>
           if snapshot_policy_satisfied c then SafeToDispatchPrepared else ManualRecoveryRequired
       | PackageTransaction, DispatchStarted => ReobserveBeforeContinuing
       | PackageTransaction, VerifiedEffect => SafeToAdvanceAfterVerification
       | PackageTransaction, NoEffect => ManualRecoveryRequired
       | stage, _ => Continue stage
       end.

(** ** Direct upgrades *)
Inductive NativeUpgradeDecision := AllowLinuraCoordinator | AllowBreakGlass | DenyDirectUpgrade.

Definition direct_upgrade_decision (coordinator_owned break_glass : bool) : NativeUpgradeDecision :=
  if coordinator_owned then AllowLinuraCoordinator
  else if break_glass then AllowBreakGlass
  else DenyDirectUpgrade.
