(* ===== verification/UpdateSteps.v ===== *)
(** * What the update operations do to the journal

    The journal seen as a list of states: the one a reader finds, then those a
    power loss could bring back ([None]: no journal).  The operations of the
    store and of the coordinator are specified on that list. *)

From Stdlib Require Import ZArith Lia Ascii.
From stdpp Require Import base numbers gmap strings list fin_maps sorting.
From S2P Require Import Prelude Text Fields Paths Files ControlFiles FileFacts.
From S2P Require Import ControlFacts Update UpdateCoordinator.

Set Default Goal Selector "!".

(** A state that may be written: consistent, and made of strings. *)
Definition writable (s : UpdateState) : Prop := validate_persisted_state s = Ok tt ∧ utf8_fields s.

Definition journal : Key → string → list (option UpdateState) → FS → Prop :=
  recorded serialize_journal writable.

Lemma stable_journal d n ss : stable d (journal d n ss).
Proof. apply stable_recorded. Qed.

Lemma journal_power_loss d n ss fs fs' :
  power_loss fs fs' → journal d n ss fs → ∃ o, o ∈ ss ∧ journal d n [o] fs'.
Proof. apply recorded_power_loss. Qed.

Section store.
Context (d : Key) (env : FsEnv) (Hquiet : quiet d env) (n : string) (path : Path).
Context (Hpath : located path d n).
Implicit Types (o : option UpdateState) (ss : list (option UpdateState)).

Lemma spec_acquire ss :
  spec env (journal d n ss) (UpdateJournalStore_acquire_exclusive path) (λ fs _, journal d n ss fs).
Proof. apply recorded_keep. intros vs. by apply spec_acquire_exclusive. Qed.

Definition loaded o : UpdateState := default UpdateState_default o.

Lemma spec_load o ss :
  spec env (journal d n (o :: ss)) (UpdateJournalStore_load path)
    (λ fs r, journal d n (o :: ss) fs ∧
       match r with Some (Ok s) => s = loaded o | _ => True end).
Proof.
  unfold UpdateJournalStore_load.
  eapply spec_attempt_bind with (R := λ fs r, journal d n (o :: ss) fs ∧
    match r with Ok m => o ≠ None | Err e => io_kind e = NotFound → o = None end).
  { eapply spec_weaken; [by apply (spec_stat_recorded serialize_journal writable d env Hquiet n path Hpath)|done|].
    intros fs [[m|e]|]; naive_solver. }
  intros [m|e].
  - unfold validate_journal_metadata.
    destruct (untrusted_file m); [apply spec_err_bind; naive_solver|]. apply spec_ok_bind.
    destruct (MAX_JOURNAL_BYTES <? m_len m)%Z; [apply spec_err_bind; naive_solver|]. apply spec_ok_bind.
    apply spec_pure. intros Ho. destruct o as [s|]; [|done].
    eapply spec_bind with (R := λ fs r, journal d n (Some s :: ss) fs ∧
      match r with Some (Ok b) => b = serialize_journal s | _ => True end); [| |naive_solver..].
    + apply spec_map_err. eapply spec_weaken;
        [by apply (spec_read_recorded serialize_journal writable d env Hquiet n path Hpath)|done|]. intros fs [[t|e]|]; naive_solver.
    + intros bytes. apply spec_lift. intros fs [Hp ->]. split; [exact Hp|].
      destruct (recorded_ok _ _ _ _ _ _ s Hp) as [Hval Hutf]; [left|].
      by rewrite parse_serialize_journal, Hval.
  - destruct (io_kind e); [|apply spec_lift; naive_solver..].
    apply spec_ret. intros fs [Hp Hn]. split; [exact Hp|]. by rewrite Hn.
Qed.

Lemma spec_generation ss :
  spec env (journal d n ss) (UpdateJournalStore_generation path) (λ fs _, journal d n ss fs).
Proof.
  apply recorded_keep. intros vs. unfold UpdateJournalStore_generation.
  apply spec_keep_bind; [by apply spec_keep_map_err, (spec_keep_stat d)| |done..]. intros m.
  apply spec_keep_bind; [by apply spec_lift| |done..]. intros [].
  apply spec_keep_bind; [by apply spec_lift| |done..]. intros ms.
  apply spec_keep_bind; [by apply spec_lift| |done..]. intros t. by apply spec_ret.
Qed.

Lemma spec_persist s ss :
  writable s →
  spec env (journal d n ss) (UpdateJournalStore_persist path s)
    (persisted serialize_journal writable d n s ss).
Proof. intros Hs. by apply spec_write_recorded. Qed.
End store.

(** ** Committing *)

(** What the store of a coordinator may hold after a commit of [s], from
    [ss]: what it held, or that with [s] in front, or [s] alone. *)
Inductive grown (s : UpdateState) (ss : list (option UpdateState)) : list (option UpdateState) → Prop :=
| grown_same : grown s ss ss
| grown_pending : grown s ss (Some s :: ss)
| grown_settled : grown s ss [Some s].

Section committing.
Context (d : Key) (env : FsEnv) (Hquiet : quiet d env) (n : string) (path : Path).
Context (Hpath : located path d n).

(** The outcome of a method on a coordinator [c] that may write [s]. *)
Definition outcome (c : UpdateCoordinator) (s : UpdateState) (o : option UpdateState)
    (ss : list (option UpdateState)) (fs : FS) (r : option (UpdateCoordinator * result UpdateError unit)) :
    Prop :=
  match r with
  | Some (c', Ok _) =>
      o = Some (uc_state c) ∧ (∃ g, c' = advance_to s g c) ∧ journal d n [Some s] fs
  | Some (c', Err _) =>
      (c' = c ∨ ∃ t, c' = poison t c) ∧
      (journal d n (o :: ss) fs ∨
       loaded o = uc_state c ∧ ∃ ss', grown s (o :: ss) ss' ∧ journal d n ss' fs)
  | None =>
      journal d n (o :: ss) fs ∨
      loaded o = uc_state c ∧ ∃ ss', grown s (o :: ss) ss' ∧ journal d n ss' fs
  end.

Definition mspec (P : FS → Prop) {A} (m : Method A) (c : UpdateCoordinator)
    (Q : FS → option (UpdateCoordinator * result UpdateError A) → Prop) : Prop :=
  ∀ w, P (w_fs w) → Q (w_fs (m c env w).1) (m c env w).2.

Lemma mspec_pure {A} (φ : Prop) (m : Method A) c P Q :
  (φ → mspec P m c Q) → mspec (λ fs, P fs ∧ φ) m c Q.
Proof. intros Hm w [Hw Hφ]. by apply Hm. Qed.

Lemma mspec_bind {A B} (m : Method A) (f : A → Method B) c P R Q :
  mspec P m c R →
  (∀ a c', mspec (λ fs, R fs (Some (c', Ok a))) (f a) c' Q) →
  (∀ fs c' e, R fs (Some (c', Err e)) → Q fs (Some (c', Err e))) →
  (∀ fs, R fs None → Q fs None) →
  mspec P (m ≫= f) c Q.
Proof.
  intros Hm Hf He Hk w Hw. specialize (Hm w Hw). cbv [mbind method_bind].
  destruct (m c env w) as [w' [[c' [a|e]]|]]; cbn in *; [|by apply He|by apply Hk].
  by apply (Hf a c' w').
Qed.

(** Steps of a method that call the system and keep an assertion. *)
Lemma mspec_io {A B} (m : IO UpdateError A) (f : A → Method B) c P (R : A → FS → Prop) Q :
  spec env P m (λ fs r, match r with Some (Ok a) => R a fs | _ => P fs end) →
  (∀ a, mspec (R a) (f a) c Q) →
  (∀ fs e, P fs → Q fs (Some (c, Err e))) → (∀ fs, P fs → Q fs None) →
  mspec P (io m ≫= f) c Q.
Proof.
  intros Hm Hf He Hk w Hw. specialize (Hm w Hw). cbv [mbind method_bind io].
  destruct (m env w) as [w' [[a|e]|]]; cbn in *; [|by apply He|by apply Hk].
  by apply (Hf a w').
Qed.

Lemma mspec_io_keep {A B} (m : IO UpdateError A) (f : A → Method B) c P Q :
  spec env P m (λ fs _, P fs) → (∀ a, mspec P (f a) c Q) →
  (∀ fs e, P fs → Q fs (Some (c, Err e))) → (∀ fs, P fs → Q fs None) →
  mspec P (io m ≫= f) c Q.
Proof.
  intros Hm Hf He Hk. apply (mspec_io m f c P (λ _, P)); [|done..].
  eapply spec_weaken; [exact Hm|done|]. by intros fs [[|]|].
Qed.

Lemma mspec_check {A B} (r : result UpdateError A) (f : A → Method B) c P
    (Q : FS → option (UpdateCoordinator * result UpdateError B) → Prop) :
  (∀ a, r = Ok a → mspec P (f a) c Q) → (∀ fs e, P fs → Q fs (Some (c, Err e))) →
  mspec P (check r ≫= f) c Q.
Proof.
  intros Hf He w Hw. cbv [mbind method_bind check io io_lift]. destruct r as [a|e]; cbn; [|by apply He].
  by apply Hf.
Qed.

Lemma mspec_this {B} (f : UpdateCoordinator → Method B) c P Q :
  mspec P (f c) c Q → mspec P (this ≫= f) c Q.
Proof. intros Hf w Hw. by apply Hf. Qed.

Lemma mspec_usable {B} (f : unit → Method B) c P
    (Q : FS → option (UpdateCoordinator * result UpdateError B) → Prop) :
  (uc_durability_uncertain c = None → mspec P (f tt) c Q) →
  (∀ fs e, P fs → Q fs (Some (c, Err e))) →
  mspec P (ensure_usable ≫= f) c Q.
Proof.
  intros Hf He w Hw. cbv [mbind method_bind ensure_usable this].
  destruct (uc_durability_uncertain c) as [t|]; [by apply He|]. by apply Hf.
Qed.

(** Raising the error of a failed write. *)
Lemma handle_persist_failure_run (e : UpdateError) c w :
  ∃ c' e', (@handle_persist_failure unit e) c env w = (w, Some (c', Err e')) ∧
    (c' = c ∨ ∃ t, c' = poison t c).
Proof. destruct e; cbn; eauto 10. Qed.

Lemma spec_freshness issued started P :
  spec env P (validate_package_evidence_freshness issued started) (λ fs _, P fs).
Proof.
  unfold validate_package_evidence_freshness, unix_now_ms.
  apply spec_keep_bind; [|intros now; by apply spec_lift|done..].
  apply spec_time_bind. intros t. by apply spec_lift.
Qed.

Lemma spec_snapshot_freshness issued started P :
  spec env P (validate_snapshot_evidence_freshness issued started) (λ fs _, P fs).
Proof.
  unfold validate_snapshot_evidence_freshness, unix_now_ms.
  apply spec_keep_bind; [|intros now; by apply spec_lift|done..].
  apply spec_time_bind. intros t. by apply spec_lift.
Qed.

Lemma mspec_persist c s o ss :
  uc_store c = path → writable s → loaded o = uc_state c → o = Some (uc_state c) →
  mspec (journal d n (o :: ss))
    (r ← io_result (UpdateJournalStore_persist (uc_store c) s);
     match r with
     | Ok _ =>
         g ← io_result (UpdateJournalStore_generation (uc_store c));
         match g with
         | Ok generation => assign (advance_to s generation c)
         | Err error =>
             handle_persist_failure (DurabilityUncertain (unobserved_text +:+ UpdateError_display error))
         end
     | Err error => handle_persist_failure error
     end) c (outcome c s o ss).
Proof.
  intros -> Hs Hl Ho w Hw. cbv [mbind method_bind io_result].
  pose proof (spec_persist d env Hquiet n path Hpath s (o :: ss) Hs w Hw) as Hp.
  destruct (UpdateJournalStore_persist path s env w) as [w1 [[[]|e]|]]; cbn in Hp.
  - pose proof (spec_generation d env Hquiet n path [Some s] w1 Hp) as Hg.
    cbn in *. destruct (UpdateJournalStore_generation path env w1) as [w2 [[g|e]|]]; cbn in *.
    + split_and!; eauto.
    + split; [by right; eauto|]. right. split; [done|]. exists [Some s]. split; [constructor|done].
    + right. split; [done|]. exists [Some s]. split; [constructor|done].
  - destruct (handle_persist_failure_run e c w1) as (c' & e' & E & Hc). cbn.
    rewrite E. cbn. split; [done|]. destruct Hp as [[_ Hp]|[_ Hp]]; [by left|].
    right. split; [done|]. eexists. split; [apply grown_pending|done].
  - destruct Hp as [Hp|Hp]; [by left|]. right. split; [done|]. eexists. split; [apply grown_pending|done].
Qed.

Lemma mspec_commit c s issued o ss :
  uc_store c = path → (validate_persisted_state s = Ok tt → writable s) →
  us_update_id (uc_state c) ≠ None →
  mspec (journal d n (o :: ss)) (commit_with_validation s issued) c (outcome c s o ss).
Proof.
  intros Hc Hs Hid. unfold commit_with_validation.
  assert (∀ fs e, journal d n (o :: ss) fs → outcome c s o ss fs (Some (c, Err e))) as He.
  { intros fs e Hj. split; [by left|by left]. }
  assert (∀ fs, journal d n (o :: ss) fs → outcome c s o ss fs None) as Hk by (intros; by left).
  apply mspec_usable; [|done]. intros _. apply mspec_check; [|done]. intros [] Hv%Hs.
  apply mspec_this. rewrite Hc.
  apply mspec_io_keep; [by apply spec_acquire| |done..]. intros _.
  apply (mspec_io _ _ c _ (λ durable fs, journal d n (o :: ss) fs ∧ durable = loaded o)); [| |done..].
  { eapply spec_weaken; [by apply (spec_load d env Hquiet n path Hpath)|done|].
    intros fs [[st|e]|]; naive_solver. }
  intros durable. apply mspec_pure. intros ->.
  apply mspec_io_keep; [by apply spec_generation| |done..]. intros g.
  destruct (negb _ || _) eqn:Hstale.
  { intros w Hw. split; [right; by eexists|]. by left. }
  apply orb_false_iff in Hstale as [Hd _]. apply negb_false_iff, bool_decide_eq_true in Hd.
  assert (o = Some (uc_state c)) as Ho.
  { destruct o as [st|]; cbn in Hd; [by rewrite Hd|]. by rewrite <- Hd in Hid. }
  pose proof (mspec_persist c s o ss Hc Hv Hd Ho) as Hp. rewrite Hc in Hp. destruct issued as [i|].
  - apply mspec_io_keep; [by apply spec_freshness| |done..]. by intros [].
  - exact Hp.
Qed.
End committing.

(** * Runs of update coordinators

    A machine with one journal and any number of coordinators on it: opened,
    used, killed or dropped at any point, with other processes and power losses
    in between.  The log records what each operation was called with and how it
    ended. *)

(** ** Operations *)
Inductive UpdateOp :=
| OpTransition (next : UpdateStage)
| OpRecordSnapshot (receipt : SnapshotReceipt)
| OpPrepare (transaction_id : string)
| OpDispatch
| OpVerified (receipt : PackageVerificationReceipt)
| OpRecovery (reason : string).

Definition run_op (op : UpdateOp) : Method unit :=
  match op with
  | OpTransition next => UpdateCoordinator_transition next
  | OpRecordSnapshot receipt => record_snapshot receipt
  | OpPrepare transaction_id => prepare_package_transaction transaction_id
  | OpDispatch => mark_dispatch_started
  | OpVerified receipt => mark_package_verified receipt
  | OpRecovery reason => UpdateCoordinator_require_recovery reason
  end.

(** The arguments are strings of Rust. *)
Definition op_strings (op : UpdateOp) : Prop :=
  match op with
  | OpRecordSnapshot r =>
      utf8_valid (sr_snapshot_id r) = true ∧ utf8_valid (sr_receipt_id r) = true
  | OpVerified r => utf8_valid (pr_receipt_id r) = true
  | OpPrepare t => utf8_valid t = true
  | OpRecovery reason => utf8_valid reason = true
  | OpTransition _ | OpDispatch => True
  end.

(** The state an operation tries to commit. *)
Definition moves (op : UpdateOp) (c : UpdateCoordinator) (s : UpdateState) : Prop :=
  match op with
  | OpTransition next => UpdateState_transition next (uc_state c) = Ok s
  | OpRecordSnapshot r =>
      us_stage (uc_state c) = SnapshotStage ∧
      s = with_snapshot (sr_snapshot_id r) (sr_receipt_id r) (uc_state c)
  | OpPrepare t =>
      us_stage (uc_state c) = SnapshotStage ∧ snapshot_policy_satisfied c = true ∧
      ∃ t', normalize_identifier "transaction id" t = Ok t' ∧
        s = with_package (Some t') None (with_stage PackageTransaction PreparedEffect (uc_state c))
  | OpDispatch =>
      us_stage (uc_state c) = PackageTransaction ∧ us_external_effect (uc_state c) = PreparedEffect ∧
      snapshot_policy_satisfied c = true ∧
      s = with_stage (us_stage (uc_state c)) DispatchStarted (uc_state c)
  | OpVerified r =>
      us_stage (uc_state c) = PackageTransaction ∧ us_external_effect (uc_state c) = DispatchStarted ∧
      us_transaction_id (uc_state c) = Some (pr_transaction_id r) ∧
      pr_update_id r = uc_update_id c ∧ pr_target_id r = uc_target_id c ∧
      pr_dispatch_generation r = jg_token (uc_journal_generation c) ∧
      s = with_package (us_transaction_id (uc_state c)) (Some (pr_receipt_id r))
            (with_stage (us_stage (uc_state c)) VerifiedEffect (uc_state c))
  | OpRecovery reason => UpdateState_require_recovery reason (uc_state c) = Ok s
  end.

(** ** What a move does *)
Lemma reject_ok_negb {E} (b : bool) (e : E) u : reject_if (negb b) e = Ok u → b = true.
Proof. by intros ?%reject_if_Ok%negb_false_iff. Qed.

Lemma transition_spec next s s' :
  UpdateState_transition next s = Ok s' →
  next ≠ RecoveryRequiredStage ∧ valid_transition (us_stage s) next = true ∧
  s' = with_stage next (if bool_decide (next = Migrations) then NoEffect else us_external_effect s) s ∧
  (us_stage s = PackageTransaction → us_external_effect s = VerifiedEffect ∧
     us_verification_receipt_id s ≠ None).
Proof.
  unfold UpdateState_transition. case_bool_decide as Hn; [done|].
  destruct (valid_transition (us_stage s) next) eqn:Hv; cbn [negb]; [|done].
  destruct (_ && _) eqn:Hb; [done|]. intros [= <-]. split_and!; [done..|]. intros Hp.
  rewrite Hp, bool_decide_eq_true_2 in Hb by done.
  assert (next = Migrations) as -> by (rewrite Hp in Hv; by destruct next).
  cbn in Hb. apply orb_false_iff in Hb as [He Hr]. apply negb_false_iff, bool_decide_eq_true in He.
  split; [done|]. by destruct (us_verification_receipt_id s).
Qed.

Lemma recovery_spec reason s s' :
  UpdateState_require_recovery reason s = Ok s' →
  ∃ t, t = str_trim reason ∧
    s' = with_stage RecoveryRequiredStage NoEffect (with_reason t s).
Proof.
  unfold UpdateState_require_recovery. intros (t & Ht & [= <-])%bind_Ok. exists t. split; [|done].
  unfold normalize_text in Ht. destruct (_ || _); [done|]. by injection Ht.
Qed.

Lemma normalize_identifier_Ok label v t :
  normalize_identifier label v = Ok t → t = str_trim v ∧ forallb identifier_byte (codes t) = true.
Proof.
  unfold normalize_identifier. destruct (_ || _) eqn:E; [done|]. intros [= <-]. split; [done|].
  apply orb_false_iff in E as [_ E]. by apply negb_false_iff in E.
Qed.

(** ** Progress *)

(** How far an update has come; recovery is the end. *)
Definition rank (s : UpdateState) : nat :=
  match us_stage s, us_external_effect s with
  | AcquireLock, _ => 0
  | Preflight, _ => 1
  | DiskSpace, _ => 2
  | SnapshotStage, _ => 3
  | PackageTransaction, PreparedEffect => 4
  | PackageTransaction, DispatchStarted => 5
  | PackageTransaction, _ => 6
  | Migrations, _ => 7
  | Reconcile, _ => 8
  | RestartAssessment, _ => 9
  | VerifyStage, _ => 10
  | Complete, _ => 11
  | RecoveryRequiredStage, _ => 12
  end%nat.

(** [t] is [s] or what [s] became: it has come as far, belongs to the same
    update, and keeps the transaction and the receipt of [s]. *)
Record later (s t : UpdateState) : Prop := {
  later_rank : (rank s ≤ rank t)%nat;
  later_update : us_update_id t = us_update_id s;
  later_target : us_target_id t = us_target_id s;
  later_transaction : us_transaction_id s ≠ None → us_transaction_id t = us_transaction_id s;
  later_receipt : us_verification_receipt_id s ≠ None →
    us_verification_receipt_id t = us_verification_receipt_id s;
}.

#[export] Instance later_preorder : PreOrder later.
Proof.
  split.
  - intros s. by split.
  - intros s t u [H1 H2 H3 H4 H5] [K1 K2 K3 K4 K5]. split; [lia|congruence..| |].
    + intros Hn. rewrite K4; [by apply H4|]. by rewrite H4.
    + intros Hn. rewrite K5; [by apply H5|]. by rewrite H5.
Qed.

(** The rules that [validate_persisted_state] enforces between stage and
    package identities. *)
Lemma valid_before_package s :
  validate_persisted_state s = Ok tt → stage_before_package (us_stage s) = true →
  us_transaction_id s = None ∧ us_verification_receipt_id s = None.
Proof.
  unfold validate_persisted_state. intros H Hb.
  do 11 (apply bind_Ok in H as (? & _ & H)). apply bind_Ok in H as (? & H & _).
  rewrite Hb in H. apply reject_if_Ok in H. cbn in H. apply orb_false_iff in H as [Ht Hr].
  by destruct (us_transaction_id s), (us_verification_receipt_id s).
Qed.

Lemma valid_after_package s :
  validate_persisted_state s = Ok tt → stage_after_package (us_stage s) = true →
  us_verification_receipt_id s ≠ None.
Proof.
  unfold validate_persisted_state. intros H Hb.
  do 12 (apply bind_Ok in H as (? & _ & H)). apply bind_Ok in H as (? & H & _).
  rewrite Hb in H. apply reject_if_Ok in H. cbn in H. apply orb_false_iff in H as [_ Hr].
  by destruct (us_verification_receipt_id s).
Qed.

Lemma valid_package_receipt s :
  validate_persisted_state s = Ok tt → us_stage s = PackageTransaction →
  us_external_effect s = DispatchStarted ∨ us_external_effect s = PreparedEffect →
  us_verification_receipt_id s = None.
Proof.
  unfold validate_persisted_state. intros H Hst He.
  do 10 (apply bind_Ok in H as (? & _ & H)). apply bind_Ok in H as (? & H & _).
  unfold validate_package_stage in H. rewrite Hst, bool_decide_eq_true_2 in H by done.
  apply bind_Ok in H as (? & _ & H).
  destruct He as [He|He]; rewrite He in H; apply reject_if_Ok in H;
    by destruct (us_verification_receipt_id s).
Qed.

Lemma valid_effect s :
  validate_persisted_state s = Ok tt → us_stage s ≠ PackageTransaction → us_external_effect s = NoEffect.
Proof.
  unfold validate_persisted_state. intros H Hst.
  do 10 (apply bind_Ok in H as (? & _ & H)). apply bind_Ok in H as (? & H & _).
  unfold validate_package_stage in H. rewrite bool_decide_eq_false_2 in H by done.
  by apply reject_if_Ok, negb_false_iff, bool_decide_eq_true in H.
Qed.

Lemma rank_bound s : (rank s ≤ 12)%nat.
Proof. unfold rank. destruct (us_stage s), (us_external_effect s); lia. Qed.

Lemma moves_later op c s :
  moves op c s → validate_persisted_state (uc_state c) = Ok tt → later (uc_state c) s.
Proof.
  intros Hm Hv. destruct op; cbn in Hm.
  - apply transition_spec in Hm as (_ & Ht & -> & Hp). split; [|done..].
    unfold rank. cbn. destruct (us_stage (uc_state c)) eqn:E, next; try discriminate Ht; try (cbn; lia).
    + destruct (bool_decide _), (us_external_effect (uc_state c)); lia.
    + destruct (us_external_effect (uc_state c)); cbn; lia.
  - destruct Hm as (Hs & ->). split; cbn; [|done..]. unfold rank. cbn. lia.
  - destruct Hm as (Hs & _ & t' & _ & ->). destruct (valid_before_package _ Hv) as [Ht Hr]; [by rewrite Hs|].
    split; cbn; [|done..| |done]; [unfold rank; rewrite Hs; cbn; lia|by rewrite Ht].
  - destruct Hm as (Hs & He & _ & ->). split; cbn; [|done..]. unfold rank. cbn. rewrite Hs, He. lia.
  - destruct Hm as (Hs & He & _ & _ & _ & _ & ->). split; cbn; [|done..|].
    + unfold rank. cbn. rewrite Hs, He. lia.
    + rewrite (valid_package_receipt _ Hv Hs) by (by left). done.
  - apply recovery_spec in Hm as (t & _ & ->). split; [|done..]. apply rank_bound.
Qed.

Lemma moves_strings op c s :
  moves op c s → op_strings op → utf8_fields (uc_state c) → utf8_fields s.
Proof.
  intros Hm Ho [H1 H2 H3 H4 H5 H6 H7]. destruct op; cbn in Hm, Ho.
  - apply transition_spec in Hm as (_ & _ & -> & _). by split.
  - destruct Hm as (_ & ->), Ho. by split.
  - destruct Hm as (_ & _ & t' & [-> _]%normalize_identifier_Ok & ->). split; try done.
    cbn. by apply utf8_valid_trim.
  - destruct Hm as (_ & _ & _ & ->). by split.
  - destruct Hm as (_ & _ & _ & _ & _ & _ & ->). by split.
  - apply recovery_spec in Hm as (t & -> & ->). split; try done. cbn. by apply utf8_valid_trim.
Qed.

(** ** The outcome of an operation *)
Section operations.
Context (d : Key) (n : string) (path : Path) (Hpath : located path d n).

Record coordinator_ok (c : UpdateCoordinator) : Prop := {
  ok_store : uc_store c = path;
  ok_state : writable (uc_state c);
  ok_update : us_update_id (uc_state c) = Some (uc_update_id c);
  ok_target : us_target_id (uc_state c) = Some (uc_target_id c);
}.

(** An operation fails before it writes, or tries to commit its move. *)
Definition op_outcome (op : UpdateOp) (c : UpdateCoordinator) (o : option UpdateState)
    (ss : list (option UpdateState)) (fs : FS) (r : option (UpdateCoordinator * result UpdateError unit)) :
    Prop :=
  (r = None ∨ ∃ e, r = Some (c, Err e)) ∧ journal d n (o :: ss) fs ∨
  ∃ s, moves op c s ∧ writable s ∧ outcome d n c s o ss fs r.

Section one.
Context (env : FsEnv) (Hquiet : quiet d env) (op : UpdateOp) (c : UpdateCoordinator).
Context (Hc : coordinator_ok c) (Hop : op_strings op) (o : option UpdateState) (ss : list (option UpdateState)).

Lemma mspec_policy {B} (f : unit → Method B) P
    (Q : FS → option (UpdateCoordinator * result UpdateError B) → Prop) :
  (snapshot_policy_satisfied c = true → mspec env P (f tt) c Q) →
  (∀ fs e, P fs → Q fs (Some (c, Err e))) →
  mspec env P (ensure_snapshot_policy_satisfied ≫= f) c Q.
Proof.
  intros Hf He w Hw. cbv [mbind method_bind ensure_snapshot_policy_satisfied this check io io_lift].
  destruct (snapshot_policy_satisfied c); cbn; [by apply Hf|by apply He].
Qed.

Lemma fails_early fs e : journal d n (o :: ss) fs → op_outcome op c o ss fs (Some (c, Err e)).
Proof. intros Hj. left. eauto. Qed.

Lemma mspec_commit_move s issued :
  moves op c s →
  mspec env (journal d n (o :: ss)) (commit_with_validation s issued) c (op_outcome op c o ss).
Proof.
  intros Hm w Hw. destruct (decide (validate_persisted_state s = Ok tt)) as [Hv|Hv].
  - right. exists s. assert (writable s) as Hs.
    { split; [done|]. eapply moves_strings; [done..|]. apply Hc. }
    split_and!; [done..|]. eapply mspec_commit; [done..|apply Hc|done| |exact Hw].
    by rewrite (ok_update c Hc).
  - left. unfold commit_with_validation, ensure_usable, this. cbv [mbind method_bind].
    destruct (uc_durability_uncertain c); [by cbn; eauto|]. cbn.
    destruct (validate_persisted_state s) as [[]|e]; [done|]. cbn. eauto.
Qed.
End one.

Lemma run_op_outcome env op c o ss :
  quiet d env → coordinator_ok c → op_strings op →
  mspec env (journal d n (o :: ss)) (run_op op) c (op_outcome op c o ss).
Proof.
  intros Hquiet Hc Hop.
  pose proof (fails_early op c o ss) as Hf.
  pose proof (mspec_commit_move env Hquiet op c Hc Hop o ss) as Hm.
  assert (∀ fs, journal d n (o :: ss) fs → op_outcome op c o ss fs None) as Hk by (intros; left; eauto).
  destruct op; cbn [run_op]; (apply mspec_usable; [|exact Hf]); intros _; apply mspec_this.
  - apply mspec_check; [|exact Hf]. intros s Hs. exact (Hm s None Hs).
  - apply mspec_check; [|exact Hf]. intros [] H1%reject_ok_negb%bool_decide_eq_true.
    apply mspec_check; [|exact Hf]. intros [] _.
    apply mspec_io_keep; [apply spec_snapshot_freshness| |exact Hf|exact Hk].
    intros []. apply (Hm _ None). by split.
  - apply mspec_check; [|exact Hf]. intros [] H1%reject_ok_negb%bool_decide_eq_true.
    apply mspec_policy; [|exact Hf]. intros Hpol.
    apply mspec_check; [|exact Hf]. intros t Ht. apply (Hm _ None). split_and!; eauto.
  - apply mspec_check; [|exact Hf].
    intros [] H1%reject_if_Ok. apply orb_false_iff in H1 as [H1 _].
    apply orb_false_iff in H1 as [H1 _]. apply orb_false_iff in H1 as [H1 H2].
    apply negb_false_iff, bool_decide_eq_true in H1, H2.
    apply mspec_policy; [|exact Hf]. intros Hpol. apply (Hm _ None). by split_and!.
  - apply mspec_check; [|exact Hf]. intros [] H1%reject_ok_negb.
    unfold at_dispatch in H1. apply andb_prop in H1 as [H1 H2].
    apply bool_decide_eq_true in H1, H2.
    apply mspec_check; [|exact Hf]. intros t Ht%ok_or_Ok.
    apply mspec_check; [|exact Hf]. intros [] H3%reject_if_Ok.
    apply orb_false_iff in H3 as [H3 H6]. apply orb_false_iff in H3 as [H3 H5].
    apply orb_false_iff in H3 as [H3 H4].
    apply negb_false_iff, bool_decide_eq_true in H3, H4, H5, H6.
    apply mspec_io_keep; [apply spec_freshness| |exact Hf|exact Hk].
    intros []. apply (Hm _ (Some (pr_issued_unix_ms receipt))). by subst.
  - apply mspec_check; [|exact Hf]. intros s Hs. exact (Hm s None Hs).
Qed.
End operations.

(** ** Opening *)
Section opening.
Context (d : Key) (n : string) (path : Path) (Hpath : located path d n).
Context (env : FsEnv) (Hquiet : quiet d env).

(** What a journal holds after an attempt to open it. *)
Definition open_outcome (o : option UpdateState) (ss : list (option UpdateState)) (fs : FS)
    (r : option (result UpdateError UpdateCoordinator)) : Prop :=
  match r with
  | Some (Ok c) =>
      coordinator_ok path c ∧ uc_durability_uncertain c = None ∧
      (o = Some (uc_state c) ∧ journal d n (o :: ss) fs ∨
       o = None ∧ rank (uc_state c) = 0%nat ∧ us_verification_receipt_id (uc_state c) = None ∧
       journal d n [Some (uc_state c)] fs)
  | _ =>
      journal d n (o :: ss) fs ∨
      o = None ∧ ∃ s ss', rank s = 0%nat ∧ us_verification_receipt_id s = None ∧
        grown s (o :: ss) ss' ∧ journal d n ss' fs
  end.

Lemma identifier_ascii s : forallb identifier_byte (codes s) = true → utf8_valid s = true.
Proof.
  intros H. apply utf8_valid_ascii. induction (codes s) as [|c l IH]; [done|]. cbn in *.
  apply andb_prop in H as [Hc Hl]. rewrite IH by done. rewrite andb_true_r.
  unfold identifier_byte in Hc. unfold is_ascii_code. apply N.ltb_lt.
  repeat (apply orb_prop in Hc as [Hc|Hc]); try (apply N.eqb_eq in Hc; lia);
    apply andb_prop in Hc as [_ Hc%N.leb_le]; lia.
Qed.

Lemma writable_binding u t :
  utf8_valid u = true → utf8_valid t = true →
  validate_persisted_state (with_binding u t UpdateState_default) = Ok tt →
  writable (with_binding u t UpdateState_default).
Proof. intros Hu Ht Hv. split; [done|]. by split. Qed.

Lemma writable_bound s : writable s → none (us_update_id s) && none (us_target_id s) = false.
Proof.
  intros [Hv _]. unfold validate_persisted_state in Hv. apply bind_Ok in Hv as (u & Hu%ok_or_Ok & _).
  by rewrite Hu.
Qed.

Lemma journal_writable s ss fs : journal d n (Some s :: ss) fs → writable s.
Proof.
  intros (vs & _ & Hh). inversion Hh as [|v ? ? ? Hv _]; subst. destruct v as [vw|]; [|done].
  apply Hv.
Qed.

(** The coordinator made at the end of [open]. *)
Definition new_coordinator (policy : UpdatePolicy) (u t : string) (s : UpdateState)
    (g : JournalGeneration) : UpdateCoordinator :=
  {| uc_state := s; uc_policy := policy; uc_store := path; uc_update_id := u;
     uc_target_id := t; uc_journal_generation := g; uc_durability_uncertain := None |}.

Lemma spec_open_end policy u t s ss' (Q : FS → option (result UpdateError UpdateCoordinator) → Prop) :
  (∀ fs g, journal d n ss' fs → Q fs (Some (Ok (new_coordinator policy u t s g)))) →
  (∀ fs e, journal d n ss' fs → Q fs (Some (Err e))) → (∀ fs, journal d n ss' fs → Q fs None) →
  spec env (journal d n ss')
    (_ ← io_lift (validate_persisted_state s);
     journal_generation ← UpdateJournalStore_generation path;
     mret (new_coordinator policy u t s journal_generation)) Q.
Proof.
  intros Hok He Hk.
  apply spec_keep_bind; [by apply spec_lift| |done..]. intros [].
  apply spec_keep_bind; [by apply spec_generation| |done..]. intros g.
  apply spec_ret. intros fs Hj. by apply Hok.
Qed.

(** The binding of a journal that is not there yet. *)
Lemma spec_open_bind u t o ss (B : UpdateState → IO UpdateError UpdateCoordinator)
    (Q : FS → option (result UpdateError UpdateCoordinator) → Prop) :
  let s := with_binding u t UpdateState_default in
  utf8_valid u = true → utf8_valid t = true →
  spec env (journal d n [Some s]) (B s) Q →
  (∀ fs e ss', grown s (o :: ss) ss' → journal d n ss' fs → Q fs (Some (Err e))) →
  (∀ fs ss', grown s (o :: ss) ss' → journal d n ss' fs → Q fs None) →
  spec env (journal d n (o :: ss))
    (s ← (_ ← io_lift (validate_persisted_state s); _ ← UpdateJournalStore_persist path s; mret s);
     B s) Q.
Proof.
  intros s Hu Ht HB He Hk.
  destruct (validate_persisted_state s) as [[]|e] eqn:Hv; cycle 1.
  { intros w Hw. cbn. eapply He; [constructor|done]. }
  eapply spec_bind with (R := λ fs r, match r with
    | Some (Ok s') => journal d n [Some s] fs ∧ s' = s
    | _ => ∃ ss', grown s (o :: ss) ss' ∧ journal d n ss' fs end); [| |naive_solver..].
  - apply spec_ok_bind. eapply spec_bind; [by apply (spec_persist d env Hquiet n path Hpath s), writable_binding|..].
    + intros []. apply spec_ret. naive_solver.
    + intros fs e [[_ Hj]|[_ Hj]]; eexists; (split; [|done]); constructor.
    + intros fs [Hj|Hj]; eexists; (split; [|done]); constructor.
  - intros s'. apply spec_pure. by intros ->.
Qed.

Lemma spec_open policy u t o ss :
  spec env (journal d n (o :: ss)) (UpdateCoordinator_open path policy u t) (open_outcome o ss).
Proof.
  assert (∀ fs e, journal d n (o :: ss) fs → open_outcome o ss fs (Some (Err e))) as He by (intros; by left).
  assert (∀ fs, journal d n (o :: ss) fs → open_outcome o ss fs None) as Hk by (intros; by left).
  unfold UpdateCoordinator_open.
  destruct (normalize_identifier "update id" u) as [u'|e] eqn:Hu; [|by apply spec_err_bind; auto].
  destruct (normalize_identifier "update target id" t) as [t'|e] eqn:Ht; [|by apply spec_ok_bind, spec_err_bind; auto].
  apply normalize_identifier_Ok in Hu as [_ Hu%identifier_ascii], Ht as [_ Ht%identifier_ascii].
  do 2 apply spec_ok_bind. apply spec_keep_bind; [by apply spec_acquire| |auto..]. intros _.
  eapply spec_bind with (R := λ fs r, journal d n (o :: ss) fs ∧
    match r with Some (Ok s) => s = loaded o | _ => True end); [by apply spec_load| |naive_solver..].
  intros s. apply spec_pure. intros ->. destruct o as [s|]; cbn [loaded default].
  - eapply spec_weaken with (P' := λ fs, journal d n (Some s :: ss) fs ∧ writable s);
      [|intros fs Hj; split; [done|by eapply journal_writable]|intros ?? Hq; exact Hq].
    apply spec_pure. intros Hs.
    rewrite writable_bound by done. destruct (negb _ || _) eqn:Hb; [by apply spec_err_bind; auto|].
    apply orb_false_iff in Hb as [Hb1 Hb2]. apply negb_false_iff, bool_decide_eq_true in Hb1, Hb2.
    apply (spec_open_end policy u' t' s (Some s :: ss)); [|auto..].
    intros fs g Hj. split_and!; [split; done|done|]. left. split; [done|exact Hj].
  - cbn [none us_update_id us_target_id UpdateState_default andb].
    rewrite (bool_decide_eq_true_2 (UpdateState_default = UpdateState_default)) by done.
    cbn [negb reject_if].
    intros w Hw. apply (spec_open_bind u' t' None ss (λ s, _ ← io_lift (validate_persisted_state s);
       journal_generation ← UpdateJournalStore_generation path;
       mret (new_coordinator policy u' t' s journal_generation))
       (open_outcome None ss) Hu Ht); [| | |exact Hw].
    + apply spec_open_end.
      * intros fs g Hj. pose proof (journal_writable _ _ _ Hj). split_and!; [split; done|done|].
        right. split_and!; [done..|exact Hj].
      * intros fs e Hj. right. split; [done|]. exists (with_binding u' t' UpdateState_default), [Some (with_binding u' t' UpdateState_default)].
        split_and!; [done..|constructor|exact Hj].
      * intros fs Hj. right. split; [done|]. exists (with_binding u' t' UpdateState_default), [Some (with_binding u' t' UpdateState_default)].
        split_and!; [done..|constructor|exact Hj].
    + intros fs e ss' Hg Hj. right. split; [done|].
      by exists (with_binding u' t' UpdateState_default), ss'.
    + intros fs ss' Hg Hj. right. split; [done|].
      by exists (with_binding u' t' UpdateState_default), ss'.
Qed.
End opening.
