(* ===== verification/UpdateSafety.v ===== *)
(** * Safety of updates

    The theorems about a machine with one update journal: acknowledged progress
    survives crashes, power loss and competing coordinators; a package
    transaction is dispatched at most once; and an update moves past its
    package transaction only on a receipt bound to it. *)

From Stdlib Require Import ZArith Lia Ascii.
From stdpp Require Import base numbers gmap strings list fin_maps sorting relations.
From S2P Require Import Prelude Text Fields Paths Files ControlFiles FileFacts.
From S2P Require Import ControlFacts Update UpdateCoordinator.
From S2P Require Import UpdateSteps.

Set Default Goal Selector "!".

(** ** The machine *)

(** One operation: what was called, on which coordinator, and how it ended
    ([None]: the process was killed). *)
Record LogEntry := {
  le_op : UpdateOp;
  le_on : UpdateCoordinator;
  le_result : option (UpdateCoordinator * result UpdateError unit);
}.

Record Machine := {
  mc_fs : FS;
  mc_coordinators : list UpdateCoordinator;
  mc_log : list LogEntry;
}.

Section machine.
Context (d : Key) (n : string) (path : Path).

Definition survivor {A B} (r : option (A * B)) : list A :=
  match r with Some (c, _) => [c] | None => [] end.
Definition opened {E A} (r : option (result E A)) : list A :=
  match r with Some (Ok c) => [c] | _ => [] end.

Inductive machine_step : Machine → Machine → Prop :=
| step_open m env calls policy u t w r :
    quiet d env →
    UpdateCoordinator_open path policy u t env {| w_fs := mc_fs m; w_calls := calls |} = (w, r) →
    machine_step m {| mc_fs := w_fs w; mc_coordinators := opened r ++ mc_coordinators m;
                      mc_log := mc_log m |}
| step_op m env calls op before c after w r :
    quiet d env → op_strings op → mc_coordinators m = before ++ c :: after →
    run_op op c env {| w_fs := mc_fs m; w_calls := calls |} = (w, r) →
    machine_step m {| mc_fs := w_fs w; mc_coordinators := before ++ survivor r ++ after;
                      mc_log := {| le_op := op; le_on := c; le_result := r |} :: mc_log m |}
| step_drop m before c after :
    mc_coordinators m = before ++ c :: after →
    machine_step m {| mc_fs := mc_fs m; mc_coordinators := before ++ after; mc_log := mc_log m |}
| step_others m fs :
    rely d (mc_fs m) fs →
    machine_step m {| mc_fs := fs; mc_coordinators := mc_coordinators m; mc_log := mc_log m |}
| step_power_loss m fs :
    power_loss (mc_fs m) fs →
    machine_step m {| mc_fs := fs; mc_coordinators := []; mc_log := mc_log m |}.

(** A machine whose control directory holds no journal yet. *)
Definition machine_initial (m : Machine) : Prop :=
  place d n [None] (mc_fs m) ∧ mc_coordinators m = [] ∧ mc_log m = [].

Definition machine_reachable (m : Machine) : Prop :=
  ∃ m0, machine_initial m0 ∧ rtc machine_step m0 m.

(** The state an entry of the log acknowledged. *)
Definition acknowledged (e : LogEntry) : option UpdateState :=
  match le_result e with Some (c, Ok _) => Some (uc_state c) | _ => None end.

Definition dispatch_acknowledged (e : LogEntry) : bool :=
  match le_op e with OpDispatch => some (acknowledged e) | _ => false end.

(** A receipt that verifies the package transaction of a state. *)
Definition verified_by (log : list LogEntry) (s : UpdateState) : Prop :=
  ∃ e receipt, e ∈ log ∧ le_op e = OpVerified receipt ∧
    us_verification_receipt_id s = Some (pr_receipt_id receipt) ∧
    us_transaction_id s = Some (pr_transaction_id receipt) ∧
    us_update_id s = Some (pr_update_id receipt) ∧
    us_target_id s = Some (pr_target_id receipt).
Definition justified (log : list LogEntry) (s : UpdateState) : Prop :=
  us_verification_receipt_id s ≠ None → verified_by log s.

(** ** The invariant *)
Record machine_ok (ss : list (option UpdateState)) (m : Machine) : Prop := {
  mo_journal : journal d n ss (mc_fs m);
  mo_coordinators c : c ∈ mc_coordinators m → coordinator_ok path c ∧ justified (mc_log m) (uc_state c);
  mo_acknowledged e s : e ∈ mc_log m → acknowledged e = Some s →
    ∀ x, x ∈ ss → ∃ t, x = Some t ∧ later s t;
  mo_justified x s : x ∈ ss → x = Some s → justified (mc_log m) s;
  mo_dispatched e s : e ∈ mc_log m → le_op e = OpDispatch → acknowledged e = Some s → rank s = 5%nat;
  mo_once : (length (filter dispatch_acknowledged (mc_log m)) ≤ 1)%nat;
}.

Lemma justified_mono log log' s : (∀ e, e ∈ log → e ∈ log') → justified log s → justified log' s.
Proof.
  intros Hl Hj Hn. destruct (Hj Hn) as (e & r & He & H). exists e, r. split; [by apply Hl|done].
Qed.

(** A candidate list after an operation or an opening. *)
Lemma grown_elem s ss ss' x : grown s ss ss' → x ∈ ss' → x = Some s ∨ x ∈ ss.
Proof.
  intros [] Hx; [by right|..].
  - apply elem_of_cons in Hx. tauto.
  - apply elem_of_cons in Hx as [->|Hx]; [by left|]. by apply elem_of_nil in Hx.
Qed.

Lemma moves_justified log op c s r :
  moves op c s → coordinator_ok path c → justified log (uc_state c) →
  validate_persisted_state (uc_state c) = Ok tt →
  justified ({| le_op := op; le_on := c; le_result := r |} :: log) s.
Proof.
  intros Hm Hc Hj Hv. assert (justified ({| le_op := op; le_on := c; le_result := r |} :: log) (uc_state c)) as Hj'.
  { eapply justified_mono; [|exact Hj]. intros e He. by right. }
  destruct op; cbn in Hm.
  - apply transition_spec in Hm as (_ & _ & -> & _). exact Hj'.
  - destruct Hm as (_ & ->). exact Hj'.
  - destruct Hm as (_ & _ & t & _ & ->). intros Hn. by cbn in Hn.
  - destruct Hm as (_ & _ & _ & ->). exact Hj'.
  - destruct Hm as (_ & _ & Ht & Hu & Hg & _ & ->). intros _. eexists _, receipt.
    split; [left|]. cbn. rewrite Ht, Hu, Hg, (ok_update path c Hc), (ok_target path c Hc). done.
  - apply recovery_spec in Hm as (t & _ & ->). exact Hj'.
Qed.

(** ** Operations keep it *)

(** What an operation did, in terms of the candidates [ss] it found. *)
Inductive op_effect (op : UpdateOp) (c : UpdateCoordinator) (ss : list (option UpdateState)) :
    list (option UpdateState) → option (UpdateCoordinator * result UpdateError unit) → Prop :=
| effect_none r :
    (∀ c' x, r = Some (c', x) → is_ok x = false ∧ uc_state c' = uc_state c ∧ coordinator_ok path c') →
    op_effect op c ss ss r
| effect_tried s ss' r :
    moves op c s → head ss = Some (Some (uc_state c)) → grown s ss ss' →
    (∀ c' x, r = Some (c', x) → is_ok x = false ∧ uc_state c' = uc_state c ∧ coordinator_ok path c') →
    op_effect op c ss ss' r
| effect_done s c' u :
    moves op c s → head ss = Some (Some (uc_state c)) → uc_state c' = s → coordinator_ok path c' →
    op_effect op c ss [Some s] (Some (c', Ok u)).

Lemma poison_ok t c : coordinator_ok path c → coordinator_ok path (poison t c).
Proof. by intros []. Qed.

Lemma advance_ok op c s g :
  coordinator_ok path c → moves op c s → writable s → coordinator_ok path (advance_to s g c).
Proof.
  intros Hc Hm Hs. destruct (moves_later op c s Hm) as [_ Hu Ht _ _]; [apply Hc|].
  destruct Hc as [H1 H2 H3 H4]. split; [done..| |]; cbn; congruence.
Qed.

Lemma op_outcome_effect op c o ss fs r :
  coordinator_ok path c → op_outcome d n op c o ss fs r →
  ∃ ss', op_effect op c (o :: ss) ss' r ∧ journal d n ss' fs.
Proof.
  intros Hc Ho.
  assert (∀ c', c' = c ∨ (∃ t, c' = poison t c) → uc_state c' = uc_state c ∧ coordinator_ok path c') as Hsame.
  { intros c' [->|[t ->]]; [done|]. split; [done|]. by apply poison_ok. }
  destruct Ho as [[Hr Hj]|(s & Hm & Hs & Ho)].
  - exists (o :: ss). split; [|done]. apply effect_none. intros c' x ->.
    destruct Hr as [|[e [= -> ->]]]; [done|]. by split.
  - assert (loaded o = uc_state c → o = Some (uc_state c)) as Hlo.
    { destruct o as [st|]; cbn; [by intros ->|]. intros E. pose proof (ok_update path c Hc) as H.
      by rewrite <- E in H. }
    destruct r as [[c' [[]|e]]|]; cbn in Ho.
    + destruct Ho as (-> & (g & ->) & Hj). exists [Some s]. split; [|done].
      by eapply effect_done; [| | |eapply advance_ok].
    + destruct Ho as (Hc' & [Hj|(Hl & ss' & Hg & Hj)]).
      * exists (o :: ss). split; [|done]. apply effect_none. intros ? ? [= <- <-]. split; [done|auto].
      * exists ss'. split; [|done]. eapply effect_tried; [done|cbn; by rewrite Hlo|done|].
        intros ? ? [= <- <-]. split; [done|auto].
    + destruct Ho as [Hj|(Hl & ss' & Hg & Hj)].
      * exists (o :: ss). split; [|done]. by apply effect_none.
      * exists ss'. split; [|done]. by eapply effect_tried; [|cbn; rewrite Hlo| |].
Qed.

(** The coordinators after an operation. *)
Lemma survivors_ok log c (r : option (UpdateCoordinator * result UpdateError unit)) s before after l :
  l = before ++ c :: after →
  (∀ c', c' ∈ l → coordinator_ok path c' ∧ justified log (uc_state c')) →
  justified (s :: log) (uc_state c) →
  (∀ c' x, r = Some (c', x) → coordinator_ok path c' ∧ justified (s :: log) (uc_state c')) →
  ∀ c', c' ∈ before ++ survivor r ++ after → coordinator_ok path c' ∧ justified (s :: log) (uc_state c').
Proof.
  intros -> Hl Hc Hr c' Hc'.
  assert (∀ t, justified log t → justified (s :: log) t) as Hj.
  { intros t. apply justified_mono. intros e He. by right. }
  rewrite !elem_of_app in Hc'. destruct Hc' as [Hc'|[Hc'|Hc']].
  - destruct (Hl c') as [H1 H2]; [by rewrite elem_of_app; left|]. auto.
  - destruct r as [[c'' x]|]; cbn in Hc'; [|by apply elem_of_nil in Hc'].
    apply list_elem_of_singleton in Hc' as ->. by eapply Hr.
  - destruct (Hl c') as [H1 H2]; [by rewrite elem_of_app, elem_of_cons; auto|]. auto.
Qed.

Section one_op.
Context (m : Machine) (ss : list (option UpdateState)) (Hm : machine_ok ss m).
Context (op : UpdateOp) (c : UpdateCoordinator) (before after : list UpdateCoordinator).
Context (Hin : mc_coordinators m = before ++ c :: after).

Let Hc : coordinator_ok path c ∧ justified (mc_log m) (uc_state c).
Proof. apply (mo_coordinators ss m Hm). rewrite Hin, elem_of_app, elem_of_cons. auto. Qed.

(** What was acknowledged before is before the state of [c] when [c] is
    current. *)
Lemma acknowledged_before e s :
  head ss = Some (Some (uc_state c)) → e ∈ mc_log m → acknowledged e = Some s → later s (uc_state c).
Proof.
  intros Hh He Ha. destruct ss as [|x xs]; [done|]. injection Hh as ->.
  destruct (mo_acknowledged _ m Hm e s He Ha (Some (uc_state c))) as (t & [= <-] & Hl); [left|done].
Qed.

Lemma machine_ok_op ss' r fs :
  op_effect op c ss ss' r → journal d n ss' fs →
  machine_ok ss' {| mc_fs := fs; mc_coordinators := before ++ survivor r ++ after;
                    mc_log := {| le_op := op; le_on := c; le_result := r |} :: mc_log m |}.
Proof.
  intros Heff Hj. destruct Hc as [Hok Hjust].
  pose proof (proj1 (ok_state path c Hok)) as Hv.
  assert (∀ s, moves op c s → later (uc_state c) s) as Hlater by (intros s Hs; by eapply moves_later).
  set (e0 := {| le_op := op; le_on := c; le_result := r |}).
  assert (∀ s, justified (mc_log m) s → justified (e0 :: mc_log m) s) as Hmono.
  { intros s. apply justified_mono. intros e He. by right. }
  assert (∀ s, moves op c s → justified (e0 :: mc_log m) s) as Hmj by (intros s Hs; by eapply moves_justified).
  split; cbn [mc_fs mc_coordinators mc_log].
  - exact Hj.
  - eapply survivors_ok; [exact Hin|apply Hm|auto|]. intros c' x E.
    destruct Heff as [r Hr|s ss' r Ht Hh Hg Hr|s c'' u Ht Hh Hs Hc''].
    + destruct (Hr c' x E) as (_ & E' & H). rewrite E'. auto.
    + destruct (Hr c' x E) as (_ & E' & H). rewrite E'. auto.
    + injection E as <- _. rewrite Hs. auto.
  - intros e s He Ha x Hx. apply elem_of_cons in He as [->|He].
    + destruct Heff as [r Hr|t ss' r Ht Hh Hg Hr|t c'' u Ht Hh Hs Hc'']; cbn in Ha.
      * destruct r as [[c' [u|e]]|]; try done. by destruct (Hr c' (Ok u) eq_refl).
      * destruct r as [[c' [u|e]]|]; try done. by destruct (Hr c' (Ok u) eq_refl).
      * apply list_elem_of_singleton in Hx as ->. injection Ha as <-. rewrite Hs. by exists t.
    + pose proof (mo_acknowledged ss m Hm e s He Ha) as Hold.
      destruct Heff as [r Hr|t ss' r Ht Hh Hg Hr|t c'' u Ht Hh Hs Hc'']; [by apply Hold|..].
      * destruct (grown_elem _ _ _ _ Hg Hx) as [->|Hx']; [|by apply Hold]. exists t. split; [done|].
        etrans; [by eapply acknowledged_before|auto].
      * apply list_elem_of_singleton in Hx as ->. exists t. split; [done|].
        etrans; [by eapply acknowledged_before|auto].
  - intros x s Hx ->.
    destruct Heff as [r Hr|t ss' r Ht Hh Hg Hr|t c'' u Ht Hh Hs Hc''].
    + apply Hmono. by eapply (mo_justified ss m Hm).
    + destruct (grown_elem _ _ _ _ Hg Hx) as [[= ->]|Hx']; [auto|].
      apply Hmono. by eapply (mo_justified ss m Hm).
    + apply list_elem_of_singleton in Hx as [= ->]. auto.
  - intros e s He Hop Ha. apply elem_of_cons in He as [->|He]; [|by eapply (mo_dispatched ss m Hm)].
    destruct Heff as [r Hr|t ss' r Ht Hh Hg Hr|t c'' u Ht Hh Hs Hc'']; cbn in Ha, Hop.
    + destruct r as [[c' [u|e]]|]; try done. by destruct (Hr c' (Ok u) eq_refl).
    + destruct r as [[c' [u|e]]|]; try done. by destruct (Hr c' (Ok u) eq_refl).
    + injection Ha as <-. subst op. rewrite Hs. destruct Ht as (Hst & _ & _ & ->).
      unfold rank. cbn. by rewrite Hst.
  - rewrite filter_cons. case_decide as Hd; [|apply Hm].
    destruct (filter dispatch_acknowledged (mc_log m)) as [|e l] eqn:El; [cbn; lia|]. exfalso.
    assert (e ∈ filter dispatch_acknowledged (mc_log m)) as [He Hin']%list_elem_of_filter
      by (rewrite El; left).
    unfold dispatch_acknowledged in Hd, He. cbn in Hd.
    destruct op; try done. destruct (le_op e) eqn:Eop; try done.
    destruct (acknowledged e) as [s|] eqn:Ea; [|done].
    pose proof (mo_dispatched ss m Hm e s Hin' Eop Ea) as Hrank.
    inversion Heff as [r' Hr|t ss'' r' Ht Hh Hg Hr|t c'' u Ht Hh Hs Hc'']; subst.
    + destruct r as [[c' [u|?]]|]; try done. by destruct (Hr c' (Ok u) eq_refl).
    + destruct r as [[c' [u|?]]|]; try done. by destruct (Hr c' (Ok u) eq_refl).
    + pose proof (later_rank _ _ (acknowledged_before e s Hh Hin' Ea)) as Hle.
      destruct Ht as (Hst & Heff' & _). unfold rank in Hle at 2. rewrite Hst, Heff' in Hle. lia.
Qed.
End one_op.

(** ** Every step keeps it *)
Context (Hpath : located path d n).

Lemma journal_cons ss fs : journal d n ss fs → ∃ o ss0, ss = o :: ss0.
Proof. intros (vs & [_ Hv] & Hh). rewrite <- Hv in Hh. inversion Hh; subst; eauto. Qed.

Lemma machine_ok_open m o ss fs r :
  machine_ok (o :: ss) m → open_outcome d n path o ss fs r →
  ∃ ss', machine_ok ss' {| mc_fs := fs; mc_coordinators := opened r ++ mc_coordinators m;
                           mc_log := mc_log m |}.
Proof.
  intros Hm Ho.
  assert (∀ s ss', o = None → us_verification_receipt_id s = None → grown s (o :: ss) ss' →
    journal d n ss' fs →
    (∀ c, c ∈ opened r → coordinator_ok path c ∧ justified (mc_log m) (uc_state c)) →
    machine_ok ss' {| mc_fs := fs; mc_coordinators := opened r ++ mc_coordinators m; mc_log := mc_log m |})
    as Hnew.
  { intros s ss' -> Hs Hg Hj Hr. destruct Hm as [H1 H2 H3 H4 H5 H6]. split; cbn; [done|..].
    - intros c [Hc|Hc]%elem_of_app; auto.
    - intros e t He Ha. destruct (H3 e t He Ha None) as (? & ? & _); [left|done].
    - intros x t Hx ->. destruct (grown_elem _ _ _ _ Hg Hx) as [[= ->]|Hx']; [by intros []|eauto].
    - done.
    - done. }
  assert (journal d n (o :: ss) fs →
    (∀ c, c ∈ opened r → coordinator_ok path c ∧ justified (mc_log m) (uc_state c)) →
    machine_ok (o :: ss) {| mc_fs := fs; mc_coordinators := opened r ++ mc_coordinators m; mc_log := mc_log m |})
    as Hsame.
  { intros Hj Hr. destruct Hm as [H1 H2 H3 H4 H5 H6]. split; cbn; [done|..|done|done|done|done].
    intros c [Hc|Hc]%elem_of_app; auto. }
  destruct r as [[c|e]|]; cbn in Ho.
  - destruct Ho as (Hc & _ & [[-> Hj]|(-> & Hr & Hv & Hj)]).
    + eexists. apply Hsame; [done|]. intros c' ->%list_elem_of_singleton. split; [done|].
      eapply (mo_justified _ m Hm); [left|done].
    + eexists. eapply Hnew; [done|exact Hv|apply grown_settled|done|].
      intros c' ->%list_elem_of_singleton. split; [done|]. by intros [].
  - destruct Ho as [Hj|(-> & s & ss' & _ & Hs & Hg & Hj)]; eexists.
    + apply Hsame; [done|]. set_solver.
    + eapply Hnew; [done..|]. set_solver.
  - destruct Ho as [Hj|(-> & s & ss' & _ & Hs & Hg & Hj)]; eexists.
    + apply Hsame; [done|]. set_solver.
    + eapply Hnew; [done..|]. set_solver.
Qed.

Lemma machine_ok_step m m' : machine_step m m' → (∃ ss, machine_ok ss m) → ∃ ss, machine_ok ss m'.
Proof.
  intros Hstep [ss Hm]. destruct (journal_cons _ _ (mo_journal _ _ Hm)) as (o & ss0 & ->).
  destruct Hstep as [m env calls policy u t w r Hq Hr|m env calls op before c after w r Hq Hop Hin Hr
    |m before c after Hin|m fs Hr|m fs Hl].
  - eapply machine_ok_open; [done|].
    pose proof (spec_open d n path Hpath env Hq policy u t o ss0 {| w_fs := mc_fs m; w_calls := calls |}) as H.
    rewrite Hr in H. apply H, Hm.
  - assert (coordinator_ok path c) as Hc.
    { apply (mo_coordinators _ _ Hm). rewrite Hin, elem_of_app, elem_of_cons. auto. }
    pose proof (run_op_outcome d n path Hpath env op c o ss0 Hq Hc Hop
      {| w_fs := mc_fs m; w_calls := calls |} (mo_journal _ _ Hm)) as H.
    rewrite Hr in H. apply op_outcome_effect in H as (ss' & He & Hj); [|done].
    exists ss'. by eapply machine_ok_op.
  - exists (o :: ss0). destruct Hm as [H1 H2 H3 H4 H5 H6]. split; cbn; try done.
    intros c' Hc'. apply H2. rewrite Hin. set_solver.
  - exists (o :: ss0). destruct Hm as [H1 H2 H3 H4 H5 H6]. split; cbn; try done.
    by eapply stable_journal.
  - destruct (journal_power_loss _ _ _ _ _ Hl (mo_journal _ _ Hm)) as (x & Hx & Hj).
    exists [x]. destruct Hm as [H1 H2 H3 H4 H5 H6]. split; cbn; try done.
    + set_solver.
    + intros e s He Ha y ->%list_elem_of_singleton. eauto.
    + intros y s ->%list_elem_of_singleton ->. eauto.
Qed.

Lemma machine_reachable_ok m : machine_reachable m → ∃ ss, machine_ok ss m.
Proof.
  intros (m0 & (Hp & Hc & Hl) & Hr).
  assert (∃ ss, machine_ok ss m0) as H0.
  { exists [None]. split.
    - exists [None]. split; [done|]. by repeat constructor.
    - rewrite Hc. set_solver.
    - rewrite Hl. set_solver.
    - by intros x s ->%list_elem_of_singleton.
    - rewrite Hl. set_solver.
    - rewrite Hl. cbn. lia. }
  clear Hp Hc Hl. induction Hr as [m|m m1 m2 Hs Hr IH]; [done|]. apply IH. by eapply machine_ok_step.
Qed.

(** ** What can be read *)

(** A file system that the machine may present to a reader: its own, or what a
    power loss leaves. *)
Definition present (m : Machine) (fs : FS) : Prop := fs = mc_fs m ∨ power_loss (mc_fs m) fs.

Definition loads (fs : FS) (s : UpdateState) : Prop :=
  ∃ env calls w, quiet d env ∧
    UpdateJournalStore_load path env {| w_fs := fs; w_calls := calls |} = (w, Some (Ok s)).

Lemma present_ok m ss fs :
  machine_ok ss m → present m fs → ∃ o ss', (∀ x, x ∈ o :: ss' → x ∈ ss) ∧ journal d n (o :: ss') fs.
Proof.
  intros Hm [->|Hl].
  - destruct (journal_cons _ _ (mo_journal _ _ Hm)) as (o & ss0 & ->). exists o, ss0.
    split; [done|apply Hm].
  - destruct (journal_power_loss _ _ _ _ _ Hl (mo_journal _ _ Hm)) as (x & Hx & Hj).
    exists x, []. split; [|done]. by intros y ->%list_elem_of_singleton.
Qed.

Lemma loads_candidate o ss fs s : journal d n (o :: ss) fs → loads fs s → s = loaded o.
Proof.
  intros Hj (env & calls & w & Hq & Hr).
  pose proof (spec_load d env Hq n path Hpath o ss {| w_fs := fs; w_calls := calls |} Hj) as H.
  rewrite Hr in H. apply H.
Qed.

Lemma open_candidate o ss fs env calls policy u t w c :
  journal d n (o :: ss) fs → quiet d env →
  UpdateCoordinator_open path policy u t env {| w_fs := fs; w_calls := calls |} = (w, Some (Ok c)) →
  o = None ∧ rank (uc_state c) = 0%nat ∨ o = Some (uc_state c).
Proof.
  intros Hj Hq Hr.
  pose proof (spec_open d n path Hpath env Hq policy u t o ss {| w_fs := fs; w_calls := calls |} Hj) as H.
  rewrite Hr in H. destruct H as (_ & _ & [[-> _]|(-> & H & _)]); auto.
Qed.
End machine.

Section theorems.
Context (d : Key) (n : string) (path : Path).

(** C11: what an update operation has acknowledged is never lost and never
    undone: whatever coordinators did before and after, wherever processes were
    killed, calls failed or power was lost, every state that can be read from
    the journal afterwards has come at least as far, belongs to the same update
    and target, and keeps the acknowledged transaction and receipt. *)
Theorem acknowledged_progress_survives (Hpath : located path d n) m e s fs t :
  machine_reachable d n path m → e ∈ mc_log m → acknowledged e = Some s →
  present m fs → loads d path fs t → later s t.
Proof.
  intros Hr He Ha Hp Hl. apply machine_reachable_ok in Hr as [ss Hm]; [|done].
  destruct (present_ok d n path m ss fs Hm Hp) as (o & ss' & Hsub & Hj).
  apply (loads_candidate d n path Hpath _ _ _ _ Hj) in Hl as ->.
  destruct (mo_acknowledged _ _ _ _ _ Hm e s He Ha o) as (t & -> & Ht); [|done]. apply Hsub. left.
Qed.

(** C12: a package transaction is dispatched at most once: at most one
    [mark_dispatch_started] is ever acknowledged on a journal, and after it no
    coordinator opened on it, even after a power loss, is told that the
    prepared transaction is safe to dispatch. *)
Theorem dispatch_at_most_once (Hpath : located path d n) m :
  machine_reachable d n path m →
  (length (filter dispatch_acknowledged (mc_log m)) ≤ 1)%nat ∧
  ∀ e fs env calls policy u t w c,
    e ∈ mc_log m → dispatch_acknowledged e = true → present m fs → quiet d env →
    UpdateCoordinator_open path policy u t env {| w_fs := fs; w_calls := calls |} = (w, Some (Ok c)) →
    resume_decision c ≠ SafeToDispatchPrepared.
Proof.
  intros Hr. apply machine_reachable_ok in Hr as [ss Hm]; [|done]. split; [apply Hm|].
  intros e fs env calls policy u t w c He Hd Hp Hq Ho.
  destruct (present_ok d n path m ss fs Hm Hp) as (o & ss' & Hsub & Hj).
  unfold dispatch_acknowledged in Hd. destruct (le_op e) eqn:Eop; try done.
  destruct (acknowledged e) as [s|] eqn:Ea; [|done].
  pose proof (mo_dispatched _ _ _ _ _ Hm e s He Eop Ea) as Hrank.
  destruct (mo_acknowledged _ _ _ _ _ Hm e s He Ea o) as (x & -> & Hx); [apply Hsub; left|].
  apply (open_candidate d n path Hpath _ _ _ _ _ _ _ _ _ _ Hj Hq) in Ho as [[? _]|[= ->]]; [done|].
  pose proof (later_rank _ _ Hx) as Hle. unfold resume_decision.
  destruct (some (uc_durability_uncertain c)); [done|]. unfold rank in Hle at 2.
  destruct (us_stage (uc_state c)), (us_external_effect (uc_state c)); try done. lia.
Qed.

(** C13: an update gets past its package transaction only on evidence: every
    state that can be read from the journal at the migrations stage or later
    carries the receipt of a [mark_package_verified] call that was made with a
    receipt for exactly its update, target and transaction. *)
Theorem past_package_is_verified (Hpath : located path d n) m fs t :
  machine_reachable d n path m → present m fs → loads d path fs t →
  stage_after_package (us_stage t) = true → verified_by (mc_log m) t.
Proof.
  intros Hr Hp Hl Hst. apply machine_reachable_ok in Hr as [ss Hm]; [|done].
  destruct (present_ok d n path m ss fs Hm Hp) as (o & ss' & Hsub & Hj).
  apply (loads_candidate d n path Hpath _ _ _ _ Hj) in Hl as ->.
  destruct o as [s|]; [|done]. cbn in Hst |- *.
  eapply (mo_justified _ _ _ _ _ Hm (Some s) s); [apply Hsub; left|done|].
  apply valid_after_package; [|done]. by apply journal_writable in Hj as [Hv _].
Qed.
End theorems.
