(* ===== verification/UpdateEvidence.v ===== *)
(** * The update engine: evidence

    linura-update/src/lib.rs: the signed receipts by which a trusted producer
    testifies to a snapshot or to a verified package transaction, the verifier
    that reads them from a directory only the producer can write, and the
    qualification issuer that writes them. *)

From Stdlib Require Import ZArith Lia Ascii.
From stdpp Require Import base numbers gmap strings list fin_maps sorting.
From S2P Require Import Prelude Text Fields Digest.
From S2P Require Import Paths Files ControlFiles Update UpdateCoordinator.

Set Default Goal Selector "!".

Inductive EvidenceKind := SnapshotEvidence | PackageVerification.
#[export] Instance EvidenceKind_eq_dec : EqDecision EvidenceKind.
Proof. solve_decision. Defined.

Definition EvidenceKind_as_str (k : EvidenceKind) : string :=
  match k with
  | SnapshotEvidence => "snapshot"
  | PackageVerification => "package-verification"
  end.

Definition EvidenceKind_parse (value : string) : result UpdateError EvidenceKind :=
  match value with
  | "snapshot" => Ok SnapshotEvidence
  | "package-verification" => Ok PackageVerification
  | _ => Err (CorruptEvidence "unknown evidence kind")
  end%string.

Record ParsedEvidence := {
  ev_kind : EvidenceKind;
  ev_update_id : string;
  ev_target_id : string;
  ev_subject_id : string;
  ev_proof_id : string;
  ev_dispatch_generation : option string;
  ev_issued_unix_ms : option Z;
  ev_source : string;
  ev_result : string;
}.

Definition EVIDENCE_MAGIC : string := "linura-update-evidence-v3".
Definition EVIDENCE_AUTH_KEY_FILE : string := "evidence-auth.key".
Definition EVIDENCE_AUTH_KEY_BYTES : nat := 32.
Definition HMAC_BLOCK_BYTES : nat := 64.
Definition MAX_EVIDENCE_BYTES : Z := 64 * 1024.
Definition V09_UPDATE_EVIDENCE_PRODUCER_ID : string := "linura-update-evidence-v09".
Definition V09_UPDATE_EVIDENCE_PRODUCER_UID : Z := 0.

(** ** Authentication *)
Definition xor_byte (a b : Byte.byte) : Byte.byte := byte_of_Z (Z.lxor (Z_of_byte a) (Z_of_byte b)).

(** A block filled with one byte, mixed with the key at its start. *)
Fixpoint hmac_pad (n : nat) (fill : Byte.byte) (key : bytes) : bytes :=
  match n, key with
  | O, _ => []
  | S n', [] => fill :: hmac_pad n' fill []
  | S n', b :: key' => xor_byte fill b :: hmac_pad n' fill key'
  end.

Section evidence.
Context `{Crypto}.

Definition hmac_sha256 (key : bytes) (payload : string) : string :=
  let inner := sha256 (hmac_pad HMAC_BLOCK_BYTES Byte.x36 key ++ as_bytes payload) in
  Digest.hex_encode (sha256 (hmac_pad HMAC_BLOCK_BYTES Byte.x5c key ++ inner)).

Definition constant_time_hex_eq (left right : string) : bool :=
  if negb (String.length left =? String.length right)%nat then false
  else (foldl (λ difference p, Z.lor difference (Z.lxor (Z_of_byte p.1) (Z_of_byte p.2))) 0
          (zip (as_bytes left) (as_bytes right)) =? 0)%Z.

Definition evidence_lines (e : ParsedEvidence) : list string :=
  [EVIDENCE_MAGIC;
   "kind=" +:+ EvidenceKind_as_str (ev_kind e);
   "update=" +:+ hex_encode (Some (ev_update_id e));
   "target=" +:+ hex_encode (Some (ev_target_id e));
   "subject=" +:+ hex_encode (Some (ev_subject_id e));
   "proof=" +:+ hex_encode (Some (ev_proof_id e));
   "dispatch_generation=" +:+ hex_encode (ev_dispatch_generation e);
   "issued_unix_ms=" +:+ match ev_issued_unix_ms e with Some v => u64_to_string v | None => "-" end;
   "source=" +:+ ev_source e;
   "result=" +:+ ev_result e].

Definition serialize_evidence (e : ParsedEvidence) (key : bytes) : string :=
  let payload := unlines (evidence_lines e) in
  payload +:+ "authentication=" +:+ hmac_sha256 key payload +:+ String LF "".

(** The payload of a receipt whose authentication is checked. *)
Definition authentic_payload (text : string) (key : bytes) : result UpdateError string :=
  _ ← reject_if (negb (utf8_valid text)) (CorruptEvidence "evidence is not UTF-8");
  authentication_start ← ok_or (rfind "authentication=" text)
    (CorruptEvidence "authentication record is missing");
  let '(payload, authentication_line) := split_at authentication_start text in
  expected ← ok_or (match strip_prefix "authentication=" authentication_line with
                    | Some value => strip_suffix LF value
                    | None => None
                    end) (CorruptEvidence "invalid authentication record");
  _ ← reject_if (negb (String.length expected =? 64)%nat || negb (all_hexdigits expected))
        (CorruptEvidence "invalid HMAC-SHA-256 authentication");
  _ ← reject_if (negb (constant_time_hex_eq (hmac_sha256 key payload) expected))
        (CorruptEvidence "evidence authentication mismatch");
  Ok payload.

Definition parse_evidence (text : string) (key : bytes) : result UpdateError ParsedEvidence :=
  payload ← authentic_payload text key;
  match lines payload with
  | [] => Err UnsupportedEvidenceVersion
  | magic :: l =>
      _ ← reject_if (negb (bool_decide (magic = EVIDENCE_MAGIC))) UnsupportedEvidenceVersion;
      '(kind, l) ← parse_field l "kind";
      kind ← EvidenceKind_parse kind;
      '(update, l) ← parse_field l "update";
      update_id ← required_hex update "update field";
      '(target, l) ← parse_field l "target";
      target_id ← required_hex target "target field";
      '(subject, l) ← parse_field l "subject";
      subject_id ← required_hex subject "subject field";
      '(proof, l) ← parse_field l "proof";
      proof_id ← required_hex proof "proof field";
      '(generation, l) ← parse_field l "dispatch_generation";
      dispatch_generation ← hex_decode generation;
      '(issued, l) ← parse_field l "issued_unix_ms";
      issued_unix_ms ← optional_u64 issued "issued_unix_ms field";
      '(source, l) ← parse_field l "source";
      '(result, l) ← parse_field l "result";
      _ ← reject_if (negb (is_nil_list l)) (CorruptEvidence "unexpected evidence field");
      _ ← normalize_identifier "update id" update_id;
      _ ← normalize_identifier "update target id" target_id;
      _ ← normalize_identifier "evidence subject id" subject_id;
      _ ← normalize_identifier "evidence proof id" proof_id;
      _ ← check_identifier "dispatch generation" dispatch_generation;
      _ ← normalize_identifier "evidence source" source;
      _ ← normalize_identifier "evidence result" result;
      Ok {| ev_kind := kind; ev_update_id := update_id; ev_target_id := target_id;
            ev_subject_id := subject_id; ev_proof_id := proof_id;
            ev_dispatch_generation := dispatch_generation; ev_issued_unix_ms := issued_unix_ms;
            ev_source := source; ev_result := result |}
  end.

(** ** The verifier *)
Record TrustedUpdateEvidenceVerifier := {
  tv_root : Path;
  tv_root_device : Z;
  tv_root_inode : Z;
  tv_root_uid : Z;
  tv_key : bytes;
}.

Definition trusted_evidence_root_metadata (path : Path) (expected_uid : Z) : IO UpdateError Metadata :=
  metadata ← sys (symlink_metadata path);
  if is_symlink metadata || negb (is_dir metadata) || mode_has group_or_other_write metadata
     || negb (m_uid metadata =? expected_uid)%Z
  then io_fail UntrustedEvidenceRoot
  else mret metadata.

Definition group_or_other_any : Z := 63 (* 0o077 *).

(** [read_exact] of the key, then one more [read]: the file as a whole. *)
Definition read_evidence_auth_key (root : Path) (expected_uid : Z) : IO UpdateError bytes :=
  let path := join root EVIDENCE_AUTH_KEY_FILE in
  before ← sys (symlink_metadata path);
  if is_symlink before || negb (is_file before) || negb (m_uid before =? expected_uid)%Z
     || negb (m_nlink before =? 1)%Z || mode_has group_or_other_any before
     || negb (m_len before =? Z.of_nat EVIDENCE_AUTH_KEY_BYTES)%Z
  then io_fail UntrustedEvidencePath
  else
    file ← sys (open_file (read_only true) path);
    opened ← sys (file_metadata file);
    if negb (m_dev opened =? m_dev before)%Z || negb (m_ino opened =? m_ino before)%Z
       || negb (m_uid opened =? expected_uid)%Z || negb (m_nlink opened =? 1)%Z
    then io_fail UntrustedEvidencePath
    else
      data ← sys (read_to_end file);
      if (String.length data <? EVIDENCE_AUTH_KEY_BYTES)%nat then
        io_fail (IoFailure "failed to fill whole buffer")
      else
        let key := take EVIDENCE_AUTH_KEY_BYTES (as_bytes data) in
        if (EVIDENCE_AUTH_KEY_BYTES <? String.length data)%nat
           || forallb (λ b, bool_decide (b = Byte.x00)) key
        then io_fail UntrustedEvidencePath
        else mret key.

Definition verifier_open_at (root : Path) (expected_uid : Z) :
    IO UpdateError TrustedUpdateEvidenceVerifier :=
  supplied_metadata ← trusted_evidence_root_metadata root expected_uid;
  canonical_root ← sys (canonicalize root);
  metadata ← trusted_evidence_root_metadata canonical_root expected_uid;
  if negb (m_dev metadata =? m_dev supplied_metadata)%Z
     || negb (m_ino metadata =? m_ino supplied_metadata)%Z
  then io_fail UntrustedEvidenceRoot
  else
    key ← read_evidence_auth_key canonical_root expected_uid;
    mret {| tv_root := canonical_root; tv_root_device := m_dev metadata;
            tv_root_inode := m_ino metadata; tv_root_uid := expected_uid; tv_key := key |}.

Definition verifier_open : IO UpdateError TrustedUpdateEvidenceVerifier :=
  verifier_open_at V09_UPDATE_EVIDENCE_ROOT V09_UPDATE_EVIDENCE_PRODUCER_UID.

Definition validate_root_identity (v : TrustedUpdateEvidenceVerifier) : IO UpdateError unit :=
  metadata ← trusted_evidence_root_metadata (tv_root v) (tv_root_uid v);
  if negb (m_dev metadata =? tv_root_device v)%Z || negb (m_ino metadata =? tv_root_inode v)%Z
  then io_fail UntrustedEvidenceRoot
  else mret tt.

(** The conditions on the receipt file before it is opened, on the open file,
    and after it was read. *)
Definition receipt_untrusted_before (uid : Z) (m : Metadata) : bool :=
  is_symlink m || negb (is_file m) || mode_has group_or_other_write m || negb (m_uid m =? uid)%Z
  || negb (m_nlink m =? 1)%Z || (MAX_EVIDENCE_BYTES <? m_len m)%Z.
Definition receipt_untrusted_open (uid : Z) (before m : Metadata) : bool :=
  negb (m_dev m =? m_dev before)%Z || negb (m_ino m =? m_ino before)%Z || negb (m_uid m =? uid)%Z
  || negb (m_nlink m =? 1)%Z.
Definition receipt_untrusted_after (uid : Z) (opened m : Metadata) : bool :=
  is_symlink m || negb (is_file m) || negb (m_dev m =? m_dev opened)%Z
  || negb (m_ino m =? m_ino opened)%Z || negb (m_uid m =? uid)%Z
  || mode_has group_or_other_write m || negb (m_nlink m =? 1)%Z.

Definition receipt_path (v : TrustedUpdateEvidenceVerifier) (receipt_id : string) : Path :=
  join (tv_root v) (receipt_id +:+ ".receipt").

Definition read_receipt (v : TrustedUpdateEvidenceVerifier) (receipt_id : string) :
    IO UpdateError ParsedEvidence :=
  _ ← validate_root_identity v;
  let path := receipt_path v receipt_id in
  path_metadata ← sys (symlink_metadata path);
  _ ← io_lift (reject_if (receipt_untrusted_before (tv_root_uid v) path_metadata) UntrustedEvidencePath);
  file ← sys (open_file (read_only true) path);
  opened_metadata ← sys (file_metadata file);
  _ ← io_lift (reject_if (receipt_untrusted_open (tv_root_uid v) path_metadata opened_metadata)
        UntrustedEvidencePath);
  text ← sys (read_to_end file);
  _ ← io_lift (reject_if (MAX_EVIDENCE_BYTES <? str_len text)%Z
        (CorruptEvidence "evidence receipt exceeds supported size bound"));
  _ ← sys (sync_all file);
  _ ← sys (sync_dir (tv_root v));
  _ ← validate_root_identity v;
  after ← sys (symlink_metadata path);
  _ ← io_lift (reject_if (receipt_untrusted_after (tv_root_uid v) opened_metadata after)
        UntrustedEvidencePath);
  io_lift (parse_evidence text (tv_key v)).

Definition verify_snapshot (v : TrustedUpdateEvidenceVerifier)
    (receipt_id expected_update_id expected_target_id expected_attempt_generation : string)
    (attempt_started_unix_ms : Z) : IO UpdateError SnapshotReceipt :=
  receipt_id ← io_lift (normalize_identifier "evidence receipt id" receipt_id);
  expected_update_id ← io_lift (normalize_identifier "update id" expected_update_id);
  expected_target_id ← io_lift (normalize_identifier "update target id" expected_target_id);
  expected_attempt_generation ←
    io_lift (normalize_identifier "snapshot attempt generation" expected_attempt_generation);
  evidence ← read_receipt v receipt_id;
  attempt_generation ← io_lift (ok_or (ev_dispatch_generation evidence)
    (EvidenceBindingMismatch "snapshot receipt lacks update-attempt generation binding"));
  issued_unix_ms ← io_lift (ok_or (ev_issued_unix_ms evidence)
    (EvidenceBindingMismatch "snapshot receipt lacks issuance freshness"));
  _ ← io_lift (reject_if
        (negb (bool_decide (ev_kind evidence = SnapshotEvidence))
         || negb (bool_decide (ev_update_id evidence = expected_update_id))
         || negb (bool_decide (ev_target_id evidence = expected_target_id))
         || negb (bool_decide (attempt_generation = expected_attempt_generation))
         || negb (bool_decide (ev_source evidence = V09_UPDATE_EVIDENCE_PRODUCER_ID))
         || negb (bool_decide (ev_result evidence = "durable")))
        (EvidenceBindingMismatch
           "snapshot receipt is not durable trusted-producer evidence bound to this update, target and snapshot attempt"));
  _ ← validate_snapshot_evidence_freshness issued_unix_ms attempt_started_unix_ms;
  snapshot_id ← io_lift (normalize_identifier "snapshot id" (ev_subject_id evidence));
  proof_id ← io_lift (normalize_identifier "snapshot proof id" (ev_proof_id evidence));
  mret {| sr_receipt_id := receipt_id; sr_update_id := ev_update_id evidence;
          sr_target_id := ev_target_id evidence; sr_snapshot_id := snapshot_id;
          sr_proof_id := proof_id; sr_attempt_generation := expected_attempt_generation;
          sr_issued_unix_ms := issued_unix_ms |}.

Definition verify_package (v : TrustedUpdateEvidenceVerifier)
    (receipt_id expected_update_id expected_target_id expected_transaction_id
     expected_dispatch_generation : string) (dispatch_started_unix_ms : Z) :
    IO UpdateError PackageVerificationReceipt :=
  receipt_id ← io_lift (normalize_identifier "evidence receipt id" receipt_id);
  expected_update_id ← io_lift (normalize_identifier "update id" expected_update_id);
  expected_target_id ← io_lift (normalize_identifier "update target id" expected_target_id);
  expected_transaction_id ← io_lift (normalize_identifier "transaction id" expected_transaction_id);
  expected_dispatch_generation ←
    io_lift (normalize_identifier "dispatch generation" expected_dispatch_generation);
  evidence ← read_receipt v receipt_id;
  dispatch_generation ← io_lift (ok_or (ev_dispatch_generation evidence)
    (EvidenceBindingMismatch "package verification receipt lacks dispatch-generation binding"));
  issued_unix_ms ← io_lift (ok_or (ev_issued_unix_ms evidence)
    (EvidenceBindingMismatch "package verification receipt lacks issuance freshness"));
  _ ← io_lift (reject_if
        (negb (bool_decide (ev_kind evidence = PackageVerification))
         || negb (bool_decide (ev_update_id evidence = expected_update_id))
         || negb (bool_decide (ev_target_id evidence = expected_target_id))
         || negb (bool_decide (ev_subject_id evidence = expected_transaction_id))
         || negb (bool_decide (dispatch_generation = expected_dispatch_generation))
         || negb (bool_decide (ev_source evidence = V09_UPDATE_EVIDENCE_PRODUCER_ID))
         || negb (bool_decide (ev_result evidence = "verified")))
        (EvidenceBindingMismatch
           "package verification receipt is not authoritative evidence bound to this update, target, transaction and dispatch instance"));
  _ ← validate_package_evidence_freshness issued_unix_ms dispatch_started_unix_ms;
  observation_id ← io_lift (normalize_identifier "observation id" (ev_proof_id evidence));
  mret {| pr_receipt_id := receipt_id; pr_update_id := ev_update_id evidence;
          pr_target_id := ev_target_id evidence; pr_transaction_id := ev_subject_id evidence;
          pr_observation_id := observation_id;
          pr_dispatch_generation := expected_dispatch_generation;
          pr_issued_unix_ms := issued_unix_ms |}.

(** ** The qualification issuer *)
Record QualificationUpdateEvidenceIssuer := { qi_root : Path; qi_key : bytes }.

Definition receipt_options : OpenOptions :=
  {| o_write := true; o_create := false; o_create_new := true; o_mode := private_mode;
     o_nofollow := false |}.

Definition private_dir_mode : Z := 448 (* 0o700 *).

(** A key made up once and kept. *)
Definition create_auth_key (root key_path : Path) : IO UpdateError unit :=
  key ← sys (urandom EVIDENCE_AUTH_KEY_BYTES);
  _ ← io_lift (reject_if (negb (String.length key =? EVIDENCE_AUTH_KEY_BYTES)%nat)
        (IoFailure "failed to fill whole buffer"));
  _ ← io_lift (reject_if (forallb (λ b, bool_decide (b = Byte.x00)) (as_bytes key))
        (CorruptEvidence "OS random source returned an all-zero evidence key"));
  file ← sys (open_file receipt_options key_path);
  _ ← sys (write_all file key);
  _ ← sys (sync_all file);
  sys (sync_dir root).

Definition issuer_open_or_create : IO UpdateError QualificationUpdateEvidenceIssuer :=
  let root := V09_UPDATE_EVIDENCE_ROOT in
  _ ← sys (create_dir_all root);
  _ ← sys (set_permissions root private_dir_mode);
  _ ← trusted_evidence_root_metadata root V09_UPDATE_EVIDENCE_PRODUCER_UID;
  let key_path := join root EVIDENCE_AUTH_KEY_FILE in
  exists_ ← sys (path_exists key_path);
  _ ← (if exists_ : bool then mret tt else create_auth_key root key_path);
  key ← read_evidence_auth_key root V09_UPDATE_EVIDENCE_PRODUCER_UID;
  mret {| qi_root := root; qi_key := key |}.

Definition issue_package_verification (q : QualificationUpdateEvidenceIssuer)
    (receipt_id update_id target_id transaction_id observation_id dispatch_generation : string) :
    IO UpdateError unit :=
  receipt_id ← io_lift (normalize_identifier "evidence receipt id" receipt_id);
  update_id ← io_lift (normalize_identifier "update id" update_id);
  target_id ← io_lift (normalize_identifier "update target id" target_id);
  subject_id ← io_lift (normalize_identifier "transaction id" transaction_id);
  proof_id ← io_lift (normalize_identifier "observation id" observation_id);
  dispatch_generation ← io_lift (normalize_identifier "dispatch generation" dispatch_generation);
  now ← unix_now_ms;
  let evidence :=
    {| ev_kind := PackageVerification; ev_update_id := update_id; ev_target_id := target_id;
       ev_subject_id := subject_id; ev_proof_id := proof_id;
       ev_dispatch_generation := Some dispatch_generation; ev_issued_unix_ms := Some now;
       ev_source := V09_UPDATE_EVIDENCE_PRODUCER_ID; ev_result := "verified" |} in
  let text := serialize_evidence evidence (qi_key q) in
  let path := join (qi_root q) (receipt_id +:+ ".receipt") in
  r ← attempt (remove_file path);
  _ ← match r with
      | Ok _ => mret tt
      | Err error =>
          match io_kind error with NotFound => mret tt | _ => io_fail (io_error error) end
      end;
  file ← sys (open_file receipt_options path);
  _ ← sys (write_all file text);
  _ ← sys (sync_all file);
  sys (sync_dir (qi_root q)).
End evidence.
