(* ===== verification/UpdateEvidenceFacts.v ===== *)
(** * Evidence is authentic

    Receipts are read back as written; a receipt is accepted only with the HMAC
    of its payload under the key of the verifier, and yields a receipt of the
    coordinator only when it is bound to exactly the expected update, target,
    transaction and attempt, and fresh. *)

From Stdlib Require Import ZArith Lia Ascii.
From stdpp Require Import base numbers gmap strings list fin_maps sorting.
From S2P Require Import Prelude Text Fields Digest.
From S2P Require Import Paths Files ControlFiles FileFacts Update.
From S2P Require Import UpdateCoordinator UpdateEvidence.

Set Default Goal Selector "!".

(** ** Constant-time comparison *)
Lemma byte_value_inj a b : Z_of_byte a = Z_of_byte b → a = b.
Proof. unfold Z_of_byte. intros H%N2Z.inj. destruct a, b; done. Qed.

Lemma fold_difference l acc :
  foldl (λ d p, Z.lor d (Z.lxor (Z_of_byte p.1) (Z_of_byte p.2))) acc l = 0%Z ↔
  acc = 0%Z ∧ Forall (λ p, p.1 = p.2) l.
Proof.
  revert acc. induction l as [|[a b] l IH]; intros acc; cbn [foldl].
  - split; [by intros ->|by intros []].
  - rewrite IH, Z.lor_eq_0_iff, Z.lxor_eq_0_iff, Forall_cons. cbn.
    split; [intros [[-> E] H]; split_and!; [done|by apply byte_value_inj|done]|].
    intros (-> & -> & H). done.
Qed.

Lemma Forall_zip_eq {A} (l k : list A) :
  length l = length k → Forall (λ p, p.1 = p.2) (zip l k) ↔ l = k.
Proof.
  revert k. induction l as [|a l IH]; intros [|b k] Hl; try done. cbn in *.
  rewrite Forall_cons, IH by lia. cbn. split; [by intros [-> ->]|by intros [= -> ->]].
Qed.

Lemma constant_time_hex_eq_spec left right :
  constant_time_hex_eq left right = true ↔ left = right.
Proof.
  unfold constant_time_hex_eq. destruct (Nat.eqb_spec (String.length left) (String.length right)) as [E|E].
  - cbn [negb]. rewrite Z.eqb_eq, fold_difference, Forall_zip_eq by (by rewrite !length_as_bytes).
    split; [intros [_ H]; by apply as_bytes_inj|by intros ->].
  - split; [done|by intros ->].
Qed.

Section evidence.
Context `{CryptoLaws}.

(** ** Authentication *)
Lemma authentic_payload_Ok text key payload :
  authentic_payload text key = Ok payload →
  text = payload +:+ "authentication=" +:+ hmac_sha256 key payload +:+ String LF "".
Proof.
  unfold authentic_payload. intros (? & _ & Hr)%bind_Ok. apply bind_Ok in Hr as (start & _ & Hr).
  destruct (split_at start text) as [pl line] eqn:Es. apply split_at_eq in Es as ->.
  apply bind_Ok in Hr as (tag & Ht%ok_or_Ok & Hr).
  destruct (strip_prefix "authentication=" line) as [v|] eqn:Ep; [|done].
  apply strip_prefix_Some in Ep as ->. apply strip_suffix_Some in Ht as ->.
  apply bind_Ok in Hr as (? & _ & Hr). apply bind_Ok in Hr as (? & Hr & [= <-]).
  apply reject_if_Ok, negb_false_iff, constant_time_hex_eq_spec in Hr as <-. done.
Qed.

Lemma hmac_lower key payload : forallb is_lower_hex (codes (hmac_sha256 key payload)) = true.
Proof. apply hex_encode_lower. Qed.

Lemma hmac_length key payload : String.length (hmac_sha256 key payload) = 64%nat.
Proof. unfold hmac_sha256. by rewrite hex_encode_length, sha256_length. Qed.

Lemma lower_hex_ascii_hexdigit a : is_lower_hex (Ascii.N_of_ascii a) = true → is_ascii_hexdigit a = true.
Proof.
  unfold is_lower_hex, is_ascii_hexdigit, hex_value. intros Ha. apply bool_decide_eq_true.
  apply orb_prop in Ha as [Ha|Ha]; rewrite Ha; [eauto|].
  destruct ((48 <=? Ascii.N_of_ascii a)%N && (Ascii.N_of_ascii a <=? 57)%N); eauto.
Qed.

Lemma hmac_hexdigits key payload : all_hexdigits (hmac_sha256 key payload) = true.
Proof.
  pose proof (hmac_lower key payload) as Hl. unfold all_hexdigits, codes in *.
  induction (String.list_ascii_of_string (hmac_sha256 key payload)) as [|a l IH]; [done|]. cbn in *.
  apply andb_prop in Hl as [Ha Hl]. by rewrite lower_hex_ascii_hexdigit, IH.
Qed.

Lemma hmac_avoids key payload : avoids "authentication=" (hmac_sha256 key payload +:+ String LF "").
Proof.
  exists "="%char. split; [cbn; set_solver|]. rewrite list_ascii_app. cbn.
  intros [Hin|Hin]%elem_of_app; [|set_solver].
  pose proof (forallb_codes_free is_lower_hex "="%char _ (hmac_lower key payload)) as Hf.
  rewrite free_elem in Hf. by apply Hf.
Qed.

Lemma hmac_graphic key payload : all_graphic (hmac_sha256 key payload) = true.
Proof.
  pose proof (hmac_lower key payload) as Hl. unfold all_graphic.
  induction (codes (hmac_sha256 key payload)) as [|c l IH]; [done|]. cbn in *.
  apply andb_prop in Hl as [Hc Hl]. rewrite IH by done. rewrite andb_true_r.
  unfold is_lower_hex in Hc. unfold graphic. apply andb_true_iff. rewrite !N.leb_le.
  apply orb_prop in Hc as [Hc|Hc]; apply andb_prop in Hc as [H1%N.leb_le H2%N.leb_le]; lia.
Qed.

Lemma authentic_payload_ok key payload :
  ascii_text payload = true →
  authentic_payload (payload +:+ "authentication=" +:+ hmac_sha256 key payload +:+ String LF "") key
  = Ok payload.
Proof.
  intros Ha. unfold authentic_payload.
  rewrite utf8_valid_ascii; cycle 1.
  { change (ascii_text (payload +:+ "authentication=" +:+ hmac_sha256 key payload +:+ String LF "") = true).
    rewrite !ascii_text_app, Ha, (graphic_ascii (hmac_sha256 key payload)) by apply hmac_graphic. done. }
  cbn [negb reject_if]. cbv [mbind result_bind].
  rewrite (rfind_app _ _ _ 0) by (apply rfind_authentication, hmac_avoids). cbn [ok_or].
  rewrite Nat.add_0_r, split_at_app, strip_prefix_app, strip_suffix_app. cbn [ok_or].
  rewrite hmac_length, hmac_hexdigits. cbn [Nat.eqb negb orb reject_if].
  by rewrite (proj2 (constant_time_hex_eq_spec _ _)).
Qed.

(** ** Receipts are read back *)

(** An identifier that needs no trimming. *)
Definition exact_identifier (s : string) : Prop := ∀ label, normalize_identifier label s = Ok s.

Lemma identifier_byte_graphic c : identifier_byte c = true → graphic c = true.
Proof.
  unfold identifier_byte, graphic. intros Hc. apply andb_true_iff. rewrite !N.leb_le.
  repeat (apply orb_prop in Hc as [Hc|Hc]); try (apply N.eqb_eq in Hc; lia);
    apply andb_prop in Hc as [H1%N.leb_le H2%N.leb_le]; lia.
Qed.

Lemma identifier_graphic s : forallb identifier_byte (codes s) = true → all_graphic s = true.
Proof.
  unfold all_graphic. induction (codes s) as [|c l IH]; [done|]. cbn. intros [Hc Hl]%andb_prop.
  by rewrite identifier_byte_graphic, IH.
Qed.

Lemma normalize_identifier_graphic label v s : normalize_identifier label v = Ok s → all_graphic s = true.
Proof.
  unfold normalize_identifier. destruct (_ || _) eqn:E; [done|]. intros [= <-].
  apply orb_false_iff in E as [_ E%negb_false_iff]. by apply identifier_graphic.
Qed.

(** What [normalize_identifier] returns is exact. *)
Lemma normalize_identifier_exact label v s : normalize_identifier label v = Ok s → exact_identifier s.
Proof.
  intros Hn label'. pose proof (normalize_identifier_graphic _ _ _ Hn) as Hg.
  unfold normalize_identifier in *. destruct (_ || _) eqn:E in Hn; [done|]. injection Hn as Hs.
  rewrite Hs in E. rewrite str_trim_graphic by done. by rewrite E.
Qed.

Lemma exact_identifier_graphic s : exact_identifier s → all_graphic s = true.
Proof. intros He. by eapply (normalize_identifier_graphic ""). Qed.

Lemma graphic_utf8 s : all_graphic s = true → utf8_valid s = true.
Proof. intros Hg. apply utf8_valid_ascii. by apply graphic_ascii. Qed.

Record evidence_ok (e : ParsedEvidence) : Prop := {
  eo_update : exact_identifier (ev_update_id e);
  eo_target : exact_identifier (ev_target_id e);
  eo_subject : exact_identifier (ev_subject_id e);
  eo_proof : exact_identifier (ev_proof_id e);
  eo_generation : match ev_dispatch_generation e with Some g => exact_identifier g | None => True end;
  eo_issued : match ev_issued_unix_ms e with Some v => is_u64 v | None => True end;
  eo_source : exact_identifier (ev_source e);
  eo_result : exact_identifier (ev_result e);
}.

Lemma evidence_lines_graphic e :
  evidence_ok e → Forall (λ l, all_graphic l = true) (evidence_lines e).
Proof.
  intros [H1 H2 H3 H4 H5 H6 H7 H8]. unfold evidence_lines.
  repeat constructor; rewrite ?all_graphic_app, ?hex_encode_graphic; try done.
  - by destruct (ev_kind e).
  - destruct (ev_issued_unix_ms e) as [v|]; [|done]. by rewrite u64_text_graphic.
  - by apply exact_identifier_graphic in H7.
  - by apply exact_identifier_graphic in H8.
Qed.

Lemma required_hex_ok s label : utf8_valid s = true → required_hex (hex_encode (Some s)) label = Ok s.
Proof. intros Hs. unfold required_hex. by rewrite hex_decode_encode. Qed.

Lemma optional_u64_ok o label :
  match o with Some v => is_u64 v | None => True end →
  optional_u64 (match o with Some v => u64_to_string v | None => "-" end) label = Ok o.
Proof.
  unfold optional_u64. destruct o as [v|]; [|done]. intros Hv.
  destruct (proj2 (u64_parse_canonical (u64_to_string v) v)) as [Hc Hp]; [done|].
  rewrite bool_decide_eq_false_2; [by rewrite Hp|]. intros E.
  apply canonical_decimal_spec in Hc as (_ & _ & Hc). by rewrite E in Hc.
Qed.

Lemma kind_parse_as_str k : EvidenceKind_parse (EvidenceKind_as_str k) = Ok k.
Proof. by destruct k. Qed.

(** A receipt with exact identifiers is read back from the text that the
    producer writes, under the key it was written with. *)
Theorem evidence_roundtrip e key :
  evidence_ok e → parse_evidence (serialize_evidence e key) key = Ok e.
Proof.
  intros He. pose proof (evidence_lines_graphic e He) as Hg.
  unfold parse_evidence, serialize_evidence.
  rewrite authentic_payload_ok; cycle 1.
  { apply ascii_unlines. eapply Forall_impl; [exact Hg|]. intros l. apply graphic_ascii. }
  cbv [mbind result_bind]. rewrite lines_unlines; cycle 1.
  { eapply Forall_impl; [exact Hg|]. intros l. apply graphic_plain_line. }
  destruct He as [H1 H2 H3 H4 H5 H6 H7 H8]. unfold evidence_lines.
  rewrite bool_decide_eq_true_2 by done. cbn [negb reject_if].
  rewrite parse_field_ok, kind_parse_as_str by done.
  do 4 (rewrite parse_field_ok by done; rewrite required_hex_ok by (by apply graphic_utf8, exact_identifier_graphic)).
  rewrite parse_field_ok by done. rewrite hex_decode_encode; cycle 1.
  { destruct (ev_dispatch_generation e); [|done]. by apply graphic_utf8, exact_identifier_graphic. }
  rewrite parse_field_ok by done. rewrite optional_u64_ok by done.
  do 2 (rewrite parse_field_ok by done). cbn [is_nil_list negb reject_if].
  rewrite H1, H2, H3, H4, H7, H8.
  assert (check_identifier "dispatch generation" (ev_dispatch_generation e) = Ok tt) as ->.
  { unfold check_identifier. destruct (ev_dispatch_generation e); [|done]. by rewrite H5. }
  by destruct e.
Qed.

(** ** Authenticity of the receipts of the coordinator *)

(** A receipt file with its authentication. *)
Definition authenticated_text (key : bytes) (payload : string) : string :=
  payload +:+ "authentication=" +:+ hmac_sha256 key payload +:+ String LF "".

Lemma parse_evidence_authentic text key e :
  parse_evidence text key = Ok e → ∃ payload, text = authenticated_text key payload.
Proof.
  unfold parse_evidence. intros (payload & Hp & _)%bind_Ok. apply authentic_payload_Ok in Hp. eauto.
Qed.

(** [text] was read from a file that was open at [path], owned by [uid] and
    known by no other name. *)
Definition served (env : FsEnv) (path : Path) (uid : Z) (text : string) : Prop :=
  ∃ w0 w1 w2 w3 f m, open_file (read_only true) path env w0 = (w1, Some (Ok f)) ∧
    file_metadata f env w1 = (w2, Some (Ok m)) ∧ m_uid m = uid ∧ m_nlink m = 1%Z ∧
    read_to_end f env w2 = (w3, Some (Ok text)).

Lemma read_receipt_served v rid env w w' e :
  read_receipt v rid env w = (w', Some (Ok e)) →
  ∃ payload, served env (receipt_path v rid) (tv_root_uid v) (authenticated_text (tv_key v) payload) ∧
    parse_evidence (authenticated_text (tv_key v) payload) (tv_key v) = Ok e.
Proof.
  unfold read_receipt. intros Hr. io_inv.
  destruct (parse_evidence_authentic _ _ _ Hr) as [payload ->]. exists payload. split; [|done].
  unfold receipt_untrusted_open in *.
  repeat match goal with H : _ || _ = false |- _ => apply orb_false_iff in H as [H ?] end.
  repeat match goal with H : negb (_ =? _)%Z = false |- _ => apply negb_false_iff, Z.eqb_eq in H end.
  unfold served. eauto 20.
Qed.

Lemma freshness_Ok issued started env w w' u :
  validate_package_evidence_freshness issued started env w = (w', Some (Ok u)) →
  ∃ now, unix_now_ms env w = (w', Some (@Ok UpdateError Z now)) ∧
    stale_evidence PACKAGE_VERIFICATION_FUTURE_SKEW_MS PACKAGE_VERIFICATION_MAX_AGE_MS now issued started
    = false.
Proof. unfold validate_package_evidence_freshness. intros Hr. io_inv. eauto. Qed.

(** A receipt neither older than the attempt or the window nor from the
    future. *)
Lemma stale_evidence_false skew max_age now issued started :
  (0 ≤ skew)%Z → stale_evidence skew max_age now issued started = false →
  (started ≤ issued)%Z ∧ (issued ≤ now + skew)%Z ∧ (now - issued ≤ max_age)%Z.
Proof.
  unfold stale_evidence, u64_saturating_add, u64_saturating_sub. intros Hs Hf.
  apply orb_false_iff in Hf as [Hf H3]. apply orb_false_iff in Hf as [H1 H2].
  apply Z.ltb_ge in H1, H2, H3. lia.
Qed.

(** C26: the verifier turns a file into a package receipt only when, whatever
    other processes did meanwhile, the bytes were read from a file open at the
    receipt's path that belongs to the producer and has no other name, carry the
    HMAC of their payload under the verifier's key, testify as the producer that
    exactly the expected transaction of the expected update and target was
    verified for this dispatch, and were issued after the dispatch began, at
    most a quarter of an hour ago and at most 30 seconds ahead of the clock. *)
Theorem package_receipt_authentic v rid u t tx gen started env w w' r :
  verify_package v rid u t tx gen started env w = (w', Some (Ok r)) →
  ∃ payload e,
    served env (receipt_path v (str_trim rid)) (tv_root_uid v) (authenticated_text (tv_key v) payload) ∧
    parse_evidence (authenticated_text (tv_key v) payload) (tv_key v) = Ok e ∧
    ev_kind e = PackageVerification ∧ ev_source e = V09_UPDATE_EVIDENCE_PRODUCER_ID ∧
    ev_result e = "verified" ∧
    pr_receipt_id r = str_trim rid ∧
    pr_update_id r = ev_update_id e ∧ pr_update_id r = str_trim u ∧
    pr_target_id r = ev_target_id e ∧ pr_target_id r = str_trim t ∧
    pr_transaction_id r = ev_subject_id e ∧ pr_transaction_id r = str_trim tx ∧
    ev_dispatch_generation e = Some (pr_dispatch_generation r) ∧
    pr_dispatch_generation r = str_trim gen ∧
    ev_issued_unix_ms e = Some (pr_issued_unix_ms r) ∧
    ∃ now w1 w2, unix_now_ms env w1 = (w2, Some (@Ok UpdateError Z now)) ∧
      (started ≤ pr_issued_unix_ms r ≤ now + 30000)%Z ∧
      (now - pr_issued_unix_ms r ≤ 900000)%Z.
Proof.
  unfold verify_package. intros Hr. io_inv.
  repeat match goal with
  | E : normalize_identifier _ _ = Ok ?x |- _ =>
      lazymatch x with
      | _ => let Hn := fresh "Hn" in
          pose proof E as Hn; unfold normalize_identifier in Hn;
          destruct (_ || _) in Hn; [done|]; injection Hn as Hn; clear E
      end
  end.
  match goal with E : read_receipt _ _ _ _ = _ |- _ => apply read_receipt_served in E as (payload & Hs & Hp) end.
  match goal with E : validate_package_evidence_freshness _ _ _ _ = _ |- _ =>
    apply freshness_Ok in E as (now & Hnow & Hfresh) end.
  apply stale_evidence_false in Hfresh; [|done].
  repeat match goal with E : _ || _ = false |- _ => apply orb_false_iff in E as [E ?] end.
  repeat match goal with E : negb (bool_decide _) = false |- _ =>
    apply negb_false_iff, bool_decide_eq_true in E end.
  injection Hr as _ <-. cbn. eexists payload, _. subst.
  split_and!; try done; try congruence. eexists now, _, _.
  split; [exact Hnow|].
  unfold PACKAGE_VERIFICATION_FUTURE_SKEW_MS, PACKAGE_VERIFICATION_MAX_AGE_MS in *. lia.
Qed.
End evidence.
