(* ===== verification/UpdateWitnesses.v ===== *)
(** * The theorems about updates, applied

    One machine on which an update is opened, brought to its package
    transaction, dispatched, verified and moved on. *)

From Stdlib Require Import ZArith Lia Ascii.
From stdpp Require Import base numbers gmap strings list fin_maps sorting relations.
From S2P Require Import Prelude Text Fields Digest CryptoModel Paths Files ControlFiles.
From S2P Require Import FileFacts ControlFacts Update.
From S2P Require Import UpdateCoordinator UpdateSteps UpdateSafety.
From S2P Require Import UpdateEvidence UpdateEvidenceFacts.

Set Default Goal Selector "!".

(** ** A machine *)
Definition dir_inode (k : Z) : Inode :=
  {| i_kind := Directory; i_mode := 493; i_uid := 0; i_nlink := 2; i_dev := 1; i_ino := k;
     i_mtime := (1000, 0)%Z; i_ctime := (1000, 0)%Z; i_data := ""; i_synced := true |}.
Definition dir_entry (id : InodeId) : Entry := {| e_latest := Some id; e_pending := [] |}.

Definition fresh_fs : FS :=
  {| fs_entries := {[ [] := dir_entry 0; ["var"] := dir_entry 1 ]};
     fs_inodes := {[ 0%nat := dir_inode 1; 1%nat := dir_inode 2 ]};
     fs_next := 2 |}.

Definition calm_env : FsEnv :=
  {| interfere := λ _ fs, fs; fault := λ _, None; killed := λ _, false;
     clock := λ n, (1700000000 + Z.of_nat n, 5)%Z; identity := λ n, (1, 100 + Z.of_nat n)%Z;
     written := λ _, 0%nat; delivered := λ _, 999%nat; patience := 100; random := λ _, ""; process_id := 77; user_id := 0; umask := 18;
     working_directory := [] |}.

Definition journal_dir : Key := ["var"].
Definition journal_path : Path := "/var/journal".

Lemma rely_refl d fs : rely d fs fs.
Proof. by split. Qed.

Lemma calm_quiet d : quiet d calm_env.
Proof. intros n fs. apply rely_refl. Qed.

Lemma journal_located : located journal_path journal_dir "journal".
Proof. split; [done|]. by repeat constructor. Qed.

Lemma fresh_entry k : entry_at fresh_fs k =
  if decide (k = []) then dir_entry 0 else if decide (k = ["var"]) then dir_entry 1 else no_entry.
Proof.
  unfold entry_at. cbn [fs_entries fresh_fs]. repeat case_decide; subst; [done|done|].
  by rewrite lookup_insert_ne, lookup_singleton_ne by done.
Qed.

Lemma fresh_inode id : fs_inodes fresh_fs !! id =
  if decide (id = 0)%nat then Some (dir_inode 1) else if decide (id = 1)%nat then Some (dir_inode 2) else None.
Proof.
  cbn [fs_inodes fresh_fs]. repeat case_decide; subst; [done|done|].
  by rewrite lookup_insert_ne, lookup_singleton_ne by done.
Qed.

Lemma fresh_place_of n : place journal_dir n [None] fresh_fs.
Proof.
  split; [split; [split|]|].
  - intros k id. rewrite fresh_entry, fresh_inode. unfold possible.
    repeat case_decide; cbn; rewrite ?elem_of_cons, ?elem_of_nil; naive_solver.
  - intros id. rewrite fresh_inode. repeat case_decide; cbn; [lia..|by intros []].
  - intros k [k' Hk]. unfold journal_dir in Hk. unfold settled_dir. rewrite fresh_entry.
    destruct k as [|a [|b k]]; [|injection Hk as <- <-|done].
    + exists 0%nat, (dir_inode 1). by rewrite fresh_inode.
    + exists 1%nat, (dir_inode 2). by rewrite fresh_inode.
  - unfold views. by rewrite fresh_entry.
Qed.

Lemma fresh_place : place journal_dir "journal" [None] fresh_fs.
Proof. apply fresh_place_of. Qed.

(** ** Driving it *)
Definition swift_policy : UpdatePolicy :=
  {| minimum_free_bytes := 0; require_snapshot_when_available := false; inhibit_suspend := true;
     verify_after_restart := true |}.

Definition start_machine : Machine := {| mc_fs := fresh_fs; mc_coordinators := []; mc_log := [] |}.
Definition world_of (m : Machine) : World := {| w_fs := mc_fs m; w_calls := 0 |}.

Definition after_open (u t : string) (m : Machine) : Machine :=
  let '(w, r) := UpdateCoordinator_open journal_path swift_policy u t calm_env (world_of m) in
  {| mc_fs := w_fs w; mc_coordinators := opened r ++ mc_coordinators m; mc_log := mc_log m |}.

Definition after_op (op : UpdateCoordinator → UpdateOp) (m : Machine) : Machine :=
  match mc_coordinators m with
  | [] => m
  | c :: rest =>
      let '(w, r) := run_op (op c) c calm_env (world_of m) in
      {| mc_fs := w_fs w; mc_coordinators := [] ++ survivor r ++ rest;
         mc_log := {| le_op := op c; le_on := c; le_result := r |} :: mc_log m |}
  end.

Abbreviation reached := (machine_reachable journal_dir "journal" journal_path).

Lemma start_reached : reached start_machine.
Proof. exists start_machine. split; [|constructor]. split; [apply fresh_place|done]. Qed.

Lemma reached_step m m' :
  reached m → machine_step journal_dir journal_path m m' → reached m'.
Proof. intros (m0 & Hi & Hr) Hs. exists m0. split; [done|]. by eapply rtc_r. Qed.

Lemma reached_open u t m : reached m → reached (after_open u t m).
Proof.
  intros Hm. unfold after_open.
  destruct (UpdateCoordinator_open journal_path swift_policy u t calm_env (world_of m)) as [w r] eqn:E.
  eapply reached_step; [done|]. eapply step_open; [apply calm_quiet|exact E].
Qed.

Lemma reached_op op m : (∀ c, op_strings (op c)) → reached m → reached (after_op op m).
Proof.
  intros Hs Hm. unfold after_op. destruct (mc_coordinators m) as [|c rest] eqn:Ec; [done|].
  destruct (run_op (op c) c calm_env (world_of m)) as [w r] eqn:E.
  eapply reached_step; [done|]. eapply step_op; [apply calm_quiet|apply Hs|exact Ec|exact E].
Qed.

(** The receipt of the dispatch that a coordinator has made. *)
Definition receipt_for (c : UpdateCoordinator) : PackageVerificationReceipt :=
  {| pr_receipt_id := "receipt-1"; pr_update_id := uc_update_id c; pr_target_id := uc_target_id c;
     pr_transaction_id := "tx-1"; pr_observation_id := "obs-1";
     pr_dispatch_generation := jg_token (uc_journal_generation c);
     pr_issued_unix_ms := jg_committed_unix_ms (uc_journal_generation c) |}.

Definition dispatched_machine : Machine :=
  after_op (λ _, OpDispatch)
    (after_op (λ _, OpPrepare "tx-1")
      (after_op (λ _, OpTransition SnapshotStage)
        (after_op (λ _, OpTransition DiskSpace)
          (after_op (λ _, OpTransition Preflight) (after_open "update-1" "target-1" start_machine))))).

Definition migrated_machine : Machine :=
  after_op (λ _, OpTransition Migrations) (after_op (λ c, OpVerified (receipt_for c)) dispatched_machine).

Lemma dispatched_reached : reached dispatched_machine.
Proof.
  unfold dispatched_machine. do 5 (refine (reached_op _ _ (λ _, _) _); [by vm_compute|..]).
  exact (reached_open _ _ _ start_reached).
Qed.

Lemma migrated_reached : reached migrated_machine.
Proof.
  unfold migrated_machine. do 2 (refine (reached_op _ _ (λ _, _) _); [done|..]).
  exact dispatched_reached.
Qed.

(** ** The theorems at this machine *)

(** The last operation of the log, and the state that can be read now. *)
Definition last_entry (m : Machine) : option LogEntry := head (mc_log m).
Definition state_now (m : Machine) : option UpdateState :=
  match UpdateJournalStore_load journal_path calm_env (world_of m) with
  | (_, Some (Ok s)) => Some s
  | _ => None
  end.

Lemma last_entry_logged m e : last_entry m = Some e → e ∈ mc_log m.
Proof. unfold last_entry. destruct (mc_log m); [done|]. intros [= ->]. left. Qed.

Lemma state_now_loads m s : state_now m = Some s → loads journal_dir journal_path (mc_fs m) s.
Proof.
  unfold state_now. intros Hs.
  destruct (UpdateJournalStore_load journal_path calm_env (world_of m)) as [w [[x|]|]] eqn:E; try done.
  injection Hs as ->. exists calm_env, 0%nat, w. split; [apply calm_quiet|exact E].
Qed.

(** What is computed of the machines, as booleans. *)
Definition migrated_check (m : Machine) : bool :=
  match mc_log m !! 2%nat, state_now m with
  | Some e, Some t =>
      match acknowledged e with
      | Some s => bool_decide (us_external_effect s = DispatchStarted)
                  && bool_decide (us_stage t = Migrations)
                  && bool_decide (us_verification_receipt_id t = Some "receipt-1"%string)
      | None => false
      end
  | _, _ => false
  end.

Lemma migrated_check_spec m :
  migrated_check m = true →
  ∃ e s t, e ∈ mc_log m ∧ acknowledged e = Some s ∧ loads journal_dir journal_path (mc_fs m) t ∧
    us_external_effect s = DispatchStarted ∧ us_stage t = Migrations ∧
    us_verification_receipt_id t = Some "receipt-1"%string.
Proof.
  unfold migrated_check. destruct (mc_log m !! 2%nat) as [e|] eqn:El; [|done].
  destruct (state_now m) as [t|] eqn:Et; [|done]. destruct (acknowledged e) as [s|] eqn:Ea; [|done].
  rewrite !andb_true_iff, !bool_decide_eq_true. intros [[H1 H2] H3]. exists e, s, t.
  split; [by eapply list_elem_of_lookup_2|]. split; [done|]. split; [by apply state_now_loads|done].
Qed.

Lemma migrated_checked : migrated_check migrated_machine = true.
Proof. vm_compute. reflexivity. Qed.

Definition reopened (m : Machine) : World * option (result UpdateError UpdateCoordinator) :=
  UpdateCoordinator_open journal_path swift_policy "update-1" "target-1" calm_env (world_of m).

Definition dispatched_check (m : Machine) : bool :=
  match last_entry m, reopened m with
  | Some e, (_, Some (Ok _)) =>
      dispatch_acknowledged e && (length (filter dispatch_acknowledged (mc_log m)) =? 1)%nat
  | _, _ => false
  end.

Lemma dispatched_check_spec m :
  dispatched_check m = true →
  ∃ e w c, e ∈ mc_log m ∧ dispatch_acknowledged e = true ∧ 
    UpdateCoordinator_open journal_path swift_policy "update-1" "target-1" calm_env
      {| w_fs := mc_fs m; w_calls := 0 |} = (w, Some (Ok c)) ∧
    length (filter dispatch_acknowledged (mc_log m)) = 1%nat.
Proof.
  unfold dispatched_check. destruct (last_entry m) as [e|] eqn:El; [|done].
  destruct (reopened m) as [w [[c|]|]] eqn:Eo; [|done..]. rewrite andb_true_iff, Nat.eqb_eq. intros [H1 H2].
  exists e, w, c. split; [by apply last_entry_logged|]. by split.
Qed.

Lemma dispatched_checked : dispatched_check dispatched_machine = true.
Proof. vm_compute. reflexivity. Qed.

(** The dispatch is acknowledged, the update goes on to its migrations, and the
    acknowledged dispatch is below the state that is then read. *)
Lemma acknowledged_progress_survives_witness :
  ∃ e s t, e ∈ mc_log migrated_machine ∧ acknowledged e = Some s ∧
    us_external_effect s = DispatchStarted ∧ us_stage t = Migrations ∧ later s t.
Proof.
  destruct (migrated_check_spec _ migrated_checked) as (e & s & t & He & Ha & Hl & Hs & Ht & _).
  exists e, s, t. split; [exact He|]. split; [exact Ha|]. split; [exact Hs|]. split; [exact Ht|].
  exact (acknowledged_progress_survives journal_dir "journal" journal_path journal_located
    migrated_machine e s (mc_fs migrated_machine) t migrated_reached He Ha (or_introl eq_refl) Hl).
Defined.

(** The dispatch of this machine is its only one, and a coordinator opened now
    does not dispatch again. *)
Lemma dispatch_at_most_once_witness :
  ∃ w c, UpdateCoordinator_open journal_path swift_policy "update-1" "target-1" calm_env
      {| w_fs := mc_fs dispatched_machine; w_calls := 0 |} = (w, Some (Ok c)) ∧
    length (filter dispatch_acknowledged (mc_log dispatched_machine)) = 1%nat ∧
    resume_decision c ≠ SafeToDispatchPrepared.
Proof.
  destruct (dispatched_check_spec _ dispatched_checked) as (e & w & c & He & Hd & Ho & Hn).
  exists w, c. split; [exact Ho|]. split; [exact Hn|].
  exact (proj2 (dispatch_at_most_once journal_dir "journal" journal_path journal_located
    dispatched_machine dispatched_reached) e _ calm_env 0%nat swift_policy _ _ w c
    He Hd (or_introl eq_refl) (calm_quiet _) Ho).
Defined.

(** The update that has reached its migrations carries the receipt. *)
Lemma past_package_is_verified_witness :
  ∃ t, us_verification_receipt_id t = Some "receipt-1"%string ∧
    verified_by (mc_log migrated_machine) t.
Proof.
  destruct (migrated_check_spec _ migrated_checked) as (e & s & t & _ & _ & Hl & _ & Ht & Hr).
  exists t. split; [exact Hr|].
  refine (past_package_is_verified journal_dir "journal" journal_path journal_located migrated_machine
    _ t migrated_reached (or_introl eq_refl) Hl _).
  rewrite Ht. reflexivity.
Defined.

(** ** A power loss *)
Definition settle_entry (e : Entry) : Entry := {| e_latest := e_latest e; e_pending := [] |}.
(** The power loss in which every pending name had reached the disk. *)
Definition settle_all (fs : FS) : FS :=
  {| fs_entries := settle_entry <$> fs_entries fs; fs_inodes := fs_inodes fs; fs_next := fs_next fs |}.

Lemma settle_power_loss fs : power_loss fs (settle_all fs).
Proof.
  split; [|by intros id [] ? ?; eexists _, _|done..]. intros k. unfold entry_at, settle_all. cbn. rewrite lookup_fmap.
  destruct (fs_entries fs !! k) as [e|]; cbn; (split; [left|done]).
Qed.

Definition first_write : World * option (result UpdateError unit) :=
  atomic_write journal_texts journal_path "text" calm_env (world_of start_machine).

Lemma first_write_acknowledged :
  match first_write.2 with Some (Ok _) => true | _ => false end = true.
Proof. vm_compute. reflexivity. Qed.

(** A first journal, written where there was none. *)
Lemma atomic_write_crash_safe_witness :
  place journal_dir "journal" [Some (written_view calm_env "text")] (settle_all (w_fs first_write.1)).
Proof.
  destruct first_write as [w r] eqn:Er. pose proof first_write_acknowledged as Hok. rewrite Er in Hok.
  destruct (atomic_write_crash_safe journal_dir calm_env "journal" journal_path journal_texts None "text"
    (world_of start_machine) w r (settle_all (w_fs w)) (calm_quiet _) journal_located
    fresh_place I Er (settle_power_loss _)) as (v & Hv & Hr).
  destruct r as [[[]|x]|]; [|discriminate Hok|discriminate Hok]. rewrite Hr in Hv. exact Hv.
Defined.

(** ** A receipt *)
Definition producer_key : bytes := repeat Byte.x2a 32.
Definition sample_evidence : ParsedEvidence :=
  {| ev_kind := PackageVerification; ev_update_id := "update-1"; ev_target_id := "target-1";
     ev_subject_id := "tx-1"; ev_proof_id := "obs-1"; ev_dispatch_generation := Some "generation-1";
     ev_issued_unix_ms := Some 1700000000000%Z; ev_source := V09_UPDATE_EVIDENCE_PRODUCER_ID;
     ev_result := "verified" |}%string.

Lemma sample_evidence_ok : evidence_ok sample_evidence.
Proof. by split. Qed.

(** The sample, through its text. *)
Lemma evidence_roundtrip_witness :
  evidence_ok sample_evidence ∧
  parse_evidence (serialize_evidence sample_evidence producer_key) producer_key = Ok sample_evidence.
Proof.
  split; [exact sample_evidence_ok|]. exact (evidence_roundtrip sample_evidence producer_key sample_evidence_ok).
Defined.

Definition issued_world : World :=
  (issue_package_verification {| qi_root := "/var"; qi_key := producer_key |} "receipt-1" "update-1"
     "target-1" "tx-1" "obs-1" "generation-1" calm_env (world_of start_machine)).1.

Definition sample_verifier : TrustedUpdateEvidenceVerifier :=
  {| tv_root := "/var"; tv_root_device := 1; tv_root_inode := 2; tv_root_uid := 0;
     tv_key := producer_key |}.

Definition verified_check (w : World) : bool :=
  match verify_package sample_verifier " receipt-1" "update-1" "target-1" "tx-1" "generation-1"
          1700000000000 calm_env w with
  | (_, Some (Ok _)) => true
  | _ => false
  end.

Lemma verified_check_spec w0 :
  verified_check w0 = true →
  ∃ w r, verify_package sample_verifier " receipt-1" "update-1" "target-1" "tx-1" "generation-1"
    1700000000000 calm_env w0 = (w, Some (Ok r)).
Proof.
  unfold verified_check.
  destruct (verify_package sample_verifier _ _ _ _ _ _ calm_env w0) as [w [[r|]|]]; [eauto|done..].
Qed.

Lemma verified_checked : verified_check issued_world = true.
Proof. vm_compute. reflexivity. Qed.

(** The producer's receipt is accepted, and what the verifier says of it holds. *)
Lemma package_receipt_authentic_witness :
  ∃ w r, verify_package sample_verifier " receipt-1" "update-1" "target-1" "tx-1" "generation-1"
      1700000000000 calm_env issued_world = (w, Some (Ok r)) ∧
    pr_transaction_id r = "tx-1"%string ∧
    ∃ payload, served calm_env (receipt_path sample_verifier "receipt-1") 0
      (authenticated_text producer_key payload).
Proof.
  destruct (verified_check_spec _ verified_checked) as (w & r & Er).
  exists w, r. split; [exact Er|].
  destruct (package_receipt_authentic sample_verifier _ _ _ _ _ _ calm_env issued_world w r Er)
    as (payload & e & Hs & _ & _ & _ & _ & _ & _ & _ & _ & _ & _ & Ht & _).
  split; [exact Ht|]. exists payload. exact Hs.
Defined.

(** ** A journal *)
Definition sample_state : UpdateState :=
  {| us_update_id := Some "update-1"; us_target_id := Some "target-1"; us_stage := PackageTransaction;
     us_snapshot_id := None; us_snapshot_receipt_id := None; us_transaction_id := Some "tx-1";
     us_verification_receipt_id := None; us_recovery_reason := None;
     us_external_effect := PreparedEffect |}%string.

(** The sample, through the text of the journal. *)
Lemma journal_roundtrip_witness :
  validate_persisted_state sample_state = Ok tt ∧
  parse_journal (serialize_journal sample_state) = Ok sample_state.
Proof.
  split; [reflexivity|]. refine (proj1 journal_roundtrip sample_state _ _); [reflexivity|].
  by repeat split.
Defined.
