(* ===== verification/MigrationLedger.v ===== *)
(** * The migration engine: ledger and recovery records

    linura-migrations/src/lib.rs: descriptors, the ledger of applied
    migrations, the recovery record that is on disk while a migration runs, and
    the text formats of both. *)

From Stdlib Require Import ZArith Lia Ascii.
From stdpp Require Import base numbers gmap strings list fin_maps sorting.
From S2P Require Import Prelude Text Fields Ordered Paths Files ControlFiles.

Set Default Goal Selector "!".

Inductive MigrationError :=
| InvalidDescriptor (message : string)
| Operation (message : string)
| RecoveryCheckpointRequired (id : string)
| RecoveryTargetRequired (id : string)
| RecoveryCheckpointUnavailable (id : string)
| BackupNotIndependent
| BackupMismatch
| BackupTargetMismatch
| BackupArtifactNotRegular
| UntrustedBackupArtifact
| UntrustedLedgerPath
| UntrustedLockPath
| UntrustedRecoveryPath
| UnsupportedLedgerVersion
| CorruptLedger (reason : string)
| CorruptRecoveryMarker (reason : string)
| LedgerCommitFailed (migration_id reason : string)
| DurabilityUncertain (reason : string)
| RecoveryRequired (reason : string)
| VerificationFailed (migration_id reason : string)
| ManualRecoveryRequired (id : string)
| IoFailure (message : string).

#[export] Instance migration_control_errors : ControlErrors MigrationError :=
  {| ce_io := IoFailure; ce_uncertain := DurabilityUncertain; ce_untrusted_lock := UntrustedLockPath |}.

Definition MigrationError_display (e : MigrationError) : string :=
  match e with
  | InvalidDescriptor message => message
  | Operation message => message
  | RecoveryCheckpointRequired id => "migration " +:+ id +:+ " requires a validated recovery backup"
  | RecoveryTargetRequired id => "migration " +:+ id +:+ " requires an exact recovery target binding"
  | RecoveryCheckpointUnavailable id =>
      "migration " +:+ id +:+ " has no persisted recovery checkpoint to revalidate"
  | BackupNotIndependent => "migration backup must be a distinct single-purpose file/inode"
  | BackupMismatch => "migration backup no longer matches its validated source bytes/identity"
  | BackupTargetMismatch => "migration backup is not bound to the exact migration target"
  | BackupArtifactNotRegular => "migration backup evidence must use regular non-symlink files"
  | UntrustedBackupArtifact =>
      "migration backup must be a single-link artifact without group/other write access"
  | UntrustedLedgerPath =>
      "migration ledger must be a regular non-symlink file without group/other write access"
  | UntrustedLockPath =>
      "migration lock must be a stable regular non-symlink file without group/other write access"
  | UntrustedRecoveryPath =>
      "migration recovery marker must be a regular non-symlink file without group/other write access"
  | UnsupportedLedgerVersion => "unsupported migration ledger version"
  | CorruptLedger reason => "corrupt migration ledger: " +:+ reason
  | CorruptRecoveryMarker reason => "corrupt migration recovery marker: " +:+ reason
  | LedgerCommitFailed id reason =>
      "migration " +:+ id
      +:+ " ledger commit failed before the commit point and the effect was rolled back: " +:+ reason
  | DurabilityUncertain reason =>
      "migration effect or recovery state has uncertain durability: " +:+ reason
  | RecoveryRequired reason =>
      "migration runner requires reopen/recovery before further work: " +:+ reason
  | VerificationFailed id reason =>
      "migration " +:+ id +:+ " verification failed after rollback: " +:+ reason
  | ManualRecoveryRequired id => "migration " +:+ id +:+ " requires manual recovery"
  | IoFailure message => "migration persistence I/O failed: " +:+ message
  end.

(** ** Descriptors *)
Definition migration_byte (n : N) : bool :=
  ((48 <=? n) && (n <=? 57) || (65 <=? n) && (n <=? 90) || (97 <=? n) && (n <=? 122)
   || (n =? 45) || (n =? 95) || (n =? 46) || (n =? 58))%N.

Definition valid_identifier (value : string) (max_len : Z) : bool :=
  negb (bool_decide (value = "")) && (str_len value <=? max_len)%Z
  && forallb migration_byte (codes value) && negb (str_contains ".." value).

Inductive MigrationScope := SystemScope | UserScope | IntentScope | GraphScope | ProfileScope.

Record MigrationDescriptor := {
  md_id : string;
  md_introduced_in : string;
  md_scope : MigrationScope;
  md_reversible : bool;
  md_requires_snapshot : bool;
}.

Definition invalid_id_text : string := "migration id must be a bounded path-safe identifier".

Definition MigrationDescriptor_validate (d : MigrationDescriptor) : result MigrationError unit :=
  _ ← reject_if (negb (valid_identifier (md_id d) 128)) (InvalidDescriptor invalid_id_text);
  reject_if (trim_is_empty (md_introduced_in d) || (64 <? str_len (md_introduced_in d))%Z
             || has_control (md_introduced_in d))
    (InvalidDescriptor "introduced_in must be a bounded version identifier").

(** ** The ledger *)
Definition MigrationLedger := gset string.

(** One identifier of [from_applied]. *)
Definition ledger_insert (ledger : MigrationLedger) (id : string) : result MigrationError MigrationLedger :=
  _ ← reject_if (negb (valid_identifier id 128)) (CorruptLedger "persisted migration id is invalid");
  _ ← reject_if (bool_decide (id ∈ ledger))
        (CorruptLedger "persisted migration ledger contains a duplicate id");
  Ok ({[id]} ∪ ledger).

Fixpoint from_applied (ledger : MigrationLedger) (applied : list string) :
    result MigrationError MigrationLedger :=
  match applied with
  | [] => Ok ledger
  | id :: rest => ledger ← ledger_insert ledger id; from_applied ledger rest
  end.

Definition is_applied (ledger : MigrationLedger) (id : string) : bool := bool_decide (id ∈ ledger).

Definition mark_applied (ledger : MigrationLedger) (id : string) : result MigrationError MigrationLedger :=
  _ ← reject_if (negb (valid_identifier id 128)) (InvalidDescriptor invalid_id_text);
  Ok ({[id]} ∪ ledger).

Definition LEDGER_MAGIC : string := "linura-migration-ledger-v1".
Definition MAX_LEDGER_BYTES : Z := 1024 * 1024.

Definition ledger_lines (ledger : MigrationLedger) : list string :=
  LEDGER_MAGIC :: map (λ id, "applied=" +:+ id) (btree_elements ledger).

Definition serialize_ledger (ledger : MigrationLedger) : string :=
  let payload := unlines (ledger_lines ledger) in
  payload +:+ "integrity=" +:+ u64_hex16 (integrity_tag payload) +:+ String LF "".

Fixpoint applied_ids (lines : list string) : result MigrationError (list string) :=
  match lines with
  | [] => Ok []
  | line :: rest =>
      id ← ok_or (strip_prefix "applied=" line) (CorruptLedger "unknown ledger field");
      _ ← reject_if (negb (valid_identifier id 128)) (CorruptLedger "invalid persisted migration id");
      ids ← applied_ids rest;
      Ok (id :: ids)
  end.

Definition parse_ledger (bytes : string) : result MigrationError MigrationLedger :=
  payload ← integrity_payload CorruptLedger "ledger is not UTF-8" bytes;
  match lines payload with
  | [] => Err UnsupportedLedgerVersion
  | magic :: l =>
      _ ← reject_if (negb (bool_decide (magic = LEDGER_MAGIC))) UnsupportedLedgerVersion;
      applied ← applied_ids l;
      from_applied ∅ applied
  end.

(** ** Recovery records *)
Record MigrationRecoveryCheckpoint := {
  cp_target_path : Path;
  cp_backup_path : Path;
  cp_target_device : Z;
  cp_target_inode : Z;
  cp_backup_device : Z;
  cp_backup_inode : Z;
  cp_size : Z;
  cp_integrity_tag : Z;
}.

Record MigrationRecoveryRecord := {
  rr_migration_id : string;
  rr_checkpoint : option MigrationRecoveryCheckpoint;
}.

Definition RECOVERY_MAGIC : string := "linura-migration-recovery-v2".
Definition MAX_RECOVERY_MARKER_BYTES : Z := 16 * 1024.
Definition MAX_RECOVERY_PATH_BYTES : Z := 4096.

Definition validate_descriptor (c : MigrationRecoveryCheckpoint) : result MigrationError unit :=
  reject_if
    (path_eqb (cp_target_path c) (cp_backup_path c)
     || negb (is_absolute (cp_target_path c)) || negb (is_absolute (cp_backup_path c))
     || bool_decide (cp_target_path c = "") || bool_decide (cp_backup_path c = "")
     || (MAX_RECOVERY_PATH_BYTES <? str_len (cp_target_path c))%Z
     || (MAX_RECOVERY_PATH_BYTES <? str_len (cp_backup_path c))%Z
     || (cp_size c =? 0)%Z)
    (CorruptRecoveryMarker "recovery checkpoint descriptor is invalid").

Definition MigrationRecoveryRecord_new (migration_id : string)
    (checkpoint : option MigrationRecoveryCheckpoint) : result MigrationError MigrationRecoveryRecord :=
  _ ← reject_if (negb (valid_identifier migration_id 128))
        (CorruptRecoveryMarker "recovery record contains an invalid migration id");
  _ ← match checkpoint with Some c => validate_descriptor c | None => Ok tt end;
  Ok {| rr_migration_id := migration_id; rr_checkpoint := checkpoint |}.

(** ** The text of a recovery record *)
Definition path_hex (path : option Path) : string :=
  match path with None => "-" | Some path => hex_bytes path end.

Definition parse_recovery_path (value label : string) : result MigrationError Path :=
  _ ← reject_if (bool_decide (value = "-") || (MAX_RECOVERY_PATH_BYTES * 2 <? str_len value)%Z
                 || negb (Nat.even (String.length value)) || negb (all_hexdigits value))
        (CorruptRecoveryMarker ("invalid " +:+ label));
  bytes ← ok_or (unhex_pairs value) (CorruptRecoveryMarker ("invalid " +:+ label));
  _ ← reject_if (bool_decide (bytes = "") || (MAX_RECOVERY_PATH_BYTES <? str_len bytes)%Z)
        (CorruptRecoveryMarker ("invalid " +:+ label));
  _ ← reject_if (negb (is_absolute bytes)) (CorruptRecoveryMarker (label +:+ " is not absolute"));
  Ok bytes.

(** [recovery_field(lines.next(), name)]: the value and the lines that remain. *)
Definition recovery_field (lines : list string) (name : string) :
    result MigrationError (string * list string) :=
  match lines with
  | [] => Err (CorruptRecoveryMarker ("missing " +:+ name +:+ " field"))
  | line :: rest =>
      match strip_prefix (name +:+ "=") line with
      | Some value => Ok (value, rest)
      | None => Err (CorruptRecoveryMarker ("invalid " +:+ name +:+ " field"))
      end
  end.

Definition parse_recovery_u64 (value label : string) : result MigrationError Z :=
  ok_or (u64_parse value) (CorruptRecoveryMarker ("invalid " +:+ label)).

(** The nine values of the checkpoint fields. *)
Definition checkpoint_values (checkpoint : option MigrationRecoveryCheckpoint) : list string :=
  match checkpoint with
  | Some c =>
      ["file"; path_hex (Some (cp_target_path c)); path_hex (Some (cp_backup_path c));
       u64_to_string (cp_target_device c); u64_to_string (cp_target_inode c);
       u64_to_string (cp_backup_device c); u64_to_string (cp_backup_inode c);
       u64_to_string (cp_size c); u64_hex16 (cp_integrity_tag c)]
  | None => ["none"; "-"; "-"; "-"; "-"; "-"; "-"; "-"; "-"]
  end.

Definition checkpoint_names : list string :=
  ["checkpoint"; "target_path"; "backup_path"; "target_device"; "target_inode"; "backup_device";
   "backup_inode"; "size"; "checkpoint_integrity"].

Definition recovery_lines (record : MigrationRecoveryRecord) : list string :=
  RECOVERY_MAGIC :: ("migration=" +:+ rr_migration_id record)
  :: zip_with (λ name value, name +:+ "=" +:+ value) checkpoint_names
       (checkpoint_values (rr_checkpoint record)).

Definition serialize_recovery_record (record : MigrationRecoveryRecord) : string :=
  let payload := unlines (recovery_lines record) in
  payload +:+ "integrity=" +:+ u64_hex16 (integrity_tag payload) +:+ String LF "".

(** [checkpoint=file] with its fields. *)
Definition parse_file_checkpoint (target_path backup_path target_device target_inode backup_device
    backup_inode size checkpoint_integrity : string) : result MigrationError MigrationRecoveryCheckpoint :=
  _ ← reject_if (negb (String.length checkpoint_integrity =? 16)%nat
                 || negb (all_hexdigits checkpoint_integrity))
        (CorruptRecoveryMarker "invalid checkpoint integrity tag");
  target_path ← parse_recovery_path target_path "target path";
  backup_path ← parse_recovery_path backup_path "backup path";
  target_device ← parse_recovery_u64 target_device "target device";
  target_inode ← parse_recovery_u64 target_inode "target inode";
  backup_device ← parse_recovery_u64 backup_device "backup device";
  backup_inode ← parse_recovery_u64 backup_inode "backup inode";
  size ← parse_recovery_u64 size "checkpoint size";
  integrity ← ok_or (from_str_radix16 u64_max checkpoint_integrity)
    (CorruptRecoveryMarker "invalid checkpoint integrity tag");
  let checkpoint :=
    {| cp_target_path := target_path; cp_backup_path := backup_path;
       cp_target_device := target_device; cp_target_inode := target_inode;
       cp_backup_device := backup_device; cp_backup_inode := backup_inode; cp_size := size;
       cp_integrity_tag := integrity |} in
  _ ← validate_descriptor checkpoint;
  Ok checkpoint.

Definition parse_recovery_record (bytes : string) : result MigrationError MigrationRecoveryRecord :=
  payload ← integrity_payload CorruptRecoveryMarker "recovery marker is not UTF-8" bytes;
  match lines payload with
  | [] => Err (CorruptRecoveryMarker "unsupported recovery marker version")
  | magic :: l =>
      _ ← reject_if (negb (bool_decide (magic = RECOVERY_MAGIC)))
            (CorruptRecoveryMarker "unsupported recovery marker version");
      '(migration_id, l) ← recovery_field l "migration";
      _ ← reject_if (negb (valid_identifier migration_id 128))
            (CorruptRecoveryMarker "invalid migration field");
      '(kind, l) ← recovery_field l "checkpoint";
      '(target_path, l) ← recovery_field l "target_path";
      '(backup_path, l) ← recovery_field l "backup_path";
      '(target_device, l) ← recovery_field l "target_device";
      '(target_inode, l) ← recovery_field l "target_inode";
      '(backup_device, l) ← recovery_field l "backup_device";
      '(backup_inode, l) ← recovery_field l "backup_inode";
      '(size, l) ← recovery_field l "size";
      '(checkpoint_integrity, l) ← recovery_field l "checkpoint_integrity";
      _ ← reject_if (negb (is_nil_list l)) (CorruptRecoveryMarker "unexpected recovery marker field");
      checkpoint ←
        (if bool_decide (kind = "none") then
           _ ← reject_if
                 (existsb (λ v, negb (bool_decide (v = "-")))
                    [target_path; backup_path; target_device; target_inode; backup_device;
                     backup_inode; size; checkpoint_integrity])
                 (CorruptRecoveryMarker "checkpoint=none retained checkpoint fields");
           Ok None
         else if bool_decide (kind = "file") then
           c ← parse_file_checkpoint target_path backup_path target_device target_inode backup_device
                 backup_inode size checkpoint_integrity;
           Ok (Some c)
         else Err (CorruptRecoveryMarker "unknown recovery checkpoint kind"));
      MigrationRecoveryRecord_new migration_id checkpoint
  end.

(** ** Reading them back *)
Lemma migration_byte_graphic n : migration_byte n = true → graphic n = true.
Proof.
  unfold migration_byte, graphic. intros H.
  repeat match goal with
  | H : _ || _ = true |- _ => apply orb_true_iff in H as [H|H]
  | H : _ && _ = true |- _ => apply andb_true_iff in H as [? H]
  | H : (_ <=? _)%N = true |- _ => apply N.leb_le in H
  | H : (_ =? _)%N = true |- _ => apply N.eqb_eq in H
  end; apply andb_true_iff; rewrite !N.leb_le; lia.
Qed.

Lemma valid_identifier_graphic id n : valid_identifier id n = true → all_graphic id = true.
Proof.
  unfold valid_identifier. rewrite !andb_true_iff. intros [[_ H] _]. unfold all_graphic.
  induction (codes id) as [|c l IH]; [done|]. cbn in *. apply andb_true_iff in H as [Hc Hl].
  by rewrite migration_byte_graphic, IH.
Qed.

(** A record of graphic lines, through its text. *)
Lemma closed_lines_read {E} (corrupt : string → E) not_utf8 l :
  Forall (λ s, all_graphic s = true) l →
  integrity_payload corrupt not_utf8 (closed_record (unlines l)) = Ok (unlines l) ∧
  lines (unlines l) = l.
Proof.
  intros H. split.
  - apply integrity_payload_ok, ascii_unlines. eapply Forall_impl; [exact H|]. intros s. apply graphic_ascii.
  - apply lines_unlines. eapply Forall_impl; [exact H|]. intros s. apply graphic_plain_line.
Qed.

Definition ledger_ok (ledger : MigrationLedger) : Prop :=
  ∀ id, id ∈ ledger → valid_identifier id 128 = true.

Lemma ledger_lines_graphic ledger :
  ledger_ok ledger → Forall (λ s, all_graphic s = true) (ledger_lines ledger).
Proof.
  intros H. constructor; [done|]. apply Forall_forall. intros s Hs.
  apply list_elem_of_In, in_map_iff in Hs as (id & <- & Hid).
  rewrite all_graphic_app, (valid_identifier_graphic id 128); [done|].
  apply H, elem_of_btree_elements. by apply list_elem_of_In.
Qed.

Lemma applied_ids_ok ids :
  Forall (λ id, valid_identifier id 128 = true) ids →
  applied_ids (map (λ id, "applied=" +:+ id) ids) = Ok ids.
Proof.
  induction 1 as [|id ids Hid H IH]; [done|]. cbn [map applied_ids].
  rewrite strip_prefix_app. cbn [ok_or]. cbv [mbind result_bind] in *. by rewrite Hid, IH.
Qed.

Lemma from_applied_ok ledger ids :
  Forall (λ id, valid_identifier id 128 = true) ids → NoDup ids → (∀ id, id ∈ ids → id ∉ ledger) →
  from_applied ledger ids = Ok (list_to_set ids ∪ ledger).
Proof.
  intros Hv Hd. revert ledger. induction Hv as [|id ids Hid H IH]; intros ledger Hn; cbn [from_applied].
  - f_equal. set_solver.
  - apply NoDup_cons in Hd as [Hid' Hd]. unfold ledger_insert. cbv [mbind result_bind] in *.
    rewrite Hid. cbn [negb reject_if]. rewrite bool_decide_eq_false_2 by (apply Hn; left).
    cbn [reject_if]. rewrite IH; [f_equal; set_solver|done|]. set_solver.
Qed.

Lemma parse_serialize_ledger ledger : ledger_ok ledger → parse_ledger (serialize_ledger ledger) = Ok ledger.
Proof.
  intros H. destruct (closed_lines_read CorruptLedger "ledger is not UTF-8" (ledger_lines ledger)) as [Hp Hl];
    [by apply ledger_lines_graphic|].
  assert (Forall (λ id, valid_identifier id 128 = true) (btree_elements ledger)) as Hv.
  { apply Forall_forall. intros id Hid. apply H. by apply elem_of_btree_elements. }
  unfold parse_ledger. change (serialize_ledger ledger) with (closed_record (unlines (ledger_lines ledger))).
  rewrite Hp. cbv [mbind result_bind] in *. rewrite Hl. cbn [ledger_lines].
  rewrite bool_decide_eq_true_2 by done. cbn [negb reject_if]. rewrite applied_ids_ok by done.
  rewrite from_applied_ok; [|done|apply btree_elements_NoDup|set_solver].
  f_equal. apply set_eq. intros id. rewrite elem_of_union, elem_of_list_to_set, elem_of_btree_elements.
  set_solver.
Qed.

Lemma from_applied_valid ledger ids ledger' :
  from_applied ledger ids = Ok ledger' → ledger_ok ledger → ledger_ok ledger'.
Proof.
  revert ledger. induction ids as [|id ids IH]; intros ledger; cbn [from_applied]; [by intros [= ->]|].
  intros (l1 & H1 & H2)%bind_Ok Hl. apply (IH l1); [done|]. unfold ledger_insert in H1.
  apply bind_Ok in H1 as (? & Hv%reject_if_Ok & H1). apply bind_Ok in H1 as (? & _ & [= <-]).
  apply negb_false_iff in Hv. intros y. rewrite elem_of_union, elem_of_singleton. intros [->|Hy]; [done|].
  by apply Hl.
Qed.

Lemma parse_ledger_valid bytes ledger : parse_ledger bytes = Ok ledger → ledger_ok ledger.
Proof.
  unfold parse_ledger. intros (payload & _ & H)%bind_Ok. destruct (lines payload) as [|magic l]; [done|].
  apply bind_Ok in H as (? & _ & H). apply bind_Ok in H as (ids & _ & H).
  eapply from_applied_valid; [exact H|]. unfold ledger_ok. set_solver.
Qed.

(** ** Recovery records are read back *)
Record checkpoint_u64 (c : MigrationRecoveryCheckpoint) : Prop := {
  cu_target_device : is_u64 (cp_target_device c);
  cu_target_inode : is_u64 (cp_target_inode c);
  cu_backup_device : is_u64 (cp_backup_device c);
  cu_backup_inode : is_u64 (cp_backup_inode c);
  cu_size : is_u64 (cp_size c);
  cu_tag : is_u64 (cp_integrity_tag c);
}.

(** What [MigrationRecoveryRecord::new] accepts, with fields that are [u64]. *)
Definition record_ok (r : MigrationRecoveryRecord) : Prop :=
  MigrationRecoveryRecord_new (rr_migration_id r) (rr_checkpoint r) = Ok r ∧
  match rr_checkpoint r with Some c => checkpoint_u64 c | None => True end.

Lemma new_record_Ok id c r :
  MigrationRecoveryRecord_new id c = Ok r →
  valid_identifier id 128 = true ∧ rr_migration_id r = id ∧ rr_checkpoint r = c ∧
  match c with Some c => validate_descriptor c = Ok tt | None => True end.
Proof.
  unfold MigrationRecoveryRecord_new. intros (u & Hv%reject_if_Ok & H)%bind_Ok.
  apply bind_Ok in H as ([] & Hc & [= <-]). apply negb_false_iff in Hv. split_and!; [done..|].
  by destruct c.
Qed.

Lemma recovery_lines_graphic r :
  valid_identifier (rr_migration_id r) 128 = true →
  Forall (λ s, all_graphic s = true) (recovery_lines r).
Proof.
  intros Hid%valid_identifier_graphic. constructor; [done|]. constructor; [by rewrite all_graphic_app, Hid|].
  destruct (rr_checkpoint r) as [c|]; [|by repeat constructor].
  repeat constructor; rewrite !all_graphic_app, ?u64_text_graphic; try done.
  all: apply andb_true_iff; split; [done|]; apply andb_true_iff; split; [done|].
  all: cbn [path_hex]; apply lower_hex_text_graphic.
  all: first [apply lower_hex_bytes|apply lower_hex_digits].
Qed.

Lemma validate_descriptor_Ok c :
  validate_descriptor c = Ok tt →
  is_absolute (cp_target_path c) = true ∧ is_absolute (cp_backup_path c) = true ∧
  (0 < str_len (cp_target_path c) ≤ 4096)%Z ∧ (0 < str_len (cp_backup_path c) ≤ 4096)%Z ∧
  path_eqb (cp_target_path c) (cp_backup_path c) = false ∧ cp_size c ≠ 0%Z.
Proof.
  unfold validate_descriptor. intros H%reject_if_Ok.
  repeat (apply orb_false_iff in H as [H ?]).
  repeat match goal with
  | H : negb _ = false |- _ => apply negb_false_iff in H
  | H : bool_decide _ = false |- _ => apply bool_decide_eq_false in H
  | H : (_ <? _)%Z = false |- _ => apply Z.ltb_ge in H
  | H : (_ =? _)%Z = false |- _ => apply Z.eqb_neq in H
  end.
  assert (∀ s : string, s ≠ "" → (0 < str_len s)%Z) as Hl.
  { intros [|a s] Hs; [done|]. unfold str_len. cbn. lia. }
  unfold MAX_RECOVERY_PATH_BYTES in *. split_and!; auto.
Qed.

Lemma parse_recovery_path_ok p label :
  is_absolute p = true → (0 < str_len p ≤ 4096)%Z → parse_recovery_path (path_hex (Some p)) label = Ok p.
Proof.
  intros Ha Hl. unfold parse_recovery_path. cbn [path_hex]. pose proof (length_hex_bytes p) as Hlen.
  assert (p ≠ "") as Hne by (intros ->; unfold str_len in Hl; cbn in Hl; lia).
  rewrite bool_decide_eq_false_2 by (intros E; rewrite E in Hlen; cbn in Hlen; lia).
  assert ((MAX_RECOVERY_PATH_BYTES * 2 <? str_len (hex_bytes p))%Z = false) as ->.
  { apply Z.ltb_ge. unfold MAX_RECOVERY_PATH_BYTES, str_len in *. lia. }
  rewrite Hlen, Nat.even_mul, (lower_all_hexdigits (hex_bytes p)) by apply lower_hex_bytes.
  cbn [orb negb Nat.even reject_if]. cbv [mbind result_bind]. rewrite unhex_hex_bytes. cbn [ok_or].
  rewrite bool_decide_eq_false_2 by done.
  rewrite (proj2 (Z.ltb_ge _ _)) by (unfold MAX_RECOVERY_PATH_BYTES; lia). cbn [orb reject_if].
  by rewrite Ha.
Qed.

Lemma parse_recovery_u64_ok v label : is_u64 v → parse_recovery_u64 (u64_to_string v) label = Ok v.
Proof.
  intros Hv. unfold parse_recovery_u64.
  by destruct (proj2 (u64_parse_canonical (u64_to_string v) v)) as [_ ->].
Qed.

Lemma recovery_field_ok name prefix value rest :
  prefix = name +:+ "=" → recovery_field ((prefix +:+ value) :: rest) name = Ok (value, rest).
Proof. intros ->. unfold recovery_field. by rewrite strip_prefix_app. Qed.

Lemma recovery_field_named name value rest :
  recovery_field ((name +:+ "=" +:+ value) :: rest) name = Ok (value, rest).
Proof. rewrite <- string_app_assoc. by apply recovery_field_ok. Qed.

Lemma parse_file_checkpoint_ok c :
  validate_descriptor c = Ok tt → checkpoint_u64 c →
  parse_file_checkpoint (path_hex (Some (cp_target_path c))) (path_hex (Some (cp_backup_path c)))
    (u64_to_string (cp_target_device c)) (u64_to_string (cp_target_inode c))
    (u64_to_string (cp_backup_device c)) (u64_to_string (cp_backup_inode c))
    (u64_to_string (cp_size c)) (u64_hex16 (cp_integrity_tag c)) = Ok c.
Proof.
  intros Hd [H1 H2 H3 H4 H5 H6]. destruct (validate_descriptor_Ok c Hd) as (Ht & Hb & Hlt & Hlb & _).
  unfold parse_file_checkpoint. unfold u64_hex16 at 1 2. rewrite length_hex_digits.
  rewrite lower_all_hexdigits by apply lower_hex_digits. cbn [Nat.eqb negb orb reject_if].
  cbv [mbind result_bind] in *. rewrite !parse_recovery_path_ok by done.
  rewrite !parse_recovery_u64_ok by done. rewrite from_radix_hex16 by done. cbn [ok_or].
  destruct c; cbn in *. by rewrite Hd.
Qed.

Lemma parse_serialize_record r :
  record_ok r → parse_recovery_record (serialize_recovery_record r) = Ok r.
Proof.
  intros [Hr Hu]. destruct (new_record_Ok _ _ _ Hr) as (Hid & _ & _ & Hc).
  destruct (closed_lines_read CorruptRecoveryMarker "recovery marker is not UTF-8" (recovery_lines r))
    as [Hp Hl]; [by apply recovery_lines_graphic|].
  unfold parse_recovery_record.
  change (serialize_recovery_record r) with (closed_record (unlines (recovery_lines r))).
  rewrite Hp. cbv [mbind result_bind] in *. rewrite Hl. cbn [recovery_lines].
  rewrite bool_decide_eq_true_2 by done. cbn [negb reject_if].
  rewrite recovery_field_ok, Hid by done. cbn [negb reject_if].
  destruct (rr_checkpoint r) as [c|]; cbn [checkpoint_values checkpoint_names zip_with].
  - rewrite !recovery_field_named.
    cbn [is_nil_list negb reject_if]. rewrite bool_decide_eq_false_2, bool_decide_eq_true_2 by done.
    by rewrite parse_file_checkpoint_ok, Hr.
  - rewrite !recovery_field_named.
    cbn [is_nil_list negb reject_if]. rewrite bool_decide_eq_true_2 by done. cbn. exact Hr.
Qed.

Lemma parse_record_valid bytes r :
  parse_recovery_record bytes = Ok r →
  MigrationRecoveryRecord_new (rr_migration_id r) (rr_checkpoint r) = Ok r.
Proof.
  unfold parse_recovery_record. intros (payload & _ & H)%bind_Ok.
  destruct (lines payload) as [|magic l]; [done|]. apply bind_Ok in H as (? & _ & H).
  apply bind_Ok in H as ([id ?] & _ & H). apply bind_Ok in H as (? & _ & H).
  do 9 (apply bind_Ok in H as ([? ?] & _ & H)). apply bind_Ok in H as (? & _ & H).
  apply bind_Ok in H as (c & _ & H). by destruct (new_record_Ok _ _ _ H) as (_ & -> & -> & _).
Qed.

(** Ledgers and recovery records are read back as they were written, and
    whatever is accepted, whoever wrote it, is well formed: a ledger of valid
    identifiers that writes back to itself, a record that the constructor of
    records accepts. *)
Theorem migration_records_roundtrip :
  (∀ ledger, ledger_ok ledger → parse_ledger (serialize_ledger ledger) = Ok ledger) ∧
  (∀ bytes ledger, parse_ledger bytes = Ok ledger →
     ledger_ok ledger ∧ parse_ledger (serialize_ledger ledger) = Ok ledger) ∧
  (∀ r, record_ok r → parse_recovery_record (serialize_recovery_record r) = Ok r) ∧
  (∀ bytes r, parse_recovery_record bytes = Ok r →
     MigrationRecoveryRecord_new (rr_migration_id r) (rr_checkpoint r) = Ok r).
Proof.
  split_and!; [apply parse_serialize_ledger| |apply parse_serialize_record|apply parse_record_valid].
  intros bytes ledger H%parse_ledger_valid. split; [done|]. by apply parse_serialize_ledger.
Qed.

(** ** A record that cannot be read back from disk *)

Definition long_path (c : Ascii.ascii) (n : nat) : Path :=
  String SLASH (String.string_of_list_ascii (repeat c n)).

Definition long_record : MigrationRecoveryRecord :=
  {| rr_migration_id := "m";
     rr_checkpoint := Some
       {| cp_target_path := long_path "a" 4094; cp_backup_path := long_path "b" 4094;
          cp_target_device := 1; cp_target_inode := 2; cp_backup_device := 1; cp_backup_inode := 3;
          cp_size := 1; cp_integrity_tag := 5 |} |}.

(** A valid record with two paths of the longest kind the system has is written
    as a marker above the size that the loader accepts. *)
Theorem recovery_marker_can_exceed_bound :
  record_ok long_record ∧
  (MAX_RECOVERY_MARKER_BYTES < str_len (serialize_recovery_record long_record))%Z.
Proof.
  split; [split; [vm_compute; reflexivity|by split]|]. apply Z.ltb_lt. vm_compute. reflexivity.
Qed.
