(* ===== verification/MigrationRunner.v ===== *)
(** * The migration engine: backups

    linura-migrations/src/lib.rs: the evidence that a backup file holds the
    bytes of a migration target ([ValidatedBackup]), the guard that keeps both
    files open while a migration starts, and the checkpoint that a recovery
    record keeps of them. *)

From Stdlib Require Import ZArith Lia Ascii.
From stdpp Require Import base numbers gmap strings list fin_maps sorting.
From S2P Require Import Prelude Text Fields Ordered Paths Files ControlFiles MigrationLedger.

Set Default Goal Selector "!".

(** ** Reading files *)
Definition BUFFER_BYTES : nat := 64 * 1024.

(** The loop of [compare_open_files]: both files are read at the same offset. *)
Fixpoint compare_from (rounds : nat) (source backup : File) (offset : nat) (integrity : Z) :
    IO MigrationError (bool * Z) :=
  match rounds with
  | O => io_stop
  | S rounds =>
      source_buffer ← sys (read_at source offset BUFFER_BYTES);
      backup_buffer ← sys (read_at backup offset BUFFER_BYTES);
      if negb (String.length source_buffer =? String.length backup_buffer)%nat then mret (false, integrity)
      else if (String.length source_buffer =? 0)%nat then mret (true, integrity)
      else if negb (bool_decide (source_buffer = backup_buffer)) then mret (false, integrity)
      else compare_from rounds source backup (offset + String.length source_buffer)
             (fnv1a_update integrity source_buffer)
  end.

(** [try_clone] and [seek] of both files, then the loop. *)
Definition compare_open_files (source backup : File) : IO MigrationError (bool * Z) :=
  _ ← sys (rewind source);
  _ ← sys (rewind backup);
  _ ← sys (rewind source);
  _ ← sys (rewind backup);
  rounds ← io_env patience;
  compare_from rounds source backup 0 FNV_OFFSET.

Definition compare_files (source backup : Path) : IO MigrationError (bool * Z) :=
  source ← sys (open_file (read_only false) source);
  backup ← sys (open_file (read_only false) backup);
  compare_open_files source backup.

Fixpoint integrity_from (rounds : nat) (file : File) (offset : nat) (size integrity : Z) :
    IO MigrationError (Z * Z) :=
  match rounds with
  | O => io_stop
  | S rounds =>
      buffer ← sys (read_at file offset BUFFER_BYTES);
      if (String.length buffer =? 0)%nat then mret (size, integrity)
      else
        size ← io_lift (ok_or (u64_checked_add size (str_len buffer))
                          (IoFailure "recovery backup size overflow"));
        integrity_from rounds file (offset + String.length buffer) size (fnv1a_update integrity buffer)
  end.

Definition file_integrity (file : File) : IO MigrationError (Z * Z) :=
  _ ← sys (rewind file);
  rounds ← io_env patience;
  integrity_from rounds file 0 0 FNV_OFFSET.

(** A file that is not a regular one, reached through no link. *)
Definition not_regular (m : Metadata) : bool := is_symlink m || negb (is_file m).
Definition other_identity (device inode : Z) (m : Metadata) : bool :=
  negb (m_dev m =? device)%Z || negb (m_ino m =? inode)%Z.
(** More than one name, or writable by others. *)
Definition shared_artifact (m : Metadata) : bool :=
  negb (m_nlink m =? 1)%Z || mode_has group_or_other_write m.

Definition verified_regular_file (path : Path) : IO MigrationError Path :=
  metadata ← sys (symlink_metadata path);
  _ ← io_lift (reject_if (not_regular metadata) BackupArtifactNotRegular);
  sys (canonicalize path).

Definition sync_backup_durability (backup_path : Path) (expected_device expected_inode : Z) :
    IO MigrationError unit :=
  path_metadata ← sys (symlink_metadata backup_path);
  _ ← io_lift (reject_if (not_regular path_metadata
                          || other_identity expected_device expected_inode path_metadata
                          || shared_artifact path_metadata) UntrustedBackupArtifact);
  file ← sys (open_file (read_only true) backup_path);
  opened_metadata ← sys (file_metadata file);
  _ ← io_lift (reject_if (other_identity expected_device expected_inode opened_metadata
                          || negb (m_nlink opened_metadata =? 1)%Z) UntrustedBackupArtifact);
  _ ← sys (sync_all file);
  parent ← io_lift (ok_or (parent backup_path)
                      (IoFailure "migration backup path has no parent directory"));
  _ ← sys (sync_dir parent);
  after ← sys (symlink_metadata backup_path);
  io_lift (reject_if (not_regular after || other_identity expected_device expected_inode after
                      || shared_artifact after) UntrustedBackupArtifact).

(** ** Evidence *)
Record ValidatedBackup := {
  vb_source_path : Path;
  vb_backup_path : Path;
  vb_source_device : Z;
  vb_source_inode : Z;
  vb_backup_device : Z;
  vb_backup_inode : Z;
  vb_size : Z;
  vb_integrity_tag : Z;
}.

Definition ValidatedBackup_verify (source_path backup_path : Path) : IO MigrationError ValidatedBackup :=
  source_path ← verified_regular_file source_path;
  backup_path ← verified_regular_file backup_path;
  source_metadata ← sys (metadata source_path);
  backup_metadata ← sys (metadata backup_path);
  _ ← io_lift (reject_if (path_eqb source_path backup_path
                          || (m_dev source_metadata =? m_dev backup_metadata)%Z
                             && (m_ino source_metadata =? m_ino backup_metadata)%Z)
        BackupNotIndependent);
  _ ← io_lift (reject_if (shared_artifact backup_metadata) UntrustedBackupArtifact);
  _ ← io_lift (reject_if ((m_len source_metadata =? 0)%Z
                          || negb (m_len source_metadata =? m_len backup_metadata)%Z) BackupMismatch);
  '(equal, integrity_tag) ← compare_files source_path backup_path;
  _ ← io_lift (reject_if (negb equal) BackupMismatch);
  _ ← sync_backup_durability backup_path (m_dev backup_metadata) (m_ino backup_metadata);
  source_after ← sys (metadata source_path);
  backup_after ← sys (metadata backup_path);
  _ ← io_lift (reject_if
        (other_identity (m_dev source_metadata) (m_ino source_metadata) source_after
         || other_identity (m_dev backup_metadata) (m_ino backup_metadata) backup_after
         || negb (m_len source_after =? m_len source_metadata)%Z
         || negb (m_len backup_after =? m_len backup_metadata)%Z
         || shared_artifact backup_after) BackupMismatch);
  '(equal_after_sync, integrity_after_sync) ← compare_files source_path backup_path;
  _ ← io_lift (reject_if (negb equal_after_sync || negb (integrity_after_sync =? integrity_tag)%Z)
        BackupMismatch);
  mret {| vb_source_path := source_path; vb_backup_path := backup_path;
          vb_source_device := m_dev source_metadata; vb_source_inode := m_ino source_metadata;
          vb_backup_device := m_dev backup_metadata; vb_backup_inode := m_ino backup_metadata;
          vb_size := m_len source_metadata; vb_integrity_tag := integrity_tag |}.

Definition revalidate (b : ValidatedBackup) : IO MigrationError unit :=
  current ← ValidatedBackup_verify (vb_source_path b) (vb_backup_path b);
  io_lift (reject_if
    (negb (vb_source_device current =? vb_source_device b)%Z
     || negb (vb_source_inode current =? vb_source_inode b)%Z
     || negb (vb_backup_device current =? vb_backup_device b)%Z
     || negb (vb_backup_inode current =? vb_backup_inode b)%Z
     || negb (vb_size current =? vb_size b)%Z
     || negb (vb_integrity_tag current =? vb_integrity_tag b)%Z) BackupMismatch).

(** The target is the very source of the backup. *)
Definition check_target (b : ValidatedBackup) (target : Path) : IO MigrationError unit :=
  target_path ← verified_regular_file target;
  target_metadata ← sys (metadata target_path);
  io_lift (reject_if (negb (path_eqb target_path (vb_source_path b))
                      || other_identity (vb_source_device b) (vb_source_inode b) target_metadata)
    BackupTargetMismatch).

Definition revalidate_for_target (b : ValidatedBackup) (target : Path) : IO MigrationError unit :=
  _ ← revalidate b;
  check_target b target.

Record BackupStabilityGuard := {
  bg_evidence : ValidatedBackup;
  bg_target_path : Path;
  bg_source_file : File;
  bg_backup_file : File;
}.

Definition assert_stable (g : BackupStabilityGuard) : IO MigrationError unit :=
  let e := bg_evidence g in
  source_path_metadata ← sys (symlink_metadata (vb_source_path e));
  backup_path_metadata ← sys (symlink_metadata (vb_backup_path e));
  source_open_metadata ← sys (file_metadata (bg_source_file g));
  backup_open_metadata ← sys (file_metadata (bg_backup_file g));
  _ ← io_lift (reject_if
        (not_regular source_path_metadata || not_regular backup_path_metadata
         || other_identity (vb_source_device e) (vb_source_inode e) source_path_metadata
         || other_identity (vb_backup_device e) (vb_backup_inode e) backup_path_metadata
         || other_identity (vb_source_device e) (vb_source_inode e) source_open_metadata
         || other_identity (vb_backup_device e) (vb_backup_inode e) backup_open_metadata
         || negb (m_len source_path_metadata =? vb_size e)%Z
         || negb (m_len backup_path_metadata =? vb_size e)%Z
         || shared_artifact backup_path_metadata) BackupMismatch);
  _ ← check_target e (bg_target_path g);
  '(equal, integrity_tag) ← compare_open_files (bg_source_file g) (bg_backup_file g);
  io_lift (reject_if (negb equal || negb (integrity_tag =? vb_integrity_tag e)%Z) BackupMismatch).

(** The order of paths: of their components, the root and the dots before
    ordinary names. *)
Definition component_key (c : string) : nat * string :=
  if decide (c = "/") then (0%nat, "") else if decide (c = ".") then (1%nat, "")
  else if decide (c = "..") then (2%nat, "") else (3%nat, c).
Fixpoint components_leb (l r : list string) : bool :=
  match l, r with
  | [], _ => true
  | _, [] => false
  | a :: l', b :: r' =>
      let '(ka, na) := component_key a in
      let '(kb, nb) := component_key b in
      if (ka <? kb)%nat then true else if (kb <? ka)%nat then false
      else if bool_decide (na = nb) then components_leb l' r' else bool_decide (String.le na nb)
  end.
Definition path_leb (p q : Path) : bool := components_leb (components p) (components q).

Definition hold_for_target (b : ValidatedBackup) (target : Path) : IO MigrationError BackupStabilityGuard :=
  _ ← revalidate_for_target b target;
  source_file ← sys (open_file (read_only true) (vb_source_path b));
  backup_file ← sys (open_file (read_only true) (vb_backup_path b));
  _ ← (if path_leb (vb_source_path b) (vb_backup_path b) then
         _ ← sys (lock_file source_file); sys (lock_file backup_file)
       else
         _ ← sys (lock_file backup_file); sys (lock_file source_file));
  let guard := {| bg_evidence := b; bg_target_path := target; bg_source_file := source_file;
                  bg_backup_file := backup_file |} in
  _ ← assert_stable guard;
  mret guard.

(** ** Checkpoints *)
Definition from_validated_backup (b : ValidatedBackup) : result MigrationError MigrationRecoveryCheckpoint :=
  let checkpoint :=
    {| cp_target_path := vb_source_path b; cp_backup_path := vb_backup_path b;
       cp_target_device := vb_source_device b; cp_target_inode := vb_source_inode b;
       cp_backup_device := vb_backup_device b; cp_backup_inode := vb_backup_inode b;
       cp_size := vb_size b; cp_integrity_tag := vb_integrity_tag b |} in
  _ ← validate_descriptor checkpoint;
  Ok checkpoint.

Definition revalidate_backup (c : MigrationRecoveryCheckpoint) : IO MigrationError unit :=
  _ ← io_lift (validate_descriptor c);
  path_metadata ← sys (symlink_metadata (cp_backup_path c));
  _ ← io_lift (reject_if (not_regular path_metadata
                          || other_identity (cp_backup_device c) (cp_backup_inode c) path_metadata
                          || negb (m_len path_metadata =? cp_size c)%Z
                          || shared_artifact path_metadata) UntrustedBackupArtifact);
  file ← sys (open_file (read_only true) (cp_backup_path c));
  opened_metadata ← sys (file_metadata file);
  _ ← io_lift (reject_if (other_identity (cp_backup_device c) (cp_backup_inode c) opened_metadata
                          || negb (m_len opened_metadata =? cp_size c)%Z
                          || negb (m_nlink opened_metadata =? 1)%Z) UntrustedBackupArtifact);
  '(size, integrity_tag) ← file_integrity file;
  io_lift (reject_if (negb (size =? cp_size c)%Z || negb (integrity_tag =? cp_integrity_tag c)%Z)
    BackupMismatch).

Definition revalidate_recovery_backup (r : MigrationRecoveryRecord) : IO MigrationError unit :=
  match rr_checkpoint r with
  | Some checkpoint => revalidate_backup checkpoint
  | None => io_fail (RecoveryCheckpointUnavailable (rr_migration_id r))
  end.

(** * The migration engine: store and runner

    linura-migrations/src/lib.rs: [MigrationLedgerStore] and [MigrationRunner].
    A migration is an implementation of the trait [Migration], which lies
    outside this code: a record of computations.  A run returns the runner with
    its result, also when it fails, and the list of what it asked of the
    migration; a process killed on the way returns only that list. *)

(** ** The store *)
Definition MigrationLedgerStore := Path.

Definition write_texts (label : string) : WriteTexts :=
  {| wt_no_parent := label +:+ " path has no parent directory";
     wt_bad_name := "invalid " +:+ label +:+ " file name";
     wt_unsynced := label +:+ " rename completed but parent-directory fsync failed: " |}.
Definition ledger_texts : WriteTexts := write_texts "migration ledger".
Definition marker_texts : WriteTexts := write_texts "migration recovery marker".

Definition MigrationLedgerStore_load (path : MigrationLedgerStore) : IO MigrationError MigrationLedger :=
  r ← attempt (symlink_metadata path);
  match r with
  | Ok metadata =>
      _ ← io_lift (reject_if (untrusted_file metadata) UntrustedLedgerPath);
      _ ← io_lift (reject_if (MAX_LEDGER_BYTES <? m_len metadata)%Z
            (CorruptLedger "migration ledger exceeds the supported size bound"));
      bytes ← sys (read_file path);
      io_lift (parse_ledger bytes)
  | Err error =>
      match io_kind error with NotFound => mret ∅ | _ => io_fail (io_error error) end
  end.

Definition MigrationLedgerStore_persist (path : MigrationLedgerStore) (ledger : MigrationLedger) :
    IO MigrationError unit :=
  atomic_write ledger_texts path (serialize_ledger ledger).

Definition MigrationLedgerStore_acquire_exclusive (path : MigrationLedgerStore) : IO MigrationError File :=
  acquire_exclusive ledger_texts "migration lock path has no parent directory" path.

(** The conditions on the open marker, and on its path after it was read. *)
Definition marker_untrusted_open (before m : Metadata) : bool :=
  negb (m_dev m =? m_dev before)%Z || negb (m_ino m =? m_ino before)%Z
  || mode_has group_or_other_write m || negb (m_nlink m =? 1)%Z
  || (MAX_RECOVERY_MARKER_BYTES <? m_len m)%Z.
Definition marker_untrusted_after (opened m : Metadata) : bool :=
  is_symlink m || negb (is_file m) || negb (m_dev m =? m_dev opened)%Z
  || negb (m_ino m =? m_ino opened)%Z || mode_has group_or_other_write m || negb (m_nlink m =? 1)%Z.

Definition marker_too_long : MigrationError :=
  CorruptRecoveryMarker "migration recovery marker exceeds the supported size bound".

(** The marker at [path], once it was found to be there. *)
Definition read_marker (path : Path) (metadata : Metadata) : IO MigrationError MigrationRecoveryRecord :=
  _ ← io_lift (reject_if (untrusted_file metadata || negb (m_nlink metadata =? 1)%Z) UntrustedRecoveryPath);
  _ ← io_lift (reject_if (MAX_RECOVERY_MARKER_BYTES <? m_len metadata)%Z marker_too_long);
  file ← sys (open_file (read_only true) path);
  opened ← sys (file_metadata file);
  _ ← io_lift (reject_if (marker_untrusted_open metadata opened) UntrustedRecoveryPath);
  bytes ← sys (read_to_end file);
  _ ← io_lift (reject_if (MAX_RECOVERY_MARKER_BYTES <? str_len bytes)%Z marker_too_long);
  after ← sys (symlink_metadata path);
  _ ← io_lift (reject_if (marker_untrusted_after opened after) UntrustedRecoveryPath);
  io_lift (parse_recovery_record bytes).

Definition load_recovery_record (path : MigrationLedgerStore) :
    IO MigrationError (option MigrationRecoveryRecord) :=
  path ← io_lift (sidecar_path ledger_texts path "recovery");
  r ← attempt (symlink_metadata path);
  match r with
  | Ok metadata => record ← read_marker path metadata; mret (Some record)
  | Err error =>
      match io_kind error with NotFound => mret None | _ => io_fail (io_error error) end
  end.

Definition persist_recovery_record (path : MigrationLedgerStore) (record : MigrationRecoveryRecord) :
    IO MigrationError unit :=
  path ← io_lift (sidecar_path ledger_texts path "recovery");
  atomic_write marker_texts path (serialize_recovery_record record).

Definition removal_unsynced : string :=
  "migration recovery marker removal completed but parent-directory fsync failed: ".

Definition clear_recovery_marker (path : MigrationLedgerStore) : IO MigrationError unit :=
  path ← io_lift (sidecar_path ledger_texts path "recovery");
  r ← attempt (symlink_metadata path);
  match r with
  | Ok metadata =>
      _ ← io_lift (reject_if (untrusted_file metadata) UntrustedRecoveryPath);
      _ ← sys (remove_file path);
      parent ← io_lift (ok_or (parent path)
                          (IoFailure "migration recovery path has no parent directory"));
      io_map_err (λ e, DurabilityUncertain (removal_unsynced +:+ io_text e)) (sync_dir parent)
  | Err error =>
      match io_kind error with NotFound => mret tt | _ => io_fail (io_error error) end
  end.

Definition reconcile_recovery_marker (path : MigrationLedgerStore) (ledger : MigrationLedger) :
    IO MigrationError (option MigrationRecoveryRecord) :=
  record ← load_recovery_record path;
  match record with
  | None => mret None
  | Some record =>
      if is_applied ledger (rr_migration_id record) then
        _ ← clear_recovery_marker path; mret None
      else mret (Some record)
  end.

(** ** Migrations *)
Record Migration := {
  mg_descriptor : MigrationDescriptor;
  mg_precondition : IO MigrationError bool;
  mg_apply : IO MigrationError unit;
  mg_verify : IO MigrationError unit;
  mg_recovery_target : option Path;
  mg_rollback : IO MigrationError unit;
}.

(** [Migration::rollback] of a migration that does not define it. *)
Definition default_rollback (descriptor : MigrationDescriptor) : IO MigrationError unit :=
  io_fail (ManualRecoveryRequired (md_id descriptor)).

(** What a run asks of a migration: an application that begins, a verification
    and a rollback that succeeded. *)
Inductive Event :=
| Applying (id : string)
| Verified (id : string)
| RolledBack (id : string).
#[export] Instance Event_eq_dec : EqDecision Event.
Proof. solve_decision. Defined.

(** ** The runner *)
Record MigrationRunner := {
  mr_ledger : MigrationLedger;
  mr_store : option MigrationLedgerStore;
  mr_recovery_required : option string;
  mr_recovery_record : option MigrationRecoveryRecord;
}.

Definition MigrationRunner_new (ledger : MigrationLedger) : MigrationRunner :=
  {| mr_ledger := ledger; mr_store := None; mr_recovery_required := None; mr_recovery_record := None |}.

Definition recovery_reason (record : MigrationRecoveryRecord) : string :=
  "persisted recovery record for migration " +:+ rr_migration_id record.

Definition MigrationRunner_open (store : MigrationLedgerStore) : IO MigrationError MigrationRunner :=
  _ ← MigrationLedgerStore_acquire_exclusive store;
  ledger ← MigrationLedgerStore_load store;
  recovery_record ← reconcile_recovery_marker store ledger;
  mret {| mr_ledger := ledger; mr_store := Some store;
          mr_recovery_required := recovery_reason <$> recovery_record;
          mr_recovery_record := recovery_record |}.

(** A method of a runner: [&mut self], [Result], and the events. *)
Definition Run (A : Type) : Type :=
  MigrationRunner → FsEnv → World →
  World * list Event * option (MigrationRunner * result MigrationError A).

#[export] Instance run_ret : MRet Run := λ A a r env w, (w, [], Some (r, Ok a)).
#[export] Instance run_bind : MBind Run := λ A B f m r env w,
  match m r env w with
  | (w1, t1, Some (r1, Ok a)) =>
      let '(w2, t2, o) := f a r1 env w1 in (w2, t1 ++ t2, o)
  | (w1, t1, Some (r1, Err e)) => (w1, t1, Some (r1, Err e))
  | (w1, t1, None) => (w1, t1, None)
  end.

Definition self : Run MigrationRunner := λ r env w, (w, [], Some (r, Ok r)).
Definition set_self (r : MigrationRunner) : Run unit := λ _ env w, (w, [], Some (r, Ok tt)).
Definition emit (e : Event) : Run unit := λ r env w, (w, [e], Some (r, Ok tt)).
Definition run_result {A} (m : IO MigrationError A) : Run (result MigrationError A) := λ r env w,
  let '(w', o) := m env w in (w', [], (λ x, (r, Ok x)) <$> o).
Definition run_io {A} (m : IO MigrationError A) : Run A := λ r env w,
  let '(w', o) := m env w in (w', [], (λ x, (r, x)) <$> o).
Definition run_check {A} (x : result MigrationError A) : Run A := run_io (io_lift x).
Definition run_throw {A} (e : MigrationError) : Run A := run_check (Err e).

Definition with_ledger (ledger : MigrationLedger) (r : MigrationRunner) : MigrationRunner :=
  {| mr_ledger := ledger; mr_store := mr_store r; mr_recovery_required := mr_recovery_required r;
     mr_recovery_record := mr_recovery_record r |}.
Definition with_reason (reason : option string) (r : MigrationRunner) : MigrationRunner :=
  {| mr_ledger := mr_ledger r; mr_store := mr_store r; mr_recovery_required := reason;
     mr_recovery_record := mr_recovery_record r |}.
Definition with_record (record : option MigrationRecoveryRecord) (r : MigrationRunner) : MigrationRunner :=
  {| mr_ledger := mr_ledger r; mr_store := mr_store r; mr_recovery_required := mr_recovery_required r;
     mr_recovery_record := record |}.
Definition update_self (f : MigrationRunner → MigrationRunner) : Run unit :=
  r ← self; set_self (f r).

Definition latch_recovery (reason : string) : Run unit := update_self (with_reason (Some reason)).

Definition manual_recovery_error {A} (migration_id : string) : Run A :=
  _ ← latch_recovery ("migration " +:+ migration_id +:+ " requires manual recovery");
  run_throw (ManualRecoveryRequired migration_id).

Definition handle_cleanup_failure {A} (error : MigrationError) : Run A :=
  let reason := "migration recovery marker cleanup is uncertain: " +:+ MigrationError_display error in
  _ ← latch_recovery reason;
  run_throw (DurabilityUncertain reason).

(** Clear the marker of a store, if there is one; then go on with [next]. *)
Definition clear_then {A} (store : option MigrationLedgerStore) (next : Run A) : Run A :=
  match store with
  | None => next
  | Some store =>
      c ← run_result (clear_recovery_marker store);
      match c with
      | Ok _ => next
      | Err cleanup_error => handle_cleanup_failure cleanup_error
      end
  end.

Definition handle_persist_failure {A} (migration : Migration) (error : MigrationError)
    (store : option MigrationLedgerStore) : Run A :=
  let descriptor := mg_descriptor migration in
  match error with
  | DurabilityUncertain reason =>
      let reason := md_id descriptor +:+ ": " +:+ reason in
      _ ← latch_recovery reason;
      run_throw (DurabilityUncertain reason)
  | _ =>
      if negb (md_reversible descriptor) then manual_recovery_error (md_id descriptor)
      else
        r ← run_result (mg_rollback migration);
        match r with
        | Err _ => manual_recovery_error (md_id descriptor)
        | Ok _ =>
            _ ← emit (RolledBack (md_id descriptor));
            clear_then store
              (_ ← update_self (with_record None);
               run_throw (LedgerCommitFailed (md_id descriptor) (MigrationError_display error)))
        end
  end.

Definition handle_post_apply_failure {A} (migration : Migration) (error : MigrationError)
    (store : option MigrationLedgerStore) : Run A :=
  let descriptor := mg_descriptor migration in
  if md_reversible descriptor then
    r ← run_result (mg_rollback migration);
    match r with
    | Err _ => manual_recovery_error (md_id descriptor)
    | Ok _ =>
        _ ← emit (RolledBack (md_id descriptor));
        clear_then store
          (_ ← update_self (with_record None);
           run_throw (VerificationFailed (md_id descriptor) (MigrationError_display error)))
    end
  else manual_recovery_error (md_id descriptor).

Inductive MigrationOutcome := Applied | AlreadyApplied | NotApplicable.
#[export] Instance MigrationOutcome_eq_dec : EqDecision MigrationOutcome.
Proof. solve_decision. Defined.

(** The lock, the ledger and the marker of a store, at the start of a run. *)
Definition begin_run (store : option MigrationLedgerStore) : Run unit :=
  match store with
  | None => mret tt
  | Some store =>
      _ ← run_io (MigrationLedgerStore_acquire_exclusive store);
      ledger ← run_io (MigrationLedgerStore_load store);
      _ ← update_self (with_ledger ledger);
      m ← run_result (reconcile_recovery_marker store ledger);
      match m with
      | Ok (Some record) =>
          let reason := recovery_reason record in
          _ ← update_self (with_record (Some record));
          _ ← update_self (with_reason (Some reason));
          run_throw (RecoveryRequired reason)
      | Ok None => mret tt
      | Err error =>
          _ ← match error with
              | DurabilityUncertain _ =>
                  latch_recovery
                    ("migration recovery marker reconciliation is durability-uncertain: "
                     +:+ MigrationError_display error)
              | _ => mret tt
              end;
          run_throw error
      end
  end.

(** The backup of a migration that asks for one, held while it starts. *)
Definition hold_checkpoint (migration : Migration) (backup : option ValidatedBackup) :
    Run (option BackupStabilityGuard) :=
  let descriptor := mg_descriptor migration in
  if md_requires_snapshot descriptor then
    target ← run_check (ok_or (mg_recovery_target migration) (RecoveryTargetRequired (md_id descriptor)));
    backup ← run_check (ok_or backup (RecoveryCheckpointRequired (md_id descriptor)));
    guard ← run_io (hold_for_target backup target);
    mret (Some guard)
  else mret None.

Definition checkpoint_of (guard : option BackupStabilityGuard) :
    result MigrationError (option MigrationRecoveryCheckpoint) :=
  match guard with
  | None => Ok None
  | Some guard => c ← from_validated_backup (bg_evidence guard); Ok (Some c)
  end.

Definition persist_record (store : option MigrationLedgerStore) (id : string)
    (record : MigrationRecoveryRecord) : Run unit :=
  match store with
  | None => mret tt
  | Some store =>
      p ← run_result (persist_recovery_record store record);
      match p with
      | Err error =>
          _ ← match error with
              | DurabilityUncertain _ =>
                  latch_recovery (id +:+ ": durable in-progress recovery record is uncertain")
              | _ => mret tt
              end;
          run_throw error
      | Ok _ => update_self (with_record (Some record))
      end
  end.

(** The backup as it was when the record became durable. *)
Definition recheck_checkpoint (store : option MigrationLedgerStore) (guard : option BackupStabilityGuard) :
    Run unit :=
  match guard with
  | None => mret tt
  | Some guard =>
      s ← run_result (assert_stable guard);
      match s with
      | Ok _ => mret tt
      | Err error => clear_then store (_ ← update_self (with_record None); run_throw error)
      end
  end.

(** The ledger with the migration, and the marker gone. *)
Definition record_applied (migration : Migration) (store : option MigrationLedgerStore) :
    Run MigrationOutcome :=
  let id := md_id (mg_descriptor migration) in
  r ← self;
  next ← run_check (mark_applied (mr_ledger r) id);
  p ← match store with
      | None => mret (Ok tt)
      | Some store => run_result (MigrationLedgerStore_persist store next)
      end;
  match p with
  | Err error => handle_persist_failure migration error store
  | Ok _ =>
      _ ← update_self (with_ledger next);
      clear_then store (_ ← update_self (with_record None); mret Applied)
  end.

Definition apply_and_record (migration : Migration) (store : option MigrationLedgerStore) :
    Run MigrationOutcome :=
  let id := md_id (mg_descriptor migration) in
  _ ← emit (Applying id);
  a ← run_result (mg_apply migration);
  match a with
  | Err _ => manual_recovery_error id
  | Ok _ =>
      v ← run_result (mg_verify migration);
      match v with
      | Err error => handle_post_apply_failure migration error store
      | Ok _ => _ ← emit (Verified id); record_applied migration store
      end
  end.

Definition run_with_backup (migration : Migration) (backup : option ValidatedBackup) :
    Run MigrationOutcome :=
  r ← self;
  match mr_recovery_required r with
  | Some reason => run_throw (RecoveryRequired reason)
  | None =>
      let store := mr_store r in
      _ ← begin_run store;
      let descriptor := mg_descriptor migration in
      _ ← run_check (MigrationDescriptor_validate descriptor);
      r ← self;
      if is_applied (mr_ledger r) (md_id descriptor) then mret AlreadyApplied
      else
        applicable ← run_io (mg_precondition migration);
        if negb applicable then mret NotApplicable
        else
          checkpoint_guard ← hold_checkpoint migration backup;
          recovery_checkpoint ← run_check (checkpoint_of checkpoint_guard);
          recovery_record ← run_check (MigrationRecoveryRecord_new (md_id descriptor) recovery_checkpoint);
          _ ← persist_record store (md_id descriptor) recovery_record;
          _ ← recheck_checkpoint store checkpoint_guard;
          apply_and_record migration store
  end.

Definition MigrationRunner_run (migration : Migration) : Run MigrationOutcome :=
  run_with_backup migration None.

Definition runner_requires_recovery (r : MigrationRunner) : bool :=
  match mr_recovery_required r with Some _ => true | None => false end.
