(* ===== verification/MigrationSteps.v ===== *)
(** * The protocol of a migration store

    The contract of the migration engine, on what a reader and a power loss can
    find: the ledger and the recovery marker, each as the list of its possible
    values (the one a reader finds first), and the history of what was asked of
    migrations.  A migration is applied only while a marker for it is on the
    disk, alone; the marker goes when the ledger that a reader finds holds the
    migration, or when the application was rolled back. *)

From Stdlib Require Import ZArith Lia Ascii.
From stdpp Require Import base numbers gmap strings list fin_maps sorting relations.
From S2P Require Import Prelude Text Fields Ordered Paths Files ControlFiles MigrationLedger.
From S2P Require Import MigrationRunner.

Set Default Goal Selector "!".

Definition ledger_of (o : option MigrationLedger) : MigrationLedger := default ∅ o.
Definition marks (o : option MigrationRecoveryRecord) (id : string) : Prop :=
  match o with Some r => rr_migration_id r = id | None => False end.

Record Progress := {
  pg_ledgers : list (option MigrationLedger);
  pg_markers : list (option MigrationRecoveryRecord);
  pg_trace : list Event;
}.

(** The migrations whose last application was not rolled back (the trace has
    its newest event first). *)
Fixpoint outstanding (trace : list Event) : gset string :=
  match trace with
  | [] => ∅
  | Applying id :: rest => {[id]} ∪ outstanding rest
  | Verified _ :: rest => outstanding rest
  | RolledBack id :: rest => outstanding rest ∖ {[id]}
  end.

Inductive protocol_step : Progress → Progress → Prop :=
| step_settle l ls m ms tr :
    protocol_step {| pg_ledgers := l :: ls; pg_markers := m :: ms; pg_trace := tr |}
                  {| pg_ledgers := [l]; pg_markers := [m]; pg_trace := tr |}
| step_mark l ls ms r tr :
    rr_migration_id r ∉ ledger_of l →
    protocol_step {| pg_ledgers := l :: ls; pg_markers := None :: ms; pg_trace := tr |}
                  {| pg_ledgers := l :: ls; pg_markers := Some r :: None :: ms; pg_trace := tr |}
| step_apply l r tr :
    rr_migration_id r ∉ ledger_of l → rr_migration_id r ∉ outstanding tr →
    protocol_step {| pg_ledgers := [l]; pg_markers := [Some r]; pg_trace := tr |}
                  {| pg_ledgers := [l]; pg_markers := [Some r];
                     pg_trace := Applying (rr_migration_id r) :: tr |}
| step_verified l r tr :
    protocol_step {| pg_ledgers := [l]; pg_markers := [Some r];
                     pg_trace := Applying (rr_migration_id r) :: tr |}
                  {| pg_ledgers := [l]; pg_markers := [Some r];
                     pg_trace := Verified (rr_migration_id r) :: Applying (rr_migration_id r) :: tr |}
| step_rolled_back l r tr :
    protocol_step {| pg_ledgers := [l]; pg_markers := [Some r]; pg_trace := tr |}
                  {| pg_ledgers := [l]; pg_markers := [Some r];
                     pg_trace := RolledBack (rr_migration_id r) :: tr |}
| step_record l r tr :
    protocol_step {| pg_ledgers := [l]; pg_markers := [Some r];
                     pg_trace := Verified (rr_migration_id r) :: tr |}
                  {| pg_ledgers := [Some ({[rr_migration_id r]} ∪ ledger_of l); l];
                     pg_markers := [Some r]; pg_trace := Verified (rr_migration_id r) :: tr |}
| step_clear l ls r ms tr :
    rr_migration_id r ∈ ledger_of l ∨ rr_migration_id r ∉ outstanding tr →
    protocol_step {| pg_ledgers := l :: ls; pg_markers := Some r :: ms; pg_trace := tr |}
                  {| pg_ledgers := l :: ls; pg_markers := None :: Some r :: ms; pg_trace := tr |}.

Abbreviation protocol_steps := (rtc protocol_step).

(** What a power loss may leave of two names of one directory whose changes
    reach the disk in order, the ledger's before the marker's: if a change of
    the marker survives, those of the ledger do. *)
Definition survives (p : Progress) (l : option MigrationLedger) (m : option MigrationRecoveryRecord) : Prop :=
  l ∈ pg_ledgers p ∧ m ∈ pg_markers p ∧ (head (pg_ledgers p) = Some l ∨ last (pg_markers p) = Some m).

(** ** The invariant *)

(** Every outstanding migration is in the ledger or has the marker. *)
Definition covered (trace : list Event) (l : option MigrationLedger)
    (m : option MigrationRecoveryRecord) : Prop :=
  ∀ id, id ∈ outstanding trace → id ∈ ledger_of l ∨ marks m id.

(** An application begins only when no earlier one is outstanding. *)
Fixpoint applied_once (trace : list Event) : Prop :=
  match trace with
  | [] => True
  | Applying id :: rest => (id ∉ outstanding rest) ∧ applied_once rest
  | _ :: rest => applied_once rest
  end.

Record progress_ok (p : Progress) : Prop := {
  po_ledgers : pg_ledgers p ≠ [];
  po_markers : pg_markers p ≠ [];
  po_covered l m : survives p l m → covered (pg_trace p) l m;
  po_verified l id : l ∈ pg_ledgers p → id ∈ ledger_of l → Verified id ∈ pg_trace p;
  po_once : applied_once (pg_trace p);
}.

Lemma survives_singleton l0 m0 tr l m :
  survives {| pg_ledgers := [l0]; pg_markers := [m0]; pg_trace := tr |} l m → l = l0 ∧ m = m0.
Proof. by intros (->%list_elem_of_singleton & ->%list_elem_of_singleton & _). Qed.

Lemma survives_heads l ls m ms tr :
  survives {| pg_ledgers := l :: ls; pg_markers := m :: ms; pg_trace := tr |} l m.
Proof. split_and!; [left|left|by left]. Qed.

(** A new marker in front: only the ledger that is read may go with it. *)
Lemma survives_marker l ls m m' ms tr x y :
  survives {| pg_ledgers := l :: ls; pg_markers := m' :: m :: ms; pg_trace := tr |} x y →
  x = l ∧ y = m' ∨ survives {| pg_ledgers := l :: ls; pg_markers := m :: ms; pg_trace := tr |} x y.
Proof.
  intros (Hx & Hy & Hor). cbn in *. apply elem_of_cons in Hy as [->|Hy].
  - destruct Hor as [[= ->]|Hl]; [by left|]. right. split_and!; [done| |by right].
    by apply last_Some_elem_of in Hl.
  - right. split_and!; [done..|]. destruct Hor as [?|?]; [by left|by right].
Qed.

Lemma covered_ledger trace l m m' :
  covered trace l m → (∀ id, marks m id → id ∈ ledger_of l ∨ id ∉ outstanding trace) → covered trace l m'.
Proof.
  intros Hc Hm id Hid. destruct (Hc id Hid) as [?|Hk]; [by left|].
  destruct (Hm id Hk) as [?|?]; [by left|done].
Qed.

Lemma progress_ok_step p q : protocol_step p q → progress_ok p → progress_ok q.
Proof.
  intros Hs [Hl Hm Hc Hv Ho]. destruct Hs as [l ls m ms tr|l ls ms r tr Hn|l r tr Hn Hout|l r tr|l r tr|l r tr|l ls r ms tr Hr].
  all: split; cbn [pg_ledgers pg_markers pg_trace] in *; try done.
  all: try (intros x y [-> ->]%survives_singleton).
  - apply Hc, survives_heads.
  - intros x id ->%list_elem_of_singleton. apply Hv. left.
  - intros x y [[-> ->]|H]%survives_marker; [|by apply Hc].
    eapply covered_ledger; [apply Hc, survives_heads|done].
  - intros id. cbn. rewrite elem_of_union, elem_of_singleton. intros [->|Hid]; [by right|].
    by apply (Hc _ _ (survives_heads _ _ _ _ _)).
  - intros x id Hx Hid. right. by eapply Hv.
  - intros x id Hx Hid. right. by eapply Hv.
  - intros id. cbn. rewrite elem_of_difference. intros [Hid _].
    by apply (Hc _ _ (survives_heads _ _ _ _ _)).
  - intros x id Hx Hid. right. by eapply Hv.
  - intros x y (Hx & ->%list_elem_of_singleton & _). cbn in Hx.
    pose proof (Hc _ _ (survives_heads l [] (Some r) [] _)) as H0.
    apply elem_of_cons in Hx as [-> |Hx]; [|by apply list_elem_of_singleton in Hx as ->].
    intros id Hid. cbn. destruct (H0 id Hid) as [?|?]; [left; set_solver|by right].
  - intros x id. rewrite elem_of_cons, list_elem_of_singleton. intros [-> | ->]; cbn.
    + rewrite elem_of_union, elem_of_singleton. intros [->|Hid]; [left|]. eapply Hv; [left|done].
    + apply Hv. left.
  - intros x y [[-> ->]|H]%survives_marker; [|by apply Hc].
    eapply covered_ledger; [apply Hc, survives_heads|]. intros id <-. exact Hr.
Qed.

Lemma progress_ok_steps p q : protocol_steps p q → progress_ok p → progress_ok q.
Proof. induction 1; [done|]. eauto using progress_ok_step. Qed.

Lemma progress_ok_loss p l m :
  progress_ok p → survives p l m →
  progress_ok {| pg_ledgers := [l]; pg_markers := [m]; pg_trace := pg_trace p |}.
Proof.
  intros [Hl Hm Hc Hv Ho] Hs. split; cbn; [done..| | |done].
  - intros x y [-> ->]%survives_singleton. by apply Hc.
  - intros x id ->%list_elem_of_singleton. apply Hv. apply Hs.
Qed.

(** A migration in every ledger stays in every ledger. *)
Definition recorded_everywhere (id : string) (p : Progress) : Prop :=
  ∀ l, l ∈ pg_ledgers p → id ∈ ledger_of l.

Lemma recorded_step id p q : protocol_step p q → recorded_everywhere id p → recorded_everywhere id q.
Proof.
  intros Hs H. destruct Hs; unfold recorded_everywhere in *; cbn [pg_ledgers] in *; try done.
  - intros x ->%list_elem_of_singleton. apply H. left.
  - intros x. rewrite elem_of_cons, list_elem_of_singleton. intros [-> | ->]; cbn.
    + apply elem_of_union_r, H. left.
    + apply H. left.
Qed.

Lemma recorded_steps id p q : protocol_steps p q → recorded_everywhere id p → recorded_everywhere id q.
Proof. induction 1; [done|]. eauto using recorded_step. Qed.

(** The trace only grows. *)
Lemma trace_steps p q : protocol_steps p q → ∃ t, pg_trace q = t ++ pg_trace p.
Proof.
  induction 1 as [p|p q r Hs _ [t Ht]]; [by exists []|]. rewrite Ht.
  destruct Hs; cbn; try (by exists t); eexists (t ++ [_]); by rewrite <- app_assoc.
Qed.

(** ** Traces without a blind repetition *)
Lemma outstanding_app id t2 t1 :
  id ∈ outstanding t1 → RolledBack id ∉ t2 → id ∈ outstanding (t2 ++ t1).
Proof.
  intros H Hn. induction t2 as [|e t2 IH]; [done|]. apply not_elem_of_cons in Hn as [Hne Hn].
  specialize (IH Hn). destruct e as [x|x|x]; cbn; [set_solver|done|].
  apply elem_of_difference. split; [done|]. intros ->%elem_of_singleton. done.
Qed.

Lemma applied_once_app t2 t1 : applied_once (t2 ++ t1) → applied_once t1.
Proof. induction t2 as [|e t2 IH]; [done|]. destruct e; cbn; naive_solver. Qed.

Lemma applied_once_between id t3 t2 t1 :
  applied_once (t3 ++ Applying id :: t2 ++ Applying id :: t1) → RolledBack id ∈ t2.
Proof.
  intros H%applied_once_app. destruct H as [Hn _].
  destruct (decide (RolledBack id ∈ t2)) as [?|Hr]; [done|].
  exfalso. apply Hn, outstanding_app; [|done]. cbn. set_solver.
Qed.

(** * What the migration engine does to its files

    The operations of [MigrationLedgerStore] and [MigrationRunner], read as
    steps of the protocol: whatever call fails and wherever the process is
    killed, the ledger and the marker are where steps of the protocol lead, and
    the events are those of the steps. *)

From S2P Require Import FileFacts ControlFacts.

(** ** Computations that only read and sync *)
Definition sync_closed (P : FS → Prop) : Prop :=
  (∀ fs id, P fs → P (sync_inode fs id)) ∧ (∀ fs k, P fs → P (settle_dir fs k)).

(** A computation that keeps every assertion of a class [C] that other
    processes keep. *)
Definition keeping (C : (FS → Prop) → Prop) (d : Key) (env : FsEnv) {E A} (m : IO E A) : Prop :=
  ∀ P, stable d P → C P → spec env P m (λ fs _, P fs).

(** It only reads; or it may also bring to the disk what is there. *)
Abbreviation reading := (keeping (λ _, True)).
Abbreviation harmless := (keeping sync_closed).

Section keeping.
Context (C : (FS → Prop) → Prop) (d : Key) (env : FsEnv) (Hquiet : quiet d env).

Lemma keeping_ret {E A} (a : A) : keeping C d env (E := E) (mret a).
Proof. intros P _ _. by apply spec_ret. Qed.
Lemma keeping_lift {E A} (r : result E A) : keeping C d env (io_lift r).
Proof. intros P _ _. by apply spec_lift. Qed.
Lemma keeping_stop {E A} : keeping C d env (@io_stop E A).
Proof. by intros P _ _ w Hw. Qed.
Lemma keeping_env {E A} (f : FsEnv → A) : keeping C d env (E := E) (io_env f).
Proof. intros P _ _. by apply spec_env. Qed.

Lemma keeping_bind {E A B} (m : IO E A) (f : A → IO E B) :
  keeping C d env m → (∀ a, keeping C d env (f a)) → keeping C d env (m ≫= f).
Proof. intros Hm Hf P Hs Hc. apply spec_keep_bind; [by apply Hm|intros a; by apply Hf|done..]. Qed.

Lemma keeping_sys {E A} `{ControlErrors E} (m : IO IoError A) :
  keeping C d env m → keeping C d env (sys (E := E) m).
Proof. intros Hm P Hs Hc. by apply spec_keep_map_err, Hm. Qed.

Lemma keeping_attempt {E F A} (m : IO E A) : keeping C d env m → keeping C d env (@attempt E F A m).
Proof. intros Hm P Hs Hc. by apply spec_keep_attempt, Hm. Qed.

Lemma keeping_call {A} (op : nat → FsEnv → FS → FS * result IoError A) :
  (∀ k fs, (op k env fs).1 = fs) → keeping C d env (call op).
Proof.
  intros Hop P Hs Hc. apply (spec_call d); [done..| |done|done]. intros k fs Hp. by rewrite Hop.
Qed.

Lemma keeping_open b p : keeping C d env (open_file (read_only b) p).
Proof.
  apply keeping_call. intros k fs. unfold open_at.
  destruct (resolve _ env fs p) as [key|]; [|done]. destruct (inode_at fs key) as [[id i]|]; [|done].
  cbn. by destruct (i_kind i).
Qed.
End keeping.

Lemma harmless_sync d env (Hquiet : quiet d env) f : harmless d env (sync_all f).
Proof.
  intros P Hs [Hc1 Hc2]. apply (spec_call d); [done..| |done|done]. intros k fs Hp.
  destruct (fs_inodes fs !! h_inode f) as [i|]; [|done].
  destruct (i_kind i); cbn; auto.
Qed.

Create HintDb harmless.
#[export] Hint Resolve keeping_ret keeping_lift keeping_stop keeping_env keeping_open
  harmless_sync : harmless.

Ltac harmless :=
  repeat match goal with
  | |- keeping _ _ _ (_ ≫= _) => apply keeping_bind; [|intros ?]
  | |- keeping _ _ _ (sys _) => apply keeping_sys
  | |- keeping _ _ _ (attempt _) => apply keeping_attempt
  | |- keeping _ _ _ (match ?x with _ => _ end) => destruct x
  | |- keeping _ _ _ (call _) => by apply keeping_call
  | |- keeping _ _ _ (stat _ _) => by apply keeping_call
  | |- keeping _ _ _ (symlink_metadata _) => by apply keeping_call
  | |- keeping _ _ _ (metadata _) => by apply keeping_call
  | |- keeping _ _ _ (file_metadata _) => by apply keeping_call
  | |- keeping _ _ _ (read_at _ _ _) => by apply keeping_call
  | |- keeping _ _ _ (read_to_end _) => by apply keeping_call
  | |- keeping _ _ _ (rewind _) => by apply keeping_call
  | |- keeping _ _ _ (canonicalize _) => by apply keeping_call
  | |- keeping _ _ _ (lock_file _) => by apply keeping_call
  | |- keeping _ _ _ (io_fail _) => apply keeping_lift
  | |- keeping _ _ _ (read_file _) => unfold read_file
  | |- keeping _ _ _ (sync_dir _) => unfold sync_dir
  | |- _ => solve [auto with harmless]
  end.

Section backups.
Context (d : Key) (env : FsEnv) (Hquiet : quiet d env).

Lemma harmless_compare_from rounds s b o i : harmless d env (compare_from rounds s b o i).
Proof. revert o i. induction rounds as [|k IH]; intros o i; cbn [compare_from]; harmless. Qed.

Lemma harmless_compare_open s b : harmless d env (compare_open_files s b).
Proof. unfold compare_open_files. harmless. apply harmless_compare_from. Qed.

Lemma harmless_compare s b : harmless d env (compare_files s b).
Proof. unfold compare_files. harmless. apply harmless_compare_open. Qed.

Lemma harmless_regular p : harmless d env (verified_regular_file p).
Proof. unfold verified_regular_file. harmless. Qed.

Lemma harmless_durability p x y : harmless d env (sync_backup_durability p x y).
Proof. unfold sync_backup_durability. harmless. Qed.
Hint Resolve harmless_compare harmless_compare_open harmless_regular harmless_durability : harmless.

Lemma harmless_verify s b : harmless d env (ValidatedBackup_verify s b).
Proof. unfold ValidatedBackup_verify. harmless. Qed.

Lemma harmless_check_target b t : harmless d env (check_target b t).
Proof. unfold check_target. harmless. Qed.
Hint Resolve harmless_verify harmless_check_target : harmless.

Lemma harmless_assert_stable g : harmless d env (assert_stable g).
Proof. unfold assert_stable. harmless. Qed.
Hint Resolve harmless_assert_stable : harmless.

Lemma harmless_hold b t : harmless d env (hold_for_target b t).
Proof. unfold hold_for_target, revalidate_for_target, revalidate. harmless. Qed.
End backups.

(** ** Syncing keeps recorded values *)
Lemma base_sync_inode d fs id : base d fs → base d (sync_inode fs id).
Proof.
  intros [Hw Hd]. unfold sync_inode. destruct (fs_inodes fs !! id) as [i|] eqn:Ei; [|done].
  split; [by eapply wf_set_inode|]. intros k Hk. destruct (Hd k Hk) as (id' & j & He & Hj & Hkind & Hs).
  exists id'. cbn. destruct (decide (id' = id)) as [->|Hne].
  - rewrite lookup_insert_eq. eexists. split; [exact He|]. split; [done|]. split; [|done]. cbn. congruence.
  - rewrite lookup_insert_ne by done. exists j. done.
Qed.

Lemma base_settle_any d k fs : base d fs → base d (settle_dir fs k).
Proof.
  intros [[He Hn] Hd]. split; [split; [|exact Hn]|].
  - intros key id. rewrite entry_settle. intros H%settle_possible. by eapply He.
  - intros key Hp. destruct (Hd key Hp) as (id & i & E & H). exists id, i. split; [|done].
    rewrite entry_settle, E. unfold settle. by case_decide.
Qed.

Section syncing.
Context {S : Type} (text : S → string) (ok : S → Prop) (d : Key) (n : string).

Lemma recorded_sync_inode ss fs id :
  recorded text ok d n ss fs → recorded text ok d n ss (sync_inode fs id).
Proof.
  intros (vs & [Hb Hv] & Hk). exists vs. split; [|done]. split; [by apply base_sync_inode|].
  rewrite <- Hv. unfold sync_inode. destruct (fs_inodes fs !! id) as [i|] eqn:Ei; [|done].
  apply views_ext; [done|]. intros o Ho. destruct (decide (o = Some id)) as [->|Hne].
  - cbn. rewrite lookup_insert_eq, Ei. cbn.
    assert (view_id fs (Some id) ∈ vs) as Hin by (rewrite <- Hv; by apply list_elem_of_fmap_2).
    destruct (Forall2_elem _ _ _ _ Hk Hin) as (x & _ & Hx). apply keeps_synced in Hx.
    cbn in Hx. rewrite Ei in Hx. cbn in Hx. unfold view_of. cbn. by rewrite Hx.
  - by apply view_id_set_inode.
Qed.

(** Both names of the directory are settled, or neither. *)
Lemma recorded_settle o ss fs k :
  recorded text ok d n (o :: ss) fs →
  recorded text ok d n (if decide (k = d) then [o] else o :: ss) (settle_dir fs k).
Proof.
  intros (vs & [Hb Hv] & Hk). inversion Hk as [|v ? vs' ? Hvo Hvs]; subst.
  case_decide as Hd.
  - subst k. exists [v]. split; [|by repeat constructor]. split; [by apply base_settle_any|].
    unfold views. rewrite entry_settle, settle_child. cbn. f_equal. symmetry in H. by injection H.
  - exists (v :: vs'). split; [|by constructor]. split; [by apply base_settle_any|].
    rewrite H. apply views_ext; [|done]. rewrite entry_settle. unfold settle.
    rewrite decide_False; [done|]. rewrite removelast_last. by intros [<- _].
Qed.
End syncing.

(** ** The two files *)
Section store.
Context (d : Key) (n : string) (path : Path) (Hpath : located path d n).

Definition marker_name : string := "." +:+ n +:+ ".recovery".

Definition ledgers : list (option MigrationLedger) → FS → Prop :=
  recorded serialize_ledger ledger_ok d n.
Definition markers : list (option MigrationRecoveryRecord) → FS → Prop :=
  recorded serialize_recovery_record record_ok d marker_name.

Definition at_progress (p : Progress) (fs : FS) : Prop :=
  ledgers (pg_ledgers p) fs ∧ markers (pg_markers p) fs.

Definition settled (p : Progress) : Progress :=
  {| pg_ledgers := take 1 (pg_ledgers p); pg_markers := take 1 (pg_markers p); pg_trace := pg_trace p |}.

Definition synced_or (p : Progress) (fs : FS) : Prop := at_progress p fs ∨ at_progress (settled p) fs.

Lemma stable_progress p : stable d (at_progress p).
Proof. intros fs fs' Hr [H1 H2]. split; by eapply stable_recorded. Qed.

Lemma stable_synced_or p : stable d (synced_or p).
Proof. intros fs fs' Hr [H|H]; [left|right]; by eapply stable_progress. Qed.

Lemma recorded_nonempty {S} (text : S → string) ok m ss fs :
  recorded text ok d m ss fs → ∃ o ss', ss = o :: ss'.
Proof.
  intros (vs & [_ Hv] & Hk). unfold views, possible in Hv. destruct vs as [|v vs]; [done|].
  inversion Hk; subst; eauto.
Qed.

Lemma settle_progress p fs k : at_progress p fs → synced_or p (settle_dir fs k).
Proof.
  intros [Hl Hm]. destruct p as [ls ms tr]. cbn in Hl, Hm.
  destruct (recorded_nonempty _ _ _ _ _ Hl) as (l & ls' & ->).
  destruct (recorded_nonempty _ _ _ _ _ Hm) as (m & ms' & ->).
  apply (recorded_settle _ _ _ _ _ _ _ k) in Hl, Hm. case_decide; [right|left]; by split.
Qed.

Lemma settled_idemp p : settled (settled p) = settled p.
Proof. destruct p as [[|l ls] [|m ms] tr]; done. Qed.

Lemma sync_closed_progress p : sync_closed (synced_or p).
Proof.
  split.
  - intros fs id [[H1 H2]|[H1 H2]]; [left|right]; split; by apply recorded_sync_inode.
  - intros fs k [H|H]; [by apply settle_progress|]. apply (settle_progress _ _ k) in H as [H|H].
    + by right.
    + right. by rewrite settled_idemp in H.
Qed.

Lemma settled_step p fs : at_progress p fs → protocol_steps p (settled p).
Proof.
  intros [Hl Hm]. destruct p as [ls ms tr]. cbn in Hl, Hm.
  destruct (recorded_nonempty _ _ _ _ _ Hl) as (l & ls' & ->).
  destruct (recorded_nonempty _ _ _ _ _ Hm) as (m & ms' & ->). apply rtc_once, step_settle.
Qed.

(** *** Names *)
Lemma name_free : free SLASH n.
Proof. apply (file_name_free path). by eapply located_file_name. Qed.

Lemma marker_not_ledger : marker_name ≠ n.
Proof. destruct (dotted_name n ".recovery") as (_ & _ & ?); [apply name_free|done|cbn; lia|done]. Qed.

Lemma lock_not_ledger : "." +:+ n +:+ ".lock" ≠ n.
Proof. destruct (dotted_name n ".lock") as (_ & _ & ?); [apply name_free|done|cbn; lia|done]. Qed.

Lemma lock_not_marker : "." +:+ n +:+ ".lock" ≠ marker_name.
Proof. unfold marker_name. by intros H%string_app_inj_l%string_app_inj_l. Qed.

Lemma temporary_not_marker pid nonce : temporary_name n pid nonce ≠ marker_name.
Proof. unfold temporary_name, marker_name. by intros H%string_app_inj_l%string_app_inj_l. Qed.

Lemma temporary_not_ledger pid nonce : temporary_name marker_name pid nonce ≠ n.
Proof.
  unfold temporary_name, marker_name. intros H. apply (f_equal String.length) in H.
  rewrite !length_string_app in H. cbn in H. lia.
Qed.

Lemma marker_located texts p :
  sidecar_path (E := MigrationError) texts path "recovery" = Ok p → located p d marker_name.
Proof. intros H. apply (sidecar_located d n) in H as [H _]; [done..|cbn; lia]. Qed.

(** *** Computations as steps of the protocol *)
Context (env : FsEnv) (Hquiet : quiet d env).

Definition moves {E A} (p : Progress) (m : IO E A) (Q : Progress → option (result E A) → Prop) : Prop :=
  spec env (at_progress p) m (λ fs o, ∃ q, protocol_steps p q ∧ pg_trace q = pg_trace p ∧
                                          at_progress q fs ∧ Q q o).

Lemma moves_weaken {E A} p (m : IO E A) Q Q' :
  moves p m Q → (∀ q o, Q q o → Q' q o) → moves p m Q'.
Proof.
  intros Hm HQ. eapply spec_weaken; [exact Hm|done|]. intros fs o (q & H1 & H2 & H3 & H4). exists q. auto.
Qed.

Lemma moves_steps {E A} p (m : IO E A) Q : moves p m Q → moves p m (λ q o, Q q o ∧ protocol_steps p q).
Proof.
  intros Hm. eapply spec_weaken; [exact Hm|done|]. intros fs o (q & H1 & H2 & H3 & H4). exists q. auto.
Qed.

Lemma moves_bind {E A B} p (m : IO E A) (f : A → IO E B) R Q :
  moves p m R →
  (∀ q a, R q (Some (Ok a)) → moves q (f a) Q) →
  (∀ q e, R q (Some (Err e)) → Q q (Some (Err e))) → (∀ q, R q None → Q q None) →
  moves p (m ≫= f) Q.
Proof.
  intros Hm Hf He Hk w Hw. destruct (Hm w Hw) as (q & Hs & Ht & Hq & HR). cbv [mbind io_bind].
  destruct (m env w) as [w' [[a|e]|]]; cbn in *.
  - destruct (Hf q a HR w' Hq) as (q' & Hs' & Ht' & Hq' & HQ). exists q'.
    split; [by etrans|]. split; [congruence|done].
  - exists q. auto.
  - exists q. auto.
Qed.

Lemma moves_lift {E A} p (r : result E A) (Q : Progress → option (result E A) → Prop) :
  Q p (Some r) → moves p (io_lift r) Q.
Proof. intros HQ w Hw. exists p. split_and!; [done..|exact Hw|done]. Qed.

Lemma moves_ret {E A} p (a : A) (Q : Progress → option (result E A) → Prop) :
  Q p (Some (Ok a)) → moves p (mret a) Q.
Proof. apply moves_lift. Qed.

Lemma moves_ok_bind {E A B} p (a : A) (f : A → IO E B) Q :
  moves p (f a) Q → moves p (io_lift (Ok a) ≫= f) Q.
Proof. intros Hf w Hw. by apply Hf. Qed.

Lemma moves_err_bind {E A B} p (e : E) (f : A → IO E B) (Q : Progress → option (result E B) → Prop) :
  Q p (Some (Err e)) → moves p (io_lift (Err e) ≫= f) Q.
Proof. intros He w Hw. exists p. split_and!; [done..|exact Hw|done]. Qed.

Lemma moves_reject {E B} p b (e : E) (f : unit → IO E B) (Q : Progress → option (result E B) → Prop) :
  (b = false → moves p (f tt) Q) → Q p (Some (Err e)) → moves p (io_lift (reject_if b e) ≫= f) Q.
Proof. destruct b; intros Hf He; [by apply moves_err_bind|by apply moves_ok_bind, Hf]. Qed.

(** A computation that keeps the files as they are, with what it returns. *)
Lemma moves_same {E A} p (m : IO E A) (Q : option (result E A) → Prop) :
  spec env (at_progress p) m (λ fs o, at_progress p fs ∧ Q o) → moves p m (λ q o, q = p ∧ Q o).
Proof. intros Hm w Hw. destruct (Hm w Hw) as [Hp HQ]. exists p. done. Qed.

Lemma moves_map_err {E F A} p (f : E → F) (m : IO E A) (Q : Progress → option (result F A) → Prop) :
  moves p m (λ q o, Q q (map_err f <$> o)) → moves p (io_map_err f m) Q.
Proof. intros Hm w Hw. destruct (Hm w Hw) as (q & H). unfold io_map_err. destruct (m env w) as [w' o]. by exists q. Qed.

Lemma moves_attempt_bind {E F A B} p (m : IO E A) (f : result E A → IO F B)
    (R : Progress → option (result E A) → Prop) (Q : Progress → option (result F B) → Prop) :
  moves p m R → (∀ q r, R q (Some r) → moves q (f r) Q) → (∀ q, R q None → Q q None) →
  moves p (attempt m ≫= f) Q.
Proof.
  intros Hm Hf Hk. eapply moves_bind with (R := λ q o, match o with
    | Some (Ok r) => R q (Some r) | Some (Err _) => False | None => R q None end); [|done|done|done].
  apply spec_attempt. eapply spec_weaken; [exact Hm|done|].
  intros fs [r|] (q & H1 & H2 & H3 & H4); exists q; done.
Qed.

(** Two facts about one run. *)
Lemma spec_and {E A} (P1 P2 : FS → Prop) (m : IO E A) Q1 Q2 :
  spec env P1 m Q1 → spec env P2 m Q2 →
  spec env (λ fs, P1 fs ∧ P2 fs) m (λ fs o, Q1 fs o ∧ Q2 fs o).
Proof. intros H1 H2 w [Hw1 Hw2]. split; [by apply H1|by apply H2]. Qed.

Lemma moves_harmless {E A} p (m : IO E A) (Q : option (result E A) → Prop) :
  harmless d env m → (∀ w, Q (m env w).2) →
  moves p m (λ q o, (q = p ∨ q = settled p) ∧ Q o).
Proof.
  intros Hm HQ w Hw.
  destruct (Hm (synced_or p) (stable_synced_or p) (sync_closed_progress p) w (or_introl Hw)) as [H|H].
  - exists p. split_and!; [done..| |by left|apply HQ]. exact H.
  - exists (settled p). split_and!; [by eapply settled_step|done|exact H|by right|apply HQ].
Qed.

(** *** The lock and the ledger *)
Lemma moves_acquire p : moves p (MigrationLedgerStore_acquire_exclusive path) (λ q _, q = p).
Proof.
  eapply moves_weaken; [apply (moves_same p _ (λ _, True))|by intros q o [? _]].
  eapply spec_weaken; [apply (spec_and (ledgers (pg_ledgers p)) (markers (pg_markers p)))|done|].
  - apply recorded_keep. intros vs. apply (spec_acquire_keep d env Hquiet n); [done|apply lock_not_ledger].
  - apply recorded_keep. intros vs. apply (spec_acquire_keep d env Hquiet n); [done|apply lock_not_marker].
  - intros fs o H. by split.
Qed.

(** Reading keeps both files; what it returns is known from one of them. *)
Lemma moves_reading {E A} p (m : IO E A) (Q : option (result E A) → Prop) :
  reading d env m → spec env (at_progress p) m (λ _, Q) → moves p m (λ q o, q = p ∧ Q o).
Proof.
  intros Hk HQ. apply moves_same. intros w Hw. split; [by apply Hk; [apply stable_progress|..]|by apply HQ].
Qed.

Lemma reading_load : reading d env (MigrationLedgerStore_load path).
Proof. unfold MigrationLedgerStore_load. harmless. Qed.

Lemma moves_load p l ls :
  pg_ledgers p = l :: ls →
  moves p (MigrationLedgerStore_load path)
    (λ q o, q = p ∧ match o with Some (Ok x) => x = ledger_of l | _ => True end).
Proof.
  intros Hp. apply moves_reading; [apply reading_load|].
  apply (spec_pre env _ _ (ledgers (l :: ls))); [by intros fs [H _]; rewrite Hp in H|].
  unfold MigrationLedgerStore_load.
  eapply spec_attempt_bind with (R := λ fs r, ledgers (l :: ls) fs ∧
    match r with Ok m => l ≠ None | Err e => io_kind e = NotFound → l = None end).
  { eapply spec_weaken; [by apply (spec_stat_recorded serialize_ledger ledger_ok d env Hquiet n path Hpath)|done|].
    intros fs [[m|e]|]; naive_solver. }
  intros [m|e].
  - destruct (untrusted_file m); [by apply spec_err_bind|]. apply spec_ok_bind.
    destruct (MAX_LEDGER_BYTES <? m_len m)%Z; [by apply spec_err_bind|]. apply spec_ok_bind.
    apply spec_pure. intros Hl. destruct l as [x|]; [|done].
    eapply spec_bind with (R := λ fs r, ledgers (Some x :: ls) fs ∧
      match r with Some (Ok b) => b = serialize_ledger x | _ => True end); [| |done..].
    + apply spec_map_err. eapply spec_weaken;
        [by apply (spec_read_recorded serialize_ledger ledger_ok d env Hquiet n path Hpath)|done|].
      intros fs [[t|e]|]; naive_solver.
    + intros bytes. apply spec_lift. intros fs [Hr ->].
      rewrite parse_serialize_ledger; [done|]. by eapply recorded_ok; [exact Hr|left].
  - destruct (io_kind e); [|by apply spec_lift..].
    apply spec_ret. intros fs [_ Hn]. by rewrite Hn.
Qed.

(** *** The marker *)
Lemma spec_reject {E B} P b (e : E) (f : unit → IO E B) (Q : FS → option (result E B) → Prop) :
  (b = false → spec env P (f tt) Q) → (∀ fs, P fs → Q fs (Some (Err e))) →
  spec env P (io_lift (reject_if b e) ≫= f) Q.
Proof. destruct b; intros Hf He; [by apply spec_err_bind|by apply spec_ok_bind, Hf]. Qed.

Lemma spec_read_marker p meta r ms :
  located p d marker_name →
  spec env (markers (Some r :: ms)) (read_marker p meta)
    (λ _ o, match o with Some (Ok x) => x = r | _ => True end).
Proof.
  intros Hp. apply spec_recorded. intros vs Hh. inversion Hh as [|v ? vs' ? Hv Hvs]; subst.
  destruct v as [vw|]; [|done]. destruct Hv as (Hreg & _ & Hdata & Hok). unfold read_marker.
  apply spec_reject; [intros _|done]. apply spec_reject; [intros _|done].
  eapply spec_bind with (R := λ fs o, match o with
    | Some (Ok f) => opened_place d marker_name (Some vw) vs' f fs | _ => True end); [| |done..].
  { apply spec_map_err. eapply spec_weaken; [by apply (spec_open_place d env Hquiet marker_name p Hp (Some vw) vs' true)|done|].
    by intros fs [[f|e]|]. }
  intros f. eapply spec_bind with (R := λ fs _, opened_place d marker_name (Some vw) vs' f fs); [| |done..].
  { apply spec_keep_map_err. eapply (keeping_call (λ _, True) d env Hquiet); [done| |done]. apply stable_opened. }
  intros opened. apply spec_reject; [intros _|done].
  eapply spec_bind with (R := λ _ o, match o with Some (Ok b) => b = v_data vw | _ => True end); [| |done..].
  { apply spec_map_err. eapply spec_weaken; [by apply (spec_read_opened d env Hquiet)|done|].
    intros fs [[b|e]|] [_ H]; cbn in *; [by injection H|done..]. }
  intros bytes. apply spec_reject; [intros _|done].
  eapply spec_bind with (R := λ _ o, bytes = v_data vw); [| |done..].
  { intros w Hw. exact Hw. }
  intros after. apply spec_reject; [intros _|done]. apply spec_lift. intros fs ->.
  by rewrite Hdata, parse_serialize_record.
Qed.

Lemma reading_read_marker p meta : reading d env (read_marker p meta).
Proof. unfold read_marker. harmless. Qed.
Hint Resolve reading_read_marker : harmless.

Lemma reading_load_marker : reading d env (load_recovery_record path).
Proof. unfold load_recovery_record. harmless. Qed.

(** What is there, through the path of the marker. *)
Lemma spec_stat_marker p m ms :
  located p d marker_name →
  spec env (markers (m :: ms)) (symlink_metadata p)
    (λ fs r, markers (m :: ms) fs ∧
       match r with
       | Some (Ok _) => m ≠ None
       | Some (Err e) => io_kind e = NotFound → m = None
       | None => True
       end).
Proof. intros Hp. by apply spec_stat_recorded. Qed.

Lemma moves_load_marker p m ms :
  pg_markers p = m :: ms →
  moves p (load_recovery_record path)
    (λ q o, q = p ∧ match o with Some (Ok x) => x = m | _ => True end).
Proof.
  intros Hp. apply moves_reading; [apply reading_load_marker|].
  apply (spec_pre env _ _ (markers (m :: ms))); [by intros fs [_ H]; rewrite Hp in H|].
  unfold load_recovery_record. destruct (sidecar_path ledger_texts path "recovery") as [pm|e] eqn:Hs;
    [|by apply spec_err_bind].
  apply spec_ok_bind. apply marker_located in Hs.
  eapply spec_attempt_bind with (R := λ fs r, markers (m :: ms) fs ∧
    match r with Ok _ => m ≠ None | Err e => io_kind e = NotFound → m = None end).
  { eapply spec_weaken; [by apply spec_stat_marker|done|]. intros fs [[x|e]|]; naive_solver. }
  intros [x|e].
  - apply spec_pure. intros Hm. destruct m as [r|]; [|done].
    eapply spec_bind; [by apply spec_read_marker|..]; [|done..].
    intros y. apply spec_ret. by intros fs ->.
  - destruct (io_kind e); [|by apply spec_lift..]. apply spec_ret. intros fs [_ Hn]. by rewrite Hn.
Qed.

(** *** Changing the files *)
Lemma spec_sync_recorded {S} (text : S → string) ok m q o ss :
  components q = "/" :: d → Forall plain_name d →
  spec env (recorded text ok d m (o :: ss)) (sync_dir q)
    (λ fs x, match x with
             | Some (Ok _) => recorded text ok d m [o] fs
             | _ => recorded text ok d m (o :: ss) fs
             end).
Proof.
  intros Hq Hd. apply spec_recorded. intros vs Hh. inversion Hh as [|v ? vs' ? Hv Hvs]; subst.
  eapply spec_weaken; [by apply (spec_sync_dir d env Hquiet m vs' q Hq Hd v)|done|].
  intros fs [[u|e]|] Hp; eexists; (split; [exact Hp|]); by repeat constructor.
Qed.

Lemma plain_dir : Forall plain_name d.
Proof. destruct Hpath as [_ [? _]%Forall_app]. done. Qed.

Lemma moves_sync p q :
  components q = "/" :: d →
  moves p (sync_dir q) (λ p' o, p' = match o with Some (Ok _) => settled p | _ => p end).
Proof.
  intros Hq w Hw. destruct (recorded_nonempty _ _ _ _ _ (proj1 Hw)) as (l & ls & Hl).
  destruct (recorded_nonempty _ _ _ _ _ (proj2 Hw)) as (m & ms & Hm).
  destruct Hw as [Hwl Hwm]. pose proof (settled_step p (w_fs w) (conj Hwl Hwm)) as Hst.
  rewrite Hl in Hwl. rewrite Hm in Hwm.
  pose proof (spec_sync_recorded serialize_ledger ledger_ok n q l ls Hq plain_dir w Hwl) as H1.
  pose proof (spec_sync_recorded serialize_recovery_record record_ok marker_name q m ms Hq plain_dir w Hwm) as H2.
  destruct (sync_dir q env w) as [w' [[u|e]|]]; cbn in *; eexists.
  - split; [exact Hst|]. split; [done|]. split; [|done]. unfold at_progress, settled. by rewrite Hl, Hm.
  - split; [reflexivity|]. split; [done|]. split; [|done]. unfold at_progress. by rewrite Hl, Hm.
  - split; [reflexivity|]. split; [done|]. split; [|done]. unfold at_progress. by rewrite Hl, Hm.
Qed.

(** The marker may go: its migration is in the ledger, or not outstanding. *)
Definition may_clear (p : Progress) : Prop :=
  match head (pg_ledgers p), head (pg_markers p) with
  | Some l, Some (Some r) =>
      rr_migration_id r ∈ ledger_of l ∨ rr_migration_id r ∉ outstanding (pg_trace p)
  | _, _ => True
  end.

Definition unmarked (p : Progress) : Progress :=
  {| pg_ledgers := pg_ledgers p; pg_markers := None :: pg_markers p; pg_trace := pg_trace p |}.

Lemma moves_remove p pm :
  located pm d marker_name → head (pg_markers p) ≠ Some None → may_clear p →
  moves p (remove_file pm) (λ q o, q = match o with Some (Ok _) => unmarked p | _ => p end).
Proof.
  intros Hpm Hm Hc w Hw. destruct (recorded_nonempty _ _ _ _ _ (proj1 Hw)) as (l & ls & El).
  destruct (recorded_nonempty _ _ _ _ _ (proj2 Hw)) as (m & ms & Em).
  destruct p as [pl pms tr]. cbn in El, Em. subst pl pms. cbn in Hm, Hc. destruct m as [r|]; [|done].
  destruct Hw as [Hwl Hwm].
  pose proof (recorded_keep serialize_ledger ledger_ok d env n (remove_file pm) (l :: ls)
    (λ vs, spec_remove_other d env Hquiet n marker_name marker_not_ledger pm vs Hpm) w Hwl) as H1.
  destruct Hwm as (vs & Hp & Hh). inversion Hh as [|v ? vs' ? Hv Hvs]; subst.
  pose proof (spec_remove_place d env Hquiet marker_name pm v vs' Hpm w Hp) as H2.
  destruct (remove_file pm env w) as [w' [[u|e]|]]; cbn in *; eexists.
  - split; [apply rtc_once, step_clear, Hc|]. split; [done|]. split; [|done]. split; [exact H1|].
    eexists. split; [exact H2|]. by constructor.
  - split; [reflexivity|]. split; [done|]. split; [|done]. split; [exact H1|]. by eexists.
  - split; [reflexivity|]. split; [done|]. split; [|done]. split; [exact H1|]. by eexists.
Qed.

(** What a cleared marker leaves: the ledger in front is the same one, and a
    reader finds no marker. *)
Definition cleared (p q : Progress) : Prop :=
  head (pg_ledgers q) = head (pg_ledgers p) ∧ head (pg_markers q) = Some None.

Lemma moves_clear p :
  pg_markers p ≠ [] → may_clear p →
  moves p (clear_recovery_marker path)
    (λ q o, match o with Some (Ok _) => cleared p q | _ => True end).
Proof.
  intros Hne Hc. destruct (pg_markers p) as [|m ms] eqn:Em; [done|]. unfold clear_recovery_marker.
  destruct (sidecar_path ledger_texts path "recovery") as [pm|e] eqn:Hs; [|by apply moves_err_bind].
  apply moves_ok_bind. apply marker_located in Hs.
  eapply moves_attempt_bind with (R := λ q o, q = p ∧ match o with
    | Some (Ok _) => m ≠ None | Some (Err e) => io_kind e = NotFound → m = None | None => True end); [|..|done].
  { apply moves_reading; [harmless|]. apply (spec_pre env _ _ (markers (m :: ms))).
    - intros fs [_ H]. by rewrite Em in H.
    - eapply spec_weaken; [by apply spec_stat_marker|done|]. by intros fs o [_ H]. }
  intros q [meta|e] [-> Hr].
  - apply moves_reject; [intros _|done].
    eapply moves_bind with (R := λ q o, match o with Some (Ok _) => q = unmarked p | _ => True end); [|..|done|done].
    { apply moves_map_err. eapply moves_weaken; [apply moves_remove; [done| |done]|].
      - rewrite Em. cbn. congruence.
      - by intros q [[u|x]|] ->. }
    intros q [] ->. pose proof (located_file_name _ _ _ Hs) as Hfn.
    destruct (file_name_parent _ _ Hfn) as [dir Hdir]. rewrite Hdir. cbn [ok_or]. apply moves_ok_bind.
    apply moves_map_err. eapply moves_weaken; [by apply moves_sync, (located_parent _ _ _ _ Hs)|].
    intros q [[u|x]|] ->; cbn; [|done..]. split; cbn; [by destruct (pg_ledgers p)|done].
  - destruct (io_kind e); [|by apply moves_lift..]. apply moves_ret. split; [done|].
    rewrite Em, Hr by done. done.
Qed.

Lemma spec_elsewhere_recorded {S} (text : S → string) ok m r pm texts s o ss :
  located pm d m → m ≠ r → (∀ pid nonce, temporary_name m pid nonce ≠ r) →
  spec env (recorded text ok d r (o :: ss)) (atomic_write (E := MigrationError) texts pm s)
    (λ fs x, match x with
             | Some (Ok _) => recorded text ok d r [o] fs
             | _ => recorded text ok d r (o :: ss) fs
             end).
Proof.
  intros Hpm Hne Hn. apply spec_recorded. intros vs Hh. inversion Hh as [|v ? vs' ? Hv Hvs]; subst.
  eapply spec_weaken; [by apply (atomic_write_elsewhere d env Hquiet m pm Hpm r Hne)|done|].
  intros fs [[u|e]|] Hp; eexists; (split; [exact Hp|]); by repeat constructor.
Qed.

Lemma moves_persist_record l ls ms r tr :
  let p := {| pg_ledgers := l :: ls; pg_markers := None :: ms; pg_trace := tr |} in
  record_ok r → rr_migration_id r ∉ ledger_of l →
  moves p (persist_recovery_record path r)
    (λ q o, match o with
            | Some (Ok _) => q = {| pg_ledgers := [l]; pg_markers := [Some r]; pg_trace := tr |}
            | _ => True
            end).
Proof.
  intros p Hr Hn. unfold persist_recovery_record.
  destruct (sidecar_path ledger_texts path "recovery") as [pm|e] eqn:Hs; [|by apply moves_err_bind].
  apply moves_ok_bind. apply marker_located in Hs. intros w [Hwl Hwm].
  pose proof (spec_elsewhere_recorded serialize_ledger ledger_ok marker_name n pm marker_texts
    (serialize_recovery_record r) l ls Hs marker_not_ledger temporary_not_ledger w Hwl) as H1.
  pose proof (spec_write_recorded serialize_recovery_record record_ok d env Hquiet marker_name pm Hs
    marker_texts r (None :: ms) Hr w Hwm) as H2.
  assert (protocol_step p {| pg_ledgers := l :: ls; pg_markers := Some r :: None :: ms; pg_trace := tr |})
    as Hstep by (by apply step_mark).
  destruct (atomic_write marker_texts pm _ env w) as [w' [[u|e]|]]; cbn in *.
  - eexists. split; [eapply rtc_l; [exact Hstep|apply rtc_once, step_settle]|]. by split_and!.
  - destruct H2 as [[_ H2]|[_ H2]]; [exists p|eexists; split; [by apply rtc_once|]]; by split_and!.
  - destruct H2 as [H2|H2]; [exists p|eexists; split; [by apply rtc_once|]]; by split_and!.
Qed.

Lemma moves_persist_ledger l r tr :
  let id := rr_migration_id r in
  let p := {| pg_ledgers := [l]; pg_markers := [Some r]; pg_trace := Verified id :: tr |} in
  let next := {[id]} ∪ ledger_of l in
  valid_identifier id 128 = true →
  moves p (MigrationLedgerStore_persist path next)
    (λ q o, match o with
            | Some (Ok _) =>
                q = {| pg_ledgers := [Some next]; pg_markers := [Some r]; pg_trace := Verified id :: tr |}
            | Some (Err e) => (∃ t, e = IoFailure t) ∧ q = p ∨ ∃ t, e = DurabilityUncertain t
            | None => True
            end).
Proof.
  intros id p next Hid w [Hwl Hwm]. unfold MigrationLedgerStore_persist.
  assert (ledger_ok next) as Hok.
  { intros x. unfold next. rewrite elem_of_union, elem_of_singleton. intros [->|Hx]; [done|].
    destruct l as [l|]; [|set_solver]. eapply (recorded_ok serialize_ledger ledger_ok); [exact Hwl|left|done]. }
  pose proof (spec_elsewhere_recorded serialize_recovery_record record_ok n marker_name path ledger_texts
    (serialize_ledger next) (Some r) [] Hpath (not_eq_sym marker_not_ledger) temporary_not_marker w Hwm) as H1.
  pose proof (spec_write_recorded serialize_ledger ledger_ok d env Hquiet n path Hpath
    ledger_texts next [l] Hok w Hwl) as H2.
  assert (protocol_step p {| pg_ledgers := [Some next; l]; pg_markers := [Some r]; pg_trace := Verified id :: tr |})
    as Hstep by (apply step_record).
  destruct (atomic_write ledger_texts path _ env w) as [w' [[u|e]|]]; cbn in *.
  - eexists. split; [eapply rtc_l; [exact Hstep|apply rtc_once, step_settle]|]. by split_and!.
  - destruct H2 as [[He H2]|[He H2]].
    + exists p. split_and!; [done..|by left].
    + eexists. split; [by apply rtc_once|]. split_and!; [done..|by right].
  - destruct H2 as [H2|H2]; [exists p|eexists; split; [by apply rtc_once|]]; by split_and!.
Qed.

(** *** The reconciliation of a marker *)
Lemma moves_reconcile p l ls m ms :
  pg_ledgers p = l :: ls → pg_markers p = m :: ms →
  moves p (reconcile_recovery_marker path (ledger_of l))
    (λ q o, match o with
            | Some (Ok None) => cleared p q
            | Some (Ok (Some r)) => q = p ∧ m = Some r
            | _ => True
            end).
Proof.
  intros Hl Hm. unfold reconcile_recovery_marker.
  eapply moves_bind; [by apply (moves_load_marker p m ms)|..]; [|done..].
  intros q x [-> ->]. destruct m as [r|]; [|apply moves_ret; split; [done|by rewrite Hm]].
  unfold is_applied. case_bool_decide as Hin; [|by apply moves_ret].
  eapply moves_bind; [apply moves_clear|..]; [by rewrite Hm| | |done..].
  - unfold may_clear. rewrite Hl, Hm. by left.
  - intros q [] Hc. by apply moves_ret.
Qed.
End store.
