(* ===== verification/MigrationRuns.v ===== *)
(** * Runs of migrations follow the protocol

    Every run of a migration on a store, and every opening of a runner, takes
    steps of the protocol, whatever it returns. *)

From Stdlib Require Import ZArith Lia Ascii.
From stdpp Require Import base numbers gmap strings list fin_maps sorting relations.
From S2P Require Import Prelude Text Fields Ordered Paths Files ControlFiles FileFacts ControlFacts.
From S2P Require Import MigrationLedger MigrationRunner MigrationSteps.

Set Default Goal Selector "!".

(** The migration leaves the control directory alone, whatever else it does. *)
Record well_behaved (d : Key) (mg : Migration) : Prop := {
  wb_precondition env : quiet d env → harmless d env (mg_precondition mg);
  wb_apply env : quiet d env → harmless d env (mg_apply mg);
  wb_verify env : quiet d env → harmless d env (mg_verify mg);
  wb_rollback env : quiet d env → harmless d env (mg_rollback mg);
}.

(** The numbers of a backup are [u64]. *)
Record backup_u64 (b : ValidatedBackup) : Prop := {
  bu_source_device : is_u64 (vb_source_device b);
  bu_source_inode : is_u64 (vb_source_inode b);
  bu_backup_device : is_u64 (vb_backup_device b);
  bu_backup_inode : is_u64 (vb_backup_inode b);
  bu_size : is_u64 (vb_size b);
  bu_tag : is_u64 (vb_integrity_tag b);
}.

Section runs.
Context (d : Key) (n : string) (path : Path) (Hpath : located path d n).
Context (env : FsEnv) (Hquiet : quiet d env).

(** ** Triples for methods of a runner *)
Definition rspec {A} (p : Progress) (m : Run A) (r : MigrationRunner)
    (Q : Progress → option (MigrationRunner * result MigrationError A) → Prop) : Prop :=
  ∀ w, at_progress d n p (w_fs w) → progress_ok p →
    ∃ q, protocol_steps p q ∧ pg_trace q = reverse (m r env w).1.2 ++ pg_trace p ∧
      at_progress d n q (w_fs (m r env w).1.1) ∧ Q q (m r env w).2.

Lemma rspec_weaken {A} p (m : Run A) r Q Q' :
  rspec p m r Q → (∀ q o, Q q o → Q' q o) → rspec p m r Q'.
Proof. intros Hm HQ w Hw Hp. destruct (Hm w Hw Hp) as (q & ? & ? & ? & ?). exists q. auto. Qed.

Lemma rspec_bind {A B} p (m : Run A) (f : A → Run B) r R Q :
  rspec p m r R →
  (∀ q r' a, R q (Some (r', Ok a)) → progress_ok q → rspec q (f a) r' Q) →
  (∀ q r' e, R q (Some (r', Err e)) → Q q (Some (r', Err e))) → (∀ q, R q None → Q q None) →
  rspec p (m ≫= f) r Q.
Proof.
  intros Hm Hf He Hk w Hw Hp. destruct (Hm w Hw Hp) as (q & Hs & Ht & Hq & HR).
  pose proof (progress_ok_steps _ _ Hs Hp) as Hok. cbv [mbind run_bind].
  destruct (m r env w) as [[w1 t1] [[r1 [a|e]]|]]; cbn [fst snd] in *.
  - destruct (Hf q r1 a HR Hok w1 Hq Hok) as (q' & Hs' & Ht' & Hq' & HQ).
    destruct (f a r1 env w1) as [[w2 t2] o]; cbn [fst snd] in *. exists q'. split; [by etrans|].
    split; [by rewrite Ht', Ht, reverse_app, app_assoc|done].
  - exists q. auto.
  - exists q. auto.
Qed.

(** Methods that do not touch the system. *)
Lemma rspec_same {A} p (m : Run A) r o (Q : Progress → option (MigrationRunner * result MigrationError A) → Prop) :
  (∀ w, m r env w = (w, [], o)) → Q p o → rspec p m r Q.
Proof. intros Hm HQ w Hw Hp. rewrite Hm. exists p. by split_and!. Qed.

Lemma rspec_self_bind {B} p (f : MigrationRunner → Run B) r Q :
  rspec p (f r) r Q → rspec p (self ≫= f) r Q.
Proof.
  intros Hf. eapply rspec_bind with (R := λ q o, q = p ∧ o = Some (r, Ok r)); [by eapply rspec_same|..].
  - by intros q r' a [-> [= <- <-]] _.
  - by intros q r' e [-> ?].
  - by intros q [-> ?].
Qed.

Lemma rspec_update_bind {B} p g (f : unit → Run B) r Q :
  rspec p (f tt) (g r) Q → rspec p (update_self g ≫= f) r Q.
Proof.
  intros Hf. eapply rspec_bind with (R := λ q o, q = p ∧ o = Some (g r, Ok tt)); [by eapply rspec_same|..].
  - by intros q r' [] [-> [= ->]] _.
  - by intros q r' e [-> ?].
  - by intros q [-> ?].
Qed.

Lemma rspec_update p g r (Q : Progress → option (MigrationRunner * result MigrationError unit) → Prop) :
  Q p (Some (g r, Ok tt)) → rspec p (update_self g) r Q.
Proof. by apply rspec_same. Qed.

Lemma rspec_throw {A} p (e : MigrationError) r (Q : Progress → option (MigrationRunner * result MigrationError A) → Prop) :
  Q p (Some (r, Err e)) → rspec p (run_throw e) r Q.
Proof. by apply rspec_same. Qed.

Lemma rspec_ret {A} p (a : A) r (Q : Progress → option (MigrationRunner * result MigrationError A) → Prop) :
  Q p (Some (r, Ok a)) → rspec p (mret a) r Q.
Proof. by apply rspec_same. Qed.

Lemma rspec_check_bind {A B} p (x : result MigrationError A) (f : A → Run B) r
    (Q : Progress → option (MigrationRunner * result MigrationError B) → Prop) :
  (∀ a, x = Ok a → rspec p (f a) r Q) → (∀ e, Q p (Some (r, Err e))) → rspec p (run_check x ≫= f) r Q.
Proof.
  intros Hf He. eapply rspec_bind with (R := λ q o, q = p ∧ o = Some (r, x)); [by eapply rspec_same|..].
  - intros q r' a [-> [= -> <-]] _. by apply Hf.
  - intros q r' e [-> [= -> _]]. apply He.
  - by intros q [_ ?].
Qed.

Lemma rspec_emit_bind {B} p q e (f : unit → Run B) r Q :
  protocol_step p q → pg_trace q = e :: pg_trace p → pg_ledgers q = pg_ledgers p →
  pg_markers q = pg_markers p → (progress_ok q → rspec q (f tt) r Q) → rspec p (emit e ≫= f) r Q.
Proof.
  intros Hs Ht Hl Hm Hf. eapply rspec_bind with (R := λ q' o, q' = q ∧ o = Some (r, Ok tt)).
  - intros w [H1 H2] Hp. exists q. split; [by apply rtc_once|]. split; [done|]. split; [|done].
    split; [by rewrite Hl|by rewrite Hm].
  - intros q' r' [] [-> [= ->]] Hok. by apply Hf.
  - by intros q' r' x [_ ?].
  - by intros q' [_ ?].
Qed.

(** Computations of the system. *)
Lemma rspec_io_bind {A B} p (m : IO MigrationError A) (f : A → Run B) r R Q :
  moves d n env p m R →
  (∀ q a, R q (Some (Ok a)) → progress_ok q → rspec q (f a) r Q) →
  (∀ q e, R q (Some (Err e)) → Q q (Some (r, Err e))) → (∀ q, R q None → Q q None) →
  rspec p (run_io m ≫= f) r Q.
Proof.
  intros Hm Hf He Hk. eapply rspec_bind with (R := λ q o, match o with
    | Some (r', x) => r' = r ∧ R q (Some x) | None => R q None end); [|naive_solver..].
  intros w Hw Hp. destruct (Hm w Hw) as (q & H1 & H2 & H3 & H4). unfold run_io. exists q.
  by destruct (m env w) as [w' [x|]].
Qed.

Lemma rspec_result_bind {A B} p (m : IO MigrationError A) (f : result MigrationError A → Run B) r R Q :
  moves d n env p m R →
  (∀ q x, R q (Some x) → progress_ok q → rspec q (f x) r Q) → (∀ q, R q None → Q q None) →
  rspec p (run_result m ≫= f) r Q.
Proof.
  intros Hm Hf Hk. eapply rspec_bind with (R := λ q o, match o with
    | Some (r', Ok x) => r' = r ∧ R q (Some x) | Some (_, Err _) => False | None => R q None end); [|naive_solver..].
  intros w Hw Hp. destruct (Hm w Hw) as (q & H1 & H2 & H3 & H4). unfold run_result. exists q.
  by destruct (m env w) as [w' [x|]].
Qed.

(** ** The end of a run *)

(** The runner keeps its store; an acknowledged application is in every ledger. *)
Definition finished (id : string) (q : Progress)
    (o : option (MigrationRunner * result MigrationError MigrationOutcome)) : Prop :=
  match o with
  | Some (r, x) => mr_store r = Some path ∧ (x = Ok Applied → recorded_everywhere id q)
  | None => True
  end.

Lemma finished_err id q r e : mr_store r = Some path → finished id q (Some (r, Err e)).
Proof. by intros H. Qed.
Hint Resolve finished_err : core.

(** A run between its marker and the end of it. *)
Definition in_flight (l : option MigrationLedger) (rc : MigrationRecoveryRecord) (tr : list Event) : Progress :=
  {| pg_ledgers := [l]; pg_markers := [Some rc]; pg_trace := tr |}.

Lemma moves_in_flight {E A} l rc tr (m : IO E A) :
  harmless d env m → moves d n env (in_flight l rc tr) m (λ q _, q = in_flight l rc tr).
Proof.
  intros Hm. eapply moves_weaken; [by apply (moves_harmless d n env _ m (λ _, True))|].
  by intros q o [[-> | ->] _].
Qed.

Lemma rspec_latch_throw {A} p reason (e : MigrationError) r
    (Q : Progress → option (MigrationRunner * result MigrationError A) → Prop) :
  Q p (Some (with_reason (Some reason) r, Err e)) → rspec p (_ ← latch_recovery reason; run_throw e) r Q.
Proof. intros H. apply rspec_update_bind. by apply rspec_throw. Qed.

Lemma rspec_clear_then p (next : Run MigrationOutcome) id r :
  pg_markers p ≠ [] → may_clear p → mr_store r = Some path →
  (∀ q, cleared p q → protocol_steps p q → progress_ok q → rspec q next r (finished id)) →
  rspec p (clear_then (Some path) next) r (finished id).
Proof.
  intros Hm Hc Hr Hn. unfold clear_then.
  eapply rspec_result_bind; [by apply moves_steps, (moves_clear d n path Hpath env Hquiet)|..]; [|done].
  intros q [u|e] [Hq Hs] Hok; [by apply Hn|]. apply rspec_latch_throw. by apply finished_err.
Qed.

(** What is left to do once the application was rolled back. *)
Lemma rspec_rolled_back l rc tr e r :
  mr_store r = Some path →
  rspec (in_flight l rc tr)
    (_ ← emit (RolledBack (rr_migration_id rc));
     clear_then (Some path) (_ ← update_self (with_record None); run_throw e)) r
    (finished (rr_migration_id rc)).
Proof.
  intros Hr. eapply rspec_emit_bind; [apply step_rolled_back|done..|]. intros _.
  apply rspec_clear_then; [done| |done|].
  - unfold may_clear. cbn. right. apply not_elem_of_difference. right. set_solver.
  - intros q _ _ _. apply rspec_update_bind. apply rspec_throw. by apply finished_err.
Qed.

Section migration.
Context (mg : Migration) (Hmg : well_behaved d mg).
Abbreviation id := (md_id (mg_descriptor mg)).

Lemma rspec_rollback l rc tr e r :
  rr_migration_id rc = id → mr_store r = Some path →
  rspec (in_flight l rc tr)
    (x ← run_result (mg_rollback mg);
     match x with
     | Err _ => manual_recovery_error id
     | Ok _ =>
         _ ← emit (RolledBack id);
         clear_then (Some path) (_ ← update_self (with_record None); run_throw e)
     end) r (finished id).
Proof.
  intros <- Hr. eapply rspec_result_bind; [by apply moves_in_flight, (wb_rollback d mg Hmg)|..]; [|done].
  intros q [u|x] -> _; [by apply rspec_rolled_back|]. apply rspec_latch_throw. by apply finished_err.
Qed.

Lemma rspec_post_apply_failure l rc tr e r :
  rr_migration_id rc = id → mr_store r = Some path →
  rspec (in_flight l rc tr) (handle_post_apply_failure mg e (Some path)) r (finished id).
Proof.
  intros Hid Hr. unfold handle_post_apply_failure. destruct (md_reversible (mg_descriptor mg)).
  - by apply rspec_rollback.
  - apply rspec_latch_throw. by apply finished_err.
Qed.

Lemma rspec_persist_failure l rc tr t r :
  rr_migration_id rc = id → mr_store r = Some path →
  rspec (in_flight l rc tr) (handle_persist_failure mg (IoFailure t) (Some path)) r (finished id).
Proof.
  intros Hid Hr. unfold handle_persist_failure. destruct (md_reversible (mg_descriptor mg)); cbn [negb].
  - by apply rspec_rollback.
  - apply rspec_latch_throw. by apply finished_err.
Qed.

Lemma rspec_record_applied l rc tr r :
  rr_migration_id rc = id → mr_store r = Some path → mr_ledger r = ledger_of l →
  rspec (in_flight l rc (Verified id :: tr)) (record_applied mg (Some path)) r (finished id).
Proof.
  intros Hid Hr Hl. unfold record_applied. apply rspec_self_bind.
  apply rspec_check_bind; [|by intros e; apply finished_err]. intros next Hn.
  unfold mark_applied in Hn. apply bind_Ok in Hn as (u & Hv%reject_if_Ok & [= <-]).
  apply negb_false_iff in Hv. rewrite Hl. rewrite <- Hid in *.
  eapply rspec_result_bind; [by apply (moves_persist_ledger d n path Hpath env Hquiet l rc tr)|..]; [|done].
  intros q [[]|e] Hq _.
  - subst q. apply rspec_update_bind. apply rspec_clear_then; [done| |done|].
    + unfold may_clear. cbn. left. set_solver.
    + intros q _ Hs _. apply rspec_update_bind. apply rspec_ret. split; [done|]. intros _.
      eapply recorded_steps; [exact Hs|]. intros x ->%list_elem_of_singleton. cbn. set_solver.
  - destruct Hq as [[[t ->] ->]|[t ->]].
    + rewrite Hid. by apply rspec_persist_failure.
    + apply rspec_latch_throw. by apply finished_err.
Qed.

Lemma rspec_apply_and_record l rc tr r :
  rr_migration_id rc = id → mr_store r = Some path → mr_ledger r = ledger_of l →
  id ∉ ledger_of l → id ∉ outstanding tr →
  rspec (in_flight l rc tr) (apply_and_record mg (Some path)) r (finished id).
Proof.
  intros Hid Hr Hl Hn Ho. unfold apply_and_record. rewrite <- Hid in *.
  eapply rspec_emit_bind; [by apply step_apply|done..|]. intros _.
  eapply rspec_result_bind; [by apply moves_in_flight, (wb_apply d mg Hmg)|..]; [|done].
  intros q [u|e] -> _; [|apply rspec_latch_throw; by apply finished_err].
  eapply rspec_result_bind; [by apply moves_in_flight, (wb_verify d mg Hmg)|..]; [|done].
  intros q [v|e] -> _; [|rewrite Hid; by apply rspec_post_apply_failure].
  eapply rspec_emit_bind; [apply step_verified|done..|]. intros _. rewrite Hid. by apply rspec_record_applied.
Qed.

(** ** The beginning of a run *)

(** A reader finds the ledger [l] and no marker. *)
Definition idle_at (l : option MigrationLedger) (q : Progress) : Prop :=
  head (pg_ledgers q) = Some l ∧ head (pg_markers q) = Some None.

Lemma idle_settled l q : idle_at l q → idle_at l (settled q).
Proof. intros [H1 H2]. split; cbn; [by destruct (pg_ledgers q)|by destruct (pg_markers q)]. Qed.

Definition begun (q : Progress) (o : option (MigrationRunner * result MigrationError unit)) : Prop :=
  match o with
  | Some (r, Ok _) => mr_store r = Some path ∧ ∃ l, mr_ledger r = ledger_of l ∧ idle_at l q
  | Some (r, Err _) => mr_store r = Some path
  | None => True
  end.

Lemma progress_heads p : progress_ok p → ∃ l ls m ms, pg_ledgers p = l :: ls ∧ pg_markers p = m :: ms.
Proof.
  intros [Hl Hm _ _ _]. destruct (pg_ledgers p) as [|l ls]; [done|].
  destruct (pg_markers p) as [|m ms]; [done|]. by eexists _, _, _, _.
Qed.

Lemma rspec_ok {A} p (m : Run A) r Q : (progress_ok p → rspec p m r Q) → rspec p m r Q.
Proof. intros H w Hw Hp. by apply H. Qed.

Lemma rspec_begin p r :
  mr_store r = Some path → rspec p (begin_run (Some path)) r begun.
Proof.
  intros Hr. apply rspec_ok. intros Hp. destruct (progress_heads p Hp) as (l & ls & m & ms & Hl & Hm).
  unfold begin_run. eapply rspec_io_bind; [by apply (moves_acquire d n path Hpath env Hquiet)|..]; [|done..].
  intros q f -> _.
  eapply rspec_io_bind; [by apply (moves_load d n path Hpath env Hquiet p l ls Hl)|..]; [|done..].
  intros q x [-> ->] _. apply rspec_update_bind.
  eapply rspec_result_bind; [by apply (moves_reconcile d n path Hpath env Hquiet p l ls m ms)|..]; [|done].
  intros q [[rc|]|e] Hq _.
  - apply rspec_update_bind, rspec_update_bind. by apply rspec_throw.
  - destruct Hq as [H1 H2]. apply rspec_ret. split; [done|]. exists l. split; [done|].
    split; [|done]. by rewrite H1, Hl.
  - eapply rspec_bind with (R := λ _ o, match o with Some (r', _) => mr_store r' = Some path | None => True end).
    + destruct e; first [by apply rspec_ret|by apply rspec_update].
    + intros q' r' [] Hr' _. by apply rspec_throw.
    + done.
    + done.
Qed.

Lemma hold_evidence b t w w' g :
  hold_for_target b t env w = (w', Some (Ok g)) → bg_evidence g = b.
Proof.
  unfold hold_for_target. intros H. io_inv.
  by injection H as _ <-.
Qed.

Definition held (backup : option ValidatedBackup) (g : option BackupStabilityGuard) : Prop :=
  match g with Some g => backup = Some (bg_evidence g) | None => True end.

Lemma rspec_hold l p backup r :
  idle_at l p →
  rspec p (hold_checkpoint mg backup) r
    (λ q o, match o with
            | Some (r', Ok g) => r' = r ∧ idle_at l q ∧ pg_trace q = pg_trace p ∧ held backup g
            | Some (r', Err _) => r' = r
            | None => True
            end).
Proof.
  intros Hi. unfold hold_checkpoint. destruct (md_requires_snapshot (mg_descriptor mg)).
  - apply rspec_check_bind; [|done]. intros t _. apply rspec_check_bind; [|done].
    intros b Hb%ok_or_Ok. eapply rspec_io_bind.
    + apply (moves_harmless d n env p (hold_for_target b t)
        (λ o, match o with Some (Ok g) => bg_evidence g = b | _ => True end)).
      * by apply harmless_hold.
      * intros w. destruct (hold_for_target b t env w) as [w' [[g|]|]] eqn:E; [|done..].
        by eapply hold_evidence.
    + intros q g [Hq Hg] _. apply rspec_ret. split; [done|].
      destruct Hq as [-> | ->]; (split; [|split; [done|cbn; congruence]]); [done|by apply idle_settled].
    + done.
    + done.
  - by apply rspec_ret.
Qed.

(** The record of a backup is well formed. *)
Lemma checkpoint_record_ok backup g c rc :
  held backup g → (∀ b, backup = Some b → backup_u64 b) → checkpoint_of g = Ok c →
  MigrationRecoveryRecord_new id c = Ok rc → record_ok rc ∧ rr_migration_id rc = id.
Proof.
  intros Hh Hb Hc Hr. destruct (new_record_Ok _ _ _ Hr) as (_ & H1 & H2 & _). split; [|done].
  split; [by rewrite H1, H2|]. rewrite H2. destruct g as [g|]; cbn in Hc; [|by injection Hc as <-].
  apply bind_Ok in Hc as (cp & Hcp & [= <-]). unfold from_validated_backup in Hcp.
  apply bind_Ok in Hcp as (? & _ & [= <-]). destruct (Hb _ Hh). by split.
Qed.

(** Nothing is outstanding that the ledger does not hold. *)
Lemma idle_outstanding l p : progress_ok p → idle_at l p → outstanding (pg_trace p) ⊆ ledger_of l.
Proof.
  intros Hp [Hl Hm] x Hx. destruct p as [[|l0 ls] [|m0 ms] tr]; try done.
  injection Hl as ->. injection Hm as ->.
  by destruct (po_covered _ Hp l None (survives_heads _ _ _ _ _) x Hx).
Qed.

Lemma rspec_persist_record l p rc r :
  idle_at l p → mr_store r = Some path → mr_ledger r = ledger_of l → record_ok rc →
  rr_migration_id rc = id → id ∉ ledger_of l →
  rspec p (persist_record (Some path) id rc) r
    (λ q o, match o with
            | Some (r', Ok _) => mr_store r' = Some path ∧ mr_ledger r' = ledger_of l ∧
                                 q = in_flight l rc (pg_trace p)
            | Some (r', Err _) => mr_store r' = Some path
            | None => True
            end).
Proof.
  intros [Hl Hm] Hr Hrl Hok Hid Hn. destruct p as [[|l0 ls] [|m0 ms] tr]; try done.
  cbn in Hl, Hm. injection Hl as ->. injection Hm as ->. unfold persist_record.
  rewrite <- Hid in Hn. eapply rspec_result_bind;
    [by apply (moves_persist_record d n path Hpath env Hquiet l ls ms rc tr Hok Hn)|..]; [|done].
  intros q [[]|e] Hq _.
  - subst q. by apply rspec_update.
  - eapply rspec_bind with (R := λ _ o, match o with Some (r', _) => mr_store r' = Some path | None => True end);
      [|by intros; apply rspec_throw|done..].
    destruct e; first [by apply rspec_ret|by apply rspec_update].
Qed.

Lemma rspec_recheck l rc tr g r :
  rr_migration_id rc ∉ outstanding tr → mr_store r = Some path →
  rspec (in_flight l rc tr) (recheck_checkpoint (Some path) g) r
    (λ q o, match o with
            | Some (r', Ok _) => r' = r ∧ q = in_flight l rc tr
            | Some (r', Err _) => mr_store r' = Some path
            | None => True
            end).
Proof.
  intros Ho Hr. unfold recheck_checkpoint. destruct g as [g|]; [|by apply rspec_ret].
  eapply rspec_result_bind; [by apply moves_in_flight, harmless_assert_stable|..]; [|done].
  intros q [u|e] -> _; [by apply rspec_ret|]. unfold clear_then.
  eapply rspec_result_bind; [by apply (moves_clear d n path Hpath env Hquiet); [|right]|..]; [|done].
  intros q [u|e'] _ _.
  - apply rspec_update_bind. by apply rspec_throw.
  - by apply rspec_latch_throw.
Qed.

(** ** A run *)
Lemma rspec_run p backup r :
  mr_store r = Some path → (∀ b, backup = Some b → backup_u64 b) →
  rspec p (run_with_backup mg backup) r (finished id).
Proof.
  intros Hr Hb. unfold run_with_backup. apply rspec_self_bind.
  destruct (mr_recovery_required r) as [reason|]; [apply rspec_throw; by apply finished_err|].
  rewrite Hr. eapply rspec_bind; [by apply rspec_begin|..]; [|by intros q r' e H; apply finished_err|done].
  intros q r1 [] (Hr1 & l & Hl & Hidle) Hq. apply rspec_check_bind; [|by intros e; apply finished_err].
  intros [] _. apply rspec_self_bind. unfold is_applied. case_bool_decide as Happ.
  { apply rspec_ret. by split. }
  rewrite Hl in Happ.
  pose proof (wb_precondition d mg Hmg env Hquiet) as Hpre.
  eapply rspec_io_bind; [by apply (moves_harmless d n env q (mg_precondition mg) (λ _, True))|..];
    [|by intros q' e _; apply finished_err|done].
  intros q1 applicable [Hq1 _] Hok1.
  assert (idle_at l q1) as Hidle1 by (destruct Hq1 as [-> | ->]; [done|by apply idle_settled]).
  destruct applicable; cbn [negb]; [|by apply rspec_ret].
  eapply rspec_bind; [by apply (rspec_hold l)|..]; [|by intros q' r' e ->; apply finished_err|done].
  intros q2 r2 g (-> & Hidle2 & _ & Hheld) Hok2.
  apply rspec_check_bind; [|by intros e; apply finished_err]. intros c Hc.
  apply rspec_check_bind; [|by intros e; apply finished_err]. intros rc Hrc.
  destruct (checkpoint_record_ok _ _ _ _ Hheld Hb Hc Hrc) as [Hrok Hrid].
  pose proof (idle_outstanding _ _ Hok2 Hidle2) as Hout.
  eapply rspec_bind; [by apply (rspec_persist_record l)|..]; [|by intros q' r' e H; apply finished_err|done].
  intros q3 r3 [] (Hr3 & Hl3 & ->) _.
  eapply rspec_bind; [apply rspec_recheck; [|done]|..]; [|..|by intros q' r' e H; apply finished_err|done].
  - rewrite Hrid. by intros H%Hout.
  - intros q4 r4 [] [-> ->] _. apply rspec_apply_and_record; [done..|]. by intros H%Hout.
Qed.
End migration.

(** ** Opening a runner *)
Lemma moves_open p :
  progress_ok p →
  moves d n env p (MigrationRunner_open path)
    (λ q o, match o with
            | Some (Ok r) =>
                mr_store r = Some path ∧ Some (mr_ledger r) = ledger_of <$> head (pg_ledgers p) ∧
                match mr_recovery_record r with
                | Some rc => mr_recovery_required r ≠ None ∧ head (pg_markers p) = Some (Some rc)
                | None => head (pg_markers q) = Some None ∧ head (pg_ledgers q) = head (pg_ledgers p)
                end
            | _ => True
            end).
Proof.
  intros Hp. destruct (progress_heads p Hp) as (l & ls & m & ms & Hl & Hm). unfold MigrationRunner_open.
  eapply moves_bind; [by apply (moves_acquire d n path Hpath env Hquiet)|..]; [|done..].
  intros q f ->. eapply moves_bind; [by apply (moves_load d n path Hpath env Hquiet p l ls Hl)|..]; [|done..].
  intros q x [-> ->].
  eapply moves_bind; [by apply (moves_reconcile d n path Hpath env Hquiet p l ls m ms)|..]; [|done..].
  intros q [rc|] Hq; apply moves_ret; cbn; rewrite Hl; (split; [done|]); (split; [done|]).
  - destruct Hq as [-> ->]. by rewrite Hm.
  - destruct Hq as [H1 H2]. by rewrite H1, Hl.
Qed.
End runs.
