(* ===== verification/MigrationSafety.v ===== *)
(** * Safety of migrations

    The theorems about a machine with one migration store: a migration is not
    applied again before its last application was rolled back; an interrupted
    one stops every runner until it is recovered; what was acknowledged stays
    in the ledger, and only verified migrations are in it. *)

From Stdlib Require Import ZArith Lia Ascii.
From stdpp Require Import base numbers gmap strings list fin_maps sorting relations.
From S2P Require Import Prelude Text Fields Ordered Paths Files ControlFiles FileFacts ControlFacts.
From S2P Require Import MigrationLedger MigrationRunner MigrationSteps.
From S2P Require Import MigrationRuns.

Set Default Goal Selector "!".

(** ** The machine *)
Record MigrationMachine := {
  mm_fs : FS;
  mm_runners : list MigrationRunner;
  mm_trace : list Event;
  mm_acknowledged : list string;
}.

(** The runner that is left, the one that was opened, the migration whose
    application was acknowledged. *)
Definition left_over {A} (o : option (MigrationRunner * A)) : list MigrationRunner :=
  match o with Some (r, _) => [r] | None => [] end.
Definition newly_opened (o : option (result MigrationError MigrationRunner)) : list MigrationRunner :=
  match o with Some (Ok r) => [r] | _ => [] end.
Definition acknowledges (id : string)
    (o : option (MigrationRunner * result MigrationError MigrationOutcome)) : list string :=
  match o with Some (_, Ok Applied) => [id] | _ => [] end.

Section machine.
Context (d : Key) (n : string) (path : Path) (loss : FS → FS → Prop).

Inductive migration_step : MigrationMachine → MigrationMachine → Prop :=
| mstep_open m env calls w o :
    quiet d env →
    MigrationRunner_open path env {| w_fs := mm_fs m; w_calls := calls |} = (w, o) →
    migration_step m {| mm_fs := w_fs w; mm_runners := newly_opened o ++ mm_runners m;
                        mm_trace := mm_trace m; mm_acknowledged := mm_acknowledged m |}
| mstep_run m env calls mg backup before r after w t o :
    quiet d env → well_behaved d mg → (∀ b, backup = Some b → backup_u64 b) →
    mm_runners m = before ++ r :: after →
    run_with_backup mg backup r env {| w_fs := mm_fs m; w_calls := calls |} = (w, t, o) →
    migration_step m {| mm_fs := w_fs w; mm_runners := before ++ left_over o ++ after;
                        mm_trace := reverse t ++ mm_trace m;
                        mm_acknowledged := acknowledges (md_id (mg_descriptor mg)) o ++ mm_acknowledged m |}
| mstep_drop m before r after :
    mm_runners m = before ++ r :: after →
    migration_step m {| mm_fs := mm_fs m; mm_runners := before ++ after; mm_trace := mm_trace m;
                        mm_acknowledged := mm_acknowledged m |}
| mstep_others m fs :
    rely d (mm_fs m) fs →
    migration_step m {| mm_fs := fs; mm_runners := mm_runners m; mm_trace := mm_trace m;
                        mm_acknowledged := mm_acknowledged m |}
| mstep_loss m fs :
    loss (mm_fs m) fs →
    migration_step m {| mm_fs := fs; mm_runners := []; mm_trace := mm_trace m;
                        mm_acknowledged := mm_acknowledged m |}.

(** A machine whose control directory holds neither ledger nor marker yet. *)
Definition migration_initial (m : MigrationMachine) : Prop :=
  place d n [None] (mm_fs m) ∧ place d (marker_name n) [None] (mm_fs m) ∧
  mm_runners m = [] ∧ mm_trace m = [] ∧ mm_acknowledged m = [].

Definition migration_reachable (m : MigrationMachine) : Prop :=
  ∃ m0, migration_initial m0 ∧ rtc migration_step m0 m.
End machine.

(** ** Power loss

    A file system that brings the changes of a directory to the disk in the
    order in which they were made.  The engine changes the ledger only while no
    change of the marker is unsynced, so that unsynced changes of the ledger
    come first: when the last change of the ledger is lost, so are all unsynced
    changes of the marker. *)
Definition ordered_loss (d : Key) (n : string) (fs fs' : FS) : Prop :=
  power_loss fs fs' ∧
  (e_latest (entry_at fs' (d ++ [n])) = e_latest (entry_at fs (d ++ [n])) ∨
   last (possible (entry_at fs (d ++ [marker_name n]))) =
     Some (e_latest (entry_at fs' (d ++ [marker_name n])))).

(** A power loss takes a place back to a value by its position. *)
Lemma place_loss_at d n vs fs fs' i :
  power_loss fs fs' → place d n vs fs → Forall synced_view vs →
  possible (entry_at fs (d ++ [n])) !! i = Some (e_latest (entry_at fs' (d ++ [n]))) →
  ∃ v, vs !! i = Some v ∧ place d n [v] fs'.
Proof.
  intros Hpl Hp Hs Hi. destruct Hp as [Hb Hv]. pose proof (base_power_loss _ _ _ Hpl Hb) as Hb'.
  destruct Hpl as [He Hin Hn Hd]. destruct (He (d ++ [n])) as [_ Hpe].
  set (x := e_latest (entry_at fs' (d ++ [n]))) in *. exists (view_id fs x).
  assert (vs !! i = Some (view_id fs x)) as Hl by (rewrite <- Hv; unfold views; by rewrite list_lookup_fmap, Hi).
  split; [done|]. split; [done|]. unfold views, possible. rewrite Hpe. fold x. cbn. f_equal.
  rewrite Forall_forall in Hs. specialize (Hs _ (list_elem_of_lookup_2 _ _ _ Hl)).
  destruct x as [id|]; [|done]. cbn in *.
  destruct (fs_inodes fs !! id) as [j|] eqn:E; cbn in *; [by destruct (Hin id j E Hs) as (links & t & ->)|].
  destruct (fs_inodes fs' !! id) eqn:E'; [|done]. exfalso.
  assert (is_Some (fs_inodes fs !! id)) as [? ?] by (apply Hd; eauto). congruence.
Qed.

Lemma recorded_loss_at {S} (text : S → string) ok d n ss fs fs' i :
  power_loss fs fs' → recorded text ok d n ss fs →
  possible (entry_at fs (d ++ [n])) !! i = Some (e_latest (entry_at fs' (d ++ [n]))) →
  ∃ o, ss !! i = Some o ∧ recorded text ok d n [o] fs'.
Proof.
  intros Hpl (vs & Hp & Hh) Hi.
  destruct (place_loss_at d n vs fs fs' i Hpl Hp) as (v & Hv & Hp'); [|done|].
  { clear -Hh. induction Hh; constructor; [by eapply keeps_synced|done]. }
  destruct (Forall2_lookup_l _ _ _ _ _ Hh Hv) as (o & Ho & Hvo). exists o. split; [done|].
  exists [v]. split; [done|]. by repeat constructor.
Qed.

Lemma recorded_length {S} (text : S → string) ok d n ss fs :
  recorded text ok d n ss fs → length (possible (entry_at fs (d ++ [n]))) = length ss.
Proof.
  intros (vs & [_ Hv] & Hh). apply Forall2_length in Hh. rewrite <- Hh, <- Hv. unfold views.
  by rewrite length_fmap.
Qed.

Lemma ordered_loss_progress d n p fs fs' :
  ordered_loss d n fs fs' → at_progress d n p fs →
  ∃ l m, survives p l m ∧
    at_progress d n {| pg_ledgers := [l]; pg_markers := [m]; pg_trace := pg_trace p |} fs'.
Proof.
  intros [Hpl Hor] [Hl Hm]. pose proof (loss_entries _ _ Hpl) as He.
  assert (∃ i, possible (entry_at fs (d ++ [n])) !! i = Some (e_latest (entry_at fs' (d ++ [n]))) ∧
    (e_latest (entry_at fs' (d ++ [n])) = e_latest (entry_at fs (d ++ [n])) → i = 0%nat)) as (i & Hi & Hi0).
  { destruct (decide (e_latest (entry_at fs' (d ++ [n])) = e_latest (entry_at fs (d ++ [n])))) as [E|E].
    - exists 0%nat. split; [cbn; by rewrite E|done].
    - destruct (list_elem_of_lookup_1 _ _ (proj1 (He (d ++ [n])))) as [i Hi]. by exists i. }
  assert (∃ j, possible (entry_at fs (d ++ [marker_name n])) !! j =
      Some (e_latest (entry_at fs' (d ++ [marker_name n]))) ∧
    (last (possible (entry_at fs (d ++ [marker_name n]))) =
       Some (e_latest (entry_at fs' (d ++ [marker_name n]))) →
     j = pred (length (possible (entry_at fs (d ++ [marker_name n])))))) as (j & Hj & Hj0).
  { destruct (decide (last (possible (entry_at fs (d ++ [marker_name n]))) =
      Some (e_latest (entry_at fs' (d ++ [marker_name n]))))) as [E|E].
    - eexists. split; [|by intros _]. by rewrite <- last_lookup.
    - destruct (list_elem_of_lookup_1 _ _ (proj1 (He (d ++ [marker_name n])))) as [j Hj]. by exists j. }
  destruct (recorded_loss_at _ _ _ _ _ _ _ _ Hpl Hl Hi) as (l & Hll & Hl').
  destruct (recorded_loss_at _ _ _ _ _ _ _ _ Hpl Hm Hj) as (m & Hmm & Hm').
  exists l, m. split; [|by split]. split_and!.
  - by eapply list_elem_of_lookup_2.
  - by eapply list_elem_of_lookup_2.
  - destruct Hor as [E|E]; [left|right].
    + rewrite (Hi0 E) in Hll. by destruct (pg_ledgers p).
    + rewrite (Hj0 E), (recorded_length _ _ _ _ _ _ Hm) in Hmm. by rewrite last_lookup.
Qed.

(** ** The invariant of the machine *)
Section invariant.
Context (d : Key) (n : string) (path : Path) (Hpath : located path d n).

Record migration_ok (p : Progress) (m : MigrationMachine) : Prop := {
  mk_files : at_progress d n p (mm_fs m);
  mk_trace : pg_trace p = mm_trace m;
  mk_progress : progress_ok p;
  mk_runners r : r ∈ mm_runners m → mr_store r = Some path;
  mk_acknowledged id : id ∈ mm_acknowledged m → recorded_everywhere id p;
}.

Lemma initial_ok m : migration_initial d n m →
  migration_ok {| pg_ledgers := [None]; pg_markers := [None]; pg_trace := [] |} m.
Proof.
  intros (Hl & Hm & Hr & Ht & Ha). split; cbn.
  - split; (eexists; split; [done|by repeat constructor]).
  - done.
  - split; cbn; [done..| | |done].
    + by intros l x _ id Hid.
    + intros l id ->%list_elem_of_singleton. set_solver.
  - rewrite Hr. set_solver.
  - rewrite Ha. set_solver.
Qed.

Lemma migration_ok_run p m env calls mg backup before r after w t o :
  migration_ok p m → quiet d env → well_behaved d mg → (∀ b, backup = Some b → backup_u64 b) →
  mm_runners m = before ++ r :: after →
  run_with_backup mg backup r env {| w_fs := mm_fs m; w_calls := calls |} = (w, t, o) →
  ∃ q, protocol_steps p q ∧
    migration_ok q {| mm_fs := w_fs w; mm_runners := before ++ left_over o ++ after;
                      mm_trace := reverse t ++ mm_trace m;
                      mm_acknowledged := acknowledges (md_id (mg_descriptor mg)) o ++ mm_acknowledged m |}.
Proof.
  intros [Hf Ht Hp Hr Ha] Hq Hmg Hb Hrs Hrun.
  assert (mr_store r = Some path) as Hst by (apply Hr; rewrite Hrs; set_solver).
  destruct (rspec_run d n path Hpath env Hq mg Hmg p backup r Hst Hb {| w_fs := mm_fs m; w_calls := calls |})
    as (q & Hs & Htr & Hfs & Hfin); [done..|]. rewrite Hrun in *. cbn [fst snd] in *.
  exists q. split; [done|]. split; cbn.
  - done.
  - by rewrite Htr, Ht.
  - by eapply progress_ok_steps.
  - intros x. rewrite !elem_of_app. intros [Hx|[Hx|Hx]].
    + apply Hr. rewrite Hrs. set_solver.
    + destruct o as [[r' y]|]; cbn in Hx; [|set_solver]. apply list_elem_of_singleton in Hx as ->. apply Hfin.
    + apply Hr. rewrite Hrs. set_solver.
  - intros x. rewrite elem_of_app. intros [Hx|Hx].
    + destruct o as [[r' [[]|e]]|]; cbn in Hx; try by apply elem_of_nil in Hx.
      apply list_elem_of_singleton in Hx as ->. by apply Hfin.
    + eapply recorded_steps; [exact Hs|]. by apply Ha.
Qed.

Lemma migration_ok_step m m' :
  migration_step d path (ordered_loss d n) m m' → (∃ p, migration_ok p m) → ∃ p, migration_ok p m'.
Proof.
  intros Hs [p Hok]. destruct Hs as [m env calls w o Hq Ho|m env calls mg backup before r after w t o Hq Hmg Hb Hrs Hrun
    |m before r after Hrs|m fs Hr|m fs Hl].
  - destruct Hok as [Hf Ht Hp Hr Ha].
    destruct (moves_open d n path Hpath env Hq p Hp {| w_fs := mm_fs m; w_calls := calls |} Hf)
      as (q & Hs & Htr & Hfs & Hfin). rewrite Ho in *. cbn [fst snd] in *. exists q. split; cbn.
    + done.
    + congruence.
    + by eapply progress_ok_steps.
    + intros x. rewrite elem_of_app. intros [Hx|Hx]; [|by apply Hr].
      destruct o as [[r|e]|]; cbn in Hx; try by apply elem_of_nil in Hx.
      apply list_elem_of_singleton in Hx as ->. apply Hfin.
    + intros x Hx. eapply recorded_steps; [exact Hs|]. by apply Ha.
  - destruct (migration_ok_run p m env calls mg backup before r after w t o) as (q & _ & H); [done..|]. by exists q.
  - destruct Hok as [Hf Ht Hp Hr Ha]. exists p. split; [done..| |done]. cbn. intros x Hx. apply Hr.
    rewrite Hrs. set_solver.
  - destruct Hok as [Hf Ht Hp Hr' Ha]. exists p. split; [|done..]. cbn. by eapply stable_progress.
  - destruct Hok as [Hf Ht Hp Hr Ha].
    destruct (ordered_loss_progress d n p (mm_fs m) fs Hl Hf) as (l & x & Hsv & Hat).
    eexists. split; [exact Hat|done|by apply progress_ok_loss|set_solver|].
    intros id Hid. cbn. intros y ->%list_elem_of_singleton. apply (Ha id Hid). apply Hsv.
Qed.

Lemma migration_reachable_ok m :
  migration_reachable d n path (ordered_loss d n) m → ∃ p, migration_ok p m.
Proof.
  intros (m0 & Hi & Hr). assert (∃ p, migration_ok p m0) as H0 by (eexists; by apply initial_ok).
  clear Hi. induction Hr as [m|m m1 m2 Hs Hr IH]; [done|]. apply IH. by eapply migration_ok_step.
Qed.

(** A file system that the machine may present: its own, or what a power loss
    leaves. *)
Definition presents (m : MigrationMachine) (fs : FS) : Prop := fs = mm_fs m ∨ ordered_loss d n (mm_fs m) fs.

Lemma presents_ok p m fs :
  migration_ok p m → presents m fs →
  ∃ q, at_progress d n q fs ∧ progress_ok q ∧ pg_trace q = mm_trace m ∧
    ∀ id, id ∈ mm_acknowledged m → recorded_everywhere id q.
Proof.
  intros [Hf Ht Hp Hr Ha] [-> |Hl]; [by exists p|].
  destruct (ordered_loss_progress d n p (mm_fs m) fs Hl Hf) as (l & x & Hsv & Hat).
  eexists. split; [exact Hat|]. split; [by apply progress_ok_loss|]. split; [done|].
  intros id Hid y. cbn. intros ->%list_elem_of_singleton. apply (Ha id Hid). apply Hsv.
Qed.
End invariant.

(** A ledger that can be read. *)
Definition loads_ledger (d : Key) (path : Path) (fs : FS) (l : MigrationLedger) : Prop :=
  ∃ env calls w, quiet d env ∧
    MigrationLedgerStore_load path env {| w_fs := fs; w_calls := calls |} = (w, Some (Ok l)).

Lemma loads_ledger_of d n path p fs l :
  located path d n → progress_ok p → at_progress d n p fs → loads_ledger d path fs l →
  ∃ o, o ∈ pg_ledgers p ∧ l = ledger_of o.
Proof.
  intros Hpath Hp Hf (env & calls & w & Hq & Hl). destruct (progress_heads p Hp) as (o & ls & _ & _ & Ho & _).
  pose proof (moves_load d n path Hpath env Hq p o ls Ho {| w_fs := fs; w_calls := calls |} Hf) as (q & _ & _ & _ & H).
  rewrite Hl in H. exists o. rewrite Ho. split; [left|apply H].
Qed.

(** A runner that was found to need recovery answers nothing else. *)
Lemma blocked_run mg backup r env w reason :
  mr_recovery_required r = Some reason →
  run_with_backup mg backup r env w = (w, [], Some (r, Err (RecoveryRequired reason))).
Proof. intros Hr. unfold run_with_backup. cbv [mbind run_bind self]. by rewrite Hr. Qed.

Section theorems.
Context (d : Key) (n : string) (path : Path).

(** C16: a run of a migration refines the protocol of its store: whatever the
    run returns, and wherever it is killed, what can be read of the ledger and
    the recovery marker, and what a power loss could leave of them, moves by
    steps of the protocol, in the order of what the migration was asked; the
    answer [Applied] means that the ledger with the migration is on the disk. *)
Theorem migration_run_refines_protocol (Hpath : located path d n) env mg backup r p w w' t o :
  quiet d env → well_behaved d mg → (∀ b, backup = Some b → backup_u64 b) → mr_store r = Some path →
  at_progress d n p (w_fs w) → progress_ok p →
  run_with_backup mg backup r env w = (w', t, o) →
  ∃ q, protocol_steps p q ∧ progress_ok q ∧ at_progress d n q (w_fs w') ∧
    pg_trace q = reverse t ++ pg_trace p ∧ finished path (md_id (mg_descriptor mg)) q o.
Proof.
  intros Hq Hmg Hb Hr Hf Hp Hrun.
  destruct (rspec_run d n path Hpath env Hq mg Hmg p backup r Hr Hb w Hf Hp) as (q & Hs & Ht & Hfs & Hfin).
  rewrite Hrun in *. exists q. split; [done|]. split; [by eapply progress_ok_steps|done].
Qed.

(** C14: no migration is applied blindly a second time: however runners were
    opened and run, wherever processes were killed, calls failed or power was
    lost (with the changes of the store's directory brought to the disk in the
    order in which they were made, [ordered_loss]), between two applications of
    a migration lies a rollback of it that succeeded. *)
Theorem no_blind_reapplication (Hpath : located path d n) m id t1 t2 t3 :
  migration_reachable d n path (ordered_loss d n) m →
  mm_trace m = t3 ++ Applying id :: t2 ++ Applying id :: t1 →
  RolledBack id ∈ t2.
Proof.
  intros (p & Hok)%migration_reachable_ok Ht; [|done]. apply (applied_once_between id t3 t2 t1).
  rewrite <- Ht, <- (mk_trace _ _ _ _ _ Hok). apply Hok.
Qed.

(** C15: an interrupted migration is never forgotten: while its last
    application has not been rolled back, every runner that can be opened,
    even after power losses that bring the changes of the store's directory to
    the disk in the order in which they were made ([ordered_loss]), either
    finds it in the ledger, or holds the recovery record of it and refuses
    every run without asking anything of any migration or touching the file
    system.  After a loss that reorders these changes it need not: the marker's
    removal can survive without the ledger written before it (see
    MigrationWitnesses.unordered_loss_reapplies). *)
Theorem interrupted_migration_blocks (Hpath : located path d n) m id fs env calls w r :
  migration_reachable d n path (ordered_loss d n) m → id ∈ outstanding (mm_trace m) →
  presents d n m fs → quiet d env →
  MigrationRunner_open path env {| w_fs := fs; w_calls := calls |} = (w, Some (Ok r)) →
  id ∈ mr_ledger r ∨
  (∃ rc, mr_recovery_record r = Some rc ∧ rr_migration_id rc = id) ∧
  ∀ mg backup env' w', ∃ reason,
    run_with_backup mg backup r env' w' = (w', [], Some (r, Err (RecoveryRequired reason))).
Proof.
  intros (p0 & Hok)%migration_reachable_ok Hid Hpr Hq Ho; [|done].
  destruct (presents_ok d n path p0 m fs Hok Hpr) as (p & Hf & Hp & Ht & _). rewrite <- Ht in Hid.
  destruct (moves_open d n path Hpath env Hq p Hp {| w_fs := fs; w_calls := calls |} Hf)
    as (q & Hs & Htr & Hfs & Hfin). rewrite Ho in Hfin. cbn [snd] in Hfin. destruct Hfin as (Hst & Hl & Hrec).
  destruct (mr_recovery_record r) as [rc|].
  - destruct Hrec as [Hreq Hm]. destruct p as [[|l ls] [|m1 ms] tr]; try done.
    injection Hl as Hl. injection Hm as ->. rewrite Hl.
    destruct (po_covered _ Hp l (Some rc) (survives_heads _ _ _ _ _) id Hid) as [?|Hmk]; [by left|right].
    split; [by exists rc|]. intros mg backup env' w'. destruct (mr_recovery_required r) as [reason|] eqn:E; [|done].
    exists reason. by apply blocked_run.
  - left. destruct Hrec as [Hm Hl']. pose proof (progress_ok_steps _ _ Hs Hp) as Hpq.
    rewrite <- Hl' in Hl. rewrite <- Htr in Hid. destruct q as [[|l ls] [|m1 ms] tr]; try done.
    injection Hl as Hl. injection Hm as ->. rewrite Hl.
    by destruct (po_covered _ Hpq l None (survives_heads _ _ _ _ _) id Hid).
Qed.

(** C18: the ledger holds what was acknowledged and only what was verified:
    every ledger that can be read, even after power losses that bring the
    changes of the store's directory to the disk in the order in which they
    were made ([ordered_loss]), holds each migration whose run answered
    [Applied], and no migration whose verification never succeeded. *)
Theorem migration_ledger_is_exact (Hpath : located path d n) m fs l id :
  migration_reachable d n path (ordered_loss d n) m → presents d n m fs → loads_ledger d path fs l →
  (id ∈ mm_acknowledged m → id ∈ l) ∧ (id ∈ l → Verified id ∈ mm_trace m).
Proof.
  intros (p0 & Hok)%migration_reachable_ok Hpr Hl; [|done].
  destruct (presents_ok d n path p0 m fs Hok Hpr) as (p & Hf & Hp & Ht & Ha).
  destruct (loads_ledger_of d n path p fs l Hpath Hp Hf Hl) as (o & Ho & ->). split.
  - intros Hid. by apply (Ha id Hid).
  - intros Hid. rewrite <- Ht. by eapply (po_verified _ Hp).
Qed.
End theorems.
