(* ===== verification/MigrationBackupFacts.v ===== *)
(** * What a backup proves

    A comparison of two files that succeeds has seen the same bytes, however
    the reads were cut; and a migration that asks for a snapshot is applied
    only on a backup of the file that its recovery target names, while the
    file held as the backup has the bytes of that one. *)

From Stdlib Require Import ZArith Lia Ascii.
From stdpp Require Import base numbers gmap strings list fin_maps sorting relations.
From S2P Require Import Prelude Text Fields Ordered Paths Files ControlFiles FileFacts.
From S2P Require Import MigrationLedger MigrationRunner.

Set Default Goal Selector "!".

(** ** Parts of strings *)
Lemma str_take_drop k s : str_take k s +:+ str_drop k s = s.
Proof. revert s. induction k as [|k IH]; intros [|a s]; [done..|]. exact (f_equal (String a) (IH s)). Qed.

Lemma str_drop_app a b : str_drop (String.length a) (a +:+ b) = b.
Proof. by induction a. Qed.

Lemma str_drop_add k l s : str_drop l (str_drop k s) = str_drop (k + l) s.
Proof.
  revert s. induction k as [|k IH]; intros s; [done|]. destruct s as [|a s]; cbn; [by destruct l|apply IH].
Qed.

Lemma str_take_nonempty k s : String.length (str_take (S k) s) = 0%nat → s = "".
Proof. by destruct s. Qed.

Lemma fnv1a_app t a b : fnv1a_update t (a +:+ b) = fnv1a_update (fnv1a_update t a) b.
Proof. revert t. induction a as [|c a IH]; intros t; [done|]. apply IH. Qed.

(** A piece that was read, and what is left. *)
Lemma taken_piece k x c : str_take k x = c → x = c +:+ str_drop (String.length c) x.
Proof. intros <-. rewrite <- (str_take_drop k x) at 1 4. by rewrite str_drop_app. Qed.

(** ** What computations return *)

(** Other processes leave the open file alone. *)
Definition untouched (env : FsEnv) (f : File) : Prop :=
  ∀ n fs i, fs_inodes fs !! h_inode f = Some i → fs_inodes (interfere env n fs) !! h_inode f = Some i.

Section returns.
Context (env : FsEnv).

Definition returns {E A} (P : FS → Prop) (m : IO E A) (Q : FS → A → Prop) : Prop :=
  ∀ w w' a, P (w_fs w) → m env w = (w', Some (Ok a)) → Q (w_fs w') a.

Definition undisturbed (P : FS → Prop) : Prop := ∀ n fs, P fs → P (interfere env n fs).

Lemma returns_bind {E A B} P (m : IO E A) (f : A → IO E B) R Q :
  returns P m R → (∀ a, returns (λ fs, R fs a) (f a) Q) → returns P (m ≫= f) Q.
Proof.
  intros Hm Hf w w' b Hw. cbv [mbind io_bind]. destruct (m env w) as [w1 [[a|e]|]] eqn:E1; [|done..].
  intros E2. eapply Hf; [by eapply Hm|exact E2].
Qed.

Lemma returns_sys {E A} `{ControlErrors E} P (m : IO IoError A) Q : returns P m Q → returns P (sys (E := E) m) Q.
Proof.
  intros Hm w w' a Hw. unfold sys, io_map_err. destruct (m env w) as [w1 [[x|e]|]] eqn:E1; [|done..].
  intros [= <- <-]. by eapply Hm.
Qed.

Lemma returns_call {A} P (op : nat → FsEnv → FS → FS * result IoError A) Q :
  undisturbed P → (∀ n fs a, P fs → (op n env fs).2 = Ok a → Q (op n env fs).1 a) → returns P (call op) Q.
Proof.
  intros HP Hop w w' a Hw. unfold call, call_with. destruct (killed env (w_calls w)); [done|].
  destruct (fault env (w_calls w)); [done|]. specialize (Hop (w_calls w) (interfere env (w_calls w) (w_fs w)) a).
  destruct (op _ _ _) as [fs r]. cbn in Hop. intros [= <- ->]. by apply Hop; [apply HP|].
Qed.

Lemma returns_ret {E A} (P : FS → Prop) (a : A) Q : (∀ fs, P fs → Q fs a) → returns (E := E) P (mret a) Q.
Proof. intros H w w' x Hw [= <- <-]. by apply H. Qed.

Lemma returns_reject {E} (P : FS → Prop) b (e : E) :
  returns P (io_lift (reject_if b e)) (λ fs _, P fs ∧ b = false).
Proof. intros w w' [] Hw. destruct b; [done|]. by intros [= <-]. Qed.

Lemma returns_env {E A} (P : FS → Prop) (f : FsEnv → A) : returns (E := E) P (io_env f) (λ fs _, P fs).
Proof. by intros w w' a Hw [= <- _]. Qed.

Lemma returns_weaken {E A} P P' (m : IO E A) Q Q' :
  returns P' m Q' → (∀ fs, P fs → P' fs) → (∀ fs a, Q' fs a → Q fs a) → returns P m Q.
Proof. intros Hm HP HQ w w' a Hw E1. by eapply HQ, Hm; [apply HP|]. Qed.

Lemma returns_exists {E A X} (P : X → FS → Prop) (m : IO E A) Q :
  (∀ x, returns (P x) m Q) → returns (λ fs, ∃ x, P x fs) m Q.
Proof. intros Hm w w' a [x Hx]. by apply (Hm x). Qed.

Lemma returns_pure {E A} (P : FS → Prop) (φ : Prop) (m : IO E A) Q :
  (φ → returns P m Q) → returns (λ fs, P fs ∧ φ) m Q.
Proof. intros Hm w w' a [Hw Hφ]. by apply (Hm Hφ). Qed.

(** Calls that leave the files alone. *)
Lemma returns_look {A} P (op : nat → FsEnv → FS → FS * result IoError A) :
  undisturbed P → (∀ n fs, (op n env fs).1 = fs) → returns P (call op) (λ fs _, P fs).
Proof. intros HP Hop. apply returns_call; [done|]. intros n fs a Hfs _. by rewrite Hop. Qed.

(** ** Two files *)
Definition holding (f : File) (i : Inode) (fs : FS) : Prop := fs_inodes fs !! h_inode f = Some i.
Definition holding_both (s b : File) (i j : Inode) (fs : FS) : Prop := holding s i fs ∧ holding b j fs.

Context (s b : File) (Hs : untouched env s) (Hb : untouched env b).

Lemma undisturbed_both i j : undisturbed (holding_both s b i j).
Proof. intros n fs [H1 H2]. split; [by apply Hs|by apply Hb]. Qed.

Lemma returns_read P f i offset size :
  undisturbed P → (∀ fs, P fs → holding f i fs) →
  returns P (read_at f offset size)
    (λ fs s, P fs ∧ ∃ k, s = str_take (Nat.min size (S k)) (str_drop offset (i_data i))).
Proof.
  intros HP Hi. apply returns_call; [done|]. intros n fs x Hfs. cbn. rewrite (Hi _ Hfs).
  destruct (i_kind i); cbn; try done; intros [= <-]; eauto.
Qed.

Lemma returns_compare_from rounds i j offset tag :
  returns (holding_both s b i j) (compare_from rounds s b offset tag)
    (λ fs r, holding_both s b i j fs ∧
       (r.1 = true → str_drop offset (i_data i) = str_drop offset (i_data j) ∧
                     r.2 = fnv1a_update tag (str_drop offset (i_data i)))).
Proof.
  revert offset tag. induction rounds as [|rounds IH]; intros offset tag; cbn [compare_from]; [by intros w w' a _|].
  eapply returns_bind; [by apply returns_sys, (returns_read _ _ i); [apply undisturbed_both|intros fs []]|].
  intros sb. eapply returns_bind.
  { apply returns_sys, (returns_read _ _ j).
    - intros n fs [H1 H2]. split; [by apply undisturbed_both|exact H2].
    - by intros fs [[_ H] _]. }
  intros bb. cbn beta. set (x := str_drop offset (i_data i)). set (y := str_drop offset (i_data j)).
  unfold BUFFER_BYTES. change (64 * 1024)%nat with (S (Nat.pred (64 * 1024))).
  destruct (String.length sb =? String.length bb)%nat eqn:El; cbn [negb];
    [|apply returns_ret; by intros fs [[? _] _]].
  apply Nat.eqb_eq in El. destruct (String.length sb =? 0)%nat eqn:E0.
  { apply returns_ret. intros fs [[H [k Hk]] [l Hl]]. split; [done|]. intros _. apply Nat.eqb_eq in E0.
    cbn [Nat.min] in Hk, Hl. rewrite Hk in E0, El. rewrite Hl in El. rewrite E0 in El.
    by rewrite (str_take_nonempty _ _ E0), (str_take_nonempty _ _ (eq_sym El)). }
  case_bool_decide as Hsb; cbn [negb]; [|apply returns_ret; by intros fs [[? _] _]]. subst bb.
  intros w w' r [[Hw [k Hk]] [l Hl]] E1. destruct (IH _ _ w w' r Hw E1) as [H1 H2]. split; [done|].
  intros Hr. destruct (H2 Hr) as [H3 H4].
  pose proof (taken_piece _ x sb (eq_sym Hk)) as Hx. pose proof (taken_piece _ y sb (eq_sym Hl)) as Hy.
  rewrite <- str_drop_add in H4. rewrite <- (str_drop_add offset _ (i_data i)) in H3.
  rewrite <- (str_drop_add offset _ (i_data j)) in H3. fold x y in H3, H4. split.
  { etrans; [exact Hx|]. rewrite H3. by symmetry. }
  rewrite Hx, fnv1a_app. exact H4.
Qed.

(** Two files that compare equal have the same bytes, and the tag is theirs. *)
Lemma returns_compare i j :
  returns (holding_both s b i j) (compare_open_files s b)
    (λ fs r, holding_both s b i j fs ∧
       (r.1 = true → i_data i = i_data j ∧ r.2 = integrity_tag (i_data i))).
Proof.
  unfold compare_open_files.
  do 4 (eapply returns_bind; [by apply returns_sys, returns_look; [apply undisturbed_both|]|intros ?]).
  eapply returns_bind; [apply returns_env|]. intros rounds. apply returns_compare_from.
Qed.

Lemma returns_regular P p :
  undisturbed P → returns P (verified_regular_file p) (λ fs _, P fs).
Proof.
  intros HP. unfold verified_regular_file.
  eapply returns_bind; [by apply returns_sys, returns_look|]. intros m.
  eapply returns_bind; [apply returns_reject|]. intros [] .
  eapply returns_weaken; [by apply returns_sys, (returns_look P)|by intros fs []|done].
Qed.

Lemma returns_check_target P e t : undisturbed P → returns P (check_target e t) (λ fs _, P fs).
Proof.
  intros HP. unfold check_target. eapply returns_bind; [by apply returns_regular|]. intros p.
  eapply returns_bind; [by apply returns_sys, returns_look|]. intros m.
  eapply returns_weaken; [apply returns_reject|done|by intros fs a []].
Qed.

(** The files of a guard that is stable. *)
Record backed_up (g : BackupStabilityGuard) (i j : Inode) : Prop := {
  bk_bytes : i_data i = i_data j;
  bk_tag : integrity_tag (i_data i) = vb_integrity_tag (bg_evidence g);
  bk_source : i_dev i = vb_source_device (bg_evidence g) ∧ i_ino i = vb_source_inode (bg_evidence g);
  bk_backup : i_dev j = vb_backup_device (bg_evidence g) ∧ i_ino j = vb_backup_inode (bg_evidence g);
}.

Lemma same_identity d n m : other_identity d n m = false → m_dev m = d ∧ m_ino m = n.
Proof. unfold other_identity. rewrite orb_false_iff, !negb_false_iff, !Z.eqb_eq. done. Qed.

Lemma undisturbed_one i : undisturbed (holding s i).
Proof. intros n fs H. by apply Hs. Qed.

Lemma returns_assert_stable g :
  bg_source_file g = s → bg_backup_file g = b →
  returns (λ _, True) (assert_stable g) (λ fs _, ∃ i j, holding_both s b i j fs ∧ backed_up g i j).
Proof.
  intros Es Eb. unfold assert_stable. rewrite Es, Eb.
  do 2 (eapply returns_bind; [by apply returns_sys, (returns_look (λ _, True))|intros ?]).
  eapply (returns_bind _ _ _ (λ fs m, ∃ i, holding s i fs ∧ m = metadata_of i)).
  { apply returns_sys, returns_call; [done|]. cbn. intros n fs m _. unfold holding.
    destruct (fs_inodes fs !! h_inode s) as [i|]; [|done]. intros [= <-]. eauto. }
  intros ms. apply returns_exists. intros i. apply returns_pure. intros ->.
  eapply (returns_bind (holding s i) _ _ (λ fs m, ∃ j, holding_both s b i j fs ∧ m = metadata_of j)).
  { apply returns_sys, returns_call; [apply undisturbed_one|]. cbn. intros n fs m Hi. unfold holding_both, holding.
    destruct (fs_inodes fs !! h_inode b) as [j|]; [|by intros [=]]. intros [= <-]. eauto. }
  intros mb. apply returns_exists. intros j. apply returns_pure. intros ->.
  eapply (returns_bind (holding_both s b i j)); [apply returns_reject|]. intros [].
  apply returns_pure. intros Hok.
  eapply returns_bind; [apply returns_check_target, undisturbed_both|]. intros [].
  eapply returns_bind; [apply returns_compare|]. intros [equal tag].
  eapply returns_weaken; [apply returns_reject|intros fs H; exact H|]. cbn. intros fs [] [[Hboth Heq] Hr].
  apply orb_false_iff in Hr as [->%negb_false_iff Ht%negb_false_iff%Z.eqb_eq]. destruct (Heq eq_refl) as [Hd Htag].
  exists i, j. split; [done|]. rewrite !orb_false_iff in Hok. destruct Hok as [[[[[[[[_ _] _] _] Hsource] Hk] _] _] _].
  split; [done|congruence|exact (same_identity _ _ _ Hsource)|exact (same_identity _ _ _ Hk)].
Qed.
End returns.

(** ** What was looked at *)

(** A call passes that changes nothing: what other processes did before it. *)
Definition passed (env : FsEnv) (w w' : World) : Prop :=
  w_calls w' = S (w_calls w) ∧ w_fs w' = interfere env (w_calls w) (w_fs w).
Definition drift (env : FsEnv) : World → World → Prop := rtc (passed env).

(** The inode that the path leads to for a call that is made now. *)
Definition found (env : FsEnv) (follow : bool) (p : Path) (w : World) (i : Inode) : Prop :=
  let fs := interfere env (w_calls w) (w_fs w) in
  ∃ k id, resolve follow env fs p = Ok k ∧ inode_at fs k = Some (id, i).
(** The path without symbolic links. *)
Definition canonical (env : FsEnv) (p : Path) (w : World) (q : Path) : Prop :=
  ∃ k, resolve true env (interfere env (w_calls w) (w_fs w)) p = Ok k ∧ q = path_of ("/" :: k).

Definition identified (device inode : Z) (i : Inode) : Prop := i_dev i = device ∧ i_ino i = inode.

(** The target, when it was looked at last before [w], was a regular file, no
    link, of the path of the backup's source, and the file of that path was
    the one that was backed up. *)
Definition names_source (env : FsEnv) (b : ValidatedBackup) (target : Path) (w : World) : Prop :=
  ∃ w1 w2 w3 q i j,
    found env false target w1 i ∧ i_kind i = RegularFile ∧ drift env w1 w2 ∧
    canonical env target w2 q ∧ path_eqb q (vb_source_path b) = true ∧ drift env w2 w3 ∧
    found env true q w3 j ∧ identified (vb_source_device b) (vb_source_inode b) j ∧ drift env w3 w.

(** The paths of the backup still led to its files. *)
Definition in_place (env : FsEnv) (p : Path) (device inode size : Z) (w : World) : Prop :=
  ∃ w1 i, found env false p w1 i ∧ i_kind i = RegularFile ∧ identified device inode i ∧
    str_len (i_data i) = size ∧ drift env w1 w.

Section looks.
Context (env : FsEnv).

Definition drifts {E A} (m : IO E A) : Prop := ∀ w w' r, m env w = (w', r) → drift env w w'.

Lemma drifts_ret {E A} (a : A) : drifts (E := E) (mret a).
Proof. intros w w' r [= <- _]. constructor. Qed.
Lemma drifts_lift {E A} (r : result E A) : drifts (io_lift r).
Proof. intros w w' x [= <- _]. constructor. Qed.
Lemma drifts_env {E A} (f : FsEnv → A) : drifts (E := E) (io_env f).
Proof. intros w w' x [= <- _]. constructor. Qed.
Lemma drifts_stop {E A} : drifts (E := E) (A := A) io_stop.
Proof. intros w w' x [= <- _]. constructor. Qed.
Lemma drifts_bind {E A B} (m : IO E A) (f : A → IO E B) : drifts m → (∀ a, drifts (f a)) → drifts (m ≫= f).
Proof.
  intros Hm Hf w w' r. cbv [mbind io_bind]. destruct (m env w) as [w1 [[a|e]|]] eqn:E1.
  - intros E2. transitivity w1; [by eapply Hm|by eapply Hf].
  - intros [= <- _]. by eapply Hm.
  - intros [= <- _]. by eapply Hm.
Qed.
Lemma drifts_sys {E A} `{ControlErrors E} (m : IO IoError A) : drifts m → drifts (sys (E := E) m).
Proof.
  intros Hm w w' r. unfold sys, io_map_err. destruct (m env w) as [w1 [[a|e]|]] eqn:E1; intros [= <- _]; by eapply Hm.
Qed.
Lemma drifts_call {A} (op : nat → FsEnv → FS → FS * result IoError A) :
  (∀ n fs, (op n env fs).1 = fs) → drifts (call op).
Proof.
  intros Hop w w' r. unfold call, call_with. intros Hr. apply rtc_once.
  destruct (killed env (w_calls w)); [by injection Hr as <- _|].
  destruct (fault env (w_calls w)); [by injection Hr as <- _|].
  specialize (Hop (w_calls w) (interfere env (w_calls w) (w_fs w))).
  destruct (op _ _ _) as [fs x]. cbn in Hop. subst fs. by injection Hr as <- _.
Qed.

Lemma drifts_compare rounds s b offset tag : drifts (compare_from rounds s b offset tag).
Proof.
  revert offset tag. induction rounds as [|rounds IH]; intros offset tag; cbn [compare_from]; [apply drifts_stop|].
  apply drifts_bind; [by apply drifts_sys, drifts_call|intros x].
  apply drifts_bind; [by apply drifts_sys, drifts_call|intros y].
  destruct (negb _); [apply drifts_ret|]. destruct (_ =? _)%nat; [apply drifts_ret|].
  destruct (negb _); [apply drifts_ret|apply IH].
Qed.
Lemma drifts_compare_open s b : drifts (compare_open_files s b).
Proof.
  unfold compare_open_files. do 4 (apply drifts_bind; [by apply drifts_sys, drifts_call|intros ?]).
  apply drifts_bind; [apply drifts_env|intros rounds; apply drifts_compare].
Qed.

Lemma stat_found follow p w w' m :
  sys (E := MigrationError) (stat follow p) env w = (w', Some (Ok m)) →
  ∃ i, found env follow p w i ∧ m = metadata_of i ∧ drift env w w'.
Proof.
  intros Hr. assert (drift env w w') as Hd by (by refine (drifts_sys (stat follow p) (drifts_call _ _) w w' _ Hr)). revert Hr.
  unfold sys, io_map_err, stat, call, call_with. destruct (killed _ _); [done|]. destruct (fault _ _); [done|].
  set (fs := interfere env (w_calls w) (w_fs w)). destruct (resolve follow env fs p) as [k|e] eqn:Ek; [|done]. cbn.
  destruct (inode_at fs k) as [[id i]|] eqn:Ei; [|done]. intros [= <- <-]. exists i. split_and!; [|done..]. by exists k, id.
Qed.

Lemma canonicalize_canonical p w w' q :
  sys (E := MigrationError) (canonicalize p) env w = (w', Some (Ok q)) →
  canonical env p w q ∧ drift env w w'.
Proof.
  intros Hr. assert (drift env w w') as Hd by (by refine (drifts_sys (canonicalize p) (drifts_call _ _) w w' _ Hr)). revert Hr.
  unfold sys, io_map_err, canonicalize, call, call_with. destruct (killed _ _); [done|]. destruct (fault _ _); [done|].
  set (fs := interfere env (w_calls w) (w_fs w)). destruct (resolve true env fs p) as [k|e] eqn:Ek; [|done]. cbn.
  destruct (kind_at fs k); [|done]. intros [= <- <-]. split; [by exists k|done].
Qed.

Lemma regular_kind i : not_regular (metadata_of i) = false → i_kind i = RegularFile.
Proof.
  unfold not_regular, is_symlink, is_file. rewrite orb_false_iff, negb_false_iff, bool_decide_eq_true. by intros [_ ?].
Qed.

Lemma check_target_names b target w w' :
  check_target b target env w = (w', Some (Ok tt)) → names_source env b target w'.
Proof.
  unfold check_target, verified_regular_file. intros Hr.
  apply io_bind_Ok in Hr as (w2 & q & Hq & Hr). apply io_bind_Ok in Hq as (w1 & m & Hm & Hq).
  apply io_bind_Ok in Hq as (w1' & [] & Hk & Hq). apply io_lift_Ok in Hk as [-> Hk%reject_if_Ok].
  apply stat_found in Hm as (i & Hi & -> & Hd1). apply regular_kind in Hk.
  apply canonicalize_canonical in Hq as [Hq Hd2].
  apply io_bind_Ok in Hr as (w3 & m & Hm & Hr). apply io_lift_Ok in Hr as [-> Hr%reject_if_Ok].
  apply stat_found in Hm as (j & Hj & -> & Hd3). apply orb_false_iff in Hr as [Hp%negb_false_iff Hid%same_identity].
  exists w, w1, w2, q, i, j. split_and!; try done; apply Hid.
Qed.

(** What the paths of a guard that is stable led to. *)
Lemma assert_stable_names g w w' :
  assert_stable g env w = (w', Some (Ok tt)) →
  let e := bg_evidence g in
  names_source env e (bg_target_path g) w' ∧
  in_place env (vb_source_path e) (vb_source_device e) (vb_source_inode e) (vb_size e) w' ∧
  in_place env (vb_backup_path e) (vb_backup_device e) (vb_backup_inode e) (vb_size e) w'.
Proof.
  unfold assert_stable. intros Hr.
  apply io_bind_Ok in Hr as (w1 & m1 & (i & Hi & -> & Hd1)%stat_found & Hr).
  apply io_bind_Ok in Hr as (w2 & m2 & (j & Hj & -> & Hd2)%stat_found & Hr).
  apply io_bind_Ok in Hr as (w3 & m3 & H3 & Hr). apply io_bind_Ok in Hr as (w4 & m4 & H4 & Hr).
  assert (drift env w2 w4) as Hd4.
  { transitivity w3; [by refine (drifts_sys (file_metadata _) (drifts_call _ _) _ _ _ H3)
      |by refine (drifts_sys (file_metadata _) (drifts_call _ _) _ _ _ H4)]. }
  apply io_bind_Ok in Hr as (w5 & [] & Hc & Hr). apply io_lift_Ok in Hc as [-> Hc%reject_if_Ok].
  apply io_bind_Ok in Hr as (w6 & [] & Ht & Hr).
  assert (drift env w4 w6) as Hd6.
  { revert Ht. apply drifts_bind; [|intros q; apply drifts_bind; [by apply drifts_sys, drifts_call|intros ?; apply drifts_lift]].
    apply drifts_bind; [by apply drifts_sys, drifts_call|intros ?].
    apply drifts_bind; [apply drifts_lift|intros ?; by apply drifts_sys, drifts_call]. }
  apply check_target_names in Ht. apply io_bind_Ok in Hr as (w7 & [eq tag] & Hcmp & Hr). apply io_lift_Ok in Hr as [-> _].
  apply drifts_compare_open in Hcmp.
  assert (drift env w4 w7) as Hd7 by (by transitivity w6).
  rewrite !orb_false_iff in Hc. destruct Hc as [[[[[[[[K1 K2] I1] I2] _] _] S1] S2] _].
  apply regular_kind in K1, K2. apply same_identity in I1, I2. apply negb_false_iff, Z.eqb_eq in S1, S2.
  cbv zeta. split_and!.
  - destruct Ht as (a1 & a2 & a3 & q & i' & j' & ? & ? & ? & ? & ? & ? & ? & ? & Hd). exists a1, a2, a3, q, i', j'.
    split_and!; try done. by transitivity w6.
  - exists w, i. split_and!; try done; [apply I1..|]. transitivity w1; [done|]. transitivity w2; [done|].
    by transitivity w4.
  - exists w1, j. split_and!; try done; [apply I2..|]. transitivity w2; [done|]. by transitivity w4.
Qed.
End looks.

(** ** Before a migration is applied *)

(** A method that asks nothing of a migration. *)
Definition silent {A} (m : Run A) : Prop := ∀ r env w, (m r env w).1.2 = [].

Lemma silent_bind {A B} (m : Run A) (f : A → Run B) :
  silent m → (∀ a, silent (f a)) → silent (m ≫= f).
Proof.
  intros Hm Hf r env w. cbv [mbind run_bind]. specialize (Hm r env w).
  destruct (m r env w) as [[w1 t1] [[r1 [a|e]]|]]; cbn in *; [|done..]. subst t1.
  specialize (Hf a r1 env w1). by destruct (f a r1 env w1) as [[w2 t2] o].
Qed.
Lemma silent_ret {A} (a : A) : silent (mret a).
Proof. done. Qed.
Lemma silent_self : silent self.
Proof. done. Qed.
Lemma silent_set r : silent (set_self r).
Proof. done. Qed.
Lemma silent_io {A} (m : IO MigrationError A) : silent (run_io m).
Proof. intros r env w. unfold run_io. by destruct (m env w). Qed.
Lemma silent_result {A} (m : IO MigrationError A) : silent (run_result m).
Proof. intros r env w. unfold run_result. by destruct (m env w). Qed.

Create HintDb silent.
#[export] Hint Resolve silent_ret silent_self silent_set silent_io silent_result : silent.

Ltac silent :=
  repeat match goal with
  | |- silent (_ ≫= _) => apply silent_bind; [|intros ?]
  | |- silent (match ?x with _ => _ end) => destruct x
  | |- silent (run_check _) => apply silent_io
  | |- silent (run_throw _) => apply silent_io
  | |- silent (update_self _) => unfold update_self
  | |- silent (latch_recovery _) => unfold latch_recovery
  | |- silent (handle_cleanup_failure _) => unfold handle_cleanup_failure
  | |- silent (clear_then _ _) => unfold clear_then
  | |- _ => solve [auto with silent]
  end.

Lemma silent_begin store : silent (begin_run store).
Proof. unfold begin_run. silent. Qed.
Lemma silent_hold mg backup : silent (hold_checkpoint mg backup).
Proof. unfold hold_checkpoint. silent. Qed.
Lemma silent_persist store id rc : silent (persist_record store id rc).
Proof. unfold persist_record. silent. Qed.
Lemma silent_recheck store g : silent (recheck_checkpoint store g).
Proof. unfold recheck_checkpoint. silent. Qed.
#[export] Hint Resolve silent_begin silent_hold silent_persist silent_recheck : silent.

(** An event after a silent method comes from what follows it. *)
Lemma event_after {A B} (m : Run A) (f : A → Run B) r env w w' t o (e : Event) :
  silent m → (m ≫= f) r env w = (w', t, o) → e ∈ t →
  ∃ w1 r1 a, m r env w = (w1, [], Some (r1, Ok a)) ∧ f a r1 env w1 = (w', t, o).
Proof.
  intros Hm. cbv [mbind run_bind]. specialize (Hm r env w).
  destruct (m r env w) as [[w1 t1] [[r1 [a|x]]|]]; cbn in Hm; subst t1; [|by intros [= _ <- _] ?%elem_of_nil..].
  destruct (f a r1 env w1) as [[w2 t2] o2] eqn:E. intros [= <- <- <-] _. by exists w1, r1, a.
Qed.

Lemma run_io_Ok {A} (m : IO MigrationError A) r env w w' t r' a :
  run_io m r env w = (w', t, Some (r', Ok a)) → m env w = (w', Some (Ok a)).
Proof. unfold run_io. destruct (m env w) as [w1 [x|]]; [|done]. by intros [= -> _ _ ->]. Qed.

Lemma run_bind_Ok {A B} (m : Run A) (f : A → Run B) r env w w' t r' b :
  (m ≫= f) r env w = (w', t, Some (r', Ok b)) →
  ∃ w1 t1 r1 a t2, m r env w = (w1, t1, Some (r1, Ok a)) ∧ f a r1 env w1 = (w', t2, Some (r', Ok b)).
Proof.
  cbv [mbind run_bind]. destruct (m r env w) as [[w1 t1] [[r1 [a|x]]|]]; [|done..].
  destruct (f a r1 env w1) as [[w2 t2] o] eqn:E. intros [= -> _ ->]. by exists w1, t1, r1, a, t2.
Qed.

Lemma run_check_Ok {A} (x : result MigrationError A) r env w w' t r' a :
  run_check x r env w = (w', t, Some (r', Ok a)) → x = Ok a.
Proof. by intros [= _ _ _ ->]. Qed.

(** The guard of a migration that asks for a snapshot. *)
Lemma hold_checkpoint_Ok mg backup r env w w' t r' g :
  md_requires_snapshot (mg_descriptor mg) = true →
  hold_checkpoint mg backup r env w = (w', t, Some (r', Ok g)) →
  ∃ b target g', backup = Some b ∧ mg_recovery_target mg = Some target ∧ g = Some g' ∧
    bg_evidence g' = b ∧ bg_target_path g' = target.
Proof.
  unfold hold_checkpoint. intros ->. intros (w1 & t1 & r1 & target & t2 & H1%run_check_Ok & H)%run_bind_Ok.
  apply run_bind_Ok in H as (w2 & t3 & r2 & b & t4 & H2%run_check_Ok & H).
  apply run_bind_Ok in H as (w3 & t5 & r3 & g' & t6 & H3%run_io_Ok & H). injection H as <- _ _ <-.
  exists b, target, g'. destruct (mg_recovery_target mg), backup; try done. injection H1 as ->. injection H2 as ->.
  split_and!; [done..| |]; unfold hold_for_target in H3; cbv [mbind io_bind mret io_ret] in H3.
  all: repeat (match type of H3 with context [match ?x with _ => _ end] => destruct x as [? [[?|]|]] end; try done).
  all: by injection H3 as _ <-.
Qed.

Lemma recheck_Ok store g r env w w' t r' u :
  recheck_checkpoint store (Some g) r env w = (w', t, Some (r', Ok u)) →
  assert_stable g env w = (w', Some (Ok tt)).
Proof.
  unfold recheck_checkpoint. intros (w1 & t1 & r1 & x & t2 & H & Hx)%run_bind_Ok.
  unfold run_result in H. destruct (assert_stable g env w) as [w2 [y|]]; [|done]. injection H as -> _ _ ->.
  destruct x as [[]|e]; [by injection Hx as <-|]. unfold clear_then in Hx.
  assert (∀ (A : Type) r env w w' t r' b, (_ ← update_self (with_record None); @run_throw A e) r env w ≠
    (w', t, Some (r', Ok b))) as Hno by done.
  destruct store as [st|]; [|by apply Hno in Hx].
  apply run_bind_Ok in Hx as (w3 & t3 & r3 & [[]|c] & t4 & _ & Hc); [by apply Hno in Hc|done].
Qed.

