(* ===== verification/MigrationWitnesses.v ===== *)
(** * The theorems about migrations, applied

    A machine on which a migration is applied, one on which it is rolled back
    and tried again, one on which it fails and stops what comes after, and one
    on which a power loss that keeps the removal of the marker but not the
    rename of the ledger lets a migration be applied twice. *)

From Stdlib Require Import ZArith Lia Ascii.
From stdpp Require Import base numbers gmap strings list fin_maps sorting relations.
From S2P Require Import Prelude Text Fields Ordered Paths Files ControlFiles FileFacts ControlFacts.
From S2P Require Import MigrationLedger MigrationRunner MigrationSteps.
From S2P Require Import MigrationRuns MigrationSafety MigrationBackupFacts UpdateWitnesses.

Set Default Goal Selector "!".

Definition store_dir : Key := journal_dir.
Definition store_path : Path := "/var/ledger".

Lemma store_located : located store_path store_dir "ledger".
Proof. split; [done|]. by repeat constructor. Qed.

(** ** Migrations *)
Definition sample_descriptor : MigrationDescriptor :=
  {| md_id := "m-1"; md_introduced_in := "0.9.0"; md_scope := SystemScope; md_reversible := true;
     md_requires_snapshot := false |}.

(** A migration with nothing to do, whose application and verification answer
    as given. *)
Definition sample_migration (applied verified : result MigrationError unit) : Migration :=
  {| mg_descriptor := sample_descriptor; mg_precondition := mret true; mg_apply := io_lift applied;
     mg_verify := io_lift verified; mg_recovery_target := None; mg_rollback := mret tt |}.

Lemma sample_well_behaved d a v : well_behaved d (sample_migration a v).
Proof. split; intros env Hq; cbn; harmless. Qed.

(** ** Machines *)
Definition fresh_machine : MigrationMachine :=
  {| mm_fs := fresh_fs; mm_runners := []; mm_trace := []; mm_acknowledged := [] |}.

Definition migration_world (m : MigrationMachine) : World := {| w_fs := mm_fs m; w_calls := 0 |}.

Definition open_runner (env : FsEnv) (m : MigrationMachine) : MigrationMachine :=
  let '(w, o) := MigrationRunner_open store_path env {| w_fs := mm_fs m; w_calls := 0 |} in
  {| mm_fs := w_fs w; mm_runners := newly_opened o ++ mm_runners m;
     mm_trace := mm_trace m; mm_acknowledged := mm_acknowledged m |}.

Definition run_first (env : FsEnv) (mg : Migration) (m : MigrationMachine) : MigrationMachine :=
  match mm_runners m with
  | [] => m
  | r :: rest =>
      let '(w, t, o) := run_with_backup mg None r env {| w_fs := mm_fs m; w_calls := 0 |} in
      {| mm_fs := w_fs w; mm_runners := [] ++ left_over o ++ rest;
         mm_trace := reverse t ++ mm_trace m;
         mm_acknowledged := acknowledges (md_id (mg_descriptor mg)) o ++ mm_acknowledged m |}
  end.

Section reached.
Context (loss : FS → FS → Prop).
Abbreviation reached := (migration_reachable store_dir "ledger" store_path loss).

Lemma fresh_machine_initial : migration_initial store_dir "ledger" fresh_machine.
Proof. split; [apply fresh_place_of|]. split; [apply fresh_place_of|done]. Qed.

Lemma reached_fresh : reached fresh_machine.
Proof. exists fresh_machine. split; [exact fresh_machine_initial|constructor]. Qed.

Lemma reached_by m m' : reached m → migration_step store_dir store_path loss m m' → reached m'.
Proof. intros (m0 & Hi & Hr) Hs. exists m0. split; [done|]. by eapply rtc_r. Qed.

Lemma reached_opened env m : quiet store_dir env → reached m → reached (open_runner env m).
Proof.
  intros Hq Hm. unfold open_runner.
  destruct (MigrationRunner_open store_path env {| w_fs := mm_fs m; w_calls := 0 |}) as [w o] eqn:E.
  eapply reached_by; [done|]. by eapply mstep_open.
Qed.

Lemma reached_run env mg m :
  quiet store_dir env → well_behaved store_dir mg → reached m → reached (run_first env mg m).
Proof.
  intros Hq Hmg Hm. unfold run_first. destruct (mm_runners m) as [|r rest] eqn:Er; [done|].
  destruct (run_with_backup mg None r env {| w_fs := mm_fs m; w_calls := 0 |}) as [[w t] o] eqn:E.
  eapply reached_by; [done|]. eapply (mstep_run _ _ _ _ _ _ _ None []); [done|done|done|exact Er|exact E].
Qed.
End reached.

Definition bad : result MigrationError unit := Err (IoFailure "no").
Definition good : result MigrationError unit := Ok tt.

Definition applied_machine : MigrationMachine :=
  run_first calm_env (sample_migration good good) (open_runner calm_env fresh_machine).
Definition retried_machine : MigrationMachine :=
  run_first calm_env (sample_migration good bad)
    (run_first calm_env (sample_migration good bad) (open_runner calm_env fresh_machine)).
Definition failed_machine : MigrationMachine :=
  run_first calm_env (sample_migration bad good) (open_runner calm_env fresh_machine).

(** What is computed of the machines, as booleans. *)
Definition applied_check (m : MigrationMachine) : bool :=
  bool_decide (mm_acknowledged m = ["m-1"]) &&
  match MigrationLedgerStore_load store_path calm_env (migration_world m) with
  | (_, Some (Ok _)) => true
  | _ => false
  end.

Lemma applied_check_spec m :
  applied_check m = true →
  mm_acknowledged m = ["m-1"] ∧ ∃ l, loads_ledger store_dir store_path (mm_fs m) l.
Proof.
  unfold applied_check. rewrite andb_true_iff, bool_decide_eq_true. intros [H1 H2]. split; [done|].
  destruct (MigrationLedgerStore_load store_path calm_env (migration_world m)) as [w [[l|]|]] eqn:E; try done.
  exists l, calm_env, 0%nat, w. split; [apply calm_quiet|exact E].
Qed.

Lemma applied_checked : applied_check applied_machine = true.
Proof. vm_compute. reflexivity. Qed.

Lemma retried_trace :
  mm_trace retried_machine =
  [RolledBack "m-1"] ++ Applying "m-1" :: [RolledBack "m-1"] ++ Applying "m-1" :: [].
Proof. vm_compute. reflexivity. Qed.

Definition failed_check (m : MigrationMachine) : bool :=
  bool_decide (mm_trace m = [Applying "m-1"]) &&
  match MigrationRunner_open store_path calm_env (migration_world m) with
  | (_, Some (Ok r)) => bool_decide (mr_ledger r = ∅)
  | _ => false
  end.

Lemma failed_check_spec m :
  failed_check m = true →
  mm_trace m = [Applying "m-1"] ∧ ∃ w r,
    MigrationRunner_open store_path calm_env {| w_fs := mm_fs m; w_calls := 0 |} = (w, Some (Ok r)) ∧
    mr_ledger r = ∅.
Proof.
  unfold failed_check. rewrite andb_true_iff, bool_decide_eq_true. intros [H1 H2]. split; [done|].
  destruct (MigrationRunner_open store_path calm_env (migration_world m)) as [w [[r|]|]] eqn:E; try done.
  apply bool_decide_eq_true in H2. by exists w, r.
Qed.

Lemma failed_checked : failed_check failed_machine = true.
Proof. vm_compute. reflexivity. Qed.

(** ** The theorems at these machines *)
Abbreviation ordered := (ordered_loss store_dir "ledger").

Lemma applied_reached : migration_reachable store_dir "ledger" store_path ordered applied_machine.
Proof.
  refine (reached_run _ _ _ _ (calm_quiet _) (sample_well_behaved _ _ _) _).
  exact (reached_opened _ _ _ (calm_quiet _) (reached_fresh _)).
Qed.

Lemma retried_reached : migration_reachable store_dir "ledger" store_path ordered retried_machine.
Proof.
  do 2 (refine (reached_run _ _ _ _ (calm_quiet _) (sample_well_behaved _ _ _) _)).
  exact (reached_opened _ _ _ (calm_quiet _) (reached_fresh _)).
Qed.

Lemma failed_reached : migration_reachable store_dir "ledger" store_path ordered failed_machine.
Proof.
  refine (reached_run _ _ _ _ (calm_quiet _) (sample_well_behaved _ _ _) _).
  exact (reached_opened _ _ _ (calm_quiet _) (reached_fresh _)).
Qed.

(** The acknowledged migration is in the ledger that is read, and was verified. *)
Lemma migration_ledger_is_exact_witness :
  ∃ l, loads_ledger store_dir store_path (mm_fs applied_machine) l ∧ "m-1"%string ∈ l ∧
    Verified "m-1" ∈ mm_trace applied_machine.
Proof.
  destruct (applied_check_spec _ applied_checked) as [Ha [l Hl]]. exists l. split; [exact Hl|].
  destruct (migration_ledger_is_exact store_dir "ledger" store_path store_located applied_machine _ l "m-1"
    applied_reached (or_introl eq_refl) Hl) as [H1 H2].
  assert ("m-1"%string ∈ l) as Hin by (apply H1; rewrite Ha; left). exact (conj Hin (H2 Hin)).
Defined.

(** The second attempt came after the rollback of the first. *)
Lemma no_blind_reapplication_witness :
  mm_trace retried_machine =
    [RolledBack "m-1"] ++ Applying "m-1" :: [RolledBack "m-1"] ++ Applying "m-1" :: [] ∧
  RolledBack "m-1" ∈ [RolledBack "m-1"].
Proof.
  split; [exact retried_trace|].
  exact (no_blind_reapplication store_dir "ledger" store_path store_located retried_machine "m-1"
    [] [RolledBack "m-1"] [RolledBack "m-1"] retried_reached retried_trace).
Defined.

(** The failed application stops the runner that is opened next. *)
Lemma interrupted_migration_blocks_witness :
  ∃ w r, MigrationRunner_open store_path calm_env {| w_fs := mm_fs failed_machine; w_calls := 0 |} =
      (w, Some (Ok r)) ∧
    (∃ rc, mr_recovery_record r = Some rc ∧ rr_migration_id rc = "m-1"%string) ∧
    ∃ reason, run_with_backup (sample_migration good good) None r calm_env w =
      (w, [], Some (r, Err (RecoveryRequired reason))).
Proof.
  destruct (failed_check_spec _ failed_checked) as [Ht (w & r & Ho & He)]. exists w, r. split; [exact Ho|].
  destruct (interrupted_migration_blocks store_dir "ledger" store_path store_located failed_machine "m-1"
    (mm_fs failed_machine) calm_env 0%nat w r failed_reached) as [H|[H1 H2]].
  - rewrite Ht. apply elem_of_union_l, elem_of_singleton. reflexivity.
  - exact (or_introl eq_refl).
  - exact (calm_quiet _).
  - exact Ho.
  - exfalso. rewrite He in H. exact (not_elem_of_empty _ H).
  - split; [exact H1|]. exact (H2 _ _ _ _).
Defined.

(** ** The protocol *)
Definition empty_progress : Progress := {| pg_ledgers := [None]; pg_markers := [None]; pg_trace := [] |}.
Definition sample_runner : MigrationRunner :=
  {| mr_ledger := ∅; mr_store := Some store_path; mr_recovery_required := None; mr_recovery_record := None |}.

Lemma empty_at_fresh : at_progress store_dir "ledger" empty_progress fresh_fs ∧ progress_ok empty_progress.
Proof.
  destruct (initial_ok store_dir "ledger" store_path store_located fresh_machine fresh_machine_initial). by split.
Qed.

(** The first run on an empty store. *)
Lemma migration_run_refines_protocol_witness :
  ∃ w t o q, run_with_backup (sample_migration good good) None sample_runner calm_env
      {| w_fs := fresh_fs; w_calls := 0 |} = (w, t, o) ∧
    protocol_steps empty_progress q ∧ at_progress store_dir "ledger" q (w_fs w) ∧ pg_trace q = reverse t ++ [].
Proof.
  destruct (run_with_backup (sample_migration good good) None sample_runner calm_env
    {| w_fs := fresh_fs; w_calls := 0 |}) as [[w t] o] eqn:E.
  destruct (migration_run_refines_protocol store_dir "ledger" store_path store_located calm_env
    (sample_migration good good) None sample_runner empty_progress {| w_fs := fresh_fs; w_calls := 0 |} w t o (calm_quiet _)
    (sample_well_behaved _ _ _) (λ b H, match H with end) eq_refl (proj1 empty_at_fresh)
    (proj2 empty_at_fresh) E) as (q & H1 & _ & H2 & H3 & _).
  exists w, t, o, q. split; [reflexivity|]. split; [exact H1|]. split; [exact H2|exact H3].
Defined.

(** ** A migration with a backup *)
Definition data_inode (k : Z) (data : string) : Inode :=
  {| i_kind := RegularFile; i_mode := 384; i_uid := 0; i_nlink := 1; i_dev := 1; i_ino := k;
     i_mtime := (1000, 0)%Z; i_ctime := (1000, 0)%Z; i_data := data; i_synced := true |}.

Definition backed_fs : FS :=
  {| fs_entries := <[["var"; "settings"] := dir_entry 2]> (<[["var"; "settings.bak"] := dir_entry 3]>
                     (fs_entries fresh_fs))%string;
     fs_inodes := <[2%nat := data_inode 30 "mode=old"]> (<[3%nat := data_inode 31 "mode=old"]> (fs_inodes fresh_fs));
     fs_next := 4 |}.

Definition careful_migration : Migration :=
  {| mg_descriptor := {| md_id := "m-2"; md_introduced_in := "0.9.0"; md_scope := SystemScope;
                         md_reversible := false; md_requires_snapshot := true |};
     mg_precondition := mret true; mg_apply := mret tt; mg_verify := mret tt;
     mg_recovery_target := Some "/var/settings"; mg_rollback := default_rollback sample_descriptor |}.

Definition sample_backup : World * option (result MigrationError ValidatedBackup) :=
  ValidatedBackup_verify "/var/settings" "/var/settings.bak" calm_env {| w_fs := backed_fs; w_calls := 0 |}.

Definition careful_run (w : World) (b : ValidatedBackup) :
    World * list Event * option (MigrationRunner * result MigrationError MigrationOutcome) :=
  run_with_backup careful_migration (Some b) sample_runner calm_env w.

Definition careful_check (x : World * option (result MigrationError ValidatedBackup)) : bool :=
  match x with
  | (w, Some (Ok b)) => bool_decide ((careful_run w b).1.2 = [Applying "m-2"; Verified "m-2"])
  | _ => false
  end.

Lemma careful_check_spec x :
  careful_check x = true →
  ∃ w b w' o, run_with_backup careful_migration (Some b) sample_runner calm_env w =
    (w', [Applying "m-2"; Verified "m-2"], o).
Proof.
  unfold careful_check. destruct x as [w [[b|]|]]; [|done..]. rewrite bool_decide_eq_true.
  unfold careful_run. intros H. exists w, b. destruct (run_with_backup _ _ _ _ w) as [[w' t] o].
  cbn in H. subst t. by exists w', o.
Qed.

Lemma careful_checked : careful_check sample_backup = true.
Proof. vm_compute. reflexivity. Qed.

Lemma calm_untouched f : untouched calm_env f.
Proof. by intros n fs i Hi. Qed.


(** ** Records of migrations *)
Definition sample_record : MigrationRecoveryRecord :=
  {| rr_migration_id := "m-1"; rr_checkpoint := Some
       {| cp_target_path := "/var/settings"; cp_backup_path := "/var/settings.bak"; cp_target_device := 1;
          cp_target_inode := 30; cp_backup_device := 1; cp_backup_inode := 31; cp_size := 8;
          cp_integrity_tag := 77 |} |}.

Lemma sample_record_ok : record_ok sample_record.
Proof. split; [vm_compute; reflexivity|by split]. Qed.

(** A record, through its text. *)
Lemma migration_records_roundtrip_witness :
  record_ok sample_record ∧
  parse_recovery_record (serialize_recovery_record sample_record) = Ok sample_record.
Proof.
  split; [exact sample_record_ok|].
  exact (proj1 (proj2 (proj2 migration_records_roundtrip)) sample_record sample_record_ok).
Defined.

(** ** An unordered power loss

    A process is killed after the rename of its ledger; the next runner finds
    the migration in that ledger and removes the marker; then the power fails,
    and the disk has the removal but not the rename. *)
Definition killed_at (k : nat) : FsEnv :=
  {| interfere := interfere calm_env; fault := fault calm_env; killed := λ n, (n =? k)%nat;
     clock := clock calm_env; identity := identity calm_env; written := written calm_env;
     delivered := delivered calm_env; patience := patience calm_env; random := random calm_env;
     process_id := process_id calm_env; user_id := user_id calm_env; umask := umask calm_env;
     working_directory := working_directory calm_env |}.

Lemma killed_quiet d k : quiet d (killed_at k).
Proof. intros n fs. apply rely_refl. Qed.

(** The power loss that takes back all changes of one name and keeps the rest. *)
Definition taken_back (e : Entry) : Entry :=
  {| e_latest := default (e_latest e) (last (e_pending e)); e_pending := [] |}.
Definition links_to (entries : gmap Key Entry) (id : InodeId) : Z :=
  Z.of_nat (length (filter (λ ke, e_latest ke.2 = Some id) (map_to_list entries))).
Definition relinked (entries : gmap Key Entry) (id : InodeId) (i : Inode) : Inode :=
  with_links (match i_kind i with Directory => i_nlink i | _ => links_to entries id end) (i_ctime i) i.
Definition lose_name (k0 : Key) (fs : FS) : FS :=
  let entries := map_imap (λ k e, Some (if decide (k = k0) then taken_back e else settle_entry e)) (fs_entries fs) in
  {| fs_entries := entries; fs_inodes := map_imap (λ id i, Some (relinked entries id i)) (fs_inodes fs);
     fs_next := fs_next fs |}.

Lemma lose_name_loss k0 fs : power_loss fs (lose_name k0 fs).
Proof.
  split; [|intros id i Hi Hs; cbn; rewrite map_lookup_imap, Hi; by eexists _, _|done|].
  2: { intros id. cbn. rewrite map_lookup_imap. by destruct (fs_inodes fs !! id). }
  intros k. unfold entry_at, lose_name. cbn [fs_entries]. rewrite map_lookup_imap.
  destruct (fs_entries fs !! k) as [e|]; cbn; [|by split; [left|]]. case_decide; (split; [|done]); [|left].
  cbn. destruct (last (e_pending e)) as [x|] eqn:El; cbn; [|left]. right. by eapply last_Some_elem_of.
Qed.

Definition lose_power (k0 : Key) (m : MigrationMachine) : MigrationMachine :=
  {| mm_fs := lose_name k0 (mm_fs m); mm_runners := []; mm_trace := mm_trace m;
     mm_acknowledged := mm_acknowledged m |}.

Definition reapplied_machine : MigrationMachine :=
  run_first calm_env (sample_migration good good) (open_runner calm_env
    (lose_power (store_dir ++ ["ledger"%string])
      (open_runner (killed_at 19)
        (run_first (killed_at 27) (sample_migration good good) (open_runner calm_env fresh_machine))))).

Lemma reapplied_trace :
  mm_trace reapplied_machine =
  [Verified "m-1"] ++ Applying "m-1" :: [Verified "m-1"] ++ Applying "m-1" :: [].
Proof. vm_compute. reflexivity. Qed.

(** Where names of a directory may reach the disk out of order, a verified
    migration can be applied twice with no rollback in between. *)
Theorem unordered_loss_reapplies :
  ∃ m t1 t2 t3, migration_reachable store_dir "ledger" store_path power_loss m ∧
    mm_trace m = t3 ++ Applying "m-1" :: t2 ++ Applying "m-1" :: t1 ∧ RolledBack "m-1" ∉ t2.
Proof.
  exists reapplied_machine. do 3 eexists. split; [|split; [exact reapplied_trace|set_solver]].
  refine (reached_run _ _ _ _ (calm_quiet _) (sample_well_behaved _ _ _) _).
  refine (reached_opened _ _ _ (calm_quiet _) _).
  refine (reached_by _ _ _ _ (mstep_loss _ _ _ _ _ (lose_name_loss _ _))).
  refine (reached_opened _ _ _ (killed_quiet _ _) _).
  refine (reached_run _ _ _ _ (killed_quiet _ _) (sample_well_behaved _ _ _) _).
  exact (reached_opened _ _ _ (calm_quiet _) (reached_fresh _)).
Qed.
