(* ===== verification/BootstrapState.v ===== *)
(** * Durable bootstrap: the state machine

    linura-bootstrap/src/lib.rs (stages, modes, the ledger) and
    linura-bootstrap/src/durable: [state.rs], [manifest.rs] and the values of
    [codec.rs].  A method that mutates the state returns the state after it;
    the callers work on a copy, so that a failing method leaves nothing. *)

From Stdlib Require Import ZArith Lia Ascii.
From stdpp Require Import base numbers gmap strings list fin_maps sorting.
From S2P Require Import Prelude Text Fields Digest Paths Files ControlFiles UpdateEvidence SessionIdentity.

Set Default Goal Selector "!".

(** ** Stages and modes *)
Inductive BootstrapStage :=
| BaseEnvironmentVerification
| LinuraInstallation
| PersistentStateInitialization
| SecurityBaseline
| ProvisioningModeSelection
| BootstrapConnectivityResolution
| HardwareDiscovery
| SourceSelection
| TargetObservation
| FirstBootPlanning
| RecoveryCheckpoint
| OwnerEnrollmentResolution
| FirstBootReady.
#[export] Instance BootstrapStage_eq_dec : EqDecision BootstrapStage.
Proof. solve_decision. Defined.

Definition ORDERED : list BootstrapStage :=
  [BaseEnvironmentVerification; LinuraInstallation; PersistentStateInitialization; SecurityBaseline;
   ProvisioningModeSelection; BootstrapConnectivityResolution; HardwareDiscovery; SourceSelection;
   TargetObservation; FirstBootPlanning; RecoveryCheckpoint; OwnerEnrollmentResolution; FirstBootReady].

Inductive ProvisioningMode := InteractiveOwner | PrepareForAnotherOwner | UnattendedLocal | Recovery.
#[export] Instance ProvisioningMode_eq_dec : EqDecision ProvisioningMode.
Proof. solve_decision. Defined.

Inductive BootstrapConnectivity := Offline | BoundedNetwork.
#[export] Instance BootstrapConnectivity_eq_dec : EqDecision BootstrapConnectivity.
Proof. solve_decision. Defined.

(** The derived [Debug] of a stage. *)
Definition BootstrapStage_debug (stage : BootstrapStage) : string :=
  match stage with
  | BaseEnvironmentVerification => "BaseEnvironmentVerification"
  | LinuraInstallation => "LinuraInstallation"
  | PersistentStateInitialization => "PersistentStateInitialization"
  | SecurityBaseline => "SecurityBaseline"
  | ProvisioningModeSelection => "ProvisioningModeSelection"
  | BootstrapConnectivityResolution => "BootstrapConnectivityResolution"
  | HardwareDiscovery => "HardwareDiscovery"
  | SourceSelection => "SourceSelection"
  | TargetObservation => "TargetObservation"
  | FirstBootPlanning => "FirstBootPlanning"
  | RecoveryCheckpoint => "RecoveryCheckpoint"
  | OwnerEnrollmentResolution => "OwnerEnrollmentResolution"
  | FirstBootReady => "FirstBootReady"
  end.

(** ** Errors *)
Inductive DurableBootstrapError :=
| BootIo (message : string)
| InvalidIdentifier (label : string)
| InvalidManifest (reason : string)
| UnsupportedManifestVersion
| ManifestSizeExceeded
| ManifestIntegrityMismatch
| ManifestBindingMismatch
| ManifestRequired
| StateSizeExceeded
| UnsupportedStateVersion
| StateIntegrityMismatch
| CorruptState (reason : string)
| UntrustedStatePath
| UntrustedControlPath
| StateBindingMismatch
| UnexpectedStage (expected actual : BootstrapStage)
| StageAlreadyActive
| StageContextRequired (stage : BootstrapStage)
| NoActiveStage
| OperationBindingMismatch
| EffectAlreadyStarted
| EffectNotStarted (stage : BootstrapStage)
| VerificationEvidenceRequired (stage : BootstrapStage)
| VerificationEvidenceUnexpected (stage : BootstrapStage)
| InvalidVerificationEvidence (reason : string)
| VerificationEvidenceBindingMismatch
| VerificationEvidenceStale
| AlreadyComplete
| ProvisioningModeAlreadySelected
| ProvisioningModeRequired
| OwnerPendingNotAllowed
| OwnerStateAlreadyResolved
| RecoveryOwnerResolutionNotAllowed
| PreparerAuthorityStillActive
| FreshOwnerEnrollmentRequired
| BootGenerationOverflow
| GenerationAnchorMissing
| UnsupportedGenerationAnchorVersion
| GenerationAnchorIntegrityMismatch
| CorruptGenerationAnchor (reason : string)
| GenerationRollbackDetected (state_generation anchor_generation : Z)
| StaleBootstrapCoordinator
| BootDurabilityUncertain (reason : string)
| BootRecoveryRequired (reason : string).

#[export] Instance bootstrap_control_errors : ControlErrors DurableBootstrapError :=
  {| ce_io := BootIo; ce_uncertain := BootDurabilityUncertain; ce_untrusted_lock := UntrustedControlPath |}.

Definition DurableBootstrapError_display (e : DurableBootstrapError) : string :=
  match e with
  | BootIo error => "durable bootstrap I/O failed: " +:+ error
  | InvalidIdentifier label => "invalid " +:+ label
  | InvalidManifest reason => "invalid Provisioning Manifest: " +:+ reason
  | UnsupportedManifestVersion => "unsupported Provisioning Manifest version"
  | ManifestSizeExceeded => "Provisioning Manifest exceeds the supported byte bound"
  | ManifestIntegrityMismatch =>
      "Provisioning Manifest integrity binding does not match its canonical payload"
  | ManifestBindingMismatch =>
      "Provisioning Manifest is not bound to this bootstrap session, machine, and provisioning mode"
  | ManifestRequired => "unattended-local provisioning requires a validated Provisioning Manifest"
  | StateSizeExceeded => "durable bootstrap state exceeds the supported byte bound"
  | UnsupportedStateVersion => "unsupported durable bootstrap state version"
  | StateIntegrityMismatch =>
      "durable bootstrap state integrity binding does not match its canonical payload"
  | CorruptState reason => "corrupt durable bootstrap state: " +:+ reason
  | UntrustedStatePath =>
      "durable bootstrap state path must resolve through trusted directories to a protected single-link regular file owned by the bootstrap process identity"
  | UntrustedControlPath =>
      "durable bootstrap lock/control file must be a protected single-link regular file owned by the bootstrap process identity"
  | StateBindingMismatch => "durable bootstrap state is bound to another bootstrap session or machine"
  | UnexpectedStage expected actual =>
      "bootstrap stage must advance monotonically: expected " +:+ BootstrapStage_debug expected
      +:+ ", got " +:+ BootstrapStage_debug actual
  | StageAlreadyActive =>
      "a bootstrap stage is already active and must be reconciled before another starts"
  | StageContextRequired stage =>
      "bootstrap operation is valid only while the canonical " +:+ BootstrapStage_debug stage
      +:+ " stage is active"
  | NoActiveStage => "no bootstrap stage is active"
  | OperationBindingMismatch =>
      "bootstrap operation id does not match the durable active-stage binding"
  | EffectAlreadyStarted => "bootstrap external effect has already crossed the started boundary"
  | EffectNotStarted stage =>
      "bootstrap stage " +:+ BootstrapStage_debug stage
      +:+ " cannot be verified complete before its external-effect start boundary is durable"
  | VerificationEvidenceRequired stage =>
      "bootstrap stage " +:+ BootstrapStage_debug stage
      +:+ " crossed an external-effect boundary and requires fresh exact-bound postcondition evidence before completion"
  | VerificationEvidenceUnexpected stage =>
      "bootstrap verification evidence is not valid for non-effectful stage "
      +:+ BootstrapStage_debug stage
  | InvalidVerificationEvidence reason => "invalid bootstrap verification evidence: " +:+ reason
  | VerificationEvidenceBindingMismatch =>
      "bootstrap verification evidence is not bound to the exact machine, stage, and durable operation instance"
  | VerificationEvidenceStale =>
      "bootstrap verification evidence is stale or implausibly future-dated and must be freshly re-observed"
  | AlreadyComplete => "durable bootstrap state is already complete"
  | ProvisioningModeAlreadySelected => "provisioning mode is already durably selected"
  | ProvisioningModeRequired => "provisioning mode must be selected before owner enrollment"
  | OwnerPendingNotAllowed =>
      "owner-enrollment-pending is valid only for prepare-for-another-owner or unattended-local provisioning"
  | OwnerStateAlreadyResolved =>
      "owner-enrollment state is already pending, enrolled, or recovery-resolved"
  | RecoveryOwnerResolutionNotAllowed =>
      "recovery owner resolution is valid only for Recovery provisioning mode"
  | PreparerAuthorityStillActive => "preparer authority must be retired before final-owner enrollment"
  | FreshOwnerEnrollmentRequired =>
      "final-owner authority requires a fresh enrollment transition and cannot be inherited from preparer state"
  | BootGenerationOverflow => "durable bootstrap generation overflow"
  | GenerationAnchorMissing =>
      "durable bootstrap generation anchor is missing; historical rollback cannot be excluded"
  | UnsupportedGenerationAnchorVersion => "unsupported durable bootstrap generation-anchor version"
  | GenerationAnchorIntegrityMismatch =>
      "durable bootstrap generation-anchor integrity binding does not match its canonical payload"
  | CorruptGenerationAnchor reason => "corrupt durable bootstrap generation anchor: " +:+ reason
  | GenerationRollbackDetected state_generation anchor_generation =>
      "durable bootstrap history moved backwards or became inconsistent: state generation "
      +:+ u64_to_string state_generation +:+ ", protected anchor generation "
      +:+ u64_to_string anchor_generation
  | StaleBootstrapCoordinator =>
      "bootstrap coordinator observed stale durable state/generation and must be reopened"
  | BootDurabilityUncertain reason => "bootstrap durable commit is uncertain: " +:+ reason
  | BootRecoveryRequired reason =>
      "bootstrap coordinator requires reopen/recovery before continuing: " +:+ reason
  end.

(** ** Identifiers and digests *)
Definition MAX_IDENTIFIER_BYTES : Z := 256.

Definition bootstrap_byte (n : N) : bool :=
  ((48 <=? n) && (n <=? 57) || (65 <=? n) && (n <=? 90) || (97 <=? n) && (n <=? 122)
   || (n =? 45) || (n =? 95) || (n =? 46) || (n =? 58) || (n =? 47) || (n =? 64) || (n =? 43))%N.

Definition ends_with (c : Ascii.ascii) (s : string) : bool :=
  match strip_suffix c s with Some _ => true | None => false end.

Definition normalize_identifier (label value : string) : result DurableBootstrapError string :=
  _ ← reject_if (negb (bool_decide (value = str_trim value)) || bool_decide (value = "")
                 || (MAX_IDENTIFIER_BYTES <? str_len value)%Z || starts_with "/" value
                 || ends_with "/" value || str_contains ".." value
                 || negb (forallb bootstrap_byte (codes value)))
        (InvalidIdentifier label);
  Ok value.

(** [value.len() == 64 && value.bytes().all(is_ascii_hexdigit)]. *)
Definition sha256_text (s : string) : bool := (String.length s =? 64)%nat && all_hexdigits s.

(** ** The parts of a state *)
Definition stage_requires_effect_boundary (stage : BootstrapStage) : bool :=
  match stage with
  | LinuraInstallation | PersistentStateInitialization | SecurityBaseline
  | BootstrapConnectivityResolution | RecoveryCheckpoint | OwnerEnrollmentResolution => true
  | _ => false
  end.

Fixpoint position (stage : BootstrapStage) (l : list BootstrapStage) : option nat :=
  match l with
  | [] => None
  | x :: l' => if bool_decide (x = stage) then Some 0%nat else S <$> position stage l'
  end.

Definition canonical_stage_index (stage : BootstrapStage) : result DurableBootstrapError nat :=
  ok_or (position stage ORDERED)
    (CorruptState ("canonical bootstrap order does not contain " +:+ BootstrapStage_debug stage)).

Inductive OwnerEnrollmentState := Unresolved | Pending | Enrolled | RecoveryResolved.
#[export] Instance OwnerEnrollmentState_eq_dec : EqDecision OwnerEnrollmentState.
Proof. solve_decision. Defined.

Inductive BootstrapEffectState := PreparedStage | EffectStarted.
#[export] Instance BootstrapEffectState_eq_dec : EqDecision BootstrapEffectState.
Proof. solve_decision. Defined.

Record ActiveBootstrapStage := {
  as_stage : BootstrapStage;
  as_operation_id : string;
  as_effect_state : BootstrapEffectState;
}.
#[export] Instance ActiveBootstrapStage_eq_dec : EqDecision ActiveBootstrapStage.
Proof. solve_decision. Defined.

Record CompletedEffectVerification := {
  ce_stage : BootstrapStage;
  ce_operation_id : string;
  ce_verifier_id : string;
  ce_observation_id : string;
  ce_postcondition_sha256 : string;
  ce_observed_unix_ms : Z;
}.
#[export] Instance CompletedEffectVerification_eq_dec : EqDecision CompletedEffectVerification.
Proof. solve_decision. Defined.

Definition CompletedEffectVerification_validate (v : CompletedEffectVerification) :
    result DurableBootstrapError unit :=
  _ ← reject_if (negb (stage_requires_effect_boundary (ce_stage v)))
        (CorruptState "completed effect verification names a non-effectful stage");
  _ ← normalize_identifier "verified bootstrap operation id" (ce_operation_id v);
  _ ← normalize_identifier "bootstrap verifier id" (ce_verifier_id v);
  _ ← normalize_identifier "bootstrap observation id" (ce_observation_id v);
  reject_if (negb (sha256_text (ce_postcondition_sha256 v)) || (ce_observed_unix_ms v =? 0)%Z)
    (CorruptState "completed effect verification contains invalid digest or timestamp").

Record OwnerAuthorityRecord := {
  oa_owner_id : string;
  oa_enrollment_id : string;
  oa_generation : Z;
}.
#[export] Instance OwnerAuthorityRecord_eq_dec : EqDecision OwnerAuthorityRecord.
Proof. solve_decision. Defined.

Record ProvisioningState := {
  pr_mode : option ProvisioningMode;
  pr_manifest_identity : option string;
  pr_manifest_id : option string;
  pr_manifest_connectivity : option BootstrapConnectivity;
  pr_manifest_defer_owner_enrollment : option bool;
  pr_manifest_source_ref : option string;
  pr_manifest_setup_ref : option string;
  pr_manifest_machine_profile_ref : option string;
  pr_manifest_host_identity : option string;
  pr_first_boot_plan_sha256 : option string;
  pr_first_boot_plan_count : Z;
  pr_owner_enrollment : OwnerEnrollmentState;
  pr_owner_authority : option OwnerAuthorityRecord;
  pr_authority_generation : Z;
  pr_preparer_authority_retired : bool;
}.
#[export] Instance ProvisioningState_eq_dec : EqDecision ProvisioningState.
Proof. solve_decision. Defined.

Definition ProvisioningState_default : ProvisioningState :=
  {| pr_mode := None; pr_manifest_identity := None; pr_manifest_id := None;
     pr_manifest_connectivity := None; pr_manifest_defer_owner_enrollment := None;
     pr_manifest_source_ref := None; pr_manifest_setup_ref := None;
     pr_manifest_machine_profile_ref := None; pr_manifest_host_identity := None;
     pr_first_boot_plan_sha256 := None; pr_first_boot_plan_count := 0;
     pr_owner_enrollment := Unresolved; pr_owner_authority := None; pr_authority_generation := 0;
     pr_preparer_authority_retired := false |}.

Definition present {A} (o : option A) : bool := match o with Some _ => true | None => false end.

(** [PrepareForAnotherOwner | UnattendedLocal]. *)
Definition handoff_mode (mode : ProvisioningMode) : bool :=
  match mode with PrepareForAnotherOwner | UnattendedLocal => true | _ => false end.
Definition in_handoff_mode (mode : option ProvisioningMode) : bool :=
  match mode with Some mode => handoff_mode mode | None => false end.

Definition library_backed (p : ProvisioningState) : bool :=
  present (pr_manifest_setup_ref p) || present (pr_manifest_machine_profile_ref p).

(** The mode against the selections of its manifest. *)
Definition validate_selection (p : ProvisioningState) : result DurableBootstrapError unit :=
  match pr_mode p, pr_manifest_defer_owner_enrollment p with
  | Some mode, Some defer =>
      _ ← reject_if (handoff_mode mode && negb defer)
            (CorruptState "deferred-owner provisioning lost its manifest handoff selection");
      _ ← reject_if (bool_decide (mode = InteractiveOwner) && defer)
            (CorruptState "interactive-owner state cannot persist deferred owner enrollment");
      reject_if (bool_decide (mode = Recovery))
        (CorruptState "Recovery mode cannot carry Provisioning Manifest selections")
  | _, _ => Ok tt
  end.

Definition validate_owner (p : ProvisioningState) : result DurableBootstrapError unit :=
  let no_authority := negb (present (pr_owner_authority p)) && (pr_authority_generation p =? 0)%Z in
  match pr_owner_enrollment p with
  | Unresolved =>
      reject_if (negb no_authority) (CorruptState "unresolved owner state retained owner authority")
  | Pending =>
      reject_if (negb (in_handoff_mode (pr_mode p)) || negb (pr_preparer_authority_retired p)
                 || negb no_authority)
        (CorruptState "owner-enrollment-pending violates handoff authority separation")
  | Enrolled =>
      authority ← ok_or (pr_owner_authority p)
                    (CorruptState "enrolled owner state lacks authority record");
      reject_if (negb (pr_preparer_authority_retired p) || (pr_authority_generation p =? 0)%Z
                 || negb (oa_generation authority =? pr_authority_generation p)%Z)
        (CorruptState "owner authority generation is not fresh and separated")
  | RecoveryResolved =>
      reject_if (negb (bool_decide (pr_mode p = Some Recovery)) || pr_preparer_authority_retired p
                 || negb no_authority)
        (CorruptState "recovery owner resolution must not mint, inherit, retire, or defer owner authority")
  end.

Definition ProvisioningState_validate (p : ProvisioningState) : result DurableBootstrapError unit :=
  _ ← reject_if (bool_decide (pr_mode p = Some UnattendedLocal) && negb (present (pr_manifest_identity p)))
        (CorruptState "unattended-local provisioning lacks manifest identity");
  _ ← reject_if (present (pr_manifest_identity p) && negb (present (pr_mode p)))
        (CorruptState "manifest identity exists before provisioning mode selection");
  let typed_manifest_present := present (pr_manifest_id p) && present (pr_manifest_connectivity p)
                                && present (pr_manifest_defer_owner_enrollment p) in
  _ ← reject_if (negb (eqb (present (pr_manifest_identity p)) typed_manifest_present))
        (CorruptState "manifest identity and typed selections must be persisted together");
  _ ← reject_if (negb (present (pr_manifest_identity p))
                 && (present (pr_manifest_source_ref p) || present (pr_manifest_setup_ref p)
                     || present (pr_manifest_machine_profile_ref p)
                     || present (pr_manifest_host_identity p)))
        (CorruptState "manifest references exist without a validated manifest identity");
  _ ← match pr_first_boot_plan_sha256 p with
      | Some digest =>
          reject_if (negb (sha256_text digest))
            (CorruptState "First Boot plan binding is not a SHA-256 digest")
      | None =>
          reject_if (negb (pr_first_boot_plan_count p =? 0)%Z)
            (CorruptState "First Boot plan count exists without a durable plan binding")
      end;
  _ ← reject_if (library_backed p && present (pr_first_boot_plan_sha256 p)
                 && (pr_first_boot_plan_count p =? 0)%Z)
        (CorruptState "Library-backed First Boot planning completed without canonical plans");
  _ ← validate_selection p;
  validate_owner p.

(** ** The state *)
Record DurableBootstrapState := {
  bs_generation : Z;
  bs_session_id : string;
  bs_machine_id : string;
  bs_completed : list BootstrapStage;
  bs_effect_verifications : list CompletedEffectVerification;
  bs_active : option ActiveBootstrapStage;
  bs_provisioning : ProvisioningState;
}.
#[export] Instance DurableBootstrapState_eq_dec : EqDecision DurableBootstrapState.
Proof. solve_decision. Defined.

Definition next_stage (s : DurableBootstrapState) : option BootstrapStage :=
  ORDERED !! length (bs_completed s).

(** The loop over the completed stages. *)
Fixpoint canonical_prefix (order completed : list BootstrapStage) : bool :=
  match completed, order with
  | [], _ => true
  | stage :: completed', expected :: order' =>
      bool_decide (expected = stage) && canonical_prefix order' completed'
  | _ :: _, [] => false
  end.

(** The verifications against the completed stages that have effects. *)
Fixpoint validate_lineage (stages : list BootstrapStage) (vs : list CompletedEffectVerification) :
    result DurableBootstrapError unit :=
  match stages, vs with
  | [], [] => Ok tt
  | [], _ :: _ => Err (CorruptState "durable verification lineage contains an uncompleted effect")
  | _ :: _, [] => Err (CorruptState "completed effectful stage lacks durable verification lineage")
  | stage :: stages', v :: vs' =>
      _ ← reject_if (negb (bool_decide (ce_stage v = stage)))
            (CorruptState "durable verification lineage does not match completed effect order");
      _ ← CompletedEffectVerification_validate v;
      validate_lineage stages' vs'
  end.

(** A part of the state ([exists]) belongs to one stage: it may be there only
    while the stage is active or complete, and must be there once it is
    complete. *)
Definition validate_stage_part (s : DurableBootstrapState) (stage : BootstrapStage) (part : bool)
    (early missing : string) : result DurableBootstrapError unit :=
  index ← canonical_stage_index stage;
  let active := match bs_active s with Some a => bool_decide (as_stage a = stage) | None => false end in
  let complete := (index <? length (bs_completed s))%nat in
  _ ← reject_if (part && negb active && negb complete) (CorruptState early);
  reject_if (complete && negb part) (CorruptState missing).

Definition DurableBootstrapState_validate (s : DurableBootstrapState) : result DurableBootstrapError unit :=
  let p := bs_provisioning s in
  _ ← reject_if (length ORDERED <? length (bs_completed s))%nat
        (CorruptState "bootstrap completed prefix is longer than canonical stage order");
  _ ← reject_if (negb (canonical_prefix ORDERED (bs_completed s)))
        (CorruptState "bootstrap completed stages are not a canonical ordered prefix");
  _ ← validate_lineage (filter (λ stage, stage_requires_effect_boundary stage = true) (bs_completed s))
        (bs_effect_verifications s);
  _ ← match bs_active s with
      | Some active =>
          _ ← reject_if (negb (bool_decide (next_stage s = Some (as_stage active))))
                (CorruptState "active bootstrap stage does not equal first incomplete stage");
          _ ← normalize_identifier "bootstrap operation id" (as_operation_id active);
          Ok tt
      | None => Ok tt
      end;
  _ ← validate_stage_part s ProvisioningModeSelection (present (pr_mode p))
        "provisioning state exists before provisioning-mode-selection stage"
        "provisioning-mode-selection completed without a provisioning mode";
  _ ← validate_stage_part s FirstBootPlanning (present (pr_first_boot_plan_sha256 p))
        "First Boot plan binding exists before the planning stage"
        "First Boot planning completed without a durable canonical plan binding";
  _ ← validate_stage_part s OwnerEnrollmentResolution (negb (bool_decide (pr_owner_enrollment p = Unresolved)))
        "owner-enrollment state exists before owner-enrollment-resolution stage"
        "owner-enrollment-resolution completed without a resolved owner state";
  _ ← normalize_identifier "bootstrap session id" (bs_session_id s);
  _ ← normalize_identifier "machine id" (bs_machine_id s);
  ProvisioningState_validate p.

Definition DurableBootstrapState_new (session_id machine_id : string) :
    result DurableBootstrapError DurableBootstrapState :=
  session_id ← normalize_identifier "bootstrap session id" session_id;
  machine_id ← normalize_identifier "machine id" machine_id;
  let state := {| bs_generation := 0; bs_session_id := session_id; bs_machine_id := machine_id;
                  bs_completed := []; bs_effect_verifications := []; bs_active := None;
                  bs_provisioning := ProvisioningState_default |} in
  _ ← DurableBootstrapState_validate state;
  Ok state.

Definition with_active (active : option ActiveBootstrapStage) (s : DurableBootstrapState) :
    DurableBootstrapState :=
  {| bs_generation := bs_generation s; bs_session_id := bs_session_id s; bs_machine_id := bs_machine_id s;
     bs_completed := bs_completed s; bs_effect_verifications := bs_effect_verifications s;
     bs_active := active; bs_provisioning := bs_provisioning s |}.
Definition with_completed (completed : list BootstrapStage) (vs : list CompletedEffectVerification)
    (s : DurableBootstrapState) : DurableBootstrapState :=
  {| bs_generation := bs_generation s; bs_session_id := bs_session_id s; bs_machine_id := bs_machine_id s;
     bs_completed := completed; bs_effect_verifications := vs;
     bs_active := bs_active s; bs_provisioning := bs_provisioning s |}.
Definition with_provisioning (p : ProvisioningState) (s : DurableBootstrapState) : DurableBootstrapState :=
  {| bs_generation := bs_generation s; bs_session_id := bs_session_id s; bs_machine_id := bs_machine_id s;
     bs_completed := bs_completed s; bs_effect_verifications := bs_effect_verifications s;
     bs_active := bs_active s; bs_provisioning := p |}.
Definition with_generation (generation : Z) (s : DurableBootstrapState) : DurableBootstrapState :=
  {| bs_generation := generation; bs_session_id := bs_session_id s; bs_machine_id := bs_machine_id s;
     bs_completed := bs_completed s; bs_effect_verifications := bs_effect_verifications s;
     bs_active := bs_active s; bs_provisioning := bs_provisioning s |}.

(** [self.validate()] at the end of a method. *)
Definition validated (s : DurableBootstrapState) : result DurableBootstrapError DurableBootstrapState :=
  _ ← DurableBootstrapState_validate s; Ok s.

Definition active_stage_for (s : DurableBootstrapState) (required : BootstrapStage) :
    result DurableBootstrapError ActiveBootstrapStage :=
  active ← ok_or (bs_active s) (StageContextRequired required);
  _ ← reject_if (negb (bool_decide (as_stage active = required))) (StageContextRequired required);
  Ok active.

Definition prepare_stage (s : DurableBootstrapState) (stage : BootstrapStage) (operation_id : string) :
    result DurableBootstrapError DurableBootstrapState :=
  _ ← reject_if (present (bs_active s)) StageAlreadyActive;
  expected ← ok_or (next_stage s) AlreadyComplete;
  _ ← reject_if (negb (bool_decide (expected = stage))) (UnexpectedStage expected stage);
  operation_id ← normalize_identifier "bootstrap operation id" operation_id;
  validated (with_active (Some {| as_stage := stage; as_operation_id := operation_id;
                                  as_effect_state := PreparedStage |}) s).

Definition mark_effect_started (s : DurableBootstrapState) (operation_id : string) :
    result DurableBootstrapError DurableBootstrapState :=
  active ← ok_or (bs_active s) NoActiveStage;
  _ ← reject_if (negb (bool_decide (as_operation_id active = operation_id))) OperationBindingMismatch;
  _ ← reject_if (negb (bool_decide (as_effect_state active = PreparedStage))) EffectAlreadyStarted;
  validated (with_active (Some {| as_stage := as_stage active; as_operation_id := as_operation_id active;
                                  as_effect_state := EffectStarted |}) s).

Definition complete_verified (s : DurableBootstrapState) (operation_id : string) :
    result DurableBootstrapError DurableBootstrapState :=
  active ← ok_or (bs_active s) NoActiveStage;
  _ ← reject_if (negb (bool_decide (as_operation_id active = operation_id))) OperationBindingMismatch;
  _ ← reject_if (stage_requires_effect_boundary (as_stage active)
                 && negb (bool_decide (as_effect_state active = EffectStarted)))
        (EffectNotStarted (as_stage active));
  validated (with_active None
    (with_completed (bs_completed s ++ [as_stage active]) (bs_effect_verifications s) s)).

(** ** The provisioning manifest *)
Record ProvisioningManifest := {
  pm_manifest_id : string;
  pm_session_id : string;
  pm_machine_id : string;
  pm_mode : ProvisioningMode;
  pm_connectivity : BootstrapConnectivity;
  pm_defer_owner_enrollment : bool;
  pm_source_ref : option string;
  pm_setup_ref : option string;
  pm_machine_profile_ref : option string;
  pm_host_identity : option string;
  pm_identity : string;
}.

Definition manifest_validate_binding (m : ProvisioningManifest) (session_id machine_id : string)
    (mode : ProvisioningMode) : result DurableBootstrapError unit :=
  reject_if (negb (bool_decide (pm_session_id m = session_id))
             || negb (bool_decide (pm_machine_id m = machine_id)) || negb (bool_decide (pm_mode m = mode)))
    ManifestBindingMismatch.

(** The selections of a manifest, in the state. *)
Definition with_manifest (m : ProvisioningManifest) (p : ProvisioningState) : ProvisioningState :=
  {| pr_mode := pr_mode p; pr_manifest_identity := Some (pm_identity m);
     pr_manifest_id := Some (pm_manifest_id m); pr_manifest_connectivity := Some (pm_connectivity m);
     pr_manifest_defer_owner_enrollment := Some (pm_defer_owner_enrollment m);
     pr_manifest_source_ref := pm_source_ref m; pr_manifest_setup_ref := pm_setup_ref m;
     pr_manifest_machine_profile_ref := pm_machine_profile_ref m;
     pr_manifest_host_identity := pm_host_identity m;
     pr_first_boot_plan_sha256 := pr_first_boot_plan_sha256 p;
     pr_first_boot_plan_count := pr_first_boot_plan_count p;
     pr_owner_enrollment := pr_owner_enrollment p; pr_owner_authority := pr_owner_authority p;
     pr_authority_generation := pr_authority_generation p;
     pr_preparer_authority_retired := pr_preparer_authority_retired p |}.
Definition with_mode (mode : option ProvisioningMode) (p : ProvisioningState) : ProvisioningState :=
  {| pr_mode := mode; pr_manifest_identity := pr_manifest_identity p;
     pr_manifest_id := pr_manifest_id p; pr_manifest_connectivity := pr_manifest_connectivity p;
     pr_manifest_defer_owner_enrollment := pr_manifest_defer_owner_enrollment p;
     pr_manifest_source_ref := pr_manifest_source_ref p; pr_manifest_setup_ref := pr_manifest_setup_ref p;
     pr_manifest_machine_profile_ref := pr_manifest_machine_profile_ref p;
     pr_manifest_host_identity := pr_manifest_host_identity p;
     pr_first_boot_plan_sha256 := pr_first_boot_plan_sha256 p;
     pr_first_boot_plan_count := pr_first_boot_plan_count p;
     pr_owner_enrollment := pr_owner_enrollment p; pr_owner_authority := pr_owner_authority p;
     pr_authority_generation := pr_authority_generation p;
     pr_preparer_authority_retired := pr_preparer_authority_retired p |}.
Definition with_plan (digest : option string) (count : Z) (p : ProvisioningState) : ProvisioningState :=
  {| pr_mode := pr_mode p; pr_manifest_identity := pr_manifest_identity p;
     pr_manifest_id := pr_manifest_id p; pr_manifest_connectivity := pr_manifest_connectivity p;
     pr_manifest_defer_owner_enrollment := pr_manifest_defer_owner_enrollment p;
     pr_manifest_source_ref := pr_manifest_source_ref p; pr_manifest_setup_ref := pr_manifest_setup_ref p;
     pr_manifest_machine_profile_ref := pr_manifest_machine_profile_ref p;
     pr_manifest_host_identity := pr_manifest_host_identity p;
     pr_first_boot_plan_sha256 := digest; pr_first_boot_plan_count := count;
     pr_owner_enrollment := pr_owner_enrollment p; pr_owner_authority := pr_owner_authority p;
     pr_authority_generation := pr_authority_generation p;
     pr_preparer_authority_retired := pr_preparer_authority_retired p |}.
Definition with_owner (enrollment : OwnerEnrollmentState) (authority : option OwnerAuthorityRecord)
    (generation : Z) (retired : bool) (p : ProvisioningState) : ProvisioningState :=
  {| pr_mode := pr_mode p; pr_manifest_identity := pr_manifest_identity p;
     pr_manifest_id := pr_manifest_id p; pr_manifest_connectivity := pr_manifest_connectivity p;
     pr_manifest_defer_owner_enrollment := pr_manifest_defer_owner_enrollment p;
     pr_manifest_source_ref := pr_manifest_source_ref p; pr_manifest_setup_ref := pr_manifest_setup_ref p;
     pr_manifest_machine_profile_ref := pr_manifest_machine_profile_ref p;
     pr_manifest_host_identity := pr_manifest_host_identity p;
     pr_first_boot_plan_sha256 := pr_first_boot_plan_sha256 p;
     pr_first_boot_plan_count := pr_first_boot_plan_count p;
     pr_owner_enrollment := enrollment; pr_owner_authority := authority;
     pr_authority_generation := generation; pr_preparer_authority_retired := retired |}.

(** [self.provisioning.validate()] and [self.validate()]. *)
Definition provisioned (p : ProvisioningState) (s : DurableBootstrapState) :
    result DurableBootstrapError DurableBootstrapState :=
  _ ← ProvisioningState_validate p; validated (with_provisioning p s).

Definition select_provisioning (s : DurableBootstrapState) (mode : ProvisioningMode)
    (manifest : option ProvisioningManifest) : result DurableBootstrapError DurableBootstrapState :=
  let p := bs_provisioning s in
  _ ← active_stage_for s ProvisioningModeSelection;
  _ ← reject_if (present (pr_mode p)) ProvisioningModeAlreadySelected;
  _ ← reject_if (bool_decide (mode = UnattendedLocal) && negb (present manifest)) ManifestRequired;
  p ← match manifest with
      | Some m => _ ← manifest_validate_binding m (bs_session_id s) (bs_machine_id s) mode;
                  Ok (with_manifest m p)
      | None => Ok p
      end;
  provisioned (with_mode (Some mode) p) s.

Definition bind_first_boot_plan (s : DurableBootstrapState) (plan_sha256 : string) (plan_count : Z) :
    result DurableBootstrapError DurableBootstrapState :=
  let p := bs_provisioning s in
  active ← active_stage_for s FirstBootPlanning;
  _ ← reject_if (negb (bool_decide (as_effect_state active = PreparedStage)))
        (CorruptState "First Boot plan binding requires the prepared planning stage");
  _ ← reject_if (negb (sha256_text plan_sha256))
        (CorruptState "First Boot plan binding is not a SHA-256 digest");
  _ ← reject_if (library_backed p && (plan_count =? 0)%Z)
        (CorruptState "Library-backed First Boot planning produced no canonical plans");
  match pr_first_boot_plan_sha256 p with
  | Some existing =>
      if bool_decide (existing = plan_sha256) && (pr_first_boot_plan_count p =? plan_count)%Z then Ok s
      else Err (CorruptState
                  "prepared First Boot planning attempted to substitute its durable plan binding")
  | None => validated (with_provisioning (with_plan (Some plan_sha256) plan_count p) s)
  end.

Definition enroll_owner_fresh (s : DurableBootstrapState) (owner_id enrollment_id : string) :
    result DurableBootstrapError DurableBootstrapState :=
  let p := bs_provisioning s in
  _ ← reject_if (negb (bool_decide (pr_mode p = Some InteractiveOwner))
                 || negb (bool_decide (pr_owner_enrollment p = Unresolved))) FreshOwnerEnrollmentRequired;
  active ← active_stage_for s OwnerEnrollmentResolution;
  _ ← reject_if (negb (bool_decide (as_effect_state active = EffectStarted)))
        (EffectNotStarted OwnerEnrollmentResolution);
  generation ← ok_or (u64_checked_add (pr_authority_generation p) 1) BootGenerationOverflow;
  owner_id ← normalize_identifier "owner id" owner_id;
  enrollment_id ← normalize_identifier "owner enrollment id" enrollment_id;
  provisioned (with_owner Enrolled (Some {| oa_owner_id := owner_id; oa_enrollment_id := enrollment_id;
                                            oa_generation := generation |}) generation true p) s.

Definition stage_is_completed (s : DurableBootstrapState) (stage : BootstrapStage) : bool :=
  bool_decide (stage ∈ bs_completed s).

Definition enroll_pending_owner_fresh (s : DurableBootstrapState) (owner_id enrollment_id : string) :
    result DurableBootstrapError DurableBootstrapState :=
  let p := bs_provisioning s in
  _ ← reject_if (present (bs_active s) || negb (stage_is_completed s OwnerEnrollmentResolution)
                 || negb (in_handoff_mode (pr_mode p))
                 || negb (bool_decide (pr_owner_enrollment p = Pending))) FreshOwnerEnrollmentRequired;
  _ ← reject_if (negb (pr_preparer_authority_retired p)) PreparerAuthorityStillActive;
  generation ← ok_or (u64_checked_add (pr_authority_generation p) 1) BootGenerationOverflow;
  owner_id ← normalize_identifier "owner id" owner_id;
  enrollment_id ← normalize_identifier "owner enrollment id" enrollment_id;
  provisioned (with_owner Enrolled (Some {| oa_owner_id := owner_id; oa_enrollment_id := enrollment_id;
                                            oa_generation := generation |}) generation
                 (pr_preparer_authority_retired p) p) s.

(** The preparer's authority ends: what follows its revocation receipt. *)
Definition enter_pending (s : DurableBootstrapState) : result DurableBootstrapError DurableBootstrapState :=
  let p := bs_provisioning s in
  active ← active_stage_for s OwnerEnrollmentResolution;
  _ ← reject_if (negb (bool_decide (as_effect_state active = EffectStarted)))
        (EffectNotStarted OwnerEnrollmentResolution);
  _ ← reject_if (negb (in_handoff_mode (pr_mode p))) OwnerPendingNotAllowed;
  _ ← reject_if (negb (bool_decide (pr_owner_enrollment p = Unresolved))) OwnerStateAlreadyResolved;
  provisioned (with_owner Pending None 0 true p) s.

Definition enter_recovery_owner_resolution (s : DurableBootstrapState) :
    result DurableBootstrapError DurableBootstrapState :=
  let p := bs_provisioning s in
  active ← active_stage_for s OwnerEnrollmentResolution;
  _ ← reject_if (negb (bool_decide (as_effect_state active = EffectStarted)))
        (EffectNotStarted OwnerEnrollmentResolution);
  _ ← reject_if (negb (bool_decide (pr_mode p = Some Recovery))) RecoveryOwnerResolutionNotAllowed;
  _ ← reject_if (negb (bool_decide (pr_owner_enrollment p = Unresolved))) OwnerStateAlreadyResolved;
  provisioned (with_owner RecoveryResolved None 0 false p) s.

(** ** Evidence of effects *)
Record BootstrapVerificationEvidence := {
  be_stage : BootstrapStage;
  be_operation_id : string;
  be_session_id : string;
  be_machine_id : string;
  be_verifier_id : string;
  be_observation_id : string;
  be_postcondition_sha256 : string;
  be_observed_unix_ms : Z;
}.

Definition completed_verification (e : BootstrapVerificationEvidence) : CompletedEffectVerification :=
  {| ce_stage := be_stage e; ce_operation_id := be_operation_id e; ce_verifier_id := be_verifier_id e;
     ce_observation_id := be_observation_id e; ce_postcondition_sha256 := be_postcondition_sha256 e;
     ce_observed_unix_ms := be_observed_unix_ms e |}.

(** The stage of an evidence that was found to be bound and fresh is complete. *)
Definition record_evidence (s : DurableBootstrapState) (active : ActiveBootstrapStage)
    (e : BootstrapVerificationEvidence) : result DurableBootstrapError DurableBootstrapState :=
  validated (with_active None
    (with_completed (bs_completed s ++ [as_stage active])
       (bs_effect_verifications s ++ [completed_verification e]) s)).
