(* ===== verification/BootstrapText.v ===== *)
(** * Durable bootstrap: manifests, states and anchors as text

    linura-bootstrap/src/durable: [manifest.rs], the formats of [codec.rs],
    [persistence.rs] (up to [parse_state]) and [anchor.rs] (up to
    [parse_generation_anchor]).  A record is a schema line, [name=value] lines
    in a fixed order and an [integrity=] line with the SHA-256 of what comes
    before it. *)

From Stdlib Require Import ZArith Lia Ascii DecimalString.
From stdpp Require Import base numbers gmap strings list fin_maps sorting.
From S2P Require Import Prelude Text Fields Digest Paths Files ControlFiles SessionIdentity.
From S2P Require Import UpdateEvidence UpdateEvidenceFacts BootstrapState.

Set Default Goal Selector "!".

Definition PROVISIONING_MANIFEST_SCHEMA : string := "linura-provisioning-manifest-v1".
Definition BOOTSTRAP_STATE_SCHEMA : string := "linura-bootstrap-state-v1".
Definition GENERATION_ANCHOR_MAGIC : string := "linura-bootstrap-generation-anchor-v2".
Definition MAX_PROVISIONING_MANIFEST_BYTES : Z := 16 * 1024.
Definition MAX_BOOTSTRAP_STATE_BYTES : Z := 64 * 1024.
Definition MAX_GENERATION_ANCHOR_BYTES : Z := 4096.

(** ** Values *)
Definition OwnerEnrollmentState_as_str (s : OwnerEnrollmentState) : string :=
  match s with
  | Unresolved => "unresolved"
  | Pending => "owner-enrollment-pending"
  | Enrolled => "enrolled"
  | RecoveryResolved => "recovery-resolved"
  end.
Definition OwnerEnrollmentState_parse (value : string) : result DurableBootstrapError OwnerEnrollmentState :=
  match value with
  | "unresolved" => Ok Unresolved
  | "owner-enrollment-pending" => Ok Pending
  | "enrolled" => Ok Enrolled
  | "recovery-resolved" => Ok RecoveryResolved
  | _ => Err (CorruptState "unknown owner-enrollment state")
  end%string.

Definition BootstrapEffectState_as_str (s : BootstrapEffectState) : string :=
  match s with PreparedStage => "prepared" | EffectStarted => "effect-started" end.
Definition BootstrapEffectState_parse (value : string) : result DurableBootstrapError BootstrapEffectState :=
  match value with
  | "prepared" => Ok PreparedStage
  | "effect-started" => Ok EffectStarted
  | _ => Err (CorruptState "unknown bootstrap effect state")
  end%string.

Definition mode_str (mode : ProvisioningMode) : string :=
  match mode with
  | InteractiveOwner => "interactive-owner"
  | PrepareForAnotherOwner => "prepare-for-another-owner"
  | UnattendedLocal => "unattended-local"
  | Recovery => "recovery"
  end.
Definition mode_of (value : string) : option ProvisioningMode :=
  match value with
  | "interactive-owner" => Some InteractiveOwner
  | "prepare-for-another-owner" => Some PrepareForAnotherOwner
  | "unattended-local" => Some UnattendedLocal
  | "recovery" => Some Recovery
  | _ => None
  end%string.
Definition parse_mode (value : string) : result DurableBootstrapError ProvisioningMode :=
  ok_or (mode_of value) (InvalidManifest "unknown provisioning mode").

Definition connectivity_str (value : BootstrapConnectivity) : string :=
  match value with Offline => "offline" | BoundedNetwork => "bounded-network" end.
Definition connectivity_of (value : string) : option BootstrapConnectivity :=
  match value with
  | "offline" => Some Offline
  | "bounded-network" => Some BoundedNetwork
  | _ => None
  end%string.
Definition parse_connectivity (value : string) : result DurableBootstrapError BootstrapConnectivity :=
  ok_or (connectivity_of value) (InvalidManifest "unknown bootstrap connectivity mode").

Definition bool_str (b : bool) : string := if b then "true" else "false".
Definition bool_of (value : string) : option bool :=
  match value with "true" => Some true | "false" => Some false | _ => None end%string.

Definition stage_str (stage : BootstrapStage) : string :=
  match stage with
  | BaseEnvironmentVerification => "base-environment-verification"
  | LinuraInstallation => "linura-installation"
  | PersistentStateInitialization => "persistent-state-initialization"
  | SecurityBaseline => "security-baseline"
  | ProvisioningModeSelection => "provisioning-mode-selection"
  | BootstrapConnectivityResolution => "bootstrap-connectivity-resolution"
  | HardwareDiscovery => "hardware-discovery"
  | SourceSelection => "source-selection"
  | TargetObservation => "target-observation"
  | FirstBootPlanning => "firstboot-planning"
  | RecoveryCheckpoint => "recovery-checkpoint"
  | OwnerEnrollmentResolution => "owner-enrollment-resolution"
  | FirstBootReady => "firstboot-ready"
  end.

Definition parse_stage (value : string) : result DurableBootstrapError BootstrapStage :=
  ok_or (List.find (λ stage, bool_decide (stage_str stage = value)) ORDERED)
    (CorruptState "unknown bootstrap stage").

(** [str::parse::<u32>]. *)
Definition u32_parse (s : string) : option Z := v ← u64_parse s; u32_try_from v.

(** A value that may be absent, written [-]. *)
Definition optional (value : option string) : string := default "-" value.
Definition read_optional {A} (read : string → result DurableBootstrapError A) (value : string) :
    result DurableBootstrapError (option A) :=
  if bool_decide (value = "-") then Ok None else a ← read value; Ok (Some a).

(** ** Records closed by their digest *)
Section text.
Context `{Crypto}.

Definition sha256_hex (s : string) : string := Digest.hex_encode (sha256 (as_bytes s)).

Definition constant_time_ascii_eq (left right : string) : bool := constant_time_hex_eq left right.

Definition with_integrity (lines : list string) : string :=
  let payload := unlines lines in
  payload +:+ "integrity=" +:+ sha256_hex payload +:+ String LF "".

(** The payload of a text whose digest is checked; the errors differ from one
    record to the other. *)
Definition integrity_record (missing malformed : DurableBootstrapError)
    (invalid mismatch : DurableBootstrapError) (text : string) : result DurableBootstrapError string :=
  index ← ok_or (rfind (String LF "integrity=") text) missing;
  let '(payload, integrity_line) := split_at (index + 1) text in
  expected ← ok_or (match strip_prefix "integrity=" integrity_line with
                    | Some value => strip_suffix LF value
                    | None => None
                    end) malformed;
  _ ← reject_if (negb (sha256_text expected)) invalid;
  _ ← reject_if (negb (constant_time_ascii_eq (sha256_hex payload) expected)) mismatch;
  Ok payload.

(** ** The manifest *)
Definition parse_exact_field (lines : list string) (name : string) :
    result DurableBootstrapError (string * list string) :=
  match lines with
  | [] => Err (InvalidManifest "manifest field is missing")
  | line :: rest =>
      value ← ok_or (strip_prefix (name +:+ "=") line)
                (InvalidManifest "manifest field order/name is invalid");
      Ok (value, rest)
  end.

Definition parse_identifier_field (lines : list string) (name : string) :
    result DurableBootstrapError (string * list string) :=
  '(value, rest) ← parse_exact_field lines name;
  value ← normalize_identifier name value;
  Ok (value, rest).

Definition parse_optional_reference (lines : list string) (name : string) :
    result DurableBootstrapError (option string * list string) :=
  '(value, rest) ← parse_exact_field lines name;
  value ← read_optional (normalize_identifier name) value;
  Ok (value, rest).

(** A byte that a manifest must not contain. *)
Definition forbidden_byte (c : N) : bool := ((c =? 0) || (c <? 32) && negb (c =? 10))%N.

Definition ProvisioningManifest_parse (bytes : string) : result DurableBootstrapError ProvisioningManifest :=
  _ ← reject_if (bool_decide (bytes = "") || (MAX_PROVISIONING_MANIFEST_BYTES <? str_len bytes)%Z)
        ManifestSizeExceeded;
  _ ← reject_if (negb (utf8_valid bytes)) (InvalidManifest "manifest must be UTF-8");
  _ ← reject_if (existsb forbidden_byte (codes bytes))
        (InvalidManifest "manifest contains forbidden control characters");
  payload ← integrity_record (InvalidManifest "manifest integrity record is missing")
              (InvalidManifest "manifest integrity record is malformed")
              (InvalidManifest "integrity must be a 64-character SHA-256 hex digest")
              ManifestIntegrityMismatch bytes;
  match lines payload with
  | [] => Err UnsupportedManifestVersion
  | schema :: l =>
      _ ← reject_if (negb (bool_decide (schema = PROVISIONING_MANIFEST_SCHEMA))) UnsupportedManifestVersion;
      '(manifest_id, l) ← parse_identifier_field l "manifest_id";
      '(session_id, l) ← parse_identifier_field l "session_id";
      '(machine_id, l) ← parse_identifier_field l "machine_id";
      '(mode, l) ← parse_exact_field l "mode";
      mode ← parse_mode mode;
      _ ← reject_if (bool_decide (mode = Recovery))
            (InvalidManifest "recovery is not selectable through Provisioning Manifest");
      '(connectivity, l) ← parse_exact_field l "connectivity";
      connectivity ← parse_connectivity connectivity;
      '(defer, l) ← parse_exact_field l "defer_owner_enrollment";
      defer_owner_enrollment ← ok_or (bool_of defer)
        (InvalidManifest "defer_owner_enrollment must be true or false");
      '(source_ref, l) ← parse_optional_reference l "source_ref";
      '(setup_ref, l) ← parse_optional_reference l "setup_ref";
      '(machine_profile_ref, l) ← parse_optional_reference l "machine_profile_ref";
      '(host_identity, l) ← parse_optional_reference l "host_identity";
      _ ← reject_if (negb (is_nil_list l))
            (InvalidManifest "manifest contains unknown or duplicate fields");
      _ ← reject_if (handoff_mode mode && negb defer_owner_enrollment)
            (InvalidManifest "non-interactive ownership handoff must defer owner enrollment");
      _ ← reject_if (bool_decide (mode = InteractiveOwner) && defer_owner_enrollment)
            (InvalidManifest "interactive-owner cannot request deferred owner enrollment");
      Ok {| pm_manifest_id := manifest_id; pm_session_id := session_id; pm_machine_id := machine_id;
            pm_mode := mode; pm_connectivity := connectivity;
            pm_defer_owner_enrollment := defer_owner_enrollment; pm_source_ref := source_ref;
            pm_setup_ref := setup_ref; pm_machine_profile_ref := machine_profile_ref;
            pm_host_identity := host_identity; pm_identity := sha256_hex payload |}
  end.

(** ** The state *)
Definition join_or_dash (l : list string) : string :=
  match l with [] => "-" | _ => String.concat "," l end.

Definition verification_str (v : CompletedEffectVerification) : string :=
  String.concat "|" [stage_str (ce_stage v); ce_operation_id v; ce_verifier_id v; ce_observation_id v;
                     ce_postcondition_sha256 v; u64_to_string (ce_observed_unix_ms v)].

(** The values of the lines, in order. *)
Definition state_values (s : DurableBootstrapState) : list (string * string) :=
  let p := bs_provisioning s in
  let active f := match bs_active s with Some a => f a | None => "-" end in
  let owner f := match pr_owner_authority p with Some o => f o | None => "-" end in
  [("generation", u64_to_string (bs_generation s));
   ("session_id", bs_session_id s);
   ("machine_id", bs_machine_id s);
   ("completed", join_or_dash (stage_str <$> bs_completed s));
   ("effect_verifications", join_or_dash (verification_str <$> bs_effect_verifications s));
   ("active_stage", active (λ a, stage_str (as_stage a)));
   ("active_operation", active as_operation_id);
   ("active_effect", active (λ a, BootstrapEffectState_as_str (as_effect_state a)));
   ("provisioning_mode", optional (mode_str <$> pr_mode p));
   ("manifest_identity", optional (pr_manifest_identity p));
   ("manifest_id", optional (pr_manifest_id p));
   ("manifest_connectivity", optional (connectivity_str <$> pr_manifest_connectivity p));
   ("manifest_defer_owner_enrollment", optional (bool_str <$> pr_manifest_defer_owner_enrollment p));
   ("manifest_source_ref", optional (pr_manifest_source_ref p));
   ("manifest_setup_ref", optional (pr_manifest_setup_ref p));
   ("manifest_machine_profile_ref", optional (pr_manifest_machine_profile_ref p));
   ("manifest_host_identity", optional (pr_manifest_host_identity p));
   ("first_boot_plan_sha256", optional (pr_first_boot_plan_sha256 p));
   ("first_boot_plan_count", u64_to_string (pr_first_boot_plan_count p));
   ("owner_enrollment", OwnerEnrollmentState_as_str (pr_owner_enrollment p));
   ("owner_id", owner oa_owner_id);
   ("owner_enrollment_id", owner oa_enrollment_id);
   ("authority_generation", u64_to_string (pr_authority_generation p));
   ("owner_authority_generation",
      match pr_owner_authority p with Some o => u64_to_string (oa_generation o) | None => "0" end);
   ("preparer_authority_retired", bool_str (pr_preparer_authority_retired p))]%string.

Definition state_lines (s : DurableBootstrapState) : list string :=
  BOOTSTRAP_STATE_SCHEMA :: map (λ '(name, value), name +:+ "=" +:+ value) (state_values s).

Definition serialize_state (s : DurableBootstrapState) : string := with_integrity (state_lines s).

Definition state_field (lines : list string) (name : string) :
    result DurableBootstrapError (string * list string) :=
  match lines with
  | [] => Err (CorruptState ("missing " +:+ name +:+ " field"))
  | line :: rest =>
      value ← ok_or (strip_prefix (name +:+ "=") line) (CorruptState ("invalid " +:+ name +:+ " field"));
      Ok (value, rest)
  end.

(** [split(',').map(parse).collect()]. *)
Fixpoint collect {A} (parse : string → result DurableBootstrapError A) (l : list string) :
    result DurableBootstrapError (list A) :=
  match l with
  | [] => Ok []
  | x :: l' => a ← parse x; r ← collect parse l'; Ok (a :: r)
  end.

Definition parse_completed (raw : string) : result DurableBootstrapError (list BootstrapStage) :=
  if bool_decide (raw = "-") then Ok []
  else
    parsed ← collect parse_stage (split "," raw);
    _ ← reject_if (length ORDERED <? length parsed)%nat (CorruptState "too many completed bootstrap stages");
    Ok parsed.

(** [fields.next()]. *)
Definition next_field (l : list string) (lacks : string) : result DurableBootstrapError (string * list string) :=
  match l with
  | [] => Err (CorruptState ("effect verification lacks " +:+ lacks))
  | value :: rest => Ok (value, rest)
  end.

Definition parse_verification (encoded : string) : result DurableBootstrapError CompletedEffectVerification :=
  '(stage, l) ← next_field (split "|" encoded) "stage";
  stage ← parse_stage stage;
  '(operation_id, l) ← next_field l "operation id";
  operation_id ← normalize_identifier "verified bootstrap operation id" operation_id;
  '(verifier_id, l) ← next_field l "verifier id";
  verifier_id ← normalize_identifier "bootstrap verifier id" verifier_id;
  '(observation_id, l) ← next_field l "observation id";
  observation_id ← normalize_identifier "bootstrap observation id" observation_id;
  '(postcondition_sha256, l) ← next_field l "postcondition digest";
  '(observed, l) ← next_field l "observation timestamp";
  observed_unix_ms ← ok_or (u64_parse observed) (CorruptState "effect verification timestamp is invalid");
  _ ← reject_if (negb (is_nil_list l)) (CorruptState "effect verification contains unexpected fields");
  let verification :=
    {| ce_stage := stage; ce_operation_id := operation_id; ce_verifier_id := verifier_id;
       ce_observation_id := observation_id; ce_postcondition_sha256 := postcondition_sha256;
       ce_observed_unix_ms := observed_unix_ms |} in
  _ ← CompletedEffectVerification_validate verification;
  Ok verification.

Definition parse_verifications (raw : string) :
    result DurableBootstrapError (list CompletedEffectVerification) :=
  if bool_decide (raw = "-") then Ok [] else collect parse_verification (split "," raw).

Definition parse_active (stage operation effect : string) :
    result DurableBootstrapError (option ActiveBootstrapStage) :=
  if bool_decide (stage = "-") && bool_decide (operation = "-") && bool_decide (effect = "-") then Ok None
  else if negb (bool_decide (stage = "-")) && negb (bool_decide (operation = "-"))
          && negb (bool_decide (effect = "-")) then
    stage ← parse_stage stage;
    operation_id ← normalize_identifier "bootstrap operation id" operation;
    effect_state ← BootstrapEffectState_parse effect;
    Ok (Some {| as_stage := stage; as_operation_id := operation_id; as_effect_state := effect_state |})
  else Err (CorruptState "active bootstrap stage fields must be present together").

Definition parse_owner_authority (owner enrollment : string) (generation : Z) :
    result DurableBootstrapError (option OwnerAuthorityRecord) :=
  if bool_decide (owner = "-") && bool_decide (enrollment = "-") && (generation =? 0)%Z then Ok None
  else if negb (bool_decide (owner = "-")) && negb (bool_decide (enrollment = "-"))
          && (0 <? generation)%Z then
    owner_id ← normalize_identifier "owner id" owner;
    enrollment_id ← normalize_identifier "owner enrollment id" enrollment;
    Ok (Some {| oa_owner_id := owner_id; oa_enrollment_id := enrollment_id; oa_generation := generation |})
  else Err (CorruptState "owner authority fields must be present together").

(** A digest in the state. *)
Definition state_digest (reason value : string) : result DurableBootstrapError string :=
  _ ← reject_if (negb (sha256_text value)) (CorruptState reason); Ok value.

(** The values of the provisioning lines. *)
Definition parse_provisioning (l : list string) :
    result DurableBootstrapError (ProvisioningState * list string) :=
  '(mode, l) ← state_field l "provisioning_mode";
  mode ← read_optional (λ v, ok_or (mode_of v) (CorruptState "unknown provisioning mode")) mode;
  '(identity, l) ← state_field l "manifest_identity";
  manifest_identity ← read_optional (state_digest "manifest identity is not SHA-256") identity;
  '(manifest_id, l) ← state_field l "manifest_id";
  manifest_id ← read_optional (normalize_identifier "manifest_id") manifest_id;
  '(connectivity, l) ← state_field l "manifest_connectivity";
  manifest_connectivity ← read_optional
    (λ v, ok_or (connectivity_of v) (CorruptState "unknown persisted manifest connectivity")) connectivity;
  '(defer, l) ← state_field l "manifest_defer_owner_enrollment";
  manifest_defer ← read_optional
    (λ v, ok_or (bool_of v) (CorruptState "invalid persisted manifest owner-defer selection")) defer;
  '(source, l) ← state_field l "manifest_source_ref";
  source_ref ← read_optional (normalize_identifier "manifest source_ref") source;
  '(setup, l) ← state_field l "manifest_setup_ref";
  setup_ref ← read_optional (normalize_identifier "manifest setup_ref") setup;
  '(profile, l) ← state_field l "manifest_machine_profile_ref";
  machine_profile_ref ← read_optional (normalize_identifier "manifest machine_profile_ref") profile;
  '(host, l) ← state_field l "manifest_host_identity";
  host_identity ← read_optional (normalize_identifier "manifest host_identity") host;
  '(plan, l) ← state_field l "first_boot_plan_sha256";
  plan_sha256 ← read_optional (state_digest "invalid First Boot plan SHA-256 binding") plan;
  '(count, l) ← state_field l "first_boot_plan_count";
  plan_count ← ok_or (u32_parse count) (CorruptState "invalid First Boot plan count");
  '(owner, l) ← state_field l "owner_enrollment";
  owner_enrollment ← OwnerEnrollmentState_parse owner;
  '(owner_id, l) ← state_field l "owner_id";
  '(enrollment_id, l) ← state_field l "owner_enrollment_id";
  '(authority, l) ← state_field l "authority_generation";
  authority_generation ← ok_or (u64_parse authority) (CorruptState "invalid authority generation");
  '(owner_generation, l) ← state_field l "owner_authority_generation";
  owner_generation ← ok_or (u64_parse owner_generation) (CorruptState "invalid owner authority generation");
  '(retired, l) ← state_field l "preparer_authority_retired";
  retired ← ok_or (bool_of retired) (CorruptState "invalid preparer-authority-retired flag");
  _ ← reject_if (negb (is_nil_list l)) (CorruptState "unexpected durable bootstrap state field");
  owner_authority ← parse_owner_authority owner_id enrollment_id owner_generation;
  Ok ({| pr_mode := mode; pr_manifest_identity := manifest_identity; pr_manifest_id := manifest_id;
         pr_manifest_connectivity := manifest_connectivity;
         pr_manifest_defer_owner_enrollment := manifest_defer; pr_manifest_source_ref := source_ref;
         pr_manifest_setup_ref := setup_ref; pr_manifest_machine_profile_ref := machine_profile_ref;
         pr_manifest_host_identity := host_identity; pr_first_boot_plan_sha256 := plan_sha256;
         pr_first_boot_plan_count := plan_count; pr_owner_enrollment := owner_enrollment;
         pr_owner_authority := owner_authority; pr_authority_generation := authority_generation;
         pr_preparer_authority_retired := retired |}, l).

Definition parse_state (bytes : string) : result DurableBootstrapError DurableBootstrapState :=
  _ ← reject_if (negb (utf8_valid bytes)) (CorruptState "state is not UTF-8");
  payload ← integrity_record (CorruptState "state integrity record is missing")
              (CorruptState "invalid integrity record") (CorruptState "invalid state integrity digest")
              StateIntegrityMismatch bytes;
  match lines payload with
  | [] => Err UnsupportedStateVersion
  | schema :: l =>
      _ ← reject_if (negb (bool_decide (schema = BOOTSTRAP_STATE_SCHEMA))) UnsupportedStateVersion;
      '(generation, l) ← state_field l "generation";
      generation ← ok_or (u64_parse generation) (CorruptState "invalid generation");
      '(session_id, l) ← state_field l "session_id";
      session_id ← normalize_identifier "bootstrap session id" session_id;
      '(machine_id, l) ← state_field l "machine_id";
      machine_id ← normalize_identifier "machine id" machine_id;
      '(completed, l) ← state_field l "completed";
      completed ← parse_completed completed;
      '(verifications, l) ← state_field l "effect_verifications";
      effect_verifications ← parse_verifications verifications;
      '(stage, l) ← state_field l "active_stage";
      '(operation, l) ← state_field l "active_operation";
      '(effect, l) ← state_field l "active_effect";
      active ← parse_active stage operation effect;
      '(provisioning, _) ← parse_provisioning l;
      validated {| bs_generation := generation; bs_session_id := session_id; bs_machine_id := machine_id;
                   bs_completed := completed; bs_effect_verifications := effect_verifications;
                   bs_active := active; bs_provisioning := provisioning |}
  end.

(** ** Generation anchors *)
Record GenerationAnchor := {
  ga_committed_generation : Z;
  ga_committed_state_sha256 : string;
  ga_pending_generation : option Z;
  ga_pending_state_sha256 : option string;
}.

Definition bootstrap_state_digest (s : DurableBootstrapState) : string := sha256_hex (serialize_state s).

Definition anchor_committed (s : DurableBootstrapState) : GenerationAnchor :=
  {| ga_committed_generation := bs_generation s; ga_committed_state_sha256 := bootstrap_state_digest s;
     ga_pending_generation := None; ga_pending_state_sha256 := None |}.

Definition anchor_with_pending (current candidate : DurableBootstrapState) :
    result DurableBootstrapError GenerationAnchor :=
  _ ← reject_if (negb (bs_generation candidate =? u64_saturating_add (bs_generation current) 1)%Z)
        (CorruptGenerationAnchor "pending anchor transition is not the next ledger generation");
  Ok {| ga_committed_generation := bs_generation current;
        ga_committed_state_sha256 := bootstrap_state_digest current;
        ga_pending_generation := Some (bs_generation candidate);
        ga_pending_state_sha256 := Some (bootstrap_state_digest candidate) |}.

Definition validate_anchor_sha256 (value : string) : result DurableBootstrapError unit :=
  reject_if (negb (sha256_text value))
    (CorruptGenerationAnchor "generation anchor contains an invalid state SHA-256").

Definition GenerationAnchor_validate (a : GenerationAnchor) : result DurableBootstrapError unit :=
  _ ← validate_anchor_sha256 (ga_committed_state_sha256 a);
  match ga_pending_generation a, ga_pending_state_sha256 a with
  | None, None => Ok tt
  | Some generation, Some digest =>
      _ ← reject_if (negb (generation =? u64_saturating_add (ga_committed_generation a) 1)%Z)
            (CorruptGenerationAnchor "pending generation does not immediately follow committed generation");
      validate_anchor_sha256 digest
  | _, _ => Err (CorruptGenerationAnchor "pending generation/digest must be present together")
  end.

Definition anchor_lines (a : GenerationAnchor) : list string :=
  [GENERATION_ANCHOR_MAGIC;
   "committed_generation=" +:+ u64_to_string (ga_committed_generation a);
   "committed_state_sha256=" +:+ ga_committed_state_sha256 a;
   "pending_generation=" +:+ optional (u64_to_string <$> ga_pending_generation a);
   "pending_state_sha256=" +:+ optional (ga_pending_state_sha256 a)].

Definition serialize_generation_anchor (a : GenerationAnchor) : string := with_integrity (anchor_lines a).

(** [lines.next().and_then(strip_prefix)]. *)
Definition anchor_field (lines : list string) (prefix lacks : string) :
    result DurableBootstrapError (string * list string) :=
  match lines with
  | [] => Err (CorruptGenerationAnchor ("generation anchor lacks " +:+ lacks))
  | line :: rest =>
      value ← ok_or (strip_prefix prefix line)
                (CorruptGenerationAnchor ("generation anchor lacks " +:+ lacks));
      Ok (value, rest)
  end.

Definition parse_generation_anchor (bytes : string) : result DurableBootstrapError GenerationAnchor :=
  _ ← reject_if (MAX_GENERATION_ANCHOR_BYTES <? str_len bytes)%Z
        (CorruptGenerationAnchor "generation anchor exceeds the supported byte bound");
  _ ← reject_if (negb (utf8_valid bytes)) (CorruptGenerationAnchor "generation anchor is not UTF-8");
  payload ← integrity_record
              (CorruptGenerationAnchor "generation anchor integrity record is missing")
              (CorruptGenerationAnchor "generation anchor integrity record is malformed")
              (CorruptGenerationAnchor "generation anchor contains an invalid state SHA-256")
              GenerationAnchorIntegrityMismatch bytes;
  match lines payload with
  | [] => Err UnsupportedGenerationAnchorVersion
  | magic :: l =>
      _ ← reject_if (negb (bool_decide (magic = GENERATION_ANCHOR_MAGIC)))
            UnsupportedGenerationAnchorVersion;
      '(committed, l) ← anchor_field l "committed_generation=" "committed generation";
      committed_generation ← ok_or (u64_parse committed)
        (CorruptGenerationAnchor "generation anchor contains an invalid committed generation");
      '(committed_state_sha256, l) ← anchor_field l "committed_state_sha256=" "committed state digest";
      '(pending, l) ← anchor_field l "pending_generation=" "pending generation";
      '(pending_digest, l) ← anchor_field l "pending_state_sha256=" "pending state digest";
      _ ← reject_if (negb (is_nil_list l))
            (CorruptGenerationAnchor "generation anchor contains unexpected fields");
      pending_generation ← read_optional (λ v, ok_or (u64_parse v)
        (CorruptGenerationAnchor "generation anchor contains an invalid pending generation")) pending;
      pending_state_sha256 ← read_optional Ok pending_digest;
      let anchor := {| ga_committed_generation := committed_generation;
                       ga_committed_state_sha256 := committed_state_sha256;
                       ga_pending_generation := pending_generation;
                       ga_pending_state_sha256 := pending_state_sha256 |} in
      _ ← GenerationAnchor_validate anchor;
      Ok anchor
  end.
End text.

(** ** Text that is read back *)
Lemma lower_text_hexdigits s : forallb is_lower_hex (codes s) = true → all_hexdigits s = true.
Proof.
  unfold all_hexdigits, codes. induction (String.list_ascii_of_string s) as [|a l IH]; [done|].
  cbn. intros [Ha Hl]%andb_prop. by rewrite lower_hex_ascii_hexdigit, IH.
Qed.

Lemma hexdigit_graphic a : is_ascii_hexdigit a = true → graphic (Ascii.N_of_ascii a) = true.
Proof.
  unfold is_ascii_hexdigit. rewrite bool_decide_eq_true. intros [v Hv]. unfold hex_value in Hv.
  unfold graphic. apply andb_true_iff. rewrite !N.leb_le.
  repeat (destruct (_ && _) eqn:E in Hv; [apply andb_prop in E as [E1%N.leb_le E2%N.leb_le]; lia|clear E]). done.
Qed.

Lemma hexdigits_graphic s : all_hexdigits s = true → all_graphic s = true.
Proof.
  unfold all_hexdigits, all_graphic, codes. induction (String.list_ascii_of_string s) as [|a l IH]; [done|].
  cbn. intros [Ha Hl]%andb_prop. by rewrite hexdigit_graphic, IH.
Qed.

Lemma hexdigit_not a : is_ascii_hexdigit a = true → a ≠ "="%char ∧ a ≠ LF ∧ a ≠ ","%char ∧ a ≠ "|"%char.
Proof. intros H. split_and!; intros ->; by vm_compute in H. Qed.

Lemma hexdigits_free c s :
  all_hexdigits s = true → is_ascii_hexdigit c = false → free c s.
Proof.
  intros Hs Hc. apply free_elem. unfold all_hexdigits in Hs. rewrite forallb_forall in Hs.
  intros Hin%list_elem_of_In. apply Hs in Hin. congruence.
Qed.

Lemma sha256_text_graphic s : sha256_text s = true → all_graphic s = true.
Proof. intros [_ H]%andb_prop. by apply hexdigits_graphic. Qed.

Lemma sha256_text_not_dash s : sha256_text s = true → s ≠ "-".
Proof. intros [H%Nat.eqb_eq _]%andb_prop ->. done. Qed.

Section records.
Context `{CryptoLaws}.

Lemma sha256_hex_text s : sha256_text (sha256_hex s) = true.
Proof.
  unfold sha256_text, sha256_hex. rewrite hex_encode_length, sha256_length.
  by rewrite lower_text_hexdigits by apply hex_encode_lower.
Qed.

(** A text of lines ends with a line feed. *)
Lemma unlines_end x l : ∃ p, unlines (x :: l) = p +:+ String LF "".
Proof.
  revert x. induction l as [|y l IH]; intros x; [by exists x|]. destruct (IH y) as [p Hp].
  change (unlines (x :: y :: l)) with (x +:+ String LF "" +:+ unlines (y :: l)). rewrite Hp.
  exists (x +:+ String LF "" +:+ p). by rewrite !string_app_assoc.
Qed.

Lemma rfind_integrity_line t :
  avoids "=" t → rfind (String LF "integrity=") (String LF "integrity=" +:+ t) = Some O.
Proof.
  intros (c & Hc & Ht). apply rfind_closing. cbn [String.append].
  repeat (apply rfind_cons_None; [|done]). apply rfind_avoids. exists c. split; [|done].
  cbn in *. set_solver.
Qed.

Lemma digest_avoids s : sha256_text s = true → avoids "=" (s +:+ String LF "").
Proof.
  intros [_ Hs]%andb_prop. exists "="%char. split; [cbn; set_solver|]. rewrite list_ascii_app. cbn.
  pose proof (hexdigits_free "="%char s Hs eq_refl) as Hf. rewrite free_elem in Hf. set_solver.
Qed.

Lemma integrity_record_ok e1 e2 e3 e4 x l :
  integrity_record e1 e2 e3 e4 (with_integrity (x :: l)) = Ok (unlines (x :: l)).
Proof.
  unfold integrity_record, with_integrity. destruct (unlines_end x l) as [p Hp]. rewrite Hp.
  set (payload := p +:+ String LF ""). set (d := sha256_hex payload).
  assert (sha256_text d = true) as Hd by apply sha256_hex_text.
  assert (payload +:+ "integrity=" +:+ d +:+ String LF ""
    = p +:+ (String LF "integrity=" +:+ d +:+ String LF "")) as ->.
  { unfold payload. by rewrite string_app_assoc. }
  rewrite (rfind_app _ _ _ 0) by (by apply rfind_integrity_line, digest_avoids). cbn [ok_or].
  cbv [mbind result_bind]. rewrite Nat.add_0_r.
  change (String LF "integrity=" +:+ d +:+ String LF "")
    with (String LF "" +:+ "integrity=" +:+ d +:+ String LF "").
  rewrite <- string_app_assoc. change (p +:+ String LF "") with payload.
  replace (String.length p + 1)%nat with (String.length payload)
    by (unfold payload; by rewrite length_string_app).
  rewrite split_at_app, strip_prefix_app, strip_suffix_app. cbn [ok_or].
  rewrite Hd. cbn [negb reject_if]. unfold constant_time_ascii_eq.
  by rewrite (proj2 (constant_time_hex_eq_spec _ _)).
Qed.

Lemma with_integrity_utf8 l :
  Forall (λ s, all_graphic s = true) l → utf8_valid (with_integrity l) = true.
Proof.
  intros Hl. apply utf8_valid_ascii.
  change (ascii_text (unlines l +:+ "integrity=" +:+ sha256_hex (unlines l) +:+ String LF "") = true).
  rewrite !ascii_text_app, ascii_unlines, (graphic_ascii (sha256_hex _))
    by (first [by apply sha256_text_graphic, sha256_hex_text|eapply Forall_impl; [exact Hl|by apply graphic_ascii]]).
  done.
Qed.

Lemma graphic_lines l : Forall (λ s, all_graphic s = true) l → lines (unlines l) = l.
Proof. intros Hl. apply lines_unlines. eapply Forall_impl; [exact Hl|]. apply graphic_plain_line. Qed.

(** What is accepted is closed by its digest. *)
Lemma integrity_record_Ok e1 e2 e3 e4 text payload :
  integrity_record e1 e2 e3 e4 text = Ok payload →
  text = payload +:+ "integrity=" +:+ sha256_hex payload +:+ String LF "".
Proof.
  unfold integrity_record. intros (index & _ & Hr)%bind_Ok.
  destruct (split_at (index + 1) text) as [pl line] eqn:Es. apply split_at_eq in Es as ->.
  apply bind_Ok in Hr as (d & Ht%ok_or_Ok & Hr).
  destruct (strip_prefix "integrity=" line) as [v|] eqn:Ep; [|done].
  apply strip_prefix_Some in Ep as ->. apply strip_suffix_Some in Ht as ->.
  apply bind_Ok in Hr as (? & _ & Hr). apply bind_Ok in Hr as (? & Hr & [= <-]).
  apply reject_if_Ok, negb_false_iff, constant_time_hex_eq_spec in Hr as <-. done.
Qed.
End records.

(** ** Identifiers *)
Definition identifier (s : string) : Prop := ∀ label, normalize_identifier label s = Ok s.
(** One that a record does not confuse with an absent value. *)
Definition plain_identifier (s : string) : Prop := s ≠ "-" ∧ identifier s.

Lemma boot_normalize_identifier_Ok label v s : normalize_identifier label v = Ok s → s = v ∧ identifier s.
Proof.
  unfold identifier, normalize_identifier. intros (? & Hr%reject_if_Ok & [= <-])%bind_Ok. split; [done|].
  intros label'. by rewrite Hr.
Qed.

Lemma bootstrap_byte_graphic c : bootstrap_byte c = true → graphic c = true.
Proof.
  unfold bootstrap_byte, graphic. intros Hc. apply andb_true_iff. rewrite !N.leb_le.
  repeat (apply orb_prop in Hc as [Hc|Hc]); try (apply N.eqb_eq in Hc; lia);
    apply andb_prop in Hc as [H1%N.leb_le H2%N.leb_le]; lia.
Qed.

Lemma identifier_bytes s : identifier s → forallb bootstrap_byte (codes s) = true.
Proof.
  intros Hs. specialize (Hs ""). unfold normalize_identifier in Hs.
  apply bind_Ok in Hs as (? & Hr%reject_if_Ok & _). by apply orb_false_iff in Hr as [_ Hr%negb_false_iff].
Qed.

Lemma boot_identifier_graphic s : identifier s → all_graphic s = true.
Proof.
  intros Hs%identifier_bytes. unfold all_graphic. induction (codes s) as [|c l IH]; [done|]. cbn in *.
  apply andb_prop in Hs as [Hc Hl]. by rewrite bootstrap_byte_graphic, IH.
Qed.

Lemma identifier_free c s : identifier s → bootstrap_byte (Ascii.N_of_ascii c) = false → free c s.
Proof. intros Hs%identifier_bytes Hc. by apply (forallb_codes_free bootstrap_byte). Qed.

(** ** Lists of values *)
Lemma split_concat c l :
  l ≠ [] → Forall (free c) l → split c (String.concat (String c "") l) = l.
Proof.
  intros Hne Hl. induction Hl as [|x l Hx Hl IH]; [done|]. destruct l as [|y l]; [by apply split_free|].
  change (String.concat (String c "") (x :: y :: l))
    with (x +:+ String c "" +:+ String.concat (String c "") (y :: l)).
  change (String c "" +:+ String.concat (String c "") (y :: l))
    with (String c (String.concat (String c "") (y :: l))).
  rewrite split_app by done. by rewrite IH.
Qed.

Lemma concat_graphic c l :
  graphic (Ascii.N_of_ascii c) = true → Forall (λ s, all_graphic s = true) l →
  all_graphic (String.concat (String c "") l) = true.
Proof.
  intros Hc Hl. induction Hl as [|x l Hx Hl IH]; [done|]. destruct l as [|y l]; [done|].
  change (String.concat (String c "") (x :: y :: l))
    with (x +:+ String c "" +:+ String.concat (String c "") (y :: l)).
  rewrite !all_graphic_app, Hx, IH. by rewrite andb_true_r; cbn; rewrite Hc.
Qed.

Lemma concat_free c d l :
  c ≠ d → Forall (free c) l → free c (String.concat (String d "") l).
Proof.
  intros Hc Hl. induction Hl as [|x l Hx Hl IH]; [done|]. destruct l as [|y l]; [done|].
  change (String.concat (String d "") (x :: y :: l))
    with (x +:+ String d "" +:+ String.concat (String d "") (y :: l)).
  rewrite !free_app. split_and!; try done. apply free_elem. cbn. set_solver.
Qed.

Lemma collect_ok {A} (parse : string → result DurableBootstrapError A) str l :
  Forall (λ a, parse (str a) = Ok a) l → collect parse (str <$> l) = Ok l.
Proof. induction 1 as [|a l Ha Hl IH]; [done|]. cbn. rewrite Ha. cbn. by rewrite IH. Qed.

Lemma collect_Ok {A} (parse : string → result DurableBootstrapError A) (P : A → Prop) l r :
  (∀ x a, parse x = Ok a → P a) → collect parse l = Ok r → Forall P r.
Proof.
  intros HP. revert r. induction l as [|x l IH]; intros r; cbn; [by intros [= <-]|].
  intros (a & Ha & (r' & Hr & [= <-])%bind_Ok)%bind_Ok. constructor; eauto.
Qed.

(** A joined list is not an absent one. *)
Lemma join_split {A} (str : A → string) l :
  l ≠ [] → Forall (λ a, free "," (str a) ∧ str a ≠ "-") l →
  join_or_dash (str <$> l) ≠ "-" ∧ split "," (join_or_dash (str <$> l)) = str <$> l.
Proof.
  intros Hne Hl. destruct l as [|a l]; [done|]. cbn [fmap list_fmap join_or_dash].
  assert (split "," (String.concat "," (str a :: (str <$> l))) = str a :: (str <$> l)) as Hs.
  { apply split_concat; [done|]. change (Forall (free ",") (str <$> (a :: l))). rewrite Forall_fmap.
    eapply Forall_impl; [exact Hl|]. by intros x []. }
  split; [|exact Hs]. intros E. rewrite E in Hs. change (split "," "-") with ["-"%string] in Hs.
  injection Hs as Hs _. inversion_clear Hl. naive_solver.
Qed.

(** ** Values *)
Lemma read_optional_ok {A} (read : string → result DurableBootstrapError A) str o :
  (∀ a, o = Some a → str a ≠ "-" ∧ read (str a) = Ok a) → read_optional read (optional (str <$> o)) = Ok o.
Proof.
  unfold read_optional. destruct o as [a|]; cbn; [|done]. intros Ha. destruct (Ha a eq_refl) as [Hd Hr].
  rewrite bool_decide_eq_false_2 by done. by rewrite Hr.
Qed.

Lemma read_optional_text read (o : option string) :
  (∀ a, o = Some a → a ≠ "-" ∧ read a = Ok a) → read_optional read (optional o) = Ok o.
Proof. intros Ho. pose proof (read_optional_ok read id o Ho) as H. by destruct o. Qed.

Lemma read_optional_Ok {A} (read : string → result DurableBootstrapError A) v o :
  read_optional read v = Ok o → match o with Some a => v ≠ "-" ∧ read v = Ok a | None => True end.
Proof.
  unfold read_optional. case_bool_decide as Hv; [by intros [= <-]|]. intros (a & Ha & [= <-])%bind_Ok. done.
Qed.

Lemma parse_stage_str stage : parse_stage (stage_str stage) = Ok stage.
Proof. by destruct stage. Qed.
Lemma stage_str_text stage : all_graphic (stage_str stage) = true ∧ free "," (stage_str stage)
  ∧ free "|" (stage_str stage) ∧ stage_str stage ≠ "-".
Proof. by destruct stage. Qed.

Lemma u64_text_parse v : is_u64 v → u64_parse (u64_to_string v) = Some v.
Proof. intros Hv. by apply (proj2 (u64_parse_canonical _ _) (conj Hv eq_refl)). Qed.
Lemma u64_parse_range s v : u64_parse s = Some v → is_u64 v.
Proof.
  unfold u64_parse. destruct (NilZero.uint_of_string _) as [d|]; [|done].
  destruct (Z.leb_spec (Z.of_N (N.of_uint d)) u64_max); [|done]. intros [= <-]. unfold is_u64. lia.
Qed.
Lemma u64_text_free c v : is_ascii_digit (Ascii.N_of_ascii c) = false → free c (u64_to_string v).
Proof.
  intros Hc. apply (forallb_codes_free is_ascii_digit); [|done].
  change (all_digits (u64_to_string v) = true). unfold u64_to_string.
  destruct (N.to_uint (Z.to_N v)) eqn:E; [done|..]; apply uint_all_digits.
Qed.

Definition is_u32 (v : Z) : Prop := (0 ≤ v ≤ u32_max)%Z.
Lemma u32_parse_text v : is_u32 v → u32_parse (u64_to_string v) = Some v.
Proof.
  intros [H1 H2]. unfold u32_parse. assert (u32_max ≤ u64_max)%Z by done.
  rewrite u64_text_parse by (split; lia). cbn. unfold u32_try_from.
  by rewrite (proj2 (Z.leb_le _ _)).
Qed.
Lemma u32_parse_range s v : u32_parse s = Some v → is_u32 v.
Proof.
  unfold u32_parse. intros (w & Hw%u64_parse_range & Hv)%bind_Some. unfold u32_try_from in Hv.
  destruct (Z.leb_spec w u32_max); [|done]. injection Hv as <-. destruct Hw. by split.
Qed.

(** ** States that are read back *)
Record provisioning_ok (p : ProvisioningState) : Prop := {
  po_identity d : pr_manifest_identity p = Some d → sha256_text d = true;
  po_manifest_id i : pr_manifest_id p = Some i → plain_identifier i;
  po_source i : pr_manifest_source_ref p = Some i → plain_identifier i;
  po_setup i : pr_manifest_setup_ref p = Some i → plain_identifier i;
  po_profile i : pr_manifest_machine_profile_ref p = Some i → plain_identifier i;
  po_host i : pr_manifest_host_identity p = Some i → plain_identifier i;
  po_count : is_u32 (pr_first_boot_plan_count p);
  po_generation : is_u64 (pr_authority_generation p);
  po_owner o : pr_owner_authority p = Some o →
    plain_identifier (oa_owner_id o) ∧ plain_identifier (oa_enrollment_id o)
    ∧ (0 < oa_generation o ≤ u64_max)%Z;
}.

Record state_shape (s : DurableBootstrapState) : Prop := {
  ss_valid : DurableBootstrapState_validate s = Ok tt;
  ss_generation : is_u64 (bs_generation s);
  ss_times : Forall (λ v, is_u64 (ce_observed_unix_ms v)) (bs_effect_verifications s);
  ss_provisioning : provisioning_ok (bs_provisioning s);
}.
(** An identifier may be a dash, which in the line of the active operation
    stands for its absence. *)
Definition operation_named (s : DurableBootstrapState) : Prop :=
  ∀ a, bs_active s = Some a → as_operation_id a ≠ "-".
Definition state_ok (s : DurableBootstrapState) : Prop := state_shape s ∧ operation_named s.

(** What a valid state is made of. *)
Lemma lineage_Ok stages vs :
  validate_lineage stages vs = Ok tt → Forall (λ v, CompletedEffectVerification_validate v = Ok tt) vs.
Proof.
  revert vs. induction stages as [|stage l IH]; intros [|v vs]; cbn; try done.
  intros (? & _ & ([] & Hv & Hl)%bind_Ok)%bind_Ok. constructor; eauto.
Qed.

Record valid_parts (s : DurableBootstrapState) : Prop := {
  vp_length : (length (bs_completed s) ≤ length ORDERED)%nat;
  vp_prefix : canonical_prefix ORDERED (bs_completed s) = true;
  vp_lineage : validate_lineage
    (filter (λ stage, stage_requires_effect_boundary stage = true) (bs_completed s))
    (bs_effect_verifications s) = Ok tt;
  vp_active a : bs_active s = Some a → next_stage s = Some (as_stage a) ∧ identifier (as_operation_id a);
  vp_session : identifier (bs_session_id s);
  vp_machine : identifier (bs_machine_id s);
  vp_provisioning : ProvisioningState_validate (bs_provisioning s) = Ok tt;
}.

Lemma validate_parts s : DurableBootstrapState_validate s = Ok tt → valid_parts s.
Proof.
  unfold DurableBootstrapState_validate.
  intros (? & Hlen%reject_if_Ok%Nat.ltb_ge & (? & Hpre%reject_if_Ok%negb_false_iff & ([] & Hlin &
    (? & Ha & (? & _ & (? & _ & (? & _ & (? & Hs & (? & Hm & Hp)%bind_Ok)%bind_Ok)%bind_Ok)%bind_Ok)%bind_Ok)
    %bind_Ok)%bind_Ok)%bind_Ok)%bind_Ok.
  constructor; try done.
  - intros a Ea. rewrite Ea in Ha.
    apply bind_Ok in Ha as (? & Hn%reject_if_Ok%negb_false_iff%bool_decide_eq_true & (? & Hi & _)%bind_Ok).
    apply boot_normalize_identifier_Ok in Hi as [-> Hi]. done.
  - by apply boot_normalize_identifier_Ok in Hs as [-> Hs].
  - by apply boot_normalize_identifier_Ok in Hm as [-> Hm].
Qed.

Lemma plan_digest_Ok p d :
  ProvisioningState_validate p = Ok tt → pr_first_boot_plan_sha256 p = Some d → sha256_text d = true.
Proof.
  unfold ProvisioningState_validate.
  intros (? & _ & (? & _ & (? & _ & (? & _ & (? & Hd & _)%bind_Ok)%bind_Ok)%bind_Ok)%bind_Ok)%bind_Ok Ed.
  rewrite Ed in Hd. by apply reject_if_Ok, negb_false_iff in Hd.
Qed.

Record verification_ok (v : CompletedEffectVerification) : Prop := {
  vo_operation : identifier (ce_operation_id v);
  vo_verifier : identifier (ce_verifier_id v);
  vo_observation : identifier (ce_observation_id v);
  vo_digest : sha256_text (ce_postcondition_sha256 v) = true;
}.
Lemma verification_validate_ok v : CompletedEffectVerification_validate v = Ok tt → verification_ok v.
Proof.
  unfold CompletedEffectVerification_validate.
  intros (? & _ & (? & H1%boot_normalize_identifier_Ok & (? & H2%boot_normalize_identifier_Ok &
    (? & H3%boot_normalize_identifier_Ok & H4%reject_if_Ok)%bind_Ok)%bind_Ok)%bind_Ok)%bind_Ok.
  apply orb_false_iff in H4 as [H4%negb_false_iff _]. destruct H1 as [-> ?], H2 as [-> ?], H3 as [-> ?].
  by constructor.
Qed.

Lemma verification_fields v :
  verification_ok v →
  Forall (λ x, all_graphic x = true ∧ free "|" x ∧ free "," x)
    [stage_str (ce_stage v); ce_operation_id v; ce_verifier_id v; ce_observation_id v;
     ce_postcondition_sha256 v; u64_to_string (ce_observed_unix_ms v)].
Proof.
  intros [H1 H2 H3 H4]. destruct (stage_str_text (ce_stage v)) as (? & ? & ? & _).
  assert (∀ i, identifier i → all_graphic i = true ∧ free "|" i ∧ free "," i) as Hi.
  { intros i Hid. split_and!; [by apply boot_identifier_graphic|by apply identifier_free..]. }
  repeat constructor; try done; try (by apply Hi).
  - by apply sha256_text_graphic.
  - apply andb_prop in H4 as [_ H4]. by apply hexdigits_free.
  - apply andb_prop in H4 as [_ H4]. by apply hexdigits_free.
  - apply u64_text_graphic.
  - by apply u64_text_free.
  - by apply u64_text_free.
Qed.

Lemma parse_verification_ok v :
  CompletedEffectVerification_validate v = Ok tt → is_u64 (ce_observed_unix_ms v) →
  parse_verification (verification_str v) = Ok v.
Proof.
  intros Hv Ht. pose proof (verification_validate_ok v Hv) as Ho. pose proof Ho as [H1 H2 H3 _].
  unfold parse_verification, verification_str. rewrite split_concat; [|done|].
  2: { eapply Forall_impl; [exact (verification_fields v Ho)|]. by intros x (_ & ? & _). }
  cbv [mbind result_bind next_field]. rewrite parse_stage_str. cbv beta iota.
  rewrite H1. cbv beta iota. rewrite H2. cbv beta iota. rewrite H3. cbv beta iota.
  rewrite u64_text_parse by done. cbn [ok_or is_nil_list negb reject_if]. destruct v. cbn in *. by rewrite Hv.
Qed.

Lemma verification_text v :
  verification_ok v → all_graphic (verification_str v) = true ∧ free "," (verification_str v)
    ∧ verification_str v ≠ "-".
Proof.
  intros Ho. pose proof (verification_fields v Ho) as Hf. split_and!.
  - apply concat_graphic; [done|]. eapply Forall_impl; [exact Hf|]. by intros x (? & _).
  - apply concat_free; [done|]. eapply Forall_impl; [exact Hf|]. by intros x (_ & _ & ?).
  - intros E. apply (f_equal String.length) in E. unfold verification_str in E.
    destruct (ce_stage v); done.
Qed.

Lemma parse_completed_ok c :
  (length c ≤ length ORDERED)%nat → parse_completed (join_or_dash (stage_str <$> c)) = Ok c.
Proof.
  intros Hl. unfold parse_completed. destruct (decide (c = [])) as [->|Hne]; [done|].
  destruct (join_split stage_str c Hne) as [Hd Hs].
  { apply Forall_true. intros x. pose proof (stage_str_text x). naive_solver. }
  rewrite bool_decide_eq_false_2, Hs, collect_ok by first [done|apply Forall_true, parse_stage_str].
  cbv [mbind result_bind]. by rewrite (proj2 (Nat.ltb_ge _ _)).
Qed.

Lemma parse_verifications_ok vs :
  Forall (λ v, CompletedEffectVerification_validate v = Ok tt) vs →
  Forall (λ v, is_u64 (ce_observed_unix_ms v)) vs →
  parse_verifications (join_or_dash (verification_str <$> vs)) = Ok vs.
Proof.
  intros Hv Ht. unfold parse_verifications. destruct (decide (vs = [])) as [->|Hne]; [done|].
  destruct (join_split verification_str vs Hne) as [Hd Hs].
  { eapply Forall_impl; [exact Hv|]. intros v H%verification_validate_ok%verification_text. naive_solver. }
  rewrite bool_decide_eq_false_2, Hs by done. apply collect_ok.
  rewrite Forall_forall in Hv, Ht |- *. intros v Hin. apply parse_verification_ok; auto.
Qed.

Lemma parse_active_ok a :
  (∀ x, a = Some x → as_operation_id x ≠ "-" ∧ identifier (as_operation_id x)) →
  let get f := match a with Some x => f x | None => "-" end in
  parse_active (get (λ x, stage_str (as_stage x))) (get as_operation_id)
    (get (λ x, BootstrapEffectState_as_str (as_effect_state x))) = Ok a.
Proof.
  destruct a as [[stage op effect]|]; [|done]. intros Ha. destruct (Ha _ eq_refl) as [Hd Hi]. cbn in *.
  unfold parse_active. destruct (stage_str_text stage) as (_ & _ & _ & Hs).
  rewrite !(bool_decide_eq_false_2 (_ = "-")) by (first [done|by destruct effect]). cbn.
  rewrite parse_stage_str. cbn. rewrite Hi. by destruct effect.
Qed.

Lemma parse_owner_authority_ok o :
  (∀ x, o = Some x → plain_identifier (oa_owner_id x) ∧ plain_identifier (oa_enrollment_id x)
    ∧ (0 < oa_generation x ≤ u64_max)%Z) →
  let get f := match o with Some x => f x | None => "-" end in
  parse_owner_authority (get oa_owner_id) (get oa_enrollment_id)
    (match o with Some x => oa_generation x | None => 0 end)%Z = Ok o.
Proof.
  destruct o as [[owner enrollment generation]|]; [|done]. intros Ho.
  destruct (Ho _ eq_refl) as ([H1 H2] & [H3 H4] & [H5 _]). cbn in *. unfold parse_owner_authority.
  rewrite !(bool_decide_eq_false_2 (_ = "-")), (proj2 (Z.ltb_lt _ _)) by done. cbn. rewrite H2. cbn. by rewrite H4.
Qed.

Lemma state_field_ok name value rest :
  state_field ((name +:+ "=" +:+ value) :: rest) name = Ok (value, rest).
Proof. unfold state_field. by rewrite <- string_app_assoc, strip_prefix_app. Qed.

Lemma mode_text m : mode_str m ≠ "-" ∧ mode_of (mode_str m) = Some m ∧ all_graphic (mode_str m) = true.
Proof. by destruct m. Qed.
Lemma connectivity_text c :
  connectivity_str c ≠ "-" ∧ connectivity_of (connectivity_str c) = Some c ∧ all_graphic (connectivity_str c) = true.
Proof. by destruct c. Qed.
Lemma bool_text b : bool_str b ≠ "-" ∧ bool_of (bool_str b) = Some b ∧ all_graphic (bool_str b) = true.
Proof. by destruct b. Qed.
Lemma owner_state_text o :
  OwnerEnrollmentState_parse (OwnerEnrollmentState_as_str o) = Ok o
  ∧ all_graphic (OwnerEnrollmentState_as_str o) = true.
Proof. by destruct o. Qed.

Lemma read_reference label (o : option string) :
  (∀ i, o = Some i → plain_identifier i) → read_optional (normalize_identifier label) (optional o) = Ok o.
Proof. intros Ho. apply read_optional_text. intros i [Hd Hi]%Ho. split; [done|]. apply Hi. Qed.

Lemma read_digest reason (o : option string) :
  (∀ d, o = Some d → sha256_text d = true) → read_optional (state_digest reason) (optional o) = Ok o.
Proof.
  intros Ho. apply read_optional_text. intros d Hd%Ho. split; [by apply sha256_text_not_dash|].
  unfold state_digest. by rewrite Hd.
Qed.

(** The lines of the provisioning part. *)
Definition name_line (nv : string * string) : string := nv.1 +:+ "=" +:+ nv.2.

Lemma parse_provisioning_ok s :
  provisioning_ok (bs_provisioning s) → ProvisioningState_validate (bs_provisioning s) = Ok tt →
  parse_provisioning (name_line <$> drop 8 (state_values s)) = Ok (bs_provisioning s, []).
Proof.
  intros [H1 H2 H3 H4 H5 H6 H7 H8 H9] Hv. pose proof (λ d, plan_digest_Ok _ d Hv) as Hd.
  set (owner_generation := match pr_owner_authority (bs_provisioning s) with
                           | Some x => oa_generation x | None => 0 end%Z).
  assert (is_u64 owner_generation) as Hg.
  { unfold owner_generation. destruct (pr_owner_authority _) as [o|] eqn:E; [|done].
    destruct (H9 o eq_refl) as (_ & _ & ?). unfold is_u64. lia. }
  assert (match pr_owner_authority (bs_provisioning s) with
          | Some o => u64_to_string (oa_generation o) | None => "0" end = u64_to_string owner_generation) as Eg.
  { unfold owner_generation. by destruct (pr_owner_authority _). }
  unfold parse_provisioning, state_values. cbn [drop fmap list_fmap name_line fst snd].
  unfold name_line. cbn [fst snd]. rewrite Eg.
  repeat (rewrite state_field_ok; cbv beta iota delta [mbind result_bind];
    first
      [ rewrite (read_optional_ok _ mode_str)
          by (intros m _; pose proof (mode_text m) as (? & E & _); by rewrite E)
      | rewrite (read_optional_ok _ connectivity_str)
          by (intros m _; pose proof (connectivity_text m) as (? & E & _); by rewrite E)
      | rewrite (read_optional_ok _ bool_str)
          by (intros m _; pose proof (bool_text m) as (? & E & _); by rewrite E)
      | rewrite read_reference by assumption
      | rewrite read_digest by assumption
      | rewrite u32_parse_text by assumption
      | rewrite u64_text_parse by assumption
      | rewrite (proj1 (owner_state_text _))
      | rewrite (proj1 (proj2 (bool_text _)))
      | idtac ]; cbv beta iota delta [mbind result_bind ok_or]).
  cbn [is_nil_list negb reject_if]. unfold owner_generation.
  rewrite (parse_owner_authority_ok _ H9). by destruct (bs_provisioning s).
Qed.

Lemma optional_graphic o : (∀ x, o = Some x → all_graphic x = true) → all_graphic (optional o) = true.
Proof. destruct o; naive_solver. Qed.

Lemma join_graphic l : Forall (λ s, all_graphic s = true) l → all_graphic (join_or_dash l) = true.
Proof. intros Hl. destruct l; [done|]. by apply concat_graphic. Qed.

Lemma state_values_graphic s :
  state_shape s → Forall (λ nv, all_graphic nv.1 = true ∧ all_graphic nv.2 = true) (state_values s).
Proof.
  intros [Hv _ _ [H1 H2 H3 H4 H5 H6 _ _ H9]]. pose proof (validate_parts s Hv) as [_ _ Hlin Ha Hs Hm Hp].
  apply lineage_Ok in Hlin. pose proof (λ d, plan_digest_Ok _ d Hp) as Hd.
  assert (∀ o, (∀ i, o = Some i → plain_identifier i) → all_graphic (optional o) = true) as Href.
  { intros o Ho. apply optional_graphic. intros x [_ Hx]%Ho. by apply boot_identifier_graphic. }
  assert (∀ o, (∀ d, o = Some d → sha256_text d = true) → all_graphic (optional o) = true) as Hdig.
  { intros o Ho. apply optional_graphic. intros x Hx%Ho. by apply sha256_text_graphic. }
  unfold state_values. repeat (apply Forall_cons; split; [split; [done|cbn [snd]]|]); try done.
  all: try first [apply u64_text_graphic|by apply boot_identifier_graphic|by apply Href|by apply Hdig
                 |apply owner_state_text|apply bool_text].
  - apply join_graphic, Forall_fmap, Forall_true. intros x. apply stage_str_text.
  - apply join_graphic, Forall_fmap. eapply Forall_impl; [exact Hlin|].
    intros v Hvo%verification_validate_ok. by apply verification_text.
  - destruct (bs_active s) as [a|]; [|done]. apply stage_str_text.
  - destruct (bs_active s) as [a|]; [|done]. by apply boot_identifier_graphic, Ha.
  - destruct (bs_active s) as [[? ? []]|]; done.
  - destruct (pr_mode _) as [m|]; [|done]. apply mode_text.
  - destruct (pr_manifest_connectivity _) as [c|]; [|done]. apply connectivity_text.
  - destruct (pr_manifest_defer_owner_enrollment _) as [b|]; [|done]. apply bool_text.
  - destruct (pr_owner_authority _) as [o|]; [|done]. by apply boot_identifier_graphic, (H9 o eq_refl).
  - destruct (pr_owner_authority _) as [o|]; [|done]. by apply boot_identifier_graphic, (H9 o eq_refl).
  - destruct (pr_owner_authority _) as [o|]; [|done]. apply u64_text_graphic.
Qed.

Lemma state_lines_graphic s : state_shape s → Forall (λ x, all_graphic x = true) (state_lines s).
Proof.
  intros Hs%state_values_graphic. constructor; [done|]. rewrite Forall_map.
  eapply Forall_impl; [exact Hs|]. intros [n v] [Hn Hv]. cbn [fst snd] in *.
  change (all_graphic (n +:+ "=" +:+ v) = true). by rewrite !all_graphic_app, Hn, Hv.
Qed.

Section state_roundtrip.
Context `{CryptoLaws}.

(** What is read from a written state: all of it, but for the active stage,
    which is read from its three lines. *)
Lemma parse_serialize_shape s :
  state_shape s →
  parse_state (serialize_state s) =
    active ← (let get f := match bs_active s with Some a => f a | None => "-" end in
      parse_active (get (λ a, stage_str (as_stage a))) (get as_operation_id)
        (get (λ a, BootstrapEffectState_as_str (as_effect_state a))));
    validated (with_active active s).
Proof.
  intros Hok. pose proof (state_lines_graphic s Hok) as Hg. destruct Hok as [Hv Hgen Ht Hp].
  pose proof (validate_parts s Hv) as [Hlen _ Hlin Ha Hs Hm Hpv]. apply lineage_Ok in Hlin.
  unfold parse_state, serialize_state. rewrite with_integrity_utf8 by done. cbn [negb reject_if].
  unfold state_lines at 1. rewrite integrity_record_ok. cbv beta iota delta [mbind result_bind].
  rewrite graphic_lines by exact Hg. cbn [reject_if]. rewrite bool_decide_eq_true_2 by done.
  cbn [negb reject_if]. change (map _ (state_values s)) with (name_line <$> state_values s).
  assert (name_line <$> state_values s =
    (name_line <$> take 8 (state_values s)) ++ (name_line <$> drop 8 (state_values s))) as ->
    by (by rewrite <- fmap_app, take_drop).
  unfold state_values at 1. cbn [take fmap list_fmap app]. unfold name_line at 1 2 3 4 5 6 7 8. cbn [fst snd].
  rewrite state_field_ok, u64_text_parse by done. cbn [ok_or].
  rewrite state_field_ok, Hs. rewrite state_field_ok, Hm.
  rewrite state_field_ok, parse_completed_ok by done.
  rewrite state_field_ok, parse_verifications_ok by done.
  rewrite !state_field_ok. destruct (parse_active _ _ _) as [active|e]; [|done].
  by rewrite parse_provisioning_ok.
Qed.

(** What the store writes for a readable state is that state. *)
Lemma parse_serialize_state s : state_ok s → parse_state (serialize_state s) = Ok s.
Proof.
  intros [Hsh Hop]. rewrite parse_serialize_shape by done. pose proof (validate_parts s (ss_valid s Hsh)) as Hp.
  cbv beta zeta. rewrite parse_active_ok by (intros a Ea; split; [by apply Hop|by apply (vp_active s Hp)]).
  assert (with_active (bs_active s) s = s) as E by (by destruct s).
  cbv [mbind result_bind validated]. by rewrite E, (ss_valid s Hsh).
Qed.

(** A dash for an operation id leaves a text that is not read again. *)
Lemma dash_operation_lost s a :
  state_shape s → bs_active s = Some a → as_operation_id a = "-" →
  parse_state (serialize_state s)
  = Err (CorruptState "active bootstrap stage fields must be present together").
Proof.
  intros Hsh Ea Ed. rewrite parse_serialize_shape, Ea by done. cbv beta iota zeta. rewrite Ed. unfold parse_active.
  destruct (stage_str_text (as_stage a)) as (_ & _ & _ & Hs).
  rewrite (bool_decide_eq_false_2 (stage_str _ = _)) by done. done.
Qed.
End state_roundtrip.

(** ** What is read is readable *)
Lemma read_reference_Ok label v o :
  read_optional (normalize_identifier label) v = Ok o → ∀ i, o = Some i → plain_identifier i.
Proof.
  intros Ho i ->. apply read_optional_Ok in Ho as [Hd Hi]. apply boot_normalize_identifier_Ok in Hi as [-> Hi]. by split.
Qed.

Lemma read_digest_Ok reason v o :
  read_optional (state_digest reason) v = Ok o → ∀ d, o = Some d → sha256_text d = true.
Proof.
  intros Ho d ->. apply read_optional_Ok in Ho as [_ (? & Hr%reject_if_Ok%negb_false_iff & [= <-])%bind_Ok]. done.
Qed.

Lemma parse_owner_authority_Ok owner enrollment g o :
  (0 ≤ g ≤ u64_max)%Z → parse_owner_authority owner enrollment g = Ok o → ∀ x, o = Some x →
  plain_identifier (oa_owner_id x) ∧ plain_identifier (oa_enrollment_id x) ∧ (0 < oa_generation x ≤ u64_max)%Z.
Proof.
  unfold parse_owner_authority. intros Hg Ho x ->. destruct (_ && _ && (g =? 0)%Z); [done|].
  destruct (_ && (0 <? g)%Z) eqn:E; [|done].
  apply andb_prop in E as [[H1%negb_true_iff%bool_decide_eq_false H2%negb_true_iff%bool_decide_eq_false]%andb_prop
    H3%Z.ltb_lt].
  apply bind_Ok in Ho as (? & [-> Hi]%boot_normalize_identifier_Ok & (? & [-> Hj]%boot_normalize_identifier_Ok & [= <-])%bind_Ok).
  cbn. split_and!; [by split|by split|lia..].
Qed.

Lemma parse_active_Ok stage operation effect o :
  parse_active stage operation effect = Ok o → ∀ a, o = Some a → as_operation_id a ≠ "-".
Proof.
  unfold parse_active. intros Ho a ->. destruct (_ && bool_decide (effect = "-")); [done|].
  destruct (_ && negb (bool_decide (effect = "-"))) eqn:E; [|done].
  apply andb_prop in E as [[_ H2%negb_true_iff%bool_decide_eq_false]%andb_prop _].
  by apply bind_Ok in Ho as (? & _ & (? & [-> Hi]%boot_normalize_identifier_Ok & (? & _ & [= <-])%bind_Ok)%bind_Ok).
Qed.

(** The binds of a successful reader, with what each of them read. *)
Ltac reads H :=
  repeat (apply bind_Ok in H as (? & ? & H); repeat match type of H with
    context [let '(_, _) := ?p in _] => destruct p end).

Lemma parse_verification_Ok encoded v : parse_verification encoded = Ok v → is_u64 (ce_observed_unix_ms v).
Proof.
  unfold parse_verification. intros H. reads H. injection H as <-. cbn.
  match goal with E : ok_or (u64_parse _) _ = Ok _ |- _ => apply ok_or_Ok in E; by eapply u64_parse_range end.
Qed.

Lemma parse_verifications_Ok raw vs :
  parse_verifications raw = Ok vs → Forall (λ v, is_u64 (ce_observed_unix_ms v)) vs.
Proof.
  unfold parse_verifications. case_bool_decide; [by intros [= <-]|].
  apply collect_Ok, parse_verification_Ok.
Qed.

Lemma parse_provisioning_Ok l p rest : parse_provisioning l = Ok (p, rest) → provisioning_ok p.
Proof.
  unfold parse_provisioning. intros H. reads H. injection H as <- _.
  repeat match goal with
  | E : ok_or (u64_parse _) _ = Ok _ |- _ => apply ok_or_Ok, u64_parse_range in E
  | E : ok_or (u32_parse _) _ = Ok _ |- _ => apply ok_or_Ok, u32_parse_range in E
  end.
  constructor; cbn; try done; try (by eapply read_reference_Ok); try (by eapply read_digest_Ok).
  by eapply parse_owner_authority_Ok.
Qed.

Lemma parse_state_ok `{Crypto} bytes s : parse_state bytes = Ok s → state_ok s.
Proof.
  unfold parse_state. intros (? & _ & (payload & _ & Hr)%bind_Ok)%bind_Ok.
  destruct (lines payload) as [|schema l]; [done|]. reads Hr.
  injection Hr as <-.
  split; [constructor|]; cbn; try done.
  - match goal with E : DurableBootstrapState_validate _ = Ok ?u |- _ => by destruct u end.
  - match goal with E : ok_or (u64_parse _) _ = Ok _ |- _ => apply ok_or_Ok in E; by eapply u64_parse_range end.
  - by eapply parse_verifications_Ok.
  - by eapply parse_provisioning_Ok.
  - unfold operation_named. cbn. by eapply parse_active_Ok.
Qed.

(** ** Anchors that are read back *)
Record anchor_ok (a : GenerationAnchor) : Prop := {
  ao_valid : GenerationAnchor_validate a = Ok tt;
  ao_committed : is_u64 (ga_committed_generation a);
  ao_pending g : ga_pending_generation a = Some g → is_u64 g;
}.

Lemma anchor_digests a :
  GenerationAnchor_validate a = Ok tt →
  sha256_text (ga_committed_state_sha256 a) = true ∧
  (∀ d, ga_pending_state_sha256 a = Some d → sha256_text d = true).
Proof.
  unfold GenerationAnchor_validate, validate_anchor_sha256.
  intros (? & Hc%reject_if_Ok%negb_false_iff & Hp)%bind_Ok. split; [done|]. intros d Hd. rewrite Hd in Hp.
  destruct (ga_pending_generation a); [|done].
  by apply bind_Ok in Hp as (? & _ & Hp%reject_if_Ok%negb_false_iff).
Qed.

Lemma sha256_text_length s : sha256_text s = true → String.length s = 64%nat.
Proof. by intros [H%Nat.eqb_eq _]%andb_prop. Qed.

Lemma u64_text_not_dash v : u64_to_string v ≠ "-".
Proof.
  intros E. pose proof (u64_text_free "-"%char v eq_refl) as Hf. rewrite E in Hf.
  rewrite free_elem in Hf. cbn in Hf. set_solver.
Qed.

Lemma anchor_field_ok prefix value rest lacks :
  anchor_field ((prefix +:+ value) :: rest) prefix lacks = Ok (value, rest).
Proof. unfold anchor_field. by rewrite strip_prefix_app. Qed.

Lemma anchor_lines_graphic a : anchor_ok a → Forall (λ x, all_graphic x = true) (anchor_lines a).
Proof.
  intros [[Hc Hp]%anchor_digests _ _]. unfold anchor_lines.
  repeat apply Forall_cons_2; [done|rewrite all_graphic_app; apply andb_true_intro; split; [done|]..|done].
  - apply u64_text_graphic.
  - by apply sha256_text_graphic.
  - destruct (ga_pending_generation a); [|done]. apply u64_text_graphic.
  - apply optional_graphic. intros d Hd%Hp. by apply sha256_text_graphic.
Qed.

Section anchor_roundtrip.
Context `{CryptoLaws}.

Lemma anchor_text_length a : anchor_ok a → (str_len (serialize_generation_anchor a) ≤ MAX_GENERATION_ANCHOR_BYTES)%Z.
Proof.
  intros [[Hc Hp]%anchor_digests Hg Hpg]. apply sha256_text_length in Hc. apply length_u64_text in Hg.
  assert (String.length (optional (ga_pending_state_sha256 a)) ≤ 64)%nat as Hpd.
  { destruct (ga_pending_state_sha256 a) as [d|]; cbn; [|lia]. by rewrite (sha256_text_length d (Hp d eq_refl)). }
  assert (String.length (optional (u64_to_string <$> ga_pending_generation a)) ≤ 20)%nat as Hpl.
  { destruct (ga_pending_generation a) as [g|]; cbn; [|lia]. by apply length_u64_text, Hpg. }
  unfold serialize_generation_anchor, with_integrity. set (d := sha256_hex _).
  assert (String.length d = 64%nat) as Hd by apply sha256_text_length, sha256_hex_text. clearbody d.
  unfold anchor_lines, str_len, unlines. cbn [map String.concat foldr].
  rewrite !length_string_app. unfold GENERATION_ANCHOR_MAGIC, MAX_GENERATION_ANCHOR_BYTES. cbn [String.length]. lia.
Qed.

Lemma parse_serialize_anchor a : anchor_ok a → parse_generation_anchor (serialize_generation_anchor a) = Ok a.
Proof.
  intros Ha. pose proof (anchor_lines_graphic a Ha) as Hg. unfold parse_generation_anchor.
  rewrite (proj2 (Z.ltb_ge _ _)) by (by apply anchor_text_length).
  unfold serialize_generation_anchor. rewrite with_integrity_utf8 by done. cbn [negb reject_if].
  destruct Ha as [Hv Hc Hp]. pose proof (anchor_digests a Hv) as [_ Hpd].
  unfold anchor_lines at 1. rewrite integrity_record_ok. cbv beta iota delta [mbind result_bind].
  rewrite graphic_lines by exact Hg. rewrite bool_decide_eq_true_2 by done. cbn [negb reject_if].
  rewrite anchor_field_ok, u64_text_parse by done. cbn [ok_or].
  rewrite !anchor_field_ok. cbn [is_nil_list negb reject_if].
  rewrite (read_optional_ok _ u64_to_string).
  2: { intros g Hg'. split; [apply u64_text_not_dash|]. by rewrite u64_text_parse by eauto. }
  rewrite read_optional_text by (intros d Hd; split; [by apply sha256_text_not_dash, Hpd|done]).
  destruct a. cbn [ga_committed_generation ga_committed_state_sha256 ga_pending_generation ga_pending_state_sha256] in *.
  by rewrite Hv.
Qed.

Lemma parse_anchor_ok bytes a : parse_generation_anchor bytes = Ok a → anchor_ok a.
Proof.
  unfold parse_generation_anchor. intros (? & _ & (? & _ & (payload & _ & Hr)%bind_Ok)%bind_Ok)%bind_Ok.
  destruct (lines payload) as [|magic l]; [done|]. reads Hr. injection Hr as <-. constructor; cbn.
  - match goal with E : GenerationAnchor_validate _ = Ok ?u |- _ => by destruct u end.
  - match goal with E : ok_or (u64_parse _) _ = Ok _ |- _ => apply ok_or_Ok in E; by eapply u64_parse_range end.
  - intros g ->. match goal with E : read_optional _ _ = Ok (Some g) |- _ =>
      apply read_optional_Ok in E as [_ E%ok_or_Ok]; by eapply u64_parse_range end.
Qed.
End anchor_roundtrip.

(** ** Writing and reading states *)
Section ledger_text.
Context `{CryptoLaws}.

(** C40: A valid bootstrap state whose numbers fit their width and whose recorded
    references are not dashes is read back from its text exactly if its active
    operation is not named by the dash that stands for none; and a state that was
    read from any text is one that is read back from its own. *)
Theorem bootstrap_state_roundtrip s bytes :
  (state_shape s → (parse_state (serialize_state s) = Ok s ↔ operation_named s)) ∧
  (parse_state bytes = Ok s → parse_state (serialize_state s) = Ok s).
Proof.
  split; [|intros Hs%parse_state_ok; by apply parse_serialize_state]. intros Hsh. split.
  - intros Hp a Ea Ed. by rewrite (dash_operation_lost s a Hsh Ea Ed) in Hp.
  - intros Hop. apply parse_serialize_state. by split.
Qed.
End ledger_text.
