(* ===== verification/BootstrapStore.v ===== *)
(** * Durable bootstrap: the store and the coordinator

    linura-bootstrap/src/durable: [persistence.rs] (from [current_effective_uid]),
    [anchor.rs] (from [machine_anchor_scope]), [store.rs], [owner_enrollment.rs]
    and, of [verification.rs], the evidence and the coordinator's operations.

    The state is in a ledger file; a second file, the generation anchor, holds
    the generation and the digest of the committed state and, during a commit,
    of the next one.  The contents of three files of the system that the store
    reads ([/proc/self/status], [/etc/machine-id], the DMI product UUID) are
    parameters. *)

From Stdlib Require Import ZArith Lia Ascii.
From stdpp Require Import base numbers gmap strings list fin_maps sorting.
From S2P Require Import Validation.
From S2P Require Import Prelude Text Fields Digest Paths Files ControlFiles SessionIdentity.
From S2P Require Import UpdateEvidence UpdateEvidenceFacts BootstrapState BootstrapText.

Set Default Goal Selector "!".

(** ** Text *)

(** [str::split_whitespace], over the characters of the string. *)
Fixpoint words_of (word : list Ascii.ascii) (l : list (N * list Ascii.ascii)) : list string :=
  let close := match word with [] => [] | _ => [String.string_of_list_ascii word] end in
  match l with
  | [] => close
  | u :: l' => if unit_whitespace u then close ++ words_of [] l' else words_of (word ++ u.2) l'
  end.
Definition split_whitespace (s : string) : list string :=
  words_of [] (utf8_units (String.list_ascii_of_string s)).

(** [str::parse::<u32>] with the text of its error. *)
Definition digit_value (c : Ascii.ascii) : option Z :=
  let n := Ascii.N_of_ascii c in if is_ascii_digit n then Some (Z.of_N n - 48)%Z else None.
Fixpoint u32_digits (acc : Z) (s : string) : result string Z :=
  match s with
  | "" => Ok acc
  | String c rest =>
      match digit_value c with
      | None => Err "invalid digit found in string"
      | Some x =>
          let v := (acc * 10 + x)%Z in
          if (v <=? u32_max)%Z then u32_digits v rest
          else Err "number too large to fit in target type"
      end
  end%string.
Definition u32_from_str (s : string) : result string Z :=
  match s with
  | "" => Err "cannot parse integer from empty string"
  | "+" => Err "invalid digit found in string"
  | String "+" rest => u32_digits 0 rest
  | _ => u32_digits 0 s
  end%string.

(** [String::from_utf8_lossy]: U+FFFD for each maximal part that is not a
    character. *)
Definition REPLACEMENT : list N := [239; 191; 189]%N.
Definition utf8_second (b0 b1 : N) : bool :=
  utf8_tail b1
  && negb ((b0 =? 224) && (b1 <? 160))%N && negb ((b0 =? 237) && (160 <=? b1))%N
  && negb ((b0 =? 240) && (b1 <? 144))%N && negb ((b0 =? 244) && (144 <=? b1))%N.
Fixpoint utf8_lossy_codes (l : list N) : list N :=
  match l with
  | [] => []
  | b0 :: r =>
      if (b0 <? 128)%N then b0 :: utf8_lossy_codes r
      else if ((194 <=? b0) && (b0 <? 245))%N then
        match r with
        | [] => REPLACEMENT
        | b1 :: r1 =>
            if negb (utf8_second b0 b1) then REPLACEMENT ++ utf8_lossy_codes r
            else if (b0 <? 224)%N then b0 :: b1 :: utf8_lossy_codes r1
            else
              match r1 with
              | [] => REPLACEMENT
              | b2 :: r2 =>
                  if negb (utf8_tail b2) then REPLACEMENT ++ utf8_lossy_codes r1
                  else if (b0 <? 240)%N then b0 :: b1 :: b2 :: utf8_lossy_codes r2
                  else
                    match r2 with
                    | [] => REPLACEMENT
                    | b3 :: r3 =>
                        if negb (utf8_tail b3) then REPLACEMENT ++ utf8_lossy_codes r2
                        else b0 :: b1 :: b2 :: b3 :: utf8_lossy_codes r3
                    end
              end
        end
      else REPLACEMENT ++ utf8_lossy_codes r
  end.
Definition to_string_lossy (s : string) : string :=
  String.string_of_list_ascii (map Ascii.ascii_of_N (utf8_lossy_codes (codes s))).

(** ** The host *)
Class Host := {
  proc_self_status : string;
  etc_machine_id : string;
  dmi_product_uuid : string;
}.

(** [fs::read_to_string] of one of these files. *)
Definition read_host (contents : string) : IO DurableBootstrapError string :=
  _ ← sys (call (λ _ _ fs, (fs, Ok tt)));
  sys (call (λ _ _ fs, (fs, if utf8_valid contents then Ok contents
                            else Err {| io_kind := OtherError;
                                        io_text := "stream did not contain valid UTF-8" |}))).

Definition parse_effective_uid (status : string) : result DurableBootstrapError Z :=
  uid_line ← ok_or (List.find (starts_with "Uid:") (lines status))
    (BootIo "cannot determine bootstrap process effective uid");
  match split_whitespace uid_line with
  | "Uid:" :: rest =>
      match rest with
      | [] => Err (BootIo "missing real uid in /proc/self/status")
      | [_] => Err (BootIo "missing effective uid in /proc/self/status")
      | _ :: effective :: _ =>
          map_err (λ error, BootIo ("invalid effective uid in /proc/self/status: " +:+ error))
            (u32_from_str effective)
      end
  | _ => Err (BootIo "invalid /proc/self/status Uid record")
  end%string.

Section store.
Context `{Crypto} `{Host}.

Definition current_effective_uid : IO DurableBootstrapError Z :=
  status ← read_host proc_self_status;
  io_lift (parse_effective_uid status).

(** ** Trusted paths *)
Definition sticky : Z := 512 (* 0o1000 *).

Definition untrusted_ancestor (uid : Z) (m : Metadata) : bool :=
  let trusted_owner := (m_uid m =? 0)%Z || (m_uid m =? uid)%Z in
  let root_sticky_shared := (m_uid m =? 0)%Z && mode_has sticky m in
  negb trusted_owner || mode_has group_or_other_write m && negb root_sticky_shared.

(** The loop over the components of the parent. *)
Fixpoint check_ancestors (parent : Path) (uid : Z) (current : Path) (comps : list string) :
    IO DurableBootstrapError unit :=
  match comps with
  | [] => mret tt
  | c :: rest =>
      if bool_decide (c = "/") then check_ancestors parent uid current rest
      else if bool_decide (c = "." ∨ c = "..") then io_fail UntrustedStatePath
      else
        let current := join current c in
        metadata ← sys (symlink_metadata current);
        _ ← io_lift (reject_if (is_symlink metadata || negb (is_dir metadata)) UntrustedStatePath);
        _ ← io_lift (reject_if (negb (path_eqb current parent) && untrusted_ancestor uid metadata)
              UntrustedStatePath);
        check_ancestors parent uid current rest
  end.

Definition no_parent : string := "bootstrap state path has no parent directory".
Definition bad_name : string := "invalid bootstrap state file name".

Definition validate_state_parent (path : Path) : IO DurableBootstrapError unit :=
  _ ← io_lift (reject_if (negb (is_absolute path)) UntrustedStatePath);
  parent ← io_lift (ok_or (parent path) (BootIo no_parent));
  expected_uid ← current_effective_uid;
  _ ← check_ancestors parent expected_uid "/" (components parent);
  metadata ← sys (symlink_metadata parent);
  io_lift (reject_if (is_symlink metadata || negb (is_dir metadata)
                      || negb (m_uid metadata =? expected_uid)%Z
                      || mode_has group_or_other_write metadata) UntrustedStatePath).

(** A disjunction whose last disjunct reads the effective user. *)
Definition untrusted_or_foreign (untrusted : bool) (m : Metadata) : IO DurableBootstrapError bool :=
  if untrusted then mret true
  else uid ← current_effective_uid; mret (negb (m_uid m =? uid)%Z).

Definition untrusted_link (m : Metadata) : bool :=
  is_symlink m || negb (is_file m) || mode_has group_or_other_write m || negb (m_nlink m =? 1)%Z.

Definition validate_state_metadata (m : Metadata) : IO DurableBootstrapError unit :=
  bad ← untrusted_or_foreign (untrusted_link m) m;
  io_lift (reject_if bad UntrustedStatePath).

Definition bootstrap_texts : WriteTexts :=
  {| wt_no_parent := no_parent; wt_bad_name := bad_name;
     wt_unsynced := "bootstrap state/control rename completed but parent-directory fsync failed: " |}.

Definition bootstrap_sidecar (path : Path) (suffix : string) : result DurableBootstrapError Path :=
  sidecar_path bootstrap_texts path suffix.

Definition reject_untrusted_existing_control_file (path : Path) : IO DurableBootstrapError unit :=
  r ← attempt (symlink_metadata path);
  match r with
  | Ok metadata =>
      bad ← untrusted_or_foreign (untrusted_link metadata) metadata;
      io_lift (reject_if bad UntrustedControlPath)
  | Err error =>
      match io_kind error with NotFound => mret tt | _ => io_fail (io_error error) end
  end.

Definition validate_control_identity (path : Path) (file : File) : IO DurableBootstrapError unit :=
  expected_uid ← current_effective_uid;
  path_metadata ← sys (symlink_metadata path);
  opened ← sys (file_metadata file);
  io_lift (reject_if
    (untrusted_link path_metadata || negb (m_uid path_metadata =? expected_uid)%Z
     || negb (m_uid opened =? expected_uid)%Z || negb (m_nlink opened =? 1)%Z
     || negb (m_dev opened =? m_dev path_metadata)%Z || negb (m_ino opened =? m_ino path_metadata)%Z)
    UntrustedControlPath).

(** ** Writing *)

(** After the rename. *)
Definition settle_rename (path parent : Path) : IO DurableBootstrapError unit :=
  _ ← validate_state_parent path;
  committed ← sys (symlink_metadata path);
  _ ← validate_state_metadata committed;
  io_map_err (λ e, ce_uncertain (wt_unsynced bootstrap_texts +:+ io_text e)) (sync_dir parent).

Definition bootstrap_write (path : Path) (bytes : string) : IO DurableBootstrapError unit :=
  _ ← io_lift (reject_if (MAX_BOOTSTRAP_STATE_BYTES <? str_len bytes)%Z StateSizeExceeded);
  parent ← io_lift (ok_or (parent path) (BootIo no_parent));
  _ ← sys (create_dir_all parent);
  _ ← validate_state_parent path;
  t ← time_now;
  since ← io_lift (since_epoch t);
  file_name ← io_lift (ok_or (utf8_file_name path) (BootIo bad_name));
  pid ← io_env process_id;
  let temporary := join parent (temporary_name file_name pid (as_nanos since)) in
  r ← attempt (write_temporary temporary path bytes);
  match r with
  | Ok _ => settle_rename path parent
  | Err error =>
      _ ← @attempt _ DurableBootstrapError _ (remove_file temporary);
      io_fail error
  end.

(** ** The generation anchor's file *)
Definition ROOT_ANCHOR_DIRECTORY : string := "/var/lib/linura/bootstrap-anchors".

Definition machine_anchor_scope : IO DurableBootstrapError string :=
  uid ← current_effective_uid;
  if negb (uid =? 0)%Z then mret "nonroot-test-scope"
  else
    machine ← read_host etc_machine_id;
    hardware ← read_host dmi_product_uuid;
    let machine := str_trim machine in
    let hardware := str_trim hardware in
    _ ← io_lift (reject_if (bool_decide (machine = "") || bool_decide (hardware = "")
                            || forallb (λ b, (b =? 48)%N || (b =? 45)%N) (codes hardware))
          UntrustedControlPath);
    mret (sha256_hex (machine +:+ String "000"%char "" +:+ hardware)).

Definition BootstrapStateStore := Path.

Definition generation_anchor_path (store : BootstrapStateStore) : IO DurableBootstrapError Path :=
  uid ← current_effective_uid;
  if (uid =? 0)%Z then
    scope ← machine_anchor_scope;
    let state_identity := sha256_hex (to_string_lossy store) in
    mret (join (join ROOT_ANCHOR_DIRECTORY scope) (state_identity +:+ ".generation"))
  else io_lift (bootstrap_sidecar store "generation").

Definition load_generation_anchor (store : BootstrapStateStore) :
    IO DurableBootstrapError (option GenerationAnchor) :=
  path ← generation_anchor_path store;
  r ← attempt (symlink_metadata path);
  match r with
  | Err error =>
      match io_kind error with NotFound => mret None | _ => io_fail (io_error error) end
  | Ok metadata =>
      _ ← io_lift (reject_if (MAX_GENERATION_ANCHOR_BYTES <? m_len metadata)%Z
            (CorruptGenerationAnchor "generation anchor exceeds the supported byte bound"));
      _ ← reject_untrusted_existing_control_file path;
      file ← sys (open_file (read_only true) path);
      _ ← validate_control_identity path file;
      bytes ← sys (read_to_end file);
      _ ← validate_control_identity path file;
      anchor ← io_lift (parse_generation_anchor bytes);
      mret (Some anchor)
  end.

Definition persist_generation_anchor_record (store : BootstrapStateStore) (anchor : GenerationAnchor) :
    IO DurableBootstrapError unit :=
  _ ← io_lift (GenerationAnchor_validate anchor);
  path ← generation_anchor_path store;
  bootstrap_write path (serialize_generation_anchor anchor).

(** The digest of a state against an optional one. *)
Definition names_digest (o : option string) (digest : string) : bool :=
  match o with Some d => constant_time_ascii_eq d digest | None => false end.

(** What reconciliation decides of the anchor it read: the one to write, if
    any. *)
Definition reconcile_decision (read : option GenerationAnchor) (state : DurableBootstrapState) :
    result DurableBootstrapError (option GenerationAnchor) :=
  let state_digest := bootstrap_state_digest state in
  match read with
  | None =>
      if (bs_generation state =? 0)%Z then Ok (Some (anchor_committed state))
      else Err GenerationAnchorMissing
  | Some anchor =>
      if (ga_committed_generation anchor =? bs_generation state)%Z
         && constant_time_ascii_eq (ga_committed_state_sha256 anchor) state_digest
      then Ok (if present (ga_pending_generation anchor) then Some (anchor_committed state) else None)
      else if bool_decide (ga_pending_generation anchor = Some (bs_generation state))
              && names_digest (ga_pending_state_sha256 anchor) state_digest
              && (bs_generation state =? u64_saturating_add (ga_committed_generation anchor) 1)%Z
      then Ok (Some (anchor_committed state))
      else Err (GenerationRollbackDetected (bs_generation state) (ga_committed_generation anchor))
  end.

Definition reconcile_generation_anchor (store : BootstrapStateStore) (state : DurableBootstrapState) :
    IO DurableBootstrapError unit :=
  read ← load_generation_anchor store;
  write ← io_lift (reconcile_decision read state);
  match write with
  | Some anchor => persist_generation_anchor_record store anchor
  | None => mret tt
  end.

Definition stage_generation_anchor (store : BootstrapStateStore) (current candidate : DurableBootstrapState) :
    IO DurableBootstrapError unit :=
  _ ← reconcile_generation_anchor store current;
  anchor ← io_lift (anchor_with_pending current candidate);
  persist_generation_anchor_record store anchor.

Definition finalize_decision (read : option GenerationAnchor) (candidate : DurableBootstrapState) :
    result DurableBootstrapError GenerationAnchor :=
  anchor ← ok_or read GenerationAnchorMissing;
  _ ← reject_if (negb (bool_decide (ga_pending_generation anchor = Some (bs_generation candidate)))
                 || negb (names_digest (ga_pending_state_sha256 anchor) (bootstrap_state_digest candidate)))
        (CorruptGenerationAnchor
           "finalization does not match the precommitted ledger generation/digest");
  Ok (anchor_committed candidate).

Definition finalize_generation_anchor (store : BootstrapStateStore) (candidate : DurableBootstrapState) :
    IO DurableBootstrapError unit :=
  read ← load_generation_anchor store;
  anchor ← io_lift (finalize_decision read candidate);
  persist_generation_anchor_record store anchor.

(** ** The ledger *)
Definition same_file (m1 m2 : Metadata) : bool :=
  (m_dev m1 =? m_dev m2)%Z && (m_ino m1 =? m_ino m2)%Z && (m_len m1 =? m_len m2)%Z.

Definition BootstrapStateStore_load (path : BootstrapStateStore) :
    IO DurableBootstrapError (option DurableBootstrapState) :=
  _ ← validate_state_parent path;
  r ← attempt (symlink_metadata path);
  match r with
  | Err error =>
      match io_kind error with NotFound => mret None | _ => io_fail (io_error error) end
  | Ok metadata =>
      _ ← validate_state_metadata metadata;
      _ ← io_lift (reject_if (MAX_BOOTSTRAP_STATE_BYTES <? m_len metadata)%Z StateSizeExceeded);
      file ← sys (open_file (read_only true) path);
      opened ← sys (file_metadata file);
      _ ← validate_state_metadata opened;
      _ ← io_lift (reject_if (negb (same_file opened metadata)) UntrustedStatePath);
      bytes ← sys (read_to_end file);
      _ ← io_lift (reject_if (MAX_BOOTSTRAP_STATE_BYTES <? str_len bytes)%Z StateSizeExceeded);
      after ← sys (symlink_metadata path);
      _ ← validate_state_metadata after;
      _ ← io_lift (reject_if (negb (same_file after opened)) UntrustedStatePath);
      state ← io_lift (parse_state bytes);
      mret (Some state)
  end.

Record StoreGeneration := {
  sg_state_generation : Z;
  sg_device : Z;
  sg_inode : Z;
  sg_ctime : Z * Z;
  sg_mtime : Z * Z;
  sg_len : Z;
}.
#[global] Instance StoreGeneration_eq_dec : EqDecision StoreGeneration.
Proof. solve_decision. Defined.

Definition BootstrapStateStore_generation (path : BootstrapStateStore) (state : DurableBootstrapState) :
    IO DurableBootstrapError StoreGeneration :=
  _ ← validate_state_parent path;
  metadata ← sys (symlink_metadata path);
  _ ← validate_state_metadata metadata;
  mret {| sg_state_generation := bs_generation state; sg_device := m_dev metadata;
          sg_inode := m_ino metadata; sg_ctime := m_ctime metadata; sg_mtime := m_mtime metadata;
          sg_len := m_len metadata |}.

Definition BootstrapStateStore_persist (path : BootstrapStateStore) (state : DurableBootstrapState) :
    IO DurableBootstrapError unit := bootstrap_write path (serialize_state state).

Definition BootstrapStateStore_acquire_exclusive (path : BootstrapStateStore) : IO DurableBootstrapError File :=
  lock_path ← io_lift (bootstrap_sidecar path "lock");
  parent ← io_lift (ok_or (parent lock_path) (BootIo "bootstrap lock path has no parent directory"));
  _ ← sys (create_dir_all parent);
  _ ← validate_state_parent path;
  _ ← reject_untrusted_existing_control_file lock_path;
  file ← sys (open_file lock_options lock_path);
  _ ← validate_control_identity lock_path file;
  _ ← sys (lock_file file);
  _ ← validate_control_identity lock_path file;
  mret file.

(** ** The coordinator *)
Record DurableBootstrapCoordinator := {
  bc_store : BootstrapStateStore;
  bc_state : DurableBootstrapState;
  bc_store_generation : StoreGeneration;
  bc_durability_uncertain : option string;
}.

Definition coordinator_open (store : BootstrapStateStore) (session_id machine_id : string) :
    IO DurableBootstrapError DurableBootstrapCoordinator :=
  session_id ← io_lift (normalize_identifier "bootstrap session id" session_id);
  machine_id ← io_lift (normalize_identifier "machine id" machine_id);
  _ ← BootstrapStateStore_acquire_exclusive store;
  loaded ← BootstrapStateStore_load store;
  state ← match loaded with
          | Some state =>
              _ ← io_lift (reject_if (negb (bool_decide (bs_session_id state = session_id))
                                      || negb (bool_decide (bs_machine_id state = machine_id)))
                    StateBindingMismatch);
              _ ← reconcile_generation_anchor store state;
              mret state
          | None =>
              state ← io_lift (DurableBootstrapState_new session_id machine_id);
              _ ← BootstrapStateStore_persist store state;
              _ ← reconcile_generation_anchor store state;
              mret state
          end;
  _ ← io_lift (DurableBootstrapState_validate state);
  store_generation ← BootstrapStateStore_generation store state;
  mret {| bc_store := store; bc_state := state; bc_store_generation := store_generation;
          bc_durability_uncertain := None |}.

Definition bootstrap_requires_recovery (c : DurableBootstrapCoordinator) : bool :=
  present (bc_durability_uncertain c).

Inductive BootstrapResumeDecision :=
| ContinueAt (stage : BootstrapStage)
| ExecutePrepared (stage : BootstrapStage) (operation_id : string)
| ReobserveBeforeContinuing (stage : BootstrapStage) (operation_id : string)
| ResumeComplete
| ResumeRecoveryRequired.

Definition bootstrap_resume_decision (c : DurableBootstrapCoordinator) : BootstrapResumeDecision :=
  if present (bc_durability_uncertain c) then ResumeRecoveryRequired
  else
    match bs_active (bc_state c) with
    | Some active =>
        if bool_decide (as_effect_state active = PreparedStage)
        then ExecutePrepared (as_stage active) (as_operation_id active)
        else ReobserveBeforeContinuing (as_stage active) (as_operation_id active)
    | None =>
        match next_stage (bc_state c) with Some stage => ContinueAt stage | None => ResumeComplete end
    end.

(** A method of a coordinator: [&mut self] and [Result]. *)
Definition Action (A : Type) : Type :=
  DurableBootstrapCoordinator → FsEnv → World →
  World * option (DurableBootstrapCoordinator * result DurableBootstrapError A).

#[global] Instance action_ret : MRet Action := λ A a c env w, (w, Some (c, Ok a)).
#[global] Instance action_bind : MBind Action := λ A B f m c env w,
  match m c env w with
  | (w', Some (c', Ok a)) => f a c' env w'
  | (w', Some (c', Err e)) => (w', Some (c', Err e))
  | (w', None) => (w', None)
  end.
Definition coordinator : Action DurableBootstrapCoordinator := λ c env w, (w, Some (c, Ok c)).
Definition set_coordinator (c : DurableBootstrapCoordinator) : Action unit := λ _ env w, (w, Some (c, Ok tt)).
Definition act {A} (m : IO DurableBootstrapError A) : Action A := λ c env w,
  let '(w', r) := m env w in (w', (λ r, (c, r)) <$> r).
Definition act_result {A} (m : IO DurableBootstrapError A) : Action (result DurableBootstrapError A) :=
  λ c env w, let '(w', r) := m env w in (w', (λ r, (c, Ok r)) <$> r).
Definition act_check {A} (r : result DurableBootstrapError A) : Action A := act (io_lift r).
Definition act_throw {A} (e : DurableBootstrapError) : Action A := act_check (Err e).

Definition with_uncertain (reason : string) (c : DurableBootstrapCoordinator) : DurableBootstrapCoordinator :=
  {| bc_store := bc_store c; bc_state := bc_state c; bc_store_generation := bc_store_generation c;
     bc_durability_uncertain := Some reason |}.
Definition with_durable (state : DurableBootstrapState) (generation : StoreGeneration)
    (c : DurableBootstrapCoordinator) : DurableBootstrapCoordinator :=
  {| bc_store := bc_store c; bc_state := state; bc_store_generation := generation;
     bc_durability_uncertain := bc_durability_uncertain c |}.

(** The coordinator is unusable from here on. *)
Definition give_in {A} (reason : string) : Action A :=
  c ← coordinator;
  _ ← set_coordinator (with_uncertain reason c);
  act_throw (BootDurabilityUncertain reason).

Definition bootstrap_ensure_usable : Action unit :=
  c ← coordinator;
  match bc_durability_uncertain c with
  | Some reason => act_throw (BootRecoveryRequired reason)
  | None => mret tt
  end.

Definition changed_elsewhere : string :=
  "durable bootstrap state/generation changed through another coordinator; reopen and reconcile before continuing".

(** [x?] whose error makes the coordinator unusable. *)
Definition or_give_in {A} (reason : string) (m : IO DurableBootstrapError A) : Action A :=
  r ← act_result m;
  match r with
  | Ok a => mret a
  | Err error => give_in (reason +:+ DurableBootstrapError_display error)
  end.

(** The candidate is the ledger's file: the anchor follows. *)
Definition finish_commit (store : BootstrapStateStore) (candidate : DurableBootstrapState) : Action unit :=
  _ ← or_give_in ("bootstrap state generation " +:+ u64_to_string (bs_generation candidate)
                  +:+ " committed but external generation anchor could not be finalized: ")
        (finalize_generation_anchor store candidate);
  _ ← or_give_in "bootstrap state/anchor commit could not be re-observed consistently: "
        (reconcile_generation_anchor store candidate);
  generation ← or_give_in
    "bootstrap state commit succeeded but durable generation could not be re-observed: "
    (BootstrapStateStore_generation store candidate);
  c ← coordinator;
  set_coordinator (with_durable candidate generation c).

Definition bootstrap_commit (candidate : DurableBootstrapState) : Action unit :=
  _ ← bootstrap_ensure_usable;
  _ ← act_check (DurableBootstrapState_validate candidate);
  c ← coordinator;
  let store := bc_store c in
  _ ← act (BootstrapStateStore_acquire_exclusive store);
  loaded ← act (BootstrapStateStore_load store);
  durable ← act_check (ok_or loaded (CorruptState "durable bootstrap state disappeared"));
  _ ← act (reconcile_generation_anchor store durable);
  durable_generation ← act (BootstrapStateStore_generation store durable);
  if negb (bool_decide (durable = bc_state c))
     || negb (bool_decide (durable_generation = bc_store_generation c))
  then
    _ ← set_coordinator (with_uncertain changed_elsewhere c);
    act_throw StaleBootstrapCoordinator
  else
    generation ← act_check (ok_or (u64_checked_add (bs_generation (bc_state c)) 1) BootGenerationOverflow);
    let candidate := with_generation generation candidate in
    _ ← act_check (DurableBootstrapState_validate candidate);
    _ ← act (stage_generation_anchor store (bc_state c) candidate);
    r ← act_result (BootstrapStateStore_persist store candidate);
    match r with
    | Ok _ => finish_commit store candidate
    | Err (BootDurabilityUncertain reason) => give_in reason
    | Err error => act_throw error
    end.
End store.

(** ** Evidence and receipts *)
Definition MAX_BOOTSTRAP_POSTCONDITION_BYTES : Z := 16 * 1024.
Definition BOOTSTRAP_VERIFICATION_MAX_AGE_MS : Z := 5 * 60 * 1000.
Definition BOOTSTRAP_VERIFICATION_FUTURE_SKEW_MS : Z := 30 * 1000.
Definition SYSTEM_BOOTSTRAP_VERIFIER_ID : string := "linura-bootstrap-system-verifier-v2".
Definition OWNER_ENROLLMENT_RECEIPT_SCHEMA : string := "linura-owner-enrollment-receipt-v2".
Definition PREPARER_REVOCATION_RECEIPT_SCHEMA : string := "linura-preparer-revocation-receipt-v1".
Definition OWNER_ENROLLMENT_PRODUCER : string := "linura-control-owner-enrollment-v2".
Definition PREPARER_REVOCATION_PRODUCER : string := "linura-firstboot-preparer-revocation-v1".
Definition PREPARER_REVOCATION_SCOPE : string := "preparer-os-authority-v1".
Definition MAX_OWNER_ENROLLMENT_RECEIPT_BYTES : Z := 4096.
Definition OWNER_ENROLLMENT_RECEIPT_MAX_AGE_MS : Z := 5 * 60 * 1000.
Definition OWNER_ENROLLMENT_AUTH_KEY_BYTES : nat := 32.

(** The time in milliseconds, with the error for one that is no [u64]. *)
Definition clock_ms (overflow : string) : IO DurableBootstrapError Z :=
  t ← time_now;
  since ← io_lift (since_epoch t);
  io_lift (if (as_millis since <=? u64_max)%Z then Ok (as_millis since) else Err (BootIo overflow)).

Definition stale (max_age now observed : Z) : bool :=
  (u64_saturating_add now BOOTSTRAP_VERIFICATION_FUTURE_SKEW_MS <? observed)%Z
  || (max_age <? u64_saturating_sub now observed)%Z.

Section evidence.
Context `{Crypto} `{Host}.

Definition issue (stage : BootstrapStage)
    (operation_id session_id machine_id verifier_id observation_id postcondition : string) :
    IO DurableBootstrapError BootstrapVerificationEvidence :=
  _ ← io_lift (reject_if (negb (stage_requires_effect_boundary stage)) (VerificationEvidenceUnexpected stage));
  _ ← io_lift (reject_if (bool_decide (postcondition = "")
                          || (MAX_BOOTSTRAP_POSTCONDITION_BYTES <? str_len postcondition)%Z)
        (InvalidVerificationEvidence "canonical postcondition is empty or exceeds the supported bound"));
  observed_unix_ms ← clock_ms "bootstrap verification timestamp exceeds u64";
  operation_id ← io_lift (normalize_identifier "bootstrap verification operation id" operation_id);
  session_id ← io_lift (normalize_identifier "bootstrap verification session id" session_id);
  machine_id ← io_lift (normalize_identifier "bootstrap verification machine id" machine_id);
  verifier_id ← io_lift (normalize_identifier "bootstrap verification producer id" verifier_id);
  observation_id ← io_lift (normalize_identifier "bootstrap verification observation id" observation_id);
  mret {| be_stage := stage; be_operation_id := operation_id; be_session_id := session_id;
          be_machine_id := machine_id; be_verifier_id := verifier_id; be_observation_id := observation_id;
          be_postcondition_sha256 := sha256_hex postcondition; be_observed_unix_ms := observed_unix_ms |}.

(** The evidence is of this operation. *)
Definition evidence_bound (e : BootstrapVerificationEvidence) (active : ActiveBootstrapStage)
    (session_id machine_id : string) : bool :=
  bool_decide (be_stage e = as_stage active) && bool_decide (be_operation_id e = as_operation_id active)
  && bool_decide (be_session_id e = session_id) && bool_decide (be_machine_id e = machine_id).

Definition evidence_validate_binding (e : BootstrapVerificationEvidence) (active : ActiveBootstrapStage)
    (session_id machine_id : string) : IO DurableBootstrapError unit :=
  _ ← io_lift (reject_if (negb (evidence_bound e active session_id machine_id))
        VerificationEvidenceBindingMismatch);
  now ← clock_ms "bootstrap verification timestamp exceeds u64";
  _ ← io_lift (reject_if (stale BOOTSTRAP_VERIFICATION_MAX_AGE_MS now (be_observed_unix_ms e))
        VerificationEvidenceStale);
  io_lift (reject_if (negb (sha256_text (be_postcondition_sha256 e)))
    (InvalidVerificationEvidence "postcondition digest is not SHA-256")).

(** [DurableBootstrapState::complete_effect_verified]. *)
Definition state_complete_effect_verified (s : DurableBootstrapState) (e : BootstrapVerificationEvidence) :
    IO DurableBootstrapError DurableBootstrapState :=
  active ← io_lift (ok_or (bs_active s) NoActiveStage);
  _ ← io_lift (reject_if (negb (stage_requires_effect_boundary (as_stage active)))
        (VerificationEvidenceUnexpected (as_stage active)));
  _ ← io_lift (reject_if (negb (bool_decide (as_effect_state active = EffectStarted)))
        (EffectNotStarted (as_stage active)));
  _ ← evidence_validate_binding e active (bs_session_id s) (bs_machine_id s);
  io_lift (record_evidence s active e).

(** *** Keys *)
Definition read_owner_enrollment_auth_key (path : Path) : IO DurableBootstrapError bytes :=
  _ ← validate_state_parent path;
  before ← sys (symlink_metadata path);
  foreign ← untrusted_or_foreign (is_symlink before || negb (is_file before) || negb (m_nlink before =? 1)%Z) before;
  _ ← io_lift (reject_if (foreign || mode_has group_or_other_any before
                          || negb (m_len before =? Z.of_nat OWNER_ENROLLMENT_AUTH_KEY_BYTES)%Z)
        UntrustedControlPath);
  file ← sys (open_file (read_only true) path);
  _ ← validate_control_identity path file;
  data ← sys (read_to_end file);
  _ ← io_lift (reject_if (String.length data <? OWNER_ENROLLMENT_AUTH_KEY_BYTES)%nat
        (BootIo "failed to fill whole buffer"));
  let key := take OWNER_ENROLLMENT_AUTH_KEY_BYTES (as_bytes data) in
  _ ← io_lift (reject_if ((OWNER_ENROLLMENT_AUTH_KEY_BYTES <? String.length data)%nat
                          || forallb (λ b, bool_decide (b = Byte.x00)) key) UntrustedControlPath);
  _ ← validate_control_identity path file;
  mret key.

Record OwnerEnrollmentAuthorityVerifier := { ov_key : bytes; ov_fingerprint : string }.

Definition authority_verifier_open (path : Path) : IO DurableBootstrapError OwnerEnrollmentAuthorityVerifier :=
  key ← read_owner_enrollment_auth_key path;
  mret {| ov_key := key; ov_fingerprint := Digest.hex_encode (sha256 key) |}.

Definition validate_authentication_hex (value : string) : result DurableBootstrapError unit :=
  reject_if (negb (sha256_text value))
    (CorruptState "Control receipt authentication is not HMAC-SHA-256").

Definition authority_verify (v : OwnerEnrollmentAuthorityVerifier) (payload authentication : string) :
    result DurableBootstrapError unit :=
  _ ← validate_authentication_hex authentication;
  reject_if (negb (constant_time_ascii_eq (hmac_sha256 (ov_key v) payload) authentication))
    StateIntegrityMismatch.

Definition authenticated_receipt_bytes (key : bytes) (payload : string) : string :=
  payload +:+ "authentication=" +:+ hmac_sha256 key payload +:+ String LF "".

Definition split_authenticated_receipt (bytes label : string) :
    result DurableBootstrapError (string * string) :=
  _ ← reject_if (negb (utf8_valid bytes)) (CorruptState (label +:+ " is not UTF-8"));
  index ← ok_or (rfind (String LF "authentication=") bytes)
    (CorruptState (label +:+ " authentication record is missing"));
  let '(payload, authentication_line) := split_at (index + 1) bytes in
  authentication ← ok_or (match strip_prefix "authentication=" authentication_line with
                          | Some value => strip_suffix LF value
                          | None => None
                          end) (CorruptState (label +:+ " authentication record is malformed"));
  _ ← validate_authentication_hex authentication;
  Ok (payload, authentication).

(** *** Receipts *)
Definition owner_receipt_now_ms : IO DurableBootstrapError Z :=
  clock_ms "owner enrollment timestamp exceeds u64".

Definition validate_owner_receipt_freshness (issued_unix_ms : Z) : IO DurableBootstrapError unit :=
  now ← owner_receipt_now_ms;
  io_lift (reject_if (stale OWNER_ENROLLMENT_RECEIPT_MAX_AGE_MS now issued_unix_ms) VerificationEvidenceStale).

Record TrustedOwnerEnrollmentReceipt := {
  or_session_id : string;
  or_machine_id : string;
  or_owner_id : string;
  or_enrollment_id : string;
  or_issued_unix_ms : Z;
  or_receipt_sha256 : string;
}.

Record TrustedPreparerAuthorityRevocationReceipt := {
  rr_session_id : string;
  rr_machine_id : string;
  rr_operation_id : string;
  rr_postcondition_sha256 : string;
  rr_issued_unix_ms : Z;
  rr_receipt_sha256 : string;
}.

Definition protected_control_receipt_bytes (path : Path) : IO DurableBootstrapError string :=
  _ ← validate_state_parent path;
  metadata ← sys (symlink_metadata path);
  foreign ← untrusted_or_foreign
    (is_symlink metadata || negb (is_file metadata) || negb (m_nlink metadata =? 1)%Z) metadata;
  _ ← io_lift (reject_if (foreign || mode_has group_or_other_write metadata || (m_len metadata =? 0)%Z
                          || (MAX_OWNER_ENROLLMENT_RECEIPT_BYTES <? m_len metadata)%Z)
        UntrustedControlPath);
  file ← sys (open_file (read_only true) path);
  _ ← validate_control_identity path file;
  bytes ← sys (read_to_end file);
  _ ← validate_control_identity path file;
  mret bytes.

Definition receipt_line (lines : list string) (field : string) (lacks : string) :
    result DurableBootstrapError (string * list string) :=
  match lines with
  | [] => Err (CorruptState lacks)
  | line :: rest => value ← ok_or (strip_prefix (field +:+ "=") line) (CorruptState lacks); Ok (value, rest)
  end.

Definition receipt_identifier (lines : list string) (field label : string) :
    result DurableBootstrapError (string * list string) :=
  '(value, rest) ← receipt_line lines field ("Control receipt lacks " +:+ field);
  value ← normalize_identifier label value;
  Ok (value, rest).

Definition receipt_timestamp (lines : list string) : result DurableBootstrapError (Z * list string) :=
  '(value, rest) ← receipt_line lines "issued_unix_ms" "Control receipt lacks issue timestamp";
  v ← ok_or (u64_parse value) (CorruptState "Control receipt timestamp is invalid");
  Ok (v, rest).

(** The first two lines. *)
Definition receipt_header (lines : list string) (schema producer wrong : string) :
    result DurableBootstrapError (list string) :=
  match lines with
  | first :: second :: rest =>
      if bool_decide (first = schema) && bool_decide (strip_prefix "producer=" second = Some producer)
      then Ok rest else Err (CorruptState wrong)
  | _ => Err (CorruptState wrong)
  end.

(** [TrustedOwnerEnrollmentReceipt::load], of its bytes. *)
Definition parse_owner_receipt (bytes expected_session_id expected_machine_id : string)
    (v : OwnerEnrollmentAuthorityVerifier) : result DurableBootstrapError TrustedOwnerEnrollmentReceipt :=
  '(payload, authentication) ← split_authenticated_receipt bytes "owner enrollment receipt";
  _ ← authority_verify v payload authentication;
  l ← receipt_header (lines payload) OWNER_ENROLLMENT_RECEIPT_SCHEMA OWNER_ENROLLMENT_PRODUCER
        "owner enrollment receipt is not authenticated Control v2 evidence";
  '(session_id, l) ← receipt_identifier l "session_id" "owner enrollment receipt session id";
  '(machine_id, l) ← receipt_identifier l "machine_id" "owner enrollment receipt machine id";
  '(owner_id, l) ← receipt_identifier l "owner_id" "owner id";
  '(enrollment_id, l) ← receipt_identifier l "enrollment_id" "owner enrollment id";
  '(issued_unix_ms, l) ← receipt_timestamp l;
  _ ← reject_if (negb (is_nil_list l)) (CorruptState "owner enrollment receipt contains unexpected fields");
  _ ← reject_if (negb (bool_decide (session_id = expected_session_id))
                 || negb (bool_decide (machine_id = expected_machine_id))) StateBindingMismatch;
  Ok {| or_session_id := session_id; or_machine_id := machine_id; or_owner_id := owner_id;
        or_enrollment_id := enrollment_id; or_issued_unix_ms := issued_unix_ms;
        or_receipt_sha256 := sha256_hex bytes |}.

Definition owner_receipt_load (path : Path) (expected_session_id expected_machine_id : string)
    (v : OwnerEnrollmentAuthorityVerifier) : IO DurableBootstrapError TrustedOwnerEnrollmentReceipt :=
  bytes ← protected_control_receipt_bytes path;
  receipt ← io_lift (parse_owner_receipt bytes expected_session_id expected_machine_id v);
  _ ← validate_owner_receipt_freshness (or_issued_unix_ms receipt);
  mret receipt.

Definition owner_receipt_validate_binding (r : TrustedOwnerEnrollmentReceipt) (s : DurableBootstrapState) :
    IO DurableBootstrapError unit :=
  _ ← io_lift (reject_if (negb (bool_decide (or_session_id r = bs_session_id s))
                          || negb (bool_decide (or_machine_id r = bs_machine_id s))) StateBindingMismatch);
  validate_owner_receipt_freshness (or_issued_unix_ms r).

(** [lines.next() == Some(stage…) && … scope]. *)
Definition revocation_context (lines : list string) : result DurableBootstrapError (list string) :=
  let wrong := Err (CorruptState "preparer revocation receipt has an invalid stage/effect/scope binding") in
  match lines with
  | stage :: effect :: scope :: rest =>
      if bool_decide (stage = "stage=owner-enrollment-resolution")
         && bool_decide (effect = "effect_state=effect-started")
         && bool_decide (strip_prefix "scope=" scope = Some PREPARER_REVOCATION_SCOPE)
      then Ok rest else wrong
  | _ => wrong
  end.

Definition parse_revocation_receipt (bytes : string) (v : OwnerEnrollmentAuthorityVerifier) :
    result DurableBootstrapError TrustedPreparerAuthorityRevocationReceipt :=
  '(payload, authentication) ← split_authenticated_receipt bytes "preparer revocation receipt";
  _ ← authority_verify v payload authentication;
  l ← receipt_header (lines payload) PREPARER_REVOCATION_RECEIPT_SCHEMA PREPARER_REVOCATION_PRODUCER
        "preparer revocation receipt is not authenticated Control evidence";
  '(session_id, l) ← receipt_identifier l "session_id" "preparer revocation session id";
  '(machine_id, l) ← receipt_identifier l "machine_id" "preparer revocation machine id";
  '(operation_id, l) ← receipt_identifier l "operation_id" "preparer revocation operation id";
  l ← revocation_context l;
  '(postcondition_sha256, l) ← receipt_line l "postcondition_sha256"
    "preparer revocation receipt lacks postcondition digest";
  _ ← validate_anchor_sha256 postcondition_sha256;
  '(issued_unix_ms, l) ← receipt_timestamp l;
  _ ← reject_if (negb (is_nil_list l)) (CorruptState "preparer revocation receipt contains unexpected fields");
  Ok {| rr_session_id := session_id; rr_machine_id := machine_id; rr_operation_id := operation_id;
        rr_postcondition_sha256 := postcondition_sha256; rr_issued_unix_ms := issued_unix_ms;
        rr_receipt_sha256 := sha256_hex bytes |}.

(** The receipt is of the operation that resolves the owner. *)
Definition revocation_bound (r : TrustedPreparerAuthorityRevocationReceipt) (s : DurableBootstrapState)
    (active : ActiveBootstrapStage) : bool :=
  bool_decide (as_stage active = OwnerEnrollmentResolution)
  && bool_decide (as_effect_state active = EffectStarted)
  && bool_decide (rr_session_id r = bs_session_id s) && bool_decide (rr_machine_id r = bs_machine_id s)
  && bool_decide (rr_operation_id r = as_operation_id active).

Definition revocation_validate_binding (r : TrustedPreparerAuthorityRevocationReceipt)
    (s : DurableBootstrapState) : IO DurableBootstrapError unit :=
  active ← io_lift (ok_or (bs_active s) NoActiveStage);
  _ ← io_lift (reject_if (negb (revocation_bound r s active)) StateBindingMismatch);
  validate_owner_receipt_freshness (rr_issued_unix_ms r).

Definition revocation_receipt_load (path : Path) (s : DurableBootstrapState)
    (v : OwnerEnrollmentAuthorityVerifier) :
    IO DurableBootstrapError TrustedPreparerAuthorityRevocationReceipt :=
  bytes ← protected_control_receipt_bytes path;
  receipt ← io_lift (parse_revocation_receipt bytes v);
  _ ← revocation_validate_binding receipt s;
  mret receipt.

Definition preparer_revocation_receipt_bytes (key : bytes) (s : DurableBootstrapState)
    (postcondition_sha256 : string) : IO DurableBootstrapError string :=
  _ ← io_lift (validate_anchor_sha256 postcondition_sha256);
  active ← io_lift (ok_or (bs_active s) NoActiveStage);
  _ ← io_lift (reject_if (negb (bool_decide (as_stage active = OwnerEnrollmentResolution))
                          || negb (bool_decide (as_effect_state active = EffectStarted)))
        (StageContextRequired OwnerEnrollmentResolution));
  issued_unix_ms ← owner_receipt_now_ms;
  mret (authenticated_receipt_bytes key (unlines
    [PREPARER_REVOCATION_RECEIPT_SCHEMA; "producer=" +:+ PREPARER_REVOCATION_PRODUCER;
     "session_id=" +:+ bs_session_id s; "machine_id=" +:+ bs_machine_id s;
     "operation_id=" +:+ as_operation_id active; "stage=owner-enrollment-resolution";
     "effect_state=effect-started"; "scope=" +:+ PREPARER_REVOCATION_SCOPE;
     "postcondition_sha256=" +:+ postcondition_sha256; "issued_unix_ms=" +:+ u64_to_string issued_unix_ms])).

(** ** The operations of the coordinator *)

(** A candidate from the state, then its commit. *)
Definition commit_of (f : DurableBootstrapState → result DurableBootstrapError DurableBootstrapState) :
    Action unit :=
  c ← coordinator;
  candidate ← act_check (f (bc_state c));
  bootstrap_commit candidate.

Definition do_prepare_stage (stage : BootstrapStage) (operation_id : string) : Action unit :=
  commit_of (λ s, prepare_stage s stage operation_id).
Definition do_mark_effect_started (operation_id : string) : Action unit :=
  commit_of (λ s, mark_effect_started s operation_id).
Definition do_complete_verified (operation_id : string) : Action unit :=
  c ← coordinator;
  _ ← act_check (match bs_active (bc_state c) with
                 | Some active => reject_if (stage_requires_effect_boundary (as_stage active))
                                    (VerificationEvidenceRequired (as_stage active))
                 | None => Ok tt
                 end);
  commit_of (λ s, complete_verified s operation_id).
Definition do_select_provisioning (mode : ProvisioningMode) (manifest : option ProvisioningManifest) :
    Action unit := commit_of (λ s, select_provisioning s mode manifest).
Definition do_bind_first_boot_plan (plan_sha256 : string) (plan_count : Z) : Action unit :=
  commit_of (λ s, bind_first_boot_plan s plan_sha256 plan_count).

(** The receipt is checked by the coordinator and again by the state. *)
Definition do_enter_owner_enrollment_pending (r : TrustedPreparerAuthorityRevocationReceipt) : Action unit :=
  c ← coordinator;
  _ ← act (revocation_validate_binding r (bc_state c));
  _ ← act (revocation_validate_binding r (bc_state c));
  commit_of enter_pending.

Definition do_enroll_pending_owner (r : TrustedOwnerEnrollmentReceipt) : Action unit :=
  c ← coordinator;
  _ ← act (owner_receipt_validate_binding r (bc_state c));
  commit_of (λ s, enroll_pending_owner_fresh s (or_owner_id r) (or_enrollment_id r)).

Definition do_enroll_interactive_owner (r : TrustedOwnerEnrollmentReceipt) : Action unit :=
  c ← coordinator;
  _ ← act_check (reject_if (negb (bool_decide (pr_mode (bs_provisioning (bc_state c)) = Some InteractiveOwner)))
                   FreshOwnerEnrollmentRequired);
  _ ← act (owner_receipt_validate_binding r (bc_state c));
  commit_of (λ s, enroll_owner_fresh s (or_owner_id r) (or_enrollment_id r)).

Definition do_enter_recovery_owner_resolution : Action unit := commit_of enter_recovery_owner_resolution.

Definition do_complete_effect_verified (e : BootstrapVerificationEvidence) : Action unit :=
  c ← coordinator;
  candidate ← act (state_complete_effect_verified (bc_state c) e);
  bootstrap_commit candidate.

Definition active_effect_context (s : DurableBootstrapState) (required : BootstrapStage) :
    result DurableBootstrapError ActiveBootstrapStage :=
  active ← ok_or (bs_active s) NoActiveStage;
  _ ← reject_if (negb (bool_decide (as_stage active = required))) (StageContextRequired required);
  _ ← reject_if (negb (bool_decide (as_effect_state active = EffectStarted))) (EffectNotStarted required);
  Ok active.

Definition issue_system_evidence (s : DurableBootstrapState) (stage : BootstrapStage)
    (observation_id postcondition : string) : IO DurableBootstrapError BootstrapVerificationEvidence :=
  active ← io_lift (active_effect_context s stage);
  issue stage (as_operation_id active) (bs_session_id s) (bs_machine_id s) SYSTEM_BOOTSTRAP_VERIFIER_ID
    observation_id postcondition.

Definition verify_owner_resolution : Action unit :=
  c ← coordinator;
  let p := bs_provisioning (bc_state c) in
  _ ← act_check (active_effect_context (bc_state c) OwnerEnrollmentResolution);
  _ ← act_check (reject_if (bool_decide (pr_owner_enrollment p = Unresolved))
                   (InvalidVerificationEvidence "owner enrollment remains unresolved"));
  evidence ← act (issue_system_evidence (bc_state c) OwnerEnrollmentResolution
    "durable-owner-resolution-observation"
    ("owner-state=" +:+ OwnerEnrollmentState_as_str (pr_owner_enrollment p)
     +:+ ";authority-generation=" +:+ u64_to_string (pr_authority_generation p)
     +:+ ";preparer-retired=" +:+ bool_str (pr_preparer_authority_retired p)));
  do_complete_effect_verified evidence.

(** ** Observations of the system *)
Definition MANAGED_FIRSTBOOT_PATH : Path := "/opt/linura/bin/linura-firstboot".

Definition invalid_evidence (reason : string) : DurableBootstrapError := InvalidVerificationEvidence reason.

Definition unprotected_root_file (m : Metadata) : bool :=
  negb (m_uid m =? 0)%Z || negb (m_nlink m =? 1)%Z || mode_has group_or_other_write m.

Definition protected_regular_file_sha256 (path : Path) : IO DurableBootstrapError string :=
  before ← sys (symlink_metadata path);
  _ ← io_lift (reject_if (is_symlink before || negb (is_file before) || unprotected_root_file before)
        UntrustedControlPath);
  file ← sys (open_file (read_only true) path);
  opened ← sys (file_metadata file);
  _ ← io_lift (reject_if (negb (m_dev opened =? m_dev before)%Z || negb (m_ino opened =? m_ino before)%Z
                          || unprotected_root_file opened) UntrustedControlPath);
  data ← sys (read_to_end file);
  mret (sha256_hex data).

Definition verify_linura_installation (expected_sha256 : string) : Action unit :=
  _ ← act_check (validate_anchor_sha256 expected_sha256);
  observed ← act (protected_regular_file_sha256 MANAGED_FIRSTBOOT_PATH);
  _ ← act_check (reject_if (negb (constant_time_ascii_eq observed expected_sha256))
        (invalid_evidence "managed First Boot installation digest does not match exact source"));
  c ← coordinator;
  evidence ← act (issue_system_evidence (bc_state c) LinuraInstallation "managed-installation-observation"
    ("managed_path=" +:+ MANAGED_FIRSTBOOT_PATH +:+ ";sha256=" +:+ observed
     +:+ ";root_owned=true;protected=true"));
  do_complete_effect_verified evidence.

(** [{:o}]. *)
Fixpoint octal_digits (fuel : nat) (z : Z) : string :=
  match fuel with
  | O => ""
  | S fuel' =>
      let digit := String (Ascii.ascii_of_N (Z.to_N (48 + z mod 8))) "" in
      if (z <? 8)%Z then digit else octal_digits fuel' (z / 8) +:+ digit
  end.
Definition octal (z : Z) : string := octal_digits 22 z.

(** A directory of the process's user that no other can write. *)
Definition unprotected_directory (m : Metadata) : IO DurableBootstrapError bool :=
  foreign ← untrusted_or_foreign (is_symlink m || negb (is_dir m)) m;
  mret (foreign || mode_has group_or_other_write m).

Definition verify_persistent_state_root (root : Path) : Action unit :=
  c ← coordinator;
  _ ← act_check (active_effect_context (bc_state c) PersistentStateInitialization);
  metadata ← act (sys (symlink_metadata root));
  bad ← act (unprotected_directory metadata);
  _ ← act_check (reject_if bad UntrustedStatePath);
  evidence ← act (issue_system_evidence (bc_state c) PersistentStateInitialization
    "protected-state-root-observation"
    ("root=" +:+ to_string_lossy root +:+ ";uid=" +:+ u64_to_string (m_uid metadata) +:+ ";mode="
     +:+ octal (Z.land (m_mode metadata) 4095) +:+ ";dev=" +:+ u64_to_string (m_dev metadata)
     +:+ ";ino=" +:+ u64_to_string (m_ino metadata)));
  do_complete_effect_verified evidence.

(** *** The recovery checkpoint *)
Definition RECOVERY_CHECKPOINT_SCHEMA : string := "linura-bootstrap-recovery-checkpoint-v3".
Definition MAX_RECOVERY_CHECKPOINT_MANIFEST_BYTES : Z := 4096.
Definition MAX_RECOVERY_CHECKPOINT_SESSION_BYTES : Z := 512.

Record RecoveryCheckpointManifest := {
  rc_state_generation : Z;
  rc_state_sha256 : string;
  rc_session_sha256 : string;
  rc_anchor_sha256 : string;
}.

(** The private file of the process's user, of bounded size. *)
Definition checkpoint_file (uid : Z) (m : Metadata) : bool :=
  (m_uid m =? uid)%Z && (m_nlink m =? 1)%Z && negb (mode_has group_or_other_write m).
Definition checkpoint_path (m : Metadata) : bool := negb (is_symlink m) && is_file m.

Definition protected_regular_file_bytes (path : Path) (max_bytes : Z) : IO DurableBootstrapError string :=
  _ ← validate_state_parent path;
  expected_uid ← current_effective_uid;
  before ← sys (symlink_metadata path);
  _ ← io_lift (reject_if (negb (checkpoint_path before) || negb (checkpoint_file expected_uid before)
                          || (m_len before =? 0)%Z || (max_bytes <? m_len before)%Z) UntrustedControlPath);
  file ← sys (open_file (read_only true) path);
  opened ← sys (file_metadata file);
  _ ← io_lift (reject_if (negb (same_file opened before) || negb (checkpoint_file expected_uid opened)
                          || (max_bytes <? m_len opened)%Z) UntrustedControlPath);
  bytes ← sys (read_to_end file);
  _ ← io_lift (reject_if (bool_decide (bytes = "") || (max_bytes <? str_len bytes)%Z) UntrustedControlPath);
  after ← sys (symlink_metadata path);
  _ ← io_lift (reject_if (negb (checkpoint_path after) || negb (same_file after opened)
                          || negb (checkpoint_file expected_uid after)) UntrustedControlPath);
  mret bytes.

Definition validate_checkpoint_sha256 (value : string) : result DurableBootstrapError string :=
  _ ← reject_if (negb (sha256_text value)) (invalid_evidence "recovery checkpoint contains an invalid SHA-256");
  Ok (to_ascii_lowercase value).

Definition checkpoint_field (lines : list string) (prefix lacks : string) :
    result DurableBootstrapError (string * list string) :=
  match lines with
  | [] => Err (invalid_evidence lacks)
  | line :: rest => value ← ok_or (strip_prefix prefix line) (invalid_evidence lacks); Ok (value, rest)
  end.
Definition checkpoint_digest (lines : list string) (prefix lacks : string) :
    result DurableBootstrapError (string * list string) :=
  '(value, rest) ← checkpoint_field lines prefix lacks;
  value ← validate_checkpoint_sha256 value;
  Ok (value, rest).

Definition parse_recovery_checkpoint_manifest (bytes : string) :
    result DurableBootstrapError RecoveryCheckpointManifest :=
  _ ← reject_if (bool_decide (bytes = "") || (MAX_RECOVERY_CHECKPOINT_MANIFEST_BYTES <? str_len bytes)%Z)
        (invalid_evidence "recovery checkpoint manifest is empty or oversized");
  _ ← reject_if (negb (utf8_valid bytes)) (invalid_evidence "recovery checkpoint manifest is not UTF-8");
  index ← ok_or (rfind (String LF "integrity=") bytes)
    (invalid_evidence "recovery checkpoint manifest integrity record is missing");
  let '(payload, integrity_line) := split_at (index + 1) bytes in
  expected ← ok_or (match strip_prefix "integrity=" integrity_line with
                    | Some value => strip_suffix LF value
                    | None => None
                    end) (invalid_evidence "recovery checkpoint manifest integrity record is malformed");
  expected ← validate_checkpoint_sha256 expected;
  _ ← reject_if (negb (constant_time_ascii_eq (sha256_hex payload) expected))
        (invalid_evidence "recovery checkpoint manifest integrity does not match its payload");
  match lines payload with
  | [] => Err (invalid_evidence "unsupported recovery checkpoint manifest schema")
  | schema :: l =>
      _ ← reject_if (negb (bool_decide (schema = RECOVERY_CHECKPOINT_SCHEMA)))
            (invalid_evidence "unsupported recovery checkpoint manifest schema");
      '(generation, l) ← checkpoint_field l "state_generation="
        "recovery checkpoint manifest lacks state generation";
      state_generation ← ok_or (u64_parse generation)
        (invalid_evidence "recovery checkpoint state generation is invalid");
      '(state_sha256, l) ← checkpoint_digest l "state_sha256="
        "recovery checkpoint manifest lacks state digest";
      '(session_sha256, l) ← checkpoint_digest l "session_sha256="
        "recovery checkpoint manifest lacks session digest";
      '(anchor_sha256, l) ← checkpoint_digest l "anchor_sha256="
        "recovery checkpoint manifest lacks generation-anchor digest";
      match l with
      | [line] =>
          _ ← reject_if (negb (bool_decide (strip_prefix "resume_stage=" line = Some "recovery-checkpoint")))
                (invalid_evidence "recovery checkpoint manifest has an invalid resume stage or unexpected fields");
          Ok {| rc_state_generation := state_generation; rc_state_sha256 := state_sha256;
                rc_session_sha256 := session_sha256; rc_anchor_sha256 := anchor_sha256 |}
      | _ => Err (invalid_evidence
                    "recovery checkpoint manifest has an invalid resume stage or unexpected fields")
      end
  end.

Definition verify_checkpoint_digest (bytes expected label : string) : result DurableBootstrapError unit :=
  reject_if (negb (constant_time_ascii_eq (sha256_hex bytes) expected)) (invalid_evidence label).

(** What is read of the checkpoint, against the state. *)
Definition check_checkpoint (s : DurableBootstrapState) (m : RecoveryCheckpointManifest)
    (state_bytes session_bytes anchor_bytes : string) : result DurableBootstrapError unit :=
  _ ← verify_checkpoint_digest state_bytes (rc_state_sha256 m)
        "recovery checkpoint state digest does not match manifest";
  _ ← verify_checkpoint_digest session_bytes (rc_session_sha256 m)
        "recovery checkpoint session digest does not match manifest";
  _ ← verify_checkpoint_digest anchor_bytes (rc_anchor_sha256 m)
        "recovery checkpoint anchor digest does not match manifest";
  checkpoint_state ← parse_state state_bytes;
  _ ← reject_if (negb (bool_decide (checkpoint_state = s)))
        (invalid_evidence "recovery checkpoint state is not the exact active durable state");
  _ ← reject_if (negb (bool_decide (session_bytes = bs_session_id s +:+ String LF "")))
        (invalid_evidence "recovery checkpoint session identity is not exact-bound");
  checkpoint_anchor ← parse_generation_anchor anchor_bytes;
  reject_if (negb (ga_committed_generation checkpoint_anchor =? bs_generation s)%Z
             || negb (constant_time_ascii_eq (ga_committed_state_sha256 checkpoint_anchor)
                        (bootstrap_state_digest s))
             || present (ga_pending_generation checkpoint_anchor)
             || present (ga_pending_state_sha256 checkpoint_anchor))
    (invalid_evidence "recovery checkpoint generation anchor is not committed to the exact active state").

Definition verify_recovery_checkpoint_manifest (manifest : Path) : Action unit :=
  c ← coordinator;
  let s := bc_state c in
  _ ← act_check (active_effect_context s RecoveryCheckpoint);
  _ ← act_check (reject_if (negb (bool_decide (utf8_file_name manifest = Some "checkpoint.manifest")))
        (invalid_evidence "recovery checkpoint manifest has a non-canonical filename"));
  directory ← act_check (ok_or (parent manifest)
    (invalid_evidence "recovery checkpoint manifest has no parent directory"));
  directory_metadata ← act (sys (symlink_metadata directory));
  bad ← act (unprotected_directory directory_metadata);
  _ ← act_check (reject_if bad UntrustedControlPath);
  manifest_bytes ← act (protected_regular_file_bytes manifest MAX_RECOVERY_CHECKPOINT_MANIFEST_BYTES);
  parsed ← act_check (parse_recovery_checkpoint_manifest manifest_bytes);
  _ ← act_check (reject_if (negb (rc_state_generation parsed =? bs_generation s)%Z)
        (invalid_evidence "recovery checkpoint generation does not match the active durable state"));
  state_bytes ← act (protected_regular_file_bytes (join directory "bootstrap.state") MAX_BOOTSTRAP_STATE_BYTES);
  session_bytes ← act (protected_regular_file_bytes (join directory ".linura-bootstrap-session")
    MAX_RECOVERY_CHECKPOINT_SESSION_BYTES);
  anchor_bytes ← act (protected_regular_file_bytes (join directory "generation.anchor")
    MAX_GENERATION_ANCHOR_BYTES);
  _ ← act_check (check_checkpoint s parsed state_bytes session_bytes anchor_bytes);
  evidence ← act (issue_system_evidence s RecoveryCheckpoint "recovery-checkpoint-bundle-observation"
    ("checkpoint_manifest=" +:+ to_string_lossy manifest +:+ ";sha256=" +:+ sha256_hex manifest_bytes
     +:+ ";state_generation=" +:+ u64_to_string (rc_state_generation parsed)
     +:+ ";bundle_members=state,session,anchor;protected=true"));
  do_complete_effect_verified evidence.
End evidence.
