(* ===== verification/BootstrapBaseline.v ===== *)
(** * The observations behind bootstrap evidence

    [durable/verification.rs] of linura-bootstrap: the security baseline (the
    rules of the firewall, the units and processes that serve SSH, the package
    sources) and the network interfaces.  What commands print and what the
    files and directories of the host hold is the class [Observer], which may
    answer differently at every call. *)

From Stdlib Require Import ZArith Lia Ascii.
From stdpp Require Import base numbers gmap strings list fin_maps sorting.
From S2P Require Import Validation Ordered.
From S2P Require Import Prelude Text Fields Digest Paths Files ControlFiles SessionIdentity.
From S2P Require Import FileFacts UpdateEvidence BootstrapState BootstrapText BootstrapStore.

Set Default Goal Selector "!".

(** ** Text *)

(** [char::is_ascii_whitespace], [str::split_ascii_whitespace]. *)
Definition is_ascii_whitespace (a : Ascii.ascii) : bool :=
  let n := Ascii.N_of_ascii a in ((n =? 32) || (n =? 9) || (n =? 10) || (n =? 12) || (n =? 13))%N.

Definition flush (current : string) (rest : list string) : list string :=
  if bool_decide (current = "") then rest else current :: rest.

Fixpoint ascii_words (current : string) (s : string) : list string :=
  match s with
  | "" => flush current []
  | String a s' =>
      if is_ascii_whitespace a then flush current (ascii_words "" s')
      else ascii_words (current +:+ String a "") s'
  end%string.
Definition split_ascii_whitespace (s : string) : list string := ascii_words "" s.

(** [str::split] at every character that satisfies a predicate. *)
Fixpoint split_by (p : Ascii.ascii → bool) (s : string) : list string :=
  match s with
  | "" => [""]
  | String a s' =>
      if p a then "" :: split_by p s'
      else match split_by p s' with w :: ws => String a w :: ws | [] => [String a ""] end
  end%string.

(** [str::strip_suffix] of a text. *)
Fixpoint strip_suffix_str (suffix s : string) : option string :=
  if bool_decide (s = suffix) then Some ""%string
  else match s with
       | "" => None
       | String a s' => String a <$> strip_suffix_str suffix s'
       end%string.

(** [str::replace] of a two-character pattern by its second or first one: the
    matches do not overlap and are found from the left. *)
Fixpoint replace2 (a b : Ascii.ascii) (by_ : Ascii.ascii) (s : string) : string :=
  match s with
  | String x (String y s'' as s') =>
      if decide (x = a ∧ y = b) then String by_ (replace2 a b by_ s'') else String x (replace2 a b by_ s')
  | _ => s
  end.

(** [str::replace] of characters by nothing. *)
Fixpoint remove_chars (p : Ascii.ascii → bool) (s : string) : string :=
  match s with
  | "" => ""
  | String a s' => if p a then remove_chars p s' else String a (remove_chars p s')
  end%string.

Definition one_of (l : list string) (s : string) : bool := bool_decide (s ∈ l).

(** ** Firewall rules

    Characters beyond ASCII separate words, as each of their bytes does. *)
Inductive Quote := Unquoted | Quoted | Escaped.

Definition nft_word_char (a : Ascii.ascii) : bool :=
  let n := Ascii.N_of_ascii a in
  ((48 <=? n) && (n <=? 57) || (65 <=? n) && (n <=? 90) || (97 <=? n) && (n <=? 122)
   || (n =? 95) || (n =? 45) || (n =? 46))%N.

Definition QUOTE : Ascii.ascii := "034"%char.
Definition BACKSLASH : Ascii.ascii := "092"%char.

Fixpoint nft_scan (current : string) (quote : Quote) (s : string) : list string :=
  match s with
  | "" => flush current []
  | String a s' =>
      match quote with
      | Escaped => nft_scan current Quoted s'
      | Quoted =>
          if decide (a = BACKSLASH) then nft_scan current Escaped s'
          else if decide (a = QUOTE) then nft_scan current Unquoted s'
          else nft_scan current Quoted s'
      | Unquoted =>
          if decide (a = QUOTE) then flush current (nft_scan "" Quoted s')
          else if nft_word_char a then nft_scan (current +:+ String (ascii_lower a) "") Unquoted s'
          else flush current
                 (if one_of ["{"; "}"; ";"] (String a "") then String a "" :: nft_scan "" Unquoted s'
                  else nft_scan "" Unquoted s')
      end
  end%string.
Definition nft_tokens (rules : string) : list string := nft_scan "" Unquoted rules.

Definition next_is (values : list string) (rest : list string) : bool :=
  match rest with v :: _ => one_of values v | [] => false end.

Definition u32_saturating_add (x y : Z) : Z := Z.min u32_max (x + y).

(** The loop over a chain's body: what it found, and the tokens after it. *)
Fixpoint chain_body (depth : Z) (input_hook deny_policy : bool) (tokens : list string) :
    bool * bool * list string :=
  if (depth <=? 0)%Z then (input_hook, deny_policy, tokens)
  else
    match tokens with
    | [] => (input_hook, deny_policy, [])
    | t :: rest =>
        if bool_decide (t = "{") then chain_body (u32_saturating_add depth 1) input_hook deny_policy rest
        else if bool_decide (t = "}") then chain_body (u64_saturating_sub depth 1) input_hook deny_policy rest
        else if bool_decide (t = "hook") && (depth =? 1)%Z && next_is ["input"] rest
        then chain_body depth true deny_policy rest
        else if bool_decide (t = "policy") && (depth =? 1)%Z && next_is ["drop"; "reject"] rest
        then chain_body depth input_hook true rest
        else chain_body depth input_hook deny_policy rest
    end%string.

(** The loop over the chains; each round uses up a token. *)
Fixpoint find_deny_chain (rounds : nat) (tokens : list string) : bool :=
  match rounds, tokens with
  | S rounds, chain :: ((name :: brace :: rest) as tail) =>
      if negb (bool_decide (chain = "chain")) || negb (bool_decide (brace = "{"))
      then find_deny_chain rounds tail
      else
        let '(input_hook, deny_policy, after) := chain_body 1 false false rest in
        if input_hook && deny_policy then true else find_deny_chain rounds after
  | _, _ => false
  end%string.

Definition nft_input_base_chain_default_deny (rules : string) : bool :=
  let tokens := nft_tokens rules in find_deny_chain (length tokens) tokens.

(** ** The host *)
Record Output := { out_success : bool; out_stdout : string }.

Class Observer := {
  obs_command : nat → string → list string → result IoError Output;
  obs_file : nat → Path → result IoError string;
  obs_directory : nat → Path → result IoError (list (result IoError string));
  obs_link : nat → Path → result IoError Path;
  obs_exists : nat → Path → bool;
  obs_is_file : nat → Path → bool;
}.

Section baseline.
Context `{Crypto} `{Host} `{Observer}.

Abbreviation Probe := (IO DurableBootstrapError).

Definition observe {A} (answer : nat → result IoError A) : IO IoError A := call (λ n _ fs, (fs, answer n)).

(** [fs::read_to_string]. *)
Definition observe_text (path : Path) : IO IoError string :=
  _ ← call (λ _ _ fs, (fs, Ok tt));
  bytes ← observe (λ n, obs_file n path);
  io_lift (if utf8_valid bytes then Ok bytes
           else Err {| io_kind := OtherError; io_text := "stream did not contain valid UTF-8" |}).

Definition command_output (program : string) (args : list string) : Probe Output :=
  sys (observe (λ n, obs_command n program args)).

Definition firewall_default_deny : Probe bool :=
  output ← command_output "nft" ["list"; "ruleset"];
  mret (out_success output && nft_input_base_chain_default_deny (to_string_lossy (out_stdout output))).

(** ** Units *)
Definition systemd_unit_file_boot_enabled (state : string) : bool := one_of ["enabled"; "enabled-runtime"] state.

Definition systemd_unit_is_uninstantiated_template (unit : string) : bool :=
  match (match strip_suffix_str ".service" unit with
         | Some stem => Some stem
         | None => strip_suffix_str ".socket" unit
         end) with
  | Some stem => ends_with "@" stem
  | None => false
  end.

(** The unit of a line of [list-unit-files], and of [list-units]. *)
Definition enabled_unit (line : string) : option string :=
  match split_ascii_whitespace line with
  | unit :: state :: _ =>
      if systemd_unit_file_boot_enabled state && negb (systemd_unit_is_uninstantiated_template unit)
      then Some unit else None
  | _ => None
  end.
Definition running_states : list string := ["active"; "activating"; "reloading"].
Definition running_unit (line : string) : option string :=
  match split_ascii_whitespace line with
  | unit :: _ :: state :: _ => if one_of running_states state then Some unit else None
  | _ => None
  end.

Definition systemd_candidate_units : Probe (gset string) :=
  unit_files ← command_output "systemctl"
    ["list-unit-files"; "--type=service"; "--type=socket"; "--no-legend"; "--no-pager"];
  _ ← io_lift (reject_if (negb (out_success unit_files))
        (InvalidVerificationEvidence "systemd unit-file state could not be observed"));
  runtime ← command_output "systemctl"
    ["list-units"; "--all"; "--type=service"; "--type=socket"; "--no-legend"; "--no-pager"];
  _ ← io_lift (reject_if (negb (out_success runtime))
        (InvalidVerificationEvidence "systemd runtime service state could not be observed"));
  mret (list_to_set (omap enabled_unit (lines (to_string_lossy (out_stdout unit_files))))
        ∪ list_to_set (omap running_unit (lines (to_string_lossy (out_stdout runtime))))).

Definition ssh_ids : list string := ["ssh.service"; "sshd.service"; "ssh.socket"; "sshd.socket"].
Definition field_in (name : string) (values : list string) (line : string) : bool :=
  match strip_prefix name line with Some v => one_of values v | None => false end.

Definition ssh_serving_unit (properties : string) : bool :=
  let lower := to_ascii_lowercase properties in
  str_contains "sshd" lower || str_contains "openssh" lower || str_contains "dropbear" lower
  || existsb (field_in "id=" ssh_ids) (lines lower).

Definition ssh_unit_exposes_runtime_or_boot (properties : string) : bool :=
  existsb (λ line, field_in "ActiveState=" running_states line
                   || match strip_prefix "UnitFileState=" line with
                      | Some state => systemd_unit_file_boot_enabled state
                      | None => false
                      end) (lines properties).

(** ** Listeners *)
Fixpoint listener_lines (l : list string) : result DurableBootstrapError (list Z) :=
  match l with
  | [] => Ok []
  | line :: l =>
      if bool_decide (str_trim line = "") then listener_lines l
      else
        let fields := split_ascii_whitespace line in
        match fields !! 3%nat, fields !! 9%nat with
        | Some state, Some field =>
            if negb (bool_decide (state = "0A")) then listener_lines l
            else
              inode ← ok_or (u64_parse field)
                (InvalidVerificationEvidence "kernel TCP listener inode is malformed");
              _ ← reject_if (inode =? 0)%Z
                    (InvalidVerificationEvidence "kernel TCP listener inode is missing");
              inodes ← listener_lines l;
              Ok (inode :: inodes)
        | _, _ => Err (InvalidVerificationEvidence "kernel TCP listener table is malformed")
        end
  end%string.
Definition tcp_listener_inodes_from_text (text : string) : result DurableBootstrapError (list Z) :=
  listener_lines (drop 1 (lines text)).

Definition tcp_listener_inodes (path : Path) (optional : bool) : Probe (list Z) :=
  r ← attempt (observe_text path);
  match r with
  | Ok text => io_lift (tcp_listener_inodes_from_text text)
  | Err error =>
      match io_kind error with
      | NotFound => if optional then mret [] else io_fail (io_error error)
      | _ => io_fail (io_error error)
      end
  end.

Definition ssh_server_process (process : Path) : Probe bool :=
  r ← attempt (observe_text (join process "comm"));
  match r with
  | Ok comm => mret (one_of ["sshd"; "dropbear"; "tinysshd"] (str_trim comm))
  | Err error => match io_kind error with NotFound => mret false | _ => io_fail (io_error error) end
  end.

Definition socket_inode (target : Path) : option Z :=
  if utf8_valid target then
    match strip_prefix "socket:[" target with
    | Some rest => match strip_suffix "]" rest with Some digits => u64_parse digits | None => None end
    | None => None
    end
  else None.

(** The loop over the descriptors of a process: does one of them listen. *)
Fixpoint descriptors_listen (listeners : list Z) (directory : Path) (l : list (result IoError string)) : Probe bool :=
  match l with
  | [] => mret false
  | entry :: l =>
      name ← sys (io_lift entry);
      r ← attempt (observe (λ n, obs_link n (join directory name)));
      match r with
      | Err error =>
          match io_kind error with
          | NotFound => descriptors_listen listeners directory l
          | _ => io_fail (io_error error)
          end
      | Ok target =>
          match socket_inode target with
          | Some inode =>
              if bool_decide (inode ∈ listeners) then mret true else descriptors_listen listeners directory l
          | None => descriptors_listen listeners directory l
          end
      end
  end.

Definition process_listens (listeners : list Z) (process : Path) : Probe bool :=
  server ← ssh_server_process process;
  if negb server then mret false
  else
    let fd := join process "fd" in
    r ← attempt (observe (λ n, obs_directory n fd));
    match r with
    | Ok entries => descriptors_listen listeners fd entries
    | Err error => match io_kind error with NotFound => mret false | _ => io_fail (io_error error) end
    end.

(** A name of [/proc] that is a process. *)
Definition process_name (name : string) : bool := utf8_valid name && all_digits name.

Fixpoint processes_listen (listeners : list Z) (l : list (result IoError string)) : Probe bool :=
  match l with
  | [] => mret false
  | entry :: l =>
      name ← sys (io_lift entry);
      if negb (process_name name) then processes_listen listeners l
      else
        found ← process_listens listeners (join "/proc" name);
        if found : bool then mret true else processes_listen listeners l
  end.

Definition ssh_listener_running : Probe bool :=
  listeners ← tcp_listener_inodes "/proc/net/tcp" false;
  listeners6 ← tcp_listener_inodes "/proc/net/tcp6" true;
  match listeners ++ listeners6 with
  | [] => mret false
  | listeners =>
      entries ← sys (observe (λ n, obs_directory n "/proc"));
      processes_listen listeners entries
  end.

Definition show_args (unit : string) : list string :=
  ["show"; unit; "--property=Id"; "--property=Names"; "--property=Description"; "--property=ExecStart";
   "--property=FragmentPath"; "--property=ActiveState"; "--property=UnitFileState"; "--no-pager"].

(** The loop over the units: does one of them expose SSH. *)
Fixpoint units_expose (units : list string) : Probe bool :=
  match units with
  | [] => mret false
  | unit :: units =>
      output ← command_output "systemctl" (show_args unit);
      if negb (out_success output) then
        again ← systemd_candidate_units;
        _ ← io_lift (reject_if (bool_decide (unit ∈ again))
              (InvalidVerificationEvidence "systemd candidate service properties could not be observed"));
        units_expose units
      else
        let properties := to_string_lossy (out_stdout output) in
        if ssh_serving_unit properties && ssh_unit_exposes_runtime_or_boot properties then mret true
        else units_expose units
  end.

Definition ssh_enabled_once : Probe bool :=
  units ← systemd_candidate_units;
  exposed ← units_expose (btree_elements units);
  if exposed : bool then mret true else ssh_listener_running.

Definition SSH_OBSERVATION_ATTEMPTS : nat := 4.

(** The attempts that are left after one that failed, if any. *)
Fixpoint retry_observation (attempts : nat) (last_error : DurableBootstrapError) (f : Probe bool) : Probe bool :=
  match attempts with
  | O => io_fail last_error
  | S attempts =>
      r ← attempt f;
      match r with
      | Ok exposed => mret exposed
      | Err error => retry_observation attempts error f
      end
  end.
Definition retry_ssh_observation : Probe bool → Probe bool :=
  retry_observation SSH_OBSERVATION_ATTEMPTS
    (InvalidVerificationEvidence "SSH exposure observation did not execute").

Definition ssh_enabled : Probe bool := retry_ssh_observation ssh_enabled_once.

(** ** Package sources *)
Inductive AptSourceFormat := OneLine | Deb822.

Definition apt_security_field (name : string) : bool :=
  one_of ["trusted"; "allowinsecure"; "allowweak"; "allowdowngradetoinsecurerepositories"]
    (remove_chars (λ a, bool_decide (a = "-"%char ∨ a = "_"%char)) (to_ascii_lowercase (str_trim name))).

Definition apt_affirmative (value : string) : bool :=
  existsb (λ token, one_of ["yes"; "true"; "1"] (to_ascii_lowercase token))
    (split_by (λ a, is_ascii_whitespace a || bool_decide (a = ","%char)) value).

Definition insecure_option (token : string) : bool :=
  match split_once "=" token with
  | Some (name, value) => apt_security_field name && apt_affirmative value
  | None => false
  end.

Definition one_line_apt_source_fail_closed (line : string) : bool :=
  let line := str_trim (match split "#" line with first :: _ => first | [] => "" end) in
  if bool_decide (line = "") then true
  else
    match split_once "[" line with
    | None => true
    | Some (_, after) =>
        match split_once "]" after with
        | None => false
        | Some (options, _) =>
            let normalized := to_ascii_lowercase (replace2 "=" " " "=" (replace2 " " "=" "=" options)) in
            negb (existsb insecure_option (split_ascii_whitespace normalized))
        end
    end%string.

(** [char::is_whitespace] of the first character. *)
Definition starts_with_whitespace (s : string) : bool :=
  match chars s with c :: _ => is_whitespace c | [] => false end.

Definition is_security_field (o : option string) : bool :=
  match o with Some name => apt_security_field name | None => false end.

Fixpoint deb822_fail_closed (current_field : option string) (l : list string) : bool :=
  match l with
  | [] => true
  | raw :: l =>
      let trimmed := str_trim raw in
      if bool_decide (trimmed = "") || starts_with "#" trimmed then deb822_fail_closed None l
      else if starts_with_whitespace raw then
        if is_security_field current_field && apt_affirmative trimmed then false
        else deb822_fail_closed current_field l
      else
        match split_once ":" raw with
        | None => false
        | Some (name, value) =>
            if apt_security_field name && apt_affirmative value then false
            else deb822_fail_closed (Some (str_trim name)) l
        end
  end%string.

Definition apt_source_text_fail_closed (text : string) (format : AptSourceFormat) : bool :=
  match format with
  | OneLine => forallb one_line_apt_source_fail_closed (lines text)
  | Deb822 => deb822_fail_closed None (lines text)
  end.

Definition check_apt_file (path : Path) (format : AptSourceFormat) : Probe bool :=
  text ← sys (observe_text path);
  mret (apt_source_text_fail_closed text format).

(** [Path::exists] and [Path::is_file], which answer no where they fail. *)
Definition observe_bool (answer : nat → bool) : Probe bool :=
  r ← attempt (observe (λ n, Ok (answer n)));
  mret (match r with Ok b => b | Err _ => false end).

(** [path.extension().and_then(|value| value.to_str())]. *)
Definition utf8_extension (p : Path) : option string :=
  match file_name p with
  | Some name =>
      match rsplit_once "." name with
      | Some (stem, extension) =>
          if bool_decide (stem = "") || negb (utf8_valid extension) then None else Some extension
      | None => None
      end
  | None => None
  end.
Definition apt_format (p : Path) : option AptSourceFormat :=
  match utf8_extension p with
  | Some "list" => Some OneLine
  | Some "sources" => Some Deb822
  | _ => None
  end%string.

Fixpoint apt_files_fail_closed (directory : Path) (l : list (result IoError string)) : Probe bool :=
  match l with
  | [] => mret true
  | entry :: l =>
      name ← sys (io_lift entry);
      let path := join directory name in
      regular ← observe_bool (λ n, obs_is_file n path);
      if negb regular then apt_files_fail_closed directory l
      else
        match apt_format path with
        | None => apt_files_fail_closed directory l
        | Some format =>
            closed ← check_apt_file path format;
            if negb closed then mret false else apt_files_fail_closed directory l
        end
  end.

Definition APT_SOURCES : Path := "/etc/apt/sources.list".
Definition APT_SOURCES_DIRECTORY : Path := "/etc/apt/sources.list.d".

Definition primary_fail_closed : Probe bool :=
  present ← observe_bool (λ n, obs_exists n APT_SOURCES);
  if present : bool then check_apt_file APT_SOURCES OneLine else mret true.

Definition apt_sources_fail_closed : Probe bool :=
  closed ← primary_fail_closed;
  if negb closed then mret false
  else
    present ← observe_bool (λ n, obs_exists n APT_SOURCES_DIRECTORY);
    if negb present then mret true
    else
      entries ← sys (observe (λ n, obs_directory n APT_SOURCES_DIRECTORY));
      apt_files_fail_closed APT_SOURCES_DIRECTORY entries.

(** ** Evidence of the security baseline *)
Definition security_postcondition : string :=
  "disk-encryption-claim=absent;inbound-firewall=default-deny;ssh-enabled=false;untrusted-package-sources=false".

(** [map_err] that forgets the error. *)
Definition unobserved {A} (reason : string) (m : Probe A) : Probe A :=
  io_map_err (λ _, InvalidVerificationEvidence reason) m.

Definition verify_security_baseline : Action unit :=
  c ← coordinator;
  _ ← act_check (active_effect_context (bc_state c) SecurityBaseline);
  ssh_exposed ← act (unobserved "Q8 security baseline could not observe SSH exposure" ssh_enabled);
  _ ← act_check (reject_if ssh_exposed
        (InvalidVerificationEvidence "Q8 security baseline rejected SSH exposure"));
  firewall_fail_closed ← act (unobserved "Q8 security baseline could not observe firewall policy" firewall_default_deny);
  _ ← act_check (reject_if (negb firewall_fail_closed)
        (InvalidVerificationEvidence "Q8 security baseline requires inbound default-deny firewall"));
  apt_fail_closed ← act (unobserved "Q8 security baseline could not observe APT source policy" apt_sources_fail_closed);
  _ ← act_check (reject_if (negb apt_fail_closed)
        (InvalidVerificationEvidence "Q8 security baseline rejected insecure APT source override"));
  evidence ← act (issue_system_evidence (bc_state c) SecurityBaseline "q8-system-security-observation"
    security_postcondition);
  do_complete_effect_verified evidence.

(** ** The network *)
Definition NET_DIRECTORY : Path := "/sys/class/net".

(** The names of the entries: the first that fails ends the reading. *)
Fixpoint interface_names (l : list (result IoError string)) : result DurableBootstrapError (list string) :=
  match l with
  | [] => Ok []
  | entry :: l =>
      name ← map_err io_error entry;
      _ ← reject_if (negb (utf8_valid name)) (InvalidVerificationEvidence "network interface name is not UTF-8");
      names ← interface_names l;
      Ok (name :: names)
  end.

Fixpoint operational_interfaces (l : list string) : Probe (list string) :=
  match l with
  | [] => mret []
  | interface :: l =>
      if bool_decide (interface = "lo") then operational_interfaces l
      else
        state ← sys (observe_text (join (join NET_DIRECTORY interface) "operstate"));
        r ← attempt (observe_text (join (join NET_DIRECTORY interface) "carrier"));
        let carrier := match r with Ok text => text | Err _ => "0" end in
        rest ← operational_interfaces l;
        mret (if one_of ["up"; "unknown"; "dormant"] (str_trim state) || bool_decide (str_trim carrier = "1")
              then interface :: rest else rest)
  end%string.

Definition is_empty {A} (l : list A) : bool := match l with [] => true | _ => false end.

(** The selection of the manifest against the interfaces. *)
Definition check_selection (selection : option BootstrapConnectivity) (operational : list string) :
    result DurableBootstrapError unit :=
  match selection with
  | Some Offline =>
      reject_if (negb (is_empty operational)) (InvalidVerificationEvidence
        "offline Provisioning Manifest selection conflicts with active non-loopback connectivity")
  | Some BoundedNetwork =>
      reject_if (is_empty operational) (InvalidVerificationEvidence
        "bounded-network Provisioning Manifest selection has no operational non-loopback interface")
  | None => Ok tt
  end.

Definition selection_str (selection : option BootstrapConnectivity) : string :=
  match selection with Some c => connectivity_str c | None => "unspecified" end.

Definition verify_connectivity_observation : Action unit :=
  c ← coordinator;
  _ ← act_check (active_effect_context (bc_state c) BootstrapConnectivityResolution);
  entries ← act (sys (observe (λ n, obs_directory n NET_DIRECTORY)));
  names ← act_check (interface_names entries);
  let interfaces := merge_sort String.le names in
  _ ← act_check (reject_if (is_empty interfaces)
        (InvalidVerificationEvidence "no network interface was authoritatively observed"));
  operational ← act (operational_interfaces interfaces);
  let selection := pr_manifest_connectivity (bs_provisioning (bc_state c)) in
  _ ← act_check (check_selection selection operational);
  evidence ← act (issue_system_evidence (bc_state c) BootstrapConnectivityResolution
    "kernel-network-interface-observation"
    ("selection=" +:+ selection_str selection +:+ ";interfaces=" +:+ String.concat "," interfaces
     +:+ ";operational_non_loopback=" +:+ String.concat "," operational));
  do_complete_effect_verified evidence.
End baseline.

(** ** What the firewall check accepts

    The text of a ruleset as chains among other words. *)
Inductive Segment :=
| Filler (tokens : list string)
| Chain (name : string) (body : list string).

Definition segment_tokens (s : Segment) : list string :=
  match s with
  | Filler tokens => tokens
  | Chain name body => "chain" :: name :: "{" :: body ++ ["}"]
  end%string.

Definition depth_after (t : string) (depth : Z) : Z :=
  if bool_decide (t = "{") then u32_saturating_add depth 1
  else if bool_decide (t = "}") then u64_saturating_sub depth 1
  else depth.

(** Every brace that is closed in the body was opened in it. *)
Fixpoint balanced (depth : Z) (body : list string) : bool :=
  match body with
  | [] => (depth =? 1)%Z
  | t :: body => (0 <? depth_after t depth)%Z && balanced (depth_after t depth) body
  end.

(** A word outside of inner braces, followed by one of the values. *)
Fixpoint declares (depth : Z) (key : string) (values : list string) (body : list string) : bool :=
  match body with
  | [] => false
  | t :: body =>
      bool_decide (t = key) && (depth =? 1)%Z && next_is values body
      || declares (depth_after t depth) key values body
  end.

Definition segment_ok (s : Segment) : Prop :=
  match s with
  | Filler tokens => "chain"%string ∉ tokens
  | Chain _ body => balanced 1 body = true
  end.

Definition is_input_hook (body : list string) : bool := declares 1 "hook" ["input"%string] body.
Definition is_deny_policy (body : list string) : bool := declares 1 "policy" ["drop"; "reject"]%string body.
Definition denies (s : Segment) : bool :=
  match s with Filler _ => false | Chain _ body => is_input_hook body && is_deny_policy body end.

Lemma next_is_app values body after :
  "}"%string ∉ values → next_is values (body ++ "}"%string :: after) = next_is values body.
Proof. intros Hv. destruct body as [|t body]; [|done]. cbn. unfold one_of. by rewrite bool_decide_eq_false_2. Qed.

Lemma chain_body_closed depth h p body after :
  (0 < depth)%Z → balanced depth body = true →
  chain_body depth h p (body ++ "}"%string :: after) =
    (h || declares depth "hook" ["input"%string] body, p || declares depth "policy" ["drop"; "reject"]%string body, after).
Proof.
  revert depth h p. induction body as [|t body IH]; intros depth h p Hd; cbn [balanced declares app].
  - intros ->%Z.eqb_eq. rewrite !orb_false_r. cbn. by destruct after.
  - rewrite andb_true_iff, Z.ltb_lt. intros [Hd' Hb]. cbn [chain_body]. rewrite (proj2 (Z.leb_gt depth 0)) by done.
    rewrite !next_is_app by (apply (bool_decide_eq_true_1 (_ ∉ _)); reflexivity). unfold depth_after in *.
    destruct (decide (t = "{"%string)) as [->|H1].
    { rewrite bool_decide_eq_true_2 in * by done. by rewrite IH. }
    rewrite (bool_decide_eq_false_2 (t = "{"%string)) in * by done.
    destruct (decide (t = "}"%string)) as [->|H2].
    { rewrite bool_decide_eq_true_2 in * by done. by rewrite IH. }
    rewrite (bool_decide_eq_false_2 (t = "}"%string)) in * by done.
    destruct (decide (t = "hook"%string)) as [->|H3].
    { rewrite (bool_decide_eq_true_2 ("hook"%string = "hook"%string)) by done.
      rewrite (bool_decide_eq_false_2 ("hook"%string = "policy"%string)) by done. rewrite !andb_true_l, !andb_false_l, !orb_false_l.
      destruct ((depth =? 1)%Z && next_is ["input"%string] body); rewrite IH by done; [by destruct h|done]. }
    rewrite (bool_decide_eq_false_2 (t = "hook"%string)) by done. cbn [andb orb].
    destruct (bool_decide (t = "policy"%string) && (depth =? 1)%Z && next_is ["drop"; "reject"]%string body) eqn:E;
      rewrite ?E, IH by done; cbn; [by destruct p|done].
Qed.

(** The chains are found whatever lies between them, in as many rounds as there
    are tokens. *)
Lemma find_skip rounds t l :
  t ≠ "chain"%string → find_deny_chain (S rounds) (t :: l) = find_deny_chain rounds l.
Proof.
  intros Ht. destruct l as [|x [|y l]]; [by destruct rounds..|]. cbn [find_deny_chain].
  by rewrite bool_decide_eq_false_2.
Qed.

Lemma find_filler rounds ts l :
  "chain"%string ∉ ts → find_deny_chain (length ts + rounds) (ts ++ l) = find_deny_chain rounds l.
Proof.
  induction ts as [|t ts IH]; [done|]. intros Hts. cbn [app length Nat.add].
  rewrite find_skip by set_solver. apply IH. set_solver.
Qed.

Lemma find_chain rounds name body l :
  balanced 1 body = true →
  find_deny_chain (S rounds) (segment_tokens (Chain name body) ++ l) =
    denies (Chain name body) || find_deny_chain rounds l.
Proof.
  intros Hb. cbn [segment_tokens app find_deny_chain negb orb]. rewrite !bool_decide_eq_true_2 by done. cbn [negb orb].
  rewrite <- (assoc_L (++)). cbn [app]. rewrite chain_body_closed by done. cbn [denies orb].
  unfold is_input_hook, is_deny_policy. by destruct (_ && _).
Qed.

Lemma find_segments rounds segs :
  Forall segment_ok segs → (length (concat (segment_tokens <$> segs)) ≤ rounds)%nat →
  find_deny_chain rounds (concat (segment_tokens <$> segs)) = existsb denies segs.
Proof.
  intros Hs. revert rounds. induction Hs as [|s segs Hs _ IH]; intros rounds Hr; [by destruct rounds|].
  cbn [fmap list_fmap concat existsb] in *. rewrite length_app in Hr. destruct s as [ts|name body].
  - cbn [segment_tokens denies orb] in *. replace rounds with (length ts + (rounds - length ts))%nat by lia.
    rewrite find_filler by done. apply IH. lia.
  - destruct rounds as [|rounds]; [cbn in Hr; lia|]. rewrite find_chain by done. f_equal. apply IH.
    cbn [segment_tokens length] in Hr. lia.
Qed.

(** C39: On every text whose words are chains with balanced braces among other
    words, the check of the firewall answers yes exactly if one of the chains
    declares, outside of inner braces, the input hook and a policy to drop or
    reject; in particular its loops end. *)
Theorem firewall_check_exact rules segs :
  nft_tokens rules = concat (segment_tokens <$> segs) → Forall segment_ok segs →
  nft_input_base_chain_default_deny rules = true ↔
  ∃ name body, Chain name body ∈ segs ∧ is_input_hook body = true ∧ is_deny_policy body = true.
Proof.
  intros Ht Hs. unfold nft_input_base_chain_default_deny. rewrite Ht, find_segments by done.
  rewrite existsb_exists. split.
  - intros ([ts|name body] & Hin%list_elem_of_In & Hd); [done|]. apply andb_true_iff in Hd. eauto.
  - intros (name & body & Hin & H1 & H2). exists (Chain name body). split; [by apply list_elem_of_In|].
    cbn. by rewrite H1, H2.
Qed.

(** ** What was observed when nothing was found *)
Section observed.
Context `{Observer} (env : FsEnv).
Abbreviation Probe := (IO DurableBootstrapError).

(** The questions that a run asks, by the number of the call that asks: from
    call [n], the next being [m], the host was asked and answered [r]. *)
Definition asked {A} (answer : nat → result IoError A) (n m : nat) (r : result IoError A) : Prop :=
  m = S n ∧ fault env n = None ∧ answer n = r.

Lemma observe_Ok {A} (f : nat → result IoError A) w w' a :
  observe f env w = (w', Some (Ok a)) → asked f (w_calls w) (w_calls w') (Ok a).
Proof.
  unfold observe, call, call_with. destruct (killed _ _); [done|]. destruct (fault _ _) eqn:Ef; [done|].
  by intros [= <- E].
Qed.
Lemma observe_NotFound {A} (f : nat → result IoError A) w w' e :
  observe f env w = (w', Some (Err e)) → io_kind e = NotFound → asked f (w_calls w) (w_calls w') (Err e).
Proof.
  unfold observe, call, call_with. destruct (killed _ _); [done|].
  destruct (fault _ _) eqn:Ef; [by intros [= _ <-]|]. by intros [= <- E].
Qed.
Lemma attempt_Ok {E F A} (m : IO E A) w w' (r : result E A) :
  @attempt E F A m env w = (w', Some (Ok r)) → m env w = (w', Some r).
Proof. unfold attempt. destruct (m env w) as [w1 [x|]]; [|done]. by intros [= -> ->]. Qed.
Lemma ret_Ok {E A} (a b : A) w w' : mret (M := IO E) a env w = (w', Some (Ok b)) → w = w' ∧ a = b.
Proof. by intros [= -> ->]. Qed.

(** The answers to the questions that the code asks. *)
Definition absent {A} (r : result IoError A) : Prop :=
  match r with Err e => io_kind e = NotFound | Ok _ => False end.
Definition printed (program : string) (args : list string) (n m : nat) (out : Output) : Prop :=
  asked (λ k, obs_command k program args) n m (Ok out).
(** A file is opened by one call and read by the next. *)
Definition file_read (path : Path) (n m : nat) (r : result IoError string) : Prop :=
  fault env n = None ∧ asked (λ k, obs_file k path) (S n) m r.
Definition contained (path : Path) (n m : nat) (text : string) : Prop := file_read path n m (Ok text).
Definition listed (path : Path) (n m : nat) (entries : list (result IoError string)) : Prop :=
  asked (λ k, obs_directory k path) n m (Ok entries).

Lemma command_Ok program args w w' out :
  command_output program args env w = (w', Some (Ok out)) → printed program args (w_calls w) (w_calls w') out.
Proof. intros Hc%io_map_err_Ok. by apply observe_Ok in Hc. Qed.

Lemma text_opened path w w' r :
  observe_text path env w = (w', Some r) →
  (∃ e, r = Err e ∧ io_kind e = OtherError) ∨
  ∃ w1, w_calls w1 = S (w_calls w) ∧ fault env (w_calls w) = None ∧
    ((∃ text, r = Ok text ∧ observe (λ n, obs_file n path) env w1 = (w', Some (Ok text))) ∨
     ∃ e, r = Err e ∧ observe (λ n, obs_file n path) env w1 = (w', Some (Err e))).
Proof.
  unfold observe_text. unfold mbind at 1, io_bind at 1. unfold call at 1, call_with at 1.
  destruct (killed _ _); [done|]. destruct (fault _ _) eqn:Ef; [intros [= _ <-]; left; eauto|].
  set (w1 := {| w_fs := _; w_calls := _ |}). unfold mbind, io_bind.
  destruct (observe _ env w1) as [w2 [[b|e]|]] eqn:E; [| |done].
  - unfold io_lift. destruct (utf8_valid b); intros [= <- <-]; [right|left; eauto].
    exists w1. split_and!; [done..|left; eauto].
  - intros [= <- <-]. right. exists w1. split_and!; [done..|right; eauto].
Qed.

Lemma text_Ok path w w' text :
  observe_text path env w = (w', Some (Ok text)) → contained path (w_calls w) (w_calls w') text.
Proof.
  intros [(e & ? & _)|(w1 & Hw & Hf & [(t & [= <-] & Ho%observe_Ok)|(e & ? & _)])]%text_opened; [done| |done].
  rewrite Hw in Ho. by split.
Qed.
Lemma text_NotFound path w w' e :
  observe_text path env w = (w', Some (Err e)) → io_kind e = NotFound →
  file_read path (w_calls w) (w_calls w') (Err e).
Proof.
  intros [(e' & [= <-] & Hk)|(w1 & Hw & Hf & [(t & ? & _)|(e' & [= <-] & Ho)])]%text_opened Hn;
    [congruence|done|]. apply observe_NotFound in Ho; [|done]. rewrite Hw in Ho. by split.
Qed.

(** An enumeration of units: two commands, one after the other. *)
Definition enumerated (n m : nat) (units : gset string) : Prop :=
  ∃ files runtime k,
    printed "systemctl" ["list-unit-files"; "--type=service"; "--type=socket"; "--no-legend"; "--no-pager"] n k files
    ∧ printed "systemctl" ["list-units"; "--all"; "--type=service"; "--type=socket"; "--no-legend"; "--no-pager"] k m runtime
    ∧ out_success files = true ∧ out_success runtime = true
    ∧ units = list_to_set (omap enabled_unit (lines (to_string_lossy (out_stdout files))))
              ∪ list_to_set (omap running_unit (lines (to_string_lossy (out_stdout runtime)))).

Lemma candidates_Ok w w' units :
  systemd_candidate_units env w = (w', Some (Ok units)) → enumerated (w_calls w) (w_calls w') units.
Proof.
  unfold systemd_candidate_units. intros E. io_inv. apply ret_Ok in E as [<- <-].
  repeat match goal with
  | E : command_output _ _ _ _ = _ |- _ => apply command_Ok in E
  | E : negb _ = false |- _ => apply negb_false_iff in E
  end. by eexists _, _, _.
Qed.

(** A unit whose properties, shown by a call of the window, do not expose SSH,
    or whose properties could not be shown and that the enumeration taken by
    the very next calls no longer has. *)
Definition unit_harmless (from to : nat) (unit : string) : Prop :=
  ∃ n k out, from ≤ n ∧ k ≤ to ∧ printed "systemctl" (show_args unit) n k out ∧
    (out_success out = true ∧
       ssh_serving_unit (to_string_lossy (out_stdout out))
       && ssh_unit_exposes_runtime_or_boot (to_string_lossy (out_stdout out)) = false ∨
     out_success out = false ∧ ∃ again j, enumerated k j again ∧ j ≤ to ∧ unit ∉ again).

Lemma printed_next program args n m out : printed program args n m out → n ≤ m.
Proof. intros [-> _]. lia. Qed.
Lemma enumerated_next n m units : enumerated n m units → n ≤ m.
Proof. intros (f & r & k & H1%printed_next & H2%printed_next & _). lia. Qed.

Lemma unit_harmless_later from from' to unit :
  unit_harmless from to unit → from' ≤ from → unit_harmless from' to unit.
Proof. intros (n & k & out & Hn & Hk & Hp) Hle. exists n, k, out. split; [lia|done]. Qed.

Lemma units_harmless l w w' :
  units_expose l env w = (w', Some (Ok false)) →
  w_calls w ≤ w_calls w' ∧ Forall (unit_harmless (w_calls w) (w_calls w')) l.
Proof.
  revert w. induction l as [|unit l IH]; intros w; cbn [units_expose].
  { intros [<- _]%ret_Ok. by split; [|constructor]. }
  intros E. apply io_bind_Ok in E as (w1 & out & Hout%command_Ok & E).
  assert (Hnext := printed_next _ _ _ _ _ Hout).
  destruct (out_success out) eqn:Es; cbn [negb] in E.
  - destruct (_ && _) eqn:Eb; [by apply ret_Ok in E as [_ ?]|]. apply IH in E as [Hle Hall].
    split; [lia|]. constructor; [exists (w_calls w), (w_calls w1), out; split_and!; [done..|by left]|].
    eapply Forall_impl; [exact Hall|]. intros x Hx. by eapply unit_harmless_later.
  - apply io_bind_Ok in E as (w2 & again & Ha%candidates_Ok & E). assert (Hnext2 := enumerated_next _ _ _ Ha).
    apply io_bind_Ok in E as (w3 & [] & Hr & E). apply io_lift_Ok in Hr as [-> Hr%reject_if_Ok].
    apply bool_decide_eq_false in Hr. apply IH in E as [Hle Hall]. split; [lia|]. constructor.
    + exists (w_calls w), (w_calls w1), out. split_and!; [done|lia|done|right].
      split; [done|]. by exists again, (w_calls w2).
    + eapply Forall_impl; [exact Hall|]. intros x Hx. eapply unit_harmless_later; [done|lia].
Qed.

(** The table of listeners. *)
Definition listening (path : Path) (n m : nat) (inodes : list Z) : Prop :=
  ∃ text, contained path n m text ∧ tcp_listener_inodes_from_text text = Ok inodes.
(** There is no such file. *)
Definition no_file (path : Path) (n m : nat) : Prop := ∃ r, file_read path n m r ∧ absent r.

Lemma listeners_Ok path optional w w' inodes :
  tcp_listener_inodes path optional env w = (w', Some (Ok inodes)) →
  listening path (w_calls w) (w_calls w') inodes ∨
  optional = true ∧ inodes = [] ∧ no_file path (w_calls w) (w_calls w').
Proof.
  unfold tcp_listener_inodes. intros E. apply io_bind_Ok in E as (w1 & r & Hr%attempt_Ok & E).
  destruct r as [text|e].
  - apply io_lift_Ok in E as [-> E]. apply text_Ok in Hr. left. by exists text.
  - destruct (io_kind e) eqn:Ek; [|by apply io_lift_Ok in E as [_ ?]..].
    destruct optional; [|by apply io_lift_Ok in E as [_ ?]]. apply ret_Ok in E as [<- <-]. right.
    split_and!; [done..|]. apply text_NotFound in Hr; [|done]. by eexists.
Qed.

(** A descriptor that is gone or is not one of the listeners. *)
Definition descriptor_harmless (from to : nat) (listeners : list Z) (path : Path) : Prop :=
  ∃ n m r, from ≤ n ∧ m ≤ to ∧ asked (λ k, obs_link k path) n m r ∧
    (absent r ∨ ∃ target, r = Ok target ∧ ∀ inode, socket_inode target = Some inode → inode ∉ listeners).
(** A process that is gone or whose name is not the one of a server, or none of
    whose descriptors, listed by the next call, is one of the listeners. *)
Definition process_harmless (from to : nat) (listeners : list Z) (process : Path) : Prop :=
  ∃ n m, from ≤ n ∧ m ≤ to ∧
   (no_file (join process "comm") n m ∨
    ∃ comm, contained (join process "comm") n m comm ∧
      (one_of ["sshd"; "dropbear"; "tinysshd"] (str_trim comm) = false ∨
       ∃ k r, asked (λ k, obs_directory k (join process "fd")) m k r ∧ k ≤ to ∧
         (absent r ∨
          ∃ entries, r = Ok entries ∧
            ∀ name, Ok name ∈ entries → descriptor_harmless k to listeners (join (join process "fd") name)))).

Lemma asked_next {A} (f : nat → result IoError A) n m r : asked f n m r → n ≤ m.
Proof. intros [-> _]. lia. Qed.
Lemma read_next path n m r : file_read path n m r → n ≤ m.
Proof. intros [_ ?%asked_next]. lia. Qed.
Lemma descriptor_later from from' to listeners path :
  descriptor_harmless from to listeners path → from' ≤ from → descriptor_harmless from' to listeners path.
Proof. intros (n & m & r & Hn & Hp) Hle. exists n, m, r. split; [lia|done]. Qed.

Lemma descriptors_harmless listeners directory l w w' :
  descriptors_listen listeners directory l env w = (w', Some (Ok false)) →
  w_calls w ≤ w_calls w' ∧
  ∀ name, Ok name ∈ l → descriptor_harmless (w_calls w) (w_calls w') listeners (join directory name).
Proof.
  revert w. induction l as [|entry l IH]; intros w E.
  { apply ret_Ok in E as [<- _]. split; [done|]. intros name Hin. by apply elem_of_nil in Hin. }
  cbn [descriptors_listen] in E.
  apply io_bind_Ok in E as (w1 & x & Hx%io_map_err_Ok & E). apply io_lift_Ok in Hx as [-> ->].
  apply io_bind_Ok in E as (w2 & r & Hr%attempt_Ok & E).
  assert (descriptors_listen listeners directory l env w2 = (w', Some (Ok false)) ∧
    asked (λ k, obs_link k (join directory x)) (w_calls w) (w_calls w2) r ∧
    (absent r ∨ ∃ target, r = Ok target ∧ ∀ inode, socket_inode target = Some inode → inode ∉ listeners))
    as (Hrest & Hask & Hd).
  { destruct r as [target|e].
    - apply observe_Ok in Hr. destruct (socket_inode target) as [inode|] eqn:Es.
      + case_bool_decide; [by apply ret_Ok in E as [_ ?]|]. split_and!; [done..|]. right. exists target. naive_solver.
      + split_and!; [done..|]. right. exists target. naive_solver.
    - destruct (io_kind e) eqn:Ek; [|by apply io_lift_Ok in E as [_ ?]..].
      apply observe_NotFound in Hr; [|done]. split_and!; [done..|by left]. }
  apply IH in Hrest as [Hle Hall]. assert (Hnext := asked_next _ _ _ _ Hask). split; [lia|].
  intros name [[= ->]|Hin]%elem_of_cons.
  - by exists (w_calls w), (w_calls w2), r.
  - by eapply descriptor_later; [apply Hall|].
Qed.

Lemma process_Ok listeners process w w' :
  process_listens listeners process env w = (w', Some (Ok false)) →
  w_calls w ≤ w_calls w' ∧ process_harmless (w_calls w) (w_calls w') listeners process.
Proof.
  unfold process_listens, ssh_server_process. intros E.
  apply io_bind_Ok in E as (w1 & server & Hs & E). apply io_bind_Ok in Hs as (w2 & r & Hr%attempt_Ok & Hs).
  destruct r as [comm|e].
  - apply ret_Ok in Hs as [<- <-]. apply text_Ok in Hr. assert (Hn1 := read_next _ _ _ _ Hr).
    destruct (one_of _ _) eqn:Eo; cbn [negb] in E.
    + apply io_bind_Ok in E as (w3 & r & Hr'%attempt_Ok & E).
      assert (asked (λ k, obs_directory k (join process "fd")) (w_calls w2) (w_calls w3) r ∧
        w_calls w3 ≤ w_calls w' ∧
        (absent r ∨ ∃ entries, r = Ok entries ∧ ∀ name, Ok name ∈ entries →
          descriptor_harmless (w_calls w3) (w_calls w') listeners (join (join process "fd") name)))
        as (Hask & Hle & Hd).
      { destruct r as [entries|e].
        - apply observe_Ok in Hr'. apply descriptors_harmless in E as [Hle Hall]. split_and!; [done..|].
          right. by exists entries.
        - destruct (io_kind e) eqn:Ek; [|by apply io_lift_Ok in E as [_ ?]..].
          apply observe_NotFound in Hr'; [|done]. apply ret_Ok in E as [<- _]. split_and!; [done..|by left]. }
      assert (Hn2 := asked_next _ _ _ _ Hask). split; [lia|].
      exists (w_calls w), (w_calls w2). split_and!; [lia..|]. right. exists comm. split; [done|]. right.
      by exists (w_calls w3), r.
    + apply ret_Ok in E as [<- _]. split; [lia|]. exists (w_calls w), (w_calls w2). split_and!; [lia..|].
      right. exists comm. split; [done|by left].
  - destruct (io_kind e) eqn:Ek; [|by apply io_lift_Ok in Hs as [_ ?]..].
    apply ret_Ok in Hs as [<- <-]. apply ret_Ok in E as [<- _]. apply text_NotFound in Hr; [|done].
    assert (Hn1 := read_next _ _ _ _ Hr). split; [lia|].
    exists (w_calls w), (w_calls w2). split_and!; [lia..|]. left. by eexists.
Qed.

Lemma process_later from from' to listeners process :
  process_harmless from to listeners process → from' ≤ from → process_harmless from' to listeners process.
Proof. intros (n & m & Hn & Hp) Hle. exists n, m. split; [lia|done]. Qed.
Lemma process_longer from to to' listeners process :
  process_harmless from to listeners process → to ≤ to' → process_harmless from to' listeners process.
Proof.
  intros (n & m & Hn & Hm & Hp) Hle. exists n, m. split_and!; [done|lia|].
  destruct Hp as [?|(comm & Hc & Hp)]; [by left|]. right. exists comm. split; [done|].
  destruct Hp as [?|(k & r & Ha & Hk & Hp)]; [by left|]. right. exists k, r. split_and!; [done|lia|].
  destruct Hp as [?|(entries & -> & Hp)]; [by left|]. right. exists entries. split; [done|].
  intros name Hin. destruct (Hp name Hin) as (n' & m' & r' & ? & ? & ?). exists n', m', r'. split; [done|split; [lia|done]].
Qed.

Lemma processes_Ok listeners l w w' :
  processes_listen listeners l env w = (w', Some (Ok false)) →
  w_calls w ≤ w_calls w' ∧
  ∀ name, Ok name ∈ l → process_name name = true →
    process_harmless (w_calls w) (w_calls w') listeners (join "/proc" name).
Proof.
  revert w. induction l as [|entry l IH]; intros w E.
  { apply ret_Ok in E as [<- _]. split; [done|]. intros name Hin. by apply elem_of_nil in Hin. }
  cbn [processes_listen] in E.
  apply io_bind_Ok in E as (w1 & x & Hx%io_map_err_Ok & E). apply io_lift_Ok in Hx as [-> ->].
  destruct (process_name x) eqn:Ex; cbn [negb] in E.
  - apply io_bind_Ok in E as (w2 & found & Hf & E). destruct found; [by apply ret_Ok in E as [_ ?]|].
    apply process_Ok in Hf as [Hle1 Hp]. apply IH in E as [Hle2 Hall]. split; [lia|].
    intros name [[= ->]|Hin]%elem_of_cons Hn; [by eapply process_longer|by eapply process_later; [apply Hall|]].
  - apply IH in E as [Hle Hall]. split; [done|].
    intros name [[= ->]|Hin]%elem_of_cons Hn; [congruence|by apply Hall].
Qed.

(** Nothing on the machine served SSH when it was looked at, in this window of
    calls: the units, then the listeners, then the processes. *)
Definition ssh_closed (from to : nat) : Prop :=
  ∃ n1 n2 n3 n4 units l4 l6,
    enumerated from n1 units ∧ n1 ≤ n2 ∧ (∀ unit, unit ∈ units → unit_harmless n1 n2 unit) ∧
    listening "/proc/net/tcp" n2 n3 l4 ∧
    (listening "/proc/net/tcp6" n3 n4 l6 ∨ l6 = [] ∧ no_file "/proc/net/tcp6" n3 n4) ∧
    (l4 ++ l6 = [] ∧ to = n4 ∨ ∃ entries n5, listed "/proc" n4 n5 entries ∧ n5 ≤ to ∧
       ∀ name, Ok name ∈ entries → process_name name = true →
         process_harmless n5 to (l4 ++ l6) (join "/proc" name)).

Lemma ssh_once_closed w w' :
  ssh_enabled_once env w = (w', Some (Ok false)) → ssh_closed (w_calls w) (w_calls w').
Proof.
  unfold ssh_enabled_once, ssh_listener_running. intros E.
  apply io_bind_Ok in E as (w1 & units & Hu%candidates_Ok & E).
  apply io_bind_Ok in E as (w2 & exposed & He & E). destruct exposed; [by apply ret_Ok in E as [_ ?]|].
  apply units_harmless in He as [Hle He]. rewrite Forall_forall in He.
  apply io_bind_Ok in E as (w3 & l4 & H4 & E). apply io_bind_Ok in E as (w4 & l6 & H6 & E).
  apply listeners_Ok in H4 as [H4|[? _]]; [|done]. apply listeners_Ok in H6.
  exists (w_calls w1), (w_calls w2), (w_calls w3), (w_calls w4), units, l4, l6. split_and!; [done..| |done| |].
  - intros unit Hin. by apply He, elem_of_btree_elements.
  - by destruct H6 as [?|(_ & ? & ?)]; [left|right].
  - destruct (l4 ++ l6) as [|x l] eqn:El; [left; by apply ret_Ok in E as [-> _]|right].
    apply io_bind_Ok in E as (w5 & entries & Hd%io_map_err_Ok & E). apply observe_Ok in Hd.
    apply processes_Ok in E as [Hle' Hall]. by exists entries, (w_calls w5).
Qed.

(** Every package source that was found is closed. *)
Definition source_closed (from to : nat) (path : Path) (format : AptSourceFormat) : Prop :=
  ∃ text, contained path from to text ∧ apt_source_text_fail_closed text format = true.
(** What this call asked was answered yes, or it was answered no or failed. *)
Definition seen (answer : nat → bool) (n : nat) : Prop := fault env n = None ∧ answer n = true.
Definition unseen (answer : nat → bool) (n : nat) : Prop := is_Some (fault env n) ∨ answer n = false.
Definition sources_closed (from to : nat) : Prop :=
  ∃ n1,
    (unseen (λ n, obs_exists n APT_SOURCES) from ∧ n1 = S from ∨
     seen (λ n, obs_exists n APT_SOURCES) from ∧ source_closed (S from) n1 APT_SOURCES OneLine) ∧
    (unseen (λ n, obs_exists n APT_SOURCES_DIRECTORY) n1 ∧ to = S n1 ∨
     seen (λ n, obs_exists n APT_SOURCES_DIRECTORY) n1 ∧
     ∃ entries n2, listed APT_SOURCES_DIRECTORY (S n1) n2 entries ∧ n2 ≤ to ∧
       ∀ name format, Ok name ∈ entries → apt_format (join APT_SOURCES_DIRECTORY name) = Some format →
         ∃ n, n2 ≤ n < to ∧
           (unseen (λ n, obs_is_file n (join APT_SOURCES_DIRECTORY name)) n ∨
            seen (λ n, obs_is_file n (join APT_SOURCES_DIRECTORY name)) n ∧
            ∃ m, m ≤ to ∧ source_closed (S n) m (join APT_SOURCES_DIRECTORY name) format)).

Lemma observe_bool_Ok answer w w' b :
  observe_bool answer env w = (w', Some (Ok b)) →
  w_calls w' = S (w_calls w) ∧ if b then seen answer (w_calls w) else unseen answer (w_calls w).
Proof.
  unfold observe_bool. intros E. apply io_bind_Ok in E as (w1 & r & Hr%attempt_Ok & E). apply ret_Ok in E as [<- E].
  revert Hr. unfold observe, call, call_with. destruct (killed _ _); [done|].
  destruct (fault _ _) eqn:Ef.
  - intros [= <- <-]. subst b. split; [done|]. left. by rewrite Ef.
  - intros [= <- <-]. subst b. split; [done|]. by destruct (answer _) eqn:Ea; [split|right].
Qed.

Lemma check_apt_Ok path format w w' :
  check_apt_file path format env w = (w', Some (Ok true)) → source_closed (w_calls w) (w_calls w') path format.
Proof.
  unfold check_apt_file. intros E. apply io_bind_Ok in E as (w1 & text & Ht%io_map_err_Ok & E).
  apply ret_Ok in E as [<- E]. apply text_Ok in Ht. by exists text.
Qed.

Lemma apt_files_Ok directory l w w' :
  apt_files_fail_closed directory l env w = (w', Some (Ok true)) →
  w_calls w ≤ w_calls w' ∧
  ∀ name format, Ok name ∈ l → apt_format (join directory name) = Some format →
    ∃ n, w_calls w ≤ n < w_calls w' ∧
      (unseen (λ n, obs_is_file n (join directory name)) n ∨
       seen (λ n, obs_is_file n (join directory name)) n ∧
       ∃ m, m ≤ w_calls w' ∧ source_closed (S n) m (join directory name) format).
Proof.
  revert w. induction l as [|entry l IH]; intros w E.
  { apply ret_Ok in E as [<- _]. split; [done|]. intros name format Hin. by apply elem_of_nil in Hin. }
  cbn [apt_files_fail_closed] in E.
  apply io_bind_Ok in E as (w1 & x & Hx%io_map_err_Ok & E). apply io_lift_Ok in Hx as [-> ->].
  apply io_bind_Ok in E as (w2 & regular & Hr%observe_bool_Ok & E). destruct Hr as [Hw2 Hr].
  assert (∃ w3, w_calls w2 ≤ w_calls w3 ∧ apt_files_fail_closed directory l env w3 = (w', Some (Ok true)) ∧
    ∀ format, apt_format (join directory x) = Some format →
      unseen (λ n, obs_is_file n (join directory x)) (w_calls w) ∨
      seen (λ n, obs_is_file n (join directory x)) (w_calls w) ∧
      source_closed (w_calls w2) (w_calls w3) (join directory x) format) as (w3 & Hle & Hrest & Hx).
  { destruct regular; cbn [negb] in E; [|by exists w2; auto].
    destruct (apt_format (join directory x)) as [format|] eqn:Ef; [|by exists w2].
    apply io_bind_Ok in E as (w3 & closed & Hc & E). destruct closed; cbn [negb] in E; [|by apply ret_Ok in E as [_ ?]].
    apply check_apt_Ok in Hc. exists w3. split_and!; [|done|by intros ? [= <-]; auto].
    destruct Hc as (text & Hc%read_next & _). done. }
  apply IH in Hrest as [Hle' Hall]. split; [lia|]. intros name format [[= ->]|Hin]%elem_of_cons Hf.
  - exists (w_calls w). split; [lia|]. destruct (Hx format Hf) as [?|[? Hs]]; [by left|right].
    split; [done|]. rewrite Hw2 in Hs. eauto.
  - destruct (Hall name format Hin Hf) as (n & Hn & Hp). exists n. split; [lia|done].
Qed.

Lemma apt_sources_Ok w w' :
  apt_sources_fail_closed env w = (w', Some (Ok true)) → sources_closed (w_calls w) (w_calls w').
Proof.
  unfold apt_sources_fail_closed, primary_fail_closed. intros E.
  apply io_bind_Ok in E as (w1 & closed & Hp & E). destruct closed; cbn [negb] in E; [|by apply ret_Ok in E as [_ ?]].
  exists (w_calls w1). split.
  - apply io_bind_Ok in Hp as (w2 & there & [Hw Ht]%observe_bool_Ok & Hp). destruct there.
    + apply check_apt_Ok in Hp. rewrite Hw in Hp. by right.
    + apply ret_Ok in Hp as [<- _]. by left.
  - apply io_bind_Ok in E as (w2 & there & [Hw Ht]%observe_bool_Ok & E). destruct there; cbn [negb] in E.
    + apply io_bind_Ok in E as (w3 & entries & Hd%io_map_err_Ok & E). apply observe_Ok in Hd. rewrite Hw in Hd.
      apply apt_files_Ok in E as [Hle Hall]. right. split; [done|]. by exists entries, (w_calls w3).
    + apply ret_Ok in E as [<- _]. by left.
Qed.

(** A firewall that denies. *)
Definition firewall_closed (n m : nat) : Prop :=
  ∃ out, printed "nft" ["list"; "ruleset"] n m out ∧ out_success out = true ∧
    nft_input_base_chain_default_deny (to_string_lossy (out_stdout out)) = true.

Lemma firewall_Ok w w' :
  firewall_default_deny env w = (w', Some (Ok true)) → firewall_closed (w_calls w) (w_calls w').
Proof.
  unfold firewall_default_deny. intros E. apply io_bind_Ok in E as (w1 & out & Ho%command_Ok & E).
  apply ret_Ok in E as [<- E]. apply andb_true_iff in E. by exists out.
Qed.
End observed.

(** ** Computations only make more calls *)
Definition counting (env : FsEnv) {E A} (m : IO E A) : Prop := ∀ w, w_calls w ≤ w_calls (m env w).1.

Section counting.
Context (env : FsEnv).

Lemma counting_ret {E A} (a : A) : counting env (E := E) (mret a).
Proof. by intros w. Qed.
Lemma counting_lift {E A} (r : result E A) : counting env (io_lift r).
Proof. by intros w. Qed.
Lemma counting_bind {E A B} (m : IO E A) (f : A → IO E B) :
  counting env m → (∀ a, counting env (f a)) → counting env (m ≫= f).
Proof.
  intros Hm Hf w. unfold mbind, io_bind. specialize (Hm w). destruct (m env w) as [w1 [[a|e]|]]; cbn in *; [|lia..].
  specialize (Hf a w1). lia.
Qed.
Lemma counting_map_err {E F A} (g : E → F) (m : IO E A) : counting env m → counting env (io_map_err g m).
Proof. intros Hm w. specialize (Hm w). unfold io_map_err. by destruct (m env w) as [w1 [[]|]]. Qed.
Lemma counting_attempt {E F A} (m : IO E A) : counting env m → counting env (@attempt E F A m).
Proof. intros Hm w. specialize (Hm w). unfold attempt. by destruct (m env w). Qed.
Lemma counting_call {A} broken (op : nat → FsEnv → FS → FS * result IoError A) :
  counting env (call_with broken op).
Proof.
  intros w. unfold call_with. destruct (killed _ _); cbn; [lia|]. destruct (fault _ _); cbn; [lia|].
  destruct (op _ _ _). cbn. lia.
Qed.
Lemma counting_env {E A} (f : FsEnv → A) : counting env (E := E) (io_env f).
Proof. by intros w. Qed.
Lemma counting_time {E} : counting env (E := E) time_now.
Proof. intros w. cbn. lia. Qed.
End counting.
Create HintDb counting.

Ltac counts :=
  repeat match goal with
  | |- counting _ (_ ≫= _) => apply counting_bind; [|intros ?]
  | |- counting _ (sys _) => apply counting_map_err
  | |- counting _ (io_map_err _ _) => apply counting_map_err
  | |- counting _ (attempt _) => apply counting_attempt
  | |- counting _ (if ?b then _ else _) => destruct b
  | |- counting _ (match ?x with _ => _ end) => destruct x
  | |- counting _ (let '(_, _) := ?x in _) => destruct x
  | |- counting _ (io_fail _) => apply counting_lift
  | |- counting _ (io_lift _) => apply counting_lift
  | |- counting _ (mret _) => apply counting_ret
  | |- counting _ (call _) => apply counting_call
  | |- counting _ (call_with _ _) => apply counting_call
  | |- counting _ (observe _) => apply counting_call
  | |- counting _ (io_env _) => apply counting_env
  | |- counting _ time_now => apply counting_time
  | |- counting _ (symlink_metadata _) => apply counting_call
  | |- counting _ (metadata _) => apply counting_call
  | |- counting _ (file_metadata _) => apply counting_call
  | |- counting _ (open_file _ _) => apply counting_call
  | |- counting _ (read_to_end _) => apply counting_call
  | |- counting _ (write_all _ _) => apply counting_call
  | |- counting _ (sync_all _) => apply counting_call
  | |- counting _ (rename _ _) => apply counting_call
  | |- counting _ (remove_file _) => apply counting_call
  | |- counting _ (mkdir _) => apply counting_call
  | |- counting _ (lock_file _) => apply counting_call
  end; auto with counting.

Section commits.
Context `{Crypto} `{Host} (env : FsEnv).

Lemma counting_create_dirs depth p : counting env (create_dirs depth p).
Proof.
  revert p. induction depth as [|depth IH]; intros p; cbn [create_dirs];
    unfold mkdir_or_present, path_is_dir; counts.
Qed.
Lemma counting_uid : counting env current_effective_uid.
Proof. unfold current_effective_uid, read_host. counts. Qed.
Lemma counting_ancestors parent uid current comps : counting env (check_ancestors parent uid current comps).
Proof. revert current. induction comps as [|c comps IH]; intros current; cbn [check_ancestors]; counts. Qed.
Lemma counting_foreign b m : counting env (untrusted_or_foreign b m).
Proof. unfold untrusted_or_foreign. counts. apply counting_uid. Qed.
#[local] Hint Resolve counting_create_dirs counting_uid counting_ancestors counting_foreign : counting.
Lemma counting_parent p : counting env (validate_state_parent p).
Proof. unfold validate_state_parent. counts. Qed.
Lemma counting_metadata m : counting env (validate_state_metadata m).
Proof. unfold validate_state_metadata. counts. Qed.
Lemma counting_control p : counting env (reject_untrusted_existing_control_file p).
Proof. unfold reject_untrusted_existing_control_file. counts. Qed.
Lemma counting_identity p f : counting env (validate_control_identity p f).
Proof. unfold validate_control_identity. counts. Qed.
#[local] Hint Resolve counting_parent counting_metadata counting_control counting_identity : counting.
Lemma counting_write p bytes : counting env (bootstrap_write p bytes).
Proof. unfold bootstrap_write, create_dir_all, write_temporary, settle_rename, sync_dir. counts. Qed.
Lemma counting_anchor_path store : counting env (generation_anchor_path store).
Proof. unfold generation_anchor_path, machine_anchor_scope, read_host. counts. Qed.
#[local] Hint Resolve counting_write counting_anchor_path : counting.
Lemma counting_reconcile store s : counting env (reconcile_generation_anchor store s).
Proof.
  unfold reconcile_generation_anchor, load_generation_anchor, persist_generation_anchor_record. counts.
Qed.
Lemma counting_finalize store s : counting env (finalize_generation_anchor store s).
Proof.
  unfold finalize_generation_anchor, load_generation_anchor, persist_generation_anchor_record. counts.
Qed.
Lemma counting_load store : counting env (BootstrapStateStore_load store).
Proof. unfold BootstrapStateStore_load. counts. Qed.
Lemma counting_generation store s : counting env (BootstrapStateStore_generation store s).
Proof. unfold BootstrapStateStore_generation. counts. Qed.
Lemma counting_exclusive store : counting env (BootstrapStateStore_acquire_exclusive store).
Proof. unfold BootstrapStateStore_acquire_exclusive, create_dir_all. counts. Qed.
Lemma counting_stage store s c : counting env (stage_generation_anchor store s c).
Proof. unfold stage_generation_anchor, persist_generation_anchor_record. counts. apply counting_reconcile. Qed.
Lemma counting_evidence s stage observation postcondition :
  counting env (issue_system_evidence s stage observation postcondition).
Proof. unfold issue_system_evidence, issue, clock_ms. counts. Qed.
Lemma counting_complete s e : counting env (state_complete_effect_verified s e).
Proof. unfold state_complete_effect_verified, evidence_validate_binding, clock_ms. counts. Qed.

(** Methods of the coordinator. *)
Definition act_counting {A} (m : Action A) : Prop := ∀ c w, w_calls w ≤ w_calls (m c env w).1.

Lemma act_counting_act {A} (m : IO DurableBootstrapError A) : counting env m → act_counting (act m).
Proof. intros Hm c w. specialize (Hm w). unfold act. by destruct (m env w). Qed.
Lemma act_counting_result {A} (m : IO DurableBootstrapError A) : counting env m → act_counting (act_result m).
Proof. intros Hm c w. specialize (Hm w). unfold act_result. by destruct (m env w). Qed.
Lemma act_counting_bind {A B} (m : Action A) (f : A → Action B) :
  act_counting m → (∀ a, act_counting (f a)) → act_counting (m ≫= f).
Proof.
  intros Hm Hf c w. unfold mbind, action_bind. specialize (Hm c w).
  destruct (m c env w) as [w1 [[c1 [a|e]]|]]; cbn in *; [|lia..]. specialize (Hf a c1 w1). lia.
Qed.

Lemma counting_commit candidate : act_counting (bootstrap_commit candidate).
Proof.
  unfold bootstrap_commit, finish_commit, bootstrap_ensure_usable, or_give_in, give_in, act_throw, act_check,
    BootstrapStateStore_persist.
  repeat match goal with
  | |- act_counting (_ ≫= _) => apply act_counting_bind; [|intros ?]
  | |- act_counting (act _) => apply act_counting_act
  | |- act_counting (act_result _) => apply act_counting_result
  | |- act_counting (if ?b then _ else _) => destruct b
  | |- act_counting (match ?x with _ => _ end) => destruct x
  | |- act_counting (let _ := _ in _) => cbv zeta
  | |- act_counting coordinator => by intros c w
  | |- act_counting (set_coordinator _) => by intros c w
  | |- act_counting (mret _) => by intros c w
  end; counts; auto using counting_exclusive, counting_load, counting_reconcile, counting_generation,
    counting_stage, counting_finalize, counting_write.
Qed.
End commits.

Section attempts.
Context `{Observer} (env : FsEnv).
Abbreviation Probe := (IO DurableBootstrapError).

Lemma counting_text path : counting env (observe_text path).
Proof. unfold observe_text. counts. Qed.
Lemma counting_candidates : counting env systemd_candidate_units.
Proof. unfold systemd_candidate_units, command_output. counts. Qed.
Lemma counting_units l : counting env (units_expose l).
Proof.
  induction l as [|unit l IH]; cbn [units_expose]; unfold command_output; counts; auto using counting_candidates.
Qed.
Lemma counting_listeners path optional : counting env (tcp_listener_inodes path optional).
Proof. unfold tcp_listener_inodes. counts. apply counting_text. Qed.
Lemma counting_descriptors listeners directory l : counting env (descriptors_listen listeners directory l).
Proof. induction l as [|entry l IH]; cbn [descriptors_listen]; counts; auto. Qed.
Lemma counting_processes listeners l : counting env (processes_listen listeners l).
Proof.
  induction l as [|entry l IH]; cbn [processes_listen]; unfold process_listens, ssh_server_process; counts;
    auto using counting_text, counting_descriptors.
Qed.
Lemma counting_ssh : counting env ssh_enabled_once.
Proof.
  unfold ssh_enabled_once, ssh_listener_running. counts;
    auto using counting_candidates, counting_units, counting_listeners, counting_processes.
Qed.

(** The attempts return the first answer that is not an error. *)
Lemma retry_Ok attempts e (f : Probe bool) w w' b :
  counting env f → retry_observation attempts e f env w = (w', Some (Ok b)) →
  ∃ w1, w_calls w ≤ w_calls w1 ∧ f env w1 = (w', Some (Ok b)).
Proof.
  intros Hf. revert e w. induction attempts as [|attempts IH]; intros e w; cbn [retry_observation]; [done|].
  intros E. apply io_bind_Ok in E as (w1 & r & Hr%attempt_Ok & E). destruct r as [x|e'].
  - injection E as -> ->. eauto.
  - destruct (IH _ _ E) as (w2 & Hle & Hw2). exists w2. split; [|done].
    specialize (Hf w). rewrite Hr in Hf. cbn in Hf. lia.
Qed.
End attempts.
