(* ===== verification/BootstrapFacts.v ===== *)
(** * Durable bootstrap: what a run of the coordinator can do

    The transitions that the operations of the coordinator make durable, with
    the invariants of the states they reach: the stages complete in order, each
    effect on the evidence of its own operation, and the owner's authority is
    minted once.  Then what reconciliation accepts of a ledger and its
    generation anchor. *)

From Stdlib Require Import ZArith Lia Ascii.
From stdpp Require Import base numbers gmap strings list fin_maps sorting relations.
From S2P Require Import Prelude Text Fields Digest Paths Files ControlFiles FileFacts.
From S2P Require Import UpdateEvidence UpdateEvidenceFacts BootstrapState BootstrapText BootstrapStore BootstrapBaseline.

Set Default Goal Selector "!".

(** ** Transitions *)
Inductive transition (s : DurableBootstrapState) : DurableBootstrapState → Prop :=
| t_prepare stage operation_id c : prepare_stage s stage operation_id = Ok c → transition s c
| t_mark operation_id c : mark_effect_started s operation_id = Ok c → transition s c
| t_complete operation_id active c :
    bs_active s = Some active → stage_requires_effect_boundary (as_stage active) = false →
    complete_verified s operation_id = Ok c → transition s c
| t_select mode manifest c : select_provisioning s mode manifest = Ok c → transition s c
| t_bind digest count c : bind_first_boot_plan s digest count = Ok c → transition s c
| t_pending receipt active c :
    bs_active s = Some active → revocation_bound receipt s active = true →
    enter_pending s = Ok c → transition s c
| t_enroll_pending receipt c :
    or_session_id receipt = bs_session_id s → or_machine_id receipt = bs_machine_id s →
    enroll_pending_owner_fresh s (or_owner_id receipt) (or_enrollment_id receipt) = Ok c → transition s c
| t_enroll receipt c :
    or_session_id receipt = bs_session_id s → or_machine_id receipt = bs_machine_id s →
    enroll_owner_fresh s (or_owner_id receipt) (or_enrollment_id receipt) = Ok c → transition s c
| t_recovery c : enter_recovery_owner_resolution s = Ok c → transition s c
| t_evidence e active c :
    bs_active s = Some active → stage_requires_effect_boundary (as_stage active) = true →
    as_effect_state active = EffectStarted →
    evidence_bound e active (bs_session_id s) (bs_machine_id s) = true →
    record_evidence s active e = Ok c → transition s c.

(** A transition with its commit. *)
Definition step (s s' : DurableBootstrapState) : Prop :=
  ∃ c, transition s c ∧ s' = with_generation (bs_generation s + 1) c
    ∧ (bs_generation s + 1 ≤ u64_max)%Z ∧ DurableBootstrapState_validate s' = Ok tt.

Inductive BootstrapOperation :=
| OpPrepareStage (stage : BootstrapStage) (operation_id : string)
| OpMarkEffectStarted (operation_id : string)
| OpCompleteVerified (operation_id : string)
| OpSelectProvisioning (mode : ProvisioningMode) (manifest : option ProvisioningManifest)
| OpBindFirstBootPlan (plan_sha256 : string) (plan_count : Z)
| OpEnterOwnerEnrollmentPending (receipt : TrustedPreparerAuthorityRevocationReceipt)
| OpEnrollPendingOwner (receipt : TrustedOwnerEnrollmentReceipt)
| OpEnrollInteractiveOwner (receipt : TrustedOwnerEnrollmentReceipt)
| OpEnterRecoveryOwnerResolution
| OpCompleteEffectVerified (evidence : BootstrapVerificationEvidence)
| OpVerifyLinuraInstallation (expected_sha256 : string)
| OpVerifyPersistentStateRoot (root : Path)
| OpVerifySecurityBaseline
| OpVerifyConnectivity
| OpVerifyRecoveryCheckpoint (manifest : Path)
| OpVerifyOwnerResolution.

(** The evidence completes the active stage, whose effect was started. *)
Definition evidenced (e : BootstrapVerificationEvidence) (s c : DurableBootstrapState) : Prop :=
  ∃ active, bs_active s = Some active ∧ stage_requires_effect_boundary (as_stage active) = true ∧
    as_effect_state active = EffectStarted ∧
    evidence_bound e active (bs_session_id s) (bs_machine_id s) = true ∧ record_evidence s active e = Ok c.

(** Evidence that the coordinator itself issued for the stage. *)
Definition system_evidenced (stage : BootstrapStage) (s c : DurableBootstrapState) : Prop :=
  ∃ e, be_stage e = stage ∧ be_verifier_id e = SYSTEM_BOOTSTRAP_VERIFIER_ID ∧
    is_u64 (be_observed_unix_ms e) ∧ evidenced e s c.

(** The transition that each operation makes. *)
Definition made_by (op : BootstrapOperation) (s c : DurableBootstrapState) : Prop :=
  match op with
  | OpPrepareStage stage operation_id => prepare_stage s stage operation_id = Ok c
  | OpMarkEffectStarted operation_id => mark_effect_started s operation_id = Ok c
  | OpCompleteVerified operation_id =>
      ∃ active, bs_active s = Some active ∧ stage_requires_effect_boundary (as_stage active) = false ∧
        complete_verified s operation_id = Ok c
  | OpSelectProvisioning mode manifest => select_provisioning s mode manifest = Ok c
  | OpBindFirstBootPlan digest count => bind_first_boot_plan s digest count = Ok c
  | OpEnterOwnerEnrollmentPending receipt =>
      ∃ active, bs_active s = Some active ∧ revocation_bound receipt s active = true ∧ enter_pending s = Ok c
  | OpEnrollPendingOwner receipt =>
      or_session_id receipt = bs_session_id s ∧ or_machine_id receipt = bs_machine_id s ∧
      enroll_pending_owner_fresh s (or_owner_id receipt) (or_enrollment_id receipt) = Ok c
  | OpEnrollInteractiveOwner receipt =>
      or_session_id receipt = bs_session_id s ∧ or_machine_id receipt = bs_machine_id s ∧
      enroll_owner_fresh s (or_owner_id receipt) (or_enrollment_id receipt) = Ok c
  | OpEnterRecoveryOwnerResolution => enter_recovery_owner_resolution s = Ok c
  | OpCompleteEffectVerified evidence => evidenced evidence s c
  | OpVerifyLinuraInstallation _ => system_evidenced LinuraInstallation s c
  | OpVerifyPersistentStateRoot _ => system_evidenced PersistentStateInitialization s c
  | OpVerifySecurityBaseline => system_evidenced SecurityBaseline s c
  | OpVerifyConnectivity => system_evidenced BootstrapConnectivityResolution s c
  | OpVerifyRecoveryCheckpoint _ => system_evidenced RecoveryCheckpoint s c
  | OpVerifyOwnerResolution => system_evidenced OwnerEnrollmentResolution s c
  end.

Lemma evidenced_transition e s c : evidenced e s c → transition s c.
Proof. intros (active & Ha & Hb & He & Hbound & Hr). by eapply t_evidence. Qed.
Lemma made_transition op s c : made_by op s c → transition s c.
Proof.
  destruct op; cbn; try (by econstructor).
  - intros (active & Ha & Hb & Hc). by eapply t_complete.
  - intros (active & Ha & Hb & Hc). by eapply t_pending.
  - intros (Hs & Hm & Hc). by eapply t_enroll_pending.
  - intros (Hs & Hm & Hc). by eapply t_enroll.
  - apply evidenced_transition.
  - intros (e & _ & _ & _ & He). by eapply evidenced_transition.
  - intros (e & _ & _ & _ & He). by eapply evidenced_transition.
  - intros (e & _ & _ & _ & He). by eapply evidenced_transition.
  - intros (e & _ & _ & _ & He). by eapply evidenced_transition.
  - intros (e & _ & _ & _ & He). by eapply evidenced_transition.
  - intros (e & _ & _ & _ & He). by eapply evidenced_transition.
Qed.

(** ** Actions *)
Section actions.
Context `{Crypto} `{Host} `{Observer}.

Definition perform (op : BootstrapOperation) : Action unit :=
  match op with
  | OpPrepareStage stage operation_id => do_prepare_stage stage operation_id
  | OpMarkEffectStarted operation_id => do_mark_effect_started operation_id
  | OpCompleteVerified operation_id => do_complete_verified operation_id
  | OpSelectProvisioning mode manifest => do_select_provisioning mode manifest
  | OpBindFirstBootPlan digest count => do_bind_first_boot_plan digest count
  | OpEnterOwnerEnrollmentPending receipt => do_enter_owner_enrollment_pending receipt
  | OpEnrollPendingOwner receipt => do_enroll_pending_owner receipt
  | OpEnrollInteractiveOwner receipt => do_enroll_interactive_owner receipt
  | OpEnterRecoveryOwnerResolution => do_enter_recovery_owner_resolution
  | OpCompleteEffectVerified evidence => do_complete_effect_verified evidence
  | OpVerifyLinuraInstallation expected_sha256 => verify_linura_installation expected_sha256
  | OpVerifyPersistentStateRoot root => verify_persistent_state_root root
  | OpVerifySecurityBaseline => verify_security_baseline
  | OpVerifyConnectivity => verify_connectivity_observation
  | OpVerifyRecoveryCheckpoint manifest => verify_recovery_checkpoint_manifest manifest
  | OpVerifyOwnerResolution => verify_owner_resolution
  end.

(** The coordinator before an action that answers, and the one after it. *)
Definition acts {A} (c : DurableBootstrapCoordinator) (m : Action A)
    (Q : DurableBootstrapCoordinator → result DurableBootstrapError A → Prop) : Prop :=
  ∀ env w w' c' r, m c env w = (w', Some (c', r)) → Q c' r.

Lemma acts_bind {A B} c (m : Action A) (f : A → Action B) Q :
  acts c m (λ c1 r1, match r1 with Ok a => acts c1 (f a) Q | Err e => Q c1 (Err e) end) →
  acts c (m ≫= f) Q.
Proof.
  intros Hm env w w' c' r. unfold mbind, action_bind.
  destruct (m c env w) as [w1 [[c1 [a|e]]|]] eqn:E; try done.
  - intros Hf. exact (Hm _ _ _ _ _ E _ _ _ _ _ Hf).
  - intros [= <- <- <-]. exact (Hm _ _ _ _ _ E).
Qed.

Lemma acts_act {A} c (m : IO DurableBootstrapError A) Q :
  (∀ env w w' r, m env w = (w', Some r) → Q c r) → acts c (act m) Q.
Proof.
  intros Hm env w w' c' r. unfold act. destruct (m env w) as [w1 [r1|]] eqn:E; cbn; [|done].
  intros [= <- <- <-]. by eapply Hm.
Qed.

Lemma acts_check {A} c (x : result DurableBootstrapError A) Q : Q c x → acts c (act_check x) Q.
Proof. intros Hx. apply acts_act. by intros env w w' r [= _ <-]. Qed.

Lemma acts_act_any {A} c (m : IO DurableBootstrapError A) (Q : _ → result DurableBootstrapError A → Prop) :
  (∀ r, Q c r) → acts c (act m) Q.
Proof. intros Hm. apply acts_act. auto. Qed.

Lemma acts_result {A} c (m : IO DurableBootstrapError A) Q : (∀ r, Q c (Ok r)) → acts c (act_result m) Q.
Proof.
  intros Hm env w w' c' r. unfold act_result. destruct (m env w) as [w1 [r1|]]; cbn; [|done].
  by intros [= <- <- <-].
Qed.

Lemma acts_coordinator c (Q : DurableBootstrapCoordinator → _ → Prop) : Q c (Ok c) → acts c coordinator Q.
Proof. intros HQ env w w' c' r [= _ <- <-]. done. Qed.
Lemma acts_set c c1 (Q : DurableBootstrapCoordinator → _ → Prop) : Q c1 (Ok tt) → acts c (set_coordinator c1) Q.
Proof. intros HQ env w w' c' r [= _ <- <-]. done. Qed.
Lemma acts_ret {A} c (a : A) (Q : DurableBootstrapCoordinator → _ → Prop) : Q c (Ok a) → acts c (mret a) Q.
Proof. intros HQ env w w' c' r [= _ <- <-]. done. Qed.

(** A failure leaves the coordinator's state as it was. *)
Definition same_state (c c' : DurableBootstrapCoordinator) : Prop :=
  bc_store c' = bc_store c ∧ bc_state c' = bc_state c.

Lemma acts_give_in {A} c reason (Q : DurableBootstrapCoordinator → result DurableBootstrapError A → Prop) :
  (∀ c' e, same_state c c' → Q c' (Err e)) → acts c (give_in reason) Q.
Proof.
  intros HQ. apply acts_bind, acts_coordinator, acts_bind, acts_set, acts_check, HQ. by split.
Qed.

Lemma acts_or_give_in {A} c reason (m : IO DurableBootstrapError A)
    (Q : DurableBootstrapCoordinator → result DurableBootstrapError A → Prop) :
  (∀ c' e, same_state c c' → Q c' (Err e)) → (∀ a, Q c (Ok a)) → acts c (or_give_in reason m) Q.
Proof.
  intros He Ho. apply acts_bind, acts_result. intros [a|e]; [by apply acts_ret|by apply acts_give_in].
Qed.

(** What a commit does to the coordinator. *)
Definition commits (c : DurableBootstrapCoordinator) (candidate : DurableBootstrapState)
    (c' : DurableBootstrapCoordinator) (r : result DurableBootstrapError unit) : Prop :=
  match r with
  | Ok _ => bc_store c' = bc_store c ∧ bc_durability_uncertain c' = None ∧
      bc_state c' = with_generation (bs_generation (bc_state c) + 1) candidate
      ∧ (bs_generation (bc_state c) + 1 ≤ u64_max)%Z ∧ DurableBootstrapState_validate (bc_state c') = Ok tt
  | Err _ => same_state c c'
  end.

Lemma acts_finish c candidate Q :
  (∀ c' e, same_state c c' → Q c' (Err e)) →
  (∀ g, Q (with_durable candidate g c) (Ok tt)) → acts c (finish_commit (bc_store c) candidate) Q.
Proof.
  intros He Ho. unfold finish_commit.
  apply acts_bind, acts_or_give_in; [done|intros _]. apply acts_bind, acts_or_give_in; [done|intros _].
  apply acts_bind, acts_or_give_in; [done|intros g]. apply acts_bind, acts_coordinator, acts_set. apply Ho.
Qed.

Lemma acts_commit c candidate : acts c (bootstrap_commit candidate) (commits c candidate).
Proof.
  assert (∀ e c', same_state c c' → commits c candidate c' (Err e)) as He by done.
  assert (same_state c c) as Hs by done.
  unfold bootstrap_commit, bootstrap_ensure_usable.
  apply acts_bind, acts_bind, acts_coordinator.
  destruct (bc_durability_uncertain c) as [reason|] eqn:Eu; [by apply acts_check, He|]. apply acts_ret.
  apply acts_bind, acts_check. destruct (DurableBootstrapState_validate candidate) as [[]|e]; [|by apply He].
  apply acts_bind, acts_coordinator.
  apply acts_bind, acts_act_any. intros [_|e]; [|by apply He].
  apply acts_bind, acts_act_any. intros [loaded|e]; [|by apply He].
  apply acts_bind, acts_check. destruct (ok_or loaded _) as [durable|e]; [|by apply He].
  apply acts_bind, acts_act_any. intros [_|e]; [|by apply He].
  apply acts_bind, acts_act_any. intros [g|e]; [|by apply He].
  destruct (_ || _); [by apply acts_bind, acts_set, acts_check, He|].
  apply acts_bind, acts_check. destruct (ok_or _ _) as [generation|e] eqn:Eg; [|by apply He].
  apply ok_or_Ok in Eg. unfold u64_checked_add in Eg.
  destruct (Z.leb_spec (bs_generation (bc_state c) + 1) u64_max); [|done]. injection Eg as <-.
  apply acts_bind, acts_check. destruct (DurableBootstrapState_validate _) as [[]|e] eqn:Ev; [|by apply He].
  apply acts_bind, acts_act_any. intros [_|e]; [|by apply He].
  apply acts_bind, acts_result. intros [_|e].
  - apply acts_finish; [by intros; apply He|]. intros g'. cbn. by rewrite Eu.
  - destruct e; first [by apply acts_check, He|apply acts_give_in; by intros; apply He].
Qed.

(** The checks a successful run went through. *)
Ltac passed_checks :=
  io_inv; repeat match goal with
  | E : ok_or _ _ = Ok _ |- _ => apply ok_or_Ok in E
  | E : negb _ = false |- _ => apply negb_false_iff in E
  | E : bool_decide _ = true |- _ => apply bool_decide_eq_true in E
  end.

Lemma owner_receipt_bound r s env w w' a :
  owner_receipt_validate_binding r s env w = (w', Some (Ok a)) →
  or_session_id r = bs_session_id s ∧ or_machine_id r = bs_machine_id s.
Proof.
  unfold owner_receipt_validate_binding. intros E. passed_checks.
  match goal with E : (_ || _) = false |- _ => apply orb_false_iff in E as [E1 E2] end.
  by passed_checks.
Qed.

Lemma evidence_made s e env w w' c :
  state_complete_effect_verified s e env w = (w', Some (Ok c)) → evidenced e s c.
Proof.
  unfold state_complete_effect_verified, evidence_validate_binding. intros E. passed_checks. by eexists.
Qed.

Lemma revocation_receipt_bound r s env w w' a :
  revocation_validate_binding r s env w = (w', Some (Ok a)) →
  ∃ active, bs_active s = Some active ∧ revocation_bound r s active = true.
Proof. unfold revocation_validate_binding. intros E. passed_checks. by eexists. Qed.

(** *** Inverting an action that succeeded *)
Lemma action_bind_Ok {A B} (m : Action A) (f : A → Action B) c env w w' c' b :
  (m ≫= f) c env w = (w', Some (c', Ok b)) →
  ∃ w1 c1 a, m c env w = (w1, Some (c1, Ok a)) ∧ f a c1 env w1 = (w', Some (c', Ok b)).
Proof.
  unfold mbind, action_bind. destruct (m c env w) as [w1 [[c1 [a|e]]|]]; [|done|done]. intros E. eauto.
Qed.
Lemma act_Ok {A} (m : IO DurableBootstrapError A) c env w w' c' a :
  act m c env w = (w', Some (c', Ok a)) → c' = c ∧ m env w = (w', Some (Ok a)).
Proof. unfold act. destruct (m env w) as [w1 [r|]]; cbn; [|done]. by intros [= -> <- ->]. Qed.
Lemma act_check_Ok {A} (x : result DurableBootstrapError A) c env w w' c' a :
  act_check x c env w = (w', Some (c', Ok a)) → c' = c ∧ x = Ok a.
Proof. intros [-> E]%act_Ok. by apply io_lift_Ok in E as [_ E]. Qed.
Lemma coordinator_self {A} (f : DurableBootstrapCoordinator → Action A) c env w : (coordinator ≫= f) c env w = f c c env w.
Proof. done. Qed.

(** The stage of the evidence that was taken is complete. *)
Lemma evidence_completes e c env w w' c' :
  do_complete_effect_verified e c env w = (w', Some (c', Ok tt)) →
  bs_completed (bc_state c') = bs_completed (bc_state c) ++ [be_stage e].
Proof.
  unfold do_complete_effect_verified. rewrite coordinator_self.
  intros (w1 & c1 & candidate & [-> Hc]%act_Ok & Hcommit)%action_bind_Ok.
  pose proof (acts_commit c candidate env w1 w' c' _ Hcommit) as (_ & _ & -> & _).
  unfold state_complete_effect_verified, evidence_validate_binding, record_evidence, validated in Hc. passed_checks.
  apply bind_Ok in Hc as ([] & _ & [= <-]). cbn.
  match goal with Hb : evidence_bound _ _ _ _ = true |- _ =>
    unfold evidence_bound in Hb; rewrite !andb_true_iff, !bool_decide_eq_true in Hb; by destruct Hb as [[[<- _] _] _] end.
Qed.

Lemma issue_Ok stage operation session machine verifier observation postcondition env w w' e :
  issue stage operation session machine verifier observation postcondition env w = (w', Some (Ok e)) →
  be_stage e = stage ∧ be_verifier_id e = verifier ∧
  ((∀ k, (0 ≤ (clock env k).2)%Z) → is_u64 (be_observed_unix_ms e)).
Proof.
  unfold issue, clock_ms. intros E. io_inv. apply ret_Ok in E as [_ <-]. cbn.
  repeat match goal with
  | E : normalize_identifier _ _ = Ok _ |- _ => apply boot_normalize_identifier_Ok in E as [-> _]
  end. split_and!; [done..|]. intros Hclock.
  repeat match goal with
  | E : since_epoch _ = Ok _ |- _ => unfold since_epoch in E
  | E : (if (?x <? 0)%Z then _ else _) = Ok _ |- _ => destruct (Z.ltb_spec x 0); [done|injection E as <-]
  | E : (if (?x <=? u64_max)%Z then _ else _) = Ok _ |- _ => destruct (Z.leb_spec x u64_max); [injection E as <-|done]
  | E : time_now _ _ = _ |- _ => injection E as <- <-
  end.
  split; [|done]. unfold as_millis. pose proof (Hclock (w_calls w)). pose proof (Z.div_pos (clock env (w_calls w)).2 1000000). lia.
Qed.

(** Issuing and taking evidence only makes more calls. *)
Lemma evidence_counts s stage observation postcondition c env w w1 w' e r :
  issue_system_evidence s stage observation postcondition env w = (w1, Some (Ok e)) →
  do_complete_effect_verified e c env w1 = (w', r) → w_calls w ≤ w_calls w'.
Proof.
  intros He Hd. assert (Hc1 := counting_evidence env s stage observation postcondition w). rewrite He in Hc1.
  assert (Hc2 : act_counting env (do_complete_effect_verified e)).
  { unfold do_complete_effect_verified. apply act_counting_bind; [by intros ? ?|intros a].
    apply act_counting_bind; [apply act_counting_act, counting_complete|intros ?; apply counting_commit]. }
  specialize (Hc2 c w1). rewrite Hd in Hc2. cbn in *. lia.
Qed.

End actions.

(** ** What a transition changes *)
Ltac checked H :=
  repeat match type of H with _ ≫= _ = _ => apply bind_Ok in H as (? & ? & H) end;
  repeat match goal with
  | E : ok_or _ _ = Ok _ |- _ => apply ok_or_Ok in E
  | E : reject_if _ _ = Ok _ |- _ => apply reject_if_Ok in E
  | E : (_ || _) = false |- _ => apply orb_false_iff in E as [? E]
  | E : negb _ = false |- _ => apply negb_false_iff in E
  | E : bool_decide _ = true |- _ => apply bool_decide_eq_true in E
  end.

Lemma validated_Ok s c : validated s = Ok c → c = s ∧ DurableBootstrapState_validate s = Ok tt.
Proof. unfold validated. by intros ([] & Hv & [= <-])%bind_Ok. Qed.

Lemma provisioned_Ok p s c : provisioned p s = Ok c → c = with_provisioning p s.
Proof. unfold provisioned. by intros (? & _ & [-> _]%validated_Ok)%bind_Ok. Qed.

Lemma active_stage_for_Ok s stage a :
  active_stage_for s stage = Ok a → bs_active s = Some a ∧ as_stage a = stage.
Proof. unfold active_stage_for. intros H. checked H. by injection H as <-. Qed.

(** The owner's part of the provisioning state. *)
Definition owner_part (s : DurableBootstrapState) :
    OwnerEnrollmentState * option OwnerAuthorityRecord * Z * bool :=
  let p := bs_provisioning s in
  (pr_owner_enrollment p, pr_owner_authority p, pr_authority_generation p, pr_preparer_authority_retired p).

(** The kinds of change. *)
Inductive change (s c : DurableBootstrapState) : Prop :=
| ch_prepare stage operation_id :
    bs_active s = None → bs_active c = Some {| as_stage := stage; as_operation_id := operation_id;
                                               as_effect_state := PreparedStage |} →
    bs_completed c = bs_completed s → bs_effect_verifications c = bs_effect_verifications s →
    bs_provisioning c = bs_provisioning s → change s c
| ch_mark a :
    bs_active s = Some a → as_effect_state a = PreparedStage →
    bs_active c = Some {| as_stage := as_stage a; as_operation_id := as_operation_id a;
                          as_effect_state := EffectStarted |} →
    bs_completed c = bs_completed s → bs_effect_verifications c = bs_effect_verifications s →
    bs_provisioning c = bs_provisioning s → change s c
| ch_complete a :
    bs_active s = Some a → stage_requires_effect_boundary (as_stage a) = false → bs_active c = None →
    bs_completed c = bs_completed s ++ [as_stage a] → bs_effect_verifications c = bs_effect_verifications s →
    bs_provisioning c = bs_provisioning s → change s c
| ch_evidence a v :
    bs_active s = Some a → stage_requires_effect_boundary (as_stage a) = true →
    as_effect_state a = EffectStarted → bs_active c = None →
    ce_stage v = as_stage a → ce_operation_id v = as_operation_id a →
    bs_completed c = bs_completed s ++ [as_stage a] →
    bs_effect_verifications c = bs_effect_verifications s ++ [v] →
    bs_provisioning c = bs_provisioning s → change s c
| ch_selection :
    bs_active c = bs_active s → bs_completed c = bs_completed s →
    bs_effect_verifications c = bs_effect_verifications s → owner_part c = owner_part s →
    (∀ m, pr_mode (bs_provisioning s) = Some m → pr_mode (bs_provisioning c) = Some m) → change s c
| ch_owner :
    bs_active c = bs_active s → bs_completed c = bs_completed s →
    bs_effect_verifications c = bs_effect_verifications s →
    pr_mode (bs_provisioning c) = pr_mode (bs_provisioning s) →
    (pr_owner_enrollment (bs_provisioning s) = Unresolved
     ∨ pr_owner_enrollment (bs_provisioning s) = Pending) →
    (pr_owner_authority (bs_provisioning c) = None ∨
     ∃ o, pr_owner_authority (bs_provisioning c) = Some o
       ∧ oa_generation o = (pr_authority_generation (bs_provisioning s) + 1)%Z
       ∧ ∃ m, pr_mode (bs_provisioning s) = Some m ∧ m ≠ Recovery) → change s c.

Lemma checked_add_Some x y z : u64_checked_add x y = Some z → z = (x + y)%Z.
Proof. unfold u64_checked_add. destruct (_ <=? _)%Z; by intros [= <-]. Qed.

Lemma transition_change s c :
  transition s c → change s c ∧ bs_session_id c = bs_session_id s ∧ bs_machine_id c = bs_machine_id s.
Proof.
  destruct 1 as [stage op c Hc|op c Hc|op a c Ha He Hc|mode m c Hc|d n c Hc|r a c Ha Hr Hc|r c _ _ Hc|r c _ _ Hc
    |c Hc|e a c Ha He Hs Hb Hc].
  - unfold prepare_stage in Hc. checked Hc. apply validated_Ok in Hc as [-> _]. split; [|done].
    eapply ch_prepare; try done. by destruct (bs_active s).
  - unfold mark_effect_started in Hc. checked Hc. apply validated_Ok in Hc as [-> _]. split; [|done].
    by eapply ch_mark.
  - unfold complete_verified in Hc. rewrite Ha in Hc. checked Hc. apply validated_Ok in Hc as [-> _].
    split; [|done]. simplify_eq. by eapply ch_complete.
  - unfold select_provisioning in Hc. checked Hc. apply provisioned_Ok in Hc as ->. split; [|done].
    match goal with E : present (pr_mode _) = false |- _ => rename E into Hm end.
    apply ch_selection; try done.
    + destruct m as [m|]; [|by simplify_eq].
      match goal with E : _ ≫= _ = Ok _ |- _ => apply bind_Ok in E as (? & _ & [= <-]) end. done.
    + intros m' Em. by rewrite Em in Hm.
  - unfold bind_first_boot_plan in Hc. checked Hc. destruct (pr_first_boot_plan_sha256 _).
    + match type of Hc with (if ?b then _ else _) = _ => destruct b; [|done] end.
      injection Hc as <-. split; [|done]. by apply ch_selection.
    + apply validated_Ok in Hc as [-> _]. split; [|done]. by apply ch_selection.
  - unfold enter_pending in Hc. checked Hc. apply provisioned_Ok in Hc as ->. split; [|done].
    apply ch_owner; try done; by left.
  - unfold enroll_pending_owner_fresh in Hc. checked Hc. apply provisioned_Ok in Hc as ->. split; [|done].
    apply ch_owner; try done; [by right|right]. eexists. split_and!; [done|by apply checked_add_Some|].
    destruct (pr_mode (bs_provisioning s)) as [m|]; [|done]. exists m. by destruct m.
  - unfold enroll_owner_fresh in Hc. checked Hc. apply provisioned_Ok in Hc as ->. split; [|done].
    apply ch_owner; try done; [by left|right]. eexists. split_and!; [done|by apply checked_add_Some|].
    by exists InteractiveOwner.
  - unfold enter_recovery_owner_resolution in Hc. checked Hc. apply provisioned_Ok in Hc as ->. split; [|done].
    apply ch_owner; try done; by left.
  - unfold record_evidence in Hc. apply validated_Ok in Hc as [-> _]. split; [|done].
    unfold evidence_bound in Hb. rewrite !andb_true_iff, !bool_decide_eq_true in Hb.
    destruct Hb as [[[H1 H2] _] _]. by eapply (ch_evidence _ _ a (completed_verification e)).
Qed.

(** ** Runs *)
Lemma step_change s s' :
  step s s' → change s s' ∧ DurableBootstrapState_validate s' = Ok tt.
Proof.
  intros (c & [Hc _]%transition_change & -> & _ & Hv). split; [|done].
  destruct Hc; [eapply ch_prepare|eapply ch_mark|eapply ch_complete|eapply ch_evidence|eapply ch_selection
    |eapply ch_owner]; eauto.
Qed.

Lemma steps_valid s s' :
  rtc step s s' → DurableBootstrapState_validate s = Ok tt → DurableBootstrapState_validate s' = Ok tt.
Proof. induction 1 as [|s1 s2 s3 [_ Hv]%step_change _ IH]; auto. Qed.

Lemma new_valid session machine s :
  DurableBootstrapState_new session machine = Ok s →
  DurableBootstrapState_validate s = Ok tt ∧ bs_active s = None ∧ bs_completed s = []
  ∧ bs_effect_verifications s = [] ∧ owner_part s = (Unresolved, None, 0%Z, false).
Proof.
  unfold DurableBootstrapState_new. intros (? & _ & (? & _ & ([] & Hv & [= <-])%bind_Ok)%bind_Ok)%bind_Ok. done.
Qed.

Lemma canonical_prefix_take order l : canonical_prefix order l = true → l = take (length l) order.
Proof.
  revert order. induction l as [|x l IH]; intros [|y order]; cbn; try done.
  intros [Hx%bool_decide_eq_true Hl]%andb_prop. subst. f_equal. by apply IH.
Qed.

Lemma lineage_stages stages vs : validate_lineage stages vs = Ok tt → ce_stage <$> vs = stages.
Proof.
  revert vs. induction stages as [|stage l IH]; intros [|v vs]; cbn; try done.
  intros H. checked H. f_equal; [done|by apply IH].
Qed.

(** The operation was prepared for the stage, and then durably started. *)
Definition started (s0 s : DurableBootstrapState) (stage : BootstrapStage) (operation_id : string) : Prop :=
  ∃ s1 s2, rtc step s0 s1 ∧ step s1 s2 ∧ rtc step s2 s ∧
    bs_active s1 = Some {| as_stage := stage; as_operation_id := operation_id;
                           as_effect_state := PreparedStage |} ∧
    bs_active s2 = Some {| as_stage := stage; as_operation_id := operation_id;
                           as_effect_state := EffectStarted |}.

Lemma started_step s0 s s' stage op : started s0 s stage op → step s s' → started s0 s' stage op.
Proof.
  intros (s1 & s2 & H1 & H2 & H3 & Ha) Hs. exists s1, s2. split_and!; try done; try apply Ha.
  by eapply rtc_r.
Qed.

Lemma run_started s0 s :
  bs_active s0 = None → bs_effect_verifications s0 = [] → rtc step s0 s →
  (∀ a, bs_active s = Some a → as_effect_state a = EffectStarted → started s0 s (as_stage a) (as_operation_id a))
  ∧ Forall (λ v, started s0 s (ce_stage v) (ce_operation_id v)) (bs_effect_verifications s).
Proof.
  intros Ha0 Hv0. revert s. refine (rtc_ind_r _ s0 _ _).
  { rewrite Ha0, Hv0. by split. }
  intros s s' Hrun Hs [IHa IHv].
  assert (Forall (λ v, started s0 s' (ce_stage v) (ce_operation_id v)) (bs_effect_verifications s)) as Hv.
  { eapply Forall_impl; [exact IHv|]. intros v Hst. exact (started_step _ _ _ _ _ Hst Hs). }
  destruct (step_change s s' Hs) as [Hc _]. destruct Hc as [stage op Hn Hc1 _ Hc3 _|a Ha Hp Hc1 _ Hc3 _
    |a Ha _ Hc1 _ Hc3 _|a v Ha _ He Hc1 Hst Hop _ Hc3 _|Hc1 _ Hc3 _ _|Hc1 _ Hc3 _ _ _];
    rewrite Hc3, Hc1; (split; [|try done]).
  - by intros b [= <-].
  - intros b [= <-] _. cbn. exists s, s'. split_and!; try done. rewrite Ha. destruct a; cbn in *. by subst.
  - done.
  - done.
  - apply Forall_app. split; [done|]. constructor; [|done]. rewrite Hst, Hop.
    eapply started_step; [by apply IHa|done].
  - intros b Hb Hbe. eapply started_step; [by apply IHa|done].
  - intros b Hb Hbe. eapply started_step; [by apply IHa|done].
Qed.

(** C23: In every run from a new bootstrap state the completed stages are the
    canonical stages in their order, the recorded verifications are those of the
    completed stages with effects, one for each, and each of them names an
    operation that the run had prepared for that stage and durably marked as
    started before. *)
Theorem effects_complete_on_evidence session machine s0 s :
  DurableBootstrapState_new session machine = Ok s0 → rtc step s0 s →
  bs_completed s = take (length (bs_completed s)) ORDERED ∧
  ce_stage <$> bs_effect_verifications s
    = filter (λ stage, stage_requires_effect_boundary stage = true) (bs_completed s) ∧
  Forall (λ v, started s0 s (ce_stage v) (ce_operation_id v)) (bs_effect_verifications s).
Proof.
  intros (Hv & Ha & _ & He & _)%new_valid Hrun. pose proof (steps_valid s0 s Hrun Hv) as Hs%validate_parts.
  split_and!; [by apply canonical_prefix_take, Hs|by apply lineage_stages, Hs|by apply run_started].
Qed.

(** ** The owner *)
Lemma owner_valid s :
  DurableBootstrapState_validate s = Ok tt → validate_owner (bs_provisioning s) = Ok tt.
Proof.
  intros Hp%validate_parts%vp_provisioning. unfold ProvisioningState_validate in Hp. by checked Hp.
Qed.

Lemma owner_unresolved s :
  DurableBootstrapState_validate s = Ok tt →
  pr_owner_enrollment (bs_provisioning s) = Unresolved ∨ pr_owner_enrollment (bs_provisioning s) = Pending →
  pr_owner_authority (bs_provisioning s) = None ∧ pr_authority_generation (bs_provisioning s) = 0%Z.
Proof.
  intros Hv%owner_valid. unfold validate_owner in Hv. intros [E|E]; rewrite E in Hv; checked Hv;
    match goal with E : _ && _ = true |- _ => apply andb_prop in E as [E1%negb_true_iff E2%Z.eqb_eq] end;
    (split; [|done]); by destruct (pr_owner_authority _).
Qed.

Lemma owner_enrolled s o :
  DurableBootstrapState_validate s = Ok tt → pr_owner_authority (bs_provisioning s) = Some o →
  owner_part s = (Enrolled, Some o, oa_generation o, true).
Proof.
  intros Hv%owner_valid Ho. unfold validate_owner in Hv. unfold owner_part. rewrite Ho in *. cbn in Hv.
  destruct (pr_owner_enrollment _); checked Hv; try done. simplify_eq.
  match goal with E : (_ =? _)%Z = true |- _ => apply Z.eqb_eq in E end. congruence.
Qed.

(** Who holds authority keeps it, and was given the first one. *)
Definition minted (s : DurableBootstrapState) (o : OwnerAuthorityRecord) : Prop :=
  owner_part s = (Enrolled, Some o, 1%Z, true) ∧ ∃ m, pr_mode (bs_provisioning s) = Some m ∧ m ≠ Recovery.

Lemma minted_step s s' o :
  DurableBootstrapState_validate s = Ok tt → step s s' → minted s o → minted s' o.
Proof.
  intros Hv [Hc _]%step_change [Ho (m & Hm & Hr)]. unfold minted, owner_part in *.
  destruct Hc as [stage op _ _ _ _ Hp|a _ _ _ _ _ Hp|a _ _ _ _ _ Hp|a v _ _ _ _ _ _ _ _ Hp|_ _ _ Hp Hmode|_ _ _ _ Hp _];
    try (rewrite Hp; split; [done|by exists m]).
  - unfold owner_part in Hp. split; [by rewrite Hp|]. exists m. split; [by apply Hmode|done].
  - apply owner_unresolved in Hp as [Hn _]; [|done]. by rewrite Hn in Ho.
Qed.

Lemma minted_steps s s' o :
  rtc step s s' → DurableBootstrapState_validate s = Ok tt → minted s o → minted s' o.
Proof.
  induction 1 as [|s1 s2 s3 Hs _ IH]; [done|]. intros Hv Hm. apply IH; [by apply (step_change s1)|].
  by eapply minted_step.
Qed.

Lemma authority_is_minted s0 s o :
  DurableBootstrapState_validate s0 = Ok tt → pr_owner_authority (bs_provisioning s0) = None →
  rtc step s0 s → pr_owner_authority (bs_provisioning s) = Some o → minted s o.
Proof.
  intros Hv0 Hn0 Hrun. revert s Hrun o. refine (rtc_ind_r _ s0 _ _); [congruence|].
  intros s s' Hrun Hs IH o Ho. pose proof (steps_valid s0 s Hrun Hv0) as Hv.
  destruct (step_change s s' Hs) as [Hc Hv'].
  assert (pr_owner_authority (bs_provisioning s) = Some o → minted s' o) as Hkeep.
  { intros Ho'. eapply minted_step; [exact Hv|exact Hs|by apply IH]. }
  destruct Hc as [stage op _ _ _ _ Hp|a _ _ _ _ _ Hp|a _ _ _ _ _ Hp|a v _ _ _ _ _ _ _ _ Hp|_ _ _ Hp _|_ _ _ Hmo Hp Hn];
    try (apply Hkeep; by rewrite <- Hp).
  - apply Hkeep. unfold owner_part in Hp. injection Hp as _ Hp _ _. by rewrite <- Hp.
  - destruct Hn as [Hn|(o' & Ho' & Hg & Hm)]; [by rewrite Hn in Ho|].
    apply owner_unresolved in Hp as [_ Hz]; [|done]. rewrite Ho in Ho'. injection Ho' as <-.
    split; [|by rewrite Hmo]. rewrite (owner_enrolled s' o Hv' Ho), Hg, Hz. done.
Qed.

(** C22: In a run from a new bootstrap state, owner authority that some state of
    the run holds is the first generation of it, was minted with the preparer's
    authority retired and not for a recovery, and is the same in every later
    state of the run: it is never replaced, inherited or withdrawn. *)
Theorem owner_authority_minted_once session machine s0 s s' o :
  DurableBootstrapState_new session machine = Ok s0 → rtc step s0 s → rtc step s s' →
  pr_owner_authority (bs_provisioning s) = Some o →
  owner_part s' = (Enrolled, Some o, 1%Z, true) ∧ oa_generation o = 1%Z ∧
  ∃ m, pr_mode (bs_provisioning s') = Some m ∧ m ≠ Recovery.
Proof.
  intros (Hv & _ & _ & _ & Ho0)%new_valid Hrun Hlater Ho. injection Ho0 as _ Hn _ _.
  pose proof (steps_valid s0 s Hrun Hv) as Hvs.
  pose proof (authority_is_minted s0 s o Hv Hn Hrun Ho) as Hm.
  destruct (minted_steps s s' o Hlater Hvs Hm) as [Hp' Hmode]. split_and!; [done| |done].
  destruct Hm as [Hp _]. pose proof (owner_enrolled s o Hvs Ho) as Hq. congruence.
Qed.

(** ** The ledger and its anchor *)
Section anchors.
Context `{Crypto}.

Lemma with_pending_Ok s c a :
  anchor_with_pending s c = Ok a →
  a = {| ga_committed_generation := bs_generation s; ga_committed_state_sha256 := bootstrap_state_digest s;
         ga_pending_generation := Some (bs_generation c);
         ga_pending_state_sha256 := Some (bootstrap_state_digest c) |}.
Proof. unfold anchor_with_pending. by intros (? & _ & [= <-])%bind_Ok. Qed.

Lemma digest_eq_refl x : constant_time_ascii_eq x x = true.
Proof. by apply constant_time_hex_eq_spec. Qed.

(** What reconciliation accepts. *)
Definition vouches (o : option GenerationAnchor) (s : DurableBootstrapState) : Prop :=
  match o with
  | None => bs_generation s = 0%Z
  | Some a =>
      ga_committed_generation a = bs_generation s
        ∧ ga_committed_state_sha256 a = bootstrap_state_digest s
      ∨ ga_pending_generation a = Some (bs_generation s)
        ∧ ga_pending_state_sha256 a = Some (bootstrap_state_digest s)
        ∧ bs_generation s = u64_saturating_add (ga_committed_generation a) 1
  end.

Lemma names_digest_true o x : names_digest o x = true ↔ o = Some x.
Proof.
  destruct o as [d|]; cbn; [|done]. unfold constant_time_ascii_eq. rewrite constant_time_hex_eq_spec.
  split; [by intros ->|by intros [= ->]].
Qed.

Lemma reconcile_vouches o s : (∃ w, reconcile_decision o s = Ok w) ↔ vouches o s.
Proof.
  unfold reconcile_decision. destruct o as [a|]; cbn [vouches].
  - destruct ((ga_committed_generation a =? bs_generation s)%Z && _) eqn:E1.
    { apply andb_prop in E1 as [E1%Z.eqb_eq E2%constant_time_hex_eq_spec]. split; [by left|eauto]. }
    destruct (bool_decide _ && _ && _) eqn:E2.
    { apply andb_prop in E2 as [[E2%bool_decide_eq_true E3%names_digest_true]%andb_prop E4%Z.eqb_eq].
      split; [by right|eauto]. }
    split; [by intros [w Hw]|]. intros [[H1 H2]|(H1 & H2 & H3)].
    + rewrite H1, H2, Z.eqb_refl, digest_eq_refl in E1. done.
    + rewrite bool_decide_eq_true_2, (proj2 (names_digest_true _ _) H2), <- H3, Z.eqb_refl in E2 by done. done.
  - destruct (Z.eqb_spec (bs_generation s) 0); split; try done; eauto. by intros [w Hw].
Qed.

(** What it writes then is the commitment to the ledger. *)
Lemma reconcile_writes o s w :
  reconcile_decision o s = Ok w →
  match w with
  | Some a => a = anchor_committed s
  | None => ∃ a, o = Some a ∧ ga_committed_generation a = bs_generation s
      ∧ ga_committed_state_sha256 a = bootstrap_state_digest s ∧ ga_pending_generation a = None
  end.
Proof.
  unfold reconcile_decision. destruct o as [a|].
  - destruct (_ && constant_time_ascii_eq (ga_committed_state_sha256 a) _) eqn:E1.
    { apply andb_prop in E1 as [E1%Z.eqb_eq E2%constant_time_hex_eq_spec]. intros [= <-].
      destruct (ga_pending_generation a) eqn:Ep; [done|]. by exists a. }
    destruct (_ && (bs_generation s =? u64_saturating_add _ 1)%Z); by intros [= <-].
  - destruct (_ =? _)%Z; by intros [= <-].
Qed.

Lemma finalize_writes o c a :
  finalize_decision o c = Ok a →
  a = anchor_committed c ∧ ∃ b, o = Some b ∧ ga_pending_generation b = Some (bs_generation c).
Proof.
  unfold finalize_decision. intros Hf. checked Hf. injection Hf as <-. split; [done|]. eauto.
Qed.
End anchors.
