(* ===== verification/BootstrapDisk.v ===== *)
(** * Durable bootstrap: the ledger and the anchor on the disk

    What [bootstrap_write], the store, the coordinator's commit and all its
    operations do to the two files, which are in directories of their own:
    whatever call fails and wherever the process is killed.  A write to one
    file is seen from the other's directory as the act of another process, so
    that everything known of that directory stays true. *)

From Stdlib Require Import ZArith Lia Ascii.
From stdpp Require Import base numbers gmap strings list fin_maps sorting relations.
From S2P Require Import Prelude Text Fields Digest Paths Files ControlFiles FileFacts ControlFacts.
From S2P Require Import UpdateEvidence UpdateEvidenceFacts BootstrapState BootstrapText BootstrapStore BootstrapBaseline BootstrapFacts.

Set Default Goal Selector "!".

(** ** Assertions that other processes keep *)
Definition steady (env : FsEnv) (P : FS → Prop) : Prop := ∀ k fs, P fs → P (interfere env k fs).

Lemma stable_steady d env P : quiet d env → stable d P → steady env P.
Proof. intros Hq Hs k fs. apply Hs, Hq. Qed.
Lemma steady_and env (P F : FS → Prop) : steady env P → steady env F → steady env (λ fs, P fs ∧ F fs).
Proof. intros HP HF k fs [H1 H2]. split; [by apply HP|by apply HF]. Qed.

Lemma spec_steady_call {A} env broken (op : nat → FsEnv → FS → FS * result IoError A) P
    (Q : _ → option (result IoError A) → Prop) :
  steady env P →
  (∀ n fs, P fs → Q (op n env fs).1 (Some (op n env fs).2)) →
  (∀ n fs t, P fs → Q (broken n env fs) (Some (Err {| io_kind := OtherError; io_text := t |}))) →
  (∀ fs, P fs → Q fs None) →
  spec env P (call_with broken op) Q.
Proof.
  intros Hs Hop Hb Hk w Hw. unfold call_with. apply (Hs (w_calls w)) in Hw.
  destruct (killed env (w_calls w)); [by apply Hk|].
  destruct (fault env (w_calls w)); [by apply Hb|].
  specialize (Hop (w_calls w) _ Hw). by destruct (op _ _ _).
Qed.

(** Computations that only look. *)
Definition observing (env : FsEnv) {E A} (m : IO E A) : Prop :=
  ∀ P, steady env P → spec env P m (λ fs _, P fs).

Section observing.
Context (env : FsEnv).

Lemma observing_ret {E A} (a : A) : observing env (E := E) (mret a).
Proof. intros P _. by apply spec_ret. Qed.
Lemma observing_lift {E A} (r : result E A) : observing env (io_lift r).
Proof. intros P _. by apply spec_lift. Qed.
Lemma observing_bind {E A B} (m : IO E A) (f : A → IO E B) :
  observing env m → (∀ a, observing env (f a)) → observing env (m ≫= f).
Proof. intros Hm Hf P Hs. apply spec_keep_bind; [by apply Hm|intros a; by apply Hf|done..]. Qed.
Lemma observing_sys {E A} `{ControlErrors E} (m : IO IoError A) :
  observing env m → observing env (sys (E := E) m).
Proof. intros Hm P Hs. by apply spec_keep_map_err, Hm. Qed.
Lemma observing_attempt {E F A} (m : IO E A) : observing env m → observing env (@attempt E F A m).
Proof. intros Hm P Hs. by apply spec_keep_attempt, Hm. Qed.
Lemma observing_call {A} (op : nat → FsEnv → FS → FS * result IoError A) :
  (∀ k fs, (op k env fs).1 = fs) → observing env (call op).
Proof. intros Hop P Hs. apply spec_steady_call; try done. intros k fs Hp. by rewrite Hop. Qed.
Lemma observing_open b p : observing env (open_file (read_only b) p).
Proof.
  apply observing_call. intros k fs. unfold open_at.
  destruct (resolve _ env fs p) as [key|]; [|done]. destruct (inode_at fs key) as [[id i]|]; [|done].
  cbn. by destruct (i_kind i).
Qed.
Lemma observing_stat follow p : observing env (stat follow p).
Proof. by apply observing_call. Qed.
Lemma observing_file_metadata f : observing env (file_metadata f).
Proof. by apply observing_call. Qed.
End observing.

Create HintDb observing.
#[export] Hint Resolve observing_ret observing_lift observing_open observing_stat observing_file_metadata : observing.

Ltac observe :=
  repeat match goal with
  | |- observing _ (_ ≫= _) => apply observing_bind; [|intros ?]
  | |- observing _ (sys _) => apply observing_sys
  | |- observing _ (attempt _) => apply observing_attempt
  | |- observing _ (if ?b then _ else _) => destruct b
  | |- observing _ (match ?x with _ => _ end) => destruct x
  | |- observing _ (let '(_, _) := ?x in _) => destruct x
  | |- observing _ (symlink_metadata _) => apply observing_stat
  | |- observing _ (io_fail _) => apply observing_lift
  | |- observing _ (lock_file _) => by apply observing_call
  | |- observing _ (call _) => by apply observing_call
  end; auto with observing.

Section observations.
Context `{Crypto} `{Host} (env : FsEnv).

Lemma observing_uid : observing env current_effective_uid.
Proof. unfold current_effective_uid, read_host. observe. Qed.
Lemma observing_ancestors parent uid current comps : observing env (check_ancestors parent uid current comps).
Proof. revert current. induction comps as [|c comps IH]; intros current; cbn [check_ancestors]; observe. Qed.
Lemma observing_parent p : observing env (validate_state_parent p).
Proof. unfold validate_state_parent. observe; auto using observing_uid, observing_ancestors. Qed.
Lemma observing_metadata m : observing env (validate_state_metadata m).
Proof. unfold validate_state_metadata, untrusted_or_foreign. observe. apply observing_uid. Qed.
Lemma observing_control p : observing env (reject_untrusted_existing_control_file p).
Proof. unfold reject_untrusted_existing_control_file, untrusted_or_foreign. observe. apply observing_uid. Qed.
Lemma observing_identity p f : observing env (validate_control_identity p f).
Proof. unfold validate_control_identity. observe. apply observing_uid. Qed.
End observations.
#[export] Hint Resolve observing_uid observing_parent observing_metadata observing_control observing_identity : observing.

(** ** Operations

    Every operation looks at files, at the clock and at the machine, and then
    commits one candidate, the one that the transition of this operation makes. *)
Section operations.
Context `{Crypto} `{Host} `{Observer} (env : FsEnv).

Lemma observing_map_err {E F A} (g : E → F) (m : IO E A) : observing env m → observing env (io_map_err g m).
Proof. intros Hm P Hs. by apply spec_keep_map_err, Hm. Qed.
Lemma observing_time {E} : observing env (E := E) time_now.
Proof. by intros P Hs w Hw. Qed.
Lemma observing_observe {A} (f : nat → result IoError A) : observing env (observe f).
Proof. by apply observing_call. Qed.
Lemma observing_read f : observing env (read_to_end f).
Proof. by apply observing_call. Qed.
#[local] Hint Resolve observing_map_err observing_time observing_observe observing_read : observing.

Lemma observing_text path : observing env (observe_text path).
Proof. unfold observe_text. observe. Qed.
Lemma observing_command program args : observing env (command_output program args).
Proof. unfold command_output. observe. Qed.
Lemma observing_bool f : observing env (observe_bool f).
Proof. unfold observe_bool. observe. Qed.
Lemma observing_foreign b m : observing env (untrusted_or_foreign b m).
Proof. unfold untrusted_or_foreign. observe. Qed.
Lemma observing_clock text : observing env (clock_ms text).
Proof. unfold clock_ms. observe. Qed.
#[local] Hint Resolve observing_text observing_command observing_bool observing_foreign observing_clock : observing.

Lemma observing_candidates : observing env systemd_candidate_units.
Proof. unfold systemd_candidate_units. observe. Qed.
#[local] Hint Resolve observing_candidates : observing.
Lemma observing_units l : observing env (units_expose l).
Proof. induction l as [|unit l IH]; cbn [units_expose]; observe. Qed.
Lemma observing_descriptors listeners directory l : observing env (descriptors_listen listeners directory l).
Proof. induction l as [|entry l IH]; cbn [descriptors_listen]; observe. Qed.
#[local] Hint Resolve observing_units observing_descriptors : observing.
Lemma observing_processes listeners l : observing env (processes_listen listeners l).
Proof.
  induction l as [|entry l IH]; cbn [processes_listen]; unfold process_listens, ssh_server_process; observe.
Qed.
#[local] Hint Resolve observing_processes : observing.
Lemma observing_ssh : observing env ssh_enabled_once.
Proof. unfold ssh_enabled_once, ssh_listener_running, tcp_listener_inodes. observe. Qed.
Lemma observing_retry attempts e (f : IO DurableBootstrapError bool) :
  observing env f → observing env (retry_observation attempts e f).
Proof. intros Hf. revert e. induction attempts as [|attempts IH]; intros e; cbn [retry_observation]; observe. Qed.
Lemma observing_apt_files directory l : observing env (apt_files_fail_closed directory l).
Proof. induction l as [|entry l IH]; cbn [apt_files_fail_closed]; unfold check_apt_file; observe. Qed.
#[local] Hint Resolve observing_ssh observing_retry observing_apt_files : observing.
Lemma observing_apt : observing env apt_sources_fail_closed.
Proof. unfold apt_sources_fail_closed, primary_fail_closed, check_apt_file. observe. Qed.
Lemma observing_firewall : observing env firewall_default_deny.
Proof. unfold firewall_default_deny. observe. Qed.
Lemma observing_interfaces l : observing env (operational_interfaces l).
Proof. induction l as [|x l IH]; cbn [operational_interfaces]; observe. Qed.
Lemma observing_issue s stage observation postcondition :
  observing env (issue_system_evidence s stage observation postcondition).
Proof. unfold issue_system_evidence, issue. observe. Qed.
Lemma observing_evidence s e : observing env (state_complete_effect_verified s e).
Proof. unfold state_complete_effect_verified, evidence_validate_binding. observe. Qed.
Lemma observing_owner_receipt r s : observing env (owner_receipt_validate_binding r s).
Proof. unfold owner_receipt_validate_binding, validate_owner_receipt_freshness, owner_receipt_now_ms. observe. Qed.
Lemma observing_revocation r s : observing env (revocation_validate_binding r s).
Proof. unfold revocation_validate_binding, validate_owner_receipt_freshness, owner_receipt_now_ms. observe. Qed.
Lemma observing_installation p : observing env (protected_regular_file_sha256 p).
Proof. unfold protected_regular_file_sha256. observe. Qed.
Lemma observing_directory m : observing env (unprotected_directory m).
Proof. unfold unprotected_directory. observe. Qed.
Lemma observing_bytes p max : observing env (protected_regular_file_bytes p max).
Proof. unfold protected_regular_file_bytes. observe. Qed.
#[local] Hint Resolve observing_apt observing_firewall observing_interfaces observing_issue observing_evidence
  observing_owner_receipt observing_revocation observing_installation observing_directory observing_bytes : observing.

(** Nothing but the acts of other processes lies between the two worlds. *)
Definition looked (w w' : World) : Prop := ∀ P, steady env P → P (w_fs w) → P (w_fs w').

Lemma observing_looked {E A} (m : IO E A) w w' r : observing env m → m env w = (w', r) → looked w w'.
Proof. intros Hm Hr P Hs Hw. specialize (Hm P Hs w Hw). by rewrite Hr in Hm. Qed.

(** The method looks and then fails, is killed, or commits a candidate that
    [made] allows. *)
Definition commits_one (co : DurableBootstrapCoordinator) (made : DurableBootstrapState → Prop) (x : Action unit) : Prop :=
  ∀ w, ∃ w1, looked w w1 ∧
    ((∃ e, x co env w = (w1, Some (co, Err e))) ∨ x co env w = (w1, None) ∨
     ∃ candidate, made candidate ∧ x co env w = bootstrap_commit candidate co env w1).

Context (co : DurableBootstrapCoordinator) (made : DurableBootstrapState → Prop).

Lemma one_commit candidate : made candidate → commits_one co made (bootstrap_commit candidate).
Proof. intros Hm w. exists w. split; [by intros P|]. right. right. eauto. Qed.
Lemma one_self (f : DurableBootstrapCoordinator → Action unit) :
  commits_one co made (f co) → commits_one co made (coordinator ≫= f).
Proof. done. Qed.
Lemma one_check {A} (x : result DurableBootstrapError A) (f : A → Action unit) :
  (∀ v, x = Ok v → commits_one co made (f v)) → commits_one co made (act_check x ≫= f).
Proof.
  intros Hf w. destruct x as [v|e]; [by apply (Hf v)|]. exists w. split; [by intros P|]. left. by exists e.
Qed.
Lemma one_look {A} (m : IO DurableBootstrapError A) (f : A → Action unit) :
  observing env m → (∀ v w w', m env w = (w', Some (Ok v)) → commits_one co made (f v)) →
  commits_one co made (act m ≫= f).
Proof.
  intros Hm Hf w. cbv [mbind action_bind act]. destruct (m env w) as [w1 r] eqn:E.
  pose proof (observing_looked m w w1 r Hm E) as Hl. destruct r as [[v|e]|]; cbn.
  - destruct (Hf v w w1 E w1) as (w2 & Hl2 & Hr). exists w2. split; [|exact Hr].
    intros P Hs Hw. by apply Hl2, Hl.
  - exists w1. split; [done|]. left. by exists e.
  - exists w1. split; [done|]. right. by left.
Qed.
Lemma one_commit_of f :
  (∀ c, f (bc_state co) = Ok c → made c) → commits_one co made (commit_of f).
Proof. intros Hm. apply one_self, one_check. intros c Hc. by apply one_commit, Hm. Qed.
Lemma one_evidence e : (∀ c, evidenced e (bc_state co) c → made c) → commits_one co made (do_complete_effect_verified e).
Proof.
  intros Hm. apply one_self, one_look; [auto with observing|]. intros c w w' Hc%evidence_made. by apply one_commit, Hm.
Qed.
End operations.

Section performing.
Context `{Crypto} `{Host} `{Observer} (env : FsEnv).
Context (Hclock : ∀ k, (0 ≤ (clock env k).2)%Z).

(** The last observation issues the evidence that is then taken. *)
Lemma one_system_evidence co stage observation postcondition :
  commits_one env co (system_evidenced stage (bc_state co))
    (evidence ← act (issue_system_evidence (bc_state co) stage observation postcondition);
     do_complete_effect_verified evidence).
Proof.
  apply one_look; [apply observing_issue|]. intros e w w' He. apply one_evidence. intros c Hc.
  unfold issue_system_evidence in He. io_inv. apply issue_Ok in He as (Hs & Hv & Ht). exists e. auto.
Qed.

Ltac looking :=
  repeat first
    [ apply one_system_evidence | apply one_self
    | apply one_check; intros ? _
    | apply one_look; [first [apply observing_map_err|idtac]|intros ? _ _ _] ].

Lemma perform_commits_one op co : commits_one env co (made_by op (bc_state co)) (perform op).
Proof.
  destruct op; cbn [perform made_by]; try (apply one_commit_of; by auto).
  - apply one_self, one_check. intros [] Ha. apply one_commit_of. intros c Hc.
    pose proof Hc as Hc'. unfold complete_verified in Hc'.
    apply bind_Ok in Hc' as (active & Hactive%ok_or_Ok & _). rewrite Hactive in Ha.
    apply reject_if_Ok in Ha. by exists active.
  - apply one_self, one_look; [apply observing_revocation|]. intros v w w' (active & Ha & Hb)%revocation_receipt_bound.
    apply one_look; [apply observing_revocation|]. intros _ _ _ _. apply one_commit_of. intros c Hc. by exists active.
  - apply one_self, one_look; [apply observing_owner_receipt|]. intros v w w' [Hs Hm]%owner_receipt_bound.
    apply one_commit_of. by intros c Hc.
  - apply one_self, one_check. intros [] _. apply one_look; [apply observing_owner_receipt|].
    intros v w w' [Hs Hm]%owner_receipt_bound. apply one_commit_of. by intros c Hc.
  - apply one_evidence. auto.
  - unfold verify_linura_installation. looking. apply observing_installation.
  - unfold verify_persistent_state_root. looking; [apply observing_stat|apply observing_directory].
  - unfold verify_security_baseline, unobserved, ssh_enabled, retry_ssh_observation. looking;
      [apply observing_retry, observing_ssh|apply observing_firewall|apply observing_apt].
  - unfold verify_connectivity_observation. looking; [apply observing_observe|apply observing_interfaces].
  - unfold verify_recovery_checkpoint_manifest. looking;
      first [apply observing_bytes|apply observing_directory|apply observing_stat].
  - unfold verify_owner_resolution. looking.
Qed.

(** In memory, an operation that succeeds makes a step of the state machine. *)
Lemma perform_steps op co w w' co' :
  perform op co env w = (w', Some (co', Ok tt)) → step (bc_state co) (bc_state co').
Proof.
  destruct (perform_commits_one op co w) as (w1 & _ & [[e ->]|[-> |(c & Hm & ->)]]); [done..|].
  intros (_ & _ & Hs & Hg & Hv)%acts_commit. exists c. split; [by eapply made_transition|done].
Qed.
End performing.

(** ** Readable states

    What an operation makes of a state that can be read back can be read back,
    unless it is named by a dash or its arguments are outside of their types'
    ranges. *)
Definition manifest_plain (m : ProvisioningManifest) : Prop :=
  sha256_text (pm_identity m) = true ∧ plain_identifier (pm_manifest_id m) ∧
  (∀ i, pm_source_ref m = Some i → plain_identifier i) ∧ (∀ i, pm_setup_ref m = Some i → plain_identifier i) ∧
  (∀ i, pm_machine_profile_ref m = Some i → plain_identifier i) ∧
  (∀ i, pm_host_identity m = Some i → plain_identifier i).

Definition readable (op : BootstrapOperation) : Prop :=
  match op with
  | OpPrepareStage _ operation_id => operation_id ≠ "-"
  | OpSelectProvisioning _ (Some manifest) => manifest_plain manifest
  | OpBindFirstBootPlan _ count => is_u32 count
  | OpEnrollPendingOwner receipt | OpEnrollInteractiveOwner receipt =>
      or_owner_id receipt ≠ "-" ∧ or_enrollment_id receipt ≠ "-"
  | OpCompleteEffectVerified evidence => is_u64 (be_observed_unix_ms evidence)
  | _ => True
  end.

Definition times_ok (s : DurableBootstrapState) : Prop :=
  Forall (λ v, is_u64 (ce_observed_unix_ms v)) (bs_effect_verifications s).

Lemma provisioning_owner p e o g b :
  provisioning_ok p → is_u64 g →
  (∀ x, o = Some x → plain_identifier (oa_owner_id x) ∧ plain_identifier (oa_enrollment_id x)
     ∧ (0 < oa_generation x ≤ u64_max)%Z) →
  provisioning_ok (with_owner e o g b p).
Proof. intros [] Hg Ho. by split. Qed.

Lemma provisioning_enrolled p e b (owner enrollment : string) g :
  provisioning_ok p → owner ≠ "-" → enrollment ≠ "-" → identifier owner → identifier enrollment →
  u64_checked_add (pr_authority_generation p) 1 = Some g →
  provisioning_ok (with_owner e (Some {| oa_owner_id := owner; oa_enrollment_id := enrollment;
                                         oa_generation := g |}) g b p).
Proof.
  intros Hp Ho He Hi Hj Hg. pose proof (po_generation p Hp) as Hold. unfold u64_checked_add in Hg.
  destruct (Z.leb_spec (pr_authority_generation p + 1) u64_max); [|done]. injection Hg as <-.
  unfold is_u64 in *. apply provisioning_owner; [done|unfold is_u64; lia|]. intros x [= <-].
  split; [done|]. split; [done|]. cbn. lia.
Qed.

Lemma evidenced_parts e s c :
  evidenced e s c → is_u64 (be_observed_unix_ms e) → times_ok s →
  times_ok c ∧ bs_provisioning c = bs_provisioning s ∧ bs_active c = None.
Proof.
  intros (active & _ & _ & _ & _ & Hr) Ht Hs. unfold record_evidence in Hr. apply validated_Ok in Hr as [-> _].
  split_and!; [|done|done]. unfold times_ok in *. cbn. apply Forall_app. split; [done|]. by apply Forall_singleton.
Qed.

Lemma made_parts op s c :
  state_ok s → readable op → made_by op s c →
  times_ok c ∧ provisioning_ok (bs_provisioning c) ∧ operation_named c.
Proof.
  intros [Hs Hn] Hop Hm. pose proof (ss_times s Hs) as Ht. fold (times_ok s) in Ht.
  pose proof (ss_provisioning s Hs) as Hp.
  assert (∀ stage, system_evidenced stage s c → times_ok c ∧ provisioning_ok (bs_provisioning c) ∧ operation_named c) as Hsys.
  { intros stage (e & _ & _ & Hu & He). destruct (evidenced_parts e s c He Hu Ht) as (H1 & -> & H3).
    split_and!; [done..|]. intros a. by rewrite H3. }
  destruct op; cbn in Hm, Hop; try (by eapply Hsys).
  - unfold prepare_stage in Hm. checked Hm. apply validated_Ok in Hm as [-> _].
    match goal with E : normalize_identifier _ _ = Ok _ |- _ => apply boot_normalize_identifier_Ok in E as [-> _] end.
    split_and!; [done..|]. by intros a [= <-].
  - unfold mark_effect_started in Hm. checked Hm. apply validated_Ok in Hm as [-> _].
    split_and!; [done..|]. intros a [= <-]. cbn. by eapply Hn.
  - destruct Hm as (active & _ & _ & Hm). unfold complete_verified in Hm. checked Hm.
    apply validated_Ok in Hm as [-> _]. by split_and!.
  - unfold select_provisioning in Hm. checked Hm. apply provisioned_Ok in Hm as ->. split_and!; [done| |done].
    destruct manifest as [manifest|]; cbn in *.
    + match goal with E : manifest_validate_binding _ _ _ _ ≫= _ = Ok _ |- _ => apply bind_Ok in E as ([] & _ & [= <-]) end.
      destruct Hop as (? & ? & ? & ? & ? & ?), Hp. split; cbn; try done; by intros ? [= <-].
    + match goal with E : Ok _ = Ok _ |- _ => injection E as <- end. by destruct Hp; split.
  - unfold bind_first_boot_plan in Hm. checked Hm. destruct (pr_first_boot_plan_sha256 _) as [existing|].
    + match type of Hm with (if ?b then _ else _) = _ => destruct b; [|done] end. injection Hm as <-. by split_and!.
    + apply validated_Ok in Hm as [-> _]. split_and!; [done| |done]. by destruct Hp; split.
  - destruct Hm as (active & _ & _ & Hm). unfold enter_pending in Hm. checked Hm. apply provisioned_Ok in Hm as ->.
    split_and!; [done| |done]. apply provisioning_owner; [done|unfold is_u64, u64_max; lia|done].
  - destruct Hm as (_ & _ & Hm). unfold enroll_pending_owner_fresh in Hm. checked Hm. apply provisioned_Ok in Hm as ->.
    repeat match goal with E : normalize_identifier _ _ = Ok _ |- _ => apply boot_normalize_identifier_Ok in E as [-> ?] end.
    split_and!; [done| |done]. destruct Hop. by apply provisioning_enrolled.
  - destruct Hm as (_ & _ & Hm). unfold enroll_owner_fresh in Hm. checked Hm. apply provisioned_Ok in Hm as ->.
    repeat match goal with E : normalize_identifier _ _ = Ok _ |- _ => apply boot_normalize_identifier_Ok in E as [-> ?] end.
    split_and!; [done| |done]. destruct Hop. by apply provisioning_enrolled.
  - unfold enter_recovery_owner_resolution in Hm. checked Hm. apply provisioned_Ok in Hm as ->.
    split_and!; [done| |done]. apply provisioning_owner; [done|unfold is_u64, u64_max; lia|done].
  - destruct (evidenced_parts evidence s c Hm Hop Ht) as (H1 & -> & H3). split_and!; [done..|]. intros a. by rewrite H3.
Qed.

Lemma made_ok op s c g :
  state_ok s → readable op → made_by op s c → is_u64 g →
  DurableBootstrapState_validate (with_generation g c) = Ok tt → state_ok (with_generation g c).
Proof.
  intros Hs Hop Hm Hg Hv. destruct (made_parts op s c Hs Hop Hm) as (Ht & Hp & Hn). by split; [split|].
Qed.

(** ** Two directories *)
Section frames.
Context (d a : Key) (Hapart : ¬ d `prefix_of` a).

Lemma not_ours n : ¬ ours a (d ++ [n]).
Proof.
  intros [Hp|[m Hm]].
  - apply Hapart. etrans; [|exact Hp]. by exists [n].
  - apply app_inj_tail in Hm as [-> _]. by apply Hapart.
Qed.

Lemma ours_ne n k : ours a k → d ++ [n] ≠ k.
Proof. intros Hk <-. by apply (not_ours n). Qed.

(** No name of [a] refers to the inode. *)
Definition unlinked (id : InodeId) (fs : FS) : Prop :=
  ∀ k, ours a k → Some id ∉ possible (entry_at fs k).

Lemma stable_unlinked id : stable a (unlinked id).
Proof. intros fs fs' Hr Hu k Hk. rewrite (rely_entry a fs fs' Hr) by done. by apply Hu. Qed.

Lemma boot_rely_refl fs : rely a fs fs.
Proof. by split. Qed.
Lemma rely_trans fs1 fs2 fs3 : rely a fs1 fs2 → rely a fs2 fs3 → rely a fs1 fs3.
Proof.
  intros [W1 E1 V1] [W2 E2 V2]. split; [auto|..].
  - intros k Hk. by rewrite E2, E1.
  - intros k id Hk Hi. rewrite (V2 k), (V1 k); [done..|]. by rewrite E1.
Qed.

Lemma rely_set_entry fs n v :
  (∀ id, v = Some id → is_Some (fs_inodes fs !! id)) → rely a fs (set_entry fs (d ++ [n]) v).
Proof.
  intros Hv. split; [|intros k Hk; apply entry_set_ne; by apply ours_ne|done].
  intros Hw. apply wf_set_entry; [done|]. destruct v; eauto.
Qed.

Lemma rely_set_inode fs id i i0 :
  fs_inodes fs !! id = Some i0 → unlinked id fs ∨ view_of i = view_of i0 → rely a fs (set_inode fs id i).
Proof.
  intros Hi Hor. split; [intros Hw; by eapply wf_set_inode|done|]. intros k id' Hk Hin. cbn.
  destruct (decide (id' = id)) as [->|Hne]; [|by rewrite lookup_insert_ne].
  rewrite lookup_insert_eq, Hi. cbn. destruct Hor as [Hu|Hv]; [by destruct (Hu k Hk)|by rewrite Hv].
Qed.

Lemma rely_create fs k n mode env :
  fs_wf fs → rely a fs (create_at k env fs (d ++ [n]) RegularFile mode)
    ∧ unlinked (fs_next fs) (create_at k env fs (d ++ [n]) RegularFile mode).
Proof.
  intros Hw. assert (∀ k, Some (fs_next fs) ∉ possible (entry_at fs k)) as Hfresh.
  { intros k' Hin. apply (wf_entry fs Hw), (wf_next fs Hw) in Hin. lia. }
  unfold create_at. split.
  - eapply rely_trans; [|apply rely_set_entry]; [|intros id [= <-]; cbn; by rewrite lookup_insert_eq].
    split; [by intros; apply wf_add_inode|done|]. intros k' id Hk Hin. cbn.
    rewrite lookup_insert_ne; [done|]. intros <-. by destruct (Hfresh k').
  - intros k' Hk. rewrite entry_set_ne by (by apply ours_ne). apply Hfresh.
Qed.

Lemma rely_unlink fs k id env : rely a fs (unlink_inode k env fs id).
Proof.
  unfold unlink_inode. destruct (fs_inodes fs !! id) eqn:E; [|apply boot_rely_refl].
  eapply rely_set_inode; [done|by right].
Qed.
Lemma rely_touch fs k id env : rely a fs (touch_inode k env fs id).
Proof.
  unfold touch_inode. destruct (fs_inodes fs !! id) eqn:E; [|apply boot_rely_refl].
  eapply rely_set_inode; [done|by right].
Qed.

Lemma rely_settle fs : rely a fs (settle_dir fs d).
Proof.
  split; [|intros k Hk|done].
  - intros [H1 H2]. split; [|done]. intros k id. rewrite entry_settle. intros Hin%settle_possible. by eapply H1.
  - rewrite entry_settle. unfold settle. case_decide as E; [|done]. destruct E as [E Hne].
    destruct (not_ours (List.last k "")). rewrite <- E. by rewrite <- app_removelast_last.
Qed.
End frames.

(** A run with what it leaves of its own directory and of the other's. *)
Lemma spec_beside {E A} env (P F : FS → Prop) (m : IO E A) Q1 Q2 :
  spec env P m Q1 → spec env (λ fs, P fs ∧ F fs) m Q2 →
  spec env (λ fs, P fs ∧ F fs) m (λ fs r, Q1 fs r ∧ Q2 fs r).
Proof. intros H1 H2 w [Hw1 Hw2]. split; [by apply H1|by apply H2]. Qed.

(** Making a directory that is there. *)
Lemma create_present d env q (P : FS → Prop) :
  components q = "/" :: d → Forall plain_name d → steady env P → (∀ fs, P fs → base d fs) →
  spec env P (create_dir_all q) (λ fs _, P fs).
Proof.
  intros Hq Hn HP Hb.
  assert (spec env P (mkdir_or_present q) (λ fs r, P fs ∧
    match r with Some (Ok (Err e)) => io_kind e ≠ NotFound | _ => True end)) as Hm.
  { unfold mkdir_or_present. eapply spec_bind with (R := λ fs r, P fs ∧
      match r with Some (Ok (Err e)) => io_kind e ≠ NotFound | _ => True end).
    - apply spec_attempt, spec_steady_call; [done|intros k fs Hp|done|done].
      unfold mkdir_at. rewrite (resolve_dir false env fs q d) by (try apply Hb; done).
      destruct (settled_dir_inode fs d) as (id & i & Hi & Hk); [by apply Hb|].
      unfold kind_at. by rewrite Hi.
    - intros [u|e]; [by apply spec_ret; intros ? []|].
      eapply spec_weaken with (P' := λ fs, P fs ∧ io_kind e ≠ NotFound)
        (Q' := λ fs r, P fs ∧ match r with Some (Ok (Err e)) => io_kind e ≠ NotFound | _ => True end);
        [apply spec_pure; intros He|done|done].
      destruct (io_kind e) eqn:Ek; [done|..].
      all: apply spec_keep_bind; [|intros b; apply spec_ret; intros fs Hp; by destruct b; cbn; rewrite ?Ek|done|done].
      all: unfold path_is_dir; apply spec_keep_bind; [|intros x; by apply spec_ret|done|done].
      all: by apply spec_keep_attempt, observing_stat.
    - done.
    - done. }
  unfold create_dir_all. destruct (length (components q)) as [|depth]; cbn [create_dirs].
  all: destruct (bool_decide (q = "")); [by apply spec_ret|].
  all: eapply spec_bind; [exact Hm| |by intros ?? []|by intros ? []].
  all: intros [u|e]; [apply spec_ret; by intros ? []|].
  all: intros w [Hw He]; destruct (io_kind e); done.
Qed.

(** ** Writing beside another directory *)
Section writing.
Context (d a : Key) (env : FsEnv) (Hd : quiet d env) (Ha : quiet a env) (Hapart : ¬ d `prefix_of` a).
Context (n : string) (path : Path) (Hpath : located path d n).
Context (F : FS → Prop) (HF : stable a F).

Let steadyF : steady env F := stable_steady a env F Ha HF.

Lemma frame_call {A} broken (op : nat → FsEnv → FS → FS * result IoError A) P :
  stable d P →
  (∀ k fs, P fs → F fs → rely a fs (op k env fs).1) →
  (∀ k fs, P fs → F fs → rely a fs (broken k env fs)) →
  spec env (λ fs, P fs ∧ F fs) (call_with broken op) (λ fs _, F fs).
Proof.
  intros HP Hop Hb. apply spec_steady_call.
  - apply steady_and; [exact (stable_steady d env P Hd HP)|exact steadyF].
  - intros k fs [Hp Hf]. eapply HF; [by apply Hop|done].
  - intros k fs t [Hp Hf]. eapply HF; [by apply Hb|done].
  - by intros fs [].
Qed.

Section temporary.
Context (m : string) (tmp : Path) (Htmp : located tmp d m) (Hne : m ≠ n) (vs : list (option View)).

Lemma frame_open :
  spec env (λ fs, place d n vs fs ∧ F fs) (open_file temporary_options tmp)
    (λ fs r, F fs ∧ match r with Some (Ok f) => unlinked a (h_inode f) fs | _ => True end).
Proof.
  apply spec_steady_call; [|intros k fs [Hp Hf]|by intros ??? []|by intros ? []].
  { apply steady_and; [exact (stable_steady d env _ Hd (stable_place d n vs))|exact steadyF]. }
  unfold open_at. rewrite (resolve_located _ env fs tmp d m) by (try apply Hp; done).
  destruct (inode_at fs (d ++ [m])) as [[id i]|] eqn:E; [by split|]. cbn.
  destruct (rely_create d a Hapart fs k m private_mode env) as [Hr Hu]; [apply Hp|].
  split; [by eapply HF|exact Hu].
Qed.

Lemma frame_write f v s :
  v_kind v = RegularFile →
  spec env (λ fs, temporary d n m vs (h_inode f) v fs ∧ F fs ∧ unlinked a (h_inode f) fs) (write_all f s)
    (λ fs _, F fs ∧ unlinked a (h_inode f) fs).
Proof.
  intros Hk. assert (stable a (λ fs, F fs ∧ unlinked a (h_inode f) fs)) as Hst.
  { intros fs fs' Hr [H1 H2]. split; [by eapply HF|by eapply stable_unlinked]. }
  assert (∀ k fs s, temporary d n m vs (h_inode f) v fs → unlinked a (h_inode f) fs →
    rely a fs (write_inode k env s fs (h_inode f))) as Hw.
  { intros k fs s' Ht Hu. destruct (temporary_inode d n m vs _ _ _ Ht) as (i & Hi & _).
    unfold write_inode. rewrite Hi. eapply rely_set_inode; [done|by left]. }
  apply spec_steady_call.
  - apply steady_and; [eapply stable_steady; [exact Hd|apply stable_temporary]|exact (stable_steady a env _ Ha Hst)].
  - intros k fs (Ht & Hf & Hu). eapply Hst; [|by split]. by apply Hw.
  - intros k fs t (Ht & Hf & Hu). eapply Hst; [|by split]. by apply Hw.
  - intros fs (_ & Hf). exact Hf.
Qed.

Lemma frame_sync f s :
  spec env (λ fs, temporary d n m vs (h_inode f) (filled env s false) fs ∧ F fs ∧ unlinked a (h_inode f) fs)
    (sync_all f) (λ fs _, F fs ∧ unlinked a (h_inode f) fs).
Proof.
  assert (stable a (λ fs, F fs ∧ unlinked a (h_inode f) fs)) as Hst.
  { intros fs fs' Hr [H1 H2]. split; [by eapply HF|by eapply stable_unlinked]. }
  apply spec_steady_call.
  - apply steady_and; [eapply stable_steady; [exact Hd|apply stable_temporary]|exact (stable_steady a env _ Ha Hst)].
  - intros k fs (Ht & Hf & Hu). destruct (temporary_inode d n m vs _ _ _ Ht) as (i & Hi & Hv).
    rewrite Hi. unfold view_of, filled in Hv. injection Hv as Hk _ _ _. rewrite Hk. cbn.
    unfold sync_inode. rewrite Hi. eapply Hst; [|by split]. eapply rely_set_inode; [done|by left].
  - by intros k fs t [_ Hf].
  - by intros fs [_ Hf].
Qed.

Lemma frame_rename v :
  v_kind v = RegularFile →
  spec env (λ fs, (∃ id, temporary d n m vs id v fs) ∧ F fs) (rename tmp path) (λ fs _, F fs).
Proof.
  intros Hreg. apply frame_call.
  - intros fs fs' Hr (id & Ht). exists id. by eapply stable_temporary.
  - intros k fs (id & Ht) Hf. unfold rename_at. pose proof (tmp_place _ _ _ _ _ _ _ Ht) as Hpl.
    rewrite (resolve_located _ env fs tmp d m), (resolve_located _ env fs path d n) by (try apply Hpl; done).
    destruct (temporary_inode d n m vs _ _ _ Ht) as (i & Hi & Hv).
    rewrite (proj2 (inode_at_latest fs (d ++ [m]) id i)) by (split; [apply Ht|done]).
    assert (i_kind i ≠ Directory) as Hid by (rewrite <- Hv in Hreg; cbn in Hreg; congruence).
    rewrite decide_False by done.
    assert (rely a fs (set_entry (set_entry fs (d ++ [n]) (Some id)) (d ++ [m]) None)) as Hr.
    { eapply rely_trans; [|by apply (rely_set_entry d a Hapart)].
      apply (rely_set_entry d a Hapart). intros ? [= <-]. eauto. }
    destruct (inode_at fs (d ++ [n])) as [[old j]|] eqn:Ej.
    + case_decide; [apply boot_rely_refl|]. case_decide; [apply boot_rely_refl|]. cbn.
      eapply rely_trans; [exact Hr|]. eapply rely_trans; [apply rely_unlink|apply rely_touch].
    + cbn. eapply rely_trans; [exact Hr|apply rely_touch].
  - intros. apply boot_rely_refl.
Qed.

Lemma frame_remove ws :
  spec env (λ fs, place d n ws fs ∧ F fs) (remove_file tmp) (λ fs _, F fs).
Proof.
  apply frame_call; [apply stable_place| |intros; apply boot_rely_refl].
  intros k fs Hpl Hf. unfold remove_at. rewrite (resolve_located _ env fs tmp d m) by (try apply Hpl; done).
  destruct (inode_at fs (d ++ [m])) as [[id i]|] eqn:E; [|apply boot_rely_refl]. case_decide; [apply boot_rely_refl|]. cbn.
  eapply rely_trans; [|apply rely_unlink]. by apply (rely_set_entry d a Hapart).
Qed.
End temporary.

Lemma spec_sys_bind {E A B} `{ControlErrors E} (m0 : IO IoError A) (f : A → IO E B) P (good : A → FS → Prop)
    (bad : FS → Prop) Q :
  spec env P m0 (λ fs x, match x with Some (Ok a) => good a fs | _ => bad fs end) →
  (∀ a, spec env (good a) (f a) Q) →
  (∀ fs e, bad fs → Q fs (Some (Err e))) → (∀ fs, bad fs → Q fs None) → spec env P (sys m0 ≫= f) Q.
Proof.
  intros Hm Hf He Hk.
  eapply spec_bind with (R := λ fs x, match x with Some (Ok a) => good a fs | _ => bad fs end); [|exact Hf|auto..].
  apply spec_map_err. eapply spec_weaken; [exact Hm|done|]. by intros fs [[|]|].
Qed.

(** The place before or after a write. *)
Definition beside (vs : list (option View)) (fs : FS) : Prop := place d n vs fs ∧ F fs.
Definition either (vs : list (option View)) (s : string) (fs : FS) : Prop :=
  beside vs fs ∨ beside (Some (written_view env s) :: vs) fs.

Lemma steady_beside vs : steady env (beside vs).
Proof. apply steady_and; [exact (stable_steady d env _ Hd (stable_place d n vs))|exact steadyF]. Qed.
Lemma steady_either vs s : steady env (either vs s).
Proof. intros k fs [Hp|Hp]; [left|right]; by apply steady_beside. Qed.

Lemma write_temporary_beside vs m tmp s :
  located tmp d m → m ≠ n →
  spec env (beside vs) (write_temporary (E := DurableBootstrapError) tmp path s)
    (λ fs r, match r with
             | Some (Ok _) => beside (Some (written_view env s) :: vs) fs
             | _ => beside vs fs
             end).
Proof.
  intros Htmp Hne. unfold write_temporary.
  pose (state v f fs := temporary d n m vs (h_inode f) v fs ∧ F fs ∧ unlinked a (h_inode f) fs).
  assert (∀ v f fs, state v f fs → beside vs fs) as Hstate by (intros v f fs (Ht & Hf & _); split; [apply Ht|done]).
  eapply (spec_sys_bind _ _ _ (λ f, state (empty_view env) f) (beside vs)); [| |by intros|by intros].
  { eapply spec_weaken; [apply spec_beside; [by apply (spec_open_temporary d env Hd n m vs Hne tmp)|by apply (frame_open m tmp)]
      |done|]. intros fs [[f|e]|] [H1 [H2 H3]]; by split. }
  intros f. eapply (spec_sys_bind _ _ _ (λ _, state (filled env s false) f) (beside vs)); [| |by intros|by intros].
  { eapply spec_weaken; [apply spec_beside; [by apply (spec_write_temporary d env Hd n m vs f s (empty_view env))
      |by apply (frame_write m vs f (empty_view env))]|done|]. intros fs [[[]|e]|] [H1 [H2 H3]]; by split. }
  intros []. eapply (spec_sys_bind _ _ _ (λ _, state (filled env s true) f) (beside vs)); [| |by intros|by intros].
  { eapply spec_weaken; [apply spec_beside; [apply (spec_sync_temporary d env Hd n m vs f s)
      |apply (frame_sync m vs f s)]|done|]. intros fs [[[]|e]|] [H1 [H2 H3]]; by split. }
  intros []. apply spec_map_err.
  eapply spec_weaken with (P' := λ fs, (∃ id, temporary d n m vs id (written_view env s) fs) ∧ F fs).
  - apply spec_beside; [by apply (spec_rename_temporary d env Hd n m vs Hne tmp path)
      |by apply (frame_rename m tmp Htmp vs)].
  - intros fs (Ht & Hf & _). split; [by exists (h_inode f)|done].
  - intros fs [[[]|e]|] [H1 H2]; by split.
Qed.

Lemma sync_dir_beside q v vs :
  components q = "/" :: d → Forall plain_name d →
  spec env (beside (v :: vs)) (sync_dir q)
    (λ fs r, match r with Some (Ok _) => beside [v] fs | _ => beside (v :: vs) fs end).
Proof.
  intros Hq Hn. eapply spec_weaken;
    [apply spec_beside with (Q2 := λ fs _, F fs); [by apply (spec_sync_dir d env Hd n vs q)|]|done|].
  2: { intros fs [[[]|e]|] [H1 H2]; (split; [exact H1|exact H2]). }
  unfold sync_dir. pose (opened f fs := beside (v :: vs) fs ∧ h_key f = d ∧ e_latest (entry_at fs d) = Some (h_inode f)).
  eapply spec_bind with (R := λ fs r, match r with Some (Ok f) => opened f fs | _ => F fs end); [| |done..].
  - apply spec_steady_call; [apply steady_beside|intros k fs [Hp Hf]|by intros ??? []|by intros ? []].
    unfold open_at. rewrite (resolve_dir _ env fs q d) by (try apply Hp; done).
    destruct (settled_dir_inode fs d) as (id & i & Hi & Hk); [by apply Hp|]. rewrite Hi, Hk. cbn.
    apply inode_at_latest in Hi as [Hl _]. by split.
  - intros f. apply spec_steady_call; [|intros k fs (Hp & Hk & Hl)|by intros ??? ([] & _)|by intros ? ([] & _)].
    + intros k fs (Hp & Hk & Hl). split_and!; [by apply steady_beside|done|].
      by rewrite (rely_entry d _ _ (Hd k fs)).
    + destruct Hp as [[Hb _] Hf]. destruct (proj2 Hb d) as (id & i & He & Hi & Hkind & Hs); [done|].
      rewrite He in Hl. cbn in Hl. injection Hl as ->. rewrite Hi, Hkind, Hk. cbn.
      rewrite (sync_synced fs _ i) by done. eapply HF; [by apply rely_settle|done].
Qed.

Lemma write_beside `{Crypto} `{Host} vs s :
  spec env (beside vs) (bootstrap_write path s)
    (λ fs r, match r with
             | Some (Ok _) => beside [Some (written_view env s)] fs
             | _ => either vs s fs
             end).
Proof.
  pose proof (located_file_name _ _ _ Hpath) as Hfn. destruct (file_name_parent _ _ Hfn) as [q Hq].
  pose proof (located_parent _ _ _ _ Hpath Hq) as Hcq.
  assert (Forall plain_name d) as Hnames by (destruct Hpath as [_ [? _]%Forall_app]; done).
  assert (∀ fs, beside vs fs → either vs s fs) as Hl by (by left).
  unfold bootstrap_write. destruct (reject_if _ _) as [[]|e]; [apply spec_ok_bind|by apply spec_err_bind].
  rewrite Hq. cbn [ok_or]. apply spec_ok_bind.
  apply spec_keep_bind; [|intros []|by auto|by auto].
  { apply spec_keep_map_err, (create_present d); [done|done|apply steady_beside|]. intros fs Hp. apply Hp. }
  apply spec_keep_bind; [apply observing_parent, steady_beside|intros []|by auto|by auto].
  apply spec_time_bind. intros t.
  destruct (since_epoch t) as [since|e]; [apply spec_ok_bind|by apply spec_err_bind].
  unfold utf8_file_name. rewrite Hfn.
  destruct (utf8_valid n); [apply spec_ok_bind|by apply spec_err_bind]. apply spec_env_bind.
  destruct (temporary_name_ok n (process_id env) (as_nanos since)) as (Hm1 & Hm2 & Hm3);
    [by apply (file_name_free path)|].
  set (m := temporary_name n (process_id env) (as_nanos since)) in *.
  assert (located (join q m) d m) as Htmp by (by eapply located_join).
  eapply spec_attempt_bind with (R := λ fs r, match r with
    | Ok _ => beside (Some (written_view env s) :: vs) fs | Err _ => beside vs fs end).
  { eapply spec_weaken; [by apply (write_temporary_beside vs m)|done|]. intros fs [[|]|]; auto. }
  assert (∀ fs, beside (Some (written_view env s) :: vs) fs → either vs s fs) as Hr by (by right).
  intros [u|e].
  - unfold settle_rename.
    apply spec_keep_bind; [apply observing_parent, steady_beside|intros []|by auto|by auto].
    apply spec_keep_bind; [by apply spec_keep_map_err, observing_stat, steady_beside|intros committed|by auto|by auto].
    apply spec_keep_bind; [apply observing_metadata, steady_beside|intros []|by auto|by auto].
    apply spec_map_err. eapply spec_weaken; [by apply sync_dir_beside|done|]. intros fs [[|]|]; cbn; auto.
  - eapply spec_attempt_bind with (R := λ fs _, beside vs fs); [|intros r; by apply spec_lift].
    eapply spec_weaken; [apply spec_beside; [by apply (spec_remove_other d env Hd n m Hm3 _ vs)
      |by apply (frame_remove m (join q m) Htmp)]|done|].
    intros fs [r|] [H1 H2]; [by split|left; by split].
Qed.

(** Reading. *)
Definition holding (v : option View) (vs : list (option View)) (f : File) (fs : FS) : Prop :=
  opened_place d n v vs f fs ∧ F fs.

Lemma steady_holding v vs f : steady env (holding v vs f).
Proof. apply steady_and; [eapply stable_steady; [exact Hd|apply stable_opened]|exact steadyF]. Qed.
Lemma holding_beside v vs f fs : holding v vs f fs → beside (v :: vs) fs.
Proof. intros [[Hp _] Hf]. by split. Qed.

Lemma open_beside v vs :
  regular v →
  spec env (beside (v :: vs)) (open_file (read_only true) path)
    (λ fs r, match r with Some (Ok f) => holding v vs f fs | _ => beside (v :: vs) fs end).
Proof.
  intros Hv. eapply spec_weaken;
    [apply spec_beside with (Q2 := λ fs _, beside (v :: vs) fs);
      [by apply (spec_open_place d env Hd n path Hpath v vs true)|apply observing_open, steady_beside]|done|].
  intros fs [[f|e]|] [H1 H2]; [|exact H2..]. split; [exact H1|apply H2].
Qed.

Lemma read_holding v vs f :
  spec env (holding v vs f) (read_to_end f)
    (λ fs r, holding v vs f fs ∧ match r with Some (Ok s) => v_data <$> v = Some s | _ => True end).
Proof.
  intros w Hw. split.
  - by apply (observing_call env (λ _ _ fs, (fs, _)) (λ _ _, eq_refl) _ (steady_holding v vs f)).
  - pose proof (spec_read_opened d env Hd n v vs f w (proj1 Hw)) as [_ Hr]. exact Hr.
Qed.
End writing.

(** ** The two files *)

(** Where the anchor is: the host does not change its mind. *)
Definition anchor_path_of `{Crypto} `{Host} (store : BootstrapStateStore) : result DurableBootstrapError Path :=
  uid ← parse_effective_uid proc_self_status;
  if (uid =? 0)%Z then
    Ok (join (join ROOT_ANCHOR_DIRECTORY
      (sha256_hex (str_trim etc_machine_id +:+ String "000"%char "" +:+ str_trim dmi_product_uuid)))
      (sha256_hex (to_string_lossy store) +:+ ".generation"))
  else bootstrap_sidecar store "generation".

Lemma read_host_Ok contents env w w' s : read_host contents env w = (w', Some (Ok s)) → s = contents.
Proof.
  unfold read_host. intros E. io_inv. unfold sys in *.
  repeat match goal with E : io_map_err _ _ _ _ = _ |- _ => apply io_map_err_Ok in E end.
  match goal with E : call _ _ ?w = (_, Some (Ok s)) |- _ => revert E; unfold call, call_with end.
  destruct (killed _ _); [done|]. destruct (fault _ _); [done|]. destruct (utf8_valid contents); [|done].
  by intros [= _ <-].
Qed.

Lemma uid_Ok `{Crypto} `{Host} env w w' uid :
  current_effective_uid env w = (w', Some (Ok uid)) → parse_effective_uid proc_self_status = Ok uid.
Proof. unfold current_effective_uid. intros E. io_inv. by match goal with E : read_host _ _ _ = _ |- _ => apply read_host_Ok in E as -> end. Qed.

Lemma generation_anchor_path_Ok `{Crypto} `{Host} store env w w' p :
  generation_anchor_path store env w = (w', Some (Ok p)) → anchor_path_of store = Ok p.
Proof.
  unfold generation_anchor_path, machine_anchor_scope, anchor_path_of. intros E.
  apply io_bind_Ok in E as (w1 & uid & Hu & E). pose proof (uid_Ok _ _ _ _ Hu) as Hu1. rewrite Hu1. cbn.
  destruct (Z.eqb_spec uid 0) as [->|Hne]; [|by apply io_lift_Ok in E as [_ E]].
  apply io_bind_Ok in E as (w2 & scope & Hs & E). injection E as _ <-.
  apply io_bind_Ok in Hs as (w3 & uid2 & Hu2%uid_Ok & Hs). rewrite Hu1 in Hu2. injection Hu2 as <-. cbn in Hs.
  apply io_bind_Ok in Hs as (w4 & machine & ->%read_host_Ok & Hs).
  apply io_bind_Ok in Hs as (w5 & hardware & ->%read_host_Ok & Hs).
  apply io_bind_Ok in Hs as (w6 & [] & _ & Hs). by injection Hs as _ <-.
Qed.

Section disk.
Context `{CryptoLaws} `{Host} (d a : Key) (n m : string) (store anchor : Path).
Context (Hstore : located store d n) (Hanchor : located anchor a m).
Context (Hda : ¬ d `prefix_of` a) (Had : ¬ a `prefix_of` d).
Context (env : FsEnv) (Hd : quiet d env) (Ha : quiet a env).
Context (Hpath : anchor_path_of store = Ok anchor).

Definition ledgers : list (option DurableBootstrapState) → FS → Prop :=
  recorded serialize_state state_ok d n.
Definition anchors : list (option GenerationAnchor) → FS → Prop :=
  recorded serialize_generation_anchor anchor_ok a m.
Definition disk (ls : list (option DurableBootstrapState)) (aa : list (option GenerationAnchor)) (fs : FS) : Prop :=
  ledgers ls fs ∧ anchors aa fs.

Lemma steady_disk ls aa : steady env (disk ls aa).
Proof.
  apply steady_and; [exact (stable_steady d env _ Hd (stable_recorded _ _ d n ls))
    |exact (stable_steady a env _ Ha (stable_recorded _ _ a m aa))].
Qed.

Lemma observing_anchor_path : observing env (generation_anchor_path store).
Proof.
  unfold generation_anchor_path, machine_anchor_scope, read_host. observe.
Qed.

Lemma spec_path ls aa :
  spec env (disk ls aa) (generation_anchor_path store)
    (λ fs r, disk ls aa fs ∧ match r with Some (Ok p) => p = anchor | _ => True end).
Proof.
  intros w Hw. split; [exact (observing_anchor_path _ (steady_disk ls aa) w Hw)|].
  destruct (generation_anchor_path store env w) as [w' [[p|e]|]] eqn:E; try done.
  apply generation_anchor_path_Ok in E. cbn. congruence.
Qed.

(** Specs of one file beside the other. *)
Lemma spec_ledger {E A} (x : IO E A) ls aa Q :
  (∀ vs, Forall2 (keeps serialize_state state_ok) vs ls →
    spec env (beside d n (anchors aa) vs) x Q) → spec env (disk ls aa) x Q.
Proof. intros Hx w [(vs & Hp & Hv) Haa]. apply (Hx vs Hv). by split. Qed.
Lemma spec_anchor {E A} (x : IO E A) ls aa Q :
  (∀ vs, Forall2 (keeps serialize_generation_anchor anchor_ok) vs aa →
    spec env (beside a m (ledgers ls) vs) x Q) → spec env (disk ls aa) x Q.
Proof. intros Hx w [Hll (vs & Hp & Hv)]. apply (Hx vs Hv). by split. Qed.

Lemma beside_ledgers vs ls aa fs :
  Forall2 (keeps serialize_state state_ok) vs ls → beside d n (anchors aa) vs fs → disk ls aa fs.
Proof. intros Hv [Hp Haa]. split; [by exists vs|done]. Qed.
Lemma beside_anchors vs ls aa fs :
  Forall2 (keeps serialize_generation_anchor anchor_ok) vs aa → beside a m (ledgers ls) vs fs → disk ls aa fs.
Proof. intros Hv [Hp Hll]. split; [done|by exists vs]. Qed.

Lemma keeps_written {S} (text : S → string) (ok : S → Prop) s :
  ok s → keeps text ok (Some (written_view env (text s))) (Some s).
Proof. intros Hs. by split_and!. Qed.

Lemma spec_boot_persist s ls aa :
  state_ok s →
  spec env (disk ls aa) (BootstrapStateStore_persist store s)
    (λ fs r, match r with
             | Some (Ok _) => disk [Some s] aa fs
             | _ => disk ls aa fs ∨ disk (Some s :: ls) aa fs
             end).
Proof.
  intros Hs. apply spec_ledger. intros vs Hv.
  assert (∀ fs, either d env n (anchors aa) vs (serialize_state s) fs →
    disk ls aa fs ∨ disk (Some s :: ls) aa fs) as Hor.
  { intros fs [Hp|Hp]; [left|right]; (eapply beside_ledgers; [|exact Hp]); [done|].
    constructor; [by apply keeps_written|done]. }
  eapply spec_weaken; [apply (write_beside d a env Hd Ha Hda n store Hstore (anchors aa) (stable_recorded _ _ a m aa))
    |done|].
  intros fs [[[]|e]|] Hr; [|by apply Hor..]. eapply beside_ledgers; [|exact Hr].
  constructor; [by apply keeps_written|constructor].
Qed.

Lemma spec_persist_anchor x ls aa :
  anchor_ok x →
  spec env (disk ls aa) (persist_generation_anchor_record store x)
    (λ fs r, match r with
             | Some (Ok _) => disk ls [Some x] fs
             | _ => disk ls aa fs ∨ disk ls (Some x :: aa) fs
             end).
Proof.
  intros Hx. unfold persist_generation_anchor_record. rewrite (ao_valid x Hx). apply spec_ok_bind.
  eapply spec_bind; [apply spec_path| |by intros fs e []; left|by intros fs []; left].
  intros p. apply spec_pure. intros ->. apply spec_anchor. intros vs Hv.
  assert (∀ fs, either a env m (ledgers ls) vs (serialize_generation_anchor x) fs →
    disk ls aa fs ∨ disk ls (Some x :: aa) fs) as Hor.
  { intros fs [Hp|Hp]; [left|right]; (eapply beside_anchors; [|exact Hp]); [done|].
    constructor; [by apply keeps_written|done]. }
  eapply spec_weaken; [apply (write_beside a d env Ha Hd Had m anchor Hanchor (ledgers ls) (stable_recorded _ _ d n ls))
    |done|].
  intros fs [[[]|e]|] Hr; [|by apply Hor..]. eapply beside_anchors; [|exact Hr].
  constructor; [by apply keeps_written|constructor].
Qed.

(** A check before the rest of a computation. *)
Lemma spec_observe_bind {E A B} (x : IO E A) (f : A → IO E B) P Q :
  observing env x → steady env P → (∀ v, spec env P (f v) Q) →
  (∀ fs e, P fs → Q fs (Some (Err e))) → (∀ fs, P fs → Q fs None) → spec env P (x ≫= f) Q.
Proof. intros Hx HP Hf He Hk. apply spec_keep_bind; [by apply Hx|done..]. Qed.

(** What a reader of the ledger finds. *)
Definition finds {A} (o : option A) (P : FS → Prop) (fs : FS)
    (r : option (result DurableBootstrapError (option A))) : Prop :=
  P fs ∧ match r with Some (Ok x) => x = o | _ => True end.

Ltac looks := eapply spec_observe_bind; [observe|eassumption|intros ?|by intros; split|by intros; split].
Ltac looks_held := eapply spec_observe_bind; [observe|eassumption|intros ?|by intros; split; [eauto|]..].

Lemma spec_stat_ledger o ls aa :
  spec env (disk (o :: ls) aa) (symlink_metadata store)
    (λ fs r, disk (o :: ls) aa fs ∧
       match r with
       | Some (Ok _) => o ≠ None
       | Some (Err e) => io_kind e = NotFound → o = None
       | None => True
       end).
Proof.
  intros w Hw. split; [exact (observing_stat env false store _ (steady_disk (o :: ls) aa) w Hw)|].
  exact (proj2 (spec_stat_recorded _ _ d env Hd n store Hstore o ls w (proj1 Hw))).
Qed.

Lemma spec_boot_load o ls aa :
  spec env (disk (o :: ls) aa) (BootstrapStateStore_load store) (finds o (disk (o :: ls) aa)).
Proof.
  pose proof (steady_disk (o :: ls) aa) as HP. unfold BootstrapStateStore_load. looks.
  eapply spec_attempt_bind with (R := λ fs r, disk (o :: ls) aa fs ∧
    match r with Ok _ => o ≠ None | Err e => io_kind e = NotFound → o = None end).
  { eapply spec_weaken; [apply spec_stat_ledger|done|]. intros fs [[md|e]|] [Hp Hr]; by split. }
  intros [md|e].
  2: { apply spec_pure. intros He. destruct (io_kind e); [apply spec_ret|by apply spec_lift..].
    intros fs Hp. split; [done|]. by rewrite He. }
  apply spec_pure. intros Ho. destruct o as [s|]; [clear Ho|done]. looks. looks.
  apply spec_ledger. intros vs Hv. inversion Hv as [|vo ? vs' ? Hk Hvs]; subst. destruct vo as [vw|]; [|done].
  assert (∀ fs, beside d n (anchors aa) (Some vw :: vs') fs → disk (Some s :: ls) aa fs) as Hback
    by (intros fs; by apply beside_ledgers).
  destruct Hk as (Hkind & _ & Hdata & Hok).
  eapply (spec_sys_bind env _ _ _ (holding d n (anchors aa) (Some vw) vs') (beside d n (anchors aa) (Some vw :: vs')));
    [by apply (open_beside d a env Hd Ha n store Hstore _ (stable_recorded _ _ a m aa))| |by intros; split; [auto|]..].
  intros f. pose proof (steady_holding d a env Hd Ha n _ (stable_recorded serialize_generation_anchor anchor_ok a m aa) (Some vw) vs' f) as HH.
  assert (∀ fs, holding d n (anchors aa) (Some vw) vs' f fs → disk (Some s :: ls) aa fs) as Hheld
    by (intros fs Hh; by eapply Hback, holding_beside).
  looks_held. looks_held. looks_held.
  eapply (spec_sys_bind env _ _ _ (λ b fs, holding d n (anchors aa) (Some vw) vs' f fs ∧ b = serialize_state s)
    (holding d n (anchors aa) (Some vw) vs' f)); [| |by intros; split; [auto|]..].
  { eapply spec_weaken; [apply (read_holding d a env Hd Ha n (anchors aa)
      (stable_recorded _ _ a m aa) (Some vw) vs' f)|done|]. intros fs [[b|e]|] [Hp Hr]; try done.
    split; [done|]. cbn in Hr. congruence. }
  intros b. apply spec_pure. intros ->. looks_held. looks_held. looks_held. looks_held.
  rewrite parse_serialize_state by done. apply spec_ok_bind, spec_ret. intros fs Hh. split; [auto|done].
Qed.

Lemma spec_stat_anchor ls x aa :
  spec env (disk ls (x :: aa)) (symlink_metadata anchor)
    (λ fs r, disk ls (x :: aa) fs ∧
       match r with
       | Some (Ok _) => x ≠ None
       | Some (Err e) => io_kind e = NotFound → x = None
       | None => True
       end).
Proof.
  intros w Hw. split; [exact (observing_stat env false anchor _ (steady_disk ls (x :: aa)) w Hw)|].
  exact (proj2 (spec_stat_recorded _ _ a env Ha m anchor Hanchor x aa w (proj2 Hw))).
Qed.

Lemma spec_load_anchor ls x aa :
  spec env (disk ls (x :: aa)) (load_generation_anchor store) (finds x (disk ls (x :: aa))).
Proof.
  pose proof (steady_disk ls (x :: aa)) as HP. unfold load_generation_anchor.
  eapply spec_bind; [apply spec_path| |by intros fs e []|by intros fs []].
  intros p. apply spec_pure. intros ->.
  eapply spec_attempt_bind with (R := λ fs r, disk ls (x :: aa) fs ∧
    match r with Ok _ => x ≠ None | Err e => io_kind e = NotFound → x = None end).
  { eapply spec_weaken; [apply spec_stat_anchor|done|]. intros fs [[md|e]|] [Hp Hr]; by split. }
  intros [md|e].
  2: { apply spec_pure. intros He. destruct (io_kind e); [apply spec_ret|by apply spec_lift..].
    intros fs Hp. split; [done|]. by rewrite He. }
  apply spec_pure. intros Ho. destruct x as [b|]; [clear Ho|done]. looks. looks.
  apply spec_anchor. intros vs Hv. inversion Hv as [|vo ? vs' ? Hk Hvs]; subst. destruct vo as [vw|]; [|done].
  assert (∀ fs, beside a m (ledgers ls) (Some vw :: vs') fs → disk ls (Some b :: aa) fs) as Hback
    by (intros fs; by apply beside_anchors).
  destruct Hk as (Hkind & _ & Hdata & Hok).
  eapply (spec_sys_bind env _ _ _ (holding a m (ledgers ls) (Some vw) vs') (beside a m (ledgers ls) (Some vw :: vs')));
    [by apply (open_beside a d env Ha Hd m anchor Hanchor _ (stable_recorded _ _ d n ls))| |by intros; split; [auto|]..].
  intros f. pose proof (steady_holding a d env Ha Hd m _ (stable_recorded serialize_state state_ok d n ls) (Some vw) vs' f) as HH.
  assert (∀ fs, holding a m (ledgers ls) (Some vw) vs' f fs → disk ls (Some b :: aa) fs) as Hheld
    by (intros fs Hh; by eapply Hback, holding_beside).
  looks_held.
  eapply (spec_sys_bind env _ _ _ (λ t fs, holding a m (ledgers ls) (Some vw) vs' f fs ∧ t = serialize_generation_anchor b)
    (holding a m (ledgers ls) (Some vw) vs' f)); [| |by intros; split; [auto|]..].
  { eapply spec_weaken; [apply (read_holding a d env Ha Hd m (ledgers ls) (stable_recorded _ _ d n ls) (Some vw) vs' f)
      |done|]. intros fs [[t|e]|] [Hp Hr]; try done. split; [done|]. cbn in Hr. congruence. }
  intros t. apply spec_pure. intros ->. looks_held.
  rewrite parse_serialize_anchor by done. apply spec_ok_bind, spec_ret. intros fs Hh. split; [auto|done].
Qed.

(** The lock is another name of the ledger's directory. *)
Lemma spec_boot_acquire ls aa :
  spec env (disk ls aa) (BootstrapStateStore_acquire_exclusive store) (λ fs _, disk ls aa fs).
Proof.
  pose proof (steady_disk ls aa) as HP. unfold BootstrapStateStore_acquire_exclusive, bootstrap_sidecar.
  destruct (sidecar_path bootstrap_texts store "lock") as [p|e] eqn:Hs; [|by apply spec_err_bind].
  apply spec_ok_bind. apply (sidecar_located d n) in Hs as [Hl Hne]; [|done|done|cbn; lia].
  pose proof (located_file_name _ _ _ Hl) as Hfn.
  destruct (file_name_parent _ _ Hfn) as [q Hq]. rewrite Hq. cbn [ok_or]. apply spec_ok_bind.
  pose proof (located_parent _ _ _ _ Hl Hq) as Hcq.
  assert (Forall plain_name d) as Hnames by (destruct Hstore as [_ [? _]%Forall_app]; done).
  apply spec_keep_bind; [|intros []|done..].
  { apply spec_keep_map_err, (create_present d); [done..|]. intros fs [(vs & Hp & _) _]. apply Hp. }
  eapply spec_observe_bind; [observe|done|intros []|done..].
  eapply spec_observe_bind; [observe|done|intros []|done..].
  apply spec_keep_bind; [|intros f|done..].
  { apply spec_keep_map_err, spec_ledger. intros vs Hv.
    eapply spec_weaken; [apply spec_beside with (Q2 := λ fs _, anchors aa fs);
      [by apply (spec_open_lock d env Hd n vs p _ Hl Hne)|]|done
      |intros fs r [H2 H3]; eapply beside_ledgers; [exact Hv|by split]].
    apply (frame_call d a env Hd Ha (anchors aa) (stable_recorded _ _ a m aa)); [apply stable_place| |by intros; apply boot_rely_refl].
    intros k fs Hpl _. unfold open_at. rewrite (resolve_located _ env fs p d _) by (try apply Hpl; done).
    destruct (inode_at fs _) as [[id i]|]; [by destruct (i_kind i); apply boot_rely_refl|]. cbn.
    apply (rely_create d a Hda). apply Hpl. }
  eapply spec_observe_bind; [observe|done|intros []|done..].
  eapply spec_observe_bind; [observe|done|intros []|done..].
  eapply spec_observe_bind; [observe|done|intros []|done..].
  by apply spec_ret.
Qed.

(** ** Anchors of a state *)
Lemma committed_ok s : state_ok s → anchor_ok (anchor_committed s).
Proof.
  intros [Hs _]. split; [|apply Hs|done]. unfold GenerationAnchor_validate, validate_anchor_sha256. cbn.
  unfold bootstrap_state_digest. by rewrite sha256_hex_text.
Qed.

Lemma pending_ok s c :
  state_ok s → state_ok c → bs_generation c = (bs_generation s + 1)%Z →
  ∃ x, anchor_with_pending s c = Ok x ∧ anchor_ok x ∧ vouches (Some x) s ∧ vouches (Some x) c.
Proof.
  intros [Hs _] [Hc _] Hg. pose proof (ss_generation s Hs) as Gs. pose proof (ss_generation c Hc) as Gc.
  assert (u64_saturating_add (bs_generation s) 1 = bs_generation c) as Hsat
    by (unfold u64_saturating_add, is_u64 in *; lia).
  unfold anchor_with_pending. rewrite Hsat, Z.eqb_refl. cbn. eexists. split; [done|]. split_and!.
  - split; [|done|by intros g [= <-]]. unfold GenerationAnchor_validate, validate_anchor_sha256. cbn.
    rewrite Hsat, Z.eqb_refl. unfold bootstrap_state_digest. by rewrite !sha256_hex_text.
  - by left.
  - right. cbn. by rewrite Hsat.
Qed.

Lemma anchor_committed_exact x s :
  anchor_ok x → ga_committed_generation x = bs_generation s →
  ga_committed_state_sha256 x = bootstrap_state_digest s → ga_pending_generation x = None →
  x = anchor_committed s.
Proof.
  intros [Hv _ _] Hg Hd' Hp. unfold GenerationAnchor_validate in Hv.
  apply bind_Ok in Hv as (? & _ & Hv). rewrite Hp in Hv. destruct x. cbn in *.
  destruct (ga_pending_state_sha256); [done|]. unfold anchor_committed. congruence.
Qed.

Lemma disk_anchor_ok ls aa fs x : disk ls aa fs → Some x ∈ aa → anchor_ok x.
Proof. intros [_ Haa] Hx. by eapply recorded_ok. Qed.
Lemma disk_state_ok ls aa fs s : disk ls aa fs → Some s ∈ ls → state_ok s.
Proof. intros [Hll _] Hx. by eapply recorded_ok. Qed.

(** The ledger holds [s], and every anchor that may be found vouches for it. *)
Definition fine (s : DurableBootstrapState) (fs : FS) : Prop :=
  ∃ aa, disk [Some s] aa fs ∧ Forall (λ x, vouches x s) aa.

(** Reconciliation of a ledger that the anchor vouches for. *)
Lemma spec_reconcile s x :
  vouches x s →
  spec env (disk [Some s] [x]) (reconcile_generation_anchor store s)
    (λ fs r, match r with
             | Some (Ok _) => disk [Some s] [Some (anchor_committed s)] fs
             | _ => fine s fs
             end).
Proof.
  intros Hx. assert (∀ fs, disk [Some s] [x] fs → fine s fs) as Hfine by (intros fs; exists [x]; split; [done|by apply Forall_singleton]).
  unfold reconcile_generation_anchor.
  eapply spec_bind; [apply spec_load_anchor| |by intros fs e [Hp _]; auto|by intros fs [Hp _]; auto].
  intros read. apply spec_pure. intros ->.
  destruct (proj2 (reconcile_vouches _ _) Hx) as [wr Hw]. rewrite Hw. apply spec_ok_bind.
  pose proof (reconcile_writes _ _ _ Hw) as Hwr. destruct wr as [y|].
  - subst y. intros w Hdisk.
    assert (anchor_ok (anchor_committed s)) as Hok by (apply committed_ok; eapply disk_state_ok; [exact Hdisk|left]).
    pose proof (spec_persist_anchor (anchor_committed s) [Some s] [x] Hok w Hdisk) as Hpost.
    destruct (snd (persist_generation_anchor_record _ _ _ _)) as [[[]|e]|]; [done|..];
      (destruct Hpost as [Hpost|Hpost]; [by auto|]); eexists; 
      (split; [exact Hpost|]); (apply Forall_cons; split; [by left|by apply Forall_singleton]).
  - apply spec_ret. intros fs Hdisk. destruct Hwr as (y & -> & H1' & H2' & H3').
    rewrite <- (anchor_committed_exact y s); [done| |done..]. eapply disk_anchor_ok; [exact Hdisk|left].
Qed.

(** The ledger holds [s] or [c], and every anchor that may be found vouches for
    every ledger that may be found. *)
Definition sound (s c : DurableBootstrapState) (fs : FS) : Prop :=
  ∃ ls aa, disk (Some <$> ls) aa fs ∧ Forall (λ t, (t = s ∨ t = c) ∧ Forall (λ x, vouches x t) aa) ls.

Lemma fine_sound s c fs : fine s fs → sound s c fs.
Proof.
  intros (aa & Hdisk & Hv). exists [s], aa. split; [done|]. apply Forall_singleton. split; [by left|done].
Qed.
Lemma fine_sound_next s c fs : fine c fs → sound s c fs.
Proof.
  intros (aa & Hdisk & Hv). exists [c], aa. split; [done|]. apply Forall_singleton. split; [by right|done].
Qed.

Lemma spec_stage s c x y :
  vouches x s → anchor_with_pending s c = Ok y → anchor_ok y → vouches (Some y) s →
  spec env (disk [Some s] [x]) (stage_generation_anchor store s c)
    (λ fs r, match r with Some (Ok _) => disk [Some s] [Some y] fs | _ => fine s fs end).
Proof.
  intros Hx Hy Hok Hv. unfold stage_generation_anchor.
  eapply spec_bind; [by apply spec_reconcile| |done|done]. intros []. rewrite Hy. apply spec_ok_bind.
  eapply spec_weaken; [by apply spec_persist_anchor|done|].
  assert (vouches (Some (anchor_committed s)) s) as Hc by (by left).
  intros fs [[[]|e]|] Hr; [done|..]; (destruct Hr as [Hr|Hr]; eexists; (split; [exact Hr|]));
    rewrite ?Forall_cons, ?Forall_nil; naive_solver.
Qed.

Lemma spec_finalize s c y :
  anchor_with_pending s c = Ok y → vouches (Some y) c →
  spec env (disk [Some c] [Some y]) (finalize_generation_anchor store c)
    (λ fs r, match r with Some (Ok _) => disk [Some c] [Some (anchor_committed c)] fs | _ => fine c fs end).
Proof.
  intros Hy Hv. assert (∀ fs, disk [Some c] [Some y] fs → fine c fs) as Hfine
    by (intros fs; exists [Some y]; split; [done|by apply Forall_singleton]).
  unfold finalize_generation_anchor.
  eapply spec_bind; [apply spec_load_anchor| |by intros fs e [Hp _]; auto|by intros fs [Hp _]; auto].
  intros read. apply spec_pure. intros ->. apply with_pending_Ok in Hy as ->.
  unfold finalize_decision. cbn. rewrite bool_decide_eq_true_2, digest_eq_refl by done. cbn. apply spec_ok_bind.
  intros w Hdisk.
  assert (anchor_ok (anchor_committed c)) as Hok by (apply committed_ok; eapply disk_state_ok; [exact Hdisk|left]).
  pose proof (spec_persist_anchor (anchor_committed c) [Some c] _ Hok w Hdisk) as Hpost.
  destruct (snd (persist_generation_anchor_record _ _ _ _)) as [[[]|e]|]; [done|..];
    (destruct Hpost as [Hpost|Hpost]; [by auto|]); eexists; (split; [exact Hpost|]);
    (apply Forall_cons; split; [by left|by apply Forall_singleton]).
Qed.

Lemma observing_generation s : observing env (BootstrapStateStore_generation store s).
Proof. unfold BootstrapStateStore_generation. observe. Qed.

(** ** Actions *)
Definition aspec {A} (c : DurableBootstrapCoordinator) (P : FS → Prop) (x : Action A)
    (Q : FS → option (DurableBootstrapCoordinator * result DurableBootstrapError A) → Prop) : Prop :=
  ∀ w, P (w_fs w) → Q (w_fs (x c env w).1) (x c env w).2.

Lemma aspec_io {A B} c P (x : IO DurableBootstrapError A) (f : A → Action B) R Q :
  spec env P x R → (∀ v, aspec c (λ fs, R fs (Some (Ok v))) (f v) Q) →
  (∀ fs e, R fs (Some (Err e)) → Q fs (Some (c, Err e))) → (∀ fs, R fs None → Q fs None) →
  aspec c P (act x ≫= f) Q.
Proof.
  intros Hx Hf He Hk w Hw. specialize (Hx w Hw). cbv [mbind action_bind act].
  destruct (x env w) as [w' [[v|e]|]]; cbn in *; [by apply (Hf v w')|by apply He|by apply Hk].
Qed.

Lemma aspec_result {A B} c P (x : IO DurableBootstrapError A) (f : _ → Action B) R Q :
  spec env P x R → (∀ v, aspec c (λ fs, R fs (Some v)) (f v) Q) → (∀ fs, R fs None → Q fs None) →
  aspec c P (act_result x ≫= f) Q.
Proof.
  intros Hx Hf Hk w Hw. specialize (Hx w Hw). cbv [mbind action_bind act_result].
  destruct (x env w) as [w' [v|]]; cbn in *; [by apply (Hf v w')|by apply Hk].
Qed.

Lemma aspec_self {B} c P (f : _ → Action B) Q : aspec c P (f c) Q → aspec c P (coordinator ≫= f) Q.
Proof. intros Hf w Hw. by apply Hf. Qed.

(** An action that ends here. *)
Lemma aspec_throw {A} c P e (Q : _ → option (_ * result DurableBootstrapError A) → Prop) :
  (∀ fs, P fs → Q fs (Some (c, Err e))) → aspec c P (act_throw e) Q.
Proof. intros HQ w Hw. by apply HQ. Qed.

Lemma aspec_give_in {A} c P reason (Q : _ → option (_ * result DurableBootstrapError A) → Prop) :
  (∀ fs c' e, P fs → Q fs (Some (c', Err e))) → aspec c P (give_in reason) Q.
Proof. intros HQ w Hw. by apply HQ. Qed.

Lemma aspec_or_give_in {A B} c P (x : IO DurableBootstrapError A) reason (f : A → Action B) R Q :
  spec env P x R → (∀ v, aspec c (λ fs, R fs (Some (Ok v))) (f v) Q) →
  (∀ fs c' e e', R fs (Some (Err e)) → Q fs (Some (c', Err e'))) → (∀ fs, R fs None → Q fs None) →
  aspec c P (or_give_in reason x ≫= f) Q.
Proof.
  intros Hx Hf He Hk w Hw. specialize (Hx w Hw). cbv [mbind action_bind or_give_in act_result].
  destruct (x env w) as [w' [[v|e]|]]; cbn in *; [by apply (Hf v w')|by eapply He|by apply Hk].
Qed.

Lemma aspec_usable {B} c P (f : unit → Action B) Q :
  aspec c P (f tt) Q → (∀ fs e, P fs → Q fs (Some (c, Err e))) → aspec c P (bootstrap_ensure_usable ≫= f) Q.
Proof.
  intros Hf He w Hw. cbv [mbind action_bind bootstrap_ensure_usable coordinator].
  destruct (bc_durability_uncertain c); [by apply He|by apply Hf].
Qed.

Lemma aspec_check {A B} c P (r : result DurableBootstrapError A) (f : A → Action B) Q :
  (∀ v, r = Ok v → aspec c P (f v) Q) → (∀ fs e, P fs → Q fs (Some (c, Err e))) →
  aspec c P (act_check r ≫= f) Q.
Proof. intros Hf He w Hw. destruct r as [v|e]; [by apply (Hf v)|by apply He]. Qed.

Lemma aspec_observe {A B} c P (x : IO DurableBootstrapError A) (f : A → Action B) Q :
  observing env x → steady env P → (∀ v, aspec c P (f v) Q) →
  (∀ fs e, P fs → Q fs (Some (c, Err e))) → (∀ fs, P fs → Q fs None) → aspec c P (act x ≫= f) Q.
Proof. intros Hx HP Hf He Hk. eapply aspec_io; [by apply Hx|done..]. Qed.

(** What a commit of [c] leaves of the ledger [s]. *)
Definition committing (s c : DurableBootstrapState) (fs : FS)
    (r : option (DurableBootstrapCoordinator * result DurableBootstrapError unit)) : Prop :=
  match r with
  | Some (_, Ok _) => disk [Some c] [Some (anchor_committed c)] fs
  | _ => sound s c fs
  end.

Lemma aspec_finish co s c y :
  anchor_with_pending s c = Ok y → vouches (Some y) c →
  aspec co (disk [Some c] [Some y]) (finish_commit store c) (committing s c).
Proof.
  intros Hy Hv. assert (vouches (Some (anchor_committed c)) c) as Hc by (by left). unfold finish_commit.
  eapply aspec_or_give_in; [by apply (spec_finalize s)| |intros; by apply fine_sound_next|intros; by apply fine_sound_next].
  intros []. eapply aspec_or_give_in; [by apply spec_reconcile| |intros; by apply fine_sound_next
    |intros; by apply fine_sound_next].
  intros []. eapply aspec_or_give_in; [apply observing_generation, steady_disk| | |].
  - intros g. apply aspec_self. intros w Hw. exact Hw.
  - intros fs c' e e' Hw. apply fine_sound_next. eexists. split; [exact Hw|by apply Forall_singleton].
  - intros fs Hw. apply fine_sound_next. eexists. split; [exact Hw|by apply Forall_singleton].
Qed.

Lemma aspec_commit co s x candidate :
  bc_store co = store → vouches x s →
  (bc_state co = s → state_ok (with_generation (bs_generation s + 1) candidate)) →
  aspec co (disk [Some s] [x]) (bootstrap_commit candidate)
    (committing s (with_generation (bs_generation s + 1) candidate)).
Proof.
  intros Hst Hx Hok. set (c := with_generation (bs_generation s + 1) candidate).
  assert (∀ fs, disk [Some s] [x] fs → sound s c fs) as Hs1.
  { intros fs Hdisk. apply fine_sound. exists [x]. split; [done|by apply Forall_singleton]. }
  assert (∀ fs, disk [Some s] [Some (anchor_committed s)] fs → sound s c fs) as Hs2.
  { intros fs Hdisk. apply fine_sound. eexists. split; [exact Hdisk|]. apply Forall_singleton. by left. }
  unfold bootstrap_commit. apply aspec_usable; [|by intros; apply Hs1].
  apply aspec_check; [intros [] _|by intros; apply Hs1]. apply aspec_self. rewrite Hst.
  eapply aspec_io; [apply spec_boot_acquire|intros lock|by intros; apply Hs1|by intros; apply Hs1].
  eapply aspec_io; [apply spec_boot_load|intros loaded|by intros fs e []; apply Hs1|by intros fs []; apply Hs1].
  intros w [Hw ->]. revert w Hw. cbn [ok_or]. apply aspec_check; [intros durable [= <-]|by intros; apply Hs1].
  eapply aspec_io; [by apply spec_reconcile|intros []|by intros; apply fine_sound|by intros; apply fine_sound].
  eapply aspec_observe; [apply observing_generation|apply steady_disk|intros g|by intros; apply Hs2|by intros; apply Hs2].
  destruct (_ || _) eqn:Estale.
  { intros w Hw. by apply Hs2. }
  apply orb_false_iff in Estale as [Es%negb_false_iff%bool_decide_eq_true _]. specialize (Hok (eq_sym Es)).
  apply aspec_check; [intros generation Eg|by intros; apply Hs2]. rewrite <- Es in *.
  apply ok_or_Ok, checked_add_Some in Eg as ->. fold c. cbv zeta.
  apply aspec_check; [intros [] _|by intros; apply Hs2].
  intros w Hw. assert (state_ok s) as Hsok by (eapply disk_state_ok; [exact Hw|left]). revert w Hw.
  destruct (pending_ok s c) as (y & Hy & Hyok & Hys & Hyc); [done|done|done|].
  assert (vouches (Some (anchor_committed s)) s) as Hcs by (by left).
  eapply aspec_io; [by apply (spec_stage s c _ y)|intros []|by intros; apply fine_sound|by intros; apply fine_sound].
  assert (∀ fs, disk [Some s] [Some y] fs ∨ disk [Some c; Some s] [Some y] fs → sound s c fs) as Hwindow.
  { intros fs [Hp|Hp]; [exists [s], [Some y]|exists [c; s], [Some y]]; (split; [exact Hp|]);
      rewrite ?Forall_cons, ?Forall_nil; naive_solver. }
  eapply aspec_result; [by apply spec_boot_persist| |by apply Hwindow].
  intros [[]|e]; [by apply aspec_finish|]. destruct e; first [by apply aspec_throw|apply aspec_give_in; by intros; apply Hwindow].
Qed.

(** ** Files that are not settled

    The head of a list is what is read now, the rest is what a power loss may
    bring back instead. *)
Definition ledgered (ls : list (option DurableBootstrapState)) (fs : FS) : Prop := ∃ aa, disk ls aa fs.

(** What is left of the anchors once one is known to be committed to [s]. *)
Definition committed_to (s : DurableBootstrapState) (x : option GenerationAnchor)
    (aa aa' : list (option GenerationAnchor)) : Prop :=
  aa' = [] ∨ x = Some (anchor_committed s) ∧ aa' = aa.

Lemma spec_reconcile_any s ls x aa :
  state_ok s →
  spec env (disk ls (x :: aa)) (reconcile_generation_anchor store s)
    (λ fs r, match r with
             | Some (Ok _) => vouches x s ∧
                 ∃ aa', disk ls (Some (anchor_committed s) :: aa') fs ∧ committed_to s x aa aa'
             | _ => disk ls (x :: aa) fs ∨ vouches x s ∧ ledgered ls fs
             end).
Proof.
  intros Hs. unfold reconcile_generation_anchor.
  eapply spec_bind; [apply spec_load_anchor| |by intros fs e [Hp _]; left|by intros fs [Hp _]; left].
  intros read. apply spec_pure. intros ->.
  destruct (reconcile_decision x s) as [wr|e] eqn:Hw; [|by apply spec_err_bind; left].
  assert (vouches x s) as Hx by (apply reconcile_vouches; eauto). apply spec_ok_bind.
  pose proof (reconcile_writes _ _ _ Hw) as Hwr. destruct wr as [y|].
  - subst y. eapply spec_weaken; [by apply spec_persist_anchor, committed_ok|done|].
    intros fs [[[]|e]|] Hr; [split; [done|]; exists []; split; [done|by left]|..];
      (destruct Hr as [Hr|Hr]; [by left|right; split; [done|by eexists]]).
  - apply spec_ret. intros fs Hdisk. destruct Hwr as (y & -> & H1' & H2' & H3'). split; [done|].
    assert (y = anchor_committed s) as ->; [|by exists aa; split; [|right]].
    apply anchor_committed_exact; [|done..]. eapply disk_anchor_ok; [exact Hdisk|left].
Qed.

Lemma spec_stage_any s c ls x aa y :
  state_ok s → anchor_with_pending s c = Ok y → anchor_ok y →
  spec env (disk ls (x :: aa)) (stage_generation_anchor store s c)
    (λ fs r, match r with Some (Ok _) => disk ls [Some y] fs | _ => ledgered ls fs end).
Proof.
  intros Hs Hy Hok. unfold stage_generation_anchor.
  eapply spec_bind; [by apply spec_reconcile_any|intros []| |].
  - rewrite Hy. apply spec_ok_bind. intros w (_ & aa' & Hw & _).
    pose proof (spec_persist_anchor y ls _ Hok w Hw) as Hpost.
    destruct (snd (persist_generation_anchor_record _ _ _ _)) as [[[]|e]|]; [done|..];
      destruct Hpost as [Hpost|Hpost]; by eexists.
  - intros fs e [Hp|[_ Hp]]; [by eexists|done].
  - intros fs [Hp|[_ Hp]]; [by eexists|done].
Qed.

(** A commit over files that need not be settled. *)
Definition commits_any (co : DurableBootstrapCoordinator) (s c : DurableBootstrapState)
    (ls : list (option DurableBootstrapState)) (fs : FS)
    (r : option (DurableBootstrapCoordinator * result DurableBootstrapError unit)) : Prop :=
  match r with
  | Some (_, Ok _) => bc_state co = s ∧ disk [Some c] [Some (anchor_committed c)] fs
  | _ => ledgered (Some s :: ls) fs ∨
      bc_state co = s ∧ ∃ ls', ls' ⊆ Some c :: Some s :: ls ∧ ledgered ls' fs
  end.

Lemma aspec_commit_any co s ls x aa candidate :
  let c := with_generation (bs_generation s + 1) candidate in
  bc_store co = store →
  (bc_state co = s → is_u64 (bs_generation c) → DurableBootstrapState_validate c = Ok tt → state_ok c) →
  aspec co (disk (Some s :: ls) (x :: aa)) (bootstrap_commit candidate) (commits_any co s c ls).
Proof.
  intros c Hst Hok. assert (∀ aa' fs, disk (Some s :: ls) aa' fs → ledgered (Some s :: ls) fs) as Hl by (by intros; eexists).
  unfold bootstrap_commit. apply aspec_usable; [|by intros; left; apply (Hl (x :: aa))].
  apply aspec_check; [intros [] _|by intros; left; apply (Hl (x :: aa))]. apply aspec_self. rewrite Hst.
  eapply aspec_io; [apply spec_boot_acquire|intros lock|by intros; left; apply (Hl (x :: aa))|by intros; left; apply (Hl (x :: aa))].
  eapply aspec_io; [apply spec_boot_load|intros loaded|intros fs e [Hp _]; left; eapply Hl; exact Hp|intros fs [Hp _]; left; eapply Hl; exact Hp].
  intros w [Hw ->]. assert (state_ok s) as Hsok by (eapply disk_state_ok; [exact Hw|left]). revert w Hw. cbn [ok_or].
  apply aspec_check; [intros durable [= <-]|by intros; left; apply (Hl (x :: aa))].
  eapply aspec_io; [by apply spec_reconcile_any|intros []|intros fs e [Hp|[_ Hp]]; left; [eapply Hl|]; exact Hp|intros fs [Hp|[_ Hp]]; left; [eapply Hl|]; exact Hp].
  intros w (_ & aa' & Hw & _). revert w Hw.
  eapply aspec_observe; [apply observing_generation|apply steady_disk|intros g|by intros; left; apply (Hl (Some (anchor_committed s) :: aa'))|by intros; left; apply (Hl (Some (anchor_committed s) :: aa'))].
  destruct (_ || _) eqn:Estale; [intros w Hw; left; by eapply Hl|].
  apply orb_false_iff in Estale as [Es%negb_false_iff%bool_decide_eq_true _]. rewrite <- Es in *.
  apply aspec_check; [intros generation Eg|by intros; left; apply (Hl (Some (anchor_committed s) :: aa'))].
  pose proof (ss_generation s (proj1 Hsok)) as Hgs. pose proof Eg as Hgb%ok_or_Ok. unfold u64_checked_add in Hgb.
  destruct (Z.leb_spec (bs_generation s + 1) u64_max) as [Hle|]; [clear Hgb|done].
  apply ok_or_Ok, checked_add_Some in Eg as ->. fold c. cbv zeta.
  apply aspec_check; [intros [] Hv|by intros; left; apply (Hl (Some (anchor_committed s) :: aa'))].
  assert (state_ok c) as Hc by (apply Hok; [done|unfold is_u64 in *; cbn; lia|done]).
  destruct (pending_ok s c) as (y & Hy & Hyok & _ & Hyc); [done..|].
  eapply aspec_io; [by apply (spec_stage_any s c _ _ _ y)|intros []|by intros; left|by intros; left].
  assert (∀ fs, disk (Some s :: ls) [Some y] fs ∨ disk (Some c :: Some s :: ls) [Some y] fs →
    commits_any co s c ls fs None) as Hwindow.
  { intros fs [Hp|Hp]; [left; by eexists|right]. split; [done|]. eexists. split; [done|by eexists]. }
  eapply aspec_result; [by apply spec_boot_persist| |by apply Hwindow].
  intros [[]|e].
  - intros w Hw. pose proof (aspec_finish co s c y Hy Hyc w Hw) as Hf. unfold committing in Hf.
    assert (sound s c (w_fs (finish_commit store c co env w).1) →
      commits_any co s c ls (w_fs (finish_commit store c co env w).1) None) as Hsound.
    { intros (l & aa'' & Hp & Hall). right. split; [done|]. exists (Some <$> l). split; [|by eexists].
      intros t' (t & -> & Ht)%list_elem_of_fmap. rewrite Forall_forall in Hall.
      destruct (Hall t Ht) as [[-> | ->] _]; [by right; left|by left]. }
    destruct (snd (finish_commit store c co env w)) as [[co' [[]|e]]|]; [done|by apply Hsound..].
  - destruct e; first [by apply aspec_throw; intros; apply Hwindow|apply aspec_give_in; by intros; apply Hwindow].
Qed.

(** ** Opening *)
Lemma new_ok session machine s : DurableBootstrapState_new session machine = Ok s → state_ok s.
Proof.
  unfold DurableBootstrapState_new. intros (? & _ & (? & _ & ([] & Hv & [= <-])%bind_Ok)%bind_Ok)%bind_Ok.
  split; [|done]. split; [done|done|constructor|by split].
Qed.

Lemma new_vouched session machine s : DurableBootstrapState_new session machine = Ok s → vouches None s.
Proof.
  unfold DurableBootstrapState_new. by intros (? & _ & (? & _ & (? & _ & [= <-])%bind_Ok)%bind_Ok)%bind_Ok.
Qed.

(** The end of opening. *)
Lemma spec_opened (P : FS → Prop) (Q : _ → option (result DurableBootstrapError DurableBootstrapCoordinator) → Prop) t :
  steady env P → (∀ fs e, P fs → Q fs (Some (Err e))) → (∀ fs, P fs → Q fs None) →
  (∀ fs g, P fs → Q fs (Some (Ok {| bc_store := store; bc_state := t; bc_store_generation := g;
                                    bc_durability_uncertain := None |}))) →
  spec env P (_ ← io_lift (DurableBootstrapState_validate t);
              store_generation ← BootstrapStateStore_generation store t;
              mret {| bc_store := store; bc_state := t; bc_store_generation := store_generation;
                      bc_durability_uncertain := None |}) Q.
Proof.
  intros HP He Hk Ho. destruct (DurableBootstrapState_validate t) as [[]|e]; [apply spec_ok_bind|apply spec_err_bind; auto].
  eapply spec_observe_bind; [apply observing_generation|done|intros g|auto|auto]. apply spec_ret. auto.
Qed.

(** A ledger is opened when the anchor vouches for it, and only then. *)
Lemma spec_open_existing session machine t x :
  spec env (disk [Some t] [x]) (coordinator_open store session machine)
    (λ fs r, match r with
             | Some (Ok co) => vouches x t ∧ bc_state co = t ∧ bc_store co = store
                 ∧ disk [Some t] [Some (anchor_committed t)] fs
             | _ => disk [Some t] [x] fs ∨ vouches x t ∧ fine t fs
             end).
Proof.
  unfold coordinator_open.
  destruct (normalize_identifier _ session) as [sid|e]; [apply spec_ok_bind|apply spec_err_bind; by left].
  destruct (normalize_identifier _ machine) as [mid|e]; [apply spec_ok_bind|apply spec_err_bind; by left].
  eapply spec_bind; [apply spec_boot_acquire|intros lock|by left|by left].
  eapply spec_bind; [apply spec_boot_load|intros loaded|by intros fs e []; left|by intros fs []; left].
  apply spec_pure. intros ->.
  eapply spec_bind with (R := λ fs r, match r with
    | Some (Ok s) => (vouches x t ∧ disk [Some t] [Some (anchor_committed t)] fs) ∧ s = t
    | _ => disk [Some t] [x] fs ∨ vouches x t ∧ fine t fs end); [| |done|done].
  - destruct (reject_if _ _) as [[]|e]; [apply spec_ok_bind|apply spec_err_bind; by left].
    destruct (reconcile_decision x t) as [wr|e] eqn:Er.
    + assert (vouches x t) as Hv by (apply reconcile_vouches; eauto).
      eapply spec_bind; [by apply spec_reconcile|intros []|by right|by right]. apply spec_ret. by intros fs Hdisk.
    + unfold reconcile_generation_anchor.
      eapply spec_bind with (R := λ fs r, disk [Some t] [x] fs ∧ match r with Some (Ok _) => False | _ => True end);
        [|intros u|by intros fs e' []; left|by intros fs []; left].
      * eapply spec_bind; [apply spec_load_anchor|intros read|by intros fs e' []|by intros fs []].
        apply spec_pure. intros ->. rewrite Er. by apply spec_err_bind.
      * by intros w [_ []].
  - intros s. apply spec_pure. intros ->. apply spec_opened.
    + intros k fs [Hv Hdisk]. split; [done|by apply steady_disk].
    + intros fs e [Hv Hdisk]. right. split; [done|]. eexists. split; [exact Hdisk|]. apply Forall_singleton. by left.
    + intros fs [Hv Hdisk]. right. split; [done|]. eexists. split; [exact Hdisk|]. apply Forall_singleton. by left.
    + by intros fs g [Hv Hdisk].
Qed.

Lemma spec_learn {E A} P (F : Prop) (x : IO E A) Q : (∀ fs, P fs → F) → (F → spec env P x Q) → spec env P x Q.
Proof. intros HF Hx w Hw. by apply Hx; [eapply HF|]. Qed.

(** The same over files that need not be settled. *)
Lemma spec_open_any session machine t ls x aa :
  spec env (disk (Some t :: ls) (x :: aa)) (coordinator_open store session machine)
    (λ fs r, match r with
             | Some (Ok co) => vouches x t ∧ bc_state co = t ∧ bc_store co = store ∧
                 ∃ aa', disk (Some t :: ls) (Some (anchor_committed t) :: aa') fs ∧ committed_to t x aa aa'
             | _ => disk (Some t :: ls) (x :: aa) fs ∨ vouches x t ∧ ledgered (Some t :: ls) fs
             end).
Proof.
  unfold coordinator_open.
  destruct (normalize_identifier _ session) as [sid|e]; [apply spec_ok_bind|apply spec_err_bind; by left].
  destruct (normalize_identifier _ machine) as [mid|e]; [apply spec_ok_bind|apply spec_err_bind; by left].
  eapply spec_bind; [apply spec_boot_acquire|intros lock|by left|by left].
  eapply spec_bind; [apply spec_boot_load|intros loaded|by intros fs e []; left|by intros fs []; left].
  apply spec_pure. intros ->.
  apply (spec_learn _ (state_ok t)); [intros fs Hw; eapply disk_state_ok; [exact Hw|left]|intros Ht].
  eapply spec_bind with (R := λ fs r, match r with
    | Some (Ok s) => (vouches x t ∧ ∃ aa', disk (Some t :: ls) (Some (anchor_committed t) :: aa') fs
                        ∧ committed_to t x aa aa') ∧ s = t
    | _ => disk (Some t :: ls) (x :: aa) fs ∨ vouches x t ∧ ledgered (Some t :: ls) fs end); [| |done|done].
  - destruct (reject_if _ _) as [[]|e]; [apply spec_ok_bind|apply spec_err_bind; by left].
    eapply spec_bind; [by apply spec_reconcile_any|intros []|done|done]. apply spec_ret. by intros fs Hp.
  - intros s. apply spec_pure. intros ->.
    assert (∀ fs, (vouches x t ∧ ∃ aa', disk (Some t :: ls) (Some (anchor_committed t) :: aa') fs
      ∧ committed_to t x aa aa') → vouches x t ∧ ledgered (Some t :: ls) fs) as Hl.
    { intros fs (Hv & aa' & Hp & _). split; [done|by eexists]. }
    apply spec_opened; [|by intros; right; apply Hl|by intros; right; apply Hl|by intros fs g [Hv Hp]].
    intros k fs (Hv & aa' & Hp & Hc). split; [done|]. exists aa'. split; [by apply steady_disk|done].
Qed.

(** A store that has no ledger yet, or is about to have its first. *)
Definition starting (s : DurableBootstrapState) (fs : FS) : Prop :=
  disk [Some s; None] [None] fs ∨ fine s fs.

Lemma spec_open_new session machine :
  spec env (disk [None] [None]) (coordinator_open store session machine)
    (λ fs r, match r with
             | Some (Ok co) => bc_store co = store
                 ∧ disk [Some (bc_state co)] [Some (anchor_committed (bc_state co))] fs
             | _ => disk [None] [None] fs ∨ ∃ s, vouches None s ∧ starting s fs
             end).
Proof.
  unfold coordinator_open.
  destruct (normalize_identifier _ session) as [sid|e]; [apply spec_ok_bind|apply spec_err_bind; by left].
  destruct (normalize_identifier _ machine) as [mid|e]; [apply spec_ok_bind|apply spec_err_bind; by left].
  eapply spec_bind; [apply spec_boot_acquire|intros lock|by left|by left].
  eapply spec_bind; [apply spec_boot_load|intros loaded|by intros fs e []; left|by intros fs []; left].
  apply spec_pure. intros ->.
  destruct (DurableBootstrapState_new sid mid) as [t|e] eqn:En.
  2: { intros w Hw. by left. }
  pose proof (new_vouched _ _ _ En) as Hv.
  eapply spec_bind with (R := λ fs r, match r with
    | Some (Ok s) => disk [Some t] [Some (anchor_committed t)] fs ∧ s = t
    | _ => disk [None] [None] fs ∨ starting t fs end); [| |by intros fs e [?|?]; eauto|by intros fs [?|?]; eauto].
  - apply spec_ok_bind. eapply spec_bind; [apply spec_boot_persist; by eapply new_ok|intros []| |].
    + eapply spec_bind; [by apply spec_reconcile|intros []|by intros; right; right|by intros; right; right].
      apply spec_ret. by intros fs Hdisk.
    + intros fs e [Hp|Hp]; [by left|right; by left].
    + intros fs [Hp|Hp]; [by left|right; by left].
  - intros s. apply spec_pure. intros ->.
    assert (∀ fs, disk [Some t] [Some (anchor_committed t)] fs → starting t fs) as Hst.
    { intros fs Hdisk. right. eexists. split; [exact Hdisk|]. apply Forall_singleton. by left. }
    apply spec_opened; [apply steady_disk|by intros; right; eauto|by intros; right; eauto|by intros].
Qed.

(** ** Power loss *)
Lemma disk_power_loss ls aa fs fs' :
  power_loss fs fs' → disk ls aa fs → ∃ l x, l ∈ ls ∧ x ∈ aa ∧ disk [l] [x] fs'.
Proof.
  intros Hp [Hl Hx]. destruct (recorded_power_loss _ _ d n ls fs fs' Hp Hl) as (l & H1' & H2').
  destruct (recorded_power_loss _ _ a m aa fs fs' Hp Hx) as (x & H3' & H4'). by exists l, x.
Qed.

Lemma fine_power_loss s fs fs' : power_loss fs fs' → fine s fs → ∃ x, disk [Some s] [x] fs' ∧ vouches x s.
Proof.
  intros Hp (aa & Hdisk & Hv). destruct (disk_power_loss _ _ _ _ Hp Hdisk) as (l & x & ->%list_elem_of_singleton & Hx & Hd').
  rewrite Forall_forall in Hv. exists x. auto.
Qed.

Lemma sound_power_loss s c fs fs' :
  power_loss fs fs' → sound s c fs → ∃ t x, disk [Some t] [x] fs' ∧ (t = s ∨ t = c) ∧ vouches x t.
Proof.
  intros Hp (ls & aa & Hdisk & Hv).
  destruct (disk_power_loss _ _ _ _ Hp Hdisk) as (l & x & (t & -> & Ht)%list_elem_of_fmap & Hx & Hd').
  rewrite Forall_forall in Hv. destruct (Hv t Ht) as [Htc Hvs]. rewrite Forall_forall in Hvs. exists t, x. auto.
Qed.

(** Ledger and anchor are as an opening expects them: neither is there, or the
    anchor vouches for the ledger. *)
Definition consistent (fs : FS) : Prop :=
  disk [None] [None] fs ∨ ∃ s x, disk [Some s] [x] fs ∧ vouches x s.

Lemma ledgered_power_loss ls fs fs' : power_loss fs fs' → ledgered ls fs → ∃ l y, l ∈ ls ∧ disk [l] [y] fs'.
Proof. intros Hp (aa & Hdisk). destruct (disk_power_loss _ _ _ _ Hp Hdisk) as (l & y & Hl & _ & Hd'). eauto. Qed.

Lemma vouches_cases x s : vouches x s ∨ ¬ vouches x s.
Proof.
  destruct (reconcile_decision x s) as [wr|e] eqn:E; [left; apply reconcile_vouches; eauto|right].
  intros [wr Hw]%reconcile_vouches. congruence.
Qed.

(** C19: A power loss after the commit of a bootstrap state that was
    acknowledged leaves the new ledger and an anchor committed to it, whether
    or not ledger and anchor were settled on the disk when the commit began.
    During or after a commit that was not, whatever call failed in it and
    wherever it was killed, it leaves the new ledger, the one that was read or
    one that was not settled before; and if both files were settled on the disk
    and the anchor vouched for the ledger when it began, the old ledger or the
    new one with an anchor that vouches for it, which is what the next opening
    asks of it.  The new state is one that can be read back: its numbers are in
    the ranges of their types, and neither its operation nor another identifier
    in it is a dash. *)
Theorem commit_survives_power_loss s ls x aa candidate co w w' r fs :
  let c := with_generation (bs_generation s + 1) candidate in
  disk (Some s :: ls) (x :: aa) (w_fs w) → bc_store co = store → (bc_state co = s → state_ok c) →
  bootstrap_commit candidate co env w = (w', r) → power_loss (w_fs w') fs →
  ∃ l y, disk [l] [y] fs ∧
    match r with
    | Some (_, Ok _) => l = Some c ∧ y = Some (anchor_committed c)
    | _ => l ∈ Some c :: Some s :: ls ∧
        (ls = [] → aa = [] → vouches x s → ∃ t, l = Some t ∧ (t = s ∨ t = c) ∧ vouches y t)
    end.
Proof.
  intros c Hw Hst Hok Hr Hl.
  pose proof (aspec_commit_any co s ls x aa candidate Hst (λ E _ _, Hok E) w Hw) as Hc. fold c in Hc. rewrite Hr in Hc.
  assert (∀ l y, disk [l] [y] (w_fs w') → disk [l] [y] fs) as Hkeep.
  { intros l y Hdisk. destruct (disk_power_loss _ _ _ _ Hl Hdisk)
      as (l' & y' & ->%list_elem_of_singleton & ->%list_elem_of_singleton & Hd'). done. }
  assert ((∀ co', r ≠ Some (co', Ok tt)) → ∃ l y, disk [l] [y] fs ∧ (l ∈ Some c :: Some s :: ls ∧
    (ls = [] → aa = [] → vouches x s → ∃ t, l = Some t ∧ (t = s ∨ t = c) ∧ vouches y t))) as Hfailed.
  { intros Hne. assert (ls = [] ∧ aa = [] ∧ vouches x s ∨ ¬ (ls = [] ∧ aa = [] ∧ vouches x s)) as [(-> & -> & Hv)|Hn].
    { destruct ls; [|naive_solver]. destruct aa; [|naive_solver]. destruct (vouches_cases x s); naive_solver. }
    - pose proof (aspec_commit co s x candidate Hst Hv Hok w Hw) as Hs. fold c in Hs. rewrite Hr in Hs.
      assert (sound s c (w_fs w')) as Hsound by (by destruct r as [[co' [[]|e]]|]; [destruct (Hne co')|..]).
      destruct (sound_power_loss _ _ _ _ Hl Hsound) as (t & y & Hd' & Ht & Hy). exists (Some t), y.
      split; [done|]. split; [|by intros; exists t]. destruct Ht as [-> | ->]; [by right; left|by left].
    - assert (∃ l y, l ∈ Some c :: Some s :: ls ∧ disk [l] [y] fs) as (l & y & Hin & Hd').
      { assert (commits_any co s c ls (w_fs w') None) as [Hg|(_ & ls' & Hsub & Hg)]
          by (destruct r as [[co' [[]|e]]|]; [destruct (Hne co')|..]; done).
        - destruct (ledgered_power_loss _ _ _ Hl Hg) as (l & y & Hin & Hd'). exists l, y. split; [by right|done].
        - destruct (ledgered_power_loss _ _ _ Hl Hg) as (l & y & Hin & Hd'). exists l, y. split; [by apply Hsub|done]. }
      exists l, y. split; [done|]. split; [done|]. intros H1' H2' H3'. by destruct Hn. }
  destruct r as [[co' [[]|e]]|]; [|by apply Hfailed..]. destruct Hc as [_ Hc]. eexists _, _. split; [by apply Hkeep|done].
Qed.

(** C20: An existing ledger is opened only if the anchor that is read vouches
    for it: it committed to, or announced as pending, exactly the ledger's
    generation and digest; the coordinator then has that ledger's state, and
    the anchor that is read afterwards is committed to it.  A ledger that was
    rolled back or replaced is refused and nothing changes.  This holds whether
    or not the files are settled on the disk.  If they are, and the anchor
    vouches for the ledger, a power loss during or after the opening leaves the
    same ledger with an anchor that vouches for it; for a ledger that is not
    settled, as after a commit that was killed, it need not (see
    BootstrapWitnesses.anchor_outruns_ledger). *)
Theorem opening_decided_by_anchor session machine t ls x aa w w' r :
  disk (Some t :: ls) (x :: aa) (w_fs w) → coordinator_open store session machine env w = (w', r) →
  (∀ co, r = Some (Ok co) → vouches x t ∧ bc_state co = t ∧ bc_store co = store ∧
     ∃ aa', disk (Some t :: ls) (Some (anchor_committed t) :: aa') (w_fs w') ∧
       (aa' = [] ∨ x = Some (anchor_committed t) ∧ aa' = aa)) ∧
  (¬ vouches x t → (∀ co, r ≠ Some (Ok co)) ∧ disk (Some t :: ls) (x :: aa) (w_fs w')) ∧
  (ls = [] → aa = [] → vouches x t →
     ∀ fs, power_loss (w_fs w') fs → ∃ y, disk [Some t] [y] fs ∧ vouches y t).
Proof.
  intros Hw Hr. pose proof (spec_open_any session machine t ls x aa w Hw) as Ho. rewrite Hr in Ho. cbn in Ho.
  split_and!.
  - by intros co ->.
  - intros Hn. destruct r as [[co|e]|]; naive_solver.
  - intros -> -> Hv fs Hl. apply (fine_power_loss t (w_fs w')); [done|]. clear Ho.
    pose proof (spec_open_existing session machine t x w Hw) as Ho. rewrite Hr in Ho. cbn in Ho.
    assert (∀ y, disk [Some t] [y] (w_fs w') → vouches y t → fine t (w_fs w')) as Hf.
    { intros y Hdisk Hy. exists [y]. split; [done|by apply Forall_singleton]. }
    destruct r as [[co|e]|]; [|destruct Ho as [Ho|[_ Ho]]; eauto..].
    destruct Ho as (_ & _ & _ & Ho). eapply Hf; [exact Ho|by left].
Qed.

(** Opening a store that has neither ledger nor anchor creates both; a power
    loss on the way leaves neither of them or a first state that the anchor, if
    there is one already, vouches for. *)
Theorem first_opening_survives_power_loss session machine w w' r fs :
  disk [None] [None] (w_fs w) → coordinator_open store session machine env w = (w', r) →
  power_loss (w_fs w') fs →
  consistent fs ∧ ∀ co, r = Some (Ok co) → disk [Some (bc_state co)] [Some (anchor_committed (bc_state co))] fs.
Proof.
  intros Hw Hr Hl. pose proof (spec_open_new session machine w Hw) as Ho. rewrite Hr in Ho. cbn in Ho.
  assert (∀ l y, disk [l] [y] (w_fs w') → disk [l] [y] fs) as Hkeep.
  { intros l y Hdisk. destruct (disk_power_loss _ _ _ _ Hl Hdisk) as (l' & y' & ->%list_elem_of_singleton
      & ->%list_elem_of_singleton & Hd'). done. }
  assert (∀ s, vouches None s → starting s (w_fs w') → consistent fs) as Hstart.
  { intros s Hv [Hdisk|Hf].
    - destruct (disk_power_loss _ _ _ _ Hl Hdisk) as (l & y & Hin & ->%list_elem_of_singleton & Hd').
      apply elem_of_cons in Hin as [-> | ->%list_elem_of_singleton]; [right; eauto|by left].
    - right. destruct (fine_power_loss _ _ _ Hl Hf) as (y & ? & ?). eauto. }
  destruct r as [[co|e]|].
  - destruct Ho as [_ Ho%Hkeep]. split; [|by intros ? [= <-]]. right. eexists _, _. split; [exact Ho|by left].
  - split; [|done]. destruct Ho as [Ho%Hkeep|(s & Hv & Hs)]; [by left|eauto].
  - split; [|done]. destruct Ho as [Ho%Hkeep|(s & Hv & Hs)]; [by left|eauto].
Qed.

(** What an operation leaves: the transition of this operation durable, or
    the state of the coordinator as it was, with the ledger as it was or the
    operation's next state put over it. *)
Definition durably (op : BootstrapOperation) (co : DurableBootstrapCoordinator) (s : DurableBootstrapState)
    (ls : list (option DurableBootstrapState)) (fs : FS)
    (r : option (DurableBootstrapCoordinator * result DurableBootstrapError unit)) : Prop :=
  let next c := with_generation (bs_generation s + 1) c in
  let unacknowledged := ledgered (Some s :: ls) fs ∨
    bc_state co = s ∧ ∃ c ls', made_by op s c ∧ ls' ⊆ Some (next c) :: Some s :: ls ∧ ledgered ls' fs in
  match r with
  | Some (co', Ok _) =>
      bc_state co = s ∧ bc_store co' = store ∧ bc_durability_uncertain co' = None ∧
      (∃ c, made_by op s c ∧ bc_state co' = next c) ∧ DurableBootstrapState_validate (bc_state co') = Ok tt ∧
      disk [Some (bc_state co')] [Some (anchor_committed (bc_state co'))] fs
  | Some (co', Err _) => bc_store co' = store ∧ bc_state co' = bc_state co ∧ unacknowledged
  | None => unacknowledged
  end.

(** C21: Every operation of the bootstrap coordinator on a store with a ledger
    refines the bootstrap state machine, on the disk and in memory.  When it
    succeeds, the coordinator's state was the ledger's, its new state is the one
    that the transition of this very operation makes of it, at the next
    generation and valid, and ledger and anchor hold exactly that state, settled
    on the disk.  When it fails or is killed, the coordinator's state is as it was
    and the ledger is as it was or has the next state of this operation put over
    it.  The arguments are in their types' ranges and no identifier is a dash. *)
Theorem bootstrap_operations_refine_machine `{Observer} op s ls x aa co w w' r
    (Hclock : ∀ k, (0 ≤ (clock env k).2)%Z) (Hop : readable op) (Hst : bc_store co = store)
    (Hw : disk (Some s :: ls) (x :: aa) (w_fs w)) (Hr : perform op co env w = (w', r)) :
  durably op co s ls (w_fs w') r.
Proof.
  destruct (perform_commits_one env Hclock op co w) as (w1 & Hlook & Hcases).
  apply (Hlook _ (steady_disk _ _)) in Hw. rewrite Hr in Hcases.
  destruct Hcases as [[e [= -> ->]]|[[= -> ->]|(c & Hm & Hc)]].
  - split; [done|]. split; [done|]. left. by eexists.
  - left. by eexists.
  - symmetry in Hc. assert (state_ok s) as Hs by (eapply disk_state_ok; [exact Hw|left]).
    pose proof (aspec_commit_any co s ls x aa c Hst) as Hcommit. cbv zeta in Hcommit.
    specialize (Hcommit (λ E Hg Hv, made_ok op s c _ Hs Hop (eq_ind _ (λ s, made_by op s c) Hm _ E) Hg Hv) w1 Hw).
    rewrite Hc in Hcommit. cbn [fst snd] in Hcommit.
    assert (commits_any co s (with_generation (bs_generation s + 1) c) ls (w_fs w') None →
      ledgered (Some s :: ls) (w_fs w') ∨ bc_state co = s ∧ ∃ c ls', made_by op s c ∧
        ls' ⊆ Some (with_generation (bs_generation s + 1) c) :: Some s :: ls ∧ ledgered ls' (w_fs w')) as Hun.
    { intros [?|(E & ls' & Hsub & Hg)]; [by left|right]. rewrite E in Hm. split; [done|]. eauto. }
    destruct r as [[co' r]|]; [|by apply Hun]. pose proof (acts_commit co c env w1 w' co' r Hc) as Hmem.
    destruct r as [[]|e]; [|destruct Hmem as [Es Em]; split; [by rewrite Es|split; [done|by apply Hun]]].
    destruct Hcommit as [E Hdisk], Hmem as (Hst' & Hu & Hs' & _ & Hv). rewrite E in Hm, Hs'.
    split_and!; [done|by rewrite Hst'|done|by exists c|done|by rewrite Hs'].
Qed.
End disk.
