(* ===== verification/BootstrapRecovery.v ===== *)
(** * First Boot readiness

    [lib.rs] of linura-bootstrap: the ledger of completed stages, the adoption
    policy, and the verification of a recovery checkpoint against the receipt of
    its restoration.  The build is the release one, in which the fallback of the
    feature [test-support] does not exist. *)

From Stdlib Require Import ZArith Lia Ascii.
From stdpp Require Import base numbers gmap strings list fin_maps sorting.
From S2P Require Import Prelude Text Fields Digest Paths Files ControlFiles SessionIdentity FileFacts.
From S2P Require Import UpdateEvidence UpdateEvidenceFacts BootstrapState BootstrapText BootstrapStore.

Set Default Goal Selector "!".

Definition V09_NATIVE_RECOVERY_SHELL : Path := "/usr/bin/bash".
Definition V09_NATIVE_RECOVERY_PACKAGE_MANAGER : Path := "/usr/bin/apt".
Definition V09_NATIVE_RECOVERY_IDENTITY : string := "ubuntu-native-shell+apt-v1".
Definition V09_RECOVERY_EVIDENCE_ROOT : Path := "/var/lib/linura-recovery/v0.9".
Definition V09_RECOVERY_PRODUCER_ID : string := "linura-recovery-v09".
Definition V09_RECOVERY_RECEIPT_SCHEMA : string := "1".

(** ** Errors *)
Inductive BootstrapError :=
| OutOfOrder (stage : BootstrapStage)
| LedgerUnexpectedStage (expected actual : BootstrapStage)
| LedgerAlreadyComplete
| MissingPrerequisite (stage : BootstrapStage)
| InvalidField (label : string)
| InvalidCheckpointId
| InvalidCheckpointDigest
| UnsafeAdoptionSecurityPolicy
| RecoveryBindingMismatch
| RecoveryProducerMismatch
| RecoveryRestoreMismatch
| RecoveryRestoreNotIndependent
| RecoveryArtifactNotRegular
| RecoveryArtifactPathMismatch (label : string)
| RecoveryProducerPathUntrusted (path : string)
| RecoveryReceiptInvalid
| RecoveryReceiptBindingMismatch
| RecoveryArtifactTooLarge
| NativeRecoveryUnavailable (path : string)
| RecoveryIo (error : IoError).

Definition BootstrapError_display (e : BootstrapError) : string :=
  match e with
  | OutOfOrder stage => "bootstrap ledger contains out-of-order completed stage: " +:+ BootstrapStage_debug stage
  | LedgerUnexpectedStage expected actual =>
      "bootstrap stage must advance monotonically: expected " +:+ BootstrapStage_debug expected
      +:+ ", got " +:+ BootstrapStage_debug actual
  | LedgerAlreadyComplete => "bootstrap ledger is already complete"
  | MissingPrerequisite stage => "First Boot prerequisite is incomplete: " +:+ BootstrapStage_debug stage
  | InvalidField label => "invalid " +:+ label
  | InvalidCheckpointId => "recovery checkpoint id must be a bounded path-safe identifier"
  | InvalidCheckpointDigest => "recovery checkpoint digest must be 64-character SHA-256 hex"
  | UnsafeAdoptionSecurityPolicy =>
      "Linura adoption security policy is weaker than the v0.9 fail-closed baseline"
  | RecoveryBindingMismatch => "recovery evidence is not bound to the exact First Boot session/plan"
  | RecoveryProducerMismatch => "recovery evidence did not originate from the qualified producer"
  | RecoveryRestoreMismatch =>
      "recovery checkpoint and trusted restored copy do not match the producer receipt"
  | RecoveryRestoreNotIndependent =>
      "recovery verification requires a distinct restored artifact, not the checkpoint inode itself"
  | RecoveryArtifactNotRegular => "recovery evidence path must be a regular non-symlink file"
  | RecoveryArtifactPathMismatch label =>
      "caller-supplied " +:+ label +:+ " path does not match the qualified recovery producer artifact"
  | RecoveryProducerPathUntrusted path =>
      "recovery producer path is not protected by the qualified ownership/permission contract: " +:+ path
  | RecoveryReceiptInvalid => "trusted recovery restore receipt is malformed or unsupported"
  | RecoveryReceiptBindingMismatch =>
      "trusted recovery restore receipt is not bound to the exact session/plan/checkpoint/digest"
  | RecoveryArtifactTooLarge => "recovery evidence size overflowed the supported bound"
  | NativeRecoveryUnavailable path =>
      "qualified native recovery program is unavailable or unsafe: " +:+ path
  | RecoveryIo error => "recovery verification I/O failed: " +:+ io_text error
  end.

(** ** The adoption policy *)
Record AdoptionSecurityPolicy := {
  ad_inbound_firewall_default_deny : bool;
  ad_ssh_enabled_initially : bool;
  ad_untrusted_package_sources_enabled : bool;
}.

Definition AdoptionSecurityPolicy_default : AdoptionSecurityPolicy :=
  {| ad_inbound_firewall_default_deny := true; ad_ssh_enabled_initially := false;
     ad_untrusted_package_sources_enabled := false |}.

Definition AdoptionSecurityPolicy_validate (p : AdoptionSecurityPolicy) : result BootstrapError unit :=
  reject_if (negb (ad_inbound_firewall_default_deny p) || ad_ssh_enabled_initially p
             || ad_untrusted_package_sources_enabled p) UnsafeAdoptionSecurityPolicy.

(** ** The ledger: a set of stages *)
#[export] Program Instance BootstrapStage_countable : Countable BootstrapStage :=
  inj_countable (λ s, position s ORDERED) (λ o, i ← o; ORDERED !! i) _.
Next Obligation. by intros []. Qed.

Definition BootstrapLedger := gset BootstrapStage.

Definition ledger_next_stage (l : BootstrapLedger) : option BootstrapStage :=
  List.find (λ stage, negb (bool_decide (stage ∈ l))) ORDERED.

Definition complete_next (stage : BootstrapStage) (l : BootstrapLedger) : result BootstrapError BootstrapLedger :=
  expected ← ok_or (ledger_next_stage l) LedgerAlreadyComplete;
  _ ← reject_if (negb (bool_decide (expected = stage))) (LedgerUnexpectedStage expected stage);
  Ok ({[stage]} ∪ l).

Fixpoint complete_all (stages : list BootstrapStage) (l : BootstrapLedger) : result BootstrapError BootstrapLedger :=
  match stages with
  | [] => Ok l
  | stage :: stages => l ← complete_next stage l; complete_all stages l
  end.
Definition from_completed_prefix (stages : list BootstrapStage) : result BootstrapError BootstrapLedger :=
  complete_all stages ∅.

Definition is_completed (l : BootstrapLedger) (stage : BootstrapStage) : bool := bool_decide (stage ∈ l).
Definition is_complete (l : BootstrapLedger) : bool := (size l =? length ORDERED)%nat.

(** [zip] and [find_map]: the first stage that is not where it belongs. *)
Fixpoint first_misplaced (actual canonical : list BootstrapStage) : option BootstrapStage :=
  match actual, canonical with
  | a :: actual, e :: canonical => if bool_decide (a = e) then first_misplaced actual canonical else Some a
  | _, _ => None
  end.

Definition validate_prefix (l : BootstrapLedger) : result BootstrapError unit :=
  let canonical := take (size l) ORDERED in
  let actual := filter (λ stage, stage ∈ l) ORDERED in
  if bool_decide (actual = canonical) then Ok tt
  else
    Err (OutOfOrder
      (match first_misplaced actual canonical with
       | Some stage => stage
       | None => match List.find (is_completed l) ORDERED with
                 | Some stage => stage
                 | None => BaseEnvironmentVerification
                 end
       end)).

(** ** Recovery evidence *)
Record RecoveryCheckpointEvidence := {
  re_session_id : string;
  re_plan_id : string;
  re_checkpoint_id : string;
  re_checkpoint_sha256 : string;
  re_checkpoint_size : Z;
  re_restored_copy_sha256 : string;
  re_producer_identity : string;
  re_restore_receipt_sha256 : string;
  re_native_recovery_identity : string;
}.

Definition recovery_validate_sha256 (value : string) : result BootstrapError unit :=
  reject_if (negb (sha256_text value)) InvalidCheckpointDigest.

Definition recovery_validate_binding (e : RecoveryCheckpointEvidence) (session_id plan_id : string) :
    result BootstrapError unit :=
  _ ← reject_if (negb (bool_decide (re_session_id e = session_id)) || negb (bool_decide (re_plan_id e = plan_id)))
        RecoveryBindingMismatch;
  _ ← reject_if (negb (bool_decide (re_producer_identity e = V09_RECOVERY_PRODUCER_ID))) RecoveryProducerMismatch;
  _ ← recovery_validate_sha256 (re_restore_receipt_sha256 e);
  reject_if (negb (bool_decide (re_checkpoint_sha256 e = re_restored_copy_sha256 e)) || (re_checkpoint_size e =? 0)%Z)
    RecoveryRestoreMismatch.

Record FirstBootReadiness := {
  fr_ledger : BootstrapLedger;
  fr_security_policy : AdoptionSecurityPolicy;
  fr_recovery : RecoveryCheckpointEvidence;
}.

(** The loop over the stages before the last. *)
Fixpoint require_stages (l : BootstrapLedger) (stages : list BootstrapStage) : result BootstrapError unit :=
  match stages with
  | [] => Ok tt
  | required :: stages =>
      if bool_decide (required = FirstBootReady) then Ok tt
      else _ ← reject_if (negb (is_completed l required)) (MissingPrerequisite required);
           require_stages l stages
  end.

Definition FirstBootReadiness_validate (r : FirstBootReadiness) (session_id plan_id : string) :
    result BootstrapError unit :=
  _ ← validate_prefix (fr_ledger r);
  _ ← require_stages (fr_ledger r) ORDERED;
  _ ← AdoptionSecurityPolicy_validate (fr_security_policy r);
  recovery_validate_binding (fr_recovery r) session_id plan_id.

(** ** Names *)
Definition normalize_required (label value : string) : result BootstrapError string :=
  let trimmed := str_trim value in
  _ ← reject_if (bool_decide (trimmed = "") || has_control trimmed || (4096 <? str_len trimmed)%Z)
        (InvalidField label);
  Ok trimmed.

Definition checkpoint_byte (n : N) : bool :=
  ((48 <=? n) && (n <=? 57) || (65 <=? n) && (n <=? 90) || (97 <=? n) && (n <=? 122)
   || (n =? 45) || (n =? 95) || (n =? 46) || (n =? 58))%N.
Definition normalize_checkpoint_id (value : string) : result BootstrapError string :=
  let trimmed := str_trim value in
  _ ← reject_if (bool_decide (trimmed = "") || (128 <? str_len trimmed)%Z || str_contains ".." trimmed
                 || negb (forallb checkpoint_byte (codes trimmed))) InvalidCheckpointId;
  Ok trimmed.

(** ** Files of the producer *)
Abbreviation Recovering := (IO BootstrapError).
Definition rio {A} (m : IO IoError A) : Recovering A := io_map_err RecoveryIo m.

Definition recovery_regular_file (path : Path) : Recovering Path :=
  metadata ← rio (symlink_metadata path);
  _ ← io_lift (reject_if (is_symlink metadata || negb (is_file metadata)) RecoveryArtifactNotRegular);
  rio (canonicalize path).

Definition unprotected (require_root_owner : bool) (m : Metadata) : bool :=
  require_root_owner && negb (m_uid m =? 0)%Z || mode_has group_or_other_write m.
Definition untrusted_path (path : Path) : BootstrapError := RecoveryProducerPathUntrusted (to_string_lossy path).

Definition verified_trusted_directory (path : Path) (require_root_owner : bool) : Recovering Path :=
  metadata ← rio (symlink_metadata path);
  _ ← io_lift (reject_if (is_symlink metadata || negb (is_dir metadata) || unprotected require_root_owner metadata)
        (untrusted_path path));
  rio (canonicalize path).

(** [path.parent() == Some(root)]. *)
Definition has_parent (path root : Path) : bool :=
  match parent path with Some p => path_eqb p root | None => false end.

Definition verified_trusted_child_directory (root : Path) (name : string) (require_root_owner : bool) :
    Recovering Path :=
  child ← verified_trusted_directory (join root name) require_root_owner;
  _ ← io_lift (reject_if (negb (has_parent child root)) (untrusted_path child));
  mret child.

Definition verified_trusted_regular_file (path expected_parent : Path) (require_root_owner : bool) :
    Recovering Path :=
  metadata ← rio (symlink_metadata path);
  _ ← io_lift (reject_if (is_symlink metadata || negb (is_file metadata) || unprotected require_root_owner metadata)
        (untrusted_path path));
  canonical ← rio (canonicalize path);
  _ ← io_lift (reject_if (negb (has_parent canonical expected_parent)) (untrusted_path canonical));
  mret canonical.

Definition require_exact_recovery_path (label : string) (supplied expected : Path) : Recovering unit :=
  supplied ← recovery_regular_file supplied;
  io_lift (reject_if (negb (path_eqb supplied expected)) (RecoveryArtifactPathMismatch label)).

Definition any_execute : Z := 73 (* 0o111 *).
Definition verify_native_recovery_program (path : Path) : Recovering unit :=
  metadata ← rio (symlink_metadata path);
  io_lift (reject_if (is_symlink metadata || negb (is_file metadata) || negb (m_uid metadata =? 0)%Z
                      || negb (mode_has any_execute metadata)) (NativeRecoveryUnavailable (to_string_lossy path))).

(** ** The receipt *)
Record TrustedRestoreReceipt := {
  tr_session_id : string;
  tr_plan_id : string;
  tr_checkpoint_id : string;
  tr_checkpoint_sha256 : string;
  tr_restored_sha256 : string;
}.

(** The value of the next line, and the lines after it. *)
Definition restore_field (lines : list string) (key : string) : result BootstrapError (string * list string) :=
  match lines with
  | [] => Err RecoveryReceiptInvalid
  | line :: rest =>
      value ← ok_or (strip_prefix (key +:+ "=") line) RecoveryReceiptInvalid;
      _ ← reject_if (bool_decide (value = "") || (4096 <? str_len value)%Z || has_control value)
            RecoveryReceiptInvalid;
      Ok (value, rest)
  end.

Definition parse_restore_receipt (bytes : string) : result BootstrapError TrustedRestoreReceipt :=
  _ ← reject_if (negb (utf8_valid bytes)) RecoveryReceiptInvalid;
  '(schema, l) ← restore_field (lines bytes) "schema";
  '(producer, l) ← restore_field l "producer";
  '(session_id, l) ← restore_field l "session_id";
  '(plan_id, l) ← restore_field l "plan_id";
  '(checkpoint_id, l) ← restore_field l "checkpoint_id";
  '(checkpoint_sha256, l) ← restore_field l "checkpoint_sha256";
  '(restored_sha256, l) ← restore_field l "restored_sha256";
  '(answer, l) ← restore_field l "result";
  _ ← reject_if (match l with [] => false | _ => true end
                 || negb (bool_decide (schema = V09_RECOVERY_RECEIPT_SCHEMA))
                 || negb (bool_decide (producer = V09_RECOVERY_PRODUCER_ID))
                 || negb (bool_decide (answer = "restored"))) RecoveryReceiptInvalid;
  _ ← recovery_validate_sha256 checkpoint_sha256;
  _ ← recovery_validate_sha256 restored_sha256;
  Ok {| tr_session_id := session_id; tr_plan_id := plan_id; tr_checkpoint_id := checkpoint_id;
        tr_checkpoint_sha256 := checkpoint_sha256; tr_restored_sha256 := restored_sha256 |}.

Section verifying.
Context `{Crypto}.

(** The loop of reads: what was read so far, and how much of it. *)
Definition RECOVERY_BUFFER_BYTES : nat := N.to_nat (64 * 1024).
Fixpoint hash_from (rounds : nat) (file : File) (offset : nat) (hashed : string) (total : Z) :
    Recovering (string * Z) :=
  match rounds with
  | O => io_stop
  | S rounds =>
      buffer ← rio (read_at file offset RECOVERY_BUFFER_BYTES);
      if (String.length buffer =? 0)%nat then mret (sha256_hex hashed, total)
      else
        total ← io_lift (ok_or (u64_checked_add total (str_len buffer)) RecoveryArtifactTooLarge);
        hash_from rounds file (offset + String.length buffer) (hashed +:+ buffer) total
  end.

Definition sha256_file (path : Path) : Recovering (string * Z) :=
  file ← rio (open_file (read_only false) path);
  rounds ← io_env patience;
  hash_from rounds file 0 "" 0.

Definition verify_v09_from_trusted_root (session_id plan_id checkpoint_id : string)
    (checkpoint_path restored_copy_path : Path) (expected_sha256 : string) (producer : Path)
    (require_root_owner : bool) : Recovering RecoveryCheckpointEvidence :=
  session_id ← io_lift (normalize_required "First Boot session id" session_id);
  plan_id ← io_lift (normalize_required "plan id" plan_id);
  checkpoint_id ← io_lift (normalize_checkpoint_id checkpoint_id);
  _ ← io_lift (recovery_validate_sha256 expected_sha256);
  _ ← verify_native_recovery_program V09_NATIVE_RECOVERY_SHELL;
  _ ← verify_native_recovery_program V09_NATIVE_RECOVERY_PACKAGE_MANAGER;
  root ← verified_trusted_directory producer require_root_owner;
  checkpoint_root ← verified_trusted_child_directory root "checkpoints" require_root_owner;
  restored_root ← verified_trusted_child_directory root "restored" require_root_owner;
  receipt_root ← verified_trusted_child_directory root "receipts" require_root_owner;
  expected_checkpoint ← verified_trusted_regular_file (join checkpoint_root (checkpoint_id +:+ ".bin"))
    checkpoint_root require_root_owner;
  expected_restored ← verified_trusted_regular_file (join restored_root (checkpoint_id +:+ ".bin"))
    restored_root require_root_owner;
  receipt_path ← verified_trusted_regular_file (join receipt_root (checkpoint_id +:+ ".receipt"))
    receipt_root require_root_owner;
  _ ← require_exact_recovery_path "checkpoint" checkpoint_path expected_checkpoint;
  _ ← require_exact_recovery_path "restored copy" restored_copy_path expected_restored;
  checkpoint_metadata ← rio (metadata expected_checkpoint);
  restored_metadata ← rio (metadata expected_restored);
  _ ← io_lift (reject_if (path_eqb expected_checkpoint expected_restored
                          || (m_dev checkpoint_metadata =? m_dev restored_metadata)%Z
                             && (m_ino checkpoint_metadata =? m_ino restored_metadata)%Z)
        RecoveryRestoreNotIndependent);
  receipt_bytes ← rio (read_file receipt_path);
  receipt ← io_lift (parse_restore_receipt receipt_bytes);
  _ ← io_lift (reject_if (negb (bool_decide (tr_session_id receipt = session_id))
                          || negb (bool_decide (tr_plan_id receipt = plan_id))
                          || negb (bool_decide (tr_checkpoint_id receipt = checkpoint_id))
                          || negb (bool_decide (tr_checkpoint_sha256 receipt = expected_sha256)))
        RecoveryReceiptBindingMismatch);
  '(checkpoint_sha256, checkpoint_size) ← sha256_file expected_checkpoint;
  '(restored_copy_sha256, restored_size) ← sha256_file expected_restored;
  _ ← io_lift (reject_if (negb (bool_decide (checkpoint_sha256 = tr_checkpoint_sha256 receipt))
                          || negb (bool_decide (restored_copy_sha256 = tr_restored_sha256 receipt))
                          || negb (bool_decide (restored_copy_sha256 = checkpoint_sha256))
                          || negb (restored_size =? checkpoint_size)%Z || (checkpoint_size =? 0)%Z)
        RecoveryRestoreMismatch);
  mret {| re_session_id := session_id; re_plan_id := plan_id; re_checkpoint_id := checkpoint_id;
          re_checkpoint_sha256 := checkpoint_sha256; re_checkpoint_size := checkpoint_size;
          re_restored_copy_sha256 := restored_copy_sha256; re_producer_identity := V09_RECOVERY_PRODUCER_ID;
          re_restore_receipt_sha256 := sha256_hex receipt_bytes;
          re_native_recovery_identity := V09_NATIVE_RECOVERY_IDENTITY |}.

Definition verify_v09 (session_id plan_id checkpoint_id : string) (checkpoint_path restored_copy_path : Path)
    (expected_sha256 : string) : Recovering RecoveryCheckpointEvidence :=
  verify_v09_from_trusted_root session_id plan_id checkpoint_id checkpoint_path restored_copy_path
    expected_sha256 V09_RECOVERY_EVIDENCE_ROOT true.
End verifying.

(** ** Ledgers are prefixes *)
Definition prefix_ledger (n : nat) : BootstrapLedger := list_to_set (take n ORDERED).

Lemma ORDERED_all stage : stage ∈ ORDERED.
Proof. apply (bool_decide_eq_true_1 (_ ∈ _)). by destruct stage. Qed.

(** What is computed of the thirteen stages. *)
Lemma prefix_next n :
  (n ≤ length ORDERED)%nat → ledger_next_stage (prefix_ledger n) = ORDERED !! n.
Proof.
  intros Hn. apply (bool_decide_eq_true_1 (_ = _)). cbn in Hn.
  do 14 (destruct n as [|n]; [vm_compute; reflexivity|]). lia.
Qed.
Lemma prefix_succ n stage : ORDERED !! n = Some stage → {[stage]} ∪ prefix_ledger n = prefix_ledger (S n).
Proof. intros Hn. unfold prefix_ledger. rewrite (take_S_r _ _ _ Hn), list_to_set_app_L.
  cbn [list_to_set foldr]. by rewrite (right_id_L ∅ (∪)), (comm_L (∪)).
Qed.
Lemma prefix_size n : (n ≤ length ORDERED)%nat → size (prefix_ledger n) = n.
Proof.
  intros Hn. cbn in Hn. do 14 (destruct n as [|n]; [vm_compute; reflexivity|]). lia.
Qed.

Lemma complete_all_prefix stages n l :
  (n ≤ length ORDERED)%nat →
  complete_all stages (prefix_ledger n) = Ok l ↔
  stages `prefix_of` drop n ORDERED ∧ l = prefix_ledger (n + length stages).
Proof.
  revert n. induction stages as [|stage stages IH]; intros n Hn; cbn [complete_all length].
  - rewrite Nat.add_0_r. split; [intros [= <-]; split; [apply prefix_nil|done]|by intros [_ ->]].
  - unfold complete_next. rewrite prefix_next by done.
    destruct (ORDERED !! n) as [expected|] eqn:En; cbn [ok_or mbind result_bind].
    + rewrite (drop_S _ _ _ En). case_bool_decide as Hs; cbn [negb reject_if mbind result_bind].
      * subst expected. rewrite (prefix_succ n stage En), IH by (apply lookup_lt_Some in En; lia).
        rewrite Nat.add_succ_r. split; intros [Hp ->]; (split; [|done]); [by apply prefix_cons|by apply prefix_cons_inv_2 in Hp].
      * split; [done|]. intros [Hp%prefix_cons_inv_1 _]. by subst.
    + split; [done|]. intros [Hp _]. apply lookup_ge_None in En. rewrite drop_ge in Hp by done.
      by apply prefix_nil_not in Hp.
Qed.

(** A ledger is made from the stages of a prefix of the order, and of no others. *)
Lemma from_completed_prefix_exact stages l :
  from_completed_prefix stages = Ok l ↔ stages `prefix_of` ORDERED ∧ l = prefix_ledger (length stages).
Proof. exact (complete_all_prefix stages 0 l (Nat.le_0_l _)). Qed.

Lemma validate_prefix_exact l :
  validate_prefix l = Ok tt ↔ ∃ n, (n ≤ length ORDERED)%nat ∧ l = prefix_ledger n.
Proof.
  unfold validate_prefix. split.
  - case_bool_decide as Hf; [intros _|done].
    assert (l = list_to_set (filter (λ stage, stage ∈ l) ORDERED)) as Hl.
    { apply set_eq. intros x. rewrite elem_of_list_to_set, list_elem_of_filter.
      pose proof (ORDERED_all x). split; [by intros|by intros [? _]]. }
    rewrite Hf in Hl. exists (Nat.min (size l) (length ORDERED)). split; [lia|]. rewrite Hl at 1.
    unfold prefix_ledger. by rewrite <- firstn_firstn, firstn_all.
  - intros (n & Hn & ->). rewrite prefix_size by done. rewrite bool_decide_eq_true_2; [done|].
    apply (bool_decide_eq_true_1 (_ = _)). cbn in Hn. do 14 (destruct n as [|n]; [vm_compute; reflexivity|]). lia.
Qed.

Lemma require_stages_prefix n :
  (n ≤ length ORDERED)%nat → require_stages (prefix_ledger n) ORDERED = Ok tt ↔ (12 ≤ n)%nat.
Proof.
  intros Hn. cbn in Hn. do 14 (destruct n as [|n]; [split; [vm_compute; first [done|lia]|first [lia|by vm_compute]]|]). lia.
Qed.

Lemma policy_exact p : AdoptionSecurityPolicy_validate p = Ok tt ↔ p = AdoptionSecurityPolicy_default.
Proof. unfold AdoptionSecurityPolicy_validate. destruct p as [[] [] []]; split; vm_compute; congruence. Qed.

(** First Boot is ready exactly when the completed stages are all stages,
    or all but the last, the security policy is the fail-closed one, and the
    recovery evidence is of this session and plan. *)
Theorem readiness_exact r session_id plan_id :
  FirstBootReadiness_validate r session_id plan_id = Ok tt ↔
  (fr_ledger r = list_to_set ORDERED ∨ fr_ledger r = list_to_set (take 12 ORDERED)) ∧
  fr_security_policy r = AdoptionSecurityPolicy_default ∧
  recovery_validate_binding (fr_recovery r) session_id plan_id = Ok tt.
Proof.
  unfold FirstBootReadiness_validate. rewrite <- policy_exact. split.
  - intros ([] & (n & Hn & Hl)%validate_prefix_exact & ([] & Hs & ([] & Hp & Hb)%bind_Ok)%bind_Ok)%bind_Ok.
    split; [|done]. rewrite Hl in *. apply require_stages_prefix in Hs; [|done]. cbn in Hn.
    assert (n = 13 ∨ n = 12)%nat as [-> | ->] by lia; [by left|by right].
  - intros (Hl & Hp & Hb). assert (∃ n, 12 ≤ n ≤ length ORDERED ∧ fr_ledger r = prefix_ledger n)%nat as (n & Hn & Hn').
    { destruct Hl as [Hl|Hl]; rewrite Hl; [exists 13%nat|exists 12%nat]; (split; [cbn; lia|done]). }
    rewrite (proj2 (validate_prefix_exact _) (ex_intro _ n (conj (proj2 Hn) Hn'))). cbn [mbind result_bind].
    rewrite Hn', (proj2 (require_stages_prefix n (proj2 Hn)) (proj1 Hn)). cbn [mbind result_bind]. by rewrite Hp.
Qed.

(** ** Evidence is what its consumer asks for *)
Section evidence_binds.
Context `{CryptoLaws}.

(** The evidence that the recovery verifier mints is bound to the session,
    the plan and the digest it was asked about, and is accepted for them when
    First Boot readiness is validated. *)
Theorem recovery_evidence_binds session_id plan_id checkpoint_id checkpoint restored expected env w w' e :
  verify_v09 session_id plan_id checkpoint_id checkpoint restored expected env w = (w', Some (Ok e)) →
  re_checkpoint_id e = str_trim checkpoint_id ∧ re_checkpoint_sha256 e = expected ∧
  recovery_validate_binding e (str_trim session_id) (str_trim plan_id) = Ok tt.
Proof.
  unfold verify_v09, verify_v09_from_trusted_root. intros E.
  apply io_bind_Ok in E as (w1 & s & Hs & E). apply io_lift_Ok in Hs as [-> Hs].
  apply io_bind_Ok in E as (w2 & p & Hp & E). apply io_lift_Ok in Hp as [-> Hp].
  apply io_bind_Ok in E as (w3 & c & Hc & E). apply io_lift_Ok in Hc as [-> Hc].
  apply bind_Ok in Hs as ([] & _ & [= <-]). apply bind_Ok in Hp as ([] & _ & [= <-]).
  apply bind_Ok in Hc as ([] & _ & [= <-]). io_inv.
  repeat (match goal with x : (_ * _)%type |- _ => destruct x end; io_inv). injection E as _ <-. cbn.
  repeat match goal with E : (_ || _) = false |- _ => apply orb_false_iff in E as [? ?] end.
  repeat match goal with
  | E : negb _ = false |- _ => apply negb_false_iff in E
  | E : bool_decide _ = true |- _ => apply bool_decide_eq_true in E
  end.
  unfold recovery_validate_binding. cbn. rewrite !bool_decide_eq_true_2 by congruence. cbn.
  unfold recovery_validate_sha256. rewrite sha256_hex_text. cbn.
  split_and!; [done|congruence|by apply reject_if_Ok].
Qed.
End evidence_binds.
