(* ===== verification/BootstrapWitnesses.v ===== *)
(** * The theorems about the bootstrap, applied

    A run of the state machine through every stage up to an enrolled owner; a
    machine on which a bootstrap store is opened for the first time, written and
    opened again, and whose security baseline is verified; the order of events
    in which a power loss makes a ledger and its anchor disagree; a recovery
    checkpoint. *)

From Stdlib Require Import ZArith Lia Ascii.
From stdpp Require Import base numbers gmap strings list fin_maps sorting relations.
From S2P Require Import Prelude Text Fields Digest CryptoModel Paths Files ControlFiles FileFacts ControlFacts.
From S2P Require Import UpdateEvidence BootstrapState BootstrapText BootstrapStore BootstrapBaseline.
From S2P Require Import BootstrapFacts BootstrapDisk BootstrapRecovery.
From S2P Require Import UpdateWitnesses MigrationWitnesses.

Set Default Goal Selector "!".

(** ** A run of the state machine *)
Inductive Move :=
| Prepare (stage : BootstrapStage)
| Start
| Finish
| Select (mode : ProvisioningMode)
| BindPlan
| Enroll
| Verify.

Definition sample_digest : string := sha256_hex "observed".

Definition receipt_of (s : DurableBootstrapState) : TrustedOwnerEnrollmentReceipt :=
  {| or_session_id := bs_session_id s; or_machine_id := bs_machine_id s; or_owner_id := "owner-1";
     or_enrollment_id := "enrollment-1"; or_issued_unix_ms := 1; or_receipt_sha256 := sample_digest |}.
Definition evidence_of (s : DurableBootstrapState) (a : ActiveBootstrapStage) : BootstrapVerificationEvidence :=
  {| be_stage := as_stage a; be_operation_id := as_operation_id a; be_session_id := bs_session_id s;
     be_machine_id := bs_machine_id s; be_verifier_id := "verifier"; be_observation_id := "observation";
     be_postcondition_sha256 := sample_digest; be_observed_unix_ms := 1700000000000 |}.

Definition moved (m : Move) (s : DurableBootstrapState) : result DurableBootstrapError DurableBootstrapState :=
  match m with
  | Prepare stage => prepare_stage s stage "operation-1"
  | Start => mark_effect_started s "operation-1"
  | Finish =>
      a ← ok_or (bs_active s) NoActiveStage;
      _ ← reject_if (stage_requires_effect_boundary (as_stage a)) NoActiveStage;
      complete_verified s "operation-1"
  | Select mode => select_provisioning s mode None
  | BindPlan => bind_first_boot_plan s sample_digest 0
  | Enroll => enroll_owner_fresh s "owner-1" "enrollment-1"
  | Verify =>
      a ← ok_or (bs_active s) NoActiveStage;
      _ ← reject_if (negb (stage_requires_effect_boundary (as_stage a))
                     || negb (bool_decide (as_effect_state a = EffectStarted))
                     || negb (evidence_bound (evidence_of s a) a (bs_session_id s) (bs_machine_id s)))
            NoActiveStage;
      record_evidence s a (evidence_of s a)
  end.

Lemma moved_transition m s c : moved m s = Ok c → transition s c.
Proof.
  destruct m; cbn; intros Hc.
  - by eapply t_prepare.
  - by eapply t_mark.
  - apply bind_Ok in Hc as (a & Ha%ok_or_Ok & ([] & Hb%reject_if_Ok & Hc)%bind_Ok). by eapply t_complete.
  - by eapply t_select.
  - by eapply t_bind.
  - by apply (t_enroll s (receipt_of s)).
  - apply bind_Ok in Hc as (a & Ha%ok_or_Ok & ([] & Hb%reject_if_Ok & Hc)%bind_Ok).
    rewrite !orb_false_iff, !negb_false_iff, bool_decide_eq_true in Hb. destruct Hb as [[Hb1 Hb2] Hb3].
    by eapply t_evidence.
Qed.

Definition committed_move (m : Move) (s : DurableBootstrapState) : result DurableBootstrapError DurableBootstrapState :=
  c ← moved m s;
  _ ← reject_if (u64_max <? bs_generation s + 1)%Z BootGenerationOverflow;
  validated (with_generation (bs_generation s + 1) c).

Lemma committed_step m s s' : committed_move m s = Ok s' → step s s'.
Proof.
  unfold committed_move. intros (c & Hc%moved_transition & ([] & Hg%reject_if_Ok & Hv)%bind_Ok)%bind_Ok.
  apply Z.ltb_ge in Hg. unfold validated in Hv. apply bind_Ok in Hv as ([] & Hv & [= <-]). by exists c.
Qed.

Fixpoint played (ms : list Move) (s : DurableBootstrapState) : result DurableBootstrapError DurableBootstrapState :=
  match ms with
  | [] => Ok s
  | m :: ms => s ← committed_move m s; played ms s
  end.

Lemma played_steps ms s s' : played ms s = Ok s' → rtc step s s'.
Proof.
  revert s. induction ms as [|m ms IH]; intros s; cbn; [intros [= ->]; constructor|].
  intros (s1 & H1%committed_step & H2)%bind_Ok. eapply rtc_l; [exact H1|by apply IH].
Qed.

(** The stages up to the enrollment of the owner, who is at the machine. *)
Definition plain_stage (stage : BootstrapStage) (inner : list Move) : list Move := Prepare stage :: inner ++ [Finish].
Definition effect_stage (stage : BootstrapStage) (inner : list Move) : list Move :=
  Prepare stage :: Start :: inner ++ [Verify].
Definition to_the_owner : list Move :=
  plain_stage BaseEnvironmentVerification [] ++ effect_stage LinuraInstallation []
  ++ effect_stage PersistentStateInitialization [] ++ effect_stage SecurityBaseline []
  ++ plain_stage ProvisioningModeSelection [Select InteractiveOwner]
  ++ effect_stage BootstrapConnectivityResolution [] ++ plain_stage HardwareDiscovery []
  ++ plain_stage SourceSelection [] ++ plain_stage TargetObservation []
  ++ plain_stage FirstBootPlanning [BindPlan] ++ effect_stage RecoveryCheckpoint []
  ++ [Prepare OwnerEnrollmentResolution; Start; Enroll].

Definition blank_state : DurableBootstrapState :=
  {| bs_generation := 0; bs_session_id := "session-1"; bs_machine_id := "machine-1"; bs_completed := [];
     bs_effect_verifications := []; bs_active := None; bs_provisioning := ProvisioningState_default |}.

Lemma blank_new : DurableBootstrapState_new "session-1" "machine-1" = Ok blank_state.
Proof. vm_compute. reflexivity. Qed.

Definition ran (ms : list Move) : DurableBootstrapState :=
  match played ms blank_state with Ok s => s | Err _ => blank_state end.

Definition enrolled_state : DurableBootstrapState := ran to_the_owner.
Definition ready_state : DurableBootstrapState :=
  ran (to_the_owner ++ [Verify] ++ plain_stage FirstBootReady []).

Lemma enrolled_played : played to_the_owner blank_state = Ok enrolled_state.
Proof. vm_compute. reflexivity. Qed.
Lemma ready_played : played ([Verify] ++ plain_stage FirstBootReady []) enrolled_state = Ok ready_state.
Proof. vm_compute. reflexivity. Qed.

Definition sample_owner : OwnerAuthorityRecord :=
  {| oa_owner_id := "owner-1"; oa_enrollment_id := "enrollment-1"; oa_generation := 1 |}.

(** The whole bootstrap: all stages, and six verified effects. *)
Lemma effects_complete_on_evidence_witness :
  bs_completed ready_state = ORDERED ∧
  Forall (λ v, started blank_state ready_state (ce_stage v) (ce_operation_id v)) (bs_effect_verifications ready_state) ∧
  length (bs_effect_verifications ready_state) = 6%nat.
Proof.
  destruct (effects_complete_on_evidence "session-1" "machine-1" blank_state ready_state blank_new
    (transitivity (played_steps _ _ _ enrolled_played) (played_steps _ _ _ ready_played)))
    as (_ & _ & Hv).
  split; [vm_compute; reflexivity|]. split; [exact Hv|vm_compute; reflexivity].
Defined.

(** The owner enrolled before the end is the owner at the end. *)
Lemma owner_authority_minted_once_witness :
  pr_owner_authority (bs_provisioning enrolled_state) = Some sample_owner ∧
  owner_part ready_state = (Enrolled, Some sample_owner, 1%Z, true).
Proof.
  split; [vm_compute; reflexivity|].
  refine (proj1 (owner_authority_minted_once "session-1" "machine-1" blank_state enrolled_state ready_state
    sample_owner blank_new (played_steps _ _ _ enrolled_played) (played_steps _ _ _ ready_played) _)).
  vm_compute. reflexivity.
Defined.

Definition enrolled_provisioning : ProvisioningState :=
  with_owner Enrolled (Some sample_owner) 1 true
    (with_plan (Some sample_digest) 0 (with_mode (Some InteractiveOwner) ProvisioningState_default)).
Lemma enrolled_provisioning_eq : bs_provisioning enrolled_state = enrolled_provisioning.
Proof. vm_compute. reflexivity. Qed.

Lemma enrolled_shape : state_shape enrolled_state.
Proof.
  split; [vm_compute; reflexivity|by vm_compute| |].
  - eapply (Forall_impl (λ v, ce_observed_unix_ms v = 1700000000000%Z)); [|by intros v ->].
    apply (bool_decide_eq_true_1 (Forall _ _)). vm_compute. reflexivity.
  - rewrite enrolled_provisioning_eq. split; cbn; try discriminate; [done..|].
    intros o [= <-]. split_and!; [split; [done|]..|done|done]; intros label; vm_compute; reflexivity.
Qed.

(** A state in the middle of the enrollment, through its text. *)
Lemma bootstrap_state_roundtrip_witness :
  state_shape enrolled_state ∧ parse_state (serialize_state enrolled_state) = Ok enrolled_state.
Proof.
  split; [exact enrolled_shape|].
  apply (proj1 (bootstrap_state_roundtrip enrolled_state "") enrolled_shape).
  assert (as_operation_id <$> bs_active enrolled_state = Some "operation-1"%string) as Ha by (vm_compute; reflexivity).
  intros a Ea. rewrite Ea in Ha. injection Ha as ->. discriminate.
Defined.

(** ** A machine *)
Definition tab : string := String "009"%char "".
#[local] Instance sample_host : Host :=
  {| proc_self_status := "Name:" +:+ tab +:+ "firstboot" +:+ String "010"%char ""
       +:+ "Uid:" +:+ tab +:+ "0" +:+ tab +:+ "0" +:+ tab +:+ "0" +:+ tab +:+ "0" +:+ String "010"%char "";
     etc_machine_id := "4c4c4544" +:+ String "010"%char "";
     dmi_product_uuid := "11f7-22" +:+ String "010"%char "" |}.

Definition newline : string := String "010"%char "".
Definition gone {A} : result IoError A := Err enoent.
Definition printing (text : string) : result IoError Output := Ok {| out_success := true; out_stdout := text |}.

Definition sample_ruleset : string :=
  "table inet filter {" +:+ newline +:+ "chain input {" +:+ newline
  +:+ "type filter hook input priority 0; policy drop;" +:+ newline
  +:+ "ct state { established, related } accept" +:+ newline
  +:+ "log prefix " +:+ String QUOTE "" +:+ "chain x { policy accept" +:+ String QUOTE "" +:+ newline +:+ "}"
  +:+ newline +:+ "chain output { type filter hook output priority 0; policy accept; }" +:+ newline +:+ "}".

Definition sample_command (program : string) (args : list string) : result IoError Output :=
  match program, args with
  | "nft", _ => printing sample_ruleset
  | _, "list-unit-files" :: _ => printing ("cron.service enabled enabled" +:+ newline)
  | _, "list-units" :: _ => printing ("cron.service loaded active running Regular jobs" +:+ newline)
  | _, _ => printing ("Id=cron.service" +:+ newline +:+ "ActiveState=active" +:+ newline)
  end%string.

Definition sample_file (path : Path) : result IoError string :=
  match path with
  | "/proc/net/tcp" => Ok ("sl local rem st" +:+ newline
      +:+ "0: 0100007F:0277 00000000:0000 0A 00000000:00000000 00:00000000 00000000 0 0 777 1" +:+ newline)
  | "/proc/1/comm" => Ok ("systemd" +:+ newline)
  | "/etc/apt/sources.list" => Ok ("deb [signed-by=/k.gpg] https://archive.example stable main" +:+ newline)
  | _ => gone
  end%string.

#[local] Instance sample_observer : Observer :=
  {| obs_command := λ _, sample_command;
     obs_file := λ _, sample_file;
     obs_directory := λ _ path, if bool_decide (path = "/proc") then Ok [Ok "1"; Ok "self"] else gone;
     obs_link := λ _ _, gone;
     obs_exists := λ _ path, bool_decide (path = APT_SOURCES);
     obs_is_file := λ _ _, true |}.

(** A file system of directories, each numbered by its place in the list. *)
Definition dirs_fs (ds : list Key) : FS :=
  {| fs_entries := list_to_map (imap (λ i k, (k, dir_entry i)) ds);
     fs_inodes := list_to_map (imap (λ i _, (i, dir_inode (Z.of_nat i + 1))) ds);
     fs_next := length ds |}.

Section directories.
Context (ds : list Key).

Lemma dirs_entry_inv k : entry_at (dirs_fs ds) k = no_entry ∨ ∃ i, ds !! i = Some k ∧ entry_at (dirs_fs ds) k = dir_entry i.
Proof.
  unfold entry_at. destruct (fs_entries (dirs_fs ds) !! k) as [e|] eqn:E; [right|by left].
  apply elem_of_list_to_map_2, elem_of_lookup_imap in E as (i & k' & [= <- ->] & Hk). eauto.
Qed.

Lemma dirs_inode i k : ds !! i = Some k → fs_inodes (dirs_fs ds) !! i = Some (dir_inode (Z.of_nat i + 1)).
Proof.
  intros Hi. cbn [fs_inodes dirs_fs]. apply elem_of_list_to_map_1'.
  - intros x (j & k' & [= <- ->] & Hk)%elem_of_lookup_imap. done.
  - apply elem_of_lookup_imap. eauto.
Qed.

Lemma dirs_wf : fs_wf (dirs_fs ds).
Proof.
  split.
  - intros k id Hid. destruct (dirs_entry_inv k) as [E|(i & Hi & E)]; rewrite E in Hid; cbn in Hid.
    + by apply list_elem_of_singleton in Hid.
    + apply list_elem_of_singleton in Hid as [= ->]. exact (mk_is_Some _ _ (dirs_inode i k Hi)).
  - intros id [x (i & k & [= <- ->] & Hk)%elem_of_list_to_map_2%elem_of_lookup_imap].
    by eapply lookup_lt_Some.
Qed.

Lemma dirs_settled k : is_Some (fs_entries (dirs_fs ds) !! k) → settled_dir (dirs_fs ds) k.
Proof.
  intros [e He]. destruct (dirs_entry_inv k) as [E|(i & Hi & E)].
  - exfalso. unfold entry_at in E. rewrite He in E. cbn in E. subst e.
    by apply elem_of_list_to_map_2, elem_of_lookup_imap in He as (? & ? & [=] & _).
  - exists i. eexists. split; [exact E|]. split; [exact (dirs_inode i k Hi)|done].
Qed.

(** An empty place in a directory whose parents are there too. *)
Lemma dirs_place d n :
  forallb (λ i, bool_decide (is_Some (fs_entries (dirs_fs ds) !! take i d))) (seq 0 (S (length d))) = true →
  fs_entries (dirs_fs ds) !! (d ++ [n]) = None →
  place d n [None] (dirs_fs ds).
Proof.
  rewrite forallb_forall. intros Hd Hn. split; [split; [exact dirs_wf|]|].
  - intros k [k' ->]. apply dirs_settled, (bool_decide_eq_true_1 (is_Some _)).
    specialize (Hd (length k)). rewrite (take_app_length k k') in Hd. apply Hd, in_seq. rewrite length_app. lia.
  - assert (entry_at (dirs_fs ds) (d ++ [n]) = no_entry) as E by exact (f_equal (default no_entry) Hn).
    unfold views. by rewrite E.
Qed.
End directories.

Definition boot_dir : Key := ["srv"].
Definition boot_path : Path := "/srv/bootstrap".
Definition anchor_dir : Key :=
  ["var"; "lib"; "linura"; "bootstrap-anchors"; sha256_hex ("4c4c4544" +:+ String "000"%char "" +:+ "11f7-22")]%string.
Definition anchor_name : string := sha256_hex boot_path +:+ ".generation".
Definition anchor_path : Path := "/var/lib/linura/bootstrap-anchors/" +:+ default "" (last anchor_dir) +:+ "/" +:+ anchor_name.

Definition boot_fs : FS :=
  dirs_fs ([[]; boot_dir] ++ ((λ i, take i anchor_dir) <$> [1; 2; 3; 4; 5]))%nat.

Lemma boot_located : located boot_path boot_dir "bootstrap".
Proof. split; [done|]. by repeat constructor. Qed.
Lemma anchor_located : located anchor_path anchor_dir anchor_name.
Proof.
  split; [vm_compute; reflexivity|]. repeat constructor; vm_compute; try done; intros ?; done.
Qed.
Lemma anchor_found : anchor_path_of boot_path = Ok anchor_path.
Proof. vm_compute. reflexivity. Qed.
Lemma boot_apart : ¬ boot_dir `prefix_of` anchor_dir.
Proof. by intros [k [=]]. Qed.
Lemma anchor_apart : ¬ anchor_dir `prefix_of` boot_dir.
Proof. by intros [k [=]]. Qed.

Abbreviation boot_disk := (disk boot_dir anchor_dir "bootstrap" anchor_name).

Lemma boot_empty : boot_disk [None] [None] boot_fs.
Proof.
  split; exists [None]; (split; [|by repeat constructor]); apply dirs_place; vm_compute; reflexivity.
Qed.

(** Opened for the first time, then the first stage prepared. *)
Definition opening (env : FsEnv) (fs : FS) : World * option (result DurableBootstrapError DurableBootstrapCoordinator) :=
  coordinator_open boot_path "session-1" "machine-1" env {| w_fs := fs; w_calls := 0 |}.
Definition first_opening := opening calm_env boot_fs.

Definition first_candidate : DurableBootstrapState :=
  with_active (Some {| as_stage := BaseEnvironmentVerification; as_operation_id := "operation-1";
                       as_effect_state := PreparedStage |}) blank_state.
Definition first_prepared : DurableBootstrapState := with_generation 1 first_candidate.

Definition first_op (co : DurableBootstrapCoordinator) (env : FsEnv) (w : World) :=
  perform (OpPrepareStage BaseEnvironmentVerification "operation-1") co env w.

(** What is computed of it, as a boolean. *)
Definition first_check (x : World * option (result DurableBootstrapError DurableBootstrapCoordinator)) : bool :=
  match x with
  | (w, Some (Ok co)) =>
      bool_decide (bc_state co = blank_state) &&
      match first_op co calm_env w, bootstrap_commit first_candidate co calm_env w with
      | (_, Some (co1, Ok _)), (_, Some (co2, Ok _)) => bool_decide (bc_state co1 = first_prepared)
      | _, _ => false
      end
  | _ => false
  end.

Lemma first_checked : first_check first_opening = true.
Proof. vm_compute. reflexivity. Qed.

Lemma first_check_spec x :
  first_check x = true →
  ∃ w co w1 co1 w2 co2, x = (w, Some (Ok co)) ∧ bc_state co = blank_state ∧
    first_op co calm_env w = (w1, Some (co1, Ok tt)) ∧ bc_state co1 = first_prepared ∧
    bootstrap_commit first_candidate co calm_env w = (w2, Some (co2, Ok tt)).
Proof.
  unfold first_check. destruct x as [w [[co|]|]]; [|done..]. rewrite andb_true_iff, bool_decide_eq_true.
  intros [Hs Hx]. exists w, co. destruct (first_op co calm_env w) as [w1 [[co1 [[]|]]|]]; [|done..].
  destruct (bootstrap_commit first_candidate co calm_env w) as [w2 [[co2 [[]|]]|]]; [|done..].
  apply bool_decide_eq_true in Hx. by exists w1, co1, w2, co2.
Qed.

(** Where the store is after the first opening. *)
Lemma first_opened_disk w co :
  first_opening = (w, Some (Ok co)) →
  bc_store co = boot_path ∧ boot_disk [Some (bc_state co)] [Some (anchor_committed (bc_state co))] (w_fs w).
Proof.
  intros E. pose proof (spec_open_new boot_dir anchor_dir "bootstrap" anchor_name boot_path anchor_path
    boot_located anchor_located boot_apart anchor_apart calm_env (calm_quiet _) (calm_quiet _) anchor_found
    "session-1" "machine-1" {| w_fs := boot_fs; w_calls := 0 |} boot_empty) as Ho.
  unfold first_opening, opening in E. rewrite E in Ho. exact Ho.
Qed.

Lemma prepared_ok : state_ok first_prepared.
Proof.
  split; [split; [vm_compute; reflexivity|by vm_compute|constructor|by split; cbn; try discriminate]|].
  by intros a [= <-].
Qed.

Lemma first_readable : readable (OpPrepareStage BaseEnvironmentVerification "operation-1").
Proof. done. Qed.
Lemma calm_clock k : (0 ≤ (clock calm_env k).2)%Z.
Proof. by vm_compute. Qed.

(** The power loss after which a name of the store is as it was before its last
    unsynchronised changes. *)
Abbreviation ledger_key := (boot_dir ++ ["bootstrap"%string]).
Abbreviation anchor_key := (anchor_dir ++ [anchor_name]).

(** The first operation on a new store. *)
Lemma bootstrap_operations_refine_machine_witness :
  ∃ w co w1 co1, first_opening = (w, Some (Ok co)) ∧ first_op co calm_env w = (w1, Some (co1, Ok tt)) ∧
    bc_state co1 = first_prepared ∧
    boot_disk [Some first_prepared] [Some (anchor_committed first_prepared)] (w_fs w1).
Proof.
  destruct (first_check_spec _ first_checked) as (w & co & w1 & co1 & w2 & co2 & Ho & Hs & H1 & Hs1 & H2).
  exists w, co, w1, co1. split; [exact Ho|]. split; [exact H1|]. split; [exact Hs1|].
  destruct (first_opened_disk w co Ho) as [Hst Hd].
  destruct (bootstrap_operations_refine_machine boot_dir anchor_dir "bootstrap" anchor_name boot_path anchor_path
    boot_located anchor_located boot_apart anchor_apart calm_env (calm_quiet _) (calm_quiet _) anchor_found
    (OpPrepareStage BaseEnvironmentVerification "operation-1") (bc_state co) [] _ [] co w w1 _
    calm_clock first_readable Hst Hd H1) as (_ & _ & _ & _ & _ & Hdisk).
  rewrite Hs1 in Hdisk. exact Hdisk.
Defined.

(** Its commit, and the power loss after it. *)
Lemma commit_survives_power_loss_witness :
  ∃ w co w' co', first_opening = (w, Some (Ok co)) ∧
    bootstrap_commit first_candidate co calm_env w = (w', Some (co', Ok tt)) ∧
    boot_disk [Some first_prepared] [Some (anchor_committed first_prepared)] (lose_name ledger_key (w_fs w')).
Proof.
  destruct (first_check_spec _ first_checked) as (w & co & w1 & co1 & w2 & co2 & Ho & Hs & H1 & Hs1 & H2).
  exists w, co, w2, co2. split; [exact Ho|]. split; [exact H2|].
  destruct (first_opened_disk w co Ho) as [Hst Hd]. rewrite Hs in Hd.
  destruct (commit_survives_power_loss boot_dir anchor_dir "bootstrap" anchor_name boot_path anchor_path
    boot_located anchor_located boot_apart anchor_apart calm_env (calm_quiet _) (calm_quiet _) anchor_found
    blank_state [] _ [] first_candidate co w w2 _ _ Hd Hst (λ _, prepared_ok) H2
    (lose_name_loss ledger_key _)) as (l & y & Hd' & -> & ->).
  exact Hd'.
Defined.

(** The first opening, and the power loss after it. *)
Lemma first_opening_survives_power_loss_witness :
  ∃ w co, first_opening = (w, Some (Ok co)) ∧ bc_state co = blank_state ∧
    boot_disk [Some (bc_state co)] [Some (anchor_committed (bc_state co))] (lose_name anchor_key (w_fs w)).
Proof.
  destruct (first_check_spec _ first_checked) as (w & co & w1 & co1 & w2 & co2 & Ho & Hs & _).
  exists w, co. split; [exact Ho|]. split; [exact Hs|].
  exact (proj2 (first_opening_survives_power_loss boot_dir anchor_dir "bootstrap" anchor_name boot_path anchor_path
    boot_located anchor_located boot_apart anchor_apart calm_env (calm_quiet _) (calm_quiet _) anchor_found
    "session-1" "machine-1" {| w_fs := boot_fs; w_calls := 0 |} w _ _ boot_empty Ho
    (lose_name_loss anchor_key _)) co eq_refl).
Defined.

Definition second_check (x : World * option (result DurableBootstrapError DurableBootstrapCoordinator)) : bool :=
  match x with
  | (w, _) => match opening calm_env (w_fs w) with (_, Some (Ok _)) => true | _ => false end
  end.
Lemma second_checked : second_check first_opening = true.
Proof. vm_compute. reflexivity. Qed.
Lemma second_check_spec w r :
  second_check (w, r) = true → ∃ w' co', opening calm_env (w_fs w) = (w', Some (Ok co')).
Proof. unfold second_check. destruct (opening calm_env (w_fs w)) as [w' [[co'|]|]]; [|done..]. eauto. Qed.

(** The store, opened again. *)
Lemma opening_decided_by_anchor_witness :
  ∃ w co w' co', first_opening = (w, Some (Ok co)) ∧ opening calm_env (w_fs w) = (w', Some (Ok co')) ∧
    bc_state co' = bc_state co.
Proof.
  destruct (first_check_spec _ first_checked) as (w & co & w1 & co1 & w2 & co2 & Ho & _).
  pose proof second_checked as H2. rewrite Ho in H2. destruct (second_check_spec _ _ H2) as (w' & co' & H').
  exists w, co, w', co'. split; [exact Ho|]. split; [exact H'|].
  exact (proj1 (proj2 (proj1 (opening_decided_by_anchor boot_dir anchor_dir "bootstrap" anchor_name boot_path
    anchor_path boot_located anchor_located boot_apart anchor_apart calm_env (calm_quiet _) (calm_quiet _)
    anchor_found "session-1" "machine-1" (bc_state co) [] _ [] {| w_fs := w_fs w; w_calls := 0 |} w' _
    (proj2 (first_opened_disk w co Ho)) H') co' eq_refl))).
Defined.

(** ** An anchor ahead of its ledger

    The process is killed after the rename of the ledger and before the fsync
    of its directory.  The next opening finds the announced ledger, and commits
    the anchor, in another directory, to it; a power loss that keeps the anchor
    and not the rename leaves a ledger that no opening accepts. *)
Definition killed_commit (x : World * option (result DurableBootstrapError DurableBootstrapCoordinator)) : FS :=
  match x with
  | (w, Some (Ok co)) =>
      w_fs (bootstrap_commit first_candidate co (killed_at 135) {| w_fs := w_fs w; w_calls := 0 |}).1
  | (w, _) => w_fs w
  end.
Definition answer {A} (x : World * option (result DurableBootstrapError A)) : option DurableBootstrapError :=
  match x.2 with Some (Err e) => Some e | _ => None end.

Lemma anchor_outruns_ledger :
  match opening calm_env (killed_commit first_opening) with
  | (w, Some (Ok co)) =>
      bc_state co = first_prepared ∧
      ∃ fs, power_loss (w_fs w) fs ∧
        answer (opening calm_env fs) = Some (GenerationRollbackDetected 0 1)
  | _ => False
  end.
Proof.
  assert (match opening calm_env (killed_commit first_opening) with
    | (w, Some (Ok co)) =>
        bc_state co = first_prepared ∧
        answer (opening calm_env (lose_name ledger_key (w_fs w))) = Some (GenerationRollbackDetected 0 1)
    | _ => False
    end) as Hx by (vm_compute; split; reflexivity).
  destruct (opening calm_env (killed_commit first_opening)) as [w [[co|]|]]; [|done..]. destruct Hx as [Hs Ha].
  split; [done|]. exists (lose_name ledger_key (w_fs w)). split; [apply lose_name_loss|done].
Qed.

(** ** The security baseline *)

(** The operations of a coordinator, each in a process of its own time. *)
Definition Running : Type := option (FS * DurableBootstrapCoordinator).
Definition and_then (op : DurableBootstrapCoordinator → BootstrapOperation) (r : Running) : Running :=
  match r with
  | Some (fs, co) =>
      match perform (op co) co calm_env {| w_fs := fs; w_calls := 0 |} with
      | (w, Some (co', Ok _)) => Some (w_fs w, co')
      | _ => None
      end
  | None => None
  end.
Definition opened_boot : Running :=
  match first_opening with (w, Some (Ok co)) => Some (w_fs w, co) | _ => None end.
Definition with_evidence (co : DurableBootstrapCoordinator) : BootstrapOperation :=
  match bs_active (bc_state co) with
  | Some a => OpCompleteEffectVerified (evidence_of (bc_state co) a)
  | None => OpCompleteVerified ""
  end.
Definition effect (stage : BootstrapStage) (r : Running) : Running :=
  and_then (λ _, OpMarkEffectStarted "operation-1") (and_then (λ _, OpPrepareStage stage "operation-1") r).
Definition before_baseline : Running :=
  effect SecurityBaseline (and_then with_evidence (effect PersistentStateInitialization
    (and_then with_evidence (effect LinuraInstallation
      (and_then (λ _, OpCompleteVerified "operation-1")
        (and_then (λ _, OpPrepareStage BaseEnvironmentVerification "operation-1") opened_boot)))))).

Definition baseline_check (r : Running) : bool :=
  match r with
  | Some (fs, co) =>
      match verify_security_baseline co calm_env {| w_fs := fs; w_calls := 0 |} with
      | (_, Some (_, Ok _)) => true
      | _ => false
      end
  | None => false
  end.
Lemma baseline_checked : baseline_check before_baseline = true.
Proof. vm_compute. reflexivity. Qed.
Lemma baseline_check_spec r :
  baseline_check r = true → ∃ fs co w' co', r = Some (fs, co) ∧
    verify_security_baseline co calm_env {| w_fs := fs; w_calls := 0 |} = (w', Some (co', Ok tt)).
Proof.
  unfold baseline_check. destruct r as [[fs co]|]; [|done].
  destruct (verify_security_baseline co calm_env {| w_fs := fs; w_calls := 0 |}) as [w' [[co' [[]|]]|]] eqn:E; [|done..].
  intros _. exists fs, co, w', co'. by split.
Qed.


Definition sample_segments : list Segment :=
  [Filler ["table"; "inet"; "filter"; "{"];
   Chain "input" ["type"; "filter"; "hook"; "input"; "priority"; "0"; ";"; "policy"; "drop"; ";"; "ct"; "state"; "{";
                  "established"; "related"; "}"; "accept"; "log"; "prefix"];
   Chain "output" ["type"; "filter"; "hook"; "output"; "priority"; "0"; ";"; "policy"; "accept"; ";"];
   Filler ["}"]]%string.

Lemma sample_segments_ok : Forall segment_ok sample_segments.
Proof.
  repeat constructor; [|vm_compute; reflexivity..|]; apply (bool_decide_eq_true_1 (_ ∉ _)); vm_compute; reflexivity.
Qed.

(** Its rules: the words in quotes are not part of them. *)
Lemma firewall_check_exact_witness :
  nft_tokens sample_ruleset = concat (segment_tokens <$> sample_segments) ∧
  nft_input_base_chain_default_deny sample_ruleset = true.
Proof.
  assert (nft_tokens sample_ruleset = concat (segment_tokens <$> sample_segments)) as Ht by (vm_compute; reflexivity).
  split; [exact Ht|]. apply (firewall_check_exact sample_ruleset sample_segments Ht sample_segments_ok).
  eexists _, _. split; [right; left|]. split; vm_compute; reflexivity.
Defined.

(** A comment between a field and the line that continues it hides the value. *)
Lemma comment_hides_continuation :
  apt_source_text_fail_closed (unlines ["Types: deb"; "Trusted:"; " yes"]%string) Deb822 = false ∧
  apt_source_text_fail_closed (unlines ["Types: deb"; "Trusted:"; "# why"; " yes"]%string) Deb822 = true.
Proof. split; vm_compute; reflexivity. Qed.

(** ** The recovery checkpoint *)
Definition tree_fs (l : list (Key * Inode)) : FS :=
  {| fs_entries := list_to_map (imap (λ i x, (x.1, dir_entry i)) l);
     fs_inodes := list_to_map (imap (λ i x, (i, x.2)) l);
     fs_next := length l |}.
Definition plain_file (k mode : Z) (data : string) : Inode :=
  {| i_kind := RegularFile; i_mode := mode; i_uid := 0; i_nlink := 1; i_dev := 1; i_ino := k;
     i_mtime := (1000, 0)%Z; i_ctime := (1000, 0)%Z; i_data := data; i_synced := true |}.
Definition saved : string := "saved state".
Definition sample_receipt : string :=
  unlines ["schema=1"; "producer=linura-recovery-v09"; "session_id=session-1"; "plan_id=plan-1"; "checkpoint_id=c1";
           "checkpoint_sha256=" +:+ sha256_hex saved; "restored_sha256=" +:+ sha256_hex saved; "result=restored"]%string.
Definition producer_key (rest : list string) : Key := ["var"; "lib"; "linura-recovery"; "v0.9"]%string ++ rest.
Definition recovery_fs : FS :=
  tree_fs (imap (λ i k, (k, dir_inode (Z.of_nat i)))
             [[]; ["usr"]; ["usr"; "bin"]; ["var"]; ["var"; "lib"]; ["var"; "lib"; "linura-recovery"];
              producer_key []; producer_key ["checkpoints"]; producer_key ["restored"]; producer_key ["receipts"]]
           ++ [(["usr"; "bin"; "bash"], plain_file 50 493 ""); (["usr"; "bin"; "apt"], plain_file 51 493 "");
               (producer_key ["checkpoints"; "c1.bin"], plain_file 52 384 saved);
               (producer_key ["restored"; "c1.bin"], plain_file 53 384 saved);
               (producer_key ["receipts"; "c1.receipt"], plain_file 54 384 sample_receipt)]).
Definition recovering : World * option (result BootstrapError RecoveryCheckpointEvidence) :=
  verify_v09 " session-1" "plan-1" "c1" "/var/lib/linura-recovery/v0.9/checkpoints/c1.bin"
    "/var/lib/linura-recovery/v0.9/restored/c1.bin" (sha256_hex saved) calm_env {| w_fs := recovery_fs; w_calls := 0 |}.

Lemma recovering_Ok : match recovering.2 with Some (Ok _) => true | _ => false end = true.
Proof. vm_compute. reflexivity. Qed.

(** A checkpoint that was restored. *)
Lemma recovery_evidence_binds_witness :
  ∃ w' e, recovering = (w', Some (Ok e)) ∧ recovery_validate_binding e "session-1" "plan-1" = Ok tt.
Proof.
  pose proof recovering_Ok as Hr. destruct recovering as [w' [[e|]|]] eqn:E; [|discriminate Hr..].
  exists w', e. split; [reflexivity|].
  exact (proj2 (proj2 (recovery_evidence_binds " session-1" "plan-1" "c1" _ _ _ calm_env _ w' e E))).
Defined.
